(* ===== verification/_CoqProject ===== *)
-Q . S2P
Prelude.v
Uint256.v
Params.v
VMCommon.v
Stack.v
Memory.v
Opcodes.v
Analysis.v
AccessList.v
Rlp.v
RlpStream.v
RlpCodec.v
RlpTyped.v
RlpTypes.v
StateTypes.v
Demo.v
StateObject.v
StateDB.v
StateRevert.v
VMInterface.v
Contract.v
GasTable.v
Instructions.v
JumpTable.v
Precompiles.v
Interpreter.v
VMLogic.v
VMHandlers.v
VMGas.v
VMRun.v
VMLoop.v
VMTurn.v
VMTable.v
StateVM.v
StateLaws.v
StateFinalise.v
VMDemo.v
VMStack.v
VMTheorems.v
StateTransition.v
TransitionLogic.v
TransitionTheorems.v
Transactions.v
TxTheorems.v
Bloom.v
Blocks.v
BlockTheorems.v
Consensus.v
HashFn.v
Processor.v
ProcessorTheorems.v
TrieEncoding.v
TrieTree.v
TrieNode.v
TrieHasher.v
TrieCodec.v
Trie.v
TrieSim.v
TrieUpdate.v
TrieMap.v
TrieTheorems.v
TrieCommit.v
TrieProof.v
StackTrie.v
StackSim.v
StackTheorems.v
DeriveSha.v
Receipts.v
Validator.v
AccountCodec.v
SecureTrie.v
SecureTheorems.v
StateRoot.v
Heap.v
TxList.v
TxListTheorems.v
TxPool.v
PoolInvariant.v
PoolOperations.v
PoolTheorems.v
