(* ===== verification/Prelude.v ===== *)
(** * Verification of the go-qrl execution layer

    go-qrl is an execution client: it keeps the accounts of a chain in a state
    database, runs the transactions of a block on it with a virtual machine, and
    serves the result to a network.  This library models the part of the program
    that decides what a block does, from the bytes of a transaction to the balances
    at the end, translated from the Go source, and proves what that part promises.

    ** How Go is modelled

    Go code is written as functions that return an [outcome]: a value, a run-time
    panic (explicit, out-of-range index, nil dereference) or, for the few
    functions that take fuel, its exhaustion.  Code that mutates an object is a
    computation [M S A] over the object's record; errors are values, as in Go.
    Machine integers are integers of [Z] kept in range by [u64] and the predicates
    [in64] and [in256]; [big.Int] is [Z]; bytes are integers below 256; maps and
    sets are finite maps and sets.  Pointers are modelled by writing the changed
    record back where Go changes it in place.  Third-party code is a class whose
    laws are stated separately and instantiated once: 256-bit integers
    ([Uint256], with the reference [uint256_ref]), hashing ([Crypto]), signatures
    and wallets ([PQCrypto]), the trie and the snapshot under the state
    ([Database]) and the SSZ hasher ([Ssz]).  The order in which Go ranges over a map is
    a class too ([MapOrder]): any permutation of the entries, so that what is proved of
    the transaction pool holds whatever order the runtime picks.

    ** The parts and their files

    - Prelude: this file; outcomes, state monad, slices, integers, tactics.
    - Uint256, Params, VMCommon: 256-bit words, protocol constants, core/vm/common.go,
      common/math, common/bytes.go, core/vm/gas.go.
    - Stack, Memory, Opcodes, Analysis: core/vm/stack.go, memory.go, opcodes.go,
      analysis.go.
    - Rlp: the encoder buffer and the raw decoder of rlp/.  RlpStream: the stream of
      rlp/decode.go and the typed decoders and writers.  RlpCodec, RlpTyped,
      RlpTypes: the proof that each of them is a codec.
    - AccessList: core/state/access_list.go.
    - StateTypes, StateObject, StateDB: core/types/state_account.go and core/state:
      accounts, state objects, the journal, the state database.
    - StateRevert: the theorems on snapshots; Demo: a concrete backing store.
    - VMInterface: the interface core/vm/interface.go between machine and state as a
      signature of operations, with the laws the machine relies on.
    - Contract, GasTable, Instructions, JumpTable, Precompiles, Interpreter:
      core/vm/contract.go, gas_table.go, operations_acl.go, memory_table.go,
      instructions.go, qips.go, jump_table.go, contracts.go, interpreter.go, qrvm.go.
    - VMLogic, VMHandlers, VMGas, VMRun, VMLoop, VMTurn, VMTable: a program logic for
      the machine and its use on gas functions, handlers, entry points, the table
      and the loop.
    - StateVM, StateLaws: StateDB implements the interface and satisfies its laws.
      StateFinalise: the end of a transaction.
    - VMDemo, VMStack, VMTheorems: a machine to run, the bound on the stack, and the
      theorems on calls and creations.
    - StateTransition, TransitionLogic, TransitionTheorems: core/state_transition.go
      and core/gaspool.go: a message from its checks to the payment of the tip.
    - Transactions, TxTheorems: core/types/transaction.go, tx_dynamic_fee.go,
      transaction_signing.go and crypto/pqcrypto.
    - Bloom: core/types/bloom9.go.  Blocks, BlockTheorems: headers and withdrawals of
      core/types with their generated encoders.
    - Consensus: consensus/beacon, consensus/misc: header verification, base fee.
    - HashFn: GetHashFn of core/qrvm.go.
    - Processor, ProcessorTheorems: core/state_processor.go, the contexts of
      core/qrvm.go and Finalize of the beacon engine.
    - TrieEncoding, TrieNode, TrieHasher, TrieCodec, Trie: trie/encoding.go, node.go,
      node_enc.go, hasher.go, tracer.go, trie_reader.go and trie.go.  TrieTree: the
      reference, the one tree of a finite map and its root [map_root].  TrieSim,
      TrieUpdate, TrieMap: the nodes, some of them only known by hash,
      stand for such a tree through every operation.  TrieTheorems: the results.
    - TrieCommit: trie/committer.go, trienode/node.go, Commit.  TrieProof: proofs of
      trie/proof.go, and decoding of nodes from untrusted bytes.
    - StackTrie, StackSim, StackTheorems: trie/stacktrie.go.
    - DeriveSha: core/types/hashing.go: the class [TrieHasher] is Go's
      interface, [TrieHasherSpec] what its users rely on, and both tries satisfy it.
    - Receipts: core/types/receipt.go, log.go and the lists of receipts, transactions and
      withdrawals.
    - Validator: core/block_validator.go and NewBlock of core/types/block.go.
    - AccountCodec: the two codecs of core/types/state_account.go.  SecureTrie,
      SecureTheorems: trie/secure_trie.go and preimages.go, the state trie over hashed
      keys.  The classes [Secured] and [SecuredSpec] say how addresses and slots are
      keys and how accounts and values are bytes; the theorems are proved against them.
    - StateRoot: core/state/database.go: state tries as the tries of StateDB.  The class
      [TrieLaws] is what the computation of the root relies on, and they satisfy it.
    - Heap: container/heap of the standard library.  TxList: the nonce-sorted map, the
      list of an account, the noncer, the index by hash and the price heaps of
      core/txpool/legacypool (list.go, noncer.go and the end of legacypool.go); the class
      [TxView] is what they read of a transaction.  TxListTheorems: the list refines a map.
    - TxPool: the pool of legacypool.go with the checks of core/txpool/validation.go and
      the reservations of txpool.go, one record [LegacyPool] and one computation per
      method under the pool's lock.  [PoolChain] is Go's BlockChain interface, and
      [TxChecks] the checks that need no state, with ValidateTransaction as the instance.
      PoolInvariant: the invariant [pool_inv], with parameters for the transactions that
      are on their way between lists inside a method.  PoolOperations: every method keeps
      it, in a total-correctness logic ([ends]).  PoolTheorems: what follows for
      histories of the pool.

    ** What is proved

    - State: reverting to a snapshot undoes every operation since, whatever their
      order and nesting, and states so related answer every getter alike.
    - Machine: a call or creation ends if its fuel exceeds its gas, and never gives
      back more gas than it got; a failed call leaves the state as it was, and a failed
      creation only the nonce of the creator and an entry of the access list, unless it
      failed for want of gas to store its code, in which case it is not undone; a static
      call, and every call below it, freezes the state; the operand stack stays
      within its limit.  These hold for any state that satisfies the interface's
      laws, hence for StateDB.
    - Money and gas: calls conserve the sum of all balances; a message burns what it
      pays less the tip, which is the base fee of its gas when it is priced as a
      transaction is, uses no more than its limit and no less than four fifths of its
      intrinsic gas; a refused message leaves the state alone, or with the purchase of its
      gas and nothing else; a block changes the sum of all balances by its withdrawals less
      the base fee of the gas it used, and its receipts add up to that gas, which
      stays within the limit of the block.
    - Encoding: RLP output is canonical, and reading inverts writing, for every type of
      [rtype], which has no optional or tail fields, raw values or custom encoders;
      transactions and headers have one binary form each.
    - Signatures: the bytes signed determine the chain and every field, and the
      sender found for a signed transaction is the wallet that signed it.
    - Headers: a batch verifies exactly when it is a chain, the base fee follows the
      gas used, the cache of block hashes does not show, the bloom filter has no
      false negatives and no stray bits.
    - Tries: a trie refines a finite map, for lookups, updates, deletions and root
      hashes, whatever part of it is loaded; a node the store lacks is reported and
      changes nothing.  A committed trie, ordinary or built in order, can be opened
      again from its nodes.  The stack trie has the root of the ordinary one.  Proofs
      are complete, and sound unless two nodes with different encodings have one hash.
    - Blocks: roots of lists determine the lists up to such a collision, so a header
      fixes the body and the receipts that the validator accepts, and the validator
      finds no fault with the roots of what NewBlock assembles; a filter it keeps for
      want of receipts is refused.  The gas limit converges to the desired one or the
      minimum, by steps that verification accepts if that is not above the maximum.
    - State trie: the trie over hashed keys refines a map of accounts or of slots, and
      its root binds the accounts; a slot set to the empty value stays in it.  The root that StateDB computes over it is that of the
      accounts and storage with all changes.
    - Transaction pool: in every history of additions, reorganisations, evictions and tip
      changes no method panics or loops, and its books agree after each; after a
      reorganisation it keeps to its global limits, as far as accounts that are local or
      within their own allowance let it, and pending transactions start at the nonce of the
      state and can be paid for one by one; a change of branch reinjects exactly the
      transactions that the new branch lacks.  That pending transactions have no gaps is
      refuted by a history.
    - Components of the machine: jump destinations, memory fees, the 63/64 rule,
      memory windows, opcode names, the access list as a map of sets.

    ** Fuel

    [Interpreter.Run] takes fuel because Go's loop and the calls are mutually
    recursive.  One unit per instruction and per nested run is enough when there
    is more fuel than gas: every instruction that lets the loop go on costs at least
    one unit of gas, and a nested run gets less gas than its caller has.  The theorems
    on calls, messages and blocks state this as totality: fuel above the gas excludes
    [OutOfFuel].  They do not exclude [Panic]: that the machine never panics is not
    proved yet.
    Trie operations take fuel that the length of the key in nibbles bounds; the
    theorems on them have no fuel left to choose.  [VerifyProof] takes one unit per node
    and needs no more than the key has nibbles when the nodes are stored under their
    hashes; a store that lies about hashes can keep Go's loop going for ever.
    [sort.Search], the code bitmap and the RLP item counter take fuel that the
    length of their input bounds, and are proved never to run out.  The loops of the
    transaction pool take fuel from what they consume: heap entries, queued nonces,
    offending accounts, pending transactions, and block numbers on the way down to a
    common ancestor; that it suffices is part of the theorems on the pool.

    ** What is not modelled

    Networking, storage engines, synchronisation, RPC, key management, metrics and
    the command-line programs are input/output, concurrency or reflection around
    third-party code.  Of the tries, iterators, range proofs, the binary form of an
    unfinished stack trie, synchronisation and the node databases are left out, and the
    goroutines that hash large tries run one after the other here.  Reads of the state
    database leave its tries alone: the nodes they load are loaded again.  That objects
    remember the slots they change as the trie has them is a hypothesis of the theorem on
    the root ([storage_ready]), as is that hashes of the keys in use differ.
    Of the transaction pool, the goroutines that schedule its methods, the journal on
    disk, the subscriptions and the routing of the main pool to subpools are left out:
    the methods are atomic steps, in any order, but for the checks of Add before it takes
    the lock, which may see any pools.  The base fee after a head is a field of
    the head that the pool reads.  Derived receipt fields, tracer hooks of the machine,
    the trie prefetcher and StateDB.Commit are not modelled.

    The theorem on commits asks that no node hashes to zero, which marks deletions, nor
    the root to the hash of the empty trie ([proper_hashes]), and of a database that took over a node set that it serves those
    nodes ([takes_over]).  A deletion that fails for a missing node may leave paths in
    the tracer that are still live; what the tracer records is stated only for tries
    whose nodes can all be loaded.  The theorems on the pool ask that its limits fit signed
    integers ([config_ok]), that transactions with one hash have one sender
    ([HashedSender]), that the chain returns the blocks asked for ([ChainSpec]), that the
    basic checks of a transaction return, and that fewer than 2^63 transactions are
    known ([op_ok]). *)

From stdpp Require Export base list gmap fin_maps sets option numbers.
From Stdlib Require Export ZArith Lia.
#[global] Open Scope Z_scope.

(** ** Go values *)

(** The result of running a piece of Go code: a value, a run-time panic
    (explicit [panic], index or slice out of range, nil dereference), or, for
    the fuelled interpreter only, fuel exhaustion. *)
Inductive outcome (A : Type) : Type :=
| Ret (a : A)
| Panic
| OutOfFuel.
Arguments Ret {A} _.
Arguments Panic {A}.
Arguments OutOfFuel {A}.

Definition obind {A B} (m : outcome A) (k : A -> outcome B) : outcome B :=
  match m with Ret a => k a | Panic => Panic | OutOfFuel => OutOfFuel end.

(** State-passing computations over a store of type [S]. *)
Definition M (S A : Type) : Type := S -> outcome (A * S).

Definition mret {S A} (a : A) : M S A := fun s => Ret (a, s).
Definition mpanic {S A} : M S A := fun _ => Panic.
Definition mthen {S A B} (m : M S A) (k : A -> M S B) : M S B :=
  fun s => obind (m s) (fun r => k (fst r) (snd r)).
Definition mget {S} : M S S := fun s => Ret (s, s).
Definition mput {S} (s : S) : M S unit := fun _ => Ret (tt, s).
Definition mmodify {S} (f : S -> S) : M S unit := fun s => Ret (tt, f s).
(** Lift an outcome that does not touch the store. *)
Definition mlift {S A} (o : outcome A) : M S A :=
  fun s => obind o (fun a => Ret (a, s)).

Declare Scope go_scope.
Delimit Scope go_scope with go.
Notation "'let!' x ':=' m 'in' k" := (obind m (fun x => k))
  (at level 10, x pattern, m at level 100, k at level 200) : go_scope.
Notation "'let*' x ':=' m 'in' k" := (mthen m (fun x => k))
  (at level 10, x pattern, m at level 100, k at level 200) : go_scope.
Notation "m ';;;' k" := (mthen m (fun _ => k))
  (at level 100, k at level 200, right associativity) : go_scope.
#[global] Open Scope go_scope.

Lemma obind_Ret {A B} (m : outcome A) (k : A -> outcome B) b :
  obind m k = Ret b <-> exists a, m = Ret a /\ k a = Ret b.
Proof. destruct m; simpl; split; intros; destruct_and?; eauto; try discriminate; by destruct H as (? & [=-> ] & ?). Qed.

Lemma mthen_Ret {S A B} (m : M S A) (k : A -> M S B) s b s' :
  mthen m k s = Ret (b, s') <-> exists a s1, m s = Ret (a, s1) /\ k a s1 = Ret (b, s').
Proof.
  unfold mthen. rewrite obind_Ret. split.
  - intros [[a s1] [H1 H2]]. eauto.
  - intros (a & s1 & H1 & H2). exists (a, s1). auto.
Qed.

Lemma mthen_cong {S A B} (m : M S A) (k k' : A -> M S B) s :
  (forall a s, k a s = k' a s) -> mthen m k s = mthen m k' s.
Proof. intros Hk. unfold mthen. destruct (m s) as [[a s']| |]; cbn; auto. Qed.

Lemma mthen_assoc {S A B C} (m : M S A) (k : A -> M S B) (h : B -> M S C) s :
  mthen (mthen m k) h s = mthen m (fun a => mthen (k a) h) s.
Proof. unfold mthen. by destruct (m s) as [[a s']| |]. Qed.

Lemma mlift_Ret {S A} (o : outcome A) (s : S) a s' : mlift o s = Ret (a, s') <-> o = Ret a /\ s = s'.
Proof.
  unfold mlift. destruct o; simpl; split; intros; destruct_and?; simplify_eq; auto.
Qed.

(** Decompose a successful run of a monadic block in hypothesis [H]. *)
Ltac minv1 H :=
  lazymatch type of H with
  | mthen _ _ _ = Ret _ =>
      let a := fresh "a" in let s := fresh "s" in
      let H1 := fresh "Hm" in let H2 := fresh "Hm" in
      apply mthen_Ret in H as (a & s & H1 & H2); minv1 H1; minv1 H2
  | obind _ _ = Ret _ =>
      let a := fresh "a" in let H1 := fresh "Hm" in let H2 := fresh "Hm" in
      apply obind_Ret in H as (a & H1 & H2); minv1 H1; minv1 H2
  | mret _ _ = Ret _ => unfold mret in H; simplify_eq
  | mget _ = Ret _ => unfold mget in H; injection H as <- <-
  | mput _ _ = Ret _ => unfold mput in H; simplify_eq
  | mmodify _ _ = Ret _ => unfold mmodify in H; simplify_eq
  | mlift _ _ = Ret _ =>
      let H1 := fresh "Hm" in let H2 := fresh "Hs" in
      apply mlift_Ret in H as [H1 H2]; subst
  | mpanic _ = Ret _ => discriminate H
  | Panic = Ret _ => discriminate H
  | OutOfFuel = Ret _ => discriminate H
  | Ret _ = Ret _ => simplify_eq H
  | _ => idtac
  end.
Ltac minv H := minv1 H; simpl in *.

(** ** Machine integers *)

(** Go [uint64]: the integers modulo 2^64, kept as their representative in
    [0, 2^64). *)
Definition u64 (z : Z) : Z := z mod 2 ^ 64.
Definition MaxUint64 : Z := 2 ^ 64 - 1.
Definition in64 (z : Z) : Prop := 0 <= z < 2 ^ 64.
(** Conversion [int64(x)] of a [uint64]. *)
Definition int64_of (z : Z) : Z :=
  let w := u64 z in if w <? 2 ^ 63 then w else w - 2 ^ 64.
(** Conversion [byte(x)]. *)
Definition byte_of (z : Z) : Z := z mod 256.
Definition is_byte (z : Z) : Prop := 0 <= z < 256.
Definition in256 (z : Z) : Prop := 0 <= z < 2 ^ 256.

Lemma u64_small z : in64 z -> u64 z = z.
Proof. intros. apply Z.mod_small. exact H. Qed.
Lemma u64_in64 z : in64 (u64 z).
Proof. apply Z.mod_pos_bound. lia. Qed.
Lemma int64_of_small z : 0 <= z < 2 ^ 63 -> int64_of z = z.
Proof.
  intros. unfold int64_of. rewrite u64_small by (unfold in64; lia).
  destruct (Z.ltb_spec z (2 ^ 63)); lia.
Qed.
Lemma byte_of_is_byte z : is_byte (byte_of z).
Proof. apply Z.mod_pos_bound. lia. Qed.

Create HintDb qrl.
#[export] Hint Resolve u64_in64 byte_of_is_byte : qrl.

(** ** Slices *)

Definition Zlen {A} (l : list A) : Z := Z.of_nat (length l).

Lemma Zlen_nonneg {A} (l : list A) : 0 <= Zlen l.
Proof. unfold Zlen. lia. Qed.
#[export] Hint Resolve Zlen_nonneg : qrl.

(** A pointer, nil as [None]. *)
Definition deref {A} (p : option A) : outcome A := match p with Some x => Ret x | None => Panic end.

(** [l[i]], panicking out of range. *)
Definition go_index {A} (l : list A) (i : Z) : outcome A :=
  if (0 <=? i) then
    match l !! Z.to_nat i with Some a => Ret a | None => Panic end
  else Panic.

(** [l[i] = v], panicking out of range. *)
Definition go_set {A} (l : list A) (i : Z) (v : A) : outcome (list A) :=
  if (0 <=? i) && (i <? Zlen l) then Ret (<[Z.to_nat i := v]> l) else Panic.

(** [l[lo:hi]].  Go checks [hi] against the capacity; the model checks it
    against the length, so it panics at least as often as the program. *)
Definition go_slice {A} (l : list A) (lo hi : Z) : outcome (list A) :=
  if (0 <=? lo) && (lo <=? hi) && (hi <=? Zlen l)
  then Ret (take (Z.to_nat (hi - lo)) (drop (Z.to_nat lo) l))
  else Panic.

(** [copy(l[off:], src)]: overwrite as many elements as fit. *)
Definition go_copy_at {A} (l : list A) (off : nat) (src : list A) : list A :=
  let n := Nat.min (length src) (length l - off) in
  take off l ++ take n src ++ drop (off + n) l.

Lemma length_go_copy_at {A} (l : list A) off src :
  length (go_copy_at l off src) = length l.
Proof.
  unfold go_copy_at. rewrite !length_app, !length_take, length_drop. lia.
Qed.

Lemma go_slice_Ret {A} (l : list A) lo hi :
  0 <= lo <= hi -> hi <= Zlen l ->
  go_slice l lo hi = Ret (take (Z.to_nat (hi - lo)) (drop (Z.to_nat lo) l)).
Proof.
  intros. unfold go_slice.
  destruct (Z.leb_spec 0 lo), (Z.leb_spec lo hi), (Z.leb_spec hi (Zlen l)); simpl; auto; lia.
Qed.

Lemma go_index_Ret {A} (l : list A) i :
  0 <= i < Zlen l -> exists a, go_index l i = Ret a /\ l !! Z.to_nat i = Some a.
Proof.
  unfold go_index, Zlen. intros [H1 H2].
  destruct (Z.leb_spec 0 i); [|lia].
  destruct (lookup_lt_is_Some_2 l (Z.to_nat i)) as [a Ha]; [lia|].
  rewrite Ha. eauto.
Qed.

(** ** Byte strings as big-endian integers *)

Definition bytes_to_Z (l : list Z) : Z := fold_left (fun acc b => acc * 256 + b) l 0.

Fixpoint Z_to_bytes (n : nat) (z : Z) : list Z :=
  match n with
  | O => []
  | S n => Z_to_bytes n (z / 256) ++ [z mod 256]
  end.

Lemma length_Z_to_bytes n z : length (Z_to_bytes n z) = n.
Proof. revert z; induction n; intros; simpl; [done|]. rewrite length_app, IHn; simpl; lia. Qed.

Lemma bytes_to_Z_snoc l b : bytes_to_Z (l ++ [b]) = bytes_to_Z l * 256 + b.
Proof. unfold bytes_to_Z. by rewrite fold_left_app. Qed.

Lemma bytes_to_Z_to_bytes n z : bytes_to_Z (Z_to_bytes n z) = z mod 256 ^ Z.of_nat n.
Proof.
  revert z; induction n as [|n IH]; intros z.
  - simpl. by rewrite Z.mod_1_r.
  - cbn [Z_to_bytes]. rewrite bytes_to_Z_snoc, IH.
    rewrite Nat2Z.inj_succ, Z.pow_succ_r by lia.
    rewrite Z.rem_mul_r by lia. lia.
Qed.

Lemma Z_to_bytes_byte n z : Forall is_byte (Z_to_bytes n z).
Proof.
  revert z; induction n; intros; simpl; [constructor|].
  apply Forall_app; split; [done|]. constructor; [|constructor].
  apply Z.mod_pos_bound; lia.
Qed.

Lemma bytes_to_Z_bound l : Forall is_byte l -> 0 <= bytes_to_Z l < 256 ^ Zlen l.
Proof.
  unfold Zlen. induction l as [|b l IH] using rev_ind; intros HF.
  - vm_compute; split; congruence.
  - apply Forall_app in HF as [HF1 HF2]. inversion HF2 as [|? ? Hb _]; subst.
    specialize (IH HF1). rewrite bytes_to_Z_snoc, length_app; simpl.
    replace (Z.of_nat (length l + 1)) with (Z.succ (Z.of_nat (length l))) by lia.
    rewrite Z.pow_succ_r by lia. unfold is_byte in Hb. lia.
Qed.
#[export] Hint Resolve Z_to_bytes_byte : qrl.

(** ** Deciding a finite list of cases by evaluation *)

Lemma forallb_Forall {A} (P : A -> Prop) `{Hdec : !forall x, Decision (P x)} (l : list A) :
  forallb (fun x => bool_decide (P x)) l = true -> Forall P l.
Proof.
  induction l as [|x l IH]; simpl; intros Hl; [constructor|].
  apply andb_true_iff in Hl as [H1 H2]. constructor; [|auto].
  exact (bool_decide_eq_true_1 _ H1).
Qed.
