(* ===== verification/Uint256.v ===== *)
(** * The 256-bit integer library

    [github.com/holiman/uint256] is not part of the repository, so the virtual
    machine is modelled over an interface: the class [Uint256] holds the
    methods the program calls, acting on the value of an [uint256.Int] (an
    integer in [0, 2^256)), and the class [Uint256Spec] states the documented
    behaviour of each of them.  [uint256_ref] is a concrete implementation that
    satisfies the specification; witnesses evaluate the machine over it. *)

From S2P Require Import Prelude.

(** ** Reference semantics of the documented operations *)

Definition u256 (z : Z) : Z := z mod 2 ^ 256.
(** Two's complement reading of a 256-bit word. *)
Definition s256 (z : Z) : Z := if z <? 2 ^ 255 then z else z - 2 ^ 256.

Definition w_sdiv (x y : Z) : Z := if y =? 0 then 0 else u256 (Z.quot (s256 x) (s256 y)).
Definition w_smod (x y : Z) : Z := if y =? 0 then 0 else u256 (Z.rem (s256 x) (s256 y)).
Definition w_div (x y : Z) : Z := if y =? 0 then 0 else x / y.
Definition w_mod (x y : Z) : Z := if y =? 0 then 0 else x mod y.
(** Square-and-multiply modulo 2^256, so that large exponents evaluate. *)
Fixpoint w_exp_pos (x : Z) (p : positive) : Z :=
  match p with
  | xH => u256 x
  | xO p => let r := w_exp_pos x p in u256 (r * r)
  | xI p => let r := w_exp_pos x p in u256 (u256 (r * r) * x)
  end.
Definition w_exp (x y : Z) : Z := match y with Zpos p => w_exp_pos x p | _ => 1 end.
(** Extend the sign bit of the byte at index [back], counted from the least
    significant byte. *)
Definition w_signextend (num back : Z) : Z :=
  if 30 <? back then num
  else
    let bit := 8 * back + 7 in
    if Z.testbit num bit
    then Z.lor num (2 ^ 256 - 2 ^ (bit + 1))
    else num mod 2 ^ (bit + 1).
(** The byte at position [n], position 0 being the most significant. *)
Definition w_byte (val n : Z) : Z :=
  if 31 <? n then 0 else (Z.shiftr val (8 * (31 - n))) mod 256.
Definition w_addmod (x y m : Z) : Z := if m =? 0 then 0 else (x + y) mod m.
Definition w_mulmod (x y m : Z) : Z := if m =? 0 then 0 else (x * y) mod m.
Definition w_lsh (x n : Z) : Z := u256 (Z.shiftl x n).
Definition w_rsh (x n : Z) : Z := Z.shiftr x n.
Definition w_srsh (x n : Z) : Z := u256 (Z.shiftr (s256 x) n).
Definition w_setbytes (l : list Z) : Z := bytes_to_Z (drop (length l - 32) l).
Definition w_bitlen (x : Z) : Z := if x =? 0 then 0 else Z.log2 x + 1.

(** ** The interface *)

Class Uint256 : Type := {
  u_Add : Z -> Z -> Z;
  u_Sub : Z -> Z -> Z;
  u_Mul : Z -> Z -> Z;
  u_Div : Z -> Z -> Z;
  u_SDiv : Z -> Z -> Z;
  u_Mod : Z -> Z -> Z;
  u_SMod : Z -> Z -> Z;
  u_Exp : Z -> Z -> Z;
  u_ExtendSign : Z -> Z -> Z;
  u_Not : Z -> Z;
  u_Lt : Z -> Z -> bool;
  u_Gt : Z -> Z -> bool;
  u_Slt : Z -> Z -> bool;
  u_Sgt : Z -> Z -> bool;
  u_Eq : Z -> Z -> bool;
  u_IsZero : Z -> bool;
  u_And : Z -> Z -> Z;
  u_Or : Z -> Z -> Z;
  u_Xor : Z -> Z -> Z;
  u_Byte : Z -> Z -> Z;
  u_AddMod : Z -> Z -> Z -> Z;
  u_MulMod : Z -> Z -> Z -> Z;
  u_LtUint64 : Z -> Z -> bool;
  u_GtUint64 : Z -> Z -> bool;
  u_Lsh : Z -> Z -> Z;
  u_Rsh : Z -> Z -> Z;
  u_SRsh : Z -> Z -> Z;
  u_Sign : Z -> Z;
  u_SetBytes : list Z -> Z;
  u_Bytes32 : Z -> list Z;
  u_Bytes20 : Z -> list Z;
  u_Uint64 : Z -> Z;
  u_Uint64WithOverflow : Z -> Z * bool;
  u_IsUint64 : Z -> bool;
  u_SetUint64 : Z -> Z;
  u_ToBig : Z -> Z;
  u_FromBig : Z -> Z;
  u_BitLen : Z -> Z;
}.

Class Uint256Spec (U : Uint256) : Prop := {
  Add_spec x y : in256 x -> in256 y -> u_Add x y = u256 (x + y);
  Sub_spec x y : in256 x -> in256 y -> u_Sub x y = u256 (x - y);
  Mul_spec x y : in256 x -> in256 y -> u_Mul x y = u256 (x * y);
  Div_spec x y : in256 x -> in256 y -> u_Div x y = w_div x y;
  SDiv_spec x y : in256 x -> in256 y -> u_SDiv x y = w_sdiv x y;
  Mod_spec x y : in256 x -> in256 y -> u_Mod x y = w_mod x y;
  SMod_spec x y : in256 x -> in256 y -> u_SMod x y = w_smod x y;
  Exp_spec x y : in256 x -> in256 y -> u_Exp x y = u256 (x ^ y);
  ExtendSign_spec x y : in256 x -> in256 y -> u_ExtendSign x y = w_signextend x y;
  Not_spec x : in256 x -> u_Not x = 2 ^ 256 - 1 - x;
  Lt_spec x y : in256 x -> in256 y -> u_Lt x y = (x <? y);
  Gt_spec x y : in256 x -> in256 y -> u_Gt x y = (y <? x);
  Slt_spec x y : in256 x -> in256 y -> u_Slt x y = (s256 x <? s256 y);
  Sgt_spec x y : in256 x -> in256 y -> u_Sgt x y = (s256 y <? s256 x);
  Eq_spec x y : in256 x -> in256 y -> u_Eq x y = (x =? y);
  IsZero_spec x : in256 x -> u_IsZero x = (x =? 0);
  And_spec x y : in256 x -> in256 y -> u_And x y = Z.land x y;
  Or_spec x y : in256 x -> in256 y -> u_Or x y = Z.lor x y;
  Xor_spec x y : in256 x -> in256 y -> u_Xor x y = Z.lxor x y;
  Byte_spec x y : in256 x -> in256 y -> u_Byte x y = w_byte x y;
  AddMod_spec x y m : in256 x -> in256 y -> in256 m -> u_AddMod x y m = w_addmod x y m;
  MulMod_spec x y m : in256 x -> in256 y -> in256 m -> u_MulMod x y m = w_mulmod x y m;
  LtUint64_spec x n : in256 x -> in64 n -> u_LtUint64 x n = (x <? n);
  GtUint64_spec x n : in256 x -> in64 n -> u_GtUint64 x n = (n <? x);
  Lsh_spec x n : in256 x -> in64 n -> u_Lsh x n = w_lsh x n;
  Rsh_spec x n : in256 x -> in64 n -> u_Rsh x n = w_rsh x n;
  SRsh_spec x n : in256 x -> in64 n -> u_SRsh x n = w_srsh x n;
  Sign_spec x : in256 x -> u_Sign x = Z.sgn (s256 x);
  SetBytes_spec l : Forall is_byte l -> u_SetBytes l = w_setbytes l;
  Bytes32_spec x : in256 x -> u_Bytes32 x = Z_to_bytes 32 x;
  Bytes20_spec x : in256 x -> u_Bytes20 x = Z_to_bytes 20 x;
  Uint64_spec x : in256 x -> u_Uint64 x = u64 x;
  Uint64WithOverflow_spec x : in256 x -> u_Uint64WithOverflow x = (u64 x, 2 ^ 64 <=? x);
  IsUint64_spec x : in256 x -> u_IsUint64 x = (x <? 2 ^ 64);
  SetUint64_spec x : in64 x -> u_SetUint64 x = x;
  ToBig_spec x : in256 x -> u_ToBig x = x;
  FromBig_spec z : u_FromBig z = u256 z;
  BitLen_spec x : in256 x -> u_BitLen x = w_bitlen x;
}.

(** ** A concrete implementation *)

#[export] Instance uint256_ref : Uint256 := {|
  u_Add x y := u256 (x + y);
  u_Sub x y := u256 (x - y);
  u_Mul x y := u256 (x * y);
  u_Div := w_div;
  u_SDiv := w_sdiv;
  u_Mod := w_mod;
  u_SMod := w_smod;
  u_Exp := w_exp;
  u_ExtendSign := w_signextend;
  u_Not x := 2 ^ 256 - 1 - x;
  u_Lt x y := x <? y;
  u_Gt x y := y <? x;
  u_Slt x y := s256 x <? s256 y;
  u_Sgt x y := s256 y <? s256 x;
  u_Eq x y := x =? y;
  u_IsZero x := x =? 0;
  u_And := Z.land;
  u_Or := Z.lor;
  u_Xor := Z.lxor;
  u_Byte := w_byte;
  u_AddMod := w_addmod;
  u_MulMod := w_mulmod;
  u_LtUint64 x n := x <? n;
  u_GtUint64 x n := n <? x;
  u_Lsh := w_lsh;
  u_Rsh := w_rsh;
  u_SRsh := w_srsh;
  u_Sign x := Z.sgn (s256 x);
  u_SetBytes := w_setbytes;
  u_Bytes32 := Z_to_bytes 32;
  u_Bytes20 := Z_to_bytes 20;
  u_Uint64 := u64;
  u_Uint64WithOverflow x := (u64 x, 2 ^ 64 <=? x);
  u_IsUint64 x := x <? 2 ^ 64;
  u_SetUint64 x := x;
  u_ToBig x := x;
  u_FromBig := u256;
  u_BitLen := w_bitlen;
|}.

Lemma u256_mul_l a b : u256 (u256 a * b) = u256 (a * b).
Proof. apply Z.mul_mod_idemp_l. lia. Qed.
Lemma u256_mul_r a b : u256 (a * u256 b) = u256 (a * b).
Proof. apply Z.mul_mod_idemp_r. lia. Qed.

Lemma w_exp_pos_spec x p : w_exp_pos x p = u256 (x ^ Zpos p).
Proof.
  assert (sq : forall a, u256 (u256 a * u256 a) = u256 (a * a)).
  { intros. by rewrite u256_mul_l, u256_mul_r. }
  induction p as [p IH|p IH|]; cbn [w_exp_pos]; [| |by rewrite Z.pow_1_r].
  - rewrite IH, sq, u256_mul_l. f_equal.
    rewrite Pos2Z.inj_xI, Z.pow_add_r, Z.pow_1_r, (Z.mul_comm 2), Z.pow_mul_r, Z.pow_2_r by lia.
    done.
  - rewrite IH, sq. f_equal.
    rewrite Pos2Z.inj_xO, (Z.mul_comm 2), Z.pow_mul_r, Z.pow_2_r by lia. done.
Qed.

#[export] Instance uint256_ref_spec : Uint256Spec uint256_ref.
Proof.
  split; intros; try reflexivity.
  - (* Exp *) destruct y as [|p|p]; [reflexivity|apply w_exp_pos_spec|].
    unfold in256 in *; lia.
Qed.

(** ** Ranges *)

Lemma u256_in256 z : in256 (u256 z).
Proof. apply Z.mod_pos_bound. lia. Qed.
Lemma u256_small z : in256 z -> u256 z = z.
Proof. intros. by apply Z.mod_small. Qed.
Lemma in256_0 : in256 0. Proof. unfold in256; lia. Qed.
Lemma in256_1 : in256 1. Proof. unfold in256; lia. Qed.
Lemma in64_in256 z : in64 z -> in256 z.
Proof. unfold in64, in256; lia. Qed.
#[export] Hint Resolve u256_in256 in256_0 in256_1 in64_in256 : qrl.

Lemma land_in256 x y : in256 x -> in256 y -> in256 (Z.land x y).
Proof.
  unfold in256. intros Hx Hy. split; [apply Z.land_nonneg; lia|].
  destruct (Z.eq_dec (Z.land x y) 0) as [->|]; [lia|].
  apply Z.log2_lt_pow2; [pose proof (proj2 (Z.land_nonneg x y)); lia|].
  eapply Z.le_lt_trans; [apply Z.log2_land; lia|].
  destruct (Z.eq_dec x 0) as [->|]; [simpl; lia|].
  apply Z.min_lt_iff. left. apply Z.log2_lt_pow2; lia.
Qed.

Lemma log2_lt_256 x : in256 x -> Z.log2 x < 256.
Proof.
  unfold in256. intros. destruct (Z.eq_dec x 0) as [->|]; [simpl; lia|].
  apply Z.log2_lt_pow2; lia.
Qed.

Lemma lor_in256 x y : in256 x -> in256 y -> in256 (Z.lor x y).
Proof.
  intros Hx Hy. pose proof (log2_lt_256 x Hx). pose proof (log2_lt_256 y Hy).
  unfold in256 in *. split; [apply Z.lor_nonneg; lia|].
  destruct (Z.eq_dec (Z.lor x y) 0) as [->|]; [lia|].
  apply Z.log2_lt_pow2; [pose proof (proj2 (Z.lor_nonneg x y)); lia|].
  rewrite Z.log2_lor by lia. lia.
Qed.

Lemma lxor_in256 x y : in256 x -> in256 y -> in256 (Z.lxor x y).
Proof.
  intros Hx Hy. pose proof (log2_lt_256 x Hx). pose proof (log2_lt_256 y Hy).
  unfold in256 in *. assert (0 <= Z.lxor x y) by (apply Z.lxor_nonneg; lia).
  split; [lia|]. destruct (Z.eq_dec (Z.lxor x y) 0) as [->|]; [lia|].
  apply Z.log2_lt_pow2; [lia|].
  pose proof (Z.log2_lxor x y ltac:(lia) ltac:(lia)). lia.
Qed.
#[export] Hint Resolve land_in256 lor_in256 lxor_in256 : qrl.

Lemma w_div_in256 x y : in256 x -> in256 y -> in256 (w_div x y).
Proof.
  unfold w_div, in256. intros. destruct (Z.eqb_spec y 0); [lia|].
  split; [apply Z.div_pos; lia|]. apply Z.div_lt_upper_bound; nia.
Qed.
Lemma mod_in256 x y : in256 y -> y <> 0 -> in256 (x mod y).
Proof. unfold in256. intros. pose proof (Z.mod_pos_bound x y). lia. Qed.
Lemma w_mod_in256 x y : in256 y -> in256 (w_mod x y).
Proof.
  unfold w_mod. intros. destruct (Z.eqb_spec y 0); auto using mod_in256 with qrl.
Qed.
Lemma w_sdiv_in256 x y : in256 (w_sdiv x y).
Proof. unfold w_sdiv. case_match; auto with qrl. Qed.
Lemma w_smod_in256 x y : in256 (w_smod x y).
Proof. unfold w_smod. case_match; auto with qrl. Qed.
Lemma w_addmod_in256 x y m : in256 m -> in256 (w_addmod x y m).
Proof. unfold w_addmod. intros. destruct (Z.eqb_spec m 0); auto using mod_in256 with qrl. Qed.
Lemma w_mulmod_in256 x y m : in256 m -> in256 (w_mulmod x y m).
Proof. unfold w_mulmod. intros. destruct (Z.eqb_spec m 0); auto using mod_in256 with qrl. Qed.
Lemma w_rsh_in256 x n : in256 x -> 0 <= n -> in256 (w_rsh x n).
Proof.
  unfold w_rsh, in256. intros. rewrite Z.shiftr_div_pow2 by lia.
  assert (0 < 2 ^ n) by (apply Z.pow_pos_nonneg; lia).
  split; [apply Z.div_pos; lia|]. apply Z.div_lt_upper_bound; nia.
Qed.
Lemma w_byte_in256 x n : in256 (w_byte x n).
Proof.
  unfold w_byte. case_match; auto with qrl.
  pose proof (Z.mod_pos_bound (Z.shiftr x (8 * (31 - n))) 256). unfold in256. lia.
Qed.
Lemma w_signextend_in256 x b : in256 x -> 0 <= b -> in256 (w_signextend x b).
Proof.
  unfold w_signextend. intros Hx Hb. destruct (Z.ltb_spec 30 b); [done|].
  assert (0 < 2 ^ (8 * b + 7 + 1) < 2 ^ 256).
  { split; [apply Z.pow_pos_nonneg; lia|apply Z.pow_lt_mono_r; lia]. }
  case_match.
  - apply lor_in256; [done|]. unfold in256; lia.
  - unfold in256. pose proof (Z.mod_pos_bound x (2 ^ (8 * b + 7 + 1))). lia.
Qed.
Lemma w_setbytes_in256 l : Forall is_byte l -> in256 (w_setbytes l).
Proof.
  intros. unfold w_setbytes.
  pose proof (bytes_to_Z_bound (drop (length l - 32) l) ltac:(by apply Forall_drop)) as Hb.
  unfold in256. split; [lia|]. eapply Z.lt_le_trans; [apply Hb|].
  change (2 ^ 256) with (256 ^ 32). apply Z.pow_le_mono_r; [lia|].
  unfold Zlen. rewrite length_drop. lia.
Qed.
#[export] Hint Resolve w_div_in256 w_mod_in256 w_sdiv_in256 w_smod_in256 w_addmod_in256
  w_mulmod_in256 w_rsh_in256 w_byte_in256 w_signextend_in256 w_setbytes_in256 : qrl.
