(* ===== verification/Params.v ===== *)
(** * Protocol parameters (params/protocol_params.go, core/vm/gas.go) and the
    error values of the virtual machine (core/vm/errors.go). *)

From S2P Require Import Prelude.

Definition MinGasLimit : Z := 5000.
Definition MaxGasLimit : Z := 20000000.
Definition CallValueTransferGas : Z := 9000.
Definition CallNewAccountGas : Z := 25000.
Definition TxGas : Z := 21000.
Definition TxGasContractCreation : Z := 53000.
Definition TxDataZeroGas : Z := 4.
Definition QuadCoeffDiv : Z := 512.
Definition LogDataGas : Z := 8.
Definition CallStipend : Z := 2300.
Definition Keccak256Gas : Z := 30.
Definition Keccak256WordGas : Z := 6.
Definition InitCodeWordGas : Z := 2.
Definition SstoreSentryGasEIP2200 : Z := 2300.
Definition SstoreSetGasEIP2200 : Z := 20000.
Definition SstoreResetGasEIP2200 : Z := 5000.
Definition ColdAccountAccessCostEIP2929 : Z := 2600.
Definition ColdSloadCostEIP2929 : Z := 2100.
Definition WarmStorageReadCostEIP2929 : Z := 100.
Definition TxAccessListAddressGas : Z := 2400.
Definition TxAccessListStorageKeyGas : Z := 1900.
Definition SstoreClearsScheduleRefundEIP3529 : Z :=
  SstoreResetGasEIP2200 - ColdSloadCostEIP2929 + TxAccessListStorageKeyGas.
Definition JumpdestGas : Z := 1.
Definition CreateDataGas : Z := 200.
Definition CallCreateDepth : Z := 1024.
Definition ExpGas : Z := 10.
Definition LogGas : Z := 375.
Definition CopyGas : Z := 3.
Definition StackLimit : Z := 1024.
Definition LogTopicGas : Z := 375.
Definition CreateGas : Z := 32000.
Definition Create2Gas : Z := 32000.
Definition MemoryGas : Z := 3.
Definition TxDataNonZeroGasEIP2028 : Z := 16.
Definition ExpByteEIP158 : Z := 50.
Definition DefaultBaseFeeChangeDenominator : Z := 8.
Definition DefaultElasticityMultiplier : Z := 2.
Definition MaxCodeSize : Z := 24576.
Definition MaxInitCodeSize : Z := 2 * MaxCodeSize.
Definition Sha256BaseGas : Z := 60.
Definition Sha256PerWordGas : Z := 12.
Definition IdentityBaseGas : Z := 15.
Definition IdentityPerWordGas : Z := 3.
Definition RefundQuotientEIP3529 : Z := 5.

(** Gas tiers of core/vm/gas.go. *)
Definition GasQuickStep : Z := 2.
Definition GasFastestStep : Z := 3.
Definition GasFastStep : Z := 5.
Definition GasMidStep : Z := 8.
Definition GasSlowStep : Z := 10.
Definition GasExtStep : Z := 20.

(** Unfold every numeric parameter. *)
Ltac unfold_params :=
  unfold MinGasLimit, MaxGasLimit, CallValueTransferGas, CallNewAccountGas, TxGas,
    TxGasContractCreation, TxDataZeroGas, QuadCoeffDiv, LogDataGas, CallStipend, Keccak256Gas,
    Keccak256WordGas, InitCodeWordGas, SstoreSentryGasEIP2200, SstoreSetGasEIP2200,
    SstoreResetGasEIP2200, ColdAccountAccessCostEIP2929, ColdSloadCostEIP2929,
    WarmStorageReadCostEIP2929, TxAccessListAddressGas, TxAccessListStorageKeyGas,
    SstoreClearsScheduleRefundEIP3529, JumpdestGas, CreateDataGas, CallCreateDepth, ExpGas,
    LogGas, CopyGas, StackLimit, LogTopicGas, CreateGas, Create2Gas, MemoryGas,
    TxDataNonZeroGasEIP2028, ExpByteEIP158, DefaultBaseFeeChangeDenominator,
    DefaultElasticityMultiplier, MaxInitCodeSize, MaxCodeSize, Sha256BaseGas, Sha256PerWordGas,
    IdentityBaseGas, IdentityPerWordGas, RefundQuotientEIP3529, GasQuickStep, GasFastestStep,
    GasFastStep, GasMidStep, GasSlowStep, GasExtStep, TxAccessListStorageKeyGas,
    ColdSloadCostEIP2929, SstoreResetGasEIP2200, MaxCodeSize in *.

(** The errors a message call can end with (core/vm/errors.go).  The last
    constructor stands for the errors a precompiled contract builds itself and
    for the SSTORE sentry, which no code compares against. *)
Inductive vm_error : Type :=
| ErrOutOfGas
| ErrCodeStoreOutOfGas
| ErrDepth
| ErrInsufficientBalance
| ErrContractAddressCollision
| ErrExecutionReverted
| ErrMaxInitCodeSizeExceeded
| ErrMaxCodeSizeExceeded
| ErrInvalidJump
| ErrWriteProtection
| ErrReturnDataOutOfBounds
| ErrGasUintOverflow
| ErrInvalidCode
| ErrNonceUintOverflow
| errStopToken
| ErrStackUnderflow (stackLen required : Z)
| ErrStackOverflow (stackLen limit : Z)
| ErrInvalidOpCode (opcode : Z)
| ErrOther.

#[export] Instance vm_error_eq_dec : EqDecision vm_error.
Proof. solve_decision. Defined.
