(* ===== verification/VMCommon.v ===== *)
(** * Shared helpers of the virtual machine

    common/math/integer.go (checked uint64 arithmetic), common/bytes.go
    (padding) and core/vm/common.go, core/vm/gas.go (memory sizes, data
    slicing, the 63/64 rule), with the facts the gas tables and the
    instructions rely on. *)

From S2P Require Import Prelude Uint256 Params.

(** ** Checked arithmetic *)

Definition SafeSub (x y : Z) : Z * bool := (u64 (x - y), x <? y).
Definition SafeAdd (x y : Z) : Z * bool := (u64 (x + y), 2 ^ 64 <=? x + y).
Definition SafeMul (x y : Z) : Z * bool := (u64 (x * y), negb ((x * y) / 2 ^ 64 =? 0)).

Lemma SafeAdd_false x y r :
  in64 x -> in64 y -> SafeAdd x y = (r, false) -> r = x + y /\ in64 (x + y).
Proof.
  unfold SafeAdd, in64. intros Hx Hy H. injection H as Hr Hf. subst r.
  apply Z.leb_gt in Hf.
  rewrite u64_small by (unfold in64; lia). lia.
Qed.

Lemma SafeMul_false x y r :
  in64 x -> in64 y -> SafeMul x y = (r, false) -> r = x * y /\ in64 (x * y).
Proof.
  unfold SafeMul, in64. intros Hx Hy H. injection H as Hr Hf. subst r.
  apply negb_false_iff, Z.eqb_eq in Hf.
  apply Z.div_small_iff in Hf as [?|?]; [| lia..].
  rewrite u64_small by (unfold in64; lia). lia.
Qed.

(** ** Byte strings *)

Definition RightPadBytes (slice : list Z) (l : Z) : list Z :=
  if l <=? Zlen slice then slice
  else slice ++ replicate (Z.to_nat (l - Zlen slice)) 0.

Definition LeftPadBytes (slice : list Z) (l : Z) : list Z :=
  if l <=? Zlen slice then slice
  else replicate (Z.to_nat (l - Zlen slice)) 0 ++ slice.

(** [math.BigMin] of common/math/big.go. *)
Definition BigMin (x y : Z) : Z := if y <? x then y else x.

(** [common.BytesToHash] and the conversion [common.Hash(b)]; a hash is
    represented by the integer its 32 bytes denote. *)
Definition BytesToHash (b : list Z) : Z := bytes_to_Z (drop (length b - 32) b).
(** [common.BytesToAddress] and the conversion [common.Address(b)]. *)
Definition BytesToAddress (b : list Z) : Z := bytes_to_Z (drop (length b - 20) b).
(** [Hash.Bytes] and [Address.Bytes]. *)
Definition HashBytes (h : Z) : list Z := Z_to_bytes 32 h.
Definition AddressBytes (a : Z) : list Z := Z_to_bytes 20 a.
#[global] Arguments BytesToHash : simpl never.
#[global] Arguments BytesToAddress : simpl never.
#[global] Arguments HashBytes : simpl never.
#[global] Arguments AddressBytes : simpl never.

(** [getData]: a copy of [size] bytes of [data] from [start], zero padded. *)
Definition getData (data : list Z) (start size : Z) : outcome (list Z) :=
  let length := Zlen data in
  let start := if length <? start then length else start in
  let end_ := Z.min (u64 (start + size)) length in
  let! s := go_slice data start end_ in
  Ret (RightPadBytes s (int64_of size)).

(** [toWordSize]: the number of 32-byte words that hold [size] bytes. *)
Definition toWordSize (size : Z) : Z :=
  if MaxUint64 - 31 <? size then MaxUint64 / 32 + 1 else u64 (size + 31) / 32.

Section WithUint256.
Context {U : Uint256}.

Definition calcMemSize64WithUint (off length64 : Z) : Z * bool :=
  if length64 =? 0 then (0, false)
  else
    let '(offset64, overflow) := u_Uint64WithOverflow off in
    if (overflow : bool) then (0, true)
    else
      let val := u64 (offset64 + length64) in
      (val, val <? offset64).

Definition calcMemSize64 (off l : Z) : Z * bool :=
  if negb (u_IsUint64 l) then (0, true)
  else calcMemSize64WithUint off (u_Uint64 l).

(** [callGas]: the gas passed to a child call, all but one 64th of what is
    left after [base], or less when less is requested. *)
Definition callGas (availableGas base callCost : Z) : Z * option vm_error :=
  let availableGas := u64 (availableGas - base) in
  let gas := availableGas - availableGas / 64 in
  if negb (u_IsUint64 callCost) || (gas <? u_Uint64 callCost)
  then (gas, None)
  else (u_Uint64 callCost, None).

End WithUint256.

(** ** Facts *)

Lemma toWordSize_spec size :
  in64 size -> size <= MaxUint64 - 31 -> toWordSize size = (size + 31) / 32.
Proof.
  unfold toWordSize, in64, MaxUint64. intros.
  destruct (Z.ltb_spec (2 ^ 64 - 1 - 31) size); [lia|].
  rewrite u64_small by (unfold in64; lia). done.
Qed.

Lemma toWordSize_in64 size : in64 size -> in64 (toWordSize size).
Proof.
  unfold toWordSize, in64, MaxUint64. intros.
  destruct (Z.ltb_spec (2 ^ 64 - 1 - 31) size).
  - vm_compute. split; congruence.
  - rewrite u64_small by (unfold in64; lia).
    split; [apply Z.div_pos; lia|apply Z.div_lt_upper_bound; lia].
Qed.
#[export] Hint Resolve toWordSize_in64 : qrl.

Lemma getData_Ret data start size :
  Zlen data < 2 ^ 62 -> 0 <= start -> 0 <= size < 2 ^ 62 ->
  getData data start size =
    Ret (take (Z.to_nat size) (drop (Z.to_nat start) data ++ replicate (Z.to_nat size) 0)).
Proof.
  intros Hl Hs Hz. unfold getData. pose proof (Zlen_nonneg data).
  set (st := if Zlen data <? start then Zlen data else start).
  assert (Hst : 0 <= st <= Zlen data /\ drop (Z.to_nat st) data = drop (Z.to_nat start) data
                /\ (st = start \/ Zlen data < start)).
  { unfold st. destruct (Z.ltb_spec (Zlen data) start); [|by (repeat split; auto; lia)].
    repeat split; [lia|lia| |by right]. unfold Zlen in *.
    rewrite !drop_ge by lia. done. }
  destruct Hst as (Hst & Hdrop & _).
  rewrite u64_small by (unfold in64; lia).
  rewrite go_slice_Ret by lia. cbn [obind]. f_equal. rewrite Hdrop.
  rewrite int64_of_small by lia.
  assert (Hlen : Z.of_nat (length (drop (Z.to_nat start) data)) = Zlen data - st).
  { rewrite <- Hdrop, length_drop. unfold Zlen in *. lia. }
  unfold RightPadBytes. set (d := drop (Z.to_nat start) data) in *.
  destruct (Z.le_gt_cases size (Zlen data - st)).
  - replace (Z.min (st + size) (Zlen data) - st) with size by lia.
    rewrite take_app_le by lia.
    destruct (Z.leb_spec size (Zlen (take (Z.to_nat size) d))) as [|Hn]; [done|].
    unfold Zlen in Hn. rewrite length_take in Hn. lia.
  - rewrite (take_ge d) by lia. rewrite take_app_ge by lia.
    destruct (Z.leb_spec size (Zlen d)) as [Hn|_]; [unfold Zlen at 1 in Hn; lia|].
    rewrite take_replicate. f_equal. f_equal. unfold Zlen at 1. lia.
Qed.

Lemma getData_length data start size d :
  Zlen data < 2 ^ 62 -> 0 <= start -> 0 <= size < 2 ^ 62 ->
  getData data start size = Ret d -> Zlen d = size.
Proof.
  intros Hl Hs Hz. rewrite getData_Ret by done. injection 1 as <-.
  unfold Zlen. rewrite length_take, length_app, length_replicate. lia.
Qed.

Section WithUint256Spec.
Context {U : Uint256} {US : Uint256Spec U}.

Lemma calcMemSize64_false off l v :
  in256 off -> in256 l -> calcMemSize64 off l = (v, false) ->
  (l = 0 /\ v = 0) \/ (0 < l /\ v = off + l /\ in64 (off + l)).
Proof.
  intros Ho Hl. unfold calcMemSize64, calcMemSize64WithUint.
  rewrite IsUint64_spec, Uint64_spec, Uint64WithOverflow_spec by done.
  destruct (Z.ltb_spec l (2 ^ 64)) as [Hl64|]; simpl; [|congruence].
  unfold in256 in *. rewrite (u64_small l) by (unfold in64; lia).
  destruct (Z.eqb_spec l 0); [intros [= <-]; by left|].
  destruct (Z.leb_spec (2 ^ 64) off) as [|Ho64]; [congruence|].
  rewrite (u64_small off) by (unfold in64; lia).
  intros [= <- Hv]. right. apply Z.ltb_ge in Hv.
  destruct (Z.lt_ge_cases (off + l) (2 ^ 64)).
  - rewrite u64_small by (unfold in64; lia). unfold in64; lia.
  - exfalso. unfold u64 in Hv. rewrite Zmod_eq in Hv by lia.
    assert (1 <= (off + l) / 2 ^ 64) by (apply Z.div_le_lower_bound; lia). lia.
Qed.

(** [calcMemSize64] reports an overflow exactly when a non-empty range does
    not end below 2^64. *)
Lemma calcMemSize64_overflow off l :
  in256 off -> in256 l ->
  snd (calcMemSize64 off l) = true <-> l <> 0 /\ 2 ^ 64 <= off + l.
Proof.
  intros Ho Hl. destruct (calcMemSize64 off l) as [v []] eqn:E; simpl.
  - split; [intros _|done]. revert E. unfold calcMemSize64, calcMemSize64WithUint.
    rewrite IsUint64_spec, Uint64_spec, Uint64WithOverflow_spec by done. unfold in256 in *.
    destruct (Z.ltb_spec l (2 ^ 64)); simpl; [|lia].
    rewrite (u64_small l) by (unfold in64; lia).
    destruct (Z.eqb_spec l 0); [congruence|].
    destruct (Z.leb_spec (2 ^ 64) off) as [|Ho64]; [lia|].
    rewrite (u64_small off) by (unfold in64; lia).
    intros [= <- Hv]. apply Z.ltb_lt in Hv. split; [done|].
    destruct (Z.lt_ge_cases (off + l) (2 ^ 64)); [|done].
    rewrite u64_small in Hv by (unfold in64; lia). lia.
  - split; [done|]. apply calcMemSize64_false in E; [|done..]. unfold in64 in *. lia.
Qed.

(** The gas passed on never exceeds what is left once [base] is paid. *)
Lemma callGas_bound avail base c :
  in64 avail -> 0 <= base <= avail -> in256 c ->
  0 <= fst (callGas avail base c) <= (avail - base) - (avail - base) / 64.
Proof.
  intros Ha Hb Hc. unfold callGas. rewrite (u64_small (avail - base)) by (unfold in64 in *; lia).
  set (g := avail - base). assert (0 <= g - g / 64).
  { assert (g / 64 <= g) by (apply Z.div_le_upper_bound; lia). lia. }
  rewrite IsUint64_spec, Uint64_spec by done. unfold in256 in *.
  destruct (Z.ltb_spec c (2 ^ 64)); simpl; [|lia].
  rewrite u64_small by (unfold in64; lia).
  destruct (Z.ltb_spec (g - g / 64) c); simpl; lia.
Qed.

Lemma callGas_in64 avail base c :
  in256 c -> in64 (fst (callGas avail base c)).
Proof.
  intros Hc. unfold callGas. pose proof (u64_in64 (avail - base)) as Hg.
  set (g := u64 (avail - base)) in *. unfold in64 in *.
  assert (0 <= g / 64 <= g) by (split; [apply Z.div_pos; lia|apply Z.div_le_upper_bound; lia]).
  rewrite IsUint64_spec, Uint64_spec by done.
  case_match; simpl; [lia|]. pose proof (u64_in64 c). unfold in64 in *. lia.
Qed.

Lemma callGas_err avail base c : snd (callGas avail base c) = None.
Proof. unfold callGas. case_match; done. Qed.

(** The all-but-one-64th rule, exactly: a child call gets the requested gas when
    that fits in all but a 64th of what is left after the base cost, and that
    cap otherwise; there is no error and no wrap-around. *)
Theorem callGas_63_64 avail base c : in64 avail -> 0 <= base <= avail -> in256 c ->
  let left := avail - base in
  callGas avail base c = (Z.min c (left - left / 64), None).
Proof.
  intros Ha Hb Hc left. unfold callGas. rewrite (u64_small (avail - base)) by (unfold in64 in *; lia). fold left.
  rewrite IsUint64_spec, Uint64_spec by done.
  assert (0 <= left / 64 <= left) by (unfold left; Z.div_mod_to_equations; lia).
  destruct (Z.ltb_spec c (2 ^ 64)); cbn [negb orb].
  - rewrite u64_small by (unfold in64, in256 in *; lia).
    destruct (Z.ltb_spec (left - left / 64) c); do 2 f_equal; lia.
  - unfold in64 in *. do 2 f_equal. lia.
Qed.

End WithUint256Spec.

Lemma callGas_63_64_witness : callGas 6500 100 1000000 = (6300, None) /\ callGas 6500 100 20 = (20, None).
Proof.
  split; [rewrite (callGas_63_64 6500 100 1000000)|rewrite (callGas_63_64 6500 100 20)];
    try reflexivity; unfold in64, in256; lia.
Defined.
