(* ===== verification/Stack.v ===== *)
(** * The operand stack (core/vm/stack.go, core/vm/stack_table.go)

    [Stack.data] keeps its top element last; the model keeps the same elements
    top first, so [st.data[len-1-n]] is the [n]th element of the list.  Pointers
    returned by [peek] and [Back] are modelled by reading the element and by
    writing the top back ([setTop]). *)

From S2P Require Import Prelude Params.

Module Stack.

Abbreviation t := (list Z).

Definition newstack : t := [].
Definition len (st : t) : Z := Zlen st.
Definition push (d : Z) (st : t) : t := d :: st.

Definition pop (st : t) : outcome (Z * t) :=
  match st with
  | [] => Panic
  | d :: st => Ret (d, st)
  end.

Definition peek (st : t) : outcome Z := go_index st 0.

(** Writing through the pointer [peek] returns. *)
Definition setTop (v : Z) (st : t) : outcome t := go_set st 0 v.

Definition Back (n : Z) (st : t) : outcome Z := go_index st n.

(** [swap n]: exchange the top with the element [n-1] below it. *)
Definition swap (n : Z) (st : t) : outcome t :=
  let! a := go_index st (n - 1) in
  let! b := go_index st 0 in
  let! st := go_set st (n - 1) b in
  go_set st 0 a.

(** [dup n]: push a copy of the [n]th element, counted from 1 at the top. *)
Definition dup (n : Z) (st : t) : outcome t :=
  let! a := go_index st (n - 1) in
  Ret (push a st).

End Stack.

(** ** Stack bounds of the jump table *)

Definition maxStack (pop push : Z) : Z := StackLimit + pop - push.
Definition minStack (pops push : Z) : Z := pops.
Definition minSwapStack (n : Z) : Z := minStack n n.
Definition maxSwapStack (n : Z) : Z := maxStack n n.
Definition minDupStack (n : Z) : Z := minStack n (n + 1).
Definition maxDupStack (n : Z) : Z := maxStack n (n + 1).

(** ** Facts *)

Lemma pop_Ret (st : Stack.t) :
  1 <= Zlen st -> exists d st', st = d :: st' /\ Stack.pop st = Ret (d, st').
Proof. destruct st as [|d st']; [unfold Zlen; simpl; lia|]. eauto. Qed.

Lemma swap_Ret n st :
  2 <= n <= Zlen st ->
  exists a b mid rest,
    st = a :: mid ++ b :: rest /\ Zlen mid = n - 2 /\
    Stack.swap n st = Ret (b :: mid ++ a :: rest).
Proof.
  intros [Hn Hl]. destruct st as [|a st]; [unfold Zlen in Hl; simpl in Hl; lia|].
  unfold Zlen in Hl; simpl in Hl.
  destruct (lookup_lt_is_Some_2 st (Z.to_nat (n - 2))) as [b Hb]; [lia|].
  pose proof (take_drop_middle _ _ _ Hb) as Hsplit.
  set (mid := take (Z.to_nat (n - 2)) st) in *.
  set (rest := drop (S (Z.to_nat (n - 2))) st) in *.
  assert (Hmid : length mid = Z.to_nat (n - 2)).
  { unfold mid. rewrite length_take. apply lookup_lt_Some in Hb. lia. }
  exists a, b, mid, rest. split; [by rewrite Hsplit|]. split; [unfold Zlen; lia|].
  assert (L1 : (a :: mid ++ b :: rest) !! Z.to_nat (n - 1) = Some b).
  { replace (Z.to_nat (n - 1)) with (S (length mid)) by lia. simpl. by apply list_lookup_middle. }
  assert (L2 : <[Z.to_nat (n - 1) := a]> (a :: mid ++ b :: rest) = a :: mid ++ a :: rest).
  { replace (Z.to_nat (n - 1)) with (S (length mid + 0)) by lia. simpl. by rewrite insert_app_r. }
  assert (HZ : Zlen (a :: mid ++ b :: rest) = Z.of_nat (S (length mid + S (length rest)))).
  { unfold Zlen. simpl. rewrite length_app. simpl. lia. }
  unfold Stack.swap, go_index, go_set. rewrite <- Hsplit, L1.
  destruct (Z.leb_spec 0 (n - 1)); [|lia]. cbn [obind].
  change (Z.to_nat 0) with 0%nat. change (0 <=? 0) with true. cbn [lookup list_lookup obind].
  rewrite L2, HZ.
  destruct (Z.ltb_spec (n - 1) (Z.of_nat (S (length mid + S (length rest))))); [|lia].
  cbn [obind andb]. unfold Zlen. simpl. done.
Qed.

Lemma dup_Ret n st :
  1 <= n <= Zlen st -> exists a, st !! Z.to_nat (n - 1) = Some a /\ Stack.dup n st = Ret (a :: st).
Proof.
  intros. unfold Stack.dup.
  destruct (go_index_Ret st (n - 1)) as (a & -> & Ha); [lia|]. eauto.
Qed.
