(* ===== verification/Memory.v ===== *)
(** * Call-frame memory (core/vm/memory.go) and its gas (memoryGasCost of
    core/vm/gas_table.go)

    [Memory] is the byte store of one call frame together with the total fee
    already charged for it. *)

From S2P Require Import Prelude Uint256 Params VMCommon.

Module Memory.

Record t : Type := mk { store : list Z; lastGasCost : Z }.

Definition NewMemory : t := mk [] 0.
Definition Len (m : t) : Z := Zlen (store m).

(** [Set]: copy [value] into [offset, offset+size); the store must have been
    resized before. *)
Definition SetBytes (offset size : Z) (value : list Z) (m : t) : outcome t :=
  if 0 <? size then
    if Len m <? u64 (offset + size) then Panic
    else
      let! window := go_slice (store m) offset (u64 (offset + size)) in
      let window := go_copy_at window 0 value in
      Ret (mk (go_copy_at (store m) (Z.to_nat offset) window) (lastGasCost m))
  else Ret m.

Definition Set32 `{U : Uint256} (offset val : Z) (m : t) : outcome t :=
  if Len m <? u64 (offset + 32) then Panic
  else
    let! _ := go_slice (store m) offset (Len m) in
    Ret (mk (go_copy_at (store m) (Z.to_nat offset) (u_Bytes32 val)) (lastGasCost m)).

(** The single byte store of MSTORE8. *)
Definition Set8 (offset val : Z) (m : t) : outcome t :=
  let! s := go_set (store m) offset (byte_of val) in
  Ret (mk s (lastGasCost m)).

Definition Resize (size : Z) (m : t) : t :=
  if Len m <? size
  then mk (store m ++ replicate (Z.to_nat (size - Len m)) 0) (lastGasCost m)
  else m.

Definition GetCopy (offset size : Z) (m : t) : outcome (list Z) :=
  if size =? 0 then Ret []
  else if offset <? Len m then
    if size <? 0 then Panic
    else
      let! w := go_slice (store m) offset (offset + size) in
      Ret (go_copy_at (replicate (Z.to_nat size) 0) 0 w)
  else Ret [].

Definition GetPtr (offset size : Z) (m : t) : outcome (list Z) :=
  if size =? 0 then Ret []
  else if offset <? Len m then go_slice (store m) offset (offset + size)
  else Ret [].

Definition Copy (dst src len : Z) (m : t) : outcome t :=
  if len =? 0 then Ret m
  else
    let! _ := go_slice (store m) dst (Len m) in
    let! w := go_slice (store m) src (u64 (src + len)) in
    Ret (mk (go_copy_at (store m) (Z.to_nat dst) w) (lastGasCost m)).

End Memory.

(** ** Memory expansion fee *)

Definition memoryGasCost (newMemSize : Z) (mem : Memory.t) : (Z * option vm_error) * Memory.t :=
  if newMemSize =? 0 then ((0, None), mem)
  else if 0x1FFFFFFFE0 <? newMemSize then ((0, Some ErrGasUintOverflow), mem)
  else
    let newMemSizeWords := toWordSize newMemSize in
    let newMemSize := u64 (newMemSizeWords * 32) in
    if Memory.Len mem <? newMemSize then
      let square := u64 (newMemSizeWords * newMemSizeWords) in
      let linCoef := u64 (newMemSizeWords * MemoryGas) in
      let quadCoef := square / QuadCoeffDiv in
      let newTotalFee := u64 (linCoef + quadCoef) in
      let fee := u64 (newTotalFee - Memory.lastGasCost mem) in
      ((fee, None), Memory.mk (Memory.store mem) newTotalFee)
    else ((0, None), mem).

(** The total fee of a memory of [words] words, over the integers. *)
Definition mem_total (words : Z) : Z := words * MemoryGas + words * words / QuadCoeffDiv.

(** A memory whose length is a whole number of words, within the chargeable
    range, and whose recorded fee is the total fee of that length. *)
Definition mem_wf (m : Memory.t) : Prop :=
  Memory.Len m mod 32 = 0 /\ Memory.Len m <= 0x1FFFFFFFE0 /\
  Memory.lastGasCost m = mem_total (Memory.Len m / 32).

(** ** Facts *)

Lemma mem_total_mono a b : 0 <= a <= b -> mem_total a <= mem_total b.
Proof.
  intros. unfold mem_total. unfold_params.
  assert (a * a / 512 <= b * b / 512) by (apply Z.div_le_mono; nia). lia.
Qed.

Lemma mem_total_bound w : 0 <= w <= 2 ^ 32 - 1 -> 0 <= mem_total w < 2 ^ 56.
Proof.
  intros. unfold mem_total. unfold_params.
  assert (0 <= w * w / 512) by (apply Z.div_pos; nia).
  assert (w * w / 512 < 2 ^ 55) by (apply Z.div_lt_upper_bound; nia). lia.
Qed.

(** Number of words after expanding to [size] bytes. *)
Definition words_of (size : Z) : Z := (size + 31) / 32.

(** The computed fee: exactly the difference of the total fees, with no
    wrap-around in any of the uint64 steps. *)
Lemma memoryGasCost_spec size m :
  in64 size -> mem_wf m -> size <= 0x1FFFFFFFE0 ->
  memoryGasCost size m =
    let w := Z.max (words_of size) (Memory.Len m / 32) in
    ((mem_total w - mem_total (Memory.Len m / 32), None), Memory.mk (Memory.store m) (mem_total w)).
Proof.
  intros Hs (Hmod & Hmax & Hcost) Hle. unfold memoryGasCost, words_of.
  assert (Hl0 : 0 <= Memory.Len m) by apply Zlen_nonneg.
  assert (HL : Memory.Len m = 32 * (Memory.Len m / 32)).
  { pose proof (Z.div_mod (Memory.Len m) 32). lia. }
  set (q := Memory.Len m / 32) in *.
  unfold in64 in Hs. destruct (Z.eqb_spec size 0) as [->|Hnz].
  { cbn zeta. change ((0 + 31) / 32) with 0. replace (Z.max 0 q) with q by lia.
    rewrite Z.sub_diag, <- Hcost. by destruct m. }
  destruct (Z.ltb_spec 0x1FFFFFFFE0 size); [lia|].
  rewrite toWordSize_spec by (unfold in64, MaxUint64; lia).
  set (w := (size + 31) / 32).
  assert (Hw : 0 <= w <= 2 ^ 32 - 1).
  { unfold w. split; [apply Z.div_pos; lia|].
    apply Z.lt_succ_r, Z.div_lt_upper_bound; lia. }
  rewrite (u64_small (w * 32)) by (unfold in64; lia). rewrite HL.
  destruct (Z.ltb_spec (32 * q) (w * 32)).
  - replace (Z.max w q) with w by lia.
    rewrite (u64_small (w * w)) by (unfold in64; nia).
    rewrite (u64_small (w * MemoryGas)) by (unfold_params; unfold in64; lia).
    change (w * MemoryGas + w * w / QuadCoeffDiv) with (mem_total w).
    pose proof (mem_total_bound w Hw). pose proof (mem_total_mono q w).
    rewrite (u64_small (mem_total w)) by (unfold in64; lia). rewrite Hcost.
    pose proof (mem_total_bound q).
    rewrite u64_small by (unfold in64; lia). done.
  - replace (Z.max w q) with q by lia. rewrite Z.sub_diag, <- Hcost. by destruct m.
Qed.

Lemma memoryGasCost_err size m :
  0x1FFFFFFFE0 < size -> memoryGasCost size m = ((0, Some ErrGasUintOverflow), m).
Proof.
  intros. unfold memoryGasCost. destruct (Z.eqb_spec size 0); [lia|].
  destruct (Z.ltb_spec 0x1FFFFFFFE0 size); [done|lia].
Qed.

Lemma Len_Resize size m : Memory.Len (Memory.Resize size m) = Z.max size (Memory.Len m).
Proof.
  unfold Memory.Resize. destruct (Z.ltb_spec (Memory.Len m) size); [|lia].
  unfold Memory.Len, Zlen in *; simpl. rewrite length_app, length_replicate. lia.
Qed.

(** Bytes [off .. off+n) of a store. *)
Definition window (off n : nat) (l : list Z) : list Z := take n (drop off l).

Lemma go_copy_at_window (l : list Z) (off : nat) (src : list Z) :
  (off + length src <= length l)%nat -> window off (length src) (go_copy_at l off src) = src.
Proof.
  intros. unfold window, go_copy_at. rewrite Nat.min_l by lia.
  rewrite (take_ge src) by lia.
  rewrite drop_app_ge by (rewrite length_take; lia).
  rewrite length_take, (Nat.min_l off), Nat.sub_diag by lia.
  rewrite drop_0. apply take_app_length.
Qed.

Lemma go_copy_at_other (l : list Z) (off : nat) (src : list Z) (i : nat) :
  (off + length src <= length l)%nat -> (i < off \/ off + length src <= i)%nat ->
  go_copy_at l off src !! i = l !! i.
Proof.
  intros Hl Hi. unfold go_copy_at. rewrite Nat.min_l by lia. rewrite (take_ge src) by lia.
  destruct Hi as [Hi|Hi].
  - rewrite lookup_app_l by (rewrite length_take; lia). by rewrite lookup_take_lt.
  - rewrite lookup_app_r by (rewrite length_take; lia). rewrite length_take, Nat.min_l by lia.
    rewrite lookup_app_r by lia. rewrite lookup_drop. f_equal. lia.
Qed.

(** A whole-window write succeeds and changes exactly the bytes of its
    window. *)
Lemma SetBytes_Ret m off size value :
  0 <= off -> 0 < size -> Zlen value = size -> off + size <= Memory.Len m -> Memory.Len m < 2 ^ 63 ->
  Memory.SetBytes off size value m =
    Ret (Memory.mk (go_copy_at (Memory.store m) (Z.to_nat off) value) (Memory.lastGasCost m)).
Proof.
  intros. unfold Memory.SetBytes. destruct (Z.ltb_spec 0 size); [|lia].
  rewrite u64_small by (unfold in64; lia).
  destruct (Z.ltb_spec (Memory.Len m) (off + size)); [lia|].
  rewrite go_slice_Ret by (unfold Memory.Len in *; lia). cbn [obind]. f_equal. f_equal. f_equal.
  replace (off + size - off) with size by lia.
  unfold Zlen, Memory.Len in *. unfold Zlen in *.
  unfold go_copy_at. rewrite length_take, length_drop.
  rewrite Nat.min_l by lia. rewrite (take_ge value) by lia.
  rewrite (drop_ge (take _ _)) by (rewrite length_take, length_drop; lia).
  by rewrite app_nil_r.
Qed.

Lemma GetPtr_Ret m off size :
  0 <= off -> 0 <= size -> off + size <= Memory.Len m ->
  Memory.GetPtr off size m =
    Ret (window (Z.to_nat off) (Z.to_nat size) (Memory.store m)).
Proof.
  intros. unfold Memory.GetPtr, window. destruct (Z.eqb_spec size 0) as [->|]; [done|].
  destruct (Z.ltb_spec off (Memory.Len m)); [|lia].
  rewrite go_slice_Ret by (unfold Memory.Len in *; lia).
  by replace (off + size - off) with size by lia.
Qed.

Lemma GetCopy_GetPtr m off size :
  0 <= off -> 0 <= size -> off + size <= Memory.Len m ->
  Memory.GetCopy off size m = Memory.GetPtr off size m.
Proof.
  intros. rewrite GetPtr_Ret by done. unfold Memory.GetCopy.
  destruct (Z.eqb_spec size 0) as [->|]; [done|].
  destruct (Z.ltb_spec off (Memory.Len m)); [|lia].
  destruct (Z.ltb_spec size 0); [lia|].
  rewrite go_slice_Ret by (unfold Memory.Len in *; lia). cbn [obind]. f_equal.
  replace (off + size - off) with size by lia. unfold window.
  set (w := take _ _). assert (Hw : length w = Z.to_nat size).
  { unfold w, Memory.Len, Zlen in *. rewrite length_take, length_drop. lia. }
  unfold go_copy_at. rewrite length_replicate, Nat.min_l by lia.
  rewrite (take_ge w), (drop_ge (replicate _ _)) by (rewrite ?length_replicate; lia).
  by rewrite app_nil_r.
Qed.

(** ** Expansion over a whole frame *)

(** One expansion as [Run] performs it: the size in whole words, the fee, the
    resize; [None] when the size cannot be charged for. *)
Definition expand (memSize : Z) (m : Memory.t) : option (Z * Memory.t) :=
  let '(memorySize, overflow) := SafeMul (toWordSize memSize) 32 in
  if (overflow : bool) then None
  else match memoryGasCost memorySize m with
       | ((_, Some _), _) => None
       | ((fee, None), m) => Some (fee, if 0 <? memorySize then Memory.Resize memorySize m else m)
       end.

Fixpoint expand_all (sizes : list Z) (m : Memory.t) : option (Z * Memory.t) :=
  match sizes with
  | [] => Some (0, m)
  | s :: sizes =>
      match expand s m with
      | Some (fee, m) => match expand_all sizes m with Some (t, m) => Some (fee + t, m) | None => None end
      | None => None
      end
  end.

Lemma expand_spec size m : 0 <= size <= 0x1FFFFFFFE0 -> mem_wf m ->
  exists m', expand size m = Some (mem_total (Memory.Len m' / 32) - mem_total (Memory.Len m / 32), m') /\
    mem_wf m' /\ Memory.Len m' = Z.max (32 * words_of size) (Memory.Len m).
Proof.
  intros Hs Hwf. pose proof Hwf as (Hmod & Hmax & Hcost). unfold expand.
  rewrite toWordSize_spec by (unfold in64, MaxUint64; lia). fold (words_of size).
  assert (Hw : 0 <= words_of size <= 0x1FFFFFFFE0 / 32 /\ 32 * words_of size <= 0x1FFFFFFFE0).
  { unfold words_of. Z.div_mod_to_equations. lia. }
  change (0x1FFFFFFFE0 / 32) with 0xFFFFFFFF in Hw.
  unfold SafeMul. rewrite u64_small by (unfold in64; lia).
  rewrite (Z.div_small (words_of size * 32)) by lia. cbn [Z.eqb negb].
  rewrite memoryGasCost_spec by (unfold in64; auto; lia).
  replace (words_of (words_of size * 32)) with (words_of size)
    by (unfold words_of at 2; Z.div_mod_to_equations; lia).
  set (w := Z.max (words_of size) (Memory.Len m / 32)). cbn zeta. set (m1 := Memory.mk _ _).
  assert (HL : Memory.Len m = 32 * (Memory.Len m / 32)) by (Z.div_mod_to_equations; lia).
  pose proof (Zlen_nonneg (Memory.store m)) as Hnn. fold (Memory.Len m) in Hnn.
  set (m' := if 0 <? words_of size * 32 then Memory.Resize (words_of size * 32) m1 else m1).
  assert (Hlen : Memory.Len m' = 32 * w).
  { unfold m'. destruct (Z.ltb_spec 0 (words_of size * 32)); [rewrite Len_Resize|];
      change (Memory.Len m1) with (Memory.Len m); unfold w; lia. }
  assert (Hlast : Memory.lastGasCost m' = mem_total w).
  { unfold m', Memory.Resize. by repeat case_match. }
  exists m'. rewrite Hlen, (Z.mul_comm 32 w), Z.div_mul by lia. split_and!; [done| |unfold w; lia].
  unfold mem_wf. rewrite Hlen, (Z.mul_comm 32 w), Z.div_mul, Z.mod_mul by lia.
  split_and!; [done|unfold w; lia|done].
Qed.

(** The memory fee of a whole frame does not depend on how the memory was
    grown: over any sequence of expansions the fees add up to the quadratic
    total of the final size, no uint64 step wraps around, and the memory
    ends as large as the largest request, in whole words. *)
Theorem memory_gas_telescopes sizes m : Forall (fun s => 0 <= s <= 0x1FFFFFFFE0) sizes -> mem_wf m ->
  exists m', expand_all sizes m = Some (mem_total (Memory.Len m' / 32) - mem_total (Memory.Len m / 32), m') /\
    mem_wf m' /\ Memory.Len m' = foldr Z.max (Memory.Len m) (map (fun s => 32 * words_of s) sizes).
Proof.
  intros Hf. revert m. induction Hf as [|s sizes Hs Hf IH]; intros m Hwf.
  - exists m. cbn. by rewrite Z.sub_diag.
  - destruct (expand_spec s m Hs Hwf) as (m1 & He & Hwf1 & Hl1).
    destruct (IH m1 Hwf1) as (m' & Hall & Hwf' & Hl'). exists m'. cbn [expand_all map foldr]. rewrite He, Hall.
    split_and!; [do 2 f_equal; lia|done|]. rewrite Hl', Hl1. clear.
    induction sizes as [|x l IH]; cbn; lia.
Qed.

Lemma memory_gas_telescopes_witness : exists m', expand_all [64; 10; 1000] Memory.NewMemory =
  Some (mem_total (Memory.Len m' / 32) - mem_total 0, m') /\ Memory.Len m' = 1024.
Proof.
  destruct (memory_gas_telescopes [64; 10; 1000] Memory.NewMemory) as (m' & H1 & _ & H3).
  - repeat constructor; lia.
  - repeat split; vm_compute; congruence.
  - exists m'. split; [exact H1|rewrite H3; vm_compute; reflexivity].
Defined.

(** Storing and loading: after [Set] of a value the same window reads the
    value back, through [GetPtr] and [GetCopy] alike, every window that does
    not overlap it is unchanged, and so are the size and the recorded fee. *)
Theorem memory_set_get m off value : 0 <= off -> value <> [] -> off + Zlen value <= Memory.Len m ->
  Memory.Len m < 2 ^ 63 ->
  exists m', Memory.SetBytes off (Zlen value) value m = Ret m' /\
    Memory.Len m' = Memory.Len m /\ Memory.lastGasCost m' = Memory.lastGasCost m /\
    Memory.GetPtr off (Zlen value) m' = Ret value /\ Memory.GetCopy off (Zlen value) m' = Ret value /\
    forall o n, 0 <= o -> 0 <= n -> o + n <= Memory.Len m -> (o + n <= off \/ off + Zlen value <= o) ->
      Memory.GetCopy o n m' = Memory.GetCopy o n m.
Proof.
  intros Ho Hv Hle Hlt. assert (0 < Zlen value) by (destruct value; [done|unfold Zlen; cbn; lia]).
  rewrite SetBytes_Ret by lia. eexists. split; [done|]. cbn.
  set (st := go_copy_at _ _ _). set (m' := Memory.mk _ _).
  assert (Hfit : (Z.to_nat off + length value <= length (Memory.store m))%nat) by (unfold Memory.Len, Zlen in *; lia).
  assert (Hlen : Memory.Len m' = Memory.Len m).
  { unfold m', st, Memory.Len, Zlen; cbn. by rewrite length_go_copy_at. }
  assert (Hget : Memory.GetPtr off (Zlen value) m' = Ret value).
  { rewrite GetPtr_Ret by lia. unfold m', st; cbn. unfold Zlen. rewrite Nat2Z.id. by rewrite go_copy_at_window. }
  split_and!; auto; [by rewrite GetCopy_GetPtr by lia|].
  intros o n Ho' Hn Hon Hd. rewrite !GetCopy_GetPtr, !GetPtr_Ret by lia. f_equal. unfold window.
  apply list_eq. intros i. destruct (decide (i < Z.to_nat n)%nat).
  - rewrite !lookup_take_lt, !lookup_drop by done. apply go_copy_at_other; unfold Zlen in *; lia.
  - by rewrite !lookup_take_ge by lia.
Qed.

Lemma memory_set_get_witness : exists m', Memory.SetBytes 3 2 [7; 8] (Memory.Resize 32 Memory.NewMemory) = Ret m' /\
  Memory.GetCopy 3 2 m' = Ret [7; 8].
Proof.
  destruct (memory_set_get (Memory.Resize 32 Memory.NewMemory) 3 [7; 8]) as (m' & H1 & _ & _ & _ & H2 & _).
  - lia.
  - discriminate.
  - vm_compute; discriminate.
  - vm_compute; reflexivity.
  - exists m'. split; [exact H1|exact H2].
Defined.
