(* ===== verification/Analysis.v ===== *)
(** * Jump destination analysis (core/vm/analysis.go)

    The bit vector that marks the push data of a contract's code, computed with
    the byte-wide writes of the source, and its equivalence with the reading of
    the code one instruction at a time. *)

From S2P Require Import Prelude Opcodes.

Module Analysis.

(** [bitvec]: a slice of bytes. *)
Abbreviation bitvec := (list Z).

(** [bits[i] |= v]. *)
Definition or_at (bits : bitvec) (i v : Z) : outcome bitvec :=
  let! b := go_index bits i in
  go_set bits i (Z.lor b v).

Definition set1 (bits : bitvec) (pos : Z) : outcome bitvec :=
  or_at bits (pos / 8) (byte_of (Z.shiftl 1 (pos mod 8))).

Definition setN (bits : bitvec) (flag pos : Z) : outcome bitvec :=
  let a := Z.shiftl flag (pos mod 8) mod 2 ^ 16 in
  let! bits := or_at bits (pos / 8) (byte_of a) in
  let b := byte_of (Z.shiftr a 8) in
  if negb (b =? 0) then go_set bits (pos / 8 + 1) b else Ret bits.

Definition set8 (bits : bitvec) (pos : Z) : outcome bitvec :=
  let a := byte_of (Z.shiftl 0xFF (pos mod 8)) in
  let! bits := or_at bits (pos / 8) a in
  go_set bits (pos / 8 + 1) (Z.lxor a 0xFF).

Definition set16 (bits : bitvec) (pos : Z) : outcome bitvec :=
  let a := byte_of (Z.shiftl 0xFF (pos mod 8)) in
  let! bits := or_at bits (pos / 8) a in
  let! bits := go_set bits (pos / 8 + 1) 0xFF in
  go_set bits (pos / 8 + 2) (Z.lxor a 0xFF).

(** [codeSegment]: is [pos] outside push data? *)
Definition codeSegment (bits : bitvec) (pos : Z) : outcome bool :=
  let! b := go_index bits (pos / 8) in
  Ret (Z.land (Z.shiftr b (pos mod 8)) 1 =? 0).

(** The masks of n set bits used with [setN]. *)
Definition set2BitsMask : Z := 3.
Definition set3BitsMask : Z := 7.
Definition set4BitsMask : Z := 15.
Definition set5BitsMask : Z := 31.
Definition set6BitsMask : Z := 63.
Definition set7BitsMask : Z := 127.

(** [for ; numbits >= step; numbits -= step { set(pc); pc += step }] *)
Fixpoint push_loop (fuel : nat) (step : Z) (set : bitvec -> Z -> outcome bitvec)
    (bits : bitvec) (pc numbits : Z) : outcome (bitvec * Z * Z) :=
  match fuel with
  | O => OutOfFuel
  | S fuel =>
      if step <=? numbits then
        let! bits := set bits pc in
        push_loop fuel step set bits (u64 (pc + step)) (byte_of (numbits - step))
      else Ret (bits, pc, numbits)
  end.

(** [int8(op)] of a byte. *)
Definition int8_of (b : Z) : Z := if b <? 128 then b else b - 256.

(** The body of the loop for one PUSH with its data starting at [pc]. *)
Definition push_bits (bits : bitvec) (pc numbits : Z) : outcome (bitvec * Z) :=
  let! (bits, pc, numbits) :=
    (if 8 <=? numbits then
       let! (bits, pc, numbits) := push_loop 17 16 set16 bits pc numbits in
       push_loop 33 8 set8 bits pc numbits
     else Ret (bits, pc, numbits)) in
  match numbits with
  | 1 => let! bits := set1 bits pc in Ret (bits, u64 (pc + 1))
  | 2 => let! bits := setN bits set2BitsMask pc in Ret (bits, u64 (pc + 2))
  | 3 => let! bits := setN bits set3BitsMask pc in Ret (bits, u64 (pc + 3))
  | 4 => let! bits := setN bits set4BitsMask pc in Ret (bits, u64 (pc + 4))
  | 5 => let! bits := setN bits set5BitsMask pc in Ret (bits, u64 (pc + 5))
  | 6 => let! bits := setN bits set6BitsMask pc in Ret (bits, u64 (pc + 6))
  | 7 => let! bits := setN bits set7BitsMask pc in Ret (bits, u64 (pc + 7))
  | _ => Ret (bits, pc)
  end.

(** [codeBitmapInternal]: every iteration advances [pc], so [length code + 1]
    iterations are enough. *)
Fixpoint codeBitmapLoop (fuel : nat) (code : list Z) (bits : bitvec) (pc : Z) : outcome bitvec :=
  match fuel with
  | O => OutOfFuel
  | S fuel =>
      if pc <? Zlen code then
        let! op := go_index code pc in
        let pc := u64 (pc + 1) in
        if int8_of op <? int8_of Op.PUSH1 then codeBitmapLoop fuel code bits pc
        else
          let numbits := byte_of (op - Op.PUSH1 + 1) in
          let! (bits, pc) := push_bits bits pc numbits in
          codeBitmapLoop fuel code bits pc
      else Ret bits
  end.

Definition codeBitmapInternal (code : list Z) (bits : bitvec) : outcome bitvec :=
  codeBitmapLoop (S (length code)) code bits 0.

Definition codeBitmap (code : list Z) : outcome bitvec :=
  codeBitmapInternal code (replicate (Z.to_nat (Zlen code / 8 + 1 + 4)) 0).

End Analysis.
Import Analysis.

(** ** Reference: reading the code instruction by instruction *)

(** Number of immediate data bytes of an opcode. *)
Definition push_size (op : Z) : nat :=
  if (Op.PUSH1 <=? op) && (op <=? Op.PUSH32) then Z.to_nat (op - Op.PUSH1 + 1) else 0.

(** For every position of the code, whether it is push data; [skip] counts the
    data bytes still to come. *)
Fixpoint data_marks (skip : nat) (code : list Z) : list bool :=
  match code with
  | [] => []
  | op :: code =>
      match skip with
      | S k => true :: data_marks k code
      | O => false :: data_marks (push_size op) code
      end
  end.

(** [pos] is the position of an instruction of [code]. *)
Definition is_instruction (code : list Z) (pos : Z) : bool :=
  match data_marks 0 code !! Z.to_nat pos with Some false => true | _ => false end.

(** ** The vector as a set of bits *)

Definition getbit (bits : bitvec) (i : Z) : bool :=
  match bits !! Z.to_nat (i / 8) with Some b => Z.testbit b (i mod 8) | None => false end.

(** [bits'] is [bits] with the [n] bits from [pc] set. *)
Definition marked (bits : bitvec) (pc n : Z) (bits' : bitvec) : Prop :=
  length bits' = length bits /\
  forall i, 0 <= i -> getbit bits' i = getbit bits i || ((pc <=? i) && (i <? pc + n)).

(** No bit at or after [pc] is set. *)
Definition clear_from (bits : bitvec) (pc : Z) : Prop :=
  forall i, pc <= i -> getbit bits i = false.

Lemma getbit_insert bits k v i :
  0 <= k < Zlen bits -> 0 <= i ->
  getbit (<[Z.to_nat k := v]> bits) i =
    if i / 8 =? k then Z.testbit v (i mod 8) else getbit bits i.
Proof.
  intros Hk Hi. unfold getbit, Zlen in *.
  assert (0 <= i / 8) by (apply Z.div_pos; lia).
  destruct (Z.eqb_spec (i / 8) k) as [->|Hne].
  - rewrite list_lookup_insert_eq by lia. done.
  - rewrite list_lookup_insert_ne by lia. done.
Qed.

Lemma go_set_Ret {A} (l : list A) i v :
  0 <= i < Zlen l -> go_set l i v = Ret (<[Z.to_nat i := v]> l).
Proof.
  intros. unfold go_set. destruct (Z.leb_spec 0 i), (Z.ltb_spec i (Zlen l)); simpl; auto; lia.
Qed.

Lemma Zlen_insert {A} (l : list A) k v : Zlen (<[k := v]> l) = Zlen l.
Proof. unfold Zlen. by rewrite length_insert. Qed.

(** [bits[k] |= v] sets the bits of [v] in byte [k]. *)
Lemma or_at_Ret bits k v :
  0 <= k < Zlen bits ->
  exists bits', or_at bits k v = Ret bits' /\ length bits' = length bits /\
    forall i, 0 <= i -> getbit bits' i =
      if i / 8 =? k then getbit bits i || Z.testbit v (i mod 8) else getbit bits i.
Proof.
  intros Hk. unfold or_at. destruct (go_index_Ret bits k Hk) as (b & -> & Hb). simpl.
  rewrite go_set_Ret by done. eexists. split; [done|]. split; [by rewrite length_insert|].
  intros i Hi. rewrite getbit_insert by done. destruct (Z.eqb_spec (i / 8) k) as [<-|]; [|done].
  rewrite Z.lor_spec. unfold getbit. by rewrite Hb.
Qed.

(** A write that agrees byte by byte with the wanted range marks the range. *)
Lemma marked_intro bits bits' pc n :
  0 <= pc -> 0 <= n <= 16 -> clear_from bits pc -> length bits' = length bits ->
  (forall i, 0 <= i -> i / 8 = pc / 8 ->
     getbit bits' i = getbit bits i || ((pc mod 8 <=? i mod 8) && (i mod 8 <? pc mod 8 + n))) ->
  (forall i, 0 <= i -> i / 8 = pc / 8 + 1 -> getbit bits' i = (i mod 8 + 8 <? pc mod 8 + n)) ->
  (forall i, 0 <= i -> i / 8 = pc / 8 + 2 -> getbit bits' i = (i mod 8 + 16 <? pc mod 8 + n)) ->
  (forall i, 0 <= i -> i / 8 < pc / 8 \/ pc / 8 + 2 < i / 8 -> getbit bits' i = getbit bits i) ->
  marked bits pc n bits'.
Proof.
  intros Hpc Hn Hcl Hlen H0 H1 H2 Hother. split; [done|]. intros i Hi.
  pose proof (Z.div_mod pc 8 ltac:(lia)). pose proof (Z.mod_pos_bound pc 8 ltac:(lia)).
  pose proof (Z.div_mod i 8 ltac:(lia)). pose proof (Z.mod_pos_bound i 8 ltac:(lia)).
  destruct (Z.lt_trichotomy (i / 8) (pc / 8)) as [Hlt|[Heq|Hgt]].
  - rewrite Hother by (auto; lia).
    destruct (Z.leb_spec pc i), (Z.ltb_spec i (pc + n)); simpl; rewrite ?orb_false_r; auto; lia.
  - rewrite H0 by done. f_equal. 
    destruct (Z.leb_spec pc i), (Z.ltb_spec i (pc + n)), (Z.leb_spec (pc mod 8) (i mod 8)),
      (Z.ltb_spec (i mod 8) (pc mod 8 + n)); simpl; auto; lia.
  - rewrite (Hcl i) by lia. simpl. destruct (Z.leb_spec pc i); [simpl|lia].
    assert (Hc : i / 8 = pc / 8 + 1 \/ i / 8 = pc / 8 + 2 \/ pc / 8 + 2 < i / 8) by lia.
    destruct Hc as [Hc|[Hc|Hc]].
    + rewrite H1 by done. destruct (Z.ltb_spec (i mod 8 + 8) (pc mod 8 + n)), (Z.ltb_spec i (pc + n)); auto; lia.
    + rewrite H2 by done. destruct (Z.ltb_spec (i mod 8 + 16) (pc mod 8 + n)), (Z.ltb_spec i (pc + n)); auto; lia.
    + rewrite Hother by (auto; lia). rewrite Hcl by lia.
      destruct (Z.ltb_spec i (pc + n)); auto; lia.
Qed.

(** The bits of the shifted mask the byte writes are cut from. *)
Lemma mask_bits n s k :
  0 <= n -> 0 <= s -> 0 <= k ->
  Z.testbit (Z.shiftl (Z.ones n) s) k = (s <=? k) && (k <? s + n).
Proof.
  intros. rewrite Z.shiftl_spec by lia.
  destruct (Z.leb_spec s k); simpl; [|by rewrite Z.testbit_neg_r by lia].
  destruct (Z.ltb_spec k (s + n)).
  - apply Z.ones_spec_low. lia.
  - apply Z.ones_spec_high. lia.
Qed.

Lemma byte_of_testbit v k : 0 <= k < 8 -> Z.testbit (byte_of v) k = Z.testbit v k.
Proof. intros. unfold byte_of. change 256 with (2 ^ 8). apply Z.mod_pow2_bits_low. lia. Qed.

Ltac mod8 x :=
  pose proof (Z.div_mod x 8 ltac:(lia)); pose proof (Z.mod_pos_bound x 8 ltac:(lia)).

Lemma setN_marked bits n pc :
  0 <= pc -> 1 <= n <= 7 -> pc / 8 + 1 < Zlen bits -> clear_from bits pc ->
  exists bits', setN bits (Z.ones n) pc = Ret bits' /\ marked bits pc n bits'.
Proof.
  intros Hpc Hn Hlen Hcl. unfold setN. mod8 pc.
  set (a := Z.shiftl (Z.ones n) (pc mod 8) mod 2 ^ 16).
  assert (Ha : forall k, 0 <= k < 16 -> Z.testbit a k = (pc mod 8 <=? k) && (k <? pc mod 8 + n)).
  { intros k Hk. unfold a. rewrite Z.mod_pow2_bits_low by lia. apply mask_bits; lia. }
  assert (Hhi : forall k, 0 <= k < 8 -> Z.testbit (byte_of (Z.shiftr a 8)) k = (k + 8 <? pc mod 8 + n)).
  { intros k Hk. rewrite byte_of_testbit, Z.shiftr_spec, Ha by lia.
    destruct (Z.leb_spec (pc mod 8) (k + 8)); [done|lia]. }
  destruct (or_at_Ret bits (pc / 8) (byte_of a)) as (b1 & Hb1 & Hl1 & Hg1); [lia|].
  rewrite Hb1. cbn [obind]. unfold Zlen in Hlen.
  assert (H1 : forall i, 0 <= i -> i / 8 = pc / 8 -> getbit b1 i =
    getbit bits i || ((pc mod 8 <=? i mod 8) && (i mod 8 <? pc mod 8 + n))).
  { intros i Hi Hq. mod8 i. rewrite Hg1, Hq, Z.eqb_refl, byte_of_testbit, Ha by lia. done. }
  assert (Hoth : forall i, 0 <= i -> i / 8 <> pc / 8 -> getbit b1 i = getbit bits i).
  { intros i Hi Hq. rewrite Hg1 by done. by destruct (Z.eqb_spec (i / 8) (pc / 8)). }
  destruct (Z.eqb_spec (byte_of (Z.shiftr a 8)) 0) as [Hz|Hz]; cbn [negb].
  - exists b1. split; [done|]. apply marked_intro; auto; try lia; intros i Hi Hq; mod8 i.
    + rewrite Hoth, Hcl, <- Hhi, Hz by lia. by rewrite Z.testbit_0_l.
    + rewrite Hoth, Hcl by lia. symmetry. apply Z.ltb_ge. lia.
    + apply Hoth; lia.
  - rewrite go_set_Ret by (unfold Zlen; lia). eexists. split; [done|].
    apply marked_intro; auto; try lia; [by rewrite length_insert| | | |]; intros i Hi Hq; mod8 i;
      rewrite getbit_insert by (unfold Zlen; lia).
    + destruct (Z.eqb_spec (i / 8) (pc / 8 + 1)); [lia|]. auto.
    + rewrite Hq, Z.eqb_refl. apply Hhi. lia.
    + destruct (Z.eqb_spec (i / 8) (pc / 8 + 1)); [lia|]. rewrite Hoth, Hcl by lia.
      symmetry. apply Z.ltb_ge. lia.
    + destruct (Z.eqb_spec (i / 8) (pc / 8 + 1)); [lia|]. apply Hoth; lia.
Qed.

Lemma set1_marked bits pc :
  0 <= pc -> pc / 8 + 1 < Zlen bits -> clear_from bits pc ->
  exists bits', set1 bits pc = Ret bits' /\ marked bits pc 1 bits'.
Proof.
  intros Hpc Hlen Hcl. unfold set1. mod8 pc.
  destruct (or_at_Ret bits (pc / 8) (byte_of (Z.shiftl 1 (pc mod 8)))) as (b1 & Hb1 & Hl1 & Hg1); [lia|].
  exists b1. split; [done|].
  apply marked_intro; auto; try lia; intros i Hi Hq; mod8 i; rewrite Hg1 by done;
    destruct (Z.eqb_spec (i / 8) (pc / 8)); try lia; auto.
  - rewrite byte_of_testbit by lia. change 1 with (Z.ones 1) at 1. by rewrite mask_bits by lia.
  - rewrite Hcl by lia. symmetry. apply Z.ltb_ge. lia.
  - rewrite Hcl by lia. symmetry. apply Z.ltb_ge. lia.
Qed.

(** The first and last byte of an 8- or 16-bit mark. *)
Lemma full_mask_bits s k : 0 <= s < 8 -> 0 <= k < 8 ->
  Z.testbit (byte_of (Z.shiftl 0xFF s)) k = (s <=? k) /\
  Z.testbit (Z.lxor (byte_of (Z.shiftl 0xFF s)) 0xFF) k = (k <? s).
Proof.
  intros Hs Hk. assert (Ha : Z.testbit (byte_of (Z.shiftl 0xFF s)) k = (s <=? k)).
  { rewrite byte_of_testbit by lia. change 0xFF with (Z.ones 8). rewrite mask_bits by lia.
    destruct (Z.leb_spec s k); simpl; [|done]. apply Z.ltb_lt. lia. }
  split; [done|]. rewrite Z.lxor_spec, Ha. change 0xFF with (Z.ones 8).
  rewrite Z.ones_spec_low by lia. destruct (Z.leb_spec s k), (Z.ltb_spec k s); auto; lia.
Qed.

Lemma set8_marked bits pc :
  0 <= pc -> pc / 8 + 1 < Zlen bits -> clear_from bits pc ->
  exists bits', set8 bits pc = Ret bits' /\ marked bits pc 8 bits'.
Proof.
  intros Hpc Hlen Hcl. unfold set8. mod8 pc. set (a := byte_of _).
  destruct (or_at_Ret bits (pc / 8) a) as (b1 & Hb1 & Hl1 & Hg1); [lia|].
  rewrite Hb1. cbn [obind]. unfold Zlen in Hlen.
  rewrite go_set_Ret by (unfold Zlen; lia). eexists. split; [done|].
  apply marked_intro; auto; try lia; [by rewrite length_insert| | | |]; intros i Hi Hq; mod8 i;
    rewrite getbit_insert, Hg1 by (unfold Zlen; lia);
    destruct (full_mask_bits (pc mod 8) (i mod 8)) as [Hm1 Hm2]; try lia;
    destruct (Z.eqb_spec (i / 8) (pc / 8 + 1)), (Z.eqb_spec (i / 8) (pc / 8)); try lia; auto.
  - unfold a. rewrite Hm1. f_equal. destruct (Z.leb_spec (pc mod 8) (i mod 8)); simpl; [|done].
    symmetry. apply Z.ltb_lt. lia.
  - unfold a. rewrite Hm2.
    destruct (Z.ltb_spec (i mod 8) (pc mod 8)), (Z.ltb_spec (i mod 8 + 8) (pc mod 8 + 8)); auto; lia.
  - rewrite Hcl by lia. symmetry. apply Z.ltb_ge. lia.
Qed.

Lemma set16_marked bits pc :
  0 <= pc -> pc / 8 + 2 < Zlen bits -> clear_from bits pc ->
  exists bits', set16 bits pc = Ret bits' /\ marked bits pc 16 bits'.
Proof.
  intros Hpc Hlen Hcl. unfold set16. mod8 pc. set (a := byte_of _).
  destruct (or_at_Ret bits (pc / 8) a) as (b1 & Hb1 & Hl1 & Hg1); [lia|].
  rewrite Hb1. cbn [obind]. unfold Zlen in Hlen.
  rewrite go_set_Ret by (unfold Zlen; lia). cbn [obind].
  rewrite go_set_Ret by (rewrite Zlen_insert; unfold Zlen; lia). eexists. split; [done|].
  apply marked_intro; auto; try lia; [by rewrite !length_insert| | | |]; intros i Hi Hq; mod8 i;
    rewrite getbit_insert by (rewrite ?Zlen_insert; unfold Zlen; lia);
    rewrite getbit_insert, Hg1 by (unfold Zlen; lia);
    destruct (full_mask_bits (pc mod 8) (i mod 8)) as [Hm1 Hm2]; try lia;
    destruct (Z.eqb_spec (i / 8) (pc / 8 + 2)), (Z.eqb_spec (i / 8) (pc / 8 + 1)),
      (Z.eqb_spec (i / 8) (pc / 8)); try lia; auto.
  - unfold a. rewrite Hm1. f_equal. destruct (Z.leb_spec (pc mod 8) (i mod 8)); simpl; [|done].
    symmetry. apply Z.ltb_lt. lia.
  - change 255 with (Z.ones 8). rewrite Z.ones_spec_low by lia. symmetry. apply Z.ltb_lt. lia.
  - unfold a. rewrite Hm2.
    destruct (Z.ltb_spec (i mod 8) (pc mod 8)), (Z.ltb_spec (i mod 8 + 16) (pc mod 8 + 16)); auto; lia.
Qed.

(** Marks compose. *)
Lemma marked_trans bits pc n bits1 m bits2 :
  0 <= n -> 0 <= m -> marked bits pc n bits1 -> marked bits1 (pc + n) m bits2 ->
  marked bits pc (n + m) bits2.
Proof.
  intros Hn Hm [Hl1 H1] [Hl2 H2]. split; [congruence|]. intros i Hi.
  rewrite H2, H1 by done. rewrite <- orb_assoc. f_equal.
  destruct (Z.leb_spec pc i), (Z.ltb_spec i (pc + n)), (Z.leb_spec (pc + n) i),
    (Z.ltb_spec i (pc + n + m)), (Z.ltb_spec i (pc + (n + m))); simpl; auto; lia.
Qed.

Lemma marked_clear bits pc n bits' :
  0 <= pc -> 0 <= n -> marked bits pc n bits' -> clear_from bits pc -> clear_from bits' (pc + n).
Proof.
  intros Hpc Hn [_ H] Hcl i Hi. rewrite H, Hcl by lia. simpl.
  destruct (Z.ltb_spec i (pc + n)); [lia|]. by rewrite andb_false_r.
Qed.

Lemma marked_0 bits pc : marked bits pc 0 bits.
Proof.
  split; [done|]. intros i Hi.
  destruct (Z.leb_spec pc i), (Z.ltb_spec i (pc + 0)); simpl; rewrite ?orb_false_r; auto; lia.
Qed.

(** The two inner loops mark the largest multiple of their step. *)
Lemma push_loop_marked step set :
  1 <= step ->
  (forall bits pc, 0 <= pc -> (pc + step) / 8 < Zlen bits -> clear_from bits pc ->
     exists bits', set bits pc = Ret bits' /\ marked bits pc step bits') ->
  forall fuel bits pc nb, 0 <= pc -> 0 <= nb <= 32 -> pc + nb < 2 ^ 64 ->
  nb < step * Z.of_nat fuel -> (pc + nb) / 8 < Zlen bits -> clear_from bits pc ->
  exists bits', push_loop fuel step set bits pc nb =
      Ret (bits', pc + step * (nb / step), nb mod step) /\
    marked bits pc (step * (nb / step)) bits'.
Proof.
  intros Hstep Hset. induction fuel as [|fuel IH]; intros bits pc nb Hpc Hnb Hov Hf Hlen Hcl; [lia|].
  cbn [push_loop]. destruct (Z.leb_spec step nb).
  - destruct (Hset bits pc) as (b1 & Hb1 & Hm1); auto.
    { eapply Z.le_lt_trans; [apply Z.div_le_mono; [lia|]|exact Hlen]. lia. }
    rewrite Hb1. cbn [obind].
    rewrite u64_small by (unfold in64; lia). unfold byte_of. rewrite (Z.mod_small (nb - step)) by lia.
    assert (Hq : nb / step = (nb - step) / step + 1).
    { rewrite <- Z.div_add by lia. f_equal. lia. }
    assert (Hr : nb mod step = (nb - step) mod step).
    { rewrite <- (Z.mod_add (nb - step) 1) by lia. f_equal. lia. }
    destruct (IH b1 (pc + step) (nb - step)) as (b2 & Hb2 & Hm2); try lia.
    { destruct Hm1 as [Hl1 _]. unfold Zlen in *.
      replace (pc + step + (nb - step)) with (pc + nb) by lia. lia. }
    { apply (marked_clear bits); auto. lia. }
    exists b2. rewrite Hb2, Hq, <- Hr. split; [do 3 f_equal; lia|].
    replace (step * ((nb - step) / step + 1)) with (step + step * ((nb - step) / step)) by lia.
    assert (0 <= (nb - step) / step) by (apply Z.div_pos; lia).
    eapply marked_trans; eauto; lia.
  - exists bits. rewrite Z.div_small, Z.mod_small by lia. rewrite Z.mul_0_r, Z.add_0_r.
    split; [done|]. apply marked_0.
Qed.

(** The final switch of the source on the remaining 0 to 7 bits. *)
Lemma push_rest_marked bits pc nb :
  0 <= pc -> 0 <= nb <= 7 -> pc + nb < 2 ^ 64 -> (nb = 0 \/ pc / 8 + 1 < Zlen bits) ->
  clear_from bits pc ->
  exists bits', push_bits bits pc nb = Ret (bits', pc + nb) /\ marked bits pc nb bits'.
Proof.
  intros Hpc Hnb Hov Hlen Hcl. unfold push_bits.
  destruct (Z.leb_spec 8 nb); [lia|]. cbn [obind].
  assert (Hu : u64 (pc + nb) = pc + nb) by (apply u64_small; unfold in64; lia).
  assert (Hc : nb = 0 \/ nb = 1 \/ 2 <= nb <= 7) by lia. destruct Hc as [-> |[-> |Hc]].
  - exists bits. rewrite Z.add_0_r. split; [done|]. apply marked_0.
  - destruct (set1_marked bits pc) as (b & -> & Hm); try done; [lia|].
    exists b. cbn [obind]. by rewrite Hu.
  - destruct (setN_marked bits nb pc) as (b & Hb & Hm); try done; try lia. exists b.
    assert (Hc' : nb = 2 \/ nb = 3 \/ nb = 4 \/ nb = 5 \/ nb = 6 \/ nb = 7) by lia.
    destruct_or! Hc'; subst nb; split; try done;
      match type of Hb with setN _ ?f _ = _ => let v := eval vm_compute in f in change f with v in Hb end;
      unfold set2BitsMask, set3BitsMask, set4BitsMask, set5BitsMask, set6BitsMask, set7BitsMask;
      rewrite Hb; cbn [obind]; by rewrite Hu.
Qed.

Lemma push_bits_marked bits pc nb :
  0 <= pc -> 1 <= nb <= 32 -> pc + nb < 2 ^ 64 -> pc / 8 + 4 < Zlen bits ->
  clear_from bits pc ->
  exists bits', push_bits bits pc nb = Ret (bits', pc + nb) /\ marked bits pc nb bits'.
Proof.
  intros Hpc Hnb Hov Hlen Hcl. destruct (Z.leb_spec 8 nb) as [H8|H8];
    [|apply push_rest_marked; auto; lia].
  assert (Hl : (pc + nb) / 8 < Zlen bits).
  { eapply Z.le_lt_trans; [apply (Z.div_le_mono _ (pc + 4 * 8)); lia|]. rewrite Z.div_add; lia. }
  mod8 nb. pose proof (Z.div_mod nb 16 ltac:(lia)). pose proof (Z.mod_pos_bound nb 16 ltac:(lia)).
  destruct (push_loop_marked 16 set16 ltac:(lia)) with (fuel := 17%nat) (bits := bits) (pc := pc) (nb := nb)
    as (b1 & Hb1 & Hm1); auto; try lia.
  { intros b q Hq Hlq Hcq. apply set16_marked; auto. mod8 q.
    replace (q + 16) with (q + 2 * 8) in Hlq by lia. rewrite Z.div_add in Hlq; lia. }
  assert (Hl1 : Zlen b1 = Zlen bits) by (unfold Zlen; destruct Hm1; congruence).
  set (p1 := pc + 16 * (nb / 16)) in *. set (r1 := nb mod 16) in *.
  assert (Hp1 : p1 + r1 = pc + nb) by lia.
  assert (Hcl1 : clear_from b1 p1) by (eapply marked_clear; [| |eassumption|]; auto; lia).
  destruct (push_loop_marked 8 set8 ltac:(lia)) with (fuel := 33%nat) (bits := b1) (pc := p1) (nb := r1)
    as (b2 & Hb2 & Hm2); auto; try lia.
  { intros b q Hq Hlq Hcq. apply set8_marked; auto. mod8 q.
    replace (q + 8) with (q + 1 * 8) in Hlq by lia. rewrite Z.div_add in Hlq; lia. }
  { by rewrite Hp1, Hl1. }
  pose proof (Z.div_mod r1 8 ltac:(lia)). pose proof (Z.mod_pos_bound r1 8 ltac:(lia)).
  set (p2 := p1 + 8 * (r1 / 8)) in *. set (r2 := r1 mod 8) in *.
  assert (Hl2 : Zlen b2 = Zlen bits) by (unfold Zlen; destruct Hm2, Hm1; congruence).
  assert (Hcl2 : clear_from b2 p2) by (eapply marked_clear; [| |eassumption|]; auto; lia).
  destruct (push_rest_marked b2 p2 r2) as (b3 & Hb3 & Hm3); auto; try lia.
  { destruct (Z.eq_dec r2 0); [by left|right]. rewrite Hl2.
    assert (p2 / 8 <= (pc + 3 * 8) / 8) by (apply Z.div_le_mono; lia). rewrite Z.div_add in *; lia. }
  exists b3. split.
  - unfold push_bits in *. rewrite (proj2 (Z.leb_le 8 nb) H8), Hb1. cbn [obind]. rewrite Hb2. cbn [obind].
    rewrite (proj2 (Z.leb_gt 8 r2)) in Hb3 by lia. cbn [obind] in Hb3.
    rewrite Hb3. f_equal. f_equal. lia.
  - replace nb with (16 * (nb / 16) + (8 * (r1 / 8) + r2)) by lia.
    eapply marked_trans; [lia|lia|exact Hm1|]. eapply marked_trans; [lia|lia|exact Hm2|exact Hm3].
Qed.

(** ** The loop over the code *)

Lemma length_data_marks k code : length (data_marks k code) = length code.
Proof. revert k; induction code; intros [|k]; simpl; auto. Qed.

Lemma data_marks_skip n code :
  data_marks n code = replicate (Nat.min n (length code)) true ++ data_marks 0 (drop n code).
Proof.
  revert n; induction code as [|op code IH]; intros [|n]; simpl; auto. by rewrite IH.
Qed.

(** [int8(op) < int8(PUSH1)] holds of exactly the opcodes without immediate data. *)
Lemma push_size_int8 op : is_byte op ->
  if int8_of op <? int8_of Op.PUSH1 then push_size op = 0%nat
  else Z.of_nat (push_size op) = byte_of (op - Op.PUSH1 + 1) /\ 1 <= Z.of_nat (push_size op) <= 32.
Proof.
  unfold is_byte, int8_of, push_size, byte_of, Op.PUSH1, Op.PUSH32. intros Hop.
  destruct (Z.ltb_spec op 128).
  - destruct (Z.ltb_spec op (if 0x60 <? 128 then 0x60 else 0x60 - 256)) as [Hl|Hl]; simpl in Hl;
      destruct (Z.leb_spec 0x60 op), (Z.leb_spec op 0x7f); simpl; try lia.
    rewrite Z.mod_small by lia. lia.
  - destruct (Z.ltb_spec (op - 256) (if 0x60 <? 128 then 0x60 else 0x60 - 256)) as [Hl|Hl]; simpl in Hl;
      destruct (Z.leb_spec 0x60 op), (Z.leb_spec op 0x7f); simpl; try lia.
Qed.

(** [marks bits pre suf]: the bits from [length pre] on are those of [suf]
    read from an instruction boundary. *)
Definition marks_suffix (bits : bitvec) (off : nat) (suf : list Z) : Prop :=
  forall i, (i < length suf)%nat ->
    Some (getbit bits (Z.of_nat (off + i))) = data_marks 0 suf !! i.

Lemma marks_push bits off op suf :
  is_byte op -> getbit bits (Z.of_nat off) = false ->
  (forall i, (i < push_size op)%nat -> getbit bits (Z.of_nat (off + 1 + i)) = true) ->
  marks_suffix bits (off + 1 + push_size op) (drop (push_size op) suf) ->
  marks_suffix bits off (op :: suf).
Proof.
  intros Hop H0 Hd Hs [|i] Hi; simpl in *.
  - by rewrite Nat.add_0_r, H0.
  - rewrite data_marks_skip. destruct (decide (i < Nat.min (push_size op) (length suf))%nat).
    + rewrite lookup_app_l by (rewrite length_replicate; lia).
      rewrite lookup_replicate_2 by lia. f_equal. rewrite <- Hd with i by lia. f_equal. lia.
    + rewrite lookup_app_r, length_replicate by (rewrite length_replicate; lia).
      replace (Nat.min (push_size op) (length suf)) with (push_size op) by lia.
      rewrite <- Hs by (rewrite length_drop; lia). do 3 f_equal. lia.
Qed.

(** One iteration at an instruction boundary. *)
Lemma codeBitmapLoop_step fuel pre op suf bits :
  is_byte op -> Zlen (pre ++ op :: suf) + 64 < 2 ^ 64 ->
  Zlen bits = Zlen (pre ++ op :: suf) / 8 + 5 -> clear_from bits (Zlen pre) ->
  exists b1, marked bits (Zlen pre + 1) (Z.of_nat (push_size op)) b1 /\
    codeBitmapLoop (S fuel) (pre ++ op :: suf) bits (Zlen pre) =
    codeBitmapLoop fuel (pre ++ op :: suf) b1 (Zlen pre + 1 + Z.of_nat (push_size op)).
Proof.
  intros Hop Hlen Hbits Hcl. cbn [codeBitmapLoop].
  assert (HL : Zlen (pre ++ op :: suf) = Zlen pre + 1 + Zlen suf).
  { unfold Zlen. rewrite length_app. simpl. lia. }
  pose proof (Zlen_nonneg pre). pose proof (Zlen_nonneg suf).
  destruct (Z.ltb_spec (Zlen pre) (Zlen (pre ++ op :: suf))); [|lia].
  assert (Hidx : go_index (pre ++ op :: suf) (Zlen pre) = Ret op).
  { unfold go_index, Zlen. rewrite (proj2 (Z.leb_le _ _)), Nat2Z.id by lia.
    by rewrite list_lookup_middle. }
  rewrite Hidx. cbn [obind]. rewrite (u64_small (Zlen pre + 1)) by (unfold in64; lia).
  pose proof (push_size_int8 op Hop) as Hps.
  destruct (int8_of op <? int8_of Op.PUSH1).
  - exists bits. rewrite Hps, Z.add_0_r. split; [apply marked_0|done].
  - destruct Hps as [He Hr]. rewrite <- He.
    destruct (push_bits_marked bits (Zlen pre + 1) (Z.of_nat (push_size op))) as (b1 & Hb1 & Hm1);
      auto; try lia.
    { rewrite Hbits, HL. assert ((Zlen pre + 1) / 8 <= (Zlen pre + 1 + Zlen suf) / 8)
        by (apply Z.div_le_mono; lia). lia. }
    { intros i Hi. apply Hcl. lia. }
    exists b1. split; [done|]. by rewrite Hb1.
Qed.

Lemma codeBitmapLoop_spec fuel : forall pre suf bits pc,
  Forall is_byte suf -> (length suf < fuel)%nat ->
  Zlen (pre ++ suf) + 64 < 2 ^ 64 -> Zlen bits = Zlen (pre ++ suf) / 8 + 5 ->
  clear_from bits pc -> (pc = Zlen pre \/ suf = [] /\ Zlen pre <= pc) ->
  exists bits', codeBitmapLoop fuel (pre ++ suf) bits pc = Ret bits' /\
    Zlen bits' = Zlen bits /\ marks_suffix bits' (length pre) suf /\
    forall i, 0 <= i < pc -> getbit bits' i = getbit bits i.
Proof.
  induction fuel as [|fuel IH]; intros pre suf bits pc Hb Hf Hlen Hbits Hcl Hpc; [lia|].
  destruct suf as [|op suf].
  { cbn [codeBitmapLoop]. rewrite app_nil_r in *. destruct (Z.ltb_spec pc (Zlen pre)); [lia|].
    exists bits. split_and!; auto. intros i Hi; simpl in Hi; lia. }
  destruct Hpc as [->|[? _]]; [|done]. inversion Hb as [|? ? Hop Hsuf]; subst. simpl in Hf.
  pose proof (Zlen_nonneg pre).
  destruct (codeBitmapLoop_step fuel pre op suf bits) as (b1 & [Hl1 Hm1] & ->); auto.
  set (n := push_size op) in *.
  assert (Hpre : pre ++ op :: suf = (pre ++ op :: take n suf) ++ drop n suf).
  { by rewrite <- app_assoc, <- app_comm_cons, take_drop. }
  rewrite Hpre in *. destruct (IH (pre ++ op :: take n suf) (drop n suf) b1
    (Zlen pre + 1 + Z.of_nat n)) as (b' & Hr & Hlb & Hs & Hlow); auto.
  { by apply Forall_drop. }
  { rewrite length_drop. lia. }
  { rewrite <- Hbits. unfold Zlen. by rewrite Hl1. }
  { eapply (marked_clear bits); [lia|lia|by split|]. intros i Hi. apply Hcl. lia. }
  { unfold Zlen. rewrite length_app. simpl. rewrite length_take.
    destruct (decide (n <= length suf)%nat); [left; lia|right]. split; [|lia].
    apply drop_ge. lia. }
  exists b'. split_and!; auto.
  - rewrite Hlb. unfold Zlen. by rewrite Hl1.
  - assert (Hin : forall i, 0 <= i < Zlen pre + 1 + Z.of_nat n -> getbit b' i =
      getbit bits i || ((Zlen pre + 1 <=? i) && (i <? Zlen pre + 1 + Z.of_nat n))).
    { intros i Hi. rewrite Hlow by lia. apply Hm1. lia. }
    unfold Zlen in *. apply marks_push; auto; fold n.
    + rewrite Hin by lia. rewrite Hcl by lia. simpl. apply andb_false_iff. left. apply Z.leb_gt. lia.
    + intros i Hi. rewrite Hin by lia. apply orb_true_iff. right.
      apply andb_true_iff. split; [apply Z.leb_le|apply Z.ltb_lt]; lia.
    + intros i Hi. rewrite length_drop in Hi. rewrite <- Hs by (rewrite length_drop; lia).
      do 3 f_equal. rewrite length_app. simpl. rewrite length_take. lia.
  - intros i Hi. rewrite Hlow, Hm1 by lia.
    destruct (Z.leb_spec (Zlen pre + 1) i); [lia|]. by rewrite orb_false_r.
Qed.

Lemma codeBitmap_spec code :
  Forall is_byte code -> Zlen code + 64 < 2 ^ 64 ->
  exists bits, codeBitmap code = Ret bits /\ Zlen bits = Zlen code / 8 + 5 /\
    marks_suffix bits 0 code.
Proof.
  intros Hb Hl. unfold codeBitmap, codeBitmapInternal.
  assert (0 <= Zlen code / 8) by (apply Z.div_pos; [apply Zlen_nonneg|lia]).
  destruct (codeBitmapLoop_spec (S (length code)) [] code
    (replicate (Z.to_nat (Zlen code / 8 + 1 + 4)) 0) 0) as (b & Hr & Hlb & Hs & _); auto.
  - unfold Zlen at 1. rewrite length_replicate. simpl. lia.
  - intros i Hi. unfold getbit. destruct (replicate _ _ !! _) eqn:He; [|done].
    apply lookup_replicate in He as [-> _]. apply Z.testbit_0_l.
  - exists b. split_and!; auto. rewrite Hlb. unfold Zlen at 1. rewrite length_replicate. lia.
Qed.

Lemma codeSegment_getbit bits pos :
  0 <= pos -> pos / 8 < Zlen bits -> codeSegment bits pos = Ret (negb (getbit bits pos)).
Proof.
  intros Hp Hl. unfold codeSegment, getbit.
  destruct (go_index_Ret bits (pos / 8)) as (b & -> & ->).
  { split; [apply Z.div_pos; lia|done]. }
  cbn [obind]. f_equal. change 1 with (Z.ones 1) at 1.
  rewrite Z.land_ones by lia. rewrite <- Z.bit0_mod, Z.shiftr_spec, Z.add_0_l by lia.
  by destruct (Z.testbit b (pos mod 8)).
Qed.

(** The bitmap decides, for every position of the code, whether an instruction
    starts there. *)
Lemma codeBitmap_decides code :
  Forall is_byte code -> Zlen code + 64 < 2 ^ 64 ->
  exists bits, codeBitmap code = Ret bits /\
    forall pos, 0 <= pos < Zlen code -> codeSegment bits pos = Ret (is_instruction code pos).
Proof.
  intros Hb Hl. destruct (codeBitmap_spec code Hb Hl) as (bits & Hr & Hlb & Hs).
  exists bits. split; [done|]. intros pos Hp. rewrite codeSegment_getbit; [|lia|].
  - unfold is_instruction, Zlen in *.
    rewrite <- Hs by lia. simpl. rewrite Z2Nat.id by lia. by destruct (getbit bits pos).
  - rewrite Hlb. assert (pos / 8 <= Zlen code / 8) by (apply Z.div_le_mono; lia). lia.
Qed.

(** ** Fuel, for code that is not known to be bytes *)

Lemma or_at_fuel bits i v : or_at bits i v <> OutOfFuel.
Proof. unfold or_at, go_index, go_set. repeat (case_match; cbn); done. Qed.
Lemma set1_fuel bits pos : set1 bits pos <> OutOfFuel.
Proof. apply or_at_fuel. Qed.
Lemma setN_fuel bits flag pos : setN bits flag pos <> OutOfFuel.
Proof.
  unfold setN. pose proof (or_at_fuel bits (pos / 8) (byte_of (Z.shiftl flag (pos mod 8) mod 2 ^ 16))).
  destruct (or_at _ _ _); cbn; [|done|done]. unfold go_set. repeat case_match; done.
Qed.
Lemma set8_fuel bits pos : set8 bits pos <> OutOfFuel.
Proof.
  unfold set8. pose proof (or_at_fuel bits (pos / 8) (byte_of (Z.shiftl 255 (pos mod 8)))).
  destruct (or_at _ _ _); cbn; [|done|done]. unfold go_set. repeat case_match; done.
Qed.
Lemma set16_fuel bits pos : set16 bits pos <> OutOfFuel.
Proof.
  unfold set16. pose proof (or_at_fuel bits (pos / 8) (byte_of (Z.shiftl 255 (pos mod 8)))).
  destruct (or_at _ _ _); cbn; [|done|done]. unfold go_set. repeat (case_match; cbn); done.
Qed.

(** What a push leaves: the program counter has not gone back. *)
Definition advances (pc numbits : Z) (r : outcome (bitvec * Z * Z)) : Prop :=
  match r with
  | Ret (_, pc', n') => pc <= pc' /\ 0 <= n' /\ pc' + n' = pc + numbits
  | Panic => True
  | OutOfFuel => False
  end.

Lemma push_loop_fuel step set : (forall bits pos, set bits pos <> OutOfFuel) -> 1 <= step ->
  forall fuel bits pc numbits, 0 <= numbits < 256 -> numbits < step * Z.of_nat fuel -> 0 <= pc -> pc + numbits < 2 ^ 64 ->
  advances pc numbits (push_loop fuel step set bits pc numbits).
Proof.
  intros Hset Hstep fuel. induction fuel as [|fuel IH]; intros bits pc numbits Hn Hf Hp Hb; [lia|]. cbn [push_loop].
  destruct (Z.leb_spec step numbits); [|cbn; lia]. specialize (Hset bits pc). destruct (set bits pc); cbn [obind]; [|done|done].
  rewrite u64_small by (unfold in64; lia). unfold byte_of. rewrite Z.mod_small by lia.
  specialize (IH a (pc + step) (numbits - step) ltac:(lia) ltac:(lia) ltac:(lia) ltac:(lia)).
  destruct (push_loop fuel step set a _ _) as [[[b' p'] n']| |]; cbn in *; [lia|done|done].
Qed.

Lemma push_bits_fuel bits pc numbits : 0 <= numbits < 256 -> 0 <= pc -> pc + numbits < 2 ^ 64 ->
  match push_bits bits pc numbits with Ret (_, pc') => pc <= pc' | Panic => True | OutOfFuel => False end.
Proof.
  intros Hn Hp Hb. unfold push_bits. set (first := if 8 <=? numbits then _ else _).
  assert (Hfirst : advances pc numbits first).
  { unfold first. destruct (Z.leb_spec 8 numbits); [|cbn; lia].
    pose proof (push_loop_fuel 16 set16 set16_fuel ltac:(lia) 17 bits pc numbits Hn ltac:(lia) Hp Hb) as H1.
    destruct (push_loop 17 16 set16 bits pc numbits) as [[[b1 p1] n1]| |]; cbn [obind advances] in H1 |- *; [|done|done].
    pose proof (push_loop_fuel 8 set8 set8_fuel ltac:(lia) 33 b1 p1 n1 ltac:(lia) ltac:(lia) ltac:(lia) ltac:(lia)) as H2.
    destruct (push_loop 33 8 set8 b1 p1 n1) as [[[b2 p2] n2]| |]; cbn [obind advances] in H2 |- *; [|done|done].
    destruct H1 as (? & ? & ?), H2 as (? & ? & ?). split_and!; lia. }
  clearbody first. destruct first as [[[b1 p1] n1]| |]; cbn [obind advances] in Hfirst |- *; [|done|done].
  assert (Hend : forall k (o : outcome bitvec), n1 = k -> o <> OutOfFuel ->
    match (let! bits := o in Ret (bits, u64 (p1 + k))) with Ret (_, pc') => pc <= pc' | Panic => True | OutOfFuel => False end).
  { intros k o <- Ho. destruct o; cbn; [|done|done]. rewrite u64_small by (unfold in64; lia). lia. }
  destruct n1 as [|p|p]; [cbn; lia| |lia].
  do 3 (try destruct p as [p|p|]); try (cbn; lia); apply Hend; auto using set1_fuel, setN_fuel.
Qed.

Lemma codeBitmapLoop_fuel fuel code : Zlen code < 2 ^ 63 -> forall bits pc, 0 <= pc ->
  (length code < fuel + Z.to_nat pc)%nat -> (1 <= fuel)%nat -> codeBitmapLoop fuel code bits pc <> OutOfFuel.
Proof.
  intros Hl. induction fuel as [|fuel IH]; intros bits pc Hp Hf H1; [lia|]. cbn [codeBitmapLoop].
  destruct (Z.ltb_spec pc (Zlen code)); [|done]. unfold Zlen in *.
  destruct (go_index code pc) as [op| |] eqn:Hop; cbn [obind]; [|done|unfold go_index in Hop; by repeat case_match].
  rewrite u64_small by (unfold in64; lia).
  destruct (int8_of op <? int8_of Op.PUSH1); [apply IH; lia|].
  assert (Hb : 0 <= byte_of (op - Op.PUSH1 + 1) < 256) by (apply Z.mod_pos_bound; lia).
  pose proof (push_bits_fuel bits (pc + 1) _ Hb ltac:(lia) ltac:(lia)) as Hpb.
  destruct (push_bits bits (pc + 1) _) as [[b' p']| |]; cbn [obind]; [|done|done]. apply IH; lia.
Qed.

Lemma codeBitmap_fuel code : Zlen code < 2 ^ 63 -> codeBitmap code <> OutOfFuel.
Proof. intros Hl. apply codeBitmapLoop_fuel; [done|lia|cbn; lia|lia]. Qed.

(** The jump-destination bit vector is correct: for every byte string that
    fits in the address space, [codeBitmap] returns (no write of its 16-, 8- and
    N-bit marks is out of range) and [codeSegment] then answers, for every position of
    the code, exactly whether an instruction starts there when the code is read
    one instruction at a time. *)
Theorem codeBitmap_correct code :
  Forall is_byte code -> Zlen code + 64 < 2 ^ 64 ->
  exists bits, codeBitmap code = Ret bits /\
    forall pos, 0 <= pos < Zlen code -> codeSegment bits pos = Ret (is_instruction code pos).
Proof. apply codeBitmap_decides. Qed.

(** PUSH2 0x5b 0x00 JUMPDEST PUSH32 0x5b: two data JUMPDESTs and one real one. *)
Lemma codeBitmap_correct_witness :
  exists bits, codeBitmap [0x61; 0x5b; 0; 0x5b; 0x7f; 0x5b] = Ret bits /\
    codeSegment bits 3 = Ret true /\ codeSegment bits 1 = Ret false /\ codeSegment bits 5 = Ret false.
Proof.
  destruct (codeBitmap_correct [0x61; 0x5b; 0; 0x5b; 0x7f; 0x5b]) as (bits & Hb & Hc).
  - repeat constructor; lia.
  - unfold Zlen; simpl; lia.
  - exists bits. split; [exact Hb|]. rewrite !Hc by (unfold Zlen; simpl; lia).
    repeat split; vm_compute; reflexivity.
Defined.
