(* ===== verification/AccessList.v ===== *)
(** * The per-transaction access list (core/state/access_list.go)

    Addresses index into a slice of slot sets, [-1] standing for an address with
    no slots.  The abstract list is a map from addresses to sets of slots; the
    operations refine the abstract ones, and the two deletions undo the additions
    exactly, which is what the journal relies on. *)

From S2P Require Import Prelude.

Module AccessList.

Record accessList : Type := mk { addresses : gmap Z Z; slots : list (gset Z) }.

Definition newAccessList : accessList := mk ∅ [].

Definition ContainsAddress (al : accessList) (address : Z) : bool :=
  match addresses al !! address with Some _ => true | None => false end.

Definition Contains (al : accessList) (address slot : Z) : outcome (bool * bool) :=
  match addresses al !! address with
  | None => Ret (false, false)
  | Some idx =>
      if idx =? -1 then Ret (true, false)
      else let! slotmap := go_index (slots al) idx in
           Ret (true, bool_decide (slot ∈ slotmap))
  end.

(** [Copy] rebuilds every slot set; the model's values are immutable. *)
Definition Copy (al : accessList) : accessList :=
  mk (addresses al) (map (fun slotMap => list_to_set (elements slotMap)) (slots al)).

Definition AddAddress (address : Z) (al : accessList) : bool * accessList :=
  match addresses al !! address with
  | Some _ => (false, al)
  | None => (true, mk (<[address := -1]> (addresses al)) (slots al))
  end.

Definition AddSlot (address slot : Z) (al : accessList) : outcome ((bool * bool) * accessList) :=
  let fresh (addrPresent : bool) :=
    Ret ((negb addrPresent, true),
         mk (<[address := Zlen (slots al)]> (addresses al)) (slots al ++ [ {[slot]} ])) in
  match addresses al !! address with
  | None => fresh false
  | Some idx =>
      if idx =? -1 then fresh true
      else
        let! slotmap := go_index (slots al) idx in
        if bool_decide (slot ∈ slotmap) then Ret ((false, false), al)
        else Ret ((false, true),
                  mk (addresses al) (<[Z.to_nat idx := {[slot]} ∪ slotmap]> (slots al)))
  end.

Definition DeleteSlot (address slot : Z) (al : accessList) : outcome accessList :=
  match addresses al !! address with
  | None => Panic
  | Some idx =>
      let! slotmap := go_index (slots al) idx in
      let slotmap := slotmap ∖ {[slot]} in
      if Nat.eqb (size slotmap) 0
      then Ret (mk (<[address := -1]> (addresses al)) (take (Z.to_nat idx) (slots al)))
      else Ret (mk (addresses al) (<[Z.to_nat idx := slotmap]> (slots al)))
  end.

Definition DeleteAddress (address : Z) (al : accessList) : accessList :=
  mk (delete address (addresses al)) (slots al).

End AccessList.
Import AccessList.

(** ** Invariant and abstraction *)

Record al_wf (al : accessList) : Prop := {
  al_index : forall a i, addresses al !! a = Some i -> i = -1 \/ 0 <= i < Zlen (slots al);
  al_inj : forall a b i, addresses al !! a = Some i -> addresses al !! b = Some i -> i <> -1 -> a = b;
  al_nonempty : forall k (s : gset Z), slots al !! k = Some s -> s <> ∅
}.

(** The slot set an index stands for. *)
Definition al_slots_at (al : accessList) (i : Z) : gset Z :=
  if i =? -1 then ∅ else default ∅ (slots al !! Z.to_nat i).

(** The abstract access list. *)
Definition al_view (al : accessList) : gmap Z (gset Z) := al_slots_at al <$> addresses al.

(** The abstract additions. *)
Definition view_AddAddress (a : Z) (m : gmap Z (gset Z)) : gmap Z (gset Z) :=
  match m !! a with Some _ => m | None => <[a := ∅]> m end.
Definition view_AddSlot (a s : Z) (m : gmap Z (gset Z)) : gmap Z (gset Z) :=
  <[a := {[s]} ∪ default ∅ (m !! a)]> m.

Lemma al_wf_new : al_wf newAccessList.
Proof. split; intros *; simpl; rewrite ?lookup_empty, ?lookup_nil; done. Qed.
#[export] Hint Resolve al_wf_new : qrl.

Lemma al_view_lookup al a : al_view al !! a = al_slots_at al <$> addresses al !! a.
Proof. apply lookup_fmap. Qed.

(** A live index designates a non-empty slot set. *)
Lemma al_slot_at_live al a i : al_wf al -> addresses al !! a = Some i -> i <> -1 ->
  exists s, go_index (slots al) i = Ret s /\ slots al !! Z.to_nat i = Some s /\
    al_slots_at al i = s /\ s <> ∅.
Proof.
  intros Hwf Ha Hi. destruct (al_index _ Hwf a i Ha) as [|Hr]; [done|].
  destruct (go_index_Ret (slots al) i Hr) as (s & Hg & Hs). exists s. split_and!; auto.
  - unfold al_slots_at. destruct (Z.eqb_spec i (-1)); [lia|]. by rewrite Hs.
  - eapply al_nonempty; eauto.
Qed.

Lemma Contains_view al a s : al_wf al ->
  Contains al a s = Ret (bool_decide (is_Some (al_view al !! a)),
                         bool_decide (s ∈ default ∅ (al_view al !! a))).
Proof.
  intros Hwf. unfold Contains. rewrite al_view_lookup.
  destruct (addresses al !! a) as [i|] eqn:Ha; simpl.
  - destruct (Z.eqb_spec i (-1)) as [->|Hi].
    + rewrite (bool_decide_eq_false_2 (s ∈ _)); [done|]. unfold al_slots_at; simpl. set_solver.
    + destruct (al_slot_at_live al a i Hwf Ha Hi) as (t & -> & _ & -> & _). done.
  - rewrite (bool_decide_eq_false_2 (s ∈ _)); [done|set_solver].
Qed.

Lemma ContainsAddress_view al a : ContainsAddress al a = bool_decide (is_Some (al_view al !! a)).
Proof.
  unfold ContainsAddress. rewrite al_view_lookup. by destruct (addresses al !! a).
Qed.

Lemma AddAddress_spec al a : al_wf al ->
  exists al', AddAddress a al = (negb (ContainsAddress al a), al') /\ al_wf al' /\
    al_view al' = view_AddAddress a (al_view al).
Proof.
  intros Hwf. unfold AddAddress, ContainsAddress, view_AddAddress. rewrite al_view_lookup.
  destruct (addresses al !! a) as [i|] eqn:Ha; simpl; eexists; split_and!; eauto.
  - destruct Hwf as [H1 H2 H3]. split; simpl; auto.
    + intros b j. rewrite lookup_insert. case_decide; [intros [=]; lia|eauto].
    + intros b c j. rewrite !lookup_insert. repeat case_decide; intros; simplify_eq; eauto.
  - unfold al_view; simpl. rewrite fmap_insert. by unfold al_slots_at at 1.
Qed.

(** Appending a fresh slot set for [a], which had none. *)
Lemma al_fresh_spec al a s : al_wf al -> al_slots_at al <$> addresses al !! a ∈ [None; Some ∅] ->
  let al' := mk (<[a := Zlen (slots al)]> (addresses al)) (slots al ++ [ {[s]} ]) in
  al_wf al' /\ al_view al' = view_AddSlot a s (al_view al).
Proof.
  intros Hwf Ha al'. split.
  - destruct Hwf as [H1 H2 H3]. split; simpl.
    + intros b i. unfold Zlen in *. rewrite length_app; simpl. rewrite lookup_insert.
      case_decide; [intros [=]; lia|]. intros Hb. destruct (H1 b i Hb); lia.
    + intros b c i. rewrite !lookup_insert. unfold Zlen in *.
      repeat case_decide; intros Hb Hc Hi; simplify_eq; auto.
      * destruct (H1 c _ Hc); unfold Zlen in *; lia.
      * destruct (H1 b _ Hb); unfold Zlen in *; lia.
      * eauto.
    + intros k t. rewrite lookup_app. destruct (slots al !! k) eqn:Hk; [intros [=]; subst; eauto|].
      intros Ht. apply list_lookup_singleton_Some in Ht as [_ <-]. apply non_empty_singleton_L.
  - unfold view_AddSlot. rewrite al_view_lookup.
    apply map_eq; intros b. unfold al_view; simpl. rewrite fmap_insert, !lookup_insert.
    assert (Hold : forall i, 0 <= i < Zlen (slots al) -> al_slots_at al' i = al_slots_at al i).
    { intros i Hi. unfold al_slots_at, al', Zlen in *; simpl. destruct (i =? -1); [done|].
      by rewrite lookup_app_l by lia. }
    case_decide; subst.
    + f_equal. assert (Hnew : al_slots_at al' (Zlen (slots al)) = {[s]}).
      { unfold al_slots_at, al', Zlen; simpl. rewrite (proj2 (Z.eqb_neq _ _)) by lia.
        rewrite Nat2Z.id, lookup_app_r, Nat.sub_diag by lia. done. }
      rewrite Hnew. set_unfold in Ha. destruct Ha as [-> |[-> |[]]]; simpl; by rewrite union_empty_r_L.
    + rewrite !lookup_fmap. destruct (addresses al !! b) as [i|] eqn:Hb; [simpl|done].
      f_equal. destruct (al_index _ Hwf b i Hb); [subst; unfold al_slots_at; done|].
      by apply Hold.
Qed.

(** Adding a slot to the set [a] already has. *)
Lemma al_insert_spec al a s i t : al_wf al -> addresses al !! a = Some i -> i <> -1 ->
  slots al !! Z.to_nat i = Some t ->
  let al' := mk (addresses al) (<[Z.to_nat i := {[s]} ∪ t]> (slots al)) in
  al_wf al' /\ al_view al' = view_AddSlot a s (al_view al).
Proof.
  intros Hwf Ha Hi Ht al'. pose proof (lookup_lt_Some _ _ _ Ht) as Hlt.
  split.
  - destruct Hwf as [H1 H2 H3]. split; simpl; auto.
    + intros b j Hb. unfold Zlen. rewrite length_insert. eauto.
    + intros k r. destruct (decide (k = Z.to_nat i)) as [->|].
      * rewrite list_lookup_insert_eq by done. intros [= <-]. set_solver.
      * rewrite list_lookup_insert_ne by done. eauto.
  - unfold view_AddSlot. rewrite al_view_lookup, Ha. simpl.
    apply map_eq; intros b. unfold al_view; simpl. rewrite lookup_insert, !lookup_fmap.
    case_decide; subst.
    + rewrite Ha. simpl. f_equal. unfold al_slots_at, al'; simpl.
      rewrite (proj2 (Z.eqb_neq _ _)), list_lookup_insert_eq, Ht by done. done.
    + destruct (addresses al !! b) as [j|] eqn:Hb; [simpl|done]. f_equal.
      unfold al_slots_at, al'; simpl. destruct (Z.eqb_spec j (-1)); [done|].
      destruct (al_index _ Hwf b j Hb), (al_index _ Hwf a i Ha); try lia.
      rewrite list_lookup_insert_ne; [done|]. intros He.
      apply Z2Nat.inj in He; [|lia|lia]. subst. eauto using al_inj.
Qed.

Lemma AddSlot_spec al a s : al_wf al ->
  exists al', AddSlot a s al =
      Ret ((bool_decide (al_view al !! a = None), bool_decide (s ∉ default ∅ (al_view al !! a))), al') /\
    al_wf al' /\ al_view al' = view_AddSlot a s (al_view al).
Proof.
  intros Hwf. unfold AddSlot. rewrite al_view_lookup.
  destruct (addresses al !! a) as [i|] eqn:Ha; simpl.
  - destruct (Z.eqb_spec i (-1)) as [-> |Hi].
    + eexists. split; [|apply al_fresh_spec; auto; rewrite Ha; set_solver].
      rewrite (bool_decide_eq_true_2 (s ∉ _)); [done|]. unfold al_slots_at; simpl. set_solver.
    + destruct (al_slot_at_live al a i Hwf Ha Hi) as (t & -> & Ht & -> & _). simpl.
      destruct (bool_decide (s ∈ t)) eqn:Hin.
      * apply bool_decide_eq_true in Hin. exists al.
        rewrite (bool_decide_eq_false_2 (s ∉ t)) by auto. split_and!; auto.
        unfold view_AddSlot. symmetry. apply insert_id. rewrite al_view_lookup, Ha. simpl.
        f_equal. unfold al_slots_at. rewrite (proj2 (Z.eqb_neq _ _)), Ht by done. simpl.
        symmetry. apply subseteq_union_1_L. by apply singleton_subseteq_l.
      * apply bool_decide_eq_false in Hin. eexists.
        rewrite (bool_decide_eq_true_2 (s ∉ t)) by auto. split; [done|]. by apply al_insert_spec.
  - eexists. split; [|apply al_fresh_spec; auto; rewrite Ha; set_solver].
    rewrite (bool_decide_eq_true_2 (s ∉ _)); [done|]. set_solver.
Qed.

(** What the journal runs to undo an [AddSlot] with the given change flags. *)
Definition undo_AddSlot (a s : Z) (ch : bool * bool) (al : accessList) : outcome accessList :=
  let! al := (if ch.2 then DeleteSlot a s al else Ret al) in
  Ret (if ch.1 then DeleteAddress a al else al).

Definition undo_AddAddress (a : Z) (ch : bool) (al : accessList) : accessList :=
  if ch then DeleteAddress a al else al.

Lemma AddAddress_undo al a ch al' :
  AddAddress a al = (ch, al') -> undo_AddAddress a ch al' = al.
Proof.
  unfold AddAddress, undo_AddAddress, DeleteAddress. destruct al as [ad sl]; simpl.
  destruct (ad !! a) eqn:Ha; intros [= <- <-]; simpl; [done|].
  by rewrite delete_insert_id.
Qed.

Lemma AddSlot_undo al a s ch al' :
  al_wf al -> AddSlot a s al = Ret (ch, al') -> undo_AddSlot a s ch al' = Ret al.
Proof.
  intros Hwf. unfold AddSlot, undo_AddSlot, DeleteSlot, DeleteAddress.
  destruct al as [ad sl] eqn:Hal; simpl. rewrite <- Hal in Hwf.
  assert (Hfresh : forall b : bool, ad !! a = (if b then Some (-1) else None) ->
    undo_AddSlot a s (negb b, true) (mk (<[a:=Zlen sl]> ad) (sl ++ [{[s]}])) = Ret (mk ad sl)).
  { intros b Hb. unfold undo_AddSlot, DeleteSlot, DeleteAddress. simpl. rewrite lookup_insert_eq.
    unfold go_index, Zlen. rewrite (proj2 (Z.leb_le _ _)), Nat2Z.id by lia.
    rewrite lookup_app_r, Nat.sub_diag by lia. cbn [lookup list_lookup obind].
    rewrite difference_diag_L, size_empty. simpl.
    rewrite insert_insert_eq. rewrite take_app_length. destruct b; simpl.
    - by rewrite insert_id.
    - by rewrite delete_insert_id. }
  destruct (ad !! a) as [i|] eqn:Ha; [|intros [= <- <-]; by apply (Hfresh false)].
  destruct (Z.eqb_spec i (-1)) as [-> |Hi]; [intros [= <- <-]; by apply (Hfresh true)|].
  destruct (al_slot_at_live al a i Hwf) as (t & Hg & Ht & _ & Hne); [by rewrite Hal|done|].
  rewrite Hal in Hg, Ht; simpl in Hg, Ht. rewrite Hg. simpl.
  destruct (bool_decide (s ∈ t)) eqn:Hin; intros [= <- <-]; simpl; [done|].
  apply bool_decide_eq_false in Hin. rewrite Ha.
  pose proof (lookup_lt_Some _ _ _ Ht). destruct (al_index _ Hwf a i) as [|Hr]; [by rewrite Hal|done|].
  unfold go_index. rewrite (proj2 (Z.leb_le _ _)), list_lookup_insert_eq by (done || lia). cbn [obind].
  rewrite difference_union_distr_l_L, difference_diag_L, union_empty_l_L.
  rewrite difference_disjoint_L by (by apply disjoint_singleton_r).
  destruct (Nat.eqb_spec (size t) 0) as [Hz|_].
  - exfalso. apply Hne. apply size_empty_inv in Hz. by apply leibniz_equiv.
  - simpl. do 2 f_equal. rewrite list_insert_insert_eq, ?union_empty_l_L. by apply list_insert_id.
Qed.

(** The access list implements a map from addresses to slot sets: on every
    well-formed list, [Contains] never panics and answers membership in the map,
    and [AddAddress] and [AddSlot] keep the list well formed, perform the
    corresponding insertion on the map and report exactly whether the address and
    the slot were new. *)
Theorem access_list_refines_map al a s :
  al_wf al ->
  Contains al a s = Ret (bool_decide (is_Some (al_view al !! a)),
                         bool_decide (s ∈ default ∅ (al_view al !! a))) /\
  (exists al', AddAddress a al = (bool_decide (al_view al !! a = None), al') /\ al_wf al' /\
     al_view al' = view_AddAddress a (al_view al)) /\
  (exists al', AddSlot a s al =
       Ret ((bool_decide (al_view al !! a = None), bool_decide (s ∉ default ∅ (al_view al !! a))), al') /\
     al_wf al' /\ al_view al' = view_AddSlot a s (al_view al)).
Proof.
  intros Hwf. split_and!; [by apply Contains_view| |by apply AddSlot_spec].
  destruct (AddAddress_spec al a Hwf) as (al' & -> & H). exists al'. split; [|done].
  unfold ContainsAddress. rewrite al_view_lookup. by destruct (addresses al !! a).
Qed.

Lemma access_list_refines_map_witness :
  al_wf newAccessList /\
  exists al', AddSlot 7 1 newAccessList = Ret ((true, true), al') /\ al_wf al'.
Proof.
  split; [apply al_wf_new|].
  destruct (access_list_refines_map newAccessList 7 1 al_wf_new) as (_ & _ & al' & H1 & H2 & _).
  exists al'. split; [exact H1|exact H2].
Defined.

(** Undoing an addition restores the access list exactly: running the
    journal's [DeleteSlot] and [DeleteAddress] for the changes that [AddSlot] (or
    [AddAddress]) reported gives back the very list it started from, indices and
    slot slice included, and never panics. *)
Theorem access_list_undo_exact al a s :
  al_wf al ->
  (forall ch al', AddSlot a s al = Ret (ch, al') -> undo_AddSlot a s ch al' = Ret al) /\
  (forall ch al', AddAddress a al = (ch, al') -> undo_AddAddress a ch al' = al).
Proof. intros Hwf. split; intros; [by eapply AddSlot_undo|by eapply AddAddress_undo]. Qed.

Lemma access_list_undo_exact_witness :
  let al := mk {[ 7 := 0 ]} [ {[1]} ] in
  undo_AddSlot 7 2 (false, true) (mk {[ 7 := 0 ]} [ {[2; 1]} ]) = Ret al /\
  undo_AddSlot 8 2 (true, true) (mk {[ 7 := 0; 8 := 1 ]} [ {[1]}; {[2]} ]) = Ret al.
Proof.
  assert (Hwf : al_wf (mk {[ 7 := 0 ]} [ {[1]} ])).
  { split; simpl.
    - intros a i Ha. apply lookup_singleton_Some in Ha as [_ <-]. right. vm_compute. split; congruence.
    - intros a b i Ha Hb _. apply lookup_singleton_Some in Ha as [<- _], Hb as [<- _]. reflexivity.
    - intros k s Hk. apply list_lookup_singleton_Some in Hk as [_ <-]. apply non_empty_singleton_L. }
  split.
  - apply (proj1 (access_list_undo_exact _ 7 2 Hwf)). vm_compute. reflexivity.
  - apply (proj1 (access_list_undo_exact _ 8 2 Hwf)). vm_compute. reflexivity.
Defined.
