(* ===== verification/Rlp.v ===== *)
(** * RLP encoding and splitting (rlp/encode.go, rlp/encbuffer.go, rlp/raw.go)

    The encoder keeps string data and list headers apart and merges them when the
    output is produced; the splitter reads one value off a byte string.  The
    theorems relate the buffered encoder to a recursive reference encoding and
    show that splitting inverts encoding, in both directions. *)

From S2P Require Import Prelude.

(** The messages of a [decodeError]. *)
Inductive decode_msg : Type :=
| NonCanonicalInteger | NonCanonicalSize | ExpectedInputList | ExpectedInputString | InputStringTooLong
| InputStringTooShort | TooManyElements | TooFewElements | WrongEmptyKind | InvalidBoolean.
#[export] Instance decode_msg_dec : EqDecision decode_msg.
Proof. solve_decision. Defined.

Inductive rlp_error : Type :=
| ErrUnexpectedEOF | ErrCanonSize | ErrValueTooLarge | ErrExpectedString | ErrExpectedList
| ErrCanonInt | errUintOverflow | EOF | EOL | ErrElemTooLarge | ErrMoreThanOneValue | errNotInList
| errNotAtEOL | errUint256Large | ErrNegativeBigInt | decodeError (msg : decode_msg).
#[export] Instance rlp_error_dec : EqDecision rlp_error.
Proof. solve_decision. Defined.

Inductive Kind : Type := Byte | String | List.
#[export] Instance Kind_dec : EqDecision Kind.
Proof. solve_decision. Defined.

Module Rlp.

(** ** Integers and headers *)

(** The bytes [putint] writes; its result is their number. *)
Definition putint (i : Z) : list Z :=
  if i <? 2 ^ 8 then [byte_of i]
  else if i <? 2 ^ 16 then [byte_of (Z.shiftr i 8); byte_of i]
  else if i <? 2 ^ 24 then [byte_of (Z.shiftr i 16); byte_of (Z.shiftr i 8); byte_of i]
  else if i <? 2 ^ 32 then
    [byte_of (Z.shiftr i 24); byte_of (Z.shiftr i 16); byte_of (Z.shiftr i 8); byte_of i]
  else if i <? 2 ^ 40 then
    [byte_of (Z.shiftr i 32); byte_of (Z.shiftr i 24); byte_of (Z.shiftr i 16);
     byte_of (Z.shiftr i 8); byte_of i]
  else if i <? 2 ^ 48 then
    [byte_of (Z.shiftr i 40); byte_of (Z.shiftr i 32); byte_of (Z.shiftr i 24);
     byte_of (Z.shiftr i 16); byte_of (Z.shiftr i 8); byte_of i]
  else if i <? 2 ^ 56 then
    [byte_of (Z.shiftr i 48); byte_of (Z.shiftr i 40); byte_of (Z.shiftr i 32);
     byte_of (Z.shiftr i 24); byte_of (Z.shiftr i 16); byte_of (Z.shiftr i 8); byte_of i]
  else
    [byte_of (Z.shiftr i 56); byte_of (Z.shiftr i 48); byte_of (Z.shiftr i 40);
     byte_of (Z.shiftr i 32); byte_of (Z.shiftr i 24); byte_of (Z.shiftr i 16);
     byte_of (Z.shiftr i 8); byte_of i].

(** [bits.Len64]. *)
Definition Len64 (i : Z) : Z := if i =? 0 then 0 else Z.log2 i + 1.

Definition intsize (i : Z) : Z := if i =? 0 then 1 else (Len64 i + 7) / 8.

Definition headsize (size : Z) : Z := if size <? 56 then 1 else 1 + intsize size.

(** The bytes [puthead] writes. *)
Definition puthead (smalltag largetag size : Z) : list Z :=
  if size <? 56 then [byte_of (smalltag + byte_of size)]
  else let s := putint size in byte_of (largetag + byte_of (Zlen s)) :: s.

(** ** The encoder buffer *)

Record listhead : Type := mkHead { offset : Z; size : Z }.

Definition listhead_encode (head : listhead) : list Z := puthead 0xC0 0xF7 (u64 (size head)).

Record encBuffer : Type := mkBuf { str : list Z; lheads : list listhead; lhsize : Z }.

Definition reset : encBuffer := mkBuf [] [] 0.

Definition buf_size (buf : encBuffer) : Z := Zlen (str buf) + lhsize buf.

Definition append_str (b : list Z) (buf : encBuffer) : encBuffer :=
  mkBuf (str buf ++ b) (lheads buf) (lhsize buf).

(** Writing [b] at position [pos] of [dst], every byte in range. *)
Definition put_at (dst : list Z) (pos : Z) (b : list Z) : outcome (list Z) :=
  if (0 <=? pos) && (pos + Zlen b <=? Zlen dst) then Ret (go_copy_at dst (Z.to_nat pos) b) else Panic.

(** The loop of [copyTo] over the list headers, then the copy of what follows
    the last one. *)
Fixpoint copyTo_loop (heads : list listhead) (s dst : list Z) (strpos pos : Z) : outcome (list Z) :=
  match heads with
  | [] =>
      let! _ := go_slice dst pos (Zlen dst) in
      let! tail := go_slice s strpos (Zlen s) in
      Ret (go_copy_at dst (Z.to_nat pos) tail)
  | head :: heads =>
      let! room := go_slice dst pos (Zlen dst) in
      let! piece := go_slice s strpos (offset head) in
      let n := Z.min (Zlen piece) (Zlen room) in
      let dst := go_copy_at dst (Z.to_nat pos) piece in
      let pos := pos + n in
      let strpos := strpos + n in
      let enc := listhead_encode head in
      let! dst := put_at dst pos enc in
      copyTo_loop heads s dst strpos (pos + Zlen enc)
  end.

Definition copyTo (buf : encBuffer) (dst : list Z) : outcome (list Z) :=
  copyTo_loop (lheads buf) (str buf) dst 0 0.

Definition makeBytes (buf : encBuffer) : outcome (list Z) :=
  copyTo buf (replicate (Z.to_nat (buf_size buf)) 0).

Definition writeBool (b : bool) : encBuffer -> encBuffer :=
  append_str (if b then [0x01] else [0x80]).

Definition writeUint64 (i : Z) : encBuffer -> encBuffer :=
  if i =? 0 then append_str [0x80]
  else if i <? 128 then append_str [byte_of i]
  else let s := putint i in append_str (byte_of (0x80 + byte_of (Zlen s)) :: s).

Definition encodeStringHeader (size : Z) : encBuffer -> encBuffer :=
  if size <? 56 then append_str [byte_of (0x80 + byte_of size)]
  else let s := putint (u64 size) in append_str (byte_of (0xB7 + byte_of (Zlen s)) :: s).

Definition writeBytes (b : list Z) (buf : encBuffer) : encBuffer :=
  match b with
  | [x] => if x <=? 0x7F then append_str [x] buf
           else append_str b (encodeStringHeader (Zlen b) buf)
  | _ => append_str b (encodeStringHeader (Zlen b) buf)
  end.

(** [i.BitLen()] and [ReadBits] of a big integer's absolute value. *)
Definition BitLen (i : Z) : Z := if i =? 0 then 0 else Z.log2 (Z.abs i) + 1.
Definition ReadBits (i len : Z) : list Z := Z_to_bytes (Z.to_nat len) (Z.abs i).

Definition writeBigInt (i : Z) (buf : encBuffer) : encBuffer :=
  let bitlen := BitLen i in
  if bitlen <=? 64 then writeUint64 (u64 (Z.abs i)) buf
  else
    let length := Z.shiftr (Z.land (bitlen + 7) (-8)) 3 in
    append_str (ReadBits i length) (encodeStringHeader length buf).

(** [list] returns the index of the new header. *)
Definition list_begin (buf : encBuffer) : Z * encBuffer :=
  (Zlen (lheads buf),
   mkBuf (str buf) (lheads buf ++ [mkHead (Zlen (str buf)) (lhsize buf)]) (lhsize buf)).

Definition listEnd (index : Z) (buf : encBuffer) : outcome encBuffer :=
  let! lh := go_index (lheads buf) index in
  let sz := buf_size buf - offset lh - size lh in
  let! heads := go_set (lheads buf) index (mkHead (offset lh) sz) in
  Ret (mkBuf (str buf) heads
        (if sz <? 56 then lhsize buf + 1 else lhsize buf + (1 + intsize (u64 sz)))).

(** A value to encode: a byte string or a list of values. *)
#[warnings="-register-all"]
Inductive item : Type := Str (b : list Z) | Lst (l : list item).

(** The writer of a byte slice, and of a slice of values (makeSliceWriter). *)
Fixpoint write_item (it : item) (buf : encBuffer) {struct it} : outcome encBuffer :=
  match it with
  | Str b => Ret (writeBytes b buf)
  | Lst [] => Ret (append_str [0xC0] buf)
  | Lst l =>
      let (listOffset, buf) := list_begin buf in
      let! buf := (fix write_all (l : list item) (buf : encBuffer) : outcome encBuffer :=
         match l with
         | [] => Ret buf
         | it :: l => let! buf := write_item it buf in write_all l buf
         end) l buf in
      listEnd listOffset buf
  end.

Definition EncodeToBytes (it : item) : outcome (list Z) :=
  let! buf := write_item it reset in makeBytes buf.

(** ** Sizes of encodings *)

Definition BytesSize (b : list Z) : Z :=
  match b with
  | [] => 1
  | [x] => if x <=? 0x7f then 1 else 2
  | _ => headsize (Zlen b) + Zlen b
  end.

Definition ListSize (contentSize : Z) : Z := u64 (headsize contentSize + contentSize).

Definition IntSize (x : Z) : Z := if x <? 0x80 then 1 else 1 + intsize x.

(** ** Reading *)

(** [readSize]: the byte-count cases of the source's switch. *)
Definition readSize (b : list Z) (slen : Z) : outcome (rlp_error + Z) :=
  if Zlen b <? slen then Ret (inl ErrUnexpectedEOF)
  else
    let s :=
      match slen, b with
      | 1, b0 :: _ => b0
      | 2, b0 :: b1 :: _ => Z.lor (Z.shiftl b0 8) b1
      | 3, b0 :: b1 :: b2 :: _ => Z.lor (Z.lor (Z.shiftl b0 16) (Z.shiftl b1 8)) b2
      | 4, b0 :: b1 :: b2 :: b3 :: _ =>
          Z.lor (Z.lor (Z.lor (Z.shiftl b0 24) (Z.shiftl b1 16)) (Z.shiftl b2 8)) b3
      | 5, b0 :: b1 :: b2 :: b3 :: b4 :: _ =>
          Z.lor (Z.lor (Z.lor (Z.lor (Z.shiftl b0 32) (Z.shiftl b1 24)) (Z.shiftl b2 16))
            (Z.shiftl b3 8)) b4
      | 6, b0 :: b1 :: b2 :: b3 :: b4 :: b5 :: _ =>
          Z.lor (Z.lor (Z.lor (Z.lor (Z.lor (Z.shiftl b0 40) (Z.shiftl b1 32)) (Z.shiftl b2 24))
            (Z.shiftl b3 16)) (Z.shiftl b4 8)) b5
      | 7, b0 :: b1 :: b2 :: b3 :: b4 :: b5 :: b6 :: _ =>
          Z.lor (Z.lor (Z.lor (Z.lor (Z.lor (Z.lor (Z.shiftl b0 48) (Z.shiftl b1 40))
            (Z.shiftl b2 32)) (Z.shiftl b3 24)) (Z.shiftl b4 16)) (Z.shiftl b5 8)) b6
      | 8, b0 :: b1 :: b2 :: b3 :: b4 :: b5 :: b6 :: b7 :: _ =>
          Z.lor (Z.lor (Z.lor (Z.lor (Z.lor (Z.lor (Z.lor (Z.shiftl b0 56) (Z.shiftl b1 48))
            (Z.shiftl b2 40)) (Z.shiftl b3 32)) (Z.shiftl b4 24)) (Z.shiftl b5 16))
            (Z.shiftl b6 8)) b7
      | _, _ => 0
      end in
    if s <? 56 then Ret (inl ErrCanonSize)
    else let! b0 := go_index b 0 in
         if b0 =? 0 then Ret (inl ErrCanonSize) else Ret (inr s).

Definition readKind (buf : list Z) : outcome (rlp_error + (Kind * Z * Z)) :=
  if Zlen buf =? 0 then Ret (inl ErrUnexpectedEOF)
  else
    let! b := go_index buf 0 in
    let! r :=
      (if b <? 0x80 then Ret (inr (Byte, 0, 1))
       else if b <? 0xB8 then
         let contentsize := b - 0x80 in
         let! noncanon :=
           (if (contentsize =? 1) && (1 <? Zlen buf)
            then let! b1 := go_index buf 1 in Ret (b1 <? 128) else Ret false) in
         if noncanon then Ret (inl ErrCanonSize) else Ret (inr (String, 1, contentsize))
       else if b <? 0xC0 then
         let! tl := go_slice buf 1 (Zlen buf) in
         let! sz := readSize tl (b - 0xB7) in
         Ret (match sz with inl e => inl e | inr s => inr (String, b - 0xB7 + 1, s) end)
       else if b <? 0xF8 then Ret (inr (List, 1, b - 0xC0))
       else
         let! tl := go_slice buf 1 (Zlen buf) in
         let! sz := readSize tl (b - 0xF7) in
         Ret (match sz with inl e => inl e | inr s => inr (List, b - 0xF7 + 1, s) end)) in
    Ret (match r with
         | inl e => inl e
         | inr (k, tagsize, contentsize) =>
             if u64 (Zlen buf - tagsize) <? contentsize then inl ErrValueTooLarge
             else inr (k, tagsize, contentsize)
         end).

Definition Split (b : list Z) : outcome (rlp_error + (Kind * list Z * list Z)) :=
  let! r := readKind b in
  match r with
  | inl e => Ret (inl e)
  | inr (k, ts, cs) =>
      let! content := go_slice b ts (u64 (ts + cs)) in
      let! rest := go_slice b (u64 (ts + cs)) (Zlen b) in
      Ret (inr (k, content, rest))
  end.

Definition SplitString (b : list Z) : outcome (rlp_error + (list Z * list Z)) :=
  let! r := Split b in
  Ret (match r with
       | inl e => inl e
       | inr (List, _, _) => inl ErrExpectedString
       | inr (_, content, rest) => inr (content, rest)
       end).

Definition SplitList (b : list Z) : outcome (rlp_error + (list Z * list Z)) :=
  let! r := Split b in
  Ret (match r with
       | inl e => inl e
       | inr (List, content, rest) => inr (content, rest)
       | inr (_, _, _) => inl ErrExpectedList
       end).

Definition SplitUint64 (b : list Z) : outcome (rlp_error + (Z * list Z)) :=
  let! r := SplitString b in
  match r with
  | inl e => Ret (inl e)
  | inr ([], rest) => Ret (inr (0, rest))
  | inr ([c], rest) => Ret (if c =? 0 then inl ErrCanonInt else inr (c, rest))
  | inr (content, rest) =>
      if 8 <? Zlen content then Ret (inl errUintOverflow)
      else let! x := readSize content (Zlen content) in
           Ret (match x with inl _ => inl ErrCanonInt | inr x => inr (x, rest) end)
  end.

(** [CountValues]: every value is at least one byte long. *)
Fixpoint CountValues_loop (fuel : nat) (b : list Z) (i : Z) : outcome (rlp_error + Z) :=
  match fuel with
  | O => OutOfFuel
  | S fuel =>
      if 0 <? Zlen b then
        let! r := readKind b in
        match r with
        | inl e => Ret (inl e)
        | inr (_, tagsize, size) =>
            let! b := go_slice b (u64 (tagsize + size)) (Zlen b) in
            CountValues_loop fuel b (i + 1)
        end
      else Ret (inr i)
  end.

Definition CountValues (b : list Z) : outcome (rlp_error + Z) :=
  CountValues_loop (S (length b)) b 0.

Definition AppendUint64 (b : list Z) (i : Z) : list Z :=
  if i =? 0 then b ++ [0x80]
  else if i <? 128 then b ++ [byte_of i]
  else if i <? 2 ^ 8 then b ++ [0x81; byte_of i]
  else if i <? 2 ^ 16 then b ++ [0x82; byte_of (Z.shiftr i 8); byte_of i]
  else if i <? 2 ^ 24 then b ++ [0x83; byte_of (Z.shiftr i 16); byte_of (Z.shiftr i 8); byte_of i]
  else if i <? 2 ^ 32 then
    b ++ [0x84; byte_of (Z.shiftr i 24); byte_of (Z.shiftr i 16); byte_of (Z.shiftr i 8); byte_of i]
  else if i <? 2 ^ 40 then
    b ++ [0x85; byte_of (Z.shiftr i 32); byte_of (Z.shiftr i 24); byte_of (Z.shiftr i 16);
     byte_of (Z.shiftr i 8); byte_of i]
  else if i <? 2 ^ 48 then
    b ++ [0x86; byte_of (Z.shiftr i 40); byte_of (Z.shiftr i 32); byte_of (Z.shiftr i 24);
     byte_of (Z.shiftr i 16); byte_of (Z.shiftr i 8); byte_of i]
  else if i <? 2 ^ 56 then
    b ++ [0x87; byte_of (Z.shiftr i 48); byte_of (Z.shiftr i 40); byte_of (Z.shiftr i 32);
     byte_of (Z.shiftr i 24); byte_of (Z.shiftr i 16); byte_of (Z.shiftr i 8); byte_of i]
  else
    b ++ [0x88; byte_of (Z.shiftr i 56); byte_of (Z.shiftr i 48); byte_of (Z.shiftr i 40);
     byte_of (Z.shiftr i 32); byte_of (Z.shiftr i 24); byte_of (Z.shiftr i 16);
     byte_of (Z.shiftr i 8); byte_of i].

End Rlp.
Import Rlp.

(** ** Integers in big-endian bytes *)

Lemma byte_shiftr i k : 0 <= k -> byte_of (Z.shiftr i k) = (i / 2 ^ k) mod 256.
Proof. intros. unfold byte_of. by rewrite Z.shiftr_div_pow2. Qed.

Ltac putint_case n :=
  exists n; split; [lia|]; split; [|split; lia];
  cbn [Z_to_bytes app]; rewrite ?Z.div_div by lia; rewrite ?byte_shiftr by lia; reflexivity.

(** [putint] writes the minimal big-endian representation. *)
Lemma putint_spec i : in64 i ->
  exists n, (1 <= n <= 8)%nat /\ putint i = Z_to_bytes n i /\
    i < 256 ^ Z.of_nat n /\ (n = 1%nat \/ 256 ^ (Z.of_nat n - 1) <= i).
Proof.
  unfold in64. intros Hi. unfold putint.
  destruct (Z.ltb_spec i (2 ^ 8)); [putint_case 1%nat|].
  destruct (Z.ltb_spec i (2 ^ 16)); [putint_case 2%nat|].
  destruct (Z.ltb_spec i (2 ^ 24)); [putint_case 3%nat|].
  destruct (Z.ltb_spec i (2 ^ 32)); [putint_case 4%nat|].
  destruct (Z.ltb_spec i (2 ^ 40)); [putint_case 5%nat|].
  destruct (Z.ltb_spec i (2 ^ 48)); [putint_case 6%nat|].
  destruct (Z.ltb_spec i (2 ^ 56)); [putint_case 7%nat|putint_case 8%nat].
Qed.

Lemma log2_bytes i n : 0 < i -> (1 <= n)%nat -> i < 256 ^ Z.of_nat n ->
  (n = 1%nat \/ 256 ^ (Z.of_nat n - 1) <= i) -> (Z.log2 i + 1 + 7) / 8 = Z.of_nat n.
Proof.
  intros Hi Hn Hu Hl. change 256 with (2 ^ 8) in *. rewrite <- !Z.pow_mul_r in * by lia.
  assert (Z.log2 i < 8 * Z.of_nat n) by (apply Z.log2_lt_pow2; lia).
  assert (8 * (Z.of_nat n - 1) <= Z.log2 i).
  { destruct Hl as [-> |Hl]; [apply Z.log2_nonneg|]. apply Z.log2_le_pow2; lia. }
  symmetry. apply Z.div_unique with (Z.log2 i + 8 - 8 * Z.of_nat n); lia.
Qed.

Lemma intsize_putint i : in64 i -> intsize i = Zlen (putint i).
Proof.
  intros Hi. destruct (putint_spec i Hi) as (n & Hn & -> & Hu & Hl).
  unfold Zlen. rewrite length_Z_to_bytes. unfold intsize, Len64, in64 in *.
  destruct (Z.eqb_spec i 0) as [-> |].
  - destruct Hl as [-> |Hl]; [done|]. assert (0 < 256 ^ (Z.of_nat n - 1)) by (apply Z.pow_pos_nonneg; lia). lia.
  - apply log2_bytes; lia.
Qed.

Lemma lor_shift_add x b k m : m = 2 ^ (k + 8) -> 0 <= k -> is_byte b -> x mod m = 0 ->
  Z.lor x (Z.shiftl b k) = x + b * 2 ^ k.
Proof.
  intros -> Hk Hb Hx. rewrite <- Z.shiftl_mul_pow2 by done.
  assert (Hland : Z.land x (Z.shiftl b k) = 0).
  { apply Z.bits_inj'. intros n Hn. rewrite Z.land_spec, Z.bits_0, Z.shiftl_spec by done.
    destruct (Z.ltb_spec n k); [rewrite (Z.testbit_neg_r b) by lia; apply andb_false_r|].
    destruct (Z.ltb_spec n (k + 8)).
    - rewrite <- (Z.mod_pow2_bits_low x (k + 8)) by lia. by rewrite Hx, Z.bits_0.
    - unfold is_byte in Hb. rewrite <- (Z.mod_small b (2 ^ 8)) by lia.
      rewrite Z.mod_pow2_bits_high by lia. apply andb_false_r. }
  rewrite Z.add_nocarry_lxor by done. symmetry. apply Z.lxor_lor. done.
Qed.

Lemma lor_byte_add x b : is_byte b -> x mod 256 = 0 -> Z.lor x b = x + b.
Proof.
  intros Hb Hx. rewrite <- (Z.shiftl_0_r b) at 1. rewrite (lor_shift_add _ _ _ 256); auto; lia.
Qed.

(** Turn a chain of disjoint byte ors into a sum. *)
Ltac lor_sum :=
  repeat match goal with
  | |- context [Z.lor ?x (Z.shiftl ?b ?k)] =>
      lazymatch x with context [Z.lor] => fail | _ => idtac end;
      let m := eval vm_compute in (2 ^ (k + 8)) in
      rewrite (lor_shift_add x b k m);
        [|reflexivity|lia|assumption|rewrite ?Z.shiftl_mul_pow2 by lia; Z.div_mod_to_equations; lia]
  | |- context [Z.lor ?x ?b] =>
      lazymatch x with context [Z.lor] => fail | _ => idtac end;
      rewrite (lor_byte_add x b); [|assumption|rewrite ?Z.shiftl_mul_pow2 by lia; Z.div_mod_to_equations; lia]
  end;
  rewrite ?Z.shiftl_mul_pow2 by lia.

(** What [readSize] computes of its [slen] bytes. *)
Lemma readSize_spec b n : Forall is_byte b -> (1 <= n <= 8)%nat -> (n <= length b)%nat ->
  readSize b (Z.of_nat n) =
    let s := bytes_to_Z (take n b) in
    if s <? 56 then Ret (inl ErrCanonSize)
    else if default 0 (b !! 0%nat) =? 0 then Ret (inl ErrCanonSize) else Ret (inr s).
Proof.
  intros Hb Hn Hl. unfold readSize, Zlen. destruct (Z.ltb_spec (Z.of_nat (length b)) (Z.of_nat n)); [lia|].
  assert (Hidx : go_index b 0 = Ret (default 0 (b !! 0%nat))).
  { destruct b; simpl in *; [lia|done]. }
  rewrite Hidx. cbn [obind].
  match goal with |- (if ?e <? 56 then _ else _) = _ => assert (He : e = bytes_to_Z (take n b)) end;
    [|cbv zeta; by rewrite He].
  clear Hidx H. assert (Hc : n = 1%nat \/ n = 2%nat \/ n = 3%nat \/ n = 4%nat \/ n = 5%nat \/ n = 6%nat \/
      n = 7%nat \/ n = 8%nat) by lia.
  destruct_or! Hc; subst n;
    repeat (destruct b as [|? b]; [simpl in Hl; lia|]; apply Forall_cons_1 in Hb as [? Hb]; simpl in Hl);
    (match goal with |- context [Z.of_nat ?k] =>
       let v := eval vm_compute in (Z.of_nat k) in change (Z.of_nat k) with v end);
    unfold bytes_to_Z; cbn -[Z.lor Z.shiftl Z.mul Z.add]; rewrite ?take_0; cbn [fold_left];
    lor_sum; unfold is_byte in *; lia.
Qed.

(** ** Reference encoding *)

Definition enc_str (b : list Z) : list Z :=
  match b with
  | [x] => if x <=? 0x7F then [x] else puthead 0x80 0xB7 1 ++ b
  | _ => puthead 0x80 0xB7 (Zlen b) ++ b
  end.

Fixpoint enc (it : item) : list Z :=
  match it with
  | Str b => enc_str b
  | Lst l => let body := concat (map enc l) in puthead 0xC0 0xF7 (Zlen body) ++ body
  end.

Lemma item_ind' (P : item -> Prop) :
  (forall b, P (Str b)) -> (forall l, Forall P l -> P (Lst l)) -> forall it, P it.
Proof.
  intros HS HL. fix IH 1. intros [b|l]; [apply HS|].
  apply HL. induction l as [|it l IHl]; constructor; [apply IH|exact IHl].
Qed.

Lemma Zlen_app {A} (l1 l2 : list A) : Zlen (l1 ++ l2) = Zlen l1 + Zlen l2.
Proof. unfold Zlen. rewrite length_app. lia. Qed.
Lemma Zlen_cons {A} (x : A) l : Zlen (x :: l) = 1 + Zlen l.
Proof. unfold Zlen. simpl. lia. Qed.
Lemma Zlen_nil {A} : Zlen (@nil A) = 0.
Proof. done. Qed.

Lemma Zlen_puthead a b n : 0 <= n < 2 ^ 64 -> Zlen (puthead a b n) = headsize n.
Proof.
  intros Hn. unfold puthead, headsize. destruct (n <? 56); [done|].
  cbv zeta. rewrite Zlen_cons, <- intsize_putint; done.
Qed.

Lemma encodeStringHeader_puthead n buf : 0 <= n < 2 ^ 64 ->
  encodeStringHeader n buf = append_str (puthead 0x80 0xB7 n) buf.
Proof.
  intros Hn. unfold encodeStringHeader, puthead. rewrite u64_small by done. by destruct (n <? 56).
Qed.

Lemma append_str_app a b buf : append_str b (append_str a buf) = append_str (a ++ b) buf.
Proof. unfold append_str. simpl. by rewrite app_assoc. Qed.

Lemma writeBytes_enc b buf : Zlen b < 2 ^ 64 -> writeBytes b buf = append_str (enc_str b) buf.
Proof.
  intros Hb. pose proof (Zlen_nonneg b). unfold writeBytes, enc_str.
  destruct b as [|x [|y b]]; try (rewrite encodeStringHeader_puthead by lia; by rewrite append_str_app).
  destruct (x <=? 0x7F); [done|]. rewrite encodeStringHeader_puthead by lia. by rewrite append_str_app.
Qed.

(** What the buffer holds for a value: its string data and its list headers. *)
Fixpoint strs (it : item) : list Z :=
  match it with
  | Str b => enc_str b
  | Lst [] => [0xC0]
  | Lst l => concat (map strs l)
  end.

Fixpoint heads (off : Z) (it : item) : list listhead :=
  match it with
  | Str _ => []
  | Lst [] => []
  | Lst l => mkHead off (Zlen (concat (map enc l))) ::
      (fix go (off : Z) (l : list item) : list listhead :=
         match l with [] => [] | it :: l => heads off it ++ go (off + Zlen (strs it)) l end) off l
  end.

Fixpoint heads_all (off : Z) (l : list item) : list listhead :=
  match l with [] => [] | it :: l => heads off it ++ heads_all (off + Zlen (strs it)) l end.

Fixpoint write_all (l : list item) (buf : encBuffer) : outcome encBuffer :=
  match l with
  | [] => Ret buf
  | it :: l => let! buf := write_item it buf in write_all l buf
  end.

Definition written (buf : encBuffer) (s : list Z) (h : list listhead) (n : Z) : encBuffer :=
  mkBuf (str buf ++ s) (lheads buf ++ h) (lhsize buf + (n - Zlen s)).

Definition writes (it : item) : Prop := forall buf,
  Zlen (enc it) < 2 ^ 64 ->
  write_item it buf = Ret (written buf (strs it) (heads (Zlen (str buf)) it) (Zlen (enc it))).

Lemma write_all_spec l : Forall writes l -> forall buf, Zlen (concat (map enc l)) < 2 ^ 64 ->
  write_all l buf = Ret (written buf (concat (map strs l)) (heads_all (Zlen (str buf)) l)
    (Zlen (concat (map enc l)))).
Proof.
  induction 1 as [|it l Hit Hl IH]; intros buf Hb; simpl in *.
  - unfold written. destruct buf; simpl. rewrite !app_nil_r. do 2 f_equal. unfold Zlen; simpl; lia.
  - rewrite Zlen_app in *. pose proof (Zlen_nonneg (enc it)).
    pose proof (Zlen_nonneg (concat (map enc l))).
    rewrite Hit by lia. cbn [obind]. rewrite IH by lia. unfold written; simpl.
    rewrite !Zlen_app, <- !app_assoc. do 2 f_equal. lia.
Qed.

Lemma write_item_spec it : writes it.
Proof.
  induction it as [b|l IH] using item_ind'; intros buf Hlen; pose proof (Zlen_nonneg (str buf)).
  - simpl in *. unfold enc_str in Hlen. rewrite writeBytes_enc.
    + unfold append_str, written. rewrite app_nil_r. do 2 f_equal. lia.
    + destruct b as [|x [|y b]]; [done|done|]. rewrite Zlen_app in Hlen.
      pose proof (Zlen_nonneg (puthead 128 183 (Zlen (x :: y :: b)))). lia.
  - destruct l as [|it l].
    { simpl. unfold append_str, written. simpl. rewrite !app_nil_r. do 2 f_equal.
      unfold Zlen at 1 3; simpl. lia. }
    remember (it :: l) as l' eqn:Hl'. assert (Hne : l' <> []) by (by subst).
    assert (Hw : write_item (Lst l') buf =
      let (i, b) := list_begin buf in let! b := write_all l' b in listEnd i b) by (by subst).
    assert (Hh : heads (Zlen (str buf)) (Lst l') = mkHead (Zlen (str buf)) (Zlen (concat (map enc l')))
      :: heads_all (Zlen (str buf)) l') by (by subst).
    assert (Hs : strs (Lst l') = concat (map strs l')) by (by subst).
    rewrite Hw, Hh, Hs. clear Hw Hh Hs Hl' it l. simpl in Hlen |- *. rewrite Zlen_app in *.
    set (body := concat (map enc l')) in *.
    pose proof (Zlen_nonneg body). pose proof (Zlen_nonneg (puthead 192 247 (Zlen body))).
    rewrite write_all_spec by (auto; fold body; lia). fold body. cbn [obind]. unfold listEnd, written.
    cbn [lheads str lhsize]. set (ss := concat (map strs l')).
    set (h0 := mkHead (Zlen (str buf)) (lhsize buf)). set (hs := heads_all _ _).
    assert (Hi : go_index ((lheads buf ++ [h0]) ++ hs) (Zlen (lheads buf)) = Ret h0).
    { unfold go_index, Zlen. rewrite (proj2 (Z.leb_le _ _)), Nat2Z.id by lia.
      rewrite <- app_assoc. cbn [app]. by rewrite list_lookup_middle. }
    rewrite Hi. cbn [obind]. unfold buf_size; cbn [str lhsize offset size].
    replace (_ - offset h0 - size h0) with (Zlen body)
      by (unfold h0; cbn [offset size]; rewrite Zlen_app; lia).
    unfold go_set. rewrite (proj2 (Z.leb_le _ _)), (proj2 (Z.ltb_lt _ _));
      [cbn [andb obind]| |apply Zlen_nonneg].
    2: { rewrite !Zlen_app, Zlen_cons. pose proof (Zlen_nonneg hs). pose proof (Zlen_nonneg (@nil listhead)). lia. }
    rewrite u64_small by (unfold in64; lia). rewrite (Zlen_puthead _ _ (Zlen body)) by lia.
    do 2 f_equal.
    + rewrite <- app_assoc. unfold Zlen at 1. rewrite Nat2Z.id.
      rewrite insert_app_r_alt, Nat.sub_diag by lia. done.
    + unfold headsize. destruct (Zlen body <? 56); lia.
Qed.

(** ** Merging string data and headers *)

(** [s[a:b]] for in-range bounds. *)
Definition piece (s : list Z) (a b : Z) : list Z := take (Z.to_nat (b - a)) (drop (Z.to_nat a) s).

Fixpoint render (hs : list listhead) (s : list Z) (strpos : Z) : list Z :=
  match hs with
  | [] => drop (Z.to_nat strpos) s
  | h :: hs => piece s strpos (offset h) ++ listhead_encode h ++ render hs s (offset h)
  end.

(** Offsets in order, from [a] to the end of the string data. *)
Fixpoint ordered (a : Z) (hs : list listhead) (n : Z) : Prop :=
  match hs with [] => a <= n | h :: hs => a <= offset h /\ ordered (offset h) hs n end.

Lemma ordered_bound a hs n : ordered a hs n -> a <= n.
Proof. revert a; induction hs as [|h hs IH]; simpl; intros a H; [done|]. destruct H as [H1 H2]. apply IH in H2. lia. Qed.

Lemma ordered_weaken a b hs n : b <= a -> ordered a hs n -> ordered b hs n.
Proof. destruct hs; simpl; intuition lia. Qed.

Lemma Zlen_piece s a b : 0 <= a <= b -> b <= Zlen s -> Zlen (piece s a b) = b - a.
Proof. unfold piece, Zlen. intros. rewrite length_take, length_drop. lia. Qed.

Lemma go_copy_at_app (out rest p : list Z) : (length p <= length rest)%nat ->
  go_copy_at (out ++ rest) (length out) p = out ++ p ++ drop (length p) rest.
Proof.
  intros H. unfold go_copy_at. rewrite length_app, take_app_length.
  replace (Nat.min (length p) (length out + length rest - length out)) with (length p) by lia.
  rewrite (take_ge p) by lia. by rewrite drop_app_add.
Qed.

Lemma copyTo_loop_render hs s : forall out rest strpos,
  0 <= strpos -> ordered strpos hs (Zlen s) -> Zlen rest = Zlen (render hs s strpos) ->
  copyTo_loop hs s (out ++ rest) strpos (Zlen out) = Ret (out ++ render hs s strpos).
Proof.
  induction hs as [|h hs IH]; intros out rest strpos Hs Ho Hr; simpl in *;
    pose proof (Zlen_nonneg out); pose proof (Zlen_nonneg rest).
  - rewrite !go_slice_Ret by (rewrite ?Zlen_app; lia). cbn [obind]. f_equal.
    replace (Z.to_nat (Zlen out)) with (length out) by (unfold Zlen; lia).
    rewrite (take_ge (drop _ s)) by (unfold Zlen; rewrite length_drop; lia).
    assert (Hl : length rest = length (drop (Z.to_nat strpos) s)) by (unfold Zlen in Hr; lia).
    rewrite go_copy_at_app by lia. rewrite <- Hl, drop_all. by rewrite app_nil_r.
  - destruct Ho as [Ho1 Ho2]. pose proof (ordered_bound _ _ _ Ho2).
    rewrite go_slice_Ret by (rewrite ?Zlen_app; lia). cbn [obind].
    rewrite go_slice_Ret by (rewrite ?Zlen_app; lia). cbn [obind].
    fold (piece s strpos (offset h)). set (p := piece s strpos (offset h)) in *.
    set (e := listhead_encode h) in *. rewrite !Zlen_app in Hr.
    assert (Hp : Zlen p = offset h - strpos) by (apply Zlen_piece; lia).
    pose proof (Zlen_nonneg e). pose proof (Zlen_nonneg (render hs s (offset h))).
    match goal with |- context [Z.min (Zlen p) ?x] => replace (Z.min (Zlen p) x) with (Zlen p) end.
    2: { unfold Zlen in *. rewrite length_take, length_drop, length_app. lia. }
    replace (Z.to_nat (Zlen out)) with (length out) by (unfold Zlen; lia).
    rewrite go_copy_at_app by (unfold Zlen in *; lia).
    unfold put_at. rewrite (proj2 (Z.leb_le 0 _)) by lia.
    rewrite (proj2 (Z.leb_le (Zlen out + Zlen p + Zlen e) _)).
    2: { unfold Zlen in *. rewrite !length_app, length_drop. lia. }
    cbn [andb obind]. rewrite (app_assoc out p).
    replace (Z.to_nat (Zlen out + Zlen p)) with (length (out ++ p))
      by (unfold Zlen; rewrite length_app; lia).
    rewrite go_copy_at_app by (unfold Zlen in *; rewrite length_drop; lia).
    rewrite app_assoc. replace (Zlen out + Zlen p + Zlen e) with (Zlen ((out ++ p) ++ e))
      by (rewrite !Zlen_app; lia).
    replace (strpos + Zlen p) with (offset h) by lia.
    rewrite IH; [by rewrite <- !app_assoc|lia|done|].
    unfold Zlen in *. rewrite !length_drop. lia.
Qed.

(** Rendering can be cut at any point before the next header. *)
Lemma render_cut hs s a b : 0 <= a <= b -> ordered b hs (Zlen s) ->
  render hs s a = piece s a b ++ render hs s b.
Proof.
  intros Hab Ho. pose proof (ordered_bound _ _ _ Ho). unfold Zlen in *.
  assert (Hcut : forall c, b <= c -> drop (Z.to_nat a) s = piece s a b ++ drop (Z.to_nat b) s).
  { intros c Hc. unfold piece. replace (Z.to_nat b) with (Z.to_nat a + Z.to_nat (b - a))%nat by lia.
    rewrite <- drop_drop. by rewrite take_drop. }
  destruct hs as [|h hs]; simpl in *; [by apply (Hcut b)|].
  destruct Ho as [Ho _]. rewrite (app_assoc (piece s a b)). f_equal. unfold piece at 1.
  rewrite (Hcut b) by lia. rewrite take_app. f_equal.
  - apply take_ge. unfold piece. rewrite length_take. lia.
  - unfold piece. f_equal. rewrite length_take, length_drop. lia.
Qed.

Lemma piece_middle pre mid post :
  piece (pre ++ mid ++ post) (Zlen pre) (Zlen pre + Zlen mid) = mid.
Proof.
  unfold piece, Zlen. rewrite Nat2Z.id, drop_app_length.
  replace (Z.to_nat _) with (length mid) by lia. by rewrite take_app_length.
Qed.

(** Headers of a list of values are in order. *)
Definition heads_ordered (it : item) : Prop := forall off hs n,
  ordered (off + Zlen (strs it)) hs n -> ordered off (heads off it ++ hs) n.

Lemma heads_all_ordered l : Forall heads_ordered l -> forall off hs n,
  ordered (off + Zlen (concat (map strs l))) hs n -> ordered off (heads_all off l ++ hs) n.
Proof.
  induction 1 as [|it l Hit _ IH]; intros off hs n Ho; simpl in *.
  - rewrite Zlen_nil, Z.add_0_r in Ho. done.
  - rewrite Zlen_app, Z.add_assoc in Ho. rewrite <- app_assoc. auto.
Qed.

Lemma heads_Lst off l : l <> [] -> heads off (Lst l) =
  mkHead off (Zlen (concat (map enc l))) :: heads_all off l.
Proof. by destruct l. Qed.
Lemma strs_Lst l : l <> [] -> strs (Lst l) = concat (map strs l).
Proof. by destruct l. Qed.

Lemma heads_ordered_all it : heads_ordered it.
Proof.
  induction it as [b|l IH] using item_ind'; intros off hs n Ho.
  - simpl. eapply ordered_weaken; [|exact Ho]. pose proof (Zlen_nonneg (strs (Str b))). lia.
  - destruct (decide (l = [])) as [-> |Hne].
    + simpl. eapply ordered_weaken; [|exact Ho]. pose proof (Zlen_nonneg (strs (Lst []))). lia.
    + rewrite heads_Lst by done. simpl. split; [lia|]. rewrite strs_Lst in Ho by done.
      by apply heads_all_ordered.
Qed.

(** Rendering the data of a value gives its encoding. *)
Definition renders (it : item) : Prop := forall pre post hs,
  Zlen (enc it) < 2 ^ 64 ->
  ordered (Zlen pre + Zlen (strs it)) hs (Zlen (pre ++ strs it ++ post)) ->
  render (heads (Zlen pre) it ++ hs) (pre ++ strs it ++ post) (Zlen pre) =
    enc it ++ render hs (pre ++ strs it ++ post) (Zlen pre + Zlen (strs it)).

Lemma render_all l : Forall renders l -> forall pre post hs,
  Zlen (concat (map enc l)) < 2 ^ 64 ->
  let s := pre ++ concat (map strs l) ++ post in
  ordered (Zlen pre + Zlen (concat (map strs l))) hs (Zlen s) ->
  render (heads_all (Zlen pre) l ++ hs) s (Zlen pre) =
    concat (map enc l) ++ render hs s (Zlen pre + Zlen (concat (map strs l))).
Proof.
  induction 1 as [|it l Hit Hl IH]; intros pre post hs Hlen s Ho; simpl in *.
  - by rewrite Zlen_nil, Z.add_0_r.
  - subst s. rewrite Zlen_app in Hlen. pose proof (Zlen_nonneg (enc it)).
    pose proof (Zlen_nonneg (concat (map enc l))). rewrite <- !app_assoc in *.
    rewrite Zlen_app, Z.add_assoc in Ho. rewrite Hit; [|lia|].
    + f_equal. rewrite Zlen_app, Z.add_assoc, <- Zlen_app, app_assoc. apply IH; [lia|].
      by rewrite Zlen_app, <- app_assoc.
    + apply heads_all_ordered; [|done]. apply Forall_forall. intros x _. apply heads_ordered_all.
Qed.

Lemma renders_all it : renders it.
Proof.
  induction it as [b|l IH] using item_ind'; intros pre post hs Hlen Ho; pose proof (Zlen_nonneg pre).
  - simpl in *. rewrite (render_cut hs _ (Zlen pre) (Zlen pre + Zlen (enc_str b)));
      [by rewrite piece_middle|pose proof (Zlen_nonneg (enc_str b)); lia|done].
  - destruct (decide (l = [])) as [-> |Hne].
    + simpl in *. rewrite (render_cut hs _ (Zlen pre) (Zlen pre + Zlen [192])); [|unfold Zlen; simpl; lia|done].
      change (192 :: post) with ([192] ++ post). by rewrite piece_middle.
    + rewrite heads_Lst by done. rewrite strs_Lst in * by done. cbn [app render offset].
      unfold piece at 1. rewrite Z.sub_diag. cbn [Z.to_nat take app].
      rewrite render_all; [|done| |done].
      * simpl. unfold listhead_encode; cbn [size]. simpl in Hlen. rewrite Zlen_app in Hlen.
        pose proof (Zlen_nonneg (puthead 192 247 (Zlen (concat (map enc l))))).
        pose proof (Zlen_nonneg (concat (map enc l))).
        rewrite u64_small by (unfold in64; lia). by rewrite <- app_assoc.
      * simpl in Hlen. rewrite Zlen_app in Hlen.
        pose proof (Zlen_nonneg (puthead 192 247 (Zlen (concat (map enc l))))). lia.
Qed.

Lemma EncodeToBytes_enc it : Zlen (enc it) < 2 ^ 64 -> EncodeToBytes it = Ret (enc it).
Proof.
  intros Hlen. unfold EncodeToBytes. rewrite write_item_spec by done. cbn [obind].
  unfold makeBytes, copyTo, written, buf_size. cbn [str lheads lhsize reset app].
  pose proof (renders_all it [] [] [] Hlen) as Hr. cbn [app] in Hr. rewrite !app_nil_r in Hr.
  change (Zlen []) with 0 in *. rewrite Z.add_0_l in Hr.
  assert (Hd : render [] (strs it) (Zlen (strs it)) = []).
  { simpl. unfold Zlen. rewrite Nat2Z.id. apply drop_all. }
  rewrite Hd, app_nil_r in Hr. specialize (Hr ltac:(simpl; lia)).
  replace (Z.to_nat _) with (length (enc it)) by (unfold Zlen; lia).
  rewrite <- Hr at 2. rewrite <- (app_nil_l (replicate _ _)).
  apply (copyTo_loop_render _ _ []); [lia| |].
  - pose proof (heads_ordered_all it 0 [] (Zlen (strs it))) as Ho. rewrite app_nil_r in Ho.
    apply Ho. simpl. lia.
  - rewrite Hr. unfold Zlen. by rewrite length_replicate.
Qed.

(** ** Splitting *)

(** The encoding of a value of kind [k] with content [c]. *)
Definition tagged (k : Kind) (c : list Z) : list Z :=
  match k with
  | Byte => c
  | String => puthead 0x80 0xB7 (Zlen c) ++ c
  | List => puthead 0xC0 0xF7 (Zlen c) ++ c
  end.

(** The canonical kinds of a content: single bytes below 128 carry no header. *)
Definition canonical (k : Kind) (c : list Z) : Prop :=
  match k with
  | Byte => exists x, c = [x] /\ 0 <= x < 128
  | String => forall x, c = [x] -> 128 <= x
  | List => True
  end.

Lemma tagged_enc_str b : Forall is_byte b ->
  exists k, (k = Byte \/ k = String) /\ canonical k b /\ enc_str b = tagged k b.
Proof.
  intros Hb. unfold enc_str. destruct b as [|x [|y b]].
  - exists String. split_and!; auto. done.
  - apply Forall_cons_1 in Hb as [Hx _]. unfold is_byte in Hx. destruct (Z.leb_spec x 0x7F).
    + exists Byte. split_and!; auto. exists x. split; [done|lia].
    + exists String. split_and!; auto. simpl. intros ? [= <-]. lia.
  - exists String. split_and!; auto. done.
Qed.

Lemma go_index_0 {A} (x : A) l : go_index (x :: l) 0 = Ret x.
Proof. done. Qed.

Lemma go_slice_tail {A} (x : A) l : go_slice (x :: l) 1 (Zlen (x :: l)) = Ret l.
Proof.
  rewrite go_slice_Ret by (rewrite ?Zlen_cons; pose proof (Zlen_nonneg l); lia).
  simpl. rewrite drop_0. f_equal. apply take_ge. unfold Zlen; simpl. lia.
Qed.

(** A minimal representation has no leading zero. *)
Lemma Z_to_bytes_lead q : forall z, 256 ^ Z.of_nat q <= z < 256 ^ Z.of_nat (S q) ->
  exists h t, Z_to_bytes (S q) z = h :: t /\ h <> 0.
Proof.
  induction q as [|q IH]; intros z Hz.
  - exists z, []. simpl in *. rewrite Z.mod_small by lia. split; [done|lia].
  - destruct (IH (z / 256)) as (h & t & He & Hh).
    { rewrite (Nat2Z.inj_succ (S q)), Z.pow_succ_r in Hz by lia.
      rewrite (Nat2Z.inj_succ q), Z.pow_succ_r in Hz |- * by lia.
      split; [apply Z.div_le_lower_bound|apply Z.div_lt_upper_bound]; lia. }
    exists h, (t ++ [z mod 256]). cbn [Z_to_bytes] in *. by rewrite He.
Qed.

Lemma putint_lead n : in64 n -> 0 < n -> exists h t, putint n = h :: t /\ h <> 0.
Proof.
  intros Hn H0. destruct (putint_spec n Hn) as (m & Hm & -> & Hu & Hl). destruct m as [|m]; [lia|].
  apply Z_to_bytes_lead. split; [|done]. destruct Hl as [[= ->]|Hl]; [simpl; lia|].
  by replace (Z.of_nat (S m) - 1) with (Z.of_nat m) in Hl by lia.
Qed.

Lemma putint_value n : in64 n -> bytes_to_Z (putint n) = n.
Proof.
  intros Hn. destruct (putint_spec n Hn) as (m & Hm & -> & Hu & Hl).
  rewrite bytes_to_Z_to_bytes. apply Z.mod_small. unfold in64 in Hn. lia.
Qed.

Lemma putint_bytes n : in64 n -> Forall is_byte (putint n) /\ (1 <= length (putint n) <= 8)%nat.
Proof.
  intros Hn. destruct (putint_spec n Hn) as (m & Hm & -> & _).
  rewrite length_Z_to_bytes. split; [apply Z_to_bytes_byte|done].
Qed.

(** Reading back the length bytes of a long header. *)
Lemma readSize_putint n rest : 56 <= n < 2 ^ 64 -> Forall is_byte rest ->
  readSize (putint n ++ rest) (Zlen (putint n)) = Ret (inr n).
Proof.
  intros Hn Hr. assert (Hi : in64 n) by (unfold in64; lia).
  destruct (putint_bytes n Hi) as [Hb Hl]. unfold Zlen. rewrite readSize_spec; [|by apply Forall_app|done|].
  - rewrite take_app_length, putint_value by done. cbv zeta. rewrite (proj2 (Z.ltb_ge _ _)) by lia.
    destruct (putint_lead n Hi ltac:(lia)) as (h & t & -> & Hh). simpl.
    by rewrite (proj2 (Z.eqb_neq _ _)).
  - rewrite length_app. lia.
Qed.

(** [readKind] on the two forms of a header with tags [s] and [l]. *)
Lemma readKind_put s l k c rest :
  (s = 0x80 /\ l = 0xB7 /\ k = String) \/ (s = 0xC0 /\ l = 0xF7 /\ k = List) ->
  canonical k c -> Forall is_byte c -> Forall is_byte rest ->
  Zlen (puthead s l (Zlen c) ++ c ++ rest) < 2 ^ 64 ->
  readKind (puthead s l (Zlen c) ++ c ++ rest) = Ret (inr (k, Zlen (puthead s l (Zlen c)), Zlen c)).
Proof.
  intros Hsl Hk Hc Hr Hlen. set (h := puthead s l (Zlen c)) in *.
  assert (Hsz : (u64 (Zlen (h ++ c ++ rest) - Zlen h) <? Zlen c) = false).
  { rewrite !Zlen_app in *. pose proof (Zlen_nonneg c). pose proof (Zlen_nonneg rest).
    pose proof (Zlen_nonneg h). rewrite u64_small by (unfold in64; lia). apply Z.ltb_ge. lia. }
  pose proof (Zlen_nonneg c) as Hc0. unfold readKind.
  rewrite (proj2 (Z.eqb_neq (Zlen (h ++ c ++ rest)) 0)).
  2: { rewrite !Zlen_app. unfold h, puthead. pose proof (Zlen_nonneg rest).
       destruct (Zlen c <? 56); rewrite Zlen_cons; [change (Zlen []) with 0|
         cbv zeta; pose proof (Zlen_nonneg (putint (Zlen c)))]; lia. }
  assert (Hlc : Zlen c < 2 ^ 64).
  { rewrite !Zlen_app in Hlen. pose proof (Zlen_nonneg rest). pose proof (Zlen_nonneg h). lia. }
  unfold h, puthead in *. clear h. destruct (Z.ltb_spec (Zlen c) 56) as [Hs|Hs].
  - assert (Hb : byte_of (s + byte_of (Zlen c)) = s + Zlen c).
    { unfold byte_of. rewrite (Z.mod_small (Zlen c)) by lia. apply Z.mod_small. lia. }
    rewrite Hb in *. change (Zlen [s + Zlen c]) with 1 in *. cbn [app] in *. rewrite go_index_0. cbn [obind].
    destruct Hsl as [(-> & -> & ->)|(-> & -> & ->)].
    + rewrite (proj2 (Z.ltb_ge _ _)), (proj2 (Z.ltb_lt _ _)) by lia.
      replace (128 + Zlen c - 128) with (Zlen c) by lia.
      match goal with |- context [obind (if (Zlen c =? 1) && ?t then ?x else Ret false) _] =>
        assert (Hnc : (if (Zlen c =? 1) && t then x else Ret false) = Ret false) end.
      { destruct (Z.eqb_spec (Zlen c) 1) as [H1|]; [|done]. cbn [andb]. destruct (1 <? _); [|done].
        destruct c as [|x [|y c]]; try (unfold Zlen in H1; simpl in H1; lia).
        simpl. f_equal. apply Z.ltb_ge. by apply Hk. }
      rewrite Hnc. cbn [obind]. by rewrite Hsz.
    + rewrite !(proj2 (Z.ltb_ge _ _)), (proj2 (Z.ltb_lt _ _)) by lia. cbn [obind].
      replace (192 + Zlen c - 192) with (Zlen c) by lia. by rewrite Hsz.
  - pose proof (readSize_putint (Zlen c) (c ++ rest) ltac:(lia)) as Hrd.
    specialize (Hrd ltac:(by apply Forall_app)).
    destruct (putint_bytes (Zlen c)) as [_ Hp]; [unfold in64; lia|]. set (p := putint (Zlen c)) in *.
    assert (Hb : byte_of (l + byte_of (Zlen p)) = l + Zlen p).
    { unfold byte_of, Zlen. rewrite (Z.mod_small (Z.of_nat _)) by lia. apply Z.mod_small. lia. }
    cbv zeta in *. rewrite Hb, Zlen_cons in *. cbn [app] in *.
    rewrite go_index_0, go_slice_tail. cbn [obind].
    assert (1 <= Zlen p <= 8) by (unfold Zlen; lia).
    destruct Hsl as [(-> & -> & ->)|(-> & -> & ->)].
    + rewrite !(proj2 (Z.ltb_ge _ _)), (proj2 (Z.ltb_lt _ _)) by lia.
      replace (183 + Zlen p - 183) with (Zlen p) by lia. rewrite Hrd. cbn [obind].
      replace (Zlen p + 1) with (1 + Zlen p) by lia. by rewrite Hsz.
    + rewrite !(proj2 (Z.ltb_ge _ _)) by lia.
      replace (247 + Zlen p - 247) with (Zlen p) by lia. rewrite Hrd. cbn [obind].
      replace (Zlen p + 1) with (1 + Zlen p) by lia. by rewrite Hsz.
Qed.

Lemma readKind_tagged k c rest :
  canonical k c -> Forall is_byte c -> Forall is_byte rest -> Zlen (tagged k c ++ rest) < 2 ^ 64 ->
  readKind (tagged k c ++ rest) = Ret (inr (k, Zlen (tagged k c) - Zlen c, Zlen c)).
Proof.
  intros Hk Hc Hr Hlen. pose proof (Zlen_nonneg rest).
  destruct k; simpl tagged in *; rewrite <- ?app_assoc in *.
  - destruct Hk as (x & -> & Hx). unfold readKind. cbn [app] in *. rewrite Zlen_cons in *.
    rewrite (proj2 (Z.eqb_neq _ _)), go_index_0 by lia. cbn [obind].
    rewrite (proj2 (Z.ltb_lt _ _)) by lia. cbn [obind]. change (Zlen [x]) with 1.
    rewrite Z.sub_0_r, u64_small by (unfold in64; lia).
    by rewrite (proj2 (Z.ltb_ge _ _)) by lia.
  - rewrite (readKind_put _ _ String) by auto. do 3 f_equal. rewrite Zlen_app. f_equal. lia.
  - rewrite (readKind_put _ _ List) by auto. do 3 f_equal. rewrite Zlen_app. f_equal. lia.
Qed.

(** Splitting a tagged value off the front of a byte string. *)
Lemma Split_tagged k c rest :
  canonical k c -> Forall is_byte c -> Forall is_byte rest -> Zlen (tagged k c ++ rest) < 2 ^ 64 ->
  Split (tagged k c ++ rest) = Ret (inr (k, c, rest)).
Proof.
  intros Hk Hc Hr Hlen. unfold Split. rewrite readKind_tagged by done. cbn [obind].
  assert (Ht : exists t, tagged k c = t ++ c).
  { destruct k; simpl; [by exists []|eauto..]. }
  destruct Ht as [t Ht]. rewrite Ht in *. rewrite Zlen_app in *.
  pose proof (Zlen_nonneg t). pose proof (Zlen_nonneg c). pose proof (Zlen_nonneg rest).
  rewrite Zlen_app in Hlen. replace (Zlen t + Zlen c - Zlen c) with (Zlen t) by lia.
  rewrite u64_small by (unfold in64; lia).
  rewrite !go_slice_Ret by (rewrite ?Zlen_app; lia). cbn [obind]. do 2 f_equal. rewrite !Zlen_app.
  replace (Z.to_nat (Zlen t + Zlen c - Zlen t)) with (length c) by (unfold Zlen; lia).
  replace (Z.to_nat (Zlen t)) with (length t) by (unfold Zlen; lia).
  replace (Z.to_nat (Zlen t + Zlen c)) with (length (t ++ c)) by (unfold Zlen; rewrite length_app; lia).
  rewrite drop_app_length. rewrite <- app_assoc, drop_app_length, take_app_length.
  rewrite take_ge by (unfold Zlen; lia). done.
Qed.

(** ** Splitting only accepts canonical encodings *)

Lemma Z_to_bytes_of_bytes l : Forall is_byte l -> Z_to_bytes (length l) (bytes_to_Z l) = l.
Proof.
  induction l as [|b l IH] using rev_ind; intros Hl; [done|].
  apply Forall_app in Hl as [Hl Hb]. apply Forall_cons_1 in Hb as [Hb _]. unfold is_byte in Hb.
  rewrite length_app, Nat.add_comm. simpl. rewrite bytes_to_Z_snoc.
  rewrite Z.div_add_l, (Z.div_small b), Z.add_0_r, IH by (done || lia).
  f_equal. f_equal. rewrite Z.add_comm, Z.mod_add, Z.mod_small by lia. done.
Qed.

Lemma bytes_to_Z_cons x l : bytes_to_Z (x :: l) = x * 256 ^ Zlen l + bytes_to_Z l.
Proof.
  unfold Zlen. induction l as [|b l IH] using rev_ind.
  - unfold bytes_to_Z; simpl. lia.
  - rewrite app_comm_cons, !bytes_to_Z_snoc, IH, length_app. simpl.
    replace (Z.of_nat (length l + 1)) with (Z.succ (Z.of_nat (length l))) by lia.
    rewrite Z.pow_succ_r by lia. lia.
Qed.

(** Bytes without a leading zero are the minimal representation of their value. *)
Lemma putint_of_bytes x l : Forall is_byte (x :: l) -> x <> 0 -> (length l < 8)%nat ->
  putint (bytes_to_Z (x :: l)) = x :: l.
Proof.
  intros Hb Hx Hl. set (v := bytes_to_Z (x :: l)).
  pose proof (bytes_to_Z_bound (x :: l) Hb) as Hv. fold v in Hv. rewrite Zlen_cons in Hv.
  pose proof (Zlen_nonneg l). rewrite Z.add_1_l, Z.pow_succ_r in Hv by lia.
  assert (Hlow : 256 ^ Zlen l <= v).
  { unfold v. rewrite bytes_to_Z_cons. inversion Hb as [|? ? Hbx Hbl]; subst. unfold is_byte in Hbx.
    pose proof (bytes_to_Z_bound l Hbl). assert (0 < 256 ^ Zlen l) by (apply Z.pow_pos_nonneg; lia). nia. }
  assert (Hin : in64 v).
  { unfold in64. split; [lia|]. apply Z.lt_le_trans with (256 * 256 ^ Zlen l); [lia|].
    change (2 ^ 64) with (256 * 256 ^ 7). apply Z.mul_le_mono_nonneg_l; [lia|].
    apply Z.pow_le_mono_r; unfold Zlen; lia. }
  destruct (putint_spec v Hin) as (m & Hm & -> & Hu & Hlo).
  assert (Hmm : Z.of_nat m = Zlen l + 1).
  { assert (Zlen l < Z.of_nat m) by (apply (Z.pow_lt_mono_r_iff 256); lia).
    destruct Hlo as [-> |Hlo]; [lia|].
    assert (Z.of_nat m - 1 < Zlen l + 1); [|lia].
    apply (Z.pow_lt_mono_r_iff 256); [lia|lia|]. rewrite Z.add_1_r, Z.pow_succ_r by lia. lia. }
  replace m with (length (x :: l)) by (unfold Zlen in Hmm; simpl; lia).
  by apply Z_to_bytes_of_bytes.
Qed.

(** A successfully read size was written by [putint]. *)
Lemma readSize_inv t n s : Forall is_byte t -> (1 <= n <= 8)%nat ->
  readSize t (Z.of_nat n) = Ret (inr s) ->
  56 <= s /\ in64 s /\ (n <= length t)%nat /\ take n t = putint s.
Proof.
  intros Ht Hn Hr. assert (Hl : (n <= length t)%nat).
  { unfold readSize, Zlen in Hr. destruct (Z.ltb_spec (Z.of_nat (length t)) (Z.of_nat n)); [done|lia]. }
  rewrite readSize_spec in Hr by done. cbv zeta in Hr.
  destruct (Z.ltb_spec (bytes_to_Z (take n t)) 56) as [|H56]; [done|].
  destruct t as [|x t]; [simpl in Hl; lia|]. destruct n as [|n]; [lia|]. simpl in Hr.
  destruct (Z.eqb_spec x 0) as [|Hx]; [done|]. injection Hr as <-. simpl take in H56.
  assert (Hb : Forall is_byte (x :: take n t)).
  { apply (Forall_take _ (S n)) in Ht. done. }
  pose proof (bytes_to_Z_bound _ Hb) as Hbd.
  split_and!; auto.
  - unfold in64. split; [lia|]. eapply Z.lt_le_trans; [apply Hbd|].
    change (2 ^ 64) with (256 ^ 8). apply Z.pow_le_mono_r; [lia|].
    unfold Zlen. simpl. rewrite length_take. lia.
  - simpl. symmetry. apply putint_of_bytes; auto. rewrite length_take. lia.
Qed.

Lemma puthead_long s l n : 56 <= n -> in64 n -> 0 <= l < 248 ->
  puthead s l n = (l + Zlen (putint n)) :: putint n.
Proof.
  intros Hn Hi Hl. unfold puthead. rewrite (proj2 (Z.ltb_ge _ _)) by lia. cbv zeta. f_equal.
  destruct (putint_bytes n Hi) as [_ Hp]. unfold byte_of, Zlen.
  rewrite (Z.mod_small (Z.of_nat _)), Z.mod_small by lia. done.
Qed.

Lemma puthead_short s l n : 0 <= n < 56 -> 0 <= s < 200 -> puthead s l n = [s + n].
Proof.
  intros Hn Hs. unfold puthead. rewrite (proj2 (Z.ltb_lt _ _)) by lia.
  unfold byte_of. by rewrite (Z.mod_small n), Z.mod_small by lia.
Qed.

Lemma readSize_total t n : (1 <= n)%nat -> exists r, readSize t (Z.of_nat n) = Ret r.
Proof.
  intros Hn. unfold readSize. destruct (Z.ltb_spec (Zlen t) (Z.of_nat n)) as [|Hl]; [eauto|].
  cbv zeta. destruct (_ <? 56); [eauto|]. destruct t as [|x t]; [unfold Zlen in Hl; simpl in Hl; lia|].
  rewrite go_index_0. cbn [obind]. destruct (x =? 0); eauto.
Qed.

(** The value [readKind] describes is a tagged value at the front of the input. *)
Definition reads (b : list Z) (k : Kind) (ts cs : Z) : Prop :=
  exists c rest, b = tagged k c ++ rest /\ canonical k c /\ ts = Zlen (tagged k c) - Zlen c /\ cs = Zlen c.

(** A header [h] followed by at least [n] bytes. *)
Lemma reads_intro k h t n : (k = String \/ k = List) ->
  0 <= n <= Zlen t -> h = puthead (if bool_decide (k = List) then 0xC0 else 0x80)
    (if bool_decide (k = List) then 0xF7 else 0xB7) n ->
  canonical k (take (Z.to_nat n) t) -> reads (h ++ t) k (Zlen h) n.
Proof.
  intros Hk Hn Hh Hc. exists (take (Z.to_nat n) t), (drop (Z.to_nat n) t).
  assert (Hl : Zlen (take (Z.to_nat n) t) = n) by (unfold Zlen in *; rewrite length_take; lia).
  assert (Ht : tagged k (take (Z.to_nat n) t) = h ++ take (Z.to_nat n) t).
  { destruct Hk as [-> | ->]; simpl; rewrite Hl; by subst h. }
  rewrite Ht, Zlen_app, Hl, <- app_assoc, take_drop. split_and!; auto. lia.
Qed.

(** A long header read by [readSize]. *)
Lemma reads_long k t n s :
  (k = String \/ k = List) -> Forall is_byte t -> (1 <= n <= 8)%nat ->
  readSize t (Z.of_nat n) = Ret (inr s) -> s <= Zlen t - Z.of_nat n ->
  reads ((if bool_decide (k = List) then 0xF7 else 0xB7) + Z.of_nat n :: t) k (Z.of_nat n + 1) s.
Proof.
  intros Hk Ht Hn Hr Hs. destruct (readSize_inv t n s Ht Hn Hr) as (H56 & Hi & Hl & Hp).
  assert (Hlen : Zlen (putint s) = Z.of_nat n).
  { rewrite <- Hp. unfold Zlen. rewrite length_take. lia. }
  rewrite <- (take_drop n t), Hp, app_comm_cons.
  replace (Z.of_nat n + 1) with (Zlen ((if bool_decide (k = List) then 247 else 183) + Z.of_nat n :: putint s))
    by (rewrite Zlen_cons; lia).
  apply reads_intro; auto.
  - unfold Zlen in *. rewrite length_drop. lia.
  - rewrite puthead_long, Hlen; auto. case_bool_decide; lia.
  - destruct Hk as [-> | ->]; simpl; [|done]. intros x Hx.
    apply (f_equal length) in Hx. rewrite length_take, length_drop in Hx. simpl in Hx.
    unfold Zlen in *. lia.
Qed.

(** The two long cases of [readKind], with the check of the size against the input. *)
Lemma reads_long_case k x t ts cs :
  (k = String \/ k = List) -> Forall is_byte t -> 1 + Zlen t < 2 ^ 64 ->
  let tag := if bool_decide (k = List) then 0xF7 else 0xB7 in
  1 <= x - tag <= 8 ->
  (let! sz := readSize t (x - tag) in
   Ret (match sz with inl e => inl e | inr s => inr (k, x - tag + 1, s) end)) = Ret (inr (k, ts, cs)) ->
  (u64 (1 + Zlen t - ts) <? cs) = false -> reads (x :: t) k ts cs.
Proof.
  intros Hk Ht Hlen tag Hn Hr Hsz. replace (x - tag) with (Z.of_nat (Z.to_nat (x - tag))) in Hr by lia.
  set (n := Z.to_nat (x - tag)) in *. destruct (readSize t (Z.of_nat n)) as [[e|s]| |] eqn:Hs; try done.
  cbn [obind] in Hr. simplify_eq. apply Z.ltb_ge in Hsz. destruct (readSize_inv t n cs) as (_ & _ & Hl & _); auto; [lia|].
  pose proof (Zlen_nonneg t). rewrite u64_small in Hsz by (unfold in64, Zlen in *; lia).
  replace x with (tag + Z.of_nat n) by lia. apply reads_long; auto; lia.
Qed.

(** The two short cases. *)
Lemma reads_short_case k x t cs :
  (k = String \/ k = List) -> 1 + Zlen t < 2 ^ 64 -> 0 <= cs < 56 ->
  x = (if bool_decide (k = List) then 0xC0 else 0x80) + cs ->
  canonical k (take (Z.to_nat cs) t) ->
  (u64 (1 + Zlen t - 1) <? cs) = false -> reads (x :: t) k 1 cs.
Proof.
  intros Hk Hlen Hcs -> Hc Hsz. apply Z.ltb_ge in Hsz. pose proof (Zlen_nonneg t).
  rewrite u64_small in Hsz by (unfold in64; lia).
  apply (reads_intro k [_] t cs); auto; [lia|].
  rewrite puthead_short; [done|lia|case_bool_decide; lia].
Qed.

Lemma readKind_inv b k ts cs : Forall is_byte b -> Zlen b < 2 ^ 64 ->
  readKind b = Ret (inr (k, ts, cs)) -> reads b k ts cs.
Proof.
  intros Hb Hlen. unfold readKind. destruct (Z.eqb_spec (Zlen b) 0) as [|Hne]; [done|].
  destruct b as [|x t]; [done|]. rewrite go_index_0, go_slice_tail. cbn [obind]. clear Hne.
  inversion Hb as [|? ? Hx Ht]; subst. unfold is_byte in Hx. pose proof (Zlen_nonneg t).
  rewrite Zlen_cons in *. intros Hr. apply obind_Ret in Hr as ([e|[[k' ts'] cs']] & Hr & Hf); [done|].
  destruct (u64 (1 + Zlen t - ts') <? cs') eqn:Hsz; [done|]. simplify_eq.
  destruct (Z.ltb_spec x 0x80).
  { simplify_eq. exists [x], t. split_and!; auto. exists x. auto with lia. }
  destruct (Z.ltb_spec x 0xB8).
  { apply obind_Ret in Hr as (nc & Hnc & Hr). destruct nc; [done|]. simplify_eq.
    apply (reads_short_case String); auto; [lia|simpl; lia|]. simpl. intros z Hz.
    assert (Hl : x - 128 = 1).
    { apply (f_equal length) in Hz. rewrite length_take in Hz. simpl in Hz. apply Z.ltb_ge in Hsz.
      rewrite u64_small in Hsz by (unfold in64; lia). unfold Zlen in *. lia. }
    rewrite Hl in *. destruct t as [|y t]; [done|]. simpl in Hz. injection Hz as <-.
    rewrite (proj2 (Z.ltb_lt _ _)) in Hnc by (rewrite Zlen_cons; pose proof (Zlen_nonneg t); lia).
    simpl in Hnc. injection Hnc as Hnc. by apply Z.ltb_ge in Hnc. }
  destruct (Z.ltb_spec x 0xC0).
  { assert (k = String) as -> by (destruct (readSize t (x - 183)) as [[?|?]| |]; by simplify_eq/=).
    apply reads_long_case; simpl; auto; lia. }
  destruct (Z.ltb_spec x 0xF8).
  { simplify_eq. apply (reads_short_case List); auto; [lia|simpl; lia|done]. }
  assert (k = List) as -> by (destruct (readSize t (x - 247)) as [[?|?]| |]; by simplify_eq/=).
  apply reads_long_case; simpl; auto; lia.
Qed.

Lemma readKind_total b : Forall is_byte b -> exists r, readKind b = Ret r.
Proof.
  intros Hb. unfold readKind. destruct (Z.eqb_spec (Zlen b) 0) as [|Hne]; [eauto|].
  destruct b as [|x t]; [done|]. rewrite go_index_0, go_slice_tail. cbn [obind].
  inversion Hb as [|? ? Hx Ht]; subst. unfold is_byte in Hx.
  assert (Hsz : forall tag, 1 <= x - tag -> exists r, readSize t (x - tag) = Ret r).
  { intros tag Htag. rewrite <- (Z2Nat.id (x - tag)) by lia. apply readSize_total. lia. }
  destruct (Z.ltb_spec x 0x80); [cbn; eauto|]. destruct (Z.ltb_spec x 0xB8).
  { destruct ((x - 128 =? 1) && (1 <? Zlen (x :: t))) eqn:Hg; [|cbn; eauto].
    apply andb_true_iff in Hg as [_ Hg%Z.ltb_lt].
    destruct (go_index_Ret (x :: t) 1) as (y & -> & _); [lia|]. cbn [obind].
    destruct (y <? 128); cbn; eauto. }
  destruct (Z.ltb_spec x 0xC0); [destruct (Hsz 183) as [r ->]; [lia|cbn; eauto]|].
  destruct (Z.ltb_spec x 0xF8); [cbn; eauto|]. destruct (Hsz 247) as [r ->]; [lia|cbn; eauto].
Qed.

Lemma Split_iff b k c rest : Forall is_byte b -> Zlen b < 2 ^ 64 ->
  Split b = Ret (inr (k, c, rest)) <-> b = tagged k c ++ rest /\ canonical k c.
Proof.
  intros Hb Hlen. split.
  - intros Hs. unfold Split in Hs. destruct (readKind b) as [[e|[[k' ts] cs]]| |] eqn:Hr; try done.
    destruct (readKind_inv b k' ts cs Hb Hlen Hr) as (c' & rest' & -> & Hc & Hts & Hcs).
    assert (Ht : Forall is_byte c' /\ Forall is_byte rest').
    { apply Forall_app in Hb as [Hb1 Hb2]. split; [|done].
      destruct k'; simpl in Hb1; [done|apply Forall_app in Hb1; apply Hb1..]. }
    pose proof (Split_tagged k' c' rest' Hc (proj1 Ht) (proj2 Ht) Hlen) as Hs'.
    unfold Split in Hs'. rewrite Hr in Hs'. rewrite Hs' in Hs. by simplify_eq.
  - intros [-> Hc]. apply Forall_app in Hb as [Hb1 Hb2]. apply Split_tagged; auto.
    destruct k; simpl in Hb1; [done|apply Forall_app in Hb1; apply Hb1..].
Qed.

Lemma Split_total b : Forall is_byte b -> Zlen b < 2 ^ 64 -> exists r, Split b = Ret r.
Proof.
  intros Hb Hlen. destruct (readKind_total b Hb) as [[e|[[k ts] cs]] Hr].
  - exists (inl e). unfold Split. by rewrite Hr.
  - destruct (readKind_inv b k ts cs Hb Hlen Hr) as (c & rest & Hbe & Hc & _).
    exists (inr (k, c, rest)). by apply Split_iff.
Qed.

(** ** Integers *)

Lemma AppendUint64_writeUint64 i buf : in64 i ->
  str (writeUint64 i buf) = AppendUint64 (str buf) i.
Proof.
  unfold in64. intros Hi. unfold writeUint64, AppendUint64, putint.
  destruct (Z.eqb_spec i 0); [done|]. destruct (Z.ltb_spec i 128); [done|].
  destruct (i <? 2 ^ 8); [done|]. destruct (i <? 2 ^ 16); [done|]. destruct (i <? 2 ^ 24); [done|].
  destruct (i <? 2 ^ 32); [done|]. destruct (i <? 2 ^ 40); [done|]. destruct (i <? 2 ^ 48); [done|].
  by destruct (i <? 2 ^ 56).
Qed.

(** An integer is encoded as the string of its minimal big-endian bytes. *)
Definition uint_bytes (i : Z) : list Z := if i =? 0 then [] else putint i.

Lemma AppendUint64_enc b i : in64 i -> AppendUint64 b i = b ++ enc_str (uint_bytes i).
Proof.
  intros Hi. change b with (str (mkBuf b [] 0)) at 1. rewrite <- AppendUint64_writeUint64 by done.
  unfold writeUint64, uint_bytes. destruct (Z.eqb_spec i 0); [done|]. unfold in64 in Hi.
  destruct (Z.ltb_spec i 128).
  - unfold putint. rewrite (proj2 (Z.ltb_lt i _)) by lia. unfold byte_of. rewrite Z.mod_small by lia.
    simpl. by rewrite (proj2 (Z.leb_le _ _)) by lia.
  - cbv zeta. simpl. f_equal. destruct (putint_bytes i) as [Hb Hl]; [done|].
    pose proof (putint_value i Hi) as Hv. set (p := putint i) in *. unfold enc_str.
    assert (Hp : p <> [] /\ forall x, p = [x] -> 128 <= x).
    { split; [destruct p; simpl in Hl; [lia|done]|]. intros x Hx. rewrite Hx in Hv. unfold bytes_to_Z in Hv.
      simpl in Hv. lia. }
    assert (Hh : puthead 0x80 0xB7 (Zlen p) = [byte_of (128 + byte_of (Zlen p))]).
    { unfold puthead. rewrite (proj2 (Z.ltb_lt _ _)) by (unfold Zlen; lia). done. }
    destruct p as [|x [|y p]]; [by destruct Hp| |by rewrite Hh].
    rewrite (proj2 (Z.leb_gt _ _)); [done|]. destruct Hp as [_ Hp]. specialize (Hp x eq_refl). lia.
Qed.

Lemma uint_bytes_spec i : in64 i -> Forall is_byte (uint_bytes i) /\ bytes_to_Z (uint_bytes i) = i /\
  (length (uint_bytes i) <= 8)%nat.
Proof.
  intros Hi. unfold uint_bytes. destruct (Z.eqb_spec i 0) as [-> |]; [split_and!; [constructor|done|simpl; lia]|].
  destruct (putint_bytes i Hi). split_and!; auto; [by apply putint_value|lia].
Qed.

Lemma Zlen_enc_str b : Zlen (enc_str b) <= 9 + Zlen b \/ 2 ^ 64 <= Zlen b.
Proof.
  destruct (Z.le_gt_cases (2 ^ 64) (Zlen b)) as [|Hlt]; [by right|left]. pose proof (Zlen_nonneg b).
  assert (Hh : forall n, 0 <= n < 2 ^ 64 -> Zlen (puthead 128 183 n) <= 9).
  { intros n Hn. unfold puthead. destruct (n <? 56); [unfold Zlen; simpl; lia|]. cbv zeta.
    rewrite Zlen_cons. destruct (putint_bytes n Hn). unfold Zlen. lia. }
  unfold enc_str. destruct b as [|x [|y b]].
  - rewrite Zlen_app. change (Zlen (@nil Z)) with 0 in *. specialize (Hh 0 ltac:(lia)). lia.
  - destruct (x <=? 127); [lia|]. rewrite Zlen_app. specialize (Hh 1 ltac:(lia)). lia.
  - rewrite Zlen_app. specialize (Hh _ (conj H Hlt)). lia.
Qed.

Lemma Split_enc_str b rest : Forall is_byte b -> Forall is_byte rest -> Zlen (enc_str b ++ rest) < 2 ^ 64 ->
  SplitString (enc_str b ++ rest) = Ret (inr (b, rest)).
Proof.
  intros Hb Hr Hlen. destruct (tagged_enc_str b Hb) as (k & Hk & Hc & He). rewrite He in *.
  unfold SplitString. rewrite Split_tagged by done. by destruct Hk as [-> | ->].
Qed.

Lemma SplitUint64_enc i rest : in64 i -> Forall is_byte rest -> Zlen rest + 32 < 2 ^ 64 ->
  SplitUint64 (enc_str (uint_bytes i) ++ rest) = Ret (inr (i, rest)).
Proof.
  intros Hi Hr Hlen. destruct (uint_bytes_spec i Hi) as (Hb & Hv & Hl).
  unfold SplitUint64. rewrite Split_enc_str; [|done|done|].
  2: { rewrite Zlen_app. destruct (Zlen_enc_str (uint_bytes i)); unfold Zlen in *; lia. }
  cbn [obind]. unfold uint_bytes in *. destruct (Z.eqb_spec i 0) as [-> |Hne]; [done|].
  assert (0 < i) by (unfold in64 in Hi; lia).
  destruct (putint_lead i Hi) as (h & t & He & Hh); [done|].
  destruct t as [|y t].
  - rewrite He in *. unfold bytes_to_Z in Hv; simpl in Hv.
    rewrite (proj2 (Z.eqb_neq _ _)) by done. do 3 f_equal. lia.
  - assert (H56 : 56 <= i).
    { rewrite He in Hv, Hb. rewrite bytes_to_Z_cons in Hv. inversion Hb as [|? ? Hbh Hbt]; subst.
      pose proof (bytes_to_Z_bound _ Hbt). rewrite Zlen_cons in *. pose proof (Zlen_nonneg t).
      unfold is_byte in Hbh. assert (256 <= 256 ^ (1 + Zlen t)).
      { change 256 with (256 ^ 1) at 1. apply Z.pow_le_mono_r; lia. }
      nia. }
    pose proof (readSize_putint i []) as Hrd. rewrite app_nil_r, He in Hrd. rewrite He.
    rewrite (proj2 (Z.ltb_ge _ _)); [|rewrite He in Hl; unfold Zlen; lia].
    rewrite Hrd; [done| |constructor]. unfold in64 in Hi; lia.
Qed.

(** ** Counting the values of a list body *)

Lemma enc_tagged it : (forall b, it = Str b -> Forall is_byte b) ->
  exists k c, enc it = tagged k c /\ canonical k c.
Proof.
  destruct it as [b|l]; intros Hb.
  - destruct (tagged_enc_str b) as (k & _ & Hc & He); [by apply Hb|]. eauto.
  - by exists List, (concat (map enc l)).
Qed.

Lemma tagged_nonempty k c : canonical k c -> (length c < length (tagged k c))%nat \/ (k = Byte /\ length c = 1%nat).
Proof.
  intros Hc. destruct k; simpl in *.
  - right. by destruct Hc as (x & -> & _).
  - left. rewrite length_app. unfold puthead. destruct (_ <? _); simpl; lia.
  - left. rewrite length_app. unfold puthead. destruct (_ <? _); simpl; lia.
Qed.

Lemma CountValues_loop_spec l : forall fuel i,
  Forall (fun it => forall b, it = Str b -> Forall is_byte b) l ->
  Forall is_byte (concat (map enc l)) -> Zlen (concat (map enc l)) < 2 ^ 64 ->
  (length (concat (map enc l)) < fuel)%nat ->
  CountValues_loop fuel (concat (map enc l)) i = Ret (inr (i + Zlen l)).
Proof.
  induction l as [|it l IH]; intros fuel i Hs Hb Hlen Hf; (destruct fuel as [|fuel]; [lia|]).
  - simpl. by rewrite Z.add_0_r.
  - cbn [CountValues_loop map concat] in *. inversion Hs as [|? ? Hit Hs']; subst.
    destruct (enc_tagged it Hit) as (k & c & He & Hc). rewrite He in *.
    apply Forall_app in Hb as [Hb1 Hb2]. rewrite Zlen_app in Hlen. rewrite length_app in Hf.
    assert (Hbc : Forall is_byte c).
    { destruct k; simpl in Hb1; [done|apply Forall_app in Hb1; apply Hb1..]. }
    pose proof (Zlen_nonneg (concat (map enc l))). pose proof (Zlen_nonneg c).
    assert (Hpos : 0 < Zlen (tagged k c)).
    { destruct (tagged_nonempty k c Hc) as [|[-> Hl1]]; unfold Zlen; simpl; lia. }
    rewrite (proj2 (Z.ltb_lt _ _)) by (rewrite Zlen_app; lia).
    rewrite readKind_tagged by (auto; rewrite Zlen_app; lia). cbn [obind].
    replace (Zlen (tagged k c) - Zlen c + Zlen c) with (Zlen (tagged k c)) by lia.
    rewrite u64_small by (unfold in64; lia).
    rewrite go_slice_Ret by (rewrite ?Zlen_app; lia). cbn [obind].
    replace (Z.to_nat (Zlen (tagged k c))) with (length (tagged k c)) by (unfold Zlen; lia).
    rewrite drop_app_length, take_ge by (unfold Zlen; rewrite length_app; lia).
    rewrite IH; auto; [|lia|unfold Zlen in Hpos; lia]. rewrite Zlen_cons. do 2 f_equal. lia.
Qed.

(** Every string inside a value is a byte string. *)
Fixpoint item_bytes (it : item) : bool :=
  match it with
  | Str b => forallb (fun x => (0 <=? x) && (x <? 256)) b
  | Lst l => forallb item_bytes l
  end.

Lemma forallb_bytes b : forallb (fun x => (0 <=? x) && (x <? 256)) b = true -> Forall is_byte b.
Proof.
  rewrite forallb_forall. intros H. apply List.Forall_forall. intros x Hx. apply H in Hx. unfold is_byte. lia.
Qed.

Lemma puthead_bytes s l n : in64 n -> Forall is_byte (puthead s l n).
Proof.
  intros Hn. unfold puthead. destruct (n <? 56); [repeat constructor; apply byte_of_is_byte|].
  cbv zeta. constructor; [apply byte_of_is_byte|]. apply (putint_bytes n Hn).
Qed.

Lemma item_bytes_enc it : item_bytes it = true -> Zlen (enc it) < 2 ^ 64 -> Forall is_byte (enc it).
Proof.
  induction it as [b|l IH] using item_ind'; simpl; intros Hb Hlen.
  - apply forallb_bytes in Hb. destruct (tagged_enc_str b Hb) as (k & Hk & _ & He). rewrite He in *.
    destruct Hk as [-> | ->]; simpl in *; [done|]. rewrite Zlen_app in Hlen.
    apply Forall_app; split; [apply puthead_bytes|done].
    pose proof (Zlen_nonneg b). pose proof (Zlen_nonneg (puthead 128 183 (Zlen b))). unfold in64. lia.
  - rewrite Zlen_app in Hlen. pose proof (Zlen_nonneg (puthead 192 247 (Zlen (concat (map enc l))))).
    pose proof (Zlen_nonneg (concat (map enc l))).
    apply Forall_app; split; [apply puthead_bytes; unfold in64; lia|].
    assert (Hl : Zlen (concat (map enc l)) < 2 ^ 64) by lia. clear -IH Hb Hl.
    induction IH as [|it l Hit _ IH]; simpl in *; [constructor|].
    apply andb_true_iff in Hb as [Hb1 Hb2]. rewrite Zlen_app in Hl.
    pose proof (Zlen_nonneg (enc it)). pose proof (Zlen_nonneg (concat (map enc l))).
    apply Forall_app; split; [apply Hit|apply IH]; auto; lia.
Qed.

(** The buffered encoder is the recursive RLP encoding: for every tree of
    byte strings and lists that fits in memory, writing it into the encoder buffer
    (string data and list headers apart, header sizes patched in [listEnd]) and
    merging the two in [copyTo] returns exactly the reference encoding, with no
    index out of range. *)
Theorem rlp_encode_correct it :
  Zlen (enc it) < 2 ^ 64 -> EncodeToBytes it = Ret (enc it).
Proof. apply EncodeToBytes_enc. Qed.

Lemma rlp_encode_correct_witness :
  EncodeToBytes (Lst [Str [0x64; 0x6f; 0x67]; Lst [Lst []; Str [5]]; Str (replicate 60 7)]) =
    Ret (enc (Lst [Str [0x64; 0x6f; 0x67]; Lst [Lst []; Str [5]]; Str (replicate 60 7)])).
Proof. apply rlp_encode_correct. vm_compute. reflexivity. Defined.

(** [Split] inverts the encoding and accepts nothing else: on every byte
    string it returns without panicking, and it reports kind [k], content [c] and
    the remaining bytes exactly when the input is the canonical header of [c]
    followed by [c] and the remaining bytes; overlong headers, leading zeros in
    sizes and tagged single bytes are all refused. *)
Theorem rlp_split_canonical b :
  Forall is_byte b -> Zlen b < 2 ^ 64 ->
  (exists r, Split b = Ret r) /\
  forall k c rest, Split b = Ret (inr (k, c, rest)) <-> b = tagged k c ++ rest /\ canonical k c.
Proof. intros Hb Hlen. split; [by apply Split_total|]. intros. by apply Split_iff. Qed.

Lemma rlp_split_canonical_witness :
  Split [0x83; 0x64; 0x6f; 0x67; 0xff] = Ret (inr (String, [0x64; 0x6f; 0x67], [0xff])) /\
  ~ exists k c rest, Split [0x81; 0x05] = Ret (inr (k, c, rest)).
Proof.
  split.
  - apply (rlp_split_canonical [0x83; 0x64; 0x6f; 0x67; 0xff]).
    + repeat constructor; lia.
    + unfold Zlen; simpl; lia.
    + split; [reflexivity|]. simpl. intros x [=].
  - intros (k & c & rest & H). vm_compute in H. discriminate H.
Defined.

(** Unsigned integers survive the round trip: appending an integer with
    [AppendUint64] produces the same bytes as the encoder buffer's
    [writeUint64], and [SplitUint64] reads the integer back and leaves exactly the
    bytes that follow. *)
Theorem rlp_uint64_roundtrip i buf rest :
  in64 i -> Forall is_byte rest -> Zlen rest + 32 < 2 ^ 64 ->
  str (writeUint64 i buf) = AppendUint64 (str buf) i /\
  SplitUint64 (AppendUint64 [] i ++ rest) = Ret (inr (i, rest)).
Proof.
  intros Hi Hr Hlen. split; [by apply AppendUint64_writeUint64|].
  rewrite AppendUint64_enc by done. by apply SplitUint64_enc.
Qed.

Lemma rlp_uint64_roundtrip_witness :
  SplitUint64 (AppendUint64 [] 70000 ++ [1; 2]) = Ret (inr (70000, [1; 2])).
Proof.
  apply (rlp_uint64_roundtrip 70000 reset [1; 2]).
  - unfold in64; lia.
  - repeat constructor; lia.
  - unfold Zlen; simpl; lia.
Defined.

(** A list's body can be taken out and its values counted: for every list of
    values whose encoding fits in memory, [EncodeToBytes], [SplitList] and
    [CountValues] compose to the number of elements. *)
Theorem rlp_list_count l :
  forallb item_bytes l = true -> Zlen (enc (Lst l)) < 2 ^ 64 ->
  exists e body, EncodeToBytes (Lst l) = Ret e /\ SplitList e = Ret (inr (body, [])) /\
    CountValues body = Ret (inr (Zlen l)).
Proof.
  intros Hb Hlen. exists (enc (Lst l)), (concat (map enc l)).
  assert (Hby : Forall is_byte (enc (Lst l))) by (by apply item_bytes_enc).
  split_and!; [by apply EncodeToBytes_enc| |].
  - unfold SplitList. assert (Hs : Split (enc (Lst l)) = Ret (inr (List, concat (map enc l), []))).
    { apply Split_iff; auto. simpl. by rewrite app_nil_r. }
    by rewrite Hs.
  - simpl in Hby, Hlen. apply Forall_app in Hby as [_ Hby]. rewrite Zlen_app in Hlen.
    pose proof (Zlen_nonneg (puthead 192 247 (Zlen (concat (map enc l))))).
    unfold CountValues. rewrite CountValues_loop_spec; [done| |done|lia|lia].
    apply List.Forall_forall. intros it Hit b ->. rewrite forallb_forall in Hb.
    by apply forallb_bytes, (Hb (Str b)).
Qed.

Lemma rlp_list_count_witness :
  exists e body, EncodeToBytes (Lst [Str [1]; Lst []; Str [200]]) = Ret e /\
    SplitList e = Ret (inr (body, [])) /\ CountValues body = Ret (inr 3).
Proof. apply (rlp_list_count [Str [1]; Lst []; Str [200]]); vm_compute; reflexivity. Defined.
