(* ===== verification/RlpStream.v ===== *)
(** * Decoding of RLP (rlp/decode.go, rlp/encode.go)

    The [Stream] reads values off a byte slice against the limits of the enclosing
    lists.  Writers and decoders are built from the type of a value, as the
    reflection of the package builds them: [rtype] is the part of Go's types the
    package serialises. *)

From S2P Require Import Prelude Rlp.
Import Rlp.

(** ** Streams *)

(** The reader is the rest of the slice; [stack] has the innermost list first;
    no [kind] is the value -1.  The integer scratch buffer is not observable. *)
Record Stream : Type := mkStream {
  s_r : list Z;
  s_remaining : Z;
  s_size : Z;
  s_kinderr : option rlp_error;
  s_stack : list Z;
  s_kind : option Kind;
  s_byteval : Z;
  s_limited : bool
}.

Definition with_s_r (x : list Z) (s : Stream) : Stream :=
  mkStream x (s_remaining s) (s_size s) (s_kinderr s) (s_stack s) (s_kind s) (s_byteval s) (s_limited s).
Definition with_s_remaining (x : Z) (s : Stream) : Stream :=
  mkStream (s_r s) x (s_size s) (s_kinderr s) (s_stack s) (s_kind s) (s_byteval s) (s_limited s).
Definition with_s_size (x : Z) (s : Stream) : Stream :=
  mkStream (s_r s) (s_remaining s) x (s_kinderr s) (s_stack s) (s_kind s) (s_byteval s) (s_limited s).
Definition with_s_kinderr (x : option rlp_error) (s : Stream) : Stream :=
  mkStream (s_r s) (s_remaining s) (s_size s) x (s_stack s) (s_kind s) (s_byteval s) (s_limited s).
Definition with_s_stack (x : list Z) (s : Stream) : Stream :=
  mkStream (s_r s) (s_remaining s) (s_size s) (s_kinderr s) x (s_kind s) (s_byteval s) (s_limited s).
Definition with_s_kind (x : option Kind) (s : Stream) : Stream :=
  mkStream (s_r s) (s_remaining s) (s_size s) (s_kinderr s) (s_stack s) x (s_byteval s) (s_limited s).
Definition with_s_byteval (x : Z) (s : Stream) : Stream :=
  mkStream (s_r s) (s_remaining s) (s_size s) (s_kinderr s) (s_stack s) (s_kind s) x (s_limited s).

(** A stream operation: a value or an error, and the stream afterwards. *)
Definition D (A : Type) : Type := M Stream (rlp_error + A).

Definition dret {A} (a : A) : D A := mret (inr a).
Definition derr {A} (e : rlp_error) : D A := mret (inl e).
Definition dget : D Stream := fun s => Ret (inr s, s).
Definition dmodify (f : Stream -> Stream) : D unit := fun s => Ret (inr tt, f s).
Definition dthen {A B} (m : D A) (k : A -> D B) : D B :=
  let* r := m in match r with inl e => derr e | inr a => k a end.
(** The error of a step, changed on the way out. *)
Definition dwrap {A} (f : rlp_error -> rlp_error) (m : D A) : D A :=
  let* r := m in mret (match r with inl e => inl (f e) | inr a => inr a end).

Declare Scope stream_scope.
Notation "'letd' x ':=' m 'in' k" := (dthen m (fun x => k))
  (at level 10, x pattern, m at level 100, k at level 200) : stream_scope.
Notation "m ';d;' k" := (dthen m (fun _ => k)) (at level 100, k at level 200, right associativity) : stream_scope.
Open Scope stream_scope.

Module Decode.

(** [Reset] on a slice reader. *)
Definition Reset (r : list Z) (inputLimit : Z) : Stream :=
  mkStream r (if 0 <? inputLimit then inputLimit else 0) 0 None [] None 0 (0 <? inputLimit).

(** [b[0]] of a slice that is not empty. *)
Definition first (b : list Z) : Z := match b with x :: _ => x | [] => 0 end.

Definition listLimit (s : Stream) : bool * Z := match s_stack s with [] => (false, 0) | limit :: _ => (true, limit) end.

Definition willRead (n : Z) : D unit :=
  dmodify (with_s_kind None) ;d;
  letd s := dget in
  (match s_stack s with
   | [] => dret tt
   | limit :: stack => if limit <? n then derr ErrElemTooLarge else dmodify (with_s_stack (limit - n :: stack))
   end) ;d;
  letd s := dget in
  if s_limited s then
    if s_remaining s <? n then derr ErrValueTooLarge else dmodify (fun s => with_s_remaining (s_remaining s - n) s)
  else dret tt.

(** [readFull] of [n] bytes: a slice reader hands over what it has. *)
Definition readFull (n : Z) : D (list Z) :=
  willRead n ;d;
  letd s := dget in
  dmodify (with_s_r (drop (Z.to_nat n) (s_r s))) ;d;
  if Zlen (s_r s) <? n then derr ErrUnexpectedEOF else dret (take (Z.to_nat n) (s_r s)).

Definition readByte : D Z :=
  willRead 1 ;d;
  letd s := dget in
  match s_r s with
  | [] => derr ErrUnexpectedEOF
  | b :: r => dmodify (with_s_r r) ;d; dret b
  end.

Definition readUint (size : Z) : D Z :=
  if size =? 0 then dmodify (with_s_kind None) ;d; dret 0
  else if size =? 1 then readByte
  else
    letd buffer := readFull size in
    if first buffer =? 0 then derr ErrCanonSize else dret (bytes_to_Z buffer).

Definition readKind : D (Kind * Z) :=
  letd s := dget in
  letd b := dwrap (fun err => match s_stack s, err with
                              | [], ErrUnexpectedEOF | [], ErrValueTooLarge => EOF
                              | _, _ => err end) readByte in
  dmodify (with_s_byteval 0) ;d;
  if b <? 0x80 then dmodify (with_s_byteval b) ;d; dret (Byte, 0)
  else if b <? 0xB8 then dret (String, b - 0x80)
  else if b <? 0xC0 then
    letd size := readUint (b - 0xB7) in if size <? 56 then derr ErrCanonSize else dret (String, size)
  else if b <? 0xF8 then dret (List, b - 0xC0)
  else letd size := readUint (b - 0xF7) in if size <? 56 then derr ErrCanonSize else dret (List, size).

(** What [Kind] stores after a call of [readKind] and its own limit checks.  The
    fields a failed [readKind] returns are not looked at by any caller, since the
    error is stored with them. *)
Definition storeKind (inList : bool) (limit : Z) (r : rlp_error + (Kind * Z)) (s : Stream) : Stream :=
  match r with
  | inl err => with_s_kinderr (Some err) (with_s_size 0 (with_s_kind (Some Byte) s))
  | inr (kind, size) =>
      let err :=
        if inList && (limit <? size) then Some ErrElemTooLarge
        else if s_limited s && (s_remaining s <? size) then Some ErrValueTooLarge else None in
      with_s_kinderr err (with_s_size size (with_s_kind (Some kind) s))
  end.

(** The answer of [Kind] from the stored fields. *)
Definition storedKind (kind : Kind) : D (Kind * Z) := fun s =>
  Ret (match s_kinderr s with Some err => inl err | None => inr (kind, s_size s) end, s).

Definition Kind_ : D (Kind * Z) :=
  letd s := dget in
  match s_kind s with
  | Some kind => storedKind kind
  | None =>
      let (inList, limit) := listLimit s in
      if inList && (limit =? 0) then derr EOL
      else
        let* r := readKind in
        mmodify (storeKind inList limit r) ;;;
        storedKind (match r with inr (kind, _) => kind | inl _ => Byte end)
  end.

Definition rearm : D unit := dmodify (with_s_kind None).

(** ** Reading values *)

Definition Bytes : D (list Z) :=
  letd (kind, size) := Kind_ in
  match kind with
  | Byte => rearm ;d; letd s := dget in dret [s_byteval s]
  | String =>
      letd b := readFull size in
      if (size =? 1) && (first b <? 128) then derr ErrCanonSize else dret b
  | List => derr ErrExpectedString
  end.

Definition uint (maxbits : Z) : D Z :=
  letd (kind, size) := Kind_ in
  match kind with
  | Byte => letd s := dget in if s_byteval s =? 0 then derr ErrCanonInt else rearm ;d; dret (s_byteval s)
  | String =>
      if maxbits / 8 <? size then derr errUintOverflow else
      letd v := dwrap (fun err => match err with ErrCanonSize => ErrCanonInt | _ => err end) (readUint size) in
      if (0 <? size) && (v <? 128) then derr ErrCanonSize else dret v
  | List => derr ErrExpectedString
  end.

Definition Bool : D bool :=
  letd num := uint 8 in
  if num =? 0 then dret false else if num =? 1 then dret true else derr (decodeError InvalidBoolean).

Definition List_ : D Z :=
  letd (kind, size) := Kind_ in
  match kind with
  | List =>
      dmodify (fun s => match s_stack s with [] => s | limit :: stack => with_s_stack (u64 (limit - size) :: stack) s end) ;d;
      dmodify (fun s => with_s_size 0 (with_s_kind None (with_s_stack (size :: s_stack s) s))) ;d;
      dret size
  | _ => derr ErrExpectedList
  end.

Definition ListEnd : D unit :=
  letd s := dget in
  match s_stack s with
  | [] => derr errNotInList
  | limit :: stack =>
      if 0 <? limit then derr errNotAtEOL
      else dmodify (fun s => with_s_size 0 (with_s_kind None (with_s_stack stack s)))
  end.

Definition MoreDataInList (s : Stream) : bool := 0 <? snd (listLimit s).

(** The bytes of an integer, for [decodeBigInt] and [ReadUint256]: they differ in
    what happens beyond 32 bytes. *)
Definition int_bytes (large : Z -> D (list Z)) : D (list Z) :=
  letd (kind, size) := Kind_ in
  match kind with
  | List => derr ErrExpectedString
  | Byte => letd s := dget in rearm ;d; dret [s_byteval s]
  | String =>
      if size =? 0 then rearm ;d; dret []
      else if size <=? 32 then
        letd b := readFull size in
        if (size =? 1) && (first b <? 128) then derr ErrCanonSize else dret b
      else large size
  end.

Definition int_value (buffer : list Z) : D Z :=
  match buffer with
  | 0 :: _ => derr ErrCanonInt
  | _ => dret (bytes_to_Z buffer)
  end.

Definition decodeBigInt_stream : D Z := letd b := int_bytes readFull in int_value b.
Definition ReadUint256 : D Z := letd b := int_bytes (fun _ => derr errUint256Large) in int_value b.

(** ** Types and values *)

(** The types the package serialises: [*big.Int], [uint256.Int], unsigned integers,
    strings and byte slices, byte arrays, slices, arrays, structs, pointers,
    pointers whose nil is tagged with a kind, and [any]. *)
#[warnings="-register-all"]
Inductive rtype : Type :=
| RBig
| RU256
| RUint (bits : Z)
| RBool
| RString
| RBytes
| RByteArray (n : nat)
| RSlice (t : rtype)
| RArray (n : nat) (t : rtype)
| RStruct (fields : list rtype)
| RPtr (t : rtype)
| RNilPtr (nilKind : Kind) (t : rtype)
| RAny.

#[warnings="-register-all"]
Inductive rval : Type :=
| VUint (z : Z)
| VBig (z : option Z)
| VBool (b : bool)
| VBytes (b : list Z)
| VList (l : list rval)
| VPtr (p : option rval).

Definition wrapStreamError (err : rlp_error) : rlp_error :=
  match err with
  | ErrCanonInt => decodeError NonCanonicalInteger
  | ErrCanonSize => decodeError NonCanonicalSize
  | ErrExpectedList => decodeError ExpectedInputList
  | ErrExpectedString => decodeError ExpectedInputString
  | errUintOverflow => decodeError InputStringTooLong
  | errNotAtEOL => decodeError TooManyElements
  | _ => err
  end.

Definition wrapped {A} (m : D A) : D A := dwrap wrapStreamError m.

Definition decodeUint (bits : Z) : D rval := letd z := wrapped (uint bits) in dret (VUint z).
Definition decodeBool : D rval := letd b := wrapped Bool in dret (VBool b).
Definition decodeString : D rval := letd b := wrapped Bytes in dret (VBytes b).
Definition decodeByteSlice : D rval := letd b := wrapped Bytes in dret (VBytes b).
Definition decodeBigInt : D rval := letd z := wrapped decodeBigInt_stream in dret (VBig (Some z)).
Definition decodeU256 : D rval := letd z := wrapped ReadUint256 in dret (VUint z).

Definition decodeByteArray (n : nat) : D rval :=
  letd (kind, size) := Kind_ in
  match kind with
  | Byte =>
      if (n =? 0)%nat then derr (decodeError InputStringTooLong)
      else if (1 <? n)%nat then derr (decodeError InputStringTooShort)
      else letd s := dget in rearm ;d; dret (VBytes [s_byteval s])
  | String =>
      if Z.of_nat n <? size then derr (decodeError InputStringTooLong)
      else if size <? Z.of_nat n then derr (decodeError InputStringTooShort)
      else
        letd b := readFull size in
        if (size =? 1) && (first b <? 128) then derr (wrapStreamError ErrCanonSize) else dret (VBytes b)
  | List => derr (wrapStreamError ErrExpectedString)
  end.

(** The elements of a list until its end. *)
Fixpoint decodeSliceElems (fuel : nat) (elemdec : D rval) : D (list rval) :=
  match fuel with
  | O => fun _ => OutOfFuel
  | S fuel =>
      let* r := elemdec in
      match r with
      | inl EOL => dret []
      | inl err => derr err
      | inr v => letd l := decodeSliceElems fuel elemdec in dret (v :: l)
      end
  end.

Definition decodeListSlice (fuel : nat) (elemdec : D rval) : D rval :=
  letd size := wrapped List_ in
  if size =? 0 then ListEnd ;d; dret (VList [])
  else letd l := decodeSliceElems fuel elemdec in ListEnd ;d; dret (VList l).

(** A known number of elements. *)
Fixpoint decodeElems (elemdecs : list (D rval)) : D (list rval) :=
  match elemdecs with
  | [] => dret []
  | dec :: elemdecs =>
      let* r := dec in
      match r with
      | inl EOL => derr (decodeError TooFewElements)
      | inl err => derr err
      | inr v => letd l := decodeElems elemdecs in dret (v :: l)
      end
  end.

(** [decodeListArray] and the decoder of [makeStructDecoder]: fields and elements
    are read until the list ends too early. *)
Definition decodeFields (elemdecs : list (D rval)) : D rval :=
  wrapped List_ ;d;
  letd l := decodeElems elemdecs in
  wrapped ListEnd ;d;
  dret (VList l).

Definition decodePtr (dec : D rval) : D rval := letd v := dec in dret (VPtr (Some v)).

Definition decodeNilPtr (nilKind : Kind) (dec : D rval) : D rval :=
  letd (kind, size) := wrapped Kind_ in
  if negb (bool_decide (kind = Byte)) && (size =? 0) then
    if negb (bool_decide (kind = nilKind)) then derr (decodeError WrongEmptyKind)
    else rearm ;d; dret (VPtr None)
  else decodePtr dec.

Fixpoint decodeInterface (fuel : nat) : D rval :=
  match fuel with
  | O => fun _ => OutOfFuel
  | S fuel =>
      letd (kind, _) := Kind_ in
      match kind with
      | List => decodeListSlice fuel (decodeInterface fuel)
      | _ => letd b := Bytes in dret (VBytes b)
      end
  end.

(** The decoder of a type ([makeDecoder]). *)
Fixpoint decoder (fuel : nat) (t : rtype) : D rval :=
  match t with
  | RBig => decodeBigInt
  | RU256 => decodeU256
  | RPtr t => decodePtr (decoder fuel t)
  | RNilPtr k t => decodeNilPtr k (decoder fuel t)
  | RUint bits => decodeUint bits
  | RBool => decodeBool
  | RString => decodeString
  | RBytes => decodeByteSlice
  | RByteArray n => decodeByteArray n
  | RSlice t => decodeListSlice fuel (decoder fuel t)
  | RArray n t => decodeFields (replicate n (decoder fuel t))
  | RStruct fields => decodeFields (map (decoder fuel) fields)
  | RAny => decodeInterface fuel
  end.

(** [DecodeBytes]: one value and nothing behind it.  Every element of a list takes
    a byte, so the length of the input bounds the loops. *)
Definition DecodeBytes (t : rtype) (b : list Z) : outcome (rlp_error + rval) :=
  let! (r, s) := decoder (S (length b)) t (Reset b (Zlen b)) in
  Ret (match r with
       | inl err => inl err
       | inr v => if 0 <? Zlen (s_r s) then inl ErrMoreThanOneValue else inr v
       end).

End Decode.

(** ** Writers *)

Module Encode.
Import Decode.

(** The kind of the encoding of a nil pointer to a type without a tag. *)
Definition DefaultNilValue (t : rtype) : Kind :=
  match t with RUint _ | RString | RBool | RByteArray _ | RBytes => String | _ => List end.

Definition nilEncoding (k : Kind) : Z := match k with String => 0x80 | _ => 0xC0 end.

(** An ill-typed value would have been a panic of the reflection. *)
Definition W : Type := encBuffer -> outcome (rlp_error + encBuffer).
Definition wok (f : encBuffer -> encBuffer) : W := fun buf => Ret (inr (f buf)).

Definition wthen (a b : W) : W := fun buf =>
  let! r := a buf in match r with inl err => Ret (inl err) | inr buf => b buf end.

Fixpoint wall (l : list W) : W := match l with [] => wok id | w :: l => wthen w (wall l) end.

(** A list header around a writer. *)
Definition wlist (body : W) : W := fun buf =>
  let (index, buf) := list_begin buf in
  let! r := body buf in
  match r with inl err => Ret (inl err) | inr buf => let! buf := listEnd index buf in Ret (inr buf) end.

(** [makeSliceWriter] *)
Definition wslice (l : list W) : W :=
  match l with [] => wok (append_str [0xC0]) | _ => wlist (wall l) end.

Definition writeBigIntPtr (z : option Z) : W :=
  match z with
  | None => wok (append_str [0x80])
  | Some z => if Z.sgn z =? -1 then fun _ => Ret (inl ErrNegativeBigInt) else wok (writeBigInt z)
  end.

(** [writeUint256]: the four words of the integer in a buffer, the tag in front of
    the significant bytes. *)
Definition writeUint256 (z : Z) (buf : encBuffer) : encBuffer :=
  let bitlen := BitLen z in
  if bitlen <=? 64 then writeUint64 (u64 z) buf
  else
    let nBytes := byte_of ((bitlen + 7) / 8) in
    append_str (byte_of (0x80 + nBytes) :: drop (32 - Z.to_nat nBytes) (Z_to_bytes 32 z)) buf.

(** [makeByteArrayWriter] *)
Definition writeByteArray (b : list Z) : encBuffer -> encBuffer :=
  match b with
  | [] => append_str [0x80]
  | [x] => if x <=? 0x7f then append_str [x] else append_str [0x81; x]
  | _ => fun buf => append_str b (encodeStringHeader (Zlen b) buf)
  end.

Definition writeString (s : list Z) (buf : encBuffer) : encBuffer :=
  match s with
  | [x] => if x <=? 0x7f then append_str [x] buf else append_str s (encodeStringHeader (Zlen s) buf)
  | _ => append_str s (encodeStringHeader (Zlen s) buf)
  end.

(** [writeInterface]: a non-nil value is written by the writer of its own type. *)
Fixpoint writeInterface (v : rval) : W :=
  match v with
  | VBytes b => wok (writeBytes b)
  | VList l => wslice (map writeInterface l)
  | _ => fun _ => Panic
  end.

(** The writer of a type ([makeWriter]). *)
Fixpoint writer (t : rtype) (v : rval) {struct t} : W :=
  match t, v with
  | RBig, VBig z => writeBigIntPtr z
  | RU256, VUint z => wok (writeUint256 z)
  | RUint _, VUint z => wok (writeUint64 z)
  | RBool, VBool b => wok (writeBool b)
  | RString, VBytes b => wok (writeString b)
  | RBytes, VBytes b => wok (writeBytes b)
  | RByteArray _, VBytes b => wok (writeByteArray b)
  | RSlice t, VList l | RArray _ t, VList l => wslice (map (writer t) l)
  | RStruct fields, VList l => wlist (wall ((fix go (ts : list rtype) (l : list rval) : list W :=
        match ts, l with
        | t :: ts, v :: l => writer t v :: go ts l
        | [], [] => []
        | _, _ => [fun _ => Panic]
        end) fields l))
  | RPtr t, VPtr (Some v) | RNilPtr _ t, VPtr (Some v) => writer t v
  | RPtr t, VPtr None => wok (append_str [nilEncoding (DefaultNilValue t)])
  | RNilPtr k _, VPtr None => wok (append_str [nilEncoding k])
  | RAny, v => writeInterface v
  | _, _ => fun _ => Panic
  end.

Definition EncodeToBytes (t : rtype) (v : rval) : outcome (rlp_error + list Z) :=
  let! r := writer t v reset in
  match r with
  | inl err => Ret (inl err)
  | inr buf => let! b := makeBytes buf in Ret (inr b)
  end.

End Encode.
