(* ===== verification/RlpCodec.v ===== *)
(** * The RLP codec accepts exactly what it writes

    For every type of [rtype]: the writers produce the reference encoding of a
    value, and a decoder succeeds on a byte string if and only if it is the
    encoding of a value of the type, which it returns.  So decoding inverts
    encoding, and no value has a second encoding. *)

From S2P Require Import Prelude Rlp RlpStream.
Import Rlp Decode.

(** ** Positions *)

(** A stream over the rest [b] of a slice, inside lists with the limits [stk]. *)
Definition pos (b stk : list Z) (sz : Z) (ke : option rlp_error) (kd : option Kind) (bv : Z) : Stream :=
  mkStream b (Zlen b) sz ke stk kd bv true.

Definition at_ (s : Stream) (b stk : list Z) : Prop := exists sz ke bv, s = pos b stk sz ke None bv.

Definition fits (n : Z) (stk : list Z) : Prop := match stk with [] => True | l :: _ => n <= l end.
Definition sub (n : Z) (stk : list Z) : list Z := match stk with [] => [] | l :: stk => l - n :: stk end.
Definition ended (stk : list Z) : Prop := match stk with [] => False | l :: _ => l = 0 end.

#[export] Instance fits_dec n stk : Decision (fits n stk).
Proof. destruct stk; cbn; apply _. Defined.
#[export] Instance ended_dec stk : Decision (ended stk).
Proof. destruct stk; cbn; apply _. Defined.

(** The positions a decoding of a slice can be at. *)
Definition input_ok (b stk : list Z) : Prop := Forall is_byte b /\ Zlen b < 2 ^ 63 /\ Forall in64 stk.

Lemma sub_sub n m stk : sub m (sub n stk) = sub (n + m) stk.
Proof. destruct stk; cbn; [done|]. f_equal. lia. Qed.
Lemma fits_sub n m stk : fits m (sub n stk) <-> fits (n + m) stk.
Proof. destruct stk; cbn; [done|]. lia. Qed.
Lemma sub_0 stk : sub 0 stk = stk.
Proof. destruct stk; cbn; [done|]. by rewrite Z.sub_0_r. Qed.

Lemma fits_not_ended n stk : 0 < n -> fits n stk -> ~ ended stk.
Proof. destruct stk; cbn; [tauto|lia]. Qed.
Lemma fits_le n m stk : m <= n -> fits n stk -> fits m stk.
Proof. destruct stk; cbn; [done|lia]. Qed.

(** No encoding is empty. *)
Lemma Zlen_enc_pos it : 0 < Zlen (enc it).
Proof.
  assert (Hp : forall s l n b, 0 < Zlen (puthead s l n ++ b)).
  { intros. rewrite Zlen_app. pose proof (Zlen_nonneg b). unfold puthead. destruct (_ <? 56); unfold Zlen in *; cbn; lia. }
  destruct it as [b|l]; cbn; [|apply Hp]. unfold enc_str. destruct b as [|x [|y b]]; try apply Hp. destruct (_ <=? _); [done|apply Hp].
Qed.

Lemma dthen_ok {A B} (m : D A) (k : A -> D B) s a s1 : m s = Ret (inr a, s1) -> dthen m k s = k a s1.
Proof. intros Hm. unfold dthen, mthen. by rewrite Hm. Qed.
Lemma dthen_err {A B} (m : D A) (k : A -> D B) s e s1 : m s = Ret (inl e, s1) -> dthen m k s = Ret (inl e, s1).
Proof. intros Hm. unfold dthen, mthen. by rewrite Hm. Qed.

(** ** Reading bytes *)

Lemma willRead_spec n b stk sz ke kd bv : 0 <= n ->
  (fits n stk /\ n <= Zlen b /\
    willRead n (pos b stk sz ke kd bv) = Ret (inr tt, mkStream b (Zlen b - n) sz ke (sub n stk) None bv true)) \/
  (~ (fits n stk /\ n <= Zlen b) /\ exists e s', (e = ErrElemTooLarge \/ e = ErrValueTooLarge) /\ willRead n (pos b stk sz ke kd bv) = Ret (inl e, s')).
Proof.
  intros Hn. unfold willRead, pos, dthen, mthen, dmodify, dget. cbn.
  destruct stk as [|l stk]; cbn.
  - destruct (Z.ltb_spec (Zlen b) n); cbn; [right; split; [lia|eauto 6]|left; split_and!; auto].
  - destruct (Z.ltb_spec l n); cbn; [right; split; [lia|eauto 6]|].
    destruct (Z.ltb_spec (Zlen b) n); cbn; [right; split; [lia|eauto 6]|left; split_and!; auto].
Qed.

Lemma readFull_spec n b stk sz ke kd bv : 0 <= n ->
  (fits n stk /\ n <= Zlen b /\
    readFull n (pos b stk sz ke kd bv) = Ret (inr (take (Z.to_nat n) b), pos (drop (Z.to_nat n) b) (sub n stk) sz ke None bv)) \/
  (~ (fits n stk /\ n <= Zlen b) /\ exists e s', (e = ErrElemTooLarge \/ e = ErrValueTooLarge) /\ readFull n (pos b stk sz ke kd bv) = Ret (inl e, s')).
Proof.
  intros Hn. unfold readFull. destruct (willRead_spec n b stk sz ke kd bv Hn) as [(Hf & Hl & Hw)|(Hno & e & s' & He & Hw)].
  - left. split_and!; auto. rewrite (dthen_ok _ _ _ _ _ Hw). unfold dthen, mthen, dget, dmodify; cbn.
    rewrite (proj2 (Z.ltb_ge _ _)) by done. unfold dret, mret, pos, with_s_r; cbn. repeat f_equal.
    unfold Zlen in *. rewrite length_drop. lia.
  - right. split; [done|]. exists e, s'. split; [done|]. by apply dthen_err.
Qed.

Lemma readByte_spec b stk sz ke kd bv :
  (exists x t, b = x :: t /\ fits 1 stk /\ readByte (pos b stk sz ke kd bv) = Ret (inr x, pos t (sub 1 stk) sz ke None bv)) \/
  (~ (fits 1 stk /\ 1 <= Zlen b) /\ exists e s', (e = ErrElemTooLarge \/ e = ErrValueTooLarge) /\ readByte (pos b stk sz ke kd bv) = Ret (inl e, s')).
Proof.
  unfold readByte. destruct (willRead_spec 1 b stk sz ke kd bv ltac:(lia)) as [(Hf & Hl & Hw)|(Hno & e & s' & He & Hw)].
  - left. destruct b as [|x t]; [unfold Zlen in Hl; cbn in Hl; lia|]. exists x, t. split_and!; auto.
    rewrite (dthen_ok _ _ _ _ _ Hw). unfold dthen, mthen, dget, dmodify, dret, mret, pos, with_s_r; cbn.
    rewrite Zlen_cons. repeat f_equal. lia.
  - right. split; [done|]. exists e, s'. split; [done|]. by apply dthen_err.
Qed.

Lemma readUint_spec n b stk sz ke kd bv : 1 <= n <= 8 -> Forall is_byte b ->
  (fits n stk /\ n <= Zlen b /\ (n = 1 \/ head b <> Some 0) /\
    readUint n (pos b stk sz ke kd bv) =
      Ret (inr (bytes_to_Z (take (Z.to_nat n) b)), pos (drop (Z.to_nat n) b) (sub n stk) sz ke None bv)) \/
  (~ (fits n stk /\ n <= Zlen b /\ (n = 1 \/ head b <> Some 0)) /\ exists e s', e <> EOL /\ readUint n (pos b stk sz ke kd bv) = Ret (inl e, s')).
Proof.
  intros Hn Hb. unfold readUint. rewrite (proj2 (Z.eqb_neq n 0)) by lia. destruct (Z.eqb_spec n 1) as [-> |Hn1].
  - destruct (readByte_spec b stk sz ke kd bv) as [(x & t & -> & Hf & Hr)|(Hno & e & s' & He & Hr)].
    + left. rewrite Zlen_cons. pose proof (Zlen_nonneg t). split_and!; [done|lia|by left|]. rewrite Hr. by change (Z.to_nat 1) with 1%nat; cbn; rewrite ?drop_0, ?take_0.
    + right. split; [tauto|]. exists e, s'. split; [by destruct He; subst|done].
  - destruct (readFull_spec n b stk sz ke kd bv ltac:(lia)) as [(Hf & Hl & Hr)|(Hno & e & s' & He & Hr)].
    + rewrite (dthen_ok _ _ _ _ _ Hr). destruct b as [|x t]; [unfold Zlen in Hl; cbn in Hl; lia|].
      destruct (Z.to_nat n) eqn:E; [lia|]. cbn [take head first]. destruct (Z.eqb_spec x 0) as [-> |Hx].
      * right. split; [intros (_ & _ & [?|?]); [lia|done]|]. exists ErrCanonSize. eexists. split; [done|reflexivity].
      * left. split_and!; [done|done|right; congruence|done].
    + right. split; [tauto|]. exists e, s'. split; [by destruct He; subst|by apply dthen_err].
Qed.

(** ** Headers *)

Definition hdr (k : Kind) (size : Z) : list Z :=
  match k with Byte => [] | String => puthead 0x80 0xB7 size | List => puthead 0xC0 0xF7 size end.

(** [b] starts with a header for [size] bytes of content, and continues with [t];
    a single byte is its own header. *)
Definition headed (b : list Z) (k : Kind) (size : Z) (t : list Z) (bv : Z) : Prop :=
  match k with
  | Byte => b = bv :: t /\ size = 0 /\ 0 <= bv < 128
  | _ => b = hdr k size ++ t /\ in64 size /\ bv = 0
  end.

Definition short_tag (k : Kind) : Z := match k with List => 0xC0 | _ => 0x80 end.
Definition long_tag (k : Kind) : Z := match k with List => 0xF7 | _ => 0xB7 end.

Lemma hdr_short k size : k <> Byte -> 0 <= size < 56 -> hdr k size = [short_tag k + size].
Proof. intros Hk Hs. destruct k; [done|..]; cbn [hdr short_tag]; rewrite puthead_short by lia; done. Qed.
Lemma hdr_long k size : k <> Byte -> 56 <= size -> in64 size -> hdr k size = long_tag k + Zlen (putint size) :: putint size.
Proof. intros Hk Hs Hi. destruct k; [done|..]; cbn [hdr long_tag]; rewrite puthead_long by (done || lia); done. Qed.

Lemma headed_cons x t0 k size t bv : headed (x :: t0) k size t bv ->
  (k = Byte /\ size = 0 /\ t = t0 /\ bv = x /\ 0 <= x < 128) \/
  (k <> Byte /\ 0 <= size < 56 /\ x = short_tag k + size /\ t = t0 /\ bv = 0) \/
  (k <> Byte /\ 56 <= size /\ in64 size /\ x = long_tag k + Zlen (putint size) /\ t0 = putint size ++ t /\ bv = 0).
Proof.
  intros Hh. destruct (decide (k = Byte)) as [-> |Hk].
  - destruct Hh as ([= <- <-] & -> & ?). left. auto.
  - assert (Hb : x :: t0 = hdr k size ++ t /\ in64 size /\ bv = 0) by (by destruct k). destruct Hb as (Hb & Hi & ->).
    right. unfold in64 in Hi. destruct (decide (size < 56)).
    + left. rewrite hdr_short in Hb by (done || lia). injection Hb as -> ->. split_and!; auto; lia.
    + right. rewrite hdr_long in Hb by (done || unfold in64; lia). injection Hb as -> ->. split_and!; auto; unfold in64; lia.
Qed.

Lemma headed_long k x t0 size t : k <> Byte -> 56 <= size -> in64 size -> x = long_tag k + Zlen (putint size) -> t0 = putint size ++ t ->
  headed (x :: t0) k size t 0.
Proof. intros Hk Hs Hi -> ->. assert (Hh := hdr_long k size Hk Hs Hi). destruct k; [done|..]; cbn in Hh |- *; rewrite Hh; split_and!; auto. Qed.

Lemma headed_short k x t size : k <> Byte -> 0 <= size < 56 -> x = short_tag k + size -> headed (x :: t) k size t 0.
Proof.
  intros Hk Hs ->. assert (Hh := hdr_short k size Hk Hs).
  destruct k; [done|..]; cbn in Hh |- *; rewrite Hh; split_and!; auto; unfold in64; lia.
Qed.

(** Tags tell the kinds apart. *)
Lemma tag_ranges k size : k <> Byte -> in64 size -> 0x80 <= short_tag k /\
  long_tag k + 1 <= long_tag k + Zlen (putint size) <= long_tag k + 8.
Proof. intros Hk Hi. destruct (putint_bytes size Hi) as [_ Hl]. unfold Zlen. split; [destruct k; cbn; lia|lia]. Qed.

Lemma headed_unique b k size t bv k' size' t' bv' : headed b k size t bv -> headed b k' size' t' bv' -> k' = k /\ size' = size /\ t' = t.
Proof.
  intros Hh Hh'. destruct b as [|x b].
  { exfalso. destruct k; cbn in Hh; [by destruct Hh|..]; destruct Hh as (Hb0 & _); unfold puthead in Hb0; by destruct (_ <? 56). }
  apply headed_cons in Hh as [(-> & -> & -> & -> & ?)|[(Hk & Hs & Hx & -> & ->)|(Hk & Hs & Hi & Hx & Ht & ->)]];
    apply headed_cons in Hh' as [(-> & -> & -> & -> & ?)|[(Hk' & Hs' & Hx' & -> & ->)|(Hk' & Hs' & Hi' & Hx' & Ht' & ->)]];
    try pose proof (tag_ranges k size Hk Hi) as [_ Hr]; try pose proof (tag_ranges k' size' Hk' Hi') as [_ Hr'].
  all: try (split_and!; done).
  all: try (destruct k, k'; cbn in *; try done; try (exfalso; lia); (split_and!; [done|lia|done])).
  all: try (destruct k; cbn in *; try done; exfalso; lia).
  all: try (destruct k'; cbn in *; try done; exfalso; lia).
  assert (k' = k /\ Zlen (putint size') = Zlen (putint size)) as [-> Hl] by (destruct k, k'; cbn in *; try done; split; done || lia).
  rewrite Ht in Ht'. apply app_inj_1 in Ht' as [Hp ->]; [|unfold Zlen in Hl; lia].
  split_and!; auto. by rewrite <- (putint_value size'), <- Hp, putint_value.
Qed.

(** What reading a header does, given the headers the input could start with. *)
Definition kind_read (b stk : list Z) (r : outcome ((rlp_error + (Kind * Z)) * Stream)) (sz : Z) (ke : option rlp_error) : Prop :=
  (exists k size t bv, headed b k size t bv /\ fits (Zlen b - Zlen t) stk /\
    r = Ret (inr (k, size), pos t (sub (Zlen b - Zlen t) stk) sz ke None bv)) \/
  ((forall k size t bv, headed b k size t bv -> ~ fits (Zlen b - Zlen t) stk) /\ exists e s', e <> EOL /\ r = Ret (inl e, s')).

(** The part of [readKind] for a long header. *)
Lemma readKind_long k x t0 stk sz ke : k <> Byte -> Forall is_byte t0 -> Zlen t0 < 2 ^ 63 -> 1 <= x - long_tag k <= 8 -> fits 1 stk ->
  kind_read (x :: t0) stk ((letd size := readUint (x - long_tag k) in if size <? 56 then derr ErrCanonSize else dret (k, size))
    (pos t0 (sub 1 stk) sz ke None 0)) sz ke.
Proof.
  intros Hk Hb Hlen Hx Hf1. set (n := x - long_tag k) in *.
  assert (Hno : ~ (fits n (sub 1 stk) /\ n <= Zlen t0 /\ (n = 1 \/ head t0 <> Some 0)) \/ (bytes_to_Z (take (Z.to_nat n) t0) < 56) ->
    forall k' size t bv, headed (x :: t0) k' size t bv -> ~ fits (Zlen (x :: t0) - Zlen t) stk).
  { intros Hbad k' size t bv Hh Hf.
    assert (Hlong : k' <> Byte /\ 56 <= size /\ in64 size /\ x = long_tag k' + Zlen (putint size) /\ t0 = putint size ++ t).
    { subst n. destruct (headed_cons _ _ _ _ _ _ Hh) as [(-> & _ & _ & _ & ?)|[(Hk' & ? & -> & _)|(? & ? & ? & ? & ? & _)]]; [| |auto].
      - destruct k; cbn in Hx; lia || done.
      - exfalso. destruct k, k'; cbn in Hx; done || lia. }
    destruct Hlong as (Hk' & H56 & Hi & Hx' & ->). pose proof (tag_ranges k' size Hk' Hi) as [_ Hr].
    assert (Hn : n = Zlen (putint size)) by (subst n; destruct k, k'; cbn in *; done || lia).
    destruct (putint_lead size Hi ltac:(lia)) as (h & l & Hp & Hh0).
    rewrite Hn, Zlen_cons, Zlen_app in *. pose proof (Zlen_nonneg t).
    replace (Z.to_nat (Zlen (putint size))) with (length (putint size)) in Hbad by (unfold Zlen; lia).
    rewrite take_app_length, putint_value in Hbad by done. destruct Hbad as [Hbad|]; [|lia]. apply Hbad. split_and!; [|lia|].
    - apply fits_sub. by replace (1 + Zlen (putint size)) with (1 + (Zlen (putint size) + Zlen t) - Zlen t) by lia.
    - right. rewrite Hp. cbn. congruence. }
  destruct (readUint_spec n t0 (sub 1 stk) sz ke None 0 Hx Hb) as [(Hf & Hl & Hlead & Hr)|(Hbad & e & s' & He & Hr)].
  2:{ right. split; [by apply Hno; left|]. exists e, s'. split; [done|]. by apply dthen_err. }
  rewrite (dthen_ok _ _ _ _ _ Hr). set (size := bytes_to_Z (take (Z.to_nat n) t0)) in *. destruct (Z.ltb_spec size 56) as [Hs|Hs].
  { right. split; [by apply Hno; right|]. exists ErrCanonSize. eexists. split; [done|reflexivity]. }
  left. exists k, size, (drop (Z.to_nat n) t0), 0.
  assert (Hi : in64 size /\ take (Z.to_nat n) t0 = putint size).
  { subst size. destruct t0 as [|y t1]; [unfold Zlen in Hl; cbn in Hl; lia|]. destruct (Z.to_nat n) as [|m] eqn:Em; [lia|].
    cbn [take] in *. assert (Hbb : Forall is_byte (y :: take m t1)).
    { inversion Hb; subst. constructor; [done|]. by apply Forall_take. }
    assert (Hml : (length (take m t1) < 8)%nat) by (rewrite length_take; lia).
    assert (Hy : y <> 0).
    { destruct Hlead as [Hn1|Hne]; [|cbn in Hne; congruence]. assert (m = 0%nat) as -> by lia.
      intros ->. rewrite take_0 in Hs. by vm_compute in Hs. }
    rewrite putint_of_bytes by done. split; [|done]. pose proof (bytes_to_Z_bound _ Hbb) as Hv. unfold in64. split; [apply Hv|].
    eapply Z.lt_le_trans; [apply Hv|]. change (2 ^ 64) with (256 ^ 8). apply Z.pow_le_mono_r; [lia|]. unfold Zlen. cbn [length]. lia. }
  destruct Hi as [Hi Htake].
  assert (Hsplit : t0 = putint size ++ drop (Z.to_nat n) t0) by (rewrite <- Htake; by rewrite take_drop).
  assert (Hn : n = Zlen (putint size)) by (rewrite <- Htake; unfold Zlen in *; rewrite length_take; lia).
  assert (Hd : Zlen (x :: t0) - Zlen (drop (Z.to_nat n) t0) = 1 + n) by (rewrite Zlen_cons; unfold Zlen in *; rewrite length_drop; lia).
  rewrite Hd. split; [apply headed_long; auto; subst n; lia|]. split; [by apply (fits_sub 1 n)|]. rewrite sub_sub. done.
Qed.

Lemma readKind_spec b stk sz ke bv0 : input_ok b stk -> kind_read b stk (readKind (pos b stk sz ke None bv0)) sz ke.
Proof.
  intros (Hb & Hlen & _). unfold readKind. rewrite (dthen_ok dget _ _ (pos b stk sz ke None bv0) (pos b stk sz ke None bv0)) by done.
  destruct (readByte_spec b stk sz ke None bv0) as [(x & t & -> & Hf & Hr)|(Hno & e & s' & He & Hr)].
  2:{ right. split.
      - intros k size t bv Hh Hf. apply Hno. destruct b as [|x b]; [|].
        + exfalso. destruct k; cbn in Hh; [by destruct Hh|..]; destruct Hh as (Hb0 & Hi & _); unfold puthead in Hb0; by destruct (_ <? 56).
        + assert (Ht : 1 <= Zlen (x :: b) - Zlen t).
          { destruct (headed_cons _ _ _ _ _ _ Hh) as [(_ & _ & -> & _)|[(_ & _ & _ & -> & _)|(_ & _ & _ & _ & -> & _)]]; rewrite Zlen_cons; [lia|lia|].
            rewrite Zlen_app. pose proof (Zlen_nonneg (putint size)). lia. }
          split; [|rewrite Zlen_cons; pose proof (Zlen_nonneg b); lia]. destruct stk; [done|]. cbn in *. lia.
      - destruct He as [-> | ->], stk as [|l stk]; (eexists; exists s'; split; [|apply dthen_err; unfold dwrap, mthen; rewrite Hr; reflexivity]; done). }
  rewrite (dthen_ok _ _ _ x (pos t (sub 1 stk) sz ke None bv0)) by (unfold dwrap, mthen; by rewrite Hr). clear Hr.
  rewrite (dthen_ok _ _ _ tt (pos t (sub 1 stk) sz ke None 0)) by done.
  inversion Hb as [|? ? Hx Ht]; subst. unfold is_byte in Hx. rewrite Zlen_cons in Hlen.
  assert (Hd : Zlen (x :: t) - Zlen t = 1) by (rewrite Zlen_cons; lia).
  destruct (Z.ltb_spec x 0x80) as [H1|H1].
  { left. exists Byte, 0, t, x. rewrite Hd. split_and!; auto. cbn. split_and!; (lia || done). }
  destruct (Z.ltb_spec x 0xB8) as [H2|H2].
  { left. exists String, (x - 0x80), t, 0. rewrite Hd. split_and!; auto. apply headed_short; cbn; (done || lia). }
  destruct (Z.ltb_spec x 0xC0) as [H3|H3]; [apply (readKind_long String); cbn; (done || lia)|].
  destruct (Z.ltb_spec x 0xF8) as [H4|H4]; [|apply (readKind_long List); cbn; (done || lia)].
  left. exists List, (x - 0xC0), t, 0. rewrite Hd. split_and!; auto. apply headed_short; cbn; (done || lia).
Qed.

(** [Kind] checks the size against the limit before the header was read. *)
Lemma Kind_spec b stk sz ke bv0 : input_ok b stk -> ~ ended stk ->
  (exists k size t bv, headed b k size t bv /\ fits (Zlen b - Zlen t) stk /\ fits size stk /\ size <= Zlen t /\
    Kind_ (pos b stk sz ke None bv0) = Ret (inr (k, size), pos t (sub (Zlen b - Zlen t) stk) size None (Some k) bv)) \/
  ((forall k size t bv, headed b k size t bv -> fits (Zlen b - Zlen t) stk -> fits size stk -> ~ size <= Zlen t) /\
    exists e s', e <> EOL /\ Kind_ (pos b stk sz ke None bv0) = Ret (inl e, s')).
Proof.
  intros Hok Hne. unfold Kind_. rewrite (dthen_ok dget _ _ (pos b stk sz ke None bv0) (pos b stk sz ke None bv0)) by done.
  change (s_kind (pos b stk sz ke None bv0)) with (None : option Kind). cbv iota.
  set (il := listLimit _). assert (Hil : il = match stk with [] => (false, 0) | l :: _ => (true, l) end) by done.
  destruct il as [inList limit] eqn:Eil. clear Eil.
  assert (Hend : inList && (limit =? 0) = false) by (destruct stk; injection Hil as -> ->; cbn in *; [done|lia]). rewrite Hend.
  destruct (readKind_spec b stk sz ke bv0 Hok) as [(k & size & t & bv & Hh & Hf & Hr)|(Hno & e & s' & He & Hr)].
  2:{ right. split; [intros k size t bv Hh Hf; by destruct (Hno k size t bv Hh)|]. unfold mthen. rewrite Hr. cbn. by eexists e, _. }
  unfold mthen. rewrite Hr. cbn [obind fst snd]. unfold mmodify, storeKind. cbn [obind fst snd].
  destruct (inList && (limit <? size)) eqn:Hl; [|destruct (Zlen t <? size) eqn:Hrem].
  - right. split; [|by eexists ErrElemTooLarge, _]. intros k' size' t' bv' Hh' _ Hfs.
    destruct (headed_unique _ _ _ _ _ _ _ _ _ Hh Hh') as (_ & -> & _). destruct stk; injection Hil as -> ->; cbn in *; [done|lia].
  - right. split; [|eexists ErrValueTooLarge, _; split; [done|]; cbn; rewrite Hrem; done].
    intros k' size' t' bv' Hh' _ _. destruct (headed_unique _ _ _ _ _ _ _ _ _ Hh Hh') as (_ & -> & ->). cbn in Hrem. lia.
  - left. exists k, size, t, bv. split_and!; auto.
    + destruct stk; injection Hil as -> ->; cbn in *; [done|lia].
    + cbn in Hrem. lia.
    + cbn. rewrite Hrem. done.
Qed.

(** ** Decoders of strings *)

Definition fails {A} (r : outcome ((rlp_error + A) * Stream)) : Prop := exists e s', e <> EOL /\ r = Ret (inl e, s').

(** What follows [Kind] in a decoder that takes the content [c] of a string to
    [f c]. *)
Record string_body {A} (body : Kind -> Z -> D A) (f : list Z -> option A) : Prop := {
  sb_byte : forall x t stk, 0 <= x < 128 ->
    match f [x] with
    | Some a => exists s', body Byte 0 (pos t stk 0 None (Some Byte) x) = Ret (inr a, s') /\ at_ s' t stk
    | None => fails (body Byte 0 (pos t stk 0 None (Some Byte) x))
    end;
  sb_string : forall size t stk, 0 <= size <= Zlen t -> Forall is_byte t -> fits size stk -> canonical String (take (Z.to_nat size) t) ->
    match f (take (Z.to_nat size) t) with
    | Some a => exists s', body String size (pos t stk size None (Some String) 0) = Ret (inr a, s') /\
        at_ s' (drop (Z.to_nat size) t) (sub size stk)
    | None => fails (body String size (pos t stk size None (Some String) 0))
    end;
  sb_other : forall size t stk, 0 <= size <= Zlen t -> Forall is_byte t -> fits 0 stk -> ~ (fits size stk /\ canonical String (take (Z.to_nat size) t)) ->
    fails (body String size (pos t stk size None (Some String) 0));
  sb_list : forall size t stk, fails (body List size (pos t stk size None (Some List) 0))
}.

Definition via_kind {A} (body : Kind -> Z -> D A) : D A := letd (kind, size) := Kind_ in body kind size.

Lemma enc_str_cases c : Forall is_byte c -> (exists x, c = [x] /\ 0 <= x < 128 /\ enc_str c = [x]) \/
  (canonical String c /\ enc_str c = hdr String (Zlen c) ++ c).
Proof.
  intros Hb. destruct c as [|x [|y c]]; [right; split; done| |right; split; [intros ? [=]|done]].
  inversion Hb as [|? ? Hx]; subst. unfold is_byte in Hx. unfold enc_str. destruct (Z.leb_spec x 0x7f).
  - left. exists x. split_and!; (done || lia).
  - right. split; [intros ? [= <-]; lia|done].
Qed.

Lemma take_app_Zlen {A} (c rest : list A) : take (Z.to_nat (Zlen c)) (c ++ rest) = c /\ drop (Z.to_nat (Zlen c)) (c ++ rest) = rest.
Proof. unfold Zlen. rewrite Nat2Z.id. split; [apply take_app_length|apply drop_app_length]. Qed.

Section StringCodec.
Context {A : Type} (body : Kind -> Z -> D A) (f : list Z -> option A) (Hbody : string_body body f).

Lemma via_kind_eol s b stk : at_ s b stk -> ended stk -> via_kind body s = Ret (inl EOL, s).
Proof.
  intros (sz & ke & bv & ->) He. destruct stk as [|l stk]; [done|]. cbn in He. subst l. done.
Qed.

(** Accepts: the encoding of a string with an image under [f]. *)
Lemma via_kind_accept s b stk c a rest : at_ s b stk -> input_ok b stk -> Forall is_byte c -> f c = Some a -> b = enc_str c ++ rest ->
  fits (Zlen (enc_str c)) stk -> exists s', via_kind body s = Ret (inr a, s') /\ at_ s' rest (sub (Zlen (enc_str c)) stk).
Proof.
  intros (sz & ke & bv & ->) Hok Hc Hf Hb Hfit. pose proof (Zlen_nonneg rest).
  pose proof (fits_not_ended _ _ (Zlen_enc_pos (Str c)) Hfit) as Hne.
  destruct (enc_str_cases c Hc) as [(x & -> & Hx & He)|[Hcan He]]; rewrite He in *.
  - assert (Hh : headed b Byte 0 rest x) by (subst b; done).
    assert (Hd : Zlen b - Zlen rest = 1) by (subst b; rewrite Zlen_app; unfold Zlen; cbn; lia).
    destruct (Kind_spec b stk sz ke bv Hok Hne) as [(k & size & t & bv' & Hh' & _ & _ & _ & Hk)|(Hno & _)].
    2:{ exfalso. apply (Hno _ _ _ _ Hh); [by rewrite Hd| |lia]. by apply (fits_le 1); [lia|]. }
    destruct (headed_unique _ _ _ _ _ _ _ _ _ Hh Hh') as (-> & -> & ->). destruct Hh' as (Hb' & _ & Hbv).
    unfold via_kind. rewrite (dthen_ok _ _ _ _ _ Hk), Hd. pose proof (sb_byte _ _ Hbody bv' rest (sub 1 stk) Hbv) as Hs.
    assert (bv' = x) as -> by (subst b; cbn in Hb'; congruence). rewrite Hf in Hs. exact Hs.
  - set (n := Zlen c) in *. assert (Hn : in64 n).
    { destruct Hok as (_ & Hl & _). subst b. rewrite !Zlen_app in Hl. pose proof (Zlen_nonneg (hdr String n)). pose proof (Zlen_nonneg c). unfold in64. fold n in Hl. lia. }
    assert (Hh : headed b String n (c ++ rest) 0) by (subst b; rewrite <- app_assoc; done).
    assert (Hd : Zlen b - Zlen (c ++ rest) = Zlen (hdr String n)) by (subst b; rewrite !Zlen_app; lia).
    assert (Hlen : n <= Zlen (c ++ rest)) by (rewrite Zlen_app; fold n; lia).
    rewrite Zlen_app in Hfit. fold n in Hfit. pose proof (Zlen_nonneg (hdr String n)).
    destruct (Kind_spec b stk sz ke bv Hok Hne) as [(k & size & t & bv' & Hh' & _ & _ & _ & Hk)|(Hno & _)].
    2:{ exfalso. unfold in64 in Hn. apply (Hno _ _ _ _ Hh); [rewrite Hd| |done]; (eapply fits_le; [|exact Hfit]; lia). }
    destruct (headed_unique _ _ _ _ _ _ _ _ _ Hh Hh') as (-> & -> & ->). destruct Hh' as (_ & _ & ->).
    unfold via_kind. rewrite (dthen_ok _ _ _ _ _ Hk), Hd.
    destruct (take_app_Zlen c rest) as [Ht Hdr]. fold n in Ht, Hdr.
    pose proof (sb_string _ _ Hbody n (c ++ rest) (sub (Zlen (hdr String n)) stk)) as Hs. rewrite Ht, Hdr, Hf in Hs.
    rewrite sub_sub in Hs. rewrite Zlen_app. fold n. apply Hs; auto.
    + unfold in64 in Hn. lia.
    + destruct Hok as (Hbb & _). subst b. rewrite <- app_assoc in Hbb. by apply Forall_app in Hbb as [_ ?].
    + by apply fits_sub.
Qed.

(** Runs: a failure, or such an encoding. *)
Lemma via_kind_run s b stk : at_ s b stk -> input_ok b stk -> ~ ended stk ->
  fails (via_kind body s) \/ exists a c rest s', via_kind body s = Ret (inr a, s') /\ Forall is_byte c /\ f c = Some a /\ b = enc_str c ++ rest /\
    fits (Zlen (enc_str c)) stk /\ at_ s' rest (sub (Zlen (enc_str c)) stk).
Proof.
  intros (sz & ke & bv & ->) Hok Hne. unfold via_kind.
  destruct (Kind_spec b stk sz ke bv Hok Hne) as [(k & size & t & bv' & Hh & Hfh & Hfs & Hsz & Hk)|(_ & e & s' & He & Hk)].
  2:{ left. exists e, s'. split; [done|]. by apply dthen_err. }
  rewrite (dthen_ok _ _ _ _ _ Hk). destruct Hok as (Hbb & Hl & _). destruct k.
  - destruct Hh as (-> & -> & Hbv). assert (Hd : Zlen (bv' :: t) - Zlen t = 1) by (rewrite Zlen_cons; lia). rewrite Hd in *.
    pose proof (sb_byte _ _ Hbody bv' t (sub 1 stk) Hbv) as Hs. destruct (f [bv']) as [a|] eqn:Hf; [|by left].
    right. destruct Hs as (s' & Hs & Hat). assert (He : enc_str [bv'] = [bv']) by (unfold enc_str; by rewrite (proj2 (Z.leb_le _ _)) by lia).
    exists a, [bv'], t, s'. rewrite He. split_and!; auto. constructor; [unfold is_byte; lia|done].
  - destruct Hh as (-> & Hi & ->). unfold in64 in Hi. apply Forall_app in Hbb as [_ Htb].
    assert (Hd : Zlen (hdr String size ++ t) - Zlen t = Zlen (hdr String size)) by (rewrite Zlen_app; lia). rewrite Hd in *.
    set (stk' := sub (Zlen (hdr String size)) stk) in *. set (c := take (Z.to_nat size) t) in *.
    assert (Hf0 : fits 0 stk') by (apply fits_sub; by rewrite Z.add_0_r).
    destruct (decide (fits size stk')) as [Hfit|Hfit]; [|left; apply (sb_other _ _ Hbody); [lia|done|done|tauto]].
    assert (Hcl : Zlen c = size) by (subst c; unfold Zlen in *; rewrite length_take; lia).
    assert (Hcb : Forall is_byte c) by (by apply Forall_take).
    assert (Hdec : canonical String c \/ ~ canonical String c).
    { destruct c as [|y [|z c']]; [left; done| |left; intros ? [=]]. destruct (decide (128 <= y)); [left; by intros ? [= <-]|right; intros Hy; by specialize (Hy y eq_refl)]. }
    destruct Hdec as [Hcan|Hcan]; [|left; apply (sb_other _ _ Hbody); [lia|done|done|tauto]].
    pose proof (sb_string _ _ Hbody size t stk' ltac:(lia) Htb Hfit Hcan) as Hs. fold c in Hs.
    destruct (f c) as [a|] eqn:Hf; [|by left]. right. destruct Hs as (s' & Hs & Hat).
    assert (He : enc_str c = hdr String size ++ c).
    { destruct (enc_str_cases c Hcb) as [(x & Hx & ? & _)|[_ He]]; [|by rewrite He, Hcl]. specialize (Hcan x Hx). lia. }
    exists a, c, (drop (Z.to_nat size) t), s'. rewrite He, Zlen_app, Hcl. split_and!; auto.
    + rewrite <- app_assoc. f_equal. subst c. by rewrite take_drop.
    + by apply fits_sub.
    + rewrite <- sub_sub. done.
  - left. destruct Hh as (_ & _ & ->). apply (sb_list _ _ Hbody).
Qed.

End StringCodec.

(** A decoder of strings: [f] takes the content to the value. *)
Record string_dec {A} (m : D A) (f : list Z -> option A) : Prop := {
  sd_eol : forall s b stk, at_ s b stk -> ended stk -> m s = Ret (inl EOL, s);
  sd_accept : forall s b stk c a rest, at_ s b stk -> input_ok b stk -> Forall is_byte c -> f c = Some a -> b = enc_str c ++ rest ->
    fits (Zlen (enc_str c)) stk -> exists s', m s = Ret (inr a, s') /\ at_ s' rest (sub (Zlen (enc_str c)) stk);
  sd_run : forall s b stk, at_ s b stk -> input_ok b stk -> ~ ended stk ->
    fails (m s) \/ exists a c rest s', m s = Ret (inr a, s') /\ Forall is_byte c /\ f c = Some a /\ b = enc_str c ++ rest /\
      fits (Zlen (enc_str c)) stk /\ at_ s' rest (sub (Zlen (enc_str c)) stk)
}.

Lemma via_kind_dec {A} (body : Kind -> Z -> D A) f : string_body body f -> string_dec (via_kind body) f.
Proof. intros Hb. split; [apply via_kind_eol|apply (via_kind_accept _ _ Hb)|apply (via_kind_run _ _ Hb)]. Qed.

(** A computation on the value that leaves the stream alone. *)
Definition pure_step {A B} (k : A -> D B) (g : A -> option B) : Prop := forall a,
  match g a with Some b => forall s, k a s = Ret (inr b, s) | None => exists e, e <> EOL /\ forall s, k a s = Ret (inl e, s) end.

Lemma string_dec_then {A B} (m : D A) f (k : A -> D B) g : string_dec m f -> pure_step k g -> string_dec (dthen m k) (fun c => f c ≫= g).
Proof.
  intros [He Ha Hr] Hk. split.
  - intros s b stk Hat Hend. by apply dthen_err, (He s b stk).
  - intros s b stk c a rest Hat Hok Hc Hf Hb Hfit. destruct (f c) as [x|] eqn:Hfc; [|done]. cbn in Hf.
    destruct (Ha s b stk c x rest Hat Hok Hc Hfc Hb Hfit) as (s' & Hs & Hat'). exists s'. rewrite (dthen_ok _ _ _ _ _ Hs).
    pose proof (Hk x) as Hx. rewrite Hf in Hx. auto.
  - intros s b stk Hat Hok Hend. destruct (Hr s b stk Hat Hok Hend) as [(e & s' & Hne & Hs)|(x & c & rest & s' & Hs & Hc & Hf & Hrest)].
    + left. exists e, s'. split; [done|]. by apply dthen_err.
    + pose proof (Hk x) as Hx. destruct (g x) as [y|] eqn:Hg.
      * right. exists y, c, rest, s'. rewrite (dthen_ok _ _ _ _ _ Hs), Hf. auto.
      * left. destruct Hx as (e & Hne & Hx). exists e, s'. rewrite (dthen_ok _ _ _ _ _ Hs). auto.
Qed.

Lemma wrap_EOL e : wrapStreamError e = EOL <-> e = EOL.
Proof. by destruct e. Qed.

Lemma wrapped_ok {A} (m : D A) s a s' : m s = Ret (inr a, s') -> wrapped m s = Ret (inr a, s').
Proof. intros Hm. unfold wrapped, dwrap, mthen. by rewrite Hm. Qed.
Lemma wrapped_err {A} (m : D A) s e s' : m s = Ret (inl e, s') -> wrapped m s = Ret (inl (wrapStreamError e), s').
Proof. intros Hm. unfold wrapped, dwrap, mthen. by rewrite Hm. Qed.
Lemma wrapped_fails {A} (m : D A) s : fails (m s) -> fails (wrapped m s).
Proof. intros (e & s' & He & Hm). exists (wrapStreamError e), s'. split; [by rewrite wrap_EOL|by apply wrapped_err]. Qed.

Lemma string_dec_wrapped {A} (m : D A) f : string_dec m f -> string_dec (wrapped m) f.
Proof.
  intros [He Ha Hr]. split.
  - intros s b stk Hat Hend. change EOL with (wrapStreamError EOL). apply wrapped_err. eauto.
  - intros s b stk c a rest Hat Hok Hc Hf Hb Hfit. destruct (Ha s b stk c a rest Hat Hok Hc Hf Hb Hfit) as (s' & Hs & Hat').
    exists s'. split; [by apply wrapped_ok|done].
  - intros s b stk Hat Hok Hend. destruct (Hr s b stk Hat Hok Hend) as [Hs|(x & c & rest & s' & Hs & Hrest)].
    + left. by apply wrapped_fails.
    + right. exists x, c, rest, s'. split; [by apply wrapped_ok|done].
Qed.

(** ** The string decoders of the package *)

Lemma fails_derr {A} e s : e <> EOL -> fails ((derr e : D A) s).
Proof. intros He. by exists e, s. Qed.

Lemma at_pos b stk sz ke bv : at_ (pos b stk sz ke None bv) b stk.
Proof. by exists sz, ke, bv. Qed.
#[export] Hint Resolve at_pos : core.

(** A single byte that should have had no header. *)
Lemma canon_check size t : 0 <= size <= Zlen t -> Forall is_byte t ->
  ((size =? 1) && (first (take (Z.to_nat size) t) <? 128) = false <-> canonical String (take (Z.to_nat size) t)).
Proof.
  intros Hs Hb. destruct (Z.eqb_spec size 1) as [-> |Hne]; cbn [andb].
  - destruct t as [|x t]; [unfold Zlen in Hs; cbn in Hs; lia|]. change (Z.to_nat 1) with 1%nat. cbn [take first]. rewrite take_0.
    destruct (Z.ltb_spec x 128); split; try done; [|intros _ y [= <-]; lia]. intros Hc. specialize (Hc x eq_refl). lia.
  - split; [|done]. intros _ x Hx. apply (f_equal length) in Hx. rewrite length_take in Hx. unfold Zlen in Hs. cbn in Hx. lia.
Qed.

(** Reading the content with [readFull] and checking its form. *)
Lemma content_cases size t stk sz ke kd bv : 0 <= size <= Zlen t -> Forall is_byte t ->
  (fits size stk -> canonical String (take (Z.to_nat size) t) ->
    readFull size (pos t stk sz ke kd bv) = Ret (inr (take (Z.to_nat size) t), pos (drop (Z.to_nat size) t) (sub size stk) sz ke None bv) /\
    (size =? 1) && (first (take (Z.to_nat size) t) <? 128) = false) /\
  (~ (fits size stk /\ canonical String (take (Z.to_nat size) t)) ->
    fails (readFull size (pos t stk sz ke kd bv)) \/
    exists s', readFull size (pos t stk sz ke kd bv) = Ret (inr (take (Z.to_nat size) t), s') /\
      (size =? 1) && (first (take (Z.to_nat size) t) <? 128) = true).
Proof.
  intros Hs Hb. pose proof (canon_check size t Hs Hb) as Hc.
  destruct (readFull_spec size t stk sz ke kd bv ltac:(lia)) as [(Hf & Hl & Hr)|(Hno & e & s' & He & Hr)]; split.
  - intros _ Hcan. split; [done|]. by apply Hc.
  - intros Hn. right. eexists. split; [exact Hr|]. destruct (_ && _); [done|]. destruct Hn. split; [done|]. by apply Hc.
  - intros Hf. exfalso. apply Hno. split; [done|lia].
  - intros _. left. exists e, s'. split; [by destruct He; subst|done].
Qed.

Lemma Bytes_dec : string_dec Bytes Some.
Proof.
  apply (via_kind_dec (fun kind size => match kind with Byte => _ | String => _ | List => _ end)). split.
  - intros x t stk Hx. eexists. split; [reflexivity|]. apply at_pos.
  - intros size t stk Hs Hb Hf Hc. destruct (content_cases size t stk size None (Some String) 0 Hs Hb) as [Hok _].
    destruct (Hok Hf Hc) as [Hr Hcan]. eexists. rewrite (dthen_ok _ _ _ _ _ Hr), Hcan. split; [reflexivity|]. apply at_pos.
  - intros size t stk Hs Hb _ Hn. destruct (content_cases size t stk size None (Some String) 0 Hs Hb) as [_ Hbad].
    destruct (Hbad Hn) as [(e & s' & He & Hr)|(s' & Hr & Hcan)].
    + exists e, s'. split; [done|]. by apply dthen_err.
    + rewrite (dthen_ok _ _ _ _ _ Hr), Hcan. by apply fails_derr.
  - intros. by apply fails_derr.
Qed.

(** No leading zero. *)
Definition noLead (c : list Z) : bool := match c with x :: _ => negb (x =? 0) | [] => true end.

Definition uint_of (bits : Z) (c : list Z) : option Z := if (Zlen c <=? bits / 8) && noLead c then Some (bytes_to_Z c) else None.

Lemma bytes_to_Z_large x y l : Forall is_byte (x :: y :: l) -> x <> 0 -> 256 <= bytes_to_Z (x :: y :: l).
Proof.
  intros Hb Hx. inversion Hb as [|? ? Hx1 Hl]; subst. unfold is_byte in Hx1. rewrite bytes_to_Z_cons.
  pose proof (bytes_to_Z_bound _ Hl) as [? _]. rewrite Zlen_cons, Z.add_1_l, Z.pow_succ_r by apply Zlen_nonneg.
  assert (0 < 256 ^ Zlen l) by (apply Z.pow_pos_nonneg; [lia|apply Zlen_nonneg]). nia.
Qed.

Lemma take_small_nat (n : Z) (t : list Z) : 0 <= n <= Zlen t -> Zlen (take (Z.to_nat n) t) = n.
Proof. intros Hn. unfold Zlen in *. rewrite length_take. lia. Qed.

(** A canonical string without a leading zero is an integer of at least 128. *)
Lemma canonical_uint size t : 1 <= size <= Zlen t -> Forall is_byte t -> canonical String (take (Z.to_nat size) t) ->
  size = 1 \/ head t <> Some 0 ->
  noLead (take (Z.to_nat size) t) = true /\ 128 <= bytes_to_Z (take (Z.to_nat size) t).
Proof.
  intros Hs Hb Hc Hlead. destruct t as [|x t]; [unfold Zlen in Hs; cbn in Hs; lia|]. destruct (Z.to_nat size) as [|m] eqn:Em; [lia|]. cbn [take] in *.
  destruct m as [|m]; [rewrite take_0 in *; specialize (Hc x eq_refl); split; [cbn; lia|unfold bytes_to_Z; cbn; lia]|].
  destruct t as [|y t]; [unfold Zlen in Hs; cbn in Hs; lia|]. cbn [take] in *.
  assert (Hx : x <> 0) by (destruct Hlead as [|Hl]; [lia|cbn in Hl; congruence]). split; [cbn; lia|].
  assert (256 <= bytes_to_Z (x :: y :: take m t)); [|lia]. apply bytes_to_Z_large; [|done].
  inversion Hb as [|? ? ? Hb1]; subst. inversion Hb1; subst. constructor; [done|]. constructor; [done|]. by apply Forall_take.
Qed.

Lemma uint_dec bits : 1 <= bits / 8 <= 8 -> string_dec (uint bits) (uint_of bits).
Proof.
  intros Hbits. apply (via_kind_dec (fun kind size => match kind with Byte => _ | String => _ | List => _ end)). split.
  - intros x t stk Hx. unfold uint_of. change (Zlen [x]) with 1. rewrite (proj2 (Z.leb_le 1 _)) by lia. cbn [andb noLead].
    rewrite (dthen_ok dget _ _ _ _ eq_refl). change (s_byteval (pos t stk 0 None (Some Byte) x)) with x.
    destruct (Z.eqb_spec x 0); cbn [negb]; [by apply fails_derr|]. eexists. split; [reflexivity|]. apply at_pos.
  - intros size t stk Hs Hb Hf Hc. unfold uint_of. rewrite take_small_nat by done.
    destruct (Z.ltb_spec (bits / 8) size) as [Hbig|Hbig]; [rewrite (proj2 (Z.leb_gt _ _)) by lia; by apply fails_derr|].
    rewrite (proj2 (Z.leb_le _ _)) by lia. cbn [andb]. destruct (decide (size = 0)) as [-> |Hne].
    { cbn. eexists. split; [reflexivity|]. rewrite sub_0, drop_0. apply at_pos. }
    destruct (readUint_spec size t stk size None (Some String) 0 ltac:(lia) Hb) as [(_ & _ & Hlead & Hr)|(Hno & e & s' & He & Hr)].
    + destruct (canonical_uint size t ltac:(lia) Hb Hc Hlead) as [-> Hv]. eexists. unfold dthen, dwrap, mthen. rewrite Hr. cbn [obind fst snd mret].
      rewrite (proj2 (Z.ltb_ge _ 128)), andb_false_r by lia. split; [reflexivity|]. apply at_pos.
    + assert (Hnl : noLead (take (Z.to_nat size) t) = false).
      { destruct t as [|x t]; [unfold Zlen in Hs; cbn in Hs; lia|]. destruct (Z.to_nat size) as [|m] eqn:Em; [lia|]. cbn.
        destruct (Z.eqb_spec x 0); [done|]. exfalso. apply Hno. split_and!; [done|lia|right; cbn; congruence]. }
      rewrite Hnl. eexists. exists s'. split; [|unfold dthen, dwrap, mthen; rewrite Hr; reflexivity]. by destruct e.
  - intros size t stk Hs Hb Hf0 Hn. destruct (Z.ltb_spec (bits / 8) size) as [Hbig|Hbig]; [by apply fails_derr|].
    assert (Hne : size <> 0).
    { intros ->. apply Hn. split; [done|]. cbn. done. }
    destruct (readUint_spec size t stk size None (Some String) 0 ltac:(lia) Hb) as [(Hf & _ & Hlead & Hr)|(Hno & e & s' & He & Hr)].
    + unfold dthen, dwrap, mthen. rewrite Hr. cbn [obind fst snd mret].
      assert (Hcan : (size =? 1) && (first (take (Z.to_nat size) t) <? 128) = true).
      { destruct (_ && _) eqn:E; [done|]. destruct Hn. split; [done|]. by apply canon_check. }
      apply andb_prop in Hcan as [H1 H2]. apply Z.eqb_eq in H1 as ->. destruct t as [|x t]; [unfold Zlen in Hs; cbn in Hs; lia|].
      change (Z.to_nat 1) with 1%nat in *. cbn [take first] in *. rewrite take_0.
      assert (bytes_to_Z [x] = x) as -> by (unfold bytes_to_Z; cbn; lia). rewrite H2. by apply fails_derr.
    + eexists. exists s'. split; [|unfold dthen, dwrap, mthen; rewrite Hr; reflexivity]. by destruct e.
  - intros. by apply fails_derr.
Qed.

Definition over (lim : option Z) (n : Z) : bool := match lim with Some l => l <? n | None => false end.

(** The bytes of an integer: [lim] is the bound beyond which [large] fails. *)
Lemma int_bytes_dec large (lim : option Z) : (forall l, lim = Some l -> 32 <= l) ->
  (forall size t stk sz ke kd bv, 32 < size <= Zlen t ->
    if over lim size then fails (large size (pos t stk sz ke kd bv))
    else large size (pos t stk sz ke kd bv) = readFull size (pos t stk sz ke kd bv)) ->
  string_dec (int_bytes large) (fun c => if over lim (Zlen c) then None else Some c).
Proof.
  intros Hlim Hlarge. apply (via_kind_dec (fun kind size => match kind with Byte => _ | String => _ | List => _ end)).
  assert (Hsmall : forall n, n <= 32 -> over lim n = false).
  { intros n Hn. destruct lim as [l|]; [|done]. specialize (Hlim l eq_refl). unfold over. by rewrite (proj2 (Z.ltb_ge _ _)) by lia. }
  split.
  - intros x t stk Hx. change (Zlen [x]) with 1. rewrite Hsmall by lia.
    eexists. split; [reflexivity|]. apply at_pos.
  - intros size t stk Hs Hb Hf Hc. rewrite take_small_nat by done. destruct (Z.eqb_spec size 0) as [-> |H0].
    { rewrite Hsmall by lia. eexists. split; [reflexivity|].
      rewrite sub_0, drop_0. apply at_pos. }
    destruct (content_cases size t stk size None (Some String) 0 Hs Hb) as [Hok _]. destruct (Hok Hf Hc) as [Hr Hcan].
    destruct (Z.leb_spec size 32) as [Hle|Hgt].
    + rewrite Hsmall by lia.
      eexists. rewrite (dthen_ok _ _ _ _ _ Hr), Hcan. split; [reflexivity|]. apply at_pos.
    + specialize (Hlarge size t stk size None (Some String) 0 ltac:(lia)). destruct (over lim size); [done|].
      rewrite Hlarge. eexists. split; [exact Hr|]. apply at_pos.
  - intros size t stk Hs Hb Hf0 Hn. destruct (Z.eqb_spec size 0) as [-> |H0]; [destruct Hn; by split|].
    destruct (content_cases size t stk size None (Some String) 0 Hs Hb) as [_ Hbad].
    destruct (Z.leb_spec size 32) as [Hle|Hgt].
    + destruct (Hbad Hn) as [(e & s' & He & Hr)|(s' & Hr & Hcan)].
      * exists e, s'. split; [done|]. by apply dthen_err.
      * rewrite (dthen_ok _ _ _ _ _ Hr), Hcan. by apply fails_derr.
    + specialize (Hlarge size t stk size None (Some String) 0 ltac:(lia)). destruct (over lim size); [done|]. rewrite Hlarge.
      destruct (Hbad Hn) as [Hr|(s' & Hr & Hcan)]; [done|]. rewrite (proj2 (Z.eqb_neq size 1)) in Hcan by lia. done.
  - intros. by apply fails_derr.
Qed.

Definition int_of (c : list Z) : option Z := if noLead c then Some (bytes_to_Z c) else None.

Lemma int_value_pure : pure_step int_value int_of.
Proof. intros [|x c]; [done|]. unfold int_of, int_value. cbn. destruct x; cbn; [by exists ErrCanonInt|done..]. Qed.

Lemma decodeBigInt_dec : string_dec decodeBigInt_stream int_of.
Proof.
  pose proof (int_bytes_dec readFull None ltac:(done) ltac:(done)) as Hd.
  exact (string_dec_then _ _ _ _ Hd int_value_pure).
Qed.

Lemma ReadUint256_dec : string_dec ReadUint256 (fun c => (if 32 <? Zlen c then None else Some c) ≫= int_of).
Proof.
  refine (string_dec_then _ _ _ _ (int_bytes_dec (fun _ => derr errUint256Large) (Some 32) _ _) int_value_pure).
  - by intros l [= <-].
  - intros size t stk sz ke kd bv Hs. unfold over. rewrite (proj2 (Z.ltb_lt _ _)) by lia. by apply fails_derr.
Qed.

Lemma decodeByteArray_dec n : string_dec (decodeByteArray n) (fun c => if (length c =? n)%nat then Some (VBytes c) else None).
Proof.
  apply (via_kind_dec (fun kind size => match kind with Byte => _ | String => _ | List => _ end)). split.
  - intros x t stk Hx. cbn [length]. destruct n as [|[|n]]; [by apply fails_derr| |by apply fails_derr]. eexists. split; [reflexivity|]. apply at_pos.
  - intros size t stk Hs Hb Hf Hc. assert (Hl : length (take (Z.to_nat size) t) = Z.to_nat size) by (rewrite length_take; unfold Zlen in Hs; lia).
    rewrite Hl. destruct (Z.ltb_spec (Z.of_nat n) size); [rewrite (proj2 (Nat.eqb_neq _ _)) by lia; by apply fails_derr|].
    destruct (Z.ltb_spec size (Z.of_nat n)); [rewrite (proj2 (Nat.eqb_neq _ _)) by lia; by apply fails_derr|].
    rewrite (proj2 (Nat.eqb_eq _ _)) by lia. destruct (content_cases size t stk size None (Some String) 0 Hs Hb) as [Hok _].
    destruct (Hok Hf Hc) as [Hr Hcan]. eexists. rewrite (dthen_ok _ _ _ _ _ Hr), Hcan. split; [reflexivity|]. apply at_pos.
  - intros size t stk Hs Hb _ Hn. destruct (Z.ltb_spec (Z.of_nat n) size); [by apply fails_derr|].
    destruct (Z.ltb_spec size (Z.of_nat n)); [by apply fails_derr|].
    destruct (content_cases size t stk size None (Some String) 0 Hs Hb) as [_ Hbad]. destruct (Hbad Hn) as [(e & s' & He & Hr)|(s' & Hr & Hcan)].
    + exists e, s'. split; [done|]. by apply dthen_err.
    + rewrite (dthen_ok _ _ _ _ _ Hr), Hcan. by apply fails_derr.
  - intros. by apply fails_derr.
Qed.
