(* ===== verification/RlpTyped.v ===== *)
(** * Decoders of lists and of all types

    The decoders of values with several parts: the elements of a list are decoded
    against the limit of the list, and the limits of the enclosing lists stay
    exact. *)

From S2P Require Import Prelude Rlp RlpStream RlpCodec.
Import Rlp Decode.

(** ** Codecs *)

(** One value has been read. *)
Definition advanced (b stk : list Z) (it : item) (rest : list Z) (s' : Stream) : Prop :=
  b = enc it ++ rest /\ fits (Zlen (enc it)) stk /\ at_ s' rest (sub (Zlen (enc it)) stk).

(** A list that is longer than the enclosing list has wrapped the limit of the
    latter around: it can no longer be reached. *)
Definition overrun (b stk : list Z) (s' : Stream) : Prop :=
  exists b' l stk', at_ s' b' (l :: stk') /\ input_ok b' (l :: stk') /\ Zlen b' < l /\ (length b' < length b)%nat /\ stk <> [].

Record codec (n : nat) (m : D rval) (rel : rval -> item -> Prop) : Prop := {
  c_eol : forall s b stk, at_ s b stk -> (length b < n)%nat -> ended stk -> m s = Ret (inl EOL, s);
  c_accept : forall s b stk v it rest, at_ s b stk -> input_ok b stk -> (length b < n)%nat -> rel v it -> b = enc it ++ rest ->
    fits (Zlen (enc it)) stk -> exists s', m s = Ret (inr v, s') /\ at_ s' rest (sub (Zlen (enc it)) stk);
  c_run : forall s b stk, at_ s b stk -> input_ok b stk -> (length b < n)%nat -> ~ ended stk ->
    exists x s', m s = Ret (x, s') /\
      match x with inl e => e <> EOL | inr v => (exists it rest, rel v it /\ advanced b stk it rest s') \/ overrun b stk s' end;
  (** A look at the kind beforehand changes nothing. *)
  c_kinded : forall s r s1, Kind_ s = Ret (inr r, s1) -> m s1 = m s
}.

Lemma input_ok_advance b stk it rest : input_ok b stk -> b = enc it ++ rest -> fits (Zlen (enc it)) stk ->
  input_ok rest (sub (Zlen (enc it)) stk) /\ (length rest < length b)%nat.
Proof.
  intros (Hb & Hl & Hs) -> Hf. pose proof (Zlen_enc_pos it) as Hp. rewrite Zlen_app in Hl. apply Forall_app in Hb as [_ Hb].
  split; [|rewrite length_app; unfold Zlen in Hp; lia]. split_and!; [done|lia|].
  destruct stk as [|l stk]; [done|]. cbn in *. inversion Hs as [|? ? Hi Hs']; subst. constructor; [|done]. unfold in64 in *. lia.
Qed.

Lemma Kind_idem s r s1 : Kind_ s = Ret (inr r, s1) -> Kind_ s1 = Ret (inr r, s1).
Proof.
  unfold Kind_, dthen, mthen, dget. cbn -[readKind]. destruct (s_kind s) as [k|] eqn:Hk.
  - intros H. unfold storedKind in H. destruct (s_kinderr s) eqn:He; [done|]. injection H as <- <-. rewrite Hk. unfold storedKind. by rewrite He.
  - destruct (listLimit s) as [il lim]. destruct (il && _); [done|]. destruct (readKind s) as [[[e|[k size]] s']| |]; [by intros [=]| |done|done].
    cbn. unfold storedKind. cbn. set (err := if il && _ then _ else _). destruct err eqn:E; [done|]. intros [= <- <-]. done.
Qed.

Lemma via_kind_kinded {A} (body : Kind -> Z -> D A) s r s1 : Kind_ s = Ret (inr r, s1) -> via_kind body s1 = via_kind body s.
Proof. intros Hk. unfold via_kind. by rewrite (dthen_ok _ _ _ _ _ Hk), (dthen_ok _ _ _ _ _ (Kind_idem _ _ _ Hk)). Qed.

Lemma dthen_kinded {A B} (m : D A) (k : A -> D B) s s1 : m s1 = m s -> dthen m k s1 = dthen m k s.
Proof. intros Hm. unfold dthen, mthen. by rewrite Hm. Qed.
Lemma wrapped_kinded {A} (m : D A) s s1 : m s1 = m s -> wrapped m s1 = wrapped m s.
Proof. intros Hm. unfold wrapped, dwrap, mthen. by rewrite Hm. Qed.

(** A decoder of strings is a codec. *)
Lemma string_codec n (m : D rval) f : string_dec m f -> (forall s r s1, Kind_ s = Ret (inr r, s1) -> m s1 = m s) ->
  codec n m (fun v it => exists c, it = Str c /\ Forall is_byte c /\ f c = Some v).
Proof.
  intros [He Ha Hr] Hk. split; [intros s b stk Hat _; by apply (He s b stk)| | |done].
  - intros s b stk v it rest Hat Hok _ (c & -> & Hc & Hf) Hb Hfit. by apply (Ha s b stk c v rest).
  - intros s b stk Hat Hok _ Hend. destruct (Hr s b stk Hat Hok Hend) as [(e & s' & Hne & Hs)|(v & c & rest & s' & Hs & Hc & Hf & Hb & Hfit & Hat')].
    + by exists (inl e), s'.
    + exists (inr v), s'. split; [done|]. left. exists (Str c), rest. split; [eauto|done].
Qed.

(** ** Lists *)

(** The limit of the enclosing list after the inner list has been entered. *)
Definition wsub (h size : Z) (stk : list Z) : list Z := match stk with [] => [] | l :: stk => u64 (l - h - size) :: stk end.

Lemma wsub_fits h size stk : Forall in64 stk -> 0 <= h -> 0 <= size -> fits (h + size) stk -> wsub h size stk = sub (h + size) stk.
Proof.
  intros Hs Hh Hz Hf. destruct stk as [|l stk]; [done|]. cbn in *. inversion Hs as [|? ? Hi]; subst. unfold in64 in Hi.
  rewrite u64_small by (unfold in64; lia). f_equal. lia.
Qed.

Lemma Zlen_hdr k size : in64 size -> Zlen (hdr k size) <= 9.
Proof.
  intros Hi. destruct (putint_bytes size Hi) as [_ Hp].
  assert (Hh : forall s l, Zlen (puthead s l size) <= 9).
  { intros. unfold puthead. destruct (_ <? 56); [done|]. cbv zeta. rewrite Zlen_cons. unfold Zlen. lia. }
  destruct k; cbn [hdr]; [done|apply Hh..].
Qed.

Lemma hdr_pos size : 0 < Zlen (hdr List size).
Proof. cbn [hdr]. unfold puthead. destruct (_ <? 56); [done|]. cbv zeta. rewrite Zlen_cons. pose proof (Zlen_nonneg (putint size)). lia. Qed.

Lemma List_spec s b stk : at_ s b stk -> input_ok b stk -> ~ ended stk ->
  (exists size t s', headed b List size t 0 /\ fits (Zlen b - Zlen t) stk /\ fits size stk /\ size <= Zlen t /\
    List_ s = Ret (inr size, s') /\ at_ s' t (size :: wsub (Zlen b - Zlen t) size stk)) \/
  ((forall size t, headed b List size t 0 -> fits (Zlen b - Zlen t) stk -> fits size stk -> ~ size <= Zlen t) /\ fails (List_ s)).
Proof.
  intros (sz & ke & bv & ->) Hok Hne. unfold List_.
  destruct (Kind_spec b stk sz ke bv Hok Hne) as [(k & size & t & bv' & Hh & Hf & Hfs & Hl & Hk)|(Hno & e & s' & He & Hk)].
  2:{ right. split; [intros; by eapply Hno|]. exists e, s'. split; [done|]. by apply dthen_err. }
  assert (Hoth : k <> List -> (forall size t, headed b List size t 0 -> fits (Zlen b - Zlen t) stk -> fits size stk -> ~ size <= Zlen t)).
  { intros Hk' size' t' Hh'. destruct (headed_unique _ _ _ _ _ _ _ _ _ Hh Hh') as (<- & _). done. }
  destruct k; [right; split; [by apply Hoth|]; rewrite (dthen_ok _ _ _ _ _ Hk); by apply fails_derr..|].
  left. assert (bv' = 0) as -> by apply Hh. exists size, t, (pos t (size :: wsub (Zlen b - Zlen t) size stk) 0 None None 0).
  split_and!; auto. rewrite (dthen_ok _ _ _ _ _ Hk). by destruct stk.
Qed.

Lemma ListEnd_spec s b l stk : at_ s b (l :: stk) -> 0 <= l ->
  if l =? 0 then exists s', ListEnd s = Ret (inr tt, s') /\ at_ s' b stk else ListEnd s = Ret (inl errNotAtEOL, s).
Proof.
  intros (sz & ke & bv & ->) Hl. unfold ListEnd. rewrite (dthen_ok dget _ _ _ _ eq_refl). cbn.
  destruct (Z.eqb_spec l 0) as [-> |]; [|rewrite (proj2 (Z.ltb_lt _ _)) by lia; done].
  eexists. split; [reflexivity|]. eexists _, _, _; reflexivity.
Qed.

Definition encs (its : list item) : list Z := concat (map enc its).

Lemma enc_Lst its : enc (Lst its) = hdr List (Zlen (encs its)) ++ encs its.
Proof. done. Qed.

(** The part of a list decoder between [List] and [ListEnd]; it gets the size of
    the list. *)
Record list_body (n : nat) (body : Z -> D (list rval)) (lrel : list rval -> list item -> Prop) : Prop := {
  lb_accept : forall s its vs rest stk, lrel vs its -> at_ s (encs its ++ rest) (Zlen (encs its) :: stk) ->
    input_ok (encs its ++ rest) (Zlen (encs its) :: stk) -> (length (encs its ++ rest) < n)%nat ->
    exists s', body (Zlen (encs its)) s = Ret (inr vs, s') /\ at_ s' rest (0 :: stk);
  lb_run : forall s b l stk, at_ s b (l :: stk) -> input_ok b (l :: stk) -> (length b < n)%nat ->
    exists x s', body l s = Ret (x, s') /\
      match x with
      | inl e => e <> EOL
      | inr vs =>
          (exists its rest, lrel vs its /\ b = encs its ++ rest /\ Zlen (encs its) <= l /\ at_ s' rest (l - Zlen (encs its) :: stk)) \/
          (exists b' l' stk', at_ s' b' (l' :: stk') /\ 0 < l')
      end
}.

(** [ListEnd], with its error wrapped or not. *)
Definition list_end (w : bool) : D unit := if w then wrapped ListEnd else ListEnd.

Definition list_dec (w : bool) (body : Z -> D (list rval)) : D rval :=
  letd size := wrapped List_ in
  letd l := body size in
  list_end w ;d;
  dret (VList l).

Lemma list_end_ok w s b stk : at_ s b (0 :: stk) -> exists s', list_end w s = Ret (inr tt, s') /\ at_ s' b stk.
Proof.
  intros Hat. destruct (ListEnd_spec s b 0 stk Hat ltac:(lia)) as (s' & He & Hat'). exists s'. split; [|done].
  destruct w; [by apply wrapped_ok|done].
Qed.
Lemma list_end_fails w s b l stk : at_ s b (l :: stk) -> 0 < l -> fails (list_end w s).
Proof.
  intros Hat Hl. pose proof (ListEnd_spec s b l stk Hat ltac:(lia)) as He. rewrite (proj2 (Z.eqb_neq l 0)) in He by lia.
  assert (Hf : fails (ListEnd s)) by (by exists errNotAtEOL, s). destruct w; [by apply wrapped_fails|done].
Qed.

Lemma List_eol s b stk : at_ s b stk -> ended stk -> List_ s = Ret (inl EOL, s).
Proof. intros Hat He. exact (via_kind_eol (fun kind size => match kind with List => _ | _ => _ end) s b stk Hat He). Qed.

Lemma List_kinded s r s1 : Kind_ s = Ret (inr r, s1) -> List_ s1 = List_ s.
Proof. exact (via_kind_kinded (fun kind size => match kind with List => _ | _ => _ end) s r s1). Qed.

Section ListCodec.
Context (n : nat) (w : bool) (body : Z -> D (list rval)) (lrel : list rval -> list item -> Prop) (Hbody : list_body n body lrel).

Definition list_rel (v : rval) (it : item) : Prop := exists vs its, v = VList vs /\ it = Lst its /\ lrel vs its.

Lemma list_accept s b stk v it rest : at_ s b stk -> input_ok b stk -> (length b < S n)%nat -> list_rel v it -> b = enc it ++ rest ->
  fits (Zlen (enc it)) stk -> exists s', list_dec w body s = Ret (inr v, s') /\ at_ s' rest (sub (Zlen (enc it)) stk).
Proof.
  intros Hat Hok Hn (vs & its & -> & -> & Hrel) -> Hfit. pose proof (fits_not_ended _ _ (Zlen_enc_pos (Lst its)) Hfit) as Hne.
  rewrite enc_Lst in *. set (h := hdr List (Zlen (encs its))) in *. set (c := encs its) in *.
  pose proof (Zlen_nonneg c) as Hc0. pose proof (Zlen_nonneg h) as Hh0. pose proof (Zlen_nonneg rest) as Hr0.
  destruct Hok as (Hb & Hl & Hs). rewrite !Zlen_app in Hl. rewrite Zlen_app in Hfit.
  assert (Hh : headed ((h ++ c) ++ rest) List (Zlen c) (c ++ rest) 0) by (rewrite <- app_assoc; repeat split; lia).
  assert (Hd : Zlen ((h ++ c) ++ rest) - Zlen (c ++ rest) = Zlen h) by (rewrite !Zlen_app; lia).
  destruct (List_spec s _ stk Hat ltac:(repeat split; try done; rewrite !Zlen_app; lia) Hne) as [(size & t & s1 & Hh' & _ & _ & _ & Hls & Hat1)|(Hno & _)].
  2:{ exfalso. apply (Hno (Zlen c) (c ++ rest) Hh); [rewrite Hd| |rewrite Zlen_app; lia]; (eapply fits_le; [|exact Hfit]; lia). }
  destruct (headed_unique _ _ _ _ _ _ _ _ _ Hh Hh') as (_ & -> & ->). rewrite Hd in Hat1. rewrite wsub_fits in Hat1 by (done || lia).
  rewrite Zlen_app. set (stk' := sub (Zlen h + Zlen c) stk) in *.
  assert (Hok1 : input_ok (c ++ rest) (Zlen c :: stk')).
  { rewrite <- app_assoc in Hb. apply Forall_app in Hb as [_ Hb]. split_and!; [done|rewrite Zlen_app; lia|].
    constructor; [unfold in64; lia|]. destruct stk as [|l stk]; [done|]. cbn in *. inversion Hs as [|? ? Hi]; subst.
    constructor; [unfold in64 in *; lia|done]. }
  destruct (lb_accept _ _ _ Hbody s1 its vs rest stk' Hrel Hat1 Hok1) as (s2 & H2 & Hat2).
  { fold c. rewrite !length_app in Hn |- *. rewrite (length_app h c) in Hn. assert (Hh1 : 0 < Zlen h) by apply hdr_pos. unfold Zlen in Hh1. lia. }
  destruct (list_end_ok w s2 rest stk' Hat2) as (s3 & H3 & Hat3). exists s3. split; [|done]. unfold list_dec.
  rewrite (dthen_ok _ _ _ _ _ (wrapped_ok _ _ _ _ Hls)). fold c in H2. rewrite (dthen_ok _ _ _ _ _ H2), (dthen_ok _ _ _ _ _ H3). done.
Qed.

Lemma list_run s b stk : at_ s b stk -> input_ok b stk -> (length b < S n)%nat -> ~ ended stk ->
  exists x s', list_dec w body s = Ret (x, s') /\
    match x with inl e => e <> EOL | inr v => (exists it rest, list_rel v it /\ advanced b stk it rest s') \/ overrun b stk s' end.
Proof.
  intros Hat Hok Hn Hne. unfold list_dec.
  assert (Hfail : forall A (m : D A) k s0, fails (m s0) -> exists x s', dthen m k s0 = Ret (x, s') /\
    match x with inl e => e <> EOL | inr v => (exists it rest, list_rel v it /\ advanced b stk it rest s') \/ overrun b stk s' end).
  { intros A m k s0 (e & s' & He & Hm). exists (inl e), s'. split; [by apply dthen_err|done]. }
  destruct (List_spec s b stk Hat Hok Hne) as [(size & t & s1 & Hh & Hfh & Hfs & Hsz & Hls & Hat1)|(_ & Hf)]; [|by apply Hfail, wrapped_fails].
  rewrite (dthen_ok _ _ _ _ _ (wrapped_ok _ _ _ _ Hls)). destruct Hh as (Hb & Hi & _). destruct Hok as (Hbb & Hl & Hs).
  assert (Hd : Zlen b - Zlen t = Zlen (hdr List size)) by (rewrite Hb, Zlen_app; lia). rewrite Hd in *. set (h := hdr List size) in *.
  pose proof (Zlen_hdr List size Hi) as Hh9. fold h in Hh9. pose proof (Zlen_nonneg h) as Hh0. pose proof (Zlen_nonneg t).
  assert (Hws : Forall in64 (wsub (Zlen h) size stk)).
  { destruct stk as [|l stk]; [done|]. inversion Hs; subst. constructor; [apply u64_in64|done]. }
  assert (Hok1 : input_ok t (size :: wsub (Zlen h) size stk)).
  { rewrite Hb in Hbb, Hl. rewrite Zlen_app in Hl. apply Forall_app in Hbb as [_ Hbt]. split_and!; [done|lia|by constructor]. }
  assert (Hlt : (length t < length b)%nat).
  { rewrite Hb, length_app. assert (Hh1 : 0 < Zlen h) by apply hdr_pos. unfold Zlen in *; lia. }
  destruct (lb_run _ _ _ Hbody s1 t size _ Hat1 Hok1 ltac:(lia)) as ([e|vs] & s2 & H2 & Hx); [apply Hfail; by exists e, s2|].
  rewrite (dthen_ok _ _ _ _ _ H2). destruct Hx as [(its & rest & Hrel & -> & Hle & Hat2)|(b' & l' & stk' & Hat2 & Hl')].
  2:{ apply Hfail. by eapply list_end_fails. }
  destruct (decide (Zlen (encs its) = size)) as [Hz|Hz]; [|apply Hfail; apply (list_end_fails w s2 rest _ _ Hat2); lia].
  rewrite Hz, Z.sub_diag in Hat2. destruct (list_end_ok w s2 rest _ Hat2) as (s3 & H3 & Hat3).
  exists (inr (VList vs)), s3. rewrite (dthen_ok _ _ _ _ _ H3). split; [done|]. rewrite Zlen_app in *.
  assert (Hz0 : 0 <= size) by (unfold in64 in Hi; lia).
  destruct (decide (fits (Zlen h + size) stk)) as [Hfit|Hover].
  - left. exists (Lst its), rest. split; [by exists vs, its|]. unfold advanced. rewrite enc_Lst, Hz, Zlen_app, Hz. fold h.
    rewrite <- wsub_fits by (done || lia). split_and!; [by rewrite <- app_assoc|done|done].
  - right. destruct stk as [|l stk]; [done|]. cbn [wsub] in *. exists rest, (u64 (l - Zlen h - size)), stk.
    apply Forall_cons_1 in Hws as [Hw1 Hw2]. rewrite Hb in Hbb, Hl. rewrite !Forall_app in Hbb. rewrite !Zlen_app in Hl.
    assert (Hu : u64 (l - Zlen h - size) = l - Zlen h - size + 2 ^ 64).
    { unfold u64. unfold fits in Hover, Hfs. rewrite <- (Z_mod_plus_full _ 1). apply Z.mod_small. apply Forall_cons_1 in Hs as [Hli _]. unfold in64 in Hli. lia. }
    pose proof (Zlen_nonneg (encs its)). pose proof (Zlen_nonneg rest). unfold fits in Hfs, Hover, Hfh.
    split_and!; [done| |lia|rewrite Hb, !length_app; rewrite length_app in Hlt; unfold Zlen in *; lia|done].
    split_and!; [tauto|lia|by constructor].
Qed.

Lemma list_codec : codec (S n) (list_dec w body) list_rel.
Proof.
  split; [|apply list_accept|apply list_run|].
  - intros s b stk Hat _ He. apply dthen_err. change EOL with (wrapStreamError EOL). apply wrapped_err. by eapply List_eol.
  - intros s r s1 Hk. unfold list_dec. apply dthen_kinded, wrapped_kinded. by eapply List_kinded.
Qed.

End ListCodec.

(** ** Elements and fields *)

Lemma encs_cons it its : encs (it :: its) = enc it ++ encs its.
Proof. done. Qed.

Section Elements.
Context (n : nat) (m : D rval) (rel : rval -> item -> Prop) (Hm : codec n m rel).

Lemma elems_accept its : forall fuel s vs rest stk, Forall2 rel vs its -> (length its < fuel)%nat ->
  at_ s (encs its ++ rest) (Zlen (encs its) :: stk) -> input_ok (encs its ++ rest) (Zlen (encs its) :: stk) -> (length (encs its ++ rest) < n)%nat ->
  exists s', decodeSliceElems fuel m s = Ret (inr vs, s') /\ at_ s' rest (0 :: stk).
Proof.
  induction its as [|it its IH]; intros fuel s vs rest stk Hr Hf Hat Hok Hn; inversion Hr as [|v ? vs' ? Hv Hvs]; subst;
    destruct fuel as [|fuel]; try (cbn in Hf; lia); cbn [decodeSliceElems]; unfold mthen.
  - rewrite (c_eol _ _ _ Hm s _ _ Hat Hn eq_refl). exists s. done.
  - rewrite encs_cons, <- app_assoc, Zlen_app in *. pose proof (Zlen_nonneg (encs its)) as Hz.
    destruct (c_accept _ _ _ Hm s _ _ v it _ Hat Hok Hn Hv eq_refl) as (s1 & H1 & Hat1); [cbn; lia|].
    destruct (input_ok_advance _ _ _ _ Hok eq_refl) as [Hok1 Hlt]; [cbn; lia|]. rewrite H1. cbn [obind fst snd].
    cbn [sub] in *. replace (Zlen (enc it) + Zlen (encs its) - Zlen (enc it)) with (Zlen (encs its)) in * by lia.
    destruct (IH fuel s1 vs' rest stk Hvs ltac:(cbn in Hf; lia) Hat1 Hok1 ltac:(lia)) as (s2 & H2 & Hat2).
    exists s2. split; [|done]. by rewrite (dthen_ok _ _ _ _ _ H2).
Qed.

(** The loop ends exactly at the limit, or fails. *)
Lemma elems_run fuel : forall s b l stk, at_ s b (l :: stk) -> input_ok b (l :: stk) -> (length b < fuel)%nat -> (length b < n)%nat ->
  exists x s', decodeSliceElems fuel m s = Ret (x, s') /\
    match x with
    | inl e => e <> EOL
    | inr vs => exists its rest, Forall2 rel vs its /\ b = encs its ++ rest /\ Zlen (encs its) = l /\ at_ s' rest (0 :: stk)
    end.
Proof.
  induction fuel as [|fuel IH]; intros s b l stk Hat Hok Hf Hn; [lia|]. cbn [decodeSliceElems]. unfold mthen.
  destruct (decide (l = 0)) as [-> |Hl].
  { rewrite (c_eol _ _ _ Hm s _ _ Hat Hn eq_refl). exists (inr []), s. split; [done|]. exists [], b. split_and!; auto. }
  destruct (c_run _ _ _ Hm s b _ Hat Hok Hn Hl) as ([e|v] & s1 & H1 & Hx); rewrite H1; cbn [obind fst snd].
  { exists (inl e), s1. split; [by destruct e|done]. }
  destruct Hx as [(it & rest & Hv & Hadv)|(b' & l' & stk' & Hat1 & Hok1 & Hlt & Hlen & _)].
  - destruct Hadv as (-> & Hfit & Hat1). destruct (input_ok_advance _ _ _ _ Hok eq_refl Hfit) as [Hok1 Hlt].
    destruct (IH s1 rest _ stk Hat1 Hok1 ltac:(lia) ltac:(lia)) as ([e|vs] & s2 & H2 & Hx2).
    + exists (inl e), s2. split; [by apply dthen_err|done].
    + exists (inr (v :: vs)), s2. split; [by rewrite (dthen_ok _ _ _ _ _ H2)|]. destruct Hx2 as (its & rest' & Hvs & -> & Hz & Hat2).
      exists (it :: its), rest'. rewrite encs_cons, <- app_assoc, Zlen_app. split_and!; [by constructor|done|lia|done].
  - destruct (IH s1 b' l' stk' Hat1 Hok1 ltac:(lia) ltac:(lia)) as ([e|vs] & s2 & H2 & Hx2).
    + exists (inl e), s2. split; [by apply dthen_err|done].
    + exfalso. destruct Hx2 as (its & rest' & _ & -> & Hz & _). rewrite Zlen_app in Hlt. pose proof (Zlen_nonneg rest'). lia.
Qed.

Definition slice_body (fuel : nat) (size : Z) : D (list rval) := if size =? 0 then dret [] else decodeSliceElems fuel m.

Lemma slice_list_body fuel : (n <= fuel)%nat -> list_body n (slice_body fuel) (Forall2 rel).
Proof.
  intros Hn. split.
  - intros s its vs rest stk Hr Hat Hok Hlen. unfold slice_body. destruct (Z.eqb_spec (Zlen (encs its)) 0) as [Hz|Hz].
    + destruct its as [|it its]; [inversion Hr; subst; by exists s|]. rewrite encs_cons, Zlen_app in Hz. pose proof (Zlen_enc_pos it).
      pose proof (Zlen_nonneg (encs its)). lia.
    + apply (elems_accept its fuel s vs rest stk); auto. assert (Hle : (length its <= length (encs its))%nat); [|rewrite length_app in Hlen; lia].
      clear. induction its as [|it its IH]; [done|]. rewrite encs_cons, length_app. pose proof (Zlen_enc_pos it). unfold Zlen in *. cbn. lia.
  - intros s b l stk Hat Hok Hlen. unfold slice_body. destruct (Z.eqb_spec l 0) as [-> |Hz].
    + exists (inr []), s. split; [done|]. left. exists [], b. split_and!; auto; done.
    + destruct (elems_run fuel s b l stk Hat Hok ltac:(lia) Hlen) as ([e|vs] & s' & H1 & Hx); [by exists (inl e), s'|].
      exists (inr vs), s'. split; [done|]. left. destruct Hx as (its & rest & Hr & Hb & Hl & Hat'). exists its, rest.
      rewrite Hl, Z.sub_diag. split_and!; auto; lia.
Qed.

End Elements.

Lemma codec_ext n m m' rel rel' : (forall s, m' s = m s) -> (forall v it, rel v it <-> rel' v it) -> codec n m rel -> codec n m' rel'.
Proof.
  intros Hm Hr [H1 H2 H3 H4]. split.
  - intros s b stk Hat Hn He. rewrite Hm. eauto.
  - intros s b stk v it rest Hat Hok Hn Hv. rewrite Hm. apply Hr in Hv. eauto.
  - intros s b stk Hat Hok Hn He. rewrite Hm. destruct (H3 s b stk Hat Hok Hn He) as (x & s' & Hs & Hx). exists x, s'. split; [done|].
    destruct x as [e|v]; [done|]. destruct Hx as [(it & rest & Hv & Hx)|Hx]; [left; exists it, rest; split; [by apply Hr|done]|by right].
  - intros s r s1 Hk. rewrite !Hm. eauto.
Qed.

Lemma decodeListSlice_codec n fuel m rel : (n <= fuel)%nat -> codec n m rel -> codec (S n) (decodeListSlice fuel m) (list_rel (Forall2 rel)).
Proof.
  intros Hn Hm. eapply codec_ext; [|done|exact (list_codec n false (slice_body m fuel) _ (slice_list_body n m rel Hm fuel Hn))].
  intros s. unfold decodeListSlice, list_dec, slice_body, dthen. apply mthen_cong. intros [e|size] s1; [done|]. by destruct (size =? 0).
Qed.

(** Fields with a codec each. *)
Fixpoint fields_rel (rels : list (rval -> item -> Prop)) (vs : list rval) (its : list item) : Prop :=
  match rels, vs, its with
  | [], [], [] => True
  | rel :: rels, v :: vs, it :: its => rel v it /\ fields_rel rels vs its
  | _, _, _ => False
  end.

Lemma fields_list_body n ms rels : Forall2 (codec n) ms rels -> list_body n (fun _ => decodeElems ms) (fields_rel rels).
Proof.
  intros Hms. induction Hms as [|m rel ms rels Hm Hms IH]; split; cbn [decodeElems fields_rel].
  - intros s its vs rest stk Hr Hat _ _. destruct vs, its; try done. by exists s.
  - intros s b l stk Hat (_ & _ & Hs) _. apply Forall_cons_1 in Hs as [Hl _]. unfold in64 in Hl. exists (inr []), s. split; [done|]. left.
    exists [], b. change (Zlen (encs [])) with 0. rewrite Z.sub_0_r. split_and!; (done || lia).
  - intros s its vs rest stk Hr Hat Hok Hn. destruct vs as [|v vs], its as [|it its]; try done. destruct Hr as [Hv Hr].
    rewrite encs_cons, <- app_assoc, Zlen_app in *. pose proof (Zlen_nonneg (encs its)).
    destruct (c_accept _ _ _ Hm s _ _ v it _ Hat Hok Hn Hv eq_refl) as (s1 & H1 & Hat1); [cbn; lia|].
    destruct (input_ok_advance _ _ _ _ Hok eq_refl) as [Hok1 Hlt]; [cbn; lia|]. cbn [sub] in *.
    replace (Zlen (enc it) + Zlen (encs its) - Zlen (enc it)) with (Zlen (encs its)) in * by lia.
    destruct (lb_accept _ _ _ IH s1 its vs rest stk Hr Hat1 Hok1 ltac:(lia)) as (s2 & H2 & Hat2).
    exists s2. split; [|done]. unfold mthen. rewrite H1. cbn [obind fst snd]. by rewrite (dthen_ok _ _ _ _ _ H2).
  - intros s b l stk Hat Hok Hn. unfold mthen. destruct (decide (l = 0)) as [-> |Hl].
    { rewrite (c_eol _ _ _ Hm s _ _ Hat Hn eq_refl). cbn [obind fst snd]. by eexists (inl _), s. }
    destruct (c_run _ _ _ Hm s b _ Hat Hok Hn Hl) as ([e|v] & s1 & H1 & Hx); rewrite H1; cbn [obind fst snd].
    { exists (inl e), s1. split; [by destruct e|done]. }
    destruct Hx as [(it & rest & Hv & -> & Hfit & Hat1)|(b' & l' & stk' & Hat1 & Hok1 & Hlt & Hlen & _)].
    + destruct (input_ok_advance _ _ _ _ Hok eq_refl Hfit) as [Hok1 Hlt].
      destruct (lb_run _ _ _ IH s1 rest _ stk Hat1 Hok1 ltac:(lia)) as ([e|vs] & s2 & H2 & Hx2); [exists (inl e), s2; split; [by apply dthen_err|done]|].
      exists (inr (v :: vs)), s2. split; [by rewrite (dthen_ok _ _ _ _ _ H2)|]. destruct Hx2 as [(its & rest' & Hr & -> & Hle & Hat2)|Hx2]; [|by right].
      left. exists (it :: its), rest'. rewrite encs_cons, <- app_assoc, Zlen_app. cbn in Hfit. split_and!; auto; [lia|].
      by replace (l - (Zlen (enc it) + Zlen (encs its))) with (l - Zlen (enc it) - Zlen (encs its)) by lia.
    + destruct (lb_run _ _ _ IH s1 b' l' stk' Hat1 Hok1 ltac:(lia)) as ([e|vs] & s2 & H2 & Hx2); [exists (inl e), s2; split; [by apply dthen_err|done]|].
      exists (inr (v :: vs)), s2. split; [by rewrite (dthen_ok _ _ _ _ _ H2)|]. right.
      destruct Hx2 as [(its & rest' & _ & -> & _ & Hat2)|Hx2]; [|done]. rewrite Zlen_app in Hlt. pose proof (Zlen_nonneg rest').
      exists rest', (l' - Zlen (encs its)), stk'. split; [done|lia].
Qed.

Lemma decodeFields_codec n ms rels : Forall2 (codec n) ms rels -> codec (S n) (decodeFields ms) (list_rel (fields_rel rels)).
Proof. intros Hms. exact (list_codec n true (fun _ => decodeElems ms) _ (fields_list_body n ms rels Hms)). Qed.

Lemma codec_le n n' m rel : (n' <= n)%nat -> codec n m rel -> codec n' m rel.
Proof. intros Hn [H1 H2 H3 H4]. split; auto; intros; [eapply H1|eapply H2|eapply H3]; eauto; lia. Qed.

(** ** Pointers *)

Definition map_rel (g : rval -> rval) (rel : rval -> item -> Prop) (v : rval) (it : item) : Prop := exists v', v = g v' /\ rel v' it.

Lemma codec_map n m rel g : codec n m rel -> codec n (letd v := m in dret (g v)) (map_rel g rel).
Proof.
  intros [H1 H2 H3 H4]. split.
  - intros s b stk Hat Hn He. apply dthen_err. eauto.
  - intros s b stk v it rest Hat Hok Hn (v' & -> & Hv) Hb Hf. destruct (H2 s b stk v' it rest Hat Hok Hn Hv Hb Hf) as (s' & Hs & Hat').
    exists s'. by rewrite (dthen_ok _ _ _ _ _ Hs).
  - intros s b stk Hat Hok Hn He. destruct (H3 s b stk Hat Hok Hn He) as ([e|v] & s' & Hs & Hx).
    + exists (inl e), s'. split; [by apply dthen_err|done].
    + exists (inr (g v)), s'. rewrite (dthen_ok _ _ _ _ _ Hs). split; [done|].
      destruct Hx as [(it & rest & Hv & Hx)|Hx]; [left; exists it, rest; split; [by exists v|done]|by right].
  - intros s r s1 Hk. apply dthen_kinded. eauto.
Qed.

Definition empty_item (k : Kind) : item := match k with List => Lst [] | _ => Str [] end.
Definition is_empty (it : item) : bool := match it with Str [] | Lst [] => true | _ => false end.

(** The header an encoding starts with. *)
Lemma item_headed it rest : input_ok (enc it ++ rest) [] -> exists k size t bv, headed (enc it ++ rest) k size t bv /\ size <= Zlen t /\
  Zlen (enc it ++ rest) - Zlen t + size <= Zlen (enc it) /\ negb (bool_decide (k = Byte)) && (size =? 0) = is_empty it /\
  (is_empty it = true -> it = empty_item k /\ t = rest).
Proof.
  intros (Hb & Hl & _). rewrite Zlen_app in Hl. pose proof (Zlen_nonneg rest). destruct it as [c|its].
  - assert (Hc : Forall is_byte c).
    { apply Forall_app in Hb as [Hb _]. cbn in Hb. unfold enc_str in Hb. destruct c as [|x [|y c]]; [done| |].
      - destruct (_ <=? _); [done|]. by apply Forall_app in Hb as [_ ?].
      - by apply Forall_app in Hb as [_ ?]. }
    cbn [enc] in *. destruct (enc_str_cases c Hc) as [(x & -> & Hx & He)|[Hcan He]]; rewrite He in *.
    + exists Byte, 0, rest, x. split_and!; try done; rewrite Zlen_app; unfold Zlen; cbn; lia.
    + exists String, (Zlen c), (c ++ rest), 0. pose proof (Zlen_nonneg c). rewrite Zlen_app in Hl. pose proof (Zlen_nonneg (hdr String (Zlen c))).
      split_and!; [rewrite <- app_assoc; repeat split; lia|rewrite Zlen_app; lia|rewrite !Zlen_app; lia| |].
      * rewrite bool_decide_eq_false_2 by done. by destruct c.
      * by destruct c.
  - rewrite enc_Lst in *. set (c := encs its) in *. pose proof (Zlen_nonneg c). rewrite Zlen_app in Hl. pose proof (hdr_pos (Zlen c)).
    exists List, (Zlen c), (c ++ rest), 0.
    split_and!; [rewrite <- app_assoc; repeat split; lia|rewrite Zlen_app; lia|rewrite !Zlen_app; lia| |by destruct its].
    rewrite bool_decide_eq_false_2 by done. destruct its as [|it its]; [done|]. subst c. rewrite encs_cons, Zlen_app.
    pose proof (Zlen_enc_pos it). pose proof (Zlen_nonneg (encs its)). cbn. lia.
Qed.

Definition nilptr_rel (k : Kind) (rel : rval -> item -> Prop) (v : rval) (it : item) : Prop :=
  (v = VPtr None /\ it = empty_item k) \/ (exists v', v = VPtr (Some v') /\ rel v' it /\ is_empty it = false).

(** The kind of an encoding. *)
Lemma Kind_of_item s b stk it rest : at_ s b stk -> input_ok b stk -> b = enc it ++ rest -> fits (Zlen (enc it)) stk ->
  exists k size t bv, headed b k size t bv /\ negb (bool_decide (k = Byte)) && (size =? 0) = is_empty it /\
    (is_empty it = true -> it = empty_item k /\ t = rest) /\
    Kind_ s = Ret (inr (k, size), pos t (sub (Zlen b - Zlen t) stk) size None (Some k) bv).
Proof.
  intros (sz & ke & bv0 & ->) Hok -> Hfit. destruct Hok as (Hb & Hl & Hs).
  destruct (item_headed it rest ltac:(by split_and!)) as (k & size & t & bv & Hh & Hsz & Hle & He & Hemp).
  pose proof (fits_not_ended _ _ (Zlen_enc_pos it) Hfit) as Hne. exists k, size, t, bv. split_and!; auto; try apply Hemp; auto.
  assert (Hd : 0 <= Zlen (enc it ++ rest) - Zlen t).
  { destruct k; [destruct Hh as (-> & _); rewrite Zlen_cons; lia|..]; destruct Hh as (-> & _); rewrite Zlen_app; pose proof (Zlen_nonneg (hdr String size)); pose proof (Zlen_nonneg (hdr List size)); lia. }
  assert (Hz : 0 <= size) by (destruct k; [destruct Hh as (_ & -> & _)|destruct Hh as (_ & Hi & _)..]; unfold in64 in *; lia).
  destruct (Kind_spec (enc it ++ rest) stk sz ke bv0 ltac:(by split_and!) Hne) as [(k' & size' & t' & bv' & Hh' & _ & _ & _ & Hk)|(Hno & _)].
  2:{ exfalso. apply (Hno k size t bv Hh); auto; (eapply fits_le; [|exact Hfit]; lia). }
  destruct (headed_unique _ _ _ _ _ _ _ _ _ Hh Hh') as (-> & -> & ->). rewrite Hk. repeat f_equal.
  destruct k; [|by destruct Hh as (_ & _ & ->), Hh' as (_ & _ & ->)..]. destruct Hh as (Hx & _), Hh' as (Hx' & _). congruence.
Qed.

Lemma decodeNilPtr_codec n k m rel : k <> Byte -> codec n m rel -> codec n (decodeNilPtr k m) (nilptr_rel k rel).
Proof.
  intros Hk Hm. assert (Hp : codec n (decodePtr m) (map_rel (fun v => VPtr (Some v)) rel)) by exact (codec_map n m rel _ Hm). split.
  - intros s b stk Hat _ He. apply dthen_err. change EOL with (wrapStreamError EOL). apply wrapped_err.
    destruct Hat as (sz & ke & bv & ->). destruct stk as [|l stk]; [done|]. cbn in He. subst l. done.
  - intros s b stk v it rest Hat Hok Hn Hrel Hb Hfit.
    destruct (Kind_of_item s b stk it rest Hat Hok Hb Hfit) as (k' & size & t & bv & Hh & He & Hemp & Hki).
    unfold decodeNilPtr. rewrite (dthen_ok _ _ _ _ _ (wrapped_ok _ _ _ _ Hki)), He. destruct Hrel as [[-> ->]|(v' & -> & Hv & Hne)].
    + assert (Het : is_empty (empty_item k) = true) by (by destruct k). rewrite Het in *. destruct (Hemp eq_refl) as [Hk' ->].
      assert (Hkk : k' = k) by (destruct k, k'; try done; destruct Hh as (Hb' & Hz & _); rewrite Hb in Hb'; cbn in Hb'; injection Hb' as <-; lia). subst k'.
      rewrite bool_decide_eq_true_2 by done. cbn [negb]. eexists. split; [reflexivity|].
      replace (Zlen (enc (empty_item k))) with (Zlen b - Zlen rest) by (rewrite Hb, Zlen_app; lia). eexists _, _, _; reflexivity.
    + rewrite Hne. rewrite (c_kinded _ _ _ Hp _ _ _ Hki). apply (c_accept _ _ _ Hp s b stk _ it rest); auto. by exists v'.
  - intros s b stk Hat Hok Hn Hend. destruct Hat as (sz & ke & bv0 & ->).
    destruct (Kind_spec b stk sz ke bv0 Hok Hend) as [(k' & size & t & bv & Hh & Hf & _ & _ & Hki)|(_ & e & s' & He & Hki)].
    2:{ exists (inl (wrapStreamError e)), s'. split; [apply dthen_err; by apply wrapped_err|by rewrite wrap_EOL]. }
    unfold decodeNilPtr. rewrite (dthen_ok _ _ _ _ _ (wrapped_ok _ _ _ _ Hki)). destruct (negb _ && _) eqn:Hemp.
    + apply andb_prop in Hemp as [Hnb Hz]. apply Z.eqb_eq in Hz as ->. destruct (decide (k' = k)) as [-> |Hkk].
      2:{ rewrite bool_decide_eq_false_2 by done. eexists (inl _), _. split; [reflexivity|done]. }
      rewrite (bool_decide_eq_true_2 (k = k)) by done.
      eexists (inr _), _. split; [reflexivity|]. left. exists (empty_item k), t.
      assert (Hb : b = enc (empty_item k) ++ t) by (destruct k; [done|..]; destruct Hh as (-> & _); done).
      assert (Hd : Zlen b - Zlen t = Zlen (enc (empty_item k))) by (rewrite Hb, Zlen_app; lia). rewrite Hd in *.
      split; [by left|]. split_and!; auto. eexists _, _, _; reflexivity.
    + rewrite (c_kinded _ _ _ Hp _ _ _ Hki). destruct (c_run _ _ _ Hp (pos b stk sz ke None bv0) b stk (at_pos _ _ _ _ _) Hok Hn Hend) as ([e|v] & s' & Hs & Hx);
        [by exists (inl e), s'|]. exists (inr v), s'. split; [done|]. destruct Hx as [(it & rest & (v' & -> & Hv) & Hadv)|Hx]; [|by right].
      left. exists it, rest. split; [|done]. right. exists v'. split_and!; auto. destruct Hadv as (Hb & Hfit & _).
      destruct (Kind_of_item _ b stk it rest (at_pos b stk sz ke bv0) Hok Hb Hfit) as (k2 & size2 & t2 & bv2 & Hh2 & He2 & _ & _).
      destruct (headed_unique _ _ _ _ _ _ _ _ _ Hh Hh2) as (-> & -> & ->). congruence.
  - intros s r s1 Hki. unfold decodeNilPtr. apply dthen_kinded, wrapped_kinded. rewrite Hki. by apply Kind_idem in Hki.
Qed.

(** ** Values of any type *)

Fixpoint any_typed (v : rval) : Prop :=
  match v with
  | VBytes b => Forall is_byte b
  | VList l => (fix all (l : list rval) : Prop := match l with [] => True | v :: l => any_typed v /\ all l end) l
  | _ => False
  end.

Fixpoint any_item (v : rval) : item :=
  match v with VBytes b => Str b | VList l => Lst (map any_item l) | _ => Str [] end.

Definition any_rel (v : rval) (it : item) : Prop := any_typed v /\ it = any_item v.

Lemma any_rel_cases v it : any_rel v it <->
  (exists c, v = VBytes c /\ it = Str c /\ Forall is_byte c) \/ list_rel (Forall2 any_rel) v it.
Proof.
  split.
  - intros [Ht ->]. destruct v as [| | |b|l|]; try done; [left; by exists b|]. right. exists l, (map any_item l). split_and!; auto.
    cbn in Ht. induction l as [|v l IH]; [done|]. destruct Ht as [Hv Hl]. constructor; [by split|auto].
  - intros [(c & -> & -> & Hc)|(vs & its & -> & -> & Hr)]; [by split|].
    induction Hr as [|v it vs its [Hv ->] Hr [IH1 IH2]]; [by split|]. cbn in IH2. injection IH2 as IH2. split; [split; done|]. cbn. by rewrite <- IH2.
Qed.

Lemma Bytes_kinded s r s1 : Kind_ s = Ret (inr r, s1) -> Bytes s1 = Bytes s.
Proof. exact (via_kind_kinded (fun kind size => match kind with Byte => _ | String => _ | List => _ end) s r s1). Qed.

Lemma bytes_codec n : codec n (letd b := Bytes in dret (VBytes b)) (fun v it => exists c, v = VBytes c /\ it = Str c /\ Forall is_byte c).
Proof.
  eapply codec_ext; [done| |apply (string_codec n _ (fun c => Some c ≫= (fun b => Some (VBytes b))))].
  - intros v it. split; [intros (c & -> & Hc & [= <-]); eauto|intros (c & -> & -> & Hc); eauto].
  - apply string_dec_then; [apply Bytes_dec|]. by intros a.
  - intros s r s1 Hk. by eapply dthen_kinded, Bytes_kinded.
Qed.

(** What [decodeInterface] does, once the kind is known. *)
Lemma decodeInterface_kind fuel s k size s1 : Kind_ s = Ret (inr (k, size), s1) -> decodeInterface (S fuel) s =
  match k with List => decodeListSlice fuel (decodeInterface fuel) s | _ => (letd b := Bytes in dret (VBytes b)) s end.
Proof.
  intros Hk. cbn [decodeInterface]. rewrite (dthen_ok _ _ _ _ _ Hk). destruct k.
  - apply dthen_kinded. by eapply Bytes_kinded.
  - apply dthen_kinded. by eapply Bytes_kinded.
  - unfold decodeListSlice. apply dthen_kinded, wrapped_kinded. by eapply List_kinded.
Qed.

Lemma decodeInterface_codec fuel : codec fuel (decodeInterface fuel) any_rel.
Proof.
  induction fuel as [|fuel IH]; [split; intros; done || lia|].
  pose proof (decodeListSlice_codec fuel fuel _ _ (le_n _) IH) as Hl. pose proof (bytes_codec (S fuel)) as Hb. split.
  - intros s b stk (sz & ke & bv & ->) _ He. destruct stk as [|l stk]; [done|]. cbn in He. by subst l.
  - intros s b stk v it rest Hat Hok Hn Hv Hbe Hfit. destruct (Kind_of_item s b stk it rest Hat Hok Hbe Hfit) as (k & size & t & bv & Hh & _ & _ & Hk).
    rewrite (decodeInterface_kind _ _ _ _ _ Hk). apply any_rel_cases in Hv as [Hv|Hv].
    + assert (Hkl : k <> List).
      { intros ->. destruct (c_accept _ _ _ Hb s b stk v it rest Hat Hok Hn Hv Hbe Hfit) as (s' & Hs & _).
        unfold Bytes in Hs. unfold dthen at 1, mthen at 1 in Hs. by rewrite (dthen_ok _ _ _ _ _ Hk) in Hs. }
      destruct k; [| |done]; by apply (c_accept _ _ _ Hb s b stk v it rest).
    + assert (Hkl : k = List).
      { destruct (c_accept _ _ _ Hl s b stk v it rest Hat Hok Hn Hv Hbe Hfit) as (s' & Hs & _).
        unfold decodeListSlice, wrapped, dwrap, List_ in Hs. unfold dthen at 1, mthen at 1 2 in Hs. rewrite (dthen_ok _ _ _ _ _ Hk) in Hs. by destruct k. }
      subst k. by apply (c_accept _ _ _ Hl s b stk v it rest).
  - intros s b stk Hat Hok Hn He. assert (Hat0 := Hat). destruct Hat0 as (sz & ke & bv & ->).
    destruct (Kind_spec b stk sz ke bv Hok He) as [(k & size & t & bv' & _ & _ & _ & _ & Hk)|(_ & e & s' & Hne & Hk)].
    2:{ exists (inl e), s'. split; [cbn [decodeInterface]; by apply dthen_err|done]. }
    rewrite (decodeInterface_kind _ _ _ _ _ Hk).
    assert (Hsub : forall m rel, codec (S fuel) m rel -> (forall v it, rel v it -> any_rel v it) -> exists x s', m (pos b stk sz ke None bv) = Ret (x, s') /\
      match x with inl e => e <> EOL | inr v => (exists it rest, any_rel v it /\ advanced b stk it rest s') \/ overrun b stk s' end).
    { intros m rel Hm Hrel. destruct (c_run _ _ _ Hm _ b stk Hat Hok Hn He) as ([e|v] & s' & Hs & Hx); [by exists (inl e), s'|].
      exists (inr v), s'. split; [done|]. destruct Hx as [(it & rest & Hv & Hx)|Hx]; [left; exists it, rest; auto|by right]. }
    destruct k; [apply (Hsub _ _ Hb)|apply (Hsub _ _ Hb)|apply (Hsub _ _ Hl)]; intros v it Hv; apply any_rel_cases; auto.
  - intros s r s1 Hk. cbn [decodeInterface]. apply dthen_kinded. rewrite Hk. by apply Kind_idem in Hk.
Qed.
