(* ===== verification/RlpTypes.v ===== *)
(** * Decoding inverts encoding, for every type

    [typed t v]: the Go type [t] has the value [v] (integers of a width, arrays of
    a length, non-nil pointers where nil has no encoding of its own).  A byte
    string decodes to a value of the type exactly if it is what the encoder writes
    for the value. *)

From S2P Require Import Prelude Rlp RlpStream RlpCodec RlpTyped.
Import Rlp Decode.

(** ** Integers *)

(** Big-endian bytes without a leading zero. *)
Definition min_bytes (z : Z) : list Z := Z_to_bytes (Z.to_nat ((BitLen z + 7) / 8)) z.

Lemma min_bytes_spec n z : 256 ^ Z.of_nat n <= z < 256 ^ Z.of_nat (S n) -> min_bytes z = Z_to_bytes (S n) z.
Proof.
  intros Hz. assert (H0 : 0 < 256 ^ Z.of_nat n) by (apply Z.pow_pos_nonneg; lia).
  unfold min_bytes, BitLen. rewrite (proj2 (Z.eqb_neq z 0)) by lia. rewrite Z.abs_eq by lia.
  rewrite (log2_bytes z (S n)); [by rewrite Nat2Z.id|lia|lia|lia|right]. replace (Z.of_nat (S n) - 1) with (Z.of_nat n) by lia. lia.
Qed.

(** Every positive integer has a length. *)
Lemma byte_length z : 0 < z -> exists n, 256 ^ Z.of_nat n <= z < 256 ^ Z.of_nat (S n).
Proof.
  intros Hz. exists (Z.to_nat (Z.log2 z / 8)). pose proof (Z.log2_spec z Hz) as Hl. pose proof (Z.log2_nonneg z).
  pose proof (Z.div_mod (Z.log2 z) 8 ltac:(lia)). pose proof (Z.mod_pos_bound (Z.log2 z) 8 ltac:(lia)).
  assert (0 <= Z.log2 z / 8) by (apply Z.div_pos; lia).
  rewrite Nat2Z.inj_succ, Z2Nat.id by lia. change 256 with (2 ^ 8). rewrite <- !Z.pow_mul_r by lia. split.
  - eapply Z.le_trans; [|apply Hl]. apply Z.pow_le_mono_r; lia.
  - eapply Z.lt_le_trans; [apply Hl|]. apply Z.pow_le_mono_r; lia.
Qed.

Lemma int_of_iff c z : Forall is_byte c -> int_of c = Some z <-> 0 <= z /\ c = min_bytes z.
Proof.
  intros Hb. unfold int_of. split.
  - destruct c as [|x l]; cbn [noLead]; [by intros [= <-]|]. destruct (Z.eqb_spec x 0) as [|Hx]; [done|]. intros [= <-].
    pose proof (bytes_to_Z_bound _ Hb) as Hv. split; [lia|]. rewrite (min_bytes_spec (length l)); [symmetry; exact (Z_to_bytes_of_bytes (x :: l) Hb)|].
    rewrite Zlen_cons in Hv. rewrite Nat2Z.inj_succ. unfold Zlen in Hv. rewrite Z.add_1_l in Hv. split; [|lia].
    inversion Hb as [|? ? Hx1 Hl]; subst. unfold is_byte in Hx1. rewrite bytes_to_Z_cons. pose proof (bytes_to_Z_bound _ Hl) as [? _]. unfold Zlen.
    assert (0 < 256 ^ Z.of_nat (length l)) by (apply Z.pow_pos_nonneg; lia). nia.
  - intros [Hz ->]. destruct (decide (z = 0)) as [-> |Hne]; [done|]. destruct (byte_length z ltac:(lia)) as (n & Hn).
    rewrite (min_bytes_spec n z Hn). destruct (Z_to_bytes_lead n z Hn) as (h & t & He & Hh). rewrite He. cbn [noLead].
    rewrite (proj2 (Z.eqb_neq h 0)) by done. cbn [negb]. rewrite <- He, bytes_to_Z_to_bytes, Z.mod_small by lia. done.
Qed.

Lemma min_bytes_bytes z : Forall is_byte (min_bytes z).
Proof. apply Z_to_bytes_byte. Qed.

Lemma min_bytes_length z n : 0 <= z -> 0 <= n -> Zlen (min_bytes z) <= n <-> z < 256 ^ n.
Proof.
  intros Hz Hn. assert (Hp : 0 < 256 ^ n) by (apply Z.pow_pos_nonneg; lia).
  destruct (decide (z = 0)) as [-> |Hne]; [change (Zlen (min_bytes 0)) with 0; lia|].
  destruct (byte_length z ltac:(lia)) as (m & Hm). rewrite (min_bytes_spec m z Hm). unfold Zlen. rewrite length_Z_to_bytes.
  split; intros Hle.
  - eapply Z.lt_le_trans; [apply Hm|]. apply Z.pow_le_mono_r; lia.
  - destruct (decide (n < Z.of_nat (S m))) as [Hlt|]; [|lia]. assert (256 ^ n <= 256 ^ Z.of_nat m) by (apply Z.pow_le_mono_r; lia). lia.
Qed.

(** ** Typing *)

Definition zip_typed (f : rtype -> rval -> Prop) : list rtype -> list rval -> Prop :=
  fix go ts vs := match ts, vs with [], [] => True | t :: ts, v :: vs => f t v /\ go ts vs | _, _ => False end.
Definition zip_items (f : rtype -> rval -> item) : list rtype -> list rval -> list item :=
  fix go ts vs := match ts, vs with t :: ts, v :: vs => f t v :: go ts vs | _, _ => [] end.

(** The abstract item of a value. *)
Fixpoint to_item (t : rtype) (v : rval) {struct t} : item :=
  match t, v with
  | RBig, VBig (Some z) | RU256, VUint z | RUint _, VUint z => Str (min_bytes z)
  | RBool, VBool b => Str (if b then [1] else [])
  | RString, VBytes b | RBytes, VBytes b | RByteArray _, VBytes b => Str b
  | RSlice t, VList l | RArray _ t, VList l => Lst (map (to_item t) l)
  | RStruct ts, VList l => Lst (zip_items to_item ts l)
  | RPtr t, VPtr (Some v) | RNilPtr _ t, VPtr (Some v) => to_item t v
  | RNilPtr k _, VPtr None => empty_item k
  | RAny, v => any_item v
  | _, _ => Str []
  end.

Fixpoint typed (t : rtype) (v : rval) {struct t} : Prop :=
  match t, v with
  | RBig, VBig (Some z) => 0 <= z
  | RU256, VUint z => in256 z
  | RUint bits, VUint z => 0 <= z < 2 ^ bits
  | RBool, VBool _ => True
  | RString, VBytes b | RBytes, VBytes b => Forall is_byte b
  | RByteArray n, VBytes b => length b = n /\ Forall is_byte b
  | RSlice t, VList l => Forall (typed t) l
  | RArray n t, VList l => length l = n /\ Forall (typed t) l
  | RStruct ts, VList l => zip_typed typed ts l
  | RPtr t, VPtr (Some v) => typed t v
  | RNilPtr _ t, VPtr (Some v) => typed t v /\ is_empty (to_item t v) = false
  | RNilPtr _ _, VPtr None => True
  | RAny, v => any_typed v
  | _, _ => False
  end.

(** Integers have one of Go's widths; the nil of a pointer is a string or a list;
    a struct has fields. *)
Fixpoint wf_type (t : rtype) : bool :=
  match t with
  | RUint bits => (bits =? 8) || (bits =? 16) || (bits =? 32) || (bits =? 64)
  | RSlice t | RArray _ t | RPtr t => wf_type t
  | RNilPtr k t => negb (bool_decide (k = Byte)) && wf_type t
  | RStruct ts => match ts with [] => false | _ => forallb wf_type ts end
  | _ => true
  end.

Definition type_rel (t : rtype) (v : rval) (it : item) : Prop := typed t v /\ it = to_item t v.

Lemma rtype_ind' (P : rtype -> Prop) :
  P RBig -> P RU256 -> (forall bits, P (RUint bits)) -> P RBool -> P RString -> P RBytes -> (forall n, P (RByteArray n)) ->
  (forall t, P t -> P (RSlice t)) -> (forall n t, P t -> P (RArray n t)) -> (forall ts, Forall P ts -> P (RStruct ts)) ->
  (forall t, P t -> P (RPtr t)) -> (forall k t, P t -> P (RNilPtr k t)) -> P RAny -> forall t, P t.
Proof.
  intros H1 H2 H3 H4 H5 H6 H7 H8 H9 H10 H11 H12 H13. fix IH 1.
  intros [| |bits| | | |n|t|n t|ts|t|k t|]; [exact H1|exact H2|apply H3|exact H4|exact H5|exact H6|apply H7|apply H8, IH|apply H9, IH| |apply H11, IH|apply H12, IH|exact H13].
  apply H10. induction ts as [|t ts IHts]; constructor; [apply IH|exact IHts].
Qed.

(** ** Every decoder is a codec *)

Lemma in256_bytes z : in256 z <-> 0 <= z /\ z < 256 ^ 32.
Proof. unfold in256. change (2 ^ 256) with (256 ^ 32). lia. Qed.

Lemma uint_of_iff bits c z : bits / 8 * 8 = bits -> 0 <= bits -> Forall is_byte c -> uint_of bits c = Some z <-> 0 <= z < 2 ^ bits /\ c = min_bytes z.
Proof.
  intros Hbits H0 Hb. assert (Hp : 2 ^ bits = 256 ^ (bits / 8)).
  { change 256 with (2 ^ 8). rewrite <- Z.pow_mul_r; [f_equal; lia|lia|apply Z.div_pos; lia]. }
  assert (Hi : uint_of bits c = if Zlen c <=? bits / 8 then int_of c else None) by (unfold uint_of, int_of; by destruct (_ <=? _), (noLead c)).
  rewrite Hi, Hp. assert (0 <= bits / 8) by (apply Z.div_pos; lia). destruct (Z.leb_spec (Zlen c) (bits / 8)) as [Hl|Hl].
  - rewrite int_of_iff by done. split; [intros [Hz ->]; split; [|done]; split; [done|]; by apply min_bytes_length|intros [[? ?] ?]; done].
  - split; [done|]. intros [[Hz Hlt] ->]. exfalso. apply min_bytes_length in Hlt; lia.
Qed.

Definition bool_of (num : Z) : option bool := if num =? 0 then Some false else if num =? 1 then Some true else None.

Lemma bool_of_iff c (b : bool) : Forall is_byte c -> uint_of 8 c ≫= bool_of = Some b <-> c = if b then [1] else [].
Proof.
  intros Hc. split.
  - destruct (uint_of 8 c) as [z|] eqn:Hz; [|done]. apply uint_of_iff in Hz as [Hz ->]; [|done|lia|done]. cbn. unfold bool_of.
    destruct (Z.eqb_spec z 0) as [-> |]; [by intros [= <-]|]. destruct (Z.eqb_spec z 1) as [-> |]; [by intros [= <-]|done].
  - intros ->. by destruct b.
Qed.

(** A string decoder whose images are the typed values. *)
Lemma leaf_codec {A} n (m : D A) f (g : A -> rval) (t : rtype) : string_dec m f -> (forall s r s1, Kind_ s = Ret (inr r, s1) -> m s1 = m s) ->
  (forall v it, (exists c a, it = Str c /\ Forall is_byte c /\ f c = Some a /\ v = g a) <-> type_rel t v it) ->
  codec n (letd a := wrapped m in dret (g a)) (type_rel t).
Proof.
  intros Hm Hk Hrel. eapply codec_ext; [done| |apply (string_codec n _ (fun c => f c ≫= (fun a => Some (g a))))].
  - intros v it. rewrite <- Hrel. split.
    + intros (c & -> & Hc & Hf). destruct (f c) as [a|] eqn:E; [|done]. injection Hf as <-. eauto 6.
    + intros (c & a & -> & Hc & Hf & ->). exists c. rewrite Hf. auto.
  - apply string_dec_then; [by apply string_dec_wrapped|by intros a].
  - intros s r s1 Hki. apply dthen_kinded, wrapped_kinded. eauto.
Qed.

Lemma kinded_then {A B} (m : D A) (k : A -> D B) : (forall s r s1, Kind_ s = Ret (inr r, s1) -> m s1 = m s) ->
  forall s r s1, Kind_ s = Ret (inr r, s1) -> dthen m k s1 = dthen m k s.
Proof. intros Hm s r s1 Hk. apply dthen_kinded. eauto. Qed.

Lemma uint_kinded bits s r s1 : Kind_ s = Ret (inr r, s1) -> uint bits s1 = uint bits s.
Proof. exact (via_kind_kinded (fun kind size => match kind with Byte => _ | String => _ | List => _ end) s r s1). Qed.
Lemma int_bytes_kinded large s r s1 : Kind_ s = Ret (inr r, s1) -> int_bytes large s1 = int_bytes large s.
Proof. exact (via_kind_kinded (fun kind size => match kind with Byte => _ | String => _ | List => _ end) s r s1). Qed.
Lemma byteArray_kinded n s r s1 : Kind_ s = Ret (inr r, s1) -> decodeByteArray n s1 = decodeByteArray n s.
Proof. exact (via_kind_kinded (fun kind size => match kind with Byte => _ | String => _ | List => _ end) s r s1). Qed.

Lemma uint_codec n bits : wf_type (RUint bits) = true -> codec n (decoder n (RUint bits)) (type_rel (RUint bits)).
Proof.
  intros Hw. cbn in Hw. assert (Hb : bits / 8 * 8 = bits /\ 0 <= bits /\ 1 <= bits / 8 <= 8).
  { assert (bits = 8 \/ bits = 16 \/ bits = 32 \/ bits = 64) as [-> |[-> |[-> | ->]]] by lia; split_and!; done. }
  destruct Hb as (Hb1 & Hb2 & Hb3). apply (leaf_codec n (uint bits) (uint_of bits) VUint); [by apply uint_dec|by apply uint_kinded|].
  intros v it. split.
  - intros (c & z & -> & Hc & Hf & ->). apply uint_of_iff in Hf as [Hz ->]; auto. by split.
  - intros [Ht ->]. destruct v as [z| | | | |]; try done. exists (min_bytes z), z. split_and!; auto; [apply min_bytes_bytes|].
    apply uint_of_iff; auto. apply min_bytes_bytes.
Qed.

Lemma big_codec n : codec n (decoder n RBig) (type_rel RBig).
Proof.
  apply (leaf_codec n decodeBigInt_stream int_of (fun z => VBig (Some z))); [apply decodeBigInt_dec|apply kinded_then, int_bytes_kinded|].
  intros v it. split.
  - intros (c & z & -> & Hc & Hf & ->). apply int_of_iff in Hf as [Hz ->]; auto. by split.
  - intros [Ht ->]. destruct v as [|[z|]| | | |]; try done. exists (min_bytes z), z. split_and!; auto; [apply min_bytes_bytes|].
    apply int_of_iff; [apply min_bytes_bytes|done].
Qed.

Lemma u256_codec n : codec n (decoder n RU256) (type_rel RU256).
Proof.
  apply (leaf_codec n ReadUint256 (fun c => (if 32 <? Zlen c then None else Some c) ≫= int_of) VUint); [apply ReadUint256_dec|apply kinded_then, int_bytes_kinded|].
  intros v it. split.
  - intros (c & z & -> & Hc & Hf & ->). destruct (Z.ltb_spec 32 (Zlen c)); [done|]. apply int_of_iff in Hf as [Hz ->]; auto. split; [|done].
    apply in256_bytes. split; [done|]. by apply min_bytes_length.
  - intros [Ht ->]. destruct v as [z| | | | |]; try done. destruct (proj1 (in256_bytes z) Ht) as [Hz Hlt]. exists (min_bytes z), z.
    split_and!; auto; [apply min_bytes_bytes|]. apply min_bytes_length in Hlt; [|done|done]. rewrite (proj2 (Z.ltb_ge _ _)) by lia.
    apply int_of_iff; [apply min_bytes_bytes|done].
Qed.

Lemma bool_codec n : codec n (decoder n RBool) (type_rel RBool).
Proof.
  apply (leaf_codec n Bool (fun c => uint_of 8 c ≫= bool_of) VBool).
  - apply string_dec_then; [by apply uint_dec|]. intros z. unfold bool_of. destruct (z =? 0); [done|]. destruct (z =? 1); [done|]. by exists (decodeError InvalidBoolean).
  - apply kinded_then, uint_kinded.
  - intros v it. split.
    + intros (c & b & -> & Hc & Hf & ->). apply bool_of_iff in Hf as ->; [|done]. by split.
    + intros [Ht ->]. destruct v as [| |b| | |]; try done. exists (if b then [1] else []), b.
      assert (Hc : Forall is_byte (if b then [1] else [])) by (destruct b; repeat constructor; done). split_and!; auto. by apply bool_of_iff.
Qed.

Lemma bytes_type_codec n t : t = RString \/ t = RBytes -> codec n (decoder n t) (type_rel t).
Proof.
  intros Ht. assert (Hd : codec n (letd b := wrapped Bytes in dret (VBytes b)) (type_rel t)); [|by destruct Ht as [-> | ->]].
  apply (leaf_codec n Bytes Some VBytes); [apply Bytes_dec|apply Bytes_kinded|]. intros v it. split.
  - intros (c & b & -> & Hc & [= <-] & ->). by destruct Ht as [-> | ->].
  - intros [Hv ->]. destruct Ht as [-> | ->], v as [| | |b| |]; try done; by exists b, b.
Qed.

Lemma array_codec n k : codec n (decoder n (RByteArray k)) (type_rel (RByteArray k)).
Proof.
  eapply codec_ext; [done| |apply (string_codec n _ _ (decodeByteArray_dec k)), byteArray_kinded]. intros v it. split.
  - intros (c & -> & Hc & Hf). destruct (Nat.eqb_spec (length c) k); [|done]. injection Hf as <-. by split.
  - intros [Hv ->]. destruct v as [| | |b| |]; try done. destruct Hv as [<- Hb]. exists b. by rewrite Nat.eqb_refl.
Qed.

Lemma Forall2_type_rel t vs its : Forall2 (type_rel t) vs its <-> Forall (typed t) vs /\ its = map (to_item t) vs.
Proof.
  split.
  - induction 1 as [|v it vs its [Hv ->] _ [IH ->]]; [done|]. split; [by constructor|done].
  - intros [Hvs ->]. induction Hvs; constructor; [by split|done].
Qed.

Lemma fields_rel_array t n vs its : fields_rel (replicate n (type_rel t)) vs its <-> length vs = n /\ Forall2 (type_rel t) vs its.
Proof.
  revert vs its. induction n as [|n IH]; intros [|v vs] [|it its]; cbn; (split; [try done|intros [Hl Hr]; inversion Hr; subst; try done]).
  - intros [Hv Hr]. apply IH in Hr as [-> Hr]. by split; [|constructor].
  - split; [done|]. apply IH. split; [lia|done].
Qed.

Lemma fields_rel_struct ts vs its : fields_rel (map type_rel ts) vs its <-> zip_typed typed ts vs /\ its = zip_items to_item ts vs.
Proof.
  revert vs its. induction ts as [|t ts IH]; intros [|v vs] [|it its]; cbn; (split; [try done|intros [Hl Hr]; try done]).
  - intros [[Hv ->] Hr]. apply IH in Hr as [? ->]. by split_and!.
  - injection Hr as -> ->. destruct Hl as [? ?]. split; [by split|]. apply IH. by split.
Qed.

Lemma list_rel_iff (lrel : list rval -> list item -> Prop) (P : list rval -> Prop) f t :
  (forall vs its, lrel vs its <-> P vs /\ its = f vs) -> (forall vs, P vs <-> typed t (VList vs)) -> (forall vs, to_item t (VList vs) = Lst (f vs)) ->
  (forall v, typed t v -> exists vs, v = VList vs) -> forall v it, list_rel lrel v it <-> type_rel t v it.
Proof.
  intros Hl HP Hi Ht v it. split.
  - intros (vs & its & -> & -> & Hr). apply Hl in Hr as [Hr ->]. split; [by apply HP|by rewrite Hi].
  - intros [Hv ->]. destruct (Ht v Hv) as [vs ->]. exists vs, (f vs). split_and!; [done|apply Hi|]. apply Hl. split; [by apply HP|done].
Qed.

Lemma decoder_codec fuel t : wf_type t = true -> codec fuel (decoder fuel t) (type_rel t).
Proof.
  induction t as [| |bits| | | |n|t IH|n t IH|ts IH|t IH|k t IH|] using rtype_ind'; intros Hw; cbn [wf_type] in Hw.
  - apply big_codec.
  - apply u256_codec.
  - by apply uint_codec.
  - apply bool_codec.
  - apply bytes_type_codec. auto.
  - apply bytes_type_codec. auto.
  - apply array_codec.
  - apply (codec_le (S fuel)); [lia|]. eapply codec_ext; [done| |exact (decodeListSlice_codec fuel fuel _ _ (le_n _) (IH Hw))].
    apply (list_rel_iff _ (Forall (typed t)) (map (to_item t))); [apply Forall2_type_rel|done|done|]. intros [| | | |l|]; (done || eauto).
  - apply (codec_le (S fuel)); [lia|]. eapply codec_ext; [done| |apply (decodeFields_codec fuel _ (replicate n (type_rel t)))].
    + apply (list_rel_iff _ (fun vs => length vs = n /\ Forall (typed t) vs) (map (to_item t))); [|done|done|intros [| | | |l|]; (done || eauto)].
      intros vs its. rewrite fields_rel_array, Forall2_type_rel. tauto.
    + clear -IH Hw. induction n; constructor; auto.
  - apply (codec_le (S fuel)); [lia|]. eapply codec_ext; [done| |apply (decodeFields_codec fuel _ (map type_rel ts))].
    + apply (list_rel_iff _ (zip_typed typed ts) (zip_items to_item ts)); [apply fields_rel_struct|done|done|]. intros [| | | |l|]; (done || eauto).
    + assert (Hf : forallb wf_type ts = true) by (by destruct ts). clear Hw. induction IH as [|t ts Ht Hts IHts]; [constructor|].
      cbn in Hf. apply andb_prop in Hf as [? ?]. constructor; auto.
  - eapply codec_ext; [done| |exact (codec_map fuel _ _ (fun v => VPtr (Some v)) (IH Hw))]. intros v it. split.
    + intros (v' & -> & Hv). done.
    + intros [Hv ->]. destruct v as [| | | | |[v|]]; try done. exists v. by split.
  - apply andb_prop in Hw as [Hk Hw]. eapply codec_ext; [done| |exact (decodeNilPtr_codec fuel k _ _ ltac:(by intros ->) (IH Hw))].
    intros v it. split.
    + intros [[-> ->]|(v' & -> & [Hv ->] & He)]; [done|]. by split.
    + intros [Hv ->]. destruct v as [| | | | |[v|]]; try done; [|by left]. right. destruct Hv as [Hv He]. exists v. by split_and!.
  - exact (decodeInterface_codec fuel).
Qed.

(** ** Every writer writes the item of the value *)

Import Encode.

Definition wr (it : item) : W := fun buf => let! b := write_item it buf in Ret (inr b).

Lemma wall_wr ws its buf : Forall2 (fun w it => forall buf, w buf = wr it buf) ws its -> wall ws buf = let! b := write_all its buf in Ret (inr b).
Proof.
  intros H. revert buf. induction H as [|w it ws its Hw _ IH]; intros buf; [done|]. cbn [wall write_all]. unfold wthen. rewrite Hw. unfold wr.
  destruct (write_item it buf) as [b| |]; cbn [obind]; [apply IH|done|done].
Qed.

Lemma wlist_wr ws its buf : its <> [] -> Forall2 (fun w it => forall buf, w buf = wr it buf) ws its -> wlist (wall ws) buf = wr (Lst its) buf.
Proof.
  intros Hne H. unfold wlist, wr. destruct its as [|it its]; [done|].
  assert (Hw : write_item (Lst (it :: its)) buf = let (i, b) := list_begin buf in let! b := write_all (it :: its) b in listEnd i b) by done.
  rewrite Hw. destruct (list_begin buf) as [i b]. rewrite (wall_wr _ _ _ H). by destruct (write_all (it :: its) b).
Qed.

Lemma wslice_wr ws its buf : Forall2 (fun w it => forall buf, w buf = wr it buf) ws its -> wslice ws buf = wr (Lst its) buf.
Proof. intros H. destruct H as [|w it ws its Hw Hws]; [done|]. apply wlist_wr; [done|]. by constructor. Qed.

Lemma enc_Lst_le its : Forall (fun it => Zlen (enc it) <= Zlen (enc (Lst its))) its.
Proof.
  assert (H : Forall (fun it => Zlen (enc it) <= Zlen (encs its)) its).
  { induction its as [|it its IH]; constructor; rewrite encs_cons, Zlen_app; [pose proof (Zlen_nonneg (encs its)); lia|].
    eapply Forall_impl; [|exact IH]. intros x Hx. pose proof (Zlen_nonneg (enc it)). cbn in Hx. lia. }
  eapply Forall_impl; [|exact H]. intros it Hit. cbn beta in Hit. rewrite enc_Lst, Zlen_app. pose proof (Zlen_nonneg (hdr List (Zlen (encs its)))). lia.
Qed.

(** *** Strings *)

Lemma wr_str c buf : Zlen (enc_str c) < 2 ^ 64 -> wr (Str c) buf = Ret (inr (append_str (enc_str c) buf)).
Proof.
  intros Hl. unfold wr. cbn [write_item obind]. rewrite writeBytes_enc; [done|]. unfold enc_str in Hl.
  destruct c as [|x [|y c]]; [done|done|]. rewrite Zlen_app in Hl. pose proof (Zlen_nonneg (puthead 128 183 (Zlen (x :: y :: c)))). lia.
Qed.

Lemma uint_bytes_min z : in64 z -> uint_bytes z = min_bytes z.
Proof.
  intros Hz. destruct (uint_bytes_spec z Hz) as (Hb & Hv & _). apply int_of_iff; [done|]. unfold int_of. rewrite Hv.
  assert (Hn : noLead (uint_bytes z) = true); [|by rewrite Hn]. unfold uint_bytes. destruct (Z.eqb_spec z 0); [done|].
  destruct (putint_lead z Hz ltac:(unfold in64 in Hz; lia)) as (h & t & -> & Hh). cbn. lia.
Qed.

Lemma writeUint64_min z buf : in64 z -> writeUint64 z buf = append_str (enc_str (min_bytes z)) buf.
Proof.
  intros Hz. assert (Hx : exists x, writeUint64 z buf = append_str x buf) by (unfold writeUint64; destruct (z =? 0); [eauto|]; destruct (z <? 128); eauto).
  destruct Hx as [x Hx]. rewrite Hx. f_equal. apply (app_inv_head (str buf)). change (str buf ++ x) with (str (append_str x buf)). rewrite <- Hx.
  rewrite AppendUint64_writeUint64, AppendUint64_enc, uint_bytes_min by done. done.
Qed.

Lemma BitLen_64 z : 0 <= z -> BitLen z <= 64 <-> in64 z.
Proof.
  intros Hz. unfold BitLen, in64. destruct (Z.eqb_spec z 0) as [-> |]; [lia|]. rewrite Z.abs_eq by done.
  rewrite Z.log2_lt_pow2 by lia. pose proof (Z.log2_nonneg z). lia.
Qed.

(** More than eight bytes. *)
Lemma min_bytes_large z : 2 ^ 64 <= z -> 8 < Zlen (min_bytes z) /\ Zlen (min_bytes z) = (BitLen z + 7) / 8.
Proof.
  intros Hz. split.
  - destruct (Z.ltb_spec 8 (Zlen (min_bytes z))) as [|Hle]; [done|]. apply min_bytes_length in Hle; [|lia|lia]. change (256 ^ 8) with (2 ^ 64) in Hle. lia.
  - unfold min_bytes, Zlen. rewrite length_Z_to_bytes, Z2Nat.id; [done|]. apply Z.div_pos; [|lia]. unfold BitLen.
    destruct (_ =? _); [lia|]. pose proof (Z.log2_nonneg (Z.abs z)). lia.
Qed.

Lemma enc_str_large c : 8 < Zlen c -> enc_str c = puthead 0x80 0xB7 (Zlen c) ++ c.
Proof. destruct c as [|x [|y c]]; [done| |done]. unfold Zlen. cbn. lia. Qed.

Lemma land_shift x : Z.shiftr (Z.land x (-8)) 3 = x / 8.
Proof.
  rewrite Z.shiftr_land. change (Z.shiftr (-8) 3) with (-1). rewrite Z.land_m1_r, Z.shiftr_div_pow2 by lia. done.
Qed.

Lemma writeBigInt_min z buf : 0 <= z -> Zlen (enc_str (min_bytes z)) < 2 ^ 64 -> writeBigInt z buf = append_str (enc_str (min_bytes z)) buf.
Proof.
  intros Hz Hl. unfold writeBigInt. rewrite (Z.abs_eq z) by done. destruct (Z.leb_spec (BitLen z) 64) as [Hle|Hgt].
  - apply BitLen_64 in Hle; [|done]. rewrite u64_small by done. by apply writeUint64_min.
  - assert (Hbig : 2 ^ 64 <= z) by (destruct (Z.ltb_spec z (2 ^ 64)); [|lia]; pose proof (proj2 (BitLen_64 z Hz)); unfold in64 in *; lia).
    destruct (min_bytes_large z Hbig) as [H8 Hlen]. rewrite enc_str_large in Hl |- * by done. rewrite Zlen_app in Hl.
    pose proof (Zlen_nonneg (puthead 128 183 (Zlen (min_bytes z)))). rewrite land_shift, <- Hlen, encodeStringHeader_puthead, append_str_app by lia.
    assert (Hr : ReadBits z (Zlen (min_bytes z)) = min_bytes z) by (unfold ReadBits; by rewrite Z.abs_eq, Hlen). by rewrite Hr.
Qed.

Lemma drop_Z_to_bytes m n z : drop m (Z_to_bytes (m + n) z) = Z_to_bytes n z.
Proof.
  revert z. induction n as [|n IH]; intros z.
  - rewrite Nat.add_0_r. apply drop_ge. rewrite length_Z_to_bytes. lia.
  - rewrite Nat.add_succ_r. cbn [Z_to_bytes]. rewrite drop_app_le by (rewrite length_Z_to_bytes; lia). by rewrite IH.
Qed.

Lemma writeUint256_min z buf : in256 z -> writeUint256 z buf = append_str (enc_str (min_bytes z)) buf.
Proof.
  intros Hz. destruct (proj1 (in256_bytes z) Hz) as [H0 H32]. apply min_bytes_length in H32; [|done|lia]. unfold writeUint256.
  destruct (Z.leb_spec (BitLen z) 64) as [Hle|Hgt].
  - apply BitLen_64 in Hle; [|done]. rewrite u64_small by done. by apply writeUint64_min.
  - assert (Hbig : 2 ^ 64 <= z) by (destruct (Z.ltb_spec z (2 ^ 64)); [|lia]; pose proof (proj2 (BitLen_64 z H0)); unfold in64 in *; lia).
    destruct (min_bytes_large z Hbig) as [H8 Hlen]. rewrite enc_str_large by done. rewrite <- Hlen. set (n := Zlen (min_bytes z)) in *.
    assert (Hn : byte_of n = n) by (unfold byte_of; rewrite Z.mod_small; lia). rewrite Hn. cbv zeta.
    assert (Hh : puthead 0x80 0xB7 n = [byte_of (128 + n)]) by (unfold puthead; rewrite (proj2 (Z.ltb_lt _ _)) by lia; by rewrite Hn).
    rewrite Hh. cbn [app]. do 2 f_equal. replace 32%nat with ((32 - Z.to_nat n) + Z.to_nat n)%nat at 2 by lia. rewrite drop_Z_to_bytes.
    subst n. by rewrite Hlen.
Qed.

Lemma writeByteArray_enc b buf : Forall is_byte b -> Zlen b < 2 ^ 64 -> writeByteArray b buf = append_str (enc_str b) buf.
Proof.
  intros Hb Hl. destruct b as [|x [|y b]]; [done| |].
  - unfold writeByteArray, enc_str. by destruct (x <=? 127).
  - unfold writeByteArray, enc_str. pose proof (Zlen_nonneg (x :: y :: b)). rewrite encodeStringHeader_puthead by lia. by rewrite append_str_app.
Qed.

(** *** All types *)

Lemma any_wr v : any_typed v -> Zlen (enc (any_item v)) < 2 ^ 64 -> forall buf, writeInterface v buf = wr (any_item v) buf.
Proof.
  revert v. fix IH 1. intros [| | |b|l|]; try done. intros Ht Hl buf. cbn [writeInterface any_item]. apply wslice_wr.
  pose proof (enc_Lst_le (map any_item l)) as Hle. cbn [any_item] in Hl. cbn in Ht. generalize dependent (Zlen (enc (Lst (map any_item l)))). intros z Hz Hle.
  induction l as [|v l IHl]; constructor.
  - cbn in Hle. apply Forall_cons_1 in Hle as [Hv _]. apply IH; [apply Ht|lia].
  - cbn in Hle. apply Forall_cons_1 in Hle as [_ Hle]. apply IHl; [apply Ht|done].
Qed.

Lemma zip_writers ts l : Forall (fun t => forall v, typed t v -> Zlen (enc (to_item t v)) < 2 ^ 64 -> forall buf, writer t v buf = wr (to_item t v) buf) ts ->
  zip_typed typed ts l -> Forall (fun it => Zlen (enc it) < 2 ^ 64) (zip_items to_item ts l) ->
  Forall2 (fun w it => forall buf, w buf = wr it buf) ((fix go (ts : list rtype) (l : list rval) : list W :=
        match ts, l with
        | t :: ts, v :: l => writer t v :: go ts l
        | [], [] => []
        | _, _ => [fun _ => Panic]
        end) ts l) (zip_items to_item ts l).
Proof.
  intros IH. revert l. induction IH as [|t ts Ht _ IHts]; intros [|v l] Hz Hle; try done. destruct Hz as [Hv Hz].
  cbn in Hle. apply Forall_cons_1 in Hle as [H1 H2]. constructor; [by apply Ht|by apply IHts].
Qed.

Lemma map_writers t l : (forall v, typed t v -> Zlen (enc (to_item t v)) < 2 ^ 64 -> forall buf, writer t v buf = wr (to_item t v) buf) ->
  Forall (typed t) l -> Zlen (enc (Lst (map (to_item t) l))) < 2 ^ 64 -> Forall2 (fun w it => forall buf, w buf = wr it buf) (map (writer t) l) (map (to_item t) l).
Proof.
  intros IH Hl Hle. assert (Hall : Forall (fun it => Zlen (enc it) < 2 ^ 64) (map (to_item t) l)).
  { eapply Forall_impl; [|apply enc_Lst_le]. cbn beta. intros. lia. }
  clear Hle. induction Hl as [|v l Hv Hl IHl]; [constructor|]. cbn in Hall. apply Forall_cons_1 in Hall as [H1 H2]. constructor; [by apply IH|by apply IHl].
Qed.

Lemma writer_wr t : wf_type t = true -> forall v, typed t v -> Zlen (enc (to_item t v)) < 2 ^ 64 -> forall buf, writer t v buf = wr (to_item t v) buf.
Proof.
  induction t as [| |bits| | | |n|t IH|n t IH|ts IH|t IH|k t IH|] using rtype_ind'; intros Hw v Hv Hl buf; cbn [wf_type] in Hw.
  - destruct v as [|[z|]| | | |]; try done. cbn in Hv, Hl. cbn [to_item]. rewrite wr_str by done. cbn [writer writeBigIntPtr].
    rewrite (proj2 (Z.eqb_neq (Z.sgn z) (-1))) by lia. unfold wok. by rewrite writeBigInt_min.
  - destruct v; try done. cbn in Hv, Hl. cbn [to_item]. rewrite wr_str by done. cbn [writer]. unfold wok. by rewrite writeUint256_min.
  - destruct v as [z| | | | |]; try done. cbn in Hv, Hl. cbn [to_item]. rewrite wr_str by done. cbn [writer]. unfold wok. rewrite writeUint64_min; [done|].
    assert (2 ^ bits <= 2 ^ 64) by (apply Z.pow_le_mono_r; lia). unfold in64. lia.
  - destruct v as [| |b| | |]; try done. cbn [to_item]. rewrite wr_str; by destruct b.
  - by destruct v.
  - by destruct v.
  - destruct v as [| | |b| |]; try done. destruct Hv as [_ Hb]. cbn [to_item enc] in *. rewrite wr_str by done. cbn [writer]. unfold wok.
    rewrite writeByteArray_enc; [done|done|]. unfold enc_str in Hl. destruct b as [|x [|y b]]; [done|done|]. rewrite Zlen_app in Hl.
    pose proof (Zlen_nonneg (puthead 128 183 (Zlen (x :: y :: b)))). lia.
  - destruct v as [| | | |l|]; try done. apply wslice_wr, map_writers; auto.
  - destruct v as [| | | |l|]; try done. apply wslice_wr, map_writers; auto. apply Hv.
  - destruct v as [| | | |l|]; try done. cbn [typed to_item] in Hv, Hl. apply wlist_wr.
    + destruct ts, l; done.
    + apply zip_writers; [|done|eapply Forall_impl; [|apply enc_Lst_le]; cbn beta; intros; lia].
      assert (Hf : forallb wf_type ts = true) by (by destruct ts). clear -IH Hf. induction IH; [constructor|]. cbn in Hf. apply andb_prop in Hf as [? ?].
      constructor; auto.
  - destruct v as [| | | | |[v|]]; try done. by apply IH.
  - apply andb_prop in Hw as [Hk Hw]. destruct v as [| | | | |[v|]]; try done; [apply IH; [done|apply Hv|done]|]. destruct k; [by vm_compute in Hk| |done].
    cbn [to_item empty_item]. by rewrite wr_str.
  - by apply any_wr.
Qed.

Lemma EncodeToBytes_item t v : wf_type t = true -> typed t v -> Zlen (enc (to_item t v)) < 2 ^ 64 -> EncodeToBytes t v = Ret (inr (enc (to_item t v))).
Proof.
  intros Hw Hv Hl. unfold EncodeToBytes. rewrite writer_wr by done. unfold wr. pose proof (EncodeToBytes_enc _ Hl) as He. unfold Rlp.EncodeToBytes in He.
  destruct (write_item (to_item t v) reset) as [b| |]; [|done|done]. cbn [obind] in *. by rewrite He.
Qed.

Lemma bytes_forallb b : Forall is_byte b -> forallb (fun x => (0 <=? x) && (x <? 256)) b = true.
Proof. unfold is_byte. induction 1; [done|]. cbn. apply andb_true_intro. split; [lia|done]. Qed.

Lemma typed_bytes t v : typed t v -> item_bytes (to_item t v) = true.
Proof.
  revert v. induction t as [| |bits| | | |n|t IH|n t IH|ts IH|t IH|k t IH|] using rtype_ind'; intros v Hv;
    try (destruct v as [|[]| | | |]; try done; apply bytes_forallb, min_bytes_bytes).
  - by destruct v as [| |[]| | |].
  - destruct v; try done. by apply bytes_forallb.
  - destruct v; try done. by apply bytes_forallb.
  - destruct v; try done. by apply bytes_forallb, Hv.
  - destruct v as [| | | |l|]; try done. cbn in *. induction Hv; [done|]. cbn. by rewrite IH.
  - destruct v as [| | | |l|]; try done. destruct Hv as [_ Hv]. cbn in *. induction Hv; [done|]. cbn. by rewrite IH.
  - destruct v as [| | | |l|]; try done. cbn in *. revert l Hv. induction IH as [|t ts Ht _ IHts]; intros [|v l] Hv; try done. destruct Hv. cbn. rewrite Ht by done. by apply IHts.
  - destruct v as [| | | | |[v|]]; try done. by apply IH.
  - destruct v as [| | | | |[v|]]; try done; [apply IH, Hv|]. by destruct k.
  - cbn in *. revert v Hv. fix IH 1. intros [| | |b|l|] Hv; try done; [by apply bytes_forallb|]. cbn in *. induction l as [|v l IHl]; [done|].
    destruct Hv as [Hv Hl]. cbn. rewrite IH by done. by apply IHl.
Qed.

(** ** Decoding a slice *)

(** Every decoder looks at the kind first. *)
Lemma decoder_kind_err fuel t s e s' : Kind_ s = Ret (inl e, s') -> exists e', decoder (S fuel) t s = Ret (inl e', s').
Proof.
  intros Hk. assert (Hvia : forall A (body : Kind -> Z -> D A), via_kind body s = Ret (inl e, s')) by (intros; by apply dthen_err).
  assert (Hw : forall A B (m : D A) (k : A -> D B), m s = Ret (inl e, s') -> exists e', (letd x := wrapped m in k x) s = Ret (inl e', s')).
  { intros A B m k Hm. exists (wrapStreamError e). by apply dthen_err, wrapped_err. }
  induction t as [| |bits| | | |n|t IH|n t IH|ts IH|t IH|k t IH|] using rtype_ind'; cbn [decoder].
  - apply Hw. apply dthen_err, (Hvia _ (fun kind size => match kind with Byte => _ | String => _ | List => _ end)).
  - apply Hw. apply dthen_err, (Hvia _ (fun kind size => match kind with Byte => _ | String => _ | List => _ end)).
  - apply Hw, (Hvia _ (fun kind size => match kind with Byte => _ | String => _ | List => _ end)).
  - apply Hw. apply dthen_err, (Hvia _ (fun kind size => match kind with Byte => _ | String => _ | List => _ end)).
  - apply Hw, (Hvia _ (fun kind size => match kind with Byte => _ | String => _ | List => _ end)).
  - apply Hw, (Hvia _ (fun kind size => match kind with Byte => _ | String => _ | List => _ end)).
  - exists e. by apply dthen_err.
  - apply Hw, (Hvia _ (fun kind size => match kind with Byte => _ | String => _ | List => _ end)).
  - apply Hw, (Hvia _ (fun kind size => match kind with Byte => _ | String => _ | List => _ end)).
  - apply Hw, (Hvia _ (fun kind size => match kind with Byte => _ | String => _ | List => _ end)).
  - destruct IH as [e' He]. exists e'. by apply dthen_err.
  - by apply Hw.
  - exists e. by apply dthen_err.
Qed.

Lemma DecodeBytes_spec t b : wf_type t = true -> Forall is_byte b -> Zlen b < 2 ^ 63 ->
  exists r, DecodeBytes t b = Ret r /\ forall v, r = inr v <-> typed t v /\ b = enc (to_item t v).
Proof.
  intros Hw Hb Hl. destruct b as [|x b].
  { destruct (decoder_kind_err 0 t (Reset [] 0) EOF (with_s_kinderr (Some EOF) (with_s_size 0 (with_s_kind (Some Byte) (Reset [] 0)))) eq_refl) as [e He].
    exists (inl e). split; [unfold DecodeBytes; cbn [length]; change (Zlen []) with 0; rewrite He; done|]. intros v. split; [done|]. intros [_ Hv].
    pose proof (Zlen_enc_pos (to_item t v)) as Hp. by rewrite <- Hv in Hp. }
  set (b' := x :: b) in *. pose proof (decoder_codec (S (length b')) t Hw) as Hc.
  assert (Hs : Reset b' (Zlen b') = pos b' [] 0 None None 0) by (unfold Reset; rewrite (proj2 (Z.ltb_lt _ _)); [done|subst b'; rewrite Zlen_cons; pose proof (Zlen_nonneg b); lia]).
  assert (Hat : at_ (Reset b' (Zlen b')) b' []) by (rewrite Hs; apply at_pos). assert (Hok : input_ok b' []) by (by split_and!).
  destruct (c_run _ _ _ Hc _ b' [] Hat Hok ltac:(lia) (fun h => h)) as (r & s' & Hr & Hx).
  unfold DecodeBytes. rewrite Hr. cbn [obind]. eexists. split; [reflexivity|]. intros v. split.
  - destruct r as [e|v']; [done|]. destruct Hx as [(it & rest & [Ht ->] & Hbe & _ & (sz & ke & bv & ->))|(b1 & l & stk & _ & _ & _ & _ & Hne)]; [|done].
    cbn. destruct (Z.ltb_spec 0 (Zlen rest)) as [|Hz]; [done|]. intros [= <-]. destruct rest; [|rewrite Zlen_cons in Hz; pose proof (Zlen_nonneg rest); lia].
    split; [done|]. by rewrite app_nil_r in Hbe.
  - intros [Ht Hbe]. destruct (c_accept _ _ _ Hc _ b' [] v (to_item t v) [] Hat Hok ltac:(lia) ltac:(by split) ltac:(by rewrite app_nil_r) I) as (s2 & H2 & (sz & ke & bv & ->)).
    rewrite Hr in H2. by injection H2 as -> ->.
Qed.

(** [C31] The typed decoder accepts exactly the encodings: for every type of [rtype] and
    every byte slice, [DecodeBytes] returns (its loops end within the length of the
    input, nothing panics), and a value it returns has the type and is encoded by
    [EncodeToBytes] to exactly the given bytes.  So no two inputs decode to the same
    value of such a type, and a value of a list that overruns its enclosing list is never
    returned.  The types are built from integers, booleans, strings, byte slices and
    arrays, [any], slices, arrays, structs with fields of which none is optional or a tail,
    and pointers with or without a nil tag.  With an optional field the claim would fail: a nil one may
    be left out or be written as an empty value. *)
Theorem rlp_decode_canonical t b :
  wf_type t = true -> Forall is_byte b -> Zlen b < 2 ^ 63 ->
  exists r, DecodeBytes t b = Ret r /\ forall v, r = inr v -> typed t v /\ EncodeToBytes t v = Ret (inr b).
Proof.
  intros Hw Hb Hl. destruct (DecodeBytes_spec t b Hw Hb Hl) as (r & Hr & Hiff). exists r. split; [done|]. intros v Hv.
  apply Hiff in Hv as [Ht ->]. split; [done|]. apply EncodeToBytes_item; [done|done|lia].
Qed.

(** A pair of a 64-bit integer and a list of pointers to strings, nil as a string. *)
Definition demo_type : rtype := RStruct [RUint 64; RSlice (RNilPtr String RBytes)].
Definition demo_value : rval := VList [VUint 1024; VList [VPtr None; VPtr (Some (VBytes [1; 2]))]].

Lemma rlp_decode_canonical_witness :
  DecodeBytes demo_type [0xC8; 0x82; 4; 0; 0xC4; 0x80; 0x82; 1; 2] = Ret (inr demo_value) /\
  EncodeToBytes demo_type demo_value = Ret (inr [0xC8; 0x82; 4; 0; 0xC4; 0x80; 0x82; 1; 2]) /\
  exists e, DecodeBytes demo_type [0xC8; 0x82; 0; 4; 0xC4; 0x80; 0x82; 1; 2] = Ret (inl e).
Proof.
  assert (Hd : DecodeBytes demo_type [0xC8; 0x82; 4; 0; 0xC4; 0x80; 0x82; 1; 2] = Ret (inr demo_value)) by (vm_compute; reflexivity).
  split_and!; [exact Hd| |eexists; vm_compute; reflexivity].
  destruct (rlp_decode_canonical demo_type [0xC8; 0x82; 4; 0; 0xC4; 0x80; 0x82; 1; 2]) as (r & Hr & Hv).
  - reflexivity.
  - repeat constructor; lia.
  - unfold Zlen; simpl; lia.
  - rewrite Hr in Hd. injection Hd as ->. apply (Hv demo_value eq_refl).
Defined.

(** [C32] Values survive the round trip: every value of a type whose encoding fits
    into memory is written without error, and [DecodeBytes] reads it back. *)
Theorem rlp_encode_decode t v :
  wf_type t = true -> typed t v -> Zlen (enc (to_item t v)) < 2 ^ 63 ->
  exists b, EncodeToBytes t v = Ret (inr b) /\ DecodeBytes t b = Ret (inr v).
Proof.
  intros Hw Hv Hl. exists (enc (to_item t v)). split; [apply EncodeToBytes_item; [done|done|lia]|].
  destruct (DecodeBytes_spec t (enc (to_item t v)) Hw) as (r & Hr & Hiff); [apply item_bytes_enc; [by apply typed_bytes|lia]|done|].
  rewrite Hr. f_equal. by apply Hiff.
Qed.

Lemma rlp_encode_decode_witness :
  exists b, EncodeToBytes demo_type demo_value = Ret (inr b) /\ DecodeBytes demo_type b = Ret (inr demo_value).
Proof.
  apply rlp_encode_decode.
  - reflexivity.
  - repeat split; try lia; repeat constructor; lia.
  - vm_compute. reflexivity.
Defined.

(** Two lists are entered; the second size and the limits. *)
Definition enter_twice : D (Z * list Z) := letd _ := List_ in letd size := List_ in letd s := dget in dret (size, s_stack s).

(** A list may be entered that does not fit into the list around it: in the
    bytes C1 C1 00 the outer list has one byte of content, the header of the inner
    list, which announces another.  [Kind] compares that size with the limit from
    before the header was read, so the second [List] succeeds and leaves a limit
    of 2^64 - 1 for the outer list; the input is refused where it ends, not with
    [ErrElemTooLarge] where the inner list starts. *)
Theorem stream_list_overrun :
  enter_twice (Reset [0xC1; 0xC1; 0] 3) =
    Ret (inr (1, [1; 2 ^ 64 - 1]), mkStream [0] 1 0 None [1; 2 ^ 64 - 1] None 0 true) /\
  DecodeBytes RAny [0xC1; 0xC1; 0] = Ret (inl ErrValueTooLarge).
Proof. split; vm_compute; reflexivity. Qed.
