(* ===== verification/StateTypes.v ===== *)
(** * Data of the state component (core/state, core/types)

    Accounts, logs, state objects, journal entries and the [StateDB] record, with
    the interfaces it reads from: hashing, the trie database and the snapshot.
    Addresses and hashes are their big-endian integer values; slices that the
    code distinguishes from [nil] are options. *)

From S2P Require Import Prelude Rlp VMCommon AccessList.

(** ** External interfaces *)

(** crypto.Keccak256Hash, provided by golang.org/x/crypto. *)
Class Crypto : Type := { Keccak256Hash : list Z -> Z }.
Class CryptoSpec (C : Crypto) : Prop := { keccak_in256 : forall b, in256 (Keccak256Hash b) }.

(** types.StateAccount *)
Record StateAccount : Type := mkAccount { Nonce : Z; Balance : Z; Root : Z; CodeHash : list Z }.

(** types.SlimAccount *)
Record SlimAccount : Type := mkSlim { slNonce : Z; slBalance : Z; slRoot : list Z; slCodeHash : list Z }.

#[export] Instance StateAccount_dec : EqDecision StateAccount.
Proof. solve_decision. Defined.

(** The interfaces [Database], [Trie] (core/state/database.go) and [Snapshot]
    (core/state/snapshot): reads return a value or an error.  A nil [snap] is
    [None]. *)
Class Database : Type := {
  Trie : Type;
  DbError : Type;
  GetAccount : Trie -> Z -> DbError + option StateAccount;
  GetStorage : Trie -> Z -> list Z -> DbError + list Z;
  UpdateAccount : Trie -> Z -> StateAccount -> Trie * option DbError;
  DeleteAccount : Trie -> Z -> Trie * option DbError;
  UpdateStorage : Trie -> Z -> list Z -> list Z -> Trie * option DbError;
  DeleteStorage : Trie -> Z -> list Z -> Trie * option DbError;
  TrieHash : Trie -> Z;
  OpenStorageTrie : Z -> Z -> Z -> DbError + Trie;
  ContractCode : Z -> Z -> option (list Z) * option DbError;
  ContractCodeSize : Z -> Z -> Z * option DbError;
  snap : option ((Z -> DbError + option SlimAccount) * (Z -> Z -> list Z * option DbError));
  rlpError : rlp_error -> DbError
}.

(** What the state component relies on: account records carry a 32-byte code hash. *)
Definition code_hash_ok (h : list Z) : Prop := Forall is_byte h /\ length h = 32%nat.
Class DatabaseSpec (D : Database) : Prop := {
  GetAccount_ok : forall t a acct, GetAccount t a = inr (Some acct) -> code_hash_ok (CodeHash acct);
  snap_ok : forall sa ss h acct, snap = Some (sa, ss) -> sa h = inr (Some acct) ->
    slCodeHash acct = [] \/ code_hash_ok (slCodeHash acct)
}.

(** ** Accounts (core/types/state_account.go) *)

(** types.EmptyRootHash and types.EmptyCodeHash. *)
Definition EmptyRootHash : Z := 0x56e81f171bcc55a6ff8345e692c0f86e5b48e01b996cadc001622fb5e363b421.

Section Accounts.
Context {C : Crypto}.

Definition EmptyCodeHash : Z := Keccak256Hash [].

Definition NewEmptyStateAccount : StateAccount :=
  mkAccount 0 0 EmptyRootHash (HashBytes EmptyCodeHash).

(** [rlp.EncodeToBytes] of the slim struct; encoding a negative balance fails,
    and [SlimAccountRLP] panics on errors. *)
Definition SlimAccountRLP (account : StateAccount) : outcome (list Z) :=
  let root := if Root account =? EmptyRootHash then [] else HashBytes (Root account) in
  let codeHash := if bool_decide (CodeHash account = HashBytes EmptyCodeHash)
                  then [] else CodeHash account in
  if Balance account <? 0 then Panic
  else
    let (listOffset, buf) := Rlp.list_begin Rlp.reset in
    let buf := Rlp.writeUint64 (Nonce account) buf in
    let buf := Rlp.writeBigInt (Balance account) buf in
    let buf := Rlp.writeBytes root buf in
    let buf := Rlp.writeBytes codeHash buf in
    let! buf := Rlp.listEnd listOffset buf in
    Rlp.makeBytes buf.

(** [acct.Copy()]: a copy of immutable values. *)
Definition StateAccount_Copy (acct : StateAccount) : StateAccount :=
  mkAccount (Nonce acct) (Balance acct) (Root acct) (CodeHash acct).

End Accounts.

Definition with_Balance (b : Z) (a : StateAccount) : StateAccount :=
  mkAccount (Nonce a) b (Root a) (CodeHash a).
Definition with_Nonce (n : Z) (a : StateAccount) : StateAccount :=
  mkAccount n (Balance a) (Root a) (CodeHash a).
Definition with_Root (r : Z) (a : StateAccount) : StateAccount :=
  mkAccount (Nonce a) (Balance a) r (CodeHash a).
Definition with_CodeHash (h : list Z) (a : StateAccount) : StateAccount :=
  mkAccount (Nonce a) (Balance a) (Root a) h.

(** types.Log *)
Record Log : Type := mkLog {
  lgAddress : Z; lgTopics : list Z; lgData : list Z; lgBlockNumber : Z;
  lgTxHash : Z; lgTxIndex : Z; lgBlockHash : Z; lgIndex : Z
}.

Record revision : Type := mkRevision { rev_id : Z; journalIndex : Z }.

Section StateTypes.
Context {D : Database}.

(** ** State objects (core/state/state_object.go) *)

Record stateObject : Type := mkObject {
  so_address : Z;
  so_addrHash : Z;
  so_origin : option StateAccount;
  so_data : StateAccount;
  so_trie : option Trie;
  so_code : option (list Z);
  so_originStorage : gmap Z Z;
  so_pendingStorage : gmap Z Z;
  so_dirtyStorage : gmap Z Z;
  so_dirtyCode : bool;
  so_deleted : bool;
  so_created : bool
}.

Definition with_so_address (x : Z) (r : stateObject) : stateObject :=
  mkObject x (so_addrHash r) (so_origin r) (so_data r) (so_trie r) (so_code r) (so_originStorage r) (so_pendingStorage r) (so_dirtyStorage r) (so_dirtyCode r) (so_deleted r) (so_created r).
Definition with_so_addrHash (x : Z) (r : stateObject) : stateObject :=
  mkObject (so_address r) x (so_origin r) (so_data r) (so_trie r) (so_code r) (so_originStorage r) (so_pendingStorage r) (so_dirtyStorage r) (so_dirtyCode r) (so_deleted r) (so_created r).
Definition with_so_origin (x : option StateAccount) (r : stateObject) : stateObject :=
  mkObject (so_address r) (so_addrHash r) x (so_data r) (so_trie r) (so_code r) (so_originStorage r) (so_pendingStorage r) (so_dirtyStorage r) (so_dirtyCode r) (so_deleted r) (so_created r).
Definition with_so_data (x : StateAccount) (r : stateObject) : stateObject :=
  mkObject (so_address r) (so_addrHash r) (so_origin r) x (so_trie r) (so_code r) (so_originStorage r) (so_pendingStorage r) (so_dirtyStorage r) (so_dirtyCode r) (so_deleted r) (so_created r).
Definition with_so_trie (x : option Trie) (r : stateObject) : stateObject :=
  mkObject (so_address r) (so_addrHash r) (so_origin r) (so_data r) x (so_code r) (so_originStorage r) (so_pendingStorage r) (so_dirtyStorage r) (so_dirtyCode r) (so_deleted r) (so_created r).
Definition with_so_code (x : option (list Z)) (r : stateObject) : stateObject :=
  mkObject (so_address r) (so_addrHash r) (so_origin r) (so_data r) (so_trie r) x (so_originStorage r) (so_pendingStorage r) (so_dirtyStorage r) (so_dirtyCode r) (so_deleted r) (so_created r).
Definition with_so_originStorage (x : gmap Z Z) (r : stateObject) : stateObject :=
  mkObject (so_address r) (so_addrHash r) (so_origin r) (so_data r) (so_trie r) (so_code r) x (so_pendingStorage r) (so_dirtyStorage r) (so_dirtyCode r) (so_deleted r) (so_created r).
Definition with_so_pendingStorage (x : gmap Z Z) (r : stateObject) : stateObject :=
  mkObject (so_address r) (so_addrHash r) (so_origin r) (so_data r) (so_trie r) (so_code r) (so_originStorage r) x (so_dirtyStorage r) (so_dirtyCode r) (so_deleted r) (so_created r).
Definition with_so_dirtyStorage (x : gmap Z Z) (r : stateObject) : stateObject :=
  mkObject (so_address r) (so_addrHash r) (so_origin r) (so_data r) (so_trie r) (so_code r) (so_originStorage r) (so_pendingStorage r) x (so_dirtyCode r) (so_deleted r) (so_created r).
Definition with_so_dirtyCode (x : bool) (r : stateObject) : stateObject :=
  mkObject (so_address r) (so_addrHash r) (so_origin r) (so_data r) (so_trie r) (so_code r) (so_originStorage r) (so_pendingStorage r) (so_dirtyStorage r) x (so_deleted r) (so_created r).
Definition with_so_deleted (x : bool) (r : stateObject) : stateObject :=
  mkObject (so_address r) (so_addrHash r) (so_origin r) (so_data r) (so_trie r) (so_code r) (so_originStorage r) (so_pendingStorage r) (so_dirtyStorage r) (so_dirtyCode r) x (so_created r).
Definition with_so_created (x : bool) (r : stateObject) : stateObject :=
  mkObject (so_address r) (so_addrHash r) (so_origin r) (so_data r) (so_trie r) (so_code r) (so_originStorage r) (so_pendingStorage r) (so_dirtyStorage r) (so_dirtyCode r) (so_deleted r) x.

(** ** Journal (core/state/journal.go) *)

Inductive journalEntry : Type :=
| createObjectChange (account : Z)
| resetObjectChange (account : Z) (prev : stateObject) (prevdestruct : bool)
    (prevAccount : option (list Z)) (prevStorage : option (gmap Z (option (list Z))))
    (prevAccountOriginExist : bool) (prevAccountOrigin : option (list Z))
    (prevStorageOrigin : option (gmap Z (option (list Z))))
| balanceChange (account prev : Z)
| nonceChange (account prev : Z)
| storageChange (account key prevalue : Z)
| codeChange (account : Z) (prevcode : option (list Z)) (prevhash : list Z)
| refundChange (prev : Z)
| addLogChange (txhash : Z)
| addPreimageChange (hash : Z)
| touchChange (account : Z)
| accessListAddAccountChange (address : Z)
| accessListAddSlotChange (address slot : Z).

(** Entries are kept newest first; the source's index [i] is counted from the end. *)
Record journal : Type := mkJournal { entries : list journalEntry; dirties : gmap Z Z }.

Definition newJournal : journal := mkJournal [] ∅.

Definition dirtied (e : journalEntry) : option Z :=
  match e with
  | createObjectChange a | resetObjectChange a _ _ _ _ _ _ _ | balanceChange a _
  | nonceChange a _ | storageChange a _ _ | codeChange a _ _ | touchChange a => Some a
  | refundChange _ | addLogChange _ | addPreimageChange _
  | accessListAddAccountChange _ | accessListAddSlotChange _ _ => None
  end.

Definition journal_append (e : journalEntry) (j : journal) : journal :=
  mkJournal (e :: entries j)
    (match dirtied e with
     | Some a => <[a := default 0 (dirties j !! a) + 1]> (dirties j)
     | None => dirties j
     end).

Definition journal_length (j : journal) : Z := Zlen (entries j).

(** ** StateDB (core/state/statedb.go) *)

Record StateDB : Type := mkStateDB {
  db_trie : Trie;
  db_originalRoot : Z;
  db_accounts : gmap Z (list Z);
  db_storages : gmap Z (gmap Z (option (list Z)));
  db_accountsOrigin : gmap Z (option (list Z));
  db_storagesOrigin : gmap Z (gmap Z (option (list Z)));
  db_stateObjects : gmap Z stateObject;
  db_stateObjectsPending : gset Z;
  db_stateObjectsDirty : gset Z;
  db_stateObjectsDestruct : gmap Z (option StateAccount);
  db_dbErr : option DbError;
  db_refund : Z;
  db_thash : Z;
  db_txIndex : Z;
  db_logs : gmap Z (list Log);
  db_logSize : Z;
  db_preimages : gmap Z (list Z);
  db_accessList : AccessList.accessList;
  db_journal : journal;
  db_validRevisions : list revision;
  db_nextRevisionId : Z
}.

Definition with_db_trie (x : Trie) (r : StateDB) : StateDB :=
  mkStateDB x (db_originalRoot r) (db_accounts r) (db_storages r) (db_accountsOrigin r) (db_storagesOrigin r) (db_stateObjects r) (db_stateObjectsPending r) (db_stateObjectsDirty r) (db_stateObjectsDestruct r) (db_dbErr r) (db_refund r) (db_thash r) (db_txIndex r) (db_logs r) (db_logSize r) (db_preimages r) (db_accessList r) (db_journal r) (db_validRevisions r) (db_nextRevisionId r).
Definition with_db_originalRoot (x : Z) (r : StateDB) : StateDB :=
  mkStateDB (db_trie r) x (db_accounts r) (db_storages r) (db_accountsOrigin r) (db_storagesOrigin r) (db_stateObjects r) (db_stateObjectsPending r) (db_stateObjectsDirty r) (db_stateObjectsDestruct r) (db_dbErr r) (db_refund r) (db_thash r) (db_txIndex r) (db_logs r) (db_logSize r) (db_preimages r) (db_accessList r) (db_journal r) (db_validRevisions r) (db_nextRevisionId r).
Definition with_db_accounts (x : gmap Z (list Z)) (r : StateDB) : StateDB :=
  mkStateDB (db_trie r) (db_originalRoot r) x (db_storages r) (db_accountsOrigin r) (db_storagesOrigin r) (db_stateObjects r) (db_stateObjectsPending r) (db_stateObjectsDirty r) (db_stateObjectsDestruct r) (db_dbErr r) (db_refund r) (db_thash r) (db_txIndex r) (db_logs r) (db_logSize r) (db_preimages r) (db_accessList r) (db_journal r) (db_validRevisions r) (db_nextRevisionId r).
Definition with_db_storages (x : gmap Z (gmap Z (option (list Z)))) (r : StateDB) : StateDB :=
  mkStateDB (db_trie r) (db_originalRoot r) (db_accounts r) x (db_accountsOrigin r) (db_storagesOrigin r) (db_stateObjects r) (db_stateObjectsPending r) (db_stateObjectsDirty r) (db_stateObjectsDestruct r) (db_dbErr r) (db_refund r) (db_thash r) (db_txIndex r) (db_logs r) (db_logSize r) (db_preimages r) (db_accessList r) (db_journal r) (db_validRevisions r) (db_nextRevisionId r).
Definition with_db_accountsOrigin (x : gmap Z (option (list Z))) (r : StateDB) : StateDB :=
  mkStateDB (db_trie r) (db_originalRoot r) (db_accounts r) (db_storages r) x (db_storagesOrigin r) (db_stateObjects r) (db_stateObjectsPending r) (db_stateObjectsDirty r) (db_stateObjectsDestruct r) (db_dbErr r) (db_refund r) (db_thash r) (db_txIndex r) (db_logs r) (db_logSize r) (db_preimages r) (db_accessList r) (db_journal r) (db_validRevisions r) (db_nextRevisionId r).
Definition with_db_storagesOrigin (x : gmap Z (gmap Z (option (list Z)))) (r : StateDB) : StateDB :=
  mkStateDB (db_trie r) (db_originalRoot r) (db_accounts r) (db_storages r) (db_accountsOrigin r) x (db_stateObjects r) (db_stateObjectsPending r) (db_stateObjectsDirty r) (db_stateObjectsDestruct r) (db_dbErr r) (db_refund r) (db_thash r) (db_txIndex r) (db_logs r) (db_logSize r) (db_preimages r) (db_accessList r) (db_journal r) (db_validRevisions r) (db_nextRevisionId r).
Definition with_db_stateObjects (x : gmap Z stateObject) (r : StateDB) : StateDB :=
  mkStateDB (db_trie r) (db_originalRoot r) (db_accounts r) (db_storages r) (db_accountsOrigin r) (db_storagesOrigin r) x (db_stateObjectsPending r) (db_stateObjectsDirty r) (db_stateObjectsDestruct r) (db_dbErr r) (db_refund r) (db_thash r) (db_txIndex r) (db_logs r) (db_logSize r) (db_preimages r) (db_accessList r) (db_journal r) (db_validRevisions r) (db_nextRevisionId r).
Definition with_db_stateObjectsPending (x : gset Z) (r : StateDB) : StateDB :=
  mkStateDB (db_trie r) (db_originalRoot r) (db_accounts r) (db_storages r) (db_accountsOrigin r) (db_storagesOrigin r) (db_stateObjects r) x (db_stateObjectsDirty r) (db_stateObjectsDestruct r) (db_dbErr r) (db_refund r) (db_thash r) (db_txIndex r) (db_logs r) (db_logSize r) (db_preimages r) (db_accessList r) (db_journal r) (db_validRevisions r) (db_nextRevisionId r).
Definition with_db_stateObjectsDirty (x : gset Z) (r : StateDB) : StateDB :=
  mkStateDB (db_trie r) (db_originalRoot r) (db_accounts r) (db_storages r) (db_accountsOrigin r) (db_storagesOrigin r) (db_stateObjects r) (db_stateObjectsPending r) x (db_stateObjectsDestruct r) (db_dbErr r) (db_refund r) (db_thash r) (db_txIndex r) (db_logs r) (db_logSize r) (db_preimages r) (db_accessList r) (db_journal r) (db_validRevisions r) (db_nextRevisionId r).
Definition with_db_stateObjectsDestruct (x : gmap Z (option StateAccount)) (r : StateDB) : StateDB :=
  mkStateDB (db_trie r) (db_originalRoot r) (db_accounts r) (db_storages r) (db_accountsOrigin r) (db_storagesOrigin r) (db_stateObjects r) (db_stateObjectsPending r) (db_stateObjectsDirty r) x (db_dbErr r) (db_refund r) (db_thash r) (db_txIndex r) (db_logs r) (db_logSize r) (db_preimages r) (db_accessList r) (db_journal r) (db_validRevisions r) (db_nextRevisionId r).
Definition with_db_dbErr (x : option DbError) (r : StateDB) : StateDB :=
  mkStateDB (db_trie r) (db_originalRoot r) (db_accounts r) (db_storages r) (db_accountsOrigin r) (db_storagesOrigin r) (db_stateObjects r) (db_stateObjectsPending r) (db_stateObjectsDirty r) (db_stateObjectsDestruct r) x (db_refund r) (db_thash r) (db_txIndex r) (db_logs r) (db_logSize r) (db_preimages r) (db_accessList r) (db_journal r) (db_validRevisions r) (db_nextRevisionId r).
Definition with_db_refund (x : Z) (r : StateDB) : StateDB :=
  mkStateDB (db_trie r) (db_originalRoot r) (db_accounts r) (db_storages r) (db_accountsOrigin r) (db_storagesOrigin r) (db_stateObjects r) (db_stateObjectsPending r) (db_stateObjectsDirty r) (db_stateObjectsDestruct r) (db_dbErr r) x (db_thash r) (db_txIndex r) (db_logs r) (db_logSize r) (db_preimages r) (db_accessList r) (db_journal r) (db_validRevisions r) (db_nextRevisionId r).
Definition with_db_thash (x : Z) (r : StateDB) : StateDB :=
  mkStateDB (db_trie r) (db_originalRoot r) (db_accounts r) (db_storages r) (db_accountsOrigin r) (db_storagesOrigin r) (db_stateObjects r) (db_stateObjectsPending r) (db_stateObjectsDirty r) (db_stateObjectsDestruct r) (db_dbErr r) (db_refund r) x (db_txIndex r) (db_logs r) (db_logSize r) (db_preimages r) (db_accessList r) (db_journal r) (db_validRevisions r) (db_nextRevisionId r).
Definition with_db_txIndex (x : Z) (r : StateDB) : StateDB :=
  mkStateDB (db_trie r) (db_originalRoot r) (db_accounts r) (db_storages r) (db_accountsOrigin r) (db_storagesOrigin r) (db_stateObjects r) (db_stateObjectsPending r) (db_stateObjectsDirty r) (db_stateObjectsDestruct r) (db_dbErr r) (db_refund r) (db_thash r) x (db_logs r) (db_logSize r) (db_preimages r) (db_accessList r) (db_journal r) (db_validRevisions r) (db_nextRevisionId r).
Definition with_db_logs (x : gmap Z (list Log)) (r : StateDB) : StateDB :=
  mkStateDB (db_trie r) (db_originalRoot r) (db_accounts r) (db_storages r) (db_accountsOrigin r) (db_storagesOrigin r) (db_stateObjects r) (db_stateObjectsPending r) (db_stateObjectsDirty r) (db_stateObjectsDestruct r) (db_dbErr r) (db_refund r) (db_thash r) (db_txIndex r) x (db_logSize r) (db_preimages r) (db_accessList r) (db_journal r) (db_validRevisions r) (db_nextRevisionId r).
Definition with_db_logSize (x : Z) (r : StateDB) : StateDB :=
  mkStateDB (db_trie r) (db_originalRoot r) (db_accounts r) (db_storages r) (db_accountsOrigin r) (db_storagesOrigin r) (db_stateObjects r) (db_stateObjectsPending r) (db_stateObjectsDirty r) (db_stateObjectsDestruct r) (db_dbErr r) (db_refund r) (db_thash r) (db_txIndex r) (db_logs r) x (db_preimages r) (db_accessList r) (db_journal r) (db_validRevisions r) (db_nextRevisionId r).
Definition with_db_preimages (x : gmap Z (list Z)) (r : StateDB) : StateDB :=
  mkStateDB (db_trie r) (db_originalRoot r) (db_accounts r) (db_storages r) (db_accountsOrigin r) (db_storagesOrigin r) (db_stateObjects r) (db_stateObjectsPending r) (db_stateObjectsDirty r) (db_stateObjectsDestruct r) (db_dbErr r) (db_refund r) (db_thash r) (db_txIndex r) (db_logs r) (db_logSize r) x (db_accessList r) (db_journal r) (db_validRevisions r) (db_nextRevisionId r).
Definition with_db_accessList (x : AccessList.accessList) (r : StateDB) : StateDB :=
  mkStateDB (db_trie r) (db_originalRoot r) (db_accounts r) (db_storages r) (db_accountsOrigin r) (db_storagesOrigin r) (db_stateObjects r) (db_stateObjectsPending r) (db_stateObjectsDirty r) (db_stateObjectsDestruct r) (db_dbErr r) (db_refund r) (db_thash r) (db_txIndex r) (db_logs r) (db_logSize r) (db_preimages r) x (db_journal r) (db_validRevisions r) (db_nextRevisionId r).
Definition with_db_journal (x : journal) (r : StateDB) : StateDB :=
  mkStateDB (db_trie r) (db_originalRoot r) (db_accounts r) (db_storages r) (db_accountsOrigin r) (db_storagesOrigin r) (db_stateObjects r) (db_stateObjectsPending r) (db_stateObjectsDirty r) (db_stateObjectsDestruct r) (db_dbErr r) (db_refund r) (db_thash r) (db_txIndex r) (db_logs r) (db_logSize r) (db_preimages r) (db_accessList r) x (db_validRevisions r) (db_nextRevisionId r).
Definition with_db_validRevisions (x : list revision) (r : StateDB) : StateDB :=
  mkStateDB (db_trie r) (db_originalRoot r) (db_accounts r) (db_storages r) (db_accountsOrigin r) (db_storagesOrigin r) (db_stateObjects r) (db_stateObjectsPending r) (db_stateObjectsDirty r) (db_stateObjectsDestruct r) (db_dbErr r) (db_refund r) (db_thash r) (db_txIndex r) (db_logs r) (db_logSize r) (db_preimages r) (db_accessList r) (db_journal r) x (db_nextRevisionId r).
Definition with_db_nextRevisionId (x : Z) (r : StateDB) : StateDB :=
  mkStateDB (db_trie r) (db_originalRoot r) (db_accounts r) (db_storages r) (db_accountsOrigin r) (db_storagesOrigin r) (db_stateObjects r) (db_stateObjectsPending r) (db_stateObjectsDirty r) (db_stateObjectsDestruct r) (db_dbErr r) (db_refund r) (db_thash r) (db_txIndex r) (db_logs r) (db_logSize r) (db_preimages r) (db_accessList r) (db_journal r) (db_validRevisions r) x.

End StateTypes.

