(* ===== verification/Demo.v ===== *)
(** * A concrete backing store

    A small instance of the interfaces the state component is parametric in: a
    trie is a finite map, hashing is an injective toy function.  The witnesses
    of the theorems run the model on it. *)

From S2P Require Import Prelude Rlp VMCommon StateTypes.

Definition demo_crypto : Crypto := {| Keccak256Hash b := (bytes_to_Z (1 :: b)) mod 2 ^ 256 |}.

Lemma demo_crypto_ok : CryptoSpec demo_crypto.
Proof. split. intros b. unfold in256. cbn. apply Z.mod_pos_bound. lia. Qed.

Record demo_trie : Type := mkDemoTrie { dtAccounts : gmap Z StateAccount; dtStorage : gmap (Z * list Z) (list Z) }.

(** Only well-formed accounts are handed out. *)
Definition demo_account (t : demo_trie) (a : Z) : option StateAccount :=
  match dtAccounts t !! a with
  | Some acct => if decide (Forall is_byte (CodeHash acct) /\ length (CodeHash acct) = 32%nat) then Some acct else None
  | None => None
  end.

Definition demo_database : Database := {|
  Trie := demo_trie;
  DbError := rlp_error;
  GetAccount t a := inr (demo_account t a);
  GetStorage t a k := inr (default [] (dtStorage t !! (a, k)));
  UpdateAccount t a acct := (mkDemoTrie (<[a := acct]> (dtAccounts t)) (dtStorage t), None);
  DeleteAccount t a := (mkDemoTrie (delete a (dtAccounts t)) (dtStorage t), None);
  UpdateStorage t a k v := (mkDemoTrie (dtAccounts t) (<[(a, k) := v]> (dtStorage t)), None);
  DeleteStorage t a k := (mkDemoTrie (dtAccounts t) (delete (a, k) (dtStorage t)), None);
  TrieHash t := Z.of_nat (size (dtAccounts t));
  OpenStorageTrie _ _ _ := inr (mkDemoTrie ∅ ∅);
  ContractCode _ _ := (None, None);
  ContractCodeSize _ _ := (0, None);
  snap := None;
  rlpError e := e
|}.

Lemma demo_database_ok : DatabaseSpec demo_database.
Proof.
  split; [|done]. intros t a acct. cbn. unfold demo_account. destruct (dtAccounts t !! a); [|done].
  case_decide; [|done]. by intros [= <-].
Qed.
