(* ===== verification/StateObject.v ===== *)
(** * State objects (core/state/state_object.go)

    The methods of a live account.  A method receives the object, performs its
    effects on the [StateDB] (journal, error, the live object map, which holds the
    pointer's target) and returns the object as it is afterwards. *)

From S2P Require Import Prelude Rlp VMCommon StateTypes.

Section ObjectPrimitives.
Context {C : Crypto} {D : Database}.

(** [setError]: remember the first error. *)
Definition setError (err : DbError) : M StateDB unit :=
  mmodify (fun s => match db_dbErr s with None => with_db_dbErr (Some err) s | Some _ => s end).

(** [s.journal.append]. *)
Definition jappend (e : journalEntry) : M StateDB unit :=
  mmodify (fun s => with_db_journal (journal_append e (db_journal s)) s).

(** [setStateObject]; also the write through an object pointer, since every
    object a method runs on is the live one at its address. *)
Definition setStateObject (o : stateObject) : M StateDB unit :=
  mmodify (fun s => with_db_stateObjects (<[so_address o := o]> (db_stateObjects s)) s).

Definition newObject (address : Z) (acct : option StateAccount) : stateObject :=
  mkObject address (Keccak256Hash (AddressBytes address)) acct
    (match acct with Some a => a | None => NewEmptyStateAccount end)
    None None ∅ ∅ ∅ false false false.

(** [value.SetBytes(b)] on a hash: the low bytes are overwritten. *)
Definition Hash_SetBytes (h : Z) (b : list Z) : Z :=
  if 32 <=? Zlen b then BytesToHash b
  else h - h mod 256 ^ Zlen b + bytes_to_Z b.

End ObjectPrimitives.

Module StateObject.

Section Methods.
Context {C : Crypto} {D : Database}.

Definition empty (o : stateObject) : bool :=
  (Nonce (so_data o) =? 0) && (Balance (so_data o) =? 0) &&
  bool_decide (CodeHash (so_data o) = HashBytes EmptyCodeHash).

Definition touch (o : stateObject) : M StateDB unit := jappend (touchChange (so_address o)).

(** [getTrie], without a running prefetcher. *)
Definition getTrie (o : stateObject) : M StateDB ((DbError + Trie) * stateObject) :=
  match so_trie o with
  | Some tr => mret (inr tr, o)
  | None =>
      let* s := mget in
      match OpenStorageTrie (db_originalRoot s) (so_address o) (Root (so_data o)) with
      | inl err => mret (inl err, o)
      | inr tr =>
          let o := with_so_trie (Some tr) o in
          setStateObject o ;;; mret (inr tr, o)
      end
  end.

(** The snapshot part of [GetCommittedState]: the value read and the read error. *)
Definition snapStorage (o : stateObject) (key : Z) : M StateDB (Z * option DbError) :=
  match snap with
  | None => mret (0, None)
  | Some (_, storage) =>
      let (en, err) := storage (so_addrHash o) (Keccak256Hash (HashBytes key)) in
      if 0 <? Zlen en then
        let* r := mlift (Rlp.Split en) in
        match r with
        | inl e => setError (rlpError e) ;;; mret (0, err)
        | inr (_, content, _) => mret (Hash_SetBytes 0 content, err)
        end
      else mret (0, err)
  end.

(** [s.originStorage[key] = value; return value]. *)
Definition cacheStorage (o : stateObject) (key value : Z) : M StateDB (Z * stateObject) :=
  let o := with_so_originStorage (<[key := value]> (so_originStorage o)) o in
  setStateObject o ;;; mret (value, o).

(** The trie part of [GetCommittedState]. *)
Definition trieStorage (o : stateObject) (key value : Z) : M StateDB (Z * stateObject) :=
  let* (tr, o) := getTrie o in
  match tr with
  | inl err => setError err ;;; mret (0, o)
  | inr tr =>
      match GetStorage tr (so_address o) (HashBytes key) with
      | inl err => setError err ;;; mret (0, o)
      | inr val => cacheStorage o key (Hash_SetBytes value val)
      end
  end.

Definition GetCommittedState (o : stateObject) (key : Z) : M StateDB (Z * stateObject) :=
  match so_pendingStorage o !! key with
  | Some value => mret (value, o)
  | None =>
  match so_originStorage o !! key with
  | Some value => mret (value, o)
  | None =>
      let* s := mget in
      match db_stateObjectsDestruct s !! so_address o with
      | Some _ => mret (0, o)
      | None =>
          let* (value, err) := snapStorage o key in
          match snap, err with
          | Some _, None => cacheStorage o key value
          | _, _ => trieStorage o key value
          end
      end
  end
  end.

Definition GetState (o : stateObject) (key : Z) : M StateDB (Z * stateObject) :=
  match so_dirtyStorage o !! key with
  | Some value => mret (value, o)
  | None => GetCommittedState o key
  end.

Definition setState (o : stateObject) (key value : Z) : M StateDB stateObject :=
  let o := with_so_dirtyStorage (<[key := value]> (so_dirtyStorage o)) o in
  setStateObject o ;;; mret o.

Definition SetState (o : stateObject) (key value : Z) : M StateDB stateObject :=
  let* (prev, o) := GetState o key in
  if prev =? value then mret o
  else
    jappend (storageChange (so_address o) key prev) ;;;
    setState o key value.

(** [finalise]: dirty slots become pending (the prefetcher is not modelled). *)
Definition finalise (o : stateObject) : M StateDB stateObject :=
  let o := with_so_pendingStorage (so_dirtyStorage o ∪ so_pendingStorage o) o in
  let o := with_so_dirtyStorage ∅ o in
  setStateObject o ;;; mret o.

Definition setBalance (o : stateObject) (amount : Z) : M StateDB stateObject :=
  let o := with_so_data (with_Balance amount (so_data o)) o in
  setStateObject o ;;; mret o.

Definition SetBalance (o : stateObject) (amount : Z) : M StateDB stateObject :=
  jappend (balanceChange (so_address o) (Balance (so_data o))) ;;;
  setBalance o amount.

Definition AddBalance (o : stateObject) (amount : Z) : M StateDB stateObject :=
  if Z.sgn amount =? 0 then
    (if empty o then touch o ;;; mret o else mret o)
  else SetBalance o (Balance (so_data o) + amount).

Definition SubBalance (o : stateObject) (amount : Z) : M StateDB stateObject :=
  if Z.sgn amount =? 0 then mret o
  else SetBalance o (Balance (so_data o) - amount).

Definition setNonce (o : stateObject) (nonce : Z) : M StateDB stateObject :=
  let o := with_so_data (with_Nonce nonce (so_data o)) o in
  setStateObject o ;;; mret o.

Definition SetNonce (o : stateObject) (nonce : Z) : M StateDB stateObject :=
  jappend (nonceChange (so_address o) (Nonce (so_data o))) ;;;
  setNonce o nonce.

Definition Code (o : stateObject) : M StateDB (option (list Z) * stateObject) :=
  match so_code o with
  | Some code => mret (Some code, o)
  | None =>
      if bool_decide (CodeHash (so_data o) = HashBytes EmptyCodeHash) then mret (None, o)
      else
        let (code, err) := ContractCode (so_address o) (BytesToHash (CodeHash (so_data o))) in
        match err with Some e => setError e | None => mret tt end ;;;
        let o := with_so_code code o in
        setStateObject o ;;; mret (code, o)
  end.

Definition CodeSize (o : stateObject) : M StateDB Z :=
  match so_code o with
  | Some code => mret (Zlen code)
  | None =>
      if bool_decide (CodeHash (so_data o) = HashBytes EmptyCodeHash) then mret 0
      else
        let (size, err) := ContractCodeSize (so_address o) (BytesToHash (CodeHash (so_data o))) in
        match err with Some e => setError e | None => mret tt end ;;;
        mret size
  end.

Definition setCode (o : stateObject) (codeHash : Z) (code : option (list Z)) : M StateDB stateObject :=
  let o := with_so_code code o in
  let o := with_so_data (with_CodeHash (HashBytes codeHash) (so_data o)) o in
  let o := with_so_dirtyCode true o in
  setStateObject o ;;; mret o.

Definition SetCode (o : stateObject) (codeHash : Z) (code : option (list Z)) : M StateDB stateObject :=
  let* (prevcode, o) := Code o in
  jappend (codeChange (so_address o) prevcode (CodeHash (so_data o))) ;;;
  setCode o codeHash code.

(** [deepCopy]: the copy of the trie is a value; [created] is not copied. *)
Definition deepCopy (o : stateObject) : stateObject :=
  with_so_created false o.

(** ** Writing storage to the trie *)

(** [common.TrimLeftZeroes]. *)
Fixpoint TrimLeftZeroes (s : list Z) : list Z :=
  match s with
  | [] => []
  | x :: rest => if x =? 0 then TrimLeftZeroes rest else s
  end.

(** One iteration of the loop of [updateTrie]: [inr] is the object afterwards,
    [inl] the error that ends the loop. *)
Definition updateSlot (o : stateObject) (tr : Trie) (key value : Z)
    : M StateDB (DbError + (stateObject * Trie)) :=
  let prev := default 0 (so_originStorage o !! key) in
  if value =? prev then mret (inr (o, tr))
  else
    let o := with_so_originStorage (<[key := value]> (so_originStorage o)) o in
    let* enc := (if value =? 0 then mret None
                 else let* e := mlift (Rlp.EncodeToBytes (Rlp.Str (TrimLeftZeroes (HashBytes value)))) in
                      mret (Some e)) in
    let (tr, err) :=
      if value =? 0 then DeleteStorage tr (so_address o) (HashBytes key)
      else UpdateStorage tr (so_address o) (HashBytes key) (TrimLeftZeroes (HashBytes value)) in
    let o := with_so_trie (Some tr) o in
    setStateObject o ;;;
    match err with
    | Some e => setError e ;;; mret (inl e)
    | None =>
        let khash := Keccak256Hash (HashBytes key) in
        mmodify (fun s => with_db_storages
          (<[so_addrHash o := <[khash := enc]> (default ∅ (db_storages s !! so_addrHash o))]> (db_storages s)) s) ;;;
        let* s := mget in
        let origin := default ∅ (db_storagesOrigin s !! so_address o) in
        let* origin :=
          (match origin !! khash with
           | Some _ => mret origin
           | None =>
               if prev =? 0 then mret (<[khash := None]> origin)
               else let* b := mlift (Rlp.EncodeToBytes (Rlp.Str (TrimLeftZeroes (HashBytes prev)))) in
                    mret (<[khash := Some b]> origin)
           end) in
        mmodify (fun s => with_db_storagesOrigin (<[so_address o := origin]> (db_storagesOrigin s)) s) ;;;
        mret (inr (o, tr))
    end.

Fixpoint updateSlots (o : stateObject) (tr : Trie) (l : list (Z * Z))
    : M StateDB (DbError + (stateObject * Trie)) :=
  match l with
  | [] => mret (inr (o, tr))
  | (key, value) :: l =>
      let* r := updateSlot o tr key value in
      match r with
      | inl e => mret (inl e)
      | inr (o, tr) => updateSlots o tr l
      end
  end.

(** [updateTrie]; the map of pending slots is visited in the order of
    [map_to_list].  A nil trie is [None]. *)
Definition updateTrie (o : stateObject) : M StateDB (DbError + (option Trie * stateObject)) :=
  let* o := finalise o in
  if bool_decide (so_pendingStorage o = ∅) then mret (inr (so_trie o, o))
  else
    let* (tr, o) := getTrie o in
    match tr with
    | inl err => setError err ;;; mret (inl err)
    | inr tr =>
        let* r := updateSlots o tr (map_to_list (so_pendingStorage o)) in
        match r with
        | inl e => mret (inl e)
        | inr (o, tr) =>
            let o := with_so_pendingStorage ∅ o in
            setStateObject o ;;; mret (inr (Some tr, o))
        end
    end.

Definition updateRoot (o : stateObject) : M StateDB unit :=
  let* r := updateTrie o in
  match r with
  | inr (Some tr, o) => setStateObject (with_so_data (with_Root (TrieHash tr) (so_data o)) o)
  | _ => mret tt
  end.

End Methods.

End StateObject.
