(* ===== verification/StateDB.v ===== *)
(** * StateDB (core/state/statedb.go, core/state/journal.go)

    The state database of a block: live objects over a trie or snapshot, the
    journal with its revert operations, snapshots, access list, refunds, logs and
    preimages, and the end-of-transaction finalisation. *)

From S2P Require Import Prelude Rlp VMCommon AccessList StateTypes StateObject.

(** ** [sort.Search] *)

Fixpoint Search_loop (fuel : nat) (f : Z -> bool) (i j : Z) : outcome Z :=
  match fuel with
  | O => OutOfFuel
  | S fuel =>
      if i <? j then
        let h := Z.shiftr (i + j) 1 in
        if negb (f h) then Search_loop fuel f (h + 1) j else Search_loop fuel f i h
      else Ret i
  end.

(** The interval shrinks in every iteration. *)
Definition sort_Search (n : Z) (f : Z -> bool) : outcome Z := Search_loop (S (Z.to_nat n)) f 0 n.

Module StateDB.

Section Methods.
Context {C : Crypto} {D : Database}.

(** ** Objects *)

(** The account record of a snapshot entry. *)
Definition slimData (acc : SlimAccount) : StateAccount :=
  let root := BytesToHash (slRoot acc) in
  mkAccount (slNonce acc) (slBalance acc)
    (if root =? 0 then EmptyRootHash else root)
    (if Zlen (slCodeHash acc) =? 0 then HashBytes EmptyCodeHash else slCodeHash acc).

Definition getDeletedStateObject (addr : Z) : M StateDB (option stateObject) :=
  let* s := mget in
  match db_stateObjects s !! addr with
  | Some obj => mret (Some obj)
  | None =>
      let insert (data : StateAccount) :=
        let obj := newObject addr (Some data) in
        setStateObject obj ;;; mret (Some obj) in
      let fromTrie :=
        match GetAccount (db_trie s) addr with
        | inl err => setError err ;;; mret None
        | inr None => mret None
        | inr (Some data) => insert data
        end in
      match snap with
      | None => fromTrie
      | Some (account, _) =>
          match account (Keccak256Hash (AddressBytes addr)) with
          | inl _ => fromTrie
          | inr None => mret None
          | inr (Some acc) => insert (slimData acc)
          end
      end
  end.

Definition getStateObject (addr : Z) : M StateDB (option stateObject) :=
  let* obj := getDeletedStateObject addr in
  mret (match obj with
        | Some o => if so_deleted o then None else Some o
        | None => None
        end).

(** [createObject]: the new object and the live object it replaces. *)
Definition createObject (addr : Z) : M StateDB (stateObject * option stateObject) :=
  let* prev := getDeletedStateObject addr in
  let newobj := newObject addr None in
  (match prev with
   | None => jappend (createObjectChange addr)
   | Some prev =>
       let* s := mget in
       let prevdestruct := bool_decide (is_Some (db_stateObjectsDestruct s !! so_address prev)) in
       (if prevdestruct then mret tt
        else mmodify (fun s => with_db_stateObjectsDestruct
               (<[so_address prev := so_origin prev]> (db_stateObjectsDestruct s)) s)) ;;;
       let* s := mget in
       jappend (resetObjectChange addr prev prevdestruct
         (db_accounts s !! so_addrHash prev)
         (db_storages s !! so_addrHash prev)
         (bool_decide (is_Some (db_accountsOrigin s !! so_address prev)))
         (default None (db_accountsOrigin s !! so_address prev))
         (db_storagesOrigin s !! so_address prev)) ;;;
       mmodify (fun s => with_db_accounts (delete (so_addrHash prev) (db_accounts s)) s) ;;;
       mmodify (fun s => with_db_storages (delete (so_addrHash prev) (db_storages s)) s) ;;;
       mmodify (fun s => with_db_accountsOrigin (delete (so_address prev) (db_accountsOrigin s)) s) ;;;
       mmodify (fun s => with_db_storagesOrigin (delete (so_address prev) (db_storagesOrigin s)) s)
   end) ;;;
  let newobj := with_so_created true newobj in
  setStateObject newobj ;;;
  mret (newobj, match prev with
                | Some p => if so_deleted p then None else Some p
                | None => None
                end).

Definition GetOrNewStateObject (addr : Z) : M StateDB stateObject :=
  let* o := getStateObject addr in
  match o with
  | Some o => mret o
  | None => let* (newobj, _) := createObject addr in mret newobj
  end.

Definition CreateAccount (addr : Z) : M StateDB unit :=
  let* (newObj, prev) := createObject addr in
  match prev with
  | Some prev => StateObject.setBalance newObj (Balance (so_data prev)) ;;; mret tt
  | None => mret tt
  end.

(** ** Getters *)

Definition Exist (addr : Z) : M StateDB bool :=
  let* o := getStateObject addr in
  mret (match o with Some _ => true | None => false end).

Definition Empty (addr : Z) : M StateDB bool :=
  let* so := getStateObject addr in
  mret (match so with Some so => StateObject.empty so | None => true end).

Definition GetBalance (addr : Z) : M StateDB Z :=
  let* o := getStateObject addr in
  mret (match o with Some o => Balance (so_data o) | None => 0 end).

Definition GetNonce (addr : Z) : M StateDB Z :=
  let* o := getStateObject addr in
  mret (match o with Some o => Nonce (so_data o) | None => 0 end).

Definition GetStorageRoot (addr : Z) : M StateDB Z :=
  let* o := getStateObject addr in
  mret (match o with Some o => Root (so_data o) | None => 0 end).

Definition GetCode (addr : Z) : M StateDB (option (list Z)) :=
  let* o := getStateObject addr in
  match o with
  | Some o => let* (code, _) := StateObject.Code o in mret code
  | None => mret None
  end.

Definition GetCodeSize (addr : Z) : M StateDB Z :=
  let* o := getStateObject addr in
  match o with Some o => StateObject.CodeSize o | None => mret 0 end.

Definition GetCodeHash (addr : Z) : M StateDB Z :=
  let* o := getStateObject addr in
  mret (match o with Some o => BytesToHash (CodeHash (so_data o)) | None => 0 end).

Definition GetState (addr hash : Z) : M StateDB Z :=
  let* o := getStateObject addr in
  match o with
  | Some o => let* (v, _) := StateObject.GetState o hash in mret v
  | None => mret 0
  end.

Definition GetCommittedState (addr hash : Z) : M StateDB Z :=
  let* o := getStateObject addr in
  match o with
  | Some o => let* (v, _) := StateObject.GetCommittedState o hash in mret v
  | None => mret 0
  end.

Definition GetRefund : M StateDB Z := let* s := mget in mret (db_refund s).

(** ** Setters *)

Definition AddBalance (addr amount : Z) : M StateDB unit :=
  let* o := GetOrNewStateObject addr in StateObject.AddBalance o amount ;;; mret tt.

Definition SubBalance (addr amount : Z) : M StateDB unit :=
  let* o := GetOrNewStateObject addr in StateObject.SubBalance o amount ;;; mret tt.

Definition SetBalance (addr amount : Z) : M StateDB unit :=
  let* o := GetOrNewStateObject addr in StateObject.SetBalance o amount ;;; mret tt.

Definition SetNonce (addr nonce : Z) : M StateDB unit :=
  let* o := GetOrNewStateObject addr in StateObject.SetNonce o nonce ;;; mret tt.

Definition SetCode (addr : Z) (code : option (list Z)) : M StateDB unit :=
  let* o := GetOrNewStateObject addr in
  StateObject.SetCode o (Keccak256Hash (default [] code)) code ;;; mret tt.

Definition SetState (addr key value : Z) : M StateDB unit :=
  let* o := GetOrNewStateObject addr in StateObject.SetState o key value ;;; mret tt.

Definition AddLog (lg : Log) : M StateDB unit :=
  let* s := mget in
  jappend (addLogChange (db_thash s)) ;;;
  let lg := mkLog (lgAddress lg) (lgTopics lg) (lgData lg) (lgBlockNumber lg)
              (db_thash s) (u64 (db_txIndex s)) (lgBlockHash lg) (db_logSize s) in
  mmodify (fun s => with_db_logs
    (<[db_thash s := default [] (db_logs s !! db_thash s) ++ [lg]]> (db_logs s)) s) ;;;
  mmodify (fun s => with_db_logSize (u64 (db_logSize s + 1)) s).

(** [GetLogs] annotates the stored logs in place. *)
Definition GetLogs (hash blockNumber blockHash : Z) : M StateDB (list Log) :=
  let annotate l := mkLog (lgAddress l) (lgTopics l) (lgData l) blockNumber
                      (lgTxHash l) (lgTxIndex l) blockHash (lgIndex l) in
  let* s := mget in
  match db_logs s !! hash with
  | None => mret []
  | Some logs =>
      mput (with_db_logs (<[hash := map annotate logs]> (db_logs s)) s) ;;;
      mret (map annotate logs)
  end.

Definition AddPreimage (hash : Z) (preimage : list Z) : M StateDB unit :=
  let* s := mget in
  match db_preimages s !! hash with
  | Some _ => mret tt
  | None =>
      jappend (addPreimageChange hash) ;;;
      mmodify (fun s => with_db_preimages (<[hash := preimage]> (db_preimages s)) s)
  end.

Definition AddRefund (gas : Z) : M StateDB unit :=
  let* s := mget in
  jappend (refundChange (db_refund s)) ;;;
  mmodify (fun s => with_db_refund (u64 (db_refund s + gas)) s).

Definition SubRefund (gas : Z) : M StateDB unit :=
  let* s := mget in
  jappend (refundChange (db_refund s)) ;;;
  (if db_refund s <? gas then mpanic
   else mmodify (fun s => with_db_refund (db_refund s - gas) s)).

(** ** Access list *)

Definition AddAddressToAccessList (addr : Z) : M StateDB unit :=
  let* s := mget in
  let (ch, al) := AccessList.AddAddress addr (db_accessList s) in
  mput (with_db_accessList al s) ;;;
  (if ch then jappend (accessListAddAccountChange addr) else mret tt).

Definition AddSlotToAccessList (addr slot : Z) : M StateDB unit :=
  let* s := mget in
  let* (ch, al) := mlift (AccessList.AddSlot addr slot (db_accessList s)) in
  let (addrMod, slotMod) := ch : bool * bool in
  mput (with_db_accessList al s) ;;;
  (if addrMod then jappend (accessListAddAccountChange addr) else mret tt) ;;;
  (if slotMod then jappend (accessListAddSlotChange addr slot) else mret tt).

Definition AddressInAccessList (addr : Z) : M StateDB bool :=
  let* s := mget in mret (AccessList.ContainsAddress (db_accessList s) addr).

Definition SlotInAccessList (addr slot : Z) : M StateDB (bool * bool) :=
  let* s := mget in mlift (AccessList.Contains (db_accessList s) addr slot).

(** [al.AddSlot] for every key of an access tuple, then for every tuple. *)
Fixpoint addSlots (addr : Z) (keys : list Z) (al : AccessList.accessList) : outcome AccessList.accessList :=
  match keys with
  | [] => Ret al
  | key :: keys => let! (_, al) := AccessList.AddSlot addr key al in addSlots addr keys al
  end.

Fixpoint addTuples (l : list (Z * list Z)) (al : AccessList.accessList) : outcome AccessList.accessList :=
  match l with
  | [] => Ret al
  | (addr, keys) :: l =>
      let al := snd (AccessList.AddAddress addr al) in
      let! al := addSlots addr keys al in
      addTuples l al
  end.

Definition Prepare (sender coinbase : Z) (dst : option Z) (precompiles : list Z)
    (txAccesses : list (Z * list Z)) : M StateDB unit :=
  let al := AccessList.newAccessList in
  let al := snd (AccessList.AddAddress sender al) in
  let al := match dst with Some d => snd (AccessList.AddAddress d al) | None => al end in
  let al := fold_left (fun al a => snd (AccessList.AddAddress a al)) precompiles al in
  let* al := mlift (addTuples txAccesses al) in
  let al := snd (AccessList.AddAddress coinbase al) in
  mmodify (with_db_accessList al).

Definition SetTxContext (thash ti : Z) : M StateDB unit :=
  mmodify (fun s => with_db_txIndex ti (with_db_thash thash s)).

(** ** Journal and snapshots *)

(** Run a pointer method on the live object, panicking on nil. *)
Definition on_object (addr : Z) (f : stateObject -> M StateDB stateObject) : M StateDB unit :=
  let* o := getStateObject addr in
  match o with Some o => f o ;;; mret tt | None => mpanic end.

(** The [revert] methods of the journal entries. *)
Definition revert_entry (e : journalEntry) : M StateDB unit :=
  match e with
  | createObjectChange a =>
      mmodify (fun s => with_db_stateObjects (delete a (db_stateObjects s)) s) ;;;
      mmodify (fun s => with_db_stateObjectsDirty (db_stateObjectsDirty s ∖ {[a]}) s)
  | resetObjectChange _ prev prevdestruct prevAccount prevStorage prevAccountOriginExist
      prevAccountOrigin prevStorageOrigin =>
      setStateObject prev ;;;
      (if prevdestruct then mret tt
       else mmodify (fun s => with_db_stateObjectsDestruct
              (delete (so_address prev) (db_stateObjectsDestruct s)) s)) ;;;
      (match prevAccount with
       | Some x => mmodify (fun s => with_db_accounts (<[so_addrHash prev := x]> (db_accounts s)) s)
       | None => mret tt
       end) ;;;
      (match prevStorage with
       | Some x => mmodify (fun s => with_db_storages (<[so_addrHash prev := x]> (db_storages s)) s)
       | None => mret tt
       end) ;;;
      (if prevAccountOriginExist
       then mmodify (fun s => with_db_accountsOrigin
              (<[so_address prev := prevAccountOrigin]> (db_accountsOrigin s)) s)
       else mret tt) ;;;
      (match prevStorageOrigin with
       | Some x => mmodify (fun s => with_db_storagesOrigin (<[so_address prev := x]> (db_storagesOrigin s)) s)
       | None => mret tt
       end)
  | balanceChange a prev => on_object a (fun o => StateObject.setBalance o prev)
  | nonceChange a prev => on_object a (fun o => StateObject.setNonce o prev)
  | storageChange a key prevalue => on_object a (fun o => StateObject.setState o key prevalue)
  | codeChange a prevcode prevhash =>
      on_object a (fun o => StateObject.setCode o (BytesToHash prevhash) prevcode)
  | refundChange prev => mmodify (with_db_refund prev)
  | addLogChange txhash =>
      let* s := mget in
      let logs := default [] (db_logs s !! txhash) in
      (if Zlen logs =? 1
       then mmodify (fun s => with_db_logs (delete txhash (db_logs s)) s)
       else let* logs' := mlift (go_slice logs 0 (Zlen logs - 1)) in
            mmodify (fun s => with_db_logs (<[txhash := logs']> (db_logs s)) s)) ;;;
      mmodify (fun s => with_db_logSize (u64 (db_logSize s - 1)) s)
  | addPreimageChange hash =>
      mmodify (fun s => with_db_preimages (delete hash (db_preimages s)) s)
  | touchChange _ => mret tt
  | accessListAddAccountChange a =>
      mmodify (fun s => with_db_accessList (AccessList.DeleteAddress a (db_accessList s)) s)
  | accessListAddSlotChange a slot =>
      let* s := mget in
      let* al := mlift (AccessList.DeleteSlot a slot (db_accessList s)) in
      mput (with_db_accessList al s)
  end.

(** [if j.dirties[*addr]--; j.dirties[*addr] == 0 { delete(...) }] *)
Definition drop_dirty (e : journalEntry) (d : gmap Z Z) : gmap Z Z :=
  match dirtied e with
  | None => d
  | Some a =>
      let n := default 0 (d !! a) - 1 in
      if n =? 0 then delete a d else <[a := n]> d
  end.

(** One iteration of [journal.revert]'s loop; the entry leaves the list at the
    end of the loop in the source and here with its iteration, which no [revert]
    method observes. *)
Definition revert_step (e : journalEntry) : M StateDB unit :=
  revert_entry e ;;;
  mmodify (fun s => with_db_journal
    (mkJournal (tail (entries (db_journal s))) (drop_dirty e (dirties (db_journal s)))) s).

Fixpoint revert_entries (es : list journalEntry) : M StateDB unit :=
  match es with
  | [] => mret tt
  | e :: es => revert_step e ;;; revert_entries es
  end.

Definition journal_revert (snapshot : Z) : M StateDB unit :=
  let* s := mget in
  let n := journal_length (db_journal s) in
  if (snapshot <? 0) || (n <? snapshot) then mpanic
  else revert_entries (take (Z.to_nat (n - snapshot)) (entries (db_journal s))).

Definition Snapshot : M StateDB Z :=
  let* s := mget in
  let id := db_nextRevisionId s in
  let s := with_db_nextRevisionId (id + 1) s in
  mput (with_db_validRevisions
    (db_validRevisions s ++ [mkRevision id (journal_length (db_journal s))]) s) ;;;
  mret id.

Definition RevertToSnapshot (revid : Z) : M StateDB unit :=
  let* s := mget in
  let revs := db_validRevisions s in
  let* idx := mlift (sort_Search (Zlen revs) (fun i =>
    match revs !! Z.to_nat i with Some r => revid <=? rev_id r | None => false end)) in
  if idx =? Zlen revs then mpanic
  else
    let* r := mlift (go_index revs idx) in
    if negb (rev_id r =? revid) then mpanic
    else
      journal_revert (journalIndex r) ;;;
      mmodify (fun s => with_db_validRevisions (take (Z.to_nat idx) (db_validRevisions s)) s).

Definition clearJournalAndRefund : M StateDB unit :=
  let* s := mget in
  (if 0 <? journal_length (db_journal s)
   then mput (with_db_refund 0 (with_db_journal newJournal s))
   else mret tt) ;;;
  mmodify (with_db_validRevisions []).

(** ** End of transaction *)

(** One iteration of [Finalise] over the dirty accounts. *)
Definition finalise_one (deleteEmptyObjects : bool) (addr : Z) : M StateDB unit :=
  let* s := mget in
  match db_stateObjects s !! addr with
  | None => mret tt
  | Some obj =>
      let* obj :=
        (if deleteEmptyObjects && StateObject.empty obj then
           let obj := with_so_deleted true obj in
           setStateObject obj ;;;
           mmodify (fun s =>
             match db_stateObjectsDestruct s !! so_address obj with
             | Some _ => s
             | None => with_db_stateObjectsDestruct
                         (<[so_address obj := so_origin obj]> (db_stateObjectsDestruct s)) s
             end) ;;;
           mmodify (fun s => with_db_accounts (delete (so_addrHash obj) (db_accounts s)) s) ;;;
           mmodify (fun s => with_db_storages (delete (so_addrHash obj) (db_storages s)) s) ;;;
           mmodify (fun s => with_db_accountsOrigin (delete (so_address obj) (db_accountsOrigin s)) s) ;;;
           mmodify (fun s => with_db_storagesOrigin (delete (so_address obj) (db_storagesOrigin s)) s) ;;;
           mret obj
         else StateObject.finalise obj) in
      setStateObject (with_so_created false obj) ;;;
      mmodify (fun s => with_db_stateObjectsPending ({[addr]} ∪ db_stateObjectsPending s) s) ;;;
      mmodify (fun s => with_db_stateObjectsDirty ({[addr]} ∪ db_stateObjectsDirty s) s)
  end.

(** A loop over the keys of a Go map, in some order. *)
Fixpoint for_each (l : list Z) (f : Z -> M StateDB unit) : M StateDB unit :=
  match l with
  | [] => mret tt
  | a :: l => f a ;;; for_each l f
  end.

Definition Finalise (deleteEmptyObjects : bool) : M StateDB unit :=
  let* s := mget in
  for_each (map fst (map_to_list (dirties (db_journal s)))) (finalise_one deleteEmptyObjects) ;;;
  clearJournalAndRefund.

Definition updateStateObject (obj : stateObject) : M StateDB unit :=
  let* s := mget in
  let addr := so_address obj in
  let (tr, err) := UpdateAccount (db_trie s) addr (so_data obj) in
  mput (with_db_trie tr s) ;;;
  (match err with Some e => setError e | None => mret tt end) ;;;
  let* slim := mlift (SlimAccountRLP (so_data obj)) in
  mmodify (fun s => with_db_accounts (<[so_addrHash obj := slim]> (db_accounts s)) s) ;;;
  let* s := mget in
  match db_accountsOrigin s !! addr with
  | Some _ => mret tt
  | None =>
      let* v := (match so_origin obj with
                 | None => mret None
                 | Some o => let* b := mlift (SlimAccountRLP o) in mret (Some b)
                 end) in
      mmodify (fun s => with_db_accountsOrigin (<[addr := v]> (db_accountsOrigin s)) s)
  end.

Definition deleteStateObject (obj : stateObject) : M StateDB unit :=
  let* s := mget in
  let (tr, err) := DeleteAccount (db_trie s) (so_address obj) in
  mput (with_db_trie tr s) ;;;
  (match err with Some e => setError e | None => mret tt end).

(** [IntermediateRoot], without a running prefetcher; an address pending without
    an object is a nil dereference. *)
Definition IntermediateRoot (deleteEmptyObjects : bool) : M StateDB Z :=
  Finalise deleteEmptyObjects ;;;
  let* s := mget in
  let pending := elements (db_stateObjectsPending s) in
  for_each pending (fun addr =>
    let* s := mget in
    match db_stateObjects s !! addr with
    | None => mpanic
    | Some obj => if so_deleted obj then mret tt else StateObject.updateRoot obj
    end) ;;;
  for_each pending (fun addr =>
    let* s := mget in
    match db_stateObjects s !! addr with
    | None => mpanic
    | Some obj => if so_deleted obj then deleteStateObject obj else updateStateObject obj
    end) ;;;
  mmodify (with_db_stateObjectsPending ∅) ;;;
  let* s := mget in
  mret (TrieHash (db_trie s)).

(** ** Copy *)

(** [state.stateObjects[addr] = s.stateObjects[addr].deepCopy(state)] for the
    addresses not yet copied; a missing object is a nil dereference. *)
Fixpoint copy_objects (src : gmap Z stateObject) (l : list Z) (dst : gmap Z stateObject)
    : outcome (gmap Z stateObject) :=
  match l with
  | [] => Ret dst
  | a :: l =>
      match dst !! a with
      | Some _ => copy_objects src l dst
      | None =>
          match src !! a with
          | None => Panic
          | Some o => copy_objects src l (<[a := StateObject.deepCopy o]> dst)
          end
      end
  end.

(** [Copy]: [accountsOrigin] and [storagesOrigin] are copied from the new state
    itself, which is empty, as in the source. *)
Definition Copy (s : StateDB) : outcome StateDB :=
  let dirty := filter (fun a => is_Some (db_stateObjects s !! a)) (dom (dirties (db_journal s))) in
  let objs := StateObject.deepCopy <$>
    filter (fun p => is_Some (dirties (db_journal s) !! p.1)) (db_stateObjects s) in
  let! objs := copy_objects (db_stateObjects s) (elements (db_stateObjectsPending s)) objs in
  let! objs := copy_objects (db_stateObjects s) (elements (db_stateObjectsDirty s)) objs in
  Ret (mkStateDB (db_trie s) (db_originalRoot s)
    (db_accounts s) (db_storages s) ∅ ∅
    objs (dirty ∪ db_stateObjectsPending s) (dirty ∪ db_stateObjectsDirty s)
    (db_stateObjectsDestruct s)
    None (db_refund s) 0 0 (db_logs s) (db_logSize s) (db_preimages s)
    (AccessList.Copy (db_accessList s)) newJournal [] 0).

(** [New], with the opened account trie. *)
Definition New (root : Z) (tr : Trie) : StateDB :=
  mkStateDB tr root ∅ ∅ ∅ ∅ ∅ ∅ ∅ ∅ None 0 0 0 ∅ 0 ∅ AccessList.newAccessList newJournal [] 0.

End Methods.

End StateDB.
