(* ===== verification/StateRevert.v ===== *)
(** * Reverting to a snapshot (core/state/journal.go, core/state/statedb.go)

    Reads fill caches (live objects, storage slots, code, tries) and may record a
    database error, so a revert cannot restore the very record.  It restores the
    state up to [eqv]: every account, slot, code, log, refund, access list entry
    and bookkeeping map reads the same. *)

From S2P Require Import Prelude Rlp VMCommon AccessList StateTypes StateObject StateDB Demo.

Section StateRevert.
Context {C : Crypto} {D : Database}.

#[local] Arguments setError : simpl never.
#[local] Arguments setStateObject : simpl never.
#[local] Arguments jappend : simpl never.

(** ** What can be observed of a state *)

(** The account the backing store holds at an address. *)
Definition read_account (tr : Trie) (a : Z) : option StateAccount :=
  let fromTrie := match GetAccount tr a with inr acct => acct | inl _ => None end in
  match snap with
  | None => fromTrie
  | Some (account, _) =>
      match account (Keccak256Hash (AddressBytes a)) with
      | inl _ => fromTrie
      | inr acc => StateDB.slimData <$> acc
      end
  end.

(** The object at an address, live or loaded; deleted objects included. *)
Definition find_object (s : StateDB) (a : Z) : option stateObject :=
  match db_stateObjects s !! a with
  | Some o => Some o
  | None => (fun acct => newObject a (Some acct)) <$> read_account (db_trie s) a
  end.

(** The value the snapshot holds for a slot, with the read error. *)
Definition snap_view (o : stateObject) (key : Z) : outcome (Z * option DbError) :=
  match snap with
  | None => Ret (0, None)
  | Some (_, storage) =>
      let (en, err) := storage (so_addrHash o) (Keccak256Hash (HashBytes key)) in
      if 0 <? Zlen en then
        let! r := Rlp.Split en in
        Ret (match r with inl _ => (0, err) | inr (_, content, _) => (Hash_SetBytes 0 content, err) end)
      else Ret (0, err)
  end.

(** The trie of an object, open or to be opened. *)
Definition trie_of (s : StateDB) (o : stateObject) : DbError + Trie :=
  match so_trie o with
  | Some tr => inr tr
  | None => OpenStorageTrie (db_originalRoot s) (so_address o) (Root (so_data o))
  end.

(** The value the storage trie holds for a slot, written over [value]. *)
Definition trie_view (s : StateDB) (o : stateObject) (key value : Z) : outcome Z :=
  match trie_of s o with
  | inl _ => Ret 0
  | inr tr => match GetStorage tr (so_address o) (HashBytes key) with
              | inl _ => Ret 0
              | inr val => Ret (Hash_SetBytes value val)
              end
  end.

Definition storage_view (s : StateDB) (o : stateObject) (key : Z) : outcome Z :=
  match db_stateObjectsDestruct s !! so_address o with
  | Some _ => Ret 0
  | None =>
      let! (value, err) := snap_view o key in
      match snap, err with
      | Some _, None => Ret value
      | _, _ =>
          trie_view s o key value
      end
  end.

Definition committed_view (s : StateDB) (o : stateObject) (key : Z) : outcome Z :=
  match so_pendingStorage o !! key with
  | Some v => Ret v
  | None => match so_originStorage o !! key with
            | Some v => Ret v
            | None => storage_view s o key
            end
  end.

Definition state_view (s : StateDB) (o : stateObject) (key : Z) : outcome Z :=
  match so_dirtyStorage o !! key with Some v => Ret v | None => committed_view s o key end.

Definition code_view (o : stateObject) : option (list Z) :=
  match so_code o with
  | Some c => Some c
  | None =>
      if bool_decide (CodeHash (so_data o) = HashBytes EmptyCodeHash) then None
      else fst (ContractCode (so_address o) (BytesToHash (CodeHash (so_data o))))
  end.

(** Two objects that read the same. *)
Record obj_eqv (s : StateDB) (o o' : stateObject) : Prop := {
  oe_address : so_address o = so_address o';
  oe_addrHash : so_addrHash o = so_addrHash o';
  oe_origin : so_origin o = so_origin o';
  oe_data : so_data o = so_data o';
  oe_deleted : so_deleted o = so_deleted o';
  oe_created : so_created o = so_created o';
  oe_code : code_view o = code_view o';
  oe_committed : forall k, committed_view s o k = committed_view s o' k;
  oe_state : forall k, state_view s o k = state_view s o' k
}.

(** Everything but the object caches, the recorded error and the revisions. *)
Definition core (s : StateDB) :=
  (db_trie s, db_originalRoot s, db_accounts s, db_storages s, db_accountsOrigin s, db_storagesOrigin s,
   db_stateObjectsPending s, db_stateObjectsDirty s, db_stateObjectsDestruct s, db_refund s,
   (db_thash s, db_txIndex s, db_logs s, db_logSize s, db_preimages s, db_accessList s, db_journal s)).

Definition opt_eqv (s : StateDB) (o o' : option stateObject) : Prop :=
  match o, o' with
  | Some o, Some o' => obj_eqv s o o'
  | None, None => True
  | _, _ => False
  end.

(** Two states that read the same. *)
Record eqv (s s' : StateDB) : Prop := {
  eqv_core : core s = core s';
  eqv_objects : forall a, opt_eqv s (find_object s a) (find_object s' a)
}.

(** Revisions are not part of [eqv]. *)
Definition revs (s : StateDB) := (db_validRevisions s, db_nextRevisionId s).

(** ** [eqv] is an equivalence *)

Lemma obj_eqv_refl s o : obj_eqv s o o.
Proof. by split. Qed.
Lemma obj_eqv_sym s o o' : obj_eqv s o o' -> obj_eqv s o' o.
Proof. intros []. split; intros; eauto using eq_sym. Qed.
Lemma obj_eqv_trans s o1 o2 o3 : obj_eqv s o1 o2 -> obj_eqv s o2 o3 -> obj_eqv s o1 o3.
Proof. intros [] []. split; intros; etrans; eauto. Qed.

Lemma views_core s s' o k : core s = core s' ->
  committed_view s o k = committed_view s' o k /\ state_view s o k = state_view s' o k.
Proof.
  intros Hc. unfold core in Hc. simplify_eq Hc. intros.
  unfold state_view, committed_view, storage_view, trie_view, trie_of.
  replace (db_stateObjectsDestruct s') with (db_stateObjectsDestruct s) by done.
  replace (db_originalRoot s') with (db_originalRoot s) by done. done.
Qed.

Lemma obj_eqv_core s s' o o' : core s = core s' -> obj_eqv s o o' -> obj_eqv s' o o'.
Proof.
  intros Hc []. split; auto; intros k.
  - rewrite <- !(proj1 (views_core s s' _ k Hc)). auto.
  - rewrite <- !(proj2 (views_core s s' _ k Hc)). auto.
Qed.

Lemma eqv_refl s : eqv s s.
Proof. split; [done|]. intros a. unfold opt_eqv. destruct (find_object s a); [apply obj_eqv_refl|done]. Qed.

Lemma eqv_sym s s' : eqv s s' -> eqv s' s.
Proof.
  intros [Hc Ho]. split; [done|]. intros a. specialize (Ho a). unfold opt_eqv in *.
  destruct (find_object s a), (find_object s' a); try done. by apply (obj_eqv_core s), obj_eqv_sym.
Qed.

Lemma eqv_trans s1 s2 s3 : eqv s1 s2 -> eqv s2 s3 -> eqv s1 s3.
Proof.
  intros [Hc1 Ho1] [Hc2 Ho2]. split; [congruence|]. intros a. specialize (Ho1 a). specialize (Ho2 a).
  unfold opt_eqv in *. destruct (find_object s1 a), (find_object s2 a), (find_object s3 a); try done.
  eapply obj_eqv_trans; [done|]. by apply (obj_eqv_core s2).
Qed.

#[export] Instance eqv_equiv : Equivalence eqv.
Proof. split; [exact eqv_refl|exact eqv_sym|exact eqv_trans]. Qed.

(** ** Quiet steps: caching and recording errors *)

Definition keyed (s : StateDB) : Prop := forall a o, db_stateObjects s !! a = Some o -> so_address o = a.

Definition put (o : stateObject) (s : StateDB) : StateDB :=
  with_db_stateObjects (<[so_address o := o]> (db_stateObjects s)) s.

Definition quiet (s s' : StateDB) : Prop := eqv s s' /\ revs s = revs s' /\ (keyed s -> keyed s').

Lemma quiet_refl s : quiet s s.
Proof. split_and!; auto. apply eqv_refl. Qed.
Lemma quiet_trans s1 s2 s3 : quiet s1 s2 -> quiet s2 s3 -> quiet s1 s3.
Proof. intros (? & ? & ?) (? & ? & ?). split_and!; [by eapply eqv_trans|congruence|auto]. Qed.
Hint Resolve quiet_refl : core.

Lemma keyed_put o s : keyed s -> keyed (put o s).
Proof.
  intros Hk a x. unfold put; simpl. rewrite lookup_insert. case_decide; [|auto]. intros [= <-]. done.
Qed.

Lemma lookup_put o s a : find_object (put o s) a = if decide (so_address o = a) then Some o else find_object s a.
Proof. unfold find_object, put; simpl. rewrite lookup_insert. by case_decide. Qed.

Lemma lookup_live s a o : db_stateObjects s !! a = Some o -> find_object s a = Some o.
Proof. unfold find_object. by intros ->. Qed.

Lemma lookup_keyed s a o : keyed s -> find_object s a = Some o -> so_address o = a.
Proof.
  unfold find_object. intros Hk. destruct (db_stateObjects s !! a) eqn:He; [intros [= <-]; eauto|].
  destruct (read_account (db_trie s) a); [|done]. simpl. by intros [= <-].
Qed.

(** Replacing an object by one that reads the same. *)
Lemma quiet_put s o o' : find_object s (so_address o') = Some o -> obj_eqv s o o' -> quiet s (put o' s).
Proof.
  intros Hl Ho. split_and!; [|done|apply keyed_put]. split; [done|]. intros a. rewrite lookup_put.
  case_decide; subst; [by rewrite Hl|]. unfold opt_eqv. destruct (find_object s a); [apply obj_eqv_refl|done].
Qed.

Lemma setError_quiet e s r s' : setError e s = Ret (r, s') ->
  quiet s s' /\ db_stateObjects s' = db_stateObjects s.
Proof.
  unfold setError, mmodify. intros [= <- <-]. destruct (db_dbErr s); [auto|]. split; [|done].
  split_and!; auto. split; [done|]. intros a. change (find_object (with_db_dbErr (Some e) s) a) with (find_object s a).
  unfold opt_eqv. destruct (find_object s a); [apply obj_eqv_refl|done].
Qed.

Lemma setError_total e s : exists s', setError e s = Ret (tt, s').
Proof. unfold setError, mmodify. eauto. Qed.

Lemma setStateObject_put o s : setStateObject o s = Ret (tt, put o s).
Proof. done. Qed.

(** ** Reading objects *)

Lemma getDeleted_spec a s : exists s', StateDB.getDeletedStateObject a s = Ret (find_object s a, s') /\
  quiet s s' /\ forall o, find_object s a = Some o -> db_stateObjects s' !! a = Some o.
Proof.
  unfold StateDB.getDeletedStateObject, mthen, mget. simpl.
  destruct (db_stateObjects s !! a) as [o|] eqn:Ha.
  { exists s. rewrite (lookup_live s a o Ha). split_and!; auto. congruence. }
  assert (Hins : forall data, read_account (db_trie s) a = Some data ->
    exists s', Ret (Some (newObject a (Some data)), put (newObject a (Some data)) s) = Ret (find_object s a, s') /\
      quiet s s' /\ forall o, find_object s a = Some o -> db_stateObjects s' !! a = Some o).
  { intros data Hd. set (o := newObject a (Some data)).
    assert (Hl : find_object s a = Some o) by (unfold find_object; by rewrite Ha, Hd).
    exists (put o s). rewrite Hl. split_and!; [done| |].
    - apply (quiet_put s o); [done|apply obj_eqv_refl].
    - intros o' [= <-]. unfold put; simpl. apply lookup_insert_eq. }
  assert (Hnone : read_account (db_trie s) a = None -> find_object s a = None).
  { intros Hd. unfold find_object. by rewrite Ha, Hd. }
  unfold read_account in *.
  assert (Herr : forall e s', setError e s = Ret (tt, s') -> find_object s a = None ->
    exists s'', Ret (None, s') = Ret (find_object s a, s'') /\ quiet s s'' /\
      forall o, find_object s a = Some o -> db_stateObjects s'' !! a = Some o).
  { intros e s' He Hl. rewrite Hl. exists s'. split_and!; [done|by apply (setError_quiet e s tt)|done]. }
  destruct snap as [[account storage]|]; [destruct (account _) as [e|[acc|]]|].
  1,4: destruct (GetAccount (db_trie s) a) as [err|[data|]]; simpl in *;
       [by eapply (Herr err); auto | by apply Hins |
        rewrite Hnone by done; exists s; split_and!; [done|apply quiet_refl|done]].
  - by apply Hins.
  - rewrite Hnone by done. exists s. split_and!; [done|apply quiet_refl|done].
Qed.

(** The object [getStateObject] returns. *)
Definition live (s : StateDB) (a : Z) : option stateObject :=
  match find_object s a with Some o => if so_deleted o then None else Some o | None => None end.

Lemma getStateObject_spec a s : exists s', StateDB.getStateObject a s = Ret (live s a, s') /\
  quiet s s' /\ forall o, live s a = Some o -> db_stateObjects s' !! a = Some o.
Proof.
  destruct (getDeleted_spec a s) as (s' & Hr & Hq & Hl). exists s'.
  unfold StateDB.getStateObject, mthen. rewrite Hr. simpl. unfold live. split_and!; auto.
  intros o. destruct (find_object s a) as [x|]; [|done]. destruct (so_deleted x); [done|]. intros [= <-]. auto.
Qed.

Lemma eqv_live s s' a : eqv s s' -> opt_eqv s (live s a) (live s' a).
Proof.
  intros [_ Ho]. specialize (Ho a). unfold live, opt_eqv in *.
  destruct (find_object s a) as [o|], (find_object s' a) as [o'|]; try done.
  rewrite <- (oe_deleted _ _ _ Ho). by destruct (so_deleted o).
Qed.

(** ** Reading storage *)

Lemma obj_eqv_trie s o tr : so_trie o = None ->
  OpenStorageTrie (db_originalRoot s) (so_address o) (Root (so_data o)) = inr tr ->
  obj_eqv s o (with_so_trie (Some tr) o).
Proof.
  intros Hn Ho.
  assert (Hc : forall k, committed_view s o k = committed_view s (with_so_trie (Some tr) o) k).
  { intros k. unfold committed_view, storage_view, trie_view, trie_of; simpl. by rewrite Hn, Ho. }
  split; auto. intros k. unfold state_view; simpl. by rewrite Hc.
Qed.

Lemma obj_eqv_cache s o key v : so_pendingStorage o !! key = None -> committed_view s o key = Ret v ->
  obj_eqv s o (with_so_originStorage (<[key := v]> (so_originStorage o)) o).
Proof.
  intros Hp Hv.
  assert (Hc : forall k, committed_view s o k =
    committed_view s (with_so_originStorage (<[key := v]> (so_originStorage o)) o) k).
  { intros k. unfold committed_view at 2; simpl. rewrite lookup_insert. case_decide as Hk; [subst k; by rewrite Hp|].
    unfold committed_view. done. }
  split; auto. intros k. unfold state_view; simpl. by rewrite Hc.
Qed.

Lemma snapStorage_quiet o key s v err s' :
  StateObject.snapStorage o key s = Ret ((v, err), s') ->
  snap_view o key = Ret (v, err) /\ quiet s s' /\ db_stateObjects s' = db_stateObjects s.
Proof.
  unfold StateObject.snapStorage, snap_view. destruct snap as [[acc storage]|].
  2: { intros [= <- <- <-]. auto. }
  destruct (storage (so_addrHash o) (Keccak256Hash (HashBytes key))) as [en er].
  destruct (0 <? Zlen en); [|intros [= <- <- <-]; auto].
  intros H. minv1 H. rewrite Hm1. cbn [obind]. destruct a as [e|[[k c] rest]]; minv1 Hm0; auto.
  by destruct (setError_quiet _ _ _ _ Hm).
Qed.

(** [o] is the live object at its address. *)
Definition is_live (s : StateDB) (o : stateObject) : Prop := db_stateObjects s !! so_address o = Some o.

(** A quiet step that turns the live object [o] into the live object [o']. *)
Record quiet_obj (s : StateDB) (o : stateObject) (s' : StateDB) (o' : stateObject) : Prop := {
  qo_quiet : quiet s s';
  qo_live : is_live s' o';
  qo_eqv : obj_eqv s o o'
}.

Lemma quiet_obj_refl s o : is_live s o -> quiet_obj s o s o.
Proof. split; auto. apply obj_eqv_refl. Qed.

Lemma quiet_obj_trans s1 o1 s2 o2 s3 o3 :
  quiet_obj s1 o1 s2 o2 -> quiet_obj s2 o2 s3 o3 -> quiet_obj s1 o1 s3 o3.
Proof.
  intros [Hq1 Hl1 He1] [Hq2 Hl2 He2]. split; [by eapply quiet_trans|done|].
  eapply obj_eqv_trans; [done|]. apply (obj_eqv_core s2); [|done].
  symmetry. apply Hq1.
Qed.

Lemma quiet_obj_put s o o' : is_live s o -> obj_eqv s o o' -> quiet_obj s o (put o' s) o'.
Proof.
  intros Hl He. split; [|unfold is_live, put; simpl; apply lookup_insert_eq|done].
  apply (quiet_put s o); [|done]. apply lookup_live. by rewrite <- (oe_address _ _ _ He).
Qed.

(** A quiet step that leaves the object map alone. *)
Lemma quiet_obj_same s o s' : is_live s o -> quiet s s' -> db_stateObjects s' = db_stateObjects s ->
  quiet_obj s o s' o.
Proof. intros Hl Hq Ho. split; [done| |apply obj_eqv_refl]. unfold is_live. by rewrite Ho. Qed.

Lemma getTrie_quiet o s tr o' s' : is_live s o -> StateObject.getTrie o s = Ret ((tr, o'), s') ->
  quiet_obj s o s' o' /\ tr = trie_of s o /\ so_pendingStorage o' = so_pendingStorage o.
Proof.
  intros Hl H. unfold StateObject.getTrie, trie_of in *. destruct (so_trie o) eqn:Ht.
  { minv1 H. split_and!; auto. by apply quiet_obj_refl. }
  minv1 H. destruct (OpenStorageTrie _ _ _) as [err|t] eqn:Ho; minv1 Hm0.
  - split_and!; auto. by apply quiet_obj_refl.
  - rewrite setStateObject_put in Hm. simplify_eq. split_and!; auto.
    apply quiet_obj_put; [done|]. by apply obj_eqv_trie.
Qed.

Lemma cacheStorage_quiet o key value s v o' s' :
  is_live s o -> so_pendingStorage o !! key = None -> committed_view s o key = Ret value ->
  StateObject.cacheStorage o key value s = Ret ((v, o'), s') -> quiet_obj s o s' o' /\ v = value.
Proof.
  intros Hl Hp Hv H. unfold StateObject.cacheStorage in H. minv1 H. rewrite setStateObject_put in Hm.
  simplify_eq. split; [|done]. apply quiet_obj_put; [done|]. by apply obj_eqv_cache.
Qed.

Lemma setError_quiet_obj e s o u s' : is_live s o -> setError e s = Ret (u, s') -> quiet_obj s o s' o.
Proof. intros Hl H. destruct (setError_quiet _ _ _ _ H). by apply quiet_obj_same. Qed.

Lemma quiet_obj_committed s o s' o' k : quiet_obj s o s' o' -> committed_view s' o' k = committed_view s o k.
Proof.
  intros [(Hq & _) _ He]. rewrite (oe_committed _ _ _ He).
  symmetry. apply views_core, Hq.
Qed.

Lemma trieStorage_quiet o key value s v o' s' :
  is_live s o -> so_pendingStorage o !! key = None -> committed_view s o key = trie_view s o key value ->
  StateObject.trieStorage o key value s = Ret ((v, o'), s') ->
  quiet_obj s o s' o' /\ trie_view s o key value = Ret v.
Proof.
  intros Hl Hp Hv H. unfold StateObject.trieStorage in H. apply mthen_Ret in H as ([tr o1] & s1 & Ht & H).
  destruct (getTrie_quiet _ _ _ _ _ Hl Ht) as (Hq & -> & Hpe). unfold trie_view in *.
  destruct (trie_of s o) as [err|tr].
  { minv1 H. split; [|done]. eapply quiet_obj_trans; [exact Hq|]. eapply setError_quiet_obj; [apply Hq|exact Hm]. }
  rewrite <- (oe_address _ _ _ (qo_eqv _ _ _ _ Hq)) in H. destruct (GetStorage _ _ _) as [err|val].
  { minv1 H. split; [|done]. eapply quiet_obj_trans; [exact Hq|]. eapply setError_quiet_obj; [apply Hq|exact Hm]. }
  apply cacheStorage_quiet in H as [Hq2 ->]; [|apply Hq|by rewrite Hpe|by rewrite (quiet_obj_committed _ _ _ _ _ Hq)].
  split; [|done]. by eapply quiet_obj_trans.
Qed.

Lemma GetCommittedState_quiet o key s v o' s' :
  is_live s o -> StateObject.GetCommittedState o key s = Ret ((v, o'), s') ->
  quiet_obj s o s' o' /\ committed_view s o key = Ret v.
Proof.
  intros Hl H. unfold StateObject.GetCommittedState in H.
  destruct (so_pendingStorage o !! key) eqn:Hp.
  { minv1 H. split; [by apply quiet_obj_refl|]. unfold committed_view. by rewrite Hp. }
  destruct (so_originStorage o !! key) eqn:Ho.
  { minv1 H. split; [by apply quiet_obj_refl|]. unfold committed_view. by rewrite Hp, Ho. }
  minv1 H. destruct (db_stateObjectsDestruct s !! so_address o) eqn:Hd.
  { minv1 Hm0. split; [by apply quiet_obj_refl|]. unfold committed_view, storage_view. by rewrite Hp, Ho, Hd. }
  apply mthen_Ret in Hm0 as ([value err] & s1 & Hsn & H).
  destruct (snapStorage_quiet _ _ _ _ _ _ Hsn) as (Hview & Hq & Hobj).
  pose proof (quiet_obj_same s o s1 Hl Hq Hobj) as Hq1.
  assert (Hc : committed_view s o key = match snap, err with
      | Some _, None => Ret value | _, _ => trie_view s o key value end).
  { unfold committed_view, storage_view. by rewrite Hp, Ho, Hd, Hview. }
  assert (Ht : trie_view s1 o key value = trie_view s o key value).
  { unfold trie_view, trie_of. destruct Hq as [[Hcore _] _]. unfold core in Hcore. simplify_eq Hcore. intros.
    by replace (db_originalRoot s1) with (db_originalRoot s). }
  rewrite <- (quiet_obj_committed _ _ _ _ _ Hq1) in Hc |- *. rewrite <- Ht in Hc.
  destruct snap; [destruct err|].
  1,3: apply trieStorage_quiet in H as [Hq2 Hv]; [|apply Hq1|done|done];
       split; [by eapply quiet_obj_trans|congruence].
  apply cacheStorage_quiet in H as [Hq2 ->]; [|apply Hq1|done|done].
  split; [by eapply quiet_obj_trans|done].
Qed.

Lemma GetState_quiet o key s v o' s' :
  is_live s o -> StateObject.GetState o key s = Ret ((v, o'), s') ->
  quiet_obj s o s' o' /\ state_view s o key = Ret v.
Proof.
  intros Hl H. unfold StateObject.GetState in H. unfold state_view.
  destruct (so_dirtyStorage o !! key).
  - minv1 H. split; [by apply quiet_obj_refl|done].
  - by apply GetCommittedState_quiet.
Qed.

Lemma Code_quiet o s c o' s' : is_live s o -> StateObject.Code o s = Ret ((c, o'), s') ->
  quiet_obj s o s' o' /\ code_view o = c.
Proof.
  intros Hl H. unfold StateObject.Code in H. unfold code_view.
  destruct (so_code o) eqn:Hc; [minv1 H; split; [by apply quiet_obj_refl|done]|].
  case_bool_decide as Hh; [minv1 H; split; [by apply quiet_obj_refl|done]|].
  destruct (ContractCode (so_address o) (BytesToHash (CodeHash (so_data o)))) as [code err] eqn:Hcc.
  apply mthen_Ret in H as (u & s1 & He & H). minv1 H. rewrite setStateObject_put in Hm. simplify_eq.
  split; [|done]. assert (Hq : quiet_obj s o s1 o).
  { destruct err; [by eapply setError_quiet_obj|]. minv1 He. by apply quiet_obj_refl. }
  eapply quiet_obj_trans; [exact Hq|]. apply quiet_obj_put; [apply Hq|].
  split; try done. unfold code_view; simpl. rewrite Hc, bool_decide_eq_false_2, Hcc by done. by destruct c.
Qed.

(** ** Reverting respects [eqv] *)

(** The parts of the state the object views depend on. *)
Definition obj_ctx (s : StateDB) := (db_originalRoot s, db_stateObjectsDestruct s).

Lemma obj_eqv_ctx s t o o' :
  db_originalRoot t = db_originalRoot s ->
  db_stateObjectsDestruct t !! so_address o = db_stateObjectsDestruct s !! so_address o ->
  obj_eqv s o o' -> obj_eqv t o o'.
Proof.
  intros Hr Hd Ho.
  assert (Hv : forall x k, so_address x = so_address o ->
    committed_view t x k = committed_view s x k /\ state_view t x k = state_view s x k).
  { intros x k Hx. unfold state_view, committed_view, storage_view, trie_view, trie_of.
    by rewrite Hx, Hd, Hr. }
  pose proof (oe_address _ _ _ Ho) as Ha. destruct Ho. split; auto; intros k.
  - rewrite !(fun x H => proj1 (Hv x k H)) by done. auto.
  - rewrite !(fun x H => proj2 (Hv x k H)) by done. auto.
Qed.

(** A change of the rest of the state, the same on both sides. *)
Lemma eqv_upd f s1 s2 :
  (forall s, db_stateObjects (f s) = db_stateObjects s /\ db_trie (f s) = db_trie s /\
     obj_ctx (f s) = obj_ctx s) ->
  (core s1 = core s2 -> core (f s1) = core (f s2)) -> eqv s1 s2 -> eqv (f s1) (f s2).
Proof.
  intros Hf Hc [H1 H2]. split; [auto|]. intros a. specialize (H2 a).
  assert (Hl : forall s, find_object (f s) a = find_object s a).
  { intros s. destruct (Hf s) as (Ho & Ht & _). unfold find_object. by rewrite Ho, Ht. }
  rewrite !Hl. unfold opt_eqv in *. destruct (find_object s1 a), (find_object s2 a); try done.
  destruct (Hf s1) as (_ & _ & Hx). unfold obj_ctx in Hx. simplify_eq.
  eapply obj_eqv_ctx; [| |done]; congruence.
Qed.

Ltac core_congr := let Hc := fresh "Hc" in intros Hc; unfold core in *; simplify_eq Hc; intros; simpl; congruence.
Ltac upd_ok := apply eqv_upd; [done|core_congr|].

Lemma eqv_put_both s1 s2 o1 o2 : eqv s1 s2 -> obj_eqv s1 o1 o2 -> eqv (put o1 s1) (put o2 s2).
Proof.
  intros [Hc Ho] Hoo. split; [done|]. intros a. rewrite !lookup_put, <- (oe_address _ _ _ Hoo).
  case_decide; [by apply (obj_eqv_ctx s1)|]. specialize (Ho a). unfold opt_eqv in *.
  destruct (find_object s1 a), (find_object s2 a); try done. by apply (obj_eqv_ctx s1).
Qed.

(** The outcome of the same revert on two states that read the same. *)
Definition revert_agree (m : M StateDB unit) : Prop := forall s1 s2 t1,
  keyed s1 -> keyed s2 -> eqv s1 s2 -> m s1 = Ret (tt, t1) ->
  exists t2, m s2 = Ret (tt, t2) /\ eqv t1 t2 /\ keyed t1 /\ keyed t2 /\ revs t1 = revs s1 /\ revs t2 = revs s2.

Lemma on_object_agree a f g :
  (forall s o, f o s = Ret (g o, put (g o) s)) ->
  (forall s o o', obj_eqv s o o' -> obj_eqv s (g o) (g o')) ->
  revert_agree (StateDB.on_object a f).
Proof.
  intros Hf Hg s1 s2 t1 Hk1 Hk2 He H. unfold StateDB.on_object in *.
  destruct (getStateObject_spec a s1) as (s1' & Hr1 & (Hq1 & Hv1 & Hkk1) & _).
  destruct (getStateObject_spec a s2) as (s2' & Hr2 & (Hq2 & Hv2 & Hkk2) & _).
  unfold mthen in *. rewrite Hr1 in H. rewrite Hr2. cbn [obind fst snd] in *.
  pose proof (eqv_live s1 s2 a He) as Hl. unfold opt_eqv in Hl.
  destruct (live s1 a) as [o1|], (live s2 a) as [o2|]; try done.
  rewrite Hf in *. cbn [obind fst snd] in *. unfold mret in *. injection H as <-. exists (put (g o2) s2').
  assert (He' : eqv s1' s2') by (etrans; [symmetry; exact Hq1|]; etrans; [exact He|exact Hq2]).
  split_and!; auto using keyed_put. apply eqv_put_both; [done|]. apply Hg.
  apply (obj_eqv_core s1); [apply Hq1|done].
Qed.

Lemma mmodify_agree f :
  (forall s, db_stateObjects (f s) = db_stateObjects s /\ db_trie (f s) = db_trie s /\
     obj_ctx (f s) = obj_ctx s) -> (forall s, revs (f s) = revs s) ->
  (forall s1 s2, core s1 = core s2 -> core (f s1) = core (f s2)) -> revert_agree (mmodify f).
Proof.
  intros Hf Hr Hc s1 s2 t1 Hk1 Hk2 He [= <-]. exists (f s2). split_and!; auto.
  - by apply eqv_upd; auto.
  - intros a o. rewrite (proj1 (Hf s1)). apply Hk1.
  - intros a o. rewrite (proj1 (Hf s2)). apply Hk2.
Qed.

Lemma agree_mret : revert_agree (mret tt).
Proof. intros s1 s2 t1 ? ? ? [= <-]. exists s2. done. Qed.

Lemma agree_then m1 m2 : revert_agree m1 -> revert_agree m2 -> revert_agree (m1 ;;; m2).
Proof.
  intros H1 H2 s1 s2 t1 Hk1 Hk2 He H. apply mthen_Ret in H as ([] & u1 & Hm1 & Hm2).
  destruct (H1 s1 s2 u1 Hk1 Hk2 He Hm1) as (u2 & Hu2 & Heu & Hku1 & Hku2 & Hr1 & Hr2).
  destruct (H2 u1 u2 t1 Hku1 Hku2 Heu Hm2) as (t2 & Ht2 & Het & ? & ? & ? & ?).
  exists t2. split_and!; auto; try congruence. unfold mthen. by rewrite Hu2.
Qed.

(** Fallible computations on the shared part of the state agree. *)
Lemma mlift_agree {A} (g : StateDB -> outcome A) (k : A -> M StateDB unit) :
  (forall s1 s2, core s1 = core s2 -> g s1 = g s2) -> (forall x, revert_agree (k x)) ->
  revert_agree (fun s => mthen (mlift (g s)) k s).
Proof.
  intros Hg Hk s1 s2 t1 Hk1 Hk2 He H. apply mthen_Ret in H as (x & u & Hm & H). minv1 Hm.
  destruct (Hk x u s2 t1 Hk1 Hk2 He H) as (t2 & Ht & Hrest). exists t2. split; [|done].
  unfold mthen, mlift. rewrite <- (Hg u s2), Hm0; [done|apply He].
Qed.

Lemma agree_ext m m' : (forall s, m s = m' s) -> revert_agree m' -> revert_agree m.
Proof.
  intros Hm H s1 s2 t1 Hk1 Hk2 He Hr. rewrite Hm in Hr.
  destruct (H s1 s2 t1 Hk1 Hk2 He Hr) as (t2 & Ht & Hrest). exists t2. by rewrite Hm.
Qed.

Lemma agree_if (c : StateDB -> bool) m1 m2 :
  (forall s1 s2, core s1 = core s2 -> c s1 = c s2) -> revert_agree m1 -> revert_agree m2 ->
  revert_agree (fun s => (if c s then m1 else m2) s).
Proof.
  intros Hc H1 H2 s1 s2 t1 Hk1 Hk2 He Hr. rewrite <- (Hc s1 s2) by apply He.
  destruct (c s1); [by eapply H1|by eapply H2].
Qed.

(** Deleting a live object. *)
Definition del (a : Z) (s : StateDB) : StateDB := with_db_stateObjects (delete a (db_stateObjects s)) s.

Lemma lookup_del a s b : find_object (del a s) b =
  if decide (a = b) then (fun acct => newObject b (Some acct)) <$> read_account (db_trie s) b else find_object s b.
Proof. unfold find_object, del; simpl. rewrite lookup_delete. by case_decide. Qed.

Lemma opt_eqv_ctx s t x y : db_originalRoot t = db_originalRoot s ->
  (forall o, x = Some o -> db_stateObjectsDestruct t !! so_address o = db_stateObjectsDestruct s !! so_address o) ->
  opt_eqv s x y -> opt_eqv t x y.
Proof. intros Hr Hd. destruct x, y; simpl; try done. apply obj_eqv_ctx; auto. Qed.

Lemma opt_eqv_refl s x : opt_eqv s x x.
Proof. destruct x; simpl; [apply obj_eqv_refl|done]. Qed.

Lemma keyed_del a s : keyed s -> keyed (del a s).
Proof. intros Hs b o. unfold del; simpl. rewrite lookup_delete. case_decide; [done|apply Hs]. Qed.

Lemma delete_agree a : revert_agree (mmodify (del a)).
Proof.
  intros s1 s2 t1 Hk1 Hk2 [Hc Ho] [= <-]. exists (del a s2). split_and!; auto using keyed_del.
  split; [done|]. intros b. rewrite !lookup_del.
  assert (Ht : db_trie s1 = db_trie s2) by (unfold core in Hc; by simplify_eq Hc).
  case_decide; [rewrite Ht; apply opt_eqv_refl|]. by apply (opt_eqv_ctx s1).
Qed.

(** Putting back the object a reset replaced, with its destruct mark. *)
Lemma reset_agree prev (pd : bool) : revert_agree (setStateObject prev ;;;
  (if pd then mret tt else mmodify (fun s => with_db_stateObjectsDestruct
     (delete (so_address prev) (db_stateObjectsDestruct s)) s))).
Proof.
  intros s1 s2 t1 Hk1 Hk2 He H. apply mthen_Ret in H as ([] & u1 & Hm1 & Hm2).
  rewrite setStateObject_put in Hm1. injection Hm1 as <-.
  pose proof (eqv_put_both s1 s2 prev prev He (obj_eqv_refl _ _)) as Hput.
  unfold mthen. rewrite setStateObject_put. cbn [obind fst snd].
  destruct pd; injection Hm2 as <-; (eexists; split; [done|]).
  { split_and!; auto using keyed_put. }
  split_and!; auto; try (apply keyed_put; done).
  destruct Hput as [Hc Ho]. split.
  { unfold core in *. simplify_eq Hc. intros. simpl in *. congruence. }
  intros a. specialize (Ho a).
  set (f := fun s => with_db_stateObjectsDestruct (delete (so_address prev) (db_stateObjectsDestruct s)) s).
  change (opt_eqv (f (put prev s1)) (find_object (put prev s1) a) (find_object (put prev s2) a)).
  destruct (decide (so_address prev = a)) as [<-|Hne].
  { rewrite !lookup_put, !decide_True by done. apply opt_eqv_refl. }
  apply (opt_eqv_ctx (put prev s1)); auto. intros x Hx. simpl.
  rewrite (lookup_keyed _ _ _ (keyed_put prev s1 Hk1) Hx). by rewrite lookup_delete_ne.
Qed.

(** The setters send objects that read the same to objects that read the same. *)
Lemma obj_eqv_setBalance s o o' b : obj_eqv s o o' ->
  obj_eqv s (with_so_data (with_Balance b (so_data o)) o) (with_so_data (with_Balance b (so_data o')) o').
Proof.
  intros [? ? ? Hd ? ? Hc Hcm Hst].
  split; simpl; [done|done|done|by rewrite Hd|done|done|exact Hc|exact Hcm|exact Hst].
Qed.

Lemma obj_eqv_setNonce s o o' n : obj_eqv s o o' ->
  obj_eqv s (with_so_data (with_Nonce n (so_data o)) o) (with_so_data (with_Nonce n (so_data o')) o').
Proof.
  intros [? ? ? Hd ? ? Hc Hcm Hst].
  split; simpl; [done|done|done|by rewrite Hd|done|done|exact Hc|exact Hcm|exact Hst].
Qed.

Lemma obj_eqv_setState s o o' key v : obj_eqv s o o' ->
  obj_eqv s (with_so_dirtyStorage (<[key := v]> (so_dirtyStorage o)) o)
            (with_so_dirtyStorage (<[key := v]> (so_dirtyStorage o')) o').
Proof.
  intros [? ? ? Hd ? ? Hc Hcm Hst]. split; auto; simpl.
  intros k. specialize (Hst k). unfold state_view in *; simpl. rewrite !lookup_insert. by case_decide.
Qed.

Definition set_code (h : Z) (code : option (list Z)) (o : stateObject) : stateObject :=
  with_so_dirtyCode true (with_so_data (with_CodeHash (HashBytes h) (so_data o)) (with_so_code code o)).

Lemma obj_eqv_setCode s o o' h code : obj_eqv s o o' ->
  obj_eqv s (set_code h code o) (set_code h code o').
Proof.
  intros [Ha ? ? Hd ? ? Hc Hcm Hst].
  split; simpl; [done|done|done|by rewrite Hd|done|done| |exact Hcm|exact Hst].
  unfold code_view, set_code.
  cbn [so_code so_data so_address CodeHash with_so_dirtyCode with_so_data with_so_code with_CodeHash].
  rewrite Ha. reflexivity.
Qed.

Ltac agree_modify := apply mmodify_agree; [done|done|]; let s1 := fresh in let s2 := fresh in intros s1 s2; core_congr.

Lemma revert_entry_agree e : revert_agree (StateDB.revert_entry e).
Proof.
  destruct e; cbn [StateDB.revert_entry].
  - apply agree_then; [apply delete_agree|agree_modify].
  - assert (Hassoc : forall (m1 m2 m3 : M StateDB unit) s, (m1 ;;; m2 ;;; m3) s = ((m1 ;;; m2) ;;; m3) s).
    { intros m1 m2 m3 s. unfold mthen. by destruct (m1 s) as [[[] ?]| |]. }
    eapply agree_ext; [intros s; apply Hassoc|].
    apply agree_then; [apply reset_agree|].
    repeat apply agree_then;
      match goal with
      | |- revert_agree (match ?x with _ => _ end) => destruct x
      end; try apply agree_mret; agree_modify.
  - eapply on_object_agree; [done|]. intros; by apply obj_eqv_setBalance.
  - eapply on_object_agree; [done|]. intros; by apply obj_eqv_setNonce.
  - eapply on_object_agree; [done|]. intros; by apply obj_eqv_setState.
  - eapply (on_object_agree _ _ (set_code _ _)); [done|]. intros; by apply obj_eqv_setCode.
  - agree_modify.
  - eapply agree_ext with (m' := (fun s => (if Zlen (default [] (db_logs s !! txhash)) =? 1
      then mmodify (fun s => with_db_logs (delete txhash (db_logs s)) s)
      else fun s => mthen (mlift (go_slice (default [] (db_logs s !! txhash)) 0
             (Zlen (default [] (db_logs s !! txhash)) - 1)))
            (fun logs' => mmodify (fun s => with_db_logs (<[txhash := logs']> (db_logs s)) s)) s) s) ;;;
      mmodify (fun s => with_db_logSize (u64 (db_logSize s - 1)) s)).
    { intros s. unfold mthen at 1. cbn [mget obind fst snd]. unfold mthen at 1 3. by destruct (_ =? 1). }
    apply agree_then; [|agree_modify]. apply agree_if.
    + intros s1 s2. core_congr.
    + agree_modify.
    + apply mlift_agree; [intros s1 s2; core_congr|]. intros x. agree_modify.
  - agree_modify.
  - apply agree_mret.
  - agree_modify.
  - eapply agree_ext with (m' := fun s => mthen (mlift (AccessList.DeleteSlot address slot (db_accessList s)))
      (fun al => mmodify (with_db_accessList al)) s).
    { intros s. unfold mthen, mlift, mget, mput, mmodify. cbn. by destruct (AccessList.DeleteSlot _ _ _). }
    apply mlift_agree; [intros s1 s2; core_congr|]. intros x. agree_modify.
Qed.

Lemma revert_step_agree e : revert_agree (StateDB.revert_step e).
Proof. apply agree_then; [apply revert_entry_agree|agree_modify]. Qed.

Lemma revert_entries_agree es : revert_agree (StateDB.revert_entries es).
Proof. induction es; [apply agree_mret|]. apply agree_then; [apply revert_step_agree|done]. Qed.

(** ** Well-formed states *)

Definition object_ok (a : Z) (o : stateObject) : Prop :=
  so_address o = a /\ so_addrHash o = Keccak256Hash (AddressBytes a) /\ code_hash_ok (CodeHash (so_data o)).

Record wf (s : StateDB) : Prop := {
  wf_objects : forall a o, find_object s a = Some o -> object_ok a o;
  wf_dirties : forall a n, dirties (db_journal s) !! a = Some n -> 1 <= n;
  wf_accessList : al_wf (db_accessList s);
  wf_logs : forall h l, db_logs s !! h = Some l -> l <> [];
  wf_logSize : in64 (db_logSize s);
  wf_dirty : forall a, a ∈ db_stateObjectsDirty s -> is_Some (find_object s a);
  wf_refund : 0 <= db_refund s
}.

Lemma wf_keyed s : wf s -> keyed s.
Proof. intros Hwf a o Ho. by apply (wf_objects s Hwf), lookup_live. Qed.

Lemma wf_eqv s s' : wf s -> eqv s s' -> wf s'.
Proof.
  intros [H1 H2 H3 H4 H5 H6 H7] [Hc Ho]. unfold core in Hc. simplify_eq Hc; intros.
  split; try congruence.
  - intros a o Ha. specialize (Ho a). rewrite Ha in Ho. unfold opt_eqv in Ho.
    destruct (find_object s a) as [x|] eqn:Hx; [|done]. destruct (H1 a x Hx) as (? & ? & ?).
    destruct Ho. unfold object_ok. rewrite <- oe_address0, <- oe_addrHash0, <- oe_data0. done.
  - intros a n Hn. apply (H2 a). congruence.
  - intros h l Hl. apply (H4 h). congruence.
  - intros a Ha. specialize (Ho a). destruct (H6 a) as [x Hx]; [congruence|]. rewrite Hx in Ho.
    unfold opt_eqv in Ho. destruct (find_object s' a); [eauto|done].
Qed.

Lemma code_hash_ok_HashBytes h : code_hash_ok (HashBytes h).
Proof. split; [apply Z_to_bytes_byte|apply length_Z_to_bytes]. Qed.
Hint Resolve code_hash_ok_HashBytes : core.

Lemma HashBytes_BytesToHash h : code_hash_ok h -> HashBytes (BytesToHash h) = h.
Proof.
  intros [Hb Hl]. unfold HashBytes, BytesToHash. rewrite Hl, Nat.sub_diag, drop_0, <- Hl.
  by apply Z_to_bytes_of_bytes.
Qed.

(** ** Undoable steps *)

(** The entries added by a step, reverted in order, lead back to the start. *)
Definition undoable (s s' : StateDB) : Prop :=
  exists E t, entries (db_journal s') = E ++ entries (db_journal s) /\
    StateDB.revert_entries E s' = Ret (tt, t) /\ eqv s t.

Record step_ok (s s' : StateDB) : Prop := {
  so_undo : undoable s s';
  so_wf : wf s';
  so_revs : revs s' = revs s
}.

Lemma revert_entries_app E1 E2 s : StateDB.revert_entries (E1 ++ E2) s =
  (StateDB.revert_entries E1 ;;; StateDB.revert_entries E2) s.
Proof.
  revert s; induction E1 as [|e E1 IH]; intros s; [done|].
  cbn [app StateDB.revert_entries]. unfold mthen in *.
  destruct (StateDB.revert_step e s) as [[[] s1]| |]; cbn [obind fst snd]; [apply IH|done|done].
Qed.

Lemma undoable_trans s1 s2 s3 : keyed s2 -> keyed s3 -> undoable s1 s2 -> undoable s2 s3 -> undoable s1 s3.
Proof.
  intros Hk2 Hk3 (E1 & t2 & He1 & Hr1 & Hq1) (E2 & t3 & He2 & Hr2 & Hq2).
  destruct (revert_entries_agree E2 s3 s3 t3 Hk3 Hk3 (eqv_refl s3) Hr2) as (_ & _ & _ & Hkt & _).
  destruct (revert_entries_agree E1 s2 t3 t2 Hk2 Hkt Hq2 Hr1) as (t & Ht & Het & _).
  exists (E2 ++ E1), t. split_and!.
  - by rewrite He2, He1, app_assoc.
  - rewrite revert_entries_app. unfold mthen. by rewrite Hr2.
  - by etrans.
Qed.

Lemma eqv_journal s s' : eqv s s' -> db_journal s' = db_journal s.
Proof. intros [Hc _]. unfold core in Hc. by simplify_eq Hc. Qed.

Lemma step_quiet s s' : wf s -> quiet s s' -> step_ok s s'.
Proof.
  intros Hwf (He & Hr & _). split; [|by eapply wf_eqv|done].
  exists [], s'. rewrite (eqv_journal s s' He). done.
Qed.

Lemma step_refl s : wf s -> step_ok s s.
Proof. intros. by apply step_quiet. Qed.

Lemma step_trans s1 s2 s3 : step_ok s1 s2 -> step_ok s2 s3 -> step_ok s1 s3.
Proof.
  intros [Hu1 Hw1 Hr1] [Hu2 Hw2 Hr2]. split; [|done|congruence].
  eapply undoable_trans; [..|exact Hu1|exact Hu2]; by apply wf_keyed.
Qed.

(** Appending an entry. *)
Definition J (e : journalEntry) (s : StateDB) : StateDB :=
  with_db_journal (journal_append e (db_journal s)) s.

Lemma jappend_J e s : jappend e s = Ret (tt, J e s).
Proof. done. Qed.

Lemma lookup_J e s a : find_object (J e s) a = find_object s a.
Proof. done. Qed.

Lemma drop_dirty_append e j : (forall a n, dirties j !! a = Some n -> 1 <= n) ->
  StateDB.drop_dirty e (dirties (journal_append e j)) = dirties j.
Proof.
  intros Hd. unfold StateDB.drop_dirty, journal_append; simpl. destruct (dirtied e) as [a|]; [|done].
  rewrite lookup_insert_eq. simpl. destruct (dirties j !! a) as [n|] eqn:Ha; simpl.
  - destruct (Z.eqb_spec (n + 1 - 1) 0); [specialize (Hd a n Ha); lia|].
    rewrite insert_insert_eq. apply insert_id. rewrite Ha. f_equal. lia.
  - by rewrite delete_insert_id.
Qed.

Lemma dirties_append e j : (forall a n, dirties j !! a = Some n -> 1 <= n) ->
  forall a n, dirties (journal_append e j) !! a = Some n -> 1 <= n.
Proof.
  intros Hd a n. unfold journal_append; simpl. destruct (dirtied e) as [b|]; [|apply Hd].
  rewrite lookup_insert. case_decide; [|apply Hd]. intros [= <-].
  destruct (dirties j !! b) as [m|] eqn:Hb; simpl; [specialize (Hd b m Hb)|]; lia.
Qed.

(** A step of one entry: reverting the entry must restore everything but the
    journal, which its removal restores. *)
Lemma undoable_entry e s s' t : wf s ->
  db_journal s' = journal_append e (db_journal s) ->
  StateDB.revert_entry e s' = Ret (tt, t) -> db_journal t = db_journal s' ->
  eqv s (with_db_journal (db_journal s) t) -> undoable s s'.
Proof.
  intros Hwf Hj Hr Hjt He. exists [e], (with_db_journal (db_journal s) t). split_and!; [by rewrite Hj| |done].
  cbn [StateDB.revert_entries]. unfold StateDB.revert_step, mthen. rewrite Hr. cbn [obind fst snd mmodify].
  unfold mret. rewrite Hjt, Hj. cbn [entries journal_append tail]. rewrite drop_dirty_append by apply (wf_dirties s Hwf).
  by destruct (db_journal s).
Qed.

(** ** Objects: one entry, one write *)

Lemma getStateObject_live o s : is_live s o -> so_deleted o = false ->
  StateDB.getStateObject (so_address o) s = Ret (Some o, s).
Proof.
  intros Hl Hd. unfold StateDB.getStateObject, StateDB.getDeletedStateObject, mthen, mget. simpl.
  unfold is_live in Hl. rewrite Hl. simpl. by rewrite Hd.
Qed.

Lemma on_object_live o f o' s : is_live s o -> so_deleted o = false ->
  f o s = Ret (o', put o' s) -> StateDB.on_object (so_address o) f s = Ret (tt, put o' s).
Proof.
  intros Hl Hd Hf. unfold StateDB.on_object, mthen. rewrite getStateObject_live by done.
  cbn [obind fst snd]. by rewrite Hf.
Qed.

Lemma is_live_put s o : is_live (put o s) o.
Proof. unfold is_live, put; simpl. apply lookup_insert_eq. Qed.

Lemma is_live_find s o : is_live s o -> find_object s (so_address o) = Some o.
Proof. apply lookup_live. Qed.

(** An entry and a write of the object keep the state well formed. *)
Lemma wf_write s e o : wf s -> object_ok (so_address o) o -> wf (put o (J e s)).
Proof.
  intros [H1 H2 H3 H4 H5 H6 H7] Ho. split; simpl; auto.
  - intros a x. rewrite lookup_put, lookup_J. case_decide; [|apply H1]. intros [= <-]. by subst.
  - by apply dirties_append.
  - intros a Ha. rewrite lookup_put, lookup_J. case_decide; eauto.
Qed.

Lemma wf_J s e : wf s -> wf (J e s).
Proof. intros [H1 H2 H3 H4 H5 H6 H7]. split; auto. by apply dirties_append. Qed.

(** The state after a journalled write of a live object, and its revert. *)
Lemma step_write s e o o1 o2 f :
  wf s -> is_live s o -> so_deleted o1 = false -> so_address o1 = so_address o ->
  object_ok (so_address o1) o1 ->
  StateDB.revert_entry e = StateDB.on_object (so_address o) f ->
  (forall t, f o1 t = Ret (o2, put o2 t)) -> obj_eqv s o o2 ->
  step_ok s (put o1 (J e s)).
Proof.
  intros Hwf Hl Hd Ha Hok He Hf Heq. split; [|by apply wf_write|done].
  apply (undoable_entry e s _ (put o2 (put o1 (J e s)))); auto.
  - rewrite He, <- Ha. apply on_object_live; [apply is_live_put|done|apply Hf].
  - split.
    { unfold core, put, J; simpl. done. }
    intros a. pose proof (oe_address _ _ _ Heq) as Ha2.
    change (opt_eqv s (find_object s a) (find_object (put o2 (put o1 (J e s))) a)).
    rewrite !lookup_put, lookup_J. rewrite <- Ha2. case_decide as Hc.
    + subst a. by rewrite (is_live_find s o Hl).
    + rewrite Ha. rewrite decide_False by done. apply opt_eqv_refl.
Qed.

Lemma live_ok s o : wf s -> is_live s o -> object_ok (so_address o) o.
Proof. intros Hwf Hl. by apply (wf_objects s Hwf), is_live_find. Qed.

(** A step on a live object: the object afterwards is live and not deleted. *)
Record obj_step (s : StateDB) (o : stateObject) (s' : StateDB) (o' : stateObject) : Prop := {
  os_step : step_ok s s';
  os_live : is_live s' o';
  os_deleted : so_deleted o' = false
}.

Lemma obj_step_quiet s o s' o' : wf s -> so_deleted o = false -> quiet_obj s o s' o' -> obj_step s o s' o'.
Proof.
  intros Hwf Hd [Hq Hl He]. split; [by apply step_quiet|done|]. by rewrite <- (oe_deleted _ _ _ He).
Qed.

Lemma SetBalance_step o b s o' s' : wf s -> is_live s o -> so_deleted o = false ->
  StateObject.SetBalance o b s = Ret (o', s') -> obj_step s o s' o'.
Proof.
  intros Hwf Hl Hd H. unfold StateObject.SetBalance, StateObject.setBalance in H.
  minv1 H. rewrite jappend_J in Hm. rewrite setStateObject_put in Hm1. simplify_eq.
  split; [|apply is_live_put|done].
  eapply (step_write _ _ o _ o); eauto; simpl; auto.
  - destruct (live_ok s o Hwf Hl) as (? & ? & ?). by split_and!.
  - intros t. unfold StateObject.setBalance, mthen. simpl. destruct o as [? ? ? [] ? ? ? ? ? ? ? ?]; done.
  - apply obj_eqv_refl.
Qed.

Lemma SetNonce_step o n s o' s' : wf s -> is_live s o -> so_deleted o = false ->
  StateObject.SetNonce o n s = Ret (o', s') -> obj_step s o s' o'.
Proof.
  intros Hwf Hl Hd H. unfold StateObject.SetNonce, StateObject.setNonce in H.
  minv1 H. rewrite jappend_J in Hm. rewrite setStateObject_put in Hm1. simplify_eq.
  split; [|apply is_live_put|done].
  eapply (step_write _ _ o _ o); eauto; simpl; auto.
  - destruct (live_ok s o Hwf Hl) as (? & ? & ?). by split_and!.
  - intros t. unfold StateObject.setNonce, mthen. simpl. destruct o as [? ? ? [] ? ? ? ? ? ? ? ?]; done.
  - apply obj_eqv_refl.
Qed.

(** Writing back the value a slot had. *)
Lemma obj_eqv_restore_slot s o key v : state_view s o key = Ret v -> forall w,
  obj_eqv s o (with_so_dirtyStorage (<[key := v]> (<[key := w]> (so_dirtyStorage o))) o).
Proof.
  intros Hv w. split; auto. intros k. unfold state_view at 2; simpl. rewrite insert_insert_eq, lookup_insert.
  case_decide as Hk; [by subst|]. done.
Qed.

Lemma SetState_step o key v s o' s' : wf s -> is_live s o -> so_deleted o = false ->
  StateObject.SetState o key v s = Ret (o', s') -> obj_step s o s' o'.
Proof.
  intros Hwf Hl Hd H. unfold StateObject.SetState in H. apply mthen_Ret in H as ([prev o1] & s1 & Hg & H).
  destruct (GetState_quiet _ _ _ _ _ _ Hl Hg) as [Hq Hv].
  pose proof (obj_step_quiet _ _ _ _ Hwf Hd Hq) as [Hs1 Hl1 Hd1].
  destruct (prev =? v); [minv1 H; by split|].
  unfold StateObject.setState in H. minv1 H. rewrite jappend_J in Hm. rewrite setStateObject_put in Hm1.
  simplify_eq. split; [|apply is_live_put|done]. eapply step_trans; [exact Hs1|].
  apply (step_write _ _ o1 _ (with_so_dirtyStorage (<[key := prev]> (<[key := v]> (so_dirtyStorage o1))) o1)
    (fun o => StateObject.setState o key prev)); auto; try exact (so_wf _ _ Hs1).
  - destruct (live_ok s1 o1 (so_wf _ _ Hs1) Hl1) as (? & ? & ?). by split_and!.
  - apply obj_eqv_restore_slot. rewrite <- (proj2 (views_core s s1 o1 key (eqv_core _ _ (proj1 (qo_quiet _ _ _ _ Hq))))).
    by rewrite <- (oe_state _ _ _ (qo_eqv _ _ _ _ Hq)).
Qed.

Lemma SetCode_step o h c s o' s' : wf s -> is_live s o -> so_deleted o = false ->
  StateObject.SetCode o h c s = Ret (o', s') -> obj_step s o s' o'.
Proof.
  intros Hwf Hl Hd H. unfold StateObject.SetCode in H. apply mthen_Ret in H as ([prev o1] & s1 & Hg & H).
  destruct (Code_quiet _ _ _ _ _ Hl Hg) as [Hq Hv].
  pose proof (obj_step_quiet _ _ _ _ Hwf Hd Hq) as [Hs1 Hl1 Hd1].
  unfold StateObject.setCode in H. minv1 H. rewrite jappend_J in Hm. rewrite setStateObject_put in Hm1.
  simplify_eq. split; [|apply is_live_put|done]. eapply step_trans; [exact Hs1|].
  destruct (live_ok s1 o1 (so_wf _ _ Hs1) Hl1) as (? & ? & Hok).
  apply (step_write _ _ o1 _ (set_code (BytesToHash (CodeHash (so_data o1))) (code_view o) (set_code h c o1))
    (fun x => StateObject.setCode x (BytesToHash (CodeHash (so_data o1))) (code_view o))); auto; try exact (so_wf _ _ Hs1).
  { split_and!; [done|done|apply code_hash_ok_HashBytes]. }
  split; try done.
  - cbn. rewrite HashBytes_BytesToHash by done. by destruct (so_data o1).
  - rewrite (oe_code _ _ _ (qo_eqv _ _ _ _ Hq)) in *. unfold code_view at 2.
    cbn [set_code so_code so_data so_address CodeHash with_so_dirtyCode with_so_data with_so_code with_CodeHash].
    rewrite HashBytes_BytesToHash by done. destruct (code_view o1) as [c1|] eqn:Hc1; [done|].
    unfold code_view in Hc1. destruct (so_code o1); [done|]. by rewrite Hc1.
Qed.

(** ** Creating objects *)

Lemma restore_some {A} (m : gmap Z A) k x : m !! k = Some x -> <[k := x]> (delete k m) = m.
Proof. intros. by rewrite insert_delete_eq, insert_id. Qed.

(** The state before the new object is stored over [prev]. *)
Definition reset_state (a : Z) (prev : stateObject) (s : StateDB) : StateDB :=
  let pd := bool_decide (is_Some (db_stateObjectsDestruct s !! so_address prev)) in
  let s1 := if pd then s else with_db_stateObjectsDestruct
              (<[so_address prev := so_origin prev]> (db_stateObjectsDestruct s)) s in
  let s2 := J (resetObjectChange a prev pd (db_accounts s !! so_addrHash prev)
     (db_storages s !! so_addrHash prev) (bool_decide (is_Some (db_accountsOrigin s !! so_address prev)))
     (default None (db_accountsOrigin s !! so_address prev)) (db_storagesOrigin s !! so_address prev)) s1 in
  with_db_storagesOrigin (delete (so_address prev) (db_storagesOrigin s))
    (with_db_accountsOrigin (delete (so_address prev) (db_accountsOrigin s))
      (with_db_storages (delete (so_addrHash prev) (db_storages s))
        (with_db_accounts (delete (so_addrHash prev) (db_accounts s)) s2))).

Lemma createObject_inv a s n p s' : StateDB.createObject a s = Ret ((n, p), s') ->
  exists s1, quiet s s1 /\ (forall o, find_object s a = Some o -> db_stateObjects s1 !! a = Some o) /\
    n = with_so_created true (newObject a None) /\ p = live s a /\
    s' = put n (match find_object s a with
                | None => J (createObjectChange a) s1
                | Some prev => reset_state a prev s1
                end).
Proof.
  intros H. unfold StateDB.createObject in H. destruct (getDeleted_spec a s) as (s1 & Hr & Hq & Hl).
  unfold mthen in H. rewrite Hr in H. cbn [obind fst snd] in H. exists s1. split; [done|]. split; [done|].
  set (no := with_so_created true (newObject a None)) in *. clearbody no. unfold live, mmodify, mret in *.
  destruct (find_object s a) as [prev|]; cbn [obind fst snd mget] in H.
  - unfold reset_state. destruct (bool_decide (is_Some (db_stateObjectsDestruct s1 !! so_address prev)));
      cbn [obind fst snd] in H; rewrite jappend_J in H; cbn [obind fst snd] in H;
      rewrite setStateObject_put in H; cbn [obind fst snd] in H; injection H as <- <- <-; by split_and!.
  - rewrite jappend_J in H; cbn [obind fst snd] in H. rewrite setStateObject_put in H.
    cbn [obind fst snd] in H. injection H as <- <- <-. by split_and!.
Qed.

(** Putting back an entry that was there. *)
Definition putback {A} (o : option A) (k : Z) (m : gmap Z A) : gmap Z A :=
  match o with Some x => <[k := x]> m | None => m end.

Lemma putback_delete {A} (m : gmap Z A) k : putback (m !! k) k (delete k m) = m.
Proof. unfold putback. destruct (m !! k) eqn:Hk; [by apply restore_some|by apply delete_id]. Qed.

Lemma revert_reset_run a prev pd pa ps ex pao pso s :
  StateDB.revert_entry (resetObjectChange a prev pd pa ps ex pao pso) s = Ret (tt,
    with_db_storagesOrigin (putback pso (so_address prev) (db_storagesOrigin s))
     (with_db_accountsOrigin (putback (if ex : bool then Some pao else None) (so_address prev) (db_accountsOrigin s))
      (with_db_storages (putback ps (so_addrHash prev) (db_storages s))
       (with_db_accounts (putback pa (so_addrHash prev) (db_accounts s))
        (with_db_stateObjectsDestruct (if pd : bool then db_stateObjectsDestruct s
            else delete (so_address prev) (db_stateObjectsDestruct s)) (put prev s)))))).
Proof. destruct s, pd, pa, ps, ex, pso; reflexivity. Qed.

(** Reverting the entry of a reset puts everything back. *)
Lemma reset_undoable a prev x s : wf s -> db_stateObjects s !! a = Some prev -> so_address x = a ->
  undoable s (put x (reset_state a prev s)).
Proof.
  intros Hwf Hl Hx. pose proof (wf_keyed s Hwf a prev Hl) as Ha. unfold reset_state. cbv zeta.
  remember (bool_decide (is_Some (db_stateObjectsDestruct s !! so_address prev))) as pd eqn:Hpd.
  match goal with |- context [J ?x _] => remember x as e eqn:He end.
  eapply (undoable_entry e); [done|by destruct pd|subst e; apply revert_reset_run|by destruct pd|].
  split.
  - assert (Hao : (if bool_decide (is_Some (db_accountsOrigin s !! so_address prev))
      then Some (default None (db_accountsOrigin s !! so_address prev)) else None) =
      db_accountsOrigin s !! so_address prev) by (by destruct (db_accountsOrigin s !! so_address prev)).
    assert (Hde : forall x, (if pd then db_stateObjectsDestruct s else delete (so_address prev)
        (<[so_address prev := x]> (db_stateObjectsDestruct s))) = db_stateObjectsDestruct s).
    { intros y. destruct pd; [done|]. apply delete_insert_id. symmetry in Hpd.
      apply bool_decide_eq_false in Hpd. by apply eq_None_not_Some. }
    clear He. unfold core. rewrite Hao. specialize (Hde (so_origin prev)).
    destruct pd; cbn -[putback]; rewrite !putback_delete; rewrite ?Hde; done.
  - intros b. match goal with |- opt_eqv _ _ ?f =>
      assert (Hf : f = find_object (put prev (put x s)) b) by (by destruct pd) end.
    rewrite Hf, !lookup_put, Hx, Ha. case_decide; [subst b; rewrite (lookup_live s a prev Hl)|]; apply opt_eqv_refl.
Qed.

Lemma wf_reset a prev x s : wf s -> object_ok a x -> wf (put x (reset_state a prev s)).
Proof.
  intros Hwf Hx.
  set (pd := bool_decide (is_Some (db_stateObjectsDestruct s !! so_address prev))).
  assert (Hf : forall b, find_object (put x (reset_state a prev s)) b =
    if decide (a = b) then Some x else find_object s b).
  { intros b. rewrite lookup_put, (proj1 Hx). case_decide; [done|].
    unfold reset_state. fold pd. by destruct pd. }
  destruct Hwf as [H1 H2 H3 H4 H5 H6 H7]. split; unfold reset_state; fold pd.
  - intros b o. fold pd in Hf. rewrite Hf. case_decide; [|apply H1]. intros [= <-]. by subst.
  - assert (Hd : forall e b n, dirties (db_journal (J e s)) !! b = Some n -> 1 <= n).
    { intros e b n. by apply dirties_append. }
    destruct pd; apply Hd.
  - by destruct pd.
  - by destruct pd.
  - by destruct pd.
  - intros b Hb. rewrite Hf. case_decide; [eauto|]. apply H6. by destruct pd.
  - by destruct pd.
Qed.

Lemma create_undoable a x s : wf s -> find_object s a = None -> so_address x = a ->
  undoable s (put x (J (createObjectChange a) s)).
Proof.
  intros Hwf Hn Hx. eapply undoable_entry; [done|reflexivity|reflexivity|reflexivity|].
  assert (Ha : a ∉ db_stateObjectsDirty s).
  { intros Hd. destruct (wf_dirty s Hwf a Hd) as [? He]. by rewrite Hn in He. }
  split.
  - unfold core. cbn. by rewrite difference_disjoint_L by (by apply disjoint_singleton_r).
  - intros b. change (opt_eqv s (find_object s b) (find_object (del a (put x s)) b)).
    rewrite lookup_del, lookup_put, Hx. case_decide; [subst b|apply opt_eqv_refl].
    rewrite Hn. cbn. unfold find_object in Hn. destruct (db_stateObjects s !! a); [done|].
    by destruct (read_account (db_trie s) a).
Qed.

(** What [createObject] leaves at the address can be any well-formed object. *)
Lemma createObject_step a s n p s' x : wf s -> StateDB.createObject a s = Ret ((n, p), s') ->
  object_ok a x -> step_ok s (put x s').
Proof.
  intros Hwf H Hx. destruct (createObject_inv _ _ _ _ _ H) as (s1 & Hq & Hl & -> & _ & ->).
  pose proof (step_quiet s s1 Hwf Hq) as Hs1. eapply step_trans; [exact Hs1|].
  pose proof (so_wf _ _ Hs1) as Hw1. set (n := with_so_created true (newObject a None)) in *.
  assert (Hpp : forall y, so_address x = so_address n -> put x (put n y) = put x y).
  { intros y He. unfold put. cbn. by rewrite He, insert_insert_eq. }
  rewrite Hpp by apply (proj1 Hx).
  assert (Hf : find_object s1 a = None <-> find_object s a = None).
  { destruct Hq as [[_ Ho] _]. specialize (Ho a). unfold opt_eqv in Ho.
    destruct (find_object s a), (find_object s1 a); done. }
  destruct (find_object s a) as [prev|] eqn:Hfa.
  - split; [|by apply wf_reset|].
    + apply reset_undoable; [done|by apply Hl|apply Hx].
    + unfold reset_state. by destruct (bool_decide (is_Some (db_stateObjectsDestruct s1 !! so_address prev))).
  - split; [|apply wf_write; [done|by rewrite (proj1 Hx)]|done].
    apply create_undoable; [done|by apply Hf|apply Hx].
Qed.

Lemma newObject_ok a : object_ok a (with_so_created true (newObject a None)).
Proof. split_and!; [done|done|apply code_hash_ok_HashBytes]. Qed.

Lemma createObject_live a s n p s' : StateDB.createObject a s = Ret ((n, p), s') ->
  n = with_so_created true (newObject a None) /\ is_live s' n /\ put n s' = s' /\ p = live s a.
Proof.
  intros H. destruct (createObject_inv _ _ _ _ _ H) as (s1 & _ & _ & -> & Hp & ->).
  set (n := with_so_created true (newObject a None)). split_and!; auto; [apply is_live_put|].
  unfold put; cbn. by rewrite insert_insert_eq.
Qed.

Lemma GetOrNew_step a s o s' : wf s -> StateDB.GetOrNewStateObject a s = Ret (o, s') ->
  step_ok s s' /\ is_live s' o /\ so_deleted o = false /\ so_address o = a.
Proof.
  intros Hwf H. unfold StateDB.GetOrNewStateObject in H.
  destruct (getStateObject_spec a s) as (s1 & Hr & Hq & Hl). unfold mthen in H. rewrite Hr in H.
  cbn [obind fst snd] in H. pose proof (step_quiet s s1 Hwf Hq) as Hs1.
  destruct (live s a) as [o1|] eqn:Hlive.
  - unfold mret in H. injection H as -> ->. specialize (Hl o eq_refl).
    pose proof (wf_keyed s' (so_wf _ _ Hs1) a o Hl) as Ha. split_and!; auto.
    + unfold is_live. by rewrite Ha.
    + unfold live in Hlive. destruct (find_object s a) as [y|]; [|done].
      destruct (so_deleted y) eqn:Hd; [done|]. by injection Hlive as <-.
  - destruct (StateDB.createObject a s1) as [[[n p] s2]| |] eqn:Hc; try done. cbn in H.
    unfold mret in H. injection H as <- <-.
    destruct (createObject_live _ _ _ _ _ Hc) as (Hn & Hln & Hp & _).
    split_and!; [|done|by rewrite Hn|by rewrite Hn].
    eapply step_trans; [exact Hs1|]. rewrite <- Hp.
    eapply createObject_step; [apply Hs1|exact Hc|]. rewrite Hn. apply newObject_ok.
Qed.

(** ** The operations of the StateDB interface *)

Lemma with_object_step a f s r s' : wf s ->
  (forall o s o' s', wf s -> is_live s o -> so_deleted o = false -> f o s = Ret (o', s') -> obj_step s o s' o') ->
  (let* o := StateDB.GetOrNewStateObject a in f o ;;; mret tt) s = Ret (r, s') -> step_ok s s'.
Proof.
  intros Hwf Hf H. apply mthen_Ret in H as (o & s1 & Hg & H).
  destruct (GetOrNew_step a s o s1 Hwf Hg) as (Hs1 & Hl & Hd & _).
  apply mthen_Ret in H as (o' & s2 & H2 & H). minv1 H.
  eapply step_trans; [exact Hs1|]. eapply os_step, Hf; eauto. apply Hs1.
Qed.

Lemma AddBalance_obj_step o b s o' s' : wf s -> is_live s o -> so_deleted o = false ->
  StateObject.AddBalance o b s = Ret (o', s') -> obj_step s o s' o'.
Proof.
  intros Hwf Hl Hd H. unfold StateObject.AddBalance in H.
  destruct (Z.sgn b =? 0); [|by eapply SetBalance_step]. destruct (StateObject.empty o); minv1 H.
  - unfold StateObject.touch in Hm. rewrite jappend_J in Hm. injection Hm as _ <-.
    split; [|done|done]. split; [|by apply wf_J|done].
    eapply undoable_entry; [done|reflexivity|reflexivity|reflexivity|].
    split; [done|]. intros ?. apply opt_eqv_refl.
  - split; [by apply step_refl|done|done].
Qed.

Lemma SubBalance_obj_step o b s o' s' : wf s -> is_live s o -> so_deleted o = false ->
  StateObject.SubBalance o b s = Ret (o', s') -> obj_step s o s' o'.
Proof.
  intros Hwf Hl Hd H. unfold StateObject.SubBalance in H.
  destruct (Z.sgn b =? 0); [|by eapply SetBalance_step]. minv1 H. split; [by apply step_refl|done|done].
Qed.

Lemma CreateAccount_step a s r s' : wf s -> StateDB.CreateAccount a s = Ret (r, s') -> step_ok s s'.
Proof.
  intros Hwf H. unfold StateDB.CreateAccount in H. apply mthen_Ret in H as ([n p] & s1 & Hc & H).
  destruct (createObject_live _ _ _ _ _ Hc) as (Hn & _ & Hput & _). destruct p as [p|].
  - unfold StateObject.setBalance in H. minv1 H. rewrite setStateObject_put in Hm1. injection Hm1 as H. subst s'.
    eapply createObject_step; [done|exact Hc|]. split_and!; [done|done|apply code_hash_ok_HashBytes].
  - minv1 H. rewrite <- Hput. eapply createObject_step; [done|exact Hc|]. apply newObject_ok.
Qed.

(** Steps that change only the shared part of the state. *)
Lemma step_shared e s f : wf s ->
  (forall t, db_stateObjects (f t) = db_stateObjects t /\ db_trie (f t) = db_trie t /\ obj_ctx (f t) = obj_ctx t) ->
  wf (f (J e s)) -> db_journal (f (J e s)) = journal_append e (db_journal s) -> revs (f (J e s)) = revs s ->
  (exists t, StateDB.revert_entry e (f (J e s)) = Ret (tt, t) /\ db_journal t = db_journal (f (J e s)) /\
     core (with_db_journal (db_journal s) t) = core s /\ db_stateObjects t = db_stateObjects s) ->
  step_ok s (f (J e s)).
Proof.
  intros Hwf Hf Hw Hj Hr (t & Ht & Hjt & Hc & Ho). split; [|done|done].
  eapply undoable_entry; eauto. split; [done|]. intros a.
  assert (He : find_object (with_db_journal (db_journal s) t) a = find_object s a).
  { unfold find_object. unfold core in Hc. simplify_eq Hc. intros. cbn in *. rewrite Ho.
    by replace (db_trie t) with (db_trie s). }
  rewrite He. apply opt_eqv_refl.
Qed.

Lemma AddRefund_step g s r s' : wf s -> StateDB.AddRefund g s = Ret (r, s') -> step_ok s s'.
Proof.
  intros Hwf [= <- <-].
  apply (step_shared (refundChange (db_refund s)) s (fun t => with_db_refund (u64 (db_refund t + g)) t)); auto.
  - destruct (wf_J s (refundChange (db_refund s)) Hwf). split; auto. apply u64_in64.
  - eexists. split_and!; reflexivity.
Qed.

Lemma SubRefund_step g s r s' : wf s -> StateDB.SubRefund g s = Ret (r, s') -> step_ok s s'.
Proof.
  intros Hwf H. unfold StateDB.SubRefund, mthen in H. cbn in H. destruct (Z.ltb_spec (db_refund s) g); [done|].
  injection H as <- <-.
  apply (step_shared (refundChange (db_refund s)) s (fun t => with_db_refund (db_refund t - g) t)); auto.
  - destruct (wf_J s (refundChange (db_refund s)) Hwf). split; auto. cbn. lia.
  - eexists. split_and!; reflexivity.
Qed.

Lemma AddPreimage_step h p s r s' : wf s -> StateDB.AddPreimage h p s = Ret (r, s') -> step_ok s s'.
Proof.
  intros Hwf H. unfold StateDB.AddPreimage, mthen in H. cbn in H.
  destruct (db_preimages s !! h) eqn:Hp; [injection H as <- <-; by apply step_refl|]. injection H as <- <-.
  apply (step_shared (addPreimageChange h) s (fun t => with_db_preimages (<[h := p]> (db_preimages t)) t)); auto.
  - destruct (wf_J s (addPreimageChange h) Hwf). by split.
  - eexists. split_and!; [reflexivity|reflexivity| |reflexivity].
    unfold core; cbn. by rewrite delete_insert_id.
Qed.

Lemma AddLog_step lg s r s' : wf s -> StateDB.AddLog lg s = Ret (r, s') -> step_ok s s'.
Proof.
  intros Hwf [= <- <-]. set (lg' := mkLog _ _ _ _ _ _ _ _).
  set (old := default [] (db_logs s !! db_thash s)).
  apply (step_shared (addLogChange (db_thash s)) s (fun t => with_db_logSize (u64 (db_logSize t + 1))
    (with_db_logs (<[db_thash t := default [] (db_logs t !! db_thash t) ++ [lg']]> (db_logs t)) t))); auto.
  - destruct (wf_J s (addLogChange (db_thash s)) Hwf) as [H1 H2 H3 H4 H5 H6 H7]. split; auto; cbn; [|apply u64_in64].
    intros h l. rewrite lookup_insert. case_decide; [|apply H4]. intros [= <-] He.
    apply (f_equal length) in He. rewrite length_app in He. cbn in He. lia.
  - pose proof (wf_logSize s Hwf) as Hsz.
    assert (Hu : u64 (u64 (db_logSize s + 1) - 1) = db_logSize s).
    { unfold u64. rewrite Zminus_mod_idemp_l. replace (db_logSize s + 1 - 1) with (db_logSize s) by lia.
      by apply u64_small. }
    unfold StateDB.revert_entry, mthen. cbn. rewrite lookup_insert_eq. cbn. fold old.
    destruct old as [|x l] eqn:Hold.
    + cbn. eexists. split_and!; [reflexivity|reflexivity| |reflexivity].
      unfold core; cbn. rewrite Hu. rewrite delete_insert_id; [done|].
      destruct (db_logs s !! db_thash s) eqn:Hl; [|done]. subst old. cbn in Hold.
      exfalso. by apply (wf_logs s Hwf _ _ Hl).
    + rewrite (proj2 (Z.eqb_neq _ _)) by (unfold Zlen; cbn; rewrite length_app; cbn; lia).
      assert (Hsl : go_slice ((x :: l) ++ [lg']) 0 (Zlen ((x :: l) ++ [lg']) - 1) = Ret (x :: l)).
      { rewrite go_slice_Ret by (unfold Zlen; rewrite length_app; cbn; lia). f_equal. cbn [Z.to_nat].
        rewrite drop_0. replace (Z.to_nat _) with (length (x :: l)) by (unfold Zlen; rewrite length_app; cbn; lia).
        apply take_app_length. }
      unfold mlift. cbn [app] in Hsl |- *. rewrite Hsl. cbn [obind fst snd mmodify].
      eexists. split_and!; [reflexivity|reflexivity| |reflexivity].
      unfold core; cbn. rewrite Hu, insert_insert_eq, insert_id; [done|].
      unfold old in Hold. destruct (db_logs s !! db_thash s); cbn in Hold; [by rewrite Hold|done].
Qed.

(** ** Access list steps *)

Lemma eqv_accessList s t : core t = core s -> db_stateObjects t = db_stateObjects s -> eqv s t.
Proof.
  intros Hc Ho. split; [done|]. intros a. assert (He : find_object t a = find_object s a).
  { unfold find_object. unfold core in Hc. simplify_eq Hc. intros. rewrite Ho.
    by replace (db_trie t) with (db_trie s). }
  rewrite He. apply opt_eqv_refl.
Qed.

Lemma wf_accessList_upd s al : wf s -> al_wf al -> wf (with_db_accessList al s).
Proof. intros []. by split. Qed.

Lemma AddAddress_step a s r s' : wf s -> StateDB.AddAddressToAccessList a s = Ret (r, s') -> step_ok s s'.
Proof.
  intros Hwf H. unfold StateDB.AddAddressToAccessList, mthen in H. cbn in H.
  destruct (AddAddress_spec (db_accessList s) a (wf_accessList s Hwf)) as (al' & Ha & Hal & _).
  pose proof (AddAddress_undo _ _ _ _ Ha) as Hu. rewrite Ha in H. cbn in H.
  destruct (negb _); injection H as <- <-; cbn in Hu.
  - split; [|by apply (wf_J (with_db_accessList al' s) (accessListAddAccountChange a)), wf_accessList_upd|done].
    exists [accessListAddAccountChange a]. eexists. split_and!; [reflexivity|reflexivity|].
    apply eqv_accessList; [|done]. unfold core; cbn. rewrite Hu. by destruct (db_journal s).
  - split; [|by apply wf_accessList_upd|done]. exists []. eexists. split_and!; [reflexivity|reflexivity|].
    apply eqv_accessList; [|done]. unfold core; cbn. by rewrite Hu.
Qed.

Lemma AddSlot_step a k s r s' : wf s -> StateDB.AddSlotToAccessList a k s = Ret (r, s') -> step_ok s s'.
Proof.
  intros Hwf H. unfold StateDB.AddSlotToAccessList in H.
  destruct (AddSlot_spec (db_accessList s) a k (wf_accessList s Hwf)) as (al' & Ha & Hal & _).
  pose proof (AddSlot_undo _ _ _ _ _ (wf_accessList s Hwf) Ha) as Hu. unfold undo_AddSlot in Hu.
  remember (bool_decide (al_view _ !! _ = None)) as ca. remember (bool_decide (k ∉ _)) as ck. clear Heqca Heqck.
  unfold mthen, mlift, mget, mput in H. cbn [obind fst snd] in H. rewrite Ha in H.
  assert (Hf : s' = (if ck then J (accessListAddSlotChange a k) else id)
    ((if ca then J (accessListAddAccountChange a) else id) (with_db_accessList al' s))).
  { destruct ca, ck; cbn in H; injection H as _ <-; done. }
  clear H. cbn [fst snd] in Hu. apply obind_Ret in Hu as (al1 & H1 & H2). injection H2 as H2.
  split; [| |by rewrite Hf; destruct ca, ck].
  - exists ((if ck then [accessListAddSlotChange a k] else []) ++ (if ca then [accessListAddAccountChange a] else [])).
    subst s'. destruct ck; [|injection H1 as <-]; destruct ca; cbn [app]; eexists;
      (split_and!; [reflexivity| |]);
      [unfold StateDB.revert_entries, StateDB.revert_step, StateDB.revert_entry, mthen, mlift; cbn;
       rewrite ?H1; reflexivity| |
       unfold StateDB.revert_entries, StateDB.revert_step, StateDB.revert_entry, mthen, mlift; cbn;
       rewrite ?H1; reflexivity| | reflexivity | | reflexivity |];
      (apply eqv_accessList; [|done]; unfold core; cbn; rewrite H2; by destruct (db_journal s)).
  - rewrite Hf. destruct ca, ck; repeat apply wf_J; by apply wf_accessList_upd.
Qed.

(** ** Snapshots *)

Lemma Search_loop_spec fuel f : forall i j n,
  (Z.to_nat (j - i) < fuel)%nat -> 0 <= i <= j -> j <= n ->
  (forall a b, 0 <= a <= b -> b < n -> f a = true -> f b = true) ->
  (forall a, 0 <= a < i -> f a = false) -> (forall a, j <= a < n -> f a = true) ->
  exists k, Search_loop fuel f i j = Ret k /\ 0 <= k <= n /\
    (forall a, 0 <= a < k -> f a = false) /\ (forall a, k <= a < n -> f a = true).
Proof.
  induction fuel as [|fuel IH]; intros i j n Hf Hi Hj Hmono Hlo Hhi; [lia|]. cbn [Search_loop].
  destruct (Z.ltb_spec i j).
  - rewrite Z.shiftr_div_pow2 by lia. change (2 ^ 1) with 2.
    assert (Hh : i <= (i + j) / 2 < j).
    { split; [apply Z.div_le_lower_bound|apply Z.div_lt_upper_bound]; lia. }
    set (h := (i + j) / 2) in *. destruct (f h) eqn:Hfh; cbn [negb].
    + apply IH; auto; try lia. intros a Ha. destruct (Z.lt_ge_cases a j); [|apply Hhi; lia].
      apply (Hmono h); auto; lia.
    + apply IH; auto; try lia. intros a Ha. destruct (f a) eqn:Hfa; [|done].
      assert (f h = true) by (apply (Hmono a); auto; lia). congruence.
  - exists i. split_and!; auto; try lia. intros a Ha. apply Hhi. lia.
Qed.

Lemma sort_Search_spec n f : 0 <= n -> (forall a b, 0 <= a <= b -> b < n -> f a = true -> f b = true) ->
  exists k, sort_Search n f = Ret k /\ 0 <= k <= n /\
    (forall a, 0 <= a < k -> f a = false) /\ (forall a, k <= a < n -> f a = true).
Proof. intros Hn Hm. apply Search_loop_spec with (n := n); auto; lia. Qed.

(** Reverting the journal to length [n] leads to [s0]. *)
Definition reverts_to (n : Z) (s s0 : StateDB) : Prop :=
  0 <= n <= journal_length (db_journal s) /\
  exists t, StateDB.revert_entries (take (Z.to_nat (journal_length (db_journal s) - n)) (entries (db_journal s))) s
    = Ret (tt, t) /\ eqv s0 t.

(** A state with live snapshots that all lead back to well-formed states. *)
Record good (s : StateDB) : Prop := {
  good_wf : wf s;
  good_sorted : forall i j ri rj, (i < j)%nat -> db_validRevisions s !! i = Some ri ->
    db_validRevisions s !! j = Some rj -> rev_id ri < rev_id rj /\ journalIndex ri <= journalIndex rj;
  good_next : forall i r, db_validRevisions s !! i = Some r -> rev_id r < db_nextRevisionId s;
  good_rev : forall i r, db_validRevisions s !! i = Some r ->
    exists s0, wf s0 /\ reverts_to (journalIndex r) s s0
}.

(** [id] is the identifier of a live snapshot taken at [s0]. *)
Definition snap_at (s : StateDB) (id : Z) (s0 : StateDB) : Prop :=
  exists i r, db_validRevisions s !! i = Some r /\ rev_id r = id /\ reverts_to (journalIndex r) s s0.

Lemma reverts_to_step n s s' s0 : wf s -> undoable s s' -> wf s' -> reverts_to n s s0 -> reverts_to n s' s0.
Proof.
  intros Hwf (E & t & He & Hr & Hq) Hwf' (Hn & u & Hu & Hqu). unfold reverts_to, journal_length, Zlen in *.
  rewrite He, length_app. split; [lia|].
  pose proof (wf_keyed s' Hwf') as Hk'.
  destruct (revert_entries_agree E s' s' t Hk' Hk' (eqv_refl s') Hr) as (_ & _ & _ & Hkt & _).
  destruct (revert_entries_agree _ s t u (wf_keyed s Hwf) Hkt Hq Hu) as (u' & Hu' & Hqu' & _).
  exists u'. split; [|by etrans]. rewrite take_app.
  rewrite (take_ge E) by lia.
  replace (Z.to_nat (Z.of_nat (length E + length (entries (db_journal s))) - n) - length E)%nat
    with (Z.to_nat (Z.of_nat (length (entries (db_journal s))) - n)) by lia.
  rewrite revert_entries_app. unfold mthen. rewrite Hr. done.
Qed.

Lemma good_step s s' : good s -> step_ok s s' -> good s' /\
  forall id s0, snap_at s id s0 -> snap_at s' id s0.
Proof.
  intros [H1 H2 H3 H4] [Hu Hw Hr]. unfold revs in Hr. injection Hr as Hr1 Hr2.
  assert (Hrev : forall n s0, reverts_to n s s0 -> reverts_to n s' s0) by (intros; by apply (reverts_to_step _ s)).
  split.
  - split; rewrite ?Hr1, ?Hr2; auto. intros i r Hi. destruct (H4 i r Hi) as (s0 & ? & ?). eauto.
  - intros id s0 (i & r & Hi & Hid & Hrt). exists i, r. rewrite Hr1. auto.
Qed.

Lemma Snapshot_good s id s' : good s -> StateDB.Snapshot s = Ret (id, s') ->
  good s' /\ snap_at s' id s /\ id = db_nextRevisionId s /\ db_nextRevisionId s' = id + 1 /\
  db_validRevisions s' = db_validRevisions s ++ [mkRevision id (journal_length (db_journal s))] /\
  (forall k s0, snap_at s k s0 -> snap_at s' k s0).
Proof.
  intros [H1 H2 H3 H4] [= <- <-]. set (r0 := mkRevision _ _). set (s1 := with_db_validRevisions _ _).
  assert (Heq : eqv s s1) by (apply eqv_accessList; done).
  assert (Hrev : forall n s0, reverts_to n s s0 -> reverts_to n s1 s0).
  { intros n s0. apply reverts_to_step; auto; [|by eapply wf_eqv]. exists [], s1. done. }
  assert (Hnew : reverts_to (journalIndex r0) s1 s).
  { unfold reverts_to, r0; cbn. split; [unfold journal_length; pose proof (Zlen_nonneg (entries (db_journal s))); lia|].
    exists s1. rewrite Z.sub_diag. done. }
  assert (Hidx : forall i r, (db_validRevisions s ++ [r0]) !! i = Some r ->
    db_validRevisions s !! i = Some r \/ (i = length (db_validRevisions s) /\ r = r0)).
  { intros i r Hi. destruct (decide (i < length (db_validRevisions s))%nat).
    - rewrite lookup_app_l in Hi by done. by left.
    - rewrite lookup_app_r in Hi by lia. apply list_lookup_singleton_Some in Hi as [? <-]. right. split; [lia|done]. }
  split_and!; auto.
  - split; auto.
    + by eapply wf_eqv.
    + cbn. intros i j ri rj Hij Hi Hj. apply Hidx in Hi as [Hi|[-> ->]], Hj as [Hj|[-> ->]].
      * eauto.
      * cbn. split; [by eapply H3|]. destruct (H4 i ri Hi) as (s0 & _ & Hn & _). lia.
      * apply lookup_lt_Some in Hj. lia.
      * lia.
    + cbn. intros i r Hi. apply Hidx in Hi as [Hi|[-> ->]]; [specialize (H3 i r Hi); lia|cbn; lia].
    + cbn. intros i r Hi. apply Hidx in Hi as [Hi|[-> ->]]; [destruct (H4 i r Hi) as (s0 & ? & ?); eauto|eauto].
  - exists (length (db_validRevisions s)), r0. cbn. split_and!; auto. by rewrite lookup_app_r, Nat.sub_diag by lia.
  - intros k s0 (i & r & Hi & Hid & Hrt). exists i, r. cbn. split_and!; auto.
    rewrite lookup_app_l; [done|]. by eapply lookup_lt_Some.
Qed.

(** No [revert] method touches the journal or the revisions. *)
Lemma revert_entry_journal e s t : keyed s -> StateDB.revert_entry e s = Ret (tt, t) ->
  db_journal t = db_journal s.
Proof.
  intros Hk H.
  assert (Hob : forall a f g, (forall s o, f o s = Ret (g o, put (g o) s)) ->
    StateDB.on_object a f s = Ret (tt, t) -> db_journal t = db_journal s).
  { intros a f g Hf Ho. unfold StateDB.on_object, mthen in Ho.
    destruct (getStateObject_spec a s) as (s1 & Hr & (Hq & _) & _). rewrite Hr in Ho. cbn [obind fst snd] in Ho.
    destruct (live s a) as [o|]; [|done]. rewrite Hf in Ho. unfold mret in Ho. cbn in Ho. injection Ho as <-.
    apply (eqv_journal s s1 Hq). }
  destruct e; cbn [StateDB.revert_entry] in H.
  - by injection H as <-.
  - change (StateDB.revert_entry (resetObjectChange account prev prevdestruct prevAccount prevStorage
      prevAccountOriginExist prevAccountOrigin prevStorageOrigin) s = Ret (tt, t)) in H.
    rewrite revert_reset_run in H. by injection H as <-.
  - by eapply Hob; [|exact H].
  - by eapply Hob; [|exact H].
  - by eapply Hob; [|exact H].
  - by eapply (Hob _ _ (set_code _ _)); [|exact H].
  - by injection H as <-.
  - unfold mthen in H. cbn in H. destruct (_ =? 1); [by injection H as <-|].
    unfold mlift in H. destruct (go_slice _ _ _); [|done|done]. by injection H as <-.
  - by injection H as <-.
  - by injection H as <-.
  - by injection H as <-.
  - unfold mthen, mlift in H. cbn in H. destruct (AccessList.DeleteSlot _ _ _); [|done|done]. by injection H as <-.
Qed.

Lemma revert_entries_drop E : forall s t, keyed s -> StateDB.revert_entries E s = Ret (tt, t) ->
  entries (db_journal t) = drop (length E) (entries (db_journal s)).
Proof.
  induction E as [|e E IH]; intros s t Hk H; cbn [StateDB.revert_entries] in H.
  - injection H as <-. cbn. by rewrite drop_0.
  - apply mthen_Ret in H as ([] & s1 & H1 & H2).
    destruct (revert_step_agree e s s s1 Hk Hk (eqv_refl s) H1) as (_ & _ & _ & Hk1 & _).
    rewrite (IH s1 t Hk1 H2). unfold StateDB.revert_step in H1.
    apply mthen_Ret in H1 as ([] & s2 & H1 & [= <-]). cbn.
    rewrite (revert_entry_journal e s s2 Hk H1). destruct (entries (db_journal s)); cbn; [by rewrite !drop_nil|done].
Qed.

(** A revert to a later point can be continued to an earlier one. *)
Lemma reverts_to_later n m s t s0 : keyed s -> n <= m -> reverts_to n s s0 ->
  0 <= m <= journal_length (db_journal s) ->
  StateDB.revert_entries (take (Z.to_nat (journal_length (db_journal s) - m)) (entries (db_journal s))) s = Ret (tt, t) ->
  reverts_to n t s0 /\ journal_length (db_journal t) = m.
Proof.
  intros Hk Hnm (Hn & u & Hu & Hq) Hm Ht. pose proof (revert_entries_drop _ _ _ Hk Ht) as Hd.
  unfold journal_length, Zlen in *. rewrite length_take in Hd.
  set (l := entries (db_journal s)) in *. set (k := Z.to_nat (Z.of_nat (length l) - m)) in *.
  assert (Hlt : length (entries (db_journal t)) = (length l - k)%nat).
  { rewrite Hd, length_drop. lia. }
  split; [|lia]. unfold reverts_to, journal_length, Zlen. split; [lia|]. exists u. split; [|done].
  rewrite Hlt, Hd. replace (Nat.min k (length l)) with k by lia.
  replace (take (Z.to_nat (Z.of_nat (length l) - n)) l) with
    (take k l ++ take (Z.to_nat (Z.of_nat (length l - k)%nat - n)) (drop k l)) in Hu.
  - rewrite revert_entries_app in Hu. unfold mthen in Hu. rewrite Ht in Hu. exact Hu.
  - rewrite take_take_drop. f_equal. lia.
Qed.

Lemma reverts_to_eqv n s t s0 : keyed s -> keyed t -> eqv s t -> reverts_to n s s0 -> reverts_to n t s0.
Proof.
  intros Hk Hkt He (Hn & u & Hu & Hq). unfold reverts_to. rewrite (eqv_journal s t He). split; [done|].
  destruct (revert_entries_agree _ s t u Hk Hkt He Hu) as (u' & Hu' & Hq' & _). exists u'. split; [done|by etrans].
Qed.

(** The binary search of [RevertToSnapshot] finds the revision. *)
Lemma find_revision s i r : good s -> db_validRevisions s !! i = Some r ->
  sort_Search (Zlen (db_validRevisions s)) (fun j : Z => match db_validRevisions s !! Z.to_nat j with
    Some x => rev_id r <=? rev_id x | None => false end) = Ret (Z.of_nat i).
Proof.
  intros [_ H2 _ _] Hi. set (f := fun j : Z => _). pose proof (lookup_lt_Some _ _ _ Hi) as Hlt.
  destruct (sort_Search_spec (Zlen (db_validRevisions s)) f) as (k & Hs & Hkr & Hlo & Hhi).
  { unfold Zlen; lia. }
  { unfold f, Zlen. intros a b Hab Hb. destruct (db_validRevisions s !! Z.to_nat a) as [ra|] eqn:Ha; [|done].
    destruct (lookup_lt_is_Some_2 (db_validRevisions s) (Z.to_nat b)) as [rb Hrb]; [lia|]. rewrite Hrb.
    intros Hle%Z.leb_le. apply Z.leb_le. destruct (decide (a = b)) as [-> |]; [simplify_eq; lia|].
    destruct (H2 (Z.to_nat a) (Z.to_nat b) ra rb); auto; lia. }
  rewrite Hs. f_equal. unfold Zlen in *. destruct (Z.lt_trichotomy k (Z.of_nat i)) as [Hc|[Hc|Hc]]; [|done|].
  - specialize (Hhi k). unfold f in Hhi. destruct (lookup_lt_is_Some_2 (db_validRevisions s) (Z.to_nat k)) as [rk Hrk]; [lia|].
    rewrite Hrk in Hhi. specialize (Hhi ltac:(lia)). apply Z.leb_le in Hhi.
    destruct (H2 (Z.to_nat k) i rk r); auto; lia.
  - specialize (Hlo (Z.of_nat i)). unfold f in Hlo. rewrite Nat2Z.id, Hi in Hlo.
    specialize (Hlo ltac:(lia)). apply Z.leb_gt in Hlo. lia.
Qed.

Lemma RevertToSnapshot_spec s id s0 : good s -> snap_at s id s0 -> wf s0 ->
  exists s' i r, StateDB.RevertToSnapshot id s = Ret (tt, s') /\ eqv s0 s' /\ good s' /\
    db_validRevisions s !! i = Some r /\ rev_id r = id /\
    db_validRevisions s' = take i (db_validRevisions s) /\ db_nextRevisionId s' = db_nextRevisionId s /\
    (forall k s1, k < id -> snap_at s k s1 -> snap_at s' k s1).
Proof.
  intros Hg (i & r & Hi & <- & Hrt) Hw0. pose proof (find_revision s i r Hg Hi) as Hs.
  destruct Hg as [H1 H2 H3 H4]. pose proof (wf_keyed s H1) as Hk. pose proof (lookup_lt_Some _ _ _ Hi) as Hlt.
  unfold StateDB.RevertToSnapshot, mthen, mget, mlift. cbn [obind fst snd].
  rewrite Hs. cbn [obind fst snd]. rewrite (proj2 (Z.eqb_neq _ _)) by (unfold Zlen; lia).
  unfold go_index. rewrite (proj2 (Z.leb_le _ _)), Nat2Z.id, Hi by lia. cbn [obind fst snd].
  rewrite Z.eqb_refl. cbn [negb]. unfold StateDB.journal_revert, mthen, mget, mmodify. cbn [obind fst snd].
  pose proof Hrt as (Hn & t & Ht & Hq).
  rewrite (proj2 (Z.ltb_ge _ _)), (proj2 (Z.ltb_ge _ _)) by lia. cbn [orb]. rewrite Ht. cbn [obind fst snd].
  set (s' := with_db_validRevisions _ t).
  destruct (revert_entries_agree _ s s t Hk Hk (eqv_refl s) Ht) as (_ & _ & _ & Hkt & _ & Hrv & _).
  unfold revs in Hrv. injection Hrv as Hrv1 Hrv2.
  assert (Heq : eqv t s') by (apply eqv_accessList; done).
  assert (Hkeep : forall j rj s1, (j < i)%nat -> db_validRevisions s !! j = Some rj ->
    reverts_to (journalIndex rj) s s1 -> reverts_to (journalIndex rj) s' s1).
  { intros j rj s1 Hj Hrj Hr1. apply (reverts_to_eqv _ t); auto.
    eapply (reverts_to_later _ (journalIndex r) s t); eauto. apply (H2 j i rj r); auto. }
  assert (Hs1 : db_validRevisions s' = take i (db_validRevisions s)) by (unfold s'; cbn; by rewrite Hrv1).
  assert (Hs2 : db_nextRevisionId s' = db_nextRevisionId s) by (unfold s'; cbn; by rewrite Hrv2).
  clearbody s'. assert (Hq' : eqv s0 s') by (by etrans).
  exists s', i, r. split_and!; auto.
  - split; [by eapply wf_eqv| | |]; rewrite Hs1.
    + intros a b ra rb Hab Ha Hb. apply lookup_take_Some in Ha as [Ha _], Hb as [Hb _]. eauto.
    + rewrite Hs2. intros a ra Ha. apply lookup_take_Some in Ha as [Ha _]. eauto.
    + intros a ra Ha. apply lookup_take_Some in Ha as [Ha Hai].
      destruct (H4 a ra Ha) as (s1 & ? & ?). exists s1. split; [done|]. by apply (Hkeep a).
  - intros j s1 Hj (a & ra & Ha & Hida & Hra). assert (Hai : (a < i)%nat).
    { destruct (decide (a < i)%nat); [done|]. destruct (decide (a = i)) as [-> |]; [simplify_eq; lia|].
      destruct (H2 i a r ra); auto; lia. }
    exists a, ra. rewrite Hs1. split_and!; [by apply lookup_take_Some|done|by apply (Hkeep a)].
Qed.

(** ** Reads *)

Lemma snapStorage_runs o key s v err : snap_view o key = Ret (v, err) ->
  exists s', StateObject.snapStorage o key s = Ret ((v, err), s').
Proof.
  unfold StateObject.snapStorage, snap_view. destruct snap as [[acc storage]|]; [|intros [= <- <-]; by eexists].
  destruct (storage (so_addrHash o) (Keccak256Hash (HashBytes key))) as [en er].
  destruct (0 <? Zlen en); [|intros [= <- <-]; by eexists].
  unfold mthen, mlift. destruct (Rlp.Split en) as [[e|[[k c] rest]]| |]; cbn [obind]; intros [= <- <-]; by eexists.
Qed.

Lemma trieStorage_runs o key value s v : trie_view s o key value = Ret v ->
  exists o' s', StateObject.trieStorage o key value s = Ret ((v, o'), s').
Proof.
  unfold trie_view, trie_of, StateObject.trieStorage, StateObject.getTrie, mthen, mret, mget.
  destruct (so_trie o) as [tr|] eqn:Ht; cbn [obind fst snd].
  - destruct (GetStorage tr (so_address o) (HashBytes key)); intros [= <-]; by do 2 eexists.
  - destruct (OpenStorageTrie _ _ _) as [e|tr]; [intros [= <-]; by do 2 eexists|]. cbn [obind fst snd].
    rewrite setStateObject_put. cbn [obind fst snd].
    change (so_address (with_so_trie (Some tr) o)) with (so_address o).
    destruct (GetStorage tr (so_address o) (HashBytes key)); intros [= <-]; by do 2 eexists.
Qed.

Lemma GetCommittedState_runs o key s v : committed_view s o key = Ret v ->
  exists o' s', StateObject.GetCommittedState o key s = Ret ((v, o'), s').
Proof.
  unfold StateObject.GetCommittedState, committed_view, storage_view.
  destruct (so_pendingStorage o !! key); [intros [= <-]; by do 2 eexists|].
  destruct (so_originStorage o !! key); [intros [= <-]; by do 2 eexists|].
  unfold mthen at 1, mget. cbn [obind fst snd].
  destruct (db_stateObjectsDestruct s !! so_address o); [intros [= <-]; by do 2 eexists|].
  destruct (snap_view o key) as [[value err]| |] eqn:Hv; [|done|done]. cbn [obind].
  destruct (snapStorage_runs o key s value err Hv) as [s1 Hr]. unfold mthen at 1. rewrite Hr. cbn [obind fst snd].
  assert (Ht : trie_view s1 o key value = trie_view s o key value).
  { destruct (snapStorage_quiet _ _ _ _ _ _ Hr) as (_ & [[Hcore _] _] & _).
    unfold trie_view, trie_of. unfold core in Hcore. simplify_eq Hcore. intros.
    by replace (db_originalRoot s1) with (db_originalRoot s). }
  rewrite <- Ht. destruct snap; [destruct err|]; [apply trieStorage_runs| |apply trieStorage_runs].
  intros [= <-]. by do 2 eexists.
Qed.

Lemma GetState_runs o key s v : state_view s o key = Ret v ->
  exists o' s', StateObject.GetState o key s = Ret ((v, o'), s').
Proof.
  unfold StateObject.GetState, state_view. destruct (so_dirtyStorage o !! key); [|apply GetCommittedState_runs].
  intros [= <-]. by do 2 eexists.
Qed.

Lemma Code_runs o s : exists o' s', StateObject.Code o s = Ret ((code_view o, o'), s').
Proof.
  unfold StateObject.Code, code_view. destruct (so_code o); [by do 2 eexists|].
  case_bool_decide; [by do 2 eexists|]. destruct (ContractCode _ _) as [c [e|]]; by do 2 eexists.
Qed.

(** What a state answers about an address. *)
Definition account {A} (f : stateObject -> A) (d : A) (s : StateDB) (a : Z) : A :=
  match live s a with Some o => f o | None => d end.

Definition slot_view (s : StateDB) (a k : Z) : outcome Z := account (fun o => state_view s o k) (Ret 0) s a.
Definition committed_slot_view (s : StateDB) (a k : Z) : outcome Z :=
  account (fun o => committed_view s o k) (Ret 0) s a.

(** [m] reads [v] and changes at most caches. *)
Definition reads {A} (m : M StateDB A) (s : StateDB) (v : A) : Prop :=
  exists s', m s = Ret (v, s') /\ quiet s s'.

Lemma reads_account {A} (f : stateObject -> A) d a s :
  reads (let* o := StateDB.getStateObject a in mret (match o with Some o => f o | None => d end)) s (account f d s a).
Proof.
  destruct (getStateObject_spec a s) as (s1 & Hr & Hq & _). exists s1. split; [|done].
  unfold mthen. by rewrite Hr.
Qed.

(** The same for a getter that goes on to read a part of the object. *)
Lemma reads_part {A} (f : stateObject -> M StateDB (A * stateObject)) (g : StateDB -> stateObject -> outcome A) d a s v :
  wf s -> (forall s s' o, core s = core s' -> g s o = g s' o) ->
  (forall s o v, is_live s o -> g s o = Ret v -> exists o' s', f o s = Ret ((v, o'), s') /\ quiet s s') ->
  account (g s) (Ret d) s a = Ret v ->
  reads (let* o := StateDB.getStateObject a in
         match o with Some o => let* (x, _) := f o in mret x | None => mret d end) s v.
Proof.
  intros Hwf Hg Hf Hv. destruct (getStateObject_spec a s) as (s1 & Hr & Hq & Hl). unfold reads, mthen at 1. rewrite Hr.
  cbn [obind fst snd]. unfold account in Hv. destruct (live s a) as [o|]; [|injection Hv as <-; by exists s1].
  specialize (Hl o eq_refl). destruct Hq as (He & Hrv & Hk). pose proof (Hk (wf_keyed s Hwf) a o Hl) as Ha.
  destruct (Hf s1 o v) as (o' & s2 & Ho & Hq2).
  - unfold is_live. by rewrite Ha.
  - rewrite <- Hv. apply Hg. symmetry. apply He.
  - exists s2. unfold mthen. rewrite Ho. split; [done|]. eapply quiet_trans; [|done]. done.
Qed.

Lemma GetState_reads a k s v : wf s -> slot_view s a k = Ret v -> reads (StateDB.GetState a k) s v.
Proof.
  intros Hwf. apply (reads_part _ (fun s o => state_view s o k)); [done| |].
  - intros. by apply views_core.
  - intros s0 o w Hl Hv. destruct (GetState_runs o k s0 w Hv) as (o' & s' & Hr). exists o', s'. split; [done|].
    by destruct (GetState_quiet _ _ _ _ _ _ Hl Hr) as [[] _].
Qed.

Lemma GetCommittedState_reads a k s v : wf s -> committed_slot_view s a k = Ret v ->
  reads (StateDB.GetCommittedState a k) s v.
Proof.
  intros Hwf. apply (reads_part _ (fun s o => committed_view s o k)); [done| |].
  - intros. by apply views_core.
  - intros s0 o w Hl Hv. destruct (GetCommittedState_runs o k s0 w Hv) as (o' & s' & Hr). exists o', s'. split; [done|].
    by destruct (GetCommittedState_quiet _ _ _ _ _ _ Hl Hr) as [[] _].
Qed.

Lemma GetCode_reads a s : wf s -> reads (StateDB.GetCode a) s (account code_view None s a).
Proof.
  intros Hwf. apply (reads_part _ (fun _ o => Ret (code_view o))); [done|done| |].
  - intros s0 o w Hl [= <-]. destruct (Code_runs o s0) as (o' & s' & Hr). exists o', s'. split; [done|].
    by destruct (Code_quiet _ _ _ _ _ Hl Hr) as [[] _].
  - unfold account. by destruct (live s a).
Qed.

Lemma eqv_account {A} (f : stateObject -> A) d s s' a : eqv s s' ->
  (forall o o', obj_eqv s o o' -> f o = f o') -> account f d s a = account f d s' a.
Proof.
  intros He Hf. pose proof (eqv_live s s' a He) as Ho. unfold account, opt_eqv in *.
  destruct (live s a), (live s' a); auto; done.
Qed.

(** ** Sequences of operations *)

(** The operations a transaction performs between two snapshots. *)
Inductive op : Type :=
  | OpCreateAccount (a : Z)
  | OpSubBalance (a v : Z)
  | OpAddBalance (a v : Z)
  | OpSetBalance (a v : Z)
  | OpSetNonce (a n : Z)
  | OpSetCode (a : Z) (c : option (list Z))
  | OpSetState (a k v : Z)
  | OpAddRefund (g : Z)
  | OpSubRefund (g : Z)
  | OpAddLog (l : Log)
  | OpAddPreimage (h : Z) (p : list Z)
  | OpAddAddressToAccessList (a : Z)
  | OpAddSlotToAccessList (a k : Z)
  | OpGetAccount (a : Z)
  | OpGetCode (a : Z)
  | OpGetCodeSize (a : Z)
  | OpGetState (a k : Z)
  | OpGetCommittedState (a k : Z)
  | OpSnapshot
  | OpRevertToSnapshot (id : Z).

Definition run_op (o : op) : M StateDB unit :=
  match o with
  | OpCreateAccount a => StateDB.CreateAccount a
  | OpSubBalance a v => StateDB.SubBalance a v
  | OpAddBalance a v => StateDB.AddBalance a v
  | OpSetBalance a v => StateDB.SetBalance a v
  | OpSetNonce a n => StateDB.SetNonce a n
  | OpSetCode a c => StateDB.SetCode a c
  | OpSetState a k v => StateDB.SetState a k v
  | OpAddRefund g => StateDB.AddRefund g
  | OpSubRefund g => StateDB.SubRefund g
  | OpAddLog l => StateDB.AddLog l
  | OpAddPreimage h p => StateDB.AddPreimage h p
  | OpAddAddressToAccessList a => StateDB.AddAddressToAccessList a
  | OpAddSlotToAccessList a k => StateDB.AddSlotToAccessList a k
  | OpGetAccount a => StateDB.getStateObject a ;;; mret tt
  | OpGetCode a => StateDB.GetCode a ;;; mret tt
  | OpGetCodeSize a => StateDB.GetCodeSize a ;;; mret tt
  | OpGetState a k => StateDB.GetState a k ;;; mret tt
  | OpGetCommittedState a k => StateDB.GetCommittedState a k ;;; mret tt
  | OpSnapshot => StateDB.Snapshot ;;; mret tt
  | OpRevertToSnapshot id => StateDB.RevertToSnapshot id
  end.

Fixpoint run_ops (l : list op) : M StateDB unit :=
  match l with
  | [] => mret tt
  | o :: l => run_op o ;;; run_ops l
  end.

(** [id] names a snapshot that has not been reverted. *)
Definition live_id (s : StateDB) (id : Z) : Prop :=
  exists i r, db_validRevisions s !! i = Some r /\ rev_id r = id.

(** A step keeps the snapshots that stay live. *)
Record keeps (s s' : StateDB) : Prop := {
  kp_good : good s';
  kp_next : db_nextRevisionId s <= db_nextRevisionId s';
  kp_back : forall id, id < db_nextRevisionId s -> live_id s' id -> live_id s id;
  kp_snap : forall id s0, wf s0 -> snap_at s id s0 -> live_id s' id -> snap_at s' id s0
}.

Lemma keeps_step s s' : good s -> step_ok s s' -> keeps s s'.
Proof.
  intros Hg Hs. destruct (good_step s s' Hg Hs) as [Hg' Hk]. pose proof (so_revs _ _ Hs) as Hr.
  unfold revs in Hr. injection Hr as Hr1 Hr2. split; auto; [lia|]. unfold live_id. by rewrite Hr1.
Qed.

Lemma live_id_next s id : good s -> live_id s id -> id < db_nextRevisionId s.
Proof. intros Hg (i & r & Hi & <-). by eapply good_next. Qed.

Lemma snap_at_live s id s0 : snap_at s id s0 -> live_id s id.
Proof. intros (i & r & Hi & Hid & _). by exists i, r. Qed.

Lemma keeps_trans s1 s2 s3 : good s1 -> keeps s1 s2 -> keeps s2 s3 -> keeps s1 s3.
Proof.
  intros Hg [Hg2 Hn2 Hb2 Hs2] [Hg3 Hn3 Hb3 Hs3]. split; [done|lia| |].
  - intros id Hid Hl. apply Hb2; [done|]. apply Hb3; [lia|done].
  - intros id s0 Hw Hsn Hl. pose proof (live_id_next s1 id Hg (snap_at_live _ _ _ Hsn)).
    apply Hs3; auto. apply Hs2; auto. apply Hb3; [lia|done].
Qed.

Lemma keeps_Snapshot s id s' : good s -> StateDB.Snapshot s = Ret (id, s') -> keeps s s'.
Proof.
  intros Hg H. destruct (Snapshot_good s id s' Hg H) as (Hg' & _ & Hid & Hn & Hr & Hk).
  split; auto; [lia|]. intros k Hk' (i & r & Hi & <-). rewrite Hr in Hi.
  apply lookup_app_Some in Hi as [Hi|[_ Hi]]; [by exists i, r|].
  apply list_lookup_singleton_Some in Hi as [_ <-]. cbn in Hk'. lia.
Qed.

(** [RevertToSnapshot] panics unless the snapshot is live. *)
Lemma RevertToSnapshot_live id s u s' : good s -> StateDB.RevertToSnapshot id s = Ret (u, s') -> live_id s id.
Proof.
  intros Hg H. unfold StateDB.RevertToSnapshot, mthen, mget, mlift in H. cbn [obind fst snd] in H.
  destruct (sort_Search _ _) as [k| |]; [|done|done]. cbn [obind fst snd] in H.
  destruct (k =? Zlen (db_validRevisions s)); [done|]. unfold go_index in H.
  destruct (0 <=? k); [|done]. destruct (db_validRevisions s !! Z.to_nat k) as [r|] eqn:Hr; [|done].
  cbn [obind fst snd] in H. destruct (Z.eqb_spec (rev_id r) id) as [<-|]; [|done]. by exists (Z.to_nat k), r.
Qed.

Lemma keeps_Revert id s s' : good s -> StateDB.RevertToSnapshot id s = Ret (tt, s') -> keeps s s'.
Proof.
  intros Hg H. destruct (RevertToSnapshot_live id s tt s' Hg H) as (i & r & Hi & Hid).
  destruct (good_rev s Hg i r Hi) as (s0 & Hw0 & Hrt).
  destruct (RevertToSnapshot_spec s id s0 Hg ltac:(by exists i, r) Hw0)
    as (s1 & j & rj & Hr & _ & Hg' & Hj & Hidj & Hv & Hn & Hk).
  rewrite Hr in H. injection H as <-. split; auto; [lia| |].
  - intros k _ (a & ra & Ha & <-). rewrite Hv in Ha. apply lookup_take_Some in Ha as [Ha _]. by exists a, ra.
  - intros k s2 Hw2 Hsn (a & ra & Ha & Hka). apply Hk; [|done]. rewrite Hv in Ha.
    apply lookup_take_Some in Ha as [Ha Haj]. destruct (good_sorted s Hg a j ra rj Haj Ha Hj). lia.
Qed.

(** A getter that returns was quiet. *)
Lemma part_quiet {A} (f : stateObject -> M StateDB (A * stateObject)) d a s v s' : wf s ->
  (forall s o v o' s', is_live s o -> f o s = Ret ((v, o'), s') -> quiet s s') ->
  (let* o := StateDB.getStateObject a in
   match o with Some o => let* (x, _) := f o in mret x | None => mret d end) s = Ret (v, s') -> quiet s s'.
Proof.
  intros Hwf Hf H. destruct (getStateObject_spec a s) as (s1 & Hr & Hq & Hl).
  unfold mthen at 1 in H. rewrite Hr in H. cbn [obind fst snd] in H.
  destruct (live s a) as [o|]; [|by injection H as <- <-]. specialize (Hl o eq_refl).
  pose proof Hq as (_ & _ & Hk). pose proof (Hk (wf_keyed s Hwf) a o Hl) as Ha.
  apply mthen_Ret in H as ([x o'] & s2 & H1 & [= _ <-]).
  eapply quiet_trans; [done|]. eapply Hf; [|done]. unfold is_live. by rewrite Ha.
Qed.

Lemma CodeSize_quiet o s v s' : StateObject.CodeSize o s = Ret (v, s') -> quiet s s'.
Proof.
  intros H. unfold StateObject.CodeSize in H. destruct (so_code o); [by injection H as <- <-|].
  case_bool_decide; [by injection H as <- <-|]. destruct (ContractCodeSize _ _) as [n [e|]];
    apply mthen_Ret in H as (u & s1 & H1 & [= _ <-]); [|by injection H1 as <- <-].
  by destruct (setError_quiet _ _ _ _ H1).
Qed.

Lemma GetCodeSize_quiet a s v s' : StateDB.GetCodeSize a s = Ret (v, s') -> quiet s s'.
Proof.
  intros H. destruct (getStateObject_spec a s) as (s1 & Hr & Hq & _).
  unfold StateDB.GetCodeSize, mthen at 1 in H. rewrite Hr in H. cbn [obind fst snd] in H.
  destruct (live s a) as [o|]; [|by injection H as <- <-]. eapply quiet_trans; [done|by eapply CodeSize_quiet].
Qed.

Lemma getter_quiet o s s' : wf s ->
  match o with OpGetAccount _ | OpGetCode _ | OpGetCodeSize _ | OpGetState _ _ | OpGetCommittedState _ _ => True
  | _ => False end -> run_op o s = Ret (tt, s') -> quiet s s'.
Proof.
  intros Hwf Ho H.
  assert (Hun : forall A (m : M StateDB A), (m ;;; mret tt) s = Ret (tt, s') -> exists v, m s = Ret (v, s')).
  { intros A m Hm. apply mthen_Ret in Hm as (v & s1 & Hm & Hu). exists v. by injection Hu as <-. }
  destruct o; try done; apply Hun in H as [v H].
  - destruct (getStateObject_spec a s) as (s1 & Hr & Hq & _). by rewrite H in Hr; injection Hr as _ <-.
  - eapply part_quiet; [done| |exact H]. intros ????? Hl Hr. by destruct (Code_quiet _ _ _ _ _ Hl Hr) as [[] _].
  - by eapply GetCodeSize_quiet.
  - eapply part_quiet; [done| |exact H]. intros ????? Hl Hr. by destruct (GetState_quiet _ _ _ _ _ _ Hl Hr) as [[] _].
  - eapply part_quiet; [done| |exact H]. intros ????? Hl Hr.
    by destruct (GetCommittedState_quiet _ _ _ _ _ _ Hl Hr) as [[] _].
Qed.

Lemma run_op_keeps o s s' : good s -> run_op o s = Ret (tt, s') -> keeps s s'.
Proof.
  intros Hg H. pose proof (good_wf s Hg) as Hwf.
  assert (Hq : quiet s s' -> keeps s s') by (intros; by apply (keeps_step s s' Hg), step_quiet).
  assert (Hs : step_ok s s' -> keeps s s') by (by apply keeps_step).
  destruct o; try (by apply Hq; eapply getter_quiet; [..|exact H]); cbn [run_op] in H.
  all: try (by apply Hs; eauto using CreateAccount_step, AddRefund_step, SubRefund_step, AddLog_step,
    AddPreimage_step, AddAddress_step, AddSlot_step).
  - apply Hs, (with_object_step a (fun o => StateObject.SubBalance o v) s tt s' Hwf); eauto using SubBalance_obj_step.
  - apply Hs, (with_object_step a (fun o => StateObject.AddBalance o v) s tt s' Hwf); eauto using AddBalance_obj_step.
  - apply Hs, (with_object_step a (fun o => StateObject.SetBalance o v) s tt s' Hwf); eauto using SetBalance_step.
  - apply Hs, (with_object_step a (fun o => StateObject.SetNonce o n) s tt s' Hwf); eauto using SetNonce_step.
  - apply Hs, (with_object_step a (fun o => StateObject.SetCode o (Keccak256Hash (default [] c)) c) s tt s' Hwf);
      eauto using SetCode_step.
  - apply Hs, (with_object_step a (fun o => StateObject.SetState o k v) s tt s' Hwf); eauto using SetState_step.
  - apply mthen_Ret in H as (id & s1 & H & Hu). injection Hu as <-. by eapply keeps_Snapshot.
  - by eapply keeps_Revert.
Qed.

Lemma keeps_refl s : good s -> keeps s s.
Proof. intros Hg. split; auto; lia. Qed.

Lemma run_ops_keeps l : forall s s', good s -> run_ops l s = Ret (tt, s') -> keeps s s'.
Proof.
  induction l as [|o l IH]; intros s s' Hg H; cbn [run_ops] in H.
  - injection H as <-. by apply keeps_refl.
  - apply mthen_Ret in H as ([] & s1 & H1 & H2). pose proof (run_op_keeps o s s1 Hg H1) as Hk.
    eapply keeps_trans; [done|done|]. apply IH; [apply Hk|done].
Qed.

(** A fresh state has no snapshot and only well-formed accounts. *)
Lemma New_good root tr : DatabaseSpec D -> good (StateDB.New root tr).
Proof.
  intros HD. split; [|done|done|done]. split; try done.
  intros a o Ha. unfold find_object in Ha. cbn in Ha. rewrite lookup_empty in Ha.
  destruct (read_account tr a) as [acct|] eqn:Hr; [|done]. injection Ha as <-.
  unfold object_ok, newObject; cbn. split_and!; [done|done|]. unfold read_account in Hr.
  assert (Hget : match GetAccount tr a with inr acct => acct | inl _ => None end = Some acct ->
    code_hash_ok (CodeHash acct)).
  { destruct (GetAccount tr a) eqn:Hga; [done|]. intros ->. by eapply GetAccount_ok. }
  destruct snap as [[sa ss]|] eqn:Hsn; [|auto]. destruct (sa _) as [e|[sl|]] eqn:Hsa; [auto| |done].
  injection Hr as <-. unfold StateDB.slimData; cbn.
  destruct (snap_ok sa ss _ sl Hsn Hsa) as [-> |Hok]; [exact (code_hash_ok_HashBytes _)|].
  by destruct (Zlen (slCodeHash sl) =? 0); [apply code_hash_ok_HashBytes|].
Qed.

(** [C3] Rolling back: whatever sequence of balance, nonce, code, storage, log, refund, access
    list and account-creation operations (reads, nested snapshots and nested
    reverts included) runs after [Snapshot], [RevertToSnapshot] with its
    identifier returns normally as long as the snapshot has not been discarded
    by a revert to an older one, and the resulting state reads exactly like
    the state the snapshot was taken in. *)
Theorem revert_restores ops s id s1 s2 : good s ->
  StateDB.Snapshot s = Ret (id, s1) -> run_ops ops s1 = Ret (tt, s2) -> live_id s2 id ->
  exists s3, StateDB.RevertToSnapshot id s2 = Ret (tt, s3) /\ eqv s s3 /\ good s3.
Proof.
  intros Hg Hs Hr Hl. destruct (Snapshot_good s id s1 Hg Hs) as (Hg1 & Hsn & _).
  pose proof (run_ops_keeps ops s1 s2 Hg1 Hr) as [Hg2 _ _ Hk].
  destruct (RevertToSnapshot_spec s2 id s Hg2 (Hk id s (good_wf s Hg) Hsn Hl) (good_wf s Hg))
    as (s3 & i & r & H & He & Hg3 & _). eauto.
Qed.

(** States that [RevertToSnapshot] identifies cannot be told apart: every getter
    (balance, nonce, code hash, storage root, existence, emptiness, code,
    current and committed storage, refund, access list) returns the same
    answer in both, with no visible effect. *)
Theorem eqv_same_reads s s' a k : wf s -> eqv s s' ->
  (exists n, reads (StateDB.GetBalance a) s n /\ reads (StateDB.GetBalance a) s' n) /\
  (exists n, reads (StateDB.GetNonce a) s n /\ reads (StateDB.GetNonce a) s' n) /\
  (exists h, reads (StateDB.GetCodeHash a) s h /\ reads (StateDB.GetCodeHash a) s' h) /\
  (exists h, reads (StateDB.GetStorageRoot a) s h /\ reads (StateDB.GetStorageRoot a) s' h) /\
  (exists b, reads (StateDB.Exist a) s b /\ reads (StateDB.Exist a) s' b) /\
  (exists b, reads (StateDB.Empty a) s b /\ reads (StateDB.Empty a) s' b) /\
  (exists c, reads (StateDB.GetCode a) s c /\ reads (StateDB.GetCode a) s' c) /\
  (forall v, slot_view s a k = Ret v -> reads (StateDB.GetState a k) s v /\ reads (StateDB.GetState a k) s' v) /\
  (forall v, committed_slot_view s a k = Ret v ->
     reads (StateDB.GetCommittedState a k) s v /\ reads (StateDB.GetCommittedState a k) s' v) /\
  (exists g, reads StateDB.GetRefund s g /\ reads StateDB.GetRefund s' g) /\
  (exists b, reads (StateDB.AddressInAccessList a) s b /\ reads (StateDB.AddressInAccessList a) s' b).
Proof.
  intros Hwf He. pose proof (wf_eqv s s' Hwf He) as Hwf'. pose proof (eqv_core _ _ He) as Hc.
  assert (Hacc : forall A (f : stateObject -> A) d, (forall o o', obj_eqv s o o' -> f o = f o') ->
    let m := let* o := StateDB.getStateObject a in mret (match o with Some o => f o | None => d end) in
    exists v, reads m s v /\ reads m s' v).
  { intros A f d Hf m. exists (account f d s a). split; [apply reads_account|].
    rewrite (eqv_account f d s s' a He Hf). apply reads_account. }
  split_and!; try (apply Hacc; intros o o' Ho; unfold StateObject.empty; by rewrite (oe_data _ _ _ Ho)).
  - by apply (Hacc bool (fun _ => true) false).
  - exists (account code_view None s a). split; [by apply GetCode_reads|].
    rewrite (eqv_account code_view None s s' a He); [by apply GetCode_reads|]. intros o o' Ho. apply Ho.
  - intros v Hv. split; [by apply GetState_reads|]. apply GetState_reads; [done|]. rewrite <- Hv. symmetry.
    unfold slot_view. etrans; [apply (eqv_account _ _ s s' a He); intros o o' Ho; apply Ho|].
    unfold account. destruct (live s' a); [|done]. by apply views_core.
  - intros v Hv. split; [by apply GetCommittedState_reads|]. apply GetCommittedState_reads; [done|].
    rewrite <- Hv. symmetry.
    unfold committed_slot_view. etrans; [apply (eqv_account _ _ s s' a He); intros o o' Ho; apply Ho|].
    unfold account. destruct (live s' a); [|done]. by apply views_core.
  - exists (db_refund s). unfold core in Hc. simplify_eq Hc. intros.
    split; eexists; split; try reflexivity; auto. by replace (db_refund s) with (db_refund s').
  - exists (AccessList.ContainsAddress (db_accessList s) a). unfold core in Hc. simplify_eq Hc. intros.
    split; eexists; split; try reflexivity; auto. by replace (db_accessList s) with (db_accessList s').
Qed.

End StateRevert.

(** ** A concrete run *)

#[local] Existing Instance demo_crypto.
#[local] Existing Instance demo_database.

Definition demo_state : StateDB := StateDB.New 0 (mkDemoTrie {[ 7 := mkAccount 3 100 EmptyRootHash (HashBytes EmptyCodeHash) ]} ∅).

Definition demo_ops : list op :=
  [OpAddBalance 7 25; OpSetState 7 1 42; OpSnapshot; OpCreateAccount 9; OpSetNonce 9 5;
   OpRevertToSnapshot 1; OpSetCode 7 (Some [96; 0]); OpAddRefund 10; OpGetState 7 2].

Definition state_after {A} (r : outcome (A * StateDB)) : StateDB :=
  match r with Ret (_, s) => s | _ => demo_state end.

Definition value_of {A} (r : outcome (A * StateDB)) : option A :=
  match r with Ret (v, _) => Some v | _ => None end.

Lemma value_of_run {A} (r : outcome (A * StateDB)) v : value_of r = Some v -> r = Ret (v, state_after r).
Proof. destruct r as [[]| |]; [|done|done]. by intros [= ->]. Qed.

Definition demo_s1 : StateDB := state_after (StateDB.Snapshot demo_state).
Definition demo_s2 : StateDB := state_after (run_ops demo_ops demo_s1).

Lemma revert_restores_witness : exists s3, StateDB.RevertToSnapshot 0 demo_s2 = Ret (tt, s3) /\
  eqv demo_state s3 /\ good s3 /\
  value_of (StateDB.GetBalance 7 demo_s2) = Some 125 /\ value_of (StateDB.GetBalance 7 demo_state) = Some 100.
Proof.
  destruct (revert_restores demo_ops demo_state 0 demo_s1 demo_s2) as (s3 & H1 & H2 & H3).
  - apply New_good, demo_database_ok.
  - refine (value_of_run (StateDB.Snapshot demo_state) 0 _). vm_compute. reflexivity.
  - refine (value_of_run (run_ops demo_ops demo_s1) tt _). vm_compute. reflexivity.
  - exists 0%nat, (mkRevision 0 0). split; vm_compute; reflexivity.
  - exists s3. split_and!; [exact H1|exact H2|exact H3|vm_compute; reflexivity|vm_compute; reflexivity].
Defined.

Lemma eqv_same_reads_witness : exists n, reads (StateDB.GetBalance 7) demo_state n /\ reads (StateDB.GetBalance 7) demo_state n.
Proof.
  destruct (eqv_same_reads demo_state demo_state 7 1) as (H & _).
  - apply good_wf, New_good, demo_database_ok.
  - apply eqv_refl.
  - exact H.
Defined.
