(* ===== verification/VMInterface.v ===== *)
(** * The interface between the virtual machine and the state (core/vm/interface.go)

    The Go interface [vm.StateDB] is a signature of operations [SDB.op]; a state
    implementation interprets it ([StateI]).  [StateLaws] is what the virtual
    machine relies on: snapshots survive ordinary operations, reverting to one
    restores the state it was taken in, and the operations a read-only call may
    use freeze what contracts can observe. *)

From S2P Require Import Prelude VMCommon StateTypes.

Module SDB.

(** The methods of the interface, with their result types. *)
Inductive op : Type -> Type :=
| CreateAccount (a : Z) : op unit
| SubBalance (a amount : Z) : op unit
| AddBalance (a amount : Z) : op unit
| GetBalance (a : Z) : op Z
| GetNonce (a : Z) : op Z
| SetNonce (a nonce : Z) : op unit
| GetCodeHash (a : Z) : op Z
| GetCode (a : Z) : op (list Z)
| SetCode (a : Z) (code : list Z) : op unit
| GetCodeSize (a : Z) : op Z
| AddRefund (gas : Z) : op unit
| SubRefund (gas : Z) : op unit
| GetRefund : op Z
| GetCommittedState (a key : Z) : op Z
| GetState (a key : Z) : op Z
| SetState (a key value : Z) : op unit
| Exist (a : Z) : op bool
| Empty (a : Z) : op bool
| AddressInAccessList (a : Z) : op bool
| SlotInAccessList (a slot : Z) : op (bool * bool)
| AddAddressToAccessList (a : Z) : op unit
| AddSlotToAccessList (a slot : Z) : op unit
| Prepare (sender coinbase : Z) (dest : option Z) (precompiles : list Z) (txAccesses : list (Z * list Z)) : op unit
| RevertToSnapshot (id : Z) : op unit
| Snapshot : op Z
| AddLog (l : Log) : op unit
| AddPreimage (hash : Z) (preimage : list Z) : op unit.

(** Operations that neither take nor restore nor invalidate a snapshot. *)
Definition plain {A} (o : op A) : bool :=
  match o with Prepare _ _ _ _ _ | RevertToSnapshot _ | Snapshot => false | _ => true end.

(** Operations that only read. *)
Definition reader {A} (o : op A) : bool :=
  match o with
  | GetBalance _ | GetNonce _ | GetCodeHash _ | GetCode _ | GetCodeSize _ | GetRefund | GetCommittedState _ _
  | GetState _ _ | Exist _ | Empty _ | AddressInAccessList _ | SlotInAccessList _ _ => true
  | _ => false
  end.

(** Operations a read-only call may perform: reads, and the bookkeeping of access
    lists, refunds and preimages. *)
Definition harmless {A} (o : op A) : bool :=
  match o with
  | GetBalance _ | GetNonce _ | GetCodeHash _ | GetCode _ | GetCodeSize _ | GetRefund | GetCommittedState _ _
  | GetState _ _ | Exist _ | Empty _ | AddressInAccessList _ | SlotInAccessList _ _ | AddAddressToAccessList _
  | AddSlotToAccessList _ _ | AddRefund _ | SubRefund _ | AddPreimage _ _ => true
  | SubBalance _ v | AddBalance _ v => v =? 0
  | _ => false
  end.

(** Operations that change balances one-sidedly. *)
Definition pays {A} (o : op A) : bool :=
  match o with SubBalance _ _ | AddBalance _ _ => true | _ => false end.

End SDB.

(** An implementation of the interface over states [S]. *)
Class StateI (S : Type) : Type := { sdb : forall A : Type, SDB.op A -> M S A }.
Arguments sdb {S _ A} _.

(** What the virtual machine relies on. *)
Class StateLaws (S : Type) (I : StateI S) : Type := {
  (** States the implementation can be in. *)
  sgood : S -> Prop;
  (** [snapped s id s0]: in [s], [id] names a live snapshot that was taken in [s0]. *)
  snapped : S -> Z -> S -> Prop;
  (** States that read the same. *)
  same : S -> S -> Prop;
  same_refl : forall s, same s s;
  same_trans : forall s1 s2 s3, same s1 s2 -> same s2 s3 -> same s1 s3;
  same_read : forall A (o : SDB.op A) s r s', SDB.reader o = true -> sgood s -> sdb o s = Ret (r, s') -> same s s';
  plain_total : forall A (o : SDB.op A) s, SDB.plain o = true -> sgood s -> sdb o s <> OutOfFuel;
  plain_keeps : forall A (o : SDB.op A) s r s', SDB.plain o = true -> sgood s -> sdb o s = Ret (r, s') ->
    sgood s' /\ forall id s0, snapped s id s0 -> snapped s' id s0;
  (** No byte slice is longer than the address space. *)
  code_length : forall a s c s', sgood s -> sdb (SDB.GetCode a) s = Ret (c, s') -> Zlen c < 2 ^ 63;
  refund_range : forall s r s', sgood s -> sdb SDB.GetRefund s = Ret (r, s') -> 0 <= r;
  snapshot_law : forall s, sgood s -> exists id s', sdb SDB.Snapshot s = Ret (id, s') /\ sgood s' /\
    snapped s' id s /\ forall k s0, snapped s k s0 -> k < id /\ snapped s' k s0;
  revert_law : forall s id s0, sgood s -> snapped s id s0 ->
    exists s', sdb (SDB.RevertToSnapshot id) s = Ret (tt, s') /\ sgood s' /\ same s0 s' /\
      forall k s1, k < id -> snapped s k s1 -> snapped s' k s1;
  (** [frozen s s']: from [s] to [s'] no balance, nonce, code, log or storage slot
      of an existing account has changed. *)
  frozen : S -> S -> Prop;
  frozen_trans : forall s1 s2 s3, frozen s1 s2 -> frozen s2 s3 -> frozen s1 s3;
  frozen_same : forall s s', same s s' -> frozen s s';
  frozen_harmless : forall A (o : SDB.op A) s r s', SDB.harmless o = true -> sgood s ->
    sdb o s = Ret (r, s') -> frozen s s';
  frozen_snapshot : forall s id s', sgood s -> sdb SDB.Snapshot s = Ret (id, s') -> frozen s s';
  frozen_create : forall a s s1 s2, sgood s -> sdb (SDB.Exist a) s = Ret (false, s1) ->
    sdb (SDB.CreateAccount a) s1 = Ret (tt, s2) -> frozen s s2;
  (** [moved d s s']: from [s] to [s'] the sum of all balances has changed by [d]. *)
  moved : Z -> S -> S -> Prop;
  moved_trans : forall d1 d2 s1 s2 s3, moved d1 s1 s2 -> moved d2 s2 s3 -> moved (d1 + d2) s1 s3;
  moved_frozen : forall s s', frozen s s' -> moved 0 s s';
  moved_plain : forall A (o : SDB.op A) s r s', SDB.plain o = true -> SDB.pays o = false -> sgood s ->
    sdb o s = Ret (r, s') -> moved 0 s s';
  moved_add : forall a v s s', sgood s -> sdb (SDB.AddBalance a v) s = Ret (tt, s') -> moved v s s';
  moved_sub : forall a v s s', sgood s -> sdb (SDB.SubBalance a v) s = Ret (tt, s') -> moved (- v) s s';
  (** States without a live snapshot: the start of a transaction, where the access
      list is prepared. *)
  idle : S -> Prop;
  idle_plain : forall A (o : SDB.op A) s r s', SDB.plain o = true -> sgood s -> idle s -> sdb o s = Ret (r, s') -> idle s';
  prepare_law : forall sender coinbase dest precompiles txAccesses s, sgood s -> idle s ->
    exists s', sdb (SDB.Prepare sender coinbase dest precompiles txAccesses) s = Ret (tt, s') /\ sgood s' /\ frozen s s'
}.

Arguments snapped {S I _} _ _ _.
Arguments sgood {S I _} _.
Arguments same {S I _} _ _.
Arguments frozen {S I _} _ _.
Arguments moved {S I _} _ _ _.
Arguments idle {S I _} _.
