(* ===== verification/Contract.v ===== *)
(** * Contracts and the machine state (core/vm/contract.go, core/vm/qrvm.go,
    core/vm/interpreter.go)

    [Contract] is the execution context of one call, [QRVM] the state shared by
    all frames of a transaction, [frame] what one run of the interpreter loop
    works on.  Pointers to contracts are modelled by passing the record in and
    out; the map of analysed code, which Go shares between a contract and its
    callees, lives in [QRVM]. *)

From S2P Require Import Prelude Uint256 Params VMCommon Stack Memory Opcodes Analysis StateTypes VMInterface.

(** What is read of the caller of a contract: an account, or a contract with its
    own caller and value. *)
Inductive contractRef : Type :=
| AccountRef (addr : Z)
| ContractAt (addr callerAddress : Z) (value : option Z).

Definition ref_Address (r : contractRef) : Z :=
  match r with AccountRef a => a | ContractAt a _ _ => a end.

Record Contract : Type := mkContract {
  c_CallerAddress : Z;
  c_caller : contractRef;
  c_self : Z;
  c_analysis : option Analysis.bitvec;
  c_Code : list Z;
  c_CodeHash : Z;
  c_CodeAddr : option Z;
  c_Input : list Z;
  c_Gas : Z;
  c_value : option Z
}.

Definition with_c_CallerAddress (x : Z) (r : Contract) : Contract :=
  mkContract x (c_caller r) (c_self r) (c_analysis r) (c_Code r) (c_CodeHash r) (c_CodeAddr r) (c_Input r) (c_Gas r) (c_value r).
Definition with_c_caller (x : contractRef) (r : Contract) : Contract :=
  mkContract (c_CallerAddress r) x (c_self r) (c_analysis r) (c_Code r) (c_CodeHash r) (c_CodeAddr r) (c_Input r) (c_Gas r) (c_value r).
Definition with_c_self (x : Z) (r : Contract) : Contract :=
  mkContract (c_CallerAddress r) (c_caller r) x (c_analysis r) (c_Code r) (c_CodeHash r) (c_CodeAddr r) (c_Input r) (c_Gas r) (c_value r).
Definition with_c_analysis (x : option Analysis.bitvec) (r : Contract) : Contract :=
  mkContract (c_CallerAddress r) (c_caller r) (c_self r) x (c_Code r) (c_CodeHash r) (c_CodeAddr r) (c_Input r) (c_Gas r) (c_value r).
Definition with_c_Code (x : list Z) (r : Contract) : Contract :=
  mkContract (c_CallerAddress r) (c_caller r) (c_self r) (c_analysis r) x (c_CodeHash r) (c_CodeAddr r) (c_Input r) (c_Gas r) (c_value r).
Definition with_c_CodeHash (x : Z) (r : Contract) : Contract :=
  mkContract (c_CallerAddress r) (c_caller r) (c_self r) (c_analysis r) (c_Code r) x (c_CodeAddr r) (c_Input r) (c_Gas r) (c_value r).
Definition with_c_CodeAddr (x : option Z) (r : Contract) : Contract :=
  mkContract (c_CallerAddress r) (c_caller r) (c_self r) (c_analysis r) (c_Code r) (c_CodeHash r) x (c_Input r) (c_Gas r) (c_value r).
Definition with_c_Input (x : list Z) (r : Contract) : Contract :=
  mkContract (c_CallerAddress r) (c_caller r) (c_self r) (c_analysis r) (c_Code r) (c_CodeHash r) (c_CodeAddr r) x (c_Gas r) (c_value r).
Definition with_c_Gas (x : Z) (r : Contract) : Contract :=
  mkContract (c_CallerAddress r) (c_caller r) (c_self r) (c_analysis r) (c_Code r) (c_CodeHash r) (c_CodeAddr r) (c_Input r) x (c_value r).
Definition with_c_value (x : option Z) (r : Contract) : Contract :=
  mkContract (c_CallerAddress r) (c_caller r) (c_self r) (c_analysis r) (c_Code r) (c_CodeHash r) (c_CodeAddr r) (c_Input r) (c_Gas r) x.

(** The block and transaction context, and the configuration. *)
Record env : Type := mkEnv {
  e_GetHash : Z -> Z;
  e_Coinbase : Z;
  e_GasLimit : Z;
  e_BlockNumber : Z;
  e_Time : Z;
  e_BaseFee : Z;
  e_Random : Z;
  e_Origin : Z;
  e_GasPrice : Z;
  e_ChainID : Z;
  e_NoBaseFee : bool;
  e_EnablePreimageRecording : bool
}.

Section Machine.
Context {S : Type}.

(** The machine: [vm_abort] lists the values the next loads of the abort flag
    return, since another goroutine may set it at any time. *)
Record QRVM : Type := mkVM {
  vm_StateDB : S;
  vm_depth : Z;
  vm_callGasTemp : Z;
  vm_readOnly : bool;
  vm_returnData : list Z;
  vm_abort : list bool;
  vm_jumpdests : gmap Z Analysis.bitvec
}.

Definition with_vm_StateDB (x : S) (r : QRVM) : QRVM :=
  mkVM x (vm_depth r) (vm_callGasTemp r) (vm_readOnly r) (vm_returnData r) (vm_abort r) (vm_jumpdests r).
Definition with_vm_depth (x : Z) (r : QRVM) : QRVM :=
  mkVM (vm_StateDB r) x (vm_callGasTemp r) (vm_readOnly r) (vm_returnData r) (vm_abort r) (vm_jumpdests r).
Definition with_vm_callGasTemp (x : Z) (r : QRVM) : QRVM :=
  mkVM (vm_StateDB r) (vm_depth r) x (vm_readOnly r) (vm_returnData r) (vm_abort r) (vm_jumpdests r).
Definition with_vm_readOnly (x : bool) (r : QRVM) : QRVM :=
  mkVM (vm_StateDB r) (vm_depth r) (vm_callGasTemp r) x (vm_returnData r) (vm_abort r) (vm_jumpdests r).
Definition with_vm_returnData (x : list Z) (r : QRVM) : QRVM :=
  mkVM (vm_StateDB r) (vm_depth r) (vm_callGasTemp r) (vm_readOnly r) x (vm_abort r) (vm_jumpdests r).
Definition with_vm_abort (x : list bool) (r : QRVM) : QRVM :=
  mkVM (vm_StateDB r) (vm_depth r) (vm_callGasTemp r) (vm_readOnly r) (vm_returnData r) x (vm_jumpdests r).
Definition with_vm_jumpdests (x : gmap Z Analysis.bitvec) (r : QRVM) : QRVM :=
  mkVM (vm_StateDB r) (vm_depth r) (vm_callGasTemp r) (vm_readOnly r) (vm_returnData r) (vm_abort r) x.

Record frame : Type := mkFrame {
  f_pc : Z;
  f_Stack : Stack.t;
  f_Memory : Memory.t;
  f_Contract : Contract;
  f_vm : QRVM
}.

Definition with_f_pc (x : Z) (r : frame) : frame :=
  mkFrame x (f_Stack r) (f_Memory r) (f_Contract r) (f_vm r).
Definition with_f_Stack (x : Stack.t) (r : frame) : frame :=
  mkFrame (f_pc r) x (f_Memory r) (f_Contract r) (f_vm r).
Definition with_f_Memory (x : Memory.t) (r : frame) : frame :=
  mkFrame (f_pc r) (f_Stack r) x (f_Contract r) (f_vm r).
Definition with_f_Contract (x : Contract) (r : frame) : frame :=
  mkFrame (f_pc r) (f_Stack r) (f_Memory r) x (f_vm r).
Definition with_f_vm (x : QRVM) (r : frame) : frame :=
  mkFrame (f_pc r) (f_Stack r) (f_Memory r) (f_Contract r) x.

End Machine.
Arguments QRVM : clear implicits.
Arguments frame : clear implicits.

(** ** Monads of the machine and of a frame *)

Section Lifts.
Context {S : Type} {SI : StateI S}.

(** A state operation, run from the machine. *)
Definition vstate {A} (o : SDB.op A) : M (QRVM S) A :=
  fun v => let! (a, s) := sdb o (vm_StateDB v) in Ret (a, with_vm_StateDB s v).

(** A machine computation, run from a frame. *)
Definition on_vm {A} (m : M (QRVM S) A) : M (frame S) A :=
  fun f => let! (a, v) := m (f_vm f) in Ret (a, with_f_vm v f).

(** A state operation, run from a frame. *)
Definition state {A} (o : SDB.op A) : M (frame S) A := on_vm (vstate o).

(** A stack operation, run from a frame. *)
Definition on_stack {A} (m : M Stack.t A) : M (frame S) A :=
  fun f => let! (a, st) := m (f_Stack f) in Ret (a, with_f_Stack st f).

Definition pop : M (frame S) Z := on_stack Stack.pop.
Definition peek : M (frame S) Z := let* f := mget in mlift (Stack.peek (f_Stack f)).
Definition push (d : Z) : M (frame S) unit := on_stack (fun st => Ret (tt, Stack.push d st)).
(** Write through the pointer returned by [peek]. *)
Definition set_top (d : Z) : M (frame S) unit := on_stack (fun st => let! st := Stack.setTop d st in Ret (tt, st)).
Definition Back (n : Z) : M (frame S) Z := let* f := mget in mlift (Stack.Back n (f_Stack f)).

Definition set_memory (g : Memory.t -> outcome Memory.t) : M (frame S) unit :=
  let* f := mget in let* m := mlift (g (f_Memory f)) in mput (with_f_Memory m f).

Definition the_contract : M (frame S) Contract := let* f := mget in mret (f_Contract f).

(** [abort.Load()]. *)
Definition abort_load : M (frame S) bool :=
  let* f := mget in
  match vm_abort (f_vm f) with
  | [] => mret false
  | b :: rest => mput (with_f_vm (with_vm_abort rest (f_vm f)) f) ;;; mret b
  end.

End Lifts.

(** ** Methods of Contract *)

Module Contract.

Section Methods.
Context {S : Type} {U : Uint256}.

(** [NewContract]: a contract called by a contract shares its map of analysed
    code, one called by an account starts with a new map. *)
Definition NewContract (caller : contractRef) (object : Z) (value : option Z) (gas : Z)
    : M (QRVM S) Contract :=
  (match caller with
   | ContractAt _ _ _ => mret tt
   | AccountRef _ => mmodify (with_vm_jumpdests ∅)
   end) ;;;
  mret (mkContract (ref_Address caller) caller object None [] 0 None [] gas value).

Definition AsDelegate (c : Contract) : outcome Contract :=
  match c_caller c with
  | ContractAt _ callerAddress value => Ret (with_c_value value (with_c_CallerAddress callerAddress c))
  | AccountRef _ => Panic
  end.

Definition GetOp (n : Z) (c : Contract) : outcome Z :=
  if n <? Zlen (c_Code c) then go_index (c_Code c) n else Ret Op.STOP.

Definition Caller (c : Contract) : Z := c_CallerAddress c.
Definition Address (c : Contract) : Z := c_self c.

Definition UseGas (gas : Z) (c : Contract) : bool * Contract :=
  if c_Gas c <? gas then (false, c) else (true, with_c_Gas (c_Gas c - gas) c).

Definition SetCallCode (addr : Z) (hash : Z) (code : list Z) (c : Contract) : Contract :=
  with_c_CodeAddr (Some addr) (with_c_CodeHash hash (with_c_Code code c)).

(** [SetCodeOptionalHash]: the hash is zero unless it was computed before. *)
Definition SetCodeOptionalHash (addr : Z) (code : list Z) (hash : Z) (c : Contract) : Contract :=
  with_c_CodeAddr (Some addr) (with_c_CodeHash hash (with_c_Code code c)).

(** [isCode], with the analysis cached in the contract and in the shared map. *)
Definition isCode (udest : Z) (c : Contract) : M (QRVM S) (bool * Contract) :=
  match c_analysis c with
  | Some analysis => let* b := mlift (Analysis.codeSegment analysis udest) in mret (b, c)
  | None =>
      if negb (c_CodeHash c =? 0) then
        let* v := mget in
        let* analysis :=
          (match vm_jumpdests v !! c_CodeHash c with
           | Some analysis => mret analysis
           | None =>
               let* analysis := mlift (Analysis.codeBitmap (c_Code c)) in
               mmodify (fun v => with_vm_jumpdests (<[c_CodeHash c := analysis]> (vm_jumpdests v)) v) ;;;
               mret analysis
           end) in
        let c := with_c_analysis (Some analysis) c in
        let* b := mlift (Analysis.codeSegment analysis udest) in
        mret (b, c)
      else
        let* analysis := mlift (Analysis.codeBitmap (c_Code c)) in
        let c := with_c_analysis (Some analysis) c in
        let* b := mlift (Analysis.codeSegment analysis udest) in
        mret (b, c)
  end.

Definition validJumpdest (dest : Z) (c : Contract) : M (QRVM S) (bool * Contract) :=
  let '(udest, overflow) := u_Uint64WithOverflow dest in
  if (overflow : bool) || (Zlen (c_Code c) <=? udest) then mret (false, c)
  else
    let* op := mlift (go_index (c_Code c) udest) in
    if negb (op =? Op.JUMPDEST) then mret (false, c)
    else isCode udest c.

End Methods.

End Contract.

(** ** Jump destinations *)

Section Jumpdests.
Context {S : Type} {U : Uint256} {US : Uint256Spec U}.

(** Every analysis a contract can reach is the analysis of its own code. *)
Record analysis_ok (c : Contract) (v : QRVM S) : Prop := {
  ao_local : forall b, c_analysis c = Some b -> Analysis.codeBitmap (c_Code c) = Ret b;
  ao_shared : forall b, c_CodeHash c <> 0 -> vm_jumpdests v !! c_CodeHash c = Some b ->
    Analysis.codeBitmap (c_Code c) = Ret b
}.

(** A position that holds JUMPDEST as an instruction, not as push data. *)
Definition is_jumpdest (code : list Z) (dest : Z) : bool :=
  (dest <? Zlen code) && bool_decide (code !! Z.to_nat dest = Some Op.JUMPDEST) &&
  is_instruction code dest.

(** What [validJumpdest] may change: the two caches, consistently. *)
Record jump_frame (c : Contract) (v : QRVM S) (c' : Contract) (v' : QRVM S) : Prop := {
  jf_contract : c' = with_c_analysis (c_analysis c') c;
  jf_vm : v' = with_vm_jumpdests (vm_jumpdests v') v;
  jf_shared : forall h, h <> c_CodeHash c -> vm_jumpdests v' !! h = vm_jumpdests v !! h;
  jf_ok : analysis_ok c' v'
}.

Lemma jump_frame_refl c v : analysis_ok c v -> jump_frame c v c v.
Proof. intros. split; auto; [by destruct c|by destruct v]. Qed.

Lemma jump_frame_local c v b : Analysis.codeBitmap (c_Code c) = Ret b -> analysis_ok c v ->
  jump_frame c v (with_c_analysis (Some b) c) v.
Proof.
  intros Hb [Hl Hs]. split; auto; [by destruct v|]. split; cbn; [by intros ? [= <-]|auto].
Qed.

Lemma isCode_spec udest c v : Forall is_byte (c_Code c) -> Zlen (c_Code c) < 2 ^ 63 ->
  0 <= udest < Zlen (c_Code c) -> analysis_ok c v ->
  exists c' v', Contract.isCode udest c v = Ret ((is_instruction (c_Code c) udest, c'), v') /\ jump_frame c v c' v'.
Proof.
  intros Hb Hl Hd Hok. destruct (codeBitmap_decides (c_Code c) Hb ltac:(lia)) as (bits & Hr & Hs).
  specialize (Hs udest Hd). pose proof Hok as [Hloc Hsh]. unfold Contract.isCode.
  destruct (c_analysis c) as [b|] eqn:Ha.
  { specialize (Hloc b eq_refl). rewrite Hr in Hloc. injection Hloc as <-.
    exists c, v. unfold mthen, mlift. rewrite Hs. split; [done|by apply jump_frame_refl]. }
  destruct (Z.eqb_spec (c_CodeHash c) 0) as [Hz|Hz]; cbn [negb].
  { eexists _, v. unfold mthen, mlift. rewrite Hr. cbn [obind fst snd]. rewrite Hs.
    split; [reflexivity|by apply jump_frame_local]. }
  unfold mthen, mlift, mget. cbn [obind fst snd].
  destruct (vm_jumpdests v !! c_CodeHash c) as [b|] eqn:Hj.
  { specialize (Hsh b Hz eq_refl). rewrite Hr in Hsh. injection Hsh as <-. unfold mret. cbn [obind fst snd]. rewrite Hs.
    eexists _, v. split; [reflexivity|by apply jump_frame_local]. }
  rewrite Hr. unfold mmodify, mret. cbn [obind fst snd]. rewrite Hs.
  eexists _, _. split; [reflexivity|]. split; cbn; auto.
  - intros h Hh. by rewrite lookup_insert_ne.
  - split; cbn; [by intros ? [= <-]|]. intros b' _. rewrite lookup_insert_eq. by intros [= <-].
Qed.

(** Jump validation is exact: [validJumpdest] returns, for every 256-bit
    destination, whether the code has a JUMPDEST instruction there (beyond the
    code, on another opcode and inside push data it answers no), and the
    analysis caches it fills stay the analyses of the right code. *)
Theorem validJumpdest_correct dest c v : in256 dest -> Forall is_byte (c_Code c) -> Zlen (c_Code c) < 2 ^ 63 ->
  analysis_ok c v ->
  exists c' v', Contract.validJumpdest dest c v = Ret ((is_jumpdest (c_Code c) dest, c'), v') /\ jump_frame c v c' v'.
Proof.
  intros Hd Hb Hl Hok. unfold Contract.validJumpdest, is_jumpdest. rewrite Uint64WithOverflow_spec by done.
  unfold in256 in Hd. destruct (Z.leb_spec (2 ^ 64) dest); cbn [orb].
  { rewrite (proj2 (Z.ltb_ge _ _)) by lia. exists c, v. split; [done|by apply jump_frame_refl]. }
  rewrite u64_small by (unfold in64; lia). destruct (Z.leb_spec (Zlen (c_Code c)) dest).
  { rewrite (proj2 (Z.ltb_ge _ _)) by lia. exists c, v. split; [done|by apply jump_frame_refl]. }
  rewrite (proj2 (Z.ltb_lt _ _)) by lia. destruct (go_index_Ret (c_Code c) dest) as (op & Hi & Hop); [lia|].
  unfold mthen, mlift. rewrite Hi, Hop. cbn [obind fst snd andb].
  destruct (Z.eqb_spec op Op.JUMPDEST) as [->|Hne]; cbn [negb].
  - rewrite bool_decide_eq_true_2 by done. cbn [andb]. apply isCode_spec; auto; lia.
  - rewrite bool_decide_eq_false_2 by congruence. exists c, v. split; [done|by apply jump_frame_refl].
Qed.

End Jumpdests.

(** JUMPDEST at position 3; the 0x5b at position 1 is data of PUSH2. *)
Definition demo_contract : Contract :=
  mkContract 1 (AccountRef 1) 2 None [0x61; 0x5b; 0; 0x5b] 77 (Some 2) [] 1000 (Some 0).
Definition demo_vm : QRVM unit := mkVM tt 0 0 false [] [] ∅.

Lemma validJumpdest_correct_witness : exists c' v',
  Contract.validJumpdest 3 demo_contract demo_vm = Ret ((true, c'), v') /\ jump_frame demo_contract demo_vm c' v'.
Proof.
  destruct (validJumpdest_correct 3 demo_contract demo_vm) as (c' & v' & H1 & H2).
  - unfold in256; lia.
  - repeat constructor; lia.
  - vm_compute; reflexivity.
  - split; [discriminate|]. intros b _. vm_compute. discriminate.
  - exists c', v'. split; [exact H1|exact H2].
Defined.
