(* ===== verification/GasTable.v ===== *)
(** * Memory sizes and gas (core/vm/memory_table.go, core/vm/gas_table.go,
    core/vm/operations_acl.go)

    For every opcode with a dynamic cost: the memory it needs, and its gas
    function, which may update the memory fee, the access list, the refund
    counter and the gas of the next call. *)

From S2P Require Import Prelude Uint256 Params VMCommon Stack Memory Opcodes Analysis StateTypes VMInterface Contract.

(** ** Memory sizes *)

Section MemoryTable.
Context {U : Uint256}.

Abbreviation memorySizeFunc := (Stack.t -> outcome (Z * bool)).

Definition memoryKeccak256 : memorySizeFunc := fun stack =>
  let! a := Stack.Back 0 stack in let! b := Stack.Back 1 stack in Ret (calcMemSize64 a b).
Definition memoryCallDataCopy : memorySizeFunc := fun stack =>
  let! a := Stack.Back 0 stack in let! b := Stack.Back 2 stack in Ret (calcMemSize64 a b).
Definition memoryReturnDataCopy : memorySizeFunc := fun stack =>
  let! a := Stack.Back 0 stack in let! b := Stack.Back 2 stack in Ret (calcMemSize64 a b).
Definition memoryCodeCopy : memorySizeFunc := fun stack =>
  let! a := Stack.Back 0 stack in let! b := Stack.Back 2 stack in Ret (calcMemSize64 a b).
Definition memoryExtCodeCopy : memorySizeFunc := fun stack =>
  let! a := Stack.Back 1 stack in let! b := Stack.Back 3 stack in Ret (calcMemSize64 a b).
Definition memoryMLoad : memorySizeFunc := fun stack =>
  let! a := Stack.Back 0 stack in Ret (calcMemSize64WithUint a 32).
Definition memoryMStore8 : memorySizeFunc := fun stack =>
  let! a := Stack.Back 0 stack in Ret (calcMemSize64WithUint a 1).
Definition memoryMStore : memorySizeFunc := fun stack =>
  let! a := Stack.Back 0 stack in Ret (calcMemSize64WithUint a 32).
Definition memoryCreate : memorySizeFunc := fun stack =>
  let! a := Stack.Back 1 stack in let! b := Stack.Back 2 stack in Ret (calcMemSize64 a b).
Definition memoryCreate2 : memorySizeFunc := fun stack =>
  let! a := Stack.Back 1 stack in let! b := Stack.Back 2 stack in Ret (calcMemSize64 a b).
Definition memoryReturn : memorySizeFunc := fun stack =>
  let! a := Stack.Back 0 stack in let! b := Stack.Back 1 stack in Ret (calcMemSize64 a b).
Definition memoryRevert : memorySizeFunc := fun stack =>
  let! a := Stack.Back 0 stack in let! b := Stack.Back 1 stack in Ret (calcMemSize64 a b).
Definition memoryLog : memorySizeFunc := fun stack =>
  let! a := Stack.Back 0 stack in let! b := Stack.Back 1 stack in Ret (calcMemSize64 a b).

Definition memoryCall : memorySizeFunc := fun stack =>
  let! a := Stack.Back 5 stack in let! b := Stack.Back 6 stack in
  let '(x, overflow) := calcMemSize64 a b in
  if (overflow : bool) then Ret (0, true)
  else
    let! a := Stack.Back 3 stack in let! b := Stack.Back 4 stack in
    let '(y, overflow) := calcMemSize64 a b in
    if (overflow : bool) then Ret (0, true)
    else if y <? x then Ret (x, false) else Ret (y, false).

Definition memoryDelegateCall : memorySizeFunc := fun stack =>
  let! a := Stack.Back 4 stack in let! b := Stack.Back 5 stack in
  let '(x, overflow) := calcMemSize64 a b in
  if (overflow : bool) then Ret (0, true)
  else
    let! a := Stack.Back 2 stack in let! b := Stack.Back 3 stack in
    let '(y, overflow) := calcMemSize64 a b in
    if (overflow : bool) then Ret (0, true)
    else if y <? x then Ret (x, false) else Ret (y, false).

Definition memoryStaticCall : memorySizeFunc := fun stack =>
  let! a := Stack.Back 4 stack in let! b := Stack.Back 5 stack in
  let '(x, overflow) := calcMemSize64 a b in
  if (overflow : bool) then Ret (0, true)
  else
    let! a := Stack.Back 2 stack in let! b := Stack.Back 3 stack in
    let '(y, overflow) := calcMemSize64 a b in
    if (overflow : bool) then Ret (0, true)
    else if y <? x then Ret (x, false) else Ret (y, false).

End MemoryTable.

(** ** Gas functions *)

Section GasTable.
Context {S : Type} {SI : StateI S} {U : Uint256}.

Definition gasFunc : Type := Z -> M (frame S) (Z * option vm_error).

Definition gas_ok (gas : Z) : M (frame S) (Z * option vm_error) := mret (gas, None).
Definition gas_err (e : vm_error) : M (frame S) (Z * option vm_error) := mret (0, Some e).

(** [memoryGasCost(mem, size)] on the memory of the frame. *)
Definition mem_gas (memorySize : Z) : M (frame S) (Z * option vm_error) :=
  let* f := mget in
  let (r, m) := memoryGasCost memorySize (f_Memory f) in
  mput (with_f_Memory m f) ;;; mret r.

(** [if gas, overflow = math.SafeAdd(gas, x); overflow { return 0, ErrGasUintOverflow }; return gas, nil]. *)
Definition add_or_err (gas x : Z) : M (frame S) (Z * option vm_error) :=
  let '(gas, overflow) := SafeAdd gas x in
  if (overflow : bool) then gas_err ErrGasUintOverflow else gas_ok gas.

(** Continue with the gas computed so far, or return the error. *)
Definition gas_then (m : M (frame S) (Z * option vm_error)) (k : Z -> M (frame S) (Z * option vm_error))
    : M (frame S) (Z * option vm_error) :=
  let* (gas, err) := m in
  match err with Some e => gas_err e | None => k gas end.

Definition memoryCopierGas (stackpos : Z) : gasFunc := fun memorySize =>
  gas_then (mem_gas memorySize) (fun gas =>
  let* x := Back stackpos in
  let '(words, overflow) := u_Uint64WithOverflow x in
  if (overflow : bool) then gas_err ErrGasUintOverflow
  else
    let '(words, overflow) := SafeMul (toWordSize words) CopyGas in
    if (overflow : bool) then gas_err ErrGasUintOverflow
    else add_or_err gas words).

Definition gasCallDataCopy : gasFunc := memoryCopierGas 2.
Definition gasCodeCopy : gasFunc := memoryCopierGas 2.
Definition gasExtCodeCopy : gasFunc := memoryCopierGas 3.
Definition gasReturnDataCopy : gasFunc := memoryCopierGas 2.

Definition makeGasLog (n : Z) : gasFunc := fun memorySize =>
  let* x := Back 1 in
  let '(requestedSize, overflow) := u_Uint64WithOverflow x in
  if (overflow : bool) then gas_err ErrGasUintOverflow
  else
    gas_then (mem_gas memorySize) (fun gas =>
    gas_then (add_or_err gas LogGas) (fun gas =>
    gas_then (add_or_err gas (u64 (n * LogTopicGas))) (fun gas =>
    let '(memorySizeGas, overflow) := SafeMul requestedSize LogDataGas in
    if (overflow : bool) then gas_err ErrGasUintOverflow
    else add_or_err gas memorySizeGas))).

Definition gasKeccak256 : gasFunc := fun memorySize =>
  gas_then (mem_gas memorySize) (fun gas =>
  let* x := Back 1 in
  let '(wordGas, overflow) := u_Uint64WithOverflow x in
  if (overflow : bool) then gas_err ErrGasUintOverflow
  else
    let '(wordGas, overflow) := SafeMul (toWordSize wordGas) Keccak256WordGas in
    if (overflow : bool) then gas_err ErrGasUintOverflow
    else add_or_err gas wordGas).

Definition pureMemoryGascost : gasFunc := mem_gas.
Definition gasReturn : gasFunc := pureMemoryGascost.
Definition gasRevert : gasFunc := pureMemoryGascost.
Definition gasMLoad : gasFunc := pureMemoryGascost.
Definition gasMStore8 : gasFunc := pureMemoryGascost.
Definition gasMStore : gasFunc := pureMemoryGascost.

Definition gasCreateEip3860 : gasFunc := fun memorySize =>
  gas_then (mem_gas memorySize) (fun gas =>
  let* x := Back 2 in
  let '(size, overflow) := u_Uint64WithOverflow x in
  if (overflow : bool) || (MaxInitCodeSize <? size) then gas_err ErrGasUintOverflow
  else add_or_err gas (u64 (InitCodeWordGas * (u64 (size + 31) / 32)))).

Definition gasCreate2Eip3860 : gasFunc := fun memorySize =>
  gas_then (mem_gas memorySize) (fun gas =>
  let* x := Back 2 in
  let '(size, overflow) := u_Uint64WithOverflow x in
  if (overflow : bool) || (MaxInitCodeSize <? size) then gas_err ErrGasUintOverflow
  else add_or_err gas (u64 ((InitCodeWordGas + Keccak256WordGas) * (u64 (size + 31) / 32)))).

Definition gasExpEIP158 : gasFunc := fun memorySize =>
  let* x := Back 1 in
  let expByteLen := (u_BitLen x + 7) / 8 in
  add_or_err (u64 (expByteLen * ExpByteEIP158)) ExpGas.

(** [qrvm.callGasTemp, err = callGas(contract.Gas, gas, stack.Back(0))], then
    the sum of both. *)
Definition add_call_gas (gas : Z) : M (frame S) (Z * option vm_error) :=
  let* f := mget in
  let* requested := Back 0 in
  let '(callGasTemp, err) := callGas (c_Gas (f_Contract f)) gas requested in
  mput (with_f_vm (with_vm_callGasTemp callGasTemp (f_vm f)) f) ;;;
  match err with
  | Some e => gas_err e
  | None => add_or_err gas callGasTemp
  end.

Definition gasCall : gasFunc := fun memorySize =>
  let* value := Back 2 in
  let* a := Back 1 in
  let transfersValue := negb (u_IsZero value) in
  let address := BytesToAddress (u_Bytes20 a) in
  let* empty := (if transfersValue then state (SDB.Empty address) else mret false) in
  let gas := if empty then CallNewAccountGas else 0 in
  let gas := if transfersValue then u64 (gas + CallValueTransferGas) else gas in
  gas_then (mem_gas memorySize) (fun memoryGas =>
  gas_then (add_or_err gas memoryGas) add_call_gas).

Definition gasDelegateCall : gasFunc := fun memorySize =>
  gas_then (mem_gas memorySize) add_call_gas.

Definition gasStaticCall : gasFunc := fun memorySize =>
  gas_then (mem_gas memorySize) add_call_gas.

(** ** Access lists (EIP-2929) and SSTORE (EIP-2200, EIP-3529) *)

(** [contract.UseGas] on the contract of the frame. *)
Definition use_gas (gas : Z) : M (frame S) bool :=
  let* f := mget in
  let (ok, c) := Contract.UseGas gas (f_Contract f) in
  mput (with_f_Contract c f) ;;; mret ok.

Definition makeGasSStoreFunc (clearingRefund : Z) : gasFunc := fun memorySize =>
  let* c := the_contract in
  if c_Gas c <=? SstoreSentryGasEIP2200 then gas_err ErrOther
  else
    let* y := Back 1 in
    let* x := peek in
    let slot := BytesToHash (u_Bytes32 x) in
    let* current := state (SDB.GetState (Contract.Address c) slot) in
    let* (addrPresent, slotPresent) := state (SDB.SlotInAccessList (Contract.Address c) slot) in
    let* cost :=
      (if negb slotPresent then
         state (SDB.AddSlotToAccessList (Contract.Address c) slot) ;;;
         if negb addrPresent then mpanic else mret ColdSloadCostEIP2929
       else mret 0) in
    let value := BytesToHash (u_Bytes32 y) in
    if current =? value then gas_ok (u64 (cost + WarmStorageReadCostEIP2929))
    else
      let* original := state (SDB.GetCommittedState (Contract.Address c) (BytesToHash (u_Bytes32 x))) in
      if original =? current then
        if original =? 0 then gas_ok (u64 (cost + SstoreSetGasEIP2200))
        else
          (if value =? 0 then state (SDB.AddRefund clearingRefund) else mret tt) ;;;
          gas_ok (u64 (cost + (SstoreResetGasEIP2200 - ColdSloadCostEIP2929)))
      else
        (if negb (original =? 0) then
           if current =? 0 then state (SDB.SubRefund clearingRefund)
           else if value =? 0 then state (SDB.AddRefund clearingRefund)
           else mret tt
         else mret tt) ;;;
        (if original =? value then
           if original =? 0 then state (SDB.AddRefund (SstoreSetGasEIP2200 - WarmStorageReadCostEIP2929))
           else state (SDB.AddRefund ((SstoreResetGasEIP2200 - ColdSloadCostEIP2929) - WarmStorageReadCostEIP2929))
         else mret tt) ;;;
        gas_ok (u64 (cost + WarmStorageReadCostEIP2929)).

Definition gasSLoadEIP2929 : gasFunc := fun memorySize =>
  let* loc := peek in
  let slot := BytesToHash (u_Bytes32 loc) in
  let* c := the_contract in
  let* (_, slotPresent) := state (SDB.SlotInAccessList (Contract.Address c) slot) in
  if negb slotPresent then
    state (SDB.AddSlotToAccessList (Contract.Address c) slot) ;;;
    gas_ok ColdSloadCostEIP2929
  else gas_ok WarmStorageReadCostEIP2929.

Definition gasExtCodeCopyEIP2929 : gasFunc := fun memorySize =>
  gas_then (gasExtCodeCopy memorySize) (fun gas =>
  let* x := peek in
  let addr := BytesToAddress (u_Bytes20 x) in
  let* present := state (SDB.AddressInAccessList addr) in
  if negb present then
    state (SDB.AddAddressToAccessList addr) ;;;
    add_or_err gas (ColdAccountAccessCostEIP2929 - WarmStorageReadCostEIP2929)
  else gas_ok gas).

Definition gasEip2929AccountCheck : gasFunc := fun memorySize =>
  let* x := peek in
  let addr := BytesToAddress (u_Bytes20 x) in
  let* present := state (SDB.AddressInAccessList addr) in
  if negb present then
    state (SDB.AddAddressToAccessList addr) ;;;
    gas_ok (ColdAccountAccessCostEIP2929 - WarmStorageReadCostEIP2929)
  else gas_ok 0.

Definition makeCallVariantGasCallEIP2929 (oldCalculator : gasFunc) : gasFunc := fun memorySize =>
  let* x := Back 1 in
  let addr := BytesToAddress (u_Bytes20 x) in
  let* warmAccess := state (SDB.AddressInAccessList addr) in
  let coldCost := ColdAccountAccessCostEIP2929 - WarmStorageReadCostEIP2929 in
  let* enough :=
    (if negb warmAccess then state (SDB.AddAddressToAccessList addr) ;;; use_gas coldCost else mret true) in
  if negb enough then gas_err ErrOutOfGas
  else
    let* (gas, err) := oldCalculator memorySize in
    match err with
    | Some _ => mret (gas, err)
    | None =>
        if (warmAccess : bool) then mret (gas, err)
        else
          mmodify (fun f => with_f_Contract (with_c_Gas (u64 (c_Gas (f_Contract f) + coldCost)) (f_Contract f)) f) ;;;
          gas_ok (u64 (gas + coldCost))
    end.

Definition gasCallEIP2929 : gasFunc := makeCallVariantGasCallEIP2929 gasCall.
Definition gasDelegateCallEIP2929 : gasFunc := makeCallVariantGasCallEIP2929 gasDelegateCall.
Definition gasStaticCallEIP2929 : gasFunc := makeCallVariantGasCallEIP2929 gasStaticCall.
Definition gasSStoreEIP3529 : gasFunc := makeGasSStoreFunc SstoreClearsScheduleRefundEIP3529.

End GasTable.
