(* ===== verification/Instructions.v ===== *)
(** * Instructions (core/vm/instructions.go, core/vm/qips.go)

    One definition per handler.  A handler works on the frame and returns the
    result bytes and the error; the instructions that call other contracts are
    parametric in the entry points of the machine. *)

From S2P Require Import Prelude Uint256 Params VMCommon Stack Memory Opcodes Analysis StateTypes VMInterface Contract GasTable.

Section Instructions.
Context {S : Type} {SI : StateI S} {U : Uint256} {C : Crypto}.
Context (e : env).

Definition executionFunc : Type := M (frame S) (list Z * option vm_error).

Definition done_ok : executionFunc := mret ([], None).
Definition fail (err : vm_error) : executionFunc := mret ([], Some err).

(** ** Arithmetic and comparison *)

(** [x, y := pop(), peek(); y.op(&x, y)] *)
Definition binop (g : Z -> Z -> Z) : executionFunc :=
  let* x := pop in let* y := peek in set_top (g x y) ;;; done_ok.

Definition opAdd : executionFunc := binop u_Add.
Definition opSub : executionFunc := binop u_Sub.
Definition opMul : executionFunc := binop u_Mul.
Definition opDiv : executionFunc := binop u_Div.
Definition opSdiv : executionFunc := binop u_SDiv.
Definition opMod : executionFunc := binop u_Mod.
Definition opSmod : executionFunc := binop u_SMod.
Definition opExp : executionFunc := binop u_Exp.
Definition opSignExtend : executionFunc := binop (fun back num => u_ExtendSign num back).
Definition opNot : executionFunc := let* x := peek in set_top (u_Not x) ;;; done_ok.

(** [y.SetOne()] or [y.Clear()]. *)
Definition flag (b : bool) : Z := if b then 1 else 0.

Definition opLt : executionFunc := binop (fun x y => flag (u_Lt x y)).
Definition opGt : executionFunc := binop (fun x y => flag (u_Gt x y)).
Definition opSlt : executionFunc := binop (fun x y => flag (u_Slt x y)).
Definition opSgt : executionFunc := binop (fun x y => flag (u_Sgt x y)).
Definition opEq : executionFunc := binop (fun x y => flag (u_Eq x y)).
Definition opIszero : executionFunc := let* x := peek in set_top (flag (u_IsZero x)) ;;; done_ok.
Definition opAnd : executionFunc := binop u_And.
Definition opOr : executionFunc := binop u_Or.
Definition opXor : executionFunc := binop u_Xor.
Definition opByte : executionFunc := binop (fun th val => u_Byte val th).

Definition opAddmod : executionFunc :=
  let* x := pop in let* y := pop in let* z := peek in
  set_top (if u_IsZero z then 0 else u_AddMod x y z) ;;; done_ok.
Definition opMulmod : executionFunc :=
  let* x := pop in let* y := pop in let* z := peek in
  set_top (u_MulMod x y z) ;;; done_ok.

Definition opSHL : executionFunc :=
  binop (fun shift value => if u_LtUint64 shift 256 then u_Lsh value (u_Uint64 shift) else 0).
Definition opSHR : executionFunc :=
  binop (fun shift value => if u_LtUint64 shift 256 then u_Rsh value (u_Uint64 shift) else 0).
Definition opSAR : executionFunc :=
  binop (fun shift value =>
    if u_GtUint64 shift 256 then (if 0 <=? u_Sign value then 0 else 2 ^ 256 - 1)
    else u_SRsh value (u_Uint64 shift)).

Definition opKeccak256 : executionFunc :=
  let* offset := pop in let* size := peek in
  let* f := mget in
  let* data := mlift (Memory.GetPtr (int64_of (u_Uint64 offset)) (int64_of (u_Uint64 size)) (f_Memory f)) in
  let hasherBuf := Keccak256Hash data in
  (if e_EnablePreimageRecording e then state (SDB.AddPreimage hasherBuf data) else mret tt) ;;;
  set_top (u_SetBytes (HashBytes hasherBuf)) ;;; done_ok.

(** ** Environment *)

Definition opAddress : executionFunc :=
  let* c := the_contract in push (u_SetBytes (AddressBytes (Contract.Address c))) ;;; done_ok.

Definition opBalance : executionFunc :=
  let* slot := peek in
  let* b := state (SDB.GetBalance (BytesToAddress (u_Bytes20 slot))) in
  set_top (u_FromBig b) ;;; done_ok.

Definition opOrigin : executionFunc := push (u_SetBytes (AddressBytes (e_Origin e))) ;;; done_ok.
Definition opCaller : executionFunc :=
  let* c := the_contract in push (u_SetBytes (AddressBytes (Contract.Caller c))) ;;; done_ok.

(** [uint256.FromBig(nil)] is nil, and pushing it dereferences nil. *)
Definition opCallValue : executionFunc :=
  let* c := the_contract in
  match c_value c with Some v => push (u_FromBig v) ;;; done_ok | None => mpanic end.

Definition opCallDataLoad : executionFunc :=
  let* x := peek in
  let '(offset, overflow) := u_Uint64WithOverflow x in
  if negb overflow then
    let* c := the_contract in
    let* data := mlift (getData (c_Input c) offset 32) in
    set_top (u_SetBytes data) ;;; done_ok
  else set_top 0 ;;; done_ok.

Definition opCallDataSize : executionFunc :=
  let* c := the_contract in push (u_SetUint64 (Zlen (c_Input c))) ;;; done_ok.

(** [off.Uint64WithOverflow()], saturated. *)
Definition saturated (off : Z) : Z :=
  let '(o, overflow) := u_Uint64WithOverflow off in if (overflow : bool) then MaxUint64 else o.

Definition opCallDataCopy : executionFunc :=
  let* memOffset := pop in let* dataOffset := pop in let* length := pop in
  let dataOffset64 := saturated dataOffset in
  let memOffset64 := u_Uint64 memOffset in
  let length64 := u_Uint64 length in
  let* c := the_contract in
  let* data := mlift (getData (c_Input c) dataOffset64 length64) in
  set_memory (Memory.SetBytes memOffset64 length64 data) ;;; done_ok.

Definition opReturnDataSize : executionFunc :=
  let* f := mget in push (u_SetUint64 (Zlen (vm_returnData (f_vm f)))) ;;; done_ok.

Definition opReturnDataCopy : executionFunc :=
  let* memOffset := pop in let* dataOffset := pop in let* length := pop in
  let '(offset64, overflow) := u_Uint64WithOverflow dataOffset in
  if (overflow : bool) then fail ErrReturnDataOutOfBounds
  else
    let '(end64, overflow) := u_Uint64WithOverflow (u_Add dataOffset length) in
    let* f := mget in
    if (overflow : bool) || (Zlen (vm_returnData (f_vm f)) <? end64) then fail ErrReturnDataOutOfBounds
    else
      let* data := mlift (go_slice (vm_returnData (f_vm f)) offset64 end64) in
      set_memory (Memory.SetBytes (u_Uint64 memOffset) (u_Uint64 length) data) ;;; done_ok.

Definition opExtCodeSize : executionFunc :=
  let* slot := peek in
  let* n := state (SDB.GetCodeSize (BytesToAddress (u_Bytes20 slot))) in
  set_top (u_SetUint64 (u64 n)) ;;; done_ok.

Definition opCodeSize : executionFunc :=
  let* c := the_contract in push (u_SetUint64 (Zlen (c_Code c))) ;;; done_ok.

Definition opCodeCopy : executionFunc :=
  let* memOffset := pop in let* codeOffset := pop in let* length := pop in
  let uint64CodeOffset := saturated codeOffset in
  let* c := the_contract in
  let* codeCopy := mlift (getData (c_Code c) uint64CodeOffset (u_Uint64 length)) in
  set_memory (Memory.SetBytes (u_Uint64 memOffset) (u_Uint64 length) codeCopy) ;;; done_ok.

Definition opExtCodeCopy : executionFunc :=
  let* a := pop in let* memOffset := pop in let* codeOffset := pop in let* length := pop in
  let uint64CodeOffset := saturated codeOffset in
  let* code := state (SDB.GetCode (BytesToAddress (u_Bytes20 a))) in
  let* codeCopy := mlift (getData code uint64CodeOffset (u_Uint64 length)) in
  set_memory (Memory.SetBytes (u_Uint64 memOffset) (u_Uint64 length) codeCopy) ;;; done_ok.

Definition opExtCodeHash : executionFunc :=
  let* slot := peek in
  let address := BytesToAddress (u_Bytes20 slot) in
  let* empty := state (SDB.Empty address) in
  if (empty : bool) then set_top 0 ;;; done_ok
  else
    let* h := state (SDB.GetCodeHash address) in
    set_top (u_SetBytes (HashBytes h)) ;;; done_ok.

Definition opGasprice : executionFunc := push (u_FromBig (e_GasPrice e)) ;;; done_ok.

Definition opBlockhash : executionFunc :=
  let* num := peek in
  let '(num64, overflow) := u_Uint64WithOverflow num in
  if (overflow : bool) then set_top 0 ;;; done_ok
  else
    let upper := u64 (e_BlockNumber e) in
    let lower := if upper <? 257 then 0 else upper - 256 in
    set_top (if (lower <=? num64) && (num64 <? upper) then u_SetBytes (HashBytes (e_GetHash e num64)) else 0) ;;;
    done_ok.

Definition opCoinbase : executionFunc := push (u_SetBytes (AddressBytes (e_Coinbase e))) ;;; done_ok.
Definition opTimestamp : executionFunc := push (u_SetUint64 (e_Time e)) ;;; done_ok.
Definition opNumber : executionFunc := push (u_FromBig (e_BlockNumber e)) ;;; done_ok.
Definition opRandom : executionFunc := push (u_SetBytes (HashBytes (e_Random e))) ;;; done_ok.
Definition opGasLimit : executionFunc := push (u_SetUint64 (e_GasLimit e)) ;;; done_ok.
Definition opSelfBalance : executionFunc :=
  let* c := the_contract in
  let* b := state (SDB.GetBalance (Contract.Address c)) in push (u_FromBig b) ;;; done_ok.
Definition opChainID : executionFunc := push (u_FromBig (e_ChainID e)) ;;; done_ok.
Definition opBaseFee : executionFunc := push (u_FromBig (e_BaseFee e)) ;;; done_ok.

(** ** Stack, memory, storage and control flow *)

Definition opPop : executionFunc := pop ;;; done_ok.

Definition opMload : executionFunc :=
  let* v := peek in
  let* f := mget in
  let* data := mlift (Memory.GetPtr (int64_of (u_Uint64 v)) 32 (f_Memory f)) in
  set_top (u_SetBytes data) ;;; done_ok.

Definition opMstore : executionFunc :=
  let* mStart := pop in let* val := pop in
  set_memory (Memory.Set32 (u_Uint64 mStart) val) ;;; done_ok.

Definition opMstore8 : executionFunc :=
  let* off := pop in let* val := pop in
  set_memory (Memory.Set8 (u_Uint64 off) (u_Uint64 val)) ;;; done_ok.

Definition opSload : executionFunc :=
  let* loc := peek in
  let* c := the_contract in
  let* val := state (SDB.GetState (Contract.Address c) (BytesToHash (u_Bytes32 loc))) in
  set_top (u_SetBytes (HashBytes val)) ;;; done_ok.

Definition opSstore : executionFunc :=
  let* f := mget in
  if vm_readOnly (f_vm f) then fail ErrWriteProtection
  else
    let* loc := pop in let* val := pop in
    state (SDB.SetState (Contract.Address (f_Contract f)) (BytesToHash (u_Bytes32 loc)) (BytesToHash (u_Bytes32 val))) ;;;
    done_ok.

(** [scope.Contract.validJumpdest(&pos)]. *)
Definition valid_jumpdest (pos : Z) : M (frame S) bool :=
  let* f := mget in
  let* (ok, c) := on_vm (Contract.validJumpdest pos (f_Contract f)) in
  mmodify (with_f_Contract c) ;;; mret ok.

Definition set_pc (pc : Z) : M (frame S) unit := mmodify (with_f_pc (u64 pc)).

Definition opJump : executionFunc :=
  let* abort := abort_load in
  if (abort : bool) then fail errStopToken
  else
    let* pos := pop in
    let* ok := valid_jumpdest pos in
    if negb ok then fail ErrInvalidJump
    else set_pc (u_Uint64 pos - 1) ;;; done_ok.

Definition opJumpi : executionFunc :=
  let* abort := abort_load in
  if (abort : bool) then fail errStopToken
  else
    let* pos := pop in let* cond := pop in
    if negb (u_IsZero cond) then
      let* ok := valid_jumpdest pos in
      if negb ok then fail ErrInvalidJump
      else set_pc (u_Uint64 pos - 1) ;;; done_ok
    else done_ok.

Definition opJumpdest : executionFunc := done_ok.
Definition opPc : executionFunc := let* f := mget in push (u_SetUint64 (f_pc f)) ;;; done_ok.
Definition opMsize : executionFunc := let* f := mget in push (u_SetUint64 (Memory.Len (f_Memory f))) ;;; done_ok.
Definition opGas : executionFunc := let* c := the_contract in push (u_SetUint64 (c_Gas c)) ;;; done_ok.

Definition opReturn : executionFunc :=
  let* offset := pop in let* size := pop in
  let* f := mget in
  let* ret := mlift (Memory.GetPtr (int64_of (u_Uint64 offset)) (int64_of (u_Uint64 size)) (f_Memory f)) in
  mret (ret, Some errStopToken).

Definition set_returnData (data : list Z) : M (frame S) unit :=
  mmodify (fun f => with_f_vm (with_vm_returnData data (f_vm f)) f).

Definition opRevert : executionFunc :=
  let* offset := pop in let* size := pop in
  let* f := mget in
  let* ret := mlift (Memory.GetPtr (int64_of (u_Uint64 offset)) (int64_of (u_Uint64 size)) (f_Memory f)) in
  set_returnData ret ;;;
  mret (ret, Some ErrExecutionReverted).

Definition opUndefined : executionFunc :=
  let* f := mget in
  let* op := mlift (go_index (c_Code (f_Contract f)) (f_pc f)) in
  fail (ErrInvalidOpCode op).

Definition opStop : executionFunc := fail errStopToken.

Fixpoint pop_topics (n : nat) : M (frame S) (list Z) :=
  match n with
  | O => mret []
  | Datatypes.S n =>
      let* x := pop in
      let* topics := pop_topics n in
      mret (BytesToHash (u_Bytes32 x) :: topics)
  end.

Definition makeLog (size : nat) : executionFunc :=
  let* f := mget in
  if vm_readOnly (f_vm f) then fail ErrWriteProtection
  else
    let* mStart := pop in let* mSize := pop in
    let* topics := pop_topics size in
    let* d := mlift (Memory.GetCopy (int64_of (u_Uint64 mStart)) (int64_of (u_Uint64 mSize)) (f_Memory f)) in
    state (SDB.AddLog (mkLog (Contract.Address (f_Contract f)) topics d (u64 (e_BlockNumber e)) 0 0 0 0)) ;;;
    done_ok.

Definition opPush0 : executionFunc := push 0 ;;; done_ok.

Definition opPush1 : executionFunc :=
  let* f := mget in
  let code := c_Code (f_Contract f) in
  set_pc (f_pc f + 1) ;;;
  let pc := u64 (f_pc f + 1) in
  if pc <? Zlen code then
    let* b := mlift (go_index code pc) in
    push (u_SetUint64 b) ;;; done_ok
  else push 0 ;;; done_ok.

Definition makePush (size pushByteSize : Z) : executionFunc :=
  let* f := mget in
  let code := c_Code (f_Contract f) in
  let codeLen := Zlen code in
  let startMin := Z.min (int64_of (u64 (f_pc f + 1))) codeLen in
  let endMin := Z.min (startMin + pushByteSize) codeLen in
  let* b := mlift (go_slice code startMin endMin) in
  push (u_SetBytes (RightPadBytes b pushByteSize)) ;;;
  set_pc (f_pc f + size) ;;;
  done_ok.

Definition makeDup (size : Z) : executionFunc :=
  on_stack (fun st => let! st := Stack.dup size st in Ret (tt, st)) ;;; done_ok.
Definition makeSwap (size : Z) : executionFunc :=
  on_stack (fun st => let! st := Stack.swap (size + 1) st in Ret (tt, st)) ;;; done_ok.

(** ** Calls *)

(** The entry points of the machine: the return data, the gas left, the error
    and, for creations, the new address. *)
Record entryPoints : Type := mkEntry {
  Call : contractRef -> Z -> list Z -> Z -> Z -> M (QRVM S) (list Z * Z * option vm_error);
  DelegateCall : contractRef -> Z -> list Z -> Z -> M (QRVM S) (list Z * Z * option vm_error);
  StaticCall : contractRef -> Z -> list Z -> Z -> M (QRVM S) (list Z * Z * option vm_error);
  Create : contractRef -> list Z -> Z -> Z -> M (QRVM S) (list Z * Z * Z * option vm_error);
  Create2 : contractRef -> list Z -> Z -> Z -> Z -> M (QRVM S) (list Z * Z * Z * option vm_error)
}.
Context (q : entryPoints).

Definition as_ref (c : Contract) : contractRef := ContractAt (c_self c) (c_CallerAddress c) (c_value c).

(** [scope.Contract.Gas += returnGas]. *)
Definition return_gas (gas : Z) : M (frame S) unit :=
  mmodify (fun f => with_f_Contract (with_c_Gas (u64 (c_Gas (f_Contract f) + gas)) (f_Contract f)) f).

Definition opCreate : executionFunc :=
  let* f := mget in
  if vm_readOnly (f_vm f) then fail ErrWriteProtection
  else
    let* value := pop in let* offset := pop in let* size := pop in
    let* input := mlift (Memory.GetCopy (int64_of (u_Uint64 offset)) (int64_of (u_Uint64 size)) (f_Memory f)) in
    let gas := c_Gas (f_Contract f) in
    let gas := gas - gas / 64 in
    use_gas gas ;;;
    let bigVal := if negb (u_IsZero value) then u_ToBig value else 0 in
    let* (res, addr, returnGas, suberr) := on_vm (Create q (as_ref (f_Contract f)) input gas bigVal) in
    push (match suberr with Some _ => 0 | None => u_SetBytes (AddressBytes addr) end) ;;;
    return_gas returnGas ;;;
    if bool_decide (suberr = Some ErrExecutionReverted)
    then set_returnData res ;;; mret (res, None)
    else set_returnData [] ;;; done_ok.

Definition opCreate2 : executionFunc :=
  let* f := mget in
  if vm_readOnly (f_vm f) then fail ErrWriteProtection
  else
    let* endowment := pop in let* offset := pop in let* size := pop in let* salt := pop in
    let* input := mlift (Memory.GetCopy (int64_of (u_Uint64 offset)) (int64_of (u_Uint64 size)) (f_Memory f)) in
    let gas := c_Gas (f_Contract f) in
    let gas := gas - gas / 64 in
    use_gas gas ;;;
    let bigEndowment := if negb (u_IsZero endowment) then u_ToBig endowment else 0 in
    let* (res, addr, returnGas, suberr) := on_vm (Create2 q (as_ref (f_Contract f)) input gas bigEndowment salt) in
    push (match suberr with Some _ => 0 | None => u_SetBytes (AddressBytes addr) end) ;;;
    return_gas returnGas ;;;
    if bool_decide (suberr = Some ErrExecutionReverted)
    then set_returnData res ;;; mret (res, None)
    else set_returnData [] ;;; done_ok.

(** The end of a call: the success flag, the returned bytes, the gas. *)
Definition finish_call (retOffset retSize : Z) (r : list Z * Z * option vm_error) : executionFunc :=
  let '(ret, returnGas, err) := r in
  push (match err with Some _ => 0 | None => 1 end) ;;;
  (match err with
   | None | Some ErrExecutionReverted => set_memory (Memory.SetBytes (u_Uint64 retOffset) (u_Uint64 retSize) ret)
   | _ => mret tt
   end) ;;;
  return_gas returnGas ;;;
  set_returnData ret ;;;
  mret (ret, None).

Definition opCall : executionFunc :=
  let* _ := pop in
  let* f := mget in
  let gas := vm_callGasTemp (f_vm f) in
  let* addr := pop in let* value := pop in let* inOffset := pop in let* inSize := pop in
  let* retOffset := pop in let* retSize := pop in
  let toAddr := BytesToAddress (u_Bytes20 addr) in
  let* args := mlift (Memory.GetPtr (int64_of (u_Uint64 inOffset)) (int64_of (u_Uint64 inSize)) (f_Memory f)) in
  if vm_readOnly (f_vm f) && negb (u_IsZero value) then fail ErrWriteProtection
  else
    let gas := if negb (u_IsZero value) then u64 (gas + CallStipend) else gas in
    let bigVal := if negb (u_IsZero value) then u_ToBig value else 0 in
    let* r := on_vm (Call q (as_ref (f_Contract f)) toAddr args gas bigVal) in
    finish_call retOffset retSize r.

Definition opDelegateCall : executionFunc :=
  let* _ := pop in
  let* f := mget in
  let gas := vm_callGasTemp (f_vm f) in
  let* addr := pop in let* inOffset := pop in let* inSize := pop in
  let* retOffset := pop in let* retSize := pop in
  let toAddr := BytesToAddress (u_Bytes20 addr) in
  let* args := mlift (Memory.GetPtr (int64_of (u_Uint64 inOffset)) (int64_of (u_Uint64 inSize)) (f_Memory f)) in
  let* r := on_vm (DelegateCall q (as_ref (f_Contract f)) toAddr args gas) in
  finish_call retOffset retSize r.

Definition opStaticCall : executionFunc :=
  let* _ := pop in
  let* f := mget in
  let gas := vm_callGasTemp (f_vm f) in
  let* addr := pop in let* inOffset := pop in let* inSize := pop in
  let* retOffset := pop in let* retSize := pop in
  let toAddr := BytesToAddress (u_Bytes20 addr) in
  let* args := mlift (Memory.GetPtr (int64_of (u_Uint64 inOffset)) (int64_of (u_Uint64 inSize)) (f_Memory f)) in
  let* r := on_vm (StaticCall q (as_ref (f_Contract f)) toAddr args gas) in
  finish_call retOffset retSize r.

End Instructions.

Arguments entryPoints S : clear implicits.
