(* ===== verification/JumpTable.v ===== *)
(** * The jump table (core/vm/jump_table.go)

    One entry per opcode: the handler, its constant gas, its gas function, the
    bounds on the stack and the memory it needs.  Slots without an entry hold
    [opUndefined]. *)

From S2P Require Import Prelude Uint256 Params VMCommon Stack Memory Opcodes Analysis StateTypes VMInterface Contract GasTable Instructions.

Section JumpTable.
Context {S : Type} {SI : StateI S} {U : Uint256} {C : Crypto}.
Context (e : env) (q : entryPoints S).

Record operation : Type := mkOp {
  execute : executionFunc (S:=S);
  constantGas : Z;
  dynamicGas : option (gasFunc (S:=S));
  op_minStack : Z;
  op_maxStack : Z;
  memorySize : option (Stack.t -> outcome (Z * bool))
}.

(** STOP to BYTE. *)
Definition tbl0 : list (Z * operation) := [
  (Op.STOP, mkOp opStop 0 None (minStack 0 0) (maxStack 0 0) None);
  (Op.ADD, mkOp opAdd GasFastestStep None (minStack 2 1) (maxStack 2 1) None);
  (Op.MUL, mkOp opMul GasFastStep None (minStack 2 1) (maxStack 2 1) None);
  (Op.SUB, mkOp opSub GasFastestStep None (minStack 2 1) (maxStack 2 1) None);
  (Op.DIV, mkOp opDiv GasFastStep None (minStack 2 1) (maxStack 2 1) None);
  (Op.SDIV, mkOp opSdiv GasFastStep None (minStack 2 1) (maxStack 2 1) None);
  (Op.MOD, mkOp opMod GasFastStep None (minStack 2 1) (maxStack 2 1) None);
  (Op.SMOD, mkOp opSmod GasFastStep None (minStack 2 1) (maxStack 2 1) None);
  (Op.ADDMOD, mkOp opAddmod GasMidStep None (minStack 3 1) (maxStack 3 1) None);
  (Op.MULMOD, mkOp opMulmod GasMidStep None (minStack 3 1) (maxStack 3 1) None);
  (Op.EXP, mkOp opExp 0 (Some gasExpEIP158) (minStack 2 1) (maxStack 2 1) None);
  (Op.SIGNEXTEND, mkOp opSignExtend GasFastStep None (minStack 2 1) (maxStack 2 1) None);
  (Op.LT, mkOp opLt GasFastestStep None (minStack 2 1) (maxStack 2 1) None);
  (Op.GT, mkOp opGt GasFastestStep None (minStack 2 1) (maxStack 2 1) None);
  (Op.SLT, mkOp opSlt GasFastestStep None (minStack 2 1) (maxStack 2 1) None);
  (Op.SGT, mkOp opSgt GasFastestStep None (minStack 2 1) (maxStack 2 1) None);
  (Op.EQ, mkOp opEq GasFastestStep None (minStack 2 1) (maxStack 2 1) None);
  (Op.ISZERO, mkOp opIszero GasFastestStep None (minStack 1 1) (maxStack 1 1) None);
  (Op.AND, mkOp opAnd GasFastestStep None (minStack 2 1) (maxStack 2 1) None);
  (Op.XOR, mkOp opXor GasFastestStep None (minStack 2 1) (maxStack 2 1) None);
  (Op.OR, mkOp opOr GasFastestStep None (minStack 2 1) (maxStack 2 1) None);
  (Op.NOT, mkOp opNot GasFastestStep None (minStack 1 1) (maxStack 1 1) None);
  (Op.BYTE, mkOp opByte GasFastestStep None (minStack 2 1) (maxStack 2 1) None)].

(** KECCAK256 to MLOAD. *)
Definition tbl1 : list (Z * operation) := [
  (Op.KECCAK256, mkOp (opKeccak256 e) Keccak256Gas (Some gasKeccak256) (minStack 2 1) (maxStack 2 1) (Some memoryKeccak256));
  (Op.ADDRESS, mkOp opAddress GasQuickStep None (minStack 0 1) (maxStack 0 1) None);
  (Op.BALANCE, mkOp opBalance WarmStorageReadCostEIP2929 (Some gasEip2929AccountCheck) (minStack 1 1) (maxStack 1 1) None);
  (Op.ORIGIN, mkOp (opOrigin e) GasQuickStep None (minStack 0 1) (maxStack 0 1) None);
  (Op.CALLER, mkOp opCaller GasQuickStep None (minStack 0 1) (maxStack 0 1) None);
  (Op.CALLVALUE, mkOp opCallValue GasQuickStep None (minStack 0 1) (maxStack 0 1) None);
  (Op.CALLDATALOAD, mkOp opCallDataLoad GasFastestStep None (minStack 1 1) (maxStack 1 1) None);
  (Op.CALLDATASIZE, mkOp opCallDataSize GasQuickStep None (minStack 0 1) (maxStack 0 1) None);
  (Op.CALLDATACOPY, mkOp opCallDataCopy GasFastestStep (Some gasCallDataCopy) (minStack 3 0) (maxStack 3 0) (Some memoryCallDataCopy));
  (Op.CODESIZE, mkOp opCodeSize GasQuickStep None (minStack 0 1) (maxStack 0 1) None);
  (Op.CODECOPY, mkOp opCodeCopy GasFastestStep (Some gasCodeCopy) (minStack 3 0) (maxStack 3 0) (Some memoryCodeCopy));
  (Op.GASPRICE, mkOp (opGasprice e) GasQuickStep None (minStack 0 1) (maxStack 0 1) None);
  (Op.EXTCODESIZE, mkOp opExtCodeSize WarmStorageReadCostEIP2929 (Some gasEip2929AccountCheck) (minStack 1 1) (maxStack 1 1) None);
  (Op.EXTCODECOPY, mkOp opExtCodeCopy WarmStorageReadCostEIP2929 (Some gasExtCodeCopyEIP2929) (minStack 4 0) (maxStack 4 0) (Some memoryExtCodeCopy));
  (Op.BLOCKHASH, mkOp (opBlockhash e) GasExtStep None (minStack 1 1) (maxStack 1 1) None);
  (Op.COINBASE, mkOp (opCoinbase e) GasQuickStep None (minStack 0 1) (maxStack 0 1) None);
  (Op.TIMESTAMP, mkOp (opTimestamp e) GasQuickStep None (minStack 0 1) (maxStack 0 1) None);
  (Op.NUMBER, mkOp (opNumber e) GasQuickStep None (minStack 0 1) (maxStack 0 1) None);
  (Op.GASLIMIT, mkOp (opGasLimit e) GasQuickStep None (minStack 0 1) (maxStack 0 1) None);
  (Op.POP, mkOp opPop GasQuickStep None (minStack 1 0) (maxStack 1 0) None);
  (Op.MLOAD, mkOp opMload GasFastestStep (Some gasMLoad) (minStack 1 1) (maxStack 1 1) (Some memoryMLoad))].

(** MSTORE to PUSH12. *)
Definition tbl2 : list (Z * operation) := [
  (Op.MSTORE, mkOp opMstore GasFastestStep (Some gasMStore) (minStack 2 0) (maxStack 2 0) (Some memoryMStore));
  (Op.MSTORE8, mkOp opMstore8 GasFastestStep (Some gasMStore8) (minStack 2 0) (maxStack 2 0) (Some memoryMStore8));
  (Op.SLOAD, mkOp opSload 0 (Some gasSLoadEIP2929) (minStack 1 1) (maxStack 1 1) None);
  (Op.SSTORE, mkOp opSstore 0 (Some gasSStoreEIP3529) (minStack 2 0) (maxStack 2 0) None);
  (Op.JUMP, mkOp opJump GasMidStep None (minStack 1 0) (maxStack 1 0) None);
  (Op.JUMPI, mkOp opJumpi GasSlowStep None (minStack 2 0) (maxStack 2 0) None);
  (Op.PC, mkOp opPc GasQuickStep None (minStack 0 1) (maxStack 0 1) None);
  (Op.MSIZE, mkOp opMsize GasQuickStep None (minStack 0 1) (maxStack 0 1) None);
  (Op.GAS, mkOp opGas GasQuickStep None (minStack 0 1) (maxStack 0 1) None);
  (Op.JUMPDEST, mkOp opJumpdest JumpdestGas None (minStack 0 0) (maxStack 0 0) None);
  (Op.PUSH1, mkOp opPush1 GasFastestStep None (minStack 0 1) (maxStack 0 1) None);
  (Op.PUSH2, mkOp (makePush 2 2) GasFastestStep None (minStack 0 1) (maxStack 0 1) None);
  (Op.PUSH3, mkOp (makePush 3 3) GasFastestStep None (minStack 0 1) (maxStack 0 1) None);
  (Op.PUSH4, mkOp (makePush 4 4) GasFastestStep None (minStack 0 1) (maxStack 0 1) None);
  (Op.PUSH5, mkOp (makePush 5 5) GasFastestStep None (minStack 0 1) (maxStack 0 1) None);
  (Op.PUSH6, mkOp (makePush 6 6) GasFastestStep None (minStack 0 1) (maxStack 0 1) None);
  (Op.PUSH7, mkOp (makePush 7 7) GasFastestStep None (minStack 0 1) (maxStack 0 1) None);
  (Op.PUSH8, mkOp (makePush 8 8) GasFastestStep None (minStack 0 1) (maxStack 0 1) None);
  (Op.PUSH9, mkOp (makePush 9 9) GasFastestStep None (minStack 0 1) (maxStack 0 1) None);
  (Op.PUSH10, mkOp (makePush 10 10) GasFastestStep None (minStack 0 1) (maxStack 0 1) None);
  (Op.PUSH11, mkOp (makePush 11 11) GasFastestStep None (minStack 0 1) (maxStack 0 1) None);
  (Op.PUSH12, mkOp (makePush 12 12) GasFastestStep None (minStack 0 1) (maxStack 0 1) None)].

(** PUSH13 to DUP3. *)
Definition tbl3 : list (Z * operation) := [
  (Op.PUSH13, mkOp (makePush 13 13) GasFastestStep None (minStack 0 1) (maxStack 0 1) None);
  (Op.PUSH14, mkOp (makePush 14 14) GasFastestStep None (minStack 0 1) (maxStack 0 1) None);
  (Op.PUSH15, mkOp (makePush 15 15) GasFastestStep None (minStack 0 1) (maxStack 0 1) None);
  (Op.PUSH16, mkOp (makePush 16 16) GasFastestStep None (minStack 0 1) (maxStack 0 1) None);
  (Op.PUSH17, mkOp (makePush 17 17) GasFastestStep None (minStack 0 1) (maxStack 0 1) None);
  (Op.PUSH18, mkOp (makePush 18 18) GasFastestStep None (minStack 0 1) (maxStack 0 1) None);
  (Op.PUSH19, mkOp (makePush 19 19) GasFastestStep None (minStack 0 1) (maxStack 0 1) None);
  (Op.PUSH20, mkOp (makePush 20 20) GasFastestStep None (minStack 0 1) (maxStack 0 1) None);
  (Op.PUSH21, mkOp (makePush 21 21) GasFastestStep None (minStack 0 1) (maxStack 0 1) None);
  (Op.PUSH22, mkOp (makePush 22 22) GasFastestStep None (minStack 0 1) (maxStack 0 1) None);
  (Op.PUSH23, mkOp (makePush 23 23) GasFastestStep None (minStack 0 1) (maxStack 0 1) None);
  (Op.PUSH24, mkOp (makePush 24 24) GasFastestStep None (minStack 0 1) (maxStack 0 1) None);
  (Op.PUSH25, mkOp (makePush 25 25) GasFastestStep None (minStack 0 1) (maxStack 0 1) None);
  (Op.PUSH26, mkOp (makePush 26 26) GasFastestStep None (minStack 0 1) (maxStack 0 1) None);
  (Op.PUSH27, mkOp (makePush 27 27) GasFastestStep None (minStack 0 1) (maxStack 0 1) None);
  (Op.PUSH28, mkOp (makePush 28 28) GasFastestStep None (minStack 0 1) (maxStack 0 1) None);
  (Op.PUSH29, mkOp (makePush 29 29) GasFastestStep None (minStack 0 1) (maxStack 0 1) None);
  (Op.PUSH30, mkOp (makePush 30 30) GasFastestStep None (minStack 0 1) (maxStack 0 1) None);
  (Op.PUSH31, mkOp (makePush 31 31) GasFastestStep None (minStack 0 1) (maxStack 0 1) None);
  (Op.PUSH32, mkOp (makePush 32 32) GasFastestStep None (minStack 0 1) (maxStack 0 1) None);
  (Op.DUP1, mkOp (makeDup 1) GasFastestStep None (minDupStack 1) (maxDupStack 1) None);
  (Op.DUP2, mkOp (makeDup 2) GasFastestStep None (minDupStack 2) (maxDupStack 2) None);
  (Op.DUP3, mkOp (makeDup 3) GasFastestStep None (minDupStack 3) (maxDupStack 3) None)].

(** DUP4 to SWAP10. *)
Definition tbl4 : list (Z * operation) := [
  (Op.DUP4, mkOp (makeDup 4) GasFastestStep None (minDupStack 4) (maxDupStack 4) None);
  (Op.DUP5, mkOp (makeDup 5) GasFastestStep None (minDupStack 5) (maxDupStack 5) None);
  (Op.DUP6, mkOp (makeDup 6) GasFastestStep None (minDupStack 6) (maxDupStack 6) None);
  (Op.DUP7, mkOp (makeDup 7) GasFastestStep None (minDupStack 7) (maxDupStack 7) None);
  (Op.DUP8, mkOp (makeDup 8) GasFastestStep None (minDupStack 8) (maxDupStack 8) None);
  (Op.DUP9, mkOp (makeDup 9) GasFastestStep None (minDupStack 9) (maxDupStack 9) None);
  (Op.DUP10, mkOp (makeDup 10) GasFastestStep None (minDupStack 10) (maxDupStack 10) None);
  (Op.DUP11, mkOp (makeDup 11) GasFastestStep None (minDupStack 11) (maxDupStack 11) None);
  (Op.DUP12, mkOp (makeDup 12) GasFastestStep None (minDupStack 12) (maxDupStack 12) None);
  (Op.DUP13, mkOp (makeDup 13) GasFastestStep None (minDupStack 13) (maxDupStack 13) None);
  (Op.DUP14, mkOp (makeDup 14) GasFastestStep None (minDupStack 14) (maxDupStack 14) None);
  (Op.DUP15, mkOp (makeDup 15) GasFastestStep None (minDupStack 15) (maxDupStack 15) None);
  (Op.DUP16, mkOp (makeDup 16) GasFastestStep None (minDupStack 16) (maxDupStack 16) None);
  (Op.SWAP1, mkOp (makeSwap 1) GasFastestStep None (minSwapStack 2) (maxSwapStack 2) None);
  (Op.SWAP2, mkOp (makeSwap 2) GasFastestStep None (minSwapStack 3) (maxSwapStack 3) None);
  (Op.SWAP3, mkOp (makeSwap 3) GasFastestStep None (minSwapStack 4) (maxSwapStack 4) None);
  (Op.SWAP4, mkOp (makeSwap 4) GasFastestStep None (minSwapStack 5) (maxSwapStack 5) None);
  (Op.SWAP5, mkOp (makeSwap 5) GasFastestStep None (minSwapStack 6) (maxSwapStack 6) None);
  (Op.SWAP6, mkOp (makeSwap 6) GasFastestStep None (minSwapStack 7) (maxSwapStack 7) None);
  (Op.SWAP7, mkOp (makeSwap 7) GasFastestStep None (minSwapStack 8) (maxSwapStack 8) None);
  (Op.SWAP8, mkOp (makeSwap 8) GasFastestStep None (minSwapStack 9) (maxSwapStack 9) None);
  (Op.SWAP9, mkOp (makeSwap 9) GasFastestStep None (minSwapStack 10) (maxSwapStack 10) None);
  (Op.SWAP10, mkOp (makeSwap 10) GasFastestStep None (minSwapStack 11) (maxSwapStack 11) None)].

(** SWAP11 to SHL. *)
Definition tbl5 : list (Z * operation) := [
  (Op.SWAP11, mkOp (makeSwap 11) GasFastestStep None (minSwapStack 12) (maxSwapStack 12) None);
  (Op.SWAP12, mkOp (makeSwap 12) GasFastestStep None (minSwapStack 13) (maxSwapStack 13) None);
  (Op.SWAP13, mkOp (makeSwap 13) GasFastestStep None (minSwapStack 14) (maxSwapStack 14) None);
  (Op.SWAP14, mkOp (makeSwap 14) GasFastestStep None (minSwapStack 15) (maxSwapStack 15) None);
  (Op.SWAP15, mkOp (makeSwap 15) GasFastestStep None (minSwapStack 16) (maxSwapStack 16) None);
  (Op.SWAP16, mkOp (makeSwap 16) GasFastestStep None (minSwapStack 17) (maxSwapStack 17) None);
  (Op.LOG0, mkOp (makeLog e 0) 0 (Some (makeGasLog 0)) (minStack 2 0) (maxStack 2 0) (Some memoryLog));
  (Op.LOG1, mkOp (makeLog e 1) 0 (Some (makeGasLog 1)) (minStack 3 0) (maxStack 3 0) (Some memoryLog));
  (Op.LOG2, mkOp (makeLog e 2) 0 (Some (makeGasLog 2)) (minStack 4 0) (maxStack 4 0) (Some memoryLog));
  (Op.LOG3, mkOp (makeLog e 3) 0 (Some (makeGasLog 3)) (minStack 5 0) (maxStack 5 0) (Some memoryLog));
  (Op.LOG4, mkOp (makeLog e 4) 0 (Some (makeGasLog 4)) (minStack 6 0) (maxStack 6 0) (Some memoryLog));
  (Op.CREATE, mkOp (opCreate q) CreateGas (Some gasCreateEip3860) (minStack 3 1) (maxStack 3 1) (Some memoryCreate));
  (Op.CALL, mkOp (opCall q) WarmStorageReadCostEIP2929 (Some gasCallEIP2929) (minStack 7 1) (maxStack 7 1) (Some memoryCall));
  (Op.RETURN, mkOp opReturn 0 (Some gasReturn) (minStack 2 0) (maxStack 2 0) (Some memoryReturn));
  (Op.DELEGATECALL, mkOp (opDelegateCall q) WarmStorageReadCostEIP2929 (Some gasDelegateCallEIP2929) (minStack 6 1) (maxStack 6 1) (Some memoryDelegateCall));
  (Op.REVERT, mkOp opRevert 0 (Some gasRevert) (minStack 2 0) (maxStack 2 0) (Some memoryRevert));
  (Op.RETURNDATACOPY, mkOp opReturnDataCopy GasFastestStep (Some gasReturnDataCopy) (minStack 3 0) (maxStack 3 0) (Some memoryReturnDataCopy));
  (Op.RETURNDATASIZE, mkOp opReturnDataSize GasQuickStep None (minStack 0 1) (maxStack 0 1) None);
  (Op.STATICCALL, mkOp (opStaticCall q) WarmStorageReadCostEIP2929 (Some gasStaticCallEIP2929) (minStack 6 1) (maxStack 6 1) (Some memoryStaticCall));
  (Op.SHL, mkOp opSHL GasFastestStep None (minStack 2 1) (maxStack 2 1) None)].

(** SHR to PUSH0. *)
Definition tbl6 : list (Z * operation) := [
  (Op.SHR, mkOp opSHR GasFastestStep None (minStack 2 1) (maxStack 2 1) None);
  (Op.SAR, mkOp opSAR GasFastestStep None (minStack 2 1) (maxStack 2 1) None);
  (Op.EXTCODEHASH, mkOp opExtCodeHash WarmStorageReadCostEIP2929 (Some gasEip2929AccountCheck) (minStack 1 1) (maxStack 1 1) None);
  (Op.CREATE2, mkOp (opCreate2 q) Create2Gas (Some gasCreate2Eip3860) (minStack 4 1) (maxStack 4 1) (Some memoryCreate2));
  (Op.CHAINID, mkOp (opChainID e) GasQuickStep None (minStack 0 1) (maxStack 0 1) None);
  (Op.SELFBALANCE, mkOp opSelfBalance GasFastStep None (minStack 0 1) (maxStack 0 1) None);
  (Op.BASEFEE, mkOp (opBaseFee e) GasQuickStep None (minStack 0 1) (maxStack 0 1) None);
  (Op.PREVRANDAO, mkOp (opRandom e) GasQuickStep None (minStack 0 1) (maxStack 0 1) None);
  (Op.PUSH0, mkOp opPush0 GasQuickStep None (minStack 0 1) (maxStack 0 1) None)].

(** The entries of the table literal. *)
Definition zond_entries : list (Z * operation) :=
  tbl0 ++ tbl1 ++ tbl2 ++ tbl3 ++ tbl4 ++ tbl5 ++ tbl6.

(** The slots left empty by the literal. *)
Definition undefinedOperation : operation := mkOp opUndefined 0 None 0 (maxStack 0 0) None.

(** [newZondInstructionSet]: the 256 slots. *)
Definition newZondInstructionSet (op : Z) : operation :=
  default undefinedOperation (Op.assoc op zond_entries).

(** [validate]: an entry with a memory size has a gas function (the literal
    panics otherwise). *)
Definition validate (jt : Z -> operation) : bool :=
  forallb (fun i => match memorySize (jt (Z.of_nat i)), dynamicGas (jt (Z.of_nat i)) with
                    | Some _, None => false
                    | _, _ => true
                    end) (seq 0 256).

(** ** Optional changes of the table (core/vm/qips.go) *)

Definition activators : list (Z * ((Z -> operation) -> Z -> operation)) := [].

Definition EnableQIP (qipNum : Z) (jt : Z -> operation) : Z + (Z -> operation) :=
  match Op.assoc qipNum activators with
  | None => inl qipNum
  | Some enablerFn => inr (enablerFn jt)
  end.

Definition ValidQip (qipNum : Z) : bool :=
  match Op.assoc qipNum activators with Some _ => true | None => false end.

(** The loop of [NewQRVMInterpreter]: the table and the activated QIPs. *)
Fixpoint enable_qips (qips : list Z) (table : Z -> operation) : (Z -> operation) * list Z :=
  match qips with
  | [] => (table, [])
  | qip :: qips =>
      match EnableQIP qip table with
      | inl _ => enable_qips qips table
      | inr table => let (table, extraQips) := enable_qips qips table in (table, qip :: extraQips)
      end
  end.

Definition NewQRVMInterpreter (ExtraQips : list Z) : (Z -> operation) * list Z :=
  enable_qips ExtraQips newZondInstructionSet.

End JumpTable.
