(* ===== verification/Precompiles.v ===== *)
(** * Precompiled contracts (core/vm/contracts.go)

    The four native contracts with their gas.  SHA-256 is Go's standard library
    and written out; the Merkle hasher of the deposit contract is a third-party
    package and stays abstract ([Ssz]). *)

From S2P Require Import Prelude Uint256 Params VMCommon.

(** ** SHA-256 (crypto/sha256) *)

Module Sha256.

Definition u32 (z : Z) : Z := z mod 2 ^ 32.
Definition rotr (n x : Z) : Z := Z.lor (Z.shiftr x n) (u32 (Z.shiftl x (32 - n))).

(** The constants are the first bits of the fractional parts of cube and square
    roots of the first primes. *)
Definition is_prime (n : nat) : bool := forallb (fun d => negb (Nat.eqb (n mod d) 0)) (seq 2 (n - 2)).
Definition primes (k : nat) : list Z := map Z.of_nat (take k (List.filter is_prime (seq 2 310))).

(** The integer cube root of [x], [n] bits long. *)
Fixpoint cbrt (n : nat) (r x : Z) : Z :=
  match n with
  | O => r
  | S n => let r' := r + 2 ^ Z.of_nat n in cbrt n (if r' * r' * r' <=? x then r' else r) x
  end.

Definition K : list Z := Eval vm_compute in map (fun p => u32 (cbrt 36 0 (p * 2 ^ 96))) (primes 64).

Record hash : Type := mkHash { h0 : Z; h1 : Z; h2 : Z; h3 : Z; h4 : Z; h5 : Z; h6 : Z; h7 : Z }.

Definition init : hash := Eval vm_compute in
  match map (fun p => u32 (Z.sqrt (p * 2 ^ 64))) (primes 8) with
  | [a; b; c; d; e; f; g; h] => mkHash a b c d e f g h
  | _ => mkHash 0 0 0 0 0 0 0 0
  end.

(** The message schedule, newest word first: [n] more words. *)
Fixpoint schedule (n : nat) (w : list Z) : list Z :=
  match n with
  | O => w
  | S n =>
      let w2 := nth 1 w 0 in let w7 := nth 6 w 0 in let w15 := nth 14 w 0 in let w16 := nth 15 w 0 in
      let s0 := Z.lxor (Z.lxor (rotr 7 w15) (rotr 18 w15)) (Z.shiftr w15 3) in
      let s1 := Z.lxor (Z.lxor (rotr 17 w2) (rotr 19 w2)) (Z.shiftr w2 10) in
      schedule n (u32 (w16 + s0 + w7 + s1) :: w)
  end.

Definition round (s : hash) (kw : Z * Z) : hash :=
  let (k, w) := kw in
  let 'mkHash a b c d e f g h := s in
  let s1 := Z.lxor (Z.lxor (rotr 6 e) (rotr 11 e)) (rotr 25 e) in
  let ch := Z.lxor (Z.land e f) (Z.land (2 ^ 32 - 1 - e) g) in
  let t1 := u32 (h + s1 + ch + k + w) in
  let s0 := Z.lxor (Z.lxor (rotr 2 a) (rotr 13 a)) (rotr 22 a) in
  let maj := Z.lxor (Z.lxor (Z.land a b) (Z.land a c)) (Z.land b c) in
  mkHash (u32 (t1 + u32 (s0 + maj))) a b c (u32 (d + t1)) e f g.

Fixpoint words (n : nat) (block : list Z) : list Z :=
  match n with O => [] | S n => bytes_to_Z (take 4 block) :: words n (drop 4 block) end.

Definition compress (s : hash) (block : list Z) : hash :=
  let w := rev (schedule 48 (rev (words 16 block))) in
  let r := fold_left round (zip K w) s in
  mkHash (u32 (h0 s + h0 r)) (u32 (h1 s + h1 r)) (u32 (h2 s + h2 r)) (u32 (h3 s + h3 r))
         (u32 (h4 s + h4 r)) (u32 (h5 s + h5 r)) (u32 (h6 s + h6 r)) (u32 (h7 s + h7 r)).

Definition pad (msg : list Z) : list Z :=
  msg ++ 128 :: replicate (Z.to_nat ((55 - Zlen msg) mod 64)) 0 ++ Z_to_bytes 8 ((8 * Zlen msg) mod 2 ^ 64).

Fixpoint blocks (n : nat) (s : hash) (msg : list Z) : hash :=
  match n with O => s | S n => blocks n (compress s (take 64 msg)) (drop 64 msg) end.

Definition Sum256 (msg : list Z) : list Z :=
  let p := pad msg in
  let 'mkHash a b c d e f g h := blocks (length p / 64) init p in
  flat_map (Z_to_bytes 4) [a; b; c; d; e; f; g; h].

End Sha256.

(** ** Contracts *)

Record PrecompiledContract : Type := mkPrecompile {
  RequiredGas : list Z -> outcome Z;
  PRun : list Z -> outcome (list Z * option vm_error)
}.

Definition RunPrecompiledContract (p : PrecompiledContract) (input : list Z) (suppliedGas : Z)
    : outcome (list Z * Z * option vm_error) :=
  let! gasCost := RequiredGas p input in
  if suppliedGas <? gasCost then Ret ([], 0, Some ErrOutOfGas)
  else
    let suppliedGas := suppliedGas - gasCost in
    let! (output, err) := PRun p input in
    Ret (output, suppliedGas, err).

(** The hasher of github.com/prysmaticlabs/fastssz. *)
Class Ssz : Type := {
  Hasher : Type;
  newHasher : Hasher;
  hh_Index : Hasher -> Z;
  hh_PutBytes : list Z -> Hasher -> Hasher;
  hh_PutUint64 : Z -> Hasher -> Hasher;
  hh_Merkleize : Z -> Hasher -> Hasher;
  hh_MerkleizeVectorizedHTR : Z -> Hasher -> Hasher;
  EnableVectorizedHTR : bool;
  hh_HashRoot : Hasher -> option (list Z)
}.

Module depositroot.

Definition RequiredGas (input : list Z) : outcome Z :=
  Ret ((2 * Sha256PerWordGas + Sha256BaseGas) * 238).

Record depositdata : Type := mkData {
  PublicKey : list Z; WithdrawalCredentials : list Z; Amount : Z; Signature : list Z }.

(** [HashTreeRootWith]: [None] when a field has the wrong length. *)
Definition HashTreeRootWith `{Ssz} (d : depositdata) (hh : Hasher) : option Hasher :=
  let indx := hh_Index hh in
  if negb (Zlen (PublicKey d) =? 2592) then None
  else
    let hh := hh_PutBytes (PublicKey d) hh in
    if negb (Zlen (WithdrawalCredentials d) =? 32) then None
    else
      let hh := hh_PutBytes (WithdrawalCredentials d) hh in
      let hh := hh_PutUint64 (Amount d) hh in
      if negb (Zlen (Signature d) =? 4627) then None
      else
        let hh := hh_PutBytes (Signature d) hh in
        Some (if EnableVectorizedHTR then hh_MerkleizeVectorizedHTR indx hh else hh_Merkleize indx hh).

Definition HashTreeRoot `{Ssz} (d : depositdata) : option (list Z) :=
  match HashTreeRootWith d newHasher with Some hh => hh_HashRoot hh | None => None end.

(** [binary.Read] of eight little-endian bytes. *)
Definition little_endian (b : list Z) : Z := bytes_to_Z (rev b).

Definition Run `{Ssz} (input : list Z) : outcome (list Z * option vm_error) :=
  let! pkBytes := getData input 0 2592 in
  let! credsBytes := getData input 2592 32 in
  let! amountBytes := getData input 2624 8 in
  let! sigBytes := getData input 2632 4627 in
  let amountUint := little_endian amountBytes in
  match HashTreeRoot (mkData pkBytes credsBytes amountUint sigBytes) with
  | None => Ret ([], Some ErrOther)
  | Some h => Ret (h, None)
  end.

End depositroot.

Module sha256hash.
Definition RequiredGas (input : list Z) : outcome Z :=
  Ret (u64 ((Zlen input + 31) / 32 * Sha256PerWordGas + Sha256BaseGas)).
Definition Run (input : list Z) : outcome (list Z * option vm_error) := Ret (Sha256.Sum256 input, None).
End sha256hash.

Module dataCopy.
Definition RequiredGas (input : list Z) : outcome Z :=
  Ret (u64 ((Zlen input + 31) / 32 * IdentityPerWordGas + IdentityBaseGas)).
Definition Run (input : list Z) : outcome (list Z * option vm_error) := Ret (input, None).
End dataCopy.

Module bigModExp.

(** [big.Int.BitLen] of a natural number. *)
Definition BitLen (x : Z) : Z := if x =? 0 then 0 else Z.log2 x + 1.

(** [input[96:]], or nothing. *)
Definition body (input : list Z) : list Z := if 96 <? Zlen input then drop 96 input else [].

Definition RequiredGas (input : list Z) : outcome Z :=
  let! b := getData input 0 32 in let baseLen := bytes_to_Z b in
  let! b := getData input 32 32 in let expLen := bytes_to_Z b in
  let! b := getData input 64 32 in let modLen := bytes_to_Z b in
  let input := body input in
  let! expHead :=
    (if Zlen input <=? baseLen then Ret 0
     else if 32 <? expLen then let! b := getData input (u64 baseLen) 32 in Ret (bytes_to_Z b)
     else let! b := getData input (u64 baseLen) (u64 expLen) in Ret (bytes_to_Z b)) in
  let bitlen := BitLen expHead in
  let msb := if 0 <? bitlen then bitlen - 1 else 0 in
  let adjExpLen := if 32 <? expLen then 8 * (expLen - 32) else 0 in
  let adjExpLen := adjExpLen + msb in
  let gas := Z.max modLen baseLen in
  let gas := (gas + 7) / 8 in
  let gas := gas * gas in
  let gas := gas * Z.max adjExpLen 1 in
  let gas := gas / 3 in
  if 64 <? BitLen gas then Ret MaxUint64
  else if u64 gas <? 200 then Ret 200
  else Ret (u64 gas).

(** [base.Exp(base, exp, mod)] for a positive modulus, by squaring. *)
Fixpoint exp_pos (b : Z) (p : positive) (m : Z) : Z :=
  match p with
  | xH => b mod m
  | xO p => let r := exp_pos b p m in (r * r) mod m
  | xI p => let r := exp_pos b p m in (b * ((r * r) mod m)) mod m
  end.
Definition Exp (b x m : Z) : Z := match x with Zpos p => exp_pos b p m | _ => 1 mod m end.

(** [big.Int.Bytes]: big-endian, without leading zeroes. *)
Definition Bytes (x : Z) : list Z := Z_to_bytes (Z.to_nat ((BitLen x + 7) / 8)) x.

Definition Run (input : list Z) : outcome (list Z * option vm_error) :=
  let! b := getData input 0 32 in let baseLen := u64 (bytes_to_Z b) in
  let! b := getData input 32 32 in let expLen := u64 (bytes_to_Z b) in
  let! b := getData input 64 32 in let modLen := u64 (bytes_to_Z b) in
  let input := body input in
  if (baseLen =? 0) && (modLen =? 0) then Ret ([], None)
  else
    let! b := getData input 0 baseLen in let base := bytes_to_Z b in
    let! b := getData input baseLen expLen in let exp := bytes_to_Z b in
    let! b := getData input (u64 (baseLen + expLen)) modLen in let mod_ := bytes_to_Z b in
    if BitLen mod_ =? 0 then Ret (LeftPadBytes [] (int64_of modLen), None)
    else if BitLen base =? 1 then Ret (LeftPadBytes (Bytes (base mod mod_)) (int64_of modLen), None)
    else Ret (LeftPadBytes (Bytes (Exp base exp mod_)) (int64_of modLen), None).

End bigModExp.

Section Precompiles.
Context {Z' : Ssz}.

Definition PrecompiledContractsZond : list (Z * PrecompiledContract) :=
  [(BytesToAddress [1], mkPrecompile depositroot.RequiredGas depositroot.Run);
   (BytesToAddress [2], mkPrecompile sha256hash.RequiredGas sha256hash.Run);
   (BytesToAddress [4], mkPrecompile dataCopy.RequiredGas dataCopy.Run);
   (BytesToAddress [5], mkPrecompile bigModExp.RequiredGas bigModExp.Run)].

Definition ActivePrecompiles : list Z := map fst PrecompiledContractsZond.

End Precompiles.
