(* ===== verification/Interpreter.v ===== *)
(** * The interpreter and the calls (core/vm/interpreter.go, core/vm/qrvm.go,
    core/qrvm.go, crypto/crypto.go)

    [Run] is the interpreter loop; [Call], [DelegateCall], [StaticCall] and
    [create] set up a contract and run it.  They are mutually recursive, so
    [Run] takes fuel: one unit per nested run and per instruction.  The tracer
    is not modelled. *)

From S2P Require Import Prelude Uint256 Params VMCommon Stack Memory Opcodes Analysis Rlp StateTypes VMInterface Contract GasTable Instructions JumpTable Precompiles.

Section Interpreter.
Context {S : Type} {SI : StateI S} {U : Uint256} {C : Crypto} {H : Ssz}.
Context (e : env).

(** ** Addresses of new contracts (crypto/crypto.go) *)

(** The encoding of the list of an address and a nonce, then its hash. *)
Definition CreateAddress (b nonce : Z) : outcome Z :=
  let (l, buf) := Rlp.list_begin Rlp.reset in
  let buf := Rlp.writeUint64 nonce (Rlp.writeBytes (AddressBytes b) buf) in
  let! buf := Rlp.listEnd l buf in
  let! data := Rlp.makeBytes buf in
  Ret (BytesToAddress (drop 12 (HashBytes (Keccak256Hash data)))).

Definition CreateAddress2 (b : Z) (salt : list Z) (inithash : list Z) : Z :=
  BytesToAddress (drop 12 (HashBytes (Keccak256Hash ([255] ++ AddressBytes b ++ salt ++ inithash)))).

(** ** Value transfer (core/qrvm.go) *)

Definition CanTransfer (addr amount : Z) : M (QRVM S) bool :=
  let* b := vstate (SDB.GetBalance addr) in mret (amount <=? b).

Definition Transfer (sender recipient amount : Z) : M (QRVM S) unit :=
  vstate (SDB.SubBalance sender amount) ;;; vstate (SDB.AddBalance recipient amount).

Definition precompile (addr : Z) : option PrecompiledContract := Op.assoc addr PrecompiledContractsZond.

(** ** Calls *)

(** What an entry point needs of the interpreter: run a contract on an input,
    read-only or not; the result, the error and the contract afterwards. *)
Definition runner : Type := Contract -> list Z -> bool -> M (QRVM S) (list Z * option vm_error * Contract).

Section EntryPoints.
Context (run : runner).

(** The end of a call: an error restores the snapshot and, unless it is a revert,
    consumes the gas. *)
Definition settle (snapshot : Z) (r : list Z * Z * option vm_error) : M (QRVM S) (list Z * Z * option vm_error) :=
  let '(ret, gas, err) := r in
  match err with
  | None => mret (ret, gas, err)
  | Some er =>
      vstate (SDB.RevertToSnapshot snapshot) ;;;
      mret (ret, if bool_decide (er = ErrExecutionReverted) then gas else 0, err)
  end.

Definition run_contract (contract : Contract) (input : list Z) (readOnly : bool)
    : M (QRVM S) (list Z * Z * option vm_error) :=
  let* (ret, err, contract) := run contract input readOnly in
  mret (ret, c_Gas contract, err).

Definition qrvm_Call (caller : contractRef) (addr : Z) (input : list Z) (gas value : Z)
    : M (QRVM S) (list Z * Z * option vm_error) :=
  let* v := mget in
  if CallCreateDepth <? vm_depth v then mret ([], gas, Some ErrDepth)
  else
    let* can := (if negb (Z.sgn value =? 0) then CanTransfer (ref_Address caller) value else mret true) in
    if negb can then mret ([], gas, Some ErrInsufficientBalance)
    else
      let* snapshot := vstate SDB.Snapshot in
      let p := precompile addr in
      let* exists_ := vstate (SDB.Exist addr) in
      if negb exists_ && match p with None => true | Some _ => false end && (Z.sgn value =? 0)
      then mret ([], gas, None)
      else
        (if negb exists_ then vstate (SDB.CreateAccount addr) else mret tt) ;;;
        Transfer (ref_Address caller) addr value ;;;
        let* r :=
          (match p with
           | Some p => mlift (RunPrecompiledContract p input gas)
           | None =>
               let* code := vstate (SDB.GetCode addr) in
               if Zlen code =? 0 then mret ([], gas, None)
               else
                 let* contract := Contract.NewContract caller addr (Some value) gas in
                 let* hash := vstate (SDB.GetCodeHash addr) in
                 run_contract (Contract.SetCallCode addr hash code contract) input false
           end) in
        settle snapshot r.

Definition qrvm_DelegateCall (caller : contractRef) (addr : Z) (input : list Z) (gas : Z)
    : M (QRVM S) (list Z * Z * option vm_error) :=
  let* v := mget in
  if CallCreateDepth <? vm_depth v then mret ([], gas, Some ErrDepth)
  else
    let* snapshot := vstate SDB.Snapshot in
    let* r :=
      (match precompile addr with
       | Some p => mlift (RunPrecompiledContract p input gas)
       | None =>
           let* contract := Contract.NewContract caller (ref_Address caller) None gas in
           let* contract := mlift (Contract.AsDelegate contract) in
           let* hash := vstate (SDB.GetCodeHash addr) in
           let* code := vstate (SDB.GetCode addr) in
           run_contract (Contract.SetCallCode addr hash code contract) input false
       end) in
    settle snapshot r.

Definition qrvm_StaticCall (caller : contractRef) (addr : Z) (input : list Z) (gas : Z)
    : M (QRVM S) (list Z * Z * option vm_error) :=
  let* v := mget in
  if CallCreateDepth <? vm_depth v then mret ([], gas, Some ErrDepth)
  else
    let* snapshot := vstate SDB.Snapshot in
    vstate (SDB.AddBalance addr 0) ;;;
    let* r :=
      (match precompile addr with
       | Some p => mlift (RunPrecompiledContract p input gas)
       | None =>
           let* contract := Contract.NewContract caller addr (Some 0) gas in
           let* hash := vstate (SDB.GetCodeHash addr) in
           let* code := vstate (SDB.GetCode addr) in
           run_contract (Contract.SetCallCode addr hash code contract) input true
       end) in
    settle snapshot r.

(** The checks on the code a creation returned, and its storage. *)
Definition store_code (address : Z) (ret : list Z) (err : option vm_error) (contract : Contract)
    : M (QRVM S) (option vm_error * Contract) :=
  let err := match err with
             | None => if MaxCodeSize <? Zlen ret then Some ErrMaxCodeSizeExceeded else None
             | _ => err
             end in
  let err := match err, ret with
             | None, b :: _ => if b =? 239 then Some ErrInvalidCode else None
             | _, _ => err
             end in
  match err with
  | None =>
      let createDataGas := u64 (Zlen ret * CreateDataGas) in
      let (ok, contract) := Contract.UseGas createDataGas contract in
      if (ok : bool) then vstate (SDB.SetCode address ret) ;;; mret (None, contract)
      else mret (Some ErrCodeStoreOutOfGas, contract)
  | Some _ => mret (err, contract)
  end.

Definition create (caller : contractRef) (code : list Z) (codeHash : Z) (gas value address : Z)
    : M (QRVM S) (list Z * Z * Z * option vm_error) :=
  let* v := mget in
  if CallCreateDepth <? vm_depth v then mret ([], 0, gas, Some ErrDepth)
  else
    let* can := CanTransfer (ref_Address caller) value in
    if negb can then mret ([], 0, gas, Some ErrInsufficientBalance)
    else
      let* nonce := vstate (SDB.GetNonce (ref_Address caller)) in
      if u64 (nonce + 1) <? nonce then mret ([], 0, gas, Some ErrNonceUintOverflow)
      else
        vstate (SDB.SetNonce (ref_Address caller) (u64 (nonce + 1))) ;;;
        vstate (SDB.AddAddressToAccessList address) ;;;
        let* contractHash := vstate (SDB.GetCodeHash address) in
        let* addrNonce := vstate (SDB.GetNonce address) in
        if negb (addrNonce =? 0) || (negb (contractHash =? 0) && negb (contractHash =? EmptyCodeHash))
        then mret ([], 0, 0, Some ErrContractAddressCollision)
        else
          let* snapshot := vstate SDB.Snapshot in
          vstate (SDB.CreateAccount address) ;;;
          vstate (SDB.SetNonce address 1) ;;;
          Transfer (ref_Address caller) address value ;;;
          let* contract := Contract.NewContract caller address (Some value) gas in
          let contract := Contract.SetCodeOptionalHash address code codeHash contract in
          let* (ret, err, contract) := run contract [] false in
          let* (err, contract) := store_code address ret err contract in
          match err with
          | None | Some ErrCodeStoreOutOfGas => mret (ret, address, c_Gas contract, err)
          | Some er =>
              vstate (SDB.RevertToSnapshot snapshot) ;;;
              mret (ret, address, if bool_decide (er = ErrExecutionReverted) then c_Gas contract else 0, err)
          end.

Definition qrvm_Create (caller : contractRef) (code : list Z) (gas value : Z)
    : M (QRVM S) (list Z * Z * Z * option vm_error) :=
  let* nonce := vstate (SDB.GetNonce (ref_Address caller)) in
  let* contractAddr := mlift (CreateAddress (ref_Address caller) nonce) in
  create caller code 0 gas value contractAddr.

Definition qrvm_Create2 (caller : contractRef) (code : list Z) (gas endowment salt : Z)
    : M (QRVM S) (list Z * Z * Z * option vm_error) :=
  let hash := Keccak256Hash code in
  let contractAddr := CreateAddress2 (ref_Address caller) (u_Bytes32 salt) (HashBytes hash) in
  create caller code hash gas endowment contractAddr.

Definition entry : entryPoints S :=
  mkEntry qrvm_Call qrvm_DelegateCall qrvm_StaticCall qrvm_Create qrvm_Create2.

(** ** The interpreter loop *)

(** The dynamic part of an instruction's cost: the memory size, the gas
    function, the charge and the expansion; the error that stops the loop. *)
Definition charge_dynamic (operation : JumpTable.operation (S:=S)) : M (frame S) (option vm_error) :=
  match dynamicGas operation with
  | None => mret None
  | Some dynamicGas =>
      let* f := mget in
      let* size :=
        (match memorySize operation with
         | None => mret (inr 0)
         | Some memorySize =>
             let* (memSize, overflow) := mlift (memorySize (f_Stack f)) in
             if (overflow : bool) then mret (inl ErrGasUintOverflow)
             else
               let '(memorySize, overflow) := SafeMul (toWordSize memSize) 32 in
               if (overflow : bool) then mret (inl ErrGasUintOverflow) else mret (inr memorySize)
         end) in
      match size with
      | inl err => mret (Some err)
      | inr memorySize =>
          let* (dynamicCost, err) := dynamicGas memorySize in
          match err with
          | Some _ => mret (Some ErrOutOfGas)
          | None =>
              let* ok := use_gas dynamicCost in
              if negb ok then mret (Some ErrOutOfGas)
              else
                (if 0 <? memorySize then set_memory (fun m => Ret (Memory.Resize memorySize m)) else mret tt) ;;;
                mret None
          end
      end
  end.

(** One turn of the loop: [None] to go on. *)
Definition step : M (frame S) (option (list Z * option vm_error)) :=
  let* f := mget in
  let* op := mlift (Contract.GetOp (f_pc f) (f_Contract f)) in
  let operation := newZondInstructionSet e entry op in
  let sLen := Stack.len (f_Stack f) in
  if sLen <? op_minStack operation then mret (Some ([], Some (ErrStackUnderflow sLen (op_minStack operation))))
  else if op_maxStack operation <? sLen then mret (Some ([], Some (ErrStackOverflow sLen (op_maxStack operation))))
  else
    let* ok := use_gas (constantGas operation) in
    if negb ok then mret (Some ([], Some ErrOutOfGas))
    else
      let* err := charge_dynamic operation in
      match err with
      | Some err => mret (Some ([], Some err))
      | None =>
          let* (res, err) := execute operation in
          match err with
          | Some err => mret (Some (res, Some err))
          | None => mmodify (fun f => with_f_pc (u64 (f_pc f + 1)) f) ;;; mret None
          end
      end.

Fixpoint loop (fuel : nat) : M (frame S) (list Z * option vm_error) :=
  match fuel with
  | O => fun _ => OutOfFuel
  | Datatypes.S fuel =>
      let* r := step in
      match r with
      | None => loop fuel
      | Some (res, err) => mret (res, if bool_decide (err = Some errStopToken) then None else err)
      end
  end.

(** Run the loop on a fresh frame. *)
Definition run_frame (fuel : nat) (contract : Contract) : M (QRVM S) (list Z * option vm_error * Contract) :=
  fun v =>
    let! (r, f) := loop fuel (mkFrame 0 Stack.newstack Memory.NewMemory contract v) in
    Ret ((r, f_Contract f), f_vm f).

End EntryPoints.

Fixpoint Run (fuel : nat) (contract : Contract) (input : list Z) (readOnly : bool)
    : M (QRVM S) (list Z * option vm_error * Contract) :=
  match fuel with
  | O => fun _ => OutOfFuel
  | Datatypes.S fuel =>
      mmodify (fun v => with_vm_depth (vm_depth v + 1) v) ;;;
      let* v := mget in
      let sets := readOnly && negb (vm_readOnly v) in
      (if sets then mmodify (with_vm_readOnly true) else mret tt) ;;;
      mmodify (with_vm_returnData []) ;;;
      let* r :=
        (if Zlen (c_Code contract) =? 0 then mret ([], None, contract)
         else run_frame (Run fuel) (Datatypes.S fuel) (with_c_Input input contract)) in
      (if sets then mmodify (with_vm_readOnly false) else mret tt) ;;;
      mmodify (fun v => with_vm_depth (vm_depth v - 1) v) ;;;
      mret r
  end.

(** The entry points with a given fuel. *)
Definition entry_at (fuel : nat) : entryPoints S := entry (Run fuel).

End Interpreter.
