(* ===== verification/VMLogic.v ===== *)
(** * Reasoning about the machine

    Relations between machine states and frames that every piece of the
    interpreter respects, and a small logic to derive them: [quietly m] says
    that [m] neither runs out of fuel nor touches gas, memory size, call depth
    or the read-only flag, keeps live snapshots, and freezes the state when the
    machine is read-only. *)

From S2P Require Import Prelude Uint256 Params VMCommon Stack Memory Opcodes Analysis StateTypes VMInterface Contract GasTable Instructions.

Create HintDb vm discriminated.

(** Results of fixed-width type, whatever the arguments. *)
Class Uint256Typed (U : Uint256) : Prop := {
  Uint64_range : forall x, in64 (u_Uint64 x);
  Uint64WithOverflow_range : forall x, in64 (fst (u_Uint64WithOverflow x))
}.

#[export] Instance uint256_ref_typed : Uint256Typed uint256_ref.
Proof. split; intros x; cbn; apply u64_in64. Qed.

Section VMLogic.
Context {S : Type} {SI : StateI S} {L : StateLaws S SI} {U : Uint256}.

(** ** Steps of the machine *)

Definition kept (s s' : S) : Prop := forall id s0, snapped s id s0 -> snapped s' id s0.

Lemma frozen_refl s : frozen s s.
Proof. apply frozen_same, same_refl. Qed.
Lemma moved_refl s : moved 0 s s.
Proof. apply moved_frozen, frozen_refl. Qed.
Lemma moved_zero s1 s2 s3 : moved 0 s1 s2 -> moved 0 s2 s3 -> moved 0 s1 s3.
Proof. apply (moved_trans 0 0). Qed.

(** From [v] to [v']; [ro] tells whether the state must be frozen. *)
Record vm_step (ro : bool) (v v' : QRVM S) : Prop := {
  vs_good : sgood (vm_StateDB v');
  vs_kept : kept (vm_StateDB v) (vm_StateDB v');
  vs_depth : vm_depth v' = vm_depth v;
  vs_readOnly : vm_readOnly v' = vm_readOnly v;
  vs_frozen : ro = true -> frozen (vm_StateDB v) (vm_StateDB v');
  vs_moved : moved 0 (vm_StateDB v) (vm_StateDB v')
}.

Definition vgood (v : QRVM S) : Prop := sgood (vm_StateDB v).

Lemma vm_step_refl ro v : vgood v -> vm_step ro v v.
Proof. intros. split; auto; [by intros ???|intros; apply frozen_refl|apply moved_refl]. Qed.

(** A change of the machine outside the state. *)
Lemma vm_step_same ro v v' : vgood v -> vm_StateDB v' = vm_StateDB v -> vm_depth v' = vm_depth v ->
  vm_readOnly v' = vm_readOnly v -> vm_step ro v v'.
Proof. intros Hv H1 H2 H3. split; rewrite ?H1; auto; [by intros ???|intros; apply frozen_refl|apply moved_refl]. Qed.

Lemma vm_step_trans ro v1 v2 v3 : vm_step ro v1 v2 -> vm_step ro v2 v3 -> vm_step ro v1 v3.
Proof.
  intros [] []. split; auto; try congruence; [intros id s0; unfold kept in *; auto| |by eapply moved_zero].
  intros. eapply frozen_trans; eauto.
Qed.

(** ** Quiet steps of a frame *)

(** Everything but the program counter, the stack, the bytes of the memory, the
    return data, the gas of the next call and the analysis caches is as before;
    the state has made a step. *)
Record fr_step (ro : bool) (f f' : frame S) : Prop := {
  fs_vm : vm_step ro (f_vm f) (f_vm f');
  fs_contract : f_Contract f' = with_c_analysis (c_analysis (f_Contract f')) (f_Contract f);
  fs_memlen : Memory.Len (f_Memory f') = Memory.Len (f_Memory f);
  fs_memfee : Memory.lastGasCost (f_Memory f') = Memory.lastGasCost (f_Memory f)
}.

(** A frame of a good state, with code that fits in the address space. *)
Record fgood (f : frame S) : Prop := {
  fg_vm : vgood (f_vm f);
  fg_code : Zlen (c_Code (f_Contract f)) < 2 ^ 63
}.

Lemma fr_step_refl ro f : fgood f -> fr_step ro f f.
Proof. intros []. split; auto; [by apply vm_step_refl|by destruct f as [???[]?]]. Qed.

Lemma fr_step_good ro f f' : fgood f -> fr_step ro f f' -> fgood f'.
Proof. intros [_ Hc] [[Hg _ _ _ _] He _ _]. split; [done|]. by rewrite He. Qed.

Lemma fr_step_trans ro f1 f2 f3 : fr_step ro f1 f2 -> fr_step ro f2 f3 -> fr_step ro f1 f3.
Proof.
  intros [H1 H2 H3 H4] [G1 G2 G3 G4]. split; [by eapply vm_step_trans| |congruence|congruence].
  rewrite G2, H2. done.
Qed.

(** [quietly ro m]: on a frame of a good state, read-only only if [ro], [m] makes
    a quiet step; it may panic but not run out of fuel. *)
Definition quietly {A} (ro : bool) (m : M (frame S) A) : Prop :=
  forall f, fgood f -> (vm_readOnly (f_vm f) = true -> ro = true) ->
    match m f with
    | Ret (_, f') => fr_step ro f f'
    | Panic => True
    | OutOfFuel => False
    end.

Lemma quietly_ret {A} ro (a : A) : quietly ro (mret a).
Proof. intros f Hg _. by apply fr_step_refl. Qed.

Lemma quietly_panic {A} ro : quietly ro (mpanic : M (frame S) A).
Proof. done. Qed.

Lemma quietly_bind {A B} ro (m : M (frame S) A) (k : A -> M (frame S) B) :
  quietly ro m -> (forall a, quietly ro (k a)) -> quietly ro (mthen m k).
Proof.
  intros Hm Hk f Hg Hr. unfold mthen. specialize (Hm f Hg Hr). destruct (m f) as [[a f1]| |]; cbn; [|done|done].
  pose proof (fr_step_good _ _ _ Hg Hm) as Hg1.
  specialize (Hk a f1 Hg1 ltac:(rewrite (vs_readOnly _ _ _ (fs_vm _ _ _ Hm)); auto)).
  destruct (k a f1) as [[b f2]| |]; [|done|done]. by eapply fr_step_trans.
Qed.

Lemma quietly_get ro : quietly ro (mget : M (frame S) (frame S)).
Proof. intros f Hg _. by apply fr_step_refl. Qed.

Lemma quietly_lift {A} ro (o : outcome A) : o <> OutOfFuel -> quietly ro (mlift o).
Proof. intros Ho f Hg _. unfold mlift. destruct o; cbn; [by apply fr_step_refl|done|done]. Qed.

(** A frame that is not read-only need not be frozen. *)
Lemma quietly_weaken {A} (m : M (frame S) A) : quietly true m -> quietly false m.
Proof.
  intros Hm f Hg Hr. specialize (Hm f Hg ltac:(auto)). destruct (m f) as [[a f']| |]; [|done|done].
  destruct Hm as [[] ???]. split; auto. by split.
Qed.

Lemma harmless_plain {A} (o : SDB.op A) : SDB.harmless o = true -> SDB.plain o = true.
Proof. by destruct o. Qed.

(** A state operation as a step of the machine. *)
Definition op_step {A} (ro : bool) (o : SDB.op A) : Prop := forall v, vgood v ->
  match vstate o v with
  | Ret (_, v') => vm_step ro v v' /\ v' = with_vm_StateDB (vm_StateDB v') v
  | Panic => True
  | OutOfFuel => False
  end.

Lemma harmless_op_step {A} ro (o : SDB.op A) : SDB.harmless o = true -> op_step ro o.
Proof.
  intros Hh v Hg. pose proof (harmless_plain o Hh) as Hp. unfold vstate. pose proof (plain_total A o (vm_StateDB v) Hp Hg) as Ht.
  destruct (sdb o _) as [[a s']| |] eqn:Hs; cbn; [|done|done]. destruct (plain_keeps A o _ _ _ Hp Hg Hs) as [Hg' Hk].
  assert (Hf : frozen (vm_StateDB v) s') by (by eapply frozen_harmless).
  split; [|done]. split; cbn; auto. by apply moved_frozen.
Qed.

Lemma plain_op_step {A} (o : SDB.op A) : SDB.plain o = true -> SDB.pays o = false -> op_step false o.
Proof.
  intros Hp Hn v Hg. unfold vstate. pose proof (plain_total A o (vm_StateDB v) Hp Hg) as Ht.
  destruct (sdb o _) as [[a s']| |] eqn:Hs; cbn; [|done|done]. destruct (plain_keeps A o _ _ _ Hp Hg Hs) as [Hg' Hk].
  split; [|done]. split; cbn; auto; [done|]. by eapply moved_plain.
Qed.

Lemma quietly_op {A} ro (o : SDB.op A) : op_step ro o -> quietly ro (state o).
Proof.
  intros Ho f [Hg _] _. specialize (Ho (f_vm f) Hg). unfold state, on_vm. destruct (vstate o (f_vm f)) as [[a v']| |]; cbn; [|done|done].
  destruct Ho as [Hs He]. split; cbn; auto. by destruct f as [???[]?].
Qed.

Lemma quietly_harmless {A} ro (o : SDB.op A) : SDB.harmless o = true -> quietly ro (state o).
Proof. intros. by apply quietly_op, harmless_op_step. Qed.

Lemma quietly_plain {A} (o : SDB.op A) : SDB.plain o = true -> SDB.pays o = false -> quietly false (state o).
Proof. intros. by apply quietly_op, plain_op_step. Qed.

(** A change of the frame that keeps the machine, the contract and the memory's size. *)
Lemma quietly_modify ro g :
  (forall f, vm_StateDB (f_vm (g f)) = vm_StateDB (f_vm f) /\ vm_depth (f_vm (g f)) = vm_depth (f_vm f) /\
     vm_readOnly (f_vm (g f)) = vm_readOnly (f_vm f) /\ f_Contract (g f) = f_Contract f /\
     f_Memory (g f) = f_Memory f) -> quietly ro (mmodify g).
Proof.
  intros H f [Hg _] _. destruct (H f) as (H1 & H2 & H3 & H4 & H5). unfold mmodify, vgood in *.
  split; rewrite ?H4, ?H5; auto; [|by destruct (f_Contract f)]. by apply vm_step_same.
Qed.

Lemma quietly_stack {A} ro (m : M Stack.t A) : (forall st, m st <> OutOfFuel) -> quietly ro (on_stack m).
Proof.
  intros Hm f [Hg _] _. unfold on_stack. specialize (Hm (f_Stack f)). destruct (m (f_Stack f)) as [[a st]| |]; cbn; [|done|done].
  split; cbn; auto; [by apply vm_step_refl|by destruct f as [???[]?]].
Qed.

Lemma quietly_memory ro g :
  (forall m, match g m with
             | Ret m' => Memory.Len m' = Memory.Len m /\ Memory.lastGasCost m' = Memory.lastGasCost m
             | Panic => True
             | OutOfFuel => False
             end) -> quietly ro (set_memory g).
Proof.
  intros Hm f [Hg _] _. unfold set_memory, mthen, mget, mlift, mput. cbn. specialize (Hm (f_Memory f)).
  destruct (g (f_Memory f)) as [m'| |]; cbn; [|done|done]. destruct Hm.
  split; cbn; auto; [by apply vm_step_refl|by destruct f as [???[]?]].
Qed.

End VMLogic.
