(* ===== verification/VMHandlers.v ===== *)
(** * The instructions are quiet

    Every instruction that does not call another contract makes a quiet step:
    see [quietly] of VMLogic. *)

From S2P Require Import Prelude Uint256 Params VMCommon Stack Memory Opcodes Analysis StateTypes VMInterface Contract GasTable Instructions VMLogic.

(** ** No fuel in the leaf operations *)

Lemma obind_fuel {A B} (m : outcome A) (k : A -> outcome B) :
  m <> OutOfFuel -> (forall a, k a <> OutOfFuel) -> obind m k <> OutOfFuel.
Proof. intros. destruct m; cbn; auto. Qed.

Lemma go_index_fuel {A} (l : list A) i : go_index l i <> OutOfFuel.
Proof. unfold go_index. repeat case_match; done. Qed.
Lemma go_set_fuel {A} (l : list A) i v : go_set l i v <> OutOfFuel.
Proof. unfold go_set. repeat case_match; done. Qed.
Lemma go_slice_fuel {A} (l : list A) lo hi : go_slice l lo hi <> OutOfFuel.
Proof. unfold go_slice. repeat case_match; done. Qed.
Hint Resolve go_index_fuel go_set_fuel go_slice_fuel : vm.

Ltac nofuel := repeat first
  [ progress intros | apply obind_fuel | solve [eauto with vm] | discriminate | progress case_match ].

Lemma getData_fuel data start size : getData data start size <> OutOfFuel.
Proof. unfold getData. cbv zeta. nofuel. Qed.
Lemma GetPtr_fuel off size m : Memory.GetPtr off size m <> OutOfFuel.
Proof. unfold Memory.GetPtr. nofuel. Qed.
Lemma GetCopy_fuel off size m : Memory.GetCopy off size m <> OutOfFuel.
Proof. unfold Memory.GetCopy. nofuel. Qed.
Hint Resolve getData_fuel GetPtr_fuel GetCopy_fuel : vm.

Lemma pop_fuel (st : Stack.t) : Stack.pop st <> OutOfFuel.
Proof. by destruct st. Qed.
Hint Resolve pop_fuel : vm.

(** Memory writes keep the size and the recorded fee. *)
Definition mem_kept (m : Memory.t) (r : outcome Memory.t) : Prop :=
  match r with
  | Ret m' => Memory.Len m' = Memory.Len m /\ Memory.lastGasCost m' = Memory.lastGasCost m
  | Panic => True
  | OutOfFuel => False
  end.

Lemma SetBytes_kept off size value m : mem_kept m (Memory.SetBytes off size value m).
Proof.
  unfold Memory.SetBytes. destruct (0 <? size); [|done]. destruct (Memory.Len m <? _); [done|].
  pose proof (go_slice_fuel (Memory.store m) off (u64 (off + size))).
  destruct (go_slice _ _ _); cbn; [|done|done]. unfold Memory.Len, Zlen; cbn. by rewrite length_go_copy_at.
Qed.

Lemma Set32_kept `{Uint256} off val m : mem_kept m (Memory.Set32 off val m).
Proof.
  unfold Memory.Set32. destruct (Memory.Len m <? _); [done|].
  pose proof (go_slice_fuel (Memory.store m) off (Memory.Len m)).
  destruct (go_slice _ _ _); cbn; [|done|done]. unfold Memory.Len, Zlen; cbn. by rewrite length_go_copy_at.
Qed.

Lemma Set8_kept off val m : mem_kept m (Memory.Set8 off val m).
Proof.
  unfold Memory.Set8, go_set. destruct (_ && _); cbn; [|done]. unfold Memory.Len, Zlen; cbn. by rewrite length_insert.
Qed.

Section Handlers.
Context {S : Type} {SI : StateI S} {L : StateLaws S SI} {U : Uint256} {C : Crypto}.
Context (e : env).

Implicit Types ro : bool.

Lemma q_pop ro : quietly ro (pop : M (frame S) Z).
Proof. apply quietly_stack. auto with vm. Qed.
Lemma q_push ro d : quietly ro (push d : M (frame S) unit).
Proof. by apply quietly_stack. Qed.
Lemma q_set_top ro d : quietly ro (set_top d : M (frame S) unit).
Proof. apply quietly_stack. intros st. unfold Stack.setTop. nofuel. Qed.
Lemma q_peek ro : quietly ro (peek : M (frame S) Z).
Proof. apply quietly_bind; [apply quietly_get|]. intros f. apply quietly_lift. unfold Stack.peek. auto with vm. Qed.
Lemma q_Back ro n : quietly ro (Back n : M (frame S) Z).
Proof. apply quietly_bind; [apply quietly_get|]. intros f. apply quietly_lift. unfold Stack.Back. auto with vm. Qed.
Lemma q_contract ro : quietly ro (the_contract : M (frame S) Contract).
Proof. apply quietly_bind; [apply quietly_get|]. intros f. apply quietly_ret. Qed.
Lemma q_set_pc ro pc : quietly ro (set_pc pc : M (frame S) unit).
Proof. by apply quietly_modify. Qed.
Lemma q_set_returnData ro d : quietly ro (set_returnData d : M (frame S) unit).
Proof. by apply quietly_modify. Qed.
Lemma q_SetBytes ro off size value : quietly ro (set_memory (Memory.SetBytes off size value) : M (frame S) unit).
Proof. apply quietly_memory. intros. apply SetBytes_kept. Qed.
Lemma q_Set32 ro off val : quietly ro (set_memory (Memory.Set32 off val) : M (frame S) unit).
Proof. apply quietly_memory. intros. apply Set32_kept. Qed.
Lemma q_Set8 ro off val : quietly ro (set_memory (Memory.Set8 off val) : M (frame S) unit).
Proof. apply quietly_memory. intros. apply Set8_kept. Qed.

Lemma q_abort_load ro : quietly ro (abort_load : M (frame S) bool).
Proof.
  intros f Hg _. unfold abort_load, mthen, mget. cbn. destruct (vm_abort (f_vm f)); cbn; [by apply fr_step_refl|].
  destruct Hg as [Hg _]. split; cbn; auto; [by apply vm_step_same|by destruct f as [???[]?]].
Qed.

Lemma codeSegment_fuel b p : Analysis.codeSegment b p <> OutOfFuel.
Proof. unfold Analysis.codeSegment. nofuel. Qed.

(** Jump validation only fills the analysis caches. *)
Definition jump_quiet (c : Contract) (v : QRVM S) (r : outcome (bool * Contract * QRVM S)) : Prop :=
  match r with
  | Ret (_, c', v') => c' = with_c_analysis (c_analysis c') c /\ v' = with_vm_jumpdests (vm_jumpdests v') v
  | Panic => True
  | OutOfFuel => False
  end.

Lemma isCode_quiet udest c v : Zlen (c_Code c) < 2 ^ 63 -> jump_quiet c v (Contract.isCode udest c v).
Proof.
  intros Hl. unfold Contract.isCode, mthen, mlift, mget, mret, mmodify.
  pose proof (codeBitmap_fuel (c_Code c) Hl) as Hb.
  assert (Hcs : forall b c' v', c' = with_c_analysis (c_analysis c') c -> v' = with_vm_jumpdests (vm_jumpdests v') v ->
    jump_quiet c v (let! r := (let! a := Analysis.codeSegment b udest in Ret (a, v')) in Ret ((fst r, c'), snd r))).
  { intros b c' v' H1 H2. pose proof (codeSegment_fuel b udest). by destruct (Analysis.codeSegment b udest). }
  destruct (c_analysis c) as [b|] eqn:Ha; [apply Hcs; [by destruct c|by destruct v]|].
  destruct (negb (c_CodeHash c =? 0)); cbn [obind fst snd].
  - destruct (vm_jumpdests v !! c_CodeHash c); cbn [obind fst snd]; [apply Hcs; [done|by destruct v]|].
    destruct (Analysis.codeBitmap (c_Code c)); cbn [obind fst snd]; [by apply Hcs|done|done].
  - destruct (Analysis.codeBitmap (c_Code c)); cbn [obind fst snd]; [apply Hcs; [done|by destruct v]|done|done].
Qed.

Lemma validJumpdest_quiet dest c v : Zlen (c_Code c) < 2 ^ 63 -> jump_quiet c v (Contract.validJumpdest dest c v).
Proof.
  intros Hl. unfold Contract.validJumpdest. destruct (u_Uint64WithOverflow dest) as [ud ov].
  assert (Hr : jump_quiet c v (Ret (false, c, v))) by (split; [by destruct c|by destruct v]).
  destruct (_ || _); [done|]. unfold mthen, mlift. pose proof (go_index_fuel (c_Code c) ud).
  destruct (go_index _ _); cbn [obind fst snd]; [|done|done]. destruct (negb _); [done|by apply isCode_quiet].
Qed.

Lemma q_valid_jumpdest ro pos : quietly ro (valid_jumpdest pos : M (frame S) bool).
Proof.
  intros f [Hg Hc] _. unfold valid_jumpdest, on_vm, mthen, mget, mmodify, mret. cbn [obind fst snd].
  pose proof (validJumpdest_quiet pos (f_Contract f) (f_vm f) Hc) as Hq.
  destruct (Contract.validJumpdest pos (f_Contract f) (f_vm f)) as [[[b c'] v']| |]; cbn; [|done|done].
  destruct Hq as [H1 H2]. split; cbn; auto. rewrite H2. by apply vm_step_same.
Qed.

End Handlers.

(** Quiet building blocks. *)
#[export] Hint Resolve quietly_ret quietly_panic quietly_get q_pop q_push q_set_top q_peek q_Back q_contract q_set_pc
  q_set_returnData q_SetBytes q_Set32 q_Set8 q_abort_load q_valid_jumpdest : vm.
#[export] Hint Resolve go_index_fuel go_set_fuel go_slice_fuel getData_fuel GetPtr_fuel GetCopy_fuel : vm.

(** Prove [quietly] of a block by following its structure. *)
Ltac quiet1 :=
  first
  [ solve [eauto with vm]
  | apply quietly_bind; [|intros ?]
  | solve [apply quietly_lift; nofuel]
  | solve [apply quietly_harmless; reflexivity]
  | solve [apply quietly_plain; [reflexivity|reflexivity]]
  | case_match ].
Ltac quiet := intros; repeat quiet1.
