(* ===== verification/VMGas.v ===== *)
(** * The gas functions

    What the interpreter relies on: a gas function changes neither stack nor gas,
    updates the recorded memory fee exactly as [memoryGasCost] does, and returns
    a cost of at least a given amount; the gas of a call covers what it hands to
    the callee. *)

From S2P Require Import Prelude Uint256 Params VMCommon Stack Memory Opcodes Analysis StateTypes VMInterface Contract GasTable Instructions VMLogic VMHandlers.

Section GasLogic.
Context {S : Type} {SI : StateI S} {L : StateLaws S SI} {U : Uint256} {UT : Uint256Typed U}.

(** The state has made a harmless step; contract, stack and program counter are
    as before. *)
Record gstep (f f' : frame S) : Prop := {
  gs_vm : vm_step true (f_vm f) (f_vm f');
  gs_contract : f_Contract f' = f_Contract f;
  gs_stack : f_Stack f' = f_Stack f;
  gs_pc : f_pc f' = f_pc f
}.

Lemma gstep_refl f : fgood f -> gstep f f.
Proof. intros []. split; auto. by apply vm_step_refl. Qed.
Lemma gstep_trans f1 f2 f3 : gstep f1 f2 -> gstep f2 f3 -> gstep f1 f3.
Proof. intros [] []. split; try congruence. by eapply vm_step_trans. Qed.
Lemma gstep_good f f' : fgood f -> gstep f f' -> fgood f'.
Proof. intros [_ Hc] [[Hg _ _ _ _] He _ _]. split; [done|]. by rewrite He. Qed.

(** [still m Q]: [m] makes such a step, leaves the memory alone and returns a
    value in [Q]. *)
Definition still {A} (m : M (frame S) A) (Q : A -> Prop) : Prop :=
  forall f, fgood f ->
    match m f with
    | Ret (a, f') => gstep f f' /\ f_Memory f' = f_Memory f /\ Q a
    | Panic => True
    | OutOfFuel => False
    end.

Lemma still_ret {A} (a : A) (Q : A -> Prop) : Q a -> still (mret a) Q.
Proof. intros HQ f Hg. split_and!; auto. by apply gstep_refl. Qed.

Lemma still_panic {A} (Q : A -> Prop) : still (mpanic : M (frame S) A) Q.
Proof. done. Qed.

Lemma still_bind {A B} (m : M (frame S) A) (k : A -> M (frame S) B) P Q :
  still m P -> (forall a, P a -> still (k a) Q) -> still (mthen m k) Q.
Proof.
  intros Hm Hk f Hg. unfold mthen. specialize (Hm f Hg). destruct (m f) as [[a f1]| |]; cbn; [|done|done].
  destruct Hm as (H1 & H2 & H3). specialize (Hk a H3 f1 (gstep_good _ _ Hg H1)).
  destruct (k a f1) as [[b f2]| |]; [|done|done]. destruct Hk as (K1 & K2 & K3).
  split_and!; [by eapply gstep_trans|congruence|done].
Qed.

Lemma still_weaken {A} (m : M (frame S) A) (P Q : A -> Prop) : still m P -> (forall a, P a -> Q a) -> still m Q.
Proof.
  intros Hm HPQ f Hg. specialize (Hm f Hg). destruct (m f) as [[a f']| |]; [|done|done].
  destruct Hm as (? & ? & ?). auto.
Qed.

Lemma still_harmless {A} (o : SDB.op A) : SDB.harmless o = true -> still (state o) (fun _ => True).
Proof.
  intros Hh f Hg. pose proof (quietly_harmless true o Hh f Hg ltac:(auto)) as Hq. unfold state, on_vm, vstate in *.
  destruct (sdb o _) as [[a s']| |]; cbn in *; [|done|done]. destruct Hq. split_and!; auto. by split.
Qed.

Lemma still_Back n : still (Back n) (fun _ => True).
Proof.
  intros f Hg. unfold Back, mthen, mget, mlift. cbn. pose proof (go_index_fuel (f_Stack f) n). unfold Stack.Back.
  destruct (go_index _ _); cbn; [|done|done]. split_and!; auto. by apply gstep_refl.
Qed.
Lemma still_peek : still peek (fun _ => True).
Proof. apply (still_Back 0). Qed.
Lemma still_contract : still the_contract (fun _ => True).
Proof. intros f Hg. unfold the_contract, mthen, mget, mret. cbn. split_and!; auto. by apply gstep_refl. Qed.

(** A cost of at least [lo], or an error. *)
Definition costs (lo : Z) (r : Z * option vm_error) : Prop :=
  match snd r with None => in64 (fst r) /\ lo <= fst r | Some _ => True end.

Lemma still_gas_err lo e : still (gas_err e) (costs lo).
Proof. by apply still_ret. Qed.
Lemma still_gas_ok lo g : in64 g -> lo <= g -> still (gas_ok g) (costs lo).
Proof. intros. by apply still_ret. Qed.

Lemma still_add_or_err lo gas x : in64 gas -> in64 x -> lo <= gas + x -> still (add_or_err gas x) (costs lo).
Proof.
  intros Hg Hx Hlo. unfold add_or_err. destruct (SafeAdd gas x) as [r [|]] eqn:Hs; [apply still_gas_err|].
  destruct (SafeAdd_false gas x r Hg Hx Hs) as [-> ?]. by apply still_gas_ok.
Qed.

Lemma still_gas_then lo lo' m k : still m (costs lo') -> (forall g, in64 g -> lo' <= g -> still (k g) (costs lo)) ->
  still (gas_then m k) (costs lo).
Proof.
  intros Hm Hk. eapply still_bind; [exact Hm|]. intros [g [er|]] Hc; [apply still_gas_err|]. destruct Hc. by apply Hk.
Qed.

(** ** Memory fees *)

(** The size passed to a gas function: whole words. *)
Definition words_size (sz : Z) : Prop := in64 sz /\ sz mod 32 = 0.

(** [gasfun lo sz m]: [m] computes a cost of at least [lo] for a memory of [sz]
    bytes, recording the memory fee. *)
Definition gasfun (lo sz : Z) (m : M (frame S) (Z * option vm_error)) : Prop :=
  forall f, fgood f -> mem_wf (f_Memory f) -> words_size sz ->
    match m f with
    | Ret (r, f') => gstep f f' /\ costs lo r /\
        (snd r = None -> f_Memory f' = snd (memoryGasCost sz (f_Memory f)) /\ snd (fst (memoryGasCost sz (f_Memory f))) = None)
    | Panic => True
    | OutOfFuel => False
    end.

Lemma gasfun_still lo m : still m (costs lo) -> gasfun lo 0 m.
Proof.
  intros Hm f Hg _ _. specialize (Hm f Hg). destruct (m f) as [[r f']| |]; [|done|done].
  destruct Hm as (? & ? & ?). auto.
Qed.

Lemma gasfun_bind {A} lo sz (m : M (frame S) A) k P : still m P -> (forall a, P a -> gasfun lo sz (k a)) ->
  gasfun lo sz (mthen m k).
Proof.
  intros Hm Hk f Hg Hwf Hsz. unfold mthen. specialize (Hm f Hg). destruct (m f) as [[a f1]| |]; cbn; [|done|done].
  destruct Hm as (H1 & H2 & H3). specialize (Hk a H3 f1 (gstep_good _ _ Hg H1)). rewrite H2 in Hk.
  specialize (Hk Hwf Hsz). destruct (k a f1) as [[b f2]| |]; [|done|done]. destruct Hk as (K1 & K2 & K3).
  split_and!; [by eapply gstep_trans|done|done].
Qed.

Lemma gasfun_err lo sz e : gasfun lo sz (gas_err e).
Proof. intros f Hg _ _. split_and!; [by apply gstep_refl|done|done]. Qed.

(** The fee never wraps around. *)
Lemma memory_fee_bound sz m fee m' : mem_wf m -> words_size sz -> memoryGasCost sz m = ((fee, None), m') -> 0 <= fee < 2 ^ 56.
Proof.
  intros Hwf [Hs _] H. destruct (Z.leb_spec sz 0x1FFFFFFFE0).
  - rewrite memoryGasCost_spec in H by done. cbn zeta in H. injection H as <- _.
    pose proof Hwf as (Hmod & Hmax & _). pose proof (Zlen_nonneg (Memory.store m)) as Hnn. fold (Memory.Len m) in Hnn.
    assert (Hw : 0 <= Memory.Len m / 32 <= 2 ^ 32 - 1) by (Z.div_mod_to_equations; lia).
    assert (Hs' : 0 <= words_of sz <= 2 ^ 32 - 1) by (unfold words_of, in64 in *; Z.div_mod_to_equations; lia).
    pose proof (mem_total_mono (Memory.Len m / 32) (Z.max (words_of sz) (Memory.Len m / 32)) ltac:(lia)).
    pose proof (mem_total_bound (Z.max (words_of sz) (Memory.Len m / 32)) ltac:(lia)).
    pose proof (mem_total_bound (Memory.Len m / 32) Hw). lia.
  - rewrite memoryGasCost_err in H by lia. done.
Qed.

Lemma gasfun_mem lo sz k : (forall g, 0 <= g < 2 ^ 56 -> still (k g) (costs lo)) ->
  gasfun lo sz (gas_then (mem_gas sz) k).
Proof.
  intros Hk f Hg Hwf Hsz. unfold gas_then, mem_gas, mthen, mget, mput, mret, gas_err. cbn [obind fst snd].
  destruct (memoryGasCost sz (f_Memory f)) as [[fee [er|]] m'] eqn:Hc; cbn [obind fst snd].
  - destruct Hg as [Hg Hl]. split_and!; [|done|done]. split; cbn; auto. by apply vm_step_refl.
  - pose proof (memory_fee_bound _ _ _ _ Hwf Hsz Hc) as Hfee.
    assert (Hg1 : fgood (with_f_Memory m' f)) by (destruct Hg; by split).
    specialize (Hk fee Hfee (with_f_Memory m' f) Hg1). destruct (k fee _) as [[r f2]| |]; [|done|done].
    destruct Hk as ([K1 K1' K1'' K1'''] & K2 & K3). split_and!; [|done|].
    + split; cbn in *; auto.
    + intros _. rewrite K2. cbn. done.
Qed.

Lemma gasfun_mem_gas sz : gasfun 0 sz (mem_gas sz).
Proof.
  intros f Hg Hwf Hsz. unfold mem_gas, mthen, mget, mput, mret. cbn [obind fst snd].
  destruct (memoryGasCost sz (f_Memory f)) as [[fee er] m'] eqn:Hc; cbn [obind fst snd].
  destruct Hg as [Hg Hl]. split_and!.
  - split; cbn; auto. by apply vm_step_refl.
  - destruct er; [done|]. pose proof (memory_fee_bound _ _ _ _ Hwf Hsz Hc). unfold costs, in64; cbn. lia.
  - cbn. auto.
Qed.

(** After the charge the memory is resized, and is well-formed again. *)
Lemma mem_wf_resize sz m : mem_wf m -> words_size sz -> snd (fst (memoryGasCost sz m)) = None ->
  let m' := snd (memoryGasCost sz m) in mem_wf (if 0 <? sz then Memory.Resize sz m' else m').
Proof.
  intros Hwf [Hs Hm] He. destruct (Z.leb_spec sz 0x1FFFFFFFE0); [|by rewrite memoryGasCost_err in He by lia].
  destruct (expand_spec sz m) as (m1 & Hx & Hwf1 & _); [unfold in64 in Hs; lia|done|].
  unfold expand in Hx. rewrite toWordSize_spec in Hx by (unfold MaxUint64; auto; lia).
  assert (Hw : (sz + 31) / 32 * 32 = sz) by (Z.div_mod_to_equations; lia).
  unfold SafeMul in Hx. rewrite Hw, u64_small, (Z.div_small sz) in Hx by (unfold in64 in *; lia). cbn in Hx.
  destruct (memoryGasCost sz m) as [[fee [er|]] m']; [done|]. cbn in *. by injection Hx as _ ->.
Qed.

Lemma gasfun_then lo lo' sz m k : gasfun lo' sz m -> (forall g, in64 g -> lo' <= g -> still (k g) (costs lo)) ->
  gasfun lo sz (gas_then m k).
Proof.
  intros Hm Hk f Hg Hwf Hsz. specialize (Hm f Hg Hwf Hsz). unfold gas_then, mthen.
  destruct (m f) as [[[g [er|]] f1]| |]; cbn [obind fst snd]; [|  |done|done].
  - destruct Hm as (H1 & _ & _). unfold gas_err, mret. by split_and!.
  - destruct Hm as (H1 & [H2 H2'] & H3). specialize (Hk g H2 H2' f1 (gstep_good _ _ Hg H1)).
    destruct (k g f1) as [[r f2]| |]; [|done|done]. destruct Hk as (K1 & K2 & K3).
    split_and!; [by eapply gstep_trans|done|]. intros _. rewrite K2. by apply H3.
Qed.

(** ** The gas functions of the table, calls apart *)

Lemma SafeMul_in64 x y : in64 (fst (SafeMul x y)).
Proof. apply u64_in64. Qed.

(** The tails of the gas functions: words, overflow checks, one last sum. *)
Ltac tail :=
  repeat first
  [ apply still_gas_err
  | eapply still_bind; [first [apply still_Back | apply still_peek | apply still_contract]|intros ? _]
  | match goal with
    | |- context [let '(_, _) := u_Uint64WithOverflow ?x in _] =>
        let H := fresh "Hr" in pose proof (Uint64WithOverflow_range x) as H; destruct (u_Uint64WithOverflow x); cbn [fst] in H
    | |- context [let '(_, _) := SafeMul ?x ?y in _] =>
        let H := fresh "Hr" in pose proof (SafeMul_in64 x y) as H; destruct (SafeMul x y); cbn [fst] in H
    | |- context [if ?b then gas_err _ else _] => destruct b
    end
  | apply still_add_or_err; [unfold in64 in *; lia|auto using u64_in64|unfold in64 in *; lia] ].

Lemma memoryCopierGas_fun n sz : gasfun 0 sz (memoryCopierGas n sz).
Proof. apply gasfun_mem. intros g Hg. tail. Qed.

Lemma gasKeccak256_fun sz : gasfun 0 sz (gasKeccak256 sz).
Proof. apply gasfun_mem. intros g Hg. tail. Qed.

Lemma gasCreate_fun sz : gasfun 0 sz (gasCreateEip3860 sz).
Proof.
  apply gasfun_mem. intros g Hg. tail. apply still_add_or_err; [unfold in64; lia|apply u64_in64|].
  pose proof (u64_in64 (InitCodeWordGas * (u64 (z + 31) / 32))). unfold in64 in *. lia.
Qed.

Lemma gasCreate2_fun sz : gasfun 0 sz (gasCreate2Eip3860 sz).
Proof.
  apply gasfun_mem. intros g Hg. tail. apply still_add_or_err; [unfold in64; lia|apply u64_in64|].
  pose proof (u64_in64 ((InitCodeWordGas + Keccak256WordGas) * (u64 (z + 31) / 32))). unfold in64 in *. lia.
Qed.

Lemma makeGasLog_fun n sz : gasfun LogGas sz (makeGasLog n sz).
Proof.
  unfold makeGasLog. eapply gasfun_bind; [apply still_Back|]. intros x _.
  pose proof (Uint64WithOverflow_range x) as Hr. destruct (u_Uint64WithOverflow x) as [sz' [|]]; cbn in Hr; [apply gasfun_err|].
  pose proof (u64_in64 (n * LogTopicGas)) as Ht.
  apply gasfun_mem. intros g Hg. apply (still_gas_then _ LogGas).
  { apply still_add_or_err; unfold_params; unfold in64; lia. }
  intros g1 Hg1 Hl1. apply (still_gas_then _ LogGas).
  { apply still_add_or_err; auto. unfold in64 in Ht. lia. }
  intros g2 Hg2 Hl2. tail.
Qed.

Lemma gasExp_fun : gasfun 1 0 (gasExpEIP158 0).
Proof.
  apply gasfun_still. unfold gasExpEIP158. eapply still_bind; [apply still_Back|]. intros x _. cbv zeta.
  set (y := (u_BitLen x + 7) / 8 * ExpByteEIP158). pose proof (u64_in64 y) as Hy.
  apply still_add_or_err; [done| |]; unfold_params; unfold in64 in *; lia.
Qed.

Lemma gasSLoad_fun : gasfun 1 0 (gasSLoadEIP2929 0).
Proof.
  apply gasfun_still. unfold gasSLoadEIP2929. tail. eapply still_bind; [by apply still_harmless|]. intros [? []] _; cbn [negb].
  - apply still_gas_ok; unfold_params; unfold in64; lia.
  - eapply still_bind; [by apply still_harmless|]. intros _ _. apply still_gas_ok; unfold_params; unfold in64; lia.
Qed.

Lemma gasAccountCheck_fun : gasfun 0 0 (gasEip2929AccountCheck 0).
Proof.
  apply gasfun_still. unfold gasEip2929AccountCheck. tail. eapply still_bind; [by apply still_harmless|].
  intros [] _; cbn [negb].
  - apply still_gas_ok; unfold in64; lia.
  - eapply still_bind; [by apply still_harmless|]. intros _ _. apply still_gas_ok; unfold_params; unfold in64; lia.
Qed.

Lemma gasExtCodeCopy_fun sz : gasfun 0 sz (gasExtCodeCopyEIP2929 sz).
Proof.
  eapply gasfun_then; [apply memoryCopierGas_fun|]. intros g Hg Hl. tail.
  eapply still_bind; [by apply still_harmless|]. intros [] _; cbn [negb]; [by apply still_gas_ok|].
  eapply still_bind; [by apply still_harmless|]. intros _ _. apply still_add_or_err; unfold_params; unfold in64 in *; lia.
Qed.

Lemma gasSStore_fun : gasfun 1 0 (gasSStoreEIP3529 0).
Proof.
  apply gasfun_still. unfold gasSStoreEIP3529, makeGasSStoreFunc.
  eapply still_bind; [apply still_contract|]. intros c _. destruct (_ <=? _); [apply still_gas_err|].
  do 2 (eapply still_bind; [first [apply still_Back|apply still_peek]|intros ? _]).
  do 2 (eapply still_bind; [by apply still_harmless|intros ? _]). destruct a2 as [ap sp].
  assert (Hok : forall cost k, cost = 0 \/ cost = 2100 -> 100 <= k <= 30000 -> still (gas_ok (u64 (cost + k))) (costs 1)).
  { intros cost k Hc Hk. rewrite u64_small by (unfold in64; lia). apply still_gas_ok; unfold in64; lia. }
  eapply (still_bind _ _ (fun cost => cost = 0 \/ cost = 2100)).
  { destruct sp; cbn [negb]; [apply still_ret; auto|]. eapply still_bind; [by apply still_harmless|]. intros _ _.
    destruct ap; cbn [negb]; [apply still_ret; auto|apply still_panic]. }
  intros cost Hcost. destruct (_ =? _); [apply Hok; unfold_params; lia|].
  eapply still_bind; [by apply still_harmless|]. intros original _.
  assert (Hu : still (mret tt : M (frame S) unit) (fun _ => True)) by (by apply still_ret).
  repeat first [ apply Hok; unfold_params; lia | exact Hu
               | by apply still_harmless
               | eapply still_bind; [|intros _ _] | case_match ].
Qed.

(** ** The gas of calls *)

(** The call's value operand is not zero. *)
Definition valued (f : frame S) : bool :=
  match f_Stack f !! 2%nat with Some v => negb (u_IsZero v) | None => false end.

(** [callfun val sz m]: [m] sets the callee's gas and returns a cost that covers
    it and, when [val], the price of a transfer; the sum does not wrap around. *)
Definition callfun (val : frame S -> bool) (sz : Z) (m : M (frame S) (Z * option vm_error)) : Prop :=
  forall f, fgood f -> mem_wf (f_Memory f) -> words_size sz -> in64 (c_Gas (f_Contract f)) ->
    match m f with
    | Ret ((cost, None), f') => gstep f f' /\
        f_Memory f' = snd (memoryGasCost sz (f_Memory f)) /\ snd (fst (memoryGasCost sz (f_Memory f))) = None /\
        0 <= vm_callGasTemp (f_vm f') /\
        vm_callGasTemp (f_vm f') + (if val f then CallValueTransferGas else 0) <= cost /\
        cost <= Z.max (c_Gas (f_Contract f)) (2 ^ 64 - 2 ^ 56)
    | Ret ((_, Some _), f') => gstep f f'
    | Panic => True
    | OutOfFuel => False
    end.

Lemma callGas_range avail base c : in64 avail -> 0 <= base < 2 ^ 57 ->
  let r := fst (callGas avail base c) in
  snd (callGas avail base c) = None /\ 0 <= r /\ base + r <= Z.max avail (2 ^ 64 - 2 ^ 56) /\ in64 r.
Proof.
  intros Ha Hb r. unfold callGas in *. pose proof (Uint64_range c) as Hc. set (g := u64 (avail - base)) in *.
  set (cap := g - g / 64) in *.
  assert (Hr : 0 <= r <= cap /\ snd (if negb (u_IsUint64 c) || (cap <? u_Uint64 c) then (cap, None) else (u_Uint64 c, None : option vm_error)) = None).
  { pose proof (u64_in64 (avail - base)) as Hg. fold g in Hg.
    assert (0 <= cap) by (unfold cap, in64 in *; Z.div_mod_to_equations; lia). subst r.
    destruct (negb (u_IsUint64 c)); cbn [orb fst snd]; [split; [lia|done]|].
    destruct (Z.ltb_spec cap (u_Uint64 c)); cbn [fst snd]; unfold in64 in *; (split; [lia|done]). }
  destruct Hr as [Hr Hn]. split; [done|]. clearbody r.
  assert (Hcap : base + cap <= Z.max avail (2 ^ 64 - 2 ^ 56) /\ cap < 2 ^ 64).
  { unfold cap, g, u64, in64 in *. destruct (Z.leb_spec base avail).
    - rewrite Z.mod_small by lia. Z.div_mod_to_equations. lia.
    - replace ((avail - base) mod 2 ^ 64) with (avail - base + 2 ^ 64); [Z.div_mod_to_equations; lia|].
      apply (Z.mod_unique_pos _ _ (-1)); lia. }
  unfold in64. lia.
Qed.

Lemma mthen_run {A B} (m : M (frame S) A) (k : A -> M (frame S) B) f : mthen m k f = obind (m f) (fun r => k (fst r) (snd r)).
Proof. done. Qed.

(** The common end of the three functions. *)
Lemma add_call_gas_ok base f : fgood f -> in64 (c_Gas (f_Contract f)) -> 0 <= base < 2 ^ 57 ->
  match add_call_gas base f with
  | Ret ((cost, None), f') => gstep f f' /\ f_Memory f' = f_Memory f /\
      0 <= vm_callGasTemp (f_vm f') /\ cost = base + vm_callGasTemp (f_vm f') /\
      cost <= Z.max (c_Gas (f_Contract f)) (2 ^ 64 - 2 ^ 56)
  | Ret ((_, Some _), f') => gstep f f'
  | Panic => True
  | OutOfFuel => False
  end.
Proof.
  intros Hg Hgas Hb. unfold add_call_gas, mthen, mget, mput. cbn [obind fst snd].
  pose proof (still_Back 0 f Hg) as HB. destruct (Back 0 f) as [[c f1]| |]; cbn [obind fst snd]; [|done|done].
  destruct HB as (H1 & H2 & _). pose proof (callGas_range (c_Gas (f_Contract f)) base c Hgas Hb) as Hr.
  destruct (callGas _ _ _) as [temp er] eqn:Hcg. cbn [fst snd] in Hr. destruct Hr as (-> & Hr0 & Hr1 & Hr2).
  cbn [obind fst snd]. set (f2 := with_f_vm _ _).
  assert (Hs : gstep f f2) by (destruct Hg; split; cbn; auto; by apply vm_step_same).
  unfold add_or_err. destruct (SafeAdd base temp) as [r [|]] eqn:Hsa; cbn; [done|].
  destruct (SafeAdd_false base temp r ltac:(unfold in64; lia) Hr2 Hsa) as [-> _]. split_and!; auto.
Qed.

Lemma callfun_simple sz : callfun (fun _ => false) sz (gas_then (mem_gas sz) add_call_gas).
Proof.
  intros f Hg Hwf Hsz Hgas. unfold gas_then, mem_gas, mthen, mget, mput, mret, gas_err. cbn [obind fst snd].
  destruct (memoryGasCost sz (f_Memory f)) as [[fee [er|]] m'] eqn:Hc; cbn [obind fst snd].
  - destruct Hg. split; cbn; auto. by apply vm_step_refl.
  - pose proof (memory_fee_bound _ _ _ _ Hwf Hsz Hc) as Hfee.
    assert (Hg1 : fgood (with_f_Memory m' f)) by (destruct Hg; by split).
    pose proof (add_call_gas_ok fee (with_f_Memory m' f) Hg1 Hgas ltac:(lia)) as Ha.
    destruct (add_call_gas fee _) as [[[cost [er|]] f2]| |]; [|  |done|done].
    + destruct Ha. by split.
    + destruct Ha as ([] & H2 & H3 & H4 & H5). cbn in *. split_and!; auto; [by split|]. lia.
Qed.

Lemma gasCall_fun sz : callfun valued sz (gasCall sz).
Proof.
  intros f Hg Hwf Hsz Hgas. unfold gasCall.
  assert (HB : forall n, 0 <= n -> Back n f = match f_Stack f !! Z.to_nat n with Some v => Ret (v, f) | None => Panic end).
  { intros n Hn. unfold Back, mthen, mget, mlift, Stack.Back, go_index. cbn. rewrite (proj2 (Z.leb_le _ _)) by done.
    by destruct (f_Stack f !! Z.to_nat n). }
  rewrite mthen_run, HB by lia. change (Z.to_nat 2) with 2%nat. unfold valued.
  destruct (f_Stack f !! 2%nat) as [value|]; cbn [obind fst snd]; [|done].
  rewrite mthen_run, HB by lia. destruct (f_Stack f !! Z.to_nat 1) as [a|]; cbn [obind fst snd]; [|done].
  set (m0 := if negb (u_IsZero value) then _ else _).
  assert (H0 : still m0 (fun _ => True)) by (unfold m0; destruct (negb _); [by apply still_harmless|by apply still_ret]).
  rewrite mthen_run. specialize (H0 f Hg). destruct (m0 f) as [[em f1]| |]; cbn [obind fst snd]; [|done|done].
  destruct H0 as (H1 & H2 & _). set (base := if negb (u_IsZero value) then _ else _).
  assert (Hbase : 0 <= base <= 34000 /\ (if negb (u_IsZero value) then CallValueTransferGas else 0) <= base).
  { unfold base. unfold_params. destruct (negb _), em; rewrite ?u64_small; unfold in64; lia. }
  unfold gas_then, mem_gas, mthen, mget, mput, mret, gas_err. cbn [obind fst snd]. rewrite H2.
  destruct (memoryGasCost sz (f_Memory f)) as [[fee [er|]] m'] eqn:Hc; cbn [obind fst snd].
  - destruct H1. split; cbn; auto.
  - pose proof (memory_fee_bound _ _ _ _ Hwf Hsz Hc) as Hfee. unfold add_or_err at 1.
    destruct (SafeAdd base fee) as [r [|]] eqn:Hsa; cbn [obind fst snd]; [destruct H1; by split|].
    unfold gas_ok, mret. cbn [obind fst snd].
    destruct (SafeAdd_false base fee r ltac:(unfold in64; lia) ltac:(unfold in64; lia) Hsa) as [-> _].
    assert (Hg1 : fgood (with_f_Memory m' f1)) by (destruct (gstep_good _ _ Hg H1); by split).
    assert (Hgas1 : in64 (c_Gas (f_Contract (with_f_Memory m' f1)))) by (cbn; by rewrite (gs_contract _ _ H1)).
    pose proof (add_call_gas_ok (base + fee) (with_f_Memory m' f1) Hg1 Hgas1 ltac:(lia)) as Ha.
    assert (Hs1 : gstep f (with_f_Memory m' f1)) by (destruct H1; by split).
    destruct (add_call_gas _ _) as [[[cost [er|]] f2]| |]; [by eapply gstep_trans|  |done|done].
    destruct Ha as (Ha1 & Ha2 & Ha3 & Ha4 & Ha5). cbn in Ha2, Ha5. rewrite (gs_contract _ _ H1) in Ha5.
    split_and!; auto; [by eapply gstep_trans|lia].
Qed.

(** What is left when a gas function fails: only gas may be gone. *)
Record estep (f f' : frame S) : Prop := {
  es_vm : vm_step true (f_vm f) (f_vm f');
  es_contract : f_Contract f' = with_c_Gas (c_Gas (f_Contract f')) (f_Contract f);
  es_gas : 0 <= c_Gas (f_Contract f') <= c_Gas (f_Contract f)
}.

Lemma gstep_estep f f' : in64 (c_Gas (f_Contract f)) -> gstep f f' -> estep f f'.
Proof. intros Hg [Hv Hc _ _]. split; rewrite ?Hc; auto; [by destruct (f_Contract f)|unfold in64 in Hg; lia]. Qed.

(** The access-list variant: the cold surcharge is taken, returned, and added to
    the cost. *)
Definition callcost (val : frame S -> bool) (sz : Z) (m : M (frame S) (Z * option vm_error)) : Prop :=
  forall f, fgood f -> mem_wf (f_Memory f) -> words_size sz -> in64 (c_Gas (f_Contract f)) ->
    match m f with
    | Ret ((cost, None), f') => gstep f f' /\
        f_Memory f' = snd (memoryGasCost sz (f_Memory f)) /\ snd (fst (memoryGasCost sz (f_Memory f))) = None /\
        0 <= vm_callGasTemp (f_vm f') /\
        vm_callGasTemp (f_vm f') + (if val f then CallValueTransferGas else 0) <= cost
    | Ret ((_, Some _), f') => estep f f'
    | Panic => True
    | OutOfFuel => False
    end.

Lemma use_gas_run g (f : frame S) : use_gas g f =
  Ret (if c_Gas (f_Contract f) <? g then (false, f)
       else (true, with_f_Contract (with_c_Gas (c_Gas (f_Contract f) - g) (f_Contract f)) f)).
Proof.
  unfold use_gas, mthen, mget, mput, mret, Contract.UseGas. cbn. destruct (_ <? _); cbn; [by destruct f|done].
Qed.

Lemma variant_cost val sz old : (forall f f', f_Stack f' = f_Stack f -> val f' = val f) ->
  callfun val sz (old sz) -> callcost val sz (makeCallVariantGasCallEIP2929 old sz).
Proof.
  intros Hval Hold f Hg Hwf Hsz Hgas. unfold makeCallVariantGasCallEIP2929. rewrite mthen_run.
  pose proof (still_Back 1 f Hg) as HB. destruct (Back 1 f) as [[a f0]| |]; cbn [obind fst snd]; [|done|done].
  destruct HB as (B1 & B2 & _). rewrite mthen_run. set (addr := BytesToAddress _).
  pose proof (still_harmless (SDB.AddressInAccessList addr) eq_refl f0 (gstep_good _ _ Hg B1)) as HA.
  destruct (state _ f0) as [[warm f1]| |]; cbn [obind fst snd]; [|done|done]. destruct HA as (A1 & A2 & _).
  assert (H1 : gstep f f1) by (by eapply gstep_trans). assert (M1 : f_Memory f1 = f_Memory f) by congruence.
  pose proof (gstep_good _ _ Hg H1) as Hg1. pose proof (gs_contract _ _ H1) as Hc1. clear B1 B2 A1 A2 f0.
  rewrite mthen_run. destruct warm; cbn [negb].
  - cbn [mret obind fst snd negb]. rewrite mthen_run. specialize (Hold f1 Hg1). rewrite M1, Hc1 in Hold.
    specialize (Hold Hwf Hsz Hgas). destruct (old sz f1) as [[[cost [er|]] f2]| |]; cbn [obind fst snd mret]; [|  |done|done].
    + apply gstep_estep; [done|by eapply gstep_trans].
    + destruct Hold as (O1 & O2 & O3 & O4 & O5 & _). rewrite (Hval f f1) in O5 by apply H1.
      split_and!; auto. by eapply gstep_trans.
  - rewrite mthen_run. pose proof (still_harmless (SDB.AddAddressToAccessList addr) eq_refl f1 Hg1) as HA.
    destruct (state _ f1) as [[[] f2]| |]; cbn [obind fst snd]; [|done|done]. destruct HA as (A1 & A2 & _).
    assert (H2 : gstep f f2) by (by eapply gstep_trans). assert (M2 : f_Memory f2 = f_Memory f) by congruence.
    pose proof (gstep_good _ _ Hg H2) as Hg2. pose proof (gs_contract _ _ H2) as Hc2. clear A1 A2 H1 M1 Hg1 Hc1 f1.
    rewrite use_gas_run, Hc2. set (cold := ColdAccountAccessCostEIP2929 - WarmStorageReadCostEIP2929).
    assert (Hcold : cold = 2500) by done. clearbody cold. subst cold.
    destruct (Z.ltb_spec (c_Gas (f_Contract f)) 2500); cbn [obind fst snd negb].
    { apply gstep_estep; done. }
    set (f3 := with_f_Contract _ f2). unfold in64 in Hgas.
    assert (Hg3 : fgood f3) by (destruct Hg2 as [G1 G2]; split; [done|cbn; rewrite Hc2 in G2; exact G2]).
    rewrite mthen_run. specialize (Hold f3 Hg3). cbn [f3 f_Memory f_Contract with_f_Contract with_c_Gas c_Gas] in Hold.
    rewrite M2 in Hold. specialize (Hold Hwf Hsz ltac:(unfold in64; lia)).
    destruct (old sz f3) as [[[cost [er|]] f4]| |]; cbn [obind fst snd mret]; [|  |done|done].
    + destruct Hold as [O1 O2 _ _]. destruct H2 as [V2 _ _ _]. split; [by eapply vm_step_trans| |]; rewrite O2; cbn; [done|lia].
    + destruct Hold as ([O1 O1c O1s O1p] & O2 & O3 & O4 & O5 & O6). rewrite (Hval f f3) in O5 by (cbn; apply H2).
      assert (0 <= if val f then CallValueTransferGas else 0) by (by destruct (val f)).
      unfold f3 in O6; cbn in O6. unfold mthen, mmodify, gas_ok, mret. cbn [obind fst snd]. rewrite O1c. cbn [f3 f_Contract with_f_Contract with_c_Gas c_Gas].
      rewrite (u64_small (cost + 2500)), (u64_small (_ - 2500 + 2500)) by (unfold in64; lia).
      split_and!; auto; [|cbn; lia]. destruct H2 as [V2 C2 S2 P2].
      split; [by eapply vm_step_trans| |cbn in *; congruence|cbn in *; congruence].
      cbn. rewrite Z.sub_add. by destruct (f_Contract f).
Qed.

Lemma gasCallEIP2929_cost sz : callcost valued sz (gasCallEIP2929 sz).
Proof. apply variant_cost; [|apply gasCall_fun]. intros f f' Hs. unfold valued. by rewrite Hs. Qed.
Lemma gasDelegateCallEIP2929_cost sz : callcost (fun _ => false) sz (gasDelegateCallEIP2929 sz).
Proof. apply variant_cost; [done|apply callfun_simple]. Qed.
Lemma gasStaticCallEIP2929_cost sz : callcost (fun _ => false) sz (gasStaticCallEIP2929 sz).
Proof. apply variant_cost; [done|apply callfun_simple]. Qed.

End GasLogic.
