(* ===== verification/VMRun.v ===== *)
(** * Runs of the machine

    By induction on the fuel: a run of the interpreter with more fuel than gas
    does not run out of fuel, hands back at most the gas it was given, keeps the
    snapshots that were live, restores the state on failure and freezes it when
    read-only. *)

From S2P Require Import Prelude Uint256 Params VMCommon Stack Memory Opcodes Analysis Rlp StateTypes VMInterface Contract GasTable Instructions JumpTable Precompiles Interpreter VMLogic VMHandlers VMGas.

Section Runs.
Context {S : Type} {SI : StateI S} {L : StateLaws S SI} {U : Uint256} {UT : Uint256Typed U} {C : Crypto} {H : Ssz}.
Context (e : env).

(** ** A logic for the machine *)

(** [vq b fr m Q]: on a good machine whose read-only flag is [b], [m] makes a step,
    freezing the state if [fr], and returns a value in [Q]. *)
Definition vq {A} (b fr : bool) (m : M (QRVM S) A) (Q : A -> Prop) : Prop :=
  forall v, vgood v -> vm_readOnly v = b ->
    match m v with
    | Ret (a, v') => vm_step fr v v' /\ Q a
    | Panic => True
    | OutOfFuel => False
    end.

Lemma vq_ret {A} b fr (a : A) (Q : A -> Prop) : Q a -> vq b fr (mret a) Q.
Proof. intros HQ v Hg _. split; [by apply vm_step_refl|done]. Qed.

Lemma vq_bind {A B} b fr (m : M (QRVM S) A) (k : A -> M (QRVM S) B) P Q :
  vq b fr m P -> (forall a, P a -> vq b fr (k a) Q) -> vq b fr (mthen m k) Q.
Proof.
  intros Hm Hk v Hg Hb. unfold mthen. specialize (Hm v Hg Hb). destruct (m v) as [[a v1]| |]; cbn; [|done|done].
  destruct Hm as [H1 HP]. specialize (Hk a HP v1 (vs_good _ _ _ H1) ltac:(rewrite (vs_readOnly _ _ _ H1); done)).
  destruct (k a v1) as [[c v2]| |]; [|done|done]. destruct Hk. split; [by eapply vm_step_trans|done].
Qed.

Lemma vq_weaken {A} b fr (m : M (QRVM S) A) (P Q : A -> Prop) : vq b fr m P -> (forall a, P a -> Q a) -> vq b fr m Q.
Proof.
  intros Hm HPQ v Hg Hb. specialize (Hm v Hg Hb). destruct (m v) as [[a v']| |]; [|done|done]. destruct Hm. auto.
Qed.

Lemma vq_any {A} b fr (m : M (QRVM S) A) Q : vq b true m Q -> vq b fr m Q.
Proof.
  intros Hm v Hg Hb. specialize (Hm v Hg Hb). destruct (m v) as [[a v']| |]; [|done|done]. destruct Hm as [[] ?].
  split; [split; auto|done].
Qed.

Lemma vq_get {A} b fr (k : QRVM S -> M (QRVM S) A) Q : (forall v, vq b fr (k v) Q) -> vq b fr (let* v := mget in k v) Q.
Proof. intros Hk. eapply (vq_bind _ _ _ _ (fun _ => True)); [|auto]. intros v Hg Hb. split; [by apply vm_step_refl|done]. Qed.

Lemma vq_lift {A} b fr (o : outcome A) (Q : A -> Prop) : o <> OutOfFuel -> (forall a, o = Ret a -> Q a) -> vq b fr (mlift o) Q.
Proof. intros Ho HQ v Hg Hb. unfold mlift. destruct o; cbn; [|done|done]. split; [by apply vm_step_refl|auto]. Qed.

Lemma vq_op {A} b fr (o : SDB.op A) : op_step fr o -> vq b fr (vstate o) (fun _ => True).
Proof. intros Ho v Hg Hb. specialize (Ho v Hg). destruct (vstate o v) as [[a v']| |]; [|done|done]. by destruct Ho. Qed.

Lemma vq_harmless {A} b fr (o : SDB.op A) : SDB.harmless o = true -> vq b fr (vstate o) (fun _ => True).
Proof. intros. by apply vq_op, harmless_op_step. Qed.

Lemma vq_plain {A} b (o : SDB.op A) : SDB.plain o = true -> SDB.pays o = false -> vq b false (vstate o) (fun _ => True).
Proof. intros. by apply vq_op, plain_op_step. Qed.

Lemma vq_code b fr a : vq b fr (vstate (SDB.GetCode a)) (fun c => Zlen c < 2 ^ 63).
Proof.
  intros v Hg Hb. pose proof (vq_harmless b fr (SDB.GetCode a) eq_refl v Hg Hb) as Hh. unfold vstate in *.
  destruct (sdb _ _) as [[c s']| |] eqn:Hs; cbn in *; [|done|done]. destruct Hh. split; [done|by eapply code_length].
Qed.

(** Creating an account that does not exist is allowed in a read-only machine. *)
Lemma vq_exist_create {A} b fr addr (c : bool) (r : A) (rest : M (QRVM S) A) Q : Q r -> vq b fr rest Q ->
  vq b fr (let* ex := vstate (SDB.Exist addr) in
        if negb ex && c then mret r
        else (if negb ex then vstate (SDB.CreateAccount addr) else mret tt) ;;; rest) Q.
Proof.
  intros HQ Hrest v Hg Hb. unfold mthen at 1. pose proof (vq_harmless b fr (SDB.Exist addr) eq_refl v Hg Hb) as He.
  destruct (vstate (SDB.Exist addr) v) as [[ex v1]| |] eqn:Hex; cbn [obind fst snd]; [|done|done].
  destruct He as [H1 _]. assert (Hb1 : vm_readOnly v1 = b) by (rewrite (vs_readOnly _ _ _ H1); done).
  assert (Hskip : forall v2, vm_step fr v v2 -> match rest v2 with
    | Ret (a, v') => vm_step fr v v' /\ Q a | Panic => True | OutOfFuel => False end).
  { intros v2 H2. specialize (Hrest v2 (vs_good _ _ _ H2) ltac:(rewrite (vs_readOnly _ _ _ H2); done)).
    destruct (rest v2) as [[a v']| |]; [|done|done]. destruct Hrest. split; [by eapply vm_step_trans|done]. }
  destruct ex; cbn [negb andb]; [by apply Hskip|]. destruct c; [by split|].
  unfold mthen. destruct (vstate (SDB.CreateAccount addr) v1) as [[[] v2]| |] eqn:Hc; cbn [obind fst snd]; [|done|].
  - apply Hskip. unfold vstate in Hex, Hc.
    destruct (sdb (SDB.Exist addr) (vm_StateDB v)) as [[ex' s1]| |] eqn:E1; cbn in Hex; [|done|done]. injection Hex as -> <-.
    cbn in Hc. destruct (sdb (SDB.CreateAccount addr) s1) as [[[] s2]| |] eqn:E2; cbn in Hc; [|done|done]. injection Hc as <-.
    destruct (plain_keeps _ (SDB.Exist addr) _ _ _ eq_refl Hg E1) as [G1 K1].
    destruct (plain_keeps _ (SDB.CreateAccount addr) _ _ _ eq_refl G1 E2) as [G2 K2].
    pose proof (frozen_create _ _ _ _ Hg E1 E2). split; cbn; auto; [intros id s0 Hs; auto|by apply moved_frozen].
  - unfold vstate in Hc. pose proof (plain_total _ (SDB.CreateAccount addr) (vm_StateDB v1) eq_refl (vs_good _ _ _ H1)).
    by destruct (sdb (SDB.CreateAccount addr) (vm_StateDB v1)) as [[]| |].
Qed.

(** The gas of a result, at most [g]. *)
Definition gas_within (g : Z) (r : list Z * Z * option vm_error) : Prop := 0 <= snd (fst r) <= g.

(** A body run under a snapshot: at the end its effects are kept or undone. *)
Lemma vq_snapshot {A B} b fr (m : M (QRVM S) A) (undo : A -> bool) (out : A -> B) Q :
  vq b fr m (fun a => Q (out a)) ->
  vq b fr (let* id := vstate SDB.Snapshot in let* a := m in
           if undo a then vstate (SDB.RevertToSnapshot id) ;;; mret (out a) else mret (out a)) Q.
Proof.
  intros Hm v Hg Hb. unfold mthen at 1. unfold vstate at 1.
  destruct (snapshot_law (vm_StateDB v) Hg) as (id & s1 & Hs & Hg1 & Hsn & Hold). rewrite Hs. cbn [obind fst snd].
  set (v1 := with_vm_StateDB s1 v). assert (H1 : vm_step fr v v1).
  { pose proof (frozen_snapshot _ _ _ Hg Hs). split; cbn; auto; [intros k s0 Hk; by apply Hold|by apply moved_frozen]. }
  unfold mthen. specialize (Hm v1 Hg1 Hb). destruct (m v1) as [[a v2]| |]; cbn [obind fst snd]; [|done|done].
  destruct Hm as [H2 HQ]. destruct (undo a); [|split; [by eapply vm_step_trans|done]].
  unfold vstate. destruct (revert_law (vm_StateDB v2) id (vm_StateDB v) (vs_good _ _ _ H2))
    as (s3 & Hr & Hg3 & Hsame & Hk); [by apply (vs_kept _ _ _ H2)|]. rewrite Hr. cbn [obind fst snd].
  pose proof (vs_depth _ _ _ H2). pose proof (vs_readOnly _ _ _ H2). split; [|done]. split; cbn in *; auto.
  - intros k s0 Hsk. destruct (Hold k s0 Hsk). apply Hk; [done|]. by apply (vs_kept _ _ _ H2).
  - intros _. by apply frozen_same.
  - by apply moved_frozen, frozen_same.
Qed.

Definition failed (r : list Z * Z * option vm_error) : bool := match snd r with Some _ => true | None => false end.
Definition settled (r : list Z * Z * option vm_error) : list Z * Z * option vm_error :=
  match r with
  | (ret, gas, Some er) => (ret, if bool_decide (er = ErrExecutionReverted) then gas else 0, Some er)
  | _ => r
  end.

Lemma settle_eq id r : settle id r =
  if failed r then vstate (SDB.RevertToSnapshot id) ;;; mret (settled r) else mret (settled r).
Proof. by destruct r as [[ret gas] [er|]]. Qed.

Lemma vq_settle b fr m g : vq b fr m (gas_within g) -> 0 <= g ->
  vq b fr (let* id := vstate SDB.Snapshot in let* r := m in settle id r) (gas_within g).
Proof.
  intros Hm Hg v Hv Hb.
  rewrite (mthen_cong _ _ (fun id => let* a := m in
    if failed a then vstate (SDB.RevertToSnapshot id) ;;; mret (settled a) else mret (settled a))).
  - apply (vq_snapshot b fr m failed settled (gas_within g)); [|done|done]. eapply vq_weaken; [exact Hm|]. intros [[ret gas] [er|]]; unfold gas_within; cbn; [|done].
    destruct (bool_decide _); lia.
  - intros id s. apply mthen_cong. intros r s'. by rewrite settle_eq.
Qed.

(** ** Address derivation *)

Lemma listEnd_fuel i buf : Rlp.listEnd i buf <> OutOfFuel.
Proof. unfold Rlp.listEnd. nofuel. Qed.

Lemma copyTo_fuel heads : forall s dst strpos pos, Rlp.copyTo_loop heads s dst strpos pos <> OutOfFuel.
Proof.
  induction heads as [|h heads IH]; intros; cbn [Rlp.copyTo_loop]; [nofuel|].
  do 2 (apply obind_fuel; [auto with vm|intros]). apply obind_fuel; [|intros; apply IH].
  unfold Rlp.put_at. by destruct (_ && _).
Qed.

Lemma makeBytes_fuel buf : Rlp.makeBytes buf <> OutOfFuel.
Proof. apply copyTo_fuel. Qed.

(** ** Precompiled contracts *)

Lemma precompile_case addr p : precompile addr = Some p ->
  p = mkPrecompile depositroot.RequiredGas depositroot.Run \/ p = mkPrecompile sha256hash.RequiredGas sha256hash.Run \/
  p = mkPrecompile dataCopy.RequiredGas dataCopy.Run \/ p = mkPrecompile bigModExp.RequiredGas bigModExp.Run.
Proof.
  unfold precompile, PrecompiledContractsZond. cbn [Op.assoc].
  repeat (case_decide; [intros [= <-]; auto|]). done.
Qed.

Lemma bigModExp_gas input : bigModExp.RequiredGas input <> OutOfFuel /\
  forall g, bigModExp.RequiredGas input = Ret g -> 0 <= g.
Proof.
  split; [unfold bigModExp.RequiredGas; nofuel|]. intros g Hr. unfold bigModExp.RequiredGas in Hr.
  do 4 apply obind_Ret in Hr as (? & _ & Hr). cbv zeta in Hr.
  repeat case_match; simplify_eq; try done; apply u64_in64.
Qed.

Lemma RunPrecompiled_within addr p input gas : precompile addr = Some p -> 0 <= gas ->
  RunPrecompiledContract p input gas <> OutOfFuel /\
  forall r, RunPrecompiledContract p input gas = Ret r -> gas_within gas r.
Proof.
  intros Hp Hg.
  assert (Hok : RequiredGas p input <> OutOfFuel /\ (forall g, RequiredGas p input = Ret g -> 0 <= g) /\
    PRun p input <> OutOfFuel).
  { destruct (precompile_case addr p Hp) as [-> |[-> |[-> | ->]]]; cbn.
    - split_and!; [done|intros g [= <-]; done|]. unfold depositroot.Run. nofuel.
    - split_and!; [done|intros g [= <-]; apply u64_in64|done].
    - split_and!; [done|intros g [= <-]; apply u64_in64|done].
    - destruct (bigModExp_gas input). split_and!; auto. unfold bigModExp.Run. nofuel. }
  destruct Hok as (H1 & H2 & H3). unfold RunPrecompiledContract.
  destruct (RequiredGas p input) as [cost| |]; cbn; [|done|done]. specialize (H2 cost eq_refl).
  destruct (Z.ltb_spec gas cost); [split; [done|intros r [= <-]; unfold gas_within; cbn; lia]|].
  destruct (PRun p input) as [[out err]| |]; cbn; [|done|done].
  split; [done|]. intros r [= <-]. unfold gas_within; cbn. lia.
Qed.

(** ** The entry points, given a runner *)

(** What the entry points rely on, for contracts with less than [g] gas. *)
Definition run_ok (g : Z) (run : runner) : Prop :=
  forall c input ro v, vgood v -> Zlen (c_Code c) < 2 ^ 63 -> 0 <= c_Gas c < g ->
    match run c input ro v with
    | Ret ((_, _, c'), v') => vm_step (ro || vm_readOnly v) v v' /\ 0 <= c_Gas c' <= c_Gas c
    | Panic => True
    | OutOfFuel => False
    end.

Section Entry.
Context (g : Z) (run : runner) (Hrun : run_ok g run).

Lemma vq_run b fr c input ro : (fr = true -> ro || b = true) -> Zlen (c_Code c) < 2 ^ 63 -> 0 <= c_Gas c < g ->
  vq b fr (run_contract run c input ro) (gas_within (c_Gas c)).
Proof.
  intros Hfr Hc Hg v Hv Hb. unfold run_contract, mthen. specialize (Hrun c input ro v Hv Hc Hg).
  destruct (run c input ro v) as [[[[ret err] c'] v']| |]; cbn; [|done|done]. destruct Hrun as [Hs Hgas].
  split; [|done]. destruct Hs. split; auto. intros Hf. apply vs_frozen. rewrite Hb. auto.
Qed.

Lemma vq_NewContract b fr caller object value gas :
  vq b fr (Contract.NewContract caller object value gas)
    (fun c => c = mkContract (ref_Address caller) caller object None [] 0 None [] gas value).
Proof.
  intros v Hv Hb. destruct caller; cbn; (split; [|done]); [|by apply vm_step_refl].
  by apply vm_step_same.
Qed.

(** The two halves of a transfer: the sum of the balances is back at the end. *)
Lemma vq_Transfer b fr sender recipient amount : (fr = true -> amount = 0) ->
  vq b fr (Transfer sender recipient amount) (fun _ => True).
Proof.
  intros Hb v Hv Hro. unfold Transfer, mthen, vstate.
  pose proof (plain_total _ (SDB.SubBalance sender amount) (vm_StateDB v) eq_refl Hv) as T1.
  destruct (sdb (SDB.SubBalance sender amount) _) as [[[] s1]| |] eqn:E1; cbn [obind fst snd]; [|done|done].
  destruct (plain_keeps _ (SDB.SubBalance sender amount) _ _ _ eq_refl Hv E1) as [G1 K1]. cbn [vm_StateDB with_vm_StateDB].
  pose proof (plain_total _ (SDB.AddBalance recipient amount) s1 eq_refl G1) as T2.
  destruct (sdb (SDB.AddBalance recipient amount) s1) as [[[] s2]| |] eqn:E2; cbn [obind fst snd]; [|done|done].
  destruct (plain_keeps _ (SDB.AddBalance recipient amount) _ _ _ eq_refl G1 E2) as [G2 K2].
  split; [|done]. split; cbn; auto; [intros id s0 Hs; auto| |].
  - intros Hf. specialize (Hb Hf). subst amount. eapply frozen_trans.
    + by apply (frozen_harmless _ (SDB.SubBalance sender 0) _ tt).
    + by apply (frozen_harmless _ (SDB.AddBalance recipient 0) _ tt).
  - replace 0 with (- amount + amount) by lia. eapply moved_trans; [by eapply moved_sub|by eapply moved_add].
Qed.

(** The body of a call, between the snapshot and its end. *)
Definition call_body (caller : contractRef) (addr : Z) (input : list Z) (gas value : Z)
    : M (QRVM S) (list Z * Z * option vm_error) :=
  let p := precompile addr in
  let* exists_ := vstate (SDB.Exist addr) in
  if negb exists_ && (match p with None => true | Some _ => false end && (Z.sgn value =? 0))
  then mret ([], gas, None)
  else
    (if negb exists_ then vstate (SDB.CreateAccount addr) else mret tt) ;;;
    Transfer (ref_Address caller) addr value ;;;
    (match p with
     | Some p => mlift (RunPrecompiledContract p input gas)
     | None =>
         let* code := vstate (SDB.GetCode addr) in
         if Zlen code =? 0 then mret ([], gas, None)
         else
           let* contract := Contract.NewContract caller addr (Some value) gas in
           let* hash := vstate (SDB.GetCodeHash addr) in
           run_contract run (Contract.SetCallCode addr hash code contract) input false
     end).

Lemma call_body_within b fr caller addr input gas value : 0 <= gas < g -> (fr = true -> value = 0 /\ b = true) ->
  vq b fr (call_body caller addr input gas value) (gas_within gas).
Proof.
  intros Hgas Hb. unfold call_body. apply vq_exist_create; [unfold gas_within; cbn; lia|].
  eapply vq_bind; [apply vq_Transfer; intros Hf; by apply Hb|]. intros _ _. destruct (precompile addr) as [p|] eqn:Hp.
  - destruct (RunPrecompiled_within addr p input gas Hp) as [H1 H2]; [lia|]. by apply vq_lift.
  - eapply vq_bind; [apply vq_code|]. intros code Hcode. cbn beta in Hcode.
    destruct (Zlen code =? 0); [apply vq_ret; unfold gas_within; cbn; lia|].
    eapply vq_bind; [apply vq_NewContract|]. intros c ->. eapply vq_bind; [by apply vq_harmless|]. intros h _.
    apply vq_run; [|done|done]. intros Hf. by apply Hb.
Qed.

(** A call is its body under a snapshot, behind two checks. *)
Lemma qrvm_Call_eq caller addr input gas value v : qrvm_Call run caller addr input gas value v =
  (if CallCreateDepth <? vm_depth v then mret ([], gas, Some ErrDepth)
   else
    let* can := (if negb (Z.sgn value =? 0) then CanTransfer (ref_Address caller) value else mret true) in
    if negb can then mret ([], gas, Some ErrInsufficientBalance)
    else let* id := vstate SDB.Snapshot in let* r := call_body caller addr input gas value in settle id r) v.
Proof.
  unfold qrvm_Call. change (mthen mget ?k v) with (k v v). cbn beta. destruct (_ <? _); [done|].
  apply mthen_cong; intros can v1. destruct (negb can); [done|]. apply mthen_cong; intros id v2.
  unfold call_body. cbv zeta. rewrite mthen_assoc. apply mthen_cong; intros ex v3.
  rewrite andb_assoc. destruct (negb ex && _ && _); [done|].
  rewrite mthen_assoc. apply mthen_cong; intros _ v4. by rewrite mthen_assoc.
Qed.

Lemma qrvm_Call_within b caller addr input gas value : 0 <= gas < g -> (b = true -> value = 0) ->
  vq b b (qrvm_Call run caller addr input gas value) (gas_within gas).
Proof.
  intros Hgas Hb v Hv Hr. rewrite qrvm_Call_eq. revert v Hv Hr.
  assert (Hdepth : forall d : bool, vq b b (if d then mret ([], gas, Some ErrDepth) else
    let* can := (if negb (Z.sgn value =? 0) then CanTransfer (ref_Address caller) value else mret true) in
    if negb can then mret ([], gas, Some ErrInsufficientBalance)
    else let* id := vstate SDB.Snapshot in let* r := call_body caller addr input gas value in settle id r) (gas_within gas)).
  { assert (Hr : forall er, gas_within gas (([] : list Z, gas), Some er)) by (intros; unfold gas_within; cbn; lia).
    intros [|]; [by apply vq_ret|]. eapply (vq_bind _ _ _ _ (fun _ => True)).
    - destruct (negb _); [|by apply vq_ret]. unfold CanTransfer. eapply vq_bind; [by apply vq_harmless|]. intros. by apply vq_ret.
    - intros can _. destruct can; cbn [negb]; [|by apply vq_ret]. apply vq_settle; [apply call_body_within; auto|lia]. }
  intros v Hv Hr. apply (Hdepth (CallCreateDepth <? vm_depth v) v Hv Hr).
Qed.

Lemma qrvm_DelegateCall_within b caller addr input gas : 0 <= gas < g ->
  vq b b (qrvm_DelegateCall run caller addr input gas) (gas_within gas).
Proof.
  intros Hgas. unfold qrvm_DelegateCall. apply vq_get. intros v0. destruct (_ <? _); [apply vq_ret; unfold gas_within; cbn; lia|].
  apply vq_settle; [|lia]. destruct (precompile addr) as [p|] eqn:Hp.
  - destruct (RunPrecompiled_within addr p input gas Hp) as [H1 H2]; [lia|]. by apply vq_lift.
  - eapply vq_bind; [apply vq_NewContract|]. intros c ->.
    eapply (vq_bind _ _ _ _ (fun c => c_Gas c = gas)).
    { apply vq_lift; unfold Contract.AsDelegate; cbn; destruct caller; try done. by intros c [= <-]. }
    intros c Hc. eapply vq_bind; [by apply vq_harmless|]. intros h _.
    eapply vq_bind; [apply vq_code|]. intros code Hcode. cbn beta in Hcode.
    eapply vq_weaken; [apply vq_run; cbn; [done|done|lia]|]. cbn. by rewrite Hc.
Qed.

(** A static call freezes the state whether or not the machine is read-only. *)
Lemma qrvm_StaticCall_within b caller addr input gas : 0 <= gas < g ->
  vq b true (qrvm_StaticCall run caller addr input gas) (gas_within gas).
Proof.
  intros Hgas. unfold qrvm_StaticCall. apply vq_get. intros v0. destruct (_ <? _); [apply vq_ret; unfold gas_within; cbn; lia|].
  intros v Hv Hb.
  rewrite (mthen_cong _ _ (fun id => let* r :=
    (vstate (SDB.AddBalance addr 0) ;;;
     match precompile addr with
     | Some p => mlift (RunPrecompiledContract p input gas)
     | None =>
         let* contract := Contract.NewContract caller addr (Some 0) gas in
         let* hash := vstate (SDB.GetCodeHash addr) in
         let* code := vstate (SDB.GetCode addr) in
         run_contract run (Contract.SetCallCode addr hash code contract) input true
     end) in settle id r)).
  2: { intros id s. by rewrite mthen_assoc. }
  apply (vq_settle b true); [|lia|done|done]. eapply vq_bind; [by apply vq_harmless|]. intros _ _.
  destruct (precompile addr) as [p|] eqn:Hp.
  - destruct (RunPrecompiled_within addr p input gas Hp) as [H1 H2]; [lia|]. by apply vq_lift.
  - eapply vq_bind; [apply vq_NewContract|]. intros c ->. eapply vq_bind; [by apply vq_harmless|]. intros h _.
    eapply vq_bind; [apply vq_code|]. intros code Hcode. cbn beta in Hcode. by apply vq_run.
Qed.

(** ** Creation *)

Definition create_within (gas : Z) (r : list Z * Z * Z * option vm_error) : Prop := 0 <= snd (fst r) <= gas.

Lemma store_code_within address ret err c : 0 <= c_Gas c ->
  vq false false (store_code address ret err c) (fun r => 0 <= c_Gas (snd r) <= c_Gas c).
Proof.
  intros Hc. unfold store_code. cbv zeta.
  set (err' := match err with None => _ | Some _ => err end). clearbody err'.
  set (err'' := match err' with None => _ | Some _ => err' end). clearbody err''.
  destruct err''; [apply vq_ret; cbn; lia|]. unfold Contract.UseGas.
  pose proof (u64_in64 (Zlen ret * CreateDataGas)) as Hu. unfold in64 in Hu.
  destruct (Z.ltb_spec (c_Gas c) (u64 (Zlen ret * CreateDataGas))); [apply vq_ret; cbn; lia|].
  eapply vq_bind; [by apply vq_plain|]. intros _ _. apply vq_ret. cbn. lia.
Qed.

(** The body of a creation, between the snapshot and its end. *)
Definition create_body (caller : contractRef) (code : list Z) (codeHash gas value address : Z)
    : M (QRVM S) (list Z * option vm_error * Contract) :=
  vstate (SDB.CreateAccount address) ;;;
  vstate (SDB.SetNonce address 1) ;;;
  Transfer (ref_Address caller) address value ;;;
  let* contract := Contract.NewContract caller address (Some value) gas in
  let* (ret, err, contract) := run (Contract.SetCodeOptionalHash address code codeHash contract) [] false in
  let* (err, contract) := store_code address ret err contract in
  mret (ret, err, contract).

Lemma create_body_within caller code codeHash gas value address : 0 <= gas < g -> Zlen code < 2 ^ 63 ->
  vq false false (create_body caller code codeHash gas value address) (fun r => 0 <= c_Gas (snd r) <= gas).
Proof.
  intros Hgas Hcode. unfold create_body. do 2 (eapply vq_bind; [by apply vq_plain|intros _ _]).
  eapply vq_bind; [by apply vq_Transfer|]. intros _ _. eapply vq_bind; [apply vq_NewContract|]. intros c ->.
  eapply (vq_bind _ _ _ _ (fun r => 0 <= c_Gas (snd r) <= gas)).
  - intros v Hv Hb. set (c := Contract.SetCodeOptionalHash _ _ _ _).
    specialize (Hrun c [] false v Hv Hcode Hgas). destruct (run c [] false v) as [[[[ret err] c'] v']| |]; [|done|done].
    destruct Hrun as [Hs Hg']. split; [|done]. destruct Hs. by split.
  - intros [[ret err] c] Hc. cbn in Hc. eapply vq_bind; [apply store_code_within; lia|].
    intros [err' c'] Hc'. apply vq_ret. cbn in *. lia.
Qed.

(** An error other than the missing gas for the code undoes the creation. *)
Definition create_failed (r : list Z * option vm_error * Contract) : bool :=
  match snd (fst r) with None | Some ErrCodeStoreOutOfGas => false | Some _ => true end.
Definition create_out (address : Z) (r : list Z * option vm_error * Contract) : list Z * Z * Z * option vm_error :=
  let '(ret, err, contract) := r in
  match err with
  | None | Some ErrCodeStoreOutOfGas => (ret, address, c_Gas contract, err)
  | Some er => (ret, address, if bool_decide (er = ErrExecutionReverted) then c_Gas contract else 0, err)
  end.

(** [create] after its checks, as a body under a snapshot. *)
Definition create_checked (caller : contractRef) (code : list Z) (codeHash gas value address : Z) :=
  let* id := vstate SDB.Snapshot in
  let* r := create_body caller code codeHash gas value address in
  if create_failed r then vstate (SDB.RevertToSnapshot id) ;;; mret (create_out address r)
  else mret (create_out address r).

Lemma create_eq caller code codeHash gas value address v : create run caller code codeHash gas value address v =
  (if CallCreateDepth <? vm_depth v then mret ([], 0, gas, Some ErrDepth)
   else
    let* can := CanTransfer (ref_Address caller) value in
    if negb can then mret ([], 0, gas, Some ErrInsufficientBalance)
    else
      let* nonce := vstate (SDB.GetNonce (ref_Address caller)) in
      if u64 (nonce + 1) <? nonce then mret ([], 0, gas, Some ErrNonceUintOverflow)
      else
        vstate (SDB.SetNonce (ref_Address caller) (u64 (nonce + 1))) ;;;
        vstate (SDB.AddAddressToAccessList address) ;;;
        let* contractHash := vstate (SDB.GetCodeHash address) in
        let* addrNonce := vstate (SDB.GetNonce address) in
        if negb (addrNonce =? 0) || (negb (contractHash =? 0) && negb (contractHash =? EmptyCodeHash))
        then mret ([], 0, 0, Some ErrContractAddressCollision)
        else create_checked caller code codeHash gas value address) v.
Proof.
  unfold create. change (mthen mget ?k v) with (k v v). cbn beta. destruct (_ <? _); [done|].
  apply mthen_cong; intros can v1. destruct (negb can); [done|]. apply mthen_cong; intros nonce v2.
  destruct (_ <? _); [done|]. do 2 (apply mthen_cong; intros _ ?). do 2 (apply mthen_cong; intros ? ?).
  destruct (_ || _); [done|]. unfold create_checked. apply mthen_cong; intros id v3. unfold create_body.
  rewrite !mthen_assoc. apply mthen_cong; intros _ ?. rewrite mthen_assoc. apply mthen_cong; intros _ ?.
  rewrite mthen_assoc. apply mthen_cong; intros _ ?. rewrite mthen_assoc. apply mthen_cong; intros c ?.
  rewrite mthen_assoc. apply mthen_cong; intros [[ret err] c'] ?. rewrite mthen_assoc. apply mthen_cong; intros [err' c''] ?.
  unfold create_failed, create_out. cbn. by destruct err' as [[]|].
Qed.

Lemma create_within_gas caller code codeHash gas value address : 0 <= gas < g -> Zlen code < 2 ^ 63 ->
  vq false false (create run caller code codeHash gas value address) (create_within gas).
Proof.
  intros Hgas Hcode v Hv Hb. rewrite create_eq. revert v Hv Hb.
  assert (Hr : forall ret a g' er, 0 <= g' <= gas -> create_within gas (ret, a, g', er)) by done.
  assert (Hd : forall d : bool, vq false false (if d then mret ([], 0, gas, Some ErrDepth) else
    let* can := CanTransfer (ref_Address caller) value in
    if negb can then mret ([], 0, gas, Some ErrInsufficientBalance)
    else
      let* nonce := vstate (SDB.GetNonce (ref_Address caller)) in
      if u64 (nonce + 1) <? nonce then mret ([], 0, gas, Some ErrNonceUintOverflow)
      else
        vstate (SDB.SetNonce (ref_Address caller) (u64 (nonce + 1))) ;;;
        vstate (SDB.AddAddressToAccessList address) ;;;
        let* contractHash := vstate (SDB.GetCodeHash address) in
        let* addrNonce := vstate (SDB.GetNonce address) in
        if negb (addrNonce =? 0) || (negb (contractHash =? 0) && negb (contractHash =? EmptyCodeHash))
        then mret ([], 0, 0, Some ErrContractAddressCollision)
        else create_checked caller code codeHash gas value address) (create_within gas)).
  { intros [|]; [apply vq_ret, Hr; lia|]. eapply (vq_bind _ _ _ _ (fun _ => True)).
    { unfold CanTransfer. eapply vq_bind; [by apply vq_harmless|]. intros. by apply vq_ret. }
    intros [] _; cbn [negb]; [|apply vq_ret, Hr; lia]. eapply vq_bind; [by apply vq_harmless|]. intros nonce _.
    destruct (_ <? _); [apply vq_ret, Hr; lia|]. do 2 (eapply vq_bind; [by apply vq_plain|intros _ _]).
    do 2 (eapply vq_bind; [by apply vq_harmless|intros ? _]). destruct (_ || _); [apply vq_ret, Hr; lia|].
    apply vq_snapshot. eapply vq_weaken; [by apply create_body_within|]. intros [[ret err] c] Hc. cbn in Hc.
    unfold create_out. destruct err as [[]|]; apply Hr; try (destruct (bool_decide _)); lia. }
  intros v Hv Hb. apply (Hd (CallCreateDepth <? vm_depth v) v Hv Hb).
Qed.

Lemma qrvm_Create_within caller code gas value : 0 <= gas < g -> Zlen code < 2 ^ 63 ->
  vq false false (qrvm_Create run caller code gas value) (create_within gas).
Proof.
  intros Hgas Hcode. unfold qrvm_Create. eapply vq_bind; [by apply vq_harmless|]. intros nonce _.
  eapply (vq_bind _ _ _ _ (fun _ => True)); [|intros; by apply create_within_gas].
  apply vq_lift; [|done]. unfold CreateAddress. destruct (Rlp.list_begin Rlp.reset) as [l buf].
  apply obind_fuel; [apply listEnd_fuel|]. intros. apply obind_fuel; [apply makeBytes_fuel|done].
Qed.

Lemma qrvm_Create2_within caller code gas value salt : 0 <= gas < g -> Zlen code < 2 ^ 63 ->
  vq false false (qrvm_Create2 run caller code gas value salt) (create_within gas).
Proof. intros. by apply create_within_gas. Qed.

End Entry.

End Runs.
