(* ===== verification/VMLoop.v ===== *)
(** * Instructions under the interpreter loop

    One turn of the loop, for every entry of the jump table: the gas strictly
    decreases when the loop goes on, the memory stays well-formed and charged
    for, and the machine makes a step. *)

From S2P Require Import Prelude Uint256 Params VMCommon Stack Memory Opcodes Analysis Rlp StateTypes VMInterface Contract GasTable Instructions JumpTable Precompiles Interpreter VMLogic VMHandlers VMGas VMRun.

Section Loop.
Context {S : Type} {SI : StateI S} {L : StateLaws S SI} {U : Uint256} {UT : Uint256Typed U} {C : Crypto} {H : Ssz}.
Context (e : env).

(** ** Memory sizes *)

Definition msize_ok (ms : Stack.t -> outcome (Z * bool)) : Prop :=
  forall st, match ms st with Ret (n, _) => in64 n | Panic => True | OutOfFuel => False end.

Lemma calcMemSize64_in64 a b : in64 (fst (calcMemSize64 a b)).
Proof.
  unfold calcMemSize64, calcMemSize64WithUint. repeat case_match; cbn; auto using u64_in64; unfold in64; lia.
Qed.
Lemma calcMemSize64WithUint_in64 a n : in64 (fst (calcMemSize64WithUint a n)).
Proof. unfold calcMemSize64WithUint. repeat case_match; cbn; auto using u64_in64; unfold in64; lia. Qed.

Lemma Back_cases n st : (exists v, Stack.Back n st = Ret v) \/ Stack.Back n st = Panic.
Proof. unfold Stack.Back, go_index. repeat case_match; eauto. Qed.

Ltac msize := intros st;
  repeat match goal with
  | |- context [Stack.Back ?n ?st] =>
      let v := fresh "v" in let E := fresh "E" in
      destruct (Back_cases n st) as [[v E]|E]; rewrite E; cbn [obind]; [|done]
  | |- context [calcMemSize64 ?a ?b] =>
      let H := fresh "H" in pose proof (calcMemSize64_in64 a b) as H; destruct (calcMemSize64 a b); cbn [fst] in H
  | |- context [calcMemSize64WithUint ?a ?b] =>
      let H := fresh "H" in pose proof (calcMemSize64WithUint_in64 a b) as H; destruct (calcMemSize64WithUint a b); cbn [fst] in H
  | |- context [if ?b then _ else _] => destruct b
  | |- in64 0 => unfold in64; lia
  | |- in64 _ => assumption
  end.

Lemma memoryKeccak256_ok : msize_ok memoryKeccak256. Proof. unfold memoryKeccak256. msize. Qed.
Lemma memoryCallDataCopy_ok : msize_ok memoryCallDataCopy. Proof. unfold memoryCallDataCopy. msize. Qed.
Lemma memoryReturnDataCopy_ok : msize_ok memoryReturnDataCopy. Proof. unfold memoryReturnDataCopy. msize. Qed.
Lemma memoryCodeCopy_ok : msize_ok memoryCodeCopy. Proof. unfold memoryCodeCopy. msize. Qed.
Lemma memoryExtCodeCopy_ok : msize_ok memoryExtCodeCopy. Proof. unfold memoryExtCodeCopy. msize. Qed.
Lemma memoryMLoad_ok : msize_ok memoryMLoad. Proof. unfold memoryMLoad. msize. Qed.
Lemma memoryMStore8_ok : msize_ok memoryMStore8. Proof. unfold memoryMStore8. msize. Qed.
Lemma memoryMStore_ok : msize_ok memoryMStore. Proof. unfold memoryMStore. msize. Qed.
Lemma memoryCreate_ok : msize_ok memoryCreate. Proof. unfold memoryCreate. msize. Qed.
Lemma memoryCreate2_ok : msize_ok memoryCreate2. Proof. unfold memoryCreate2. msize. Qed.
Lemma memoryReturn_ok : msize_ok memoryReturn. Proof. unfold memoryReturn. msize. Qed.
Lemma memoryRevert_ok : msize_ok memoryRevert. Proof. unfold memoryRevert. msize. Qed.
Lemma memoryLog_ok : msize_ok memoryLog. Proof. unfold memoryLog. msize. Qed.
Lemma memoryCall_ok : msize_ok memoryCall. Proof. unfold memoryCall. msize. Qed.
Lemma memoryDelegateCall_ok : msize_ok memoryDelegateCall. Proof. unfold memoryDelegateCall. msize. Qed.
Lemma memoryStaticCall_ok : msize_ok memoryStaticCall. Proof. unfold memoryStaticCall. msize. Qed.

(** ** Charging *)

(** The part of [charge_dynamic] after the memory size is known. *)
Definition pay (cost memorySize : Z) : M (frame S) (option vm_error) :=
  let* ok := use_gas cost in
  if negb ok then mret (Some ErrOutOfGas)
  else
    (if 0 <? memorySize then set_memory (fun m => Ret (Memory.Resize memorySize m)) else mret tt) ;;;
    mret None.
Definition charge_sized (dg : gasFunc (S:=S)) (memorySize : Z) : M (frame S) (option vm_error) :=
  let* (dynamicCost, err) := dg memorySize in
  match err with
  | Some _ => mret (Some ErrOutOfGas)
  | None => pay dynamicCost memorySize
  end.

Lemma toWordSize_words n : in64 n -> forall r, SafeMul (toWordSize n) 32 = (r, false) -> words_size r.
Proof.
  intros Hn r Hr. destruct (SafeMul_false (toWordSize n) 32 r (toWordSize_in64 n Hn) ltac:(unfold in64; lia) Hr) as [-> Hin].
  split; [done|]. apply Z.mod_mul. lia.
Qed.

Lemma charge_shape (o : operation) dg (f : frame S) : dynamicGas o = Some dg ->
  (forall ms, memorySize o = Some ms -> msize_ok ms) ->
  charge_dynamic o f = Panic \/ (exists er, charge_dynamic o f = Ret (Some er, f)) \/
  exists sz, words_size sz /\ (memorySize o = None -> sz = 0) /\ charge_dynamic o f = charge_sized dg sz f.
Proof.
  intros Hd Hm. unfold charge_dynamic. rewrite Hd. change (mthen mget ?k f) with (k f f). cbn beta.
  destruct (memorySize o) as [ms|].
  - specialize (Hm ms eq_refl (f_Stack f)). unfold mthen, mlift. destruct (ms (f_Stack f)) as [[n [|]]| |]; cbn [obind fst snd]; [|  |auto|done].
    + right; left. by eexists.
    + destruct (SafeMul (toWordSize n) 32) as [r [|]] eqn:Hr; cbn; [right; left; by eexists|].
      right; right. exists r. split_and!; [by eapply toWordSize_words|done|done].
  - right; right. exists 0. split_and!; [by split; [unfold in64; lia|]|done|done].
Qed.

(** The state after a successful charge: the gas paid covers [lo] and what the
    callee will be given, [bonus]; the memory is charged for and resized. *)
Record charged (bonus : frame S -> Z) (lo : Z) (f f' : frame S) : Prop := {
  ch_vm : vm_step true (f_vm f) (f_vm f');
  ch_contract : f_Contract f' = with_c_Gas (c_Gas (f_Contract f')) (f_Contract f);
  ch_gas : 0 <= c_Gas (f_Contract f');
  ch_bonus : 0 <= bonus f';
  ch_paid : c_Gas (f_Contract f') + bonus f' + lo <= c_Gas (f_Contract f);
  ch_mem : mem_wf (f_Memory f')
}.

Definition charge_post (bonus : frame S -> Z) (lo : Z) (f : frame S) (r : outcome (option vm_error * frame S)) : Prop :=
  match r with
  | Ret (None, f') => charged bonus lo f f'
  | Ret (Some _, f') => estep f f'
  | Panic => True
  | OutOfFuel => False
  end.

Definition no_bonus : frame S -> Z := fun _ => 0.

(** What the callee of a call gets: its gas and, with a value, the stipend. *)
Definition call_bonus (val : frame S -> bool) (f : frame S) : Z :=
  vm_callGasTemp (f_vm f) + (if val f then CallStipend else 0).

(** From the gas function's result to the resized memory. *)
Lemma pay_and_resize bonus lo sz cost f f1 : in64 (c_Gas (f_Contract f)) -> mem_wf (f_Memory f) -> words_size sz ->
  gstep f f1 -> f_Memory f1 = snd (memoryGasCost sz (f_Memory f)) -> snd (fst (memoryGasCost sz (f_Memory f))) = None ->
  (forall f', f_vm f' = f_vm f1 -> f_Stack f' = f_Stack f1 -> bonus f' = bonus f1) ->
  0 <= lo -> 0 <= bonus f1 -> bonus f1 + lo <= cost -> charge_post bonus lo f (pay cost sz f1).
Proof.
  intros Hg Hwf Hsz [V1 C1 S1 P1] Hm He Hb Hlo Hb1 Hc. unfold pay. rewrite mthen_run, use_gas_run, C1. unfold in64 in Hg.
  destruct (Z.ltb_spec (c_Gas (f_Contract f)) cost); cbn [obind fst snd negb].
  { cbn. split; rewrite ?C1; auto; [by destruct (f_Contract f)|lia]. }
  pose proof (mem_wf_resize sz (f_Memory f) Hwf Hsz He) as Hwf'. cbn zeta in Hwf'. rewrite <- Hm in Hwf'.
  destruct (0 <? sz); cbn; split; cbn; rewrite ?Hb by done; auto; lia.
Qed.

(** Any operation whose gas function has the given postcondition. *)
Lemma charge_with bonus lo (o : operation) dg f : dynamicGas o = Some dg ->
  (forall ms, memorySize o = Some ms -> msize_ok ms) ->
  in64 (c_Gas (f_Contract f)) -> fgood f ->
  (forall sz, words_size sz -> (memorySize o = None -> sz = 0) -> charge_post bonus lo f (charge_sized dg sz f)) ->
  charge_post bonus lo f (charge_dynamic o f).
Proof.
  intros Hd Hm Hg Hf Hdg. destruct (charge_shape o dg f Hd Hm) as [-> |[[er ->]|(sz & Hsz & Hz & ->)]]; [done| |auto].
  cbn. apply gstep_estep; [done|by apply gstep_refl].
Qed.

Lemma charge_gasfun lo (o : operation) dg f : dynamicGas o = Some dg -> 0 <= lo ->
  (forall ms, memorySize o = Some ms -> msize_ok ms) ->
  (forall sz, (memorySize o = None -> sz = 0) -> gasfun lo sz (dg sz)) ->
  fgood f -> mem_wf (f_Memory f) -> in64 (c_Gas (f_Contract f)) -> charge_post no_bonus lo f (charge_dynamic o f).
Proof.
  intros Hd Hlo Hm Hdg Hf Hwf Hg. apply (charge_with _ _ o dg); auto. intros sz Hsz Hz.
  specialize (Hdg sz Hz f Hf Hwf Hsz). unfold charge_sized. rewrite mthen_run.
  destruct (dg sz f) as [[[cost [er|]] f1]| |]; cbn [obind fst snd]; [|  |done|done].
  - cbn. apply gstep_estep; [done|apply Hdg].
  - destruct Hdg as (Hs & [Hc1 Hc2] & Hmem). destruct (Hmem eq_refl) as [Hm1 Hm2].
    apply pay_and_resize; auto; unfold no_bonus; cbn in *; lia.
Qed.

Lemma charge_call val (o : operation) dg f : dynamicGas o = Some dg ->
  (forall ms, memorySize o = Some ms -> msize_ok ms) ->
  (forall f f', f_Stack f' = f_Stack f -> val f' = val f) ->
  (forall sz, callcost val sz (dg sz)) ->
  fgood f -> mem_wf (f_Memory f) -> in64 (c_Gas (f_Contract f)) ->
  charge_post (call_bonus val) 0 f (charge_dynamic o f).
Proof.
  intros Hd Hm Hval Hdg Hf Hwf Hg. apply (charge_with _ _ o dg); auto. intros sz Hsz _.
  specialize (Hdg sz f Hf Hwf Hsz Hg). unfold charge_sized. rewrite mthen_run.
  destruct (dg sz f) as [[[cost [er|]] f1]| |]; cbn [obind fst snd]; [done|  |done|done].
  destruct Hdg as (Hs & Hm1 & Hm2 & Ht & Hc). pose proof (Hval f f1 (gs_stack _ _ Hs)) as Hv.
  apply pay_and_resize; auto; unfold call_bonus; [by intros f' -> Hs'; rewrite (Hval _ _ Hs')|lia| |];
    rewrite Hv; revert Hc; unfold_params; destruct (val f); lia.
Qed.

(** ** One turn *)

(** From the frame before a turn to the frame after it, [bonus] more gas at most. *)
Record rstep (bonus : Z) (f f' : frame S) : Prop := {
  rs_vm : vm_step (vm_readOnly (f_vm f)) (f_vm f) (f_vm f');
  rs_code : c_Code (f_Contract f') = c_Code (f_Contract f);
  rs_gas : 0 <= c_Gas (f_Contract f') <= c_Gas (f_Contract f) + bonus
}.

Lemma vm_step_any ro (v v' : QRVM S) : vm_step true v v' -> vm_step ro v v'.
Proof. intros []. split; auto. Qed.

Lemma rstep_refl f : vgood (f_vm f) -> in64 (c_Gas (f_Contract f)) -> rstep 0 f f.
Proof. intros ? Hg. unfold in64 in Hg. split; [by apply vm_step_refl|done|lia]. Qed.

Lemma rstep_trans b b' f1 f2 f3 : rstep b f1 f2 -> rstep b' f2 f3 -> rstep (b + b') f1 f3.
Proof.
  intros [V1 C1 G1] [V2 C2 G2]. rewrite (vs_readOnly _ _ _ V1) in V2.
  split; [by eapply vm_step_trans|congruence|lia].
Qed.

Lemma rstep_le b b' f f' : rstep b f f' -> c_Gas (f_Contract f') <= c_Gas (f_Contract f) + b' -> rstep b' f f'.
Proof. intros [] ?. split; auto. lia. Qed.

Lemma rstep_good b f f' : fgood f -> rstep b f f' -> fgood f'.
Proof. intros [_ Hc] [[]Hc' _]. split; [done|by rewrite Hc']. Qed.

Lemma estep_rstep f f' : estep f f' -> rstep 0 f f'.
Proof. intros [Hv Hc Hg]. split; [by apply vm_step_any|by rewrite Hc|lia]. Qed.

Lemma charged_rstep bonus lo f f' : 0 <= lo -> charged bonus lo f f' -> rstep 0 f f'.
Proof. intros ? [Hv Hc ????]. split; [by apply vm_step_any|by rewrite Hc|lia]. Qed.

(** The result of a turn: it stops, or goes on with less gas. *)
Definition turn_ok (f : frame S) (r : outcome (option (list Z * option vm_error) * frame S)) : Prop :=
  match r with
  | Ret (None, f') => rstep (-1) f f' /\ mem_wf (f_Memory f')
  | Ret (Some _, f') => rstep 0 f f'
  | Panic => True
  | OutOfFuel => False
  end.

(** The result of a handler. *)
Definition exec_post (bonus : Z) (f : frame S) (r : outcome (list Z * option vm_error * frame S)) : Prop :=
  match r with
  | Ret (_, f') => rstep bonus f f' /\ mem_wf (f_Memory f')
  | Panic => True
  | OutOfFuel => False
  end.

Definition ready (f : frame S) : Prop := fgood f /\ mem_wf (f_Memory f) /\ in64 (c_Gas (f_Contract f)).

(** A handler that may return gas up to its bonus, run with less than [g] gas. *)
Definition exec_ok (g : Z) (bonus : frame S -> Z) (m : executionFunc (S:=S)) : Prop :=
  forall f, ready f -> 0 <= bonus f -> c_Gas (f_Contract f) + bonus f < Z.min g (2 ^ 64) -> exec_post (bonus f) f (m f).

(** The part of a turn after the checks on the stack. *)
Definition op_body (o : operation) : M (frame S) (option (list Z * option vm_error)) :=
  let* ok := use_gas (constantGas o) in
  if negb ok then mret (Some ([], Some ErrOutOfGas))
  else
    let* err := charge_dynamic o in
    match err with
    | Some err => mret (Some ([], Some err))
    | None =>
        let* (res, err) := execute o in
        match err with
        | Some err => mret (Some (res, Some err))
        | None => mmodify (fun f => with_f_pc (u64 (f_pc f + 1)) f) ;;; mret None
        end
    end.

Definition op_ok (g : Z) (o : operation) : Prop :=
  forall f, ready f -> c_Gas (f_Contract f) <= g -> turn_ok f (op_body o f).

(** The charge of an operation. *)
Definition charge_ok (bonus : frame S -> Z) (lo : Z) (o : operation) : Prop :=
  forall f, ready f -> charge_post bonus lo f (charge_dynamic o f).

(** After the constant gas and the dynamic charge. *)
Lemma op_charged bonus lo o f (Q : outcome (option (list Z * option vm_error) * frame S) -> Prop) :
  ready f -> 0 <= constantGas o -> 0 <= lo -> charge_ok bonus lo o -> Q Panic ->
  (forall r f', rstep 0 f f' -> Q (Ret (Some r, f'))) ->
  (forall f', rstep 0 f f' -> ready f' -> 0 <= bonus f' ->
    c_Gas (f_Contract f') + bonus f' + (constantGas o + lo) <= c_Gas (f_Contract f) ->
    Q ((let* (res, err) := execute o in
        match err with
        | Some err => mret (Some (res, Some err))
        | None => mmodify (fun f => with_f_pc (u64 (f_pc f + 1)) f) ;;; mret None
        end) f')) -> Q (op_body o f).
Proof.
  intros (Hf & Hwf & Hg) Hc Hlo Hch HP HE HQ. unfold op_body. rewrite mthen_run, use_gas_run.
  destruct (Z.ltb_spec (c_Gas (f_Contract f)) (constantGas o)); cbn [obind fst snd negb].
  { apply HE, rstep_refl; [apply Hf|done]. }
  set (f1 := with_f_Contract _ f). unfold in64 in Hg.
  assert (H1 : rstep 0 f f1) by (split; cbn; [apply vm_step_refl, Hf|done|lia]).
  assert (R1 : ready f1) by (split_and!; [by eapply rstep_good|done|unfold in64; cbn; lia]).
  rewrite mthen_run. specialize (Hch f1 R1). destruct (charge_dynamic o f1) as [[[er|] f2]| |]; cbn [obind fst snd]; [| |done|done].
  - apply HE. apply (rstep_trans 0 0 _ _ _ H1), estep_rstep, Hch.
  - pose proof (rstep_trans 0 0 _ _ _ H1 (charged_rstep _ _ _ _ Hlo Hch)) as H2. destruct Hch as [V2 C2 G2 B2 P2 M2].
    apply HQ; [done| |done|cbn in P2; lia].
    split_and!; [by eapply rstep_good|done|]. destruct H2 as [_ _ H2]. unfold in64. lia.
Qed.

(** An operation that pays something and whose handler keeps to its bonus. *)
Lemma op_pays g bonus lo o : 0 <= constantGas o -> 0 <= lo -> 1 <= constantGas o + lo ->
  charge_ok bonus lo o -> exec_ok g bonus (execute o) -> op_ok g o.
Proof.
  intros Hc Hlo H1 Hch Hex f Hr Hg. apply (op_charged bonus lo o f (turn_ok f)); try done. intros f' Hs Hr' Hb Hp. rewrite mthen_run.
  specialize (Hex f' Hr' Hb). destruct Hr as (_ & _ & Hin). unfold in64 in Hin. specialize (Hex ltac:(lia)).
  destruct (execute o f') as [[[res [er|]] f2]| |]; cbn [obind fst snd mret]; [| |done|done].
  - destruct Hex as [H2 _]. eapply rstep_le; [by eapply rstep_trans|]. destruct H2. lia.
  - destruct Hex as [H2 Hwf]. cbn. split; [|done].
    destruct (rstep_trans _ _ _ _ _ Hs H2) as [V C' G]. split; cbn; auto. destruct H2. lia.
Qed.

(** An operation that stops the loop need not pay. *)
Lemma op_halts g o : 0 <= constantGas o -> charge_ok no_bonus 0 o -> quietly true (execute o) ->
  (forall f, match execute o f with Ret ((_, None), _) => False | _ => True end) -> op_ok g o.
Proof.
  intros Hc Hch Hq Hh f Hr Hg. apply (op_charged no_bonus 0 o f (turn_ok f)); try done. intros f' Hs Hr' _ _. rewrite mthen_run.
  specialize (Hq f' (proj1 Hr') ltac:(auto)). specialize (Hh f').
  destruct (execute o f') as [[[res [er|]] f2]| |]; cbn [obind fst snd mret]; [|done|done|done].
  cbn. destruct Hq as [V C' _ _], Hs as [V1 C1 G1]. split; [|by rewrite C', <- C1|rewrite C'; cbn; lia].
  eapply vm_step_trans; [done|by apply vm_step_any].
Qed.

End Loop.
