(* ===== verification/VMTurn.v ===== *)
(** * Handlers in the loop

    What every handler of the jump table does to the frame it runs on, the
    instructions that call or create other contracts included: [exec_ok] of
    VMLoop.  The entry points are those of a runner that satisfies [run_ok]. *)

From S2P Require Import Prelude Uint256 Params VMCommon Stack Memory Opcodes Analysis Rlp StateTypes VMInterface Contract GasTable Instructions JumpTable Precompiles Interpreter VMLogic VMHandlers VMGas VMRun VMLoop.

Section Turn.
Context {S : Type} {SI : StateI S} {L : StateLaws S SI} {U : Uint256} {UT : Uint256Typed U} {C : Crypto} {H : Ssz}.
Context (e : env).

(** ** Sequencing handlers *)

Definition rpost {A} (b : Z) (f : frame S) (r : outcome (A * frame S)) : Prop :=
  match r with
  | Ret (_, f') => rstep b f f' /\ mem_wf (f_Memory f')
  | Panic => True
  | OutOfFuel => False
  end.

Lemma mem_wf_same m m' : Memory.Len m' = Memory.Len m -> Memory.lastGasCost m' = Memory.lastGasCost m -> mem_wf m -> mem_wf m'.
Proof. unfold mem_wf. by intros -> ->. Qed.

Lemma fr_step_rstep f f' : in64 (c_Gas (f_Contract f)) -> fr_step (vm_readOnly (f_vm f)) f f' -> rstep 0 f f'.
Proof. intros Hg [V Hc _ _]. unfold in64 in Hg. split; [done|by rewrite Hc|rewrite Hc; cbn; lia]. Qed.

Lemma rpost_quiet {A} (m : M (frame S) A) f : quietly (vm_readOnly (f_vm f)) m -> ready f -> rpost 0 f (m f).
Proof.
  intros Hq (Hf & Hm & Hg). specialize (Hq f Hf id). destruct (m f) as [[a f']| |]; [|done|done].
  split; [by apply fr_step_rstep|]. destruct Hq. by eapply mem_wf_same.
Qed.

Lemma rpost_bind {A B} b b' (m : M (frame S) A) (k : A -> M (frame S) B) f :
  ready f -> c_Gas (f_Contract f) + b < 2 ^ 64 -> rpost b f (m f) ->
  (forall a f', m f = Ret (a, f') -> rstep b f f' -> ready f' -> rpost b' f' (k a f')) -> rpost (b + b') f (mthen m k f).
Proof.
  intros Hr Hb Hm Hk. rewrite mthen_run. destruct (m f) as [[a f']| |]; cbn [obind fst snd]; [|done|done].
  destruct Hm as [H1 M1]. assert (Hr' : ready f').
  { split_and!; [eapply rstep_good; [apply Hr|done]|done|]. destruct H1. unfold in64. lia. }
  specialize (Hk a f' eq_refl H1 Hr'). destruct (k a f') as [[c f2]| |]; cbn; [|done|done].
  destruct Hk. split; [by eapply rstep_trans|done].
Qed.

Lemma rpost_pre {A} b b' f f' (r : outcome (A * frame S)) : rstep b f f' -> rpost b' f' r -> rpost (b + b') f r.
Proof. intros Hs Hr. destruct r as [[a f2]| |]; [|done|done]. destruct Hr. split; [by eapply rstep_trans|done]. Qed.

(** A quiet step first. *)
Lemma rpost_then {A B} b (m : M (frame S) A) (k : A -> M (frame S) B) f :
  ready f -> quietly (vm_readOnly (f_vm f)) m ->
  (forall a f', m f = Ret (a, f') -> rstep 0 f f' -> ready f' -> rpost b f' (k a f')) -> rpost b f (mthen m k f).
Proof.
  intros Hr Hq Hk. apply (rpost_bind 0 b); [done| |by apply rpost_quiet|done].
  destruct Hr as (_ & _ & Hr). unfold in64 in Hr. lia.
Qed.

(** ** Handlers that do not call *)

Lemma exec_quiet g (m : executionFunc (S:=S)) : (forall ro, quietly ro m) -> exec_ok g no_bonus m.
Proof. intros Hq f Hr _ _. by apply (rpost_quiet m). Qed.

(** A handler that refuses to work in a read-only machine. *)
Lemma exec_guarded g (k : frame S -> executionFunc (S:=S)) : (forall f, quietly false (k f)) ->
  exec_ok g no_bonus (let* f := mget in if vm_readOnly (f_vm f) then fail ErrWriteProtection else k f).
Proof.
  intros Hk f Hr _ _. change (mthen mget ?k f) with (k f f). cbn beta.
  destruct (vm_readOnly (f_vm f)) eqn:Hro; apply (rpost_quiet _ f); auto; rewrite Hro; [apply quietly_ret|apply Hk].
Qed.

Lemma q_pop_topics ro n : quietly ro (pop_topics n : M (frame S) (list Z)).
Proof. induction n; cbn [pop_topics]; quiet. Qed.

Lemma exec_Sstore g : exec_ok g no_bonus (opSstore : executionFunc (S:=S)).
Proof. apply (exec_guarded g). quiet. Qed.
Lemma exec_Log g n : exec_ok g no_bonus (makeLog e n : executionFunc (S:=S)).
Proof. apply (exec_guarded g). pose proof (q_pop_topics false). quiet. Qed.

(** ** Calls *)

Context (g : Z) (run : runner) (Hrun : run_ok g run).

(** A call of the machine from a frame. *)
Lemma rpost_on_vm {A} b (m : M (QRVM S) A) (Q : A -> Prop) f : vq (vm_readOnly (f_vm f)) (vm_readOnly (f_vm f)) m Q ->
  ready f -> 0 <= b -> rpost b f (on_vm m f) /\ (forall a f', on_vm m f = Ret (a, f') -> Q a /\ c_Gas (f_Contract f') = c_Gas (f_Contract f)).
Proof.
  intros Hm (Hf & Hwf & Hg) Hb. specialize (Hm (f_vm f) (fg_vm _ Hf) eq_refl). unfold on_vm, in64 in *.
  destruct (m (f_vm f)) as [[a v']| |]; cbn; [|done|done]. destruct Hm as [Hv HQ].
  split; [split; [|done]; split; cbn; auto; lia|]. by intros ? ? [= <- <-].
Qed.

Lemma return_gas_ok rg f : ready f -> 0 <= rg -> c_Gas (f_Contract f) + rg < 2 ^ 64 -> rpost rg f (return_gas rg f).
Proof.
  intros (Hf & Hwf & Hg) H0 Hb. unfold return_gas, mmodify. unfold in64 in Hg. split; [|done].
  split; cbn; [apply vm_step_refl, Hf|done|]. rewrite u64_small by (unfold in64; lia). lia.
Qed.

Lemma finish_call_ok ro rs r b f : ready f -> gas_within b r -> c_Gas (f_Contract f) + b < 2 ^ 64 ->
  rpost b f (finish_call ro rs r f).
Proof.
  intros Hr Hb Hlt. destruct r as [[ret rg] err]. unfold gas_within in Hb; cbn in Hb. unfold finish_call.
  apply rpost_then; [done|quiet|]. intros [] f1 _ H1 R1. apply rpost_then; [done|quiet|]. intros [] f2 _ H2 R2.
  assert (Hg2 : c_Gas (f_Contract f2) + rg < 2 ^ 64) by (destruct H1, H2; lia).
  replace b with (rg + (b - rg)) by lia.
  apply rpost_bind; [done|done|by apply return_gas_ok; [done|lia|]|]. intros [] f3 _ H3 R3.
  apply rpost_then; [done|quiet|]. intros [] f4 _ H4 R4. split; [|apply R4].
  eapply rstep_le; [apply rstep_refl; [apply R4|apply R4]|lia].
Qed.

(** A call followed by its end. *)
Lemma call_and_finish (m : M (QRVM S) (list Z * Z * option vm_error)) ro rs b f :
  vq (vm_readOnly (f_vm f)) (vm_readOnly (f_vm f)) m (gas_within b) -> ready f -> 0 <= b ->
  c_Gas (f_Contract f) + b < 2 ^ 64 -> rpost b f ((let* r := on_vm m in finish_call ro rs r) f).
Proof.
  intros Hm Hr Hb Hlt. destruct (rpost_on_vm 0 m _ f Hm Hr ltac:(lia)) as [H1 H2].
  apply (rpost_bind 0 b); [done|lia|done|]. intros r f' E Hs Hr'. destruct (H2 _ _ E) as [HQ Hgas].
  apply finish_call_ok; [done|done|lia].
Qed.

Lemma pop_cases (f : frame S) :
  (f_Stack f = [] /\ pop f = Panic) \/ exists x st, f_Stack f = x :: st /\ pop f = Ret (x, with_f_Stack st f).
Proof. unfold pop, on_stack. destruct (f_Stack f) as [|x st]; cbn; eauto 6. Qed.

Lemma ready_stack (f : frame S) st : ready f -> ready (with_f_Stack st f).
Proof. by intros ([] & ? & ?). Qed.

Tactic Notation "pop1" ident(x) :=
  rewrite mthen_run;
  match goal with
  | |- context [pop ?f] =>
      let st := fresh "st" in let Hst := fresh "Hst" in let E := fresh "E" in
      destruct (pop_cases f) as [[_ E]|(x & st & Hst & E)]; rewrite E; cbn [obind fst snd]; [done|];
      cbn [f_Stack with_f_Stack] in Hst; clear E
  end.

Lemma rpost_stack {A} b (f : frame S) st (r : outcome (A * frame S)) : rpost b (with_f_Stack st f) r -> rpost b f r.
Proof. destruct r as [[a f']| |]; [|done|done]. intros [[] ?]. by split. Qed.

(** The guard of a call with a value, and what it leaves. *)
Lemma value_guard (f : frame S) (value : Z) : vm_readOnly (f_vm f) && negb (u_IsZero value) = false ->
  vm_readOnly (f_vm f) = true -> (if negb (u_IsZero value) then u_ToBig value else 0) = 0.
Proof. intros Hg Hr. rewrite Hr in Hg. cbn in Hg. by rewrite Hg. Qed.

Lemma exec_Call : exec_ok g (call_bonus valued) (opCall (entry run)).
Proof.
  intros f Hr Hb0 Hlt. unfold opCall. pop1 x0. change (mthen mget ?k ?f) with (k f f). cbn beta.
  cbn [f_vm f_Memory f_Contract with_f_Stack]. pop1 addr. pop1 value. pop1 inOffset. pop1 inSize. pop1 retOffset. pop1 retSize.
  assert (Hval : valued f = negb (u_IsZero value)) by (unfold valued; by rewrite Hst, Hst0, Hst1).
  rewrite mthen_run. unfold mlift. pose proof (GetPtr_fuel (int64_of (u_Uint64 inOffset)) (int64_of (u_Uint64 inSize)) (f_Memory f)).
  destruct (Memory.GetPtr _ _ _) as [args| |]; cbn [obind fst snd]; [|done|done].
  apply (rpost_stack (call_bonus valued f) f st5). change (with_f_Stack st5 _) with (with_f_Stack st5 f).
  pose proof (ready_stack f st5 Hr) as Hr'. set (f' := with_f_Stack st5 f) in *.
  destruct (_ && _) eqn:Hguard.
  { replace (call_bonus valued f) with (0 + call_bonus valued f) by lia. split; [|apply Hr'].
    eapply rstep_le; [apply rstep_refl; apply Hr'|lia]. }
  cbv zeta. unfold call_bonus in *. rewrite Hval in *. destruct Hr as (_ & _ & Hin). unfold in64 in Hin.
  apply call_and_finish; [|done|done|cbn; lia]. cbn [entry Call].
  assert (Hgas : (if negb (u_IsZero value) then u64 (vm_callGasTemp (f_vm f) + CallStipend) else vm_callGasTemp (f_vm f)) =
    vm_callGasTemp (f_vm f) + (if negb (u_IsZero value) then CallStipend else 0)).
  { destruct (negb _); [apply u64_small; unfold in64|]; lia. }
  rewrite Hgas. apply (qrvm_Call_within g run Hrun); [lia|]. by apply value_guard.
Qed.

Lemma call_bonus_plain (f : frame S) : call_bonus (fun _ => false) f = vm_callGasTemp (f_vm f).
Proof. apply Z.add_0_r. Qed.

Lemma exec_DelegateCall : exec_ok g (call_bonus (fun _ => false)) (opDelegateCall (entry run)).
Proof.
  intros f Hr Hb0 Hlt. unfold opDelegateCall. pop1 x0. change (mthen mget ?k ?f) with (k f f). cbn beta.
  cbn [f_vm f_Memory f_Contract with_f_Stack]. pop1 addr. pop1 inOffset. pop1 inSize. pop1 retOffset. pop1 retSize.
  rewrite mthen_run. unfold mlift. pose proof (GetPtr_fuel (int64_of (u_Uint64 inOffset)) (int64_of (u_Uint64 inSize)) (f_Memory f)).
  destruct (Memory.GetPtr _ _ _) as [args| |]; cbn [obind fst snd]; [|done|done].
  apply (rpost_stack _ f st4). change (with_f_Stack st4 _) with (with_f_Stack st4 f).
  pose proof (ready_stack f st4 Hr) as Hr'. rewrite call_bonus_plain in *. destruct Hr as (Hf & Hm & Hin). unfold in64 in Hin.
  apply call_and_finish; [|done|done|cbn; lia]. cbn [entry DelegateCall].
  apply (qrvm_DelegateCall_within g run Hrun). lia.
Qed.

Lemma exec_StaticCall : exec_ok g (call_bonus (fun _ => false)) (opStaticCall (entry run)).
Proof.
  intros f Hr Hb0 Hlt. unfold opStaticCall. pop1 x0. change (mthen mget ?k ?f) with (k f f). cbn beta.
  cbn [f_vm f_Memory f_Contract with_f_Stack]. pop1 addr. pop1 inOffset. pop1 inSize. pop1 retOffset. pop1 retSize.
  rewrite mthen_run. unfold mlift. pose proof (GetPtr_fuel (int64_of (u_Uint64 inOffset)) (int64_of (u_Uint64 inSize)) (f_Memory f)).
  destruct (Memory.GetPtr _ _ _) as [args| |]; cbn [obind fst snd]; [|done|done].
  apply (rpost_stack _ f st4). change (with_f_Stack st4 _) with (with_f_Stack st4 f).
  pose proof (ready_stack f st4 Hr) as Hr'. rewrite call_bonus_plain in *. destruct Hr as (Hf & Hm & Hin). unfold in64 in Hin.
  apply call_and_finish; [|done|done|cbn; lia]. cbn [entry StaticCall].
  eapply vq_any, (qrvm_StaticCall_within g run Hrun). lia.
Qed.

(** ** Creations *)

Lemma GetCopy_length off size m d : mem_wf m -> Memory.GetCopy off size m = Ret d -> Zlen d < 2 ^ 63.
Proof.
  intros (_ & Hl & _) Hd. unfold Memory.GetCopy in Hd. destruct (size =? 0); [by injection Hd as <-|].
  destruct (off <? Memory.Len m); [|by injection Hd as <-]. destruct (Z.ltb_spec size 0); [done|].
  destruct (go_slice _ _ _) eqn:Hs; cbn in Hd; [|done|done]. injection Hd as <-. unfold go_slice in Hs.
  case_match; [|done]. unfold Zlen, Memory.Len in *. rewrite length_go_copy_at, length_replicate.
  unfold Zlen in *. lia.
Qed.

(** A creation and its end, from a frame that has set the callee's gas aside. *)
Definition after_create (r : list Z * Z * Z * option vm_error) : executionFunc (S:=S) :=
  let '(res, addr, returnGas, suberr) := r in
  push (match suberr with Some _ => 0 | None => u_SetBytes (AddressBytes addr) end) ;;;
  return_gas returnGas ;;;
  if bool_decide (suberr = Some ErrExecutionReverted)
  then set_returnData res ;;; mret (res, None)
  else set_returnData [] ;;; done_ok.

Lemma after_create_ok r b f : ready f -> create_within b r -> c_Gas (f_Contract f) + b < 2 ^ 64 -> rpost b f (after_create r f).
Proof.
  intros Hr Hb Hlt. destruct r as [[[res addr] rg] err]. unfold create_within in Hb; cbn in Hb. unfold after_create.
  apply rpost_then; [done|quiet|]. intros [] f1 _ H1 R1.
  assert (Hg2 : c_Gas (f_Contract f1) + rg < 2 ^ 64) by (destruct H1; lia).
  replace b with (rg + (b - rg)) by lia.
  apply rpost_bind; [done|done|by apply return_gas_ok; [done|lia|]|]. intros [] f3 _ H3 R3.
  destruct (bool_decide _); (apply rpost_then; [done|quiet|]; intros [] f4 _ H4 R4; split; [|apply R4];
    eapply rstep_le; [apply rstep_refl; [apply R4|apply R4]|lia]).
Qed.

Lemma create_and_finish (m : M (QRVM S) (list Z * Z * Z * option vm_error)) gas f :
  vq false false m (create_within gas) -> vm_readOnly (f_vm f) = false -> ready f ->
  0 <= gas <= c_Gas (f_Contract f) ->
  rpost 0 f ((use_gas gas ;;; let* r := on_vm m in after_create r) f).
Proof.
  intros Hm Hro Hr Hg. rewrite mthen_run, use_gas_run. destruct (Z.ltb_spec (c_Gas (f_Contract f)) gas); [lia|].
  cbn [obind fst snd]. set (f1 := with_f_Contract _ f). destruct Hr as (Hf & Hwf & Hin). unfold in64 in Hin.
  assert (H1 : rstep (- gas) f f1) by (split; cbn; [apply vm_step_refl, Hf|done|lia]).
  assert (R1 : ready f1) by (split_and!; [by eapply rstep_good|done|unfold in64; cbn; lia]).
  rewrite <- Hro in Hm. destruct (rpost_on_vm 0 m _ f1 Hm R1 ltac:(lia)) as [P1 Q1].
  assert (P : rpost gas f1 ((let* r := on_vm m in after_create r) f1)).
  { apply (rpost_bind 0 gas); [done|cbn; lia|done|]. intros r f2 E Hs R2. destruct (Q1 _ _ E) as [HQ Hgas].
    apply after_create_ok; [done|done|]. rewrite Hgas. cbn. lia. }
  replace 0 with (- gas + gas) by lia. by apply (rpost_pre _ _ f f1).
Qed.

Lemma entry_create_input (f : frame S) off size : ready f ->
  (exists input, Memory.GetCopy off size (f_Memory f) = Ret input /\ Zlen input < 2 ^ 63) \/
  Memory.GetCopy off size (f_Memory f) = Panic.
Proof.
  intros (_ & Hwf & _). pose proof (GetCopy_fuel off size (f_Memory f)).
  destruct (Memory.GetCopy _ _ _) as [d| |] eqn:Hd; [left|by right|done]. exists d. split; [done|by eapply GetCopy_length].
Qed.

Lemma exec_Create : exec_ok g no_bonus (opCreate (entry run)).
Proof.
  intros f Hr _ Hlt. unfold opCreate. change (mthen mget ?k ?f) with (k f f). cbn beta.
  destruct (vm_readOnly (f_vm f)) eqn:Hro.
  { apply (rpost_quiet _ f); [|done]. apply quietly_ret. }
  pop1 value. pop1 offset. pop1 size. rewrite mthen_run. unfold mlift.
  destruct (entry_create_input f (int64_of (u_Uint64 offset)) (int64_of (u_Uint64 size)) Hr) as [(input & -> & Hin)| ->]; [|done].
  cbn [obind fst snd]. apply (rpost_stack _ f st1). change (with_f_Stack st1 _) with (with_f_Stack st1 f).
  unfold no_bonus in Hlt. destruct Hr as (Hf & Hwf & Hg). unfold in64 in Hg.
  apply create_and_finish; [|done|by apply ready_stack|cbn; Z.div_mod_to_equations; lia].
  apply (qrvm_Create_within g run Hrun); [Z.div_mod_to_equations; lia|done].
Qed.

Lemma exec_Create2 : exec_ok g no_bonus (opCreate2 (entry run)).
Proof.
  intros f Hr _ Hlt. unfold opCreate2. change (mthen mget ?k ?f) with (k f f). cbn beta.
  destruct (vm_readOnly (f_vm f)) eqn:Hro.
  { apply (rpost_quiet _ f); [|done]. apply quietly_ret. }
  pop1 value. pop1 offset. pop1 size. pop1 salt. rewrite mthen_run. unfold mlift.
  destruct (entry_create_input f (int64_of (u_Uint64 offset)) (int64_of (u_Uint64 size)) Hr) as [(input & -> & Hin)| ->]; [|done].
  cbn [obind fst snd]. apply (rpost_stack _ f st2). change (with_f_Stack st2 _) with (with_f_Stack st2 f).
  unfold no_bonus in Hlt. destruct Hr as (Hf & Hwf & Hg). unfold in64 in Hg.
  apply create_and_finish; [|done|by apply ready_stack|cbn; Z.div_mod_to_equations; lia].
  apply (qrvm_Create2_within g run Hrun); [Z.div_mod_to_equations; lia|done].
Qed.

End Turn.
