(* ===== verification/VMTable.v ===== *)
(** * The whole table, the loop and the run

    Every slot of the jump table satisfies [op_ok] of VMLoop; hence a run of the
    interpreter with more fuel than gas ends, for every contract. *)

From S2P Require Import Prelude Uint256 Params VMCommon Stack Memory Opcodes Analysis Rlp StateTypes VMInterface Contract GasTable Instructions JumpTable Precompiles Interpreter VMLogic VMHandlers VMGas VMRun VMLoop VMTurn.

Section Table.
Context {S : Type} {SI : StateI S} {L : StateLaws S SI} {U : Uint256} {UT : Uint256Typed U} {C : Crypto} {H : Ssz}.
Context (e : env) (g : Z) (run : runner) (Hrun : run_ok g run).

Implicit Types m : executionFunc (S:=S).

(** ** Shapes of entries *)

Lemma charge_none m c lo hi : charge_ok no_bonus 0 (mkOp m c None lo hi None).
Proof.
  intros f (Hf & Hwf & Hg). cbn. unfold in64 in Hg. unfold charge_dynamic. cbn.
  split; auto; [apply vm_step_refl, Hf|by destruct (f_Contract f)|lia|unfold no_bonus; lia|unfold no_bonus; lia].
Qed.

Definition ms_ok (ms : option (Stack.t -> outcome (Z * bool))) : Prop := forall k, ms = Some k -> msize_ok k.
Lemma ms_none : ms_ok None. Proof. done. Qed.
Lemma ms_some k : msize_ok k -> ms_ok (Some k). Proof. by intros ? ? [= <-]. Qed.

Lemma charge_some lo m c dg mn mx ms : 0 <= lo -> ms_ok ms -> (forall sz, (ms = None -> sz = 0) -> gasfun lo sz (dg sz)) ->
  charge_ok no_bonus lo (mkOp m c (Some dg) mn mx ms).
Proof. intros Hlo Hms Hdg f (Hf & Hwf & Hg). by apply (charge_gasfun lo _ dg). Qed.

Definition stack_only (val : frame S -> bool) : Prop := forall f f', f_Stack f' = f_Stack f -> val f' = val f.
Lemma valued_stack : stack_only valued.
Proof. intros f f' Hs. unfold valued. by rewrite Hs. Qed.

Lemma charge_calls val m c dg mn mx ms : ms_ok ms -> stack_only val -> (forall sz, callcost val sz (dg sz)) ->
  charge_ok (call_bonus val) 0 (mkOp m c (Some dg) mn mx ms).
Proof. intros Hms Hval Hdg f (Hf & Hwf & Hg). by apply (charge_call val _ dg). Qed.

(** An entry whose constant gas is positive. *)
Lemma entry_const m c dg mn mx ms bonus : 1 <= c -> charge_ok bonus 0 (mkOp m c dg mn mx ms) -> exec_ok g bonus m ->
  op_ok g (mkOp m c dg mn mx ms).
Proof. intros. apply (op_pays g bonus 0); cbn; auto; lia. Qed.

(** An entry that pays through its gas function only. *)
Lemma entry_dyn m dg mn mx ms lo : 1 <= lo -> charge_ok no_bonus lo (mkOp m 0 dg mn mx ms) -> exec_ok g no_bonus m ->
  op_ok g (mkOp m 0 dg mn mx ms).
Proof. intros. apply (op_pays g no_bonus lo); cbn; auto; lia. Qed.

(** An entry that always ends the loop. *)
Definition halting m : Prop := forall f, match m f with Ret ((_, None), _) => False | _ => True end.

Lemma halting_bind {A} (p : M (frame S) A) (k : A -> executionFunc (S:=S)) : (forall a, halting (k a)) -> halting (mthen p k).
Proof. intros Hk f. rewrite mthen_run. destruct (p f) as [[a f']| |]; cbn; [apply Hk|done|done]. Qed.
Lemma halting_ret r er : halting (mret (r, Some er)).
Proof. done. Qed.

Lemma entry_halts m dg mn mx ms : charge_ok no_bonus 0 (mkOp m 0 dg mn mx ms) -> (forall ro, quietly ro m) -> halting m ->
  op_ok g (mkOp m 0 dg mn mx ms).
Proof. intros Hc Hq Hh. apply op_halts; auto. done. Qed.

Lemma gasfun_zero lo (dg : gasFunc (S:=S)) : gasfun lo 0 (dg 0) -> forall sz, ((None : option (Stack.t -> outcome (Z * bool))) = None -> sz = 0) -> gasfun lo sz (dg sz).
Proof. intros Hd sz Hz. by rewrite Hz. Qed.

(** ** Quiet handlers *)

Definition quiet_handler m : Prop := forall ro, quietly ro m.

Lemma quiet_binop k : quiet_handler (binop k).
Proof. intros ro. unfold binop. quiet. Qed.
Lemma quiet_push1 : quiet_handler opPush1.
Proof. intros ro. unfold opPush1. quiet. Qed.
Lemma quiet_makePush a b : quiet_handler (makePush a b).
Proof. intros ro. unfold makePush. quiet. Qed.

Lemma quiet_stack (k : Stack.t -> outcome Stack.t) : (forall st, k st <> OutOfFuel) ->
  quiet_handler (on_stack (fun st => let! st := k st in Ret (tt, st)) ;;; done_ok).
Proof.
  intros Hk ro. apply quietly_bind; [|intros; apply quietly_ret]. apply quietly_stack.
  intros st. specialize (Hk st). by destruct (k st).
Qed.
Lemma quiet_makeDup n : quiet_handler (makeDup n).
Proof. apply quiet_stack. intros st. unfold Stack.dup. nofuel. Qed.
Lemma quiet_makeSwap n : quiet_handler (makeSwap n).
Proof. apply quiet_stack. intros st. unfold Stack.swap. nofuel. Qed.

(** The handlers that are not special: follow their structure. *)
Ltac quiet_op :=
  lazymatch goal with
  | |- quiet_handler (binop _) => apply quiet_binop
  | |- quiet_handler opPush1 => apply quiet_push1
  | |- quiet_handler (makePush _ _) => apply quiet_makePush
  | |- quiet_handler (makeDup _) => apply quiet_makeDup
  | |- quiet_handler (makeSwap _) => apply quiet_makeSwap
  | |- quiet_handler ?m =>
      first [ apply quiet_binop
            | intros ?; unfold opKeccak256, opAddress, opBalance, opOrigin, opCaller, opCallValue, opCallDataLoad,
                opCallDataSize, opCallDataCopy, opReturnDataSize, opReturnDataCopy, opExtCodeSize, opCodeSize, opCodeCopy,
                opExtCodeCopy, opExtCodeHash, opGasprice, opBlockhash, opCoinbase, opTimestamp, opNumber, opRandom,
                opGasLimit, opSelfBalance, opChainID, opBaseFee, opPop, opMload, opMstore, opMstore8, opSload, opJump,
                opJumpi, opJumpdest, opPc, opMsize, opGas, opReturn, opRevert, opUndefined, opStop, opPush0, opNot,
                opIszero, opAddmod, opMulmod, done_ok, fail; quiet ]
  end.

Ltac memsize := first
  [ apply ms_none
  | apply ms_some; first
    [ apply memoryKeccak256_ok | apply memoryCallDataCopy_ok | apply memoryReturnDataCopy_ok | apply memoryCodeCopy_ok
    | apply memoryExtCodeCopy_ok | apply memoryMLoad_ok | apply memoryMStore8_ok | apply memoryMStore_ok
    | apply memoryCreate_ok | apply memoryCreate2_ok | apply memoryReturn_ok | apply memoryRevert_ok | apply memoryLog_ok
    | apply memoryCall_ok | apply memoryDelegateCall_ok | apply memoryStaticCall_ok ] ].

Ltac gasfunction := first
  [ apply (gasfun_zero 0), gasAccountCheck_fun
  | apply (gasfun_zero 1); first [apply gasExp_fun | apply gasSLoad_fun | apply gasSStore_fun]
  | intros ? _; first [ apply gasfun_mem_gas | apply memoryCopierGas_fun | apply gasKeccak256_fun | apply gasCreate_fun
                      | apply gasCreate2_fun | apply makeGasLog_fun | apply gasExtCodeCopy_fun ] ].

Ltac charge := first [apply charge_none | apply charge_some; [done|memsize|gasfunction]].

Ltac exec :=
  lazymatch goal with
  | |- exec_ok _ _ opSstore => apply exec_Sstore
  | |- exec_ok _ _ (makeLog _ _) => apply exec_Log
  | |- exec_ok _ _ (opCreate _) => apply exec_Create, Hrun
  | |- exec_ok _ _ (opCreate2 _) => apply exec_Create2, Hrun
  | |- exec_ok _ _ ?m => apply exec_quiet; change (quiet_handler m); quiet_op
  end.

Ltac halt := repeat first [apply halting_ret | apply halting_bind; intros ?].

Ltac table_entry :=
  lazymatch goal with
  | |- op_ok _ (mkOp (opCall _) _ _ _ _ _) =>
      apply (entry_const _ _ _ _ _ _ (call_bonus valued)); [done| |by apply exec_Call];
      apply charge_calls; [memsize|apply valued_stack|apply gasCallEIP2929_cost]
  | |- op_ok _ (mkOp (opDelegateCall _) _ _ _ _ _) =>
      apply (entry_const _ _ _ _ _ _ (call_bonus (fun _ => false))); [done| |by apply exec_DelegateCall];
      apply charge_calls; [memsize|done|apply gasDelegateCallEIP2929_cost]
  | |- op_ok _ (mkOp (opStaticCall _) _ _ _ _ _) =>
      apply (entry_const _ _ _ _ _ _ (call_bonus (fun _ => false))); [done| |by apply exec_StaticCall];
      apply charge_calls; [memsize|done|apply gasStaticCallEIP2929_cost]
  | |- op_ok _ (mkOp (makeLog _ _) _ _ _ _ _) => apply (entry_dyn _ _ _ _ _ LogGas); [done|charge|exec]
  | |- op_ok _ (mkOp opExp _ _ _ _ _) => apply (entry_dyn _ _ _ _ _ 1); [done|charge|exec]
  | |- op_ok _ (mkOp opSload _ _ _ _ _) => apply (entry_dyn _ _ _ _ _ 1); [done|charge|exec]
  | |- op_ok _ (mkOp opSstore _ _ _ _ _) => apply (entry_dyn _ _ _ _ _ 1); [done|charge|exec]
  | |- op_ok _ (mkOp opStop _ _ _ _ _) => apply entry_halts; [charge|change (quiet_handler (opStop : executionFunc (S:=S))); quiet_op|halt]
  | |- op_ok _ (mkOp opReturn _ _ _ _ _) => apply entry_halts; [charge|change (quiet_handler (opReturn : executionFunc (S:=S))); quiet_op|halt]
  | |- op_ok _ (mkOp opRevert _ _ _ _ _) => apply entry_halts; [charge|change (quiet_handler (opRevert : executionFunc (S:=S))); quiet_op|halt]
  | |- op_ok _ (mkOp opUndefined _ _ _ _ _) => apply entry_halts; [charge|change (quiet_handler (opUndefined : executionFunc (S:=S))); quiet_op|halt]
  | |- op_ok _ _ => apply (entry_const _ _ _ _ _ _ no_bonus); [done|charge|exec]
  end.

Definition entries_ok (l : list (Z * operation)) : Prop := Forall (fun p => op_ok g (snd p)) l.

Ltac table := repeat (constructor; cbn [snd]); table_entry.

Lemma tbl0_ok : entries_ok tbl0. Proof. unfold tbl0. table. Qed.
Lemma tbl1_ok : entries_ok (tbl1 e). Proof. unfold tbl1. table. Qed.
Lemma tbl2_ok : entries_ok tbl2. Proof. unfold tbl2. table. Qed.
Lemma tbl3_ok : entries_ok tbl3. Proof. unfold tbl3. table. Qed.
Lemma tbl4_ok : entries_ok tbl4. Proof. unfold tbl4. table. Qed.
Lemma tbl5_ok : entries_ok (tbl5 e (entry run)). Proof. unfold tbl5. table. Qed.
Lemma tbl6_ok : entries_ok (tbl6 e (entry run)). Proof. unfold tbl6. table. Qed.

Lemma zond_entries_ok : entries_ok (zond_entries e (entry run)).
Proof.
  unfold zond_entries, entries_ok. rewrite !Forall_app.
  split_and!; [apply tbl0_ok|apply tbl1_ok|apply tbl2_ok|apply tbl3_ok|apply tbl4_ok|apply tbl5_ok|apply tbl6_ok].
Qed.

Lemma assoc_Forall {A} (P : A -> Prop) k (l : list (Z * A)) v : Forall (fun p => P (snd p)) l -> Op.assoc k l = Some v -> P v.
Proof.
  induction 1 as [|[k' v'] l Hv Hl IH]; cbn; [done|]. case_decide; [by intros [= <-]|done].
Qed.

(** Every slot of the table. *)
Lemma slot_ok op : op_ok g (newZondInstructionSet e (entry run) op).
Proof.
  unfold newZondInstructionSet. destruct (Op.assoc _ _) as [o|] eqn:Ho; cbn [default].
  - eapply (assoc_Forall (op_ok g)); [apply zond_entries_ok|done].
  - unfold undefinedOperation. table_entry.
Qed.

(** ** The loop *)

Lemma GetOp_fuel n c : Contract.GetOp n c <> OutOfFuel.
Proof. unfold Contract.GetOp. nofuel. Qed.

Lemma step_ok f : ready f -> c_Gas (f_Contract f) <= g -> turn_ok f (step e run f).
Proof.
  intros Hr Hg. unfold step. change (mthen mget ?k f) with (k f f). cbn beta. rewrite mthen_run. unfold mlift.
  pose proof (GetOp_fuel (f_pc f) (f_Contract f)) as Ho.
  destruct (Contract.GetOp (f_pc f) (f_Contract f)) as [op| |]; cbn [obind fst snd]; [|done|done].
  assert (Hstop : forall r, turn_ok f (mret (Some r) f)) by (intros; cbn; apply rstep_refl; apply Hr).
  destruct (_ <? _); [apply Hstop|]. destruct (_ <? _); [apply Hstop|].
  apply (slot_ok op f Hr Hg).
Qed.

Lemma loop_ok fuel : forall f, ready f -> c_Gas (f_Contract f) <= g -> c_Gas (f_Contract f) < Z.of_nat fuel ->
  match loop e run fuel f with
  | Ret (_, f') => rstep 0 f f'
  | Panic => True
  | OutOfFuel => False
  end.
Proof.
  induction fuel as [|fuel IH]; intros f Hr Hg Hf.
  { destruct Hr as (_ & _ & Hin). unfold in64 in Hin. lia. }
  cbn [loop]. rewrite mthen_run. pose proof (step_ok f Hr Hg) as Hs.
  destruct (step e run f) as [[[[res err]|] f']| |]; cbn [obind fst snd]; [done| |done|done].
  destruct Hs as [Hs Hwf]. pose proof (rs_gas _ _ _ Hs) as Hgas. destruct Hr as (Hf0 & _ & Hin). unfold in64 in Hin.
  assert (Hr' : ready f') by (split_and!; [by eapply rstep_good|done|unfold in64; lia]).
  specialize (IH f' Hr' ltac:(lia) ltac:(lia)). destruct (loop e run fuel f') as [[r f2]| |]; [|done|done].
  eapply rstep_le; [by eapply rstep_trans|]. destruct IH. lia.
Qed.

Lemma mem_wf_new : mem_wf Memory.NewMemory.
Proof. done. Qed.

Lemma run_frame_ok fuel c v : vgood v -> Zlen (c_Code c) < 2 ^ 63 -> in64 (c_Gas c) -> c_Gas c <= g -> c_Gas c < Z.of_nat fuel ->
  match run_frame e run fuel c v with
  | Ret ((_, _, c'), v') => vm_step (vm_readOnly v) v v' /\ 0 <= c_Gas c' <= c_Gas c
  | Panic => True
  | OutOfFuel => False
  end.
Proof.
  intros Hv Hc Hin Hg Hf. unfold run_frame. set (f := mkFrame _ _ _ _ _).
  pose proof (loop_ok fuel f ltac:(split_and!; [by split|apply mem_wf_new|done]) Hg Hf) as Hl.
  destruct (loop e run fuel f) as [[[res err] f']| |]; cbn; [|done|done]. destruct Hl as [V _ G]. cbn in G. split; [exact V|lia].
Qed.

End Table.

(** ** The interpreter *)

Section Run.
Context {S : Type} {SI : StateI S} {L : StateLaws S SI} {U : Uint256} {UT : Uint256Typed U} {C : Crypto} {H : Ssz}.
Context (e : env).

(** What [Run] does before and after the loop. *)
Definition run_sets (ro : bool) (v : QRVM S) : bool := ro && negb (vm_readOnly v).
Definition run_enter (ro : bool) (v : QRVM S) : QRVM S :=
  with_vm_returnData [] ((if run_sets ro v then with_vm_readOnly true else id) (with_vm_depth (vm_depth v + 1) v)).
Definition run_leave (sets : bool) (v : QRVM S) : QRVM S :=
  with_vm_depth (vm_depth v - 1) ((if sets then with_vm_readOnly false else id) v).
Definition run_body (fuel : nat) (c : Contract) (input : list Z) : M (QRVM S) (list Z * option vm_error * Contract) :=
  if Zlen (c_Code c) =? 0 then mret ([], None, c) else run_frame e (Run e fuel) (Datatypes.S fuel) (with_c_Input input c).

Lemma Run_S fuel c input ro v : Run e (Datatypes.S fuel) c input ro v =
  let! (r, v') := run_body fuel c input (run_enter ro v) in Ret (r, run_leave (run_sets ro v) v').
Proof.
  cbn [Run]. unfold run_enter, run_leave, run_sets, mmodify, mthen, mget. cbn [obind fst snd vm_readOnly with_vm_depth].
  fold (run_body fuel c input). generalize (run_body fuel c input) as m. intros m.
  destruct (ro && negb (vm_readOnly v)); cbn [obind mret fst snd]; by destruct (m _) as [[r v']| |].
Qed.

Lemma run_enter_facts ro v : vm_readOnly (run_enter ro v) = ro || vm_readOnly v /\
  vm_depth (run_enter ro v) = vm_depth v + 1 /\ vm_StateDB (run_enter ro v) = vm_StateDB v.
Proof. unfold run_enter, run_sets. by destruct ro, (vm_readOnly v) eqn:E. Qed.

Lemma run_leave_step ro fr v v' : vm_step fr (run_enter ro v) v' -> vm_step fr v (run_leave (run_sets ro v) v').
Proof.
  destruct (run_enter_facts ro v) as (Hro & Hd & Hs). intros [B1 B2 B3 B4 B5]. unfold kept in B2. rewrite Hs in *.
  rewrite Hro in B4. rewrite Hd in B3. unfold run_leave, run_sets.
  destruct ro, (vm_readOnly v) eqn:E; cbn in *; split; cbn; auto; try congruence; lia.
Qed.

Lemma Run_ok fuel : run_ok (Z.min (Z.of_nat fuel) (2 ^ 64)) (Run e fuel).
Proof.
  induction fuel as [|fuel IH]; intros c input ro v Hv Hc Hg; [cbn in Hg; lia|].
  rewrite Run_S. destruct (run_enter_facts ro v) as (Hro & Hd & Hs).
  assert (Hv1 : vgood (run_enter ro v)) by (unfold vgood; by rewrite Hs).
  assert (Hb : match run_body fuel c input (run_enter ro v) with
    | Ret ((_, _, c'), v') => vm_step (ro || vm_readOnly v) (run_enter ro v) v' /\ 0 <= c_Gas c' <= c_Gas c
    | Panic => True | OutOfFuel => False end).
  { unfold run_body. destruct (_ =? _); [split; [by apply vm_step_refl|cbn; lia]|].
    rewrite <- Hro. apply (run_frame_ok e _ _ IH (Datatypes.S fuel) (with_c_Input input c)); [done|done|..];
      cbn [c_Gas with_c_Input]; unfold in64; lia. }
  destruct (run_body _ _ _ _) as [[[[res err] c'] v']| |]; cbn [obind]; [|done|done].
  destruct Hb as [Hb Hgas]. split; [by apply run_leave_step|done].
Qed.

End Run.
