(* ===== verification/StateVM.v ===== *)
(** * The state database as the machine's state

    The interpretation of the interface [SDB.op] by the methods of StateDB
    ([StateI]).  Reads and bookkeeping freeze the accounts, and no method
    loops. *)

From S2P Require Import Prelude Rlp VMCommon AccessList StateTypes StateObject StateDB StateRevert VMInterface VMHandlers.

Section StateVM.
Context {C : Crypto} {D : Database}.

(** A byte slice the runtime can hold: making a longer one panics. *)
Definition go_bytes (b : option (list Z)) : M StateDB (list Z) :=
  let b := default [] b in
  if 2 ^ 63 <=? Zlen b then mpanic else mret b.

(** A slice of length 0 that an instruction returned is nil. *)
Definition nilable (b : list Z) : option (list Z) := match b with [] => None | _ => Some b end.

Definition sdb_run {A} (o : SDB.op A) : M StateDB A :=
  match o in SDB.op A return M StateDB A with
  | SDB.CreateAccount a => StateDB.CreateAccount a
  | SDB.SubBalance a amount => StateDB.SubBalance a amount
  | SDB.AddBalance a amount => StateDB.AddBalance a amount
  | SDB.GetBalance a => StateDB.GetBalance a
  | SDB.GetNonce a => StateDB.GetNonce a
  | SDB.SetNonce a nonce => StateDB.SetNonce a nonce
  | SDB.GetCodeHash a => StateDB.GetCodeHash a
  | SDB.GetCode a => let* code := StateDB.GetCode a in go_bytes code
  | SDB.SetCode a code => StateDB.SetCode a (nilable code)
  | SDB.GetCodeSize a => StateDB.GetCodeSize a
  | SDB.AddRefund gas => StateDB.AddRefund gas
  | SDB.SubRefund gas => StateDB.SubRefund gas
  | SDB.GetRefund => StateDB.GetRefund
  | SDB.GetCommittedState a key => StateDB.GetCommittedState a key
  | SDB.GetState a key => StateDB.GetState a key
  | SDB.SetState a key value => StateDB.SetState a key value
  | SDB.Exist a => StateDB.Exist a
  | SDB.Empty a => StateDB.Empty a
  | SDB.AddressInAccessList a => StateDB.AddressInAccessList a
  | SDB.SlotInAccessList a slot => StateDB.SlotInAccessList a slot
  | SDB.AddAddressToAccessList a => StateDB.AddAddressToAccessList a
  | SDB.AddSlotToAccessList a slot => StateDB.AddSlotToAccessList a slot
  | SDB.Prepare sender coinbase dest precompiles txAccesses =>
      StateDB.Prepare sender coinbase dest precompiles txAccesses
  | SDB.RevertToSnapshot id => StateDB.RevertToSnapshot id
  | SDB.Snapshot => StateDB.Snapshot
  | SDB.AddLog l => StateDB.AddLog l
  | SDB.AddPreimage hash preimage => StateDB.AddPreimage hash preimage
  end.

#[export] Instance statedb_interface : StateI StateDB := {| sdb := @sdb_run |}.

(** ** Reads are quiet *)

Lemma reads_det {A} (m : M StateDB A) s v r s' : reads m s v -> m s = Ret (r, s') -> quiet s s'.
Proof. intros (s1 & H1 & Hq) H2. rewrite H1 in H2. by injection H2 as _ <-. Qed.

Lemma reader_quiet {A} (o : SDB.op A) s r s' : SDB.reader o = true -> wf s -> sdb_run o s = Ret (r, s') -> quiet s s'.
Proof.
  intros Ho Hwf H. destruct o; try done; cbn [sdb_run] in H; try (by eapply (reads_det _ _ _ _ _ (reads_account _ _ _ _)), H).
  - apply mthen_Ret in H as (c & s1 & H1 & H2).
    assert (s' = s1) as -> by (unfold go_bytes in H2; case_match; [done|by injection H2]).
    by eapply reads_det; [apply GetCode_reads|].
  - by eapply GetCodeSize_quiet.
  - injection H as <- <-. apply quiet_refl.
  - eapply part_quiet; [done| |exact H]. intros ????? Hl Hr.
    by destruct (GetCommittedState_quiet _ _ _ _ _ _ Hl Hr) as [[] _].
  - eapply part_quiet; [done| |exact H]. intros ????? Hl Hr. by destruct (GetState_quiet _ _ _ _ _ _ Hl Hr) as [[] _].
  - injection H as <- <-. apply quiet_refl.
  - unfold StateDB.SlotInAccessList in H. minv1 H. apply quiet_refl.
Qed.

(** ** Ordinary operations are steps *)

Lemma plain_step {A} (o : SDB.op A) s r s' : SDB.plain o = true -> wf s -> sdb_run o s = Ret (r, s') -> step_ok s s'.
Proof.
  intros Hp Hwf H. destruct (SDB.reader o) eqn:Hr; [eapply step_quiet, reader_quiet; eauto|].
  destruct o; try done; cbn [sdb_run] in H;
    try (by eauto using CreateAccount_step, AddRefund_step, SubRefund_step, AddLog_step, AddPreimage_step, AddAddress_step, AddSlot_step).
  - eapply (with_object_step a (fun o => StateObject.SubBalance o amount)); eauto using SubBalance_obj_step.
  - eapply (with_object_step a (fun o => StateObject.AddBalance o amount)); eauto using AddBalance_obj_step.
  - eapply (with_object_step a (fun o => StateObject.SetNonce o nonce)); eauto using SetNonce_step.
  - eapply (with_object_step a (fun o => StateObject.SetCode o (Keccak256Hash (default [] (nilable code))) (nilable code)));
      eauto using SetCode_step.
  - eapply (with_object_step a (fun o => StateObject.SetState o key value)); eauto using SetState_step.
Qed.

(** ** No method loops *)

Definition nf {A} (m : M StateDB A) : Prop := forall s, m s <> OutOfFuel.

Lemma nf_ret {A} (a : A) : nf (mret a). Proof. done. Qed.
Lemma nf_panic {A} : nf (mpanic : M StateDB A). Proof. done. Qed.
Lemma nf_get : nf (mget : M StateDB StateDB). Proof. done. Qed.
Lemma nf_put s : nf (mput s : M StateDB unit). Proof. done. Qed.
Lemma nf_modify f : nf (mmodify f : M StateDB unit). Proof. done. Qed.
Lemma nf_lift {A} (o : outcome A) : o <> OutOfFuel -> nf (mlift o).
Proof. intros Ho s. unfold mlift. by destruct o. Qed.
Lemma nf_bind {A B} (m : M StateDB A) (k : A -> M StateDB B) : nf m -> (forall a, nf (k a)) -> nf (mthen m k).
Proof. intros Hm Hk s. unfold mthen. specialize (Hm s). destruct (m s) as [[a s1]| |]; cbn; [apply Hk|done|done]. Qed.
Lemma nf_setError e : nf (setError e). Proof. done. Qed.
Lemma nf_jappend e : nf (jappend e). Proof. done. Qed.
Lemma nf_setStateObject o : nf (setStateObject o). Proof. done. Qed.

End StateVM.

#[export] Hint Resolve nf_ret nf_panic nf_get nf_put nf_modify nf_setError nf_jappend nf_setStateObject : vm.

Ltac nf1 := first [ solve [eauto with vm] | apply nf_bind; [|intros ?] | apply nf_lift; solve [nofuel] | progress cbv zeta | case_match ].
Ltac nf := intros; repeat nf1.

Section Laws.
Context {C : Crypto} {D : Database}.

Lemma readSize_fuel b n : Rlp.readSize b n <> OutOfFuel.
Proof.
  assert (Hk : forall s, (if s <? 56 then Ret (inl Rlp.ErrCanonSize)
    else let! b0 := go_index b 0 in if b0 =? 0 then Ret (inl Rlp.ErrCanonSize) else Ret (inr s)) <> OutOfFuel) by nofuel.
  unfold Rlp.readSize. destruct (Zlen b <? n); [done|]. apply Hk.
Qed.
Hint Resolve readSize_fuel : vm.

Lemma readKind_fuel b : Rlp.readKind b <> OutOfFuel.
Proof. unfold Rlp.readKind. nofuel. Qed.
Hint Resolve readKind_fuel : vm.
Lemma Split_fuel b : Rlp.Split b <> OutOfFuel.
Proof. unfold Rlp.Split. nofuel. Qed.
Hint Resolve Split_fuel : vm.

Lemma nf_getStateObject a : nf (StateDB.getStateObject a).
Proof. unfold StateDB.getStateObject, StateDB.getDeletedStateObject. nf. Qed.
Lemma nf_createObject a : nf (StateDB.createObject a).
Proof. unfold StateDB.createObject, StateDB.getDeletedStateObject. nf. Qed.
Hint Resolve nf_getStateObject nf_createObject : vm.
Lemma nf_GetOrNew a : nf (StateDB.GetOrNewStateObject a).
Proof. unfold StateDB.GetOrNewStateObject. nf. Qed.
Lemma nf_GetCommitted o k : nf (StateObject.GetCommittedState o k).
Proof.
  unfold StateObject.GetCommittedState, StateObject.snapStorage, StateObject.trieStorage, StateObject.cacheStorage,
    StateObject.getTrie. nf.
Qed.
Hint Resolve nf_GetOrNew nf_GetCommitted : vm.
Lemma nf_GetState o k : nf (StateObject.GetState o k).
Proof. unfold StateObject.GetState. nf. Qed.
Lemma nf_Code o : nf (StateObject.Code o).
Proof. unfold StateObject.Code. nf. Qed.
Hint Resolve nf_GetState nf_Code : vm.

Lemma plain_nf {A} (o : SDB.op A) : SDB.plain o = true -> nf (sdb_run o).
Proof.
  intros Hp. destruct o; try done; cbn [sdb_run].
  all: unfold StateDB.CreateAccount, StateDB.SubBalance, StateDB.AddBalance, StateDB.GetBalance, StateDB.GetNonce,
    StateDB.SetNonce, StateDB.GetCodeHash, StateDB.GetCode, StateDB.SetCode, StateDB.GetCodeSize, StateDB.AddRefund,
    StateDB.SubRefund, StateDB.GetRefund, StateDB.GetCommittedState, StateDB.GetState, StateDB.SetState, StateDB.Exist,
    StateDB.Empty, StateDB.AddressInAccessList, StateDB.SlotInAccessList, StateDB.AddAddressToAccessList,
    StateDB.AddSlotToAccessList, StateDB.AddLog, StateDB.AddPreimage, StateObject.setBalance, StateObject.SubBalance,
    StateObject.AddBalance, StateObject.SetBalance, StateObject.setBalance, StateObject.SetNonce, StateObject.setNonce,
    StateObject.SetCode, StateObject.setCode, StateObject.CodeSize, StateObject.SetState, StateObject.setState,
    StateObject.touch, AccessList.AddSlot, AccessList.Contains, go_bytes.
  all: nf.
Qed.

(** ** Frozen accounts *)

Record sfrozen (s s' : StateDB) : Prop := {
  fz_balance : forall a, account (fun o => Balance (so_data o)) 0 s' a = account (fun o => Balance (so_data o)) 0 s a;
  fz_nonce : forall a, account (fun o => Nonce (so_data o)) 0 s' a = account (fun o => Nonce (so_data o)) 0 s a;
  fz_code : forall a, account code_view None s' a = account code_view None s a;
  fz_logs : db_logs s' = db_logs s;
  fz_slots : forall a k, is_Some (live s a) -> slot_view s' a k = slot_view s a k;
  fz_live : forall a, is_Some (live s a) -> is_Some (live s' a)
}.

Lemma sfrozen_trans s1 s2 s3 : sfrozen s1 s2 -> sfrozen s2 s3 -> sfrozen s1 s3.
Proof.
  intros [A1 A2 A3 A4 A5 A6] [B1 B2 B3 B4 B5 B6]. split; intros; rewrite ?B1, ?B2, ?B3, ?B4; auto. rewrite B5; auto.
Qed.

Lemma eqv_sfrozen s s' : eqv s s' -> sfrozen s s'.
Proof.
  intros He. pose proof (eqv_sym _ _ He) as He'. split; intros.
  - apply eqv_account; [done|]. intros o o' []. congruence.
  - apply eqv_account; [done|]. intros o o' []. congruence.
  - apply eqv_account; [done|]. by intros o o' [].
  - destruct He as [Hc _]. unfold core in Hc. by simplify_eq Hc.
  - unfold slot_view. pose proof (eqv_live s s' a He) as Hl. unfold account, opt_eqv in *.
    destruct (live s a) as [o|], (live s' a) as [o'|]; try done.
    rewrite (oe_state _ _ _ Hl). symmetry. apply views_core, He.
  - pose proof (eqv_live s s' a He) as Hl. unfold opt_eqv in *. by destruct (live s a), (live s' a).
Qed.

(** Changes outside the objects and the logs. *)
Lemma sfrozen_outside s s' : db_stateObjects s' = db_stateObjects s -> db_trie s' = db_trie s ->
  obj_ctx s' = obj_ctx s -> db_logs s' = db_logs s -> sfrozen s s'.
Proof.
  intros H1 H2 H3 H4. unfold obj_ctx in H3. injection H3 as H5 H6.
  assert (Hf : forall a, live s' a = live s a) by (intros; unfold live, find_object; by rewrite H1, H2).
  split; intros; rewrite ?Hf; auto; unfold slot_view, account; rewrite ?Hf; try done.
  destruct (live s a); [|done]. unfold state_view, committed_view, storage_view, trie_view, trie_of. by rewrite H5, H6.
Qed.

(** A new object where there was none. *)
Lemma createObject_frozen a s n p s' : wf s -> live s a = None -> StateDB.createObject a s = Ret ((n, p), s') -> sfrozen s s'.
Proof.
  intros Hwf Hl H. destruct (createObject_inv _ _ _ _ _ H) as (s1 & Hq & Ho & -> & _ & ->).
  eapply sfrozen_trans; [apply eqv_sfrozen, Hq|].
  assert (Hl1 : live s1 a = None).
  { pose proof (eqv_live s s1 a (proj1 Hq)) as Hx. rewrite Hl in Hx. unfold opt_eqv in Hx. by destruct (live s1 a). }
  pose proof (so_wf _ _ (step_quiet s s1 Hwf Hq)) as Hw1. pose proof (wf_keyed s1 Hw1) as Hk1.
  set (n := with_so_created true (newObject a None)).
  set (t := match find_object s a with None => _ | Some prev => _ end).
  assert (Ht : db_stateObjects t = db_stateObjects s1 /\ db_trie t = db_trie s1 /\ db_originalRoot t = db_originalRoot s1 /\
    db_logs t = db_logs s1 /\ forall b, b <> a -> db_stateObjectsDestruct t !! b = db_stateObjectsDestruct s1 !! b).
  { unfold t. destruct (find_object s a) as [prev|] eqn:Hf; [|done]. pose proof (Hk1 a prev (Ho _ eq_refl)) as Hpa.
    unfold reset_state. destruct (bool_decide _); cbn; split_and!; auto. intros b Hb. apply lookup_insert_ne. congruence. }
  destruct Ht as (T1 & T2 & T3 & T4 & T5). clearbody t.
  assert (Hlive : forall b, live (put n t) b = if decide (a = b) then Some n else live s1 b).
  { intros b. unfold live. rewrite lookup_put. change (so_address n) with a. case_decide; [done|].
    unfold find_object. by rewrite T1, T2. }
  assert (Hacc : forall A (f : stateObject -> A) d b, f n = d -> account f d (put n t) b = account f d s1 b).
  { intros A f d b Hd. unfold account. rewrite Hlive. case_decide; [subst b; by rewrite Hl1|done]. }
  assert (Hcode : code_view n = None) by (unfold code_view; cbn; by rewrite bool_decide_eq_true_2).
  split; intros; auto; rewrite ?Hlive.
  - unfold slot_view, account. rewrite Hlive. case_decide; [subst; rewrite Hl1 in *; by destruct H0|].
    destruct (live s1 a0) as [o|] eqn:Hla; [|done].
    assert (Hao : so_address o = a0).
    { unfold live in Hla. destruct (find_object s1 a0) as [x|] eqn:Hfx; [|done]. destruct (so_deleted x); [done|].
      injection Hla as <-. by eapply lookup_keyed. }
    unfold state_view, committed_view, storage_view, trie_view, trie_of, put; cbn. rewrite T3, T5 by congruence. done.
  - case_decide; [done|]. done.
Qed.

Lemma GetOrNew_frozen a s o s' : wf s -> StateDB.GetOrNewStateObject a s = Ret (o, s') -> sfrozen s s' /\ wf s'.
Proof.
  intros Hwf H. split; [|by destruct (GetOrNew_step a s o s' Hwf H) as [[] _]]. unfold StateDB.GetOrNewStateObject in H.
  destruct (getStateObject_spec a s) as (s1 & Hr & Hq & Hl). apply mthen_Ret in H as (x & s2 & H1 & H2).
  rewrite Hr in H1. injection H1 as <- <-. pose proof (eqv_sfrozen _ _ (proj1 Hq)) as Hf.
  destruct (live s a) as [y|] eqn:Hy; [by injection H2 as <- <-|].
  apply mthen_Ret in H2 as ([n p] & s3 & H3 & H4). injection H4 as <- <-.
  eapply sfrozen_trans; [exact Hf|]. eapply createObject_frozen; [by apply (so_wf _ _ (step_quiet s s1 Hwf Hq))| |exact H3].
  pose proof (eqv_live s s1 a (proj1 Hq)) as Hx. rewrite Hy in Hx. unfold opt_eqv in Hx. by destruct (live s1 a).
Qed.

Lemma AddBalance_frozen a s r s' : wf s -> StateDB.AddBalance a 0 s = Ret (r, s') -> sfrozen s s'.
Proof.
  intros Hwf H. apply mthen_Ret in H as (o & s1 & H1 & H2). destruct (GetOrNew_frozen a s o s1 Hwf H1) as [Hf _].
  eapply sfrozen_trans; [exact Hf|]. apply mthen_Ret in H2 as (o' & s2 & H2 & [= _ <-]).
  unfold StateObject.AddBalance in H2. cbn [Z.sgn Z.eqb] in H2. destruct (StateObject.empty o).
  - unfold StateObject.touch in H2. apply mthen_Ret in H2 as (u & s3 & H3 & [= _ <-]). rewrite jappend_J in H3. injection H3 as _ <-.
    by apply sfrozen_outside.
  - injection H2 as _ <-. by apply sfrozen_outside.
Qed.

Lemma SubBalance_frozen a s r s' : wf s -> StateDB.SubBalance a 0 s = Ret (r, s') -> sfrozen s s'.
Proof.
  intros Hwf H. apply mthen_Ret in H as (o & s1 & H1 & H2). destruct (GetOrNew_frozen a s o s1 Hwf H1) as [Hf _].
  apply mthen_Ret in H2 as (o' & s2 & H2 & [= _ <-]). unfold StateObject.SubBalance in H2. cbn [Z.sgn Z.eqb] in H2.
  by injection H2 as _ <-.
Qed.

(** The other operations of a read-only machine. *)
Lemma shared_frozen s e f : (forall x, db_stateObjects (f x) = db_stateObjects x /\ db_trie (f x) = db_trie x /\
  obj_ctx (f x) = obj_ctx x /\ db_logs (f x) = db_logs x) -> sfrozen s (f (J e s)).
Proof. intros Hf. destruct (Hf (J e s)) as (H1 & H2 & H3 & H4). by apply sfrozen_outside; rewrite ?H1, ?H2, ?H3, ?H4. Qed.

Lemma AddAddress_frozen a s r s' : StateDB.AddAddressToAccessList a s = Ret (r, s') -> sfrozen s s'.
Proof.
  intros H. unfold StateDB.AddAddressToAccessList, mthen, mget, mput in H. cbn [obind fst snd] in H.
  destruct (AccessList.AddAddress a (db_accessList s)) as [[|] al]; cbn in H; rewrite ?jappend_J in H; injection H as _ <-;
    by apply sfrozen_outside.
Qed.

Lemma AddSlot_frozen a k s r s' : StateDB.AddSlotToAccessList a k s = Ret (r, s') -> sfrozen s s'.
Proof.
  intros H. unfold StateDB.AddSlotToAccessList, mthen, mget, mput, mlift in H. cbn [obind fst snd] in H.
  destruct (AccessList.AddSlot a k (db_accessList s)) as [[[[|] [|]] al]| |]; cbn in H; try done;
    rewrite ?jappend_J in H; cbn in H; rewrite ?jappend_J in H; injection H as _ <-; by apply sfrozen_outside.
Qed.

Lemma harmless_frozen {A} (o : SDB.op A) s r s' : SDB.harmless o = true -> wf s -> sdb_run o s = Ret (r, s') -> sfrozen s s'.
Proof.
  intros Hh Hwf H. destruct (SDB.reader o) eqn:Hr; [by apply eqv_sfrozen; eapply (reader_quiet o)|].
  destruct o; try done; cbn [sdb_run] in H; cbn in Hh.
  - apply Z.eqb_eq in Hh as ->. by eapply SubBalance_frozen.
  - apply Z.eqb_eq in Hh as ->. by eapply AddBalance_frozen.
  - injection H as _ <-. by apply sfrozen_outside.
  - unfold StateDB.SubRefund, mthen, mget in H. cbn in H. destruct (_ <? _); [done|]. injection H as _ <-. by apply sfrozen_outside.
  - by eapply AddAddress_frozen.
  - by eapply AddSlot_frozen.
  - unfold StateDB.AddPreimage, mthen, mget in H. cbn in H. destruct (db_preimages s !! hash);
      injection H as _ <-; by apply sfrozen_outside.
Qed.

Lemma create_frozen a s s1 s2 : wf s -> StateDB.Exist a s = Ret (false, s1) -> StateDB.CreateAccount a s1 = Ret (tt, s2) -> sfrozen s s2.
Proof.
  intros Hwf He Hc. destruct (getStateObject_spec a s) as (s1' & Hr & Hq & Hl). unfold StateDB.Exist, mthen in He. rewrite Hr in He.
  cbn in He. injection He as He <-. pose proof (so_wf _ _ (step_quiet s s1' Hwf Hq)) as Hw1.
  eapply sfrozen_trans; [apply eqv_sfrozen, Hq|]. apply mthen_Ret in Hc as ([n p] & s3 & H3 & H4).
  assert (Hn : live s1' a = None).
  { pose proof (eqv_live s s1' a (proj1 Hq)) as Hx. unfold opt_eqv in Hx. by destruct (live s a), (live s1' a). }
  destruct (createObject_live _ _ _ _ _ H3) as (_ & _ & _ & Hp). rewrite Hn in Hp. subst p. injection H4 as <-.
  by eapply createObject_frozen.
Qed.

End Laws.
