(* ===== verification/StateLaws.v ===== *)
(** * Balances

    The sum of all balances under the operations of StateDB.  The accounts of a
    state are not enumerable, since most of them are in the trie; a sum is taken
    over a finite set of addresses, and a change of the sum by [d] means a change
    by [d] over every set that is large enough. *)

From S2P Require Import Prelude VMCommon AccessList Rlp StateTypes StateObject StateDB StateRevert VMInterface StateVM.


Definition sumz (l : list Z) : Z := foldr Z.add 0 l.

#[export] Instance sumz_perm : Proper (Permutation ==> eq) sumz.
Proof. intros l l' Hp. induction Hp; cbn in *; unfold sumz in *; cbn in *; lia. Qed.

Section Balance.
Context {C : Crypto} {D : Database}.

Definition balance (s : StateDB) (a : Z) : Z := account (fun o => Balance (so_data o)) 0 s a.

(** The sum of the balances of a set of addresses. *)
Definition total (X : gset Z) (s : StateDB) : Z := sumz (balance s <$> elements X).

(** The sum of all balances changes by [d]. *)
Definition smoved (d : Z) (s s' : StateDB) : Prop := exists T : gset Z, forall X, T ⊆ X -> total X s' = total X s + d.

Lemma total_ext X s s' : (forall a, balance s' a = balance s a) -> total X s' = total X s.
Proof. intros Hb. unfold total. f_equal. by apply list_fmap_ext. Qed.

Lemma smoved_same s s' : (forall a, balance s' a = balance s a) -> smoved 0 s s'.
Proof. intros Hb. exists ∅. intros X _. rewrite (total_ext X s s' Hb). lia. Qed.

Lemma smoved_trans d1 d2 s1 s2 s3 : smoved d1 s1 s2 -> smoved d2 s2 s3 -> smoved (d1 + d2) s1 s3.
Proof.
  intros [T1 H1] [T2 H2]. exists (T1 ∪ T2). intros X HX. rewrite H2, H1 by set_solver. lia.
Qed.

(** A change of one account. *)
Lemma smoved_one a d s s' : balance s' a = balance s a + d -> (forall b, b <> a -> balance s' b = balance s b) -> smoved d s s'.
Proof.
  intros Ha Hb. exists {[a]}. intros X HX.
  assert (Hp : elements X ≡ₚ a :: elements (X ∖ {[a]})).
  { change (a :: elements (X ∖ {[a]})) with ([a] ++ elements (X ∖ {[a]})). rewrite <- (elements_singleton (C := gset Z) a), <- elements_disj_union by set_solver. f_equiv. rewrite <- union_difference; done. }
  unfold total. rewrite Hp. cbn [fmap list_fmap sumz foldr]. fold (sumz (balance s' <$> elements (X ∖ {[a]}))).
  fold (sumz (balance s <$> elements (X ∖ {[a]}))). rewrite Ha.
  replace (balance s' <$> elements (X ∖ {[a]})) with (balance s <$> elements (X ∖ {[a]})); [lia|].
  apply Forall_fmap_ext_1, Forall_forall. intros b Hin. symmetry. apply Hb. apply list_elem_of_In, elem_of_elements in Hin. set_solver.
Qed.

(** ** Objects *)

Lemma balance_J e s a : balance (J e s) a = balance s a.
Proof. done. Qed.

Lemma balance_put o s b : so_deleted o = false ->
  balance (put o s) b = if decide (so_address o = b) then Balance (so_data o) else balance s b.
Proof.
  intros Hd. unfold balance, account, live. rewrite lookup_put. case_decide; [|done]. by rewrite Hd.
Qed.

Lemma balance_live s o : is_live s o -> so_deleted o = false -> balance s (so_address o) = Balance (so_data o).
Proof. intros Hl Hd. unfold balance, account, live. by rewrite (is_live_find s o Hl), Hd. Qed.

Lemma balance_eqv s s' a : eqv s s' -> balance s' a = balance s a.
Proof. intros He. symmetry. apply eqv_account; [done|]. intros o o' []. congruence. Qed.

(** A write to a live object, after a quiet step, that keeps its balance. *)
Lemma balance_write s s1 o o1 e o2 b : quiet_obj s o s1 o1 -> so_deleted o = false ->
  so_deleted o2 = so_deleted o1 -> so_address o2 = so_address o1 -> Balance (so_data o2) = Balance (so_data o1) ->
  balance (put o2 (J e s1)) b = balance s b.
Proof.
  intros [Hq Hl He] Hd Hd2 Ha Hb. assert (Hd1 : so_deleted o1 = false) by (by rewrite <- (oe_deleted _ _ _ He)).
  rewrite balance_put by congruence. rewrite balance_J, <- (balance_eqv s s1 b) by apply Hq.
  case_decide; [|done]. rewrite Hb, <- (balance_live s1 o1) by done. congruence.
Qed.

(** ** Setters *)

(** An object method that keeps balances, run on the object at an address. *)
Lemma with_object_balance a (f : stateObject -> M StateDB stateObject) s r s' : wf s ->
  (forall o s o' s', wf s -> is_live s o -> so_deleted o = false -> f o s = Ret (o', s') -> forall b, balance s' b = balance s b) ->
  (let* o := StateDB.GetOrNewStateObject a in f o ;;; mret tt) s = Ret (r, s') -> forall b, balance s' b = balance s b.
Proof.
  intros Hwf Hf H b. apply mthen_Ret in H as (o & s1 & Hg & H). apply mthen_Ret in H as (o' & s2 & H2 & [= _ <-]).
  destruct (GetOrNew_step a s o s1 Hwf Hg) as ([_ Hw1 _] & Hl & Hd & _). destruct (GetOrNew_frozen a s o s1 Hwf Hg) as [Hz _].
  rewrite (Hf _ _ _ _ Hw1 Hl Hd H2). apply Hz.
Qed.

Lemma SetNonce_balance o n s o' s' : wf s -> is_live s o -> so_deleted o = false ->
  StateObject.SetNonce o n s = Ret (o', s') -> forall b, balance s' b = balance s b.
Proof.
  intros Hwf Hl Hd H b. unfold StateObject.SetNonce, StateObject.setNonce in H. minv1 H. rewrite jappend_J in Hm. rewrite setStateObject_put in Hm1. simplify_eq.
  by apply (balance_write s s o o); [apply quiet_obj_refl|..].
Qed.

Lemma SetCode_balance o h c s o' s' : wf s -> is_live s o -> so_deleted o = false ->
  StateObject.SetCode o h c s = Ret (o', s') -> forall b, balance s' b = balance s b.
Proof.
  intros Hwf Hl Hd H b. apply mthen_Ret in H as ([prev o1] & s1 & Hg & H). destruct (Code_quiet _ _ _ _ _ Hl Hg) as [Hq _].
  unfold StateObject.setCode in H. minv1 H. rewrite jappend_J in Hm. rewrite setStateObject_put in Hm1. simplify_eq. by apply (balance_write s s1 o o1).
Qed.

Lemma SetState_balance o k v s o' s' : wf s -> is_live s o -> so_deleted o = false ->
  StateObject.SetState o k v s = Ret (o', s') -> forall b, balance s' b = balance s b.
Proof.
  intros Hwf Hl Hd H b. apply mthen_Ret in H as ([prev o1] & s1 & Hg & H). destruct (GetState_quiet _ _ _ _ _ _ Hl Hg) as [Hq _].
  destruct (prev =? v); [injection H as _ <-; apply balance_eqv, Hq|].
  unfold StateObject.setState in H. minv1 H. rewrite jappend_J in Hm. rewrite setStateObject_put in Hm1. simplify_eq. by apply (balance_write s s1 o o1).
Qed.

Lemma SetBalance_balance o v s o' s' : is_live s o -> so_deleted o = false -> StateObject.SetBalance o v s = Ret (o', s') ->
  smoved (v - Balance (so_data o)) s s'.
Proof.
  intros Hl Hd H. unfold StateObject.SetBalance, StateObject.setBalance in H. minv1 H. rewrite jappend_J in Hm. rewrite setStateObject_put in Hm1. simplify_eq.
  apply (smoved_one (so_address o)).
  - rewrite balance_put by done. rewrite decide_True by done. rewrite (balance_live s o) by done. cbn. lia.
  - intros b Hb. rewrite balance_put by done. by rewrite decide_False.
Qed.

Lemma AddBalance_moved a v s r s' : wf s -> StateDB.AddBalance a v s = Ret (r, s') -> smoved v s s'.
Proof.
  intros Hwf H. apply mthen_Ret in H as (o & s1 & Hg & H). apply mthen_Ret in H as (o' & s2 & H2 & [= _ <-]).
  destruct (GetOrNew_step a s o s1 Hwf Hg) as ([_ Hw1 _] & Hl & Hd & _). destruct (GetOrNew_frozen a s o s1 Hwf Hg) as [Hz _].
  apply (smoved_trans 0 v s s1); [by apply smoved_same, Hz|]. unfold StateObject.AddBalance in H2.
  destruct (Z.sgn v =? 0) eqn:Hv.
  - replace v with 0 by lia. apply smoved_same. intros b. destruct (StateObject.empty o); [|by injection H2 as _ <-].
    unfold StateObject.touch in H2. apply mthen_Ret in H2 as (u & s3 & H3 & [= _ <-]). rewrite jappend_J in H3. by injection H3 as _ <-.
  - replace v with (Balance (so_data o) + v - Balance (so_data o)) at 1 by lia. by eapply SetBalance_balance.
Qed.

Lemma SubBalance_moved a v s r s' : wf s -> StateDB.SubBalance a v s = Ret (r, s') -> smoved (- v) s s'.
Proof.
  intros Hwf H. apply mthen_Ret in H as (o & s1 & Hg & H). apply mthen_Ret in H as (o' & s2 & H2 & [= _ <-]).
  destruct (GetOrNew_step a s o s1 Hwf Hg) as ([_ Hw1 _] & Hl & Hd & _). destruct (GetOrNew_frozen a s o s1 Hwf Hg) as [Hz _].
  apply (smoved_trans 0 (- v) s s1); [by apply smoved_same, Hz|]. unfold StateObject.SubBalance in H2.
  destruct (Z.sgn v =? 0) eqn:Hv.
  - replace v with 0 by lia. apply smoved_same. by injection H2 as _ <-.
  - replace (- v) with (Balance (so_data o) - v - Balance (so_data o)) by lia. by eapply SetBalance_balance.
Qed.

(** A re-created account carries its balance over. *)
Lemma CreateAccount_balance a s r s' : wf s -> StateDB.CreateAccount a s = Ret (r, s') -> forall b, balance s' b = balance s b.
Proof.
  intros Hwf H b. apply mthen_Ret in H as ([n p] & s1 & Hc & H). destruct (createObject_live _ _ _ _ _ Hc) as (Hn & _ & _ & Hp).
  destruct (live s a) as [o|] eqn:Hl; subst p; [|injection H as _ <-; by apply (createObject_frozen a s n None)].
  destruct (createObject_inv _ _ _ _ _ Hc) as (s2 & Hq & _ & _ & _ & Hs1).
  unfold StateObject.setBalance in H. minv1 H. rewrite setStateObject_put in Hm1. injection Hm1 as H. subst s'.
  rewrite balance_put by done. change (so_address _) with a at 1. case_decide as Hab.
  { subst b. unfold balance, account. by rewrite Hl. }
  rewrite balance_put by done. change (so_address _) with a at 1. rewrite decide_False by done.
  rewrite <- (balance_eqv s s2 b) by apply Hq.
  destruct (find_object s a) as [prev|]; [|done]. unfold reset_state. by destruct (bool_decide _).
Qed.

(** Operations that do not pay. *)
Lemma plain_balance {A} (o : SDB.op A) s r s' : SDB.plain o = true -> SDB.pays o = false -> wf s ->
  sdb_run o s = Ret (r, s') -> forall b, balance s' b = balance s b.
Proof.
  intros Hp Hn Hwf H. destruct (SDB.harmless o) eqn:Hh; [apply (harmless_frozen o s r s' Hh Hwf H)|].
  destruct o; try done; cbn [sdb_run] in H.
  - by eapply CreateAccount_balance.
  - apply (with_object_balance a (fun o => StateObject.SetNonce o nonce) s r s' Hwf); [|exact H]. intros ? ? ? ?. apply SetNonce_balance.
  - apply (with_object_balance a (fun o => StateObject.SetCode o (Keccak256Hash (default [] (nilable code))) (nilable code)) s r s' Hwf); [|exact H]. intros ? ? ? ?. apply SetCode_balance.
  - apply (with_object_balance a (fun o => StateObject.SetState o key value) s r s' Hwf); [|exact H]. intros ? ? ? ?. apply SetState_balance.
  - by injection H as _ <-.
Qed.

End Balance.

(** * The laws of the state database

    The methods of StateDB satisfy the laws the virtual machine relies on
    ([StateLaws]): StateRevert provides the snapshot laws, StateVM the freezing
    laws, the first part of this file the conservation laws. *)

Section Laws.
Context {C : Crypto} {D : Database}.

(** ** Preparing the access list *)

Lemma AddAddress_wf al a : al_wf al -> al_wf (snd (AccessList.AddAddress a al)).
Proof. intros Hwf. by destruct (AddAddress_spec al a Hwf) as (al' & -> & ? & _). Qed.

Lemma addSlots_wf a keys : forall al, al_wf al -> exists al', StateDB.addSlots a keys al = Ret al' /\ al_wf al'.
Proof.
  induction keys as [|k keys IH]; intros al Hwf; [by exists al|]. cbn.
  destruct (AddSlot_spec al a k Hwf) as (al' & -> & Hwf' & _). by apply IH.
Qed.

Lemma addTuples_wf l : forall al, al_wf al -> exists al', StateDB.addTuples l al = Ret al' /\ al_wf al'.
Proof.
  induction l as [|[a keys] l IH]; intros al Hwf; [by exists al|]. cbn [StateDB.addTuples].
  destruct (addSlots_wf a keys _ (AddAddress_wf al a Hwf)) as (al' & -> & Hwf'). by apply IH.
Qed.

Lemma fold_AddAddress_wf l : forall al, al_wf al -> al_wf (fold_left (fun al a => snd (AccessList.AddAddress a al)) l al).
Proof. induction l; intros al Hwf; [done|]. cbn [fold_left]. by apply IHl, AddAddress_wf. Qed.

Lemma good_idle s : wf s -> db_validRevisions s = [] -> good s.
Proof. intros Hwf Hi. split; [done|..]; rewrite Hi; intros; set_solver. Qed.

Lemma Prepare_law sender coinbase dest precompiles txAccesses s : good s -> db_validRevisions s = [] ->
  exists s', StateDB.Prepare sender coinbase dest precompiles txAccesses s = Ret (tt, s') /\ good s' /\ sfrozen s s'.
Proof.
  intros Hg Hi. unfold StateDB.Prepare.
  set (al := fold_left _ precompiles _).
  assert (Hwf : al_wf al).
  { apply fold_AddAddress_wf. destruct dest; repeat apply AddAddress_wf; apply al_wf_new. }
  destruct (addTuples_wf txAccesses al Hwf) as (al' & Ht & Hwf'). unfold mthen, mlift. rewrite Ht. cbn.
  eexists. split; [reflexivity|]. split; [|by apply sfrozen_outside].
  apply good_idle; [|done]. apply wf_accessList_upd; [apply Hg|by apply AddAddress_wf].
Qed.

(** ** The laws *)

#[export] Instance statedb_laws : StateLaws StateDB statedb_interface.
Proof.
  refine {| sgood := good; snapped := fun s id s0 => snap_at s id s0 /\ wf s0; same := eqv; frozen := sfrozen;
    moved := smoved; idle := fun s => db_validRevisions s = [] |}.
  - apply eqv_refl.
  - apply eqv_trans.
  - intros A o s r s' Ho Hg H. eapply (reader_quiet o); [done|apply Hg|exact H].
  - intros A o s Hp _. by apply plain_nf.
  - intros A o s r s' Hp Hg H. pose proof (plain_step o s r s' Hp (good_wf _ Hg) H) as Hs.
    destruct (good_step s s' Hg Hs) as [Hg' Hk]. split; [done|]. intros id s0 []. auto.
  - intros a s c s' Hg H. cbn [sdb sdb_run statedb_interface] in H. apply mthen_Ret in H as (b & s1 & _ & H).
    unfold go_bytes in H. destruct (Z.leb_spec (2 ^ 63) (Zlen (default [] b))); [done|]. by injection H as <- _.
  - intros s r s' Hg H. injection H as <- _. apply wf_refund, Hg.
  - intros s Hg. destruct (StateDB.Snapshot s) as [[id s']| |] eqn:Hs; [|done|done]. exists id, s'.
    destruct (Snapshot_good s id s' Hg Hs) as (G & Hsn & Hid & _ & _ & Hk). split_and!; auto; [apply Hg|].
    intros k s0 [Hk0 Hw]. rewrite Hid. split; [by apply live_id_next, (snap_at_live _ _ s0)|auto].
  - intros s id s0 Hg [Hsn Hw]. destruct (RevertToSnapshot_spec s id s0 Hg Hsn Hw) as (s' & i & r & Hr & He & G & _ & _ & _ & _ & Hk).
    exists s'. split_and!; auto. intros k s1 Hlt []. auto.
  - apply sfrozen_trans.
  - apply eqv_sfrozen.
  - intros A o s r s' Hh Hg H. eapply (harmless_frozen o); [done|apply Hg|exact H].
  - intros s id s' Hg H. injection H as _ <-. by apply sfrozen_outside.
  - intros a s s1 s2 Hg. apply create_frozen, Hg.
  - apply smoved_trans.
  - intros s s' Hz. apply smoved_same, Hz.
  - intros A o s r s' Hp Hn Hg H. apply smoved_same. by apply (plain_balance o s r s' Hp Hn (good_wf _ Hg)).
  - intros a v s s' Hg. apply AddBalance_moved, Hg.
  - intros a v s s' Hg. apply SubBalance_moved, Hg.
  - intros A o s r s' Hp Hg Hi H. destruct (plain_step o s r s' Hp (good_wf _ Hg) H) as [_ _ Hr].
    unfold revs in Hr. congruence.
  - apply Prepare_law.
Defined.


End Laws.
