(* ===== verification/StateFinalise.v ===== *)
(** * The end of a transaction

    [Finalise] never fails, leaves a well-formed state without snapshots, and
    changes no balance: an account it deletes is empty. *)

From S2P Require Import Prelude Rlp VMCommon AccessList StateTypes StateObject StateDB StateRevert VMInterface StateVM StateLaws.

Section Finalise.
Context {C : Crypto} {D : Database}.

(** What one iteration keeps. *)
Record tidied (s s' : StateDB) : Prop := {
  td_wf : wf s';
  td_balance : forall b, balance s' b = balance s b;
  td_journal : db_journal s' = db_journal s;
  td_logs : db_logs s' = db_logs s;
  td_tx : db_thash s' = db_thash s /\ db_txIndex s' = db_txIndex s
}.

Lemma tidied_refl s : wf s -> tidied s s.
Proof. by split. Qed.

Lemma tidied_trans s1 s2 s3 : tidied s1 s2 -> tidied s2 s3 -> tidied s1 s3.
Proof.
  intros [A1 A2 A3 A4 [A5 A6]] [B1 B2 B3 B4 [B5 B6]]. split; [done|intros; by rewrite B2, A2|congruence|congruence|split; congruence].
Qed.

Lemma balance_put_any o s b :
  balance (put o s) b = if decide (so_address o = b) then (if so_deleted o then 0 else Balance (so_data o)) else balance s b.
Proof. unfold balance, account, live. rewrite lookup_put. case_decide; [|done]. by destruct (so_deleted o). Qed.

Lemma balance_found s a o : find_object s a = Some o -> balance s a = if so_deleted o then 0 else Balance (so_data o).
Proof. intros Hf. unfold balance, account, live. rewrite Hf. by destruct (so_deleted o). Qed.

(** A state that differs from [put o s] in maps no read of a balance looks at, and
    in the sets of pending and dirty accounts. *)
Lemma tidied_put s s' a o o' : wf s -> find_object s a = Some o -> so_address o' = so_address o -> so_addrHash o' = so_addrHash o ->
  so_data o' = so_data o -> (so_deleted o' = so_deleted o \/ so_deleted o' = true /\ Balance (so_data o) = 0) ->
  db_stateObjects s' = db_stateObjects (put o' s) -> db_trie s' = db_trie s -> db_journal s' = db_journal s ->
  db_accessList s' = db_accessList s -> db_logs s' = db_logs s -> db_logSize s' = db_logSize s -> db_refund s' = db_refund s ->
  db_thash s' = db_thash s -> db_txIndex s' = db_txIndex s -> db_stateObjectsDirty s' = {[a]} ∪ db_stateObjectsDirty s -> tidied s s'.
Proof.
  intros Hwf Hf Ha Hh Hd Hdel E1 E2 E3 E4 E5 E6 E7 E8 E9 E10.
  destruct (wf_objects s Hwf a o Hf) as (Hoa & Hoh & Hoc).
  assert (Hfind : forall b, find_object s' b = find_object (put o' s) b) by (intros b; unfold find_object; by rewrite E1, E2).
  split; [split| | | |].
  - intros b x. rewrite Hfind, lookup_put. case_decide; [|apply Hwf]. intros [= <-]. subst b. unfold object_ok. rewrite Hh, Hd. split_and!; congruence.
  - rewrite E3. apply Hwf.
  - rewrite E4. apply Hwf.
  - rewrite E5. apply Hwf.
  - rewrite E6. apply Hwf.
  - intros b. rewrite E10, Hfind, lookup_put. intros Hb. case_decide; [done|]. apply (wf_dirty s Hwf). set_solver.
  - rewrite E7. apply Hwf.
  - intros b. transitivity (balance (put o' s) b); [unfold balance, account, live; by rewrite Hfind|].
    rewrite balance_put_any. case_decide; [|done]. rewrite (balance_found s b o) by congruence. rewrite Hd.
    destruct Hdel as [-> |[-> ->]]; [done|]. by destruct (so_deleted o).
  - done.
  - done.
  - done.
Qed.

Lemma finalise_one_ok a s : wf s -> exists s', StateDB.finalise_one true a s = Ret (tt, s') /\ tidied s s'.
Proof.
  intros Hwf. unfold StateDB.finalise_one, mthen, mget. cbn [obind fst snd].
  destruct (db_stateObjects s !! a) as [o|] eqn:Ho; [|exists s; split; [done|by apply tidied_refl]].
  pose proof (lookup_live s a o Ho) as Hf. destruct (StateObject.empty o) eqn:He.
  - cbn -[db_stateObjectsDestruct]. eexists. split; [reflexivity|].
    assert (Hb : Balance (so_data o) = 0) by (unfold StateObject.empty in He; lia).
    set (o' := with_so_created false (with_so_deleted true o)).
    apply (tidied_put s _ a o o'); [done..|by right| | | | | | | | | |]; cbn;
      destruct (db_stateObjectsDestruct s !! so_address o); cbn; try done; by rewrite insert_insert_eq.
  - cbn. eexists. split; [reflexivity|].
    set (o' := with_so_created false (with_so_dirtyStorage ∅ (with_so_pendingStorage (so_dirtyStorage o ∪ so_pendingStorage o) o))).
    apply (tidied_put s _ a o o'); [done..|by left| | | | | | | | | |]; cbn; try done; by rewrite insert_insert_eq.
Qed.

Lemma for_each_tidied l : forall s, wf s -> exists s', StateDB.for_each l (StateDB.finalise_one true) s = Ret (tt, s') /\ tidied s s'.
Proof.
  induction l as [|a l IH]; intros s Hwf; [exists s; split; [done|by apply tidied_refl]|]. cbn [StateDB.for_each].
  destruct (finalise_one_ok a s Hwf) as (s1 & H1 & T1). destruct (IH s1 (td_wf _ _ T1)) as (s2 & H2 & T2).
  exists s2. split; [|by eapply tidied_trans]. unfold mthen. rewrite H1. exact H2.
Qed.

(** The state after [Finalise] and before the next transaction. *)
Record finalised (s s' : StateDB) : Prop := {
  fin_good : good s';
  fin_idle : db_validRevisions s' = [];
  fin_balance : forall b, balance s' b = balance s b;
  fin_logs : db_logs s' = db_logs s;
  fin_tx : db_thash s' = db_thash s /\ db_txIndex s' = db_txIndex s
}.

Lemma Finalise_ok s : wf s -> exists s', StateDB.Finalise true s = Ret (tt, s') /\ finalised s s'.
Proof.
  intros Hwf. destruct (for_each_tidied (map fst (map_to_list (dirties (db_journal s)))) s Hwf) as (s1 & H1 & [T1 T2 T3 T4 T5]).
  unfold StateDB.Finalise, mthen, mget. cbn [obind fst snd]. rewrite H1. cbn [obind fst snd].
  unfold StateDB.clearJournalAndRefund, mthen, mget, mput, mmodify, mret. cbn [obind fst snd].
  assert (Hnew : wf (with_db_refund 0 (with_db_journal newJournal s1))).
  { destruct T1. split; auto; [|done]. intros a n. cbn. by rewrite lookup_empty. }
  destruct (0 <? journal_length (db_journal s1)); cbn; eexists; (split; [reflexivity|]); split; auto; apply good_idle; auto.
  - destruct Hnew. by split.
  - destruct T1. by split.
Qed.

End Finalise.
