(* ===== verification/VMDemo.v ===== *)
(** * A machine to run

    A machine over the backing store of Demo.v with a few contracts deployed:
    the witnesses of the theorems on the virtual machine call them. *)

From S2P Require Import Prelude Uint256 Params VMCommon Stack Memory Opcodes Analysis Rlp StateTypes VMInterface Contract GasTable Instructions JumpTable Precompiles Interpreter VMLogic Demo StateObject StateDB StateRevert StateVM StateLaws.

#[export] Existing Instance demo_crypto.
#[export] Existing Instance demo_database.
#[export] Existing Instance uint256_ref.

#[export] Instance demo_ssz : Ssz := {|
  Hasher := list Z; newHasher := []; hh_Index h := Zlen h; hh_PutBytes b h := h ++ b; hh_PutUint64 n h := h ++ [n];
  hh_Merkleize _ h := h; hh_MerkleizeVectorizedHTR _ h := h; EnableVectorizedHTR := false; hh_HashRoot h := Some (take 32 h)
|}.

Definition demo_env : env := mkEnv (fun n => n) 1000 30000000 12 1700000000 7 0 7 10 1 false false.

(** [SSTORE(0, 1); REVERT(0, 0)] *)
Definition code_revert : list Z := [0x60; 1; 0x60; 0; 0x55; 0x60; 0; 0x60; 0; 0xfd].
(** [SSTORE(0, 1); STOP] *)
Definition code_write : list Z := [0x60; 1; 0x60; 0; 0x55; 0x00].
(** [JUMPDEST; PUSH1 0; JUMP], an endless loop. *)
Definition code_spin : list Z := [0x5b; 0x60; 0; 0x56].

(** Account 7 has a balance; contracts are at 100, 101 and 102. *)
Fixpoint run_all (l : list (SDB.op unit)) : M StateDB unit :=
  match l with [] => mret tt | o :: l => sdb o ;;; run_all l end.

Definition demo_deploy : list (SDB.op unit) :=
  [SDB.SetCode 100 code_revert; SDB.SetCode 101 code_write; SDB.SetCode 102 code_spin; SDB.AddBalance 101 50;
   SDB.AddAddressToAccessList 100; SDB.AddAddressToAccessList 101; SDB.AddAddressToAccessList 102].

Definition demo_world : StateDB := state_after (run_all demo_deploy demo_state).
Definition demo_vm (ro : bool) : QRVM StateDB := mkVM demo_world 0 0 ro [] [] ∅.

Lemma run_all_good l : forall s s', forallb SDB.plain l = true -> good s -> run_all l s = Ret (tt, s') -> good s'.
Proof.
  induction l as [|o l IH]; intros s s' Hp Hg Hr; cbn [run_all] in Hr; [by injection Hr as <-|].
  cbn in Hp. apply andb_prop in Hp as [Hp1 Hp2]. apply mthen_Ret in Hr as ([] & s1 & H1 & H2).
  eapply IH; [done| |exact H2]. by apply (@plain_keeps StateDB statedb_interface statedb_laws _ o s tt s1 Hp1 Hg).
Qed.

Lemma demo_vm_good ro : vgood (demo_vm ro).
Proof.
  eapply (run_all_good demo_deploy demo_state); [done|apply New_good, demo_database_ok|].
  refine (value_of_run (run_all demo_deploy demo_state) tt _). vm_compute. reflexivity.
Qed.

(** The outcome of a run, without the state. *)
Definition result_of {A} (r : outcome (A * QRVM StateDB)) : option A :=
  match r with Ret (v, _) => Some v | _ => None end.
Definition vm_after {A} (r : outcome (A * QRVM StateDB)) : QRVM StateDB :=
  match r with Ret (_, v) => v | _ => demo_vm false end.
Lemma result_of_run {A} (r : outcome (A * QRVM StateDB)) v : result_of r = Some v -> r = Ret (v, vm_after r).
Proof. destruct r as [[]| |]; [|done|done]. by intros [= ->]. Qed.

Definition demo_fuel : nat := Z.to_nat 60001.

(** The same world, with an account that can pay for gas. *)
Definition rich_world : StateDB := state_after (run_all (demo_deploy ++ [SDB.AddBalance 7 2000000]) demo_state).
Definition rich_vm : QRVM StateDB := mkVM rich_world 0 0 false [] [] ∅.

Lemma rich_vm_good : vgood rich_vm.
Proof.
  eapply (run_all_good (demo_deploy ++ [SDB.AddBalance 7 2000000]) demo_state); [done|apply New_good, demo_database_ok|].
  refine (value_of_run (run_all (demo_deploy ++ [SDB.AddBalance 7 2000000]) demo_state) tt _). vm_compute. reflexivity.
Qed.

Lemma rich_vm_idle : idle (vm_StateDB rich_vm).
Proof. vm_compute. reflexivity. Qed.
