(* ===== verification/VMStack.v ===== *)
(** * The operand stack under the interpreter

    Every entry of the jump table changes the height of the stack by the
    difference its bounds announce, so the interpreter keeps the stack within
    its limit. *)

From S2P Require Import Prelude Uint256 Params VMCommon Stack Memory Opcodes Analysis Rlp StateTypes VMInterface Contract GasTable Instructions JumpTable Precompiles Interpreter VMTable StateDB StateVM StateLaws VMDemo.

Create HintDb vmheight discriminated.

Section Heights.
Context {S : Type} {SI : StateI S} {U : Uint256} {C : Crypto} {H : Ssz}.

Definition height (f : frame S) : Z := Stack.len (f_Stack f).

(** [m] changes the height of the stack by [d] when it returns. *)
Definition shift {A} (d : Z) (m : M (frame S) A) : Prop := forall f a f', m f = Ret (a, f') -> height f' = height f + d.

(** The same for a handler, when it returns without an error. *)
Definition effect (d : Z) (m : executionFunc (S:=S)) : Prop :=
  forall f r f', m f = Ret ((r, None), f') -> height f' = height f + d.

(** ** Rules *)

Lemma shift_ret {A} (a : A) : shift 0 (mret a).
Proof. intros f r f' [= _ <-]. lia. Qed.
Lemma shift_panic {A} d : shift d (mpanic : M (frame S) A).
Proof. done. Qed.
Lemma shift_get : shift 0 (mget : M (frame S) (frame S)).
Proof. intros f r f' [= _ <-]. lia. Qed.
Lemma shift_lift {A} (o : outcome A) : shift 0 (mlift o).
Proof. intros f r f' Hr. unfold mlift in Hr. destruct o; cbn in Hr; [|done|done]. injection Hr as _ <-. lia. Qed.
Lemma shift_modify g : (forall f, f_Stack (g f) = f_Stack f) -> shift 0 (mmodify g).
Proof. intros Hg f r f' [= _ <-]. unfold height. rewrite Hg. lia. Qed.
Lemma shift_on_vm {A} (m : M (QRVM S) A) : shift 0 (on_vm m).
Proof. intros f r f' Hr. unfold on_vm in Hr. destruct (m (f_vm f)) as [[a v]| |]; cbn in Hr; [|done|done]. injection Hr as _ <-. unfold height; cbn. lia. Qed.
Lemma shift_state {A} (o : SDB.op A) : shift 0 (state o).
Proof. apply shift_on_vm. Qed.
Lemma shift_stack {A} d (m : M Stack.t A) : (forall st a st', m st = Ret (a, st') -> Stack.len st' = Stack.len st + d) -> shift d (on_stack m).
Proof.
  intros Hm f r f' Hr. unfold on_stack in Hr. destruct (m (f_Stack f)) as [[a st]| |] eqn:E; cbn in Hr; [|done|done].
  injection Hr as _ <-. unfold height; cbn. by eapply Hm.
Qed.

Lemma shift_bind {A B} d d1 (m : M (frame S) A) (k : A -> M (frame S) B) :
  shift d1 m -> (forall a, shift (d - d1) (k a)) -> shift d (mthen m k).
Proof.
  intros Hm Hk f r f' Hr. apply mthen_Ret in Hr as (a & f1 & H1 & H2). specialize (Hm _ _ _ H1). specialize (Hk _ _ _ _ H2). lia.
Qed.
Lemma effect_bind {A} d d1 (m : M (frame S) A) (k : A -> executionFunc (S:=S)) :
  shift d1 m -> (forall a, effect (d - d1) (k a)) -> effect d (mthen m k).
Proof.
  intros Hm Hk f r f' Hr. apply mthen_Ret in Hr as (a & f1 & H1 & H2). specialize (Hm _ _ _ H1). specialize (Hk _ _ _ _ H2). lia.
Qed.
Lemma effect_err d r er : effect d (mret (r, Some er)).
Proof. done. Qed.
Lemma effect_ok d r : d = 0 -> effect d (mret (r, None)).
Proof. intros -> f r' f' [= _ <-]. lia. Qed.
Lemma effect_panic d : effect d mpanic.
Proof. done. Qed.

Lemma shift_pop : shift (-1) (pop : M (frame S) Z).
Proof. apply shift_stack. intros [|x st] a st'; [done|]. intros [= <- <-]. unfold Stack.len, Zlen; cbn. lia. Qed.
Lemma shift_push d : shift 1 (push d : M (frame S) unit).
Proof. apply shift_stack. intros st a st' [= <- <-]. unfold Stack.len, Zlen, Stack.push; cbn. lia. Qed.
Lemma go_set_len {A} (l l' : list A) i v : go_set l i v = Ret l' -> length l' = length l.
Proof. unfold go_set. case_match; [|done]. intros [= <-]. apply length_insert. Qed.
Lemma shift_set_top d : shift 0 (set_top d : M (frame S) unit).
Proof.
  apply shift_stack. intros st a st' Hr. apply obind_Ret in Hr as (st1 & H1 & [= <- <-]).
  apply go_set_len in H1. unfold Stack.len, Zlen. lia.
Qed.
Lemma shift_peek : shift 0 (peek : M (frame S) Z).
Proof. eapply (shift_bind 0 0); [apply shift_get|intros; apply shift_lift]. Qed.
Lemma shift_Back n : shift 0 (Back n : M (frame S) Z).
Proof. eapply (shift_bind 0 0); [apply shift_get|intros; apply shift_lift]. Qed.
Lemma shift_contract : shift 0 (the_contract : M (frame S) Contract).
Proof. eapply (shift_bind 0 0); [apply shift_get|intros; apply shift_ret]. Qed.
Lemma shift_put_after {A} (g : frame S -> frame S) (m : M (frame S) A) : (forall f, f_Stack (g f) = f_Stack f) ->
  shift 0 m -> shift 0 (let* f := mget in mput (g f) ;;; m).
Proof.
  intros Hg Hm f r f' Hr. apply mthen_Ret in Hr as (a & f1 & [= <- <-] & Hr). apply mthen_Ret in Hr as ([] & f2 & [= <-] & Hr).
  specialize (Hm _ _ _ Hr). unfold height in *. by rewrite Hg in Hm.
Qed.
Lemma shift_use_gas g : shift 0 (use_gas g : M (frame S) bool).
Proof.
  intros f r f' Hr. unfold use_gas, mthen, mget in Hr. cbn in Hr. destruct (Contract.UseGas g (f_Contract f)) as [ok c].
  cbn in Hr. injection Hr as _ <-. unfold height; cbn. lia.
Qed.
Lemma shift_set_memory g : shift 0 (set_memory g : M (frame S) unit).
Proof.
  intros f r f' Hr. unfold set_memory, mthen, mget, mlift in Hr. cbn in Hr. destruct (g (f_Memory f)); cbn in Hr; [|done|done].
  injection Hr as _ <-. unfold height; cbn. lia.
Qed.
Lemma shift_mem_gas sz : shift 0 (mem_gas sz : M (frame S) _).
Proof.
  intros f r f' Hr. unfold mem_gas, mthen, mget in Hr. cbn in Hr. destruct (memoryGasCost sz (f_Memory f)) as [x m'].
  cbn in Hr. injection Hr as _ <-. unfold height; cbn. lia.
Qed.
Lemma shift_add_call_gas g : shift 0 (add_call_gas g : M (frame S) _).
Proof.
  intros f r f' Hr. unfold add_call_gas in Hr. apply mthen_Ret in Hr as (f0 & f1 & [= <- <-] & Hr).
  apply mthen_Ret in Hr as (x & f2 & H1 & Hr). pose proof (shift_Back _ _ _ _ H1) as Hb.
  assert (f2 = f) as ->.
  { apply mthen_Ret in H1 as (? & ? & [= <- <-] & H1). unfold mlift in H1. apply obind_Ret in H1 as (? & _ & [= _ <-]). done. }
  destruct (callGas _ _ _) as [t er]. apply mthen_Ret in Hr as ([] & f3 & [= <-] & Hr).
  assert (Hk : f' = with_f_vm (with_vm_callGasTemp t (f_vm f)) f).
  { unfold add_or_err, gas_err, gas_ok in Hr. repeat case_match; by injection Hr as _ <-. }
  subst f'. unfold height; cbn. lia.
Qed.

Lemma shift_abort : shift 0 (abort_load : M (frame S) bool).
Proof.
  intros f r f' Hr. unfold abort_load, mthen, mget in Hr. cbn in Hr. destruct (vm_abort (f_vm f)); cbn in Hr;
    injection Hr as _ <-; unfold height; cbn; lia.
Qed.
Lemma shift_valid_jumpdest pos : shift 0 (valid_jumpdest pos : M (frame S) bool).
Proof.
  eapply (shift_bind 0 0); [apply shift_get|intros f]. eapply (shift_bind _ 0); [apply shift_on_vm|intros [ok c]].
  eapply (shift_bind _ 0); [by apply shift_modify|intros; apply shift_ret].
Qed.

End Heights.

#[export] Hint Resolve shift_ret shift_panic shift_get shift_lift shift_on_vm shift_state shift_pop shift_push shift_set_top
  shift_peek shift_Back shift_contract shift_use_gas shift_set_memory shift_mem_gas shift_add_call_gas
  shift_abort shift_valid_jumpdest : vmheight.

(** Follow the structure of a handler, or of a gas function. *)
Ltac heights := intros; repeat first
  [ solve [eauto with vmheight]
  | solve [apply shift_modify; reflexivity]
  | apply effect_err | apply effect_panic | solve [apply effect_ok; lia]
  | eapply effect_bind; [solve [eauto with vmheight | apply shift_modify; reflexivity]|intros ?]
  | apply (effect_bind _ 0); [|intros ?]
  | eapply shift_bind; [solve [eauto with vmheight | apply shift_modify; reflexivity]|intros ?]
  | apply (shift_bind _ 0); [|intros ?]
  | case_match ].

Section Table.
Context {S : Type} {SI : StateI S} {U : Uint256} {C : Crypto} {H : Ssz}.
Context (e : env) (q : entryPoints S).

(** The height changes by what the upper bound announces. *)
Definition balanced (o : operation (S:=S)) : Prop := effect (StackLimit - op_maxStack o) (execute o).

Lemma effect_dup n : effect (S:=S) 1 (makeDup n).
Proof.
  apply (effect_bind 1 1); [|by intros; apply effect_ok]. apply shift_stack. intros st a st' Hr.
  apply obind_Ret in Hr as (st1 & Hd & [= _ <-]). apply obind_Ret in Hd as (x & _ & [= <-]). unfold Stack.len, Zlen; cbn. lia.
Qed.
Lemma effect_swap n : effect (S:=S) 0 (makeSwap n).
Proof.
  apply (effect_bind 0 0); [|by intros; apply effect_ok]. apply shift_stack. intros st a st' Hr.
  apply obind_Ret in Hr as (st1 & Hd & [= _ <-]). unfold Stack.swap in Hd. apply obind_Ret in Hd as (x & _ & Hd).
  apply obind_Ret in Hd as (y & _ & Hd). apply obind_Ret in Hd as (st2 & H2 & Hd).
  apply go_set_len in H2. apply go_set_len in Hd. unfold Stack.len, Zlen. lia.
Qed.
Lemma effect_makePush a b : effect (S:=S) 1 (makePush a b).
Proof. unfold makePush, set_pc, done_ok. heights. Qed.

Lemma shift_topics n : shift (S:=S) (- Z.of_nat n) (pop_topics n).
Proof.
  induction n as [|n IH]; cbn [pop_topics]; [apply shift_ret|].
  eapply shift_bind; [apply shift_pop|intros x]. replace (_ - -1) with (- Z.of_nat n) by lia.
  eapply shift_bind; [exact IH|intros l]. rewrite Z.sub_diag. apply shift_ret.
Qed.
Lemma effect_makeLog n : effect (S:=S) (-2 - Z.of_nat n) (makeLog e n).
Proof.
  unfold makeLog, fail, done_ok. eapply effect_bind; [apply shift_get|intros f]. case_match; [apply effect_err|].
  do 2 (eapply effect_bind; [apply shift_pop|intros ?]). eapply effect_bind; [apply shift_topics|intros ?]. heights.
Qed.

Ltac balance :=
  unfold balanced, maxStack, maxDupStack, maxSwapStack; cbn [execute op_maxStack];
  match goal with |- effect ?d _ => let d' := eval vm_compute in d in change d with d' end;
  lazymatch goal with
  | |- effect _ (makeDup _) => apply effect_dup
  | |- effect _ (makeSwap _) => apply effect_swap
  | |- effect _ (makePush _ _) => apply effect_makePush
  | |- effect _ (makeLog _ ?n) => apply (effect_makeLog n)
  | |- effect _ ?h =>
      unfold opStop, opAdd, opSub, opMul, opDiv, opSdiv, opMod, opSmod, opExp, opSignExtend, opNot, opLt, opGt, opSlt, opSgt,
        opEq, opIszero, opAnd, opOr, opXor, opByte, opAddmod, opMulmod, opSHL, opSHR, opSAR, opKeccak256, opAddress, opBalance,
        opOrigin, opCaller, opCallValue, opCallDataLoad, opCallDataSize, opCallDataCopy, opReturnDataSize, opReturnDataCopy,
        opExtCodeSize, opCodeSize, opCodeCopy, opExtCodeCopy, opExtCodeHash, opGasprice, opBlockhash, opCoinbase, opTimestamp,
        opNumber, opRandom, opGasLimit, opSelfBalance, opChainID, opBaseFee, opPop, opMload, opMstore, opMstore8, opSload,
        opSstore, opJump, opJumpi, opJumpdest, opPc, opMsize, opGas, opReturn, opRevert, opUndefined, opPush0, opPush1, opCreate,
        opCreate2, opCall, opDelegateCall, opStaticCall, finish_call, return_gas, set_returnData, set_pc, binop, fail, done_ok; heights
  end.

Definition all_balanced (l : list (Z * operation)) : Prop := Forall (fun p => balanced (snd p)) l.
Ltac table := repeat (constructor; cbn [snd]); balance.

Lemma tbl0_balanced : all_balanced tbl0. Proof. unfold tbl0. table. Qed.
Lemma tbl1_balanced : all_balanced (tbl1 e). Proof. unfold tbl1. table. Qed.
Lemma tbl2_balanced : all_balanced tbl2. Proof. unfold tbl2. table. Qed.
Lemma tbl3_balanced : all_balanced tbl3. Proof. unfold tbl3. table. Qed.
Lemma tbl4_balanced : all_balanced tbl4. Proof. unfold tbl4. table. Qed.
Lemma tbl5_balanced : all_balanced (tbl5 e q). Proof. unfold tbl5. table. Qed.
Lemma tbl6_balanced : all_balanced (tbl6 e q). Proof. unfold tbl6. table. Qed.

Lemma slot_balanced op : balanced (newZondInstructionSet e q op).
Proof.
  unfold newZondInstructionSet. destruct (Op.assoc _ _) as [o|] eqn:Ho; cbn [default].
  - eapply (assoc_Forall balanced); [|exact Ho]. unfold zond_entries. rewrite !Forall_app.
    split_and!; [apply tbl0_balanced|apply tbl1_balanced|apply tbl2_balanced|apply tbl3_balanced|apply tbl4_balanced
                |apply tbl5_balanced|apply tbl6_balanced].
  - unfold undefinedOperation. balance.
Qed.

(** ** Gas functions do not touch the stack *)

Definition still_stack (o : operation (S:=S)) : Prop := forall dg, dynamicGas o = Some dg -> forall sz, shift 0 (dg sz).

Lemma still_none m c mn mx ms : still_stack (mkOp m c None mn mx ms).
Proof. done. Qed.
Lemma still_some m c dg mn mx ms : (forall sz, shift 0 (dg sz)) -> still_stack (mkOp m c (Some dg) mn mx ms).
Proof. by intros ? ? [= <-]. Qed.

Ltac gas_still :=
  lazymatch goal with
  | |- still_stack (mkOp _ _ None _ _ _) => apply still_none
  | |- still_stack _ =>
      apply still_some; intros sz;
      unfold gasCallEIP2929, gasDelegateCallEIP2929, gasStaticCallEIP2929, makeCallVariantGasCallEIP2929, gasCall,
        gasDelegateCall, gasStaticCall, gasSStoreEIP3529, makeGasSStoreFunc, gasSLoadEIP2929, gasExtCodeCopyEIP2929,
        gasEip2929AccountCheck, gasExpEIP158, gasCreate2Eip3860, gasCreateEip3860, gasReturn, gasRevert, gasMLoad, gasMStore8,
        gasMStore, pureMemoryGascost, gasKeccak256, makeGasLog, gasReturnDataCopy, gasExtCodeCopy, gasCodeCopy, gasCallDataCopy,
        memoryCopierGas, gas_then, add_or_err, gas_ok, gas_err; heights
  end.
Ltac stills := repeat (constructor; cbn [snd]); gas_still.

Definition all_still (l : list (Z * operation)) : Prop := Forall (fun p => still_stack (snd p)) l.

Lemma tbl0_still : all_still tbl0. Proof. unfold tbl0. stills. Qed.
Lemma tbl1_still : all_still (tbl1 e). Proof. unfold tbl1. stills. Qed.
Lemma tbl2_still : all_still tbl2. Proof. unfold tbl2. stills. Qed.
Lemma tbl3_still : all_still tbl3. Proof. unfold tbl3. stills. Qed.
Lemma tbl4_still : all_still tbl4. Proof. unfold tbl4. stills. Qed.
Lemma tbl5_still : all_still (tbl5 e q). Proof. unfold tbl5. stills. Qed.
Lemma tbl6_still : all_still (tbl6 e q). Proof. unfold tbl6. stills. Qed.

Lemma slot_still op : still_stack (newZondInstructionSet e q op).
Proof.
  unfold newZondInstructionSet. destruct (Op.assoc _ _) as [o|] eqn:Ho; cbn [default]; [|apply still_none].
  eapply (assoc_Forall still_stack); [|exact Ho]. unfold zond_entries. rewrite !Forall_app.
  split_and!; [apply tbl0_still|apply tbl1_still|apply tbl2_still|apply tbl3_still|apply tbl4_still|apply tbl5_still|apply tbl6_still].
Qed.

Lemma charge_dynamic_still o : still_stack o -> shift 0 (charge_dynamic o).
Proof.
  intros Ho. unfold charge_dynamic. unfold still_stack in Ho. destruct (dynamicGas o) as [dg|]; [|apply shift_ret].
  specialize (Ho dg eq_refl). eapply shift_bind; [apply shift_get|intros f]. eapply (shift_bind _ 0).
  - destruct (memorySize o); heights.
  - intros [er|sz]; [apply shift_ret|]. eapply shift_bind; [apply Ho|intros [cost er]]. heights.
Qed.

End Table.

(** ** Reachable frames *)

Section Reach.
Context {S : Type} {SI : StateI S} {U : Uint256} {C : Crypto} {H : Ssz}.
Context (e : env) (run : runner (S:=S)).

(** The frames the loop goes through. *)
Inductive reach (f : frame S) : frame S -> Prop :=
| reach_here : reach f f
| reach_step g h : reach f g -> step e run g = Ret (None, h) -> reach f h.

Definition start (contract : Contract) (v : QRVM S) : frame S := mkFrame 0 Stack.newstack Memory.NewMemory contract v.

Lemma step_height f f' : step e run f = Ret (None, f') -> height f' <= StackLimit.
Proof.
  intros Hs. unfold step in Hs. apply mthen_Ret in Hs as (f0 & f1 & [= <- <-] & Hs). apply mthen_Ret in Hs as (op & f1 & Hop & Hs).
  assert (f1 = f) as -> by (unfold mlift in Hop; by apply obind_Ret in Hop as (? & _ & [= _ <-])).
  pose proof (slot_balanced e (entry run) op) as Hb. pose proof (slot_still e (entry run) op) as Hst.
  set (o := newZondInstructionSet e (entry run) op) in *. clearbody o.
  destruct (_ <? op_minStack o); [done|]. destruct (Z.ltb_spec (op_maxStack o) (Stack.len (f_Stack f))) as [|Hmax]; [done|].
  apply mthen_Ret in Hs as (ok & f1 & H1 & Hs). destruct ok; [|done]. cbn [negb] in Hs.
  apply mthen_Ret in Hs as (er & f2 & H2 & Hs). destruct er; [done|].
  apply mthen_Ret in Hs as ([res er] & f3 & H3 & Hs). destruct er; [done|]. injection Hs as <-.
  apply shift_use_gas in H1. apply (charge_dynamic_still o Hst) in H2. apply Hb in H3.
  unfold height in *. cbn. lia.
Qed.

(** [C22] The operand stack never grows beyond its limit: in every frame the
    interpreter reaches from the start of a contract it holds at most 1024
    words. *)
Theorem stack_bounded contract v f : reach (start contract v) f -> 0 <= Stack.len (f_Stack f) <= 1024.
Proof.
  intros Hr. split; [apply Nat2Z.is_nonneg|]. destruct Hr as [|g h _ Hs]; [done|]. apply (step_height g h Hs).
Qed.

End Reach.

Definition demo_contract : Contract :=
  mkContract 7 (AccountRef 7) 101 None code_write 0 (Some 101) [] 50000 (Some 0).
Definition demo_start : frame StateDB := start demo_contract (demo_vm false).
Definition goes_on (r : outcome (option (list Z * option vm_error) * frame StateDB)) : bool :=
  match r with Ret (None, _) => true | _ => false end.
Definition next_frame (r : outcome (option (list Z * option vm_error) * frame StateDB)) : frame StateDB :=
  match r with Ret (_, f) => f | _ => demo_start end.
Lemma goes_on_run r : goes_on r = true -> r = Ret (None, next_frame r).
Proof. by destruct r as [[[]]| |]. Qed.

Definition demo_next : frame StateDB := next_frame (step demo_env (Run demo_env 10) demo_start).

Lemma stack_bounded_witness : Stack.len (f_Stack demo_next) = 1 /\ 0 <= Stack.len (f_Stack demo_next) <= 1024.
Proof.
  split; [vm_compute; reflexivity|].
  apply (stack_bounded demo_env (Run demo_env 10) demo_contract (demo_vm false) demo_next).
  eapply reach_step; [apply reach_here|]. apply goes_on_run. vm_compute. reflexivity.
Defined.
