(* ===== verification/VMTheorems.v ===== *)
(** * What the virtual machine guarantees

    The properties of calls and creations for any state implementation that
    satisfies the laws of VMInterface, and their instances for StateDB. *)

From S2P Require Import Prelude Uint256 Params VMCommon Stack Memory Opcodes Analysis Rlp StateTypes VMInterface Contract GasTable Instructions JumpTable Precompiles Interpreter VMLogic VMHandlers VMGas VMRun VMLoop VMTurn VMTable Demo StateObject StateDB StateRevert StateVM StateLaws VMDemo.

Section Theorems.
Context {S : Type} {SI : StateI S} {L : StateLaws S SI} {U : Uint256} {UT : Uint256Typed U} {C : Crypto} {H : Ssz}.
Context (e : env).

(** Enough fuel for an amount of gas: every instruction that does not end a run
    costs at least one unit, and so does every nested run. *)
Definition fuel_for (gas : Z) (fuel : nat) : Prop := in64 gas /\ gas < Z.of_nat fuel.

Lemma Run_fuel gas fuel : fuel_for gas fuel -> 0 <= gas < Z.min (Z.of_nat fuel) (2 ^ 64).
Proof. intros [Hg ?]. unfold in64 in Hg. lia. Qed.

(** A result with the machine's bookkeeping restored. *)
Definition restored (v v' : QRVM S) : Prop := vgood v' /\ vm_depth v' = vm_depth v /\ vm_readOnly v' = vm_readOnly v.

Lemma vm_step_restored ro v v' : vm_step ro v v' -> restored v v'.
Proof. by intros []. Qed.

(** [C1] A call with more fuel than gas ends: whatever the callee's code and the
    contracts it calls in turn, the interpreter does not run forever; it hands
    back at most the gas it was given, and the call depth and the read-only flag
    are as before. *)
Theorem call_terminates fuel caller addr input gas value v :
  vgood v -> fuel_for gas fuel -> (vm_readOnly v = true -> value = 0) ->
  match Call (entry_at e fuel) caller addr input gas value v with
  | Ret ((_, leftOverGas, _), v') => 0 <= leftOverGas <= gas /\ restored v v'
  | Panic => True
  | OutOfFuel => False
  end.
Proof.
  intros Hv Hf Hval. pose proof (qrvm_Call_within _ _ (Run_ok e fuel) (vm_readOnly v) caller addr input gas value
    (Run_fuel _ _ Hf) Hval v Hv eq_refl) as Hc. cbn [entry_at entry Call].
  destruct (qrvm_Call _ _ _ _ _ _ v) as [[[[ret leftOverGas] err] v']| |]; [|done|done].
  destruct Hc as [Hs Hg]. split; [exact Hg|by eapply vm_step_restored].
Qed.

(** A contract creation with more fuel than gas ends, hands back at most the
    gas it was given and restores the depth and the read-only flag. *)
Theorem create_terminates fuel caller code gas value v :
  vgood v -> fuel_for gas fuel -> vm_readOnly v = false -> Zlen code < 2 ^ 63 ->
  match Create (entry_at e fuel) caller code gas value v with
  | Ret ((_, _, leftOverGas, _), v') => 0 <= leftOverGas <= gas /\ restored v v'
  | Panic => True
  | OutOfFuel => False
  end.
Proof.
  intros Hv Hf Hro Hl. pose proof (qrvm_Create_within _ _ (Run_ok e fuel) caller code gas value (Run_fuel _ _ Hf) Hl v Hv Hro) as Hc.
  cbn [entry_at entry Create]. destruct (qrvm_Create _ _ _ _ _ v) as [[[[[ret a] leftOverGas] err] v']| |]; [|done|done].
  destruct Hc as [Hs Hg]. split; [exact Hg|by eapply vm_step_restored].
Qed.

(** [C4] A static call changes nothing a contract can observe: balances, nonces,
    codes, logs and the storage of existing accounts are frozen, whatever the
    callee does and whether or not it fails. *)
Theorem static_call_frozen fuel caller addr input gas v ret leftOverGas err v' :
  vgood v -> fuel_for gas fuel ->
  StaticCall (entry_at e fuel) caller addr input gas v = Ret ((ret, leftOverGas, err), v') ->
  frozen (vm_StateDB v) (vm_StateDB v').
Proof.
  intros Hv Hf Hc. pose proof (qrvm_StaticCall_within _ _ (Run_ok e fuel) (vm_readOnly v) caller addr input gas
    (Run_fuel _ _ Hf) v Hv eq_refl) as Hw. cbn [entry_at entry StaticCall] in Hc. rewrite Hc in Hw.
  destruct Hw as [[] _]. auto.
Qed.

(** Inside a static call every further call is frozen as well: a machine that
    is read-only runs calls without value, and delegate calls, that freeze the
    state. *)
Theorem readonly_call_frozen fuel caller addr input gas v ret leftOverGas err v' :
  vgood v -> fuel_for gas fuel -> vm_readOnly v = true ->
  Call (entry_at e fuel) caller addr input gas 0 v = Ret ((ret, leftOverGas, err), v') \/
  DelegateCall (entry_at e fuel) caller addr input gas v = Ret ((ret, leftOverGas, err), v') ->
  frozen (vm_StateDB v) (vm_StateDB v').
Proof.
  intros Hv Hf Hro [Hc|Hc]; cbn [entry_at entry Call DelegateCall] in Hc.
  - pose proof (qrvm_Call_within _ _ (Run_ok e fuel) true caller addr input gas 0 (Run_fuel _ _ Hf) ltac:(done) v Hv Hro) as Hw.
    rewrite Hc in Hw. destruct Hw as [[] _]. auto.
  - pose proof (qrvm_DelegateCall_within _ _ (Run_ok e fuel) true caller addr input gas (Run_fuel _ _ Hf) v Hv Hro) as Hw.
    rewrite Hc in Hw. destruct Hw as [[] _]. auto.
Qed.

(** [C18] No call and no creation makes or destroys money: whatever the code does,
    the sum of all balances is the same afterwards. *)
Theorem calls_conserve_value fuel caller addr input gas value v ret leftOverGas err v' :
  vgood v -> fuel_for gas fuel -> (vm_readOnly v = true -> value = 0) -> Zlen input < 2 ^ 63 ->
  Call (entry_at e fuel) caller addr input gas value v = Ret ((ret, leftOverGas, err), v') \/
  vm_readOnly v = false /\ Create (entry_at e fuel) caller input gas value v = Ret ((ret, addr, leftOverGas, err), v') ->
  moved 0 (vm_StateDB v) (vm_StateDB v').
Proof.
  intros Hv Hf Hval Hl [Hc|[Hro Hc]]; cbn [entry_at entry Call Create] in Hc.
  - pose proof (qrvm_Call_within _ _ (Run_ok e fuel) _ caller addr input gas value (Run_fuel _ _ Hf) Hval v Hv eq_refl) as Hw.
    rewrite Hc in Hw. by destruct Hw as [[] _].
  - pose proof (qrvm_Create_within _ _ (Run_ok e fuel) caller input gas value (Run_fuel _ _ Hf) Hl v Hv Hro) as Hw.
    rewrite Hc in Hw. by destruct Hw as [[] _].
Qed.

(** ** Failure restores the state *)

Lemma settle_fails b fr m Q v ret leftOverGas er v' : vq b fr m Q -> vgood v -> vm_readOnly v = b ->
  (let* id := vstate SDB.Snapshot in let* r := m in settle id r) v = Ret ((ret, leftOverGas, Some er), v') ->
  same (vm_StateDB v) (vm_StateDB v') /\ (er <> ErrExecutionReverted -> leftOverGas = 0).
Proof.
  intros Hm Hv Hb Hr. apply mthen_Ret in Hr as (id & v1 & Hs & Hr). unfold vstate in Hs.
  destruct (snapshot_law (vm_StateDB v) Hv) as (id' & s1 & Hs' & Hg1 & Hsn & _). rewrite Hs' in Hs. cbn in Hs.
  injection Hs as -> <-. apply mthen_Ret in Hr as (r & v2 & Hb2 & Hr).
  specialize (Hm (with_vm_StateDB s1 v) Hg1 Hb). rewrite Hb2 in Hm. destruct Hm as [Hst _].
  destruct r as [[ret0 g0] [er0|]]; cbn in Hr; [|by injection Hr as ? ? ? ?].
  apply mthen_Ret in Hr as ([] & v3 & Hv3 & Hr). unfold vstate in Hv3.
  destruct (revert_law (vm_StateDB v2) id (vm_StateDB v) (vs_good _ _ _ Hst)) as (s3 & Hrv & _ & Hsame & _).
  { by apply (vs_kept _ _ _ Hst). }
  rewrite Hrv in Hv3. cbn in Hv3. injection Hv3 as <-. injection Hr as <- <- <- <-.
  split; [exact Hsame|]. intros Hne. by rewrite bool_decide_eq_false_2.
Qed.

(** A plain operation keeps the machine good; a read keeps what can be read. *)
Lemma vstate_plain {A} (o : SDB.op A) v r v' : SDB.plain o = true -> vgood v -> vstate o v = Ret (r, v') ->
  vgood v' /\ vm_readOnly v' = vm_readOnly v /\ sdb o (vm_StateDB v) = Ret (r, vm_StateDB v').
Proof.
  intros Hp Hv Ho. unfold vstate in Ho. destruct (sdb o (vm_StateDB v)) as [[y s1]| |] eqn:E; cbn in Ho; [|done|done].
  injection Ho as -> <-. destruct (plain_keeps _ o _ _ _ Hp Hv E). by split_and!.
Qed.

Lemma vstate_read {A} (o : SDB.op A) v r v' : SDB.reader o = true -> SDB.plain o = true -> vgood v -> vstate o v = Ret (r, v') ->
  same (vm_StateDB v) (vm_StateDB v') /\ vgood v' /\ vm_readOnly v' = vm_readOnly v.
Proof. intros Hr Hp Hv Ho. destruct (vstate_plain o v r v' Hp Hv Ho) as (? & ? & E). split_and!; auto. by eapply (same_read _ o). Qed.

Lemma CanTransfer_same addr amount v ok v' : vgood v -> CanTransfer addr amount v = Ret (ok, v') ->
  same (vm_StateDB v) (vm_StateDB v') /\ vgood v' /\ vm_readOnly v' = vm_readOnly v.
Proof. intros Hv Hc. apply mthen_Ret in Hc as (x & v1 & Hx & [= _ <-]). by apply (vstate_read (SDB.GetBalance addr) v x). Qed.

(** The errors of a call that happen before anything is done. *)
Definition early (er : vm_error) : bool := bool_decide (er = ErrDepth) || bool_decide (er = ErrInsufficientBalance).

(** [C2] A call that fails leaves no trace: the state reads exactly as before the
    call, value transfer and account creation included; unless the callee
    reverted, or the call was refused at once, all its gas is gone. *)
Theorem call_error_restores fuel caller addr input gas value v ret leftOverGas er v' :
  vgood v -> fuel_for gas fuel -> (vm_readOnly v = true -> value = 0) ->
  Call (entry_at e fuel) caller addr input gas value v = Ret ((ret, leftOverGas, Some er), v') ->
  same (vm_StateDB v) (vm_StateDB v') /\
  (er = ErrExecutionReverted \/ leftOverGas = 0 \/ early er = true /\ leftOverGas = gas).
Proof.
  intros Hv Hf Hval Hc. cbn [entry_at entry Call] in Hc. rewrite qrvm_Call_eq in Hc.
  destruct (_ <? _).
  { injection Hc as <- <- <- <-. split; [apply same_refl|]. right; right. done. }
  apply mthen_Ret in Hc as (can & v1 & Hcan & Hc).
  assert (H1 : same (vm_StateDB v) (vm_StateDB v1) /\ vgood v1 /\ vm_readOnly v1 = vm_readOnly v).
  { destruct (negb (Z.sgn value =? 0)); [by eapply CanTransfer_same|]. injection Hcan as <- <-. split_and!; auto. apply same_refl. }
  destruct H1 as (Hs1 & Hg1 & Hr1). destruct can; cbn [negb] in Hc.
  - assert (Hb := call_body_within _ _ (Run_ok e fuel) (vm_readOnly v) (vm_readOnly v) caller addr input gas value
      (Run_fuel _ _ Hf) ltac:(auto)).
    destruct (settle_fails _ _ _ _ _ _ _ _ _ Hb Hg1 Hr1 Hc) as [Hs Hl]. split; [by eapply same_trans|].
    destruct (decide (er = ErrExecutionReverted)); auto.
  - injection Hc as <- <- <- <-. split; [done|]. right; right. done.
Qed.

(** ** Failed creations *)

(** What an attempt to create [address] leaves behind, and nothing else: the creator's
    nonce is one higher, and the address is in the access list. *)
Definition attempted (creator address : Z) (s s' : S) : Prop :=
  exists s0 nonce s1 s2 s3, same s s0 /\ sdb (SDB.GetNonce creator) s0 = Ret (nonce, s1) /\
    sdb (SDB.SetNonce creator (u64 (nonce + 1))) s1 = Ret (tt, s2) /\ sdb (SDB.AddAddressToAccessList address) s2 = Ret (tt, s3) /\ same s3 s'.

(** The account is made, gets its value, and the init code runs. *)
Definition deployed (run : runner) (caller : contractRef) (code : list Z) (codeHash gas value address : Z)
    : M (QRVM S) (list Z * option vm_error * Contract) :=
  vstate (SDB.CreateAccount address) ;;;
  vstate (SDB.SetNonce address 1) ;;;
  Transfer (ref_Address caller) address value ;;;
  let* contract := Contract.NewContract caller address (Some value) gas in
  run (Contract.SetCodeOptionalHash address code codeHash contract) [] false.

Lemma create_body_deployed run caller code codeHash gas value address v : create_body run caller code codeHash gas value address v =
  (let* (ret, err, contract) := deployed run caller code codeHash gas value address in
   let* (err, contract) := store_code address ret err contract in mret (ret, err, contract)) v.
Proof.
  unfold create_body, deployed. rewrite !mthen_assoc. apply mthen_cong; intros _ ?. rewrite mthen_assoc. apply mthen_cong; intros _ ?.
  rewrite mthen_assoc. apply mthen_cong; intros _ ?. by rewrite mthen_assoc.
Qed.

(** Storing the code fails for want of gas only after the checks, and does nothing then. *)
Lemma store_code_starved address ret err contract v contract' v' :
  store_code address ret err contract v = Ret ((Some ErrCodeStoreOutOfGas, contract'), v') ->
  contract' = contract /\ v' = v /\ (err = None -> c_Gas contract < u64 (Zlen ret * CreateDataGas)).
Proof.
  unfold store_code, Contract.UseGas. intros Hs. cbv zeta in Hs. destruct err as [er|].
  { injection Hs as _ <- <-. by split_and!. }
  destruct (MaxCodeSize <? Zlen ret); [done|].
  destruct ret as [|b ret]; [|destruct (b =? 239); [done|]]; match type of Hs with context [c_Gas contract <? ?w] => destruct (Z.ltb_spec (c_Gas contract) w) end;
    first [by injection Hs as <- <-|by apply mthen_Ret in Hs as ([] & ? & _ & ?)].
Qed.

(** The errors of a creation that happen before anything is done. *)
Definition refused (er : vm_error) : bool := early er || bool_decide (er = ErrNonceUintOverflow).

(** [v'] is the machine right after the init code has run: the code could not be stored. *)
Definition unstored (run : runner) (caller : contractRef) (code : list Z) (codeHash gas value address : Z) (ret : list Z) (leftOverGas : Z) (v v' : QRVM S) : Prop :=
  exists v1 id v2 rerr contract, attempted (ref_Address caller) address (vm_StateDB v) (vm_StateDB v1) /\ vstate SDB.Snapshot v1 = Ret (id, v2) /\
    deployed run caller code codeHash gas value address v2 = Ret ((ret, rerr, contract), v') /\ leftOverGas = c_Gas contract /\
    (rerr = None -> leftOverGas < u64 (Zlen ret * CreateDataGas)).

(** A creation that fails after its checks. *)
Lemma create_checked_fails fuel caller code codeHash gas value address v0 v ret addr leftOverGas er v' :
  vgood v -> fuel_for gas fuel -> vm_readOnly v = false -> Zlen code < 2 ^ 63 -> attempted (ref_Address caller) address (vm_StateDB v0) (vm_StateDB v) ->
  create_checked (Run e fuel) caller code codeHash gas value address v = Ret ((ret, addr, leftOverGas, Some er), v') ->
  if bool_decide (er = ErrCodeStoreOutOfGas) then unstored (Run e fuel) caller code codeHash gas value address ret leftOverGas v0 v'
  else attempted (ref_Address caller) address (vm_StateDB v0) (vm_StateDB v') /\ (er = ErrExecutionReverted \/ leftOverGas = 0).
Proof.
  intros Hv Hf Hro Hl Hat Hc. unfold create_checked in Hc. apply mthen_Ret in Hc as (id & v1 & Hs & Hc).
  destruct (snapshot_law (vm_StateDB v) Hv) as (id' & s1 & Hs' & Hg1 & Hsn & _). pose proof Hs as Hs1. unfold vstate in Hs1. rewrite Hs' in Hs1. cbn in Hs1.
  injection Hs1 as -> Hv1. apply mthen_Ret in Hc as ([[ret0 err0] c0] & v2 & Hb & Hc).
  pose proof (create_body_within _ _ (Run_ok e fuel) caller code codeHash gas value address (Run_fuel _ _ Hf) Hl v1 ltac:(by rewrite <- Hv1) ltac:(by rewrite <- Hv1)) as Hw.
  rewrite Hb in Hw. destruct Hw as [Hst _]. unfold create_failed, create_out in Hc. cbn [fst snd] in Hc. case_bool_decide as He.
  - subst er. assert (err0 = Some ErrCodeStoreOutOfGas /\ ret0 = ret /\ c_Gas c0 = leftOverGas /\ v2 = v') as (-> & -> & <- & ->).
    { destruct err0 as [[]|]; first [by injection Hc as <- <- <- <-|by apply mthen_Ret in Hc as ([] & ? & _ & ?)|done]. }
    rewrite create_body_deployed in Hb. apply mthen_Ret in Hb as ([[ret1 rerr] c1] & v3 & Hd & Hb). apply mthen_Ret in Hb as ([err2 c2] & v4 & Hst2 & Hb).
    injection Hb as -> -> -> ->. apply store_code_starved in Hst2 as (-> & -> & Hlt). exists v, id, v1, rerr, c1. by split_and!.
  - destruct (revert_law (vm_StateDB v2) id (vm_StateDB v) (vs_good _ _ _ Hst)) as (s3 & Hrv & _ & Hsame & _).
    { apply (vs_kept _ _ _ Hst). by rewrite <- Hv1. }
    assert (exists er0, err0 = Some er0 /\ er0 = er /\ s3 = vm_StateDB v' /\ leftOverGas = (if bool_decide (er0 = ErrExecutionReverted) then c_Gas c0 else 0))
      as (er0 & -> & -> & -> & ->).
    { destruct err0 as [er0|]; [|done]. exists er0. unfold vstate in Hc. destruct er0; try (by exfalso; injection Hc as _ _ _ Her _; auto);
        (apply mthen_Ret in Hc as ([] & v3 & Hv3 & Hc); rewrite Hrv in Hv3; cbn in Hv3; injection Hv3 as <-; by injection Hc as <- <- <- <- <-). }
    split; [|case_bool_decide; auto]. destruct Hat as (s0 & n & t1 & t2 & t3 & ? & ? & ? & ? & ?). exists s0, n, t1, t2, t3. split_and!; auto. by eapply same_trans.
Qed.

(** [C30] A failed creation, [Create] and [Create2] alike.  It is refused at once with its gas and the state
    untouched; or it leaves only the creator's raised nonce and the entry of the access
    list behind, and gives gas back only if the init code reverted; or, when the gas left
    does not pay for storing the returned code, it is reported as an error but not undone:
    the machine is the one right after the init code ran, with the new account and the
    value it was sent, and the gas left is given back. *)
Theorem create_error_restores fuel caller code codeHash gas value address v ret addr leftOverGas er v' :
  vgood v -> fuel_for gas fuel -> vm_readOnly v = false -> Zlen code < 2 ^ 63 ->
  create (Run e fuel) caller code codeHash gas value address v = Ret ((ret, addr, leftOverGas, Some er), v') ->
  refused er = true /\ leftOverGas = gas /\ same (vm_StateDB v) (vm_StateDB v') \/
  if bool_decide (er = ErrCodeStoreOutOfGas) then unstored (Run e fuel) caller code codeHash gas value address ret leftOverGas v v'
  else attempted (ref_Address caller) address (vm_StateDB v) (vm_StateDB v') /\ (er = ErrExecutionReverted \/ leftOverGas = 0).
Proof.
  intros Hv Hf Hro Hl Hc. rewrite create_eq in Hc. destruct (_ <? _).
  { injection Hc as <- <- <- <- <-. left. split_and!; [done..|apply same_refl]. }
  apply mthen_Ret in Hc as (can & v1 & Hcan & Hc). apply CanTransfer_same in Hcan as (Hs1 & Hg1 & Hr1); [|done]. destruct can; cbn [negb] in Hc.
  2:{ injection Hc as <- <- <- <- <-. by left. }
  apply mthen_Ret in Hc as (nonce & v2 & Hn & Hc). destruct (vstate_plain (SDB.GetNonce _) _ _ _ eq_refl Hg1 Hn) as (Hg2 & Hr2 & Hn2). destruct (_ <? _).
  { injection Hc as <- <- <- <- <-. left. split_and!; [done..|]. eapply same_trans; [exact Hs1|]. by apply (same_read _ (SDB.GetNonce (ref_Address caller)) _ nonce). }
  right. apply mthen_Ret in Hc as ([] & v3 & H3 & Hc). destruct (vstate_plain (SDB.SetNonce _ _) _ _ _ eq_refl Hg2 H3) as (Hg3 & Hr3 & Hn3).
  apply mthen_Ret in Hc as ([] & v4 & H4 & Hc). destruct (vstate_plain (SDB.AddAddressToAccessList _) _ _ _ eq_refl Hg3 H4) as (Hg4 & Hr4 & Hn4).
  apply mthen_Ret in Hc as (hash & v5 & H5 & Hc). apply vstate_read in H5 as (Hs5 & Hg5 & Hr5); [|done..].
  apply mthen_Ret in Hc as (anonce & v6 & H6 & Hc). apply vstate_read in H6 as (Hs6 & Hg6 & Hr6); [|done..].
  assert (Hat : attempted (ref_Address caller) address (vm_StateDB v) (vm_StateDB v6)).
  { exists (vm_StateDB v1), nonce, (vm_StateDB v2), (vm_StateDB v3), (vm_StateDB v4). split_and!; auto. by eapply same_trans. }
  destruct (_ || _); [by injection Hc as <- <- <- <- <-; split; [|right]|].
  eapply create_checked_fails; [exact Hg6|exact Hf|congruence|exact Hl|exact Hat|exact Hc].
Qed.

End Theorems.

(** ** On the concrete machine *)

Lemma demo_fuel_for gas : 0 <= gas <= 60000 -> fuel_for gas demo_fuel.
Proof. intros Hg. unfold fuel_for, in64, demo_fuel. rewrite Z2Nat.id by lia. lia. Qed.

(** A contract that loops forever is stopped when its gas is used up. *)
Lemma call_terminates_witness :
  result_of (Call (entry_at demo_env demo_fuel) (AccountRef 7) 102 [] 5000 5 (demo_vm false)) = Some ([], 0, Some ErrOutOfGas) /\
  match Call (entry_at demo_env demo_fuel) (AccountRef 7) 102 [] 5000 5 (demo_vm false) with
  | Ret ((_, leftOverGas, _), v') => 0 <= leftOverGas <= 5000 /\ restored (demo_vm false) v'
  | Panic => True
  | OutOfFuel => False
  end.
Proof.
  split; [vm_compute; reflexivity|].
  apply (call_terminates demo_env demo_fuel (AccountRef 7) 102 [] 5000 5 (demo_vm false)).
  - apply demo_vm_good.
  - apply demo_fuel_for. lia.
  - intros [=].
Defined.

(** [RETURN(0, 60)]: init code that returns 60 zero bytes. *)
Definition init_zeros : list Z := [0x60; 60; 0x60; 0; 0xf3].

Lemma create_terminates_witness :
  match Create (entry_at demo_env demo_fuel) (AccountRef 7) init_zeros 50000 5 (demo_vm false) with
  | Ret ((_, _, leftOverGas, _), v') => 0 <= leftOverGas <= 50000 /\ restored (demo_vm false) v'
  | Panic => True
  | OutOfFuel => False
  end.
Proof.
  apply (create_terminates demo_env demo_fuel (AccountRef 7) init_zeros 50000 5 (demo_vm false)).
  - apply demo_vm_good.
  - apply demo_fuel_for. lia.
  - reflexivity.
  - vm_compute. reflexivity.
Defined.

(** A contract that writes is stopped in a static call. *)
Lemma static_call_frozen_witness :
  sfrozen demo_world (vm_StateDB (vm_after (StaticCall (entry_at demo_env demo_fuel) (AccountRef 7) 101 [] 50000 (demo_vm false)))).
Proof.
  refine (static_call_frozen demo_env demo_fuel (AccountRef 7) 101 [] 50000 (demo_vm false) [] 0 (Some ErrWriteProtection) _ _ _ _).
  - apply demo_vm_good.
  - apply demo_fuel_for. lia.
  - refine (result_of_run (StaticCall (entry_at demo_env demo_fuel) (AccountRef 7) 101 [] 50000 (demo_vm false)) _ _).
    vm_compute. reflexivity.
Defined.

Lemma readonly_call_frozen_witness :
  sfrozen demo_world (vm_StateDB (vm_after (Call (entry_at demo_env demo_fuel) (AccountRef 7) 101 [] 50000 0 (demo_vm true)))).
Proof.
  refine (readonly_call_frozen demo_env demo_fuel (AccountRef 7) 101 [] 50000 (demo_vm true) [] 0 (Some ErrWriteProtection) _ _ _ _ _).
  - apply demo_vm_good.
  - apply demo_fuel_for. lia.
  - reflexivity.
  - left. refine (result_of_run (Call (entry_at demo_env demo_fuel) (AccountRef 7) 101 [] 50000 0 (demo_vm true)) _ _).
    vm_compute. reflexivity.
Defined.

(** A call with value to a contract that writes and reverts. *)
Lemma call_error_restores_witness :
  eqv demo_world (vm_StateDB (vm_after (Call (entry_at demo_env demo_fuel) (AccountRef 7) 100 [] 50000 5 (demo_vm false)))).
Proof.
  destruct (call_error_restores demo_env demo_fuel (AccountRef 7) 100 [] 50000 5 (demo_vm false) [] 27888 ErrExecutionReverted
    (vm_after (Call (entry_at demo_env demo_fuel) (AccountRef 7) 100 [] 50000 5 (demo_vm false)))) as [Hs _].
  - apply demo_vm_good.
  - apply demo_fuel_for. lia.
  - intros [=].
  - refine (result_of_run (Call (entry_at demo_env demo_fuel) (AccountRef 7) 100 [] 50000 5 (demo_vm false)) _ _).
    vm_compute. reflexivity.
  - exact Hs.
Defined.

(** A call with value to the contract that writes. *)
Lemma calls_conserve_value_witness :
  smoved 0 demo_world (vm_StateDB (vm_after (Call (entry_at demo_env demo_fuel) (AccountRef 7) 101 [] 50000 5 (demo_vm false)))).
Proof.
  refine (calls_conserve_value demo_env demo_fuel (AccountRef 7) 101 [] 50000 5 (demo_vm false) [] 27894 None _ _ _ _ _ _).
  - apply demo_vm_good.
  - apply demo_fuel_for. lia.
  - intros [=].
  - vm_compute. reflexivity.
  - left. refine (result_of_run (Call (entry_at demo_env demo_fuel) (AccountRef 7) 101 [] 50000 5 (demo_vm false)) _ _).
    vm_compute. reflexivity.
Defined.

(** The balance of an account in a machine. *)
Definition balance_in (v : QRVM StateDB) (a : Z) : option Z := value_of (StateDB.GetBalance a (vm_StateDB v)).

(** Init code that returns 60 bytes, with gas for running it but not for storing them: the
    new account keeps the 5 units it was sent, and 9988 units of gas come back. *)
Lemma create_error_restores_witness :
  let r := create (Run demo_env demo_fuel) (AccountRef 7) init_zeros 0 10000 5 1795 (demo_vm false) in
  (balance_in (demo_vm false) 1795 = Some 0 /\ balance_in (vm_after r) 1795 = Some 5 /\ balance_in (vm_after r) 7 = Some 95) /\
  unstored (Run demo_env demo_fuel) (AccountRef 7) init_zeros 0 10000 5 1795 (replicate 60 0) 9988 (demo_vm false) (vm_after r).
Proof.
  intros r. split; [vm_compute; split_and!; reflexivity|].
  destruct (create_error_restores demo_env demo_fuel (AccountRef 7) init_zeros 0 10000 5 1795 (demo_vm false) (replicate 60 0) 1795 9988 ErrCodeStoreOutOfGas (vm_after r))
    as [[Hr _]|Hu].
  - apply demo_vm_good.
  - apply demo_fuel_for. lia.
  - reflexivity.
  - vm_compute. reflexivity.
  - refine (result_of_run r _ _). vm_compute. reflexivity.
  - discriminate Hr.
  - exact Hu.
Defined.
