(* ===== verification/StateTransition.v ===== *)
(** * The state transition (core/state_transition.go, core/gaspool.go)

    A message is checked and pays for its gas ([preCheck], [buyGas]), runs in the
    virtual machine and gets back what it did not use ([TransitionDb],
    [refundGas]).  The state of a transition is the record [StateTransition],
    which holds the gas pool of the block and the machine. *)

From S2P Require Import Prelude Uint256 Params VMCommon Rlp StateTypes VMInterface Contract GasTable Instructions JumpTable Precompiles Interpreter.

(** The errors of core/error.go a message can be refused with. *)
Module Core.

Inductive error : Type :=
| ErrNonceTooLow
| ErrNonceTooHigh
| ErrNonceMax
| ErrGasLimitReached
| ErrInsufficientFundsForTransfer
| ErrMaxInitCodeSizeExceeded
| ErrInsufficientFunds
| ErrGasUintOverflow
| ErrIntrinsicGas
| ErrTipAboveFeeCap
| ErrTipVeryHigh
| ErrFeeCapVeryHigh
| ErrFeeCapTooLow
| ErrSenderNoEOA.

#[export] Instance error_eq : EqDecision error.
Proof. solve_decision. Defined.

End Core.

(** ** The gas pool *)

Definition AddGas (amount gp : Z) : outcome Z :=
  if MaxUint64 - amount <? gp then Panic else Ret (u64 (gp + amount)).

Definition SubGas (amount gp : Z) : option Core.error * Z :=
  if gp <? amount then (Some Core.ErrGasLimitReached, gp) else (None, u64 (gp - amount)).

(** ** Intrinsic gas *)

(** [AccessList.StorageKeys] *)
Definition StorageKeys (al : list (Z * list Z)) : Z := fold_left (fun sum tuple => sum + Zlen (snd tuple)) al 0.

(** The count of non-zero bytes. *)
Definition nonZero (data : list Z) : Z := fold_left (fun nz byt => if byt =? 0 then nz else u64 (nz + 1)) data 0.

(** The part of [IntrinsicGas] that depends on the data. *)
Definition intrinsic_data (data : list Z) (isContractCreation : bool) (gas : Z) : Core.error + Z :=
  let dataLen := u64 (Zlen data) in
  if 0 <? dataLen then
    let nz := nonZero data in
    if (MaxUint64 - gas) / TxDataNonZeroGasEIP2028 <? nz then inl Core.ErrGasUintOverflow else
    let gas := u64 (gas + u64 (nz * TxDataNonZeroGasEIP2028)) in
    let z := u64 (dataLen - nz) in
    if (MaxUint64 - gas) / TxDataZeroGas <? z then inl Core.ErrGasUintOverflow else
    let gas := u64 (gas + u64 (z * TxDataZeroGas)) in
    if isContractCreation then
      let lenWords := toWordSize dataLen in
      if (MaxUint64 - gas) / InitCodeWordGas <? lenWords then inl Core.ErrGasUintOverflow
      else inr (u64 (gas + u64 (lenWords * InitCodeWordGas)))
    else inr gas
  else inr gas.

Definition IntrinsicGas (data : list Z) (accessList : option (list (Z * list Z))) (isContractCreation : bool) : Core.error + Z :=
  let gas := if isContractCreation then TxGasContractCreation else TxGas in
  match intrinsic_data data isContractCreation gas with
  | inl err => inl err
  | inr gas =>
      match accessList with
      | None => inr gas
      | Some al =>
          let gas := u64 (gas + u64 (u64 (Zlen al) * TxAccessListAddressGas)) in
          inr (u64 (gas + u64 (u64 (StorageKeys al) * TxAccessListStorageKeyGas)))
      end
  end.

(** ** Messages *)

(** The two fee caps are pointers that may be nil. *)
Record Message : Type := mkMessage {
  To : option Z;
  From : Z;
  msg_Nonce : Z;
  Value : Z;
  msg_GasLimit : Z;
  GasPrice : Z;
  GasFeeCap : option Z;
  GasTipCap : option Z;
  Data : list Z;
  msg_AccessList : option (list (Z * list Z));
  SkipAccountChecks : bool
}.

(** The result of a message that was accepted. *)
Record ExecutionResult : Type := mkResult { UsedGas : Z; Err : option vm_error; ReturnData : list Z }.

Definition Failed (result : ExecutionResult) : bool := match Err result with Some _ => true | None => false end.

Definition Return (result : ExecutionResult) : list Z := if Failed result then [] else ReturnData result.

Definition Revert (result : ExecutionResult) : list Z :=
  if bool_decide (Err result = Some ErrExecutionReverted) then ReturnData result else [].

(** ** The transition *)

Record StateTransition (S : Type) : Type := mkTransition {
  st_gp : Z;
  st_gasRemaining : Z;
  st_initialGas : Z;
  st_qrvm : QRVM S
}.
Arguments mkTransition {S}.
Arguments st_gp {S}.
Arguments st_gasRemaining {S}.
Arguments st_initialGas {S}.
Arguments st_qrvm {S}.

Section Transition.
Context {S : Type} {SI : StateI S} {U : Uint256} {C : Crypto} {H : Ssz}.
Context (e : env) (msg : Message).

Abbreviation ST := (StateTransition S).

Definition with_gp (x : Z) (st : ST) : ST := mkTransition x (st_gasRemaining st) (st_initialGas st) (st_qrvm st).
Definition with_gasRemaining (x : Z) (st : ST) : ST := mkTransition (st_gp st) x (st_initialGas st) (st_qrvm st).
Definition with_initialGas (x : Z) (st : ST) : ST := mkTransition (st_gp st) (st_gasRemaining st) x (st_qrvm st).
Definition with_qrvm (x : QRVM S) (st : ST) : ST := mkTransition (st_gp st) (st_gasRemaining st) (st_initialGas st) x.

Definition NewStateTransition (qrvm : QRVM S) (gp : Z) : ST := mkTransition gp 0 0 qrvm.

(** A computation of the machine, run from a transition. *)
Definition on_qrvm {A} (m : M (QRVM S) A) : M ST A := fun st => let! (a, v) := m (st_qrvm st) in Ret (a, with_qrvm v st).

(** An operation of [st.state], which is the machine's state. *)
Definition st_state {A} (o : SDB.op A) : M ST A := on_qrvm (vstate o).

Definition to : Z := default 0 (To msg).

Definition buyGas : M ST (option Core.error) :=
  let mgval := msg_GasLimit msg * GasPrice msg in
  let balanceCheck :=
    match GasFeeCap msg with Some cap => msg_GasLimit msg * cap + Value msg | None => mgval end in
  let* have := st_state (SDB.GetBalance (From msg)) in
  if have <? balanceCheck then mret (Some Core.ErrInsufficientFunds) else
  let* st := mget in
  let '(err, gp) := SubGas (msg_GasLimit msg) (st_gp st) in
  mmodify (with_gp gp) ;;;
  match err with
  | Some err => mret (Some err)
  | None =>
      mmodify (fun st => with_gasRemaining (u64 (st_gasRemaining st + msg_GasLimit msg)) st) ;;;
      mmodify (with_initialGas (msg_GasLimit msg)) ;;;
      st_state (SDB.SubBalance (From msg) mgval) ;;;
      mret None
  end.

(** The nonce and the code of the sender. *)
Definition checkAccount : M ST (option Core.error) :=
  if SkipAccountChecks msg then mret None else
  let* stNonce := st_state (SDB.GetNonce (From msg)) in
  if stNonce <? msg_Nonce msg then mret (Some Core.ErrNonceTooHigh) else
  if msg_Nonce msg <? stNonce then mret (Some Core.ErrNonceTooLow) else
  if u64 (stNonce + 1) <? stNonce then mret (Some Core.ErrNonceMax) else
  let* codeHash := st_state (SDB.GetCodeHash (From msg)) in
  if negb (codeHash =? 0) && negb (codeHash =? EmptyCodeHash) then mret (Some Core.ErrSenderNoEOA) else mret None.

(** The fee caps against the base fee. *)
Definition checkFees : M ST (option Core.error) :=
  let* check :=
    (if negb (e_NoBaseFee e) then mret true else
     let* cap := mlift (deref (GasFeeCap msg)) in
     if 0 <? Rlp.BitLen cap then mret true else
     let* tip := mlift (deref (GasTipCap msg)) in mret (0 <? Rlp.BitLen tip)) in
  if negb check then mret None else
  let* cap := mlift (deref (GasFeeCap msg)) in
  if 256 <? Rlp.BitLen cap then mret (Some Core.ErrFeeCapVeryHigh) else
  let* tip := mlift (deref (GasTipCap msg)) in
  if 256 <? Rlp.BitLen tip then mret (Some Core.ErrTipVeryHigh) else
  if cap <? tip then mret (Some Core.ErrTipAboveFeeCap) else
  if cap <? e_BaseFee e then mret (Some Core.ErrFeeCapTooLow) else mret None.

Definition preCheck : M ST (option Core.error) :=
  let* err := checkAccount in
  match err with
  | Some err => mret (Some err)
  | None =>
      let* err := checkFees in
      match err with
      | Some err => mret (Some err)
      | None => buyGas
      end
  end.

Definition gasUsed (st : ST) : Z := u64 (st_initialGas st - st_gasRemaining st).

Definition refundGas (refundQuotient : Z) : M ST unit :=
  let* st := mget in
  let* r := st_state SDB.GetRefund in
  let refund := Z.min (gasUsed st / refundQuotient) r in
  mmodify (fun st => with_gasRemaining (u64 (st_gasRemaining st + refund)) st) ;;;
  let* st := mget in
  st_state (SDB.AddBalance (From msg) (st_gasRemaining st * GasPrice msg)) ;;;
  let* st := mget in
  let* gp := mlift (AddGas (st_gasRemaining st) (st_gp st)) in
  mmodify (with_gp gp).

(** The message in the virtual machine: the returned data and the error. *)
Definition execute_message (fuel : nat) : M ST (list Z * option vm_error) :=
  let* st := mget in
  match To msg with
  | None =>
      let* (ret, _, gasRemaining, vmerr) :=
        on_qrvm (Create (entry_at e fuel) (AccountRef (From msg)) (Data msg) (st_gasRemaining st) (Value msg)) in
      mmodify (with_gasRemaining gasRemaining) ;;;
      mret (ret, vmerr)
  | Some _ =>
      let* nonce := st_state (SDB.GetNonce (From msg)) in
      st_state (SDB.SetNonce (From msg) (u64 (nonce + 1))) ;;;
      let* (ret, gasRemaining, vmerr) :=
        on_qrvm (Call (entry_at e fuel) (AccountRef (From msg)) to (Data msg) (st_gasRemaining st) (Value msg)) in
      mmodify (with_gasRemaining gasRemaining) ;;;
      mret (ret, vmerr)
  end.

(** The coinbase gets the tip, unless a simulation has switched fees off. *)
Definition payTip : M ST unit :=
  let* tip := mlift (deref (GasTipCap msg)) in
  let* cap := mlift (deref (GasFeeCap msg)) in
  let effectiveTip := BigMin tip (cap - e_BaseFee e) in
  if e_NoBaseFee e && (Z.sgn cap =? 0) && (Z.sgn tip =? 0) then mret tt
  else
    let* st := mget in
    st_state (SDB.AddBalance (e_Coinbase e) (gasUsed st * effectiveTip)).

Definition TransitionDb (fuel : nat) : M ST (Core.error + ExecutionResult) :=
  let* err := preCheck in
  match err with
  | Some err => mret (inl err)
  | None =>
      let contractCreation := match To msg with None => true | Some _ => false end in
      match IntrinsicGas (Data msg) (msg_AccessList msg) contractCreation with
      | inl err => mret (inl err)
      | inr gas =>
          let* st := mget in
          if st_gasRemaining st <? gas then mret (inl Core.ErrIntrinsicGas) else
          mmodify (fun st => with_gasRemaining (u64 (st_gasRemaining st - gas)) st) ;;;
          let* can :=
            (if 0 <? Z.sgn (Value msg) then on_qrvm (CanTransfer (From msg) (Value msg)) else mret true) in
          if negb can then mret (inl Core.ErrInsufficientFundsForTransfer) else
          if contractCreation && (MaxInitCodeSize <? Zlen (Data msg)) then mret (inl Core.ErrMaxInitCodeSizeExceeded) else
          st_state (SDB.Prepare (From msg) (e_Coinbase e) (To msg) ActivePrecompiles (default [] (msg_AccessList msg))) ;;;
          let* (ret, vmerr) := execute_message fuel in
          refundGas RefundQuotientEIP3529 ;;;
          payTip ;;;
          let* st := mget in
          mret (inr (mkResult (gasUsed st) vmerr ret))
      end
  end.

(** [ApplyMessage]: the pool is the caller's. *)
Definition ApplyMessage (fuel : nat) (qrvm : QRVM S) (gp : Z) : outcome ((Core.error + ExecutionResult) * ST) :=
  TransitionDb fuel (NewStateTransition qrvm gp).

End Transition.
