(* ===== verification/TransitionLogic.v ===== *)
(** * A logic of transitions

    Triples over the state of a transition, and the assertion [at]: where a
    transition is relative to its start - the gas in the pool, the gas remaining,
    and by how much the sum of all balances has changed. *)

From S2P Require Import Prelude Uint256 Params VMCommon Rlp StateTypes VMInterface Contract GasTable Instructions JumpTable Precompiles Interpreter VMLogic VMHandlers VMGas VMRun VMLoop VMTurn VMTable StateTransition.

Definition triple {T A} (P : T -> Prop) (m : M T A) (Q : A -> T -> Prop) : Prop := forall s, P s ->
  match m s with Ret (a, s') => Q a s' | Panic => True | OutOfFuel => False end.

Section Triple.
Context {T : Type}.

Lemma tr_ret {A} (P : T -> Prop) (a : A) (Q : A -> T -> Prop) : (forall s, P s -> Q a s) -> triple P (mret a) Q.
Proof. intros HQ s HP. by apply HQ. Qed.

Lemma tr_bind {A B} P (m : M T A) (k : A -> M T B) R Q :
  triple P m R -> (forall a, triple (R a) (k a) Q) -> triple P (mthen m k) Q.
Proof.
  intros Hm Hk s HP. specialize (Hm s HP). unfold mthen. destruct (m s) as [[a s']| |]; [|done|done]. cbn [obind fst snd]. by apply Hk.
Qed.

Lemma tr_pre {A} (P P' : T -> Prop) (m : M T A) Q : (forall s, P s -> P' s) -> triple P' m Q -> triple P m Q.
Proof. intros HP Hm s Hs. by apply Hm, HP. Qed.

Lemma tr_post {A} P (m : M T A) (Q Q' : A -> T -> Prop) : triple P m Q -> (forall a s, Q a s -> Q' a s) -> triple P m Q'.
Proof. intros Hm HQ s HP. specialize (Hm s HP). destruct (m s) as [[a s']| |]; [by apply HQ|done|done]. Qed.

(** What the precondition says about values outside the state. *)
Lemma tr_fact {A} (P : T -> Prop) (R : Prop) (m : M T A) Q : (R -> triple P m Q) -> triple (fun s => P s /\ R) m Q.
Proof. intros Hm s [HP HR]. by apply Hm. Qed.

Lemma tr_get {A} (P : T -> Prop) (k : T -> M T A) Q : (forall s, P s -> triple P (k s) Q) -> triple P (let* s := mget in k s) Q.
Proof. intros Hk s HP. by apply (Hk s HP). Qed.

Lemma tr_modify (P : T -> Prop) f (Q : unit -> T -> Prop) : (forall s, P s -> Q tt (f s)) -> triple P (mmodify f) Q.
Proof. intros HQ s HP. by apply HQ. Qed.

Lemma tr_lift {A} (P : T -> Prop) (o : outcome A) (Q : A -> T -> Prop) : o <> OutOfFuel -> (forall a s, o = Ret a -> P s -> Q a s) ->
  triple P (mlift o) Q.
Proof. intros Ho HQ s HP. unfold mlift. destruct o; cbn; [by apply HQ|done|done]. Qed.

End Triple.

(** ** Where a transition is *)

(** Before it has paid for its gas, before and after it has prepared the state. *)
Inductive phase : Type := Reading | Bought | Running.

Section Logic.
Context {S : Type} {SI : StateI S} {L : StateLaws S SI}.
Context (v0 : QRVM S).

Record at_point (ph : phase) (gp rem init d : Z) (st : StateTransition S) : Prop := {
  at_gp : st_gp st = gp;
  at_rem : st_gasRemaining st = rem;
  at_init : st_initialGas st = init;
  at_good : vgood (st_qrvm st);
  at_depth : vm_depth (st_qrvm st) = vm_depth v0;
  at_readOnly : vm_readOnly (st_qrvm st) = vm_readOnly v0;
  at_moved : moved d (vm_StateDB v0) (vm_StateDB (st_qrvm st));
  at_idle : ph <> Running -> idle (vm_StateDB (st_qrvm st));
  at_same : ph = Reading -> same (vm_StateDB v0) (vm_StateDB (st_qrvm st))
}.

Lemma at_start gp : vgood v0 -> idle (vm_StateDB v0) -> at_point Reading gp 0 0 0 (NewStateTransition v0 gp).
Proof. intros Hg Hi. split; auto; [apply moved_refl|intros; apply same_refl]. Qed.

(** An operation of the state in general. *)
Lemma tr_state {A} (o : SDB.op A) ph ph' gp rem init d d' (R : A -> Prop) :
  (forall s, sgood s -> (ph <> Running -> idle s) ->
    match sdb o s with
    | Ret (a, s') => sgood s' /\ moved d' s s' /\ (ph' <> Running -> idle s') /\ (ph' = Reading -> ph = Reading /\ same s s') /\ R a
    | Panic => True
    | OutOfFuel => False
    end) ->
  triple (at_point ph gp rem init d) (st_state o) (fun a st => at_point ph' gp rem init (d + d') st /\ R a).
Proof.
  intros Ho st [H1 H2 H3 H4 H5 H6 H7 H8 H9]. specialize (Ho (vm_StateDB (st_qrvm st)) H4 H8). unfold st_state, on_qrvm, vstate.
  destruct (sdb o _) as [[a s']| |]; [|done|done]. destruct Ho as (G & Hm & Hi & Hs & Ha). cbn. split; [|done].
  split; cbn; auto; [by eapply moved_trans|]. intros Hp. destruct (Hs Hp) as [Hr Hss]. eapply same_trans; eauto.
Qed.

Lemma tr_read {A} (o : SDB.op A) ph gp rem init d (R : A -> Prop) : SDB.reader o = true ->
  (forall s r s', sgood s -> sdb o s = Ret (r, s') -> R r) ->
  triple (at_point ph gp rem init d) (st_state o) (fun a st => at_point ph gp rem init d st /\ R a).
Proof.
  intros Hr HR. eapply tr_post; [apply (tr_state o ph ph gp rem init d 0 R)|intros a s; by rewrite Z.add_0_r]. intros s Hg Hi.
  assert (Hp : SDB.plain o = true) by (by destruct o). pose proof (plain_total A o s Hp Hg).
  destruct (sdb o s) as [[a s']| |] eqn:E; [|done|done]. pose proof (same_read A o s a s' Hr Hg E) as Hs.
  split_and!; [by apply (plain_keeps A o s a s' Hp Hg E)|by apply moved_frozen, frozen_same| |done|by eapply HR].
  intros Hn. eapply idle_plain; eauto.
Qed.

(** An operation that moves a known amount, after the reading phase. *)
Lemma tr_moves {A} (o : SDB.op A) ph ph' gp rem init d d' : SDB.plain o = true -> ph' <> Reading -> (ph = Running -> ph' = Running) ->
  (forall s r s', sgood s -> sdb o s = Ret (r, s') -> moved d' s s') ->
  triple (at_point ph gp rem init d) (st_state o) (fun a st => at_point ph' gp rem init (d + d') st).
Proof.
  intros Hp Hne Hph Hm. eapply tr_post; [apply (tr_state o ph ph' gp rem init d d' (fun _ => True))|by intros a s []].
  intros s Hg Hi. pose proof (plain_total A o s Hp Hg). destruct (sdb o s) as [[a s']| |] eqn:E; [|done|done].
  split_and!; [by apply (plain_keeps A o s a s' Hp Hg E)|by eapply Hm| |done|done].
  intros Hn. eapply idle_plain; eauto.
Qed.

(** An operation that does not pay. *)
Lemma tr_plain {A} (o : SDB.op A) gp rem init d : SDB.plain o = true -> SDB.pays o = false ->
  triple (at_point Running gp rem init d) (st_state o) (fun _ => at_point Running gp rem init d).
Proof.
  intros Hp Hn. eapply tr_post; [apply (tr_moves o Running Running gp rem init d 0); [done..|]|intros a s; by rewrite Z.add_0_r].
  intros s r s' Hg E. by eapply (moved_plain A o).
Qed.

Lemma tr_prepare sender coinbase dst pre al ph gp rem init d : ph <> Running ->
  triple (at_point ph gp rem init d) (st_state (SDB.Prepare sender coinbase dst pre al)) (fun _ => at_point Running gp rem init d).
Proof.
  intros Hph.
  eapply tr_post; [apply (tr_state (SDB.Prepare sender coinbase dst pre al) ph Running gp rem init d 0 (fun _ => True))|].
  2:{ intros a s [Ha _]. by rewrite Z.add_0_r in Ha. }
  intros s Hg Hi. destruct (prepare_law sender coinbase dst pre al s Hg (Hi Hph)) as (s' & -> & Hg' & Hf).
  split_and!; auto; [by apply moved_frozen|done..].
Qed.

(** A computation of the machine. *)
Lemma tr_vm {A} (m : M (QRVM S) A) fr Q gp rem init d : vq (vm_readOnly v0) fr m Q ->
  triple (at_point Running gp rem init d) (on_qrvm m) (fun a st => at_point Running gp rem init d st /\ Q a).
Proof.
  intros Hm st [H1 H2 H3 H4 H5 H6 H7 H8 H9]. specialize (Hm (st_qrvm st) H4 H6). unfold on_qrvm.
  destruct (m (st_qrvm st)) as [[a v']| |]; [|done|done]. destruct Hm as [[] HQ]. cbn. split; [|done].
  split; cbn; auto; try congruence. replace d with (d + 0) by lia. by eapply moved_trans.
Qed.

(** ** The fields of the transition *)

Lemma at_with_gp x ph gp rem init d st : at_point ph gp rem init d st -> at_point ph x rem init d (with_gp x st).
Proof. intros []. by split. Qed.
Lemma at_with_gasRemaining x ph gp rem init d st : at_point ph gp rem init d st -> at_point ph gp x init d (with_gasRemaining x st).
Proof. intros []. by split. Qed.
Lemma at_with_initialGas x ph gp rem init d st : at_point ph gp rem init d st -> at_point ph gp rem x d (with_initialGas x st).
Proof. intros []. by split. Qed.

End Logic.
