(* ===== verification/TransitionTheorems.v ===== *)
(** * What a state transition guarantees

    Gas and money of a message: the transition ends, charges no more than the
    limit and no less than four fifths of the intrinsic gas, gives the rest back
    to the block, and burns exactly the base fee of the gas used.  The properties
    hold for every state that satisfies the laws of VMInterface. *)

From S2P Require Import Prelude Uint256 Params VMCommon Rlp StateTypes VMInterface Contract GasTable Instructions JumpTable Precompiles Interpreter VMLogic VMHandlers VMGas VMRun VMLoop VMTurn VMTable Demo StateObject StateDB StateRevert StateVM StateLaws VMDemo StateTransition TransitionLogic.

(** ** Intrinsic gas *)

(** The cost of the data, as the fee schedule has it. *)
Definition data_cost (data : list Z) (create : bool) : Z :=
  (if create then TxGasContractCreation else TxGas) +
  TxDataNonZeroGasEIP2028 * Zlen (filter (fun b => b <> 0) data) +
  TxDataZeroGas * Zlen (filter (fun b => b = 0) data) +
  (if create then InitCodeWordGas * ((Zlen data + 31) / 32) else 0).

Definition access_cost (al : option (list (Z * list Z))) : Z :=
  match al with
  | None => 0
  | Some al => TxAccessListAddressGas * Zlen al + TxAccessListStorageKeyGas * foldr (fun t n => Zlen (snd t) + n) 0 al
  end.

Lemma filter_split data : Zlen (filter (fun b => b <> 0) data) + Zlen (filter (fun b => b = 0) data) = Zlen data.
Proof.
  induction data as [|b data IH]; [done|]. rewrite !filter_cons. unfold Zlen in *.
  destruct (decide (b = 0)); [rewrite decide_False by tauto|rewrite decide_True by done]; cbn [length]; lia.
Qed.

Lemma nonZero_acc data : forall n, 0 <= n -> n + Zlen data < 2 ^ 64 ->
  fold_left (fun nz byt => if byt =? 0 then nz else u64 (nz + 1)) data n = n + Zlen (filter (fun b => b <> 0) data).
Proof.
  induction data as [|b data IH]; intros n Hn Hl; [rewrite filter_nil; unfold Zlen; cbn; lia|]. cbn [fold_left]. rewrite filter_cons. unfold Zlen in *. cbn [length] in Hl.
  destruct (Z.eqb_spec b 0).
  - rewrite decide_False by tauto. rewrite IH; lia.
  - rewrite decide_True by done. rewrite u64_small by (unfold in64; lia). rewrite IH by lia. cbn [length]. lia.
Qed.

Lemma nonZero_spec data : Zlen data < 2 ^ 63 -> nonZero data = Zlen (filter (fun b => b <> 0) data).
Proof. intros Hl. unfold nonZero. rewrite nonZero_acc; lia. Qed.

Lemma StorageKeys_spec al : StorageKeys al = foldr (fun t n => Zlen (snd t) + n) 0 al.
Proof.
  unfold StorageKeys. enough (Hn : forall n, fold_left (fun sum tuple => sum + Zlen (snd tuple)) al n =
    n + foldr (fun t n => Zlen (snd t) + n) 0 al) by (rewrite Hn; lia).
  induction al as [|t al IH]; intros n; cbn; [lia|]. rewrite IH. lia.
Qed.

(** One guarded addition. *)
Lemma guarded_add gas k n : 0 <= gas < 2 ^ 64 -> 0 < k -> 0 <= n ->
  ((MaxUint64 - gas) / k <? n) = (2 ^ 64 <=? gas + k * n) /\
  (gas + k * n < 2 ^ 64 -> u64 (gas + u64 (n * k)) = gas + k * n).
Proof.
  intros Hg Hk Hn. unfold MaxUint64. split.
  - destruct (Z.ltb_spec ((2 ^ 64 - 1 - gas) / k) n) as [Hlt|Hge]; symmetry; [apply Z.leb_le|apply Z.leb_gt].
    + pose proof (Z.mul_succ_div_gt (2 ^ 64 - 1 - gas) k Hk). nia.
    + pose proof (Z.mul_div_le (2 ^ 64 - 1 - gas) k Hk). nia.
  - intros Hs. rewrite (u64_small (n * k)) by (unfold in64; nia). rewrite u64_small by (unfold in64; nia). lia.
Qed.

Lemma intrinsic_data_spec data c : Zlen data < 2 ^ 63 ->
  intrinsic_data data c (if c then TxGasContractCreation else TxGas) =
  if data_cost data c <? 2 ^ 64 then inr (data_cost data c) else inl Core.ErrGasUintOverflow.
Proof.
  intros Hl. unfold intrinsic_data, data_cost. rewrite nonZero_spec by done. pose proof (filter_split data) as Hs.
  assert (Hl0 : 0 <= Zlen data) by (unfold Zlen; lia). rewrite (u64_small (Zlen data)) by (unfold in64; lia).
  assert (Hnz : 0 <= Zlen (filter (fun b => b <> 0) data)) by (unfold Zlen; lia).
  assert (Hz : 0 <= Zlen (filter (fun b => b = 0) data)) by (unfold Zlen; lia).
  replace (u64 (Zlen data - _)) with (Zlen (filter (fun b => b = 0) data)) by (rewrite u64_small; unfold in64; lia).
  rewrite toWordSize_spec by (unfold in64, MaxUint64; lia).
  set (nz := Zlen (filter (fun b => b <> 0) data)) in *. set (z := Zlen (filter (fun b => b = 0) data)) in *. clearbody nz z.
  assert (Hw : 0 <= (Zlen data + 31) / 32) by (apply Z.div_pos; lia).
  destruct (Z.ltb_spec 0 (Zlen data)) as [Hp|Hp].
  2:{ assert (Hlen : Zlen data = 0) by lia. rewrite Hlen in *. assert (nz = 0) as -> by lia. assert (z = 0) as -> by lia.
      by destruct c. }
  set (w := (Zlen data + 31) / 32) in *. clearbody w. unfold_params.
  set (g0 := if c then 53000 else 21000). assert (Hg0 : 0 <= g0 < 2 ^ 64) by (subst g0; destruct c; lia). clearbody g0.
  destruct (guarded_add g0 16 nz Hg0 ltac:(lia) Hnz) as [-> E1].
  destruct (Z.leb_spec (2 ^ 64) (g0 + 16 * nz)) as [Ho|Ho].
  { destruct (Z.ltb_spec (g0 + 16 * nz + 4 * z + (if c then 2 * w else 0)) (2 ^ 64)); [destruct c; lia|done]. }
  rewrite (E1 Ho). destruct (guarded_add (g0 + 16 * nz) 4 z ltac:(lia) ltac:(lia) Hz) as [-> E2].
  destruct (Z.leb_spec (2 ^ 64) (g0 + 16 * nz + 4 * z)) as [Ho2|Ho2].
  { destruct (Z.ltb_spec (g0 + 16 * nz + 4 * z + (if c then 2 * w else 0)) (2 ^ 64)); [destruct c; lia|done]. }
  rewrite (E2 Ho2). destruct c; [|rewrite Z.add_0_r; destruct (Z.ltb_spec (g0 + 16 * nz + 4 * z) (2 ^ 64)); [done|lia]].
  destruct (guarded_add (g0 + 16 * nz + 4 * z) 2 w ltac:(lia) ltac:(lia) Hw) as [-> E3].
  destruct (Z.leb_spec (2 ^ 64) (g0 + 16 * nz + 4 * z + 2 * w)) as [Ho3|Ho3]; destruct (Z.ltb_spec (g0 + 16 * nz + 4 * z + 2 * w) (2 ^ 64)); try lia; [done|].
  by rewrite (E3 Ho3).
Qed.

(** The intrinsic gas of a message is the fee schedule's: 21000 or 53000, 16
    and 4 per byte, 2 per word of init code, 2400 and 1900 per entry of the access
    list; the overflow error is returned exactly when the cost of the data does
    not fit into 64 bits. *)
Theorem intrinsic_gas_exact data al c : Zlen data < 2 ^ 63 ->
  IntrinsicGas data al c =
    if data_cost data c <? 2 ^ 64 then inr (u64 (data_cost data c + access_cost al)) else inl Core.ErrGasUintOverflow.
Proof.
  intros Hl. unfold IntrinsicGas. rewrite intrinsic_data_spec by done. destruct (Z.ltb_spec (data_cost data c) (2 ^ 64)) as [Hd|Hd]; [|done].
  f_equal. destruct al as [al|]; cbn [access_cost].
  - rewrite StorageKeys_spec. unfold u64. rewrite !Zmult_mod_idemp_l, !Zplus_mod_idemp_r, Zplus_mod_idemp_l.
    by rewrite (Z.mul_comm (Zlen al)), (Z.mul_comm (foldr _ _ _)), Z.add_assoc.
  - rewrite Z.add_0_r, u64_small; [done|]. unfold in64. split; [|done]. unfold data_cost, Zlen. unfold_params.
    assert (0 <= (Z.of_nat (length data) + 31) / 32) by (apply Z.div_pos; lia). destruct c; lia.
Qed.

Lemma intrinsic_gas_exact_witness :
  IntrinsicGas [1; 0; 0; 7] (Some [(5, [1; 2]); (6, [])]) true = inr (53000 + 40 + 2 + 4800 + 3800).
Proof. rewrite (intrinsic_gas_exact [1; 0; 0; 7] (Some [(5, [1; 2]); (6, [])]) true); [reflexivity|vm_compute; reflexivity]. Defined.

(** ** A message *)

Section Transition.
Context {S : Type} {SI : StateI S} {L : StateLaws S SI} {U : Uint256} {UT : Uint256Typed U} {C : Crypto} {H : Ssz}.
Context (e : env) (msg : Message) (fuel : nat) (v0 : QRVM S) (gp : Z).

(** A message that is run at the start of a transaction, outside a static call,
    with more fuel than gas. *)
Record runnable : Prop := {
  rn_good : vgood v0;
  rn_idle : idle (vm_StateDB v0);
  rn_readOnly : vm_readOnly v0 = false;
  rn_pool : in64 gp;
  rn_limit : in64 (msg_GasLimit msg);
  rn_fuel : msg_GasLimit msg < Z.of_nat fuel
}.

(** Errors that are found after the gas has been bought: the caller has to undo
    the purchase. *)
Definition late (er : Core.error) : bool :=
  match er with
  | Core.ErrGasUintOverflow | Core.ErrIntrinsicGas | Core.ErrInsufficientFundsForTransfer | Core.ErrMaxInitCodeSizeExceeded => true
  | _ => false
  end.

Definition not_late (err : option Core.error) : Prop := match err with Some er => late er = false | None => True end.

(** What the coinbase is paid for an amount of gas. *)
Definition tip_for (used : Z) : Z :=
  let cap := default 0 (GasFeeCap msg) in
  let tip := default 0 (GasTipCap msg) in
  if e_NoBaseFee e && (Z.sgn cap =? 0) && (Z.sgn tip =? 0) then 0 else used * BigMin tip (cap - e_BaseFee e).

Local Abbreviation at_ := (at_point v0).
Local Abbreviation GL := (msg_GasLimit msg).
Local Abbreviation price := (GasPrice msg).

Lemma reads_nothing {A} (o : SDB.op A) ph g rem init d : SDB.reader o = true ->
  triple (at_ ph g rem init d) (st_state o) (fun _ => at_ ph g rem init d).
Proof. intros Ho. eapply tr_post; [by apply (tr_read v0 o ph g rem init d (fun _ => True))|by intros a s []]. Qed.

Lemma checkAccount_tr g rem init d : triple (at_ Reading g rem init d) (checkAccount msg)
  (fun r st => at_ Reading g rem init d st /\ not_late r).
Proof.
  unfold checkAccount. destruct (SkipAccountChecks msg); [by apply tr_ret|]. eapply tr_bind; [by apply reads_nothing|]. intros n.
  destruct (_ <? _); [by apply tr_ret|]. destruct (_ <? _); [by apply tr_ret|]. destruct (_ <? _); [by apply tr_ret|].
  eapply tr_bind; [by apply reads_nothing|]. intros h. destruct (_ && _); by apply tr_ret.
Qed.

Lemma deref_fuel {A} (p : option A) : deref p <> OutOfFuel.
Proof. by destruct p. Qed.

(** The checks of the fees do not look at the state. *)
Lemma checkFees_tr (P : StateTransition S -> Prop) : triple P (checkFees e msg) (fun r st => P st /\ not_late r).
Proof.
  assert (Hd : forall (p : option Z) (k : Z -> M (StateTransition S) (option Core.error)), (forall x, triple P (k x) (fun r st => P st /\ not_late r)) ->
    triple P (let* x := mlift (deref p) in k x) (fun r st => P st /\ not_late r)).
  { intros p k Hk. eapply (tr_bind _ _ _ (fun _ => P)); [|done]. apply tr_lift; [apply deref_fuel|done]. }
  unfold checkFees. eapply (tr_bind _ _ _ (fun _ => P)).
  - destruct (negb _); [by apply tr_ret|]. eapply (tr_bind _ _ _ (fun _ => P)); [apply tr_lift; [apply deref_fuel|done]|].
    intros cap. destruct (_ <? _); [by apply tr_ret|]. eapply (tr_bind _ _ _ (fun _ => P)); [apply tr_lift; [apply deref_fuel|done]|].
    intros. by apply tr_ret.
  - intros c. destruct (negb c); [by apply tr_ret|]. apply Hd. intros cap. destruct (_ <? _); [by apply tr_ret|].
    apply Hd. intros tip. repeat (destruct (_ <? _); [by apply tr_ret|]). by apply tr_ret.
Qed.

(** From [s] to [s'] the sender has paid for the gas limit, and nothing else reads
    differently. *)
Definition purchased (s s' : S) : Prop :=
  exists s1 s2, same s s1 /\ sdb (SDB.SubBalance (From msg) (GL * price)) s1 = Ret (tt, s2) /\ same s2 s'.

Definition paid (rem : Z) (st : StateTransition S) : Prop :=
  at_ Bought (gp - GL) rem GL (- (GL * price)) st /\ purchased (vm_StateDB v0) (vm_StateDB (st_qrvm st)).

Lemma purchase_tr : triple (at_ Reading (gp - GL) GL GL 0) (st_state (SDB.SubBalance (From msg) (GL * price))) (fun _ => paid GL).
Proof.
  intros st Hst. pose proof (tr_moves v0 (SDB.SubBalance (From msg) (GL * price)) Reading Bought (gp - GL) GL GL 0 (- (GL * price)) eq_refl ltac:(done) ltac:(done)
    ltac:(intros s [] s'; apply moved_sub) st Hst) as Hm. unfold st_state, on_qrvm, vstate in *. destruct (sdb _ _) as [[[] s2]| |] eqn:E; [|done|done]. cbn in *. split; [exact Hm|].
  exists (vm_StateDB (st_qrvm st)), s2. split_and!; [by apply (at_same _ _ _ _ _ _ _ Hst)|exact E|apply same_refl].
Qed.

(** The gas is bought, or nothing has happened. *)
Definition bought (err : option Core.error) (st : StateTransition S) : Prop :=
  match err with
  | Some er => at_ Reading gp 0 0 0 st /\ late er = false
  | None => GL <= gp /\ paid GL st
  end.

Lemma buyGas_tr : in64 gp -> in64 GL -> triple (at_ Reading gp 0 0 0) (buyGas msg) bought.
Proof.
  intros Hgp HGL. unfold buyGas. eapply tr_bind; [by apply reads_nothing|]. intros have. destruct (have <? _); [by apply tr_ret|].
  apply tr_get. intros st Hst. rewrite (at_gp _ _ _ _ _ _ _ Hst). clear st Hst. unfold SubGas.
  destruct (Z.ltb_spec gp GL).
  { eapply (tr_bind _ _ _ (fun _ => at_ Reading gp 0 0 0)); [apply tr_modify; intros st; apply at_with_gp|intros; by apply tr_ret]. }
  unfold in64 in *. rewrite u64_small by (unfold in64; lia).
  eapply (tr_bind _ _ _ (fun _ => at_ Reading (gp - GL) 0 0 0)); [apply tr_modify; intros st; apply at_with_gp|intros _].
  eapply (tr_bind _ _ _ (fun _ => at_ Reading (gp - GL) GL 0 0)); [apply tr_modify; intros st Hst|intros _].
  { rewrite (at_rem _ _ _ _ _ _ _ Hst), Z.add_0_l, u64_small by (unfold in64; lia). by eapply at_with_gasRemaining. }
  eapply (tr_bind _ _ _ (fun _ => at_ Reading (gp - GL) GL GL 0)); [apply tr_modify; intros st; apply at_with_initialGas|intros _].
  eapply tr_bind; [exact purchase_tr|]. intros []. by apply tr_ret.
Qed.

Lemma preCheck_tr : in64 gp -> in64 GL -> triple (at_ Reading gp 0 0 0) (preCheck e msg) bought.
Proof.
  intros Hgp HGL. unfold preCheck. eapply tr_bind; [apply checkAccount_tr|]. intros [err|]; [by apply tr_ret|].
  apply tr_fact. intros _. eapply tr_bind; [apply checkFees_tr|]. intros [err|]; [by apply tr_ret|]. apply tr_fact. intros _. by apply buyGas_tr.
Qed.

(** The message runs: gas is used, nothing else changes hands. *)
Definition ran (g init d rem : Z) (st : StateTransition S) : Prop := exists rem', 0 <= rem' <= rem /\ at_ Running g rem' init d st.

Lemma ran_set (A : Type) (a : A) g init d rem rem' (Q : A -> StateTransition S -> Prop) : 0 <= rem' <= rem ->
  (forall st, ran g init d rem st -> Q a st) -> triple (at_ Running g rem init d) (mmodify (with_gasRemaining rem') ;;; mret a) Q.
Proof.
  intros Hr HQ. eapply (tr_bind _ _ _ (fun _ => at_ Running g rem' init d)); [apply tr_modify; intros st; apply at_with_gasRemaining|].
  intros _. apply tr_ret. intros st Hst. apply HQ. by exists rem'.
Qed.

Lemma execute_tr g rem init d : vm_readOnly v0 = false -> in64 rem -> rem < Z.of_nat fuel -> (To msg = None -> Zlen (Data msg) < 2 ^ 63) ->
  triple (at_ Running g rem init d) (execute_message e msg fuel) (fun _ => ran g init d rem).
Proof.
  intros Hro Hrem Hf Hl. unfold in64 in Hrem. assert (Hmin : 0 <= rem < Z.min (Z.of_nat fuel) (2 ^ 64)) by lia.
  unfold execute_message. apply tr_get. intros st Hst. rewrite (at_rem _ _ _ _ _ _ _ Hst). clear st Hst. destruct (To msg) as [a|].
  - eapply tr_bind; [by apply reads_nothing|]. intros n. eapply tr_bind; [by apply tr_plain|].
    intros []. eapply tr_bind.
    { eapply tr_vm. apply (qrvm_Call_within _ _ (Run_ok e fuel) _ (AccountRef (From msg)) (to msg) (Data msg) rem (Value msg)); [done|].
      by rewrite Hro. }
    intros [[ret rem'] err]. apply tr_fact. intros Hw. by apply ran_set.
  - eapply tr_bind.
    { eapply tr_vm. rewrite Hro. apply (qrvm_Create_within _ _ (Run_ok e fuel) (AccountRef (From msg)) (Data msg) rem (Value msg)); [done|auto]. }
    intros [[[ret a] rem'] err]. apply tr_fact. intros Hw. by apply ran_set.
Qed.

(** The refund is at most a fifth of the gas used. *)
Lemma refundGas_tr g rem d : in64 GL -> 0 <= rem <= GL -> 0 <= g -> g + GL < 2 ^ 64 ->
  triple (at_ Running g rem GL d) (refundGas msg RefundQuotientEIP3529)
    (fun _ st => exists rem', 0 <= 5 * (rem' - rem) <= GL - rem /\ at_ Running (g + rem') rem' GL (d + rem' * price) st).
Proof.
  intros HGL Hrem Hg Hs. unfold in64 in HGL. unfold refundGas. apply tr_get. intros st Hst.
  replace (gasUsed st) with (GL - rem) by (unfold gasUsed; rewrite (at_rem _ _ _ _ _ _ _ Hst), (at_init _ _ _ _ _ _ _ Hst), u64_small; unfold in64; lia).
  clear st Hst. eapply tr_bind; [apply (tr_read v0 SDB.GetRefund _ _ _ _ _ (fun r => 0 <= r)); [done|apply refund_range]|].
  intros r. apply tr_fact. intros Hr. unfold_params. set (refund := Z.min ((GL - rem) / 5) r).
  assert (Hrf : 0 <= refund /\ 5 * refund <= GL - rem).
  { pose proof (Z.mul_div_le (GL - rem) 5 ltac:(lia)). pose proof (Z.div_pos (GL - rem) 5 ltac:(lia) ltac:(lia)). subst refund. lia. }
  clearbody refund. eapply (tr_bind _ _ _ (fun _ => at_ Running g (rem + refund) GL d)).
  { apply tr_modify. intros st Hst. rewrite (at_rem _ _ _ _ _ _ _ Hst), u64_small by (unfold in64; lia). by eapply at_with_gasRemaining. }
  intros []. apply tr_get. intros st Hst. rewrite (at_rem _ _ _ _ _ _ _ Hst). clear st Hst.
  eapply tr_bind; [apply (tr_moves v0 _ Running Running); [done..|intros s [] s'; apply moved_add]|].
  intros []. apply tr_get. intros st Hst. rewrite (at_rem _ _ _ _ _ _ _ Hst), (at_gp _ _ _ _ _ _ _ Hst). clear st Hst.
  unfold AddGas, MaxUint64. destruct (Z.ltb_spec (2 ^ 64 - 1 - (rem + refund)) g); [lia|]. rewrite u64_small by (unfold in64; lia).
  eapply (tr_bind _ _ _ (fun gp' st => at_ Running g (rem + refund) GL (d + (rem + refund) * price) st /\ gp' = g + (rem + refund))).
  { apply tr_lift; [done|]. by intros a st [= <-]. }
  intros gp'. apply tr_fact. intros ->. apply tr_modify. intros st Hst. exists (rem + refund). split; [lia|]. by eapply at_with_gp.
Qed.

Lemma payTip_tr g rem d : in64 GL -> 0 <= rem <= GL ->
  triple (at_ Running g rem GL d) (payTip e msg) (fun _ => at_ Running g rem GL (d + tip_for (GL - rem))).
Proof.
  intros HGL Hrem. unfold in64 in HGL. unfold payTip, tip_for. destruct (GasTipCap msg) as [tip|]; [|by intros st Hst].
  eapply (tr_bind _ _ _ (fun x st => at_ Running g rem GL d st /\ x = tip)); [apply tr_lift; [done|by intros a st [= <-]]|].
  intros x. apply tr_fact. intros ->. destruct (GasFeeCap msg) as [cap|]; [|by intros st Hst].
  eapply (tr_bind _ _ _ (fun x st => at_ Running g rem GL d st /\ x = cap)); [apply tr_lift; [done|by intros a st [= <-]]|].
  intros x. apply tr_fact. intros ->. cbn [default]. destruct (_ && _); [apply tr_ret; intros st; by rewrite Z.add_0_r|].
  apply tr_get. intros st Hst.
  replace (gasUsed st) with (GL - rem) by (unfold gasUsed; rewrite (at_rem _ _ _ _ _ _ _ Hst), (at_init _ _ _ _ _ _ _ Hst), u64_small; unfold in64; lia).
  apply (tr_moves v0 _ Running Running); [done..|intros s [] s'; apply moved_add].
Qed.

Lemma CanTransfer_tr a v ph g rem init d : triple (at_ ph g rem init d) (on_qrvm (CanTransfer a v)) (fun _ => at_ ph g rem init d).
Proof.
  intros st Hst. pose proof (reads_nothing (SDB.GetBalance a) ph g rem init d eq_refl st Hst) as Hr.
  unfold on_qrvm, CanTransfer, mthen, st_state, on_qrvm in *. destruct (vstate _ (st_qrvm st)) as [[b v']| |]; done.
Qed.

(** The test keeps the purchase: it only reads. *)
Lemma CanTransfer_paid a v rem : triple (paid rem) (on_qrvm (CanTransfer a v)) (fun _ => paid rem).
Proof.
  intros st [Hst (s1 & s2 & H1 & H2 & H3)]. pose proof (CanTransfer_tr a v Bought (gp - GL) rem GL (- (GL * price)) st Hst) as Hc.
  unfold on_qrvm, CanTransfer, mthen, vstate in *. destruct (sdb (SDB.GetBalance a) (vm_StateDB (st_qrvm st))) as [[b s3]| |] eqn:E; [|done|done]. cbn in *. split; [exact Hc|].
  exists s1, s2. split_and!; [done|done|]. eapply same_trans; [exact H3|]. by apply (same_read _ (SDB.GetBalance a) _ b _ eq_refl (at_good _ _ _ _ _ _ _ Hst)).
Qed.

(** How a transition ends. *)
Definition ended (r : Core.error + ExecutionResult) (st : StateTransition S) : Prop :=
  match r with
  | inl er => if late er then exists rem, GL <= gp /\ paid rem st else at_ Reading gp 0 0 0 st
  | inr res =>
      exists gas, IntrinsicGas (Data msg) (msg_AccessList msg) (match To msg with None => true | Some _ => false end) = inr gas /\
        0 <= UsedGas res <= GL /\ GL <= gp /\ 4 * gas <= 5 * UsedGas res /\
        at_ Running (gp - UsedGas res) (GL - UsedGas res) GL (tip_for (UsedGas res) - UsedGas res * price) st
  end.

Lemma intrinsic_in64 data al c gas : IntrinsicGas data al c = inr gas -> 0 <= gas.
Proof.
  assert (Hu : forall z, 0 <= u64 z) by (intros; unfold u64; apply Z.mod_pos_bound; lia).
  unfold IntrinsicGas, intrinsic_data. intros Hi.
  repeat match type of Hi with context [if ?b then _ else _] => destruct b end; try discriminate; destruct al; injection Hi as <-; auto.
  all: unfold_params; lia.
Qed.

(** From the purchase of the gas to the end. *)
Lemma run_tr gas ret vmerr rem : in64 GL -> in64 gp -> GL <= gp -> 0 <= rem <= GL - gas -> 0 <= gas ->
  IntrinsicGas (Data msg) (msg_AccessList msg) (match To msg with None => true | Some _ => false end) = inr gas ->
  triple (at_ Running (gp - GL) rem GL (- (GL * price)))
    (refundGas msg RefundQuotientEIP3529 ;;; payTip e msg ;;; let* st := mget in mret (inr (mkResult (gasUsed st) vmerr ret))) ended.
Proof.
  intros HGL Hgp Hle Hrem Hgas Hi. unfold in64 in *. eapply tr_bind; [apply refundGas_tr; unfold in64; lia|]. intros [] st (rem' & Hr & Hst).
  revert st Hst. change (triple (at_ Running (gp - GL + rem') rem' GL (- (GL * price) + rem' * price))
    (payTip e msg ;;; let* st := mget in mret (inr (mkResult (gasUsed st) vmerr ret))) ended).
  eapply tr_bind; [apply payTip_tr; unfold in64; lia|]. intros []. apply tr_get. intros st Hst.
  replace (gasUsed st) with (GL - rem') by (unfold gasUsed; rewrite (at_rem _ _ _ _ _ _ _ Hst), (at_init _ _ _ _ _ _ _ Hst), u64_small; unfold in64; lia).
  clear st Hst. apply tr_ret. intros st Hst. exists gas. cbn [UsedGas].
  split_and!; try lia; [done|]. replace (gp - (GL - rem')) with (gp - GL + rem') by lia. replace (GL - (GL - rem')) with rem' by lia.
  by replace (tip_for (GL - rem') - (GL - rem') * price) with (- (GL * price) + rem' * price + tip_for (GL - rem')) by lia.
Qed.

Lemma TransitionDb_tr : runnable -> triple (at_ Reading gp 0 0 0) (TransitionDb e msg fuel) ended.
Proof.
  intros [_ _ Hro Hgp HGL Hf]. unfold TransitionDb. eapply tr_bind; [by apply preCheck_tr|].
  intros [err|]; [apply tr_ret; intros st []; unfold ended; by destruct (late err)|].
  intros st [Hle Hst]. revert st Hst. match goal with |- forall st, _ -> match ?m st with _ => _ end =>
    change (triple (paid GL) m ended) end.
  assert (Hlate : forall er rem, late er = true -> triple (paid rem) (mret (inl er)) ended).
  { intros er rem Her. apply tr_ret. intros st Hst. unfold ended. rewrite Her. by exists rem. }
  set (create := match To msg with None => true | Some _ => false end).
  destruct (IntrinsicGas (Data msg) (msg_AccessList msg) create) as [er|gas] eqn:Hi.
  { apply Hlate. unfold IntrinsicGas, intrinsic_data in Hi.
    repeat match type of Hi with context [if ?b then _ else _] => destruct b end; destruct (msg_AccessList msg); by simplify_eq. }
  pose proof (intrinsic_in64 _ _ _ _ Hi) as Hgas. apply tr_get. intros st Hst. rewrite (at_rem _ _ _ _ _ _ _ (proj1 Hst)). clear st Hst.
  destruct (Z.ltb_spec GL gas) as [|Hcov]; [by apply Hlate|]. unfold in64 in HGL.
  eapply (tr_bind _ _ _ (fun _ => paid (GL - gas))).
  { apply tr_modify. intros st [Hst Hp]. rewrite (at_rem _ _ _ _ _ _ _ Hst), u64_small by (unfold in64; lia). split; [by eapply at_with_gasRemaining|done]. }
  intros []. eapply (tr_bind _ _ _ (fun _ => paid (GL - gas))).
  { destruct (_ <? _); [apply CanTransfer_paid|by apply tr_ret]. }
  intros can. destruct can; cbn [negb]; [|by apply Hlate].
  destruct (create && _) eqn:Hsize; [by apply Hlate|]. eapply tr_bind; [eapply tr_pre; [by intros s []|by apply (tr_prepare v0 _ _ _ _ _ Bought)]|]. intros [].
  eapply tr_bind.
  { apply execute_tr; [done|unfold in64; lia|lia|]. intros Hto. subst create. rewrite Hto in Hsize. cbn [andb] in Hsize.
    apply Z.ltb_ge in Hsize. unfold_params. lia. }
  intros [ret vmerr] st (rem' & Hr & Hst). revert st Hst. by apply (run_tr gas).
Qed.

Lemma ApplyMessage_ended : runnable ->
  match ApplyMessage e msg fuel v0 gp with Ret (r, st) => ended r st | Panic => True | OutOfFuel => False end.
Proof. intros Hr. apply (TransitionDb_tr Hr). apply at_start; apply Hr. Qed.

(** At the price the fee fields give, everything but the base fee is a tip. *)
Lemma tip_burns cap tip used : e_NoBaseFee e = false -> GasFeeCap msg = Some cap -> GasTipCap msg = Some tip ->
  GasPrice msg = BigMin (tip + e_BaseFee e) cap -> tip_for used - used * price = - (used * e_BaseFee e).
Proof.
  intros Hb Hc Ht Hp. unfold tip_for. cbv zeta. rewrite Hb, Hc, Ht, Hp. cbn [andb]. unfold BigMin, default, from_option, id.
  destruct (Z.ltb_spec (cap - e_BaseFee e) tip), (Z.ltb_spec cap (tip + e_BaseFee e)); lia.
Qed.

(** [C20] Applying a message ends.  An accepted message uses no more than its gas
    limit, no less than four fifths of its intrinsic gas however large the refund,
    and the pool of the block loses exactly the gas used.  The machine is left at
    the depth it was at. *)
Theorem message_gas : runnable ->
  match ApplyMessage e msg fuel v0 gp with
  | Ret (inr res, st) =>
      0 <= UsedGas res <= GL /\ st_gp st = gp - UsedGas res /\ st_gasRemaining st = GL - UsedGas res /\
      vgood (st_qrvm st) /\ vm_depth (st_qrvm st) = vm_depth v0 /\ vm_readOnly (st_qrvm st) = false /\
      exists gas, IntrinsicGas (Data msg) (msg_AccessList msg) (match To msg with None => true | Some _ => false end) = inr gas /\
        4 * gas <= 5 * UsedGas res
  | Ret (inl _, _) => True
  | Panic => True
  | OutOfFuel => False
  end.
Proof.
  intros Hr. pose proof (ApplyMessage_ended Hr) as He. destruct (ApplyMessage _ _ _ _ _) as [[[er|res] st]| |]; [done| |done|done].
  destruct He as (gas & Hi & Hu & _ & H5 & [A1 A2 _ A4 A5 A6 _ _ _]). split; [exact Hu|]. pose proof (rn_readOnly Hr).
  split_and!; auto; [congruence|eauto].
Qed.

(** [C19] What an applied message burns.  The sender pays the price of the message for the
    gas used, the coinbase gets the tip, and the sum of all balances changes by exactly the
    difference, whatever the contracts it calls do.  If fees are not switched off and the
    price is the one that the fee fields give, as for every transaction of a block, the
    difference is the base fee of the gas used; a simulation without fees and without a
    price changes nothing. *)
Theorem message_burns_base_fee res st : runnable -> ApplyMessage e msg fuel v0 gp = Ret (inr res, st) ->
  moved (tip_for (UsedGas res) - UsedGas res * price) (vm_StateDB v0) (vm_StateDB (st_qrvm st)) /\
  (forall cap tip, e_NoBaseFee e = false -> GasFeeCap msg = Some cap -> GasTipCap msg = Some tip -> price = BigMin (tip + e_BaseFee e) cap ->
    moved (- (UsedGas res * e_BaseFee e)) (vm_StateDB v0) (vm_StateDB (st_qrvm st))) /\
  (e_NoBaseFee e = true -> GasFeeCap msg = Some 0 -> GasTipCap msg = Some 0 -> price = 0 -> moved 0 (vm_StateDB v0) (vm_StateDB (st_qrvm st))).
Proof.
  intros Hr Ha. pose proof (ApplyMessage_ended Hr) as He. rewrite Ha in He. destruct He as (gas & _ & _ & _ & _ & Hat). pose proof (at_moved _ _ _ _ _ _ _ Hat) as Hm. split; [exact Hm|]. split.
  - intros cap tip Hb Hc Ht Hp. by rewrite (tip_burns cap tip) in Hm by done.
  - intros Hb Hc Ht Hp. unfold tip_for in Hm. rewrite Hb, Hc, Ht, Hp, Z.mul_0_r in Hm. exact Hm.
Qed.

(** [C21] A refused message: an error of the pre-checks leaves the pool and the state as they
    were.  An error found later takes the gas limit out of the pool and leaves a state that
    reads exactly as if the sender had been charged the gas limit at the price of the
    message and nothing else had happened. *)
Theorem message_refused er st : runnable -> ApplyMessage e msg fuel v0 gp = Ret (inl er, st) ->
  vm_depth (st_qrvm st) = vm_depth v0 /\ vm_readOnly (st_qrvm st) = false /\
  if late er then GL <= gp /\ st_gp st = gp - GL /\ purchased (vm_StateDB v0) (vm_StateDB (st_qrvm st))
  else st_gp st = gp /\ same (vm_StateDB v0) (vm_StateDB (st_qrvm st)).
Proof.
  intros Hr Ha. pose proof (ApplyMessage_ended Hr) as He. rewrite Ha in He. pose proof (rn_readOnly Hr). unfold ended in He. destruct (late er).
  - destruct He as (rem & Hle & [] & Hp). split_and!; auto. congruence.
  - destruct He. split_and!; auto. congruence.
Qed.

End Transition.

(** ** On the concrete machine *)

(** Account 7 calls the contract that writes a slot. *)
Definition demo_message (nonce limit : Z) : Message :=
  mkMessage (Some 101) 7 nonce 5 limit 10 (Some 20) (Some 3) [1; 0] (Some [(101, [0])]) false.

Lemma demo_runnable nonce limit : 0 <= limit <= 60000 -> runnable (demo_message nonce limit) demo_fuel rich_vm 100000.
Proof.
  intros Hl. split; [apply rich_vm_good|apply rich_vm_idle|done|done| |]; cbn [msg_GasLimit demo_message].
  - unfold in64. lia.
  - unfold demo_fuel. rewrite Z2Nat.id; lia.
Qed.

Definition demo_result (nonce limit : Z) : option (Core.error + ExecutionResult) :=
  match ApplyMessage demo_env (demo_message nonce limit) demo_fuel rich_vm 100000 with Ret (r, _) => Some r | _ => None end.
Definition demo_after (nonce limit : Z) : StateTransition StateDB :=
  match ApplyMessage demo_env (demo_message nonce limit) demo_fuel rich_vm 100000 with
  | Ret (_, st) => st | _ => NewStateTransition rich_vm 0 end.

Lemma demo_result_run nonce limit r : demo_result nonce limit = Some r ->
  ApplyMessage demo_env (demo_message nonce limit) demo_fuel rich_vm 100000 = Ret (r, demo_after nonce limit).
Proof. unfold demo_result, demo_after. destruct (ApplyMessage _ _ _ _ _) as [[]| |]; [|done|done]. by intros [= ->]. Qed.

Lemma message_gas_witness :
  match ApplyMessage demo_env (demo_message 3 60000) demo_fuel rich_vm 100000 with
  | Ret (inr res, st) =>
      0 <= UsedGas res <= 60000 /\ st_gp st = 100000 - UsedGas res /\ st_gasRemaining st = 60000 - UsedGas res /\
      vgood (st_qrvm st) /\ vm_depth (st_qrvm st) = 0 /\ vm_readOnly (st_qrvm st) = false /\
      exists gas, IntrinsicGas [1; 0] (Some [(101, [0])]) false = inr gas /\ 4 * gas <= 5 * UsedGas res
  | Ret (inl _, _) => True
  | Panic => True
  | OutOfFuel => False
  end.
Proof. apply (message_gas demo_env (demo_message 3 60000) demo_fuel rich_vm 100000). apply demo_runnable. lia. Defined.

(** 45326 units of gas are used at a base fee of 7. *)
Lemma message_burns_base_fee_witness : smoved (- (45326 * 7)) rich_world (vm_StateDB (st_qrvm (demo_after 3 60000))).
Proof.
  refine (proj1 (proj2 (message_burns_base_fee demo_env (demo_message 3 60000) demo_fuel rich_vm 100000 (mkResult 45326 None []) _
    (demo_runnable 3 60000 ltac:(lia)) _)) 20 3 eq_refl eq_refl eq_refl eq_refl).
  apply demo_result_run. vm_compute. reflexivity.
Defined.

(** A nonce that is too low, and a gas limit below the intrinsic gas. *)
Lemma message_refused_witness :
  (st_gp (demo_after 2 60000) = 100000 /\ eqv rich_world (vm_StateDB (st_qrvm (demo_after 2 60000)))) /\
  st_gp (demo_after 3 20000) = 80000 /\ purchased (demo_message 3 20000) rich_world (vm_StateDB (st_qrvm (demo_after 3 20000))).
Proof.
  split.
  - refine (proj2 (proj2 (message_refused demo_env (demo_message 2 60000) demo_fuel rich_vm 100000 Core.ErrNonceTooLow _ (demo_runnable 2 60000 ltac:(lia)) _))).
    apply demo_result_run. vm_compute. reflexivity.
  - refine (proj2 (proj2 (proj2 (message_refused demo_env (demo_message 3 20000) demo_fuel rich_vm 100000 Core.ErrIntrinsicGas _ (demo_runnable 3 20000 ltac:(lia)) _)))).
    apply demo_result_run. vm_compute. reflexivity.
Defined.
