(* ===== verification/Transactions.v ===== *)
(** * Transactions (core/types/transaction.go, tx_dynamic_fee.go,
    transaction_signing.go, hashing.go; crypto/pqcrypto/crypto.go)

    The only kind of transaction is the dynamic-fee one, so the interface [TxData]
    is its record.  The signature library is a parameter. *)

From S2P Require Import Prelude Uint256 Params VMCommon Rlp RlpStream StateTypes.
Import Rlp Decode Encode.

(** ** The signature library *)

(** github.com/theQRL/go-qrllib: descriptors of wallets, ML-DSA-87 keys and
    signatures, addresses, and a wallet that signs.  Calls that may fail return an
    option. *)
Class PQCrypto : Type := {
  Descriptor_ : Type;
  PK : Type;
  Descriptor87 : Type;
  Wallet : Type;
  CRYPTO_BYTES : Z;
  CRYPTO_PUBLIC_KEY_BYTES : Z;
  DescriptorSize : Z;
  ML_DSA_87 : Z;
  FromBytes : list Z -> option Descriptor_;
  ToBytes : Descriptor_ -> list Z;
  desc_Type : Descriptor_ -> Z;
  GetAddressFromPKAndDescriptor : list Z -> Descriptor_ -> option Z;
  BytesToPK : list Z -> option PK;
  NewMLDSA87Descriptor : option Descriptor87;
  Verify : list Z -> list Z -> PK -> Descriptor87 -> bool;
  w_GetDescriptor : Wallet -> Descriptor_;
  w_GetPK : Wallet -> list Z;
  w_GetAddress : Wallet -> Z;
  w_Sign : Wallet -> list Z -> option (list Z)
}.

(** What signing relies on: a wallet of the scheme verifies its own signatures, and
    its address is that of its key and descriptor. *)
Class PQCryptoSpec (P : PQCrypto) : Prop := {
  descriptor_size : DescriptorSize = 3;
  descriptor_length d : Zlen (ToBytes d) = DescriptorSize;
  descriptor_bytes d : Forall is_byte (ToBytes d);
  descriptor_roundtrip d : FromBytes (ToBytes d) = Some d;
  wallet_type w : desc_Type (w_GetDescriptor w) = ML_DSA_87;
  wallet_pk_length w : Zlen (w_GetPK w) = CRYPTO_PUBLIC_KEY_BYTES;
  wallet_address w : GetAddressFromPKAndDescriptor (w_GetPK w) (w_GetDescriptor w) = Some (w_GetAddress w);
  wallet_verify w m sig : w_Sign w m = Some sig -> Zlen sig = CRYPTO_BYTES /\
    exists pk d, BytesToPK (w_GetPK w) = Some pk /\ NewMLDSA87Descriptor = Some d /\ Verify m sig pk d = true
}.

(** ** Data *)

Inductive tx_error : Type :=
| ErrTxTypeNotSupported
| ErrGasFeeCapTooLow
| errShortTypedTx
| ErrInvalidChainId
| errExtraParams
| errWalletType
| errWrongSize
| errDigestLength
| errBufferSize
| ErrBadSignature
| errLibrary
| errRlp (e : rlp_error).

Definition DynamicFeeTxType : Z := 0x02.

Module Tx.

(** [DynamicFeeTx].  Big integers are pointers; nil and empty slices are not told
    apart. *)
Record DynamicFeeTx : Type := mkTx {
  ChainID : option Z;
  Nonce : Z;
  GasTipCap : option Z;
  GasFeeCap : option Z;
  Gas : Z;
  To : option Z;
  Value : option Z;
  Data : list Z;
  AccessList : list (Z * list Z);
  Descriptor : list Z;
  ExtraParams : list Z;
  Signature : list Z;
  PublicKey : list Z
}.

(** The signer of a chain, [ZondSigner]. *)
Record Signer : Type := mkSigner { ChainId : Z }.

(** [Transaction] with its caches; the time it was first seen is left out. *)
Record Transaction : Type := mkTransaction {
  inner : DynamicFeeTx;
  hash : option Z;
  size : option Z;
  from : option (Signer * Z)
}.

Definition with_hash (x : option Z) (tx : Transaction) : Transaction := mkTransaction (inner tx) x (size tx) (from tx).
Definition with_size (x : option Z) (tx : Transaction) : Transaction := mkTransaction (inner tx) (hash tx) x (from tx).
Definition with_from (x : option (Signer * Z)) (tx : Transaction) : Transaction := mkTransaction (inner tx) (hash tx) (size tx) x.

(** ** The serialised form *)

Definition addressType : rtype := RByteArray 20.
Definition accessListType : rtype := RSlice (RStruct [addressType; RSlice (RByteArray 32)]).

(** The fields in the order of the struct; [To] carries the tag "nil". *)
Definition txType : rtype :=
  RStruct [RBig; RUint 64; RBig; RBig; RUint 64; RNilPtr String addressType; RBig; RBytes; accessListType; RByteArray 3; RBytes; RBytes; RBytes].

Definition address_val (a : Z) : rval := VBytes (AddressBytes a).
Definition tuple_val (t : Z * list Z) : rval := VList [address_val (fst t); VList (map (fun k => VBytes (HashBytes k)) (snd t))].
Definition list_val (al : list (Z * list Z)) : rval := VList (map tuple_val al).

Definition tx_val (tx : DynamicFeeTx) : rval :=
  VList [VBig (ChainID tx); VUint (Nonce tx); VBig (GasTipCap tx); VBig (GasFeeCap tx); VUint (Gas tx);
    VPtr (option_map address_val (To tx)); VBig (Value tx); VBytes (Data tx); list_val (AccessList tx); VBytes (Descriptor tx);
    VBytes (ExtraParams tx); VBytes (Signature tx); VBytes (PublicKey tx)].

Definition val_address (v : rval) : option Z := match v with VBytes b => Some (bytes_to_Z b) | _ => None end.
Definition val_tuple (v : rval) : option (Z * list Z) :=
  match v with
  | VList [a; VList ks] => a ← val_address a; ks ← mapM val_address ks; Some (a, ks)
  | _ => None
  end.
Definition val_to (p : option rval) : option (option Z) :=
  match p with None => Some None | Some v => a ← val_address v; Some (Some a) end.

Definition val_tx (v : rval) : option DynamicFeeTx :=
  match v with
  | VList [VBig chainID; VUint nonce; VBig tip; VBig cap; VUint gas; VPtr to; VBig value; VBytes data; VList al; VBytes desc;
           VBytes extra; VBytes sig; VBytes pk] =>
      to ← val_to to; al ← mapM val_tuple al; Some (mkTx chainID nonce tip cap gas to value data al desc extra sig pk)
  | _ => None
  end.

(** [rlp.Encode] to a writer: nothing is written with an error. *)
Definition rlpEncode (t : rtype) (v : rval) : outcome (list Z * option rlp_error) :=
  let! r := EncodeToBytes t v in
  Ret (match r with inl e => ([], Some e) | inr b => (b, None) end).

Definition encode (tx : DynamicFeeTx) : outcome (list Z * option rlp_error) := rlpEncode txType (tx_val tx).

Definition decode (input : list Z) : outcome (tx_error + DynamicFeeTx) :=
  let! r := DecodeBytes txType input in
  match r with
  | inl e => Ret (inl (errRlp e))
  | inr v => let! tx := deref (val_tx v) in Ret (inr tx)
  end.

(** ** Copies and accessors *)

Section Signing.
Context {P : PQCrypto} {C : Crypto}.

(** [copy] into a fresh slice of a fixed length. *)
Definition copy_fixed (n : Z) (src : list Z) : list Z := go_copy_at (replicate (Z.to_nat n) 0) 0 src.

Definition copy (tx : DynamicFeeTx) : DynamicFeeTx :=
  mkTx (Some (default 0 (ChainID tx))) (Nonce tx) (Some (default 0 (GasTipCap tx))) (Some (default 0 (GasFeeCap tx))) (Gas tx)
    (To tx) (Some (default 0 (Value tx))) (Data tx) (AccessList tx) (Descriptor tx) (ExtraParams tx)
    (copy_fixed CRYPTO_BYTES (Signature tx)) (copy_fixed CRYPTO_PUBLIC_KEY_BYTES (PublicKey tx)).

Definition setAuthValues (chainID : Z) (sig pk desc extraParams : list Z) (tx : DynamicFeeTx) : DynamicFeeTx :=
  mkTx (Some chainID) (Nonce tx) (GasTipCap tx) (GasFeeCap tx) (Gas tx) (To tx) (Value tx) (Data tx) (AccessList tx)
    (go_copy_at (Descriptor tx) 0 desc) extraParams sig pk.

Definition effectiveGasPrice (baseFee : option Z) (tx : DynamicFeeTx) : outcome Z :=
  let! cap := deref (GasFeeCap tx) in
  match baseFee with
  | None => Ret cap
  | Some baseFee =>
      let tip := cap - baseFee in
      let! tipCap := deref (GasTipCap tx) in
      Ret ((if tipCap <? tip then tipCap else tip) + baseFee)
  end.

(** The other caches are left alone. *)
Definition setDecoded (inner : DynamicFeeTx) (n : Z) (tx : Transaction) : Transaction :=
  mkTransaction inner (hash tx) (if 0 <? n then Some n else size tx) (from tx).

(** [NewTx]: the contents of the new object are overwritten at once. *)
Definition NewTx (inner : DynamicFeeTx) : Transaction := setDecoded (copy inner) 0 (mkTransaction inner None None None).

Definition Type_ (tx : Transaction) : Z := DynamicFeeTxType.
Definition ChainId_ (tx : Transaction) : option Z := ChainID (inner tx).
Definition GasPrice_ (tx : Transaction) : outcome Z := deref (GasFeeCap (inner tx)).
Definition GasTipCap_ (tx : Transaction) : outcome Z := deref (GasTipCap (inner tx)).
Definition GasFeeCap_ (tx : Transaction) : outcome Z := deref (GasFeeCap (inner tx)).
Definition Value_ (tx : Transaction) : outcome Z := deref (Value (inner tx)).

Definition Cost (tx : Transaction) : outcome Z :=
  let! price := GasPrice_ tx in
  let! value := Value_ tx in
  Ret (price * Gas (inner tx) + value).

Definition EffectiveGasTip (tx : Transaction) (baseFee : option Z) : outcome (Z * option tx_error) :=
  match baseFee with
  | None => let! tip := GasTipCap_ tx in Ret (tip, None)
  | Some baseFee =>
      let! gasFeeCap := GasFeeCap_ tx in
      let! tip := GasTipCap_ tx in
      Ret (BigMin tip (gasFeeCap - baseFee), if gasFeeCap <? baseFee then Some ErrGasFeeCapTooLow else None)
  end.

(** ** Encoding *)

Definition encodeTyped (tx : Transaction) : outcome (list Z * option rlp_error) :=
  let! (b, err) := encode (inner tx) in
  Ret (Type_ tx :: b, err).

Definition MarshalBinary (tx : Transaction) : outcome (list Z * option rlp_error) := encodeTyped tx.

Definition EncodeRLP (tx : Transaction) : outcome (list Z * option rlp_error) :=
  let! (b, err) := encodeTyped tx in
  match err with Some err => Ret ([], Some err) | None => rlpEncode RBytes (VBytes b) end.

Definition decodeTyped (b : list Z) : outcome (tx_error + DynamicFeeTx) :=
  if Zlen b <=? 1 then Ret (inl errShortTypedTx)
  else
    let! ty := go_index b 0 in
    if ty =? DynamicFeeTxType then
      let! rest := go_slice b 1 (Zlen b) in
      decode rest
    else Ret (inl ErrTxTypeNotSupported).

Definition UnmarshalBinary (b : list Z) : M Transaction (option tx_error) :=
  let* r := mlift (decodeTyped b) in
  match r with
  | inl err => mret (Some err)
  | inr inner => mmodify (setDecoded inner (Zlen b)) ;;; mret None
  end.

(** [prefixedRlpHash]: an error of the encoder leaves only the prefix to hash. *)
Definition prefixedRlpHash (prefix : Z) (x : W) : outcome Z :=
  let! r := x reset in
  let! b := match r with inl _ => Ret [] | inr buf => makeBytes buf end in
  Ret (Keccak256Hash (prefix :: b)).

Definition Hash : M Transaction Z :=
  let* tx := mget in
  match hash tx with
  | Some h => mret h
  | None =>
      let* h := mlift (prefixedRlpHash (Type_ tx) (writer txType (tx_val (inner tx)))) in
      mmodify (with_hash (Some h)) ;;;
      mret h
  end.

(** [Size] counts the bytes [rlp.Encode] writes. *)
Definition Size : M Transaction Z :=
  let* tx := mget in
  match size tx with
  | Some n => mret n
  | None =>
      let* b := mlift (encode (inner tx)) in
      let n := Zlen (fst b) + 1 in
      mmodify (with_size (Some n)) ;;;
      mret n
  end.

(** ** Signers *)

(** The list of values that is hashed and signed: each element is written by the
    writer of its own type. *)
Definition signed_values (s : Signer) (tip cap value : Z) (tx : DynamicFeeTx) (descriptor extraParams : list Z) : W :=
  wslice [writer RBig (VBig (Some (ChainId s))); writer (RUint 64) (VUint (Nonce tx)); writer RBig (VBig (Some tip));
    writer RBig (VBig (Some cap)); writer (RUint 64) (VUint (Gas tx)); writer (RPtr addressType) (VPtr (option_map address_val (To tx)));
    writer RBig (VBig (Some value)); writer RBytes (VBytes (Data tx)); writer accessListType (list_val (AccessList tx));
    writer RBytes (VBytes descriptor); writer RBytes (VBytes extraParams)].

Definition signer_Hash (s : Signer) (tx : Transaction) (descriptor extraParams : list Z) : outcome Z :=
  let! tip := GasTipCap_ tx in
  let! cap := GasFeeCap_ tx in
  let! value := Value_ tx in
  prefixedRlpHash (Type_ tx) (signed_values s tip cap value (inner tx) descriptor extraParams).

(** crypto/pqcrypto/crypto.go *)
Definition MLDSA87VerifySignature (sig msg pk : list Z) : tx_error + bool :=
  if negb (Zlen sig =? CRYPTO_BYTES) then inl ErrBadSignature
  else
    match BytesToPK pk with
    | None => inl errLibrary
    | Some pk87 => match NewMLDSA87Descriptor with None => inl errLibrary | Some desc => inr (Verify msg sig pk87 desc) end
    end.

Definition DigestLength : Z := 32.

Definition Sign (digestHash : list Z) (w : Wallet) : tx_error + list Z :=
  if negb (Zlen digestHash =? DigestLength) then inl errDigestLength
  else match w_Sign w digestHash with None => inl errLibrary | Some sig => inr sig end.

Definition signer_Sender (s : Signer) (tx : Transaction) : outcome (tx_error + Z) :=
  let! chainId := deref (ChainId_ tx) in
  if negb (chainId =? ChainId s) then Ret (inl ErrInvalidChainId)
  else
    let sig := Signature (inner tx) in
    let pk := PublicKey (inner tx) in
    let desc := Descriptor (inner tx) in
    let params := ExtraParams (inner tx) in
    if negb (Zlen params =? 0) then Ret (inl errExtraParams)
    else
      let! msg := signer_Hash s tx desc params in
      Ret (match FromBytes desc with
           | None => inl errLibrary
           | Some pqcryptodesc =>
               if negb (desc_Type pqcryptodesc =? ML_DSA_87) then inl errWalletType
               else
                 match MLDSA87VerifySignature sig (HashBytes msg) pk with
                 | inl err => inl err
                 | inr false => inl ErrBadSignature
                 | inr true =>
                     match GetAddressFromPKAndDescriptor pk pqcryptodesc with None => inl errLibrary | Some a => inr a end
                 end
           end).

Definition Equal (s s2 : Signer) : bool := ChainId s2 =? ChainId s.

Definition decode_sized (n : Z) (b : list Z) : tx_error + list Z := if negb (Zlen b =? n) then inl errWrongSize else inr b.

Definition AuthValues (s : Signer) (tx : Transaction) (sig pk desc extraParams : list Z) :
    outcome (tx_error + (list Z * list Z * list Z * list Z)) :=
  let! chainID := deref (ChainID (inner tx)) in
  Ret (if negb (Z.sgn chainID =? 0) && negb (chainID =? ChainId s) then inl ErrInvalidChainId
       else
         match decode_sized CRYPTO_BYTES sig with
         | inl err => inl err
         | inr signature =>
             match decode_sized CRYPTO_PUBLIC_KEY_BYTES pk with
             | inl err => inl err
             | inr publicKey =>
                 match decode_sized DescriptorSize desc with
                 | inl err => inl err
                 | inr descriptor => inr (signature, publicKey, descriptor, extraParams)
                 end
             end
         end).

Definition WithAuthValues (s : Signer) (tx : Transaction) (sig pk desc extraParams : list Z) : outcome (tx_error + Transaction) :=
  let! r := AuthValues s tx sig pk desc extraParams in
  Ret (match r with
       | inl err => inl err
       | inr (signature, publicKey, descriptor, extraParams) =>
           inr (mkTransaction (setAuthValues (ChainId s) signature publicKey descriptor extraParams (copy (inner tx))) None None None)
       end).

Definition SignTx (tx : Transaction) (s : Signer) (w : Wallet) : outcome (tx_error + Transaction) :=
  let! chainId := deref (ChainId_ tx) in
  if negb (Z.sgn chainId =? 0) && negb (chainId =? ChainId s) then Ret (inl ErrInvalidChainId)
  else
    let desc := ToBytes (w_GetDescriptor w) in
    let! h := signer_Hash s tx desc [] in
    match Sign (HashBytes h) w with
    | inl err => Ret (inl err)
    | inr sig => WithAuthValues s tx sig (w_GetPK w) desc []
    end.

Definition SignNewTx (w : Wallet) (s : Signer) (txdata : DynamicFeeTx) : outcome (tx_error + Transaction) :=
  let tx := NewTx txdata in
  let descBytes := ToBytes (w_GetDescriptor w) in
  let! h := signer_Hash s tx descBytes [] in
  match Sign (HashBytes h) w with
  | inl err => Ret (inl err)
  | inr sig => WithAuthValues s tx sig (w_GetPK w) descBytes []
  end.

(** [Sender]: the address is cached with the signer that found it. *)
Definition Sender (signer : Signer) : M Transaction (tx_error + Z) :=
  let* tx := mget in
  let cached := match from tx with Some (s, a) => if Equal s signer then Some a else None | None => None end in
  match cached with
  | Some a => mret (inr a)
  | None =>
      let* r := mlift (signer_Sender signer tx) in
      match r with
      | inl err => mret (inl err)
      | inr addr => mmodify (with_from (Some (signer, addr))) ;;; mret (inr addr)
      end
  end.

End Signing.

End Tx.
