(* ===== verification/TxTheorems.v ===== *)
(** * What transactions promise

    The binary form and the structure determine each other, a signature covers
    every field but itself, and the sender found for a signed transaction is the
    wallet that signed it. *)

From S2P Require Import Prelude Uint256 Params VMCommon Rlp RlpStream RlpCodec RlpTyped RlpTypes StateTypes Demo Transactions.
Import Rlp Decode Encode Tx.

(** ** Well-formed transactions *)

Definition in160 (a : Z) : Prop := 0 <= a < 2 ^ 160.
Definition big_ok (z : option Z) : Prop := match z with Some z => 0 <= z | None => False end.
Definition to_ok (a : option Z) : Prop := match a with Some a => in160 a | None => True end.
Definition list_ok (al : list (Z * list Z)) : Prop := Forall (fun t => in160 (fst t) /\ Forall in256 (snd t)) al.

(** What Go's types, and the absence of nil and negative integers, guarantee. *)
Record tx_ok (tx : DynamicFeeTx) : Prop := {
  ok_chain : big_ok (ChainID tx);
  ok_nonce : in64 (Nonce tx);
  ok_tip : big_ok (GasTipCap tx);
  ok_cap : big_ok (GasFeeCap tx);
  ok_gas : in64 (Gas tx);
  ok_to : to_ok (To tx);
  ok_value : big_ok (Value tx);
  ok_data : Forall is_byte (Data tx);
  ok_list : list_ok (AccessList tx);
  ok_desc : length (Descriptor tx) = 3%nat /\ Forall is_byte (Descriptor tx);
  ok_extra : Forall is_byte (ExtraParams tx);
  ok_sig : Forall is_byte (Signature tx);
  ok_pk : Forall is_byte (PublicKey tx)
}.

Lemma address_roundtrip a : in160 a -> bytes_to_Z (AddressBytes a) = a.
Proof. intros Ha. unfold AddressBytes. rewrite bytes_to_Z_to_bytes. apply Z.mod_small. exact Ha. Qed.
Lemma hash_roundtrip h : in256 h -> bytes_to_Z (HashBytes h) = h.
Proof. intros Hh. unfold HashBytes. rewrite bytes_to_Z_to_bytes. apply Z.mod_small. exact Hh. Qed.

Lemma bytes_address b : length b = 20%nat -> Forall is_byte b -> AddressBytes (bytes_to_Z b) = b /\ in160 (bytes_to_Z b).
Proof.
  intros Hl Hb. unfold AddressBytes. rewrite <- Hl, Z_to_bytes_of_bytes by done. split; [done|].
  pose proof (bytes_to_Z_bound b Hb) as Hz. unfold Zlen in Hz. rewrite Hl in Hz. exact Hz.
Qed.
Lemma bytes_hash b : length b = 32%nat -> Forall is_byte b -> HashBytes (bytes_to_Z b) = b /\ in256 (bytes_to_Z b).
Proof.
  intros Hl Hb. unfold HashBytes. rewrite <- Hl, Z_to_bytes_of_bytes by done. split; [done|].
  pose proof (bytes_to_Z_bound b Hb) as Hz. unfold Zlen in Hz. rewrite Hl in Hz. exact Hz.
Qed.

Lemma address_typed a : typed addressType (address_val a).
Proof. split; [apply length_Z_to_bytes|apply Z_to_bytes_byte]. Qed.
Lemma hashes_typed ks : Forall (typed (RByteArray 32)) (map (fun k => VBytes (HashBytes k)) ks).
Proof. induction ks; constructor; [split; [apply length_Z_to_bytes|apply Z_to_bytes_byte]|done]. Qed.
Lemma list_typed al : typed accessListType (list_val al).
Proof.
  unfold accessListType, list_val. cbn [typed]. induction al as [|[a ks] al IH]; constructor; [|done].
  split; [apply address_typed|]. split; [apply hashes_typed|done].
Qed.

Lemma to_typed a : typed (RNilPtr String addressType) (VPtr (option_map address_val a)).
Proof.
  destruct a as [a|]; [|done]. split; [apply address_typed|]. cbn [to_item address_val addressType is_empty].
  assert (Hl : length (AddressBytes a) = 20%nat) by apply length_Z_to_bytes. by destruct (AddressBytes a).
Qed.

Lemma big_typed z : big_ok z -> typed RBig (VBig z).
Proof. by destruct z. Qed.
#[local] Hint Resolve to_typed big_typed list_typed : core.

Lemma tx_typed tx : tx_ok tx -> typed txType (tx_val tx).
Proof.
  intros []. unfold txType, tx_val. change (typed (RStruct ?ts) (VList ?vs)) with (zip_typed typed ts vs). cbn [zip_typed].
  repeat (split; [first [solve [auto] | done]|]). done.
Qed.

Lemma hashes_val ks : Forall in256 ks -> mapM val_address (map (fun k => VBytes (HashBytes k)) ks) = Some ks.
Proof. induction 1 as [|k ks Hk _ IH]; [done|]. cbn. rewrite hash_roundtrip by done. by rewrite IH. Qed.

Lemma tuples_val al : list_ok al -> mapM val_tuple (map tuple_val al) = Some al.
Proof.
  induction 1 as [|[a ks] al [Ha Hks] _ IH]; [done|]. cbn in Ha, Hks. cbn. rewrite address_roundtrip, hashes_val by done. cbn. by rewrite IH.
Qed.

Lemma val_tx_val tx : tx_ok tx -> val_tx (tx_val tx) = Some tx.
Proof.
  intros []. unfold val_tx, tx_val, list_val. rewrite tuples_val by done. unfold val_to. destruct tx as [ch no ti ca ga [a|] va da al de ex si pk]; cbn in *; [|done].
  by rewrite address_roundtrip.
Qed.

(** ** Every typed value is a transaction *)

Lemma typed_bytes_inv v : typed RBytes v -> exists b, v = VBytes b /\ Forall is_byte b.
Proof. destruct v; try done. eauto. Qed.
Lemma typed_array_inv n v : typed (RByteArray n) v -> exists b, v = VBytes b /\ length b = n /\ Forall is_byte b.
Proof. destruct v; try done. cbn. eauto. Qed.
Lemma typed_big_inv v : typed RBig v -> exists z, v = VBig z /\ big_ok z.
Proof. destruct v as [|z| | | |]; try done. intros Hz. exists z. by destruct z. Qed.
Lemma typed_uint_inv v : typed (RUint 64) v -> exists z, v = VUint z /\ in64 z.
Proof. destruct v; try done. cbn. eauto. Qed.
Lemma typed_address_inv v : typed addressType v -> exists a, v = address_val a /\ in160 a.
Proof.
  intros Hv. apply typed_array_inv in Hv as (b & -> & Hl & Hb). destruct (bytes_address b Hl Hb) as [He Hi].
  exists (bytes_to_Z b). split; [|done]. unfold address_val. by rewrite He.
Qed.
Lemma typed_to_inv v : typed (RNilPtr String addressType) v -> exists a, v = VPtr (option_map address_val a) /\ to_ok a.
Proof.
  destruct v as [| | | | |[v|]]; try done; [|by exists None]. intros [Hv _]. apply typed_address_inv in Hv as (a & -> & Ha). by exists (Some a).
Qed.
Lemma typed_hashes_inv vs : Forall (typed (RByteArray 32)) vs -> exists ks, vs = map (fun k => VBytes (HashBytes k)) ks /\ Forall in256 ks.
Proof.
  induction 1 as [|v vs Hv _ (ks & -> & Hks)]; [by exists []|]. apply typed_array_inv in Hv as (b & -> & Hl & Hb).
  destruct (bytes_hash b Hl Hb) as [He Hi]. exists (bytes_to_Z b :: ks). cbn. rewrite He. auto.
Qed.
Lemma typed_list_inv v : typed accessListType v -> exists al, v = list_val al /\ list_ok al.
Proof.
  destruct v as [| | | |vs|]; try done. unfold accessListType. change (typed (RSlice ?t) (VList vs)) with (Forall (typed t) vs).
  induction 1 as [|v vs Hv _ (al & [= ->] & Hal)]; [exists []; split; [done|constructor]|]. destruct v as [| | | |l|]; try done.
  destruct l as [|x [|y [|? ?]]]; [by destruct Hv|by destruct Hv as [_ []]| |by destruct Hv as (_ & _ & [])]. destruct Hv as (Ha & Hk & _).
  apply typed_address_inv in Ha as (a & -> & Ha). destruct y as [| | | |ys|]; try done. apply typed_hashes_inv in Hk as (ks & -> & Hks).
  exists ((a, ks) :: al). split; [done|]. by constructor.
Qed.

Lemma typed_tx v : typed txType v -> exists tx, tx_ok tx /\ v = tx_val tx.
Proof.
  destruct v as [| | | |l|]; try done. unfold txType. change (typed (RStruct ?ts) (VList l)) with (zip_typed typed ts l). intros Hz.
  do 13 (destruct l as [|? l]; [by destruct Hz|destruct Hz as [? Hz]]). destruct l; [|by destruct Hz].
  repeat match goal with
  | H : typed RBig _ |- _ => apply typed_big_inv in H as (? & -> & ?)
  | H : typed (RUint 64) _ |- _ => apply typed_uint_inv in H as (? & -> & ?)
  | H : typed RBytes _ |- _ => apply typed_bytes_inv in H as (? & -> & ?)
  | H : typed (RByteArray 3) _ |- _ => apply typed_array_inv in H as (? & -> & ? & ?)
  | H : typed (RNilPtr _ _) _ |- _ => apply typed_to_inv in H as (? & -> & ?)
  | H : typed accessListType _ |- _ => apply typed_list_inv in H as (? & -> & ?)
  end.
  eexists (mkTx _ _ _ _ _ _ _ _ _ _ _ _ _). split; [|reflexivity]. split; cbn; auto.
Qed.

(** ** The binary form *)

Lemma decode_spec b : Forall is_byte b -> Zlen b < 2 ^ 63 ->
  exists r, decode b = Ret r /\ forall tx, r = inr tx <-> tx_ok tx /\ b = enc (to_item txType (tx_val tx)).
Proof.
  intros Hb Hl. destruct (DecodeBytes_spec txType b eq_refl Hb Hl) as (r & Hr & Hiff). unfold decode. rewrite Hr. cbn [obind].
  destruct r as [e|v].
  - exists (inl (errRlp e)). split; [done|]. intros tx. split; [done|]. intros [Hok ->]. exfalso.
    assert (Hx : inl e = inr (tx_val tx)) by (apply Hiff; split; [by apply tx_typed|done]). done.
  - destruct (proj1 (Hiff v) eq_refl) as [Ht Hbe]. destruct (typed_tx v Ht) as (tx & Hok & ->). rewrite val_tx_val by done.
    exists (inr tx). split; [done|]. intros tx'. split; [intros [= <-]; auto|]. intros [Hok' Hbe'].
    assert (Hx : inr (tx_val tx) = (inr (tx_val tx') : rlp_error + rval)) by (apply Hiff; split; [by apply tx_typed|done]).
    assert (Hx' : tx_val tx = tx_val tx') by congruence. pose proof (val_tx_val tx Hok) as H1. rewrite Hx', (val_tx_val tx' Hok') in H1. congruence.
Qed.

Lemma encode_spec tx : tx_ok tx -> Zlen (enc (to_item txType (tx_val tx))) < 2 ^ 64 -> encode tx = Ret (enc (to_item txType (tx_val tx)), None).
Proof.
  intros Hok Hl. unfold encode, rlpEncode. rewrite EncodeToBytes_item; [done|done|by apply tx_typed|done].
Qed.

Lemma writer_bytes tx : tx_ok tx -> Zlen (enc (to_item txType (tx_val tx))) < 2 ^ 64 -> forall (C : Crypto),
  prefixedRlpHash DynamicFeeTxType (writer txType (tx_val tx)) = Ret (Keccak256Hash (DynamicFeeTxType :: enc (to_item txType (tx_val tx)))).
Proof.
  intros Hok Hl C. pose proof (encode_spec tx Hok Hl) as He. unfold encode, rlpEncode, EncodeToBytes in He. unfold prefixedRlpHash.
  destruct (writer txType (tx_val tx) reset) as [[e|buf]| |]; cbn [obind] in *; [done| |done|done].
  destruct (makeBytes buf) as [b| |]; cbn [obind] in *; [|done|done]. by injection He as ->.
Qed.

Section Binary.
Context {P : PQCrypto} {C : Crypto}.

(** [C33] The binary form of a transaction is canonical: decoding ends on every byte
    string without a panic; what it accepts is a well-formed transaction whose
    binary form is the very input, whose size is the input's length, and whose hash
    is the hash of the input.  No two byte strings decode to the same transaction. *)
Theorem tx_binary_canonical b tx0 : Forall is_byte b -> Zlen b < 2 ^ 63 -> hash tx0 = None ->
  exists r tx, UnmarshalBinary b tx0 = Ret (r, tx) /\
    (r = None -> tx_ok (inner tx) /\ MarshalBinary tx = Ret (b, None) /\
       (exists tx', Size tx = Ret (Zlen b, tx')) /\ exists tx', Hash tx = Ret (Keccak256Hash b, tx')).
Proof.
  intros Hb Hl Hh. unfold UnmarshalBinary, mthen, mlift. unfold decodeTyped. destruct b as [|ty b]; [by eexists _, _|].
  destruct (Z.leb_spec (Zlen (ty :: b)) 1) as [|Hlen]; [by eexists _, _|]. rewrite go_index_0. cbn [obind].
  destruct (Z.eqb_spec ty DynamicFeeTxType) as [-> |]; [|by eexists _, _]. rewrite go_slice_tail. cbn [obind].
  inversion Hb as [|? ? _ Hb']; subst. rewrite Zlen_cons in *. destruct (decode_spec b Hb' ltac:(lia)) as ([e|inn] & Hd & Hiff); rewrite Hd; cbn [obind fst snd].
  { by eexists _, _. }
  destruct (proj1 (Hiff inn) eq_refl) as [Hok Hbe]. exists None, (setDecoded inn (1 + Zlen b) tx0). split; [done|]. intros _. cbn [inner setDecoded].
  assert (Hlb : Zlen (enc (to_item txType (tx_val inn))) < 2 ^ 64) by (rewrite <- Hbe; lia). split_and!; [done| | |].
  - unfold MarshalBinary, encodeTyped. cbn [inner setDecoded]. rewrite encode_spec by done. cbn [obind]. by rewrite <- Hbe.
  - unfold Size, mthen, mget. cbn [obind fst snd size setDecoded]. rewrite (proj2 (Z.ltb_lt _ _)) by lia. eexists. reflexivity.
  - unfold Hash, mthen, mget, mlift. cbn [obind fst snd hash setDecoded inner]. rewrite Hh. rewrite writer_bytes by done. cbn [obind fst snd].
    rewrite <- Hbe. eexists. reflexivity.
Qed.

(** Every well-formed transaction survives the round trip through its binary
    form. *)
Theorem tx_binary_roundtrip tx tx0 : tx_ok (inner tx) -> Zlen (enc (to_item txType (tx_val (inner tx)))) + 1 < 2 ^ 63 ->
  exists b, MarshalBinary tx = Ret (b, None) /\ exists tx', UnmarshalBinary b tx0 = Ret (None, tx') /\ inner tx' = inner tx.
Proof.
  intros Hok Hl. set (e := enc (to_item txType (tx_val (inner tx)))) in *. exists (DynamicFeeTxType :: e). split.
  { unfold MarshalBinary, encodeTyped. rewrite encode_spec by (done || (fold e; lia)). done. }
  assert (Hb : Forall is_byte e) by (apply item_bytes_enc; [apply typed_bytes, tx_typed, Hok|fold e; lia]).
  destruct (decode_spec e Hb ltac:(lia)) as (r & Hr & Hiff). assert (r = inr (inner tx)) as -> by (by apply Hiff).
  unfold UnmarshalBinary, mthen, mlift, decodeTyped. pose proof (Zlen_enc_pos (to_item txType (tx_val (inner tx)))) as Hp. fold e in Hp.
  pose proof (Zlen_cons DynamicFeeTxType e). rewrite (proj2 (Z.leb_gt _ _)) by lia. rewrite go_index_0. cbn [obind].
  change (DynamicFeeTxType =? DynamicFeeTxType) with true. cbv iota. rewrite go_slice_tail. cbn [obind]. rewrite Hr.
  cbn [obind fst snd]. eexists. split; [reflexivity|done].
Qed.

End Binary.

(** ** What is signed *)

(** The signed list as a struct. *)
Definition signType : rtype :=
  RStruct [RBig; RUint 64; RBig; RBig; RUint 64; RNilPtr String addressType; RBig; RBytes; accessListType; RBytes; RBytes].

Definition sign_val (s : Signer) (tx : DynamicFeeTx) (descriptor extraParams : list Z) : rval :=
  VList [VBig (Some (ChainId s)); VUint (Nonce tx); VBig (GasTipCap tx); VBig (GasFeeCap tx); VUint (Gas tx);
    VPtr (option_map address_val (To tx)); VBig (Value tx); VBytes (Data tx); list_val (AccessList tx);
    VBytes descriptor; VBytes extraParams].

(** The bytes that are hashed for the signature. *)
Definition signed_bytes (s : Signer) (tx : DynamicFeeTx) (descriptor extraParams : list Z) : list Z :=
  DynamicFeeTxType :: enc (to_item signType (sign_val s tx descriptor extraParams)).

(** What a signature is asked for: a chain, a transaction, and the data of a key. *)
Record signable (s : Signer) (tx : DynamicFeeTx) (descriptor extraParams : list Z) : Prop := {
  sn_chain : 0 <= ChainId s;
  sn_tx : tx_ok tx;
  sn_desc : Forall is_byte descriptor;
  sn_extra : Forall is_byte extraParams;
  sn_size : Zlen (signed_bytes s tx descriptor extraParams) < 2 ^ 63
}.

Lemma sign_typed s tx d x : signable s tx d x -> typed signType (sign_val s tx d x).
Proof.
  intros [Hc [] Hd Hx _]. unfold signType, sign_val. change (typed (RStruct ?ts) (VList ?vs)) with (zip_typed typed ts vs). cbn [zip_typed].
  repeat (split; [first [solve [auto] | done]|]). done.
Qed.

Lemma signed_values_writer s tip cap value tx d x : GasTipCap tx = Some tip -> GasFeeCap tx = Some cap -> Value tx = Some value ->
  signed_values s tip cap value tx d x = writer signType (sign_val s tx d x).
Proof. intros H1 H2 H3. unfold sign_val. rewrite H1, H2, H3. unfold signed_values. by destruct (To tx). Qed.

Lemma signer_Hash_bytes (C : Crypto) s tx d x : signable s (inner tx) d x -> signer_Hash s tx d x = Ret (Keccak256Hash (signed_bytes s (inner tx) d x)).
Proof.
  intros Hs. pose proof (sign_typed _ _ _ _ Hs) as Ht. destruct Hs as [_ [] _ _ Hl]. unfold signed_bytes in Hl. rewrite Zlen_cons in Hl.
  unfold signer_Hash, GasTipCap_, GasFeeCap_, Value_.
  destruct (GasTipCap (inner tx)) as [tip|] eqn:E1, (GasFeeCap (inner tx)) as [cap|] eqn:E2, (Value (inner tx)) as [value|] eqn:E3; try done. cbn [deref obind].
  rewrite (signed_values_writer s tip cap value (inner tx) d x E1 E2 E3). unfold prefixedRlpHash, signed_bytes.
  pose proof (EncodeToBytes_item signType (sign_val s (inner tx) d x) eq_refl Ht ltac:(lia)) as He. unfold EncodeToBytes in He.
  destruct (writer signType (sign_val s (inner tx) d x) reset) as [[e|buf]| |]; cbn [obind] in *; [done| |done|done].
  destruct (makeBytes buf) as [b| |]; cbn [obind] in *; [|done|done]. by injection He as ->.
Qed.

Lemma enc_inj t v1 v2 : wf_type t = true -> typed t v1 -> typed t v2 -> Zlen (enc (to_item t v1)) < 2 ^ 63 ->
  enc (to_item t v1) = enc (to_item t v2) -> v1 = v2.
Proof.
  intros Hw H1 H2 Hl He. assert (Hb : Forall is_byte (enc (to_item t v1))) by (apply item_bytes_enc; [by apply typed_bytes|lia]).
  destruct (DecodeBytes_spec t _ Hw Hb Hl) as (r & _ & Hiff).
  assert (r = inr v1) as -> by (by apply Hiff). assert (Hx : (inr v1 : rlp_error + rval) = inr v2) by (by apply Hiff). by injection Hx.
Qed.

(** The fields a signature is about. *)
Definition same_signed (tx1 tx2 : DynamicFeeTx) : Prop :=
  Nonce tx1 = Nonce tx2 /\ GasTipCap tx1 = GasTipCap tx2 /\ GasFeeCap tx1 = GasFeeCap tx2 /\ Gas tx1 = Gas tx2 /\ To tx1 = To tx2 /\
  Value tx1 = Value tx2 /\ Data tx1 = Data tx2 /\ AccessList tx1 = AccessList tx2.

Lemma list_val_inj al1 al2 : list_ok al1 -> list_ok al2 -> list_val al1 = list_val al2 -> al1 = al2.
Proof.
  intros H1 H2 He. assert (map tuple_val al1 = map tuple_val al2) as Hm by (unfold list_val in He; congruence).
  pose proof (tuples_val al1 H1) as Ht. rewrite Hm, (tuples_val al2 H2) in Ht. congruence.
Qed.
Lemma to_val_inj a1 a2 : to_ok a1 -> to_ok a2 -> option_map address_val a1 = option_map address_val a2 -> a1 = a2.
Proof.
  destruct a1 as [a1|], a2 as [a2|]; try done. cbn [to_ok option_map]. unfold address_val. intros H1 H2 He.
  assert (Hb : AddressBytes a1 = AddressBytes a2) by congruence. by rewrite <- (address_roundtrip a1 H1), <- (address_roundtrip a2 H2), Hb.
Qed.

Section Signatures.
Context {P : PQCrypto} {C : Crypto}.

(** [C34] A signature covers the chain and every field of the transaction: the hash
    that is signed is the hash of bytes from which the chain, the fields, the
    descriptor and the extra parameters can be read off, so that transactions
    which differ in any of them, or are meant for different chains, never have the
    same bytes signed. *)
Theorem signature_covers s1 tx1 d1 x1 s2 tx2 d2 x2 :
  signable s1 (inner tx1) d1 x1 -> signable s2 (inner tx2) d2 x2 ->
  signer_Hash s1 tx1 d1 x1 = Ret (Keccak256Hash (signed_bytes s1 (inner tx1) d1 x1)) /\
  (signed_bytes s1 (inner tx1) d1 x1 = signed_bytes s2 (inner tx2) d2 x2 ->
     ChainId s1 = ChainId s2 /\ same_signed (inner tx1) (inner tx2) /\ d1 = d2 /\ x1 = x2).
Proof.
  intros Hs1 Hs2. split; [by apply signer_Hash_bytes|]. intros He. apply (f_equal (@tail Z)) in He.
  apply (enc_inj signType (sign_val s1 (inner tx1) d1 x1) (sign_val s2 (inner tx2) d2 x2)) in He; [|done|by apply sign_typed|by apply sign_typed|].
  - destruct Hs1 as [_ [] _ _ _], Hs2 as [_ [] _ _ _]. unfold sign_val in He. unfold same_signed.
    injection He as Hch Hno Hti Hca Hga Hto Hva Hda Hal Hd Hx. split_and!; first [done | by apply to_val_inj | apply list_val_inj; [done|done|unfold list_val; congruence]].
  - destruct Hs1 as [_ _ _ _ Hl]. unfold signed_bytes in Hl. rewrite Zlen_cons in Hl. lia.
Qed.

(** ** Signing and finding the sender *)

Context {PS : PQCryptoSpec P}.

Lemma go_copy_at_full {A} (l src : list A) : length l = length src -> go_copy_at l 0 src = src.
Proof.
  intros Hl. unfold go_copy_at. rewrite Nat.sub_0_r, Hl, Nat.min_id. cbn [take Nat.add app].
  rewrite firstn_all, drop_ge by lia. apply app_nil_r.
Qed.

(** The transaction a wallet hands back. *)
Definition signed_tx (tx : Transaction) (s : Signer) (w : Wallet) (sig : list Z) : Transaction :=
  mkTransaction (mkTx (Some (ChainId s)) (Nonce (inner tx)) (GasTipCap (inner tx)) (GasFeeCap (inner tx)) (Gas (inner tx)) (To (inner tx))
    (Value (inner tx)) (Data (inner tx)) (AccessList (inner tx)) (ToBytes (w_GetDescriptor w)) [] sig (w_GetPK w)) None None None.

Lemma big_default z : big_ok z -> Some (default 0 z) = z.
Proof. by destruct z. Qed.

Lemma setAuthValues_copy tx s w sig : tx_ok (inner tx) ->
  mkTransaction (setAuthValues (ChainId s) sig (w_GetPK w) (ToBytes (w_GetDescriptor w)) [] (copy (inner tx))) None None None = signed_tx tx s w sig.
Proof.
  intros []. unfold setAuthValues, copy, signed_tx. cbn [ChainID Nonce GasTipCap GasFeeCap Gas To Value Data AccessList Descriptor]. rewrite !big_default by done. rewrite go_copy_at_full; [done|].
  pose proof (descriptor_length (w_GetDescriptor w)) as Hd. rewrite descriptor_size in Hd. unfold Zlen in Hd. destruct ok_desc0. lia.
Qed.

Lemma SignTx_spec tx s w chainId sig : signable s (inner tx) (ToBytes (w_GetDescriptor w)) [] -> ChainID (inner tx) = Some chainId ->
  chainId = 0 \/ chainId = ChainId s ->
  w_Sign w (HashBytes (Keccak256Hash (signed_bytes s (inner tx) (ToBytes (w_GetDescriptor w)) []))) = Some sig ->
  SignTx tx s w = Ret (inr (signed_tx tx s w sig)).
Proof.
  intros Hs Hc Hch Hw. unfold SignTx, ChainId_. rewrite Hc. cbn [deref obind].
  assert (Hgo : negb (Z.sgn chainId =? 0) && negb (chainId =? ChainId s) = false).
  { destruct Hch as [-> | ->]; [done|]. by rewrite Z.eqb_refl, andb_false_r. }
  rewrite Hgo, (signer_Hash_bytes C s tx) by done. cbn [obind]. unfold Sign. unfold HashBytes at 1, Zlen at 1. rewrite length_Z_to_bytes, Hw. change (negb (Z.of_nat 32 =? DigestLength)) with false. cbv iota.
  destruct (wallet_verify w _ sig Hw) as [Hsl _]. unfold WithAuthValues, AuthValues. rewrite Hc. cbn [deref obind]. rewrite Hgo.
  unfold decode_sized. rewrite Hsl, wallet_pk_length, descriptor_length, !Z.eqb_refl. cbn [negb]. rewrite setAuthValues_copy; [done|]. apply Hs.
Qed.

Lemma signed_tx_bytes tx s w sig d x : signed_bytes s (inner (signed_tx tx s w sig)) d x = signed_bytes s (inner tx) d x.
Proof. done. Qed.

Lemma signed_tx_signable tx s w sig : Forall is_byte sig -> Forall is_byte (w_GetPK w) -> signable s (inner tx) (ToBytes (w_GetDescriptor w)) [] ->
  signable s (inner (signed_tx tx s w sig)) (ToBytes (w_GetDescriptor w)) [].
Proof.
  intros Hsig Hpk [Hc [] Hd Hx Hl]. split; [done| |done|done|done]. split; cbn; auto. split; [|apply descriptor_bytes].
  pose proof (descriptor_length (w_GetDescriptor w)) as Hdl. rewrite descriptor_size in Hdl. unfold Zlen in Hdl. lia.
Qed.

Lemma signer_Sender_signed tx s w sig : signable s (inner tx) (ToBytes (w_GetDescriptor w)) [] -> Forall is_byte sig -> Forall is_byte (w_GetPK w) ->
  w_Sign w (HashBytes (Keccak256Hash (signed_bytes s (inner tx) (ToBytes (w_GetDescriptor w)) []))) = Some sig ->
  signer_Sender s (signed_tx tx s w sig) = Ret (inr (w_GetAddress w)).
Proof.
  intros Hs Hsig Hpk Hw. destruct (wallet_verify w _ sig Hw) as (Hsl & pk & d & Hpk' & Hd & Hv).
  unfold signer_Sender, ChainId_. cbn [deref obind inner signed_tx ChainID ExtraParams Descriptor Signature PublicKey]. rewrite Z.eqb_refl. change (Zlen [] =? 0) with true. cbn [negb].
  rewrite (signer_Hash_bytes C s (signed_tx tx s w sig)) by (by apply signed_tx_signable). rewrite signed_tx_bytes. cbn [obind].
  rewrite descriptor_roundtrip, wallet_type, Z.eqb_refl. cbn [negb]. unfold MLDSA87VerifySignature. rewrite Hsl, Z.eqb_refl, Hpk', Hd, Hv. cbn [negb].
  by rewrite wallet_address.
Qed.

(** [C35] A signed transaction leads back to its signer: signing succeeds for the
    signer's chain, changes no field a signature is about, and [Sender] finds the
    address of the wallet, the first time and from the cache; a signer of any
    other chain refuses the transaction, cache or not. *)
Theorem signed_sender tx s w chainId sig :
  signable s (inner tx) (ToBytes (w_GetDescriptor w)) [] -> ChainID (inner tx) = Some chainId -> chainId = 0 \/ chainId = ChainId s ->
  w_Sign w (HashBytes (Keccak256Hash (signed_bytes s (inner tx) (ToBytes (w_GetDescriptor w)) []))) = Some sig ->
  Forall is_byte sig -> Forall is_byte (w_GetPK w) ->
  exists tx', SignTx tx s w = Ret (inr tx') /\ same_signed (inner tx) (inner tx') /\
    exists tx'', Sender s tx' = Ret (inr (w_GetAddress w), tx'') /\ Sender s tx'' = Ret (inr (w_GetAddress w), tx'') /\
      forall s', ChainId s' <> ChainId s -> Sender s' tx' = Ret (inl ErrInvalidChainId, tx') /\ Sender s' tx'' = Ret (inl ErrInvalidChainId, tx'').
Proof.
  intros Hs Hc Hch Hw Hsig Hpk. exists (signed_tx tx s w sig). split; [by eapply SignTx_spec|]. split; [done|].
  exists (with_from (Some (s, w_GetAddress w)) (signed_tx tx s w sig)). pose proof (signer_Sender_signed tx s w sig Hs Hsig Hpk Hw) as Hse.
  assert (Hother : forall s' t, ChainId s' <> ChainId s -> ChainID (inner t) = Some (ChainId s) -> signer_Sender s' t = Ret (inl ErrInvalidChainId)).
  { intros s' t Hne Ht. unfold signer_Sender, ChainId_. rewrite Ht. cbn. by rewrite (proj2 (Z.eqb_neq _ _)) by done. }
  split_and!.
  - unfold Sender, mthen, mget, mlift. cbn [obind fst snd from signed_tx]. fold (signed_tx tx s w sig). by rewrite Hse.
  - unfold Sender, mthen, mget, mlift. cbn [obind fst snd from with_from signed_tx]. unfold Equal. by rewrite Z.eqb_refl.
  - intros s' Hne. split; unfold Sender, mthen, mget, mlift; cbn [obind fst snd from with_from].
    + change (from (signed_tx tx s w sig)) with (None : option (Signer * Z)). by rewrite (Hother s' _ Hne).
    + unfold Equal. rewrite (proj2 (Z.eqb_neq _ _)) by done. by rewrite (Hother s' _ Hne).
Qed.

End Signatures.

(** ** On a concrete scheme *)

(** A scheme whose signatures repeat the message: enough to run the code. *)
#[local] Instance toy_scheme : PQCrypto := {|
  Descriptor_ := bool; PK := list Z; Descriptor87 := unit; Wallet := Z;
  CRYPTO_BYTES := 32; CRYPTO_PUBLIC_KEY_BYTES := 20; DescriptorSize := 3; ML_DSA_87 := 1;
  FromBytes b := if bool_decide (b = [1; 0; 0]) then Some true else if bool_decide (b = [0; 0; 0]) then Some false else None;
  ToBytes d := if d then [1; 0; 0] else [0; 0; 0];
  desc_Type d := if d then 1 else 0;
  GetAddressFromPKAndDescriptor pk d := Some (bytes_to_Z pk);
  BytesToPK pk := if Zlen pk =? 20 then Some pk else None;
  NewMLDSA87Descriptor := Some tt;
  Verify m sig pk d := bool_decide (m = sig);
  w_GetDescriptor w := true;
  w_GetPK w := Z_to_bytes 20 w;
  w_GetAddress w := w mod 2 ^ 160;
  w_Sign w m := if Zlen m =? 32 then Some m else None
|}.

#[local] Instance toy_scheme_spec : PQCryptoSpec toy_scheme.
Proof.
  split; cbn -[Z_to_bytes bytes_to_Z].
  - done.
  - by intros [].
  - intros []; repeat constructor; lia.
  - by intros [].
  - done.
  - intros w. unfold Zlen. by rewrite length_Z_to_bytes.
  - intros w. by rewrite bytes_to_Z_to_bytes.
  - intros w m sig. destruct (Z.eqb_spec (Zlen m) 32) as [Hl|]; [|done]. intros [= <-]. split; [done|].
    exists (Z_to_bytes 20 w), tt. rewrite bool_decide_eq_true_2 by done. unfold Zlen. rewrite length_Z_to_bytes. done.
Qed.

Lemma toy_sign (w : Wallet) h : w_Sign w (HashBytes h) = Some (HashBytes h).
Proof. unfold w_Sign, toy_scheme, Zlen, HashBytes. rewrite length_Z_to_bytes. reflexivity. Qed.

#[local] Existing Instance demo_crypto.

Definition demo_tx : DynamicFeeTx :=
  mkTx (Some 0) 3 (Some 2) (Some 20) 60000 (Some 101) (Some 5) [1; 0] [(101, [0; 7])] [0; 0; 0] [] [] [].

Lemma demo_tx_ok : tx_ok demo_tx.
Proof. split; cbn; unfold in64, in160, in256, list_ok; try lia; repeat constructor; cbn; unfold in160, in256; try lia; repeat constructor; lia. Qed.

Definition demo_new : Transaction := mkTransaction demo_tx None None None.

Lemma tx_binary_roundtrip_witness :
  exists b, MarshalBinary demo_new = Ret (b, None) /\ exists tx', UnmarshalBinary b demo_new = Ret (None, tx') /\ inner tx' = demo_tx.
Proof. apply (tx_binary_roundtrip demo_new demo_new); [exact demo_tx_ok|vm_compute; reflexivity]. Defined.

(** The bytes of [demo_tx], and the same with a trailing byte. *)
Definition demo_bytes : list Z := match MarshalBinary demo_new with Ret (b, None) => b | _ => [] end.

Lemma tx_binary_canonical_witness :
  (exists r tx, UnmarshalBinary demo_bytes demo_new = Ret (r, tx) /\
    (r = None -> tx_ok (inner tx) /\ MarshalBinary tx = Ret (demo_bytes, None) /\
       (exists tx', Size tx = Ret (Zlen demo_bytes, tx')) /\ exists tx', Hash tx = Ret (Keccak256Hash demo_bytes, tx'))) /\
  (exists tx, UnmarshalBinary demo_bytes demo_new = Ret (None, tx)) /\
  exists e tx, UnmarshalBinary (demo_bytes ++ [0]) demo_new = Ret (Some e, tx).
Proof.
  split_and!.
  - apply tx_binary_canonical; [|vm_compute; reflexivity|reflexivity]. apply forallb_bytes. vm_compute. reflexivity.
  - eexists. vm_compute. reflexivity.
  - eexists _, _. vm_compute. reflexivity.
Defined.

Lemma demo_signable c : c = 5 \/ c = 6 -> signable (mkSigner c) demo_tx [1; 0; 0] [].
Proof.
  intros Hc. split; [cbn; lia|exact demo_tx_ok|repeat constructor; lia|constructor|]. destruct Hc as [-> | ->]; vm_compute; reflexivity.
Qed.

(** The bytes signed for chains 5 and 6 differ. *)
Lemma signature_covers_witness : signed_bytes (mkSigner 5) demo_tx [1; 0; 0] [] <> signed_bytes (mkSigner 6) demo_tx [1; 0; 0] [].
Proof.
  intros He. destruct (signature_covers (mkSigner 5) demo_new [1; 0; 0] [] (mkSigner 6) demo_new [1; 0; 0] []
    (demo_signable 5 (or_introl eq_refl)) (demo_signable 6 (or_intror eq_refl))) as [_ Hc]. destruct (Hc He) as [Hch _]. discriminate Hch.
Defined.

Lemma signed_sender_witness :
  exists tx', SignTx demo_new (mkSigner 5) 77 = Ret (inr tx') /\ same_signed demo_tx (inner tx') /\
    exists tx'', Sender (mkSigner 5) tx' = Ret (inr 77, tx'') /\ Sender (mkSigner 5) tx'' = Ret (inr 77, tx'') /\
      forall s', ChainId s' <> 5 -> Sender s' tx' = Ret (inl ErrInvalidChainId, tx') /\ Sender s' tx'' = Ret (inl ErrInvalidChainId, tx'').
Proof.
  exact (signed_sender demo_new (mkSigner 5) 77 0 _ (demo_signable 5 (or_introl eq_refl)) eq_refl (or_introl eq_refl) (toy_sign 77 _)
    (Z_to_bytes_byte _ _) (Z_to_bytes_byte _ _)).
Defined.
