(* ===== verification/Bloom.v ===== *)
(** * Log bloom filters (core/types/bloom9.go)

    A filter is 2048 bits in 256 bytes; every address and topic sets three of
    them. *)

From S2P Require Import Prelude VMCommon StateTypes.

Definition BloomByteLength : Z := 256.

Definition emptyBloom : list Z := replicate 256 0.

(** A loop over a slice that may panic. *)
Fixpoint ofold {A B} (f : A -> B -> outcome A) (a : A) (l : list B) : outcome A :=
  match l with [] => Ret a | x :: l => let! a := f a x in ofold f a l end.

Section Bloom.
Context {C : Crypto}.

(** [hashbuf[k]] *)
Definition byte_at (l : list Z) (k : nat) : Z := default 0 (l !! k).

(** [binary.BigEndian.Uint16(hashbuf[k:])] *)
Definition uint16_at (l : list Z) (k : nat) : Z := Z.lor (byte_at l (S k)) (Z.shiftl (byte_at l k) 8).

(** The byte and the bit for the pair of digest bytes at [k]. *)
Definition bloomValue (hashbuf : list Z) (k : nat) : Z * Z :=
  (BloomByteLength - Z.shiftr (Z.land (uint16_at hashbuf k) 0x7ff) 3 - 1, byte_of (Z.shiftl 1 (Z.land (byte_at hashbuf (S k)) 0x7))).

(** [bloomValues]: the scratch buffer gets the first six bytes of the digest. *)
Definition bloomValues (data : list Z) : list (Z * Z) :=
  let hashbuf := take 6 (HashBytes (Keccak256Hash data)) in
  [bloomValue hashbuf 0; bloomValue hashbuf 2; bloomValue hashbuf 4].

(** [b[i] |= v] *)
Definition or_at (b : list Z) (iv : Z * Z) : outcome (list Z) :=
  let! x := go_index b (fst iv) in
  go_set b (fst iv) (Z.lor x (snd iv)).

Definition or_all : list Z -> list (Z * Z) -> outcome (list Z) := ofold or_at.

Definition Bloom_add (b d : list Z) : outcome (list Z) := or_all b (bloomValues d).

(** [Test] stops at the first bit that is missing. *)
Fixpoint test_all (b : list Z) (ivs : list (Z * Z)) : outcome bool :=
  match ivs with
  | [] => Ret true
  | (i, v) :: ivs => let! x := go_index b i in if v =? Z.land v x then test_all b ivs else Ret false
  end.

Definition Bloom_Test (b topic : list Z) : outcome bool := test_all b (bloomValues topic).

Definition add_each : list Z -> list (list Z) -> outcome (list Z) := ofold Bloom_add.

Definition add_log (b : list Z) (log : Log) : outcome (list Z) :=
  let! b := Bloom_add b (AddressBytes (lgAddress log)) in
  add_each b (map HashBytes (lgTopics log)).

Definition add_logs : list Z -> list Log -> outcome (list Z) := ofold add_log.

(** [CreateBloom] of the logs of each receipt. *)
Definition CreateBloom (receipts : list (list Log)) : outcome (list Z) := ofold add_logs emptyBloom receipts.

Definition LogsBloom (logs : list Log) : outcome (list Z) := add_logs emptyBloom logs.

(** [SetBytes] and [BytesToBloom]: right-aligned, too many bytes panic. *)
Definition Bloom_SetBytes (b d : list Z) : outcome (list Z) :=
  if BloomByteLength <? Zlen d then Panic else Ret (go_copy_at b (256 - length d) d).
Definition BytesToBloom (d : list Z) : outcome (list Z) := Bloom_SetBytes emptyBloom d.

(** ** Bits *)

(** [(i, v)] names bit [k] of byte [i]. *)
Definition is_bit (iv : Z * Z) : Prop := 0 <= fst iv < 256 /\ exists k, 0 <= k < 8 /\ snd iv = 2 ^ k.

Lemma bloomValue_bit hashbuf k : Forall is_byte hashbuf -> is_bit (bloomValue hashbuf k).
Proof.
  intros Hb. unfold bloomValue, is_bit. cbn [fst snd].
  assert (Hba : forall j, is_byte (byte_at hashbuf j)).
  { intros j. unfold byte_at. destruct (hashbuf !! j) eqn:E; cbn; [by eapply Forall_lookup_1 in E|unfold is_byte; lia]. }
  split.
  - change 0x7ff with (Z.ones 11). rewrite Z.land_ones, Z.shiftr_div_pow2 by lia. change (2 ^ 11) with 2048. change (2 ^ 3) with 8. unfold BloomByteLength.
    pose proof (Z.mod_pos_bound (uint16_at hashbuf k) 2048 ltac:(lia)). pose proof (Z.div_pos (uint16_at hashbuf k mod 2048) 8 ltac:(lia) ltac:(lia)).
    assert (uint16_at hashbuf k mod 2048 / 8 < 256) by (apply Z.div_lt_upper_bound; lia). lia.
  - exists (Z.land (byte_at hashbuf (S k)) 7). change 7 with (Z.ones 3). rewrite Z.land_ones by lia. change (2 ^ 3) with 8.
    pose proof (Z.mod_pos_bound (byte_at hashbuf (S k)) 8 ltac:(lia)) as Hm. split; [lia|]. rewrite Z.shiftl_1_l. unfold byte_of.
    apply Z.mod_small. split; [apply Z.pow_nonneg; lia|]. change 256 with (2 ^ 8). apply Z.pow_lt_mono_r; lia.
Qed.

Lemma bloomValues_bits d : Forall is_bit (bloomValues d).
Proof.
  assert (Hb : Forall is_byte (take 6 (HashBytes (Keccak256Hash d)))) by (apply Forall_take, Z_to_bytes_byte).
  repeat constructor; by apply bloomValue_bit.
Qed.

(** Bit [k] of byte [i] of a filter. *)
Definition has_bit (b : list Z) (iv : Z * Z) : Prop := exists x, b !! Z.to_nat (fst iv) = Some x /\ Z.land (snd iv) x = snd iv.

Lemma land_pow2 k x : 0 <= k -> Z.land (2 ^ k) x = 2 ^ k <-> Z.testbit x k = true.
Proof.
  intros Hk. split; intros H.
  - apply (f_equal (fun z => Z.testbit z k)) in H. rewrite Z.land_spec, Z.pow2_bits_true in H by done. exact H.
  - apply Z.bits_inj'. intros n Hn. rewrite Z.land_spec, Z.pow2_bits_eqb by done. destruct (Z.eqb_spec k n) as [-> |]; [by rewrite H|done].
Qed.

Lemma lor_has_bit i v j w b x : is_bit (i, v) -> is_bit (j, w) -> length b = 256%nat -> b !! Z.to_nat i = Some x ->
  has_bit (<[Z.to_nat i := Z.lor x v]> b) (j, w) <-> (j, w) = (i, v) \/ has_bit b (j, w).
Proof.
  intros [Hi (k & Hk & Hv)] [Hj (l & Hl & Hw)] Hlen Hx. cbn in *. subst v w. unfold has_bit. cbn [fst snd].
  destruct (decide (Z.to_nat i = Z.to_nat j)) as [He|Hne].
  - assert (i = j) as -> by lia. rewrite list_lookup_insert_eq by lia. split.
    + intros (y & [= <-] & Hy). apply land_pow2 in Hy; [|lia]. rewrite Z.lor_spec, Z.pow2_bits_eqb in Hy by lia.
      destruct (Z.eqb_spec k l) as [-> |]; [by left|]. right. exists x. split; [done|]. apply land_pow2; [lia|]. by rewrite orb_false_r in Hy.
    + intros H. exists (Z.lor x (2 ^ k)). split; [done|]. apply land_pow2; [lia|]. rewrite Z.lor_spec, Z.pow2_bits_eqb by lia.
      destruct H as [[= Hp]|(y & Hy & Hly)].
      * assert (l = k) as -> by (apply (Z.pow_inj_r 2); lia). by rewrite Z.eqb_refl, orb_true_r.
      * assert (y = x) as -> by congruence. apply land_pow2 in Hly; [|lia]. by rewrite Hly.
  - rewrite list_lookup_insert_ne by done. split; [by right|]. intros [[= -> _]|H]; [done|exact H].
Qed.

Definition bloom_ok (b : list Z) : Prop := length b = 256%nat.

Lemma or_all_spec ivs : Forall is_bit ivs -> forall b, bloom_ok b ->
  exists b', or_all b ivs = Ret b' /\ bloom_ok b' /\ forall iv, is_bit iv -> has_bit b' iv <-> iv ∈ ivs \/ has_bit b iv.
Proof.
  induction 1 as [|[i v] ivs Hiv _ IH]; intros b Hb.
  - exists b. split_and!; [done|done|]. intros iv _. split; [by right|]. intros [Hin|]; [by apply elem_of_nil in Hin|done].
  - pose proof Hiv as [Hi _]. cbn in Hi. unfold or_all. cbn [ofold]. fold or_all. unfold or_at at 1, go_index, go_set. cbn [fst snd].
    destruct (lookup_lt_is_Some_2 b (Z.to_nat i)) as [x Hx]; [unfold bloom_ok in Hb; lia|].
    rewrite (proj2 (Z.leb_le 0 i)) by lia. rewrite Hx. cbn [obind]. unfold Zlen. rewrite (proj2 (Z.ltb_lt _ _)) by (unfold bloom_ok in Hb; lia). cbn [andb obind].
    destruct (IH (<[Z.to_nat i:=Z.lor x v]> b)) as (b' & Hr & Hb' & Hbits); [by unfold bloom_ok; rewrite length_insert|].
    exists b'. split_and!; [done|done|]. intros [j w] Hjw. rewrite Hbits by done. rewrite lor_has_bit by done. rewrite elem_of_cons. tauto.
Qed.

Lemma add_each_spec ds : forall b, bloom_ok b ->
  exists b', add_each b ds = Ret b' /\ bloom_ok b' /\ forall iv, is_bit iv -> has_bit b' iv <-> (exists d, d ∈ ds /\ iv ∈ bloomValues d) \/ has_bit b iv.
Proof.
  induction ds as [|d ds IH]; intros b Hb.
  - exists b. split_and!; [done|done|]. intros iv _. split; [by right|]. intros [(d & Hd & _)|]; [by apply elem_of_nil in Hd|done].
  - unfold add_each. cbn [ofold]. fold add_each. destruct (or_all_spec (bloomValues d) (bloomValues_bits d) b Hb) as (b1 & H1 & Hb1 & Hbits1).
    destruct (IH b1 Hb1) as (b2 & H2 & Hb2 & Hbits2). exists b2. unfold Bloom_add. rewrite H1. cbn [obind]. split_and!; [done|done|].
    intros iv Hiv. rewrite Hbits2, Hbits1 by done. split.
    + intros [(d' & Hd' & Hin)|[Hin|Hx]]; [left; exists d'; split; [apply elem_of_cons; by right|done]|left; exists d; split; [apply elem_of_cons; by left|done]|by right].
    + intros [(d' & Hd' & Hin)|Hx]; [|by right; right]. apply elem_of_cons in Hd' as [-> |Hd']; [right; by left|left; by exists d'].
Qed.

(** What a log puts into the filter. *)
Definition log_items (log : Log) : list (list Z) := AddressBytes (lgAddress log) :: map HashBytes (lgTopics log).

Lemma ofold_app {A B} (f : A -> B -> outcome A) a l1 l2 : ofold f a (l1 ++ l2) = let! a := ofold f a l1 in ofold f a l2.
Proof. revert a. induction l1 as [|x l1 IH]; intros a; [done|]. cbn. destruct (f a x); cbn; [apply IH|done|done]. Qed.

Lemma add_logs_each logs b : add_logs b logs = add_each b (concat (map log_items logs)).
Proof.
  revert b. induction logs as [|log logs IH]; intros b; [done|]. unfold add_logs, add_each. cbn [ofold map concat]. rewrite ofold_app.
  assert (Hl : add_log b log = add_each b (log_items log)) by reflexivity. rewrite Hl. unfold add_each. destruct (ofold Bloom_add b (log_items log)); [apply IH|done|done].
Qed.

Lemma CreateBloom_each receipts b : ofold add_logs b receipts = add_each b (concat (map log_items (concat receipts))).
Proof.
  revert b. induction receipts as [|logs receipts IH]; intros b; [done|]. cbn [ofold concat]. rewrite map_app, concat_app, add_logs_each. unfold add_each. rewrite ofold_app.
  destruct (ofold Bloom_add b _); [apply IH|done|done].
Qed.

Lemma empty_no_bit iv : is_bit iv -> ~ has_bit emptyBloom iv.
Proof.
  intros [_ (k & Hk & Hv)] (x & Hx & Hl). unfold emptyBloom in Hx. apply lookup_replicate in Hx as [-> _]. rewrite Hv, Z.land_0_r in Hl.
  pose proof (Z.pow_pos_nonneg 2 k). lia.
Qed.

Lemma test_all_spec b ivs : bloom_ok b -> Forall is_bit ivs -> exists r, test_all b ivs = Ret r /\ (r = true <-> Forall (has_bit b) ivs).
Proof.
  intros Hb. induction 1 as [|[i v] ivs [Hi _] _ IH]; [exists true; by split|]. cbn [test_all]. unfold go_index. cbn in Hi.
  destruct (lookup_lt_is_Some_2 b (Z.to_nat i)) as [x Hx]; [unfold bloom_ok in Hb; lia|].
  rewrite (proj2 (Z.leb_le 0 i)), Hx by lia. cbn [obind]. destruct (Z.eqb_spec v (Z.land v x)) as [He|Hne].
  - destruct IH as (r & Hr & Hiff). exists r. split; [done|]. rewrite Hiff, Forall_cons_iff. split; [|tauto]. intros H. split; [|done]. exists x. by split.
  - exists false. split; [done|]. rewrite Forall_cons_iff. split; [done|]. intros [(y & Hy & Hly) _]. cbn in Hy, Hly. assert (y = x) as -> by congruence. congruence.
Qed.

(** The filter of a block has no false negatives and no stray bits: building it
    never panics, every address and topic of every log tests positive, and whatever
    tests positive has each of its three bits set by some address or topic of the
    block. *)
Theorem bloom_exact receipts :
  exists b, CreateBloom receipts = Ret b /\ length b = 256%nat /\
    (forall log d, log ∈ concat receipts -> d ∈ log_items log -> Bloom_Test b d = Ret true) /\
    forall d, exists r, Bloom_Test b d = Ret r /\
      (r = true <-> forall iv, iv ∈ bloomValues d -> exists log d', log ∈ concat receipts /\ d' ∈ log_items log /\ iv ∈ bloomValues d').
Proof.
  unfold CreateBloom. rewrite CreateBloom_each. destruct (add_each_spec (concat (map log_items (concat receipts))) emptyBloom eq_refl) as (b & Hr & Hb & Hbits).
  assert (Hset : forall iv, is_bit iv -> has_bit b iv <-> exists log d', log ∈ concat receipts /\ d' ∈ log_items log /\ iv ∈ bloomValues d').
  { intros iv Hiv. rewrite Hbits by done. split.
    - intros [(d & Hd & Hin)|H]; [|by apply empty_no_bit in H]. apply list_elem_of_In, in_concat in Hd as (l & Hl & Hd). apply in_map_iff in Hl as (log & <- & Hlog).
      exists log, d. split_and!; [by apply list_elem_of_In|by apply list_elem_of_In|done].
    - intros (log & d & Hlog & Hd & Hin). left. exists d. split; [|done]. apply list_elem_of_In, in_concat. exists (log_items log).
      apply list_elem_of_In in Hlog. apply list_elem_of_In in Hd. split; [by apply in_map|done]. }
  assert (Htest : forall d, exists r, Bloom_Test b d = Ret r /\
    (r = true <-> forall iv, iv ∈ bloomValues d -> exists log d', log ∈ concat receipts /\ d' ∈ log_items log /\ iv ∈ bloomValues d')).
  { intros d. destruct (test_all_spec b (bloomValues d) Hb (bloomValues_bits d)) as (r & Ht & Hiff). exists r. split; [done|]. rewrite Hiff.
    pose proof (bloomValues_bits d) as Hbd. rewrite !list.Forall_forall in *. split; intros H iv Hiv; apply Hset; auto. }
  exists b. split_and!; [done|done| |done]. intros log d Hlog Hd. destruct (Htest d) as (r & Ht & Hiff). rewrite Ht. f_equal. apply Hiff. eauto.
Qed.

End Bloom.
