(* ===== verification/Blocks.v ===== *)
(** * Block headers (core/types/block.go, gen_header_rlp.go, withdrawal.go,
    gen_withdrawal_rlp.go)

    The header is written by generated code and read by reflection. *)

From S2P Require Import Prelude Uint256 Params VMCommon Rlp RlpStream StateTypes Bloom Transactions.
Import Rlp Decode Encode.

(** Hashes and addresses are integers, pointers are options. *)
Record Header : Type := mkHeader {
  h_ParentHash : Z;
  h_Coinbase : Z;
  h_Root : Z;
  h_TxHash : Z;
  h_ReceiptHash : Z;
  h_Bloom : list Z;
  h_Number : option Z;
  h_GasLimit : Z;
  h_GasUsed : Z;
  h_Time : Z;
  h_Extra : list Z;
  h_Random : Z;
  h_BaseFee : option Z;
  h_WithdrawalsHash : option Z
}.

Record Withdrawal : Type := mkWithdrawal { w_Index : Z; w_Validator : Z; w_Address : Z; w_Amount : Z }.

(** [Body] and [Block]; a nil list of withdrawals is [None].  The caches of a block
    are left out: its contents do not change. *)
Record Block : Type := mkBlock { b_header : Header; b_transactions : list Tx.Transaction; b_withdrawals : option (list Withdrawal) }.

(** ** The generated encoders *)

(** A big integer, nil as the empty string. *)
Definition writeBigPtr (z : option Z) : W :=
  match z with
  | None => wok (append_str [0x80])
  | Some z => if Z.sgn z =? -1 then fun _ => Ret (inl ErrNegativeBigInt) else wok (writeBigInt z)
  end.

Definition isSome {A} (x : option A) : bool := match x with Some _ => true | None => false end.

(** The two last fields are left out when they are nil. *)
Definition Header_EncodeRLP (obj : Header) : W :=
  wlist (wall (
    [wok (writeBytes (HashBytes (h_ParentHash obj))); wok (writeBytes (AddressBytes (h_Coinbase obj)));
     wok (writeBytes (HashBytes (h_Root obj))); wok (writeBytes (HashBytes (h_TxHash obj)));
     wok (writeBytes (HashBytes (h_ReceiptHash obj))); wok (writeBytes (h_Bloom obj)); writeBigPtr (h_Number obj);
     wok (writeUint64 (h_GasLimit obj)); wok (writeUint64 (h_GasUsed obj)); wok (writeUint64 (h_Time obj));
     wok (writeBytes (h_Extra obj)); wok (writeBytes (HashBytes (h_Random obj)))] ++
    (if isSome (h_BaseFee obj) || isSome (h_WithdrawalsHash obj) then [writeBigPtr (h_BaseFee obj)] else []) ++
    match h_WithdrawalsHash obj with Some h => [wok (writeBytes (HashBytes h))] | None => [] end)).

Definition Withdrawal_EncodeRLP (obj : Withdrawal) : W :=
  wlist (wall [wok (writeUint64 (w_Index obj)); wok (writeUint64 (w_Validator obj)); wok (writeBytes (AddressBytes (w_Address obj)));
    wok (writeUint64 (w_Amount obj))]).

(** What [rlp.EncodeToBytes] returns for a value with an encoder. *)
Definition encodeWith (w : W) : outcome (rlp_error + list Z) :=
  let! r := w reset in
  match r with inl e => Ret (inl e) | inr buf => let! b := makeBytes buf in Ret (inr b) end.

(** ** Reading headers *)

Definition headerType : rtype :=
  RStruct [RByteArray 32; RByteArray 20; RByteArray 32; RByteArray 32; RByteArray 32; RByteArray 256; RBig; RUint 64; RUint 64; RUint 64;
    RBytes; RByteArray 32; RBig; RPtr (RByteArray 32)].

Definition hash_val (h : Z) : rval := VBytes (HashBytes h).

Definition header_val (h : Header) : rval :=
  VList [hash_val (h_ParentHash h); Tx.address_val (h_Coinbase h); hash_val (h_Root h); hash_val (h_TxHash h); hash_val (h_ReceiptHash h);
    VBytes (h_Bloom h); VBig (h_Number h); VUint (h_GasLimit h); VUint (h_GasUsed h); VUint (h_Time h); VBytes (h_Extra h);
    hash_val (h_Random h); VBig (h_BaseFee h); VPtr (option_map hash_val (h_WithdrawalsHash h))].

Definition val_header (v : rval) : option Header :=
  match v with
  | VList [VBytes parent; VBytes coinbase; VBytes root; VBytes txHash; VBytes receiptHash; VBytes bloom; VBig number; VUint gasLimit;
           VUint gasUsed; VUint time; VBytes extra; VBytes random; VBig baseFee; VPtr (Some (VBytes withdrawals))] =>
      Some (mkHeader (bytes_to_Z parent) (bytes_to_Z coinbase) (bytes_to_Z root) (bytes_to_Z txHash) (bytes_to_Z receiptHash) bloom number
        gasLimit gasUsed time extra (bytes_to_Z random) baseFee (Some (bytes_to_Z withdrawals)))
  | _ => None
  end.

(** [rlp.DecodeBytes] into a header. *)
Definition Header_decode (b : list Z) : outcome (rlp_error + Header) :=
  let! r := DecodeBytes headerType b in
  match r with
  | inl e => Ret (inl e)
  | inr v => let! h := deref (val_header v) in Ret (inr h)
  end.

Section Hashing.
Context {C : Crypto}.

(** [rlpHash] ignores an error of the encoder. *)
Definition rlpHash (x : W) : outcome Z :=
  let! r := encodeWith x in
  Ret (Keccak256Hash (match r with inl _ => [] | inr b => b end)).

Definition Header_Hash (h : Header) : outcome Z := rlpHash (Header_EncodeRLP h).

End Hashing.

(** [SanityCheck]: which field is too large. *)
Inductive sanity_error : Type := errBlockNumber | errExtraSize | errBaseFeeSize.

Definition SanityCheck (h : Header) : option sanity_error :=
  if match h_Number h with Some n => negb ((0 <=? n) && (n <? 2 ^ 64)) | None => false end then Some errBlockNumber
  else if 100 * 1024 <? Zlen (h_Extra h) then Some errExtraSize
  else if match h_BaseFee h with Some f => 256 <? BitLen f | None => false end then Some errBaseFeeSize
  else None.

(** [CopyHeader]: the copy has a number. *)
Definition CopyHeader (h : Header) : Header :=
  mkHeader (h_ParentHash h) (h_Coinbase h) (h_Root h) (h_TxHash h) (h_ReceiptHash h) (h_Bloom h) (Some (default 0 (h_Number h)))
    (h_GasLimit h) (h_GasUsed h) (h_Time h) (h_Extra h) (h_Random h) (h_BaseFee h) (h_WithdrawalsHash h).

(** [HeaderParentHashFromRLP]: the first element of an encoded header. *)
Definition HeaderParentHashFromRLP (header : list Z) : outcome Z :=
  let! r := SplitList header in
  match r with
  | inl _ => Ret 0
  | inr (listContent, _) =>
      let! r := SplitString listContent in
      match r with
      | inl _ => Ret 0
      | inr (parentHash, _) => if negb (Zlen parentHash =? 32) then Ret 0 else Ret (BytesToHash parentHash)
      end
  end.
