(* ===== verification/BlockTheorems.v ===== *)
(** * What headers promise

    The generated encoder and the reflective decoder agree on complete headers. *)

From S2P Require Import Prelude Uint256 Params VMCommon Rlp RlpStream RlpCodec RlpTyped RlpTypes StateTypes Demo Bloom Transactions TxTheorems Blocks.
Import Rlp Decode Encode.

(** What Go's types guarantee of a header whose pointers are set. *)
Record header_ok (h : Header) : Prop := {
  hk_parent : in256 (h_ParentHash h);
  hk_coinbase : in160 (h_Coinbase h);
  hk_root : in256 (h_Root h);
  hk_txHash : in256 (h_TxHash h);
  hk_receiptHash : in256 (h_ReceiptHash h);
  hk_bloom : length (h_Bloom h) = 256%nat /\ Forall is_byte (h_Bloom h);
  hk_number : big_ok (h_Number h);
  hk_gasLimit : in64 (h_GasLimit h);
  hk_gasUsed : in64 (h_GasUsed h);
  hk_time : in64 (h_Time h);
  hk_extra : Forall is_byte (h_Extra h);
  hk_random : in256 (h_Random h);
  hk_baseFee : big_ok (h_BaseFee h);
  hk_withdrawals : match h_WithdrawalsHash h with Some w => in256 w | None => False end
}.

Lemma hash_typed h : typed (RByteArray 32) (hash_val h).
Proof. split; [apply length_Z_to_bytes|apply Z_to_bytes_byte]. Qed.

Lemma header_typed h : header_ok h -> typed headerType (header_val h).
Proof.
  intros []. unfold headerType, header_val. change (typed (RStruct ?ts) (VList ?vs)) with (zip_typed typed ts vs). cbn [zip_typed].
  destruct (h_WithdrawalsHash h) as [w|]; [|done]. pose proof (hash_typed w) as Hw.
  repeat (split; [lazymatch goal with
    | |- typed _ (hash_val _) => apply hash_typed
    | |- typed _ (Tx.address_val _) => apply address_typed
    | |- typed RBig _ => by apply big_typed
    | |- typed (RPtr _) _ => exact Hw
    | |- _ => done end|]). done.
Qed.

Lemma val_header_val h : header_ok h -> val_header (header_val h) = Some h.
Proof.
  intros []. destruct h as [pa co ro tx re bl nu gl gu ti ex ra ba [w|]]; cbn in *; [|done]. unfold val_header, header_val, hash_val, Tx.address_val.
  cbn [h_ParentHash h_Coinbase h_Root h_TxHash h_ReceiptHash h_Bloom h_Number h_GasLimit h_GasUsed h_Time h_Extra h_Random h_BaseFee h_WithdrawalsHash option_map].
  by rewrite !hash_roundtrip, address_roundtrip by done.
Qed.

Lemma typed_hash_inv v : typed (RByteArray 32) v -> exists h, v = hash_val h /\ in256 h.
Proof.
  intros Hv. apply typed_array_inv in Hv as (b & -> & Hl & Hb). destruct (bytes_hash b Hl Hb) as [He Hi].
  exists (bytes_to_Z b). split; [|done]. unfold hash_val. by rewrite He.
Qed.
Lemma typed_ptr_hash_inv v : typed (RPtr (RByteArray 32)) v -> exists h, v = VPtr (Some (hash_val h)) /\ in256 h.
Proof. destruct v as [| | | | |[v|]]; try done. intros Hv. apply typed_hash_inv in Hv as (h & -> & Hh). eauto. Qed.

Lemma typed_header v : typed headerType v -> exists h, header_ok h /\ v = header_val h.
Proof.
  destruct v as [| | | |l|]; try done. unfold headerType. change (typed (RStruct ?ts) (VList l)) with (zip_typed typed ts l). intros Hz.
  do 14 (destruct l as [|? l]; [by destruct Hz|destruct Hz as [? Hz]]). destruct l; [|by destruct Hz].
  repeat match goal with
  | H : typed RBig _ |- _ => apply typed_big_inv in H as (? & -> & ?)
  | H : typed (RUint 64) _ |- _ => apply typed_uint_inv in H as (? & -> & ?)
  | H : typed RBytes _ |- _ => apply typed_bytes_inv in H as (? & -> & ?)
  | H : typed (RByteArray 32) _ |- _ => apply typed_hash_inv in H as (? & -> & ?)
  | H : typed (RByteArray 20) _ |- _ => apply typed_address_inv in H as (? & -> & ?)
  | H : typed (RByteArray 256) _ |- _ => apply typed_array_inv in H as (? & -> & ? & ?)
  | H : typed (RPtr _) _ |- _ => apply typed_ptr_hash_inv in H as (? & -> & ?)
  end.
  eexists (mkHeader _ _ _ _ _ _ _ _ _ _ _ _ _ (Some _)). split; [|reflexivity]. split; cbn; auto.
Qed.

(** ** The generated encoder writes the item of the header *)

Definition writes_item (w : W) (it : item) : Prop := forall buf, w buf = wr it buf.

Lemma writes_bytes b : writes_item (wok (writeBytes b)) (Str b).
Proof. by intros buf. Qed.
Lemma Zlen_enc_uint z : in64 z -> Zlen (enc_str (min_bytes z)) < 2 ^ 64.
Proof.
  intros Hz. rewrite <- uint_bytes_min by done. destruct (uint_bytes_spec z Hz) as (_ & _ & Hl). destruct (Zlen_enc_str (uint_bytes z)); unfold Zlen in *; lia.
Qed.
Lemma writes_uint z : in64 z -> writes_item (wok (writeUint64 z)) (Str (min_bytes z)).
Proof. intros Hz buf. rewrite wr_str by (by apply Zlen_enc_uint). unfold wok. by rewrite writeUint64_min. Qed.
Lemma writes_big z : 0 <= z -> Zlen (enc_str (min_bytes z)) < 2 ^ 64 -> writes_item (writeBigPtr (Some z)) (Str (min_bytes z)).
Proof.
  intros Hz Hl buf. rewrite wr_str by done. cbn [writeBigPtr]. rewrite (proj2 (Z.eqb_neq (Z.sgn z) (-1))) by lia. unfold wok. by rewrite writeBigInt_min.
Qed.

Lemma header_writes h : header_ok h -> Zlen (enc (to_item headerType (header_val h))) < 2 ^ 64 -> writes_item (Header_EncodeRLP h) (to_item headerType (header_val h)).
Proof.
  intros [] Hl. pose proof (enc_Lst_le (zip_items to_item [RByteArray 32; RByteArray 20; RByteArray 32; RByteArray 32; RByteArray 32; RByteArray 256; RBig;
    RUint 64; RUint 64; RUint 64; RBytes; RByteArray 32; RBig; RPtr (RByteArray 32)] (match header_val h with VList l => l | _ => [] end))) as Hle.
  unfold header_val in *. unfold headerType in *. unfold Header_EncodeRLP.
  destruct h as [pa co ro tx re bl [nu|] gl gu ti ex ra [ba|] [w|]]; cbn [h_ParentHash h_Coinbase h_Root h_TxHash h_ReceiptHash h_Bloom h_Number h_GasLimit h_GasUsed h_Time h_Extra h_Random h_BaseFee h_WithdrawalsHash big_ok option_map isSome orb app] in *; try done.
  set (L := Zlen (enc _)) in *. change (Zlen (enc (Lst (zip_items to_item _ _)))) with L in Hle. intros buf. apply wlist_wr; [done|].
  cbn [zip_items to_item] in Hle |- *.
  repeat (apply Forall_cons_1 in Hle as [? Hle]).
  repeat (constructor; [first [apply writes_bytes | by apply writes_uint | apply writes_big; [done|cbn [enc] in *; lia]]|]). constructor.
Qed.

Lemma encodeWith_item w it : writes_item w it -> Zlen (enc it) < 2 ^ 64 -> encodeWith w = Ret (inr (enc it)).
Proof.
  intros Hw Hl. unfold encodeWith. rewrite Hw. unfold wr. pose proof (EncodeToBytes_enc it Hl) as He. unfold Rlp.EncodeToBytes in He.
  destruct (write_item it reset) as [buf| |]; cbn [obind] in *; [by rewrite He|done|done].
Qed.

(** A decoder that converts the value read by reflection. *)
Lemma decode_with_spec {A} t (val : A -> rval) (back : rval -> option A) (ok : A -> Prop) (b : list Z) : wf_type t = true ->
  (forall a, ok a -> typed t (val a)) -> (forall a, ok a -> back (val a) = Some a) -> (forall v, typed t v -> exists a, ok a /\ v = val a) ->
  Forall is_byte b -> Zlen b < 2 ^ 63 ->
  exists r, (let! r := DecodeBytes t b in match r with inl e => Ret (inl e) | inr v => let! a := deref (back v) in Ret (inr a) end) = Ret r /\
    forall a, r = inr a <-> ok a /\ b = enc (to_item t (val a)).
Proof.
  intros Hs Hty Hback Hinv Hb Hl. destruct (DecodeBytes_spec t b Hs Hb Hl) as (r & Hr & Hiff). rewrite Hr. cbn [obind]. destruct r as [e|v].
  - exists (inl e). split; [done|]. intros a. split; [done|]. intros [Hok ->]. exfalso. assert (Hx : inl e = inr (val a)) by (apply Hiff; auto). done.
  - destruct (proj1 (Hiff v) eq_refl) as [Ht Hbe]. destruct (Hinv v Ht) as (a & Hok & ->). rewrite Hback by done. exists (inr a). split; [done|].
    intros a'. split; [intros [= <-]; auto|]. intros [Hok' Hbe']. assert (Hx : inr (val a) = (inr (val a') : rlp_error + rval)) by (apply Hiff; auto).
    assert (Hx' : val a = val a') by congruence. pose proof (Hback a Hok) as H1. rewrite Hx', (Hback a' Hok') in H1. congruence.
Qed.

Lemma Header_decode_spec b : Forall is_byte b -> Zlen b < 2 ^ 63 ->
  exists r, Header_decode b = Ret r /\ forall h, r = inr h <-> header_ok h /\ b = enc (to_item headerType (header_val h)).
Proof. by apply decode_with_spec; auto using header_typed, val_header_val, typed_header. Qed.

(** The first element of an encoded list of which the first item is a string. *)
Lemma split_first c its : item_bytes (Lst (Str c :: its)) = true -> Zlen (enc (Lst (Str c :: its))) < 2 ^ 64 ->
  SplitList (enc (Lst (Str c :: its))) = Ret (inr (enc_str c ++ encs its, [])) /\ SplitString (enc_str c ++ encs its) = Ret (inr (c, encs its)).
Proof.
  intros Hb Hl. pose proof (item_bytes_enc _ Hb Hl) as Hbytes. rewrite enc_Lst in Hl, Hbytes. apply Forall_app in Hbytes as [_ Hbody].
  rewrite encs_cons in Hl, Hbody. cbn [enc] in Hl, Hbody. rewrite Zlen_app in Hl. pose proof (Zlen_nonneg (hdr List (Zlen (enc_str c ++ encs its)))). split.
  - unfold SplitList. change (enc (Lst (Str c :: its))) with (tagged List (enc_str c ++ encs its)).
    rewrite <- (app_nil_r (tagged List (enc_str c ++ encs its))), Split_tagged; [done|done|done|constructor|]. rewrite app_nil_r. cbn [tagged]. rewrite Zlen_app. exact Hl.
  - apply Forall_app in Hbody as [_ Hrest]. cbn [item_bytes forallb] in Hb. apply andb_prop in Hb as [Hc _]. apply Split_enc_str; [by apply forallb_bytes|done|lia].
Qed.

Lemma BytesToHash_HashBytes h : in256 h -> BytesToHash (HashBytes h) = h.
Proof.
  intros Hh. unfold BytesToHash. assert (Hl : length (HashBytes h) = 32%nat) by apply length_Z_to_bytes. rewrite Hl. cbn [Nat.sub drop]. by apply hash_roundtrip.
Qed.

Section HeaderCodec.
Context {C : Crypto}.

(** [C39] The generated header encoder and the reflective decoder agree.  Decoding
    ends on every byte string without a panic; what it accepts is a complete header
    that encodes to exactly the input, so the block hash is the hash of the input.
    And every complete header is read back from its encoding, of which
    [HeaderParentHashFromRLP] finds the parent hash. *)
Theorem header_codec b h : Forall is_byte b -> Zlen b < 2 ^ 63 ->
  (exists r, Header_decode b = Ret r /\
     (r = inr h -> header_ok h /\ encodeWith (Header_EncodeRLP h) = Ret (inr b) /\ Header_Hash h = Ret (Keccak256Hash b))) /\
  (header_ok h -> Zlen (enc (to_item headerType (header_val h))) < 2 ^ 63 ->
     exists b', encodeWith (Header_EncodeRLP h) = Ret (inr b') /\ Header_decode b' = Ret (inr h) /\ HeaderParentHashFromRLP b' = Ret (h_ParentHash h)).
Proof.
  intros Hb Hl. split.
  - destruct (Header_decode_spec b Hb Hl) as (r & Hr & Hiff). exists r. split; [done|]. intros Hh. apply Hiff in Hh as [Hok Hbe].
    assert (He : encodeWith (Header_EncodeRLP h) = Ret (inr b)) by (rewrite Hbe in Hl |- *; apply encodeWith_item; [apply header_writes; [done|lia]|lia]).
    split_and!; [done|done|]. unfold Header_Hash, rlpHash. by rewrite He.
  - intros Hok Hle. set (e := enc (to_item headerType (header_val h))) in *. exists e.
    pose proof (typed_bytes _ _ (header_typed h Hok)) as Hib. assert (Hbe : Forall is_byte e) by (apply item_bytes_enc; [done|fold e; lia]).
    split_and!; [apply encodeWith_item; [apply header_writes; [done|fold e; lia]|fold e; lia]| |].
    + destruct (Header_decode_spec e Hbe Hle) as (r & Hr & Hiff). rewrite Hr. f_equal. by apply Hiff.
    + unfold HeaderParentHashFromRLP. subst e. unfold header_val, headerType in *. cbn [to_item zip_items hash_val] in *.
      match type of Hib with item_bytes (Lst (Str ?c :: ?its)) = true => destruct (split_first c its Hib ltac:(lia)) as [H1 H2] end.
      rewrite H1. cbn [obind]. rewrite H2. cbn [obind]. assert (Hlen : Zlen (HashBytes (h_ParentHash h)) = 32) by (unfold Zlen, HashBytes; by rewrite length_Z_to_bytes).
      rewrite Hlen. cbn [negb Z.eqb]. change (negb (32 =? 32)) with false. cbv iota. rewrite BytesToHash_HashBytes; [done|apply Hok].
Qed.

End HeaderCodec.

(** ** A concrete header *)

#[local] Existing Instance demo_crypto.

Definition demo_header : Header :=
  mkHeader 11 7 22 33 44 emptyBloom (Some 5) 30000 21000 1000 [1; 2; 3] 55 (Some 7) (Some 66).

Lemma demo_header_ok : header_ok demo_header.
Proof. split; cbn; unfold in64, in160, in256; try lia; try (split; [reflexivity|]); repeat constructor; lia. Qed.

Lemma header_codec_witness :
  exists b', encodeWith (Header_EncodeRLP demo_header) = Ret (inr b') /\ Header_decode b' = Ret (inr demo_header) /\
    HeaderParentHashFromRLP b' = Ret 11.
Proof.
  apply (header_codec [] demo_header); [constructor|vm_compute; reflexivity|exact demo_header_ok|vm_compute; reflexivity].
Defined.

(** The same header without a withdrawals hash: the encoder leaves the field out, the
    decoder insists on it. *)
Definition partial_header : Header :=
  mkHeader 11 7 22 33 44 emptyBloom (Some 5) 30000 21000 1000 [1; 2; 3] 55 (Some 7) None.

Definition partial_bytes : list Z := match encodeWith (Header_EncodeRLP partial_header) with Ret (inr b) => b | _ => [] end.

(** A header without a withdrawals hash is encoded without error to bytes that
    cannot be decoded: the generated encoder treats the last two fields as optional,
    the struct the decoder reads by reflection does not. *)
Theorem header_without_withdrawals :
  encodeWith (Header_EncodeRLP partial_header) = Ret (inr partial_bytes) /\
  Header_decode partial_bytes = Ret (inl (decodeError TooFewElements)).
Proof. split; vm_compute; reflexivity. Qed.
