(* ===== verification/Consensus.v ===== *)
(** * Header rules (consensus/beacon/consensus.go, consensus/misc/gaslimit.go,
    consensus/misc/eip1559/eip1559.go, core/block_validator.go)

    What makes a header follow its parent: the beacon engine, the base fee and the
    gas limit. *)

From S2P Require Import Prelude Uint256 Params VMCommon StateTypes Demo Bloom Transactions Blocks.

(** The errors a header is refused with. *)
Inductive header_error : Type :=
| errExtraData
| errInvalidTimestamp
| errGasLimit
| errGasUsed
| ErrInvalidNumber
| errGasLimitBeyond
| errGasLimitBelow
| errNoBaseFee
| errBaseFee
| errNoWithdrawalsHash
| errTesterPos
| ErrUnknownAncestor.

(** ** Gas limit and base fee *)

Definition VerifyGaslimit (parentGasLimit headerGasLimit : Z) : option header_error :=
  if MaxGasLimit <? headerGasLimit then Some errGasLimitBeyond
  else if headerGasLimit <? MinGasLimit then Some errGasLimitBelow
  else None.

(** [big.Int.Div]: Euclidean, and a panic on zero. *)
Definition BigDiv (x y : Z) : outcome Z := if y =? 0 then Panic else Ret (Z.sgn y * (x / Z.abs y)).

Definition CalcBaseFee (parent : Header) : outcome Z :=
  let parentGasTarget := h_GasLimit parent / DefaultElasticityMultiplier in
  let! baseFee := deref (h_BaseFee parent) in
  if h_GasUsed parent =? parentGasTarget then Ret baseFee
  else if parentGasTarget <? h_GasUsed parent then
    let num := (h_GasUsed parent - parentGasTarget) * baseFee in
    let! num := BigDiv num parentGasTarget in
    let! num := BigDiv num DefaultBaseFeeChangeDenominator in
    if num <? 1 then Ret (baseFee + 1) else Ret (baseFee + num)
  else
    let num := (parentGasTarget - h_GasUsed parent) * baseFee in
    let! num := BigDiv num parentGasTarget in
    let! num := BigDiv num DefaultBaseFeeChangeDenominator in
    let baseFee := baseFee - num in
    if baseFee <? 0 then Ret 0 else Ret baseFee.

Definition VerifyEIP1559Header (parent header : Header) : outcome (option header_error) :=
  match VerifyGaslimit (h_GasLimit parent) (h_GasLimit header) with
  | Some err => Ret (Some err)
  | None =>
      match h_BaseFee header with
      | None => Ret (Some errNoBaseFee)
      | Some baseFee =>
          let! expectedBaseFee := CalcBaseFee parent in
          Ret (if negb (baseFee =? expectedBaseFee) then Some errBaseFee else None)
      end
  end.

Definition GasLimitBoundDivisor : Z := 1024.

Definition CalcGasLimit (parentGasLimit desiredLimit : Z) : Z :=
  let delta := u64 (parentGasLimit / GasLimitBoundDivisor - 1) in
  let limit := parentGasLimit in
  let desiredLimit := if desiredLimit <? MinGasLimit then MinGasLimit else desiredLimit in
  if limit <? desiredLimit then Z.min (u64 (parentGasLimit + delta)) desiredLimit
  else if desiredLimit <? limit then Z.max (u64 (parentGasLimit - delta)) desiredLimit
  else limit.

(** ** The engine *)

(** [Beacon], of which tests set fields to let verification fail or pass; the
    delay is left out. *)
Record Beacon : Type := mkBeacon { fakeFail : option Z; fakeFull : bool }.
Definition New : Beacon := mkBeacon None false.

Definition verifyHeader (beacon : Beacon) (header parent : Header) : outcome (option header_error) :=
  if 32 <? Zlen (h_Extra header) then Ret (Some errExtraData)
  else if h_Time header <=? h_Time parent then Ret (Some errInvalidTimestamp)
  else if MaxGasLimit <? h_GasLimit header then Ret (Some errGasLimit)
  else if h_GasLimit header <? h_GasUsed header then Ret (Some errGasUsed)
  else
    let! number := deref (h_Number header) in
    let! parentNumber := deref (h_Number parent) in
    if negb (number - parentNumber =? 1) then Ret (Some ErrInvalidNumber)
    else
      let! err := VerifyEIP1559Header parent header in
      match err with
      | Some err => Ret (Some err)
      | None =>
          match h_WithdrawalsHash header with
          | None => Ret (Some errNoWithdrawalsHash)
          | Some _ =>
              Ret (match fakeFail beacon with Some n => if n =? u64 number then Some errTesterPos else None | None => None end)
          end
      end.

Section Engine.
Context {C : Crypto}.
(** The header of a hash and number, if the chain knows it. *)
Context (GetHeader : Z -> Z -> option Header).

Definition lookupParent (header : Header) : outcome (option Header) :=
  let! number := deref (h_Number header) in
  Ret (GetHeader (h_ParentHash header) (u64 (u64 number - 1))).

Definition VerifyHeader (beacon : Beacon) (header : Header) : outcome (option header_error) :=
  let! parent := lookupParent header in
  match parent with
  | None => Ret (Some ErrUnknownAncestor)
  | Some parent => verifyHeader beacon header parent
  end.

(** The results the goroutine of [verifyHeaders] sends, in order; [prev] is the
    header before, or the way to find the first parent. *)
Fixpoint verify_rest (beacon : Beacon) (prev : Header) (headers : list Header) : outcome (list (option header_error)) :=
  match headers with
  | [] => Ret []
  | header :: headers =>
      let! hash := Header_Hash prev in
      let! err := if hash =? h_ParentHash header then verifyHeader beacon header prev else Ret (Some ErrUnknownAncestor) in
      let! errs := verify_rest beacon header headers in
      Ret (err :: errs)
  end.

Definition verifyHeaders (beacon : Beacon) (headers : list Header) (ancestor : option Header) : outcome (list (option header_error)) :=
  if fakeFull beacon then Ret (map (fun _ => None) headers)
  else
    match headers with
    | [] => Ret []
    | header :: headers =>
        let! parent := match ancestor with Some a => Ret (Some a) | None => lookupParent header end in
        let! err := match parent with None => Ret (Some ErrUnknownAncestor) | Some parent => verifyHeader beacon header parent end in
        let! errs := verify_rest beacon header headers in
        Ret (err :: errs)
    end.

End Engine.

(** ** The base fee *)

(** A header that has passed verification, as far as the next base fee needs it. *)
Record priced (h : Header) (baseFee : Z) : Prop := {
  pr_fee : h_BaseFee h = Some baseFee;
  pr_nonneg : 0 <= baseFee;
  pr_limit : MinGasLimit <= h_GasLimit h;
  pr_used : 0 <= h_GasUsed h <= h_GasLimit h
}.

Definition target (h : Header) : Z := h_GasLimit h / DefaultElasticityMultiplier.

Lemma target_pos h baseFee : priced h baseFee -> 0 < target h /\ h_GasUsed h <= 2 * target h + 1.
Proof.
  intros []. unfold target, DefaultElasticityMultiplier, MinGasLimit in *. pose proof (Z.div_mod (h_GasLimit h) 2 ltac:(lia)).
  pose proof (Z.mod_pos_bound (h_GasLimit h) 2 ltac:(lia)). lia.
Qed.

(** The distance from the target, weighed by the fee. *)
Definition fee_delta (gas baseFee target : Z) : Z := gas * baseFee / target / DefaultBaseFeeChangeDenominator.

Lemma CalcBaseFee_eq h baseFee : priced h baseFee -> CalcBaseFee h = Ret (
  if h_GasUsed h =? target h then baseFee
  else if target h <? h_GasUsed h then baseFee + Z.max 1 (fee_delta (h_GasUsed h - target h) baseFee (target h))
  else Z.max 0 (baseFee - fee_delta (target h - h_GasUsed h) baseFee (target h))).
Proof.
  intros Hp. destruct (target_pos h baseFee Hp) as [Ht _]. destruct Hp. unfold CalcBaseFee. rewrite pr_fee0. cbn [deref obind]. fold (target h).
  assert (Hdiv : forall x y, 0 < y -> BigDiv x y = Ret (x / y)).
  { intros x y Hy. unfold BigDiv. rewrite (proj2 (Z.eqb_neq y 0)), Z.sgn_pos, Z.abs_eq, Z.mul_1_l by lia. done. }
  destruct (_ =? _); [done|]. destruct (_ <? _); rewrite !Hdiv by (done || unfold DefaultBaseFeeChangeDenominator; lia); cbn [obind]; rewrite !Hdiv by (unfold DefaultBaseFeeChangeDenominator; lia);
    cbn [obind]; fold (fee_delta (h_GasUsed h - target h) baseFee (target h)); fold (fee_delta (target h - h_GasUsed h) baseFee (target h)).
  - destruct (Z.ltb_spec (fee_delta (h_GasUsed h - target h) baseFee (target h)) 1); f_equal; lia.
  - destruct (Z.ltb_spec (baseFee - fee_delta (target h - h_GasUsed h) baseFee (target h)) 0); f_equal; lia.
Qed.

Lemma fee_delta_mono g1 g2 baseFee t : 0 <= g1 <= g2 -> 0 <= baseFee -> 0 < t -> 0 <= fee_delta g1 baseFee t <= fee_delta g2 baseFee t.
Proof.
  intros Hg Hb Ht. unfold fee_delta, DefaultBaseFeeChangeDenominator. split.
  - apply Z.div_pos; [|lia]. apply Z.div_pos; [|lia]. nia.
  - apply Z.div_le_mono; [lia|]. apply Z.div_le_mono; [lia|]. nia.
Qed.

(** At most the whole target over or under: an eighth of the fee. *)
Lemma fee_delta_target baseFee t : 0 <= baseFee -> 0 < t -> fee_delta t baseFee t = baseFee / 8.
Proof. intros Hb Ht. unfold fee_delta, DefaultBaseFeeChangeDenominator. rewrite (Z.mul_comm t), Z.div_mul by lia. done. Qed.

(** [C37] The base fee follows the gas used.  It is unchanged at the target of half the
    limit; above the target it rises by at least one, and by at most an eighth while
    no more than twice the target is used; below it falls by at most an eighth and
    never under zero.  More gas used never means a lower fee. *)
Theorem base_fee_follows h baseFee : priced h baseFee ->
  exists fee, CalcBaseFee h = Ret fee /\ 0 <= fee /\
    (h_GasUsed h = target h -> fee = baseFee) /\
    (target h < h_GasUsed h -> baseFee < fee /\ (h_GasUsed h <= 2 * target h -> fee <= baseFee + Z.max 1 (baseFee / 8))) /\
    (h_GasUsed h < target h -> baseFee - baseFee / 8 <= fee <= baseFee) /\
    forall h' fee', priced h' baseFee -> h_GasLimit h' = h_GasLimit h -> h_GasUsed h <= h_GasUsed h' -> CalcBaseFee h' = Ret fee' -> fee <= fee'.
Proof.
  intros Hp. destruct (target_pos h baseFee Hp) as [Ht _]. pose proof (pr_nonneg _ _ Hp) as Hb. pose proof (pr_used _ _ Hp) as Hu.
  eexists. split; [by apply CalcBaseFee_eq|]. set (t := target h) in *. set (u := h_GasUsed h) in *.
  pose proof (fee_delta_target baseFee t Hb Ht) as Hfull. split_and!.
  - destruct (Z.eqb_spec u t); [lia|]. destruct (Z.ltb_spec t u); lia.
  - intros ->. by rewrite Z.eqb_refl.
  - intros Hlt. rewrite (proj2 (Z.eqb_neq u t)), (proj2 (Z.ltb_lt t u)) by lia. split; [lia|]. intros H2.
    pose proof (fee_delta_mono (u - t) t baseFee t ltac:(lia) Hb Ht). lia.
  - intros Hlt. rewrite (proj2 (Z.eqb_neq u t)), (proj2 (Z.ltb_ge t u)) by lia. pose proof (fee_delta_mono (t - u) t baseFee t ltac:(lia) Hb Ht).
    assert (baseFee / 8 <= baseFee) by (apply Z.div_le_upper_bound; lia). lia.
  - intros h' fee' Hp' Hlim Huu Hf. rewrite (CalcBaseFee_eq h' baseFee Hp') in Hf. assert (Ht' : target h' = t) by (unfold t, target; by rewrite Hlim).
    rewrite Ht' in Hf. injection Hf as <-. set (u' := h_GasUsed h') in *. pose proof (pr_used _ _ Hp') as Hu'. fold u' in Hu'.
    assert (Hup : t < u -> fee_delta (u - t) baseFee t <= fee_delta (u' - t) baseFee t) by (intros; apply fee_delta_mono; lia).
    assert (Hdown : u' < t -> fee_delta (t - u') baseFee t <= fee_delta (t - u) baseFee t) by (intros; apply fee_delta_mono; lia).
    assert (Hpos : u < t -> 0 <= fee_delta (t - u) baseFee t) by (intros; apply (fee_delta_mono (t - u) (t - u)); lia).
    destruct (Z.eqb_spec u t), (Z.eqb_spec u' t), (Z.ltb_spec t u), (Z.ltb_spec t u'); lia.
Qed.

(** ** Chains of headers *)

(** [child parent h]: what the rules ask of a header and its parent. *)
Record child (parent h : Header) : Prop := {
  ch_extra : Zlen (h_Extra h) <= 32;
  ch_time : h_Time parent < h_Time h;
  ch_limit : MinGasLimit <= h_GasLimit h <= MaxGasLimit;
  ch_used : h_GasUsed h <= h_GasLimit h;
  ch_number : exists n, h_Number parent = Some n /\ h_Number h = Some (n + 1);
  ch_fee : exists fee, CalcBaseFee parent = Ret fee /\ h_BaseFee h = Some fee;
  ch_withdrawals : exists w, h_WithdrawalsHash h = Some w
}.

Lemma verifyHeader_iff h parent : verifyHeader New h parent = Ret None <-> child parent h.
Proof.
  unfold verifyHeader, VerifyEIP1559Header, VerifyGaslimit. split.
  - destruct (Z.ltb_spec 32 (Zlen (h_Extra h))); [done|]. destruct (Z.leb_spec (h_Time h) (h_Time parent)); [done|].
    destruct (Z.ltb_spec MaxGasLimit (h_GasLimit h)); [done|]. destruct (Z.ltb_spec (h_GasLimit h) (h_GasUsed h)); [done|].
    destruct (h_Number h) as [n|] eqn:En; [|done]. destruct (h_Number parent) as [pn|] eqn:Ep; [|done]. cbn [deref obind].
    destruct (Z.eqb_spec (n - pn) 1); [|done]. cbn [negb]. destruct (Z.ltb_spec (h_GasLimit h) MinGasLimit); [done|]. cbn [obind].
    destruct (h_BaseFee h) as [f|] eqn:Ef; [|done]. destruct (CalcBaseFee parent) as [fee| |] eqn:Ec; [|done|done]. cbn [obind].
    destruct (Z.eqb_spec f fee) as [-> |]; [|done]. cbn [negb]. destruct (h_WithdrawalsHash h) as [w|] eqn:Ew; [|done]. intros _.
    split; auto; [exists pn; split; [done|rewrite En; f_equal; lia]|by exists fee|by exists w].
  - intros [He Ht Hl Hu (n & Hn1 & Hn2) (fee & Hf1 & Hf2) (w & Hw)]. rewrite (proj2 (Z.ltb_ge 32 _)), (proj2 (Z.leb_gt _ _)), (proj2 (Z.ltb_ge MaxGasLimit _)),
      (proj2 (Z.ltb_ge (h_GasLimit h) (h_GasUsed h))) by lia. rewrite Hn1, Hn2. cbn [deref obind]. rewrite (proj2 (Z.eqb_eq (n + 1 - n) 1)) by lia. cbn [negb].
    rewrite (proj2 (Z.ltb_ge _ MinGasLimit)), Hf2, Hf1, Hw by lia. cbn [obind]. by rewrite Z.eqb_refl.
Qed.

Section Chain.
Context {C : Crypto} (GetHeader : Z -> Z -> option Header).

(** Each header names the hash of the one before as its parent and follows the
    rules. *)
Fixpoint linked (prev : Header) (headers : list Header) : Prop :=
  match headers with
  | [] => True
  | h :: headers => Header_Hash prev = Ret (h_ParentHash h) /\ child prev h /\ linked h headers
  end.

Lemma verify_rest_iff headers : forall prev, verify_rest New prev headers = Ret (replicate (length headers) None) <-> linked prev headers.
Proof.
  induction headers as [|h headers IH]; intros prev; [done|]. cbn [verify_rest linked length replicate]. rewrite <- IH, <- verifyHeader_iff. split.
  - intros Hv. apply obind_Ret in Hv as (hash & Hh & Hv). apply obind_Ret in Hv as (err & He & Hv). apply obind_Ret in Hv as (errs & Hr & [= -> ->]).
    destruct (Z.eqb_spec hash (h_ParentHash h)) as [-> |]; [|done]. auto.
  - intros (Hh & Hv & Hr). rewrite Hh. cbn [obind]. rewrite Z.eqb_refl, Hv. cbn [obind]. by rewrite Hr.
Qed.

(** [C36] Verification of a batch of headers accepts exactly the chains: all results
    are nil if and only if the first header is a child of its parent and each
    further header names the hash of the one before it and is its child. *)
Theorem verified_chain h headers parent ancestor :
  lookupParent GetHeader h = Ret (Some parent) /\ ancestor = None \/ ancestor = Some parent ->
  verifyHeaders GetHeader New (h :: headers) ancestor = Ret (replicate (S (length headers)) None) <-> child parent h /\ linked h headers.
Proof.
  intros Hpar. unfold verifyHeaders. cbn [fakeFull New replicate].
  assert (Hp : match ancestor with Some a => Ret (Some a) | None => lookupParent GetHeader h end = Ret (Some parent)) by (by destruct Hpar as [[Hl ->]| ->]).
  rewrite Hp. cbn [obind]. rewrite <- verifyHeader_iff, <- verify_rest_iff. split.
  - intros Hv. apply obind_Ret in Hv as (err & He & Hv). apply obind_Ret in Hv as (errs & Hr & [= -> ->]). auto.
  - intros [He Hr]. rewrite He. cbn [obind]. by rewrite Hr.
Qed.

End Chain.

(** ** The gas limit *)

(** The gas limit after [n] more blocks of producers that want [desired]. *)
Definition gas_limit_after (desired parent : Z) (n : nat) : Z := Nat.iter n (fun limit => CalcGasLimit limit desired) parent.

(** Limits and wishes from which a step cannot overflow: all but the last [2 ^ 54] of the
    numbers of 64 bits. *)
Definition step_safe (limit : Z) : Prop := limit <= 2 ^ 64 - 2 ^ 54.

(** A step comes closer to the goal, or it is there; it never passes it. *)
Lemma gas_limit_step limit desired : MinGasLimit <= limit -> step_safe limit -> step_safe desired ->
  let goal := Z.max desired MinGasLimit in let next := CalcGasLimit limit desired in
  (limit <= next <= goal \/ goal <= next <= limit) /\ (limit = goal \/ Z.abs (next - goal) < Z.abs (limit - goal)).
Proof.
  intros Hl Hs Hd goal next. subst goal next. unfold CalcGasLimit, GasLimitBoundDivisor, MinGasLimit, step_safe in *. pose proof (Z.div_mod limit 1024 ltac:(lia)). pose proof (Z.mod_pos_bound limit 1024 ltac:(lia)).
  rewrite (u64_small (limit / 1024 - 1)) by (unfold in64; lia). rewrite !u64_small by (unfold in64; lia). replace (if desired <? 5000 then 5000 else desired) with (Z.max desired 5000) by (destruct (Z.ltb_spec desired 5000); lia).
  destruct (Z.ltb_spec limit (Z.max desired 5000)), (Z.ltb_spec (Z.max desired 5000) limit); lia.
Qed.

Lemma gas_limit_near desired : step_safe desired -> forall d limit, MinGasLimit <= limit -> step_safe limit -> Z.abs (limit - Z.max desired MinGasLimit) <= Z.of_nat d ->
  exists n, gas_limit_after desired limit n = Z.max desired MinGasLimit.
Proof.
  intros Hd. induction d as [|d IH]; intros limit Hl Hs Hn; [exists 0%nat; cbn; lia|]. destruct (gas_limit_step limit desired Hl Hs Hd) as [Hin [He|Hlt]]; [by exists 0%nat|].
  destruct (IH (CalcGasLimit limit desired)) as (n & Hn'); [unfold MinGasLimit in *; lia|unfold step_safe, MinGasLimit in *; lia|lia|]. exists (S n). unfold gas_limit_after in *. by rewrite Nat.iter_succ_r.
Qed.

(** The limit stays between where it started and the goal. *)
Lemma gas_limit_bounds desired parent n : MinGasLimit <= parent -> step_safe parent -> step_safe desired ->
  MinGasLimit <= gas_limit_after desired parent n <= Z.max parent (Z.max desired MinGasLimit).
Proof.
  intros Hp Hs Hd. induction n as [|n IH]; [cbn; lia|]. change (gas_limit_after desired parent (S n)) with (CalcGasLimit (gas_limit_after desired parent n) desired).
  destruct (gas_limit_step (gas_limit_after desired parent n) desired) as [Hin _]; [lia|unfold step_safe, MinGasLimit in *; lia|done|]. unfold MinGasLimit in *. lia.
Qed.

Lemma gas_limit_settles desired parent : MinGasLimit <= parent -> step_safe parent -> step_safe desired ->
  exists n, forall k, (n <= k)%nat -> gas_limit_after desired parent k = Z.max desired MinGasLimit.
Proof.
  intros Hp Hs Hd. destruct (gas_limit_near desired Hd (Z.to_nat (Z.abs (parent - Z.max desired MinGasLimit))) parent Hp Hs ltac:(lia)) as (n & Hn). exists n. intros k Hk. induction Hk as [|k Hk IH]; [done|].
  pose proof (gas_limit_bounds desired parent k Hp Hs Hd) as Hb. destruct (gas_limit_step (gas_limit_after desired parent k) desired) as [Hin _]; [lia|unfold step_safe, MinGasLimit in *; lia|done|].
  change (gas_limit_after desired parent (S k)) with (CalcGasLimit (gas_limit_after desired parent k) desired). rewrite IH in *. lia.
Qed.

Lemma MaxGasLimit_safe : step_safe MaxGasLimit.
Proof. unfold step_safe, MaxGasLimit. lia. Qed.

(** [C40] The gas limit goes where the producers want it: from any legal limit, if every
    block takes the limit that [CalcGasLimit] returns for one wish, the limit gets to the
    larger of the wish and the minimum after finitely many blocks and stays there.  If the
    wish is not above the maximum, [VerifyGaslimit] accepts every step; if it is above,
    sooner or later a step is refused, since [CalcGasLimit] does not stop at the maximum.
    The wish is any number but the last [2 ^ 54] of 64 bits, where the step would overflow. *)
Theorem gas_limit_reaches parent desired : MinGasLimit <= parent <= MaxGasLimit -> step_safe desired ->
  (exists n, forall k, (n <= k)%nat -> gas_limit_after desired parent k = Z.max desired MinGasLimit) /\
  (desired <= MaxGasLimit -> forall k, VerifyGaslimit (gas_limit_after desired parent k) (gas_limit_after desired parent (S k)) = None) /\
  (MaxGasLimit < desired -> exists k, VerifyGaslimit (gas_limit_after desired parent k) (gas_limit_after desired parent (S k)) = Some errGasLimitBeyond).
Proof.
  intros Hp Hd. pose proof MaxGasLimit_safe as Hm. assert (Hs : step_safe parent) by (unfold step_safe in *; lia). pose proof (gas_limit_settles desired parent (proj1 Hp) Hs Hd) as Hn. split_and!; [exact Hn| |].
  - intros Hle k. pose proof (gas_limit_bounds desired parent (S k) (proj1 Hp) Hs Hd). unfold VerifyGaslimit. rewrite (proj2 (Z.ltb_ge _ _)) by lia. by rewrite (proj2 (Z.ltb_ge _ _)) by lia.
  - intros Hgt. destruct Hn as (n & Hn). exists n. unfold VerifyGaslimit. rewrite (Hn (S n)) by lia. by rewrite (proj2 (Z.ltb_lt _ _)) by lia.
Qed.

(** A wish within the limits, and one beyond. *)
Lemma gas_limit_reaches_witness : (exists n, forall k, (n <= k)%nat -> gas_limit_after 6000 5000 k = 6000) /\
  VerifyGaslimit 20000000 (gas_limit_after 40000000 20000000 1) = Some errGasLimitBeyond /\
  exists k, VerifyGaslimit (gas_limit_after 40000000 5000 k) (gas_limit_after 40000000 5000 (S k)) = Some errGasLimitBeyond.
Proof.
  split.
  - destruct (gas_limit_reaches 5000 6000) as [Hn _]; [unfold MinGasLimit, MaxGasLimit; lia|unfold step_safe; lia|exact Hn].
  - split; [vm_compute; reflexivity|]. destruct (gas_limit_reaches 5000 40000000) as (_ & _ & Hk); [unfold MinGasLimit, MaxGasLimit; lia|unfold step_safe; lia|]. apply Hk. reflexivity.
Defined.

(** ** Concrete headers *)

#[local] Existing Instance demo_crypto.

Definition first_header : Header := mkHeader 11 7 22 33 44 emptyBloom (Some 5) 30000 21000 1000 [1; 2; 3] 55 (Some 700) (Some 66).
Definition first_hash : Z := match Header_Hash first_header with Ret h => h | _ => 0 end.
Definition second_header : Header := mkHeader first_hash 7 22 33 44 emptyBloom (Some 6) 20000 0 1012 [] 55 (Some 735) (Some 66).

Lemma base_fee_follows_witness :
  CalcBaseFee first_header = Ret 735 /\ exists fee, CalcBaseFee first_header = Ret fee /\ 700 < fee <= 787.
Proof.
  assert (Hp : priced first_header 700) by (split; [reflexivity|..]; cbn; unfold MinGasLimit; lia). split; [vm_compute; reflexivity|].
  destruct (base_fee_follows first_header 700 Hp) as (fee & Hf & _ & _ & Hup & _). exists fee. split; [exact Hf|].
  destruct Hup as [H1 H2]; [vm_compute; reflexivity|]. split; [exact H1|]. apply H2. vm_compute. discriminate.
Defined.

Lemma first_header_child : child (mkHeader 0 0 0 0 0 [] (Some 4) 40000 20000 990 [] 0 (Some 700) None) first_header.
Proof. apply verifyHeader_iff. vm_compute. reflexivity. Qed.

(** Two headers after one the chain knows. *)
Lemma verified_chain_witness :
  verifyHeaders (fun _ n => if n =? 4 then Some (mkHeader 0 0 0 0 0 [] (Some 4) 40000 20000 990 [] 0 (Some 700) None) else None)
    New [first_header; second_header] None = Ret [None; None].
Proof.
  apply (verified_chain _ first_header [second_header] (mkHeader 0 0 0 0 0 [] (Some 4) 40000 20000 990 [] 0 (Some 700) None) None).
  - left. split; [vm_compute; reflexivity|reflexivity].
  - split; [exact first_header_child|]. split_and!; [vm_compute; reflexivity| |exact I]. apply verifyHeader_iff. vm_compute. reflexivity.
Defined.
