(* ===== verification/HashFn.v ===== *)
(** * Hashes of earlier blocks (core/qrvm.go, GetHashFn)

    The closure that BLOCKHASH calls walks the chain of parents and remembers the
    hashes it has seen. *)

From S2P Require Import Prelude Uint256 Params VMCommon StateTypes Bloom Transactions Blocks.

Section GetHash.
(** [chain.GetHeader], and the header the machine runs under. *)
Context (GetHeader : Z -> Z -> option Header) (ref : Header).

(** [ref.Number.Uint64()] *)
Definition Uint64_ (z : Z) : Z := u64 (Z.abs z).

(** The loop from the last hash in the cache on; the state is the cache. *)
Fixpoint GetHash_loop (fuel : nat) (n lastKnownHash lastKnownNumber : Z) : M (list Z) Z :=
  match fuel with
  | O => fun _ => OutOfFuel
  | S fuel =>
      match GetHeader lastKnownHash lastKnownNumber with
      | None => mret 0
      | Some header =>
          mmodify (fun cache => cache ++ [h_ParentHash header]) ;;;
          let* number := mlift (deref (h_Number header)) in
          let lastKnownNumber := u64 (Uint64_ number - 1) in
          if n =? lastKnownNumber then mret (h_ParentHash header)
          else GetHash_loop fuel n (h_ParentHash header) lastKnownNumber
      end
  end.

(** The function [GetHashFn] returns, on its cache. *)
Definition GetHash (n : Z) : M (list Z) Z :=
  let* number := mlift (deref (h_Number ref)) in
  let number := Uint64_ number in
  if number <=? n then mret 0
  else
    let* cache := mget in
    let cache := match cache with [] => [h_ParentHash ref] | _ => cache end in
    mput cache ;;;
    let idx := u64 (number - n - 1) in
    if idx <? Zlen cache then mlift (go_index cache idx)
    else
      let* lastKnownHash := mlift (go_index cache (Zlen cache - 1)) in
      let lastKnownNumber := u64 (number - Zlen cache) in
      GetHash_loop (S (Z.to_nat lastKnownNumber)) n lastKnownHash lastKnownNumber.

(** ** The walk without a cache *)

(** The hash of block [n] seen from block [n + k + 1], whose parent hash is [h]. *)
Fixpoint walk (k : nat) (n h : Z) : Z :=
  match k with
  | O => h
  | S k => match GetHeader h (n + Z.of_nat (S k)) with None => 0 | Some header => walk k n (h_ParentHash header) end
  end.

Definition hash_at (number n : Z) : Z := if number <=? n then 0 else walk (Z.to_nat (number - n - 1)) n (h_ParentHash ref).

(** A store of headers: what is found under a number has the number. *)
Definition keyed : Prop := forall h n header, GetHeader h n = Some header -> h_Number header = Some n.

Context (number : Z) (Hnum : h_Number ref = Some number) (Hin : in64 number) (Hkeyed : keyed).

(** The cache holds the hashes of the blocks before [ref], as far as they have been
    asked for. *)
Fixpoint traced (m h : Z) (cache : list Z) : Prop :=
  match cache with
  | [] => True
  | c :: cache => 0 < m /\ c = h /\
      match cache with [] => True | _ => exists header, GetHeader h (m - 1) = Some header /\ traced (m - 1) (h_ParentHash header) cache end
  end.

Lemma traced_length cache : forall m h, traced m h cache -> Zlen cache <= Z.max m 0.
Proof.
  induction cache as [|c cache IH]; intros m h; [unfold Zlen; cbn; lia|]. cbn [traced]. intros (Hm & -> & Hr).
  destruct cache as [|c' cache]; [unfold Zlen; cbn; lia|]. destruct Hr as (header & _ & Ht). apply IH in Ht. unfold Zlen in *. cbn [length] in *. lia.
Qed.

(** The element [i] of the cache is the hash of block [m - 1 - i]. *)
Lemma traced_walk cache : forall m h i c, traced m h cache -> cache !! i = Some c -> c = walk i (m - 1 - Z.of_nat i) h.
Proof.
  induction cache as [|c0 cache IH]; intros m h i c Ht Hi; [done|]. destruct Ht as (Hm & -> & Hr). destruct i as [|i]; [by injection Hi as ->|].
  cbn in Hi. destruct cache as [|c' cache]; [done|]. destruct Hr as (header & Hh & Ht). cbn [walk].
  replace (m - 1 - Z.of_nat (S i) + Z.of_nat (S i)) with (m - 1) by lia. rewrite Hh. rewrite (IH _ _ i c Ht Hi).
  by replace (m - 1 - 1 - Z.of_nat i) with (m - 1 - Z.of_nat (S i)) by lia.
Qed.

Definition last_of (l : list Z) : Z := default 0 (l !! Nat.pred (length l)).

Lemma last_of_cons x y l : last_of (x :: y :: l) = last_of (y :: l).
Proof. done. Qed.

Lemma traced_snoc cache : forall m h header, cache <> [] -> traced m h cache -> Zlen cache < m ->
  GetHeader (last_of cache) (m - Zlen cache) = Some header -> traced m h (cache ++ [h_ParentHash header]).
Proof.
  induction cache as [|c cache IH]; intros m h header Hne Ht Hl Hg; [done|]. destruct Ht as (Hm & -> & Hr). destruct cache as [|c' cache].
  - cbn in Hg. cbn. split_and!; [done|done|]. exists header. change (Zlen [h]) with 1 in *. split_and!; (done || lia).
  - destruct Hr as (hd & Hh & Ht). cbn [app]. split_and!; [done|done|]. exists hd. split; [done|]. apply (IH (m - 1)); [done|done| |].
    + unfold Zlen in *. cbn [length] in *. lia.
    + replace (m - 1 - Zlen (c' :: cache)) with (m - Zlen (h :: c' :: cache)) by (unfold Zlen; cbn [length]; lia). exact Hg.
Qed.

(** Walking on from the end of the cache. *)
Lemma walk_from cache : forall m h n, cache <> [] -> traced m h cache -> 0 <= n -> n < m - Zlen cache ->
  walk (Z.to_nat (m - n - 1)) n h = walk (Z.to_nat (m - Zlen cache - n)) n (last_of cache).
Proof.
  induction cache as [|c cache IH]; intros m h n Hne Ht Hn Hl; [done|]. destruct Ht as (Hm & -> & Hr). destruct cache as [|c' cache].
  - change (last_of [h]) with h. change (Zlen [h]) with 1. f_equal. lia.
  - destruct Hr as (hd & Hh & Ht). assert (Hz : Zlen (h :: c' :: cache) = 1 + Zlen (c' :: cache)) by (unfold Zlen; cbn [length]; lia). rewrite Hz in *.
    pose proof (Zlen_nonneg (c' :: cache)). replace (Z.to_nat (m - n - 1)) with (S (Z.to_nat (m - 1 - n - 1))) by lia. cbn [walk].
    replace (n + Z.of_nat (S (Z.to_nat (m - 1 - n - 1)))) with (m - 1) by lia. rewrite Hh. rewrite (IH (m - 1) _ n) by (done || lia).
    rewrite last_of_cons. by replace (m - 1 - Zlen (c' :: cache)) with (m - (1 + Zlen (c' :: cache))) by lia.
Qed.

Lemma last_of_snoc (cache : list Z) x : last_of (cache ++ [x]) = x.
Proof.
  unfold last_of. rewrite length_app, Nat.add_comm. cbn [length Nat.add Nat.pred]. by rewrite list_lookup_middle.
Qed.

Lemma GetHash_loop_ok fuel : forall n h cache, 0 <= n -> cache <> [] -> traced number h cache -> n < number - Zlen cache ->
  (Z.to_nat (number - Zlen cache - n) < fuel)%nat ->
  exists cache', GetHash_loop fuel n (last_of cache) (number - Zlen cache) cache =
    Ret (walk (Z.to_nat (number - Zlen cache - n)) n (last_of cache), cache') /\ cache' <> [] /\ traced number h cache'.
Proof.
  induction fuel as [|fuel IH]; intros n h cache Hn Hne Ht Hl Hf; [lia|]. cbn [GetHash_loop].
  replace (Z.to_nat (number - Zlen cache - n)) with (S (Z.to_nat (number - Zlen cache - n - 1))) by lia. cbn [walk].
  replace (n + Z.of_nat (S (Z.to_nat (number - Zlen cache - n - 1)))) with (number - Zlen cache) by lia.
  destruct (GetHeader (last_of cache) (number - Zlen cache)) as [header|] eqn:Hg; [|by exists cache].
  pose proof (traced_snoc cache number h header Hne Ht ltac:(lia) Hg) as Ht'. pose proof (Zlen_nonneg cache) as Hz. unfold in64 in Hin.
  unfold mthen, mmodify, mlift. cbn [obind fst snd]. rewrite (Hkeyed _ _ _ Hg). cbn [deref obind fst snd].
  assert (Hu : u64 (Uint64_ (number - Zlen cache) - 1) = number - Zlen cache - 1).
  { unfold Uint64_. rewrite Z.abs_eq by lia. rewrite (u64_small (number - Zlen cache)) by (unfold in64; lia). apply u64_small. unfold in64. lia. }
  rewrite Hu. assert (Hlen : Zlen (cache ++ [h_ParentHash header]) = Zlen cache + 1) by (unfold Zlen; rewrite length_app; cbn; lia).
  destruct (Z.eqb_spec n (number - Zlen cache - 1)) as [He|Hne'].
  - exists (cache ++ [h_ParentHash header]). replace (Z.to_nat (number - Zlen cache - n - 1)) with O by lia. split_and!; [done|by destruct cache|done].
  - destruct (IH n h (cache ++ [h_ParentHash header])) as (cache' & Hr & Hne2 & Ht2); [done|by destruct cache|done|lia|lia|].
    rewrite Hlen, last_of_snoc in Hr. replace (number - (Zlen cache + 1)) with (number - Zlen cache - 1) in Hr by lia.
    replace (number - Zlen cache - 1 - n) with (number - Zlen cache - n - 1) in Hr by lia. by exists cache'.
Qed.

Lemma GetHash_ok n cache : 0 <= n -> traced number (h_ParentHash ref) cache ->
  exists cache', GetHash n cache = Ret (hash_at number n, cache') /\ traced number (h_ParentHash ref) cache'.
Proof.
  intros Hn Ht. unfold GetHash, hash_at, mthen, mlift, mget, mput. rewrite Hnum. cbn [deref obind fst snd]. unfold in64 in Hin.
  assert (Hu : Uint64_ number = number) by (unfold Uint64_; rewrite Z.abs_eq by lia; by apply u64_small). rewrite Hu.
  destruct (Z.leb_spec number n) as [|Hlt]; [by exists cache|].
  set (c1 := match cache with [] => [h_ParentHash ref] | _ => cache end).
  assert (Hc1 : c1 <> [] /\ traced number (h_ParentHash ref) c1) by (subst c1; destruct cache; [split; [done|]; cbn; split_and!; (done || lia)|done]).
  clearbody c1. destruct Hc1 as [Hne Ht1]. pose proof (traced_length _ _ _ Ht1) as Hl. pose proof (Zlen_nonneg c1) as Hz.
  assert (Hi : u64 (number - n - 1) = number - n - 1) by (apply u64_small; unfold in64; lia). rewrite Hi.
  destruct (Z.ltb_spec (number - n - 1) (Zlen c1)) as [Hidx|Hidx].
  - exists c1. split; [|done]. unfold go_index. rewrite (proj2 (Z.leb_le 0 _)) by lia.
    destruct (lookup_lt_is_Some_2 c1 (Z.to_nat (number - n - 1))) as [c Hc]; [unfold Zlen in Hidx; lia|]. rewrite Hc. cbn [obind].
    rewrite (traced_walk c1 number (h_ParentHash ref) _ c Ht1 Hc). do 3 f_equal. lia.
  - assert (Hlast : go_index c1 (Zlen c1 - 1) = Ret (last_of c1)).
    { unfold go_index. assert (0 < Zlen c1) by (destruct c1; [done|unfold Zlen; cbn [length]; lia]). rewrite (proj2 (Z.leb_le 0 _)) by lia.
      unfold last_of. replace (Z.to_nat (Zlen c1 - 1)) with (Nat.pred (length c1)) by (unfold Zlen; lia).
      destruct (lookup_lt_is_Some_2 c1 (Nat.pred (length c1))) as [x Hx]; [unfold Zlen in *; lia|]. by rewrite Hx. }
    rewrite Hlast. cbn [obind fst snd]. rewrite (u64_small (number - Zlen c1)) by (unfold in64; lia).
    destruct (GetHash_loop_ok (S (Z.to_nat (number - Zlen c1))) n (h_ParentHash ref) c1 Hn Hne Ht1 ltac:(lia) ltac:(lia)) as (cache' & Hr & _ & Ht').
    exists cache'. split; [|done]. rewrite Hr. do 2 f_equal. symmetry. apply walk_from; (done || lia).
Qed.

(** A sequence of queries, each on the cache the ones before left. *)
Fixpoint queries (ns : list Z) : M (list Z) (list Z) :=
  match ns with
  | [] => mret []
  | n :: ns => let* h := GetHash n in let* hs := queries ns in mret (h :: hs)
  end.

End GetHash.

(** The cache of [GetHashFn] does not show: whatever blocks have been asked for
    before and in whatever order, the answer for block [n] is the hash found by
    walking the parents from the current block, and zero for a block that is not
    older or not reachable; no query panics or runs on for ever. *)
Theorem get_hash_transparent GetHeader ref number ns : h_Number ref = Some number -> in64 number -> keyed GetHeader -> Forall (fun n => 0 <= n) ns ->
  exists cache, queries GetHeader ref ns [] = Ret (map (hash_at GetHeader ref number) ns, cache).
Proof.
  intros Hnum Hin Hk Hns. assert (Hq : forall cache, traced GetHeader number (h_ParentHash ref) cache ->
    exists cache', queries GetHeader ref ns cache = Ret (map (hash_at GetHeader ref number) ns, cache')); [|by apply Hq].
  induction Hns as [|n ns Hn _ IH]; intros cache Ht; [by exists cache|]. cbn [queries map]. unfold mthen.
  destruct (GetHash_ok GetHeader ref number Hnum Hin Hk n cache Hn Ht) as (c1 & Hr & Ht1). rewrite Hr. cbn [obind fst snd].
  destruct (IH c1 Ht1) as (c2 & Hr2). rewrite Hr2. by exists c2.
Qed.

(** Three blocks: 10 under the hash 100, 9 under 90, 8 is not known. *)
Definition demo_chain (h n : Z) : option Header :=
  if (h =? 100) && (n =? 10) then Some (mkHeader 90 0 0 0 0 [] (Some 10) 0 0 0 [] 0 None None)
  else if (h =? 90) && (n =? 9) then Some (mkHeader 80 0 0 0 0 [] (Some 9) 0 0 0 [] 0 None None)
  else None.

Lemma get_hash_transparent_witness :
  exists cache, queries demo_chain (mkHeader 100 0 0 0 0 [] (Some 11) 0 0 0 [] 0 None None) [10; 8; 9; 7; 8; 11] [] =
    Ret ([100; 80; 90; 0; 80; 0], cache).
Proof.
  apply (get_hash_transparent demo_chain (mkHeader 100 0 0 0 0 [] (Some 11) 0 0 0 [] 0 None None) 11 [10; 8; 9; 7; 8; 11]).
  - reflexivity.
  - unfold in64. lia.
  - intros h n header. unfold demo_chain. destruct (Z.eqb_spec h 100), (Z.eqb_spec n 10), (Z.eqb_spec h 90), (Z.eqb_spec n 9); cbn;
      intros Hh; try discriminate Hh; injection Hh as <-; cbn; congruence.
  - repeat constructor; lia.
Defined.
