(* ===== verification/Processor.v ===== *)
(** * Block processing (core/state_processor.go, core/qrvm.go,
    consensus/beacon/consensus.go: Finalize; core/state_transition.go:
    TransactionToMessage)

    A block is processed by turning its transactions into messages one after the
    other, applying each to the state and finalising it, and paying the withdrawals
    at the end.  The state is the [StateDB] the machine works on. *)

From S2P Require Import Prelude Uint256 Params VMCommon Rlp StateTypes StateObject StateDB VMInterface Contract GasTable Instructions JumpTable Precompiles Interpreter StateVM Bloom Transactions Blocks HashFn StateTransition.

(** [types.Receipt]; the effective price is nil until [DeriveFields] fills it in for the
    users of the API. *)
Record Receipt : Type := mkReceipt {
  r_Type : Z;
  r_PostState : list Z;
  r_Status : Z;
  r_CumulativeGasUsed : Z;
  r_Bloom : list Z;
  r_Logs : list Log;
  r_TxHash : Z;
  r_ContractAddress : Z;
  r_GasUsed : Z;
  r_EffectiveGasPrice : option Z;
  r_BlockHash : Z;
  r_BlockNumber : option Z;
  r_TransactionIndex : Z
}.

Definition ReceiptStatusFailed : Z := 0.
Definition ReceiptStatusSuccessful : Z := 1.

(** A transaction cannot be turned into a message, or the message is refused. *)
Inductive process_error : Type :=
| errSender (e : tx_error)
| errMessage (e : Core.error).

(** What is read of [params.ChainConfig] and [vm.Config]. *)
Record Config : Type := mkConfig { cfg_ChainID : Z; cfg_NoBaseFee : bool; cfg_EnablePreimageRecording : bool }.

(** params/denomination.go *)
Definition Shor : Z := 1000000000.

Section Processor.
Context {P : PQCrypto} {C : Crypto} {D : Database} {U : Uint256} {H : Ssz}.
Context (GetHeader : Z -> Z -> option Header).

(** ** Messages and contexts *)

Definition TransactionToMessage (s : Tx.Signer) (baseFee : option Z) : M Tx.Transaction (tx_error + Message) :=
  let* tx := mget in
  let* price := mlift (Tx.GasPrice_ tx) in
  let* cap := mlift (Tx.GasFeeCap_ tx) in
  let* tip := mlift (Tx.GasTipCap_ tx) in
  let* value := mlift (Tx.Value_ tx) in
  let gasPrice := match baseFee with None => price | Some baseFee => BigMin (tip + baseFee) cap end in
  let* from := Tx.Sender s in
  mret (match from with
        | inl err => inl err
        | inr from => inr (mkMessage (Tx.To (Tx.inner tx)) from (Tx.Nonce (Tx.inner tx)) value (Tx.Gas (Tx.inner tx)) gasPrice (Some cap)
            (Some tip) (Tx.Data (Tx.inner tx)) (Some (Tx.AccessList (Tx.inner tx))) false)
        end).

(** What the closure of [GetHashFn] answers.  The context keeps the answer as a function of
    the number: [blockHashFn_answers] below shows that the closure gives it whatever its cache
    holds, and that on a store of headers it never panics or runs on, so that the last
    case is not reached. *)
Definition blockHashFn (ref : Header) (n : Z) : Z :=
  match GetHash GetHeader ref n [] with Ret (h, _) => h | _ => 0 end.

Lemma blockHashFn_answers ref number n cache : keyed GetHeader -> h_Number ref = Some number -> in64 number -> 0 <= n -> traced GetHeader number (h_ParentHash ref) cache ->
  exists cache', GetHash GetHeader ref n cache = Ret (blockHashFn ref n, cache') /\ traced GetHeader number (h_ParentHash ref) cache'.
Proof.
  intros Hk Hn Hin H0 Ht. unfold blockHashFn. destruct (GetHash_ok GetHeader ref number Hn Hin Hk n [] H0 I) as (c & -> & _). by apply (GetHash_ok GetHeader ref number).
Qed.

(** consensus/beacon/consensus.go *)
Definition Author (header : Header) : Z := h_Coinbase header.

(** [NewQRVMBlockContext].  A header without
    a base fee, which header validation excludes, would panic at the first look at
    the fee; here it does so at once. *)
Definition NewQRVMBlockContext (cfg : Config) (header : Header) (author : option Z) : outcome env :=
  let! number := deref (h_Number header) in
  let! baseFee := deref (h_BaseFee header) in
  let beneficiary := match author with None => Author header | Some author => author end in
  Ret (mkEnv (blockHashFn header) beneficiary (h_GasLimit header) number (h_Time header) baseFee (h_Random header) 0 0
    (cfg_ChainID cfg) (cfg_NoBaseFee cfg) (cfg_EnablePreimageRecording cfg)).

(** [NewQRVMTxContext] and [QRVM.Reset] *)
Definition with_tx_context (msg : Message) (e : env) : env :=
  mkEnv (e_GetHash e) (e_Coinbase e) (e_GasLimit e) (e_BlockNumber e) (e_Time e) (e_BaseFee e) (e_Random e) (From msg) (GasPrice msg)
    (e_ChainID e) (e_NoBaseFee e) (e_EnablePreimageRecording e).

(** ** One transaction *)

(** What the transactions of a block share: the gas pool, the machine with the
    state, and the gas used so far. *)
Record PState : Type := mkPState { ps_gp : Z; ps_qrvm : QRVM StateDB; ps_usedGas : Z }.

Definition ps_state (ps : PState) : StateDB := vm_StateDB (ps_qrvm ps).
Definition on_db {A} (m : M StateDB A) : M PState A := fun ps =>
  let! (a, s) := m (ps_state ps) in
  Ret (a, mkPState (ps_gp ps) (with_vm_StateDB s (ps_qrvm ps)) (ps_usedGas ps)).
Definition add_usedGas (gas : Z) (ps : PState) : PState := mkPState (ps_gp ps) (ps_qrvm ps) (u64 (ps_usedGas ps + gas)).

Definition run_message (e : env) (msg : Message) (fuel : nat) : M PState (Core.error + ExecutionResult) := fun ps =>
  let! (r, st) := ApplyMessage e msg fuel (ps_qrvm ps) (ps_gp ps) in
  Ret (r, mkPState (st_gp st) (st_qrvm st) (ps_usedGas ps)).

Definition tx_hash (tx : Tx.Transaction) : outcome Z := let! (h, _) := Tx.Hash tx in Ret h.

Definition applyTransaction (e : env) (msg : Message) (fuel : nat) (blockNumber blockHash : Z) (tx : Tx.Transaction) :
    M PState (Core.error + Receipt) :=
  let e := with_tx_context msg e in
  let* r := run_message e msg fuel in
  match r with
  | inl err => mret (inl err)
  | inr result =>
      on_db (StateDB.Finalise true) ;;;
      mmodify (add_usedGas (UsedGas result)) ;;;
      let* ps := mget in
      let cumulative := ps_usedGas ps in
      let status := if Failed result then ReceiptStatusFailed else ReceiptStatusSuccessful in
      let* hash := mlift (tx_hash tx) in
      let* contractAddress :=
        (match To msg with
         | None => mlift (CreateAddress (e_Origin e) (Tx.Nonce (Tx.inner tx)))
         | Some _ => mret 0
         end) in
      let* logs := on_db (StateDB.GetLogs hash (Uint64_ blockNumber) blockHash) in
      let* bloom := mlift (CreateBloom [logs]) in
      let* ps := mget in
      mret (inr (mkReceipt (Tx.Type_ tx) [] status cumulative bloom logs hash contractAddress (UsedGas result) None blockHash (Some blockNumber)
        (u64 (db_txIndex (ps_state ps)))))
  end.

(** [ApplyTransaction]: one transaction on its own, on a new machine. *)
Definition ApplyTransaction (cfg : Config) (author : option Z) (header : Header) (fuel : nat) (tx : Tx.Transaction) :
    M PState (process_error + Receipt) := fun ps =>
  let! (r, tx) := TransactionToMessage (Tx.mkSigner (cfg_ChainID cfg)) (h_BaseFee header) tx in
  match r with
  | inl err => Ret (inl (errSender err), ps)
  | inr msg =>
      let! e := NewQRVMBlockContext cfg header author in
      let! blockHash := Header_Hash header in
      let! number := deref (h_Number header) in
      let! (r, ps) := applyTransaction e msg fuel number blockHash tx (mkPState (ps_gp ps) (mkVM (ps_state ps) 0 0 false [] [] ∅) (ps_usedGas ps)) in
      Ret (match r with inl err => inl (errMessage err) | inr receipt => inr receipt end, ps)
  end.

(** ** The block *)

Fixpoint process_txs (e : env) (fuel : nat) (signer : Tx.Signer) (baseFee : option Z) (blockNumber blockHash : Z) (i : Z)
    (txs : list Tx.Transaction) : M PState (process_error + list Receipt) :=
  match txs with
  | [] => mret (inr [])
  | tx :: txs =>
      let* (r, tx) := mlift (TransactionToMessage signer baseFee tx) in
      match r with
      | inl err => mret (inl (errSender err))
      | inr msg =>
          let* hash := mlift (tx_hash tx) in
          on_db (StateDB.SetTxContext hash i) ;;;
          let* r := applyTransaction e msg fuel blockNumber blockHash tx in
          match r with
          | inl err => mret (inl (errMessage err))
          | inr receipt =>
              let* r := process_txs e fuel signer baseFee blockNumber blockHash (i + 1) txs in
              mret (match r with inl err => inl err | inr receipts => inr (receipt :: receipts) end)
          end
      end
  end.

(** [Beacon.Finalize]: withdrawals are credited in Planck. *)
Fixpoint Finalize (withdrawals : list Withdrawal) : M StateDB unit :=
  match withdrawals with
  | [] => mret tt
  | w :: withdrawals => StateDB.AddBalance (w_Address w) (w_Amount w * Shor) ;;; Finalize withdrawals
  end.

(** [Process]: receipts, logs and gas used, or an error, in which case the caller
    drops the state. *)
Definition Process (cfg : Config) (fuel : nat) (block : Block) : M StateDB (process_error + (list Receipt * list Log * Z)) := fun statedb =>
  let header := CopyHeader (b_header block) in
  let! blockHash := Header_Hash (b_header block) in
  let! blockNumber := deref (h_Number (b_header block)) in
  let! gp := AddGas (h_GasLimit (b_header block)) 0 in
  let! e := NewQRVMBlockContext cfg header None in
  let vmenv := mkVM statedb 0 0 false [] [] ∅ in
  let! (r, ps) := process_txs e fuel (Tx.mkSigner (cfg_ChainID cfg)) (h_BaseFee header) blockNumber blockHash 0 (b_transactions block)
      (mkPState gp vmenv 0) in
  match r with
  | inl err => Ret (inl err, ps_state ps)
  | inr receipts =>
      let! (_, s) := Finalize (default [] (b_withdrawals block)) (ps_state ps) in
      Ret (inr (receipts, concat (map r_Logs receipts), ps_usedGas ps), s)
  end.

End Processor.
