(* ===== verification/ProcessorTheorems.v ===== *)
(** * What processing a block guarantees

    The receipts of a processed block account for its gas, and the sum of all
    balances changes by the withdrawals paid and the base fees burnt. *)

From S2P Require Import Prelude Uint256 Params VMCommon Rlp RlpStream RlpTypes StateTypes StateObject StateDB StateRevert VMInterface Contract GasTable Instructions JumpTable Precompiles Interpreter VMLogic VMHandlers VMRun VMLoop StateVM StateLaws StateFinalise Demo VMDemo Bloom Transactions TxTheorems Blocks HashFn StateTransition TransitionLogic TransitionTheorems Processor.

(** ** Nothing but the machine can run long *)

Section Fuel.

Lemma ofold_fuel {A B} (f : A -> B -> outcome A) : (forall a b, f a b <> OutOfFuel) -> forall l a, ofold f a l <> OutOfFuel.
Proof. intros Hf. induction l as [|x l IH]; intros a; cbn [ofold]; [done|]. apply obind_fuel; auto. Qed.

Lemma CreateBloom_fuel {C : Crypto} l : CreateBloom l <> OutOfFuel.
Proof. repeat (apply ofold_fuel; intros). apply obind_fuel; [|intros]; repeat (apply ofold_fuel; intros); unfold or_at; nofuel. Qed.

(** Writers whose every call returns. *)
Definition wfuel (w : Encode.W) : Prop := forall buf, w buf <> OutOfFuel.

Lemma wthen_fuel a b : wfuel a -> wfuel b -> wfuel (Encode.wthen a b).
Proof. intros Ha Hb buf. apply obind_fuel; [apply Ha|]. intros []; [done|apply Hb]. Qed.

Lemma wall_fuel l : Forall wfuel l -> wfuel (Encode.wall l).
Proof. induction 1; [done|]. by apply wthen_fuel. Qed.

Lemma wlist_fuel w : wfuel w -> wfuel (Encode.wlist w).
Proof.
  intros Hw buf. unfold Encode.wlist. destruct (Rlp.list_begin buf) as [i b]. apply obind_fuel; [apply Hw|].
  intros []; [done|]. apply obind_fuel; [apply listEnd_fuel|done].
Qed.

Lemma wslice_fuel l : Forall wfuel l -> wfuel (Encode.wslice l).
Proof. intros Hl. unfold Encode.wslice. destruct l; [done|]. by apply wlist_fuel, wall_fuel. Qed.

Lemma writeInterface_fuel : forall v, wfuel (Encode.writeInterface v).
Proof.
  fix IH 1. intros [| | | |l|]; [clear IH; done..| |clear IH; done]. apply wslice_fuel. induction l as [|v l IHl]; [constructor|]. constructor; [apply IH|exact IHl].
Qed.

Lemma writer_fuel t : forall v, wfuel (Encode.writer t v).
Proof.
  induction t as [| |bits| | | |n|t IH|n t IH|ts IH|t IH|k t IH|] using rtype_ind'; intros v; cbn [Encode.writer];
    try by destruct v.
  - destruct v as [|z| | | |]; try done. unfold Encode.writeBigIntPtr. destruct z as [z|]; [|done]. by destruct (Z.sgn z =? -1).
  - destruct v as [| | | |l|]; try done. apply wslice_fuel. induction l; constructor; auto.
  - destruct v as [| | | |l|]; try done. apply wslice_fuel. induction l; constructor; auto.
  - destruct v as [| | | |l|]; try done. apply wlist_fuel, wall_fuel. revert l. induction IH as [|t ts Ht _ IHts]; intros [|v l]; repeat constructor; try done; auto.
  - destruct v as [| | | | |[v|]]; try done; apply IH.
  - destruct v as [| | | | |[v|]]; try done; apply IH.
  - apply writeInterface_fuel.
Qed.

Context {P : PQCrypto} {C : Crypto}.

Lemma prefixedRlpHash_fuel p w : wfuel w -> Tx.prefixedRlpHash p w <> OutOfFuel.
Proof. intros Hw. apply obind_fuel; [apply Hw|]. intros r. apply obind_fuel; [|done]. destruct r; [done|apply makeBytes_fuel]. Qed.

Lemma tx_hash_fuel tx : tx_hash tx <> OutOfFuel.
Proof.
  unfold tx_hash, Tx.Hash, mthen, mget, mlift. cbn [obind fst snd]. destruct (Tx.hash tx); [done|]. cbn [obind fst snd].
  pose proof (prefixedRlpHash_fuel (Tx.Type_ tx) _ (writer_fuel Tx.txType (Tx.tx_val (Tx.inner tx)))) as Hf. by destruct (Tx.prefixedRlpHash _ _).
Qed.

Lemma signer_Sender_fuel s tx : Tx.signer_Sender s tx <> OutOfFuel.
Proof.
  unfold Tx.signer_Sender. apply obind_fuel; [apply deref_fuel|intros c]. destruct (negb _); [done|]. destruct (negb _); [done|].
  apply obind_fuel; [|done]. unfold Tx.signer_Hash. do 3 (apply obind_fuel; [apply deref_fuel|intros]). apply prefixedRlpHash_fuel, wslice_fuel.
  repeat (constructor; [apply writer_fuel|]). constructor.
Qed.

Lemma Sender_fuel s tx : Tx.Sender s tx <> OutOfFuel.
Proof.
  unfold Tx.Sender, mthen, mget, mlift. cbn [obind fst snd]. destruct (match Tx.from tx with Some _ => _ | None => _ end); [done|].
  pose proof (signer_Sender_fuel s tx) as Hf. by destruct (Tx.signer_Sender s tx) as [[]| |].
Qed.

Lemma TransactionToMessage_fuel s b tx : TransactionToMessage s b tx <> OutOfFuel.
Proof.
  unfold TransactionToMessage, mthen, mget, mlift, Tx.GasPrice_, Tx.GasFeeCap_, Tx.GasTipCap_, Tx.Value_. cbn [obind fst snd].
  destruct (Tx.GasFeeCap _), (Tx.GasTipCap _), (Tx.Value _); try done. cbn [deref obind fst snd].
  pose proof (Sender_fuel s tx) as Hf. by destruct (Tx.Sender s tx) as [[]| |].
Qed.

End Fuel.

(** ** One transaction *)

Section Block.
Context {P : PQCrypto} {C : Crypto} {D : Database} {U : Uint256} {UT : Uint256Typed U} {H : Ssz}.

(** What a message takes over from its transaction. *)
Record message_of (baseFee : option Z) (tx : Tx.Transaction) (msg : Message) : Prop := {
  mo_to : To msg = Tx.To (Tx.inner tx);
  mo_limit : msg_GasLimit msg = Tx.Gas (Tx.inner tx);
  mo_data : Data msg = Tx.Data (Tx.inner tx);
  mo_list : msg_AccessList msg = Some (Tx.AccessList (Tx.inner tx));
  mo_fees : exists cap tip, GasFeeCap msg = Some cap /\ GasTipCap msg = Some tip /\
    forall b, baseFee = Some b -> GasPrice msg = BigMin (tip + b) cap
}.

Lemma TransactionToMessage_spec s b tx msg tx' : TransactionToMessage s b tx = Ret (inr msg, tx') ->
  message_of b tx msg /\ tx_hash tx' = tx_hash tx.
Proof.
  unfold TransactionToMessage, mthen, mget, mlift, Tx.GasPrice_, Tx.GasFeeCap_, Tx.GasTipCap_, Tx.Value_. cbn [obind fst snd].
  destruct (Tx.GasFeeCap _) as [cap|], (Tx.GasTipCap _) as [tip|], (Tx.Value _) as [v|]; try done. cbn [deref obind fst snd].
  destruct (Tx.Sender s tx) as [[[er|from] t]| |] eqn:Hs; try done. cbn [obind fst snd]. intros [= <- <-].
  split; [split; try done; exists cap, tip; split_and!; try done; by intros b' [= ->]|].
  unfold Tx.Sender, mthen, mget, mlift in Hs. cbn [obind fst snd] in Hs.
  destruct (match Tx.from tx with Some _ => _ | None => _ end); [by injection Hs as _ <-|].
  destruct (Tx.signer_Sender s tx) as [[|]| |]; try done. cbn in Hs. injection Hs as _ <-.
  unfold tx_hash, Tx.Hash, mthen, mget, mlift. cbn [obind fst snd Tx.with_from Tx.hash Tx.inner]. destruct (Tx.hash tx); [done|].
  cbn [obind fst snd]. change (Tx.Type_ _) with (Tx.Type_ tx). by destruct (Tx.prefixedRlpHash _ _).
Qed.

(** What a receipt says of its transaction, after [used] units of gas. *)
Record receipt_of (used : Z) (tx : Tx.Transaction) (r : Receipt) : Prop := {
  ro_hash : tx_hash tx = Ret (r_TxHash r);
  ro_gas : 0 <= r_GasUsed r <= Tx.Gas (Tx.inner tx);
  ro_intrinsic : exists gas, 4 * gas <= 5 * r_GasUsed r /\
    IntrinsicGas (Tx.Data (Tx.inner tx)) (Some (Tx.AccessList (Tx.inner tx)))
      (match Tx.To (Tx.inner tx) with None => true | Some _ => false end) = inr gas;
  ro_cumulative : r_CumulativeGasUsed r = used + r_GasUsed r;
  ro_status : r_Status r = ReceiptStatusFailed \/ r_Status r = ReceiptStatusSuccessful;
  ro_bloom : CreateBloom [r_Logs r] = Ret (r_Bloom r)
}.

Context (e : env) (s0 : StateDB) (limit : Z).

(** Between two transactions of a block that started in [s0]. *)
Record block_at (used : Z) (ps : PState) : Prop := {
  ba_good : good (ps_state ps);
  ba_idle : db_validRevisions (ps_state ps) = [];
  ba_readOnly : vm_readOnly (ps_qrvm ps) = false;
  ba_pool : ps_gp ps = limit - used;
  ba_used : ps_usedGas ps = used;
  ba_range : 0 <= used <= limit;
  ba_moved : e_NoBaseFee e = false -> smoved (- (used * e_BaseFee e)) s0 (ps_state ps)
}.

(** A change of the state that is not one of its accounts. *)
Lemma tr_aside {A} (m : M StateDB A) used :
  (forall s, wf s -> match m s with
    | Ret (_, s') => wf s' /\ db_validRevisions s' = db_validRevisions s /\ forall a, balance s' a = balance s a
    | Panic => True | OutOfFuel => False end) ->
  triple (block_at used) (on_db m) (fun _ => block_at used).
Proof.
  intros Hm ps [B1 B2 B3 B4 B5 B6 B7]. specialize (Hm _ (good_wf _ B1)). unfold on_db. destruct (m (ps_state ps)) as [[a s']| |]; [|done|done].
  destruct Hm as (Hw & Hr & Hb). cbn. split; cbn; auto; [apply good_idle; congruence|congruence|].
  intros Hn. rewrite <- (Z.add_0_r (- _)). eapply smoved_trans; [by apply B7|by apply smoved_same].
Qed.

Lemma SetTxContext_aside h i used : triple (block_at used) (on_db (StateDB.SetTxContext h i)) (fun _ => block_at used).
Proof. apply tr_aside. intros s [W1 W2 W3 W4 W5 W6 W7]. cbn. split; [by split|done]. Qed.

Lemma GetLogs_aside h n b used : triple (block_at used) (on_db (StateDB.GetLogs h n b)) (fun _ => block_at used).
Proof.
  apply tr_aside. intros s Hw. unfold StateDB.GetLogs, mthen, mget, mput, mret. cbn [obind fst snd].
  destruct (db_logs s !! h) as [logs|] eqn:Hl; cbn; [|done]. split; [|done]. pose proof (wf_logs s Hw h logs Hl) as Hne.
  destruct Hw as [W1 W2 W3 W4 W5 W6 W7]. split; try done. intros k l. cbn. destruct (decide (k = h)) as [->|Hk].
  - rewrite lookup_insert_eq. intros [= <-]. by destruct logs.
  - rewrite lookup_insert_ne by done. apply W4.
Qed.

(** After the message, with its effects still in the journal. *)
Record ran_at (used gas : Z) (ps : PState) : Prop := {
  ra_wf : wf (ps_state ps);
  ra_readOnly : vm_readOnly (ps_qrvm ps) = false;
  ra_pool : ps_gp ps = limit - (used + gas);
  ra_used : ps_usedGas ps = used;
  ra_range : 0 <= used + gas <= limit;
  ra_moved : e_NoBaseFee e = false -> smoved (- ((used + gas) * e_BaseFee e)) s0 (ps_state ps)
}.

Definition result_of_tx (tx : Tx.Transaction) (res : ExecutionResult) : Prop :=
  0 <= UsedGas res <= Tx.Gas (Tx.inner tx) /\
  exists gas, 4 * gas <= 5 * UsedGas res /\
    IntrinsicGas (Tx.Data (Tx.inner tx)) (Some (Tx.AccessList (Tx.inner tx)))
      (match Tx.To (Tx.inner tx) with None => true | Some _ => false end) = inr gas.

Context (fuel : nat) (Hlimit : in64 limit).

Definition tx_runs (tx : Tx.Transaction) : Prop := in64 (Tx.Gas (Tx.inner tx)) /\ Tx.Gas (Tx.inner tx) < Z.of_nat fuel.

Lemma run_message_tr tx msg used : tx_runs tx -> message_of (Some (e_BaseFee e)) tx msg ->
  triple (block_at used) (run_message (with_tx_context msg e) msg fuel)
    (fun r ps => match r with inl _ => True | inr res => ran_at used (UsedGas res) ps /\ result_of_tx tx res end).
Proof.
  intros [Hg Hf] [M1 M2 M3 M4 (cap & tip & M5 & M6 & M7)] ps [B1 B2 B3 B4 B5 B6 B7].
  assert (Hr : runnable msg fuel (ps_qrvm ps) (ps_gp ps)).
  { split; try done; rewrite ?M2; try done. unfold in64 in *. lia. }
  pose proof (ApplyMessage_ended (with_tx_context msg e) msg fuel (ps_qrvm ps) (ps_gp ps) Hr) as He.
  unfold run_message. destruct (ApplyMessage _ _ _ _ _) as [[[er|res] st]| |]; [done| |done|done]. cbn [obind fst snd].
  destruct He as (gas & Hi & Hu & Hle & H5 & [A1 A2 A3 A4 A5 A6 A7 A8 A9]). rewrite M1, M3, M4 in Hi. rewrite M2 in Hu, Hle.
  split; [|split; [done|eauto]]. split; unfold ps_state; cbn; try done; try lia; [apply A4|congruence|].
  intros Hn. rewrite (tip_burns _ msg cap tip) in A7 by auto. cbn [with_tx_context e_BaseFee] in A7.
  replace (- ((used + UsedGas res) * e_BaseFee e)) with (- (used * e_BaseFee e) + - (UsedGas res * e_BaseFee e)) by lia.
  eapply smoved_trans; [by apply B7|exact A7].
Qed.

Lemma finalise_tr used gas :
  triple (ran_at used gas) (on_db (StateDB.Finalise true)) (fun _ ps => block_at (used + gas) (add_usedGas gas ps)).
Proof.
  intros ps [R1 R2 R3 R4 R5 R6]. destruct (Finalise_ok _ R1) as (s' & Hs & [F1 F2 F3 F4 F5]).
  unfold on_db. rewrite Hs. cbn. split; cbn; auto.
  - rewrite R4. apply u64_small. unfold in64 in *. lia.
  - intros Hn. rewrite <- (Z.add_0_r (- _)). eapply smoved_trans; [by apply R6|by apply smoved_same].
Qed.

Lemma CreateAddress_fuel a n : CreateAddress a n <> OutOfFuel.
Proof.
  unfold CreateAddress. destruct (Rlp.list_begin _) as [l buf]. apply obind_fuel; [apply listEnd_fuel|intros].
  apply obind_fuel; [apply makeBytes_fuel|done].
Qed.

Lemma applyTransaction_tr tx tx' msg used n h : tx_runs tx -> message_of (Some (e_BaseFee e)) tx msg -> tx_hash tx' = tx_hash tx ->
  triple (block_at used) (applyTransaction e msg fuel n h tx')
    (fun r ps => match r with inl _ => True | inr rc => receipt_of used tx rc /\ block_at (used + r_GasUsed rc) ps end).
Proof.
  intros Hx Hmsg Hh. unfold applyTransaction. eapply tr_bind; [by apply (run_message_tr tx)|]. intros [er|res]; [by apply tr_ret|].
  apply tr_fact. intros (Hg & Hi). set (gas := UsedGas res) in *.
  eapply tr_bind; [apply finalise_tr|intros u1]. eapply (tr_bind _ _ _ (fun _ => block_at (used + gas))); [by apply tr_modify|intros u2].
  apply tr_get. intros ps Hps. rewrite (ba_used _ _ Hps). clear ps Hps.
  eapply tr_bind; [apply (tr_lift _ _ (fun hash ps => block_at (used + gas) ps /\ tx_hash tx = Ret hash)); [apply tx_hash_fuel|]|].
  { intros hash ps Heq Hps. split; [done|congruence]. }
  intros hash. apply tr_fact. intros Hhash. eapply (tr_bind _ _ _ (fun _ => block_at (used + gas))).
  { destruct (To msg); [by apply tr_ret|]. by apply tr_lift; [apply CreateAddress_fuel|]. }
  intros addr. eapply tr_bind; [apply GetLogs_aside|]. intros logs.
  eapply tr_bind; [apply (tr_lift _ _ (fun bloom ps => block_at (used + gas) ps /\ CreateBloom [logs] = Ret bloom)); [apply CreateBloom_fuel|done]|].
  intros bloom. apply tr_fact. intros Hb. apply tr_get. intros ps1 _. apply tr_ret. intros ps Hps.
  split; [|done]. split; cbn; try done. destruct (Failed res); auto.
Qed.

(** ** The block *)

(** The receipts of a list of transactions, in order. *)
Inductive receipts_of : Z -> list Tx.Transaction -> list Receipt -> Prop :=
| receipts_nil used : receipts_of used [] []
| receipts_cons used tx txs r rs :
    receipt_of used tx r -> receipts_of (used + r_GasUsed r) txs rs -> receipts_of used (tx :: txs) (r :: rs).

Lemma process_txs_tr signer n h txs : forall used i, Forall tx_runs txs ->
  triple (block_at used) (process_txs e fuel signer (Some (e_BaseFee e)) n h i txs)
    (fun r ps => match r with inl _ => True | inr rs => receipts_of used txs rs /\ block_at (used + sumz (r_GasUsed <$> rs)) ps end).
Proof.
  induction txs as [|tx txs IH]; intros used i Hall; cbn [process_txs].
  { apply tr_ret. intros ps Hps. split; [constructor|]. cbn. by rewrite Z.add_0_r. }
  apply Forall_cons_1 in Hall as [Hx Hall].
  eapply tr_bind; [apply (tr_lift _ _ (fun p ps => block_at used ps /\ TransactionToMessage signer (Some (e_BaseFee e)) tx = Ret p));
    [apply TransactionToMessage_fuel|done]|].
  intros [[er|msg] tx']; [by apply tr_ret|]. apply tr_fact. intros Hm. apply TransactionToMessage_spec in Hm as [Hm Hh].
  eapply tr_bind; [apply (tr_lift _ _ (fun _ => block_at used)); [apply tx_hash_fuel|done]|]. intros hash.
  eapply tr_bind; [apply SetTxContext_aside|]. intros []. eapply tr_bind; [by apply (applyTransaction_tr tx)|].
  intros [er|rc]; [by apply tr_ret|]. intros ps [Hrc Hps]. revert ps Hps. match goal with |- forall ps, _ -> match ?m ps with Ret _ => _ | _ => _ end =>
    change (triple (block_at (used + r_GasUsed rc)) m (fun r ps => match r with inl _ => True | inr rs => receipts_of used (tx :: txs) rs /\ block_at (used + sumz (r_GasUsed <$> rs)) ps end)) end.
  eapply tr_bind; [by apply IH|]. intros [er|rs]; [by apply tr_ret|]. apply tr_ret. intros ps [Hrs Hps].
  split; [by constructor|]. cbn [fmap list_fmap sumz foldr]. fold (sumz (r_GasUsed <$> rs)). by rewrite Z.add_assoc.
Qed.

Lemma Header_Hash_fuel h : Header_Hash h <> OutOfFuel.
Proof.
  assert (Hp : forall z, wfuel (writeBigPtr z)) by (intros [z|]; [|done]; unfold writeBigPtr; by destruct (Z.sgn z =? -1)).
  unfold Header_Hash, rlpHash, encodeWith. apply obind_fuel; [|done]. apply obind_fuel.
  - apply wlist_fuel, wall_fuel, Forall_app. split; [repeat (constructor; [done || apply Hp|]); constructor|]. apply Forall_app.
    split; [destruct (_ || _); repeat constructor; apply Hp|by destruct (h_WithdrawalsHash h); repeat constructor].
  - intros []; [done|]. apply obind_fuel; [apply makeBytes_fuel|done].
Qed.

(** What the withdrawals of a block add to the balances. *)
Definition withdrawn (ws : list Withdrawal) : Z := sumz ((fun w => w_Amount w * Shor) <$> ws).

Lemma Finalize_ok ws : forall s, good s ->
  match Finalize ws s with Ret (_, s') => good s' /\ smoved (withdrawn ws) s s' | Panic => True | OutOfFuel => False end.
Proof.
  induction ws as [|w ws IH]; intros s Hg; cbn [Finalize]; [split; [done|by apply smoved_same]|].
  pose proof (plain_nf (SDB.AddBalance (w_Address w) (w_Amount w * Shor)) eq_refl s) as Hf. unfold mthen. cbn [sdb_run] in Hf.
  destruct (StateDB.AddBalance _ _ s) as [[[] s1]| |] eqn:Ha; [|done|done]. cbn [obind fst snd].
  destruct (@plain_keeps _ _ statedb_laws _ (SDB.AddBalance (w_Address w) (w_Amount w * Shor)) s tt s1 eq_refl Hg Ha) as [Hg1 _].
  specialize (IH s1 Hg1). destruct (Finalize ws s1) as [[[] s2]| |]; [|done|done]. destruct IH as [Hg2 Hm]. split; [done|].
  eapply smoved_trans; [eapply AddBalance_moved; [apply Hg|exact Ha]|exact Hm].
Qed.

End Block.

Section Process.
Context {P : PQCrypto} {C : Crypto} {D : Database} {U : Uint256} {UT : Uint256Typed U} {H : Ssz}.
Context (GetHeader : Z -> Z -> option Header) (cfg : Config) (fuel : nat) (block : Block) (statedb : StateDB) (baseFee : Z).

Local Abbreviation header := (b_header block).

(** A block with a base fee, whose transactions have less gas than there is fuel,
    on a state between two transactions. *)
Record processable : Prop := {
  pr_good : good statedb;
  pr_idle : db_validRevisions statedb = [];
  pr_limit : in64 (h_GasLimit header);
  pr_baseFee : h_BaseFee header = Some baseFee;
  pr_txs : Forall (tx_runs fuel) (b_transactions block)
}.

Definition processed (receipts : list Receipt) (logs : list Log) (usedGas : Z) (s' : StateDB) : Prop :=
  receipts_of 0 (b_transactions block) receipts /\ logs = concat (map r_Logs receipts) /\ usedGas = sumz (r_GasUsed <$> receipts) /\
  0 <= usedGas <= h_GasLimit header /\ good s' /\
  (cfg_NoBaseFee cfg = false -> smoved (withdrawn (default [] (b_withdrawals block)) - usedGas * baseFee) statedb s').

Lemma Process_ok : processable ->
  match Process GetHeader cfg fuel block statedb with
  | Ret (inr (receipts, logs, usedGas), s') => processed receipts logs usedGas s'
  | Ret (inl _, _) => True | Panic => True | OutOfFuel => False
  end.
Proof.
  intros [Hg Hi Hl Hb Ht]. unfold Process. pose proof (Header_Hash_fuel header) as Hf.
  destruct (Header_Hash header) as [h| |]; [|done|done]. destruct (h_Number header) as [n|]; [|done]. cbn [deref obind fst snd].
  unfold AddGas. destruct (_ <? _); [done|]. unfold NewQRVMBlockContext, Author. cbn [CopyHeader h_Number h_BaseFee h_GasLimit h_Time h_Coinbase h_Random deref obind fst snd].
  rewrite Hb. cbn [deref obind fst snd]. rewrite Z.add_0_l, u64_small by done.
  match goal with |- context [process_txs ?e _ _ _ _ _ _ _ ?ps] =>
    pose proof (process_txs_tr e statedb (h_GasLimit header) fuel Hl (Tx.mkSigner (cfg_ChainID cfg)) n h (b_transactions block) 0 0 Ht ps) as Hp end.
  cbn [e_BaseFee] in Hp. unfold in64 in Hl.
  match type of Hp with ?A -> _ => assert (Hs : A) end.
  { split; cbn; auto; [lia|lia|]. intros _. by apply smoved_same. }
  specialize (Hp Hs). destruct (process_txs _ _ _ _ _ _ _ _ _) as [[[er|rs] ps]| |]; [done| |done|done]. cbn [obind fst snd].
  destruct Hp as [Hr [B1 B2 B3 B4 B5 B6 B7]]. pose proof (Finalize_ok (default [] (b_withdrawals block)) _ B1) as Hfin.
  destruct (Finalize _ _) as [[[] s']| |]; [|done|done]. destruct Hfin as [Hg' Hm]. cbn [obind fst snd].
  rewrite Z.add_0_l in *. split_and!; try done; try lia. intros Hn. rewrite B5, <- Z.add_opp_l. by eapply smoved_trans; [apply B7|].
Qed.

(** [C6] Processing a block ends.  An accepted block has one receipt for every
    transaction, in order, with the hash of the transaction and the bloom filter of
    its logs; no transaction uses more than its limit or less than four fifths of its
    intrinsic gas; cumulative gas is the running sum, and all of it together is the
    gas reported and within the gas limit of the block. *)
Theorem block_gas : processable ->
  match Process GetHeader cfg fuel block statedb with
  | Ret (inr (receipts, logs, usedGas), _) =>
      receipts_of 0 (b_transactions block) receipts /\ logs = concat (map r_Logs receipts) /\
      usedGas = sumz (r_GasUsed <$> receipts) /\ 0 <= usedGas <= h_GasLimit header
  | Ret (inl _, _) => True | Panic => True | OutOfFuel => False
  end.
Proof.
  intros Hp. pose proof (Process_ok Hp) as Hok. destruct (Process _ _ _ _ _) as [[[er|[[rs logs] used]] s']| |]; try done.
  destruct Hok as (? & ? & ? & ? & _). auto.
Qed.

(** [C5] An accepted block creates and destroys nothing but what the protocol says:
    the sum of all balances grows by the withdrawals and falls by the base fee of
    every unit of gas used, whatever its transactions do. *)
Theorem block_supply receipts logs usedGas s' : processable -> cfg_NoBaseFee cfg = false ->
  Process GetHeader cfg fuel block statedb = Ret (inr (receipts, logs, usedGas), s') ->
  smoved (withdrawn (default [] (b_withdrawals block)) - usedGas * baseFee) statedb s'.
Proof. intros Hp Hn Hr. pose proof (Process_ok Hp) as Hok. rewrite Hr in Hok. by apply Hok. Qed.

End Process.

(** ** A block of two transactions *)

#[local] Existing Instance toy_scheme.

(** Wallet 7 calls the contract at 101 with the given nonce. *)
Definition block_tx (nonce : Z) : Tx.Transaction :=
  let tx := Tx.mkTx (Some 5) nonce (Some 3) (Some 12) 60000 (Some 101) (Some 5) [1; 0] [(101, [0])] [0; 0; 0] [] [] [] in
  match Tx.SignTx (Tx.mkTransaction tx None None None) (Tx.mkSigner 5) 7 with Ret (inr tx) => tx | _ => Tx.mkTransaction tx None None None end.

Definition demo_cfg : Config := mkConfig 5 false false.
Definition demo_block : Block :=
  mkBlock (mkHeader 11 1000 22 33 44 emptyBloom (Some 12) 120000 0 1700000000 [] 55 (Some 7) (Some 66)) [block_tx 3; block_tx 4]
    (Some [mkWithdrawal 0 0 8 2; mkWithdrawal 1 0 9 1]).

Definition demo_process := Process (fun _ _ => None) demo_cfg demo_fuel demo_block rich_world.
Definition demo_receipts : list Receipt := match demo_process with Ret (inr (rs, _, _), _) => rs | _ => [] end.
Definition demo_logs : list Log := match demo_process with Ret (inr (_, logs, _), _) => logs | _ => [] end.
Definition demo_final : StateDB := match demo_process with Ret (_, s) => s | _ => rich_world end.

Lemma demo_processed used :
  match demo_process with Ret (inr (_, _, u), _) => Some u | _ => None end = Some used ->
  demo_process = Ret (inr (demo_receipts, demo_logs, used), demo_final).
Proof.
  unfold demo_receipts, demo_logs, demo_final. destruct demo_process as [[[er|[[rs logs] u]] s]| |]; try done. by intros [= ->].
Qed.

Lemma demo_processable : processable demo_fuel demo_block rich_world 7.
Proof.
  split; [exact rich_vm_good|exact rich_vm_idle|done|done|]. repeat constructor; vm_compute; done.
Qed.

(** The two transactions use 45326 and 25426 units. *)
Lemma block_gas_witness :
  r_GasUsed <$> demo_receipts = [45326; 25426] /\ demo_process = Ret (inr (demo_receipts, demo_logs, 70752), demo_final) /\
  receipts_of 0 [block_tx 3; block_tx 4] demo_receipts /\ 70752 <= 120000.
Proof.
  assert (Hr : demo_process = Ret (inr (demo_receipts, demo_logs, 70752), demo_final)).
  { apply demo_processed. vm_compute. reflexivity. }
  split; [vm_compute; reflexivity|]. split; [exact Hr|].
  pose proof (block_gas (fun _ _ => None) demo_cfg demo_fuel demo_block rich_world 7 demo_processable) as Hg.
  change (Process (fun _ _ => None) demo_cfg demo_fuel demo_block rich_world) with demo_process in Hg. rewrite Hr in Hg.
  destruct Hg as (H1 & _ & _ & H2). split; [exact H1|apply H2].
Defined.

(** Three Shor come in, and 70752 units are burnt at a base fee of 7. *)
Lemma block_supply_witness : smoved (3000000000 - 70752 * 7) rich_world demo_final.
Proof.
  refine (block_supply (fun _ _ => None) demo_cfg demo_fuel demo_block rich_world 7 demo_receipts demo_logs 70752 demo_final
    demo_processable eq_refl _). apply demo_processed. vm_compute. reflexivity.
Defined.
