(* ===== verification/TrieEncoding.v ===== *)
(** * Keys of the trie (trie/encoding.go)

    Keys come as bytes, as nibbles with an optional terminator, and in the compact
    form of stored nodes.  The reference functions [nibbles], [pack] and [compact]
    say what the index arithmetic of the source computes. *)

From S2P Require Import Prelude Rlp.

(** ** The source *)

Definition hasTerm (s : list Z) : bool := match s !! (length s - 1)%nat with Some x => x =? 16 | None => false end.

(** [bytes[bi] = nibbles[ni]<<4 | nibbles[ni+1]] over all pairs; the result is the
    new contents of [bytes]. *)
Fixpoint decodeNibbles (nibbles bytes : list Z) : outcome (list Z) :=
  match nibbles with
  | [] => Ret bytes
  | [_] => Panic
  | n0 :: n1 :: nibbles =>
      match bytes with
      | [] => Panic
      | _ :: bytes =>
          let! bytes := decodeNibbles nibbles bytes in
          Ret (Z.lor (byte_of (Z.shiftl n0 4)) n1 :: bytes)
      end
  end.

Definition hexToCompact (hex : list Z) : outcome (list Z) :=
  let terminator := if hasTerm hex then 1 else 0 in
  let hex := if hasTerm hex then take (length hex - 1) hex else hex in
  let buf := replicate (length hex / 2) 0 in
  let flag := Z.shiftl terminator 5 in
  if Z.land (Zlen hex) 1 =? 1 then
    let! h0 := go_index hex 0 in
    let! rest := go_slice hex 1 (Zlen hex) in
    let! tail := decodeNibbles rest buf in
    Ret (Z.lor (Z.lor flag (Z.shiftl 1 4)) h0 :: tail)
  else
    let! tail := decodeNibbles hex buf in
    Ret (flag :: tail).

(** The loop of [hexToCompactInPlace]: [hex[bi] = hex[ni]<<4 | hex[ni+1]]. *)
Fixpoint compact_loop (fuel : nat) (hexLen ni bi : Z) (hex : list Z) : outcome (list Z) :=
  match fuel with
  | O => OutOfFuel
  | S fuel =>
      if ni <? hexLen then
        let! a := go_index hex ni in
        let! b := go_index hex (ni + 1) in
        let! hex := go_set hex bi (Z.lor (byte_of (Z.shiftl a 4)) b) in
        compact_loop fuel hexLen (ni + 2) (bi + 1) hex
      else Ret hex
  end.

Definition hexToCompactInPlace (hex : list Z) : outcome (list Z) :=
  let term := (0 <? Zlen hex) && hasTerm hex in
  let hexLen := if term then Zlen hex - 1 else Zlen hex in
  let firstByte := if term then Z.shiftl 1 5 else 0 in
  let binLen := hexLen / 2 + 1 in
  let odd := Z.land hexLen 1 =? 1 in
  let! h0 := (if odd then go_index hex 0 else Ret 0) in
  let firstByte := if odd then Z.lor (Z.lor firstByte (Z.shiftl 1 4)) h0 else firstByte in
  let! hex := compact_loop (S (length hex)) hexLen (if odd then 1 else 0) 1 hex in
  let! hex := go_set hex 0 firstByte in
  go_slice hex 0 binLen.

Definition keybytesToHex (str : list Z) : list Z := flat_map (fun b => [b / 16; b mod 16]) str ++ [16].

Definition compactToHex (compact : list Z) : outcome (list Z) :=
  if Zlen compact =? 0 then Ret compact
  else
    let base := keybytesToHex compact in
    let! b0 := go_index base 0 in
    let! base := if b0 <? 2 then go_slice base 0 (Zlen base - 1) else Ret base in
    let! b0 := go_index base 0 in
    go_slice base (2 - Z.land b0 1) (Zlen base).

(** Only for keys of even length. *)
Definition hexToKeybytes (hex : list Z) : outcome (list Z) :=
  let hex := if hasTerm hex then take (length hex - 1) hex else hex in
  if negb (Z.land (Zlen hex) 1 =? 0) then Panic
  else decodeNibbles hex (replicate (length hex / 2) 0).

(** The length of the common prefix. *)
Fixpoint prefixLen (a b : list Z) : nat :=
  match a, b with
  | x :: a, y :: b => if x =? y then S (prefixLen a b) else O
  | _, _ => O
  end.

(** ** Nibbles *)

Definition is_nibble (x : Z) : Prop := 0 <= x < 16.

Definition nibbles (str : list Z) : list Z := flat_map (fun b => [b / 16; b mod 16]) str.

Fixpoint pack (ns : list Z) : list Z :=
  match ns with a :: b :: ns => (16 * a + b) :: pack ns | _ => [] end.

(** The compact form of a path, with a flag for a key that is complete. *)
Definition compact_path (term : bool) (ns : list Z) : list Z :=
  let flag := if term then 32 else 0 in
  if Nat.even (length ns) then flag :: pack ns
  else match ns with n :: ns => (flag + 16 + n) :: pack ns | [] => [] end.

Definition with_term (term : bool) (ns : list Z) : list Z := if term then ns ++ [16] else ns.

Definition compact (k : list Z) : list Z :=
  if hasTerm k then compact_path true (take (length k - 1) k) else compact_path false k.

Lemma keybytesToHex_nibbles k : keybytesToHex k = nibbles k ++ [16].
Proof. done. Qed.

Lemma nibbles_ok str : Forall is_byte str -> Forall is_nibble (nibbles str).
Proof.
  induction 1 as [|b l Hb _ IH]; [constructor|]. cbn. unfold is_byte in Hb. unfold nibbles in IH.
  repeat constructor; try done; unfold is_nibble; Z.div_mod_to_equations; lia.
Qed.

Lemma length_nibbles str : length (nibbles str) = (2 * length str)%nat.
Proof. unfold nibbles. induction str; cbn; lia. Qed.

Lemma pack_nibbles str : Forall is_byte str -> pack (nibbles str) = str.
Proof. induction 1 as [|b l Hb _ IH]; [done|]. cbn. unfold nibbles in IH. rewrite IH. f_equal. Z.div_mod_to_equations; lia. Qed.

Lemma nibbles_inj a b : Forall is_byte a -> Forall is_byte b -> nibbles a = nibbles b -> a = b.
Proof. intros Ha Hb He. rewrite <- (pack_nibbles a), <- (pack_nibbles b) by done. by rewrite He. Qed.

(** Two at a time. *)
Lemma pairs_ind {A} (P : list A -> Prop) : P [] -> (forall a, P [a]) -> (forall a b l, P l -> P (a :: b :: l)) -> forall l, P l.
Proof.
  intros H0 H1 H2 l. enough (P l /\ forall a, P (a :: l)) by tauto. induction l as [|x l [IH1 IH2]]; auto.
Qed.

Lemma lor_nibbles a b : is_nibble a -> is_nibble b -> Z.lor (byte_of (Z.shiftl a 4)) b = 16 * a + b.
Proof.
  unfold is_nibble. intros Ha Hb. unfold byte_of. rewrite Z.shiftl_mul_pow2, Z.mod_small by lia.
  assert (Hl : Z.land (a * 2 ^ 4) b = 0).
  { apply Z.bits_inj'. intros n Hn. rewrite Z.land_spec, Z.bits_0. destruct (Z.ltb_spec n 4).
    - by rewrite Z.mul_pow2_bits_low.
    - rewrite <- (Z.mod_small b (2 ^ 4)), Z.mod_pow2_bits_high by lia. apply andb_false_r. }
  rewrite <- (Z.lxor_lor _ _ Hl), <- Z.add_nocarry_lxor by done. lia.
Qed.

Lemma decodeNibbles_pack ns : forall bytes, Forall is_nibble ns -> Nat.even (length ns) = true -> length bytes = (length ns / 2)%nat ->
  decodeNibbles ns bytes = Ret (pack ns).
Proof.
  induction ns as [|a|a b ns IH] using pairs_ind; intros bytes Hn He Hl; [|done|].
  - by destruct bytes.
  - apply Forall_cons_1 in Hn as [Ha Hn]. apply Forall_cons_1 in Hn as [Hb Hn]. cbn [decodeNibbles pack].
    assert (Hd : (length (a :: b :: ns) / 2 = S (length ns / 2))%nat).
    { cbn [length]. replace (S (S (length ns))) with (length ns + 1 * 2)%nat by lia. rewrite Nat.div_add by lia. lia. }
    rewrite Hd in Hl. destruct bytes as [|x bytes]; [done|]. injection Hl as Hl.
    assert (He' : Nat.even (length ns) = true) by exact He. rewrite (IH bytes Hn He' Hl). cbn [obind]. by rewrite lor_nibbles.
Qed.

Lemma land_1_even (n : nat) : Z.land (Z.of_nat n) 1 = if Nat.even n then 0 else 1.
Proof.
  change 1 with (Z.ones 1). rewrite Z.land_ones by lia. change (2 ^ 1) with 2. rewrite Zmod_even.
  destruct (Nat.even n) eqn:He.
  - apply Nat.even_spec in He as [m ->]. rewrite Nat2Z.inj_mul. by rewrite Z.even_mul.
  - rewrite <- Nat.negb_odd in He. apply negb_false_iff, Nat.odd_spec in He as [m ->].
    rewrite Nat2Z.inj_add, Nat2Z.inj_mul, Z.even_add, Z.even_mul. done.
Qed.

(** ** Keys of nodes *)

(** A path of nibbles, complete or not. *)
Definition is_key (k : list Z) : Prop := exists term ns, k = with_term term ns /\ Forall is_nibble ns.

Lemma hasTerm_with_term term ns : Forall is_nibble ns -> hasTerm (with_term term ns) = term.
Proof.
  intros Hn. unfold hasTerm, with_term. destruct term.
  - rewrite length_app. cbn. rewrite Nat.add_sub, lookup_app_r, Nat.sub_diag by lia. done.
  - destruct (ns !! _) as [x|] eqn:Hx; [|done]. pose proof (Forall_lookup_1 _ _ _ _ Hn Hx) as Hi. unfold is_nibble in Hi. apply Z.eqb_neq. lia.
Qed.

Lemma take_with_term ns : take (length (ns ++ [16]) - 1) (ns ++ [16]) = ns.
Proof. rewrite length_app. cbn. rewrite Nat.add_sub. by apply take_app_length. Qed.

Lemma compact_with_term term ns : Forall is_nibble ns -> compact (with_term term ns) = compact_path term ns.
Proof.
  intros Hn. unfold compact. rewrite hasTerm_with_term by done. destruct term; [|done]. cbn [with_term]. by rewrite take_with_term.
Qed.

(** A test that all sixteen nibbles pass holds of every nibble. *)
Lemma nibble_cases (f : Z -> bool) : forallb f (seqZ 0 16) = true -> forall n, is_nibble n -> f n = true.
Proof. rewrite forallb_forall. intros Hf n Hn. apply Hf, list_elem_of_In, elem_of_seqZ. unfold is_nibble in Hn. lia. Qed.

Lemma flag_bits t n : is_nibble n -> Z.lor (Z.lor (Z.shiftl (if t : bool then 1 else 0) 5) (Z.shiftl 1 4)) n = (if t then 32 else 0) + 16 + n.
Proof.
  intros Hn. apply Z.eqb_eq. revert n Hn. apply nibble_cases. by destruct t.
Qed.

Lemma flag_bits' t n : is_nibble n -> Z.lor (Z.lor (if t : bool then Z.shiftl 1 5 else 0) (Z.shiftl 1 4)) n = (if t then 32 else 0) + 16 + n.
Proof. intros Hn. rewrite <- flag_bits by done. by destruct t. Qed.

Lemma even_half (l : list Z) x : Nat.even (length (x :: l)) = false -> Nat.even (length l) = true /\ (length (x :: l) / 2 = length l / 2)%nat.
Proof.
  cbn [length]. rewrite Nat.even_succ, <- Nat.negb_even. intros He. apply negb_false_iff in He. split; [done|].
  apply Nat.even_spec in He as [m ->]. rewrite (Nat.mul_comm 2 m), Nat.div_mul by done. symmetry. apply Nat.div_unique with 1%nat; lia.
Qed.

Lemma hexToCompact_compact k : is_key k -> hexToCompact k = Ret (compact k).
Proof.
  intros (t & ns & -> & Hn). rewrite compact_with_term by done. unfold hexToCompact. rewrite hasTerm_with_term by done.
  replace (if t then take (length (with_term t ns) - 1) (with_term t ns) else with_term t ns) with ns
    by (destruct t; [symmetry; apply take_with_term|done]).
  unfold Zlen at 1. rewrite land_1_even. unfold compact_path. destruct (Nat.even (length ns)) eqn:He.
  - cbn [Z.eqb]. rewrite decodeNibbles_pack by (done || by rewrite length_replicate). cbn [obind]. by destruct t.
  - cbn [Z.eqb Pos.eqb]. destruct ns as [|n ns]; [done|]. apply Forall_cons_1 in Hn as [Hn0 Hn]. apply even_half in He as [He Hd].
    rewrite go_index_0, go_slice_tail. cbn [obind]. rewrite Hd, decodeNibbles_pack by (done || by rewrite length_replicate). cbn [obind].
    by rewrite flag_bits.
Qed.

(** ** Reading compact keys *)

Lemma nibbles_pack ns : Forall is_nibble ns -> Nat.even (length ns) = true -> nibbles (pack ns) = ns.
Proof.
  induction ns as [|a|a b ns IH] using pairs_ind; intros Hn He; [done|done|].
  apply Forall_cons_1 in Hn as [Ha Hn]. apply Forall_cons_1 in Hn as [Hb Hn]. cbn [pack]. unfold nibbles in *. cbn [flat_map app].
  rewrite IH by done. unfold is_nibble in *. f_equal; [|f_equal]; Z.div_mod_to_equations; lia.
Qed.

Lemma compact_path_bytes t ns : Forall is_nibble ns -> Forall is_byte (compact_path t ns) /\ compact_path t ns <> [].
Proof.
  assert (Hp : forall ns, Forall is_nibble ns -> Forall is_byte (pack ns)).
  { clear. intros ns. induction ns as [|a|a b ns IH] using pairs_ind; intros Hn; cbn [pack]; [constructor|constructor|].
    apply Forall_cons_1 in Hn as [Ha Hn]. apply Forall_cons_1 in Hn as [Hb Hn]. constructor; [|by apply IH]. unfold is_nibble, is_byte in *. lia. }
  intros Hn. unfold compact_path. destruct (Nat.even (length ns)) eqn:He.
  - split; [|done]. constructor; [destruct t; unfold is_byte; lia|by apply Hp].
  - destruct ns as [|n ns]; [done|]. apply Forall_cons_1 in Hn as [Hn0 Hn]. split; [|done]. constructor; [|by apply Hp].
    unfold is_nibble, is_byte in *. destruct t; lia.
Qed.

Lemma go_slice_drop {A} (l1 l2 : list A) n : Zlen l1 = n -> go_slice (l1 ++ l2) n (Zlen (l1 ++ l2)) = Ret l2.
Proof.
  intros <-. pose proof (Zlen_nonneg l1). pose proof (Zlen_nonneg l2). rewrite go_slice_Ret by (rewrite ?Zlen_app; lia).
  rewrite Zlen_app. unfold Zlen. replace (Z.to_nat _) with (length l2) by lia. rewrite Nat2Z.id, drop_app_length. by rewrite firstn_all.
Qed.

Lemma go_slice_take {A} (l1 l2 : list A) n : Zlen l1 = n -> go_slice (l1 ++ l2) 0 n = Ret l1.
Proof.
  intros <-. pose proof (Zlen_nonneg l1). pose proof (Zlen_nonneg l2). rewrite go_slice_Ret by (rewrite ?Zlen_app; lia).
  rewrite Z.sub_0_r. unfold Zlen. rewrite Nat2Z.id. change (Z.to_nat 0) with 0%nat. rewrite drop_0. by rewrite take_app_length.
Qed.

(** What is in front of the path in the expanded form. *)
Lemma compact_nibbles t ns : Forall is_nibble ns ->
  exists f pre, nibbles (compact_path t ns) = (f :: pre) ++ ns /\ (f <? 2) = negb t /\ Zlen (f :: pre) = 2 - Z.land f 1.
Proof.
  intros Hn. unfold compact_path. destruct (Nat.even (length ns)) eqn:He.
  - exists (if t then 2 else 0), [0]. change (nibbles (?x :: pack ns)) with (x / 16 :: x mod 16 :: nibbles (pack ns)).
    rewrite nibbles_pack by done. by destruct t.
  - destruct ns as [|n ns]; [done|]. apply Forall_cons_1 in Hn as [Hn0 Hn]. apply even_half in He as [He _]. unfold is_nibble in Hn0.
    exists (if t then 3 else 1), []. change (nibbles (?x :: pack ns)) with (x / 16 :: x mod 16 :: nibbles (pack ns)).
    rewrite nibbles_pack by done. cbn [app].
    split_and!; [f_equal; [|f_equal]; destruct t; Z.div_mod_to_equations; lia|by destruct t..].
Qed.

Lemma compactToHex_path t ns : Forall is_nibble ns -> compactToHex (compact_path t ns) = Ret (with_term t ns).
Proof.
  intros Hn. unfold compactToHex. destruct (compact_path_bytes t ns Hn) as [_ Hne].
  destruct (Z.eqb_spec (Zlen (compact_path t ns)) 0) as [Hz|_]; [by destruct (compact_path t ns)|].
  rewrite keybytesToHex_nibbles. destruct (compact_nibbles t ns Hn) as (f & pre & -> & Hf & Hl). rewrite <- app_assoc.
  cbn [app] in *. rewrite go_index_0. cbn [obind]. rewrite Hf. destruct t; cbn [negb].
  - cbn [obind]. rewrite go_index_0. cbn [obind]. by apply (go_slice_drop (f :: pre) (ns ++ [16])).
  - replace (f :: pre ++ ns ++ [16]) with ((f :: pre ++ ns) ++ [16]) by (cbn; by rewrite app_assoc).
    rewrite go_slice_take by (rewrite (Zlen_app (f :: pre ++ ns) [16]); change (Zlen [16]) with 1; lia). cbn [obind]. rewrite go_index_0. cbn [obind].
    by apply (go_slice_drop (f :: pre) ns).
Qed.

Lemma compactToHex_compact k : is_key k -> compactToHex (compact k) = Ret k.
Proof. intros (t & ns & -> & Hn). rewrite compact_with_term by done. by apply compactToHex_path. Qed.

Lemma compact_inj k1 k2 : is_key k1 -> is_key k2 -> compact k1 = compact k2 -> k1 = k2.
Proof. intros H1 H2 He. apply compactToHex_compact in H1, H2. rewrite He in H1. congruence. Qed.

Lemma compact_bytes k : is_key k -> Forall is_byte (compact k) /\ compact k <> [].
Proof. intros (t & ns & -> & Hn). rewrite compact_with_term by done. by apply compact_path_bytes. Qed.

Lemma length_compact k : is_key k -> (length (compact k) <= S (length k))%nat.
Proof.
  assert (Hp : forall ns, (length (pack ns) <= length ns)%nat).
  { intros ns. induction ns using pairs_ind; cbn [pack length]; lia. }
  intros (t & ns & -> & Hn). rewrite compact_with_term by done. unfold compact_path. assert (length ns <= length (with_term t ns))%nat.
  { destruct t; cbn; [rewrite length_app|]; lia. }
  destruct (Nat.even (length ns)); [cbn; specialize (Hp ns); lia|]. destruct ns as [|n ns]; [cbn; lia|]. cbn in *. specialize (Hp ns). lia.
Qed.

Lemma even_SS (l : list Z) a b : Nat.even (length (a :: b :: l)) = Nat.even (length l).
Proof. done. Qed.

Lemma half_SS (l : list Z) a b : (length (a :: b :: l) / 2 = S (length l / 2))%nat.
Proof. cbn [length]. replace (S (S (length l))) with (length l + 1 * 2)%nat by lia. rewrite Nat.div_add by lia. lia. Qed.

Lemma length_pack ns : (length (pack ns) = length ns / 2)%nat.
Proof. induction ns as [|a|a b ns IH] using pairs_ind; [done|done|]. rewrite half_SS. cbn [pack length]. by rewrite IH. Qed.

(** ** Packing in place *)

Lemma go_index_app_r {A} (l1 l2 : list A) n x : Zlen l1 = n -> go_index (l1 ++ x :: l2) n = Ret x.
Proof.
  intros <-. unfold go_index, Zlen. rewrite (proj2 (Z.leb_le _ _)) by lia. rewrite Nat2Z.id, lookup_app_r, Nat.sub_diag by lia. done.
Qed.

Lemma go_set_app_r {A} (l1 l2 : list A) n x y : Zlen l1 = n -> go_set (l1 ++ x :: l2) n y = Ret (l1 ++ y :: l2).
Proof.
  intros <-. unfold go_set, Zlen. rewrite length_app. cbn [length]. rewrite (proj2 (Z.leb_le _ _)), (proj2 (Z.ltb_lt _ _)) by lia. cbn [andb].
  rewrite Nat2Z.id, insert_app_r_alt, Nat.sub_diag by lia. done.
Qed.

(** [A] is done, [G] is read but not yet overwritten, [R] is still to be read. *)
Lemma compact_loop_spec R : forall fuel A G T ni bi hexLen, Forall is_nibble R -> Nat.even (length R) = true -> (length R < fuel)%nat ->
  Zlen A = bi -> Zlen A + Zlen G = ni -> ni + Zlen R = hexLen ->
  exists X, compact_loop fuel hexLen ni bi (A ++ G ++ R ++ T) = Ret (A ++ pack R ++ X).
Proof.
  induction R as [|a|a b R IH] using pairs_ind; intros fuel A G T ni bi hexLen Hn He Hf Hb Hni Hh; [|done|];
    (destruct fuel as [|fuel]; [lia|]); cbn [compact_loop].
  - rewrite Zlen_nil in Hh. rewrite (proj2 (Z.ltb_ge _ _)) by lia. by exists (G ++ T).
  - apply Forall_cons_1 in Hn as [Ha Hn]. apply Forall_cons_1 in Hn as [Hbn Hn]. rewrite !Zlen_cons in Hh. pose proof (Zlen_nonneg R).
    rewrite (proj2 (Z.ltb_lt _ _)) by lia. cbn [app]. rewrite (app_assoc A G), go_index_app_r by (by rewrite Zlen_app). cbn [obind].
    replace ((A ++ G) ++ a :: b :: R ++ T) with (((A ++ G) ++ [a]) ++ b :: R ++ T) by (by rewrite <- !app_assoc).
    rewrite go_index_app_r by (rewrite !Zlen_app, Zlen_cons, Zlen_nil; lia). cbn [obind]. rewrite lor_nibbles by done.
    destruct (G ++ [a; b]) as [|w W] eqn:HW; [by destruct G|].
    replace (((A ++ G) ++ [a]) ++ b :: R ++ T) with (A ++ w :: W ++ R ++ T).
    2:{ rewrite <- !app_assoc. f_equal. change (w :: W ++ R ++ T) with ((w :: W) ++ R ++ T). by rewrite <- HW, <- app_assoc. }
    rewrite go_set_app_r by done. cbn [obind]. cbn [length] in Hf.
    destruct (IH fuel (A ++ [16 * a + b]) W T (ni + 2) (bi + 1) hexLen) as [X HX]; auto; try lia.
    + rewrite Zlen_app. change (Zlen [16 * a + b]) with 1. lia.
    + apply (f_equal length) in HW. rewrite length_app in HW. rewrite Zlen_app. unfold Zlen in *. cbn [length] in *. lia.
    + exists X. rewrite <- !app_assoc in HX. exact HX.
Qed.

(** The end of [hexToCompactInPlace]. *)
Lemma compact_finish (x f : Z) (p X : list Z) n : Zlen p = n ->
  (let! hex := go_set (x :: p ++ X) 0 f in go_slice hex 0 (n + 1)) = Ret (f :: p).
Proof.
  intros Hn. change (go_set (x :: p ++ X) 0 f) with (go_set ([] ++ x :: p ++ X) 0 f). rewrite go_set_app_r by done. cbn [obind app]. apply (go_slice_take (f :: p) X). rewrite Zlen_cons. lia.
Qed.

Lemma hexToCompactInPlace_compact k : is_key k -> k <> [] -> hexToCompactInPlace k = Ret (compact k).
Proof.
  intros (t & ns & -> & Hn) Hne. rewrite compact_with_term by done. unfold hexToCompactInPlace. rewrite hasTerm_with_term by done.
  assert (Hpos : (0 <? Zlen (with_term t ns)) = true).
  { apply Z.ltb_lt. destruct (with_term t ns) as [|x l]; [done|]. rewrite Zlen_cons. pose proof (Zlen_nonneg l). lia. }
  rewrite Hpos. cbn [andb]. set (T := if t then [16] else []). assert (Hk : with_term t ns = ns ++ T) by (destruct t; [done|by rewrite app_nil_r]).
  assert (Hl : (if t then Zlen (with_term t ns) - 1 else Zlen (with_term t ns)) = Z.of_nat (length ns)).
  { rewrite Hk, Zlen_app. unfold Zlen, T. destruct t; cbn; lia. }
  rewrite Hl, Hk, land_1_even. clear Hl Hk Hpos. unfold compact_path.
  assert (Hp : forall l, Z.of_nat (length l) / 2 = Zlen (pack l)) by (intros l; unfold Zlen; rewrite length_pack, Nat2Z.inj_div; done).
  destruct (Nat.even (length ns)) eqn:He; cbn [Z.eqb Pos.eqb].
  - cbn [obind]. destruct ns as [|a [|b R]]; [|done|]; [destruct t; [done|by cbn in Hne]|].
    inversion Hn as [|? ? Ha Hn1]; subst. inversion Hn1 as [|? ? Hb HR]; subst.
    assert (Hone : compact_loop (S (length ((a :: b :: R) ++ T))) (Z.of_nat (length (a :: b :: R))) 0 1 ((a :: b :: R) ++ T) =
      compact_loop (length ((a :: b :: R) ++ T)) (Z.of_nat (length (a :: b :: R))) 2 2 ([a; 16 * a + b] ++ [] ++ R ++ T)).
    { cbn [compact_loop app]. rewrite (proj2 (Z.ltb_lt _ _)) by (cbn [length]; lia). rewrite go_index_0. cbn [obind].
      change (0 + 1) with 1. pose proof (go_index_app_r [a] (R ++ T) 1 b eq_refl) as E1. pose proof (go_set_app_r [a] (R ++ T) 1 b (16 * a + b) eq_refl) as E2.
      cbn [app] in E1, E2. rewrite E1. cbn [obind]. rewrite lor_nibbles by done. by rewrite E2. }
    rewrite Hone. destruct (compact_loop_spec R (length ((a :: b :: R) ++ T)) [a; 16 * a + b] [] T 2 2 (Z.of_nat (length (a :: b :: R))))
      as [X ->]; auto; [rewrite length_app; cbn [length]; lia|unfold Zlen; cbn [length]; lia|].
    cbn [obind app]. rewrite Hp. cbn [pack]. destruct t; by apply (compact_finish a _ (_ :: pack R)).
  - destruct ns as [|n R]; [done|]. inversion Hn as [|? ? Hn0 HR]; subst. destruct (even_half R n He) as [He' Hd]. cbn [app]. rewrite go_index_0. cbn [obind].
    destruct (compact_loop_spec R (S (length (n :: R ++ T))) [n] [] T 1 1 (Z.of_nat (length (n :: R)))) as [X HX]; auto;
      [cbn [length]; rewrite length_app; lia|unfold Zlen; cbn [length]; lia|].
    cbn [app] in HX. rewrite HX. cbn [obind]. rewrite (flag_bits' t n Hn0).
    replace (Z.of_nat (length (n :: R)) / 2) with (Zlen (pack R)) by (rewrite <- Hp; change 2 with (Z.of_nat 2); rewrite <- !Nat2Z.inj_div; lia).
    by apply compact_finish.
Qed.

(** ** Keys in bytes *)

Lemma hexToKeybytes_nibbles k t : Forall is_byte k -> hexToKeybytes (with_term t (nibbles k)) = Ret k.
Proof.
  intros Hk. pose proof (nibbles_ok k Hk) as Hn. unfold hexToKeybytes. rewrite hasTerm_with_term by done.
  replace (if t then take (length (with_term t (nibbles k)) - 1) (with_term t (nibbles k)) else with_term t (nibbles k)) with (nibbles k)
    by (destruct t; [symmetry; apply take_with_term|done]).
  unfold Zlen. assert (He : Nat.even (length (nibbles k)) = true) by (rewrite length_nibbles; by apply Nat.even_spec; exists (length k)).
  rewrite land_1_even, He. cbn [Z.eqb negb]. rewrite decodeNibbles_pack by (done || by rewrite length_replicate). by rewrite pack_nibbles.
Qed.

(** ** Common prefixes *)

Lemma prefixLen_app p a b : prefixLen (p ++ a) (p ++ b) = (length p + prefixLen a b)%nat.
Proof. induction p as [|x p IH]; [done|]. cbn. by rewrite Z.eqb_refl, IH. Qed.

(** Both keys are the common prefix and what is left, which differs at once. *)
Lemma prefixLen_spec a : forall b, exists p a' b', a = p ++ a' /\ b = p ++ b' /\ prefixLen a b = length p /\
  match a', b' with x :: _, y :: _ => x <> y | _, _ => True end.
Proof.
  induction a as [|x a IH]; intros [|y b]; try (by eexists [], _, _).
  cbn. destruct (Z.eqb_spec x y) as [-> |Hne]; [|by exists [], (x :: a), (y :: b)].
  destruct (IH b) as (p & a' & b' & -> & -> & -> & Hd). by exists (y :: p), a', b'.
Qed.
