(* ===== verification/TrieTree.v ===== *)
(** * Reference tries

    The tries of trie/trie.go without hashes, caches and store: what a key is bound
    to, insertion and deletion as functions, the shape every operation keeps, and
    the proof that this shape is canonical - two tries with the same bindings are
    the same. *)

From S2P Require Import Prelude Rlp TrieEncoding.

#[warnings="-register-all"]
Inductive tree : Type :=
| TValue (v : list Z)
| TShort (k : list Z) (t : tree)
| TFull (cs : list (option tree)).

Definition is_value (t : tree) : bool := match t with TValue _ => true | _ => false end.

(** ** Operations *)

(** What is bound to a path. *)
Fixpoint tget (t : tree) (key : list Z) : option (list Z) :=
  match t with
  | TValue v => match key with [] => Some v | _ => None end
  | TShort k t => if bool_decide (take (length k) key = k) then tget t (drop (length k) key) else None
  | TFull cs =>
      match key with
      | [] => None
      | x :: key =>
          (fix pick (cs : list (option tree)) (n : nat) : option (list Z) :=
             match cs, n with
             | c :: _, O => match c with Some t => tget t key | None => None end
             | _ :: cs, S n => pick cs n
             | [], _ => None
             end) cs (Z.to_nat x)
      end
  end.

Definition oget (o : option tree) (key : list Z) : option (list Z) := match o with Some t => tget t key | None => None end.

(** A new node in front of [t], if there is a key left. *)
Definition tnew (key : list Z) (t : tree) : tree := match key with [] => t | _ => TShort key t end.

Definition no_children : list (option tree) := replicate 17 None.

(** Two paths that part at once. *)
Definition branch (x : Z) (a : tree) (y : Z) (b : tree) : tree :=
  TFull (<[Z.to_nat y := Some b]> (<[Z.to_nat x := Some a]> no_children)).

Fixpoint tinsert (t : tree) (key : list Z) (v : list Z) : tree :=
  match key with
  | [] => TValue v
  | x :: rest =>
      match t with
      | TValue _ => t
      | TShort k t' =>
          let m := prefixLen key k in
          match drop m k, drop m key with
          | [], key' => TShort k (tinsert t' key' v)
          | y :: k', x :: key' => tnew (take m key) (branch y (tnew k' t') x (tnew key' (TValue v)))
          | _, [] => t
          end
      | TFull cs =>
          TFull ((fix pick (cs : list (option tree)) (n : nat) : list (option tree) :=
             match cs, n with
             | c :: cs, O => Some (match c with Some t => tinsert t rest v | None => tnew rest (TValue v) end) :: cs
             | c :: cs, S n => c :: pick cs n
             | [], _ => []
             end) cs (Z.to_nat x))
      end
  end.

Definition oinsert (o : option tree) (key v : list Z) : tree := match o with Some t => tinsert t key v | None => tnew key (TValue v) end.

(** A short node in front of a node that may be short itself. *)
Definition tjoin (k : list Z) (t : tree) : tree := match t with TShort k' t' => TShort (k ++ k') t' | _ => TShort k t end.

(** The only child left, if there is only one. *)
Fixpoint only_child (cs : list (option tree)) (i : Z) : option (Z * tree) :=
  match cs with
  | [] => None
  | None :: cs => only_child cs (i + 1)
  | Some t :: cs => if forallb (fun c => match c with None => true | Some _ => false end) cs then Some (i, t) else None
  end.

Definition reduce (cs : list (option tree)) : tree := match only_child cs 0 with Some (i, t) => tjoin [i] t | None => TFull cs end.

Fixpoint tdelete (t : tree) (key : list Z) : option tree :=
  match t with
  | TValue _ => None
  | TShort k t' =>
      let m := prefixLen key k in
      if (m <? length k)%nat then Some t
      else if (m =? length key)%nat then None
      else match tdelete t' (drop m key) with Some t' => Some (tjoin k t') | None => None end
  | TFull cs =>
      match key with
      | [] => Some t
      | x :: key =>
          match
            (fix pick (cs : list (option tree)) (n : nat) : option (option tree) :=
               match cs, n with
               | c :: _, O => match c with Some t => Some (tdelete t key) | None => None end
               | _ :: cs, S n => pick cs n
               | [], _ => None
               end) cs (Z.to_nat x)
          with
          | None => Some t
          | Some (Some c) => Some (TFull (<[Z.to_nat x := Some c]> cs))
          | Some None => Some (reduce (<[Z.to_nat x := None]> cs))
          end
      end
  end.

Definition odelete (o : option tree) (key : list Z) : option tree := match o with Some t => tdelete t key | None => None end.

(** ** The shape *)

Definition nchildren (cs : list (option tree)) : nat := length (filter is_Some cs).

Definition valid_key (k : list Z) : Prop := exists ns, k = ns ++ [16] /\ Forall is_nibble ns.

(** Short nodes have a key, and are complete exactly over a value; full nodes have two
    children or more; values hang under terminators only. *)
Inductive twf : tree -> Prop :=
| wf_value v : v <> [] -> Forall is_byte v -> twf (TValue v)
| wf_leaf k v : valid_key k -> v <> [] -> Forall is_byte v -> twf (TShort k (TValue v))
| wf_ext k cs : k <> [] -> Forall is_nibble k -> twf (TFull cs) -> twf (TShort k (TFull cs))
| wf_full cs : length cs = 17%nat -> (2 <= nchildren cs)%nat ->
    (forall i t, cs !! i = Some (Some t) -> twf t) ->
    (forall i t, cs !! i = Some (Some t) -> is_value t = true <-> i = 16%nat) -> twf (TFull cs).

(** A trie, which may be empty. *)
Definition trie_wf (o : option tree) : Prop := match o with None => True | Some t => twf t /\ is_value t = false end.

(** ** Equations *)

Lemma tget_full cs x key : tget (TFull cs) (x :: key) = match cs !! Z.to_nat x with Some (Some t) => tget t key | _ => None end.
Proof. cbn [tget]. generalize (Z.to_nat x). induction cs as [|c cs IH]; intros [|n]; cbn; auto. Qed.

Lemma tinsert_full cs x key v : tinsert (TFull cs) (x :: key) v = TFull (alter (fun c => Some (oinsert c key v)) (Z.to_nat x) cs).
Proof.
  cbn [tinsert]. f_equal. generalize (Z.to_nat x). induction cs as [|c cs IH]; intros [|n]; [done|done|by destruct c|]. cbn. f_equal. apply IH.
Qed.

Lemma tdelete_full cs x key : tdelete (TFull cs) (x :: key) =
  match cs !! Z.to_nat x with
  | Some (Some t) => Some (match tdelete t key with Some c => TFull (<[Z.to_nat x := Some c]> cs) | None => reduce (<[Z.to_nat x := None]> cs) end)
  | _ => Some (TFull cs)
  end.
Proof.
  cbn [tdelete].
  assert (Hp : forall cs n, (fix pick (cs : list (option tree)) (n : nat) : option (option tree) :=
      match cs, n with
      | c :: _, O => match c with Some t => Some (tdelete t key) | None => None end
      | _ :: cs, S n => pick cs n
      | [], _ => None
      end) cs n = match cs !! n with Some (Some t) => Some (tdelete t key) | _ => None end).
  { clear. induction cs as [|c cs IH]; intros [|n]; cbn; auto. }
  rewrite Hp. destruct (cs !! Z.to_nat x) as [[t|]|]; [|done|done]. by destruct (tdelete t key).
Qed.

(** ** Keys *)

Lemma valid_key_cons x k : valid_key (x :: k) <-> (x = 16 /\ k = []) \/ (is_nibble x /\ valid_key k).
Proof.
  split.
  - intros (ns & He & Hn). destruct ns as [|y ns]; cbn in He; injection He as -> ->; [by left|]. right. apply Forall_cons_1 in Hn as [Hy Hn]. split; [done|by exists ns].
  - intros [[-> ->]|[Hx (ns & -> & Hn)]]; [by exists []|]. exists (x :: ns). split; [done|by constructor].
Qed.

Lemma valid_key_nil : ~ valid_key [].
Proof. intros (ns & He & _). by destruct ns. Qed.

Lemma valid_key_app ns k : Forall is_nibble ns -> valid_key (ns ++ k) <-> valid_key k.
Proof.
  intros Hn. induction Hn as [|x ns Hx _ IH]; [done|]. cbn [app]. rewrite valid_key_cons, IH. unfold is_nibble in *. split; [|auto]. intros [[-> _]|[_ ?]]; [lia|done].
Qed.

Lemma valid_key_index x k : valid_key (x :: k) -> (Z.to_nat x < 17)%nat /\ Z.of_nat (Z.to_nat x) = x.
Proof. intros Hv. apply valid_key_cons in Hv as [[-> _]|[Hx _]]; [cbn; lia|]. unfold is_nibble in Hx. lia. Qed.

(** No valid key is a proper prefix of another. *)
Lemma valid_key_prefix k r : valid_key k -> valid_key (k ++ r) -> r = [].
Proof.
  intros (ns & -> & Hn) Hv. rewrite <- app_assoc in Hv. rewrite valid_key_app in Hv by done. cbn [app] in Hv.
  apply valid_key_cons in Hv as [[_ ->]|[Hx _]]; [done|]. unfold is_nibble in Hx. lia.
Qed.

Lemma is_key_valid k : valid_key k -> is_key k.
Proof. intros (ns & -> & Hn). by exists true, ns. Qed.

Lemma is_key_nibbles k : Forall is_nibble k -> is_key k.
Proof. by exists false, k. Qed.

Lemma valid_keybytes k : Forall is_byte k -> valid_key (keybytesToHex k).
Proof. intros Hk. exists (nibbles k). split; [done|by apply nibbles_ok]. Qed.

Lemma keybytesToHex_inj a b : Forall is_byte a -> Forall is_byte b -> keybytesToHex a = keybytesToHex b -> a = b.
Proof. intros Ha Hb He. rewrite !keybytesToHex_nibbles in He. apply app_inj_2 in He as [He _]; [|done]. by apply nibbles_inj. Qed.

(** ** Lookups *)

Lemma tget_short_app k t r : tget (TShort k t) (k ++ r) = tget t r.
Proof. cbn [tget]. rewrite take_app_length, bool_decide_eq_true_2, drop_app_length by done. done. Qed.

Lemma tget_short_Some k t key v : tget (TShort k t) key = Some v -> exists r, key = k ++ r /\ tget t r = Some v.
Proof.
  cbn [tget]. case_bool_decide as Ht; [|done]. intros Hg. exists (drop (length k) key). split; [|done].
  rewrite <- Ht at 1. by rewrite take_drop.
Qed.

(** Two keys that part after a common prefix. *)
Lemma tget_short_diff p k t y key x : y <> x -> tget (TShort (p ++ y :: k) t) (p ++ x :: key) = None.
Proof.
  intros Hne. destruct (tget _ _) as [v|] eqn:Hg; [|done]. exfalso. apply tget_short_Some in Hg as (r & He & _).
  rewrite <- app_assoc in He. apply app_inv_head in He. cbn in He. congruence.
Qed.

Lemma tget_new_app k t r : tget (tnew k t) (k ++ r) = tget t r.
Proof. destruct k; [done|]. apply tget_short_app. Qed.

Lemma tget_join k t key : tget (tjoin k t) key = tget (TShort k t) key.
Proof.
  destruct t as [v|k' t|cs]; try done. cbn [tjoin]. apply option_eq. intros v. split; intros Hg.
  - apply tget_short_Some in Hg as (r & -> & Hg). rewrite <- app_assoc. by rewrite !tget_short_app.
  - apply tget_short_Some in Hg as (r & -> & Hg). apply tget_short_Some in Hg as (r' & -> & Hg). rewrite app_assoc. by rewrite tget_short_app.
Qed.

Lemma tget_short_split p q t r : tget (TShort (p ++ q) t) (p ++ r) = tget (tnew q t) r.
Proof.
  apply option_eq. intros v. split; intros Hg.
  - apply tget_short_Some in Hg as (r' & He & Hg). rewrite <- app_assoc in He. apply app_inv_head in He as ->. by rewrite tget_new_app.
  - assert (exists r', r = q ++ r' /\ tget t r' = Some v) as (r' & -> & Hr).
    { destruct q as [|y q]; [by exists r|]. by apply tget_short_Some in Hg. }
    by rewrite app_assoc, tget_short_app.
Qed.

Lemma tget_new_value r v r' : tget (tnew r (TValue v)) r' = if decide (r' = r) then Some v else None.
Proof.
  destruct (tget _ _) as [w|] eqn:Hg.
  - destruct r as [|x r]; [destruct r'; cbn in Hg; by simplify_eq|]. apply tget_short_Some in Hg as (s & -> & Hg). destruct s; [|done].
    cbn in Hg. rewrite app_nil_r, decide_True by done. done.
  - case_decide as He; [|done]. subst. rewrite <- (app_nil_r r) in Hg at 2. rewrite tget_new_app in Hg. done.
Qed.

Lemma lookup_branch y a x b (n : nat) : (Z.to_nat y < 17)%nat -> (Z.to_nat x < 17)%nat ->
  <[Z.to_nat x := Some b]> (<[Z.to_nat y := Some a]> no_children) !! n =
    if decide (n = Z.to_nat x) then Some (Some b) else if decide (n = Z.to_nat y) then Some (Some a) else no_children !! n.
Proof.
  intros Hy Hx. rewrite list_lookup_insert. rewrite length_insert. change (length no_children) with 17%nat. case_decide as H1.
  - destruct H1 as [-> _]. by rewrite decide_True.
  - rewrite decide_False by (intros ->; by apply H1). rewrite list_lookup_insert. change (length no_children) with 17%nat. case_decide as H2.
    + destruct H2 as [-> _]. by rewrite decide_True.
    + by rewrite decide_False by (intros ->; by apply H2).
Qed.

Lemma no_children_None n : no_children !! n = Some None \/ no_children !! n = None.
Proof. unfold no_children. destruct (replicate 17 None !! n) eqn:Hl; [|by right]. apply lookup_replicate in Hl as [-> _]. by left. Qed.

(** Where a path is split in two. *)
Lemma split_get p y k t x r v key' : y <> x -> valid_key (y :: k) \/ is_nibble y -> valid_key (x :: r) -> valid_key key' -> Forall is_nibble p ->
  tget (tnew p (branch y (tnew k t) x (tnew r (TValue v)))) key' =
    if decide (key' = p ++ x :: r) then Some v else tget (TShort (p ++ y :: k) t) key'.
Proof.
  intros Hne Hy Hx Hk' Hp.
  assert (Hyi : (Z.to_nat y < 17)%nat /\ Z.of_nat (Z.to_nat y) = y).
  { destruct Hy as [Hy|Hy]; [by eapply valid_key_index|]. unfold is_nibble in Hy. lia. }
  pose proof (valid_key_index _ _ Hx) as Hxi.
  destruct (decide (p `prefix_of` key')) as [[s ->]|Hno].
  - rewrite tget_new_app, tget_short_split. rewrite valid_key_app in Hk' by done. destruct s as [|z s]; [by apply valid_key_nil in Hk'|].
    pose proof (valid_key_index _ _ Hk') as Hzi. unfold branch. rewrite tget_full, lookup_branch by lia. cbn [tnew].
    case_decide as H1; [assert (z = x) as -> by lia|].
    + rewrite tget_new_value. destruct (decide (s = r)) as [-> |Hs]; [by rewrite decide_True|].
      rewrite decide_False by (intros He; apply app_inv_head in He; congruence). symmetry. by apply (tget_short_diff [] k t y s x).
    + rewrite (decide_False (P := p ++ z :: s = p ++ x :: r)) by (intros He; apply app_inv_head in He; congruence). case_decide as H2; [assert (z = y) as -> by lia|].
      * symmetry. apply (tget_short_split [y] k t s).
      * destruct (no_children_None (Z.to_nat z)) as [-> | ->]; symmetry; apply (tget_short_diff [] k t y s z); congruence.
  - rewrite decide_False by (intros ->; apply Hno; by eexists).
    assert (Hn : forall u, tget (TShort (p ++ u) t) key' = None).
    { intros u. destruct (tget _ _) eqn:Hg; [|done]. apply tget_short_Some in Hg as (r' & -> & _). exfalso. apply Hno. rewrite <- app_assoc. by eexists. }
    rewrite Hn. destruct (tget _ _) eqn:Hg; [|done]. exfalso. apply Hno. destruct p; [by exists key'|]. apply tget_short_Some in Hg as (s & -> & _). by eexists.
Qed.

(** ** Insertion *)

Definition fits (t : tree) (key : list Z) : Prop := if is_value t then key = [] else valid_key key.

Lemma wf_short_key k t : twf (TShort k t) -> k <> [] /\ is_key k.
Proof.
  inversion 1; subst; [split; [|by apply is_key_valid]|by split; [|apply is_key_nibbles]]. intros ->. by apply (valid_key_nil).
Qed.

(** How a key can meet the key of a short node. *)
Lemma key_meets k t key : twf (TShort k t) -> valid_key key ->
  (exists r, key = k ++ r /\ fits t r /\ prefixLen key k = length k /\ drop (length k) key = r) \/
  (exists p y k' x r, k = p ++ y :: k' /\ key = p ++ x :: r /\ y <> x /\ Forall is_nibble p /\ prefixLen key k = length p /\
     (valid_key (y :: k') \/ is_nibble y) /\ valid_key (x :: r)).
Proof.
  intros Hwf Hv. destruct (prefixLen_spec key k) as (p & a & b & Ha & Hb & Hl & Hd).
  assert (Hnib : forall y b', b = y :: b' -> Forall is_nibble p /\ (valid_key b \/ is_nibble y)).
  { intros y b' ->. subst k. inversion Hwf as [| ? ? Hk _ | ? ? _ Hk _ |]; subst.
    - destruct Hk as (ns & He & Hn). assert (Hp : exists q, ns = p ++ q).
      { apply app_eq_inv in He as [(q & -> & Hq)|(q & -> & _)]; [|by exists q]. exists []. destruct q as [|z q]; [by rewrite !app_nil_r|]. by destruct q. }
      destruct Hp as [q ->]. apply Forall_app in Hn as [Hp Hq]. split; [done|]. left. rewrite <- app_assoc in He. apply app_inv_head in He. exists q. done.
    - apply Forall_app in Hk as [Hp Hq]. split; [done|]. right. by apply Forall_cons_1 in Hq as [? _]. }
  destruct b as [|y b].
  - left. rewrite app_nil_r in Hb. subst p. exists a. split_and!; [done| |done|by rewrite Ha, drop_app_length].
    unfold fits. inversion Hwf as [| ? ? Hk _ | ? ? _ Hk _ |]; subst; cbn; [by apply (valid_key_prefix k)|]. by rewrite valid_key_app in Hv.
  - right. destruct (Hnib y b eq_refl) as [Hp Hy]. rewrite Ha, valid_key_app in Hv by done. destruct a as [|x a]; [by apply valid_key_nil in Hv|].
    exists p, y, b, x, a. split_and!; auto.
Qed.

Lemma tinsert_short_deeper k t r v : k <> [] -> tinsert (TShort k t) (k ++ r) v = TShort k (tinsert t r v).
Proof.
  intros Hk. assert (Hl : prefixLen (k ++ r) k = length k).
  { rewrite <- (app_nil_r k) at 2. rewrite prefixLen_app. destruct r; cbn; lia. }
  destruct k as [|x k]; [done|]. cbn [app tinsert] in *. rewrite Hl, drop_all. cbn [length drop]. by rewrite drop_app_length.
Qed.

Lemma tinsert_short_split p y k t x r v : y <> x ->
  tinsert (TShort (p ++ y :: k) t) (p ++ x :: r) v = tnew p (branch y (tnew k t) x (tnew r (TValue v))).
Proof.
  intros Hne. assert (Hl : prefixLen (p ++ x :: r) (p ++ y :: k) = length p).
  { rewrite prefixLen_app. cbn. rewrite (proj2 (Z.eqb_neq x y)) by done. lia. }
  destruct (p ++ x :: r) as [|z rest] eqn:He; [by destruct p|]. cbn [tinsert]. rewrite Hl, <- He, !drop_app_length. by rewrite take_app_length.
Qed.

Lemma fits_child (cs : list (option tree)) x r t : (forall i t, cs !! i = Some (Some t) -> is_value t = true <-> i = 16%nat) ->
  cs !! Z.to_nat x = Some (Some t) -> valid_key (x :: r) -> fits t r.
Proof.
  intros Hval Hc Hk. unfold fits. pose proof (Hval _ _ Hc) as Hiv. apply valid_key_cons in Hk as [[-> ->]|[Hx Hr]].
  - by rewrite (proj2 Hiv).
  - destruct (is_value t); [|done]. assert (Z.to_nat x = 16%nat) by (by apply Hiv). unfold is_nibble in Hx. lia.
Qed.

(** A key under a short node. *)
Lemma fits_deeper k t r : twf (TShort k t) -> valid_key (k ++ r) -> fits t r.
Proof.
  intros Hwf Hv. destruct (key_meets k t (k ++ r) Hwf Hv) as [(r2 & He & Hr2 & _)|(p & y & k2 & x & r2 & He1 & He2 & Hd & _)].
  - by apply app_inv_head in He as ->.
  - exfalso. rewrite He1, <- app_assoc in He2. apply app_inv_head in He2. cbn in He2. congruence.
Qed.

Lemma tget_short_cases k t t' key' r (b : option (list Z)) :
  (forall r', key' = k ++ r' -> tget t' r' = if decide (r' = r) then b else tget t r') ->
  tget (TShort k t') key' = if decide (key' = k ++ r) then b else tget (TShort k t) key'.
Proof.
  intros Hd. destruct (decide (k `prefix_of` key')) as [[r' ->]|Hno].
  - rewrite !tget_short_app, (Hd r' eq_refl). destruct (decide (r' = r)) as [-> |]; [by rewrite decide_True|].
    rewrite decide_False; [done|]. intros He. by apply app_inv_head in He.
  - rewrite decide_False by (intros ->; apply Hno; by eexists). cbn [tget]. rewrite !bool_decide_eq_false_2; [done|..];
      intros He; apply Hno; exists (drop (length k) key'); rewrite <- He at 1; by rewrite take_drop.
Qed.

Lemma tinsert_get t : twf t -> forall key v key', fits t key -> fits t key' ->
  tget (tinsert t key v) key' = if decide (key' = key) then Some v else tget t key'.
Proof.
  assert (Hshort : forall k t, twf (TShort k t) -> (forall key v key', fits t key -> fits t key' ->
      tget (tinsert t key v) key' = if decide (key' = key) then Some v else tget t key') ->
    forall key v key', valid_key key -> valid_key key' -> tget (tinsert (TShort k t) key v) key' = if decide (key' = key) then Some v else tget (TShort k t) key').
  { intros k u Hwf IH key v key' Hk Hk'. destruct (wf_short_key k u Hwf) as [Hne _]. destruct (key_meets k u key Hwf Hk) as [(r & -> & Hr & _)|(p & y & k2 & x & r & -> & -> & Hd & Hp & _ & Hy & Hx)].
    - rewrite tinsert_short_deeper by done. apply tget_short_cases. intros r' ->. apply IH; [done|by eapply fits_deeper]. 
    - rewrite tinsert_short_split by done. by apply split_get. }
  induction 1 as [v0 Hv Hb|k v0 Hk Hv Hb|k cs Hk Hn Hwf IH|cs Hlen Hn Hwf IH Hval]; intros key v key'; unfold fits; cbn [is_value].
  - by intros -> ->.
  - apply Hshort; [by constructor|]. unfold fits. cbn. by intros ? ? ? -> ->.
  - apply Hshort; [by constructor|done].
  - intros Hk Hk'. destruct key as [|x r]; [by apply valid_key_nil in Hk|]. destruct key' as [|x' r']; [by apply valid_key_nil in Hk'|].
    pose proof (valid_key_index _ _ Hk) as Hx. pose proof (valid_key_index _ _ Hk') as Hx'. rewrite tinsert_full, !tget_full.
    destruct (decide (x' = x)) as [-> |Hne].
    2:{ rewrite list_lookup_alter_ne by lia. rewrite decide_False by congruence. done. }
    rewrite list_lookup_alter_eq. destruct (lookup_lt_is_Some_2 cs (Z.to_nat x)) as [c Hc]; [lia|]. rewrite Hc. cbn [fmap option_fmap option_map].
    assert (Hd : forall (a b : option (list Z)), (if decide (x :: r' = x :: r) then a else b) = if decide (r' = r) then a else b).
    { intros a b. destruct (decide (r' = r)) as [-> |]; [by rewrite decide_True|]. rewrite decide_False by congruence. done. }
    rewrite Hd. destruct c as [t|]; cbn [oinsert]; [|apply tget_new_value].
    apply (IH _ _ Hc); by eapply fits_child.
Qed.

(** ** Counting children *)

Definition one_if (c : option tree) : nat := match c with Some _ => 1 | None => 0 end.

Lemma nchildren_cons c cs : nchildren (c :: cs) = (one_if c + nchildren cs)%nat.
Proof. unfold nchildren. destruct c; [by rewrite filter_cons_True by done|]. by rewrite filter_cons_False by (by intros [? ?]). Qed.

Lemma nchildren_insert cs i c c' : cs !! i = Some c -> (nchildren (<[i := c']> cs) + one_if c = nchildren cs + one_if c')%nat.
Proof.
  revert i. induction cs as [|d cs IH]; intros [|i] Hi; cbn in Hi; try done.
  - injection Hi as ->. change (<[0%nat := c']> (c :: cs)) with (c' :: cs). rewrite !nchildren_cons. lia.
  - change (<[S i := c']> (d :: cs)) with (d :: <[i := c']> cs). rewrite !nchildren_cons. specialize (IH i Hi). lia.
Qed.

Lemma alter_insert (f : option tree -> option tree) (cs : list (option tree)) i c : cs !! i = Some c -> alter f i cs = <[i := f c]> cs.
Proof. revert i. induction cs as [|d cs IH]; intros [|i] Hi; cbn in Hi; try done; [by injection Hi as ->|]. cbn. f_equal. by apply IH. Qed.

(** A child replaced by another one that belongs there. *)
Definition belongs (i : nat) (c : option tree) : Prop := match c with None => True | Some t => twf t /\ (is_value t = true <-> i = 16%nat) end.

Lemma wf_full_iff cs : twf (TFull cs) <-> length cs = 17%nat /\ (2 <= nchildren cs)%nat /\ forall i c, cs !! i = Some c -> belongs i c.
Proof.
  split.
  - inversion 1 as [| | |? Hl Hn Hw Hv]; subst. split_and!; [done|done|]. intros i [t|] Hi; [|done]. split; [by eapply Hw|by apply Hv].
  - intros (Hl & Hn & Hb). constructor; [done|done|..]; intros i t Hi; by apply (Hb _ _ Hi).
Qed.

Lemma wf_full_insert cs i c c' : twf (TFull cs) -> cs !! i = Some c -> belongs i c' -> (one_if c <= one_if c')%nat -> twf (TFull (<[i := c']> cs)).
Proof.
  rewrite !wf_full_iff. intros (Hl & Hn & Hb) Hc Hc' Hle. pose proof (nchildren_insert cs i c c' Hc). split_and!.
  - by rewrite length_insert.
  - lia.
  - intros j d. rewrite list_lookup_insert. case_decide as Hd; [destruct Hd as [-> _]; by intros [= <-]|apply Hb].
Qed.

(** ** Insertion keeps the shape *)

Lemma new_value_belongs x r v : valid_key (x :: r) -> v <> [] -> Forall is_byte v -> belongs (Z.to_nat x) (Some (tnew r (TValue v))).
Proof.
  intros Hk Hv Hb. cbn [belongs]. apply valid_key_cons in Hk as [[-> ->]|[Hx Hr]]; [split; [by constructor|done]|].
  destruct r as [|y r]; [by apply valid_key_nil in Hr|]. split; [by constructor|]. unfold is_nibble in Hx. split; [done|lia].
Qed.

Lemma short_tail_belongs p y k t : twf (TShort (p ++ y :: k) t) -> Forall is_nibble p -> belongs (Z.to_nat y) (Some (tnew k t)).
Proof.
  intros Hwf Hp. cbn [belongs]. inversion Hwf as [|? v Hk Hv Hb|? cs _ Hk Hcs|]; subst.
  - rewrite valid_key_app in Hk by done. by apply (new_value_belongs y k v).
  - apply Forall_app in Hk as [_ Hk]. apply Forall_cons_1 in Hk as [Hy Hk]. unfold is_nibble in Hy.
    destruct k; cbn [tnew]; (split; [|split; [done|lia]]); [done|]. by constructor.
Qed.

Lemma branch_wf y a x b : (Z.to_nat y < 17)%nat -> (Z.to_nat x < 17)%nat -> Z.to_nat y <> Z.to_nat x ->
  belongs (Z.to_nat y) (Some a) -> belongs (Z.to_nat x) (Some b) -> twf (branch y a x b).
Proof.
  intros Hy Hx Hne Ha Hb. unfold branch. rewrite wf_full_iff. split_and!.
  - by rewrite !length_insert.
  - assert (H1 : no_children !! Z.to_nat y = Some None) by (apply lookup_replicate; split; [done|lia]).
    assert (H2 : <[Z.to_nat y := Some a]> no_children !! Z.to_nat x = Some None).
    { rewrite list_lookup_insert_ne by done. apply lookup_replicate. split; [done|lia]. }
    pose proof (nchildren_insert _ _ _ (Some a) H1). pose proof (nchildren_insert _ _ _ (Some b) H2). cbn [one_if] in *. lia.
  - intros i c. rewrite lookup_branch by done. case_decide as H1; [subst; by intros [= <-]|]. case_decide as H2; [subst; by intros [= <-]|].
    intros Hc. destruct (no_children_None i) as [Hi|Hi]; rewrite Hi in Hc; [|done]. by injection Hc as <-.
Qed.

Lemma new_full_wf p y a x b : Forall is_nibble p -> twf (branch y a x b) -> twf (tnew p (branch y a x b)) /\ is_value (tnew p (branch y a x b)) = false.
Proof. intros Hp Hw. destruct p; [done|]. split; [|done]. by constructor. Qed.

Lemma tinsert_wf t : twf t -> forall key v, fits t key -> v <> [] -> Forall is_byte v ->
  twf (tinsert t key v) /\ is_value (tinsert t key v) = is_value t.
Proof.
  assert (Hsplit : forall p y k t x r v, twf (TShort (p ++ y :: k) t) -> y <> x -> Forall is_nibble p -> valid_key (y :: k) \/ is_nibble y ->
    valid_key (x :: r) -> v <> [] -> Forall is_byte v ->
    twf (tnew p (branch y (tnew k t) x (tnew r (TValue v)))) /\ is_value (tnew p (branch y (tnew k t) x (tnew r (TValue v)))) = false).
  { intros p y k u x r v Hwf Hd Hp Hy Hx Hv Hb. pose proof (valid_key_index _ _ Hx).
    assert (Hyi : (Z.to_nat y < 17)%nat /\ Z.of_nat (Z.to_nat y) = y).
    { destruct Hy as [Hy|Hy]; [by eapply valid_key_index|]. unfold is_nibble in Hy. lia. }
    apply new_full_wf; [done|]. apply branch_wf; [lia|lia|lia|by eapply short_tail_belongs|by apply new_value_belongs]. }
  induction 1 as [v0 Hv0 Hb0|k v0 Hk Hv0 Hb0|k cs Hk Hn Hwf IH|cs Hlen Hn Hwf IH Hval]; intros key v Hf Hv Hb; unfold fits in Hf; cbn [is_value] in Hf.
  - subst key. split; [by constructor|done].
  - assert (Hw : twf (TShort k (TValue v0))) by (by constructor).
    destruct (key_meets _ _ key Hw Hf) as [(r & -> & Hr & _)|(p & y & k2 & x & r & -> & -> & Hd & Hp & _ & Hy & Hx)].
    + rewrite tinsert_short_deeper by (by apply wf_short_key in Hw as [? _]). unfold fits in Hr. cbn in Hr. subst r. split; [by constructor|done].
    + rewrite tinsert_short_split by done. by apply Hsplit.
  - assert (Hw : twf (TShort k (TFull cs))) by (by constructor).
    destruct (key_meets _ _ key Hw Hf) as [(r & -> & Hr & _)|(p & y & k2 & x & r & -> & -> & Hd & Hp & _ & Hy & Hx)].
    + rewrite tinsert_short_deeper by done. destruct (IH r v Hr Hv Hb) as [Hi _]. unfold fits in Hr. cbn in Hr.
      destruct r as [|x r]; [by apply valid_key_nil in Hr|]. rewrite tinsert_full in *. split; [by constructor|done].
    + rewrite tinsert_short_split by done. by apply Hsplit.
  - destruct key as [|x r]; [by apply valid_key_nil in Hf|]. pose proof (valid_key_index _ _ Hf) as Hx. rewrite tinsert_full. split; [|done].
    destruct (lookup_lt_is_Some_2 cs (Z.to_nat x)) as [c Hc]; [lia|]. rewrite (alter_insert _ cs _ c) by done.
    apply (wf_full_insert cs _ c); [by constructor|done| |destruct c; cbn; lia].
    destruct c as [t|]; cbn [oinsert]; [|by apply new_value_belongs]. pose proof (fits_child _ _ _ _ Hval Hc Hf) as Hft.
    destruct (IH _ _ Hc r v Hft Hv Hb) as [Hw He]. cbn [belongs]. split; [done|]. rewrite He. by apply Hval.
Qed.

(** ** Deletion *)

Lemma none_left cs : forallb (fun c : option tree => match c with None => true | Some _ => false end) cs = true <-> nchildren cs = 0%nat.
Proof.
  induction cs as [|c cs IH]; [done|]. rewrite nchildren_cons. cbn [forallb]. destruct c; cbn [one_if andb]; [split; [done|lia]|]. by rewrite IH.
Qed.

Lemma nchildren_0 cs n t : nchildren cs = 0%nat -> cs !! n <> Some (Some t).
Proof.
  revert n. induction cs as [|c cs IH]; intros n H0 Hn; [done|]. rewrite nchildren_cons in H0. destruct n as [|n]; cbn in Hn.
  - injection Hn as ->. cbn in H0. lia.
  - apply (IH n); [lia|done].
Qed.

Lemma only_child_spec cs : forall i0,
  match only_child cs i0 with
  | Some (i, t) => exists n, i = i0 + Z.of_nat n /\ cs !! n = Some (Some t) /\ forall m u, cs !! m = Some (Some u) -> m = n
  | None => nchildren cs <> 1%nat
  end.
Proof.
  induction cs as [|[t|] cs IH]; intros i0; cbn [only_child]; [done| |].
  - destruct (forallb _ cs) eqn:Hf.
    + apply none_left in Hf. exists 0%nat. split_and!; [lia|done|]. intros [|m] u Hm; [done|]. by destruct (nchildren_0 cs m u Hf).
    + rewrite nchildren_cons. cbn [one_if]. intros H1. assert (H0 : nchildren cs = 0%nat) by lia. apply none_left in H0. congruence.
  - specialize (IH (i0 + 1)). destruct (only_child cs (i0 + 1)) as [[i t]|].
    + destruct IH as (n & -> & Hn & Hu). exists (S n). split_and!; [lia|done|]. intros [|m] u Hm; [done|]. f_equal. by eapply Hu.
    + by rewrite nchildren_cons.
Qed.

Lemma reduce_get cs key : length cs = 17%nat -> valid_key key -> tget (reduce cs) key = tget (TFull cs) key.
Proof.
  intros Hl Hk. unfold reduce. pose proof (only_child_spec cs 0) as Ho. destruct (only_child cs 0) as [[i t]|]; [|done].
  destruct Ho as (n & -> & Hn & Hu). rewrite tget_join. destruct key as [|x r]; [by apply valid_key_nil in Hk|].
  pose proof (valid_key_index _ _ Hk) as Hx. rewrite tget_full. destruct (decide (x = 0 + Z.of_nat n)) as [-> |Hne].
  - etransitivity; [apply (tget_short_app [_] t r)|]. replace (Z.to_nat (0 + Z.of_nat n)) with n by lia. by rewrite Hn.
  - etransitivity; [by apply (tget_short_diff [] [] t (0 + Z.of_nat n) r x), not_eq_sym|]. destruct (cs !! Z.to_nat x) as [[u|]|] eqn:Hc; [|done|done].
    apply Hu in Hc. lia.
Qed.

Lemma tjoin_wf k t : k <> [] -> Forall is_nibble k -> twf t -> is_value t = false -> twf (tjoin k t) /\ is_value (tjoin k t) = false.
Proof.
  intros Hk Hn Hw Hv. inversion Hw as [| ? ? Hk' | ? ? ? Hk' |]; subst; try done; cbn [tjoin]; (split; [|done]).
  - constructor; [by apply valid_key_app|done|done].
  - constructor; [by destruct k|by apply Forall_app|done].
  - by constructor.
Qed.

Lemma reduce_wf cs : length cs = 17%nat -> (1 <= nchildren cs)%nat -> (forall i c, cs !! i = Some c -> belongs i c) ->
  twf (reduce cs) /\ is_value (reduce cs) = false.
Proof.
  intros Hl Hn Hb. unfold reduce. pose proof (only_child_spec cs 0) as Ho. destruct (only_child cs 0) as [[i t]|].
  - destruct Ho as (n & -> & Hc & _). rewrite Z.add_0_l. pose proof (lookup_lt_Some _ _ _ Hc) as Hlt. destruct (Hb _ _ Hc) as [Hw Hv].
    destruct (is_value t) eqn:Hi.
    + assert (n = 16%nat) as -> by (by apply Hv). destruct t; try done. inversion Hw; subst. split; [|done]. constructor; [by exists []|done|done].
    + apply tjoin_wf; try done. constructor; [|constructor]. assert (n <> 16%nat) by (intros ->; by pose proof (proj2 Hv eq_refl)). unfold is_nibble. lia.
  - split; [|done]. rewrite wf_full_iff. split_and!; [done|lia|done].
Qed.

Lemma tdelete_full_Some cs key : valid_key key -> exists t, tdelete (TFull cs) key = Some t.
Proof. intros Hk. destruct key as [|x r]; [by apply valid_key_nil in Hk|]. rewrite tdelete_full. destruct (cs !! Z.to_nat x) as [[t|]|]; eauto. Qed.

Lemma tdelete_short_deeper k t r : r <> [] -> tdelete (TShort k t) (k ++ r) = match tdelete t r with Some t => Some (tjoin k t) | None => None end.
Proof.
  intros Hr. cbn [tdelete]. assert (Hl : prefixLen (k ++ r) k = length k).
  { rewrite <- (app_nil_r k) at 2. rewrite prefixLen_app. destruct r; cbn; lia. }
  rewrite Hl, Nat.ltb_irrefl, drop_app_length. rewrite (proj2 (Nat.eqb_neq _ _)); [done|]. rewrite length_app. destruct r; [done|]. cbn. lia.
Qed.

Lemma tdelete_short_whole k t : tdelete (TShort k t) k = None.
Proof.
  cbn [tdelete]. assert (Hl : prefixLen k k = length k) by (rewrite <- (app_nil_r k) at 1 2; rewrite prefixLen_app; cbn; lia).
  by rewrite Hl, Nat.ltb_irrefl, Nat.eqb_refl.
Qed.

Lemma tdelete_short_split p y k t x r : y <> x -> tdelete (TShort (p ++ y :: k) t) (p ++ x :: r) = Some (TShort (p ++ y :: k) t).
Proof.
  intros Hne. cbn [tdelete]. rewrite prefixLen_app. cbn [prefixLen]. rewrite (proj2 (Z.eqb_neq x y)) by done.
  rewrite (proj2 (Nat.ltb_lt _ _)); [done|]. rewrite length_app. cbn. lia.
Qed.

Lemma tdelete_get t : twf t -> forall key key', fits t key -> fits t key' ->
  oget (tdelete t key) key' = if decide (key' = key) then None else tget t key'.
Proof.
  assert (Hsplit : forall p y k u x r key', y <> x ->
    tget (TShort (p ++ y :: k) u) key' = if decide (key' = p ++ x :: r) then None else tget (TShort (p ++ y :: k) u) key').
  { intros p y k u x r key' Hne. case_decide; [subst; by apply tget_short_diff|done]. }
  induction 1 as [v0 Hv Hb|k v0 Hk Hv Hb|k cs Hk Hn Hwf IH|cs Hlen Hn Hwf IH Hval]; intros key key' Hf Hf'; unfold fits in Hf, Hf'; cbn [is_value] in Hf, Hf'.
  - by subst.
  - assert (Hw : twf (TShort k (TValue v0))) by (by constructor).
    destruct (key_meets _ _ key Hw Hf) as [(r & -> & Hr & _)|(p & y & k2 & x & r & -> & -> & Hd & _)].
    + unfold fits in Hr. cbn in Hr. subst r. rewrite app_nil_r, tdelete_short_whole. cbn [oget]. case_decide as He; [done|].
      destruct (tget _ key') eqn:Hg; [|done]. apply tget_short_Some in Hg as (r & -> & Hg). destruct r; [|done]. by rewrite app_nil_r in He.
    + rewrite tdelete_short_split by done. cbn [oget]. by apply Hsplit.
  - assert (Hw : twf (TShort k (TFull cs))) by (by constructor).
    destruct (key_meets _ _ key Hw Hf) as [(r & -> & Hr & _)|(p & y & k2 & x & r & -> & -> & Hd & _)].
    + rewrite tdelete_short_deeper by (intros ->; by apply valid_key_nil in Hr). destruct (tdelete_full_Some cs r Hr) as [t' Ht].
      rewrite Ht. cbn [oget]. rewrite tget_join. apply tget_short_cases. intros r' ->. specialize (IH r r' Hr). rewrite Ht in IH.
      apply IH. by eapply fits_deeper.
    + rewrite tdelete_short_split by done. cbn [oget]. by apply Hsplit.
  - destruct key as [|x r]; [by apply valid_key_nil in Hf|]. destruct key' as [|x' r']; [by apply valid_key_nil in Hf'|].
    pose proof (valid_key_index _ _ Hf) as Hx. pose proof (valid_key_index _ _ Hf') as Hx'. rewrite tdelete_full.
    assert (Hins : forall c, tget (TFull (<[Z.to_nat x := c]> cs)) (x' :: r') = if decide (x' = x) then oget c r' else tget (TFull cs) (x' :: r')).
    { intros c. rewrite !tget_full. case_decide as He; [subst x'; by rewrite list_lookup_insert_eq by lia|]. by rewrite list_lookup_insert_ne by lia. }
    assert (Hsame : forall (b : option (list Z)), (if decide (x' :: r' = x :: r) then None else b) = if decide (x' = x) then (if decide (r' = r) then None else b) else b).
    { intros b. destruct (decide (x' = x)) as [-> |]; [|rewrite decide_False by congruence; done].
      destruct (decide (r' = r)) as [-> |]; [by rewrite decide_True|rewrite decide_False by congruence; done]. }
    rewrite Hsame. destruct (cs !! Z.to_nat x) as [[t|]|] eqn:Hc; cbn [oget].
    + pose proof (fits_child _ _ _ _ Hval Hc Hf) as Hft.
      assert (Hr' : x' = x -> oget (tdelete t r) r' = if decide (r' = r) then None else tget (TFull cs) (x' :: r')).
      { intros ->. rewrite tget_full, Hc. apply (IH _ _ Hc); [done|by eapply fits_child]. }
      destruct (tdelete t r) as [c|]; rewrite ?reduce_get by (by rewrite ?length_insert); rewrite Hins; destruct (decide (x' = x)) as [He|]; auto.
    + destruct (decide (x' = x)) as [-> |]; [|done]. rewrite tget_full, Hc. by case_decide.
    + destruct (decide (x' = x)) as [-> |]; [|done]. rewrite tget_full, Hc. by case_decide.
Qed.

Lemma tdelete_wf t : twf t -> forall key, fits t key -> trie_wf (tdelete t key).
Proof.
  induction 1 as [v0 Hv Hb|k v0 Hk Hv Hb|k cs Hk Hn Hwf IH|cs Hlen Hn Hwf IH Hval]; intros key Hf; unfold fits in Hf; cbn [is_value] in Hf.
  - done.
  - assert (Hw : twf (TShort k (TValue v0))) by (by constructor).
    destruct (key_meets _ _ key Hw Hf) as [(r & -> & Hr & _)|(p & y & k2 & x & r & -> & -> & Hd & _)].
    + unfold fits in Hr. cbn in Hr. subst r. by rewrite app_nil_r, tdelete_short_whole.
    + by rewrite tdelete_short_split by done.
  - assert (Hw : twf (TShort k (TFull cs))) by (by constructor).
    destruct (key_meets _ _ key Hw Hf) as [(r & -> & Hr & _)|(p & y & k2 & x & r & -> & -> & Hd & _)].
    + rewrite tdelete_short_deeper by (intros ->; by apply valid_key_nil in Hr). destruct (tdelete_full_Some cs r Hr) as [t' Ht].
      specialize (IH r Hr). rewrite Ht in *. destruct IH. by apply tjoin_wf.
    + by rewrite tdelete_short_split by done.
  - destruct key as [|x r]; [by apply valid_key_nil in Hf|]. rewrite tdelete_full.
    assert (Hw : twf (TFull cs)) by (by constructor). destruct (cs !! Z.to_nat x) as [[t|]|] eqn:Hc; [|done|done].
    pose proof (fits_child _ _ _ _ Hval Hc Hf) as Hft. specialize (IH _ _ Hc r Hft). destruct (tdelete t r) as [c|] eqn:Hd.
    + split; [|done]. destruct IH as [Hcw Hcv]. apply (wf_full_insert cs _ (Some t)); [done|done| |done]. cbn. split; [done|].
      rewrite Hcv. pose proof (Hval _ _ Hc) as Hi. destruct (is_value t) eqn:Hvt; [|by rewrite <- Hi]. destruct t; try done. 
    + apply reduce_wf; [by rewrite length_insert|..].
      * pose proof (nchildren_insert cs _ _ None Hc) as Hnc. cbn [one_if] in Hnc. lia.
      * intros i c. rewrite list_lookup_insert. case_decide as Hi; [by intros [= <-]|]. apply wf_full_iff in Hw as (_ & _ & Hb). apply Hb.
Qed.

(** ** The shape is canonical *)

Lemma nchildren_pos cs : (1 <= nchildren cs)%nat -> exists i t, cs !! i = Some (Some t).
Proof.
  induction cs as [|[t|] cs IH]; rewrite ?nchildren_cons; cbn [one_if]; intros Hn; [cbn in Hn; lia|by exists 0%nat, t|].
  destruct IH as (i & t & Hi); [lia|]. by exists (S i), t.
Qed.

Lemma nchildren_two cs : (2 <= nchildren cs)%nat -> exists i j t u, cs !! i = Some (Some t) /\ cs !! j = Some (Some u) /\ i <> j.
Proof.
  intros Hn. destruct (nchildren_pos cs) as (i & t & Hi); [lia|]. pose proof (nchildren_insert cs i _ None Hi) as Hc. cbn [one_if] in Hc.
  destruct (nchildren_pos (<[i := None]> cs)) as (j & u & Hj); [lia|]. rewrite list_lookup_insert in Hj. case_decide as Hd; [done|].
  exists i, j, t, u. split_and!; [done|done|]. intros ->. apply Hd. split; [done|by eapply lookup_lt_Some].
Qed.

Lemma child_key cs i t r v : length cs = 17%nat -> cs !! i = Some (Some t) -> fits t r -> (is_value t = true <-> i = 16%nat) -> tget t r = Some v ->
  valid_key (Z.of_nat i :: r) /\ tget (TFull cs) (Z.of_nat i :: r) = Some v.
Proof.
  intros Hl Hi Hf Hv Hg. pose proof (lookup_lt_Some _ _ _ Hi). split; [|by rewrite tget_full, Nat2Z.id, Hi].
  apply valid_key_cons. unfold fits in Hf. destruct (is_value t); [left; split; [|done]; assert (i = 16%nat) as -> by (by apply Hv); done|].
  right. split; [|done]. assert (i <> 16%nat) by (intros ->; by pose proof (proj2 Hv eq_refl)). unfold is_nibble. lia.
Qed.

Lemma has_key t : twf t -> exists r v, fits t r /\ tget t r = Some v.
Proof.
  induction 1 as [v0 Hv Hb|k v0 Hk Hv Hb|k cs Hk Hn Hwf IH|cs Hlen Hn Hwf IH Hval].
  - by exists [], v0.
  - exists k, v0. split; [done|]. rewrite <- (app_nil_r k) at 2. by rewrite tget_short_app.
  - destruct IH as (r & v & Hr & Hg). exists (k ++ r), v. split; [by apply valid_key_app|]. by rewrite tget_short_app.
  - destruct (nchildren_pos cs) as (i & t & Hi); [lia|]. destruct (IH _ _ Hi) as (r & v & Hr & Hg).
    exists (Z.of_nat i :: r), v. apply (child_key cs i t); auto.
Qed.

(** The keys of a full node part at once. *)
Lemma full_parts cs : twf (TFull cs) -> exists x r y s v w, x <> y /\ valid_key (x :: r) /\ valid_key (y :: s) /\
  tget (TFull cs) (x :: r) = Some v /\ tget (TFull cs) (y :: s) = Some w.
Proof.
  inversion 1 as [| | |? Hl Hn Hw Hv]; subst. destruct (nchildren_two cs Hn) as (i & j & t & u & Hi & Hj & Hne).
  destruct (has_key t) as (r & v & Hr & Hg); [by eapply Hw|]. destruct (has_key u) as (s & w & Hs & Hg'); [by eapply Hw|].
  destruct (child_key cs i t r v) as [K1 G1]; auto. destruct (child_key cs j u s w) as [K2 G2]; auto.
  exists (Z.of_nat i), r, (Z.of_nat j), s, v, w. split_and!; auto. lia.
Qed.

(** A prefix of two keys that part after [x] is a prefix of [x]. *)
Lemma common_prefix (x k c d r s : list Z) a b : a <> b -> x ++ a :: c = k ++ r -> x ++ b :: d = k ++ s -> exists q, x = k ++ q.
Proof.
  intros Hne. revert k. induction x as [|z x IH]; intros k H1 H2.
  - destruct k as [|y k]; [by exists []|]. cbn in H1, H2. congruence.
  - destruct k as [|y k]; [by exists (z :: x)|]. cbn in H1, H2. injection H1 as -> H1. injection H2 as H2. destruct (IH k H1 H2) as [q ->]. by exists q.
Qed.

Definition agree (t u : tree) : Prop := forall key, valid_key key -> tget t key = tget u key.

Lemma agree_sym t u : agree t u -> agree u t.
Proof. intros Ha key Hk. symmetry. by apply Ha. Qed.

Lemma agree_ext_prefix k cs k' t : Forall is_nibble k -> twf (TFull cs) -> agree (TShort k (TFull cs)) (TShort k' t) -> exists q, k = k' ++ q.
Proof.
  intros Hn Hw Ha. destruct (full_parts cs Hw) as (x & r & y & s & v & w & Hne & Kx & Ky & Gx & Gy).
  assert (G1 : tget (TShort k' t) (k ++ x :: r) = Some v) by (rewrite <- Ha; [by rewrite tget_short_app|by apply valid_key_app]).
  assert (G2 : tget (TShort k' t) (k ++ y :: s) = Some w) by (rewrite <- Ha; [by rewrite tget_short_app|by apply valid_key_app]).
  apply tget_short_Some in G1 as (r1 & E1 & _), G2 as (r2 & E2 & _). by eapply common_prefix.
Qed.

Lemma full_not_short cs k t : twf (TFull cs) -> k <> [] -> agree (TFull cs) (TShort k t) -> False.
Proof.
  intros Hw Hk Ha. destruct (agree_ext_prefix [] cs k t) as [q Hq]; [constructor|done| |by destruct k].
  intros key Hv. rewrite <- Ha by done. apply (tget_short_app [] (TFull cs) key).
Qed.

Lemma leaf_not_ext k v k' cs : twf (TFull cs) -> Forall is_nibble k' -> agree (TShort k (TValue v)) (TShort k' (TFull cs)) -> False.
Proof.
  intros Hw Hn Ha. destruct (full_parts cs Hw) as (x & r & y & s & v' & w & Hne & Kx & Ky & Gx & Gy).
  assert (Hk : forall z q u, valid_key (z :: q) -> tget (TFull cs) (z :: q) = Some u -> k' ++ z :: q = k).
  { intros z q u Kz Gz. assert (G : tget (TShort k (TValue v)) (k' ++ z :: q) = Some u) by (rewrite Ha; [by rewrite tget_short_app|by apply valid_key_app]).
    apply tget_short_Some in G as (r1 & -> & G). destruct r1; [|done]. by rewrite app_nil_r. }
  pose proof (Hk _ _ _ Kx Gx) as E1. rewrite <- (Hk _ _ _ Ky Gy) in E1. apply app_inv_head in E1. congruence.
Qed.

(** Children that hold the same values are the same. *)
Lemma child_canonical (cs : list (option tree)) i c c' : length cs = 17%nat -> (i < 17)%nat -> belongs i c -> belongs i c' ->
  (forall t u, c = Some t -> twf u -> is_value t = false -> is_value u = false -> agree t u -> t = u) ->
  (forall r, valid_key (Z.of_nat i :: r) -> oget c r = oget c' r) -> c = c'.
Proof.
  intros Hlen Hi Hb Hb' IH Hag.
  assert (Hone : forall t d, twf t -> (is_value t = true <-> i = 16%nat) -> (forall r, valid_key (Z.of_nat i :: r) -> tget t r = oget d r) -> d <> None).
  { intros t d Ht Hv He ->. destruct (has_key t Ht) as (r & v & Hr & Hg). rewrite (He r) in Hg; [done|].
    apply (child_key (<[i := Some t]> cs) i t r v); auto; [by rewrite length_insert|by apply list_lookup_insert_eq; lia]. }
  destruct c as [t|], c' as [t'|]; [|exfalso..|done]; cbn in *.
  - f_equal. destruct Hb as [Hw Hvt], Hb' as [Hw' Hvt']. destruct (is_value t) eqn:Evt.
    + assert (i = 16%nat) as -> by (by apply Hvt). destruct t as [v| |], t' as [v'| |]; try done; try (by pose proof (proj2 Hvt' eq_refl)).
      specialize (Hag []). cbn in Hag. f_equal. assert (valid_key [16]) by (by exists []). by injection Hag.
    + destruct (is_value t') eqn:Evt'; [by pose proof (proj2 Hvt (proj1 Hvt' eq_refl))|]. apply (IH t t'); auto.
      intros key Hkey. apply Hag, valid_key_cons. right. split; [|done]. assert (i <> 16%nat) by (intros ->; by pose proof (proj2 Hvt eq_refl)).
      unfold is_nibble. lia.
  - by apply (Hone t None); [apply Hb|apply Hb|intros r Hr; apply (Hag r Hr)|].
  - by apply (Hone t' None); [apply Hb'|apply Hb'|intros r Hr; symmetry; apply (Hag r Hr)|].
Qed.

Lemma tree_canonical t : twf t -> forall u, twf u -> is_value t = false -> is_value u = false -> agree t u -> t = u.
Proof.
  induction 1 as [v0 Hv Hb|k v0 Hk Hv Hb|k cs Hk Hn Hwf IH|cs Hlen Hn Hwf IH Hval]; intros u Hu Hnv Huv Ha; [done|..].
  - inversion Hu as [|k' w Hk' |k' cs _ Hn' Hcs|cs Hl]; subst; [done|..].
    + assert (G : tget (TShort k' (TValue w)) k = Some v0).
      { rewrite <- Ha by done. rewrite <- (app_nil_r k) at 2. by rewrite tget_short_app. }
      apply tget_short_Some in G as (r & -> & G). destruct r; [|done]. injection G as ->. by rewrite app_nil_r.
    + by destruct (leaf_not_ext k v0 k' cs Hcs Hn' Ha).
    + destruct (full_not_short cs k (TValue v0) Hu); [|by apply agree_sym]. intros ->. by apply valid_key_nil in Hk.
  - inversion Hu as [|k' w Hk' |k' cs' Hne' Hn' Hcs|cs' Hl]; subst; [done|..].
    + by destruct (leaf_not_ext k' w k cs Hwf Hn (agree_sym _ _ Ha)).
    + destruct (agree_ext_prefix k cs k' (TFull cs') Hn Hwf Ha) as [q ->].
      destruct (agree_ext_prefix k' cs' (k' ++ q) (TFull cs) Hn' Hcs (agree_sym _ _ Ha)) as [q' Hq].
      rewrite <- app_assoc in Hq. rewrite <- (app_nil_r k') in Hq at 1. apply app_inv_head, eq_sym, app_nil in Hq as [-> ->]. rewrite app_nil_r in *.
      f_equal. apply IH; auto. intros key Hkey. specialize (Ha (k' ++ key)). rewrite !tget_short_app in Ha. by apply Ha, valid_key_app.
    + by destruct (full_not_short cs' k (TFull cs) Hu Hk (agree_sym _ _ Ha)).
  - assert (Hw : twf (TFull cs)) by (by constructor). inversion Hu as [|k' w Hk' |k' cs' Hne' Hn' Hcs|cs' Hl' Hn' Hw' Hval']; subst; [done|..].
    + destruct (full_not_short cs k' (TValue w) Hw); [|done]. intros ->. by apply valid_key_nil in Hk'.
    + by destruct (full_not_short cs k' (TFull cs') Hw Hne' Ha).
    + f_equal. apply list_eq. intros i. destruct (decide (i < 17)%nat) as [Hi|Hi]; [|rewrite !lookup_ge_None_2 by lia; done].
      destruct (lookup_lt_is_Some_2 cs i) as [c Hc]; [lia|]. destruct (lookup_lt_is_Some_2 cs' i) as [c' Hc']; [lia|]. rewrite Hc, Hc'. f_equal.
      apply (child_canonical cs i); [done|done|destruct c; [|done]; split; eauto|destruct c'; [|done]; split; eauto|intros t u ->; by apply (IH i)|].
      intros r Hr. specialize (Ha _ Hr). rewrite !tget_full, !Nat2Z.id, Hc, Hc' in Ha. by destruct c, c'.
Qed.
