(* ===== verification/TrieNode.v ===== *)
(** * Nodes of the trie (trie/node.go, trie/node_enc.go)

    The nodes in memory, their RLP form and its decoder. *)

From S2P Require Import Prelude VMCommon Rlp StateTypes TrieEncoding.
Import Rlp.

(** [nodeFlag]: the cached hash, if any, and whether the node must be written. *)
Record nodeFlag : Type := mkFlag { flag_hash : option (list Z); flag_dirty : bool }.

(** A node; [nilNode] is the nil interface. *)
#[warnings="-register-all"]
Inductive node : Type :=
| nilNode
| fullNode (Children : list node) (flags : nodeFlag)
| shortNode (Key : list Z) (Val : node) (flags : nodeFlag)
| hashNode (b : list Z)
| valueNode (b : list Z)
| rawNode (b : list Z).

(** [n == nil] *)
Definition is_nil (n : node) : bool := match n with nilNode => true | _ => false end.

(** [cache]: the cached hash and the dirty flag. *)
Definition cache (n : node) : outcome (option (list Z) * bool) :=
  match n with
  | fullNode _ flags | shortNode _ _ flags => Ret (flag_hash flags, flag_dirty flags)
  | hashNode _ | valueNode _ => Ret (None, true)
  | rawNode _ | nilNode => Panic
  end.

(** ** Encoding *)

(** [w.Write(rlp.EmptyString)] *)
Definition write_empty (w : encBuffer) : encBuffer := append_str [0x80] w.

Fixpoint encode (n : node) (w : encBuffer) {struct n} : outcome encBuffer :=
  match n with
  | nilNode => Panic
  | fullNode cs _ =>
      let (offset, w) := list_begin w in
      let! w := (fix children (cs : list node) (w : encBuffer) : outcome encBuffer :=
         match cs with
         | [] => Ret w
         | c :: cs => let! w := (match c with nilNode => Ret (write_empty w) | _ => encode c w end) in children cs w
         end) cs w in
      listEnd offset w
  | shortNode key val _ =>
      let (offset, w) := list_begin w in
      let w := writeBytes key w in
      let! w := (match val with nilNode => Ret (write_empty w) | _ => encode val w end) in
      listEnd offset w
  | hashNode b | valueNode b => Ret (writeBytes b w)
  | rawNode b => Ret (append_str b w)
  end.

Definition nodeToBytes (n : node) : outcome (list Z) := let! w := encode n reset in makeBytes w.

(** ** Decoding *)

(** Errors of [decodeNode], without the path [wrapError] adds. *)
Inductive node_error : Type :=
| errNodeEOF
| errNodeRlp (e : rlp_error)
| errNodeCount (c : Z)
| errNodeOversized (size : Z)
| errNodeRefSize (size : Z).

Definition hashLen : Z := 32.

Section Decode.
(** [decodeNode] of a node inside the one being decoded. *)
Context (decodeEmbedded : list Z -> outcome (node_error + node)).

Definition decodeRef (buf : list Z) : outcome (node_error + (node * list Z)) :=
  let! r := Split buf in
  match r with
  | inl err => Ret (inl (errNodeRlp err))
  | inr (List, _, rest) =>
      let size := Zlen buf - Zlen rest in
      if hashLen <? size then Ret (inl (errNodeOversized size))
      else
        let! r := decodeEmbedded buf in
        Ret (match r with inl err => inl err | inr n => inr (n, rest) end)
  | inr (String, val, rest) =>
      Ret (if Zlen val =? 0 then inr (nilNode, rest)
           else if Zlen val =? 32 then inr (hashNode val, rest)
           else inl (errNodeRefSize (Zlen val)))
  | inr (Byte, val, _) => Ret (inl (errNodeRefSize (Zlen val)))
  end.

Definition decodeShort (hash : option (list Z)) (elems : list Z) : outcome (node_error + node) :=
  let! r := SplitString elems in
  match r with
  | inl err => Ret (inl (errNodeRlp err))
  | inr (kbuf, rest) =>
      let flag := mkFlag hash false in
      let! key := compactToHex kbuf in
      if hasTerm key then
        let! r := SplitString rest in
        Ret (match r with inl err => inl (errNodeRlp err) | inr (val, _) => inr (shortNode key (valueNode val) flag) end)
      else
        let! r := decodeRef rest in
        Ret (match r with inl err => inl err | inr (r, _) => inr (shortNode key r flag) end)
  end.

Fixpoint decodeChildren (n : nat) (elems : list Z) : outcome (node_error + (list node * list Z)) :=
  match n with
  | O => Ret (inr ([], elems))
  | S n =>
      let! r := decodeRef elems in
      match r with
      | inl err => Ret (inl err)
      | inr (cld, rest) =>
          let! r := decodeChildren n rest in
          Ret (match r with inl err => inl err | inr (cs, rest) => inr (cld :: cs, rest) end)
      end
  end.

Definition decodeFull (hash : option (list Z)) (elems : list Z) : outcome (node_error + node) :=
  let! r := decodeChildren 16 elems in
  match r with
  | inl err => Ret (inl err)
  | inr (cs, elems) =>
      let! r := SplitString elems in
      Ret (match r with
           | inl err => inl (errNodeRlp err)
           | inr (val, _) => inr (fullNode (cs ++ [if 0 <? Zlen val then valueNode val else nilNode]) (mkFlag hash false))
           end)
  end.

(** [decodeNodeUnsafe] with the decoder of embedded nodes. *)
Definition decodeBody (hash : option (list Z)) (buf : list Z) : outcome (node_error + node) :=
  if Zlen buf =? 0 then Ret (inl errNodeEOF)
  else
    let! r := SplitList buf in
    match r with
    | inl err => Ret (inl (errNodeRlp err))
    | inr (elems, _) =>
        let! r := CountValues elems in
        let c := match r with inl _ => 0 | inr c => c end in
        if c =? 2 then decodeShort hash elems
        else if c =? 17 then decodeFull hash elems
        else Ret (inl (errNodeCount c))
    end.

End Decode.

(** Every level of nesting takes a byte of the input at least. *)
Fixpoint decodeNodeUnsafe (fuel : nat) (hash : option (list Z)) (buf : list Z) : outcome (node_error + node) :=
  match fuel with
  | O => OutOfFuel
  | S fuel => decodeBody (decodeNodeUnsafe fuel None) hash buf
  end.

Definition decodeNode (hash : option (list Z)) (buf : list Z) : outcome (node_error + node) := decodeNodeUnsafe (S (length buf)) hash buf.

Definition mustDecodeNode (hash : option (list Z)) (buf : list Z) : outcome node :=
  let! r := decodeNode hash buf in
  match r with inl _ => Panic | inr n => Ret n end.
