(* ===== verification/TrieHasher.v ===== *)
(** * Hashing of trie nodes (trie/hasher.go)

    A hasher collapses a node to its hash, or to itself when its encoding is shorter than a
    hash, and returns the node with the hash cached.  The sixteen children of a full node
    are hashed independently of each other, so the order of the parallel hasher is
    immaterial and the sequential loop models both. *)

From S2P Require Import Prelude VMCommon Rlp StateTypes TrieEncoding TrieNode.
Import Rlp.

Section Hasher.
Context {C : Crypto}.

Definition hashData (data : list Z) : list Z := HashBytes (Keccak256Hash data).

(** [shortnodeToHash] and [fullnodeToHash]: the collapsed node, or its hash. *)
Definition nodeToHash (n : node) (force : bool) : outcome node :=
  let! enc := nodeToBytes n in
  Ret (if (Zlen enc <? 32) && negb force then n else hashNode (hashData enc)).

Definition shortnodeToHash (n : node) (force : bool) : outcome node := nodeToHash n force.
Definition fullnodeToHash (n : node) (force : bool) : outcome node := nodeToHash n force.

(** [nilValueNode] *)
Definition nilValueNode : node := valueNode [].

Section Children.
(** [hash] of the children. *)
Context (hash : node -> bool -> outcome (node * node)).

(** A child of a short node is hashed unless it is a value or a hash. *)
Definition hashVal (val : node) : outcome (node * node) :=
  match val with fullNode _ _ | shortNode _ _ _ => hash val false | _ => Ret (val, val) end.

Definition hashShortNodeChildren_with (key : list Z) (val : node) (fl : nodeFlag) : outcome (node * node) :=
  let! ckey := hexToCompact key in
  let! (cval, val) := hashVal val in
  Ret (shortNode ckey cval fl, shortNode key val fl).

(** A child of a full node is hashed unless it is nil. *)
Definition hashChild (c : node) : outcome (node * node) := match c with nilNode => Ret (nilValueNode, nilNode) | _ => hash c false end.

(** The loop over the first [i] children. *)
Fixpoint hashChildren (i : nat) (cs : list node) {struct cs} : outcome (list node * list node) :=
  match i with
  | O => Ret (cs, cs)
  | S i =>
      match cs with
      | [] => Panic
      | c :: cs =>
          let! (cc, c) := hashChild c in
          let! (ccs, cs) := hashChildren i cs in
          Ret (cc :: ccs, c :: cs)
      end
  end.

Definition hashFullNodeChildren_with (cs : list node) (fl : nodeFlag) : outcome (node * node) :=
  let! (ccs, cs) := hashChildren 16 cs in
  Ret (fullNode ccs fl, fullNode cs fl).

End Children.

(** [cached.flags.hash = hn], or nil when the node was not hashed. *)
Definition set_hash (cached hashed : node) : node :=
  let h := match hashed with hashNode h => Some h | _ => None end in
  match cached with
  | shortNode key val fl => shortNode key val (mkFlag h (flag_dirty fl))
  | fullNode cs fl => fullNode cs (mkFlag h (flag_dirty fl))
  | n => n
  end.

Fixpoint hash (n : node) (force : bool) : outcome (node * node) :=
  let! (h, _) := cache n in
  match h with
  | Some h => Ret (hashNode h, n)
  | None =>
      match n with
      | shortNode key val fl =>
          let! (collapsed, cached) := hashShortNodeChildren_with hash key val fl in
          let! hashed := shortnodeToHash collapsed force in
          Ret (hashed, set_hash cached hashed)
      | fullNode cs fl =>
          let! (collapsed, cached) := hashFullNodeChildren_with hash cs fl in
          let! hashed := fullnodeToHash collapsed force in
          Ret (hashed, set_hash cached hashed)
      | _ => Ret (n, n)
      end
  end.

Definition hashShortNodeChildren := hashShortNodeChildren_with hash.
Definition hashFullNodeChildren := hashFullNodeChildren_with hash.

(** [proofHash]: the collapsed node and what it is called by its parent. *)
Definition proofHash (original : node) : outcome (node * node) :=
  match original with
  | shortNode key val fl =>
      let! (sn, _) := hashShortNodeChildren key val fl in
      let! hashed := shortnodeToHash sn false in
      Ret (sn, hashed)
  | fullNode cs fl =>
      let! (fn, _) := hashFullNodeChildren cs fl in
      let! hashed := fullnodeToHash fn false in
      Ret (fn, hashed)
  | n => Ret (n, n)
  end.

End Hasher.
