(* ===== verification/TrieCodec.v ===== *)
(** * The stored form of a trie

    The RLP item of a reference trie, its hash, and the proofs that the encoder and
    the decoder of nodes agree with them: a stored node is decoded to the node with
    its children collapsed to hashes. *)

From S2P Require Import Prelude VMCommon Rlp RlpCodec StateTypes TrieEncoding TrieNode TrieHasher TrieTree.
Import Rlp.

(** ** Items *)

(** The item a node is written as. *)
Fixpoint nitem (n : node) : item :=
  match n with
  | nilNode => Str []
  | hashNode b | valueNode b | rawNode b => Str b
  | shortNode k v _ => Lst [Str k; nitem v]
  | fullNode cs _ => Lst (map nitem cs)
  end.

Lemma node_ind' (P : node -> Prop) :
  P nilNode -> (forall cs fl, Forall P cs -> P (fullNode cs fl)) -> (forall k v fl, P v -> P (shortNode k v fl)) ->
  (forall b, P (hashNode b)) -> (forall b, P (valueNode b)) -> (forall b, P (rawNode b)) -> forall n, P n.
Proof.
  intros H1 H2 H3 H4 H5 H6. fix IH 1. intros [|cs fl|k v fl|b|b|b]; [exact H1|apply H2|apply H3, IH|apply H4|apply H5|apply H6].
  induction cs as [|c cs IHcs]; constructor; [apply IH|exact IHcs].
Qed.

(** Nodes the hasher and the committer encode. *)
Fixpoint encodable (n : node) : bool :=
  match n with
  | hashNode _ | valueNode _ => true
  | shortNode _ v _ => is_nil v || encodable v
  | fullNode cs _ => negb (bool_decide (length cs = 0%nat)) && forallb (fun c => is_nil c || encodable c) cs
  | nilNode | rawNode _ => false
  end.

Lemma write_empty_str w : write_item (Str []) w = Ret (write_empty w).
Proof. change (Ret (append_str [] (append_str [0x80] w)) = Ret (write_empty w)). by rewrite append_str_app. Qed.

(** A child, which may be nil. *)
Definition encode_child (c : node) (w : encBuffer) : outcome encBuffer := match c with nilNode => Ret (write_empty w) | _ => encode c w end.

Fixpoint encode_children (cs : list node) (w : encBuffer) : outcome encBuffer :=
  match cs with [] => Ret w | c :: cs => let! w := encode_child c w in encode_children cs w end.

Lemma encode_full cs fl w : encode (fullNode cs fl) w = let (offset, w) := list_begin w in let! w := encode_children cs w in listEnd offset w.
Proof. done. Qed.

Lemma encode_short k v fl w : encode (shortNode k v fl) w = let (offset, w) := list_begin w in let! w := encode_child v (writeBytes k w) in listEnd offset w.
Proof. done. Qed.

Lemma write_item_Lst l w : l <> [] -> write_item (Lst l) w = let (offset, w) := list_begin w in let! w := write_all l w in listEnd offset w.
Proof. by destruct l. Qed.

Lemma encode_child_item c : (encodable c = true -> forall w, encode c w = write_item (nitem c) w) -> is_nil c || encodable c = true ->
  forall w, encode_child c w = write_item (nitem c) w.
Proof. intros Hc Hn w. destruct c; cbn [encode_child]; try (by apply Hc). cbn [nitem]. by rewrite write_empty_str. Qed.

Lemma encode_item n : encodable n = true -> forall w, encode n w = write_item (nitem n) w.
Proof.
  induction n as [|cs fl Hcs|k v fl Hv|b|b|b] using node_ind'; cbn [encodable]; intros He w; try done.
  - apply andb_prop in He as [Hne He]. cbn [nitem]. rewrite write_item_Lst by (by destruct cs). rewrite encode_full. destruct (list_begin w) as [o w1]. clear Hne.
    assert (Hall : forall w, encode_children cs w = write_all (map nitem cs) w); [|by rewrite Hall].
    induction Hcs as [|c cs Hc _ IH]; intros w2; [done|]. cbn [forallb] in He. apply andb_prop in He as [He1 He2].
    cbn [encode_children map write_all]. rewrite (encode_child_item c Hc He1). destruct (write_item (nitem c) w2); [by apply IH|done|done].
  - cbn [nitem]. rewrite write_item_Lst by done. rewrite encode_short. destruct (list_begin w) as [o w1]. cbn [write_all write_item obind].
    rewrite (encode_child_item v Hv He). by destruct (write_item (nitem v) (writeBytes k w1)).
Qed.

Lemma nodeToBytes_item n : encodable n = true -> Zlen (enc (nitem n)) < 2 ^ 64 -> nodeToBytes n = Ret (enc (nitem n)).
Proof. intros He Hl. unfold nodeToBytes. rewrite encode_item by done. by apply EncodeToBytes_enc. Qed.

(** ** The encoding of items is injective *)

Lemma item_bytes_Str b : item_bytes (Str b) = true <-> Forall is_byte b.
Proof.
  split; [apply forallb_bytes|]. intros Hb. cbn. apply forallb_forall. intros x Hx. rewrite Forall_forall in Hb. 
  apply Hb in Hx. unfold is_byte in Hx. lia.
Qed.

Definition content (it : item) : list Z := match it with Str b => b | Lst l => concat (map enc l) end.

(** Splitting off an item. *)
Lemma Split_enc it rest : item_bytes it = true -> Forall is_byte rest -> Zlen (enc it ++ rest) < 2 ^ 64 ->
  exists k, Split (enc it ++ rest) = Ret (inr (k, content it, rest)) /\ (k = List <-> exists l, it = Lst l).
Proof.
  intros Hb Hr Hl. assert (Hle : Zlen (enc it) < 2 ^ 64) by (rewrite Zlen_app in Hl; pose proof (Zlen_nonneg rest); lia).
  pose proof (item_bytes_enc it Hb Hle) as Hbe. destruct it as [b|l]; cbn [enc content] in *.
  - apply item_bytes_Str in Hb. destruct (tagged_enc_str b Hb) as (k & Hk & Hc & He). rewrite He in *. exists k. rewrite Split_tagged by done.
    split; [done|]. split; [by destruct Hk as [-> | ->]|intros [? ?]; done].
  - exists List. split; [|by split; [exists l|]]. apply (Split_tagged List); [done| |done|done]. cbn in Hbe. by apply Forall_app in Hbe as [_ ?].
Qed.

Lemma Split_enc_cancel it1 it2 r1 r2 : item_bytes it1 = true -> item_bytes it2 = true -> Forall is_byte r1 -> Forall is_byte r2 ->
  Zlen (enc it1 ++ r1) < 2 ^ 64 -> enc it1 ++ r1 = enc it2 ++ r2 ->
  r1 = r2 /\ content it1 = content it2 /\ ((exists l, it1 = Lst l) <-> exists l, it2 = Lst l).
Proof.
  intros B1 B2 R1 R2 Hl He. destruct (Split_enc it1 r1 B1 R1 Hl) as (k1 & S1 & K1). rewrite He in Hl, S1. destruct (Split_enc it2 r2 B2 R2 Hl) as (k2 & S2 & K2).
  rewrite S1 in S2. injection S2 as -> Hc ->. split_and!; [done|done|]. by rewrite <- K1, <- K2.
Qed.

Lemma enc_app_nonempty it : enc it <> [].
Proof. pose proof (Zlen_enc_pos it) as Hp. by destruct (enc it). Qed.

Lemma concat_enc_bytes l : forallb item_bytes l = true -> Zlen (concat (map enc l)) < 2 ^ 64 -> Forall is_byte (concat (map enc l)).
Proof.
  induction l as [|it l IH]; cbn [map concat forallb]; intros Hb Hl; [constructor|]. apply andb_prop in Hb as [H1 H2]. rewrite Zlen_app in Hl.
  pose proof (Zlen_nonneg (enc it)). pose proof (Zlen_nonneg (concat (map enc l))). apply Forall_app; split; [apply item_bytes_enc|apply IH]; auto; lia.
Qed.

Lemma Lst_body_le l : Zlen (concat (map enc l)) <= Zlen (enc (Lst l)).
Proof. cbn [enc]. rewrite Zlen_app. pose proof (Zlen_nonneg (puthead 192 247 (Zlen (concat (map enc l))))). lia. Qed.

Lemma item_enc_inj it1 : forall it2, item_bytes it1 = true -> item_bytes it2 = true -> Zlen (enc it1) < 2 ^ 64 -> enc it1 = enc it2 -> it1 = it2.
Proof.
  induction it1 as [b|l IH] using item_ind'; intros it2 B1 B2 Hl He;
    (destruct (Split_enc_cancel _ it2 [] [] B1 B2 ltac:(constructor) ltac:(constructor)) as (_ & Hc & Hk); [by rewrite app_nil_r|by rewrite !app_nil_r|]).
  - destruct it2 as [b2|l2]; [by cbn in Hc; subst|]. destruct (proj2 Hk) as [? ?]; [by eexists|done].
  - destruct it2 as [b2|l2]; [destruct (proj1 Hk) as [? ?]; [by eexists|done]|]. f_equal. pose proof (Lst_body_le l). cbn [content item_bytes] in *. clear Hk He.
    assert (Hlc : Zlen (concat (map enc l)) < 2 ^ 64) by lia. clear Hl H. revert l2 B2 Hc. induction IH as [|it l Hit _ IHl]; intros l2 B2 Hc.
    + destruct l2 as [|it2 l2]; [done|]. cbn in Hc. symmetry in Hc. apply app_nil in Hc as [Hc _]. by apply enc_app_nonempty in Hc.
    + destruct l2 as [|it2 l2]; [cbn in Hc; apply app_nil in Hc as [Hc _]; by apply enc_app_nonempty in Hc|].
      cbn [map concat forallb] in *. apply andb_prop in B1 as [B1 B1'], B2 as [B2 B2']. rewrite Zlen_app in Hlc.
      pose proof (Zlen_nonneg (enc it)). pose proof (Zlen_nonneg (concat (map enc l))).
      assert (Hl2 : Zlen (concat (map enc l2)) < 2 ^ 64).
      { apply (f_equal Zlen) in Hc. rewrite !Zlen_app in Hc. pose proof (Zlen_nonneg (enc it2)). lia. }
      assert (R1 : Forall is_byte (concat (map enc l))) by (apply concat_enc_bytes; [done|lia]).
      assert (R2 : Forall is_byte (concat (map enc l2))) by (by apply concat_enc_bytes).
      destruct (Split_enc_cancel it it2 _ _ B1 B2 R1 R2) as (Hr & _ & _); [rewrite Zlen_app; lia|done|].
      rewrite Hr in Hc. apply app_inv_tail in Hc. f_equal; [apply Hit; auto; lia|]. apply IHl; auto. lia.
Qed.

(** ** Items of reference tries *)

Section Items.
Context {C : Crypto}.

(** A node inside its parent: as it is when it is short, by its hash otherwise. *)
Definition close (it : item) : item := if Zlen (enc it) <? 32 then it else Str (hashData (enc it)).

Fixpoint titem (t : tree) : item :=
  match t with
  | TValue v => Str v
  | TShort k t => Lst [Str (compact k); if is_value t then titem t else close (titem t)]
  | TFull cs => Lst (map (fun c => match c with None => Str [] | Some t => if is_value t then titem t else close (titem t) end) cs)
  end.

Definition tref (t : tree) : item := if is_value t then titem t else close (titem t).
Definition oref (c : option tree) : item := match c with None => Str [] | Some t => tref t end.

Definition tbytes (t : tree) : list Z := enc (titem t).
Definition thash (t : tree) : list Z := hashData (tbytes t).

Lemma titem_short k t : titem (TShort k t) = Lst [Str (compact k); tref t].
Proof. done. Qed.
Lemma titem_full cs : titem (TFull cs) = Lst (map oref cs).
Proof. done. Qed.

Lemma hashData_bytes b : Forall is_byte (hashData b) /\ length (hashData b) = 32%nat.
Proof. unfold hashData, HashBytes. split; [apply Z_to_bytes_byte|apply length_Z_to_bytes]. Qed.

Lemma BytesToHash_hashData `{!CryptoSpec C} b : BytesToHash (hashData b) = Keccak256Hash b.
Proof.
  unfold BytesToHash. rewrite (proj2 (hashData_bytes b)), drop_0. unfold hashData, HashBytes. rewrite bytes_to_Z_to_bytes. apply Z.mod_small. apply keccak_in256.
Qed.

(** Keys and values fit in memory. *)
Definition tbound (t : tree) : Prop := forall key v, fits t key -> tget t key = Some v -> Zlen key < 2 ^ 58 /\ Zlen v < 2 ^ 58.

Lemma tbound_short k t : twf (TShort k t) -> tbound (TShort k t) -> Zlen k < 2 ^ 58 /\ tbound t.
Proof.
  intros Hw Hb. assert (Hsub : forall r v, fits t r -> tget t r = Some v -> Zlen (k ++ r) < 2 ^ 58 /\ Zlen v < 2 ^ 58).
  { intros r v Hr Hg. apply Hb; [|by rewrite tget_short_app]. unfold fits. cbn. unfold fits in Hr.
    inversion Hw as [|? ? Hk|? ? ? Hk|]; subst; cbn in Hr; [subst; by rewrite app_nil_r|by apply valid_key_app]. }
  assert (Ht : twf t) by (inversion Hw; subst; [by constructor|done]). split.
  - destruct (has_key t Ht) as (r & v & Hr & Hg). destruct (Hsub r v Hr Hg) as [Hl _]. rewrite Zlen_app in Hl. pose proof (Zlen_nonneg r). lia.
  - intros r v Hr Hg. destruct (Hsub r v Hr Hg) as [Hl Hv]. rewrite Zlen_app in Hl. pose proof (Zlen_nonneg k). split; [lia|done].
Qed.

Lemma tbound_child cs i t : twf (TFull cs) -> tbound (TFull cs) -> cs !! i = Some (Some t) -> tbound t.
Proof.
  intros Hw Hb Hi. inversion Hw as [| | |? Hl Hn Hwf Hval]; subst. intros r v Hr Hg.
  destruct (child_key cs i t r v) as [Hk Hk2]; auto. destruct (Hb _ _ Hk Hk2) as [H1 H2]. rewrite Zlen_cons in H1. split; [lia|done].
Qed.

Lemma puthead_le s l n : 0 <= n < 2 ^ 64 -> Zlen (puthead s l n) <= 9.
Proof. intros Hn. rewrite Zlen_puthead by done. unfold headsize. destruct (n <? 56); [lia|]. rewrite intsize_putint by done. destruct (putint_bytes n Hn). unfold Zlen. lia. Qed.

Lemma Zlen_enc_Lst l : Zlen (concat (map enc l)) < 2 ^ 64 -> Zlen (enc (Lst l)) <= 9 + Zlen (concat (map enc l)).
Proof. intros Hl. cbn [enc]. rewrite Zlen_app. pose proof (puthead_le 192 247 (Zlen (concat (map enc l)))). pose proof (Zlen_nonneg (concat (map enc l))). lia. Qed.

Lemma Zlen_concat_le l B : 0 <= B -> Forall (fun it => Zlen (enc it) <= B) l -> Zlen (concat (map enc l)) <= Zlen l * B.
Proof.
  intros HB. induction 1 as [|it l Hit _ IH]; [done|]. cbn [map concat]. rewrite Zlen_app, Zlen_cons. lia.
Qed.

Lemma close_small it : Zlen (enc (close it)) <= 33.
Proof.
  unfold close. destruct (Z.ltb_spec (Zlen (enc it)) 32); [lia|]. destruct (hashData_bytes (enc it)) as [Hb Hl].
  cbn [enc]. assert (He : enc_str (hashData (enc it)) = puthead 0x80 0xB7 (Zlen (hashData (enc it))) ++ hashData (enc it))
    by (by destruct (hashData (enc it)) as [|a [|b l]]).
  rewrite He, Zlen_app. unfold Zlen at 2 3. rewrite Hl, Zlen_puthead by lia. done.
Qed.

Lemma tref_small t : twf t -> tbound t -> Zlen (enc (tref t)) <= 2 ^ 58 + 33.
Proof.
  intros Hw Hb. unfold tref. destruct (is_value t) eqn:Hv; [|pose proof (close_small (titem t)); lia]. destruct t as [v| |]; try done. cbn [titem enc].
  destruct (Hb [] v) as [_ Hl]; [done|done|]. destruct (Zlen_enc_str v); lia.
Qed.

Lemma tbytes_small t : twf t -> tbound t -> Zlen (tbytes t) < 2 ^ 63.
Proof.
  intros Hw Hb. unfold tbytes. destruct t as [v|k t|cs].
  - cbn [titem enc]. destruct (Hb [] v) as [_ Hl]; [done|done|]. destruct (Zlen_enc_str v); lia.
  - destruct (tbound_short k t Hw Hb) as [Hk Ht]. assert (Hwt : twf t) by (inversion Hw; subst; [by constructor|done]).
    rewrite titem_short. pose proof (tref_small t Hwt Ht) as Hr. destruct (wf_short_key k t Hw) as [_ Hkey]. pose proof (length_compact k Hkey).
    assert (Hc : Zlen (enc (Str (compact k))) <= 2 ^ 58 + 20) by (cbn [enc]; destruct (Zlen_enc_str (compact k)); unfold Zlen in *; lia).
    assert (Hs : Zlen (concat (map enc [Str (compact k); tref t])) < 2 ^ 60) by (cbn [map concat]; rewrite !Zlen_app, Zlen_nil; lia).
    pose proof (Zlen_enc_Lst [Str (compact k); tref t] ltac:(lia)). lia.
  - rewrite titem_full. inversion Hw as [| | |? Hl Hn Hwf Hval]; subst.
    assert (Hs : Zlen (concat (map enc (map oref cs))) <= 17 * (2 ^ 58 + 33)).
    { replace 17 with (Zlen (map oref cs)) by (unfold Zlen; by rewrite length_map, Hl). apply Zlen_concat_le; [lia|]. apply Forall_fmap, Forall_lookup. intros i [t|] Hi; cbn [compose oref].
      - apply tref_small; [by eapply Hwf|by eapply tbound_child].
      - change (Zlen (enc (Str []))) with 1. lia. }
    pose proof (Zlen_enc_Lst (map oref cs) ltac:(lia)). lia.
Qed.

Lemma item_bytes_pair a b : item_bytes (Lst [a; b]) = item_bytes a && item_bytes b.
Proof. cbn. by rewrite andb_true_r. Qed.

Lemma titem_bytes t : twf t -> item_bytes (titem t) = true.
Proof.
  assert (Hclose : forall it, item_bytes it = true -> item_bytes (close it) = true).
  { intros it Hi. unfold close. destruct (_ <? _); [done|]. apply item_bytes_Str, hashData_bytes. }
  assert (Hcompact : forall k t, twf (TShort k t) -> item_bytes (Str (compact k)) = true).
  { intros k u Hu. apply item_bytes_Str. apply wf_short_key in Hu as [_ Hk]. by apply compact_bytes. }
  induction 1 as [v0 Hv Hb|k v0 Hk Hv Hb|k cs Hk Hn Hwf IH|cs Hlen Hn Hwf IH Hval].
  - by apply item_bytes_Str.
  - rewrite titem_short, item_bytes_pair, (Hcompact k (TValue v0)) by (by constructor). by apply item_bytes_Str.
  - rewrite titem_short, item_bytes_pair, (Hcompact k (TFull cs)) by (by constructor). by apply Hclose.
  - rewrite titem_full. cbn [item_bytes]. apply forallb_forall. intros it Hit. apply in_map_iff in Hit as (c & <- & Hc).
    apply list_elem_of_In, list_elem_of_lookup in Hc as [i Hi]. destruct c as [t|]; [|done]. cbn [oref]. unfold tref. pose proof (IH _ _ Hi). destruct (is_value t); auto.
Qed.

Lemma oref_bytes t : twf t -> item_bytes (tref t) = true.
Proof.
  intros Hw. pose proof (titem_bytes t Hw). unfold tref. destruct (is_value t); [done|]. unfold close. destruct (_ <? _); [done|]. apply item_bytes_Str, hashData_bytes.
Qed.

(** ** Decoding *)

(** The decoded form: children are hashes or small nodes. *)
Fixpoint cnode (h : option (list Z)) (t : tree) : node :=
  match t with
  | TValue v => valueNode v
  | TShort k t => shortNode k (if is_value t then cnode None t else if Zlen (tbytes t) <? 32 then cnode None t else hashNode (thash t)) (mkFlag h false)
  | TFull cs =>
      fullNode (map (fun c => match c with
        | None => nilNode
        | Some t => if is_value t then cnode None t else if Zlen (tbytes t) <? 32 then cnode None t else hashNode (thash t) end) cs) (mkFlag h false)
  end.

Definition cref (t : tree) : node := if is_value t then cnode None t else if Zlen (tbytes t) <? 32 then cnode None t else hashNode (thash t).
Definition ocref (c : option tree) : node := match c with None => nilNode | Some t => cref t end.

Lemma cnode_short h k t : cnode h (TShort k t) = shortNode k (cref t) (mkFlag h false).
Proof. done. Qed.
Lemma cnode_full h cs : cnode h (TFull cs) = fullNode (map ocref cs) (mkFlag h false).
Proof. done. Qed.

Lemma decodeRef_nil dec rest : Forall is_byte rest -> Zlen rest < 2 ^ 63 -> decodeRef dec (enc (Str []) ++ rest) = Ret (inr (nilNode, rest)).
Proof.
  intros Hr Hl. unfold decodeRef. assert (Hs : Split (enc (Str []) ++ rest) = Ret (inr (String, [], rest))); [|by rewrite Hs].
  apply (Split_tagged String); [done|constructor|done|]. change (tagged String []) with [128]. rewrite Zlen_app. change (Zlen [128]) with 1. lia.
Qed.

Lemma titem_Lst t : is_value t = false -> exists l, titem t = Lst l.
Proof. destruct t; [done|..]; intros _; by eexists. Qed.

Lemma decodeRef_tree dec t rest : twf t -> is_value t = false -> Forall is_byte rest -> Zlen (enc (tref t) ++ rest) < 2 ^ 63 ->
  (Zlen (tbytes t) < 32 -> dec (tbytes t ++ rest) = Ret (inr (cnode None t))) ->
  decodeRef dec (enc (tref t) ++ rest) = Ret (inr (cref t, rest)).
Proof.
  intros Hw Hv Hr Hl Hd. pose proof (oref_bytes t Hw) as Hb. unfold tref, cref in *. rewrite Hv in *. unfold close in *. fold (tbytes t) in *.
  destruct (Z.ltb_spec (Zlen (tbytes t)) 32) as [Hs|Hs].
  - fold (tbytes t) in *. destruct (Split_enc (titem t) rest Hb Hr) as (k & Hsp & Hk); [fold (tbytes t); lia|].
    destruct (titem_Lst t Hv) as [l Ht]. assert (k = List) as -> by (apply Hk; eauto). unfold decodeRef. fold (tbytes t) in Hsp. rewrite Hsp. cbn [obind].
    rewrite (proj2 (Z.ltb_ge _ _)) by (rewrite Zlen_app; unfold hashLen; lia). by rewrite (Hd Hs).
  - destruct (hashData_bytes (tbytes t)) as [Hhb Hhl]. fold (thash t) in *. unfold decodeRef.
    assert (Hsp : Split (enc (Str (thash t)) ++ rest) = Ret (inr (String, thash t, rest))).
    { cbn [enc] in *. destruct (thash t) as [|a [|b h]]; try done. apply (Split_tagged String); [done|done|done|]. refine (Z.lt_trans _ (2 ^ 63) _ Hl _); done. }
    rewrite Hsp. cbn [obind]. unfold Zlen. by rewrite Hhl.
Qed.

Lemma decodeChildren_trees dec cs rest : (forall i t, cs !! i = Some (Some t) -> twf t /\ is_value t = false) -> Forall is_byte rest ->
  Zlen (concat (map enc (map oref cs)) ++ rest) < 2 ^ 63 ->
  (forall i t r, cs !! i = Some (Some t) -> Forall is_byte r -> Zlen (tbytes t ++ r) < 2 ^ 63 -> Zlen (tbytes t) < 32 -> dec (tbytes t ++ r) = Ret (inr (cnode None t))) ->
  decodeChildren dec (length cs) (concat (map enc (map oref cs)) ++ rest) = Ret (inr (map ocref cs, rest)).
Proof.
  induction cs as [|c cs IH]; intros Hw Hr Hl Hd; [done|]. cbn [length decodeChildren map concat] in *. rewrite <- app_assoc in *.
  set (tl := concat (map enc (map oref cs)) ++ rest) in *.
  assert (Hbt : Forall is_byte tl).
  { apply Forall_app. split; [|done]. rewrite Zlen_app in Hl. subst tl. rewrite Zlen_app in Hl. pose proof (Zlen_nonneg (enc (oref c))). pose proof (Zlen_nonneg rest).
    apply concat_enc_bytes; [|lia]. apply forallb_forall. intros it Hit. apply in_map_iff in Hit as (d & <- & Hdin).
    destruct d as [t|]; [|done]. apply list_elem_of_In, list_elem_of_lookup in Hdin as [i Hi]. apply oref_bytes. by apply (Hw (S i) t). }
  rewrite Zlen_app in Hl. pose proof (Zlen_nonneg (enc (oref c))). pose proof (Zlen_nonneg tl).
  assert (Hone : decodeRef dec (enc (oref c) ++ tl) = Ret (inr (ocref c, tl))).
  { destruct c as [t|]; [|apply decodeRef_nil; [done|lia]]. destruct (Hw 0%nat t eq_refl) as [Hwt Hvt].
    apply decodeRef_tree; try done; [rewrite Zlen_app; cbn [oref] in *; lia|]. intros Hs. apply (Hd 0%nat t tl); try done. rewrite Zlen_app.
    unfold tref in *. cbn [oref] in *. unfold tref in Hl. rewrite Hvt in Hl. unfold close in Hl. fold (tbytes t) in Hl. rewrite (proj2 (Z.ltb_lt _ _)) in Hl by done. fold (tbytes t) in Hl. lia. }
  rewrite Hone. cbn [obind]. subst tl. rewrite IH; try done; [intros i t Hi; by apply (Hw (S i))|lia|]. intros i t r Hi. by apply (Hd (S i)).
Qed.

Lemma decodeBody_list dec h l rest : item_bytes (Lst l) = true -> Forall is_byte rest -> Zlen (enc (Lst l) ++ rest) < 2 ^ 63 ->
  decodeBody dec h (enc (Lst l) ++ rest) =
    (if Zlen l =? 2 then decodeShort dec h (concat (map enc l))
     else if Zlen l =? 17 then decodeFull dec h (concat (map enc l)) else Ret (inl (errNodeCount (Zlen l)))).
Proof.
  intros Hb Hr Hl. destruct (Split_enc (Lst l) rest Hb Hr) as (k & Hs & Hk); [lia|]. assert (k = List) as -> by (apply Hk; eauto). unfold decodeBody.
  rewrite Zlen_app in Hl |- *. pose proof (Zlen_enc_pos (Lst l)). pose proof (Zlen_nonneg rest). pose proof (Lst_body_le l).
  rewrite (proj2 (Z.eqb_neq _ _)) by lia. unfold SplitList. rewrite Hs. cbn [obind content]. cbn [item_bytes] in Hb. unfold CountValues.
  rewrite CountValues_loop_spec; [done| |apply concat_enc_bytes; [done|lia]|lia|lia].
  apply List.Forall_forall. intros it Hit b ->. rewrite forallb_forall in Hb. by apply forallb_bytes, (Hb (Str b)).
Qed.

Lemma decodeShort_leaf dec h k v : valid_key k -> Forall is_byte v -> Zlen (concat (map enc [Str (compact k); Str v])) < 2 ^ 63 ->
  decodeShort dec h (concat (map enc [Str (compact k); Str v])) = Ret (inr (shortNode k (valueNode v) (mkFlag h false))).
Proof.
  intros (ns & -> & Hn) Hv Hl. cbn [map concat] in *. rewrite app_nil_r in *. cbn [enc] in *.
  assert (Hkey : is_key (ns ++ [16])) by (by exists true, ns). destruct (compact_bytes _ Hkey) as [Hcb _]. rewrite Zlen_app in Hl. pose proof (Zlen_nonneg (enc_str (compact (ns ++ [16])))).
  assert (Hvb : Forall is_byte (enc_str v)).
  { pose proof (item_bytes_enc (Str v) (proj2 (item_bytes_Str v) Hv)) as Hx. cbn [enc] in Hx. apply Hx. lia. }
  unfold decodeShort. rewrite Split_enc_str by (done || rewrite Zlen_app; lia). cbn [obind]. rewrite compactToHex_compact by done. cbn [obind].
  pose proof (hasTerm_with_term true ns Hn) as Ht. cbn [with_term] in Ht. rewrite Ht.
  pose proof (Split_enc_str v [] Hv ltac:(constructor)) as Hs. rewrite app_nil_r in Hs. rewrite Hs by lia. done.
Qed.

Lemma decodeShort_ext dec h k t : k <> [] -> Forall is_nibble k -> twf t -> is_value t = false -> Zlen (concat (map enc [Str (compact k); tref t])) < 2 ^ 63 ->
  (Zlen (tbytes t) < 32 -> dec (tbytes t) = Ret (inr (cnode None t))) ->
  decodeShort dec h (concat (map enc [Str (compact k); tref t])) = Ret (inr (shortNode k (cref t) (mkFlag h false))).
Proof.
  intros Hne Hn Hw Hv Hl Hd. cbn [map concat] in *. rewrite app_nil_r in *. change (enc (Str (compact k))) with (enc_str (compact k)) in *.
  assert (Hkey : is_key k) by (by exists false, k). destruct (compact_bytes _ Hkey) as [Hcb _]. rewrite Zlen_app in Hl. pose proof (Zlen_nonneg (enc_str (compact k))).
  assert (Hvb : Forall is_byte (enc (tref t))) by (apply item_bytes_enc; [by apply oref_bytes|lia]).
  unfold decodeShort. rewrite Split_enc_str by (done || rewrite Zlen_app; lia). cbn [obind]. rewrite compactToHex_compact by done. cbn [obind].
  pose proof (hasTerm_with_term false k Hn) as Ht. cbn [with_term] in Ht. rewrite Ht.
  pose proof (decodeRef_tree dec t [] Hw Hv ltac:(constructor)) as Hr. rewrite !app_nil_r in Hr. rewrite Hr by (done || lia). done.
Qed.

Lemma split_last (cs : list (option tree)) : length cs = 17%nat -> exists cs1 c, cs = cs1 ++ [c] /\ length cs1 = 16%nat.
Proof.
  intros Hl. destruct (drop 16 cs) as [|c [|]] eqn:Hd; try (apply (f_equal length) in Hd; rewrite length_drop, Hl in Hd; done).
  exists (take 16 cs), c. rewrite <- Hd, take_drop, length_take. split; [done|lia].
Qed.

Lemma decodeFull_trees dec h cs : twf (TFull cs) -> Zlen (concat (map enc (map oref cs))) < 2 ^ 63 ->
  (forall i t r, cs !! i = Some (Some t) -> i <> 16%nat -> Forall is_byte r -> Zlen (tbytes t ++ r) < 2 ^ 63 -> Zlen (tbytes t) < 32 -> dec (tbytes t ++ r) = Ret (inr (cnode None t))) ->
  decodeFull dec h (concat (map enc (map oref cs))) = Ret (inr (fullNode (map ocref cs) (mkFlag h false))).
Proof.
  intros Hw Hl Hd. inversion Hw as [| | |? Hlen Hn Hwf Hval]; subst. destruct (split_last cs Hlen) as (cs1 & c & -> & Hl1).
  rewrite !map_app, concat_app in *. cbn [map concat] in *. rewrite app_nil_r in *. unfold decodeFull.
  assert (Hlook : forall i d, cs1 !! i = Some d -> (cs1 ++ [c]) !! i = Some d /\ i <> 16%nat).
  { intros i d Hi. pose proof (lookup_lt_Some _ _ _ Hi). split; [by apply lookup_app_l_Some|lia]. }
  assert (Hc : (cs1 ++ [c]) !! 16%nat = Some c) by (by rewrite lookup_app_r, Hl1 by lia).
  rewrite Zlen_app in Hl. pose proof (Zlen_nonneg (concat (map enc (map oref cs1)))).
  assert (Hbc : Forall is_byte (enc (oref c))).
  { apply item_bytes_enc; [|lia]. destruct c as [t|]; [|done]. apply oref_bytes. by apply (Hwf 16%nat). }
  rewrite <- Hl1. rewrite decodeChildren_trees; [| |done|by rewrite Zlen_app|].
  - cbn [obind]. destruct c as [t|].
    + destruct t as [v|?|?]; try (by pose proof (proj2 (Hval _ _ Hc) eq_refl)). pose proof (Hwf _ _ Hc) as Hwv. inversion Hwv as [? Hne Hvb| | |]; subst. cbn [oref tref is_value titem enc] in *.
      pose proof (Split_enc_str v [] Hvb ltac:(constructor)) as Hs. rewrite app_nil_r in Hs. rewrite Hs by lia. cbn [obind]. by destruct v.
    + done.
  - intros i t Hi. apply Hlook in Hi as [Hi Hne]. split; [by eapply Hwf|]. destruct (is_value t) eqn:Hv; [|done]. by apply (Hval i t Hi) in Hv.
  - intros i t r Hi. apply Hlook in Hi as [Hi Hne]. by apply (Hd i).
Qed.

Lemma item_enc_le it l : In it l -> Zlen (enc it) <= Zlen (concat (map enc l)).
Proof.
  induction l as [|x l IH]; [done|]. cbn [map concat]. rewrite Zlen_app. pose proof (Zlen_nonneg (enc x)). pose proof (Zlen_nonneg (concat (map enc l))).
  intros [-> |Hi]; [lia|]. specialize (IH Hi). lia.
Qed.

Lemma Lst_body_lt l : Zlen (concat (map enc l)) < Zlen (enc (Lst l)).
Proof. cbn [enc]. rewrite Zlen_app. unfold puthead. destruct (_ <? _); rewrite Zlen_cons; [rewrite Zlen_nil|pose proof (Zlen_nonneg (putint (Zlen (concat (map enc l)))))]; lia. Qed.

(** A node inside its parent is smaller. *)
Lemma tref_embedded t : is_value t = false -> Zlen (tbytes t) < 32 -> tref t = titem t.
Proof. intros Hv Hl. unfold tref, close. fold (tbytes t). rewrite Hv. by rewrite (proj2 (Z.ltb_lt _ _)). Qed.

Lemma decode_tbytes t : twf t -> is_value t = false -> forall fuel h rest, (length (tbytes t) < fuel)%nat -> Forall is_byte rest -> Zlen (tbytes t ++ rest) < 2 ^ 63 ->
  decodeNodeUnsafe fuel h (tbytes t ++ rest) = Ret (inr (cnode h t)).
Proof.
  intros Hw. assert (Hbody : forall l fuel rest, (length (enc (Lst l)) < fuel)%nat -> Zlen (enc (Lst l) ++ rest) < 2 ^ 63 ->
    exists fuel', fuel = S fuel' /\ (length (concat (map enc l)) < fuel')%nat /\ Zlen (concat (map enc l)) < 2 ^ 63).
  { intros l [|fuel] rest Hf Hl; [lia|]. exists fuel. pose proof (Lst_body_lt l). rewrite Zlen_app in Hl. pose proof (Zlen_nonneg rest). unfold Zlen in *. split_and!; [done|lia|lia]. }
  induction Hw as [v0 Hv Hb|k v0 Hk Hv Hb|k cs Hk Hn Hwf IH|cs Hlen Hn Hwf IH Hval]; intros Hnv fuel h rest Hf Hr Hl; [done|..]; unfold tbytes in *.
  - assert (Hw : twf (TShort k (TValue v0))) by (by constructor). pose proof (titem_bytes _ Hw) as Hib. rewrite titem_short in *.
    destruct (Hbody _ _ _ Hf Hl) as (fuel' & -> & Hf' & Hl'). cbn [decodeNodeUnsafe]. rewrite decodeBody_list by done. change (tref (TValue v0)) with (Str v0) in *. by apply decodeShort_leaf.
  - assert (Hw : twf (TShort k (TFull cs))) by (by constructor). pose proof (titem_bytes _ Hw) as Hib. rewrite titem_short in *.
    destruct (Hbody _ _ _ Hf Hl) as (fuel' & -> & Hf' & Hl'). cbn [decodeNodeUnsafe]. rewrite decodeBody_list by done. apply decodeShort_ext; try done.
    intros Hs. specialize (IH eq_refl fuel' None []). rewrite app_nil_r in IH. apply IH; [|constructor|unfold tbytes in *; lia].
    pose proof (item_enc_le (tref (TFull cs)) [Str (compact k); tref (TFull cs)] ltac:(right; by left)) as Hle. rewrite (tref_embedded (TFull cs)) in Hle at 1 by done. unfold Zlen in *. lia.
  - assert (Hw : twf (TFull cs)) by (by constructor). pose proof (titem_bytes _ Hw) as Hib. rewrite titem_full in *.
    destruct (Hbody _ _ _ Hf Hl) as (fuel' & -> & Hf' & Hl'). cbn [decodeNodeUnsafe]. rewrite decodeBody_list by done.
    assert (Hz : Zlen (map oref cs) = 17) by (unfold Zlen; by rewrite length_map, Hlen). rewrite Hz. cbn [Z.eqb Pos.eqb]. apply decodeFull_trees; try done.
    intros i t r Hi Hne Hrb Hlr Hs. assert (Hvt : is_value t = false) by (destruct (is_value t) eqn:Hvt; [by apply (Hval i t Hi) in Hvt|done]).
    apply (IH i t Hi Hvt); [|done|done]. assert (Hin : In (oref (Some t)) (map oref cs)) by (apply in_map, list_elem_of_In; by eapply list_elem_of_lookup_2).
    pose proof (item_enc_le _ _ Hin) as Hle. cbn [oref] in Hle. rewrite (tref_embedded t) in Hle at 1 by done. unfold tbytes, Zlen in *. lia.
Qed.

Lemma decodeNode_tbytes t h : twf t -> is_value t = false -> tbound t -> decodeNode h (tbytes t) = Ret (inr (cnode h t)).
Proof.
  intros Hw Hv Hb. unfold decodeNode. pose proof (decode_tbytes t Hw Hv (S (length (tbytes t))) h []) as Hd. rewrite app_nil_r in Hd.
  apply Hd; [lia|constructor|by apply tbytes_small].
Qed.

End Items.
