(* ===== verification/Trie.v ===== *)
(** * The trie (trie/trie.go, tracer.go, trie_reader.go, trie_id.go, errors.go)

    A trie is its root node, the reader it loads nodes with and the tracer of what it read,
    inserted and deleted.  [get], [insert] and [delete] go down one node at a time; nodes are
    copied on write, so they are values here.  They carry fuel, because a reader could
    answer a hash with a node that leads to it again: every nibble of the key takes a node
    and, where it is not loaded, its hash. *)

From stdpp Require Import gmap strings.
From S2P Require Import Prelude VMCommon Rlp StateTypes TrieEncoding TrieNode TrieHasher.
Import Rlp.

(** ** Errors *)

Inductive trie_error : Type :=
| ErrCommitted
| MissingNodeError (Owner NodeHash : Z) (Path : list Z) (err : option string)
| errNonConsensusNode.

(** ** The tracer *)

Record tracer : Type := mkTracer {
  inserts : gset (list Z);
  deletes : gset (list Z);
  accessList : gmap (list Z) (list Z)
}.

Definition newTracer : tracer := mkTracer ∅ ∅ ∅.

Definition onRead (path val : list Z) (t : tracer) : tracer := mkTracer (inserts t) (deletes t) (<[path := val]> (accessList t)).

Definition onInsert (path : list Z) (t : tracer) : tracer :=
  if decide (path ∈ deletes t) then mkTracer (inserts t) (deletes t ∖ {[path]}) (accessList t)
  else mkTracer ({[path]} ∪ inserts t) (deletes t) (accessList t).

Definition onDelete (path : list Z) (t : tracer) : tracer :=
  if decide (path ∈ inserts t) then mkTracer (inserts t ∖ {[path]}) (deletes t) (accessList t)
  else mkTracer (inserts t) ({[path]} ∪ deletes t) (accessList t).

Definition tracer_reset (t : tracer) : tracer := mkTracer ∅ ∅ ∅.

(** The maps are values here, so a copy is the tracer itself. *)
Definition tracer_copy (t : tracer) : tracer := mkTracer (inserts t) (deletes t) (accessList t).

(** [deletedNodes]: the paths that were read and then deleted. *)
Definition deletedNodes (t : tracer) : list (list Z) := filter (fun path => is_Some (accessList t !! path)) (elements (deletes t)).

(** ** The reader *)

(** [Reader]: the store's [Node], from owner, path and hash. *)
Definition Reader : Type := Z -> list Z -> Z -> string + list Z.

Record trieReader : Type := mkReader {
  rd_owner : Z;
  rd_reader : option Reader;
  rd_banned : option (gset (list Z))
}.

(** [Database.Reader] *)
Definition trie_database : Type := Z -> string + Reader.

Definition newTrieReader (stateRoot owner : Z) (db : trie_database) : trie_error + trieReader :=
  if (stateRoot =? 0) || (stateRoot =? EmptyRootHash) then inr (mkReader owner None None)
  else match db stateRoot with
       | inl err => inl (MissingNodeError owner stateRoot [] (Some err))
       | inr reader => inr (mkReader owner (Some reader) None)
       end.

Definition newEmptyReader : trieReader := mkReader 0 None None.

Definition reader_node (r : trieReader) (path : list Z) (hash : Z) : trie_error + list Z :=
  if match rd_banned r with Some banned => bool_decide (path ∈ banned) | None => false end
  then inl (MissingNodeError (rd_owner r) hash path None)
  else
    match rd_reader r with
    | None => inl (MissingNodeError (rd_owner r) hash path None)
    | Some reader =>
        match reader (rd_owner r) path hash with
        | inl err => inl (MissingNodeError (rd_owner r) hash path (Some err))
        | inr blob => if Zlen blob =? 0 then inl (MissingNodeError (rd_owner r) hash path None) else inr blob
        end
    end.

(** ** Walking the trie *)

(** A walk changes the tracer and may return an error. *)
Definition W (A : Type) : Type := M tracer (trie_error + A).

Definition wret {A} (a : A) : W A := mret (inr a).
Definition werr {A} (e : trie_error) : W A := mret (inl e).

(** [if err != nil { return ..., err }] *)
Definition wbind {A B} (m : W A) (k : A -> W B) : W B := mthen m (fun r => match r with inl e => werr e | inr a => k a end).

Notation "'let?' x ':=' m 'in' k" := (wbind m (fun x => k)) 
  (at level 10, x pattern, m at level 100, k at level 200) : go_scope.

(** [newFlag] *)
Definition newFlag : nodeFlag := mkFlag None true.

Section Walk.
Context (reader : trieReader).

Definition resolveAndTrack (n prefix : list Z) : W node :=
  match reader_node reader prefix (BytesToHash n) with
  | inl err => werr err
  | inr blob =>
      mmodify (onRead prefix blob) ;;;
      let* n := mlift (mustDecodeNode (Some n) blob) in
      wret n
  end.

Definition resolve (n : node) (prefix : list Z) : W node :=
  match n with hashNode h => resolveAndTrack h prefix | _ => wret n end.

(** [get]: the value, the node with what was resolved, and whether any was. *)
Fixpoint get (fuel : nat) (origNode : node) (key : list Z) (pos : Z) : W (option (list Z) * node * bool) :=
  match fuel with
  | O => mlift OutOfFuel
  | S fuel =>
      match origNode with
      | nilNode => wret (None, nilNode, false)
      | valueNode v => wret (Some v, origNode, false)
      | shortNode nKey nVal fl =>
          if Zlen key - pos <? Zlen nKey then wret (None, origNode, false)
          else
            let* part := mlift (go_slice key pos (pos + Zlen nKey)) in
            if negb (bool_decide (nKey = part)) then wret (None, origNode, false)
            else
              let? (value, newnode, didResolve) := get fuel nVal key (pos + Zlen nKey) in
              wret (value, if didResolve : bool then shortNode nKey newnode fl else origNode, didResolve)
      | fullNode cs fl =>
          let* x := mlift (go_index key pos) in
          let* child := mlift (go_index cs x) in
          let? (value, newnode, didResolve) := get fuel child key (pos + 1) in
          if didResolve : bool then
            let* cs := mlift (go_set cs x newnode) in
            wret (value, fullNode cs fl, didResolve)
          else wret (value, origNode, didResolve)
      | hashNode h =>
          let* prefix := mlift (go_slice key 0 pos) in
          let? child := resolveAndTrack h prefix in
          let? (value, newnode, _) := get fuel child key pos in
          wret (value, newnode, true)
      | rawNode _ => mlift Panic
      end
  end.

(** [getNode]: the blob of the node at a path, and how many nodes were resolved. *)
Fixpoint getNode (fuel : nat) (origNode : node) (path : list Z) (pos : Z) : W (option (list Z) * node * Z) :=
  match fuel with
  | O => mlift OutOfFuel
  | S fuel =>
      match origNode with
      | nilNode => wret (None, nilNode, 0)
      | _ =>
        if Zlen path <=? pos then
          let* hash := (match origNode with
                        | hashNode h => mret (Some h)
                        | _ => let* (h, _) := mlift (cache origNode) in mret h
                        end) in
          match hash with
          | None => werr errNonConsensusNode
          | Some hash =>
              match reader_node reader path (BytesToHash hash) with
              | inl err => werr err
              | inr blob => wret (Some blob, origNode, 1)
              end
          end
        else
          match origNode with
          | valueNode _ => wret (None, nilNode, 0)
          | shortNode nKey nVal fl =>
              if Zlen path - pos <? Zlen nKey then wret (None, origNode, 0)
              else
                let* part := mlift (go_slice path pos (pos + Zlen nKey)) in
                if negb (bool_decide (nKey = part)) then wret (None, origNode, 0)
                else
                  let? (item, newnode, resolved) := getNode fuel nVal path (pos + Zlen nKey) in
                  wret (item, if 0 <? resolved then shortNode nKey newnode fl else origNode, resolved)
          | fullNode cs fl =>
              let* x := mlift (go_index path pos) in
              let* child := mlift (go_index cs x) in
              let? (item, newnode, resolved) := getNode fuel child path (pos + 1) in
              if 0 <? resolved then
                let* cs := mlift (go_set cs x newnode) in
                wret (item, fullNode cs fl, resolved)
              else wret (item, origNode, resolved)
          | hashNode h =>
              let* prefix := mlift (go_slice path 0 pos) in
              let? child := resolveAndTrack h prefix in
              let? (item, newnode, resolved) := getNode fuel child path pos in
              wret (item, newnode, resolved + 1)
          | _ => mlift Panic
          end
      end
  end.

(** [insert]: whether the node changed, and the node. *)
Fixpoint insert (fuel : nat) (n : node) (prefix key : list Z) (value : node) : W (bool * node) :=
  match fuel with
  | O => mlift OutOfFuel
  | S fuel =>
      if Zlen key =? 0 then
        match n with
        | valueNode v => match value with valueNode v' => wret (negb (bool_decide (v = v')), value) | _ => mlift Panic end
        | _ => wret (true, value)
        end
      else
        match n with
        | shortNode nKey nVal _ =>
            let matchlen := prefixLen key nKey in
            if (matchlen =? length nKey)%nat then
              let? (dirty, nn) := insert fuel nVal (prefix ++ take matchlen key) (drop matchlen key) value in
              if negb dirty then wret (false, n) else wret (true, shortNode nKey nn newFlag)
            else
              let* y := mlift (go_index nKey (Z.of_nat matchlen)) in
              let? (_, c) := insert fuel nilNode (prefix ++ take (S matchlen) nKey) (drop (S matchlen) nKey) nVal in
              let* cs := mlift (go_set (replicate 17 nilNode) y c) in
              let* x := mlift (go_index key (Z.of_nat matchlen)) in
              let? (_, c) := insert fuel nilNode (prefix ++ take (S matchlen) key) (drop (S matchlen) key) value in
              let* cs := mlift (go_set cs x c) in
              let branch := fullNode cs newFlag in
              if (matchlen =? 0)%nat then wret (true, branch)
              else
                mmodify (onInsert (prefix ++ take matchlen key)) ;;;
                wret (true, shortNode (take matchlen key) branch newFlag)
        | fullNode cs _ =>
            let* x := mlift (go_index key 0) in
            let* child := mlift (go_index cs x) in
            let? (dirty, nn) := insert fuel child (prefix ++ [x]) (drop 1 key) value in
            if negb dirty then wret (false, n)
            else
              let* cs := mlift (go_set cs x nn) in
              wret (true, fullNode cs newFlag)
        | nilNode =>
            mmodify (onInsert prefix) ;;;
            wret (true, shortNode key value newFlag)
        | hashNode h =>
            let? rn := resolveAndTrack h prefix in
            let? (dirty, nn) := insert fuel rn prefix key value in
            if negb dirty then wret (false, rn) else wret (true, nn)
        | _ => mlift Panic
        end
  end.

(** The loop of [delete] over the children: the index of the only one, -1 if there is
    none and -2 if there are several. *)
Fixpoint remaining (cs : list node) (i pos : Z) : Z :=
  match cs with
  | [] => pos
  | nilNode :: cs => remaining cs (i + 1) pos
  | _ :: cs => if pos =? -1 then remaining cs (i + 1) i else -2
  end.

Fixpoint delete (fuel : nat) (n : node) (prefix key : list Z) : W (bool * node) :=
  match fuel with
  | O => mlift OutOfFuel
  | S fuel =>
      match n with
      | shortNode nKey nVal _ =>
          let matchlen := prefixLen key nKey in
          if (matchlen <? length nKey)%nat then wret (false, n)
          else if (matchlen =? length key)%nat then
            mmodify (onDelete prefix) ;;;
            wret (true, nilNode)
          else
            let? (dirty, child) := delete fuel nVal (prefix ++ take (length nKey) key) (drop (length nKey) key) in
            if negb dirty then wret (false, n)
            else
              match child with
              | shortNode cKey cVal _ =>
                  mmodify (onDelete (prefix ++ nKey)) ;;;
                  wret (true, shortNode (nKey ++ cKey) cVal newFlag)
              | _ => wret (true, shortNode nKey child newFlag)
              end
      | fullNode cs _ =>
          let* x := mlift (go_index key 0) in
          let* child := mlift (go_index cs x) in
          let? (dirty, nn) := delete fuel child (prefix ++ [x]) (drop 1 key) in
          if negb dirty then wret (false, n)
          else
            let* cs := mlift (go_set cs x nn) in
            match nn with
            | nilNode =>
                let pos := remaining cs 0 (-1) in
                if 0 <=? pos then
                  let* child := mlift (go_index cs pos) in
                  let? cnode := (if pos =? 16 then wret nilNode else resolve child (prefix ++ [pos])) in
                  match cnode with
                  | shortNode cKey cVal _ =>
                      mmodify (onDelete (prefix ++ [pos])) ;;;
                      wret (true, shortNode (pos :: cKey) cVal newFlag)
                  | _ => wret (true, shortNode [pos] child newFlag)
                  end
                else wret (true, fullNode cs newFlag)
            | _ => wret (true, fullNode cs newFlag)
            end
      | valueNode _ => wret (true, nilNode)
      | nilNode => wret (false, nilNode)
      | hashNode h =>
          let? rn := resolveAndTrack h prefix in
          let? (dirty, nn) := delete fuel rn prefix key in
          if negb dirty then wret (false, rn) else wret (true, nn)
      | rawNode _ => mlift Panic
      end
  end.

End Walk.

(** ** The trie *)

Record Trie : Type := mkTrie {
  t_root : node;
  t_owner : Z;
  t_committed : bool;
  t_unhashed : Z;
  t_reader : trieReader;
  t_tracer : tracer
}.

Definition set_root (n : node) (t : Trie) : Trie := mkTrie n (t_owner t) (t_committed t) (t_unhashed t) (t_reader t) (t_tracer t).
Definition set_committed (b : bool) (t : Trie) : Trie := mkTrie (t_root t) (t_owner t) b (t_unhashed t) (t_reader t) (t_tracer t).
Definition set_unhashed (n : Z) (t : Trie) : Trie := mkTrie (t_root t) (t_owner t) (t_committed t) n (t_reader t) (t_tracer t).
Definition set_tracer (tr : tracer) (t : Trie) : Trie := mkTrie (t_root t) (t_owner t) (t_committed t) (t_unhashed t) (t_reader t) tr.

(** [Copy]: nodes are never modified in place. *)
Definition Copy (t : Trie) : Trie := mkTrie (t_root t) (t_owner t) (t_committed t) (t_unhashed t) (t_reader t) (tracer_copy (t_tracer t)).

(** A walk from a method of the trie. *)
Definition walk {A} (m : trieReader -> W A) : M Trie (trie_error + A) := fun t =>
  let! (r, tr) := m (t_reader t) (t_tracer t) in
  Ret (r, set_tracer tr t).

(** Every nibble of the key takes two steps at most, and so does its end. *)
Definition walk_fuel (key : list Z) : nat := 2 * length key + 2.

Record ID : Type := mkID { id_StateRoot : Z; id_Owner : Z; id_Root : Z }.

Definition StateTrieID (root : Z) : ID := mkID root 0 root.
Definition StorageTrieID (stateRoot owner root : Z) : ID := mkID stateRoot owner root.
Definition TrieID (root : Z) : ID := mkID root 0 root.

Definition New (id : ID) (db : trie_database) : outcome (trie_error + Trie) :=
  match newTrieReader (id_StateRoot id) (id_Owner id) db with
  | inl err => Ret (inl err)
  | inr reader =>
      let trie := mkTrie nilNode (id_Owner id) false 0 reader newTracer in
      if negb (id_Root id =? 0) && negb (id_Root id =? EmptyRootHash) then
        let! (r, trie) := walk (fun reader => resolveAndTrack reader (HashBytes (id_Root id)) []) trie in
        Ret (match r with inl err => inl err | inr rootnode => inr (set_root rootnode trie) end)
      else Ret (inr trie)
  end.

(** [NewEmpty] drops the error. *)
Definition NewEmpty (db : trie_database) : outcome (option Trie) :=
  let! r := New (TrieID EmptyRootHash) db in
  Ret (match r with inl _ => None | inr t => Some t end).

Definition Get (key : list Z) : M Trie (trie_error + option (list Z)) :=
  let* t := mget in
  if t_committed t then mret (inl ErrCommitted)
  else
    let k := keybytesToHex key in
    let* r := walk (fun reader => get reader (walk_fuel k) (t_root t) k 0) in
    match r with
    | inl err => mret (inl err)
    | inr (value, newroot, didResolve) =>
        (if didResolve : bool then mmodify (set_root newroot) else mret tt) ;;;
        mret (inr value)
    end.

Definition GetNode (path : list Z) : M Trie (trie_error + option (list Z) * Z) :=
  let* t := mget in
  if t_committed t then mret (inl ErrCommitted)
  else
    let* p := mlift (compactToHex path) in
    let* r := walk (fun reader => getNode reader (walk_fuel p) (t_root t) p 0) in
    match r with
    | inl err => mret (inl err)
    | inr (item, newroot, resolved) =>
        (if 0 <? resolved then mmodify (set_root newroot) else mret tt) ;;;
        mret (inr (item, resolved))
    end.

(** [update]: an empty value deletes the key. *)
Definition update (key value : list Z) : M Trie (trie_error + unit) :=
  mmodify (fun t => set_unhashed (t_unhashed t + 1) t) ;;;
  let* t := mget in
  let k := keybytesToHex key in
  let* r := (if negb (Zlen value =? 0) then walk (fun reader => insert reader (walk_fuel k) (t_root t) [] k (valueNode value))
             else walk (fun reader => delete reader (walk_fuel k) (t_root t) [] k)) in
  match r with
  | inl err => mret (inl err)
  | inr (_, n) => mmodify (set_root n) ;;; mret (inr tt)
  end.

Definition Update (key value : list Z) : M Trie (trie_error + unit) :=
  let* t := mget in
  if t_committed t then mret (inl ErrCommitted) else update key value.

Definition Delete (key : list Z) : M Trie (trie_error + unit) :=
  let* t := mget in
  if t_committed t then mret (inl ErrCommitted)
  else
    mmodify (fun t => set_unhashed (t_unhashed t + 1) t) ;;;
    let k := keybytesToHex key in
    let* r := walk (fun reader => delete reader (walk_fuel k) (t_root t) [] k) in
    match r with
    | inl err => mret (inl err)
    | inr (_, n) => mmodify (set_root n) ;;; mret (inr tt)
    end.

Section Hashing.
Context {C : Crypto}.

Definition hashRoot : M Trie (node * node) :=
  let* t := mget in
  if is_nil (t_root t) then mret (hashNode (HashBytes EmptyRootHash), nilNode)
  else
    let* r := mlift (hash (t_root t) true) in
    mmodify (set_unhashed 0) ;;;
    mret r.

Definition Hash : M Trie Z :=
  let* (h, cached) := hashRoot in
  mmodify (set_root cached) ;;;
  match h with hashNode h => mret (BytesToHash h) | _ => mlift Panic end.

End Hashing.

(** [Trie.Reset] *)
Definition Trie_Reset (t : Trie) : Trie := mkTrie nilNode 0 false 0 (t_reader t) (tracer_reset (t_tracer t)).
