(* ===== verification/TrieSim.v ===== *)
(** * Tries in memory and reference tries

    A node of a trie stands for a reference trie ([expands]): loaded nodes match it node by
    node, a hash stands for a subtree that the reader has.  The walks of Trie.v on a node
    compute the operations of TrieTree.v on the tree it stands for, keep the cached hashes
    and the tracer right, and fail only when the reader lacks a node. *)

From stdpp Require Import gmap strings.
From S2P Require Import Prelude VMCommon Rlp StateTypes TrieEncoding TrieNode TrieHasher TrieTree TrieCodec Trie.
Import Rlp.

(** Steps of the state monad. *)
Ltac mrun := unfold mthen, mget, mret, mmodify; cbn [obind fst snd].

(** ** Subtrees *)

(** The subtree at a path. *)
Inductive sub : tree -> list Z -> tree -> Prop :=
| sub_here t : sub t [] t
| sub_short k t r u : sub t r u -> sub (TShort k t) (k ++ r) u
| sub_full cs i t r u : cs !! i = Some (Some t) -> sub t r u -> sub (TFull cs) (Z.of_nat i :: r) u.

(** A node of the tree that is not a value is at this path. *)
Definition live (t : tree) (r : list Z) : Prop := exists u, sub t r u /\ is_value u = false.

Section Sim.
Context {C : Crypto}.
(** The reader, and whether it has all the nodes. *)
Context (reader : trieReader) (complete : bool).

(** A node is called by its hash: the root always, others when they are long. *)
Definition hashed (top : bool) (t : tree) : Prop := top = true \/ 32 <= Zlen (tbytes t).

(** The reader has the node, or lacks it; it never gives another one. *)
Definition answers (p : list Z) (t : tree) : Prop :=
  match reader_node reader p (BytesToHash (thash t)) with
  | inr blob => blob = tbytes t
  | inl _ => complete = false
  end.

(** The reader answers for a tree. *)
Definition stored (top : bool) (p : list Z) (t : tree) : Prop :=
  forall r u, sub t r u -> is_value u = false -> hashed (if decide (r = []) then top else false) u -> answers (p ++ r) u.

(** The flags of a node that stands for [t]: a cached hash is its hash, a clean node is in
    the store, and a node that needs one has a hash if all were computed. *)
Record flag_ok (full top : bool) (p : list Z) (fl : nodeFlag) (t : tree) : Prop := {
  flag_ok_hash : forall h, flag_hash fl = Some h -> h = thash t /\ hashed top t;
  flag_ok_clean : flag_dirty fl = false -> stored top p t;
  flag_ok_done : full = true -> hashed top t -> flag_hash fl <> None
}.

Definition has_hash (fl : nodeFlag) : bool := match flag_hash fl with Some _ => true | None => false end.

Inductive expands : bool -> bool -> list Z -> node -> option tree -> Prop :=
| ex_nil full top p : expands full top p nilNode None
| ex_value full top p v : expands full top p (valueNode v) (Some (TValue v))
| ex_hash full top p t : is_value t = false -> hashed top t -> stored top p t -> expands full top p (hashNode (thash t)) (Some t)
| ex_short full top p k n t fl : expands (full || has_hash fl) false (p ++ k) n (Some t) -> flag_ok full top p fl (TShort k t) ->
    expands full top p (shortNode k n fl) (Some (TShort k t))
| ex_full full top p ns cs fl : length ns = length cs ->
    (forall i n c, ns !! i = Some n -> cs !! i = Some c -> expands (full || has_hash fl) false (p ++ [Z.of_nat i]) n c) ->
    flag_ok full top p fl (TFull cs) ->
    expands full top p (fullNode ns fl) (Some (TFull cs)).

(** ** Basic facts *)

Lemma flag_weaken full top p fl t : flag_ok full top p fl t -> flag_ok false top p fl t.
Proof. intros [H1 H2 H3]. by split. Qed.

Lemma expands_weaken full top p n o : expands full top p n o -> expands false top p n o.
Proof.
  induction 1 as [| | |full top p k n t fl He IH Hf|full top p ns cs fl Hl Hc IH Hf]; try by constructor.
  - constructor; [|by eapply flag_weaken]. destruct (has_hash fl) eqn:Hh; cbn; [by rewrite orb_true_r in He|done].
  - constructor; [done| |by eapply flag_weaken]. intros i n c Hn Hi. destruct (has_hash fl) eqn:Hh; cbn; [specialize (Hc i n c Hn Hi); by rewrite orb_true_r in Hc|by eapply IH].
Qed.

Lemma flag_new top p t : flag_ok false top p newFlag t.
Proof. by split. Qed.

Lemma expands_nil full top p n : expands full top p n None -> n = nilNode.
Proof. by inversion 1. Qed.

Lemma expands_Some full top p t : ~ expands full top p nilNode (Some t).
Proof. by inversion 1. Qed.

Lemma stored_short top p k t : twf (TShort k t) -> stored top p (TShort k t) -> stored false (p ++ k) t.
Proof.
  intros Hw Hs r u Hu Hv Hh. pose proof (Hs (k ++ r) u (sub_short k t r u Hu) Hv) as Ha. rewrite <- app_assoc. apply Ha.
  apply wf_short_key in Hw as [Hk _]. rewrite decide_False by (by destruct k). by destruct (decide (r = [])).
Qed.

Lemma stored_full top p cs i t : stored top p (TFull cs) -> cs !! i = Some (Some t) -> stored false (p ++ [Z.of_nat i]) t.
Proof.
  intros Hs Hi r u Hu Hv Hh. pose proof (Hs (Z.of_nat i :: r) u (sub_full cs i t r u Hi Hu) Hv) as Ha. rewrite <- app_assoc. apply Ha. by destruct (decide (r = [])).
Qed.

(** The hash a node was decoded with: none inside its parent. *)
Definition decoded (top : bool) (h : option (list Z)) (t : tree) : Prop :=
  match h with None => top = false /\ Zlen (tbytes t) < 32 | Some b => b = thash t /\ hashed top t end.

Lemma flag_decoded full top p h t : decoded top h t -> stored top p t -> flag_ok full top p (mkFlag h false) t.
Proof.
  intros Hd Hs. split; cbn; [by intros b ->|done|]. intros _ Ht ->. destruct Hd as [-> Hl]. destruct Ht; [done|lia].
Qed.

Lemma expands_cref full p t : stored false p t ->
  (is_value t = false -> decoded false None t -> expands full false p (cnode None t) (Some t)) -> expands full false p (cref t) (Some t).
Proof.
  intros Hs Hc. unfold cref. destruct (is_value t) eqn:Hv; [destruct t; try done; constructor|].
  destruct (Z.ltb_spec (Zlen (tbytes t)) 32); [by apply Hc|]. constructor; try done. by right.
Qed.

Lemma expands_cnode t : twf t -> forall full top p h, is_value t = false -> decoded top h t -> stored top p t -> expands full top p (cnode h t) (Some t).
Proof.
  induction 1 as [v0 Hv Hb|k v0 Hk Hv Hb|k cs Hk Hn Hwf IH|cs Hlen Hn Hwf IH Hval]; intros full top p h Hnv Hd Hs; [done|..].
  - rewrite cnode_short. constructor; [constructor|by apply flag_decoded].
  - rewrite cnode_short. assert (Hs' : stored false (p ++ k) (TFull cs)) by (apply (stored_short top p k); [by constructor|done]).
    constructor; [|by apply flag_decoded]. apply expands_cref; [done|]. intros _ Hd'. by apply IH.
  - rewrite cnode_full. constructor; [by rewrite length_map| |by apply flag_decoded].
    intros i n c Hni Hci. rewrite list_lookup_fmap, Hci in Hni. injection Hni as <-. destruct c as [t|]; [|constructor]. cbn [ocref].
    assert (Hs' : stored false (p ++ [Z.of_nat i]) t) by (by eapply stored_full). apply expands_cref; [done|]. intros Hv Hd'. by apply (IH i t).
Qed.

(** ** Loading a node *)

Definition is_hash (n : node) : nat := match n with hashNode _ => 1 | _ => 0 end.

Lemma is_hash_cnode h t : is_hash (cnode h t) = 0%nat.
Proof. by destruct t. Qed.

(** Nothing but the access list changed. *)
Definition same_changes (tr tr' : tracer) : Prop := inserts tr' = inserts tr /\ deletes tr' = deletes tr.

(** ** Running a walk *)

Definition missing (e : trie_error) : Prop := match e with MissingNodeError _ _ _ _ => True | _ => False end.

Lemma reader_node_missing p h e : reader_node reader p h = inl e -> missing e.
Proof. unfold reader_node. intros He. repeat (case_match; simplify_eq; try done). Qed.

(** The walk ends without panic and with enough fuel; it fails only if the reader lacks a
    node, leaving the tracer as [E] says, and its result is as [Q] says. *)
Definition runs {A} (m : W A) (tr : tracer) (E : tracer -> Prop) (Q : A -> tracer -> Prop) : Prop :=
  exists r tr', m tr = Ret (r, tr') /\ match r with inl e => complete = false /\ missing e /\ E tr' | inr a => Q a tr' end.

Lemma runs_ret {A} (a : A) tr E Q : Q a tr -> runs (wret a) tr E Q.
Proof. by exists (inr a), tr. Qed.

Lemma runs_bind {A B} (m : W A) (k : A -> W B) tr E E' P Q :
  runs m tr E' P -> (forall tr', E' tr' -> E tr') -> (forall a tr', P a tr' -> runs (k a) tr' E Q) -> runs (wbind m k) tr E Q.
Proof.
  intros (r & tr' & Hm & Hr) HE Hk. unfold runs, wbind, mthen. rewrite Hm. cbn [obind]. destruct r as [e|a]; [|by apply Hk]. exists (inl e), tr'. naive_solver.
Qed.

Lemma runs_lift {A B} (o : outcome A) a (k : A -> W B) tr E Q : o = Ret a -> runs (k a) tr E Q -> runs (let* x := mlift o in k x) tr E Q.
Proof. intros -> Hk. exact Hk. Qed.

Lemma runs_modify {B} f (k : W B) tr E Q : runs k (f tr) E Q -> runs (mmodify f ;;; k) tr E Q.
Proof. intros Hk. exact Hk. Qed.

Lemma runs_post {A} (m : W A) tr E Q Q' : runs m tr E Q -> (forall a tr', Q a tr' -> Q' a tr') -> runs m tr E Q'.
Proof. intros (r & tr' & Hm & Hr) HQ. exists r, tr'. split; [done|]. destruct r; auto. Qed.

Lemma same_refl tr : same_changes tr tr.
Proof. done. Qed.

Lemma same_trans tr1 tr2 tr3 : same_changes tr1 tr2 -> same_changes tr2 tr3 -> same_changes tr1 tr3.
Proof. intros [H1 H2] [H3 H4]. split; congruence. Qed.

Lemma resolve_runs top p t tr : twf t -> is_value t = false -> tbound t -> hashed top t -> stored top p t ->
  runs (resolveAndTrack reader (thash t) p) tr (same_changes tr) (fun n tr' => same_changes tr tr' /\ n = cnode (Some (thash t)) t).
Proof.
  intros Hw Hv Hb Hh Hs. assert (Ha : answers p t).
  { pose proof (Hs [] t (sub_here t) Hv) as Ha. rewrite app_nil_r in Ha. by apply Ha. }
  unfold answers in Ha. unfold runs, resolveAndTrack. destruct (reader_node reader p (BytesToHash (thash t))) as [e|blob] eqn:Hr.
  - exists (inl e), tr. split; [done|]. split_and!; [done|by eapply reader_node_missing|done].
  - subst blob. exists (inr (cnode (Some (thash t)) t)), (onRead p (tbytes t) tr). unfold mustDecodeNode. unfold mthen, mmodify, mlift, wret, mret. cbn [obind].
    by rewrite decodeNode_tbytes by done.
Qed.

(** ** Children *)

Definition kids (full : bool) (p : list Z) (ns : list node) (cs : list (option tree)) : Prop :=
  length ns = length cs /\ forall i n c, ns !! i = Some n -> cs !! i = Some c -> expands full false (p ++ [Z.of_nat i]) n c.

Lemma kids_insert full p ns cs x n c : kids full p ns cs -> expands full false (p ++ [Z.of_nat x]) n c -> kids full p (<[x := n]> ns) (<[x := c]> cs).
Proof.
  intros [Hl Hk] He. split; [by rewrite !length_insert|]. intros i n' c' Hn Hc. destruct (decide (i = x)) as [-> |Hne].
  - apply list_lookup_insert_Some in Hn as [(_ & -> & Hb)|[? _]]; [|done]. rewrite list_lookup_insert_eq in Hc by lia. by simplify_eq.
  - rewrite list_lookup_insert_ne in Hn by done. rewrite list_lookup_insert_ne in Hc by done. eauto.
Qed.

Lemma kids_weaken full p ns cs : kids full p ns cs -> kids false p ns cs.
Proof. intros [Hl Hk]. split; [done|]. intros i n c Hn Hc. eapply expands_weaken, Hk; eauto. Qed.

(** The child that a key leads to. *)
Lemma kids_lookup full p ns cs x r : length cs = 17%nat -> kids full p ns cs -> valid_key (x :: r) ->
  exists n c, go_index ns x = Ret n /\ ns !! Z.to_nat x = Some n /\ cs !! Z.to_nat x = Some c /\ expands full false (p ++ [x]) n c /\
    (forall n', go_set ns x n' = Ret (<[Z.to_nat x := n']> ns)).
Proof.
  intros Hlen [Hl Hk] Hv. destruct (valid_key_index _ _ Hv) as [Hx Hxx]. destruct (lookup_lt_is_Some_2 ns (Z.to_nat x)) as [n Hn]; [lia|].
  destruct (lookup_lt_is_Some_2 cs (Z.to_nat x)) as [c Hc]; [lia|]. exists n, c. split_and!; [|done|done|rewrite <- Hxx at 1; by apply Hk|].
  - unfold go_index. by rewrite (proj2 (Z.leb_le _ _)), Hn by lia.
  - intros n'. unfold go_set, Zlen. rewrite (proj2 (Z.leb_le _ _)), (proj2 (Z.ltb_lt _ _)) by lia. done.
Qed.

Definition owf (o : option tree) : Prop := match o with None => True | Some t => twf t end.
Definition obound (o : option tree) : Prop := match o with None => True | Some t => tbound t end.
Definition ofits (o : option tree) (key : list Z) : Prop := match o with None => True | Some t => fits t key end.

(** What a full node gives to the child that a key leads to. *)
Lemma child_facts cs x r c : twf (TFull cs) -> tbound (TFull cs) -> valid_key (x :: r) -> cs !! Z.to_nat x = Some c -> owf c /\ obound c /\ ofits c r.
Proof.
  intros Hw Hb Hv Hc. inversion Hw as [| | |? Hlen Hn Hwf Hval]; subst. destruct c as [t|]; [|done]. cbn. split_and!; [by eapply Hwf|by eapply tbound_child|by eapply fits_child].
Qed.

Lemma short_wf k t : twf (TShort k t) -> twf t.
Proof. inversion 1; subst; [by constructor|done]. Qed.

(** ** [get] *)

(** How [get] compares the key with the key of a short node. *)
Lemma short_guard p key k t :
  (exists r, key = k ++ r) \/
  (tget (TShort k t) key = None /\
   ((Zlen (p ++ key) - Zlen p <? Zlen k) = true \/
    (Zlen (p ++ key) - Zlen p <? Zlen k) = false /\ exists part, go_slice (p ++ key) (Zlen p) (Zlen p + Zlen k) = Ret part /\ k <> part)).
Proof.
  destruct (decide (take (length k) key = k)) as [He|He]; [left; exists (drop (length k) key); by rewrite <- He at 1; rewrite take_drop|right].
  split; [cbn [tget]; by rewrite bool_decide_eq_false_2|]. rewrite Zlen_app. replace (Zlen p + Zlen key - Zlen p) with (Zlen key) by lia.
  destruct (Z.ltb_spec (Zlen key) (Zlen k)) as [|Hle]; [by left|right; split; [done|]]. exists (take (length k) key). split; [|congruence].
  pose proof (Zlen_nonneg p). pose proof (Zlen_nonneg k). rewrite go_slice_Ret by (rewrite ?Zlen_app; lia). replace (Zlen p + Zlen k - Zlen p) with (Zlen k) by lia.
  unfold Zlen. by rewrite !Nat2Z.id, drop_app_length.
Qed.

Lemma short_slice (p k r : list Z) : (Zlen (p ++ k ++ r) - Zlen p <? Zlen k) = false /\ go_slice (p ++ k ++ r) (Zlen p) (Zlen p + Zlen k) = Ret k.
Proof.
  pose proof (Zlen_nonneg p). pose proof (Zlen_nonneg k). pose proof (Zlen_nonneg r). split; [apply Z.ltb_ge; rewrite !Zlen_app; lia|].
  rewrite go_slice_Ret by (rewrite ?Zlen_app; lia). replace (Zlen p + Zlen k - Zlen p) with (Zlen k) by lia. unfold Zlen. by rewrite !Nat2Z.id, drop_app_length, take_app_length.
Qed.

Lemma get_sim fuel : forall full top p n o key tr, expands full top p n o -> owf o -> obound o -> ofits o key -> (2 * length key + is_hash n < fuel)%nat ->
  runs (get reader fuel n (p ++ key) (Zlen p)) tr (same_changes tr)
    (fun '(v, n', resolved) tr' => same_changes tr tr' /\ v = oget o key /\ expands full top p n' o /\ (resolved = false -> n' = n)).
Proof.
  induction fuel as [|fuel IH]; intros full top p n o key tr He Hw Hb Hf Hfuel; [lia|].
  inversion He as [| |? ? ? t Hv Hh Hs|? ? ? k n' t fl Hc Hfl|? ? ? ns cs fl Hl Hc Hfl]; subst; cbn [get].
  - by apply runs_ret.
  - apply runs_ret. cbn in Hf. by subst.
  - apply (runs_lift _ p); [by apply go_slice_take|]. eapply runs_bind; [by apply (resolve_runs top)|done|].
    intros n' tr2 [Hsame2 ->]. eapply runs_bind; [apply (IH full top p _ (Some t)); try done; [by apply expands_cnode|rewrite is_hash_cnode; cbn in Hfuel; lia]|intros ? ?; by eapply same_trans|].
    intros [[v n2] d] tr3 (H1 & H2 & H3 & _). apply runs_ret. split_and!; try done. by eapply same_trans.
  - destruct (short_guard p key k t) as [(r & ->)|(Hg & [Hd|[Hd (part & Hp & Hne)]])].
    + destruct (short_slice p k r) as [-> Hsl]. eapply runs_lift; [exact Hsl|]. rewrite bool_decide_eq_true_2 by done. cbn [negb]. destruct (wf_short_key k t Hw) as [Hk _].
      rewrite <- Zlen_app, app_assoc. eapply runs_bind; [apply (IH (full || has_hash fl) false (p ++ k) n' (Some t) r); try done|done|].
      * by eapply short_wf. * by eapply tbound_short. * by eapply fits_deeper.
      * rewrite length_app in Hfuel. destruct k; [done|]. cbn in *. destruct n'; cbn; lia.
      * intros [[v n2] d] tr3 (H1 & H2 & H3 & H4). apply runs_ret. cbn [oget]. rewrite tget_short_app. split_and!; try done; [|by intros ->].
        destruct d; [by constructor|done].
    + rewrite Hd. apply runs_ret. cbn [oget]. by rewrite Hg.
    + rewrite Hd. eapply runs_lift; [exact Hp|]. rewrite bool_decide_eq_false_2 by done. cbn [negb]. apply runs_ret. cbn [oget]. by rewrite Hg.
  - destruct key as [|x r]; [by apply valid_key_nil in Hf|]. change (valid_key (x :: r)) in Hf. inversion Hw as [| | |? Hlen Hn Hwf Hval]; subst.
    destruct (kids_lookup (full || has_hash fl) p ns cs x r Hlen) as (n & c & Hi & Hn' & Hci & Hex & Hset); [by split|done|]. destruct (child_facts cs x r c) as (W1 & W2 & W3); try done.
    eapply runs_lift; [by apply go_index_app_r|]. eapply runs_lift; [exact Hi|]. replace (p ++ x :: r) with ((p ++ [x]) ++ r) by (by rewrite <- app_assoc).
    replace (Zlen p + 1) with (Zlen (p ++ [x])) by (by rewrite Zlen_app).
    eapply runs_bind; [apply (IH (full || has_hash fl) false (p ++ [x]) n c r); try done; cbn [length] in Hfuel; destruct n; cbn in *; lia|done|].
    intros [[v n2] d] tr3 (H1 & H2 & H3 & H4). destruct (valid_key_index _ _ Hf) as [Hx Hxx].
    assert (Hg : v = oget (Some (TFull cs)) (x :: r)) by (cbn [oget]; rewrite tget_full, Hci; by destruct c).
    destruct d; [|by apply runs_ret]. eapply runs_lift; [apply Hset|]. apply runs_ret. split_and!; try done.
    destruct (kids_insert (full || has_hash fl) p ns cs (Z.to_nat x) n2 c) as [K1 K2]; [by split|by rewrite Hxx|]. rewrite (list_insert_id cs _ c) in K1, K2 by done.
    by constructor.
Qed.

End Sim.
