(* ===== verification/TrieUpdate.v ===== *)
(** * Insertion and deletion in tries

    [insert] and [delete] compute [tinsert] and [tdelete] on the tree a node stands for. *)

From stdpp Require Import gmap strings.
From S2P Require Import Prelude VMCommon Rlp StateTypes TrieEncoding TrieNode TrieHasher TrieTree TrieCodec Trie TrieSim.
Import Rlp.

(** ** Nodes in the tree and deletions in the tracer *)

Lemma live_value v r : ~ live (TValue v) r.
Proof. intros (u & Hs & Hv). by inversion Hs; subst. Qed.

Lemma live_short k t r : live (TShort k t) r <-> r = [] \/ exists r', r = k ++ r' /\ live t r'.
Proof.
  split.
  - intros (u & Hs & Hv). inversion Hs; subst; [by left|]. right. eexists. split; [done|]. by exists u.
  - intros [-> |(r' & -> & u & Hs & Hv)]; [exists (TShort k t); by split; [constructor|]|]. exists u. split; [by constructor|done].
Qed.

Lemma live_full cs r : live (TFull cs) r <-> r = [] \/ exists i t r', cs !! i = Some (Some t) /\ r = Z.of_nat i :: r' /\ live t r'.
Proof.
  split.
  - intros (u & Hs & Hv). inversion Hs; subst; [by left|]. right. do 3 eexists. split_and!; [done|done|]. by exists u.
  - intros [-> |(i & t & r' & Hi & -> & u & Hs & Hv)]; [exists (TFull cs); by split; [constructor|]|]. exists u. split; [by econstructor|done].
Qed.

(** No node of the tree is recorded as deleted. *)
Definition clear (tr : tracer) (p : list Z) (t : tree) : Prop := forall r, live t r -> p ++ r ∉ deletes tr.
Definition oclear (tr : tracer) (p : list Z) (o : option tree) : Prop := match o with None => True | Some t => clear tr p t end.

Lemma clear_value tr p v : clear tr p (TValue v).
Proof. intros r Hl. by apply live_value in Hl. Qed.

Lemma clear_short tr p k t : clear tr p (TShort k t) <-> (p ∉ deletes tr) /\ clear tr (p ++ k) t.
Proof.
  unfold clear. setoid_rewrite live_short. split.
  - intros Hc. split; [specialize (Hc []); rewrite app_nil_r in Hc; apply Hc; by left|]. intros r Hr. rewrite <- app_assoc. apply Hc. eauto.
  - intros [H1 H2] r [-> |(r' & -> & Hr)]; [by rewrite app_nil_r|]. rewrite app_assoc. by apply H2.
Qed.

Lemma clear_full tr p cs : clear tr p (TFull cs) <-> (p ∉ deletes tr) /\ forall i c, cs !! i = Some c -> oclear tr (p ++ [Z.of_nat i]) c.
Proof.
  unfold clear. setoid_rewrite live_full. split.
  - intros Hc. split; [specialize (Hc []); rewrite app_nil_r in Hc; apply Hc; by left|]. intros i [t|] Hi; [|done]. intros r Hr. rewrite <- app_assoc. apply Hc. right. by exists i, t, r.
  - intros [H1 H2] r [-> |(i & t & r' & Hi & -> & Hr)]; [by rewrite app_nil_r|]. specialize (H2 i (Some t) Hi r' Hr). by rewrite <- app_assoc in H2.
Qed.

Lemma clear_mono tr tr' p t : deletes tr' ⊆ deletes tr -> clear tr p t -> clear tr' p t.
Proof. intros Hs Hc r Hr Hi. by apply (Hc r Hr), Hs. Qed.

Lemma oclear_mono tr tr' p o : deletes tr' ⊆ deletes tr -> oclear tr p o -> oclear tr' p o.
Proof. destruct o; [apply clear_mono|done]. Qed.

Lemma deletes_onInsert p tr : deletes (onInsert p tr) = deletes tr ∖ {[p]}.
Proof. unfold onInsert. case_decide; cbn; set_solver. Qed.

Lemma deletes_onDelete p tr : deletes (onDelete p tr) ⊆ {[p]} ∪ deletes tr.
Proof. unfold onDelete. case_decide; cbn; set_solver. Qed.

(** [insert] of a node under a new key. *)
Definition track_new (q key : list Z) (tr : tracer) : tracer := match key with [] => tr | _ => onInsert q tr end.
Definition node_new (key : list Z) (n : node) : node := match key with [] => n | _ => shortNode key n newFlag end.

Lemma insert_nil reader fuel q key n tr : insert reader (S fuel) nilNode q key n tr = Ret (inr (true, node_new key n), track_new q key tr).
Proof.
  cbn [insert]. destruct key as [|x key]; [done|]. rewrite (proj2 (Z.eqb_neq _ _)); [done|]. rewrite Zlen_cons. pose proof (Zlen_nonneg key). lia.
Qed.

Lemma track_new_deletes q key tr : deletes (track_new q key tr) ⊆ deletes tr.
Proof. destruct key; cbn; [done|]. rewrite deletes_onInsert. set_solver. Qed.

Lemma clear_new tr q key t tr' : deletes tr' ⊆ deletes (track_new q key tr) -> clear tr (q ++ key) t -> clear tr' q (tnew key t).
Proof.
  intros Hs Hc. destruct key as [|x key]; cbn in *; [rewrite app_nil_r in Hc; by eapply clear_mono|]. rewrite deletes_onInsert in Hs. apply clear_short.
  split; [set_solver|]. eapply clear_mono; [|done]. set_solver.
Qed.

Section Update.
Context {C : Crypto} (reader : trieReader) (complete : bool).
Abbreviation expands := (expands reader complete).
Abbreviation runs := (runs complete).

Lemma expands_new full p key n t : expands full false (p ++ key) n (Some t) -> expands false false p (node_new key n) (Some (tnew key t)).
Proof.
  intros He. apply expands_weaken in He. destruct key; cbn [node_new tnew]; [by rewrite app_nil_r in He|]. constructor; [done|apply flag_new].
Qed.

Lemma expands_new_value top p key v : expands false top p (node_new key (valueNode v)) (Some (tnew key (TValue v))).
Proof. destruct key; cbn [node_new tnew]; constructor; [constructor|apply flag_new]. Qed.

(** The two children of a new branch. *)
Lemma kids_branch p y a na x b nb : (Z.to_nat y < 17)%nat -> (Z.to_nat x < 17)%nat -> 0 <= y -> 0 <= x ->
  expands false false (p ++ [y]) na (Some a) -> expands false false (p ++ [x]) nb (Some b) -> forall top fl, fl = newFlag ->
  exists ns1 ns2, go_set (replicate 17 nilNode) y na = Ret ns1 /\ go_set ns1 x nb = Ret ns2 /\ expands false top p (fullNode ns2 fl) (Some (branch y a x b)).
Proof.
  intros Hy Hx Hy0 Hx0 Ha Hb top fl ->. exists (<[Z.to_nat y := na]> (replicate 17 nilNode)), (<[Z.to_nat x := nb]> (<[Z.to_nat y := na]> (replicate 17 nilNode))). 
  assert (Hset : forall (l : list node) i n, length l = 17%nat -> 0 <= i -> (Z.to_nat i < 17)%nat -> go_set l i n = Ret (<[Z.to_nat i := n]> l)).
  { intros l i n Hl Hi0 Hi. unfold go_set, Zlen. rewrite (proj2 (Z.leb_le _ _)), (proj2 (Z.ltb_lt _ _)) by lia. done. }
  split; [by apply Hset|]. split; [apply Hset; [by rewrite length_insert|done|done]|]. unfold branch.
  assert (Hk : kids reader complete false p (<[Z.to_nat x := nb]> (<[Z.to_nat y := na]> (replicate 17 nilNode))) (<[Z.to_nat x := Some b]> (<[Z.to_nat y := Some a]> no_children))).
  { apply kids_insert; [apply kids_insert|by rewrite Z2Nat.id]; [|by rewrite Z2Nat.id]. split; [done|]. intros i n c Hn Hc.
    apply lookup_replicate in Hn as [-> _]. apply lookup_replicate in Hc as [-> _]. constructor. }
  destruct Hk as [K1 K2]. constructor; [done|done|apply flag_new].
Qed.

Lemma insert_nil_runs fuel q key n tr E :
  runs (insert reader (S fuel) nilNode q key n) tr E (fun r tr' => snd r = node_new key n /\ tr' = track_new q key tr).
Proof. eexists _, _. by split; [apply insert_nil|]. Qed.

(** What [insert] says of its result. *)
Definition inserted (top : bool) (p : list Z) (o : option tree) (t' : tree) (tr : tracer) (r : bool * node) (tr' : tracer) : Prop :=
  deletes tr' ⊆ deletes tr /\ (oclear tr p o -> clear tr' p t') /\ expands false top p (snd r) (Some t') /\ (fst r = false -> o = Some t').

(** A key that parts from the key of a short node. *)
Lemma insert_split fuel top p0 p y k x r n t fl v tr : y <> x -> (valid_key (y :: k) \/ is_nibble y) -> valid_key (x :: r) ->
  expands false false (p0 ++ p ++ y :: k) n (Some t) ->
  runs (insert reader (S (S fuel)) (shortNode (p ++ y :: k) n fl) p0 (p ++ x :: r) (valueNode v)) tr (same_changes tr)
    (inserted top p0 (Some (TShort (p ++ y :: k) t)) (tnew p (branch y (tnew k t) x (tnew r (TValue v)))) tr).
Proof.
  intros Hne Hy Hx He. remember (S fuel) as f eqn:Hf. cbn [insert].
  assert (Hy' : (Z.to_nat y < 17)%nat /\ 0 <= y) by (destruct Hy as [Hy|Hy]; [apply valid_key_index in Hy|unfold is_nibble in Hy]; lia). destruct (valid_key_index _ _ Hx) as [Hx1 Hx2].
  rewrite (proj2 (Z.eqb_neq _ _)) by (rewrite Zlen_app, Zlen_cons; pose proof (Zlen_nonneg p); pose proof (Zlen_nonneg r); lia).
  assert (Hlen : prefixLen (p ++ x :: r) (p ++ y :: k) = length p) by (rewrite prefixLen_app; cbn; rewrite (proj2 (Z.eqb_neq x y)) by done; lia).
  rewrite Hlen, (proj2 (Nat.eqb_neq _ _)) by (rewrite length_app; cbn; lia).
  assert (Htake : forall z l, take (S (length p)) (p ++ z :: l) = p ++ [z] /\ drop (S (length p)) (p ++ z :: l) = l).
  { intros z l. replace (p ++ z :: l) with ((p ++ [z]) ++ l) by (by rewrite <- app_assoc). replace (S (length p)) with (length (p ++ [z])) by (rewrite length_app; cbn; lia).
    by rewrite take_app_length, drop_app_length. }
  destruct (Htake y k) as [-> ->], (Htake x r) as [-> ->]. rewrite take_app_length.
  apply (runs_lift complete _ y); [by apply go_index_app_r|]. subst f.
  destruct (kids_branch (p0 ++ p) y (tnew k t) (node_new k n) x (tnew r (TValue v)) (node_new r (valueNode v))) with (top := if decide (p = []) then top else false) (fl := newFlag) as (ns1 & ns2 & S1 & S2 & HE); try tauto; try lia.
  { apply (expands_new false). rewrite <- !app_assoc. done. } { apply (expands_new false). constructor. }
  assert (Hc : forall tr', deletes tr' ⊆ deletes (track_new (p0 ++ p ++ [x]) r (track_new (p0 ++ p ++ [y]) k tr)) -> (p0 ++ p ∉ deletes tr') ->
    clear tr p0 (TShort (p ++ y :: k) t) -> clear tr' (p0 ++ p) (branch y (tnew k t) x (tnew r (TValue v)))).
  { intros tr' Hs Hp Hc. apply clear_short in Hc as [_ Hc]. apply clear_full. split; [done|]. intros i c Hi. pose proof (lookup_branch y (tnew k t) x (tnew r (TValue v)) i ltac:(lia) ltac:(lia)) as Hb. rewrite Hi in Hb.
    pose proof (track_new_deletes (p0 ++ p ++ [x]) r (track_new (p0 ++ p ++ [y]) k tr)) as Hsub. destruct (decide (i = Z.to_nat x)) as [-> |]; [|destruct (decide (i = Z.to_nat y)) as [-> |]]; simplify_eq; cbn [oclear].
    - rewrite Hx2, <- app_assoc. eapply clear_new; [exact Hs|apply clear_value].
    - rewrite Z2Nat.id, <- app_assoc by lia. apply (clear_new tr _ k); [by etransitivity|]. by rewrite <- !app_assoc.
    - destruct (no_children_None i) as [Hn|Hn]; rewrite Hn in Hb; by simplify_eq. }
  eapply runs_bind with (E' := same_changes tr); [apply insert_nil_runs|done|].
  intros [d c1] tr1 [Hc1 ->]. cbn in Hc1. subst c1. eapply runs_lift; [exact S1|]. eapply runs_lift; [by apply go_index_app_r|].
  set (tr1 := track_new (p0 ++ p ++ [y]) k tr) in *. set (tr2 := track_new (p0 ++ p ++ [x]) r tr1) in *.
  eapply runs_bind with (E' := same_changes tr); [apply insert_nil_runs|done|].
  intros [d' c2] tr' [Hc2 ->]. cbn in Hc2. subst c2. eapply runs_lift; [exact S2|].
  assert (Hs2 : deletes tr2 ⊆ deletes tr) by (etransitivity; apply track_new_deletes).
  destruct p as [|z p]; cbn [length Nat.eqb].
  - apply runs_ret. unfold inserted. cbn [snd fst tnew]. split_and!; [done| |by rewrite decide_True, app_nil_r in HE by done|done].
    intros Hcl. specialize (Hc tr2). rewrite app_nil_r in Hc. apply Hc; [done| |done]. cbn in Hcl. apply clear_short in Hcl as [Hcl _]. set_solver.
  - apply runs_modify, runs_ret. unfold inserted. cbn [snd fst tnew]. rewrite deletes_onInsert. split_and!; [set_solver| |constructor; [by rewrite decide_False in HE by done|apply flag_new]|done].
    intros Hcl. cbn [oclear] in Hcl. pose proof Hcl as Hcl'. apply clear_short in Hcl' as [Hp _]. apply clear_short. split; [rewrite deletes_onInsert; set_solver|]. apply Hc; rewrite ?deletes_onInsert; [set_solver|set_solver|done].
Qed.

(** [insert] with this fuel does what it should. *)
Definition insert_ok (fuel : nat) : Prop := forall full top p n o key v tr,
  expands full top p n o -> owf o -> obound o -> ofits o key -> (2 * length key + is_hash n < fuel)%nat ->
  runs (insert reader fuel n p key (valueNode v)) tr (same_changes tr) (inserted top p o (oinsert o key v) tr).

Lemma insert_short fuel full top p k n' t fl key v tr : insert_ok fuel ->
  expands (full || has_hash fl) false (p ++ k) n' (Some t) -> flag_ok reader complete full top p fl (TShort k t) ->
  twf (TShort k t) -> tbound (TShort k t) -> valid_key key -> (2 * length key < S fuel)%nat ->
  runs (insert reader (S fuel) (shortNode k n' fl) p key (valueNode v)) tr (same_changes tr) (inserted top p (Some (TShort k t)) (tinsert (TShort k t) key v) tr).
Proof.
  intros IH Hc Hfl Hw Hb Hf Hfuel. assert (He : expands full top p (shortNode k n' fl) (Some (TShort k t))) by (by constructor).
  destruct (wf_short_key k t Hw) as [Hk _]. destruct (key_meets k t key Hw Hf) as [(r & -> & Hr & Hp & Hd)|(q & y & k2 & x & r & -> & -> & Hd & Hq & _ & Hy & Hx)].
  - cbn [insert]. destruct (k ++ r) as [|z l] eqn:Hz; [by destruct k|]. rewrite (proj2 (Z.eqb_neq _ _)) by (rewrite Zlen_cons; pose proof (Zlen_nonneg l); lia). rewrite <- Hz in *.
    rewrite Hp, Nat.eqb_refl, Hd, take_app_length. rewrite length_app in Hfuel. rewrite tinsert_short_deeper by done. apply expands_weaken in Hc as Hc'.
    eapply runs_bind; [apply (IH _ false (p ++ k) n' (Some t) r v tr Hc); [by eapply short_wf|by eapply tbound_short|done|destruct k; [done|]; cbn in *; destruct n'; cbn; lia]|done|].
    intros [d n2] tr2 (H1 & H2 & H3 & H4). cbn [fst snd oinsert oclear] in *. assert (Hcl : clear tr p (TShort k t) -> clear tr2 p (TShort k (tinsert t r v))).
    { intros [Hcp Hct]%clear_short. apply clear_short. split; [set_solver|by apply H2]. }
    destruct d; cbn [negb]; apply runs_ret; unfold inserted; cbn [fst snd]; (split_and!; [done|done| |try done]); [constructor; [done|apply flag_new]|..].
    + specialize (H4 eq_refl). injection H4 as <-. by eapply expands_weaken.
    + intros _. specialize (H4 eq_refl). by injection H4 as <-.
  - rewrite tinsert_short_split by done. destruct fuel; [rewrite length_app in Hfuel; cbn in Hfuel; lia|]. apply insert_split; try done. by eapply expands_weaken.
Qed.

Lemma insert_full fuel full top p ns cs fl key v tr : insert_ok fuel ->
  kids reader complete (full || has_hash fl) p ns cs -> flag_ok reader complete full top p fl (TFull cs) ->
  twf (TFull cs) -> tbound (TFull cs) -> valid_key key -> (2 * length key < S fuel)%nat ->
  runs (insert reader (S fuel) (fullNode ns fl) p key (valueNode v)) tr (same_changes tr) (inserted top p (Some (TFull cs)) (tinsert (TFull cs) key v) tr).
Proof.
  intros IH [Hl Hc] Hfl Hw Hb Hf Hfuel. assert (He : expands full top p (fullNode ns fl) (Some (TFull cs))) by (by constructor).
  destruct key as [|x r]; [by apply valid_key_nil in Hf|]. inversion Hw as [| | |? Hlen Hn Hwf Hval]; subst. cbn [insert].
  rewrite (proj2 (Z.eqb_neq _ _)) by (rewrite Zlen_cons; pose proof (Zlen_nonneg r); lia).
  destruct (kids_lookup reader complete (full || has_hash fl) p ns cs x r Hlen) as (n & c & Hi & Hn' & Hci & Hex & Hset); [by split|done|]. destruct (child_facts cs x r c) as (W1 & W2 & W3); try done.
  eapply runs_lift; [apply go_index_0|]. eapply runs_lift; [exact Hi|]. cbn [drop]. destruct (valid_key_index _ _ Hf) as [Hx Hxx].
  eapply runs_bind; [apply (IH _ false (p ++ [x]) n c r v tr Hex); try done; cbn [length] in Hfuel; destruct n; cbn in *; lia|done|].
  intros [d n2] tr2 (H1 & H2 & H3 & H4). cbn [fst snd oinsert] in *. rewrite tinsert_full, (alter_insert _ _ _ _ Hci).
  assert (Hcl : clear tr p (TFull cs) -> clear tr2 p (TFull (<[Z.to_nat x := Some (oinsert c r v)]> cs))).
  { intros [Hcp Hcc]%clear_full. apply clear_full. split; [set_solver|]. intros i c' Hi'. destruct (decide (i = Z.to_nat x)) as [-> |Hne].
    - rewrite list_lookup_insert_eq in Hi' by lia. injection Hi' as <-. cbn [oclear]. specialize (Hcc _ _ Hci). rewrite Hxx in *. by apply H2.
    - rewrite list_lookup_insert_ne in Hi' by done. eapply oclear_mono; [done|by apply Hcc]. }
  destruct d; cbn [negb].
  - eapply runs_lift; [apply Hset|]. apply runs_ret. unfold inserted. cbn [fst snd]. split_and!; [done|done| |done].
    destruct (kids_insert reader complete false p ns cs (Z.to_nat x) n2 (Some (oinsert c r v))) as [K1 K2]; [apply (kids_weaken _ _ (full || has_hash fl)); by split|by rewrite Hxx|]. constructor; [done|done|apply flag_new].
  - specialize (H4 eq_refl). apply runs_ret. unfold inserted. cbn [fst snd]. rewrite <- H4 in *. rewrite list_insert_id in * by done. split_and!; [done|done| |done]. by eapply expands_weaken.
Qed.

Lemma insert_sim fuel : insert_ok fuel.
Proof.
  induction fuel as [|fuel IH]; intros full top p n o key v tr He Hw Hb Hf Hfuel; [lia|].
  inversion He as [|? ? ? w|? ? ? t Hv Hh Hs|? ? ? k n' t fl Hc Hfl|? ? ? ns cs fl Hl Hc Hfl]; subst.
  - eexists _, _. split; [apply insert_nil|]. unfold inserted. cbn [fst snd oinsert]. split_and!; [apply track_new_deletes| |apply expands_new_value|done].
    intros _. eapply clear_new; [done|apply clear_value].
  - cbn in Hf. subst key. cbn [insert Zlen length Z.of_nat Z.eqb]. apply runs_ret. unfold inserted. cbn [fst snd oinsert tinsert]. split_and!; [done|intros; apply clear_value|constructor|].
    case_bool_decide; [by subst|done].
  - unfold ofits, fits in Hf. rewrite Hv in Hf. cbn [insert]. destruct key as [|x r]; [by apply valid_key_nil in Hf|]. rewrite (proj2 (Z.eqb_neq _ _)) by (rewrite Zlen_cons; pose proof (Zlen_nonneg r); lia).
    eapply runs_bind; [by apply (resolve_runs reader complete top)|done|]. intros n' tr1 [Hsame ->].
    eapply runs_bind; [apply (IH full top p _ (Some t)); try done; [by apply expands_cnode|unfold ofits, fits; by rewrite Hv|rewrite is_hash_cnode; cbn in *; lia]|intros ? ?; by eapply same_trans|].
    intros [d n2] tr2 (H1 & H2 & H3 & H4). cbn [fst snd] in *. destruct Hsame as [Hs1 Hs2]. unfold inserted. destruct d; cbn [negb]; apply runs_ret; cbn [fst snd].
    + split_and!; [by rewrite <- Hs2|intros Hcl; apply H2; cbn [oclear] in *; unfold clear in *; by rewrite Hs2|done|done].
    + specialize (H4 eq_refl). split_and!; [by rewrite <- Hs2|intros Hcl; apply H2; cbn [oclear] in *; unfold clear in *; by rewrite Hs2| |done]. rewrite <- H4. by apply expands_cnode.
  - apply (insert_short fuel full); try done. cbn in Hfuel. lia.
  - apply (insert_full fuel full); try done. cbn in Hfuel. lia.
Qed.

(** ** Deletion *)

(** Deletions are recorded under [p] only. *)
Definition frame (p : list Z) (tr tr' : tracer) : Prop := forall q, q ∈ deletes tr' -> q ∈ deletes tr \/ p `prefix_of` q.

Lemma frame_above p k tr tr' : k <> [] -> frame (p ++ k) tr tr' -> p ∉ deletes tr -> p ∉ deletes tr'.
Proof.
  intros Hk Hf Hp Hi. destruct (Hf _ Hi) as [?|[q Hq]]; [done|]. apply (f_equal length) in Hq. rewrite !length_app in Hq. destruct k; [done|]. cbn in Hq. lia.
Qed.

Lemma frame_other p x y tr tr' o : x <> y -> frame (p ++ [x]) tr tr' -> oclear tr (p ++ [y]) o -> oclear tr' (p ++ [y]) o.
Proof.
  intros Hne Hf. destruct o as [t|]; [|done]. intros Hc r Hr Hi. destruct (Hf _ Hi) as [?|[q Hq]]; [by apply (Hc r)|].
  rewrite <- !app_assoc in Hq. apply app_inv_head in Hq. by injection Hq.
Qed.

Lemma frame_shorter p q tr tr' : frame (p ++ q) tr tr' -> frame p tr tr'.
Proof. intros Hf z Hz. destruct (Hf z Hz) as [?|[w ->]]; [by left|right]. exists (q ++ w). by rewrite app_assoc. Qed.

Lemma frame_onDelete p q tr tr' : frame p tr tr' -> frame p tr (onDelete (p ++ q) tr').
Proof. intros Hf z Hz. apply deletes_onDelete, elem_of_union in Hz as [->%elem_of_singleton|Hz]; [right; by exists q|by apply Hf]. Qed.

Lemma frame_same p tr tr1 tr2 : frame p tr tr1 -> same_changes tr1 tr2 -> frame p tr tr2.
Proof. intros Hf [_ He] z Hz. rewrite He in Hz. by apply Hf. Qed.

Lemma clear_same tr tr' p t : same_changes tr tr' -> clear tr p t -> clear tr' p t.
Proof. intros [_ He]. apply clear_mono. by rewrite He. Qed.

(** A node that takes the place of its only child. *)
Lemma clear_merge tr p k k' t : k <> [] -> k' <> [] -> p ∉ deletes tr -> clear tr (p ++ k) (TShort k' t) -> clear (onDelete (p ++ k) tr) p (TShort (k ++ k') t).
Proof.
  intros Hk Hk' Hp Hc. apply clear_short in Hc as [_ Hc]. apply clear_short. pose proof (deletes_onDelete (p ++ k) tr) as Hd. split.
  - intros Hi. apply Hd, elem_of_union in Hi as [Hi%elem_of_singleton|]; [|done]. destruct k; [done|]. apply (f_equal length) in Hi. rewrite length_app in Hi. cbn in Hi. lia.
  - intros r Hr Hi. apply Hd, elem_of_union in Hi as [Hi%elem_of_singleton|Hi].
    + apply (f_equal length) in Hi. rewrite !length_app in Hi. destruct k'; [done|]. cbn in Hi. lia.
    + rewrite app_assoc in Hi. by apply (Hc r).
Qed.

(** What [delete] says of its result. *)
Definition deleted (top : bool) (p : list Z) (o o' : option tree) (tr : tracer) (r : bool * node) (tr' : tracer) : Prop :=
  frame p tr tr' /\ (oclear tr p o -> oclear tr' p o') /\ expands false top p (snd r) o' /\ (fst r = false -> o' = o) /\ (fst r = true -> is_hash (snd r) = 0%nat).

Definition delete_ok (fuel : nat) : Prop := forall full top p n o key tr,
  expands full top p n o -> owf o -> obound o -> ofits o key -> (2 * length key + is_hash n < fuel)%nat ->
  runs (delete reader fuel n p key) tr (fun _ => True) (deleted top p o (odelete o key) tr).

Lemma frame_refl p tr : frame p tr tr.
Proof. intros q Hq. by left. Qed.

Lemma delete_short fuel full top p k n' t fl key tr : delete_ok fuel ->
  expands (full || has_hash fl) false (p ++ k) n' (Some t) -> flag_ok reader complete full top p fl (TShort k t) ->
  twf (TShort k t) -> tbound (TShort k t) -> valid_key key -> (2 * length key < S fuel)%nat ->
  runs (delete reader (S fuel) (shortNode k n' fl) p key) tr (fun _ => True) (deleted top p (Some (TShort k t)) (tdelete (TShort k t) key) tr).
Proof.
  intros IH Hc Hfl Hw Hb Hf Hfuel. assert (He : expands full top p (shortNode k n' fl) (Some (TShort k t))) by (by constructor).
  destruct (wf_short_key k t Hw) as [Hk _]. cbn [delete]. destruct (key_meets k t key Hw Hf) as [(r & -> & Hr & Hp & Hd)|(q & y & k2 & x & r & -> & -> & Hd & Hq & Hp & Hy & Hx)].
  2:{ rewrite Hp, (proj2 (Nat.ltb_lt _ _)) by (rewrite length_app; cbn; lia). rewrite tdelete_short_split by done. apply runs_ret. split_and!; [apply frame_refl|done|by eapply expands_weaken|done|done]. }
  rewrite Hp, Nat.ltb_irrefl, Hd, take_app_length. destruct r as [|z r].
  { rewrite app_nil_r, Nat.eqb_refl, tdelete_short_whole. apply runs_modify, runs_ret. split_and!; [|done|constructor|done|done].
    rewrite <- (app_nil_r p) at 2. apply frame_onDelete, frame_refl. }
  rewrite (proj2 (Nat.eqb_neq _ _)) by (rewrite length_app; cbn; lia). rewrite tdelete_short_deeper by done. assert (Hnv : is_value t = false) by (by destruct t). rewrite length_app in Hfuel.
  eapply runs_bind; [apply (IH _ false (p ++ k) n' (Some t) (z :: r) tr Hc); [by eapply short_wf|by eapply tbound_short|done|destruct k; [done|]; cbn in *; destruct n'; cbn; lia]|done|].
  intros [d n2] tr2 (H1 & H2 & H3 & H4 & H5). cbn [fst snd odelete oclear] in *.
  assert (Ht : exists t', tdelete t (z :: r) = Some t' /\ twf t' /\ is_value t' = false).
  { inversion Hw as [| |? ? ? ? Hwt|]; subst; [done|]. destruct (tdelete_full_Some cs (z :: r) Hr) as [t' Ht']. pose proof (tdelete_wf _ Hwt _ Hr) as Hwd. rewrite Ht' in Hwd. exists t'. by split. }
  destruct Ht as (t' & Ht' & Hwt' & Hvt'). rewrite Ht' in *. pose proof (frame_shorter _ _ _ _ H1) as Hfr. destruct d; cbn [negb].
  2:{ specialize (H4 eq_refl). injection H4 as ->. apply runs_ret. assert (Hj : tjoin k t = TShort k t) by (inversion Hw; by subst). rewrite Hj. split_and!; [done| |by eapply expands_weaken|done|done].
      cbn [oclear]. intros [C1 C2]%clear_short. apply clear_short. split; [by apply (frame_above p k tr)|by apply H2]. }
  specialize (H5 eq_refl). inversion H3 as [|? ? ? w|? ? ? u|? ? ? k' n3 t3 fl3 Hc3 Hfl3|? ? ? ns cs fl3 Hl3 Hc3 Hfl3]; subst; try done.
  - destruct (wf_short_key k' t3 Hwt') as [Hk' _]. apply runs_modify, runs_ret. cbn [tjoin]. split_and!; [by apply frame_onDelete| | |done|done].
    + cbn [oclear]. intros [C1 C2]%clear_short. apply clear_merge; [done|done|by apply (frame_above p k tr)|by apply H2].
    + constructor; [|apply flag_new]. rewrite app_assoc. by eapply expands_weaken.
  - apply runs_ret. cbn [tjoin]. split_and!; [done| |constructor; [by eapply expands_weaken|apply flag_new]|done|done].
    cbn [oclear]. intros [C1 C2]%clear_short. apply clear_short. split; [by apply (frame_above p k tr)|by apply H2].
Qed.

(** The loop over the children finds the only child. *)
Lemma remaining_found ns cs : Forall2 (fun n c => n = nilNode <-> c = None) ns cs -> forall i pos, pos <> -1 ->
  remaining ns i pos = if forallb (fun c : option tree => match c with None => true | Some _ => false end) cs then pos else -2.
Proof.
  induction 1 as [|n c ns cs Hnc _ IH]; intros i pos Hp; [done|]. cbn [remaining forallb]. destruct c as [t|].
  - destruct n; try (by rewrite (proj2 (Z.eqb_neq _ _)) by done). by pose proof (proj1 Hnc eq_refl).
  - rewrite (proj2 Hnc) by done. by apply IH.
Qed.

Lemma remaining_spec ns cs : Forall2 (fun n c => n = nilNode <-> c = None) ns cs -> forall i, 0 <= i ->
  match only_child cs i with Some (j, _) => remaining ns i (-1) = j | None => remaining ns i (-1) < 0 end.
Proof.
  induction 1 as [|n c ns cs Hnc Hall IH]; intros i Hi; [done|]. cbn [remaining only_child]. destruct c as [t|].
  - assert (Hr : remaining (n :: ns) i (-1) = remaining ns (i + 1) i) by (destruct n; try done; by pose proof (proj1 Hnc eq_refl)). cbn [remaining] in Hr. rewrite Hr.
    rewrite (remaining_found ns cs) by (done || lia). by destruct (forallb _ cs).
  - rewrite (proj2 Hnc) by done. apply IH. lia.
Qed.

Lemma kids_nil full p ns cs : kids reader complete full p ns cs -> Forall2 (fun n c => n = nilNode <-> c = None) ns cs.
Proof.
  intros [Hl Hk]. apply Forall2_same_length_lookup. split; [done|]. intros i n c Hn Hc. specialize (Hk i n c Hn Hc). by inversion Hk.
Qed.

(** A child is loaded to see whether it is short. *)
Lemma resolve_child full p n t tr : expands full false p n (Some t) -> twf t -> is_value t = false -> tbound t ->
  runs (resolve reader n p) tr (fun _ => True) (fun n' tr' => same_changes tr tr' /\ expands full false p n' (Some t) /\ is_hash n' = 0%nat).
Proof.
  intros He Hw Hv Hb. inversion He as [|? ? ? w|? ? ? u Hvu Hh Hs|? ? ? k n' t' fl Hc Hfl|? ? ? ns cs fl Hl Hc Hfl]; subst; cbn [resolve]; try (by apply runs_ret).
  destruct (resolve_runs reader complete false p t tr) as (r & tr' & Hr & Hres); try done. exists r, tr'. split; [done|]. destruct r as [e|n]; [naive_solver|]. destruct Hres as [? ->].
  split_and!; [done|by apply expands_cnode|apply is_hash_cnode].
Qed.

(** The tail of [delete] on a full node: reduction to a short node. *)
Lemma delete_reduce full top p ns cs tr : kids reader complete full p ns cs -> length cs = 17%nat -> (1 <= nchildren cs)%nat ->
  (forall i c, cs !! i = Some c -> belongs i c /\ obound c) ->
  runs (let pos := remaining ns 0 (-1) in
        if 0 <=? pos then
          let* child := mlift (go_index ns pos) in
          let? cnode := (if pos =? 16 then wret nilNode else resolve reader child (p ++ [pos])) in
          match cnode with
          | shortNode cKey cVal _ => mmodify (onDelete (p ++ [pos])) ;;; wret (true, shortNode (pos :: cKey) cVal newFlag)
          | _ => wret (true, shortNode [pos] child newFlag)
          end
        else wret (true, fullNode ns newFlag)) tr (fun _ => True)
    (fun r tr' => fst r = true /\ frame p tr tr' /\ (clear tr p (TFull cs) -> clear tr' p (reduce cs)) /\ expands false top p (snd r) (Some (reduce cs)) /\ is_hash (snd r) = 0%nat).
Proof.
  intros Hk Hlen Hn Hb. cbn zeta. unfold reduce. pose proof (remaining_spec ns cs (kids_nil _ _ _ _ Hk) 0 ltac:(lia)) as Hrem. pose proof (only_child_spec cs 0) as Ho.
  destruct Hk as [Hl Hk]. destruct (only_child cs 0) as [[pos t]|].
  2:{ rewrite (proj2 (Z.leb_gt _ _)) by lia. apply runs_ret. split_and!; [done|apply frame_refl|done| |done]. constructor; [done| |apply flag_new]. intros i n c Hni Hci. eapply expands_weaken, Hk; eauto. }
  destruct Ho as (m & Hm & Hc & _). rewrite Z.add_0_l in Hm. rewrite Hrem. clear Hrem. subst pos. rewrite (proj2 (Z.leb_le _ _)) by lia. pose proof (lookup_lt_Some _ _ _ Hc) as Hlt.
  destruct (lookup_lt_is_Some_2 ns m) as [n Hni]; [lia|]. specialize (Hk m n _ Hni Hc). destruct (Hb _ _ Hc) as [[Hwt Hvt] Hbt].
  apply (runs_lift complete _ n). { unfold go_index. by rewrite (proj2 (Z.leb_le _ _)), Nat2Z.id, Hni by lia. }
  assert (Hstay : forall tr', same_changes tr tr' -> tjoin [Z.of_nat m] t = TShort [Z.of_nat m] t ->
    runs (wret (true, shortNode [Z.of_nat m] n newFlag)) tr' (fun _ => True) (fun r tr' => fst r = true /\ frame p tr tr' /\ (clear tr p (TFull cs) -> clear tr' p (tjoin [Z.of_nat m] t)) /\
      expands false top p (snd r) (Some (tjoin [Z.of_nat m] t)) /\ is_hash (snd r) = 0%nat)).
  { intros tr' Hsame ->. apply runs_ret. split_and!; [done|by apply (frame_same p tr tr), Hsame; apply frame_refl| |constructor; [by eapply expands_weaken|apply flag_new]|done].
    intros [Hp Hcc]%clear_full. apply (clear_same tr); [done|]. apply clear_short. split; [done|]. by apply (Hcc _ _ Hc). }
  destruct (Z.eqb_spec (Z.of_nat m) 16) as [H16|H16].
  - assert (Hv : is_value t = true) by (apply Hvt; lia). destruct t; try done. apply (runs_bind complete _ _ _ _ (fun _ => True) (fun n' tr' => n' = nilNode /\ tr' = tr)); [by apply runs_ret|done|]. intros ? ? [-> ->]. by apply Hstay.
  - assert (Hv : is_value t = false) by (destruct (is_value t); [exfalso; apply H16; by rewrite (proj1 Hvt eq_refl)|done]). eapply runs_bind; [by apply (resolve_child full _ n t)|done|].
    intros cn tr1 (Hsame & Hex & Hh). inversion Hex as [|? ? ? w|? ? ? u|? ? ? k' n3 t3 fl3 Hc3 Hfl3|? ? ? ns3 cs3 fl3 Hl3 Hc3 Hfl3]; subst; try done; [|by apply Hstay].
    destruct (wf_short_key k' t3 Hwt) as [Hk' _]. apply runs_modify, runs_ret. split_and!; [done|apply frame_onDelete; by apply (frame_same p tr tr), Hsame; apply frame_refl| | |done].
    + intros [Hp Hcc]%clear_full. specialize (Hcc _ _ Hc). apply (clear_merge _ _ [_]); [done|done|by rewrite (proj2 Hsame)|by eapply clear_same].
    + cbn [tjoin snd]. constructor; [|apply flag_new]. rewrite app_assoc. by eapply expands_weaken.
Qed.

Lemma delete_nil fuel p key tr E : runs (delete reader (S fuel) nilNode p key) tr E (fun r tr' => r = (false, nilNode) /\ tr' = tr).
Proof. by eexists _, _. Qed.

(** Other children stay clear of deletions under a child. *)
Lemma clear_insert tr tr' p cs x o : (Z.to_nat x < 17)%nat -> Z.of_nat (Z.to_nat x) = x -> frame (p ++ [x]) tr tr' -> clear tr p (TFull cs) ->
  oclear tr' (p ++ [x]) o -> clear tr' p (TFull (<[Z.to_nat x := o]> cs)).
Proof.
  intros Hx Hxx Hf [Hp Hcc]%clear_full Ho. apply clear_full. split; [by apply (frame_above p [x] tr)|]. intros i c' Hi.
  destruct (decide (i = Z.to_nat x)) as [-> |Hne].
  - apply list_lookup_insert_Some in Hi as [(_ & <- & _)|[? _]]; [by rewrite Hxx|done].
  - rewrite list_lookup_insert_ne in Hi by done. apply (frame_other p x _ tr); [lia|done|by apply Hcc].
Qed.

Lemma delete_full fuel full top p ns cs fl key tr : delete_ok fuel ->
  kids reader complete (full || has_hash fl) p ns cs -> flag_ok reader complete full top p fl (TFull cs) ->
  twf (TFull cs) -> tbound (TFull cs) -> valid_key key -> (2 * length key < S fuel)%nat ->
  runs (delete reader (S fuel) (fullNode ns fl) p key) tr (fun _ => True) (deleted top p (Some (TFull cs)) (tdelete (TFull cs) key) tr).
Proof.
  intros IH Hkids Hfl Hw Hb Hf Hfuel. assert (He : expands full top p (fullNode ns fl) (Some (TFull cs))) by (by destruct Hkids; constructor).
  destruct key as [|x r]; [by apply valid_key_nil in Hf|]. inversion Hw as [| | |? Hlen Hn Hwf Hval]; subst. cbn [delete].
  destruct (kids_lookup reader complete (full || has_hash fl) p ns cs x r Hlen Hkids Hf) as (n & c & Hi & Hn' & Hci & Hex & Hset). destruct (child_facts cs x r c) as (W1 & W2 & W3); try done.
  eapply runs_lift; [apply go_index_0|]. eapply runs_lift; [exact Hi|]. cbn [drop]. destruct (valid_key_index _ _ Hf) as [Hx Hxx]. rewrite tdelete_full, Hci.
  destruct c as [t|].
  2:{ apply expands_nil in Hex as ->. destruct fuel; [cbn in Hfuel; lia|]. eapply runs_bind; [apply (delete_nil fuel _ _ _ (fun _ => True))|done|]. intros ? ? [-> ->]. apply runs_ret. cbn [negb fst snd].
      split_and!; [apply frame_refl|done|by eapply expands_weaken|done|done]. }
  eapply runs_bind; [apply (IH _ false (p ++ [x]) n (Some t) r tr Hex); try done; cbn [length] in Hfuel; destruct n; cbn in *; lia|done|].
  intros [d n2] tr2 (H1 & H2 & H3 & H4 & H5). cbn [fst snd odelete] in *. pose proof (frame_shorter _ _ _ _ H1) as Hfr.
  assert (Hcl : clear tr p (TFull cs) -> clear tr2 p (TFull (<[Z.to_nat x := tdelete t r]> cs))).
  { intros Hc. apply (clear_insert tr); try done. apply H2. apply clear_full in Hc as [_ Hc]. specialize (Hc _ _ Hci). by rewrite Hxx in Hc. }
  destruct d; cbn [negb].
  2:{ specialize (H4 eq_refl). rewrite H4 in *. rewrite list_insert_id in * by done. apply runs_ret. split_and!; [done|done|by eapply expands_weaken|done|done]. }
  eapply runs_lift; [apply Hset|]. apply kids_weaken in Hkids.
  pose proof (kids_insert reader complete false p ns cs (Z.to_nat x) n2 (tdelete t r) Hkids ltac:(by rewrite Hxx)) as Hk2. destruct (tdelete t r) as [t'|] eqn:Ht'.
  - assert (Hm : forall (A : Type) (a b : A), match n2 with nilNode => a | _ => b end = b) by (destruct n2; try done; by apply expands_Some in H3).
    rewrite Hm. apply runs_ret. split_and!; [done|done| |done|done]. destruct Hk2. constructor; [done|done|apply flag_new].
  - apply expands_nil in H3 as ->. eapply runs_post; [apply (delete_reduce false top); [done|by rewrite length_insert| |]|].
    + pose proof (nchildren_insert cs (Z.to_nat x) _ None Hci) as Hni. cbn [one_if] in Hni. lia.
    + intros i c Hic. destruct (decide (i = Z.to_nat x)) as [-> |Hne]; [rewrite list_lookup_insert_eq in Hic by lia; injection Hic as <-; done|].
      rewrite list_lookup_insert_ne in Hic by done. destruct c as [u|]; [|done]. split; [split; [by eapply Hwf|by eapply Hval]|by eapply tbound_child].
    + intros [d3 n3] tr3 (R1 & R2 & R3 & R4 & R5). cbn [fst snd] in *. subst d3. split_and!; [|cbn [oclear]; auto|done|done|done].
      intros q Hq. destruct (R2 q Hq) as [|]; [by apply Hfr|by right].
Qed.

Lemma delete_sim fuel : delete_ok fuel.
Proof.
  induction fuel as [|fuel IH]; intros full top p n o key tr He Hw Hb Hf Hfuel; [lia|].
  inversion He as [|? ? ? w|? ? ? t Hv Hh Hs|? ? ? k n' t fl Hc Hfl|? ? ? ns cs fl Hl Hc Hfl]; subst.
  - apply runs_ret. split_and!; [apply frame_refl|done|constructor|done|done].
  - apply runs_ret. split_and!; [apply frame_refl|done|constructor|done|done].
  - cbn [delete]. eapply runs_bind; [by apply (resolve_runs reader complete top)|done|]. intros n' tr1 [Hsame ->].
    eapply runs_bind; [apply (IH full top p _ (Some t)); try done; [by apply expands_cnode|rewrite is_hash_cnode; cbn in *; lia]|done|].
    intros [d n2] tr2 (H1 & H2 & H3 & H4 & H5). cbn [fst snd] in *. assert (Hfr : frame p tr tr2) by (intros q Hq; destruct Hsame as [_ <-]; by apply H1).
    assert (Hcl : clear tr p t -> oclear tr2 p (odelete (Some t) key)) by (intros Hc; by apply H2, (clear_same tr)).
    destruct d; cbn [negb]; apply runs_ret; (split_and!; [done|done| |done|try done]); cbn [snd]; [done|rewrite H4 by done; by apply expands_cnode].
  - apply (delete_short fuel full); try done. cbn in Hfuel. lia.
  - apply (delete_full fuel full); try done. cbn in Hfuel. lia.
Qed.

End Update.
