(* ===== verification/TrieMap.v ===== *)
(** * The hash of a trie

    [hash] on a node computes the Keccak hash of the RLP form of the tree it stands for,
    and keeps the node standing for that tree with all the hashes cached. *)

From stdpp Require Import gmap strings.
From stdpp Require Import gmap.
From S2P Require Import Prelude VMCommon Rlp StateTypes TrieEncoding TrieTree TrieNode TrieHasher TrieCodec Trie TrieSim.
Import Rlp.

Section Hash.
Context {C : Crypto} (reader : trieReader) (complete : bool).
Abbreviation expands := (expands reader complete).

#[global] Instance hashed_dec top t : Decision (hashed top t).
Proof. unfold hashed. apply _. Defined.

(** What a tree is called by: its hash, or a node that encodes as it. *)
Definition names (top : bool) (t : tree) (h : node) : Prop :=
  if decide (hashed top t) then h = hashNode (thash t) else encodable h = true /\ nitem h = titem t /\ is_hash h = 0%nat.

(** A collapsed child in its parent. *)
Definition called (h : node) (it : item) : Prop := is_nil h || encodable h = true /\ nitem h = it.

Lemma names_called t h : is_value t = false -> names false t h -> called h (tref t).
Proof.
  intros Hv Hn. unfold names, called, tref, close in *. rewrite Hv. fold (tbytes t). destruct (decide _) as [Hh|Hh].
  - subst h. destruct Hh as [|Hh]; [done|]. by rewrite (proj2 (Z.ltb_ge _ _)).
  - destruct Hn as (He & Hi & _). rewrite He, orb_true_r. split; [done|]. destruct (Z.ltb_spec (Zlen (tbytes t)) 32); [done|]. destruct Hh. by right.
Qed.

Lemma nodeToHash_names n top t : encodable n = true -> nitem n = titem t -> is_hash n = 0%nat -> Zlen (tbytes t) < 2 ^ 63 ->
  exists h, nodeToHash n top = Ret h /\ names top t h.
Proof.
  intros He Hi Hh Hl. unfold nodeToHash, tbytes in *. rewrite <- Hi in Hl. rewrite nodeToBytes_item by (done || lia). cbn [obind]. rewrite Hi in *. fold (tbytes t) in *.
  eexists. split; [done|]. unfold names, hashed. destruct (decide _) as [Hd|Hd].
  - destruct Hd as [-> |Hd]; [by rewrite andb_false_r|]. by rewrite (proj2 (Z.ltb_ge _ _)).
  - destruct top; [destruct Hd; by left|]. rewrite (proj2 (Z.ltb_lt _ _)); [done|]. apply Z.nle_gt. intros ?. apply Hd. by right.
Qed.

(** The flags after hashing. *)
Lemma flag_hashed full top p fl t h : flag_ok reader complete full top p fl t -> names top t h ->
  flag_ok reader complete true top p (mkFlag (match h with hashNode h => Some h | _ => None end) (flag_dirty fl)) t.
Proof.
  intros [F1 F2 F3] Hn. unfold names in Hn. split; cbn; [|done|]; destruct (decide _) as [Hd|Hd].
  - subst h. by intros ? [= <-].
  - destruct Hn as (_ & _ & Hh). destruct h; cbn in Hh; try done.
  - by subst h.
  - done.
Qed.

Lemma flag_cached full top p fl t h : flag_ok reader complete full top p fl t -> flag_hash fl = Some h -> flag_ok reader complete true top p fl t /\ names top t (hashNode h).
Proof.
  intros [F1 F2 F3] Hh. destruct (F1 h Hh) as [-> Hd]. split; [split; [done|done|]|]; [by rewrite Hh|]. unfold names. by rewrite decide_True.
Qed.

Definition hash_ok (n : node) : Prop := forall full top p t, expands full top p n (Some t) -> twf t -> is_value t = false -> tbound t ->
  exists h n', hash n top = Ret (h, n') /\ expands true top p n' (Some t) /\ names top t h.

(** The children of a full node, with the paths they are at. *)
Lemma hashChildren_sim (path : nat -> list Z) j : forall ns cs, (j <= length ns)%nat -> length ns = length cs ->
  (forall i n c, (i < j)%nat -> ns !! i = Some n -> cs !! i = Some c -> exists cc n', hashChild hash n = Ret (cc, n') /\ expands true false (path i) n' c /\ called cc (oref c)) ->
  exists ccs ns', hashChildren hash j ns = Ret (ccs, ns') /\ length ccs = length cs /\ length ns' = length cs /\
    (forall i cc n' c, (i < j)%nat -> ccs !! i = Some cc -> ns' !! i = Some n' -> cs !! i = Some c -> expands true false (path i) n' c /\ called cc (oref c)) /\
    (forall i, (j <= i)%nat -> ccs !! i = ns !! i /\ ns' !! i = ns !! i).
Proof.
  revert path. induction j as [|j IH]; intros path ns cs Hj Hl Hc.
  - exists ns, ns. split; [by destruct ns|]. split_and!; [done|done|intros; lia|done].
  - destruct ns as [|n ns]; [cbn in Hj; lia|]. destruct cs as [|c cs]; [done|]. cbn [length] in *. cbn [hashChildren].
    destruct (Hc 0%nat n c ltac:(lia) eq_refl eq_refl) as (cc & n' & -> & He & Hcall). cbn [obind].
    destruct (IH (fun i => path (S i)) ns cs ltac:(lia) ltac:(lia)) as (ccs & ns' & -> & L1 & L2 & Hlow & Hhigh); [intros i m d Hi; apply (Hc (S i)); lia|].
    cbn [obind]. exists (cc :: ccs), (n' :: ns'). split_and!; [done|cbn; lia|cbn; lia| |].
    + intros [|i] cc2 n2 c2 Hi; cbn; [by intros [= <-] [= <-] [= <-]|]. apply Hlow. lia.
    + intros [|i] Hi; [lia|]. cbn. apply Hhigh. lia.
Qed.

(** A child of a short node. *)
Lemma hashVal_sim full p n t : hash_ok n -> expands full false p n (Some t) -> twf t -> tbound t ->
  exists cv n', hashVal hash n = Ret (cv, n') /\ expands true false p n' (Some t) /\ called cv (tref t).
Proof.
  intros Hok He Hw Hb. destruct (is_value t) eqn:Hv.
  - destruct t as [v| |]; try done. inversion He; subst; [|done]. eexists _, _. split; [done|]. split; [constructor|done].
  - destruct (Hok full false p t He Hw Hv Hb) as (h & n' & Hh & Hex & Hn). pose proof (names_called t h Hv Hn) as Hc. unfold hashVal. exists h, n'. destruct n; try done; by inversion He; subst.
Qed.

(** A child of a full node. *)
Lemma hashChild_sim full p n c : hash_ok n -> expands full false p n c -> owf c -> obound c -> (forall t, c = Some t -> is_value t = false) ->
  exists cc n', hashChild hash n = Ret (cc, n') /\ expands true false p n' c /\ called cc (oref c).
Proof.
  intros Hok He Hw Hb Hv. destruct c as [t|].
  - destruct (Hok full false p t He Hw (Hv t eq_refl) Hb) as (h & n' & Hh & Hex & Hn). pose proof (names_called t h (Hv t eq_refl) Hn) as Hc.
    unfold hashChild. exists h, n'. by destruct n.
  - apply expands_nil in He as ->. eexists _, _. split; [done|]. split; [constructor|done].
Qed.

Lemma called_children ccs cs : length ccs = length cs -> (forall i cc c, ccs !! i = Some cc -> cs !! i = Some c -> called cc (oref c)) ->
  forallb (fun c => is_nil c || encodable c) ccs = true /\ map nitem ccs = map oref cs.
Proof.
  revert cs. induction ccs as [|cc ccs IH]; intros [|c cs] Hl Hc; try done. cbn [forallb map]. destruct (Hc 0%nat cc c eq_refl eq_refl) as [H1 H2].
  destruct (IH cs ltac:(cbn in Hl; lia)) as [H3 H4]; [intros i; apply (Hc (S i))|]. rewrite H1, H2, H3, H4. done.
Qed.

(** The children of a node are collapsed and hashed. *)
Lemma collapse_short full p k n t fl : hash_ok n -> expands full false (p ++ k) n (Some t) -> twf (TShort k t) -> tbound (TShort k t) ->
  exists cv n', hashShortNodeChildren k n fl = Ret (shortNode (compact k) cv fl, shortNode k n' fl) /\ expands true false (p ++ k) n' (Some t) /\
    encodable (shortNode (compact k) cv fl) = true /\ nitem (shortNode (compact k) cv fl) = titem (TShort k t).
Proof.
  intros Hok He Hw Hb. unfold hashShortNodeChildren, hashShortNodeChildren_with. destruct (wf_short_key k t Hw) as [_ Hk]. rewrite hexToCompact_compact by done. cbn [obind].
  destruct (hashVal_sim _ _ n t Hok He) as (cv & n' & -> & Hex & Hc & Hi); [by eapply short_wf|by eapply tbound_short|]. exists cv, n'. split_and!; [done|done|done|]. rewrite titem_short. cbn. by rewrite Hi.
Qed.

Lemma collapse_full full p ns cs fl : Forall hash_ok ns -> kids reader complete full p ns cs -> twf (TFull cs) -> tbound (TFull cs) ->
  exists ccs ns', hashFullNodeChildren ns fl = Ret (fullNode ccs fl, fullNode ns' fl) /\ kids reader complete true p ns' cs /\
    encodable (fullNode ccs fl) = true /\ nitem (fullNode ccs fl) = titem (TFull cs).
Proof.
  intros Hok [Hl Hk] Hw Hb. inversion Hw as [| | |? Hlen Hn Hwf Hval]; subst. unfold hashFullNodeChildren, hashFullNodeChildren_with.
  destruct (hashChildren_sim (fun i => p ++ [Z.of_nat i]) 16 ns cs) as (ccs & ns' & -> & L1 & L2 & Hlow & Hhigh); [lia|done| |].
  { intros i n c Hi Hni Hci. apply (hashChild_sim full); [by eapply (Forall_lookup_1 _ ns)|by apply Hk|..]; destruct c as [t|]; cbn; try done; [by eapply Hwf|by eapply tbound_child|].
    intros t' [= <-]. destruct (is_value t) eqn:Hv; [|done]. apply (Hval _ _ Hci) in Hv. lia. }
  assert (Hlast : forall i n c, (16 <= i)%nat -> ns !! i = Some n -> cs !! i = Some c -> expands true false (p ++ [Z.of_nat i]) n c /\ called n (oref c)).
  { intros i n c Hi Hni Hci. specialize (Hk i n c Hni Hci). destruct c as [t|]; [|apply expands_nil in Hk as ->; split; [constructor|done]].
    assert (i = 16%nat) as -> by (apply lookup_lt_Some in Hci; lia). pose proof (proj2 (Hval _ _ Hci) eq_refl) as Hv. destruct t as [v| |]; try done. inversion Hk; subst; [split; [constructor|done]|done]. }
  assert (Hall : forall i cc n' c, ccs !! i = Some cc -> ns' !! i = Some n' -> cs !! i = Some c -> expands true false (p ++ [Z.of_nat i]) n' c /\ called cc (oref c)).
  { intros i cc n' c H1 H2 H3. destruct (decide (i < 16)%nat) as [Hi|Hi]; [by apply (Hlow i)|]. destruct (Hhigh i ltac:(lia)) as [E1 E2]. rewrite E1 in H1. rewrite E2, H1 in H2. injection H2 as <-.
    apply Hlast; [lia|done|done]. }
  destruct (called_children ccs cs L1) as [Henc Hit].
  { intros i cc c H1 H2. destruct (lookup_lt_is_Some_2 ns' i) as [n' H3]; [apply lookup_lt_Some in H2; lia|]. by apply (Hall i cc n' c). }
  exists ccs, ns'. split_and!; [done| | |rewrite titem_full; cbn; by rewrite Hit].
  - split; [lia|]. intros i n' c H1 H2. destruct (lookup_lt_is_Some_2 ccs i) as [cc H3]; [apply lookup_lt_Some in H2; lia|]. by apply (Hall i cc n' c).
  - cbn [encodable]. rewrite Henc, bool_decide_eq_false_2 by lia. done.
Qed.

Lemma hash_short full top p k n t fl : hash_ok n -> expands (full || has_hash fl) false (p ++ k) n (Some t) -> flag_ok reader complete full top p fl (TShort k t) ->
  twf (TShort k t) -> tbound (TShort k t) -> flag_hash fl = None ->
  exists h n', hash (shortNode k n fl) top = Ret (h, n') /\ expands true top p n' (Some (TShort k t)) /\ names top (TShort k t) h.
Proof.
  intros Hok He Hf Hw Hb Hh. cbn [hash cache obind]. rewrite Hh. destruct (collapse_short _ p k n t fl Hok He Hw Hb) as (cv & n' & Hc & Hex & Henc & Hit). unfold hashShortNodeChildren in Hc. rewrite Hc. cbn [obind].
  destruct (nodeToHash_names (shortNode (compact k) cv fl) top (TShort k t) Henc Hit) as (h & Hnh & Hn); [done|by apply tbytes_small|].
  unfold shortnodeToHash. rewrite Hnh. cbn [obind]. exists h. eexists. split_and!; [reflexivity| |done]. cbn [set_hash]. constructor; [done|]. by eapply flag_hashed.
Qed.

Lemma hash_full full top p ns cs fl : Forall hash_ok ns -> kids reader complete (full || has_hash fl) p ns cs -> flag_ok reader complete full top p fl (TFull cs) ->
  twf (TFull cs) -> tbound (TFull cs) -> flag_hash fl = None ->
  exists h n', hash (fullNode ns fl) top = Ret (h, n') /\ expands true top p n' (Some (TFull cs)) /\ names top (TFull cs) h.
Proof.
  intros Hok Hk Hf Hw Hb Hh. cbn [hash cache obind]. rewrite Hh. destruct (collapse_full _ p ns cs fl Hok Hk Hw Hb) as (ccs & ns' & Hc & [K1 K2] & Henc & Hit). unfold hashFullNodeChildren in Hc. rewrite Hc. cbn [obind].
  destruct (nodeToHash_names (fullNode ccs fl) top (TFull cs) Henc Hit) as (h & Hnh & Hn); [done|by apply tbytes_small|].
  unfold fullnodeToHash. rewrite Hnh. cbn [obind]. exists h. eexists. split_and!; [reflexivity| |done]. cbn [set_hash]. constructor; [done|done|by eapply flag_hashed].
Qed.

Lemma hash_sim n : hash_ok n.
Proof.
  induction n as [|ns fl IH|k n fl IH|b|b|b] using node_ind'; intros full top p t He Hw Hv Hb.
  - by apply expands_Some in He.
  - inversion He as [| | | |? ? ? ? cs ? Hl Hc Hfl]; subst. destruct (flag_hash fl) as [h|] eqn:Hh; [|by apply (hash_full full)].
    destruct (flag_cached _ _ _ _ _ _ Hfl Hh) as [F1 F2]. cbn [hash cache obind]. rewrite Hh. eexists _, _. split_and!; [done| |done]. constructor; [done| |done].
    intros i n c H1 H2. specialize (Hc i n c H1 H2). unfold has_hash in *. rewrite Hh in *. by rewrite orb_true_r in Hc.
  - inversion He as [| | |? ? ? ? ? t' ? Hc Hfl|]; subst. destruct (flag_hash fl) as [h|] eqn:Hh; [|by apply (hash_short full)].
    destruct (flag_cached _ _ _ _ _ _ Hfl Hh) as [F1 F2]. cbn [hash cache obind]. rewrite Hh. eexists _, _. split_and!; [done| |done]. constructor; [|done].
    unfold has_hash in *. rewrite Hh in *. by rewrite orb_true_r in Hc.
  - inversion He as [| |? ? ? ? Hvt Hh Hs| |]; subst. eexists _, _. split_and!; [done|by constructor|]. unfold names. by rewrite decide_True.
  - inversion He; by subst.
  - inversion He.
Qed.

(** [proofHash] of a loaded node: its stored form, and what it is called by. *)
Lemma proofHash_sim full top p n t : expands full top p n (Some t) -> twf t -> is_value t = false -> tbound t -> is_hash n = 0%nat ->
  exists c h, proofHash n = Ret (c, h) /\ nodeToBytes c = Ret (tbytes t) /\ names false t h.
Proof.
  intros He Hw Hv Hb Hh. assert (Hput : forall c, encodable c = true -> nitem c = titem t -> is_hash c = 0%nat -> nodeToBytes c = Ret (tbytes t) /\ exists h, nodeToHash c false = Ret h /\ names false t h).
  { intros c Hc Hi Hhc. pose proof (tbytes_small t Hw Hb) as Hs. split; [unfold tbytes in *; rewrite <- Hi in *; apply nodeToBytes_item; [done|lia]|by apply nodeToHash_names]. }
  assert (Hall : forall ns, Forall hash_ok ns) by (intros ns; apply Forall_forall; intros; apply hash_sim).
  inversion He as [| | |? ? ? k n' t' fl Hc Hfl|? ? ? ns cs fl Hl Hc Hfl]; subst; try done; cbn [proofHash].
  - destruct (collapse_short _ p k n' t' fl (hash_sim n') Hc Hw Hb) as (cv & n2 & -> & _ & Henc & Hit). cbn [obind]. destruct (Hput _ Henc Hit eq_refl) as (Hbytes & h & Hnh & Hn). unfold shortnodeToHash. rewrite Hnh. by eexists _, _.
  - destruct (collapse_full (full || has_hash fl) p ns cs fl (Hall ns)) as (ccs & ns2 & -> & _ & Henc & Hit); [by split|done|done|]. cbn [obind].
    destruct (Hput _ Henc Hit eq_refl) as (Hbytes & h & Hnh & Hn). unfold fullnodeToHash. rewrite Hnh. by eexists _, _.
Qed.

End Hash.

(** * Maps as tries

    A map from byte strings to byte strings has exactly one reference trie, so it has a
    root hash ([map_root]), and the root hash of a map determines it up to collisions of
    Keccak. *)

Abbreviation bmap := (gmap (list Z) (list Z)).

(** Keys and values are byte strings, values are not empty, and both fit in memory. *)
Definition entry_ok (k v : list Z) : Prop := Forall is_byte k /\ Forall is_byte v /\ v <> [] /\ Zlen k < 2 ^ 56 /\ Zlen v < 2 ^ 58.
Definition map_ok (m : bmap) : Prop := map_Forall entry_ok m.

(** A trie has the contents of a map. *)
Definition denotes (o : option tree) (m : bmap) : Prop := forall hex v, valid_key hex ->
  oget o hex = Some v <-> exists k, hex = keybytesToHex k /\ Forall is_byte k /\ m !! k = Some v.

Lemma denotes_get o m k : Forall is_byte k -> denotes o m -> oget o (keybytesToHex k) = m !! k.
Proof.
  intros Hk Hd. apply option_eq. intros v. rewrite (Hd _ v (valid_keybytes k Hk)). split.
  - intros (k' & He & Hk' & Hm). by apply keybytesToHex_inj in He as ->.
  - intros Hm. by exists k.
Qed.

Lemma denotes_empty : denotes None ∅.
Proof. intros hex v _. split; [done|]. intros (k & _ & _ & Hk). by rewrite lookup_empty in Hk. Qed.

(** The trie has a value. *)
Lemma denotes_nonempty t m : twf t -> is_value t = false -> denotes (Some t) m -> m <> ∅.
Proof.
  intros Hw Hv Hd ->. destruct (has_key t Hw) as (r & v & Hr & Hg). unfold fits in Hr. rewrite Hv in Hr. destruct (proj1 (Hd r v Hr) Hg) as (k & _ & _ & Hk). by rewrite lookup_empty in Hk.
Qed.

Lemma Zlen_nibbles k : Zlen (keybytesToHex k) = 2 * Zlen k + 1.
Proof.
  rewrite keybytesToHex_nibbles, Zlen_app. change (Zlen [16]) with 1. f_equal. induction k as [|b k IH]; [done|]. change (nibbles (b :: k)) with (b / 16 :: b mod 16 :: nibbles k). rewrite !Zlen_cons, IH. lia.
Qed.

Lemma denotes_bound o m : trie_wf o -> denotes o m -> map_ok m -> obound o.
Proof.
  destruct o as [t|]; [|done]. intros [Hw Hv] Hd Hm hex v Hf Hg. unfold fits in Hf. rewrite Hv in Hf. destruct (proj1 (Hd hex v Hf) Hg) as (k & -> & Hk & Hkm).
  destruct (Hm _ _ Hkm) as (_ & _ & _ & Hl & Hl'). rewrite Zlen_nibbles. lia.
Qed.

(** A map has one trie. *)
Lemma denotes_unique o o' m : trie_wf o -> trie_wf o' -> denotes o m -> denotes o' m -> o = o'.
Proof.
  intros Hw Hw' Hd Hd'. assert (Ha : forall hex, valid_key hex -> oget o hex = oget o' hex).
  { intros hex Hh. apply option_eq. intros v. by rewrite (Hd hex v Hh), (Hd' hex v Hh). }
  assert (Hne : forall t, twf t -> is_value t = false -> (forall hex, valid_key hex -> tget t hex = None) -> False).
  { intros t Hwt Hv Hno. destruct (has_key t Hwt) as (r & w & Hr & Hg). unfold fits in Hr. rewrite Hv in Hr. by rewrite Hno in Hg. }
  destruct o as [t|], o' as [t'|]; [|exfalso..|done].
  - destruct Hw, Hw'. f_equal. by apply tree_canonical.
  - destruct Hw as [Hwt Hv]. by apply (Hne t).
  - destruct Hw' as [Hwt Hv]. apply (Hne t'); [done|done|]. intros hex Hh. symmetry. by apply Ha.
Qed.

(** Two maps of one trie are equal where their keys are byte strings. *)
Lemma denotes_inj o m m' : map_ok m -> map_ok m' -> denotes o m -> denotes o m' -> m = m'.
Proof.
  intros Hm Hm' Hd Hd'. apply map_eq. intros k. apply option_eq. intros v. split; intros Hk.
  - destruct (Hm _ _ Hk) as [Hb _]. by rewrite <- (denotes_get o m' k Hb Hd'), (denotes_get o m k Hb Hd).
  - destruct (Hm' _ _ Hk) as [Hb _]. by rewrite <- (denotes_get o m k Hb Hd), (denotes_get o m' k Hb Hd').
Qed.

(** ** Insertion and deletion *)

Lemma oinsert_get o key v key' : trie_wf o -> valid_key key -> valid_key key' -> tget (oinsert o key v) key' = if decide (key' = key) then Some v else oget o key'.
Proof.
  intros Hw Hk Hk'. destruct o as [t|]; cbn [oinsert oget].
  - destruct Hw as [Hw Hv]. apply tinsert_get; [done|unfold fits; by rewrite Hv..].
  - apply tget_new_value.
Qed.

Lemma oinsert_wf o key v : trie_wf o -> valid_key key -> v <> [] -> Forall is_byte v -> trie_wf (Some (oinsert o key v)).
Proof.
  intros Hw Hk Hv Hb. destruct o as [t|]; cbn [oinsert].
  - destruct Hw as [Hw Hvt]. destruct (tinsert_wf t Hw key v) as [H1 H2]; auto; [unfold fits; by rewrite Hvt|]. split; [done|]. by rewrite H2.
  - destruct key; [by apply valid_key_nil in Hk|]. split; [by constructor|done].
Qed.

Lemma denotes_insert o m k v : trie_wf o -> denotes o m -> Forall is_byte k -> denotes (Some (oinsert o (keybytesToHex k) v)) (<[k := v]> m).
Proof.
  intros Hw Hd Hk hex w Hh. cbn [oget]. rewrite oinsert_get by (done || by apply valid_keybytes). destruct (decide (hex = keybytesToHex k)) as [-> |Hne].
  - split; [intros [= <-]; exists k; by rewrite lookup_insert_eq|]. intros (k' & He & Hk' & Hm). apply keybytesToHex_inj in He as <-; [|done|done]. rewrite lookup_insert_eq in Hm. done.
  - rewrite (Hd hex w Hh). split; intros (k' & -> & Hk' & Hm); exists k'; (split_and!; [done|done|]).
    + rewrite lookup_insert_ne; [done|congruence].
    + rewrite lookup_insert_ne in Hm; [done|congruence].
Qed.

Lemma odelete_wf o key : trie_wf o -> valid_key key -> trie_wf (odelete o key).
Proof. destruct o as [t|]; [|done]. intros [Hw Hv] Hk. apply tdelete_wf; [done|]. unfold fits. by rewrite Hv. Qed.

Lemma denotes_delete o m k : trie_wf o -> denotes o m -> Forall is_byte k -> denotes (odelete o (keybytesToHex k)) (base.delete k m).
Proof.
  intros Hw Hd Hk hex w Hh. assert (Hg : oget (odelete o (keybytesToHex k)) hex = if decide (hex = keybytesToHex k) then None else oget o hex).
  { destruct o as [t|]; cbn [odelete oget]; [|by case_decide]. destruct Hw as [Hw Hv]. apply tdelete_get; [done|unfold fits; rewrite Hv; by try apply valid_keybytes..]. }
  rewrite Hg. destruct (decide (hex = keybytesToHex k)) as [-> |Hne].
  - split; [done|]. intros (k' & He & Hk' & Hm). apply keybytesToHex_inj in He as <-; [|done|done]. by rewrite lookup_delete_eq in Hm.
  - rewrite (Hd hex w Hh). split; intros (k' & -> & Hk' & Hm); exists k'; (split_and!; [done|done|]).
    + rewrite lookup_delete_ne; [done|congruence].
    + rewrite lookup_delete_ne in Hm; [done|congruence].
Qed.

(** ** The trie of a map *)

Definition tree_of (m : bmap) : option tree := map_fold (fun k v o => Some (oinsert o (keybytesToHex k) v)) None m.

Lemma tree_of_spec m : map_ok m -> trie_wf (tree_of m) /\ denotes (tree_of m) m.
Proof.
  unfold tree_of. apply (map_fold_weak_ind (fun o m => map_ok m -> trie_wf o /\ denotes o m)); [by split; [|apply denotes_empty]|].
  intros k v m' o Hk IH Hm. assert (Hm' : map_ok m') by (by eapply map_Forall_insert_1_2). destruct (IH Hm') as [Hw Hd].
  destruct (map_Forall_insert_1_1 _ _ _ _ Hm) as (Hkb & Hvb & Hv & _). split; [apply oinsert_wf; [done|by apply valid_keybytes|done|done]|by apply denotes_insert].
Qed.


(** ** The root hash determines the map *)

Section Root.
Context {C : Crypto} {CS : CryptoSpec C}.

(** Two different nodes of the two tries with the same hash. *)
Definition collision (t u : tree) : Prop :=
  exists r s x y, sub t r x /\ sub u s y /\ tbytes x <> tbytes y /\ Keccak256Hash (tbytes x) = Keccak256Hash (tbytes y).

Lemma collision_short k t k' u : collision t u -> collision (TShort k t) (TShort k' u).
Proof. intros (r & s & x & y & H1 & H2 & H3 & H4). exists (k ++ r), (k' ++ s), x, y. split_and!; [by constructor|by constructor|done|done]. Qed.

Lemma collision_full cs i t cs' j u : cs !! i = Some (Some t) -> cs' !! j = Some (Some u) -> collision t u -> collision (TFull cs) (TFull cs').
Proof.
  intros Hi Hj (r & s & x & y & H1 & H2 & H3 & H4). exists (Z.of_nat i :: r), (Z.of_nat j :: s), x, y. split_and!; [by econstructor|by econstructor|done|done].
Qed.

Lemma hash_inj a b : hashData a = hashData b -> Keccak256Hash a = Keccak256Hash b.
Proof. intros He. apply (f_equal BytesToHash) in He. by rewrite !BytesToHash_hashData in He. Qed.

(** Equal hashes of nodes. *)
Lemma thash_inj t u : twf t -> twf u -> tbound t -> tbound u -> hashData (tbytes t) = hashData (tbytes u) -> titem t = titem u \/ collision t u.
Proof.
  intros Ht Hu Bt Bu He. apply hash_inj in He. destruct (decide (tbytes t = tbytes u)) as [Hb|Hb].
  - left. pose proof (tbytes_small t Ht Bt). apply item_enc_inj; [by apply titem_bytes|by apply titem_bytes|unfold tbytes in *; lia|done].
  - right. exists [], [], t, u. split_and!; [constructor|constructor|done|done].
Qed.

Lemma tref_inj t u : twf t -> twf u -> tbound t -> tbound u -> is_value t = is_value u -> tref t = tref u -> titem t = titem u \/ collision t u.
Proof.
  intros Ht Hu Bt Bu Hv He. unfold tref in He. rewrite <- Hv in He. destruct (is_value t) eqn:Hvt; [by left|]. unfold close in He. fold (tbytes t) (tbytes u) in He.
  symmetry in Hv. destruct (titem_Lst t Hvt) as [l Hl], (titem_Lst u Hv) as [l' Hl'].
  destruct (Zlen (tbytes t) <? 32), (Zlen (tbytes u) <? 32); [by left|congruence|congruence|]. assert (He2 : hashData (tbytes t) = hashData (tbytes u)) by congruence. by apply thash_inj.
Qed.

Lemma oref_None t : twf t -> tref t <> Str [].
Proof.
  intros Hw. unfold tref. destruct (is_value t) eqn:Hv; [destruct t; try done; inversion Hw; subst; cbn; congruence|]. unfold close. destruct (_ <? _).
  - destruct (titem_Lst t Hv) as [l ->]. done.
  - intros He. assert (Hn : hashData (enc (titem t)) = []) by congruence. pose proof (proj2 (hashData_bytes (enc (titem t)))) as Hl. by rewrite Hn in Hl.
Qed.

Lemma leaf_or_ext k t u : twf (TShort k t) -> twf (TShort k u) -> is_value t = is_value u.
Proof.
  assert (Hno : valid_key k -> Forall is_nibble k -> False).
  { intros (ns & -> & _) Hn. apply Forall_app in Hn as [_ Hn]. apply Forall_cons_1 in Hn as [Hn _]. unfold is_nibble in Hn. lia. }
  inversion 1; inversion 1; subst; try done; by exfalso; apply Hno.
Qed.

(** Lists that are equal up to [P] at every position. *)
Lemma list_eq_or {A} (l l' : list A) (P : Prop) : length l = length l' -> (forall i x y, l !! i = Some x -> l' !! i = Some y -> x = y \/ P) -> l = l' \/ P.
Proof.
  revert l'. induction l as [|x l IH]; intros [|y l'] Hl Hp; try done; [by left|]. destruct (Hp 0%nat x y eq_refl eq_refl) as [-> |]; [|by right].
  destruct (IH l' ltac:(cbn in Hl; lia)) as [-> |]; [intros i; apply (Hp (S i))|by left|by right].
Qed.

Lemma titem_inj t : twf t -> forall u, twf u -> tbound t -> tbound u -> is_value t = is_value u -> titem t = titem u -> t = u \/ collision t u.
Proof.
  induction 1 as [v0 Hv Hb|k v0 Hk Hv Hb|k cs Hk Hn Hwf IH|cs Hlen Hn Hwf IH Hval]; intros u Hu Bt Bu Hvu He.
  - destruct u; try done. injection He as ->. by left.
  - assert (Hw : twf (TShort k (TValue v0))) by (by constructor). destruct u as [|k' u|cs]; [done| |apply (f_equal (fun it => match it with Lst l => length l | _ => 0%nat end)) in He; inversion Hu; rewrite titem_full in He; cbn in He; rewrite length_map in He; congruence].
    rewrite !titem_short in He. injection He as Hc Hr. apply compact_inj in Hc as <-; [|by eapply wf_short_key..]. pose proof (leaf_or_ext _ _ _ Hw Hu) as Hvv. destruct u; try done. injection Hr as ->. by left.
  - assert (Hw : twf (TShort k (TFull cs))) by (by constructor). destruct u as [|k' u|cs']; [done| |apply (f_equal (fun it => match it with Lst l => length l | _ => 0%nat end)) in He; inversion Hu; rewrite titem_full in He; cbn in He; rewrite length_map in He; congruence].
    rewrite !titem_short in He. injection He as Hc Hr. apply compact_inj in Hc as <-; [|by eapply wf_short_key..]. pose proof (leaf_or_ext _ _ _ Hw Hu) as Hvv.
    assert (Bt' : tbound (TFull cs)) by (by eapply tbound_short). assert (Bu' : tbound u) by (by eapply tbound_short). pose proof (short_wf _ _ Hu) as Hwu.
    destruct (tref_inj (TFull cs) u Hwf Hwu Bt' Bu' Hvv Hr) as [Hi|Hcol]; [|right; by apply collision_short].
    destruct (IH u Hwu Bt' Bu' Hvv Hi) as [-> |Hcol]; [by left|right; by apply collision_short].
  - assert (Hw : twf (TFull cs)) by (by constructor). destruct u as [|k' u|cs']; [done|apply (f_equal (fun it => match it with Lst l => length l | _ => 0%nat end)) in He; rewrite titem_full in He; cbn in He; rewrite length_map in He; congruence|].
    rewrite !titem_full in He. injection He as He. inversion Hu as [| | |? Hlen' Hn' Hwf' Hval']; subst.
    destruct (list_eq_or cs cs' (collision (TFull cs) (TFull cs'))) as [-> |]; [congruence| |by left|by right].
    intros i c c' Hc Hc'. apply (f_equal (fun l => l !! i)) in He. rewrite !list_lookup_fmap, Hc, Hc' in He. injection He as He.
    destruct c as [t|], c' as [t'|]; cbn [oref] in He; [|by apply oref_None in He; [|eapply Hwf]|by symmetry in He; apply oref_None in He; [|eapply Hwf']|by left].
    assert (Hvv : is_value t = is_value t').
    { pose proof (Hval _ _ Hc) as V1. pose proof (Hval' _ _ Hc') as V2. destruct (is_value t), (is_value t'); try done; [by symmetry; apply V2, V1|by apply V1, V2]. }
    pose proof (tbound_child _ _ _ Hw Bt Hc) as Bt'. pose proof (tbound_child _ _ _ Hu Bu Hc') as Bu'.
    destruct (tref_inj t t') as [Hi|Hcol]; eauto; [|right; by eapply collision_full].
    destruct (IH _ _ Hc t') as [-> |Hcol]; eauto. right. by eapply collision_full.
Qed.

End Root.
