(* ===== verification/TrieTheorems.v ===== *)
(** * The trie is a map with a canonical root hash

    The interface of a trie is that of a map from byte strings to byte strings with a root
    hash.  [represents] relates a trie to the map it stands for; every operation of the
    trie answers as the map does and keeps the relation. *)

From stdpp Require Import gmap strings.
From S2P Require Import Prelude VMCommon Rlp StateTypes TrieEncoding TrieNode TrieHasher TrieTree TrieCodec Trie TrieSim TrieUpdate TrieMap Demo.
Import Rlp.

(** ** The trie of a map under updates *)

Lemma map_ok_insert m k v : map_ok m -> entry_ok k v -> map_ok (<[k := v]> m).
Proof. intros Hm He. by apply map_Forall_insert_2. Qed.

Lemma map_ok_delete m k : map_ok m -> map_ok (base.delete k m).
Proof. intros Hm. by apply map_Forall_delete. Qed.

Lemma tree_of_insert m k v : map_ok m -> entry_ok k v -> tree_of (<[k := v]> m) = Some (oinsert (tree_of m) (keybytesToHex k) v).
Proof.
  intros Hm He. destruct (tree_of_spec m Hm) as [Hw Hd]. destruct (tree_of_spec _ (map_ok_insert m k v Hm He)) as [Hw' Hd']. destruct He as (Hk & Hv & Hne & _).
  eapply denotes_unique; [done| |done|by apply denotes_insert]. apply oinsert_wf; [done|by apply valid_keybytes|done|done].
Qed.

Lemma tree_of_delete m k : map_ok m -> Forall is_byte k -> tree_of (base.delete k m) = odelete (tree_of m) (keybytesToHex k).
Proof.
  intros Hm Hk. destruct (tree_of_spec m Hm) as [Hw Hd]. destruct (tree_of_spec _ (map_ok_delete m k Hm)) as [Hw' Hd'].
  eapply denotes_unique; [done| |done|by apply denotes_delete]. apply odelete_wf; [done|by apply valid_keybytes].
Qed.

Lemma tree_of_owf m : map_ok m -> owf (tree_of m) /\ obound (tree_of m) /\ forall k, Forall is_byte k -> ofits (tree_of m) (keybytesToHex k).
Proof.
  intros Hm. destruct (tree_of_spec m Hm) as [Hw Hd]. pose proof (denotes_bound _ _ Hw Hd Hm) as Hb. destruct (tree_of m) as [t|]; [|done]. destruct Hw as [Hw Hv]. split_and!; [done|done|].
  intros k Hk. unfold ofits, fits. rewrite Hv. by apply valid_keybytes.
Qed.

(** ** The relation *)

Section Theorems.
Context {C : Crypto} {CS : CryptoSpec C}.

(** The root hash of a map. *)
Definition map_root (m : bmap) : Z := match tree_of m with None => EmptyRootHash | Some t => Keccak256Hash (tbytes t) end.

(** A trie that stands for [m].  [complete] says that its reader has all the nodes. *)
Record represents (complete : bool) (tr : Trie) (m : bmap) : Prop := {
  rep_open : t_committed tr = false;
  rep_map : map_ok m;
  rep_tree : exists full, expands (t_reader tr) complete full true [] (t_root tr) (tree_of m);
  rep_clear : complete = true -> oclear (t_tracer tr) [] (tree_of m)
}.

(** ** Operations on the map *)

Inductive trie_op : Type :=
| OpGet (key : list Z)
| OpUpdate (key value : list Z)
| OpDelete (key : list Z)
| OpHash.

Inductive answer : Type :=
| AnsValue (v : option (list Z))
| AnsDone
| AnsHash (h : Z).

Definition op_ok (op : trie_op) : Prop :=
  match op with
  | OpGet key | OpDelete key => Forall is_byte key
  | OpUpdate key value => Forall is_byte key /\ (value <> [] -> entry_ok key value)
  | OpHash => True
  end.

(** The operation on the trie and on the map. *)
Definition run_op (op : trie_op) : M Trie (trie_error + answer) :=
  match op with
  | OpGet key => let* r := Get key in mret (match r with inl e => inl e | inr v => inr (AnsValue v) end)
  | OpUpdate key value => let* r := Update key value in mret (match r with inl e => inl e | inr _ => inr AnsDone end)
  | OpDelete key => let* r := Delete key in mret (match r with inl e => inl e | inr _ => inr AnsDone end)
  | OpHash => let* h := Hash in mret (inr (AnsHash h))
  end.

Definition spec_op (op : trie_op) (m : bmap) : answer * bmap :=
  match op with
  | OpGet key => (AnsValue (m !! key), m)
  | OpUpdate key value => (AnsDone, match value with [] => base.delete key m | _ => <[key := value]> m end)
  | OpDelete key => (AnsDone, base.delete key m)
  | OpHash => (AnsHash (map_root m), m)
  end.

(** The trie answers like the map, or lacks a node and still stands for the same map. *)
Definition follows (complete : bool) (op : trie_op) (tr : Trie) (m : bmap) : Prop :=
  exists r tr', run_op op tr = Ret (r, tr') /\
    match r with
    | inl e => complete = false /\ missing e /\ represents false tr' m
    | inr a => a = fst (spec_op op m) /\ represents complete tr' (snd (spec_op op m))
    end.

(** A walk from a method of the trie. *)
Lemma walk_runs {A} complete (m : trieReader -> W A) tr E Q : runs complete (m (t_reader tr)) (t_tracer tr) E Q ->
  exists r tc, walk m tr = Ret (r, set_tracer tc tr) /\ match r with inl e => complete = false /\ missing e /\ E tc | inr a => Q a tc end.
Proof. intros (r & tc & Hm & Hr). exists r, tc. unfold walk. by rewrite Hm. Qed.

Lemma walk_fuel_enough key n : (2 * length key + is_hash n < walk_fuel key)%nat.
Proof. unfold walk_fuel. destruct n; cbn; lia. Qed.

Lemma get_follows complete tr m key : represents complete tr m -> Forall is_byte key -> follows complete (OpGet key) tr m.
Proof.
  intros [Ho Hm [full He] Hc] Hk. destruct (tree_of_owf m Hm) as (Hw & Hb & Hf). destruct (tree_of_spec m Hm) as [Hwf Hd].
  pose proof (get_sim (t_reader tr) complete (walk_fuel (keybytesToHex key)) full true [] (t_root tr) (tree_of m) (keybytesToHex key) (t_tracer tr) He Hw Hb (Hf key Hk) (walk_fuel_enough _ _)) as Hr.
  destruct (walk_runs complete (fun reader => get reader (walk_fuel (keybytesToHex key)) (t_root tr) (keybytesToHex key) 0) tr _ _ Hr) as (r & tc & Hwk & Hres).
  unfold follows, run_op, Get. mrun. rewrite Ho. mrun. rewrite Hwk. mrun.
  destruct r as [e|[[v n'] d]].
  - eexists _, _. split; [done|]. destruct Hres as (H1 & H2 & H3). split_and!; [done|done|]. subst complete. split; [done|done|by exists full|done].
  - destruct Hres as (H1 & -> & H3 & H4). assert (Hcl : complete = true -> oclear tc [] (tree_of m)).
    { intros Ht. specialize (Hc Ht). destruct (tree_of m); [|done]. by eapply clear_same. }
    assert (Hg : oget (tree_of m) (keybytesToHex key) = m !! key) by (by apply denotes_get).
    destruct d; (eexists _, _; split; [done|]); cbn [spec_op fst snd]; (split; [by rewrite Hg|]); split; try done; [by exists full|]. rewrite H4 in H3 by done. by exists full.
Qed.

Lemma represents_unhashed complete n tr m : represents complete tr m -> represents complete (set_unhashed n tr) m.
Proof. by intros [H1 H2 H3 H4]. Qed.

(** Losing track of a node that is missing. *)
Lemma represents_failed tc tr m complete : complete = false -> represents complete tr m -> represents false (set_tracer tc tr) m.
Proof. by intros -> [H1 H2 H3 H4]. Qed.

(** The walks that change the root. *)
Definition changes (complete : bool) (walks : trieReader -> W (bool * node)) (tr : Trie) (m m' : bmap) : Prop :=
  exists r tc, walk walks tr = Ret (r, set_tracer tc tr) /\
    match r with
    | inl e => complete = false /\ missing e /\ represents false (set_tracer tc tr) m
    | inr (_, n) => represents complete (set_root n (set_tracer tc tr)) m'
    end.

Lemma insert_changes complete tr m key value : represents complete tr m -> entry_ok key value ->
  changes complete (fun reader => insert reader (walk_fuel (keybytesToHex key)) (t_root tr) [] (keybytesToHex key) (valueNode value)) tr m (<[key := value]> m).
Proof.
  intros Hrep He. pose proof Hrep as [Ho Hm [full Hex] Hc]. pose proof He as (Hk & _). destruct (tree_of_owf m Hm) as (Hw & Hb & Hf).
  pose proof (insert_sim (t_reader tr) complete _ full true [] (t_root tr) (tree_of m) (keybytesToHex key) value (t_tracer tr) Hex Hw Hb (Hf key Hk) (walk_fuel_enough _ _)) as Hr.
  destruct (walk_runs complete (fun reader => insert reader (walk_fuel (keybytesToHex key)) (t_root tr) [] (keybytesToHex key) (valueNode value)) tr _ _ Hr) as (r & tc & Hwk & Hres).
  exists r, tc. split; [done|]. destruct r as [e|[d n]].
  - destruct Hres as (H1 & H2 & H3). split_and!; [done|done|by eapply represents_failed].
  - destruct Hres as (H1 & H2 & H3 & H4). split; [done|by apply map_ok_insert| |]; cbn; rewrite tree_of_insert by done; [by exists false|]. intros Ht. by apply H2, Hc.
Qed.

Lemma delete_changes complete tr m key : represents complete tr m -> Forall is_byte key ->
  changes complete (fun reader => delete reader (walk_fuel (keybytesToHex key)) (t_root tr) [] (keybytesToHex key)) tr m (base.delete key m).
Proof.
  intros Hrep Hk. pose proof Hrep as [Ho Hm [full Hex] Hc]. destruct (tree_of_owf m Hm) as (Hw & Hb & Hf).
  pose proof (delete_sim (t_reader tr) complete _ full true [] (t_root tr) (tree_of m) (keybytesToHex key) (t_tracer tr) Hex Hw Hb (Hf key Hk) (walk_fuel_enough _ _)) as Hr.
  destruct (walk_runs complete (fun reader => delete reader (walk_fuel (keybytesToHex key)) (t_root tr) [] (keybytesToHex key)) tr _ _ Hr) as (r & tc & Hwk & Hres).
  exists r, tc. split; [done|]. destruct r as [e|[d n]].
  - destruct Hres as (H1 & H2 & H3). split_and!; [done|done|by eapply represents_failed].
  - destruct Hres as (_ & H2 & H3 & _). split; [done|by apply map_ok_delete| |]; cbn; rewrite tree_of_delete by done; [by exists false|]. intros Ht. by apply H2, Hc.
Qed.

Lemma update_follows complete tr m key value : represents complete tr m -> op_ok (OpUpdate key value) -> follows complete (OpUpdate key value) tr m.
Proof.
  intros Hrep [Hk He]. unfold follows, run_op, Update, update. mrun. rewrite (rep_open _ _ _ Hrep). mrun. apply (represents_unhashed _ (t_unhashed tr + 1)) in Hrep. set (tr1 := set_unhashed (t_unhashed tr + 1) tr) in *.
  destruct value as [|b value].
  - destruct (delete_changes complete tr1 m key Hrep Hk) as (r & tc & Hwk & Hres). change (negb (Zlen (@nil Z) =? 0)) with false. cbv iota. rewrite Hwk. mrun.
    destruct r as [e|[d n]]; (eexists _, _; split; [done|]); cbn [spec_op fst snd]; [done|]. by split.
  - destruct (insert_changes complete tr1 m key (b :: value) Hrep (He ltac:(done))) as (r & tc & Hwk & Hres). rewrite (proj2 (Z.eqb_neq _ _)) by (rewrite Zlen_cons; pose proof (Zlen_nonneg value); lia).
    cbn [negb]. rewrite Hwk. mrun. destruct r as [e|[d n]]; (eexists _, _; split; [done|]); cbn [spec_op fst snd]; [done|]. by split.
Qed.

Lemma delete_follows complete tr m key : represents complete tr m -> Forall is_byte key -> follows complete (OpDelete key) tr m.
Proof.
  intros Hrep Hk. unfold follows, run_op, Delete. mrun. rewrite (rep_open _ _ _ Hrep). mrun. apply (represents_unhashed _ (t_unhashed tr + 1)) in Hrep. set (tr1 := set_unhashed (t_unhashed tr + 1) tr) in *.
  destruct (delete_changes complete tr1 m key Hrep Hk) as (r & tc & Hwk & Hres). change (t_root tr1) with (t_root tr) in *. rewrite Hwk. mrun.
  destruct r as [e|[d n]]; (eexists _, _; split; [done|]); cbn [spec_op fst snd]; [done|]. by split.
Qed.

(** Hashing leaves a trie with all its hashes. *)
Lemma hash_root complete tr m : represents complete tr m ->
  exists tr', Hash tr = Ret (map_root m, tr') /\ represents complete tr' m /\ t_tracer tr' = t_tracer tr /\ t_reader tr' = t_reader tr /\ t_owner tr' = t_owner tr /\
    expands (t_reader tr) complete true true [] (t_root tr') (tree_of m).
Proof.
  intros Hrep. pose proof Hrep as [Ho Hm [full Hex] Hc]. destruct (tree_of_owf m Hm) as (Hw & Hb & _). destruct (tree_of_spec m Hm) as [Hwf _]. unfold Hash, hashRoot, map_root. mrun.
  destruct (tree_of m) as [t|] eqn:Ht.
  - destruct Hwf as [Hwt Hv]. destruct (hash_sim (t_reader tr) complete (t_root tr) full true [] t Hex Hwt Hv Hb) as (h & n' & Hh & Hex' & Hn). unfold names in Hn. rewrite decide_True in Hn by (by left). subst h.
    assert (Hnil : is_nil (t_root tr) = false) by (destruct (t_root tr); try done; by apply expands_Some in Hex).
    rewrite Hnil. unfold mlift. mrun. rewrite Hh. mrun. eexists. split; [unfold thash; rewrite BytesToHash_hashData; done|]. cbn. split_and!; try done. split; cbn; rewrite ?Ht; try done. by exists true.
  - apply expands_nil in Hex as Hnil. rewrite Hnil. cbn [is_nil]. mrun. eexists. split; [done|]. cbn. split_and!; try done; [|constructor]. split; cbn; rewrite ?Ht; try done. exists full. constructor.
Qed.

(** An operation on a trie is the operation on its map. *)
Lemma op_follows complete op tr m : represents complete tr m -> op_ok op -> follows complete op tr m.
Proof.
  intros Hrep Hop. destruct op as [key|key value|key|]; [by apply get_follows|by apply update_follows|by apply delete_follows|].
  destruct (hash_root complete tr m Hrep) as (tr' & Hh & Hrep' & _). unfold follows, run_op. mrun. rewrite Hh. mrun. by eexists _, _.
Qed.

(** ** Sequences of operations *)

Fixpoint run_ops (ops : list trie_op) : M Trie (list (trie_error + answer)) :=
  match ops with
  | [] => mret []
  | op :: ops => let* r := run_op op in let* rs := run_ops ops in mret (r :: rs)
  end.

Fixpoint spec_ops (ops : list trie_op) (m : bmap) : list answer * bmap :=
  match ops with
  | [] => ([], m)
  | op :: ops => let (a, m) := spec_op op m in let (rest, m) := spec_ops ops m in (a :: rest, m)
  end.

(** What a sequence answers when nodes may be missing: an operation that lacks a node
    fails and changes nothing. *)
Inductive lossy : list trie_op -> bmap -> list (trie_error + answer) -> bmap -> Prop :=
| lossy_nil m : lossy [] m [] m
| lossy_done op ops m rs m' : lossy ops (snd (spec_op op m)) rs m' -> lossy (op :: ops) m (inr (fst (spec_op op m)) :: rs) m'
| lossy_missing op ops m e rs m' : missing e -> lossy ops m rs m' -> lossy (op :: ops) m (inl e :: rs) m'.

(** [C7] A trie is a map with a root hash: on a trie that stands for a map and whose nodes
    can all be loaded, any sequence of [Get], [Update], [Delete] and [Hash] ends without
    error, panic or exhausted fuel, answers what the map answers (the value, and the root
    hash of the map at that moment), and leaves a trie that stands for the resulting map. *)
Theorem trie_refines_map ops tr m : represents true tr m -> Forall op_ok ops ->
  exists tr', run_ops ops tr = Ret (map inr (fst (spec_ops ops m)), tr') /\ represents true tr' (snd (spec_ops ops m)).
Proof.
  intros Hrep Hops. revert tr m Hrep. induction Hops as [|op ops Hop _ IH]; intros tr m Hrep; [by eexists|].
  destruct (op_follows true op tr m Hrep Hop) as (r & tr1 & Hr & Hres). destruct r as [e|a]; [by destruct Hres|]. destruct Hres as [-> Hrep1].
  cbn [run_ops spec_ops]. destruct (spec_op op m) as [a m1]. cbn [fst snd] in *. destruct (IH tr1 m1 Hrep1) as (tr2 & Hr2 & Hrep2).
  mrun. rewrite Hr. mrun. rewrite Hr2. mrun. destruct (spec_ops ops m1). by eexists.
Qed.

(** [C28] A missing node is an error and nothing else: whatever nodes the store lacks, a
    sequence of operations never panics or runs out of fuel, every operation either
    answers as the map does or returns a [MissingNodeError] and leaves the contents as
    they were, and the trie stands for the resulting map. *)
Theorem trie_missing_nodes ops tr m : represents false tr m -> Forall op_ok ops ->
  exists rs tr' m', run_ops ops tr = Ret (rs, tr') /\ lossy ops m rs m' /\ represents false tr' m'.
Proof.
  intros Hrep Hops. revert tr m Hrep. induction Hops as [|op ops Hop _ IH]; intros tr m Hrep; [exists [], tr, m; by split_and!; [|constructor|]|].
  destruct (op_follows false op tr m Hrep Hop) as (r & tr1 & Hr & Hres). cbn [run_ops]. mrun. rewrite Hr. mrun. destruct r as [e|a].
  - destruct Hres as (_ & He & Hrep1). destruct (IH tr1 m Hrep1) as (rs & tr2 & m' & Hr2 & Hl & Hrep2). rewrite Hr2. mrun. eexists _, _, _. split_and!; [done|by constructor|done].
  - destruct Hres as [-> Hrep1]. destruct (IH tr1 _ Hrep1) as (rs & tr2 & m' & Hr2 & Hl & Hrep2). rewrite Hr2. mrun. eexists _, _, _. split_and!; [done|by constructor|done].
Qed.

(** ** The root hash *)

(** Two different byte strings with the same hash: encodings of nodes of the two tries, or
    of the empty trie. *)
Definition node_bytes (o : option tree) (b : list Z) : Prop :=
  match o with None => b = [0x80] | Some t => exists r u, sub t r u /\ b = tbytes u end.

Definition root_collision (m m' : bmap) : Prop :=
  exists a b, node_bytes (tree_of m) a /\ node_bytes (tree_of m') b /\ a <> b /\ Keccak256Hash a = Keccak256Hash b.

(** The documented value of [types.EmptyRootHash]. *)
Definition empty_root_known : Prop := EmptyRootHash = Keccak256Hash [0x80].

Lemma tbytes_not_empty t : twf t -> is_value t = false -> tbound t -> tbytes t <> [0x80].
Proof.
  intros Hw Hv Hb He. destruct (titem_Lst t Hv) as [l Ht]. pose proof (tbytes_small t Hw Hb).
  pose proof (item_enc_inj (titem t) (Str []) (titem_bytes t Hw) eq_refl) as Hi. rewrite Ht in *. unfold tbytes in *. rewrite Ht in *. discriminate Hi; [lia|done].
Qed.

(** Maps with the same root hash. *)
Lemma map_root_inj m m' : empty_root_known -> map_ok m -> map_ok m' -> map_root m = map_root m' -> m = m' \/ root_collision m m'.
Proof.
  intros Hemp Hm Hm' He. destruct (tree_of_spec m Hm) as [Hw Hd], (tree_of_spec m' Hm') as [Hw' Hd']. pose proof (denotes_bound _ _ Hw Hd Hm) as Hb. pose proof (denotes_bound _ _ Hw' Hd' Hm') as Hb'.
  unfold map_root in He. unfold root_collision. destruct (tree_of m) as [t|] eqn:Ht, (tree_of m') as [t'|] eqn:Ht'.
  - destruct Hw as [Hw Hv], Hw' as [Hw' Hv']. assert (Hdata : hashData (tbytes t) = hashData (tbytes t')) by (unfold hashData; by rewrite He).
    assert (Hor : t = t' \/ collision t t').
    { destruct (thash_inj t t' Hw Hw' Hb Hb' Hdata) as [Hi|]; [|by right]. apply titem_inj; try done. by rewrite Hv, Hv'. }
    destruct Hor as [-> |(r & s & u & w & H1 & H2 & H3 & H4)]; [left; by apply (denotes_inj (Some t'))|]. right. exists (tbytes u), (tbytes w). split_and!; [by exists r, u|by exists s, w|done|done].
  - right. destruct Hw as [Hw Hv]. exists (tbytes t), [0x80]. split_and!; [exists [], t; by split; [constructor|]|done| |by rewrite He, Hemp]. by apply tbytes_not_empty.
  - right. destruct Hw' as [Hw' Hv']. exists [0x80], (tbytes t'). split_and!; [done|exists [], t'; by split; [constructor|]| |by rewrite <- He, Hemp]. by apply not_eq_sym, tbytes_not_empty.
  - left. by apply (denotes_inj None).
Qed.

(** [C8] The root hash commits to the contents: if two tries have the same [Hash], they hold
    the same keys and values, unless two different nodes of the two tries have the same
    Keccak hash.  (The other direction is that [Hash] depends on the contents only.) *)
Theorem trie_root_binding c tr m c' tr' m' h tr1 tr1' : empty_root_known -> represents c tr m -> represents c' tr' m' ->
  Hash tr = Ret (h, tr1) -> Hash tr' = Ret (h, tr1') -> m = m' \/ root_collision m m'.
Proof.
  intros Hemp Hrep Hrep' Hh Hh'. destruct (hash_root _ _ _ Hrep) as (? & E1 & _). destruct (hash_root _ _ _ Hrep') as (? & E2 & _). rewrite Hh in E1. rewrite Hh' in E2.
  apply map_root_inj; [done|by eapply rep_map|by eapply rep_map|congruence].
Qed.

End Theorems.

(** ** A concrete trie *)

(** The toy hash of the other examples, which knows the empty root. *)
Definition root_crypto : Crypto := {| Keccak256Hash b := if bool_decide (b = [0x80]) then EmptyRootHash else (bytes_to_Z (1 :: b)) mod 2 ^ 256 |}.

Lemma root_crypto_ok : CryptoSpec root_crypto.
Proof. split. intros b. unfold in256. cbn. case_bool_decide; [vm_compute; split; congruence|]. apply Z.mod_pos_bound. lia. Qed.

#[local] Existing Instance root_crypto.
#[local] Existing Instance root_crypto_ok.

Lemma root_crypto_empty : empty_root_known.
Proof. reflexivity. Qed.

Definition toy_trie : Trie := mkTrie nilNode 0 false 0 newEmptyReader newTracer.

Lemma toy_trie_empty complete : represents complete toy_trie ∅.
Proof. split; [done|apply map_Forall_empty|exists true; constructor|done]. Qed.

Definition toy_ops : list trie_op :=
  [OpUpdate [1; 2] [7]; OpUpdate [1; 3] [8; 8]; OpUpdate [2] [9]; OpGet [1; 3]; OpDelete [1; 2]; OpGet [1; 2]; OpUpdate [2] []; OpGet [1; 3]].

Lemma toy_ops_ok : Forall op_ok toy_ops.
Proof. repeat constructor; unfold is_byte; cbn; try lia; try done. Qed.

Lemma trie_refines_map_witness : exists tr', run_ops toy_ops toy_trie =
    Ret ([inr AnsDone; inr AnsDone; inr AnsDone; inr (AnsValue (Some [8; 8])); inr AnsDone; inr (AnsValue None); inr AnsDone; inr (AnsValue (Some [8; 8]))], tr') /\
    represents true tr' {[ [1; 3] := [8; 8] ]}.
Proof. exact (trie_refines_map toy_ops toy_trie ∅ (toy_trie_empty true) toy_ops_ok). Defined.

(** One entry with a long value, of which only the root hash is at hand. *)
Definition toy_map : bmap := {[ [1; 2] := replicate 40 7 ]}.
Definition toy_tree : tree := TShort (keybytesToHex [1; 2]) (TValue (replicate 40 7)).

Lemma toy_map_ok : map_ok toy_map.
Proof. apply map_Forall_singleton. split_and!; [repeat constructor; unfold is_byte; lia|apply Forall_replicate; unfold is_byte; lia|done|vm_compute; reflexivity..]. Qed.

Lemma toy_map_tree : tree_of toy_map = Some toy_tree.
Proof. vm_compute. reflexivity. Qed.

Definition toy_lost : Trie := mkTrie (hashNode (thash toy_tree)) 0 false 0 newEmptyReader newTracer.

Lemma toy_lost_represents : represents false toy_lost toy_map.
Proof.
  split; [done|exact toy_map_ok| |done]. exists true. rewrite toy_map_tree. cbn [t_root toy_lost]. constructor; [done|by left|]. intros r u Hu Hv Hh. unfold answers, reader_node. by cbn.
Qed.

Lemma trie_missing_nodes_witness : exists rs tr' m', run_ops toy_ops toy_lost = Ret (rs, tr') /\ lossy toy_ops toy_map rs m' /\ represents false tr' m'.
Proof. exact (trie_missing_nodes toy_ops toy_lost toy_map toy_lost_represents toy_ops_ok). Defined.

(** The same map in a trie that was built by an update. *)
Definition toy_update : trie_op := OpUpdate [1; 2] (replicate 40 7).
Definition toy_built : Trie := match run_op toy_update toy_trie with Ret (_, tr) => tr | _ => toy_trie end.

Lemma toy_built_represents : represents true toy_built toy_map.
Proof.
  destruct (op_follows true toy_update toy_trie ∅ (toy_trie_empty true)) as (r & tr & Hr & Hres).
  - split; [repeat constructor; unfold is_byte; lia|]. intros _. apply (toy_map_ok [1; 2]). reflexivity.
  - unfold toy_built. rewrite Hr. destruct r as [e|a]; [by destruct Hres|]. exact (proj2 Hres).
Qed.

Lemma trie_root_binding_witness : exists h tr1 tr1', Hash toy_lost = Ret (h, tr1) /\ Hash toy_built = Ret (h, tr1') /\ (toy_map = toy_map \/ root_collision toy_map toy_map).
Proof.
  eexists _, _, _. split; [vm_compute; reflexivity|]. split; [vm_compute; reflexivity|].
  eapply (trie_root_binding false toy_lost toy_map true toy_built toy_map); [exact root_crypto_empty|exact toy_lost_represents|exact toy_built_represents|vm_compute; reflexivity|vm_compute; reflexivity].
Defined.
