(* ===== verification/TrieCommit.v ===== *)
(** * Committing a trie (trie/committer.go, trie/trienode/node.go, [Trie.Commit])

    The committer collapses the dirty nodes of a hashed trie from the leaves up and collects
    them, keyed by path, in a node set together with the paths to delete. *)

From stdpp Require Import gmap strings.
From S2P Require Import Prelude VMCommon Rlp StateTypes Demo TrieEncoding TrieTree TrieNode TrieHasher TrieCodec Trie TrieSim TrieUpdate TrieMap TrieTheorems.
Import Rlp.

(** ** Node sets *)

(** [trienode.Node]; the hash is zero and the blob nil for a deleted node. *)
Record Node : Type := mkNode { nd_Hash : Z; nd_Blob : list Z }.

Definition IsDeleted (n : Node) : bool := nd_Hash n =? 0.
Definition NewDeleted : Node := mkNode 0 [].

Record leaf : Type := mkLeaf { lf_Blob : list Z; lf_Parent : Z }.

Record NodeSet : Type := mkNodeSet {
  ns_Owner : Z;
  ns_Leaves : list leaf;
  ns_Nodes : gmap (list Z) Node;
  ns_updates : Z;
  ns_deletes : Z
}.

Definition NewNodeSet (owner : Z) : NodeSet := mkNodeSet owner [] ∅ 0 0.

Definition AddNode (path : list Z) (n : Node) (set : NodeSet) : NodeSet :=
  mkNodeSet (ns_Owner set) (ns_Leaves set) (<[path := n]> (ns_Nodes set))
    (if IsDeleted n then ns_updates set else ns_updates set + 1)
    (if IsDeleted n then ns_deletes set + 1 else ns_deletes set).

Definition AddLeaf (parent : Z) (blob : list Z) (set : NodeSet) : NodeSet :=
  mkNodeSet (ns_Owner set) (ns_Leaves set ++ [mkLeaf blob parent]) (ns_Nodes set) (ns_updates set) (ns_deletes set).

Definition set_Size (set : NodeSet) : Z * Z := (ns_updates set, ns_deletes set).

(** One round of [Merge]: an overwritten node is taken out of the counts. *)
Definition merge_node (path : list Z) (n : Node) (set : NodeSet) : NodeSet :=
  let set :=
    match ns_Nodes set !! path with
    | Some prev =>
        mkNodeSet (ns_Owner set) (ns_Leaves set) (ns_Nodes set)
          (if IsDeleted prev then ns_updates set else ns_updates set - 1)
          (if IsDeleted prev then ns_deletes set - 1 else ns_deletes set)
    | None => set
    end in
  AddNode path n set.

(** [Merge]; [None] is the error of different owners. *)
Definition set_Merge (owner : Z) (nodes : gmap (list Z) Node) (set : NodeSet) : option NodeSet :=
  if negb (ns_Owner set =? owner) then None else Some (map_fold merge_node set nodes).

(** [MergedNodeSet.Merge] *)
Definition MergedNodeSet : Type := gmap Z NodeSet.

Definition merged_Merge (other : NodeSet) (sets : MergedNodeSet) : option MergedNodeSet :=
  match sets !! ns_Owner other with
  | Some subset =>
      match set_Merge (ns_Owner other) (ns_Nodes other) subset with
      | Some subset => Some (<[ns_Owner other := subset]> sets)
      | None => None
      end
  | None => Some (<[ns_Owner other := other]> sets)
  end.

(** ** The committer *)

Section Committer.
Context (tc : tracer) (collectLeaf : bool).

Definition store (path : list Z) (n : node) : M NodeSet node :=
  let* (hash, _) := mlift (cache n) in
  match hash with
  | None =>
      (if bool_decide (is_Some (accessList tc !! path)) then mmodify (AddNode path NewDeleted) else mret tt) ;;;
      mret n
  | Some hash =>
      let nhash := BytesToHash hash in
      let* blob := mlift (nodeToBytes n) in
      mmodify (AddNode path (mkNode nhash blob)) ;;;
      (if collectLeaf then match n with shortNode _ (valueNode val) _ => mmodify (AddLeaf nhash val) | _ => mret tt end else mret tt) ;;;
      mret (hashNode hash)
  end.

(** [if hn, ok := hashedNode.(hashNode); ok { return hn }; return collapsed] *)
Definition stored_or (hashedNode collapsed : node) : node := match hashedNode with hashNode _ => hashedNode | _ => collapsed end.

Section Children.
Context (commit : list Z -> node -> M NodeSet node).

(** The loop of [commitChildren] over the children from the [i]-th on. *)
Fixpoint commitChildren (path : list Z) (i : Z) (todo : nat) (cs : list node) {struct cs} : M NodeSet (list node) :=
  match todo with
  | O => mret cs
  | S todo =>
      match cs with
      | [] => mlift Panic
      | c :: cs =>
          let* c := (match c with nilNode => mret nilNode | hashNode _ => mret c | _ => commit (path ++ [i]) c end) in
          let* cs := commitChildren path (i + 1) todo cs in
          mret (c :: cs)
      end
  end.

End Children.

Fixpoint commit (path : list Z) (n : node) {struct n} : M NodeSet node :=
  let* (hash, dirty) := mlift (cache n) in
  match hash, dirty with
  | Some hash, false => mret (hashNode hash)
  | _, _ =>
      match n with
      | shortNode key val fl =>
          let* cval := (match val with fullNode _ _ => commit (path ++ key) val | _ => mret val end) in
          let* ckey := mlift (hexToCompact key) in
          let collapsed := shortNode ckey cval fl in
          let* hashedNode := store path collapsed in
          mret (stored_or hashedNode collapsed)
      | fullNode cs fl =>
          let* hashedKids := commitChildren commit path 0 16 cs in
          let collapsed := fullNode hashedKids fl in
          let* hashedNode := store path collapsed in
          mret (stored_or hashedNode collapsed)
      | hashNode _ => mret n
      | _ => mlift Panic
      end
  end.

(** [Commit] of the committer. *)
Definition committer_Commit (n : node) : M NodeSet node :=
  let* n := commit [] n in
  match n with hashNode _ => mret n | _ => mlift Panic end.

End Committer.

(** The deletions of the tracer, in any order. *)
Definition add_deleted (tc : tracer) (nodes : NodeSet) : NodeSet := foldr (fun path => AddNode path NewDeleted) nodes (deletedNodes tc).

(** [Trie.Commit]: the root hash and the nodes, and the deferred end of the trie. *)
Definition Commit {C : Crypto} (collectLeaf : bool) : M Trie (Z * option NodeSet) :=
  let finish := mmodify (fun t => set_committed true (set_tracer (tracer_reset (t_tracer t)) t)) in
  let* t := mget in
  if is_nil (t_root t) then
    finish ;;;
    match deletedNodes (t_tracer t) with
    | [] => mret (EmptyRootHash, None)
    | _ => mret (EmptyRootHash, Some (add_deleted (t_tracer t) (NewNodeSet (t_owner t))))
    end
  else
    let* rootHash := Hash in
    let* t := mget in
    let* (hashedNode, dirty) := mlift (cache (t_root t)) in
    if negb dirty then
      mmodify (set_root (hashNode (default [] hashedNode))) ;;;
      finish ;;;
      mret (rootHash, None)
    else
      let nodes := add_deleted (t_tracer t) (NewNodeSet (t_owner t)) in
      let* (root, nodes) := mlift (committer_Commit (t_tracer t) collectLeaf (t_root t) nodes) in
      mmodify (set_root root) ;;;
      finish ;;;
      mret (rootHash, Some nodes).

(** * A committed trie can be opened again

    The node set of a commit has every new node of the trie under its path, and never
    deletes or overwrites a node that the trie still uses; so a store that takes it over
    has the whole trie. *)

Section Commit.
Context {C : Crypto} (reader : trieReader) (tc : tracer) (collectLeaf : bool).
Abbreviation expands := (expands reader true).
Abbreviation commit := (commit tc collectLeaf).
Abbreviation nodes := (gmap (list Z) Node).

Definition wrote (s : nodes) (q : list Z) (u : tree) : Prop := s !! q = Some (mkNode (BytesToHash (thash u)) (tbytes u)).

(** Every node of the tree is in the set, or in the old store and untouched. *)
Definition kept (top : bool) (p : list Z) (t : tree) (s0 s1 : nodes) : Prop :=
  forall r u, sub t r u -> is_value u = false -> hashed (if decide (r = []) then top else false) u ->
    wrote s1 (p ++ r) u \/ (s1 !! (p ++ r) = s0 !! (p ++ r) /\ answers reader true (p ++ r) u).

(** Nothing changed but at nodes of the tree. *)
Definition confined (p : list Z) (t : tree) (s0 s1 : nodes) : Prop := forall q, (forall r, live t r -> q <> p ++ r) -> s1 !! q = s0 !! q.

Lemma kept_transport top p t s0 s1 s0' s1' : (forall r, live t r -> s0' !! (p ++ r) = s0 !! (p ++ r)) -> (forall r, live t r -> s1' !! (p ++ r) = s1 !! (p ++ r)) ->
  kept top p t s0 s1 -> kept top p t s0' s1'.
Proof.
  intros H0 H1 Hk r u Hs Hv Hh. unfold wrote. assert (Hl : live t r) by (by exists u). rewrite H0, H1 by done. by apply Hk.
Qed.

Lemma stored_kept top p t s : stored reader true top p t -> kept top p t s s.
Proof. intros Hs r u Hu Hv Hh. right. split; [done|by apply Hs]. Qed.

Lemma confined_refl p t s : confined p t s s.
Proof. done. Qed.

Definition commit_ok (n : node) : Prop := forall top p t s0, expands true top p n (Some t) -> twf t -> is_value t = false -> tbound t ->
  exists n' s1, commit p n s0 = Ret (n', s1) /\ names top t n' /\ kept top p t (ns_Nodes s0) (ns_Nodes s1) /\ confined p t (ns_Nodes s0) (ns_Nodes s1).

(** [store] of a collapsed node. *)
Lemma store_sim top p t n fl d s0 : cache n = Ret (flag_hash fl, d) -> is_hash n = 0%nat -> encodable n = true -> nitem n = titem t -> tbound t -> twf t ->
  flag_ok reader true true top p fl t ->
  exists h s1, store tc collectLeaf p n s0 = Ret (h, s1) /\ names top t (stored_or h n) /\ (hashed top t -> wrote (ns_Nodes s1) p t) /\
    forall q, q <> p -> ns_Nodes s1 !! q = ns_Nodes s0 !! q.
Proof.
  intros Hc Hn He Hi Hb Hw [F1 F2 F3]. unfold store. pose proof (tbytes_small t Hw Hb) as Hsm. unfold tbytes in Hsm.
  assert (Hleaf : forall h s, exists s', (if collectLeaf then match n with shortNode _ (valueNode val) _ => mmodify (AddLeaf h val) | _ => mret tt end else mret tt) s = Ret (tt, s') /\ ns_Nodes s' = ns_Nodes s).
  { intros h s. destruct collectLeaf; [destruct n as [| |? [] | | |]|]; (eexists; split; [reflexivity|reflexivity]). }
  unfold mlift. mrun. rewrite Hc. mrun. unfold names. destruct (flag_hash fl) as [h|] eqn:Hh.
  - destruct (F1 h eq_refl) as [-> Hd]. mrun. rewrite nodeToBytes_item by (rewrite ?Hi; done || lia). mrun. rewrite Hi. fold (tbytes t).
    destruct (Hleaf (BytesToHash (thash t)) (AddNode p (mkNode (BytesToHash (thash t)) (tbytes t)) s0)) as (s' & Hs' & Hnodes).
    unfold mmodify, mret in Hs'. rewrite Hs'. mrun. eexists _, _. split; [reflexivity|]. destruct (decide (hashed top t)); [|done]. split; [done|]. rewrite Hnodes. cbn [AddNode ns_Nodes]. unfold wrote.
    split; [by rewrite lookup_insert_eq|]. intros q Hq. by rewrite lookup_insert_ne.
  - assert (Hnot : ~ hashed top t) by (intros Hd; by apply (F3 eq_refl)). destruct (bool_decide (is_Some (accessList tc !! p))); (eexists _, _; split; [reflexivity|]);
      (destruct (decide (hashed top t)); [done|]); (assert (Hso : stored_or n n = n) by (by destruct n)); rewrite Hso; (split_and!; [done|done|done|done|]); intros q Hq; [|done].
    cbn [snd AddNode ns_Nodes]. by rewrite lookup_insert_ne.
Qed.

(** A node and then its store. *)
Lemma kept_short top p k t s0 s1 s2 : k <> [] -> kept false (p ++ k) t s0 s1 -> confined (p ++ k) t s0 s1 ->
  (hashed top (TShort k t) -> wrote s2 p (TShort k t)) -> (forall q, q <> p -> s2 !! q = s1 !! q) ->
  kept top p (TShort k t) s0 s2 /\ confined p (TShort k t) s0 s2.
Proof.
  intros Hk H1 H2 H3 H4. assert (Hne : forall r, p ++ k ++ r <> p).
  { intros r He. apply (f_equal length) in He. rewrite !length_app in He. destruct k; [done|]. cbn in He. lia. }
  split.
  - intros r u Hs Hv Hh. inversion Hs as [|? ? r' ? Hs'|]; subst; [rewrite app_nil_r; left; by apply H3|]. unfold wrote. rewrite H4 by done. rewrite app_assoc. apply H1; [done|done|].
    destruct (decide (k ++ r' = [])); [by destruct k|]. by destruct (decide (r' = [])).
  - intros q Hq. rewrite H4; [apply H2|].
    + intros r Hr. rewrite <- app_assoc. apply Hq, live_short. right. by exists r.
    + specialize (Hq [] ltac:(apply live_short; by left)). by rewrite app_nil_r in Hq.
Qed.

(** The children that were committed so far. *)
Definition kept_kids (p : list Z) (i todo : nat) (cs : list (option tree)) (s0 s1 : nodes) : Prop :=
  (forall j t, (j < todo)%nat -> cs !! j = Some (Some t) -> kept false (p ++ [Z.of_nat (i + j)]) t s0 s1) /\
  (forall q, (forall j t r, (j < todo)%nat -> cs !! j = Some (Some t) -> live t r -> q <> p ++ Z.of_nat (i + j) :: r) -> s1 !! q = s0 !! q).

(** Committing one child. *)
Definition kid_ok (p : list Z) (i : nat) (n : node) (c : option tree) : Prop :=
  forall s0, exists n' s1, (match n with nilNode => mret nilNode | hashNode _ => mret n | _ => commit (p ++ [Z.of_nat i]) n end) s0 = Ret (n', s1) /\ called n' (oref c) /\
    match c with
    | None => s1 = s0
    | Some t => kept false (p ++ [Z.of_nat i]) t (ns_Nodes s0) (ns_Nodes s1) /\ confined (p ++ [Z.of_nat i]) t (ns_Nodes s0) (ns_Nodes s1)
    end.

Lemma kid_path_ne p i j (r r' : list Z) : i <> j -> p ++ Z.of_nat i :: r <> p ++ Z.of_nat j :: r'.
Proof. intros Hne He. apply app_inv_head in He. injection He as He _. lia. Qed.

Lemma kept_kids_cons p i todo c cs s0 s1 s2 :
  match c with None => s1 = s0 | Some t => kept false (p ++ [Z.of_nat i]) t s0 s1 /\ confined (p ++ [Z.of_nat i]) t s0 s1 end ->
  kept_kids p (S i) todo cs s1 s2 -> kept_kids p i (S todo) (c :: cs) s0 s2.
Proof.
  intros Hc [Hk Hf]. assert (Hi : Z.of_nat (i + 0) = Z.of_nat i) by lia. assert (Hi' : forall j, Z.of_nat (i + S j) = Z.of_nat (S i + j)) by (intros; lia).
  assert (Hold : forall j t, cs !! j = Some (Some t) -> forall r, s1 !! (p ++ Z.of_nat (S i + j) :: r) = s0 !! (p ++ Z.of_nat (S i + j) :: r)).
  { intros j t Hj r. destruct c as [u|]; [|by rewrite Hc]. destruct Hc as [_ Hc]. apply Hc. intros r' _. rewrite <- app_assoc. apply kid_path_ne. lia. }
  split.
  - intros [|j] t Hj Ht; cbn in Ht.
    + injection Ht as ->. rewrite Hi. destruct Hc as [Hkt _]. eapply kept_transport; [| |exact Hkt]; [done|]. intros r _. apply Hf. intros j' t' r' _ _ _. rewrite <- app_assoc. apply kid_path_ne. lia.
    + rewrite Hi'. eapply kept_transport; [| |apply (Hk j t); [lia|done]]; [|done]. intros r _. rewrite <- app_assoc. symmetry. by eapply Hold.
  - intros q Hq. rewrite Hf; [|intros j t r Hj Ht Hr; rewrite <- Hi'; apply (Hq (S j) t r); [lia|done|done]].
    destruct c as [u|]; [|by rewrite Hc]. destruct Hc as [_ Hc]. apply Hc. intros r Hr. rewrite <- app_assoc, <- Hi. apply (Hq 0%nat u r); [lia|done|done].
Qed.

Lemma commitChildren_sim p todo : forall i ns cs s0, (todo <= length ns)%nat -> length ns = length cs ->
  (forall j n c, (j < todo)%nat -> ns !! j = Some n -> cs !! j = Some c -> kid_ok p (i + j) n c) ->
  exists ns' s1, commitChildren commit p (Z.of_nat i) todo ns s0 = Ret (ns', s1) /\ length ns' = length cs /\
    (forall j n' c, (j < todo)%nat -> ns' !! j = Some n' -> cs !! j = Some c -> called n' (oref c)) /\ (forall j, (todo <= j)%nat -> ns' !! j = ns !! j) /\
    kept_kids p i todo cs (ns_Nodes s0) (ns_Nodes s1).
Proof.
  induction todo as [|todo IH]; intros i ns cs s0 Hl Hlen Hc.
  - exists ns, s0. split; [by destruct ns|]. split_and!; [done|intros; lia|done|]. split; [intros; lia|done].
  - destruct ns as [|n ns]; [cbn in Hl; lia|]. destruct cs as [|c cs]; [done|]. cbn [length] in *.
    assert (Hkid : kid_ok p i n c) by (specialize (Hc 0%nat n c ltac:(lia) eq_refl eq_refl); by rewrite Nat.add_0_r in Hc).
    destruct (Hkid s0) as (n' & s1 & H1 & H2 & H3).
    destruct (IH (S i) ns cs s1 ltac:(lia) ltac:(lia)) as (ns' & s2 & E1 & E2 & E3 & E4 & E5).
    { intros j m d Hj Hm Hd. replace (S i + j)%nat with (i + S j)%nat by lia. apply (Hc (S j)); [lia|done|done]. }
    exists (n' :: ns'), s2. split.
    { cbn [commitChildren]. unfold mthen at 1. rewrite H1. cbn [obind fst snd]. unfold mthen. replace (Z.of_nat i + 1) with (Z.of_nat (S i)) by lia. by rewrite E1. }
    split_and!; [cbn; lia| | |by eapply kept_kids_cons; [destruct c; subst; done|]].
    + intros [|j] m d Hj; cbn; [by intros [= <-] [= <-]|]. apply E3. lia.
    + intros [|j] Hj; [lia|]. cbn. apply E4. lia.
Qed.

Lemma kept_full top p cs s0 s1 s2 : twf (TFull cs) -> kept_kids p 0 16 cs s0 s1 ->
  (hashed top (TFull cs) -> wrote s2 p (TFull cs)) -> (forall q, q <> p -> s2 !! q = s1 !! q) ->
  kept top p (TFull cs) s0 s2 /\ confined p (TFull cs) s0 s2.
Proof.
  intros Hw [Hk Hf] H3 H4. inversion Hw as [| | |? Hlen Hn Hwf Hval]; subst. assert (Hne : forall z (r : list Z), p ++ z :: r <> p).
  { intros z r He. apply (f_equal length) in He. rewrite length_app in He. cbn in He. lia. }
  assert (H16 : forall i t r, cs !! i = Some (Some t) -> live t r -> (i < 16)%nat).
  { intros i t r Hi Hl. pose proof (lookup_lt_Some _ _ _ Hi). assert (i <> 16%nat); [|lia]. intros ->. pose proof (proj2 (Hval _ _ Hi) eq_refl). destruct t; try done. by apply live_value in Hl. }
  split.
  - intros r u Hs Hv Hh. inversion Hs as [| |? i t r' ? Hi Hs']; subst; [rewrite app_nil_r; left; by apply H3|]. unfold wrote. rewrite H4 by done.
    pose proof (Hk i t (H16 i t r' Hi ltac:(by exists u)) Hi r' u Hs' Hv) as Hd. rewrite <- app_assoc in Hd. apply Hd. by destruct (decide (r' = [])).
  - intros q Hq. rewrite H4; [apply Hf|].
    + intros j t r Hj Ht Hr. apply Hq, live_full. right. by exists j, t, r.
    + specialize (Hq [] ltac:(apply live_full; by left)). by rewrite app_nil_r in Hq.
Qed.

Lemma kid_commit p i n c : commit_ok n -> expands true false (p ++ [Z.of_nat i]) n c -> owf c -> obound c -> (forall t, c = Some t -> is_value t = false) -> kid_ok p i n c.
Proof.
  intros Hok He Hw Hb Hv s0. destruct c as [t|].
  - destruct (Hok false _ t s0 He Hw (Hv t eq_refl) Hb) as (n' & s1 & Hc & Hn & Hk & Hcf). exists n', s1. split; [|by split; [apply names_called; [apply Hv|]|]].
    by destruct n.
  - apply expands_nil in He as ->. exists nilNode, s0. by split_and!.
Qed.

(** A clean node is called by its hash. *)
Lemma commit_clean top p t fl h n s : flag_ok reader true true top p fl t -> flag_hash fl = Some h -> flag_dirty fl = false -> cache n = Ret (flag_hash fl, flag_dirty fl) ->
  exists n' s1, commit p n s = Ret (n', s1) /\ names top t n' /\ kept top p t (ns_Nodes s) (ns_Nodes s1) /\ confined p t (ns_Nodes s) (ns_Nodes s1).
Proof.
  intros [F1 F2 F3] Hh Hd Hc. exists (hashNode h), s. destruct (F1 h Hh) as [-> Hhd]. split.
  - destruct n; cbn [TrieCommit.commit]; unfold mlift; mrun; rewrite Hc, Hh, Hd; done.
  - split_and!; [unfold names; by rewrite decide_True|by apply stored_kept, F2|done].
Qed.

Lemma commit_short_dirty p k n fl s : ~ (flag_hash fl <> None /\ flag_dirty fl = false) ->
  commit p (shortNode k n fl) s =
    (let* cval := (match n with fullNode _ _ => commit (p ++ k) n | _ => mret n end) in
     let* ckey := mlift (hexToCompact k) in
     let* hashedNode := store tc collectLeaf p (shortNode ckey cval fl) in
     mret (stored_or hashedNode (shortNode ckey cval fl))) s.
Proof. intros Hd. cbn [TrieCommit.commit cache]. unfold mthen at 1. cbn [mlift obind fst snd]. destruct (flag_hash fl), (flag_dirty fl); try done. by destruct Hd. Qed.

Lemma commit_full_dirty p ns fl s : ~ (flag_hash fl <> None /\ flag_dirty fl = false) ->
  commit p (fullNode ns fl) s =
    (let* hashedKids := commitChildren commit p 0 16 ns in
     let* hashedNode := store tc collectLeaf p (fullNode hashedKids fl) in
     mret (stored_or hashedNode (fullNode hashedKids fl))) s.
Proof. intros Hd. cbn [TrieCommit.commit cache]. unfold mthen at 1. cbn [mlift obind fst snd]. destruct (flag_hash fl), (flag_dirty fl); try done. by destruct Hd. Qed.

Lemma commit_short top p k n t fl s0 : commit_ok n -> expands (true || has_hash fl) false (p ++ k) n (Some t) -> flag_ok reader true true top p fl (TShort k t) ->
  twf (TShort k t) -> tbound (TShort k t) ->
  exists n' s1, commit p (shortNode k n fl) s0 = Ret (n', s1) /\ names top (TShort k t) n' /\ kept top p (TShort k t) (ns_Nodes s0) (ns_Nodes s1) /\ confined p (TShort k t) (ns_Nodes s0) (ns_Nodes s1).
Proof.
  intros Hok He Hf Hw Hb. destruct (wf_short_key k t Hw) as [Hk Hkey]. destruct (tbound_short k t Hw Hb) as [_ Hbt]. pose proof (short_wf k t Hw) as Hwt.
  destruct (decide (flag_hash fl <> None /\ flag_dirty fl = false)) as [[Hh Hd]|Hdirty].
  { destruct (flag_hash fl) as [h|] eqn:Hh'; [|done]. by apply (commit_clean top p _ fl h). }
  assert (Hval : exists cv s1, (match n with fullNode _ _ => commit (p ++ k) n | _ => mret n end) s0 = Ret (cv, s1) /\ called cv (tref t) /\ kept false (p ++ k) t (ns_Nodes s0) (ns_Nodes s1) /\ confined (p ++ k) t (ns_Nodes s0) (ns_Nodes s1)).
  { destruct (is_value t) eqn:Hv.
    - destruct t as [v| |]; try done. inversion He; subst; [|done]. eexists _, _. split; [reflexivity|]. split_and!; [done| |done]. intros r u Hs Hvu. inversion Hs; by subst.
    - destruct (Hok false (p ++ k) t s0 He Hwt Hv Hbt) as (n' & s1 & Hc & Hn & Hkp & Hcf). exists n', s1. split; [|by split; [apply names_called|]].
      destruct n; try done; inversion He; subst; try done. inversion Hw; by subst. }
  destruct Hval as (cv & s1 & Hcv & [Hce Hci] & Hkp & Hcf).
  destruct (store_sim top p (TShort k t) (shortNode (compact k) cv fl) fl (flag_dirty fl) s1) as (h & s2 & Hst & Hnm & Hwr & Hfr); try done; [by rewrite titem_short; cbn; rewrite Hci|].
  exists (stored_or h (shortNode (compact k) cv fl)), s2. split.
  - rewrite commit_short_dirty by done. unfold mlift. mrun. unfold mret in Hcv. rewrite Hcv. mrun. rewrite hexToCompact_compact by done. mrun. by rewrite Hst.
  - split; [done|]. by eapply kept_short.
Qed.

Lemma commit_full top p ns cs fl s0 : Forall commit_ok ns -> kids reader true (true || has_hash fl) p ns cs -> flag_ok reader true true top p fl (TFull cs) ->
  twf (TFull cs) -> tbound (TFull cs) ->
  exists n' s1, commit p (fullNode ns fl) s0 = Ret (n', s1) /\ names top (TFull cs) n' /\ kept top p (TFull cs) (ns_Nodes s0) (ns_Nodes s1) /\ confined p (TFull cs) (ns_Nodes s0) (ns_Nodes s1).
Proof.
  intros Hok [Hl Hk] Hf Hw Hb. destruct (decide (flag_hash fl <> None /\ flag_dirty fl = false)) as [[Hh Hd]|Hdirty].
  { destruct (flag_hash fl) as [h|] eqn:Hh'; [|done]. by apply (commit_clean top p _ fl h). }
  inversion Hw as [| | |? Hlen Hn Hwf Hval]; subst.
  destruct (commitChildren_sim p 16 0 ns cs s0) as (ns' & s1 & Hcc & L1 & Hcall & Hhigh & Hkk); [lia|done| |].
  { intros j n c Hj Hn' Hc. cbn [Nat.add]. apply kid_commit; [by eapply (Forall_lookup_1 _ ns)|by apply Hk|..]; destruct c as [t|]; cbn; try done; [by eapply Hwf|by eapply tbound_child|].
    intros t' [= <-]. destruct (is_value t) eqn:Hv; [|done]. apply (Hval _ _ Hc) in Hv. lia. }
  assert (Hall : forall i n' c, ns' !! i = Some n' -> cs !! i = Some c -> called n' (oref c)).
  { intros i n' c H1 H2. destruct (decide (i < 16)%nat) as [Hi|Hi]; [by apply (Hcall i)|]. rewrite Hhigh in H1 by lia. specialize (Hk i n' c H1 H2). destruct c as [t|]; [|by apply expands_nil in Hk as ->].
    assert (i = 16%nat) as -> by (apply lookup_lt_Some in H2; lia). pose proof (proj2 (Hval _ _ H2) eq_refl) as Hv. destruct t as [v| |]; try done. by inversion Hk; subst. }
  destruct (called_children ns' cs L1 Hall) as [Henc Hit].
  destruct (store_sim top p (TFull cs) (fullNode ns' fl) fl (flag_dirty fl) s1) as (h & s2 & Hst & Hnm & Hwr & Hfr); try done; [|by rewrite titem_full; cbn; rewrite Hit|].
  { cbn [encodable]. rewrite Henc, bool_decide_eq_false_2 by lia. done. }
  exists (stored_or h (fullNode ns' fl)), s2. split.
  - rewrite commit_full_dirty by done. unfold mthen. change 0 with (Z.of_nat 0). rewrite Hcc. mrun. by rewrite Hst.
  - split; [done|]. by eapply kept_full.
Qed.

Lemma commit_sim n : commit_ok n.
Proof.
  induction n as [|ns fl IH|k n fl IH|b|b|b] using node_ind'; intros top p t s0 He Hw Hv Hb.
  - by apply expands_Some in He.
  - inversion He as [| | | |? ? ? ? cs ? Hl Hc Hfl]; subst. by apply commit_full.
  - inversion He as [| | |? ? ? ? ? t' ? Hc Hfl|]; subst. by apply commit_short.
  - inversion He as [| |? ? ? ? Hvt Hh Hs| |]; subst. exists (hashNode (thash t)), s0. split; [done|]. split_and!; [unfold names; by rewrite decide_True|by apply stored_kept|done].
  - inversion He; by subst.
  - inversion He.
Qed.

End Commit.

(** ** Reopening *)

Section Reopen.
Context {C : Crypto} {CS : CryptoSpec C}.

(** What a store does with a node set: it has the new nodes under their path and hash, and
    keeps the nodes at paths that the set does not mention. *)
Definition takes_over (old : trieReader) (set : option NodeSet) (new : trieReader) : Prop :=
  forall path hash,
    match (match set with Some s => ns_Nodes s !! path | None => None end) with
    | Some n => IsDeleted n = false -> hash = nd_Hash n -> reader_node new path hash = inr (nd_Blob n)
    | None => forall blob, reader_node old path hash = inr blob -> reader_node new path hash = inr blob
    end.

(** No node of the trie hashes to zero, which marks deletions, or to the empty root. *)
Definition proper_hashes (m : bmap) : Prop :=
  match tree_of m with None => True | Some t => Keccak256Hash (tbytes t) <> EmptyRootHash /\ forall r u, sub t r u -> Keccak256Hash (tbytes u) <> 0 end.

Lemma foldr_deleted_lookup paths s q : q ∉ paths -> ns_Nodes (foldr (fun path => AddNode path NewDeleted) s paths) !! q = ns_Nodes s !! q.
Proof.
  induction paths as [|p paths IH]; [done|]. intros Hq. apply not_elem_of_cons in Hq as [Hne Hq]. cbn [foldr AddNode ns_Nodes]. rewrite lookup_insert_ne by done. by apply IH.
Qed.

Lemma add_deleted_lookup tc owner q : q ∉ deletes tc -> ns_Nodes (add_deleted tc (NewNodeSet owner)) !! q = None.
Proof.
  intros Hq. unfold add_deleted. rewrite foldr_deleted_lookup; [done|]. unfold deletedNodes. intros Hi. apply list_elem_of_filter in Hi as [_ Hi]. by apply elem_of_elements in Hi.
Qed.

(** The new store has the trie. *)
Lemma kept_stored old new t s0 s1 : (forall r u, sub t r u -> Keccak256Hash (tbytes u) <> 0) -> (forall r, live t r -> s0 !! r = None) ->
  kept old true [] t s0 (ns_Nodes s1) -> takes_over old (Some s1) new -> stored new true true [] t.
Proof.
  intros Hz Hs0 Hk Ht r u Hu Hv Hh. cbn [app]. unfold answers. specialize (Ht r (BytesToHash (thash u))). unfold thash in *. rewrite BytesToHash_hashData in *. destruct (Hk r u Hu Hv Hh) as [Hw|[Hn Ha]].
  - unfold wrote in Hw. cbn [app] in Hw. rewrite Hw in Ht. unfold thash in Ht. rewrite BytesToHash_hashData in Ht. cbn in Ht. rewrite Ht; [done| |done]. unfold IsDeleted. cbn. apply Z.eqb_neq. by eapply Hz.
  - cbn [app] in *. rewrite Hn, Hs0 in Ht by (by exists u). unfold answers, thash in Ha. rewrite BytesToHash_hashData in Ha. destruct (reader_node old r (Keccak256Hash (tbytes u))) as [e|blob]; [done|]. by rewrite (Ht blob eq_refl).
Qed.

Lemma clean_stored old new t : stored old true true [] t -> takes_over old None new -> stored new true true [] t.
Proof.
  intros Hs Ht r u Hu Hv Hh. specialize (Hs r u Hu Hv Hh). unfold answers in *. specialize (Ht ([] ++ r) (BytesToHash (thash u))). cbn beta iota in Ht. destruct (reader_node old _ _) as [e|blob]; [done|]. by rewrite (Ht blob eq_refl).
Qed.

(** [Commit] of a trie that is not empty. *)
Lemma commit_stored collectLeaf tr m t : represents true tr m -> tree_of m = Some t -> (forall r u, sub t r u -> Keccak256Hash (tbytes u) <> 0) ->
  exists set tr1, Commit collectLeaf tr = Ret ((map_root m, set), tr1) /\ t_committed tr1 = true /\ forall new, takes_over (t_reader tr) set new -> stored new true true [] t.
Proof.
  intros Hrep Ht Hz. destruct (tree_of_owf m (rep_map _ _ _ Hrep)) as (Hw & Hb & _). destruct (tree_of_spec m (rep_map _ _ _ Hrep)) as [Hwf _]. rewrite Ht in *. destruct Hwf as [_ Hv].
  destruct (hash_root true tr m Hrep) as (tr1 & Hh & Hrep1 & Htc & Hrd & Hown & Hex). rewrite Ht in Hex.
  assert (Hnil : is_nil (t_root tr) = false).
  { destruct (rep_tree _ _ _ Hrep) as [full He]. rewrite Ht in He. destruct (t_root tr); try done. by apply expands_Some in He. }
  pose proof (rep_clear _ _ _ Hrep1 eq_refl) as Hcl. rewrite Ht in Hcl. cbn [oclear] in Hcl. assert (Hs0 : forall r, live t r -> ns_Nodes (add_deleted (t_tracer tr1) (NewNodeSet (t_owner tr1))) !! r = None).
  { intros r Hr. apply add_deleted_lookup. by apply (Hcl r). }
  destruct (commit_sim (t_reader tr) (t_tracer tr1) collectLeaf (t_root tr1) true [] t (add_deleted (t_tracer tr1) (NewNodeSet (t_owner tr1))) Hex Hw Hv Hb) as (n' & s1 & Hc & Hn & Hk & _).
  unfold names in Hn. rewrite decide_True in Hn by (by left). subst n'.
  unfold Commit. mrun. rewrite Hnil. mrun. rewrite Hh. mrun. unfold mlift. assert (Hcache : exists h d, cache (t_root tr1) = Ret (h, d) /\ (d = false -> stored (t_reader tr) true true [] t)).
  { inversion Hex as [| | |? ? ? ? ? ? ? _ [_ F2 _]|? ? ? ? ? ? _ _ [_ F2 _]]; subst; cbn; (eexists _, _; split; [reflexivity|]); done. }
  destruct Hcache as (h & d & -> & Hd). mrun. destruct d; cbn [negb].
  - unfold committer_Commit. mrun. rewrite Hc. mrun. eexists _, _. split; [reflexivity|]. split; [done|]. intros new Hnew. by eapply kept_stored.
  - eexists _, _. split; [reflexivity|]. split; [done|]. intros new Hnew. by eapply clean_stored, Hnew; apply Hd.
Qed.

Lemma tree_of_None m : map_ok m -> tree_of m = None -> m = ∅.
Proof.
  intros Hm Ht. destruct (tree_of_spec m Hm) as [_ Hd]. rewrite Ht in Hd. by eapply denotes_inj; [|apply map_Forall_empty| |apply denotes_empty].
Qed.

(** Opening a trie whose nodes are in the store. *)
Lemma open_stored id db new m t : map_ok m -> tree_of m = Some t -> id_Root id = Keccak256Hash (tbytes t) -> id_Root id <> 0 -> id_Root id <> EmptyRootHash ->
  newTrieReader (id_StateRoot id) (id_Owner id) db = inr new -> stored new true true [] t -> exists tr, New id db = Ret (inr tr) /\ represents true tr m.
Proof.
  intros Hm Ht Hroot Hz He Hrd Hs. destruct (tree_of_owf m Hm) as (Hw & Hb & _). destruct (tree_of_spec m Hm) as [Hwf _]. rewrite Ht in *. destruct Hwf as [_ Hv].
  unfold New. rewrite Hrd. rewrite (proj2 (Z.eqb_neq (id_Root id) 0)), (proj2 (Z.eqb_neq (id_Root id) EmptyRootHash)) by done. cbn [negb andb].
  destruct (resolve_runs new true true [] t newTracer) as (r & tc & Hr & Hres); try done; [by left|]. unfold walk. cbn [t_reader t_tracer]. rewrite Hroot. change (HashBytes (Keccak256Hash (tbytes t))) with (thash t).
  rewrite Hr. cbn [obind]. destruct r as [e|n]; [by destruct Hres|]. destruct Hres as [[_ Hd] ->]. eexists. split; [reflexivity|]. split; cbn; rewrite ?Ht; try done.
  - exists true. apply expands_cnode; try done. split; [done|by left].
  - intros _ r' _. rewrite Hd. cbn. set_solver.
Qed.

Lemma open_empty id db new : id_Root id = EmptyRootHash -> newTrieReader (id_StateRoot id) (id_Owner id) db = inr new -> exists tr, New id db = Ret (inr tr) /\ represents true tr ∅.
Proof.
  intros Hroot Hrd. unfold New. rewrite Hrd, Hroot, Z.eqb_refl, andb_false_r. eexists. split; [reflexivity|]. split; [done|apply map_Forall_empty| |done]. exists true. constructor.
Qed.

(** [C12] A committed trie can be opened again: on a trie that stands for a map, whose
    nodes can all be loaded and none of which hashes to zero or, at the root, to the hash of
    the empty trie, [Commit] returns the root hash of the map and ends the trie;
    and in any store that takes over the returned node set, [New] with that root hash
    succeeds and the new trie stands for the same map.  So the set has every node that the
    store lacked, deletes none that is in use, and drops no stored node by mistake. *)
Theorem trie_commit_reopen collectLeaf tr m : represents true tr m -> proper_hashes m ->
  exists set tr1, Commit collectLeaf tr = Ret ((map_root m, set), tr1) /\ t_committed tr1 = true /\
    forall id db new, id_Root id = map_root m -> newTrieReader (id_StateRoot id) (id_Owner id) db = inr new -> takes_over (t_reader tr) set new ->
      exists tr2, New id db = Ret (inr tr2) /\ represents true tr2 m.
Proof.
  intros Hrep Hp. unfold proper_hashes, map_root in *. destruct (tree_of m) as [t|] eqn:Ht.
  - destruct Hp as [He Hz]. destruct (commit_stored collectLeaf tr m t Hrep Ht Hz) as (set & tr1 & Hc & Hcm & Hst). exists set, tr1. unfold map_root in Hc. rewrite Ht in Hc. split_and!; [done|done|].
    intros id db new Hroot Hrd Hto. apply (open_stored id db new m t); try done; [by eapply rep_map| | |by apply Hst]; rewrite Hroot; [by eapply Hz; constructor|done].
  - apply tree_of_None in Ht as Hm; [|by eapply rep_map]. assert (Hnil : is_nil (t_root tr) = true).
    { destruct (rep_tree _ _ _ Hrep) as [full He]. rewrite Ht in He. by apply expands_nil in He as ->. }
    unfold Commit. mrun. rewrite Hnil. mrun. subst m. destruct (deletedNodes (t_tracer tr)); (eexists _, _; split; [reflexivity|]; split; [done|]); intros id db new Hroot Hrd _; by eapply open_empty.
Qed.

End Reopen.

(** ** A concrete commit *)

#[local] Existing Instance root_crypto.
#[local] Existing Instance root_crypto_ok.

Lemma toy_map_proper : proper_hashes toy_map.
Proof.
  unfold proper_hashes. rewrite toy_map_tree. split; [vm_compute; congruence|]. intros r u Hu. inversion Hu as [|k t r' u' Hu'|]; subst; [vm_compute; congruence|]. inversion Hu'; subst. vm_compute. congruence.
Qed.

(** A store with the committed node. *)
Definition toy_root : Z := map_root toy_map.
Definition toy_reader : Reader := fun _ path hash => if bool_decide (path = []) && (hash =? toy_root) then inr (tbytes toy_tree) else inl "missing"%string.
Definition toy_db : trie_database := fun _ => inr toy_reader.

Lemma toy_takes_over set tr1 : Commit false toy_built = Ret ((toy_root, set), tr1) -> takes_over (t_reader toy_built) set (mkReader 0 (Some toy_reader) None).
Proof.
  intros Hc. assert (Hset : exists o u d, set = Some (mkNodeSet o [] {[ [] := mkNode toy_root (tbytes toy_tree) ]} u d)).
  { assert (Hs : (match Commit false toy_built with Ret ((_, s), _) => s | _ => None end) = set) by (by rewrite Hc). rewrite <- Hs. eexists _, _, _. vm_compute. reflexivity. }
  destruct Hset as (o & u & d & ->). intros path hash. cbn [ns_Nodes]. destruct (decide (path = [])) as [-> |Hne].
  - rewrite lookup_singleton_eq. intros _ ->. reflexivity.
  - rewrite lookup_singleton_ne by done. intros blob. by intros [=].
Qed.

Lemma trie_commit_reopen_witness : exists tr2, New (TrieID toy_root) toy_db = Ret (inr tr2) /\ represents true tr2 toy_map.
Proof.
  destruct (trie_commit_reopen false toy_built toy_map toy_built_represents toy_map_proper) as (set & tr1 & Hc & _ & Hopen).
  apply (Hopen (TrieID toy_root) toy_db (mkReader 0 (Some toy_reader) None)); [reflexivity|vm_compute; reflexivity|]. by eapply toy_takes_over.
Defined.
