(* ===== verification/TrieProof.v ===== *)
(** * Merkle proofs (trie/proof.go: [Prove], [VerifyProof], [get])

    A proof is the stored form of the nodes on the way to a key, under their hashes. *)

From stdpp Require Import gmap strings.
From S2P Require Import Prelude VMCommon Rlp RlpCodec StateTypes Demo TrieEncoding TrieTree TrieNode TrieHasher TrieCodec Trie TrieSim TrieUpdate TrieMap TrieTheorems.
Import Rlp.

(** ** [get] *)

Section Pick.
Context (get : node -> list Z -> bool -> outcome (list Z * node)) (key : list Z) (skipResolved : bool).

(** [tn = n.Children[i]; key = key[1:]] and the next round of the loop. *)
Fixpoint pick_child (cs : list node) (i : nat) {struct cs} : outcome (list Z * node) :=
  match cs, i with
  | [], _ => Panic
  | c :: _, O => if skipResolved then get c key skipResolved else Ret (key, c)
  | _ :: cs, S i => pick_child cs i
  end.

End Pick.

(** The child of a node that a key leads to, and the rest of the key. *)
Fixpoint proof_get (tn : node) (key : list Z) (skipResolved : bool) {struct tn} : outcome (list Z * node) :=
  match tn with
  | shortNode nKey nVal _ =>
      if (Zlen key <? Zlen nKey) || negb (bool_decide (nKey = take (length nKey) key)) then Ret ([], nilNode)
      else
        let key := drop (length nKey) key in
        if skipResolved then proof_get nVal key skipResolved else Ret (key, nVal)
  | fullNode cs _ =>
      match key with
      | [] => Panic
      | x :: key => if x <? 0 then Panic else pick_child proof_get key skipResolved cs (Z.to_nat x)
      end
  | hashNode _ => Ret (key, tn)
  | nilNode => Ret (key, nilNode)
  | valueNode _ => Ret ([], tn)
  | rawNode _ => Panic
  end.

(** ** [VerifyProof] *)

Inductive proof_error : Type :=
| errProofMissing (i hash : Z)
| errProofBad (i : Z) (err : node_error).

(** [proofDb.Get]; [None] is nil. *)
Definition proof_reader : Type := list Z -> option (list Z).

Section Verify.
Context (proofDb : proof_reader).

(** The loop, from the [i]-th node on. *)
Fixpoint verify_loop (fuel : nat) (i : Z) (wantHash : list Z) (key : list Z) : outcome (proof_error + option (list Z)) :=
  match fuel with
  | O => OutOfFuel
  | S fuel =>
      match proofDb wantHash with
      | None => Ret (inl (errProofMissing i (BytesToHash wantHash)))
      | Some buf =>
          let! r := decodeNode (Some wantHash) buf in
          match r with
          | inl err => Ret (inl (errProofBad i err))
          | inr n =>
              let! (keyrest, cld) := proof_get n key true in
              match cld with
              | nilNode => Ret (inr None)
              | hashNode h => verify_loop fuel (i + 1) h keyrest
              | valueNode v => Ret (inr (Some v))
              | _ => verify_loop fuel (i + 1) wantHash key
              end
          end
      end
  end.

(** Every round but the last consumes a part of the key. *)
Definition VerifyProof (rootHash : Z) (key : list Z) : outcome (proof_error + option (list Z)) :=
  let key := keybytesToHex key in
  verify_loop (S (length key)) 0 (HashBytes rootHash) key.

End Verify.

(** ** [Prove] *)

Section Prove.
Context {C : Crypto} (reader : trieReader).

(** The loop that collects the nodes on the path to the key. *)
Fixpoint prove_path (fuel : nat) (tn : node) (prefix key : list Z) : outcome (trie_error + list node) :=
  match fuel with
  | O => OutOfFuel
  | S fuel =>
      if (0 <? Zlen key) && negb (is_nil tn) then
        match tn with
        | shortNode nKey nVal _ =>
            let! r :=
              (if (Zlen key <? Zlen nKey) || negb (bool_decide (nKey = take (length nKey) key)) then prove_path fuel nilNode prefix key
               else prove_path fuel nVal (prefix ++ nKey) (drop (length nKey) key)) in
            Ret (match r with inl err => inl err | inr nodes => inr (tn :: nodes) end)
        | fullNode cs _ =>
            let! x := go_index key 0 in
            let! c := go_index cs x in
            let! r := prove_path fuel c (prefix ++ [x]) (drop 1 key) in
            Ret (match r with inl err => inl err | inr nodes => inr (tn :: nodes) end)
        | hashNode h =>
            match reader_node reader prefix (BytesToHash h) with
            | inl err => Ret (inl err)
            | inr blob => let! n := mustDecodeNode (Some h) blob in prove_path fuel n prefix key
            end
        | _ => Panic
        end
      else Ret (inr [])
  end.

(** The loop that puts the nodes in the proof. *)
Fixpoint prove_put (first : bool) (nodes : list node) (proofDb : gmap (list Z) (list Z)) : outcome (gmap (list Z) (list Z)) :=
  match nodes with
  | [] => Ret proofDb
  | n :: nodes =>
      let! (n, hn) := proofHash n in
      let! proofDb :=
        (match hn with
         | hashNode hash => let! enc := nodeToBytes n in Ret (<[hash := enc]> proofDb)
         | _ => if first then let! enc := nodeToBytes n in Ret (<[hashData enc := enc]> proofDb) else Ret proofDb
         end) in
      prove_put false nodes proofDb
  end.

End Prove.

Definition Prove {C : Crypto} (key : list Z) (proofDb : gmap (list Z) (list Z)) (t : Trie) : outcome (trie_error + gmap (list Z) (list Z)) :=
  if t_committed t then Ret (inl ErrCommitted)
  else
    let key := keybytesToHex key in
    let! r := prove_path (t_reader t) (walk_fuel key) (t_root t) [] key in
    match r with
    | inl err => Ret (inl err)
    | inr nodes => let! proofDb := prove_put true nodes proofDb in Ret (inr proofDb)
    end.

(** * Merkle proofs are sound and complete *)

(** ** The nodes on the way to a key *)

Fixpoint path_trees (t : tree) (key : list Z) : list tree :=
  match t with
  | TValue _ => []
  | TShort k t' => t :: (if bool_decide (take (length k) key = k) then path_trees t' (drop (length k) key) else [])
  | TFull cs =>
      t ::
        match key with
        | [] => []
        | x :: key =>
            (fix pick (cs : list (option tree)) (n : nat) : list tree :=
               match cs, n with
               | c :: _, O => match c with Some t => path_trees t key | None => [] end
               | _ :: cs, S n => pick cs n
               | [], _ => []
               end) cs (Z.to_nat x)
        end
  end.

Definition opath (c : option tree) (key : list Z) : list tree := match c with Some t => path_trees t key | None => [] end.

Lemma path_full cs x r : path_trees (TFull cs) (x :: r) = TFull cs :: match cs !! Z.to_nat x with Some c => opath c r | None => [] end.
Proof. cbn [path_trees]. f_equal. generalize (Z.to_nat x). induction cs as [|c cs IH]; by intros [|n]. Qed.

Lemma path_short k t r : path_trees (TShort k t) (k ++ r) = TShort k t :: path_trees t r.
Proof. cbn [path_trees]. by rewrite take_app_length, drop_app_length, bool_decide_eq_true_2. Qed.

Lemma path_short_no k t key : take (length k) key <> k -> path_trees (TShort k t) key = [TShort k t].
Proof. intros Hn. cbn [path_trees]. by rewrite bool_decide_eq_false_2. Qed.

Lemma path_here t key : is_value t = false -> t ∈ path_trees t key.
Proof. destruct t; [done|..]; intros _; apply list_elem_of_here. Qed.

Lemma path_sub : forall t key u, u ∈ path_trees t key -> is_value u = false /\ exists r, sub t r u.
Proof.
  fix IH 1. intros [v|k t|cs] key u Hu.
  - by apply not_elem_of_nil in Hu.
  - cbn [path_trees] in Hu. apply elem_of_cons in Hu as [-> |Hu]; [split; [done|exists []; constructor]|]. destruct (bool_decide _); [|by apply not_elem_of_nil in Hu].
    destruct (IH t _ _ Hu) as [Hv [r Hr]]. split; [done|]. exists (k ++ r). by constructor.
  - destruct key as [|x key]; [apply list_elem_of_singleton in Hu as ->; split; [done|exists []; constructor]|]. rewrite path_full in Hu.
    apply elem_of_cons in Hu as [-> |Hu]; [split; [done|exists []; constructor]|]. 
    destruct (cs !! Z.to_nat x) as [[t|]|] eqn:Hc; [|by apply not_elem_of_nil in Hu..]. cbn [opath] in Hu.
    assert (Ht : is_value u = false /\ exists r, sub t r u).
    { clear -Hu Hc IH. generalize dependent (Z.to_nat x). induction cs as [|c cs IHcs]; intros [|n] Hc; try done; [|by apply (IHcs n)]. destruct c as [t'|]; [|done]. injection Hc as <-. by apply (IH t' key). }
    destruct Ht as [Hv [r Hr]]. split; [done|]. exists (Z.of_nat (Z.to_nat x) :: r). by econstructor.
Qed.

(** ** [get] on a decoded node *)

Section Proofs.
Context {C : Crypto}.

Lemma pick_child_lookup get key skip cs i : pick_child get key skip cs i = match cs !! i with Some c => if skip : bool then get c key skip else Ret (key, c) | None => Panic end.
Proof. revert i. induction cs as [|c cs IH]; intros [|i]; try done. apply IH. Qed.

(** Where a decoded node leads: to the end of the key, or to the hash of a node further on. *)
Definition leads (t : tree) (key : list Z) (r : list Z) (n : node) : Prop :=
  match n with
  | nilNode => tget t key = None
  | valueNode v => tget t key = Some v
  | hashNode h => exists u, h = thash u /\ twf u /\ is_value u = false /\ tbound u /\ 32 <= Zlen (tbytes u) /\ valid_key r /\ tget u r = tget t key /\ path_trees u r ⊆ path_trees t key
  | _ => False
  end.

(** [get] through the stored form of a tree. *)
Definition get_leads (t : tree) : Prop := forall key h, fits t key -> is_value t = false ->
  exists r n, proof_get (cnode h t) key true = Ret (r, n) /\ leads t key r n /\ (is_hash n = 1%nat -> (length r < length key)%nat).

Lemma cref_leads t key : twf t -> tbound t -> fits t key -> (is_value t = false -> get_leads t) ->
  exists r n, proof_get (cref t) key true = Ret (r, n) /\ leads t key r n /\ (is_hash n = 1%nat -> (length r <= length key)%nat).
Proof.
  intros Hw Hb Hf Hg. unfold cref. destruct (is_value t) eqn:Hv.
  - destruct t as [v| |]; try done. cbn in Hf. subst key. by exists [], (valueNode v).
  - destruct (Z.ltb_spec (Zlen (tbytes t)) 32).
    + destruct (Hg eq_refl key None Hf Hv) as (r & n & H1 & H2 & H3). exists r, n. split_and!; [done|done|]. intros Hh. specialize (H3 Hh). lia.
    + unfold fits in Hf. rewrite Hv in Hf. exists key, (hashNode (thash t)). split_and!; [done| |done]. exists t. split_and!; done.
Qed.

Lemma leads_step t key t' r' r n : tget t key = tget t' r' -> path_trees t' r' ⊆ path_trees t key -> leads t' r' r n -> leads t key r n.
Proof.
  intros Hg Hp. unfold leads. destruct n; try done; [by rewrite Hg| |by rewrite Hg]. intros (u & H1 & H2 & H3 & H4 & H5 & H6 & H7 & H8). exists u. split_and!; try done; [by rewrite Hg|]. by etransitivity.
Qed.

Lemma subseteq_cons (x : tree) (l : list tree) : l ⊆ x :: l.
Proof. intros y Hy. by apply list_elem_of_further. Qed.

Lemma get_short h k t key : twf (TShort k t) -> tbound (TShort k t) -> valid_key key -> (is_value t = false -> get_leads t) ->
  exists r n, proof_get (cnode h (TShort k t)) key true = Ret (r, n) /\ leads (TShort k t) key r n /\ (is_hash n = 1%nat -> (length r < length key)%nat).
Proof.
  intros Hw Hb Hk Hg. rewrite cnode_short. cbn [proof_get]. destruct (wf_short_key k t Hw) as [Hne _]. destruct (decide (take (length k) key = k)) as [He|He].
  - destruct (tbound_short k t Hw Hb) as [_ Hbt]. assert (Hkey : exists r, key = k ++ r) by (exists (drop (length k) key); rewrite <- He at 1; by rewrite take_drop). destruct Hkey as [r ->]. clear He.
    rewrite (proj2 (Z.ltb_ge _ _)) by (rewrite Zlen_app; pose proof (Zlen_nonneg r); lia). rewrite take_app_length, drop_app_length, bool_decide_eq_true_2 by done. cbn [negb orb].
    destruct (cref_leads t r) as (r' & n & H1 & H2 & H3); [by eapply short_wf|done|by eapply fits_deeper|done|]. exists r', n. split_and!; [done| |].
    + apply (leads_step _ _ t r); [apply tget_short_app|rewrite path_short; apply subseteq_cons|done].
    + intros Hh. specialize (H3 Hh). rewrite length_app. destruct k; [done|]. cbn. lia.
  - rewrite (bool_decide_eq_false_2 (k = take (length k) key)) by congruence. rewrite orb_true_r. exists [], nilNode. split_and!; [done| |done]. cbn [leads tget]. by rewrite bool_decide_eq_false_2.
Qed.

Lemma get_cnode t : twf t -> tbound t -> get_leads t.
Proof.
  induction 1 as [v0 Hv Hb|k v0 Hk Hv Hb|k cs Hk Hn Hwf IH|cs Hlen Hn Hwf IH Hval]; intros Hbt key h Hf Hnv; [done|..].
  - apply get_short; [by constructor|done|done|done].
  - assert (Hw : twf (TShort k (TFull cs))) by (by constructor). apply get_short; [done|done|done|]. intros _. apply IH. by eapply tbound_short.
  - assert (Hw : twf (TFull cs)) by (by constructor). destruct key as [|x r]; [by apply valid_key_nil in Hf|]. change (valid_key (x :: r)) in Hf. destruct (valid_key_index _ _ Hf) as [Hx Hxx].
    rewrite cnode_full. cbn [proof_get]. rewrite (proj2 (Z.ltb_ge _ _)) by lia. rewrite pick_child_lookup, list_lookup_fmap. destruct (lookup_lt_is_Some_2 cs (Z.to_nat x)) as [c Hc]; [lia|]. rewrite Hc. cbn [fmap option_fmap option_map].
    destruct c as [t|]; cbn [ocref].
    + destruct (child_facts cs x r (Some t)) as (W1 & W2 & W3); try done. destruct (cref_leads t r W1 W2 W3) as (r' & n & H1 & H2 & H3); [intros _; by apply (IH _ _ Hc)|]. exists r', n. split_and!; [done| |].
      * apply (leads_step _ _ t r); [by rewrite tget_full, Hc|rewrite path_full, Hc; apply subseteq_cons|done].
      * intros Hh. specialize (H3 Hh). cbn. lia.
    + exists r, nilNode. split_and!; [done| |done]. cbn [leads]. by rewrite tget_full, Hc.
Qed.

(** ** [VerifyProof] *)

(** What the proof has for the nodes on the path. *)
Definition forged (db : proof_reader) (u : tree) : Prop := exists b, db (thash u) = Some b /\ b <> tbytes u.
Definition lacks (db : proof_reader) (u : tree) : Prop := db (thash u) = None.

Lemma verify_sim db fuel : forall i t key, twf t -> is_value t = false -> tbound t -> valid_key key -> (length key < fuel)%nat ->
  (exists u, u ∈ path_trees t key /\ forged db u) \/
  verify_loop db fuel i (thash t) key = Ret (inr (tget t key)) \/
  (exists u j h, u ∈ path_trees t key /\ (u = t \/ 32 <= Zlen (tbytes u)) /\ lacks db u /\ verify_loop db fuel i (thash t) key = Ret (inl (errProofMissing j h))).
Proof.
  induction fuel as [|fuel IH]; intros i t key Hw Hv Hb Hk Hf; [lia|]. cbn [verify_loop]. pose proof (path_here t key Hv) as Hin. destruct (db (thash t)) as [b|] eqn:Hdb.
  - destruct (decide (b = tbytes t)) as [-> |Hne]; [|left; exists t; split; [done|by exists b]]. rewrite decodeNode_tbytes by done. cbn [obind].
    destruct (get_cnode t Hw Hb key (Some (thash t))) as (r & n & Hg & Hl & Hlen); [unfold fits; by rewrite Hv|done|]. rewrite Hg. cbn [obind]. destruct n as [| | |h|v|]; try done.
    + right; left. cbn in Hl. by rewrite Hl.
    + destruct Hl as (u & -> & Wu & Vu & Bu & Su & Kr & Gu & Pu). specialize (Hlen eq_refl). destruct (IH (i + 1) u r Wu Vu Bu Kr) as [(w & Hw' & Hfg)|[Hok|(w & j & hh & H1 & H2 & H3 & H4)]]; [lia|..].
      * left. exists w. split; [by apply Pu|done].
      * right; left. by rewrite Hok, Gu.
      * right; right. exists w, j, hh. split_and!; [by apply Pu| |done|done]. destruct H2 as [-> |]; by right.
    + right; left. cbn in Hl. by rewrite Hl.
  - right; right. exists t, i, (BytesToHash (thash t)). split_and!; [done|by left|done|done].
Qed.

(** ** [Prove] *)

Section Prover.
Context (reader : trieReader) (complete : bool).

(** A node of the path that was loaded. *)
Definition loaded (n : node) (u : tree) : Prop :=
  is_hash n = 0%nat /\ twf u /\ is_value u = false /\ tbound u /\ exists full top p, expands reader complete full top p n (Some u).

Lemma prove_path_end fuel tn p key : key = [] \/ tn = nilNode -> prove_path reader (S fuel) tn p key = Ret (inr []).
Proof. intros [-> | ->]; [done|]. cbn [prove_path is_nil negb]. by rewrite andb_false_r. Qed.

Lemma prove_path_sim fuel : forall full top p n o key, expands reader complete full top p n o -> owf o -> obound o -> ofits o key -> (2 * length key + is_hash n < fuel)%nat ->
  exists r, prove_path reader fuel n p key = Ret r /\ match r with inl e => complete = false /\ missing e | inr nodes => Forall2 loaded nodes (opath o key) end.
Proof.
  induction fuel as [|fuel IH]; intros full top p n o key He Hw Hb Hf Hfuel; [lia|].
  assert (Hgo : forall t, o = Some t -> is_value t = false -> valid_key key /\ (0 <? Zlen key) && negb (is_nil n) = true).
  { intros t -> Hv. unfold ofits, fits in Hf. rewrite Hv in Hf. split; [done|]. destruct key as [|x r]; [by apply valid_key_nil in Hf|]. rewrite (proj2 (Z.ltb_lt _ _)) by (rewrite Zlen_cons; pose proof (Zlen_nonneg r); lia).
    destruct n; try done. by apply expands_Some in He. }
  inversion He as [|? ? ? w|? ? ? t Hv Hh Hs|? ? ? k n' t fl Hc Hfl|? ? ? ns cs fl Hl Hc Hfl]; subst.
  - rewrite prove_path_end by (by right). eexists. split; [reflexivity|constructor].
  - cbn in Hf. subst key. rewrite prove_path_end by (by left). eexists. split; [reflexivity|constructor].
  - destruct (Hgo t eq_refl Hv) as [Hk Hcond]. cbn [prove_path]. rewrite Hcond. assert (Ha : answers reader complete p t).
    { pose proof (Hs [] t (sub_here t) Hv) as Ha. rewrite app_nil_r in Ha. by apply Ha. }
    unfold answers in Ha. destruct (reader_node reader p (BytesToHash (thash t))) as [e|blob] eqn:Hr; [eexists; split; [reflexivity|]; split; [done|by eapply reader_node_missing]|].
    subst blob. unfold mustDecodeNode. rewrite decodeNode_tbytes by done. cbn [obind]. apply (IH full top p _ (Some t)); try done; [by apply expands_cnode|]. rewrite is_hash_cnode. cbn in Hfuel. lia.
  - destruct (Hgo _ eq_refl eq_refl) as [Hk Hcond]. assert (Hld : loaded (shortNode k n' fl) (TShort k t)) by (split_and!; try done; by exists full, top, p). destruct (wf_short_key k t Hw) as [Hne _].
    cbn [prove_path]. rewrite Hcond. destruct (decide (take (length k) key = k)) as [Heq|Heq].
    + assert (Hkey : exists r, key = k ++ r) by (exists (drop (length k) key); rewrite <- Heq at 1; by rewrite take_drop). destruct Hkey as [r ->]. clear Heq. rewrite (proj2 (Z.ltb_ge _ _)) by (rewrite Zlen_app; pose proof (Zlen_nonneg r); lia).
      rewrite take_app_length, drop_app_length, bool_decide_eq_true_2 by done. cbn [negb orb]. destruct (tbound_short k t Hw Hb) as [_ Hbt]. rewrite length_app in Hfuel.
      destruct (IH (full || has_hash fl) false (p ++ k) n' (Some t) r Hc) as (res & -> & Hres); [by eapply short_wf|done|by eapply fits_deeper|destruct k; [done|]; cbn in *; destruct n'; cbn; lia|].
      eexists. split; [reflexivity|]. cbn [opath] in *. rewrite path_short. destruct res as [e|nodes]; [done|by constructor].
    + rewrite (bool_decide_eq_false_2 (k = take (length k) key)) by congruence. rewrite orb_true_r. destruct fuel; [destruct key; [by apply valid_key_nil in Hk|cbn in Hfuel; lia]|]. rewrite prove_path_end by (by right).
      eexists. split; [reflexivity|]. cbn [opath]. rewrite path_short_no by done. constructor; [done|constructor].
  - destruct (Hgo _ eq_refl eq_refl) as [Hk Hcond]. assert (Hld : loaded (fullNode ns fl) (TFull cs)) by (split_and!; try done; by exists full, top, p).
    destruct key as [|x r]; [by apply valid_key_nil in Hk|]. inversion Hw as [| | |? Hlen Hn Hwf Hval]; subst. cbn [prove_path]. rewrite Hcond.
    destruct (kids_lookup reader complete (full || has_hash fl) p ns cs x r Hlen) as (n & c & Hi & Hn' & Hci & Hex & _); [by split|done|]. destruct (child_facts cs x r c) as (W1 & W2 & W3); try done.
    rewrite go_index_0. cbn [obind]. rewrite Hi. cbn [obind drop]. rewrite ?drop_0. destruct (IH (full || has_hash fl) false (p ++ [x]) n c r Hex W1 W2 W3) as (res & -> & Hres); [cbn [length] in Hfuel; destruct n; cbn in *; lia|].
    eexists. split; [reflexivity|]. cbn [opath]. rewrite path_full, Hci. destruct res as [e|nodes]; [done|by constructor].
Qed.

Lemma prove_put_sim nodes us : Forall2 loaded nodes us -> forall first db,
  exists db', prove_put first nodes db = Ret db' /\
    (forall h b, db' !! h = Some b -> db !! h = Some b \/ exists u, u ∈ us /\ h = thash u /\ b = tbytes u) /\
    (forall i u, us !! i = Some u -> (first = true /\ i = 0%nat) \/ 32 <= Zlen (tbytes u) -> is_Some (db' !! thash u)) /\
    (forall h, is_Some (db !! h) -> is_Some (db' !! h)).
Proof.
  induction 1 as [|n u nodes us Hn _ IH]; intros first db; [eexists; split; [reflexivity|]; split_and!; [by left|done|done]|].
  destruct Hn as (Hh & Hw & Hv & Hb & full & top & p & He). destruct (proofHash_sim reader complete full top p n u He Hw Hv Hb Hh) as (c & hn & Hp & Hbytes & Hnm). cbn [prove_put]. rewrite Hp. cbn [obind].
  set (put := first || bool_decide (32 <= Zlen (tbytes u))). assert (Hput : (match hn with hashNode hash => let! enc := nodeToBytes c in Ret (<[hash := enc]> db)
     | _ => if first then let! enc := nodeToBytes c in Ret (<[hashData enc := enc]> db) else Ret db end) = Ret (if put then <[thash u := tbytes u]> db else db)).
  { unfold names, hashed in Hnm. subst put. destruct (decide _) as [[|Hd]|Hd]; [done| |].
    - subst hn. rewrite Hbytes. cbn [obind]. by rewrite bool_decide_eq_true_2, orb_true_r by done.
    - destruct Hnm as (_ & _ & Hhn). rewrite bool_decide_eq_false_2 by (intros ?; apply Hd; by right). rewrite orb_false_r, Hbytes. destruct hn; try done; by destruct first. }
  rewrite Hput. cbn [obind]. destruct (IH false (if put then <[thash u := tbytes u]> db else db)) as (db' & -> & H1 & H2 & H3). exists db'. split; [reflexivity|]. split_and!.
  - intros h b Hhb. destruct (H1 h b Hhb) as [Hd|(w & Hw' & -> & ->)]; [|right; exists w; split; [by apply list_elem_of_further|done]].
    destruct put; [|by left]. destruct (decide (h = thash u)) as [-> |Hne]; [rewrite lookup_insert_eq in Hd; injection Hd as <-; right; exists u; split; [apply list_elem_of_here|done]|rewrite lookup_insert_ne in Hd by done; by left].
  - intros [|i] w Hi Hc; cbn in Hi; [injection Hi as <-|apply (H2 i w Hi); right; by destruct Hc as [[_ ?]|?]]. apply H3. assert (put = true) as ->; [|by rewrite lookup_insert_eq].
    subst put. destruct Hc as [[-> _]|Hc]; [done|by rewrite bool_decide_eq_true_2, orb_true_r].
  - intros h Hd. apply H3. destruct put; [|done]. destruct (decide (h = thash u)) as [-> |]; [by rewrite lookup_insert_eq|by rewrite lookup_insert_ne].
Qed.

End Prover.

(** ** Soundness and completeness *)

Context {CS : CryptoSpec C}.

(** A byte string in the proof that differs from a node of the trie and has its hash. *)
Definition forgery (db : proof_reader) (m : bmap) : Prop :=
  exists a b h, node_bytes (tree_of m) a /\ db h = Some b /\ a <> b /\ Keccak256Hash a = Keccak256Hash b.

(** What a caller of [VerifyProof] checks: nodes are stored under their hashes. *)
Definition hash_keyed (db : proof_reader) : Prop := forall h b, db h = Some b -> h = hashData b.

Lemma path_node_bytes m t key u : tree_of m = Some t -> u ∈ path_trees t key -> node_bytes (tree_of m) (tbytes u).
Proof. intros Ht Hu. rewrite Ht. destruct (path_sub t key u Hu) as [_ [r Hr]]. by exists r, u. Qed.

(** [C14] Proofs are sound: against the root hash of a map, [VerifyProof] of any set of nodes
    that are stored under their hashes returns an error, or the value that the map has
    for the key (nil if it has none), unless one of the nodes has the hash of a different
    node of the trie. *)
Theorem proof_sound db m key : map_ok m -> empty_root_known -> Forall is_byte key -> hash_keyed db ->
  forgery db m \/ exists r, VerifyProof db (map_root m) key = Ret r /\ match r with inl _ => True | inr v => v = m !! key end.
Proof.
  intros Hm Hemp Hk Hdb. destruct (tree_of_owf m Hm) as (Hw & Hb & _). destruct (tree_of_spec m Hm) as [Hwf Hd]. unfold VerifyProof, map_root. destruct (tree_of m) as [t|] eqn:Ht.
  - destruct Hwf as [_ Hv]. pose proof (denotes_get _ _ _ Hk Hd) as Hget. cbn [oget] in Hget. change (HashBytes (Keccak256Hash (tbytes t))) with (thash t).
    destruct (verify_sim db (S (length (keybytesToHex key))) 0 t (keybytesToHex key) Hw Hv Hb (valid_keybytes key Hk)) as [(u & Hu & b & Hbu & Hne)|[Hok|(u & j & h & _ & _ & _ & Hmiss)]]; [lia|..].
    + left. exists (tbytes u), b, (thash u). split_and!; [by eapply path_node_bytes|done|congruence|]. apply hash_inj. by apply Hdb in Hbu.
    + right. eexists. split; [exact Hok|]. done.
    + right. eexists. split; [exact Hmiss|]. done.
  - cbn [verify_loop]. destruct (db (HashBytes EmptyRootHash)) as [b|] eqn:Hbu; [|right; eexists; split; [reflexivity|done]]. destruct (decide (b = [0x80])) as [-> |Hne].
    + right. eexists. split; [reflexivity|done].
    + left. exists [0x80], b, (HashBytes EmptyRootHash). split_and!; [by rewrite Ht|done|congruence|]. apply hash_inj. apply Hdb in Hbu. rewrite <- Hbu. unfold hashData. by rewrite <- Hemp.
Qed.

(** A store of nodes proves that a key has a value, or has none, under a root. *)
Definition proves (proof : gmap (list Z) (list Z)) (root : Z) (key : list Z) (v : option (list Z)) : Prop :=
  VerifyProof (fun h => proof !! h) root key = Ret (inr v).

(** [C25] Proofs are complete: for a trie that is not empty and whose nodes can all be
    loaded, [Prove] succeeds for every key, present or absent, and [VerifyProof] of its
    result against the root hash returns what the map has for the key, unless two nodes of
    the trie have the same hash. *)
Theorem proof_complete tr m key : represents true tr m -> m <> ∅ -> Forall is_byte key ->
  root_collision m m \/ exists proof, Prove key ∅ tr = Ret (inr proof) /\ proves proof (map_root m) key (m !! key).
Proof.
  unfold proves. intros Hrep Hne Hk. pose proof Hrep as [Ho Hm [full He] _]. destruct (tree_of_owf m Hm) as (Hw & Hb & Hf). destruct (tree_of_spec m Hm) as [Hwf Hd]. unfold map_root. destruct (tree_of m) as [t|] eqn:Ht.
  2:{ destruct Hne. by eapply denotes_inj; [done|apply map_Forall_empty|exact Hd|apply denotes_empty]. }
  destruct Hwf as [_ Hv]. pose proof (denotes_get _ _ _ Hk Hd) as Hget. cbn [oget] in Hget. change (HashBytes (Keccak256Hash (tbytes t))) with (thash t).
  destruct (prove_path_sim (t_reader tr) true (walk_fuel (keybytesToHex key)) full true [] (t_root tr) (Some t) (keybytesToHex key) He Hw Hb (Hf key Hk) (walk_fuel_enough _ _)) as (r & Hr & Hres).
  destruct r as [e|nodes]; [by destruct Hres|]. cbn [opath] in Hres. destruct (prove_put_sim _ _ _ _ Hres true ∅) as (proof & Hput & H1 & H2 & _).
  assert (Hprove : Prove key ∅ tr = Ret (inr proof)) by (unfold Prove; rewrite Ho, Hr; cbn [obind]; by rewrite Hput).
  destruct (verify_sim (fun h => proof !! h) (S (length (keybytesToHex key))) 0 t (keybytesToHex key) Hw Hv Hb (valid_keybytes key Hk)) as [(u & Hu & b & Hbu & Hnb)|[Hok|(u & j & h & Hu & Hbig & Hlack & _)]]; [lia|..].
  - left. destruct (H1 _ _ Hbu) as [Hx|(w & Hwp & Hhw & ->)]; [by rewrite lookup_empty in Hx|]. exists (tbytes u), (tbytes w). split_and!; [by eapply path_node_bytes|by eapply path_node_bytes|congruence|by apply hash_inj].
  - right. exists proof. split; [done|]. unfold VerifyProof. change (HashBytes (Keccak256Hash (tbytes t))) with (thash t). by rewrite Hok, Hget.
  - exfalso. unfold lacks in Hlack. assert (Hin : is_Some (proof !! thash u)); [|by rewrite Hlack in Hin; destruct Hin]. destruct Hbig as [-> |Hbig].
    + apply (H2 0%nat t); [by destruct t|by left].
    + apply list_elem_of_lookup in Hu as [i Hi]. apply (H2 i u Hi). by right.
Qed.

End Proofs.

(** ** A concrete proof *)

#[local] Existing Instance root_crypto.
#[local] Existing Instance root_crypto_ok.

(** The only node of the trie, under its hash. *)
Definition toy_proof : proof_reader := fun h => if bool_decide (h = thash toy_tree) then Some (tbytes toy_tree) else None.

Lemma proof_sound_witness :
  forgery toy_proof toy_map \/ exists r, VerifyProof toy_proof (map_root toy_map) [1; 2] = Ret r /\ match r with inl _ => True | inr v => v = Some (replicate 40 7) end.
Proof.
  apply (proof_sound toy_proof toy_map [1; 2]); [exact toy_map_ok|exact root_crypto_empty|repeat constructor; unfold is_byte; lia|].
  intros h b. unfold toy_proof. case_bool_decide as Hh; [|done]. intros [= <-]. exact Hh.
Defined.

Lemma proof_complete_witness :
  root_collision toy_map toy_map \/ exists proof, Prove [1; 2] ∅ toy_built = Ret (inr proof) /\ proves proof (map_root toy_map) [1; 2] (Some (replicate 40 7)).
Proof. apply (proof_complete toy_built toy_map [1; 2]); [exact toy_built_represents|done|repeat constructor; unfold is_byte; lia]. Defined.

(** * Untrusted nodes and proofs

    Nodes come from peers as well as from the database.  The decoder accepts or rejects
    every byte string without panicking, what it accepts has the shape of a node, and so
    does the verification of a proof with any nodes whatsoever. *)

(** ** Parts *)

Lemma compactToHex_key c : Forall is_byte c -> exists k, compactToHex c = Ret k /\ is_key k.
Proof.
  intros Hc. destruct c as [|b c]; [exists []; split; [done|by exists false, []]|]. apply Forall_cons_1 in Hc as [Hb Hc]. unfold is_byte in Hb. unfold compactToHex.
  rewrite (proj2 (Z.eqb_neq _ _)) by (rewrite Zlen_cons; pose proof (Zlen_nonneg c); lia). rewrite keybytesToHex_nibbles. change (nibbles (b :: c)) with (b / 16 :: b mod 16 :: nibbles c).
  pose proof (nibbles_ok c Hc) as Hn. assert (Hm : is_nibble (b mod 16)) by (unfold is_nibble; apply Z.mod_pos_bound; lia). cbn [app]. rewrite go_index_0. cbn [obind].
  assert (Hch : Z.land (b / 16) 1 = 0 \/ Z.land (b / 16) 1 = 1) by (pose proof (Z.land_ones (b / 16) 1 ltac:(lia)) as Ho; change (Z.ones 1) with 1 in Ho; change (2 ^ 1) with 2 in Ho; pose proof (Z.mod_pos_bound (b / 16) 2); lia).
  assert (Hcut : forall tl, exists pre l, b / 16 :: b mod 16 :: nibbles c ++ tl = pre ++ l ++ tl /\ Zlen pre = 2 - Z.land (b / 16) 1 /\ Forall is_nibble l).
  { intros tl. destruct Hch as [-> | ->]; [exists [b / 16; b mod 16], (nibbles c)|exists [b / 16], (b mod 16 :: nibbles c)]; (split_and!; [done|done|try done]). by constructor. }
  destruct (b / 16 <? 2).
  - replace (b / 16 :: b mod 16 :: nibbles c ++ [16]) with ((b / 16 :: b mod 16 :: nibbles c ++ []) ++ [16]) by (by rewrite app_nil_r).
    rewrite go_slice_take by (rewrite Zlen_app; change (Zlen [16]) with 1; lia). cbn [obind]. rewrite go_index_0. cbn [obind]. destruct (Hcut []) as (pre & l & -> & Hp & Hl).
    rewrite go_slice_drop by done. rewrite app_nil_r. exists l. split; [done|by exists false, l].
  - cbn [obind]. rewrite go_index_0. cbn [obind]. destruct (Hcut [16]) as (pre & l & -> & Hp & Hl). rewrite go_slice_drop by done. exists (l ++ [16]). split; [done|by exists true, l].
Qed.

(** What [Split] takes off. *)
Lemma Split_parts b : Forall is_byte b -> Zlen b < 2 ^ 64 ->
  exists r, Split b = Ret r /\
    match r with
    | inl _ => True
    | inr (k, c, rest) => Forall is_byte c /\ Forall is_byte rest /\ (length c + length rest <= length b)%nat /\ (length rest < length b)%nat /\ (k = List -> (length c < length b)%nat)
    end.
Proof.
  intros Hb Hl. destruct (Split_total b Hb Hl) as [[e|[[k c] rest]] Hs]; eexists; (split; [exact Hs|]); [done|]. apply Split_iff in Hs as [-> Hc]; [|done|done].
  apply Forall_app in Hb as [Hb Hr]. assert (Ht : exists hd, tagged k c = hd ++ c /\ (k = List -> (1 <= length hd)%nat)).
  { destruct k; cbn [tagged]; [by exists []|by eexists|]. eexists. split; [done|]. intros _. unfold puthead. destruct (_ <? _); cbn; lia. }
  destruct Ht as (hd & Ht & Hh). rewrite Ht in *. apply Forall_app in Hb as [_ Hcb]. rewrite !length_app. split_and!; [done|done|lia| |intros ->; specialize (Hh eq_refl); lia].
  destruct k; cbn [tagged canonical] in *; [destruct Hc as (x & -> & _); cbn; lia|..]; apply (f_equal length) in Ht; unfold puthead in Ht; destruct (_ <? _); rewrite !length_app in Ht; cbn in Ht; lia.
Qed.

Lemma SplitString_parts b : Forall is_byte b -> Zlen b < 2 ^ 64 ->
  exists r, SplitString b = Ret r /\ match r with inl _ => True | inr (c, rest) => Forall is_byte c /\ Forall is_byte rest /\ (length rest < length b)%nat end.
Proof.
  intros Hb Hl. unfold SplitString. destruct (Split_parts b Hb Hl) as ([e|[[k c] rest]] & -> & Hr); cbn [obind]; [by eexists|]. destruct k; eexists; (split; [reflexivity|]); naive_solver.
Qed.

Lemma SplitList_parts b : Forall is_byte b -> Zlen b < 2 ^ 64 ->
  exists r, SplitList b = Ret r /\ match r with inl _ => True | inr (c, rest) => Forall is_byte c /\ (length c < length b)%nat end.
Proof.
  intros Hb Hl. unfold SplitList. destruct (Split_parts b Hb Hl) as ([e|[[k c] rest]] & -> & Hr); cbn [obind]; [by eexists|]. destruct k; eexists; (split; [reflexivity|]); naive_solver.
Qed.

Lemma CountValues_total b : Forall is_byte b -> Zlen b < 2 ^ 64 -> exists r, CountValues b = Ret r.
Proof.
  unfold CountValues. assert (Hgo : forall fuel i b, Forall is_byte b -> Zlen b < 2 ^ 64 -> (length b < fuel)%nat -> exists r, CountValues_loop fuel b i = Ret r); [|intros; by apply Hgo; [..|lia]].
  intros fuel. induction fuel as [|fuel IH]; intros i l Hb Hl Hf; [lia|]. cbn [CountValues_loop]. destruct (0 <? Zlen l); [|by eexists]. destruct (readKind_total l Hb) as [[e|[[k ts] cs]] Hr]; rewrite Hr; cbn [obind]; [by eexists|].
  destruct (readKind_inv l k ts cs Hb Hl Hr) as (c & rest & -> & Hc & -> & ->). pose proof (Zlen_nonneg c). pose proof (Zlen_nonneg rest). pose proof (Zlen_nonneg (tagged k c)).
  replace (Zlen (tagged k c) - Zlen c + Zlen c) with (Zlen (tagged k c)) by lia. rewrite Zlen_app in Hl. rewrite u64_small by (unfold in64; lia). rewrite go_slice_drop by done. cbn [obind].
  apply Forall_app in Hb as [_ Hb]. apply IH; [done|lia|]. rewrite length_app in Hf. destruct (tagged_nonempty k c Hc) as [|[-> Hl1]]; [lia|]. cbn in *. lia.
Qed.


(** ** The decoder *)

(** A step that returns at once. *)
Ltac by_ret := eexists; split; [reflexivity|done].

(** The nodes that come out of the decoder; [false] allows what a child can be. *)
Inductive shaped : bool -> node -> Prop :=
| shaped_nil : shaped false nilNode
| shaped_hash h : Forall is_byte h -> length h = 32%nat -> shaped false (hashNode h)
| shaped_leaf b k v fl : valid_key k -> Forall is_byte v -> shaped b (shortNode k (valueNode v) fl)
| shaped_ext b k n fl : Forall is_nibble k -> shaped false n -> shaped b (shortNode k n fl)
| shaped_full b cs c fl : length cs = 16%nat -> (forall i n, cs !! i = Some n -> shaped false n) ->
    (c = nilNode \/ exists v, c = valueNode v /\ v <> [] /\ Forall is_byte v) -> shaped b (fullNode (cs ++ [c]) fl).

Lemma shaped_weaken n : shaped true n -> shaped false n.
Proof. inversion 1; subst; by econstructor. Qed.

Definition shaped_result (r : node_error + node) : Prop := match r with inl _ => True | inr n => shaped true n end.

Section Total.
Context (dec : list Z -> outcome (node_error + node)) (size : nat).
Hypothesis dec_total : forall buf, Forall is_byte buf -> (length buf < size)%nat -> exists r, dec buf = Ret r /\ shaped_result r.
Hypothesis size_small : Z.of_nat size <= 2 ^ 64.

Lemma decodeRef_total buf : Forall is_byte buf -> (length buf < size)%nat ->
  exists r, decodeRef dec buf = Ret r /\ match r with inl _ => True | inr (n, rest) => shaped false n /\ Forall is_byte rest /\ (length rest < length buf)%nat end.
Proof.
  intros Hb Hs. unfold decodeRef. destruct (Split_parts buf Hb) as ([e|[[k c] rest]] & -> & Hr); [unfold Zlen; lia|by_ret|]. destruct Hr as (Hc & Hrest & _ & Hlen & _). cbn [obind]. destruct k; [by_ret| |].
  - eexists. split; [reflexivity|]. destruct (Z.eqb_spec (Zlen c) 0); [split; [constructor|done]|]. destruct (Z.eqb_spec (Zlen c) 32); [|done]. split; [constructor; [done|unfold Zlen in *; lia]|done].
  - destruct (_ <? _); [by_ret|]. destruct (dec_total buf Hb Hs) as ([e|n] & -> & Hn); cbn [obind]; eexists; (split; [reflexivity|]); [done|]. split; [by apply shaped_weaken|done].
Qed.

Lemma decodeShort_total h elems : Forall is_byte elems -> (length elems < size)%nat -> exists r, decodeShort dec h elems = Ret r /\ shaped_result r.
Proof.
  intros Hb Hs. unfold decodeShort. destruct (SplitString_parts elems Hb) as ([e|[kbuf rest]] & -> & Hr); [unfold Zlen; lia|by_ret|]. destruct Hr as (Hk & Hrest & Hlen). cbn [obind].
  destruct (compactToHex_key kbuf Hk) as (k & -> & term & ns & -> & Hn). cbn [obind]. rewrite hasTerm_with_term by done. destruct term.
  - destruct (SplitString_parts rest Hrest) as ([e|[v rest']] & -> & Hr); [unfold Zlen; lia|by_ret|]. cbn [obind]. eexists. split; [reflexivity|]. apply shaped_leaf; [by exists ns|apply Hr].
  - destruct (decodeRef_total rest Hrest) as ([e|[n rest']] & -> & Hr); [lia|by_ret|]. cbn [obind]. eexists. split; [reflexivity|]. apply shaped_ext; [exact Hn|apply Hr].
Qed.

Lemma decodeChildren_total n : forall elems, Forall is_byte elems -> (length elems < size)%nat ->
  exists r, decodeChildren dec n elems = Ret r /\
    match r with inl _ => True | inr (cs, rest) => length cs = n /\ (forall i c, cs !! i = Some c -> shaped false c) /\ Forall is_byte rest /\ (length rest <= length elems)%nat end.
Proof.
  induction n as [|n IH]; intros elems Hb Hs; cbn [decodeChildren]; [by_ret|]. destruct (decodeRef_total elems Hb Hs) as ([e|[c rest]] & -> & Hr); cbn [obind]; [by_ret|]. destruct Hr as (Hc & Hrest & Hlen).
  destruct (IH rest Hrest) as ([e|[cs rest']] & -> & Hr); [lia|by_ret|]. destruct Hr as (Hl & Hcs & Hb' & Hlen'). cbn [obind]. eexists. split; [reflexivity|]. split_and!; [cbn; lia| |done|lia].
  intros [|i] d Hi; [by injection Hi as <-|by apply (Hcs i)].
Qed.

Lemma decodeFull_total h elems : Forall is_byte elems -> (length elems < size)%nat -> exists r, decodeFull dec h elems = Ret r /\ shaped_result r.
Proof.
  intros Hb Hs. unfold decodeFull. destruct (decodeChildren_total 16 elems Hb Hs) as ([e|[cs rest]] & -> & Hr); cbn [obind]; [by_ret|]. destruct Hr as (Hl & Hcs & Hrest & Hlen).
  destruct (SplitString_parts rest Hrest) as ([e|[v rest']] & -> & Hr); [unfold Zlen; lia|by_ret|]. cbn [obind]. eexists. split; [reflexivity|]. apply shaped_full; [done|done|].
  destruct v as [|x v]; [by left|right]. rewrite (proj2 (Z.ltb_lt _ _)) by (rewrite Zlen_cons; pose proof (Zlen_nonneg v); lia). eexists. split_and!; [done|done|apply Hr].
Qed.

End Total.

Lemma decode_total fuel : Z.of_nat fuel <= 2 ^ 64 -> forall h buf, Forall is_byte buf -> (length buf < fuel)%nat -> exists r, decodeNodeUnsafe fuel h buf = Ret r /\ shaped_result r.
Proof.
  induction fuel as [|fuel IH]; intros Hf h buf Hb Hl; [lia|]. cbn [decodeNodeUnsafe]. unfold decodeBody. destruct (Zlen buf =? 0); [by_ret|].
  destruct (SplitList_parts buf Hb) as ([e|[elems rest]] & -> & Hr); [unfold Zlen; lia|by_ret|]. destruct Hr as [He Hlen]. cbn [obind].
  destruct (CountValues_total elems He) as [r ->]; [unfold Zlen; lia|]. cbn [obind].
  assert (Hdec : forall buf, Forall is_byte buf -> (length buf < fuel)%nat -> exists r, decodeNodeUnsafe fuel None buf = Ret r /\ shaped_result r) by (intros; apply IH; [lia|done|done]).
  destruct (_ =? 2); [apply (decodeShort_total _ fuel Hdec); [lia|done|lia]|]. destruct (_ =? 17); [apply (decodeFull_total _ fuel Hdec); [lia|done|lia]|]. by_ret.
Qed.

(** The node decoder is total: every byte string that fits in memory is decoded or
    rejected with an error, without panic or exhausted fuel, and what is decoded has the
    shape of a node: a short node with a complete key over a value or a nibble key over a
    reference, or a full node with sixteen references and an optional value; references
    are nil, 32-byte hashes or nodes. *)
Theorem decode_node_shaped h buf : Forall is_byte buf -> Zlen buf < 2 ^ 63 ->
  exists r, decodeNode h buf = Ret r /\ match r with inl _ => True | inr n => shaped true n end.
Proof. intros Hb Hl. unfold decodeNode. apply decode_total; [unfold Zlen in Hl; lia|done|lia]. Qed.

(** ** Proofs *)

Lemma proof_get_shaped n : forall b key, shaped b n -> valid_key key ->
  exists r c, proof_get n key true = Ret (r, c) /\ match c with nilNode | valueNode _ => True | hashNode _ => valid_key r | _ => False end.
Proof.
  induction n as [|ns fl IH|k n fl IH|h|v|v] using node_ind'; intros b key Hs Hk.
  - (eexists _, _; split; [reflexivity|done]).
  - inversion Hs as [| | | |? cs c ? Hl Hcs Hc]; subst. destruct key as [|x r]; [by apply valid_key_nil in Hk|]. destruct (valid_key_index _ _ Hk) as [Hx Hxx]. cbn [proof_get].
    rewrite (proj2 (Z.ltb_ge _ _)) by lia. assert (Hpick : forall cs i, pick_child proof_get r true cs i = match cs !! i with Some c => proof_get c r true | None => Panic end).
    { intros l. induction l as [|d l IHl]; intros [|i]; try done. apply IHl. }
    rewrite Hpick. apply valid_key_cons in Hk as [[-> ->]|[Hn Hr]].
    + change (Z.to_nat 16) with 16%nat. rewrite lookup_app_r, Hl by lia. cbn. destruct Hc as [-> |(v & -> & _)]; (eexists _, _; split; [reflexivity|done]).
    + unfold is_nibble in Hn. rewrite lookup_app_l by lia. destruct (lookup_lt_is_Some_2 cs (Z.to_nat x)) as [d Hd]; [lia|]. rewrite Hd.
      apply Forall_app in IH as [IH _]. by apply (Forall_lookup_1 _ _ _ _ IH Hd false), Hr; apply (Hcs _ _ Hd).
  - cbn [proof_get]. destruct ((Zlen key <? Zlen k) || negb (bool_decide (k = take (length k) key))) eqn:Hg; [(eexists _, _; split; [reflexivity|done])|]. apply orb_false_elim in Hg as [_ Hg]. apply negb_false_iff, bool_decide_eq_true in Hg.
    assert (Hkey : key = k ++ drop (length k) key) by (rewrite Hg at 1; by rewrite take_drop). set (r := drop (length k) key) in *. clearbody r. subst key. clear Hg.
    inversion Hs as [| |? ? v ? Hkv Hv|? ? ? ? Hn Hr|]; subst; [(eexists _, _; split; [reflexivity|done])|]. rewrite valid_key_app in Hk by done. by apply (IH false).
  - (eexists _, _; split; [reflexivity|done]).
  - inversion Hs.
  - inversion Hs.
Qed.

(** Verifying a proof is safe: whatever bytes the proof has under whatever hashes,
    [VerifyProof] does not panic. *)
Theorem verify_proof_safe db root key : (forall h b, db h = Some b -> Forall is_byte b /\ Zlen b < 2 ^ 63) -> Forall is_byte key -> VerifyProof db root key <> Panic.
Proof.
  intros Hdb Hkey. unfold VerifyProof. assert (Hgo : forall fuel i h k, valid_key k -> verify_loop db fuel i h k <> Panic); [|by apply Hgo, valid_keybytes].
  intros fuel. induction fuel as [|fuel IH]; intros i h k Hk; [done|]. cbn [verify_loop]. destruct (db h) as [buf|] eqn:Hb; [|done]. destruct (Hdb h buf Hb) as [Hbytes Hlen].
  destruct (decode_total (S (length buf)) ltac:(unfold Zlen in Hlen; lia) (Some h) buf Hbytes ltac:(lia)) as (r & Hr & Hs). unfold decodeNode. rewrite Hr. cbn [obind]. destruct r as [e|n]; [done|].
  destruct (proof_get_shaped n true k Hs Hk) as (kr & c & -> & Hc). cbn [obind]. destruct c; try done. by apply IH.
Qed.

(** ** Concrete input *)

#[local] Existing Instance demo_crypto.

(** A branch whose only child is an embedded leaf. *)
Definition crafted : list Z := 0xD5 :: [0xC4; 0x82; 0x20; 0x11; 0x05] ++ replicate 16 0x80.

Lemma decode_node_shaped_witness : exists n, decodeNode None crafted = Ret (inr n) /\ shaped true n.
Proof.
  destruct (decode_node_shaped None crafted) as (r & Hr & Hs); [repeat constructor; unfold is_byte; lia|vm_compute; reflexivity|].
  destruct r as [e|n]; [vm_compute in Hr; discriminate Hr|]. exists n. split; [exact Hr|exact Hs].
Defined.

Lemma verify_proof_safe_witness : VerifyProof (fun _ => Some crafted) 5 [1; 2] <> Panic.
Proof. apply (verify_proof_safe (fun _ => Some crafted) 5 [1; 2]); [intros h b [= <-]; split; [repeat constructor; unfold is_byte; lia|vm_compute; reflexivity]|repeat constructor; unfold is_byte; lia]. Defined.
