(* ===== verification/StackTrie.v ===== *)
(** * The stack trie (trie/stacktrie.go)

    A trie that takes keys in increasing order and hashes a subtree as soon as no key can
    fall into it.  Nodes are updated in place, each by its only owner, so an operation
    returns the new node; the calls of the write function are a log.  Nodes come from a
    pool of reset nodes, which a fresh node models. *)

From S2P Require Import Prelude VMCommon Rlp StateTypes TrieEncoding TrieNode TrieHasher.
Import Rlp.

Inductive st_type : Type := emptyNode | branchNode | extNode | leafNode | hashedNode.

#[warnings="-register-all"]
Inductive StackTrie : Type := mkStack {
  st_owner : Z;
  nodeType : st_type;
  val : list Z;
  key : list Z;
  children : list (option StackTrie);
  writeFn : bool
}.

Definition no_kids : list (option StackTrie) := replicate 16 None.

(** A call of the write function: owner, path, hash and blob. *)
Definition node_write : Type := Z * list Z * Z * list Z.
Definition SM (A : Type) : Type := M (list node_write) A.

Definition NewStackTrie (w : bool) : StackTrie := mkStack 0 emptyNode [] [] no_kids w.
Definition NewStackTrieWithOwner (w : bool) (owner : Z) : StackTrie := mkStack owner emptyNode [] [] no_kids w.

Definition newLeaf (owner : Z) (key val : list Z) (w : bool) : StackTrie := mkStack owner leafNode val key no_kids w.
Definition newExt (owner : Z) (key : list Z) (child : StackTrie) (w : bool) : StackTrie :=
  mkStack owner extNode [] key (<[0%nat := Some child]> no_kids) w.

(** [StackTrie.Reset] *)
Definition Stack_Reset (st : StackTrie) : StackTrie := mkStack 0 emptyNode [] [] no_kids false.

(** ** Hashing *)

Section Hashing.
Context {C : Crypto}.

(** The reference to a hashed child. *)
Definition child_ref (v : list Z) : node := if Zlen v <? 32 then rawNode v else hashNode v.

(** The end of [hashRec]: the node becomes its encoding or its hash, which is written. *)
Definition hash_done (st : StackTrie) (kids : list (option StackTrie)) (path encodedNode : list Z) : SM StackTrie :=
  if Zlen encodedNode <? 32 then mret (mkStack (st_owner st) hashedNode encodedNode [] kids (writeFn st))
  else
    let v := hashData encodedNode in
    (if writeFn st then mmodify (fun log => log ++ [(st_owner st, path, BytesToHash v, encodedNode)]) else mret tt) ;;;
    mret (mkStack (st_owner st) hashedNode v [] kids (writeFn st)).

Section Kids.
Context (hashRec : list Z -> StackTrie -> SM StackTrie).

(** The children of a branch, from the [i]-th on, as children of a full node. *)
Fixpoint hash_kids (path : list Z) (i : Z) (cs : list (option StackTrie)) : SM (list node) :=
  match cs with
  | [] => mret []
  | None :: cs => let* ns := hash_kids path (i + 1) cs in mret (nilValueNode :: ns)
  | Some c :: cs =>
      let* c := hashRec (path ++ [i]) c in
      let* ns := hash_kids path (i + 1) cs in
      mret (child_ref (val c) :: ns)
  end.

(** [st.children[0].hashRec]: a nil child is a nil dereference. *)
Definition hash_first (path : list Z) (cs : list (option StackTrie)) : SM StackTrie :=
  match cs with Some c :: _ => hashRec path c | _ => mlift Panic end.

End Kids.

Fixpoint hashRec (path : list Z) (st : StackTrie) {struct st} : SM StackTrie :=
  match nodeType st with
  | hashedNode => mret st
  | emptyNode => mret (mkStack (st_owner st) hashedNode (HashBytes EmptyRootHash) [] (children st) (writeFn st))
  | branchNode =>
      let* nodes := hash_kids hashRec path 0 (children st) in
      let* enc := mlift (nodeToBytes (fullNode (nodes ++ [nilNode]) (mkFlag None false))) in
      hash_done st no_kids path enc
  | extNode =>
      let* c := hash_first hashRec (path ++ key st) (children st) in
      let* ckey := mlift (hexToCompactInPlace (key st)) in
      let* enc := mlift (nodeToBytes (shortNode ckey (child_ref (val c)) (mkFlag None false))) in
      hash_done st (<[0%nat := None]> (children st)) path enc
  | leafNode =>
      let* ckey := mlift (hexToCompactInPlace (key st ++ [16])) in
      let* enc := mlift (nodeToBytes (shortNode ckey (valueNode (val st)) (mkFlag None false))) in
      hash_done st (children st) path enc
  end.

(** ** Insertion *)

(** [getDiffIndex]: where the key of the node and the new key part. *)
Fixpoint getDiffIndex (stkey key : list Z) : outcome nat :=
  match stkey with
  | [] => Ret O
  | nibble :: stkey =>
      match key with
      | [] => Panic
      | x :: key => if negb (nibble =? x) then Ret O else let! n := getDiffIndex stkey key in Ret (S n)
      end
  end.

(** The loop over the elder siblings: the nearest one is hashed. *)
Fixpoint hash_elder (prefix : list Z) (idx : nat) (cs : list (option StackTrie)) : SM (list (option StackTrie)) :=
  match idx with
  | O => mret cs
  | S i =>
      match cs !! i with
      | Some (Some c) =>
          match nodeType c with
          | hashedNode => mret cs
          | _ => let* c := hashRec (prefix ++ [Z.of_nat i]) c in mret (<[i := Some c]> cs)
          end
      | _ => hash_elder prefix i cs
      end
  end.

(** [p.children[i] = c] *)
Definition set_child (cs : list (option StackTrie)) (i : Z) (c : StackTrie) : outcome (list (option StackTrie)) := go_set cs i (Some c).

Definition first_child (cs : list (option StackTrie)) : outcome StackTrie := match cs with Some c :: _ => Ret c | _ => Panic end.

Fixpoint insert (fuel : nat) (st : StackTrie) (k value prefix : list Z) : SM StackTrie :=
  match fuel with
  | O => mlift OutOfFuel
  | S fuel =>
      match nodeType st with
      | branchNode =>
          let* idx := mlift (go_index k 0) in
          let* cs := hash_elder prefix (Z.to_nat idx) (children st) in
          let* old := mlift (go_index cs idx) in
          let* c := (match old with
                     | None => mret (newLeaf (st_owner st) (drop 1 k) value (writeFn st))
                     | Some c => insert fuel c (drop 1 k) value (prefix ++ [idx])
                     end) in
          let* cs := mlift (set_child cs idx c) in
          mret (mkStack (st_owner st) branchNode (val st) (key st) cs (writeFn st))
      | extNode =>
          let* diffidx := mlift (getDiffIndex (key st) k) in
          let* child := mlift (first_child (children st)) in
          if (diffidx =? length (key st))%nat then
            let* c := insert fuel child (drop diffidx k) value (prefix ++ take diffidx k) in
            mret (mkStack (st_owner st) extNode (val st) (key st) (<[0%nat := Some c]> (children st)) (writeFn st))
          else
            let* n := (if (diffidx <? length (key st) - 1)%nat
                       then hashRec (prefix ++ take (S diffidx) (key st)) (newExt (st_owner st) (drop (S diffidx) (key st)) child (writeFn st))
                       else hashRec (prefix ++ key st) child) in
            let o := newLeaf (st_owner st) (drop (S diffidx) k) value (writeFn st) in
            let* origIdx := mlift (go_index (key st) (Z.of_nat diffidx)) in
            let* newIdx := mlift (go_index k (Z.of_nat diffidx)) in
            if (diffidx =? 0)%nat then
              let* cs := mlift (set_child (<[0%nat := None]> (children st)) origIdx n) in
              let* cs := mlift (set_child cs newIdx o) in
              mret (mkStack (st_owner st) branchNode (val st) (take diffidx (key st)) cs (writeFn st))
            else
              let* cs := mlift (set_child no_kids origIdx n) in
              let* cs := mlift (set_child cs newIdx o) in
              let p := mkStack (st_owner st) branchNode [] [] cs (writeFn st) in
              mret (mkStack (st_owner st) extNode (val st) (take diffidx (key st)) (<[0%nat := Some p]> (children st)) (writeFn st))
      | leafNode =>
          let* diffidx := mlift (getDiffIndex (key st) k) in
          if (length (key st) <=? diffidx)%nat then mlift Panic
          else
            let* origIdx := mlift (go_index (key st) (Z.of_nat diffidx)) in
            let* orig := hashRec (prefix ++ take (S diffidx) (key st)) (newLeaf (st_owner st) (drop (S diffidx) (key st)) (val st) (writeFn st)) in
            let* newIdx := mlift (go_index k (Z.of_nat diffidx)) in
            let o := newLeaf (st_owner st) (drop (S diffidx) k) value (writeFn st) in
            let kids := if (diffidx =? 0)%nat then <[0%nat := None]> (children st) else no_kids in
            let* cs := mlift (set_child kids origIdx orig) in
            let* cs := mlift (set_child cs newIdx o) in
            if (diffidx =? 0)%nat then mret (mkStack (st_owner st) branchNode [] (take diffidx (key st)) cs (writeFn st))
            else
              let p := mkStack (st_owner st) branchNode [] [] cs (writeFn st) in
              mret (mkStack (st_owner st) extNode [] (take diffidx (key st)) (<[0%nat := Some p]> (children st)) (writeFn st))
      | emptyNode => mret (mkStack (st_owner st) leafNode value k (children st) (writeFn st))
      | hashedNode => mlift Panic
      end
  end.

(** Every level takes a nibble of the key. *)
Definition Stack_Update (k value : list Z) (st : StackTrie) : SM StackTrie :=
  let k := keybytesToHex k in
  if Zlen value =? 0 then mlift Panic
  else insert (S (length k)) st (take (length k - 1) k) value [].

(** [Hash]: the root is hashed even when it is short. *)
Definition Stack_Hash (st : StackTrie) : SM (Z * StackTrie) :=
  let* st := hashRec [] st in
  mret (if Zlen (val st) =? 32 then BytesToHash (val st) else Keccak256Hash (val st), st).

(** [Commit]; [None] is [ErrCommitDisabled]. *)
Definition Stack_Commit (st : StackTrie) : SM (option Z * StackTrie) :=
  if negb (writeFn st) then mret (None, st)
  else
    let* st := hashRec [] st in
    if Zlen (val st) =? 32 then mret (Some (BytesToHash (val st)), st)
    else
      let h := Keccak256Hash (val st) in
      mmodify (fun log => log ++ [(st_owner st, [], h, val st)]) ;;;
      mret (Some h, st).

End Hashing.
