(* ===== verification/StackSim.v ===== *)
(** * The stack trie and reference tries

    A stack trie stands for a reference trie, with hashed parts standing for what they were
    built from ([srep]).  Insertion of a key that is greater than all the others is
    [tinsert], and hashing gives the hash of the tree. *)

From stdpp Require Import gmap.
From S2P Require Import Prelude VMCommon Rlp RlpCodec StateTypes TrieEncoding TrieTree TrieNode TrieHasher TrieCodec Trie TrieSim TrieUpdate StackTrie.
Import Rlp.

(** ** Encoding a node whose children are references *)

Definition is_flat (n : node) : Prop := match n with shortNode _ _ _ | fullNode _ _ => False | _ => True end.

Definition flat (n : node) : list Z :=
  match n with hashNode b | valueNode b => enc_str b | rawNode b => b | _ => [0x80] end.

Lemma Zlen_le_enc_str b : Zlen b <= Zlen (enc_str b).
Proof.
  assert (Hc : forall p, Zlen b <= Zlen (p ++ b)) by (intros p; rewrite Zlen_app; pose proof (Zlen_nonneg p); lia).
  unfold enc_str. destruct b as [|x [|y b]]; [apply Hc| |apply Hc]. destruct (x <=? 0x7F); [done|apply Hc].
Qed.

Lemma encode_flat n w : is_flat n -> Zlen (flat n) < 2 ^ 64 -> encode_child n w = Ret (append_str (flat n) w).
Proof.
  intros Hf Hl. destruct n as [| | |b|b|b]; try done; cbn [encode_child encode flat] in *; rewrite writeBytes_enc; try done; pose proof (Zlen_le_enc_str b); lia.
Qed.

Lemma encode_flats cs : Forall is_flat cs -> forall w, Zlen (concat (map flat cs)) < 2 ^ 64 -> encode_children cs w = Ret (append_str (concat (map flat cs)) w).
Proof.
  induction 1 as [|c cs Hc _ IH]; intros w Hl; cbn [encode_children map concat] in *.
  - unfold append_str. rewrite app_nil_r. by destruct w.
  - rewrite Zlen_app in Hl. pose proof (Zlen_nonneg (flat c)). pose proof (Zlen_nonneg (concat (map flat cs))). rewrite encode_flat by (done || lia). cbn [obind]. rewrite IH by lia. by rewrite append_str_app.
Qed.

(** A list of one level. *)
Lemma one_list body : Zlen body < 2 ^ 63 ->
  (let! w := listEnd 0 (append_str body (snd (list_begin reset))) in makeBytes w) = Ret (puthead 0xC0 0xF7 (Zlen body) ++ body).
Proof.
  intros Hl. pose proof (Zlen_nonneg body) as Hp. change (append_str body (snd (list_begin reset))) with (mkBuf body [mkHead 0 0] 0). unfold listEnd. cbn [lheads go_index Z.leb Z.to_nat lookup list_lookup obind go_set Zlen length Z.of_nat]. 
  change (go_index [mkHead 0 0] 0) with (Ret (mkHead 0 0)). cbn [obind]. unfold buf_size. cbn [str lhsize offset size]. replace (Zlen body + 0 - 0 - 0) with (Zlen body) by lia.
  change (go_set [mkHead 0 0] 0 (mkHead 0 (Zlen body))) with (Ret [mkHead 0 (Zlen body)]). cbn [obind]. unfold makeBytes, copyTo, buf_size. cbn [str lheads lhsize]. rewrite u64_small by (unfold in64; lia).
  set (hs := if Zlen body <? 56 then 0 + 1 else 0 + (1 + intsize (Zlen body))). assert (Hh : hs = Zlen (puthead 0xC0 0xF7 (Zlen body))).
  { rewrite Zlen_puthead by lia. unfold hs, headsize. by destruct (_ <? _). }
  assert (Hren : render [mkHead 0 (Zlen body)] body 0 = puthead 0xC0 0xF7 (Zlen body) ++ body).
  { cbn [render offset]. unfold piece, listhead_encode. cbn [size]. rewrite u64_small by (unfold in64; lia). done. }
  pose proof (copyTo_loop_render [mkHead 0 (Zlen body)] body [] (replicate (Z.to_nat (Zlen body + hs)) 0) 0) as Hr. cbn [app] in Hr. change (Zlen (@nil Z)) with 0 in Hr. rewrite Hr.
  - by rewrite Hren.
  - lia.
  - cbn. lia.
  - rewrite Hren, Zlen_app, <- Hh. unfold Zlen at 1. rewrite length_replicate. pose proof (Zlen_nonneg (puthead 0xC0 0xF7 (Zlen body))). lia.
Qed.

Lemma nodeToBytes_flat_full cs fl : Forall is_flat cs -> Zlen (concat (map flat cs)) < 2 ^ 63 ->
  nodeToBytes (fullNode cs fl) = Ret (puthead 0xC0 0xF7 (Zlen (concat (map flat cs))) ++ concat (map flat cs)).
Proof.
  intros Hf Hl. unfold nodeToBytes. rewrite encode_full. change (list_begin reset) with (0, snd (list_begin reset)). cbv iota. rewrite encode_flats by (done || lia). cbn [obind]. by apply one_list.
Qed.

Lemma nodeToBytes_flat_short k n fl : is_flat n -> Zlen (enc_str k ++ flat n) < 2 ^ 63 ->
  nodeToBytes (shortNode k n fl) = Ret (puthead 0xC0 0xF7 (Zlen (enc_str k ++ flat n)) ++ enc_str k ++ flat n).
Proof.
  intros Hf Hl. unfold nodeToBytes. rewrite encode_short. change (list_begin reset) with (0, snd (list_begin reset)). cbv iota. rewrite Zlen_app in Hl. pose proof (Zlen_nonneg (enc_str k)). pose proof (Zlen_nonneg (flat n)). pose proof (Zlen_le_enc_str k).
  rewrite writeBytes_enc by lia. rewrite encode_flat by (done || lia). cbn [obind]. rewrite append_str_app. apply one_list. rewrite Zlen_app. lia.
Qed.

(** ** The relation *)

Section Stack.
Context {C : Crypto} (owner : Z) (w : bool).

(** What a hashed node carries. *)
Definition node_val (t : tree) : list Z := if Zlen (tbytes t) <? 32 then tbytes t else thash t.

(** Every node of the tree that is called by its hash was written under its path. *)
Definition written (log : list node_write) (p : list Z) (t : tree) : Prop :=
  forall r u, sub t r u -> is_value u = false -> 32 <= Zlen (tbytes u) -> (owner, p ++ r, BytesToHash (thash u), tbytes u) ∈ log.

Inductive srep (log : list node_write) : list Z -> StackTrie -> tree -> Prop :=
| sr_leaf p k v : Forall is_nibble k -> srep log p (mkStack owner leafNode v k no_kids w) (TShort (k ++ [16]) (TValue v))
| sr_ext p k v c ts : srep log (p ++ k) c (TFull ts) -> srep log p (mkStack owner extNode v k (<[0%nat := Some c]> no_kids) w) (TShort k (TFull ts))
| sr_branch p k v cs ts : length cs = 16%nat -> length ts = 16%nat -> (forall i, cs !! i = Some None <-> ts !! i = Some None) ->
    (forall i c t, cs !! i = Some (Some c) -> ts !! i = Some (Some t) -> srep log (p ++ [Z.of_nat i]) c t) ->
    srep log p (mkStack owner branchNode v k cs w) (TFull (ts ++ [None]))
| sr_hashed p k cs t : (w = true -> written log p t) -> srep log p (mkStack owner hashedNode (node_val t) k cs w) t.

Lemma written_mono log log' p t : log ⊆ log' -> written log p t -> written log' p t.
Proof. intros Hs Hw r u Hu Hv Hl. by apply Hs, Hw. Qed.

Lemma srep_mono log log' p st t : log ⊆ log' -> srep log p st t -> srep log' p st t.
Proof.
  intros Hs. induction 1 as [| |p k v cs ts Hl Hl' Hn Hc IH|p k cs t Hw]; [by constructor|by constructor|by constructor|]. constructor. intros Hwt. eapply written_mono; [done|by apply Hw].
Qed.

(** A reference to a hashed child encodes as the child in its parent. *)
Lemma child_ref_flat t : is_value t = false -> is_flat (child_ref (node_val t)) /\ flat (child_ref (node_val t)) = enc (tref t).
Proof.
  intros Hv. unfold child_ref, node_val, tref, close. rewrite Hv. fold (tbytes t). destruct (Z.ltb_spec (Zlen (tbytes t)) 32) as [Hl|Hl].
  - by rewrite (proj2 (Z.ltb_lt _ _)).
  - assert (Hh : Zlen (thash t) = 32) by (unfold Zlen, thash; by rewrite (proj2 (hashData_bytes (tbytes t)))). by rewrite Hh.
Qed.

(** A node that was hashed. *)
Definition is_hashed (log : list node_write) (p : list Z) (t : tree) (st : StackTrie) : Prop :=
  exists k cs, st = mkStack owner hashedNode (node_val t) k cs w /\ (w = true -> written log p t).

Lemma hash_done_sim log p t st kids enc : st_owner st = owner -> writeFn st = w -> enc = tbytes t ->
  (w = true -> forall r u, sub t r u -> r <> [] -> is_value u = false -> 32 <= Zlen (tbytes u) -> (owner, p ++ r, BytesToHash (thash u), tbytes u) ∈ log) ->
  (forall u, sub t [] u -> is_value u = false -> u = t) ->
  exists st' log', hash_done st kids p enc log = Ret (st', log') /\ log ⊆ log' /\ is_hashed log' p t st'.
Proof.
  intros Ho Hw -> Hsub Hself. unfold hash_done, is_hashed, node_val. rewrite Ho, Hw. destruct (Z.ltb_spec (Zlen (tbytes t)) 32) as [Hl|Hl].
  - eexists _, _. split; [reflexivity|]. split; [done|]. eexists _, _. split; [reflexivity|]. intros Hwt r u Hu Hv Hlu. destruct (decide (r = [])) as [-> |Hr]; [|apply Hsub; auto]. rewrite (Hself u Hu Hv) in Hlu. lia.
  - destruct w.
    + eexists _, _. split; [reflexivity|]. cbn [snd]. split; [set_solver|]. eexists _, _. split; [reflexivity|]. intros _ r u Hu Hv Hlu. apply elem_of_app. destruct (decide (r = [])) as [-> |Hr]; [|left; apply Hsub; auto].
      right. rewrite (Hself u Hu Hv), app_nil_r. by apply list_elem_of_singleton.
    + eexists _, _. split; [reflexivity|]. split; [done|]. by eexists _, _.
Qed.

(** [hashRec] of a node that stands for [t]. *)
Definition hashes (log : list node_write) (p : list Z) (st : StackTrie) (t : tree) : Prop := forall log1, log ⊆ log1 ->
  exists st' log2, hashRec p st log1 = Ret (st', log2) /\ log1 ⊆ log2 /\ is_hashed log2 p t st'.

Lemma hash_kids_sim log p : forall cs ts i log1, length cs = length ts -> (forall j, cs !! j = Some None <-> ts !! j = Some None) ->
  (forall j c t, cs !! j = Some (Some c) -> ts !! j = Some (Some t) -> hashes log (p ++ [i + Z.of_nat j]) c t /\ is_value t = false) -> log ⊆ log1 ->
  exists ns log2, hash_kids hashRec p i cs log1 = Ret (ns, log2) /\ log1 ⊆ log2 /\ Forall is_flat ns /\ map flat ns = map enc (map oref ts) /\
    (w = true -> forall j t, ts !! j = Some (Some t) -> written log2 (p ++ [i + Z.of_nat j]) t).
Proof.
  induction cs as [|c cs IH]; intros [|t ts] i log1 Hl Hn Hc Hsub; try done; [eexists _, _; split; [reflexivity|]; by split_and!|].
  assert (Hn' : forall j, cs !! j = Some None <-> ts !! j = Some None) by (intros j; apply (Hn (S j))).
  assert (Hc' : forall j c t, cs !! j = Some (Some c) -> ts !! j = Some (Some t) -> hashes log (p ++ [i + 1 + Z.of_nat j]) c t /\ is_value t = false).
  { intros j c' t' H1 H2. replace (i + 1 + Z.of_nat j) with (i + Z.of_nat (S j)) by lia. by apply (Hc (S j)). }
  assert (Hi : forall j, i + Z.of_nat (S j) = i + 1 + Z.of_nat j) by lia. specialize (Hn 0%nat). cbn in Hn. destruct c as [c|], t as [t|]; [|by pose proof (proj2 Hn eq_refl)|by pose proof (proj1 Hn eq_refl)|].
  - destruct (Hc 0%nat c t eq_refl eq_refl) as [Hh Hv]. rewrite Z.add_0_r in Hh. destruct (Hh log1 Hsub) as (st' & log2 & E1 & S1 & k & cs' & -> & Hwr).
    destruct (IH ts (i + 1) log2 ltac:(cbn in Hl; lia) Hn' Hc' ltac:(by etransitivity)) as (ns & log3 & E2 & S2 & Hf & Hm & Hwr2). destruct (child_ref_flat t Hv) as [F1 F2].
    exists (child_ref (node_val t) :: ns), log3. split; [cbn [hash_kids]; mrun; rewrite E1; mrun; by rewrite E2|]. split_and!; [by etransitivity|by constructor|cbn [map oref]; by rewrite F2, Hm|].
    intros Hw [|j] u Hj; [injection Hj as <-; rewrite Z.add_0_r; eapply written_mono; [exact S2|by apply Hwr]|]. rewrite Hi. by apply Hwr2.
  - destruct (IH ts (i + 1) log1 ltac:(cbn in Hl; lia) Hn' Hc' Hsub) as (ns & log2 & E2 & S2 & Hf & Hm & Hwr2).
    exists (nilValueNode :: ns), log2. split; [cbn [hash_kids]; mrun; by rewrite E2|]. split_and!; [done|by constructor|cbn [map oref]; by rewrite Hm|]. intros Hw [|j] u Hj; [done|]. rewrite Hi. by apply Hwr2.
Qed.

Lemma sub_nil_self t u : twf t -> sub t [] u -> u = t.
Proof. intros Hw Hs. remember [] as q eqn:Hq. destruct Hs as [|k t r u Hs'|]; [done| |done]. apply app_nil in Hq as [-> _]. by apply wf_short_key in Hw as [? _]. Qed.

Lemma tbytes_short k t : tbytes (TShort k t) = puthead 0xC0 0xF7 (Zlen (enc_str (compact k) ++ enc (tref t))) ++ enc_str (compact k) ++ enc (tref t).
Proof. unfold tbytes. rewrite titem_short. cbn [enc map concat]. by rewrite app_nil_r. Qed.

Lemma tbytes_full cs : tbytes (TFull cs) = puthead 0xC0 0xF7 (Zlen (concat (map enc (map oref cs)))) ++ concat (map enc (map oref cs)).
Proof. unfold tbytes. rewrite titem_full. done. Qed.

Lemma body_small (hd body : list Z) : Zlen (hd ++ body) < 2 ^ 63 -> Zlen body < 2 ^ 63.
Proof. rewrite Zlen_app. pose proof (Zlen_nonneg hd). lia. Qed.

(** The path of a node below another one. *)
Lemma written_below log p k t : written log (p ++ k) t -> forall r u, sub t r u -> is_value u = false -> 32 <= Zlen (tbytes u) -> (owner, p ++ k ++ r, BytesToHash (thash u), tbytes u) ∈ log.
Proof. intros Hw r u Hu Hv Hl. rewrite app_assoc. by apply Hw. Qed.

Lemma hashRec_sim log p st t : srep log p st t -> twf t -> is_value t = false -> tbound t -> hashes log p st t.
Proof.
  induction 1 as [p k v Hk|p k v c ts Hc IH|p k v cs ts Hl Hl' Hn Hc IH|p k cs t Hwr]; intros Hw Hv Hb log1 Hsub.
  - pose proof (tbytes_small _ Hw Hb) as Hs. rewrite tbytes_short in Hs. apply body_small in Hs. assert (Hkey : is_key (k ++ [16])) by (by exists true, k).
    cbn [hashRec nodeType key val]. unfold mlift. mrun. rewrite hexToCompactInPlace_compact by (done || by destruct k). mrun. rewrite nodeToBytes_flat_short by done. mrun. apply hash_done_sim; try done; [by rewrite tbytes_short| |intros u Hu _; by apply sub_nil_self].
    intros _ r u Hu Hr Huv. inversion Hu as [|? ? r' ? Hu'|]; subst; [done|]. inversion Hu'; by subst.
  - destruct (wf_short_key _ _ Hw) as [Hne Hkey]. destruct (tbound_short _ _ Hw Hb) as [_ Hbt]. destruct (IH (short_wf _ _ Hw) eq_refl Hbt log1 Hsub) as (st' & log2 & E1 & S1 & k' & cs' & -> & Hwr).
    pose proof (tbytes_small _ Hw Hb) as Hs. rewrite tbytes_short in Hs. apply body_small in Hs. destruct (child_ref_flat (TFull ts) eq_refl) as [F1 F2]. rewrite <- F2 in Hs.
    cbn [hashRec nodeType key val children]. change (hash_first hashRec (p ++ k) (<[0%nat := Some c]> no_kids)) with (hashRec (p ++ k) c). unfold mlift. mrun. rewrite E1. mrun.
    rewrite hexToCompactInPlace_compact by done. mrun. cbn [val]. rewrite nodeToBytes_flat_short by done. mrun.
    destruct (hash_done_sim log2 p (TShort k (TFull ts)) (mkStack owner extNode v k (<[0%nat := Some c]> no_kids) w) (<[0%nat := None]> (<[0%nat := Some c]> no_kids)) (tbytes (TShort k (TFull ts)))) as (st' & log3 & E2 & S2 & Hd); try done.
    + intros Hwt r u Hu Hr Huv Hlu. inversion Hu as [|? ? r' ? Hu'|]; subst; [done|]. apply (written_below log2 p k (TFull ts)); [by apply Hwr|done|done|done].
    + intros u Hu _. by apply sub_nil_self.
    + exists st', log3. split; [rewrite F2, <- tbytes_short; exact E2|]. split; [by etransitivity|done].
  - inversion Hw as [| | |? Hlen Hnc Hwf Hval]; subst. assert (Hold : forall i t, ts !! i = Some (Some t) -> (ts ++ [None]) !! i = Some (Some t)) by (intros; by apply lookup_app_l_Some).
    assert (Hnv : forall i t, ts !! i = Some (Some t) -> is_value t = false).
    { intros i t Hi. pose proof (lookup_lt_Some _ _ _ Hi). destruct (is_value t) eqn:Hvt; [|done]. apply (Hval _ _ (Hold _ _ Hi)) in Hvt. lia. }
    destruct (hash_kids_sim log p cs ts 0 log1) as (ns & log2 & E1 & S1 & Hf & Hm & Hwr); [lia|done| |done|].
    { intros j c t H1 H2. split; [|by eapply Hnv]. apply (IH j c t H1 H2); [eapply Hwf, Hold, H2|by eapply Hnv|]. eapply tbound_child; [done|done|by apply Hold]. }
    pose proof (tbytes_small _ Hw Hb) as Hs. rewrite tbytes_full in Hs. apply body_small in Hs. assert (Hmap : map flat (ns ++ [nilNode]) = map enc (map oref (ts ++ [None]))) by (rewrite !map_app, Hm; done).
    assert (Hflat : Forall is_flat (ns ++ [nilNode])) by (apply Forall_app_2; [done|by constructor]).
    cbn [hashRec nodeType key val children]. unfold mlift. mrun. rewrite E1. mrun. rewrite nodeToBytes_flat_full by (done || by rewrite Hmap). mrun. rewrite Hmap, <- tbytes_full.
    destruct (hash_done_sim log2 p (TFull (ts ++ [None])) (mkStack owner branchNode v k cs w) no_kids (tbytes (TFull (ts ++ [None])))) as (st' & log3 & E2 & S2 & Hd); try done.
    + intros Hwt r u Hu Hr Huv Hlu. inversion Hu as [| |? i t r' ? Hi Hu']; subst; [done|]. apply lookup_app_Some in Hi as [Hi|[_ Hi]]; [|by apply list_lookup_singleton_Some in Hi as [_ ?]].
      specialize (Hwr Hwt i t Hi r' u Hu' Huv Hlu). by rewrite <- app_assoc in Hwr.
    + intros u Hu _. by apply sub_nil_self.
    + exists st', log3. split; [exact E2|]. split; [by etransitivity|done].
  - eexists _, _. split; [reflexivity|]. split; [done|]. eexists _, _. split; [reflexivity|]. intros Hwt. eapply written_mono; [done|by apply Hwr].
Qed.

(** ** Insertion in order *)

(** [k] is smaller than [k'] and neither is a prefix of the other. *)
Definition before (k k' : list Z) : Prop := exists p x a y b, k = p ++ x :: a /\ k' = p ++ y :: b /\ x < y.

(** A key after all the keys of a tree. *)
Definition after (t : tree) (k : list Z) : Prop := forall k' v, Forall is_nibble k' -> tget t (k' ++ [16]) = Some v -> before k' k.

(** The way to the last key is not hashed. *)
Inductive is_open : StackTrie -> Prop :=
| open_leaf o v k cs b : is_open (mkStack o leafNode v k cs b)
| open_ext o v k c b : is_open c -> is_open (mkStack o extNode v k (<[0%nat := Some c]> no_kids) b)
| open_branch o v k cs b j c : cs !! j = Some (Some c) -> (forall i d, (j < i)%nat -> cs !! i = Some d -> d = None) -> is_open c ->
    is_open (mkStack o branchNode v k cs b).

Lemma before_cons x k y k' : before (x :: k) (y :: k') -> x < y \/ (x = y /\ before k k').
Proof.
  intros ([|z p] & a & u & b & u' & H1 & H2 & Hlt); cbn in *; [injection H1 as -> ->; injection H2 as -> ->; by left|]. injection H1 as -> ->. injection H2 as -> ->. right. split; [done|]. by exists p, a, u, b, u'.
Qed.

Lemma before_app p k k' : before (p ++ k) (p ++ k') -> before k k'.
Proof. induction p as [|x p IH]; [done|]. cbn. intros [|[_ Hb]]%before_cons; [lia|by apply IH]. Qed.

Lemma before_nil k : ~ before k [].
Proof. intros (p & x & a & y & b & _ & H & _). by destruct p. Qed.

Lemma getDiffIndex_part p y k x r : y <> x -> getDiffIndex (p ++ y :: k) (p ++ x :: r) = Ret (length p).
Proof. intros Hne. induction p as [|z p IH]; cbn [app getDiffIndex length]; [by rewrite (proj2 (Z.eqb_neq _ _))|]. rewrite Z.eqb_refl. cbn [negb]. by rewrite IH. Qed.

Lemma getDiffIndex_whole k r : getDiffIndex k (k ++ r) = Ret (length k).
Proof. induction k as [|z k IH]; cbn [app getDiffIndex length]; [done|]. rewrite Z.eqb_refl. cbn [negb]. by rewrite IH. Qed.

(** ** Branches *)

Definition brel (log : list node_write) (p : list Z) (cs : list (option StackTrie)) (ts : list (option tree)) : Prop :=
  length cs = 16%nat /\ length ts = 16%nat /\ (forall i, cs !! i = Some None <-> ts !! i = Some None) /\
  (forall i c t, cs !! i = Some (Some c) -> ts !! i = Some (Some t) -> srep log (p ++ [Z.of_nat i]) c t).

Lemma brel_empty log p : brel log p no_kids (replicate 16 None).
Proof.
  split_and!; [done|done| |].
  - intros i. unfold no_kids. destruct (decide (i < 16)%nat); [by rewrite !lookup_replicate_2|]. by rewrite !lookup_ge_None_2 by (rewrite length_replicate; lia).
  - intros i c t Hc. by apply lookup_replicate in Hc as [? _].
Qed.

Lemma brel_set log p cs ts i c t : brel log p cs ts -> (i < 16)%nat -> srep log (p ++ [Z.of_nat i]) c t -> brel log p (<[i := Some c]> cs) (<[i := Some t]> ts).
Proof.
  intros (L1 & L2 & Hn & Hc) Hi Hs. split_and!; [by rewrite length_insert|by rewrite length_insert| |].
  - intros j. destruct (decide (j = i)) as [-> |Hne]; [rewrite !list_lookup_insert_eq by lia; naive_solver|]. rewrite (list_lookup_insert_ne cs), (list_lookup_insert_ne ts) by done. apply Hn.
  - intros j c' t' Hj Hj'. destruct (decide (j = i)) as [-> |Hne]; [rewrite list_lookup_insert_eq in Hj by lia; rewrite list_lookup_insert_eq in Hj' by lia; by simplify_eq|].
    rewrite list_lookup_insert_ne in Hj by done. rewrite list_lookup_insert_ne in Hj' by done. eauto.
Qed.

Lemma brel_mono log log' p cs ts : log ⊆ log' -> brel log p cs ts -> brel log' p cs ts.
Proof. intros Hs (L1 & L2 & Hn & Hc). split_and!; [done|done|done|]. intros i c t H1 H2. by eapply srep_mono, Hc. Qed.

Lemma hash_elder_sim log p ts : twf (TFull (ts ++ [None])) -> tbound (TFull (ts ++ [None])) -> forall idx cs, (idx <= 16)%nat -> brel log p cs ts ->
  exists cs' log', hash_elder p idx cs log = Ret (cs', log') /\ log ⊆ log' /\ brel log' p cs' ts /\ forall i, (idx <= i)%nat -> cs' !! i = cs !! i.
Proof.
  intros Hw Hb. inversion Hw as [| | |? Hlen Hnc Hwf Hval]; subst.
  induction idx as [|i IH]; intros cs Hi Hr; cbn [hash_elder]; [eexists _, _; split; [reflexivity|]; done|].
  assert (Hskip : exists cs' log', hash_elder p i cs log = Ret (cs', log') /\ log ⊆ log' /\ brel log' p cs' ts /\ forall j, (S i <= j)%nat -> cs' !! j = cs !! j).
  { destruct (IH cs ltac:(lia) Hr) as (cs' & log' & E & S1 & Hr' & Hsame). exists cs', log'. split_and!; [done|done|done|]. intros j Hj. apply Hsame. lia. }
  destruct (cs !! i) as [[c|]|] eqn:Hc; [|done|done]. pose proof Hr as (L1 & L2 & Hn & Hcs). destruct (lookup_lt_is_Some_2 ts i) as [[t|] Ht]; [lia| |by apply Hn in Ht; congruence].
  assert (Hlook : (ts ++ [None]) !! i = Some (Some t)) by (by apply lookup_app_l_Some). assert (Hv : is_value t = false) by (destruct (is_value t) eqn:E; [apply (Hval _ _ Hlook) in E; lia|done]).
  destruct (hashRec_sim log _ c t (Hcs i c t Hc Ht) (Hwf _ _ Hlook) Hv (tbound_child _ _ _ Hw Hb Hlook) log ltac:(done)) as (st' & log2 & E1 & S1 & k & cs' & -> & Hwr).
  assert (Hdo : exists cs' log', (let* c := hashRec (p ++ [Z.of_nat i]) c in mret (<[i := Some c]> cs)) log = Ret (cs', log') /\ log ⊆ log' /\ brel log' p cs' ts /\ forall j, (S i <= j)%nat -> cs' !! j = cs !! j).
  { mrun. rewrite E1. mrun. eexists _, _. split; [reflexivity|]. cbn [snd]. split_and!; [done| |intros j Hj; by rewrite list_lookup_insert_ne by lia].
    rewrite <- (list_insert_id ts i (Some t)) by done. apply brel_set; [by eapply brel_mono|lia|by constructor]. }
  destruct (nodeType c); try exact Hdo. eexists _, _. split; [reflexivity|]. done.
Qed.

End Stack.

(** * Insertion into a stack trie is insertion into the tree *)

Section Insert.
Context {C : Crypto} (owner : Z) (w : bool).
Abbreviation srep := (srep owner w).

Lemma set_child_Ret cs i c : length cs = 16%nat -> is_nibble i -> set_child cs i c = Ret (<[Z.to_nat i := Some c]> cs).
Proof. intros Hl Hi. unfold is_nibble in Hi. unfold set_child, go_set, Zlen. rewrite (proj2 (Z.leb_le _ _)), (proj2 (Z.ltb_lt _ _)) by lia. done. Qed.

(** A new branch with an old part and a new leaf. *)
Lemma fork_sim log q y n a x r v : is_nibble y -> is_nibble x -> y < x -> Forall is_nibble r -> srep log (q ++ [y]) n a ->
  exists cs1 cs2, set_child no_kids y n = Ret cs1 /\ set_child cs1 x (newLeaf owner r v w) = Ret cs2 /\
    forall v' k', srep log q (mkStack owner branchNode v' k' cs2 w) (branch y a x (TShort (r ++ [16]) (TValue v))) /\ is_open (mkStack owner branchNode v' k' cs2 w).
Proof.
  intros Hy Hx Hlt Hr Hs. pose proof Hy as Hy'. pose proof Hx as Hx'. unfold is_nibble in Hy', Hx'. exists (<[Z.to_nat y := Some n]> no_kids), (<[Z.to_nat x := Some (newLeaf owner r v w)]> (<[Z.to_nat y := Some n]> no_kids)).
  split_and!; [by apply set_child_Ret|by apply set_child_Ret; [rewrite length_insert|]|]. intros v' k'. split.
  - assert (Hb : brel owner w log q (<[Z.to_nat x := Some (newLeaf owner r v w)]> (<[Z.to_nat y := Some n]> no_kids)) (<[Z.to_nat x := Some (TShort (r ++ [16]) (TValue v))]> (<[Z.to_nat y := Some a]> (replicate 16 None)))).
    { apply brel_set; [apply brel_set; [apply brel_empty|lia|rewrite Z2Nat.id by lia; done]|lia|]. by apply sr_leaf. }
    destruct Hb as (L1 & L2 & Hn & Hc). unfold branch, no_children. replace (replicate 17 (@None tree)) with (replicate 16 (@None tree) ++ [None]) by done.
    rewrite (insert_app_l (replicate 16 None)) by (rewrite length_replicate; lia). rewrite insert_app_l by (rewrite length_insert, length_replicate; lia). by apply sr_branch.
  - apply (open_branch _ _ _ _ _ (Z.to_nat x) (newLeaf owner r v w)); [rewrite list_lookup_insert_eq; [done|rewrite length_insert; cbn; lia]| |constructor].
    intros i d Hi. rewrite !list_lookup_insert_ne by lia. by intros [? _]%lookup_replicate.
Qed.

Lemma tail_facts p y k t : twf (TShort (p ++ y :: k) t) -> tbound (TShort (p ++ y :: k) t) -> Forall is_nibble p -> is_nibble y -> twf (tnew k t) /\ tbound (tnew k t).
Proof.
  intros Hw Hb Hp Hy. pose proof (short_tail_belongs p y k t Hw Hp) as [Hwt Hvt]. split; [done|]. assert (Hv : is_value (tnew k t) = false).
  { destruct (is_value (tnew k t)) eqn:E; [|done]. unfold is_nibble in Hy. assert (Z.to_nat y = 16%nat) by (by apply Hvt). lia. }
  intros key v Hf Hg. unfold fits in Hf. rewrite Hv in Hf. destruct (Hb (p ++ y :: key) v) as [Hl Hlv]; [|..].
  - unfold fits. cbn. apply valid_key_app; [done|]. apply valid_key_cons. by right.
  - rewrite tget_short_split. cbn [tnew]. change (y :: k) with ([y] ++ k). change (y :: key) with ([y] ++ key). by rewrite tget_short_split.
  - rewrite Zlen_app, Zlen_cons in Hl. pose proof (Zlen_nonneg p). split; [lia|done].
Qed.

Lemma nth_index p (x : Z) r : go_index (p ++ x :: r) (Z.of_nat (length p)) = Ret x.
Proof. by apply go_index_app_r. Qed.

Lemma cut_at (p : list Z) z l : take (S (length p)) (p ++ z :: l) = p ++ [z] /\ drop (S (length p)) (p ++ z :: l) = l.
Proof.
  replace (p ++ z :: l) with ((p ++ [z]) ++ l) by (by rewrite <- app_assoc). replace (S (length p)) with (length (p ++ [z])) by (rewrite length_app; cbn; lia). by rewrite take_app_length, drop_app_length.
Qed.

(** What [insert] returns. *)
Definition inserts_to (log : list node_write) (p : list Z) (st : StackTrie) (k v : list Z) (fuel : nat) (t' : tree) : Prop :=
  exists st' log', insert fuel st k v p log = Ret (st', log') /\ log ⊆ log' /\ srep log' p st' t' /\ is_open st'.

(** The fork of a leaf or an extension, below what they have in common. *)
Lemma fork_node log q p y n a x r v v' : is_nibble y -> is_nibble x -> y < x -> Forall is_nibble r -> srep log (q ++ p ++ [y]) n a ->
  exists cs1 cs2, set_child no_kids y n = Ret cs1 /\ set_child cs1 x (newLeaf owner r v w) = Ret cs2 /\
    let st := (if (length p =? 0)%nat then mkStack owner branchNode v' p cs2 w
               else mkStack owner extNode v' p (<[0%nat := Some (mkStack owner branchNode [] [] cs2 w)]> no_kids) w) in
    srep log q st (tnew p (branch y a x (TShort (r ++ [16]) (TValue v)))) /\ is_open st.
Proof.
  intros Hy Hx Hlt Hr Hs. destruct (fork_sim log (q ++ p) y n a x r v Hy Hx Hlt Hr) as (cs1 & cs2 & S1 & S2 & Hb); [by rewrite <- app_assoc|]. exists cs1, cs2. split_and!; [done|done|].
  destruct p as [|z p]; cbn [length Nat.eqb tnew].
  - rewrite app_nil_r in Hb. apply Hb.
  - destruct (Hb [] []) as [H1 H2]. split; [by apply sr_ext|by constructor].
Qed.

Lemma insert_leaf log p k v k' v' fuel : Forall is_nibble k -> v <> [] -> Forall is_byte v -> tbound (TShort (k ++ [16]) (TValue v)) -> Forall is_nibble k' -> after (TShort (k ++ [16]) (TValue v)) k' ->
  inserts_to log p (mkStack owner leafNode v k no_kids w) k' v' (S fuel) (tinsert (TShort (k ++ [16]) (TValue v)) (k' ++ [16]) v').
Proof.
  intros Hk Hv Hvb Hb Hk' Ha. assert (Hbef : before k k') by (apply (Ha k v); [done|]; rewrite <- (app_nil_r (k ++ [16])) at 2; by rewrite tget_short_app).
  destruct Hbef as (q & y & k2 & x & r & -> & -> & Hlt). apply Forall_app in Hk as [Hq Hk]. apply Forall_cons_1 in Hk as [Hy Hk2]. apply Forall_app in Hk' as [_ Hk']. apply Forall_cons_1 in Hk' as [Hx Hr].
  rewrite <- !app_assoc in *. cbn [app] in *. rewrite tinsert_short_split by lia. assert (Hw : twf (TShort (q ++ y :: k2 ++ [16]) (TValue v))).
  { constructor; [|done|done]. exists (q ++ y :: k2). split; [by rewrite <- app_assoc|]. apply Forall_app. split; [done|by constructor]. }
  destruct (tail_facts q y (k2 ++ [16]) (TValue v) Hw Hb Hq Hy) as [Hwt Hbt]. assert (Hnew : forall l u, tnew (l ++ [16]) (TValue u) = TShort (l ++ [16]) (TValue u)) by (by intros []). rewrite !Hnew in *.
  destruct (hashRec_sim owner w log (p ++ q ++ [y]) (newLeaf owner k2 v w) (TShort (k2 ++ [16]) (TValue v)) ltac:(by constructor) Hwt eq_refl Hbt log ltac:(done)) as (n & log1 & E1 & S1 & kk & cs & -> & Hwr).
  destruct (fork_node log1 p q y (mkStack owner hashedNode (node_val (TShort (k2 ++ [16]) (TValue v))) kk cs w) (TShort (k2 ++ [16]) (TValue v)) x r v' [] Hy Hx Hlt Hr) as (cs1 & cs2 & C1 & C2 & Hst); [by constructor|].
  eexists _, log1. split; [|split; [exact S1|exact Hst]]. cbn [insert nodeType key val st_owner writeFn children]. unfold mlift. mrun. rewrite getDiffIndex_part by lia. mrun.
  rewrite (proj2 (Nat.leb_gt _ _)) by (rewrite length_app; cbn; lia). mrun. rewrite nth_index. mrun. destruct (cut_at q y k2) as [-> ->], (cut_at q x r) as [_ ->]. rewrite E1. mrun. rewrite nth_index. mrun.
  assert (Hkids : (if (length q =? 0)%nat then <[0%nat := None]> no_kids else no_kids) = no_kids) by (by destruct (_ =? _)%nat). rewrite Hkids, C1. mrun. rewrite C2. mrun. rewrite take_app_length. by destruct (length q =? 0)%nat.
Qed.

(** Insertion with this fuel works. *)
Definition stack_ok (fuel : nat) : Prop := forall log p st t k v, srep log p st t -> is_open st -> twf t -> is_value t = false -> tbound t -> Forall is_nibble k -> after t k -> (length k < fuel)%nat ->
  inserts_to log p st k v fuel (tinsert t (k ++ [16]) v).

Lemma insert_alter_at {A} (l : list A) i x f : l !! i = Some x -> <[i := f x]> l = alter f i l.
Proof. intros Hi. apply list_eq. intros j. destruct (decide (j = i)) as [-> |Hne]; [|by rewrite list_lookup_insert_ne, list_lookup_alter_ne]. rewrite list_lookup_insert_eq by (by eapply lookup_lt_Some). by rewrite list_lookup_alter_eq, Hi. Qed.

Lemma valid_key_split k : valid_key k -> exists ns, k = ns ++ [16] /\ Forall is_nibble ns.
Proof. done. Qed.

(** A key after the keys of an extension that does not extend its key. *)
Lemma after_ext q y k ts k' x r : twf (TFull ts) -> Forall is_nibble (q ++ y :: k) -> after (TShort (q ++ y :: k) (TFull ts)) k' -> k' ++ [16] = q ++ x :: r -> y <> x -> valid_key (x :: r) ->
  exists r', k' = q ++ x :: r' /\ r = r' ++ [16] /\ is_nibble x /\ Forall is_nibble r' /\ y < x.
Proof.
  intros Hw Hk Ha He Hne Hv. destruct (has_key (TFull ts) Hw) as (s & v & Hs & Hg). destruct (valid_key_split s Hs) as (ns & -> & Hns).
  assert (Hbef : before ((q ++ y :: k) ++ ns) k').
  { apply (Ha _ v); [by apply Forall_app|]. rewrite <- app_assoc. by rewrite tget_short_app. }
  apply valid_key_cons in Hv as [[-> ->]|[Hx Hr]].
  - apply app_inj_tail in He as [-> _]. rewrite <- app_assoc in Hbef. rewrite <- (app_nil_r q) in Hbef at 2. apply before_app in Hbef. by apply before_nil in Hbef.
  - destruct (valid_key_split r Hr) as (r' & -> & Hr'). exists r'. assert (k' = q ++ x :: r') as ->.
    { apply (app_inv_tail [16]). rewrite He, <- app_assoc. done. }
    split_and!; [done|done|done|done|]. rewrite <- app_assoc in Hbef. apply before_app, before_cons in Hbef as [|[]]; [lia|done].
Qed.

Lemma insert_ext log p k v c ts k' v' fuel : stack_ok fuel -> srep log (p ++ k) c (TFull ts) -> is_open c -> twf (TShort k (TFull ts)) -> tbound (TShort k (TFull ts)) ->
  Forall is_nibble k' -> after (TShort k (TFull ts)) k' -> (length k' < S fuel)%nat ->
  inserts_to log p (mkStack owner extNode v k (<[0%nat := Some c]> no_kids) w) k' v' (S fuel) (tinsert (TShort k (TFull ts)) (k' ++ [16]) v').
Proof.
  intros IH Hc Ho Hw Hb Hk' Ha Hfuel. destruct (wf_short_key k _ Hw) as [Hne _]. assert (Hkn : Forall is_nibble k) by (by inversion Hw). pose proof (short_wf _ _ Hw) as Hwt. destruct (tbound_short _ _ Hw Hb) as [_ Hbt].
  assert (Hvk : valid_key (k' ++ [16])) by (by exists k'). destruct (key_meets k (TFull ts) (k' ++ [16]) Hw Hvk) as [(r & He & Hr & _)|(q & y & k2 & x & r & -> & He & Hd & Hq & _ & _ & Hx)].
  - destruct (valid_key_split r Hr) as (r' & -> & Hr'). rewrite app_assoc in He. apply app_inv_tail in He as ->. rewrite <- app_assoc, tinsert_short_deeper by done.
    destruct (IH log (p ++ k) c (TFull ts) r' v' Hc Ho Hwt eq_refl Hbt Hr') as (c' & log1 & E1 & S1 & Hs & Ho').
    { intros k1 v1 Hk1 Hg. apply (before_app k). apply (Ha _ v1); [by apply Forall_app|]. by rewrite <- app_assoc, tget_short_app. }
    { rewrite length_app in Hfuel. destruct k; [done|]. cbn in Hfuel. lia. }
    assert (Hts : exists ts', tinsert (TFull ts) (r' ++ [16]) v' = TFull ts') by (destruct r'; cbn [app]; rewrite tinsert_full; by eexists). destruct Hts as [ts' Hts]. rewrite Hts in *.
    eexists _, log1. split; [|split; [exact S1|split; [by apply sr_ext|by apply open_ext]]].
    cbn [insert nodeType key val st_owner writeFn children]. unfold mlift. mrun. rewrite getDiffIndex_whole. mrun. change (first_child (<[0%nat := Some c]> no_kids)) with (Ret c). mrun. rewrite Nat.eqb_refl. mrun. rewrite drop_app_length, take_app_length, E1. mrun. done.
  - destruct (after_ext q y k2 ts k' x r Hwt Hkn Ha He Hd Hx) as (r' & -> & -> & Hxn & Hr' & Hlt). rewrite <- app_assoc. cbn [app]. rewrite tinsert_short_split by lia.
    apply Forall_app in Hkn as [_ Hkn]. apply Forall_cons_1 in Hkn as [Hy Hk2]. destruct (tail_facts q y k2 (TFull ts) Hw Hb Hq Hy) as [Hwn Hbn].
    assert (Hnv : is_value (tnew k2 (TFull ts)) = false) by (by destruct k2). assert (Hnew : tnew (r' ++ [16]) (TValue v') = TShort (r' ++ [16]) (TValue v')) by (by destruct r'). rewrite Hnew.
    set (n := match k2 with [] => c | _ => newExt owner k2 c w end). assert (Hn : srep log (p ++ q ++ [y]) n (tnew k2 (TFull ts))).
    { subst n. destruct k2 as [|z k2]; [done|]. apply sr_ext. by rewrite <- !app_assoc. }
    destruct (hashRec_sim owner w log (p ++ q ++ [y]) n (tnew k2 (TFull ts)) Hn Hwn Hnv Hbn log ltac:(done)) as (n' & log1 & E1 & S1 & kk & cs & -> & Hwr).
    destruct (fork_node log1 p q y (mkStack owner hashedNode (node_val (tnew k2 (TFull ts))) kk cs w) (tnew k2 (TFull ts)) x r' v' v Hy Hxn Hlt Hr') as (cs1 & cs2 & C1 & C2 & Hst); [by constructor|].
    eexists _, log1. split; [|split; [exact S1|exact Hst]]. cbn [insert nodeType key val st_owner writeFn children]. unfold mlift. mrun. rewrite getDiffIndex_part by lia. mrun.
    change (first_child (<[0%nat := Some c]> no_kids)) with (Ret c). mrun. rewrite (proj2 (Nat.eqb_neq _ _)) by (rewrite length_app; cbn; lia). destruct (cut_at q y k2) as [-> ->], (cut_at q x r') as [_ ->]. mrun.
    match goal with |- context [obind (?m log) _] => assert (Hsel : m log = hashRec (p ++ q ++ [y]) n log) end.
    { rewrite length_app. cbn [length]. destruct k2 as [|z k2]; [rewrite (proj2 (Nat.ltb_ge _ _)) by (cbn; lia); done|rewrite (proj2 (Nat.ltb_lt _ _)) by (cbn; lia); done]. }
    rewrite Hsel, E1. mrun. rewrite !nth_index. mrun. rewrite take_app_length. change (<[0%nat := None]> (<[0%nat := Some c]> no_kids)) with no_kids. destruct (length q =? 0)%nat; mrun; rewrite C1; mrun; rewrite C2; done.
Qed.

(** The last child of a branch is no later than the next key. *)
Lemma branch_last ts j t x r : twf (TFull (ts ++ [None])) -> ts !! j = Some (Some t) -> (j < 16)%nat -> after (TFull (ts ++ [None])) (x :: r) -> is_nibble x -> (j <= Z.to_nat x)%nat.
Proof.
  intros Hw Hj Hj16 Ha Hx. inversion Hw as [| | |? Hlen Hnc Hwf Hval]; subst. assert (Hlook : (ts ++ [None]) !! j = Some (Some t)) by (by apply lookup_app_l_Some).
  assert (Hv : is_value t = false) by (destruct (is_value t) eqn:E; [apply (Hval _ _ Hlook) in E; lia|done]). destruct (has_key t (Hwf _ _ Hlook)) as (s & v & Hs & Hg). unfold fits in Hs. rewrite Hv in Hs.
  destruct (valid_key_split s Hs) as (ns & -> & Hns). assert (Hbef : before (Z.of_nat j :: ns) (x :: r)).
  { apply (Ha _ v); [constructor; [unfold is_nibble; lia|done]|]. cbn [app]. by rewrite tget_full, Nat2Z.id, Hlook. }
  apply before_cons in Hbef as [|[<- _]]; lia.
Qed.

Lemma after_child ts x t r : ts !! Z.to_nat x = Some (Some t) -> is_nibble x -> after (TFull ts) (x :: r) -> after t r.
Proof.
  intros Ht Hx Ha k v Hk Hg. assert (Hbef : before (x :: k) (x :: r)) by (apply (Ha _ v); [by constructor|]; cbn [app]; by rewrite tget_full, Ht). apply before_cons in Hbef as [|[_ ?]]; [lia|done].
Qed.

Lemma insert_branch log p v kk cs ts k v' fuel : stack_ok fuel -> brel owner w log p cs ts -> is_open (mkStack owner branchNode v kk cs w) -> twf (TFull (ts ++ [None])) -> tbound (TFull (ts ++ [None])) ->
  Forall is_nibble k -> after (TFull (ts ++ [None])) k -> (length k < S fuel)%nat ->
  inserts_to log p (mkStack owner branchNode v kk cs w) k v' (S fuel) (tinsert (TFull (ts ++ [None])) (k ++ [16]) v').
Proof.
  intros IH Hr Ho Hw Hb Hk Ha Hfuel. destruct k as [|x r].
  { destruct (has_key _ Hw) as (s & u & Hs & Hg). destruct (valid_key_split s Hs) as (ns & -> & Hns). by pose proof (before_nil _ (Ha _ _ Hns Hg)). }
  apply Forall_cons_1 in Hk as [Hx Hk]. pose proof Hx as Hx'. unfold is_nibble in Hx'. inversion Ho as [| |? ? ? ? ? j c0 Hj Hlast Hc0]; subst. pose proof Hr as (L1 & L2 & Hn & Hc). pose proof (lookup_lt_Some _ _ _ Hj) as Hj16. rewrite L1 in Hj16.
  destruct (lookup_lt_is_Some_2 ts j) as [[tj|] Htj]; [lia| |by apply Hn in Htj; congruence]. pose proof (branch_last _ _ _ _ _ Hw Htj Hj16 Ha Hx) as Hjx.
  destruct (hash_elder_sim owner w log p ts Hw Hb (Z.to_nat x) cs ltac:(lia) Hr) as (cs' & log1 & E1 & S1 & Hr1 & Hsame). pose proof Hr1 as (L1' & _ & Hn1 & Hc1).
  inversion Hw as [| | |? Hlen Hnc Hwf Hval]; subst. destruct (go_index_Ret cs' x) as (old & Hidx & Hold); [unfold Zlen; lia|].
  set (f := fun ot : option tree => Some (oinsert ot (r ++ [16]) v')).
  assert (Hnew : exists c log2, (match old with None => mret (newLeaf owner r v' w) | Some c => insert fuel c r v' (p ++ [x]) end) log1 = Ret (c, log2) /\ log1 ⊆ log2 /\ is_open c /\
            exists ot t, ts !! Z.to_nat x = Some ot /\ f ot = Some t /\ srep log2 (p ++ [x]) c t).
  { destruct old as [c|].
    - destruct (lookup_lt_is_Some_2 ts (Z.to_nat x)) as [[t|] Ht]; [lia| |by apply Hn1 in Ht; congruence]. assert (Hlook : (ts ++ [None]) !! Z.to_nat x = Some (Some t)) by (by apply lookup_app_l_Some).
      assert (Hv : is_value t = false) by (destruct (is_value t) eqn:E; [apply (Hval _ _ Hlook) in E; lia|done]). rewrite Hsame in Hold by lia. assert (Hjeq : j = Z.to_nat x) by (destruct (decide (j = Z.to_nat x)); [done|]; by assert (Some c = None) by (eapply Hlast; [|done]; lia)).
      assert (Hcc : c = c0) by congruence. subst c. pose proof (Hc1 (Z.to_nat x) c0 t) as Hsr. rewrite Hsame in Hsr by lia. rewrite Z2Nat.id in Hsr by lia.
      destruct (IH log1 (p ++ [x]) c0 t r v' (Hsr Hold Ht) Hc0 (Hwf _ _ Hlook) Hv (tbound_child _ _ _ Hw Hb Hlook) Hk) as (c' & log2 & E2 & S2 & Hs2 & Ho2); [by eapply after_child|cbn in Hfuel; lia|].
      exists c', log2. split_and!; [done|done|done|]. exists (Some t), (tinsert t (r ++ [16]) v'). done.
    - eexists _, log1. split; [reflexivity|]. split_and!; [done|constructor|]. exists None, (TShort (r ++ [16]) (TValue v')). split_and!; [by apply Hn1|by destruct r|by apply sr_leaf]. }
  destruct Hnew as (c & log2 & E2 & S2 & Ho2 & ot & t & Hot & Hft & Hs2). exists (mkStack owner branchNode v kk (<[Z.to_nat x := Some c]> cs') w), log2. split_and!.
  - cbn [insert nodeType key val st_owner writeFn children]. unfold mlift. mrun. rewrite go_index_0. mrun. rewrite E1. mrun. rewrite Hidx. mrun. match goal with |- context [obind (?m log1) _] => assert (E3 : m log1 = Ret (c, log2)) by exact E2; rewrite E3 end. mrun. rewrite set_child_Ret by done. done.
  - by etransitivity.
  - cbn [app]. rewrite tinsert_full. fold f. rewrite <- (insert_alter_at (ts ++ [None]) (Z.to_nat x) ot f) by (by apply lookup_app_l_Some). rewrite Hft, insert_app_l by lia.
    assert (Hbr : brel owner w log2 p (<[Z.to_nat x := Some c]> cs') (<[Z.to_nat x := Some t]> ts)) by (apply brel_set; [by eapply brel_mono|lia|by rewrite Z2Nat.id by lia]). destruct Hbr as (M1 & M2 & M3 & M4). by apply sr_branch.
  - apply (open_branch _ _ _ _ _ (Z.to_nat x) c); [by rewrite list_lookup_insert_eq by lia| |done]. intros i d Hi. rewrite list_lookup_insert_ne by lia. rewrite Hsame by lia. apply Hlast. lia.
Qed.

Lemma stack_insert_sim fuel : stack_ok fuel.
Proof.
  induction fuel as [|fuel IH]; intros log p st t k v Hs Ho Hw Hv Hb Hk Ha Hfuel; [lia|]. destruct Hs as [p k0 v0 Hk0|p k0 v0 c ts Hc|p k0 v0 cs ts Hl Hl' Hn Hc|p k0 cs t Hwr].
  - inversion Hw; subst. by apply insert_leaf.
  - assert (Hoc : is_open c) by (by inversion Ho; simplify_eq). by apply insert_ext.
  - apply insert_branch; [done|by split_and!|done..].
  - inversion Ho.
Qed.

End Insert.
