(* ===== verification/StackTheorems.v ===== *)
(** * The stack trie computes the root hash of a map

    Keys that come in increasing order, none a prefix of another, give the same root hash
    as a trie with the same contents, and a committed stack trie writes every node of it. *)

From stdpp Require Import gmap strings sorting.
From S2P Require Import Prelude VMCommon Rlp RlpCodec StateTypes TrieEncoding TrieNode TrieHasher TrieTree TrieCodec Trie TrieSim TrieUpdate TrieMap TrieTheorems TrieCommit StackTrie StackSim Demo.
Import Rlp.

Abbreviation kvs_map kvs := (list_to_map kvs : bmap).

(** The order in which keys must be fed. *)
Definition in_order (kvs : list (list Z * list Z)) : Prop := StronglySorted (fun a b => before (fst a) (fst b)) kvs.

Lemma before_irrefl k : ~ before k k.
Proof. intros (p & x & a & y & b & -> & He & Hlt). apply app_inv_head in He. injection He as -> _. lia. Qed.

(** The order of the keys is that of their nibbles. *)
Lemma before_nibbles k k' : before k k' -> before (nibbles k) (nibbles k').
Proof.
  intros (p & x & a & y & b & -> & -> & Hlt). unfold nibbles. rewrite !flat_map_app. cbn [flat_map app]. destruct (decide (x / 16 = y / 16)) as [He|Hne].
  - rewrite He. exists (flat_map (fun b => [b / 16; b mod 16]) p ++ [y / 16]), (x mod 16), (flat_map (fun b => [b / 16; b mod 16]) a), (y mod 16), (flat_map (fun b => [b / 16; b mod 16]) b).
    rewrite <- !app_assoc. split_and!; [done|done|]. Z.div_mod_to_equations. lia.
  - eexists _, _, _, _, _. split_and!; [reflexivity|reflexivity|]. Z.div_mod_to_equations. lia.
Qed.

Section Theorems.
Context {C : Crypto} {CS : CryptoSpec C}.

(** Feeding the entries one after the other. *)
Fixpoint Stack_Updates (kvs : list (list Z * list Z)) (st : StackTrie) : SM StackTrie :=
  match kvs with
  | [] => mret st
  | (k, v) :: kvs => let* st := Stack_Update k v st in Stack_Updates kvs st
  end.

Section Feed.
Context (owner : Z) (w : bool).

(** A stack trie that stands for a map and takes more keys. *)
Definition stacks (log : list node_write) (st : StackTrie) (m : bmap) : Prop :=
  match tree_of m with
  | None => st = NewStackTrieWithOwner w owner
  | Some t => srep owner w log [] st t /\ is_open st
  end.

Lemma tree_of_after m t k : map_ok m -> tree_of m = Some t -> (forall k' v', m !! k' = Some v' -> before k' k) -> after t (nibbles k).
Proof.
  intros Hm Ht Hall hex v Hh Hg. destruct (tree_of_spec m Hm) as [_ Hd]. rewrite Ht in Hd. assert (Hvk : valid_key (hex ++ [16])) by (by exists hex).
  destruct (proj1 (Hd _ v Hvk) Hg) as (k' & He & Hk' & Hmk). rewrite keybytesToHex_nibbles in He. apply app_inv_tail in He as ->. by eapply before_nibbles, Hall.
Qed.

Lemma update_stacks log st m k v : stacks log st m -> map_ok m -> entry_ok k v -> (forall k' v', m !! k' = Some v' -> before k' k) ->
  exists st' log', Stack_Update k v st log = Ret (st', log') /\ log ⊆ log' /\ stacks log' st' (<[k := v]> m).
Proof.
  intros Hst Hm He Hall. pose proof He as (Hk & Hv & Hne & _). assert (Hrun : Stack_Update k v st log = insert (S (length (keybytesToHex k))) st (nibbles k) v [] log).
  { unfold Stack_Update. rewrite (proj2 (Z.eqb_neq _ _)) by (destruct v; [done|]; rewrite Zlen_cons; pose proof (Zlen_nonneg v); lia). rewrite keybytesToHex_nibbles.
    f_equal. rewrite length_app. cbn [length]. rewrite Nat.add_sub. apply take_app_length. }
  rewrite Hrun. unfold stacks in *. rewrite tree_of_insert by done. rewrite keybytesToHex_nibbles. pose proof (tree_of_owf m Hm) as (Hw & Hb & _). destruct (tree_of_spec m Hm) as [Hwf _]. destruct (tree_of m) as [t|] eqn:Ht.
  - destruct Hst as [Hs Ho], Hwf as [_ Hvt]. destruct (stack_insert_sim owner w (S (length (nibbles k ++ [16]))) log [] st t (nibbles k) v Hs Ho Hw Hvt Hb (nibbles_ok k Hk)) as (st' & log' & E1 & S1 & Hs' & Ho').
    { by eapply tree_of_after. }
    { rewrite length_app. lia. }
    by exists st', log'.
  - subst st. eexists _, log. split; [reflexivity|]. split; [done|]. cbn [oinsert]. replace (tnew (nibbles k ++ [16]) (TValue v)) with (TShort (nibbles k ++ [16]) (TValue v)) by (by destruct (nibbles k)).
    split; [apply sr_leaf; by apply nibbles_ok|constructor].
Qed.

Lemma updates_stacks kvs : forall log st m, stacks log st m -> map_ok m -> Forall (fun kv => entry_ok (fst kv) (snd kv)) kvs -> in_order kvs ->
  (forall k v kv, m !! k = Some v -> kv ∈ kvs -> before k (fst kv)) ->
  exists st' log', Stack_Updates kvs st log = Ret (st', log') /\ stacks log' st' (kvs_map kvs ∪ m) /\ map_ok (kvs_map kvs ∪ m).
Proof.
  induction kvs as [|[k v] kvs IH]; intros log st m Hst Hm Hok Hord Hall; [eexists _, _; split; [reflexivity|]; change (kvs_map []) with (∅ : bmap); by rewrite map_empty_union|].
  apply Forall_cons_1 in Hok as [He Hok]. apply StronglySorted_inv in Hord as [Hord Hfirst]. assert (Hfst : forall kv, kv ∈ kvs -> before k (fst kv)) by (intros kv Hkv; by apply (proj1 (Forall_forall _ _) Hfirst), list_elem_of_In). cbn [fst snd] in *.
  destruct (update_stacks log st m k v Hst Hm He) as (st1 & log1 & E1 & _ & Hst1); [intros k' v' Hk'; apply (Hall k' v' (k, v) Hk'); apply list_elem_of_here|].
  destruct (IH log1 st1 (<[k := v]> m) Hst1 (map_ok_insert m k v Hm He) Hok Hord) as (st2 & log2 & E2 & Hst2 & Hm2).
  { intros k' v' kv Hk' Hin. apply lookup_insert_Some in Hk' as [[<- _]|[_ Hk']]; [by apply Hfst|]. apply (Hall k' v' kv Hk'). by apply list_elem_of_further. }
  assert (Hnone : kvs_map kvs !! k = None).
  { apply not_elem_of_list_to_map_1. intros ([k' v'] & -> & Hin)%list_elem_of_fmap. by apply (before_irrefl k'), (Hfst (k', v')). }
  exists st2, log2. cbn [Stack_Updates]. mrun. rewrite E1. mrun. split; [done|]. change (kvs_map ((k, v) :: kvs)) with (<[k := v]> (kvs_map kvs)). rewrite <- insert_union_l, insert_union_r by done. done.
Qed.

End Feed.

Lemma Zlen_thash t : Zlen (thash t) = 32.
Proof. unfold Zlen, thash. by rewrite (proj2 (hashData_bytes (tbytes t))). Qed.

(** The hash of the root node. *)
Lemma root_hashed owner w log st m : stacks owner w log st m -> map_ok m ->
  exists st' log', hashRec [] st log = Ret (st', log') /\ writeFn st = w /\ st_owner st' = owner /\
    match tree_of m with
    | None => val st' = HashBytes EmptyRootHash
    | Some t => val st' = node_val t /\ (w = true -> written owner log' [] t)
    end.
Proof.
  intros Hst Hm. pose proof (tree_of_owf m Hm) as (Hw & Hb & _). destruct (tree_of_spec m Hm) as [Hwf _]. unfold stacks in Hst. destruct (tree_of m) as [t|] eqn:Ht.
  - destruct Hst as [Hs Ho], Hwf as [_ Hvt]. destruct (hashRec_sim owner w log [] st t Hs Hw Hvt Hb log ltac:(done)) as (st' & log' & E & _ & k & cs & -> & Hwr). exists (mkStack owner hashedNode (node_val t) k cs w), log'. by destruct Hs.
  - subst st. by eexists _, _.
Qed.

Lemma fed owner w kvs : Forall (fun kv => entry_ok (fst kv) (snd kv)) kvs -> in_order kvs ->
  exists st log, Stack_Updates kvs (NewStackTrieWithOwner w owner) [] = Ret (st, log) /\ stacks owner w log st (kvs_map kvs) /\ map_ok (kvs_map kvs).
Proof.
  intros Hok Hord. destruct (updates_stacks owner w kvs [] (NewStackTrieWithOwner w owner) ∅) as (st & log & E & Hst & Hm); [done|apply map_Forall_empty|done|done|intros k v kv Hk; by rewrite lookup_empty in Hk|].
  rewrite map_union_empty in Hst, Hm. by exists st, log.
Qed.

(** The hash of a root that may be short. *)
Lemma root_val t : (if Zlen (node_val t) =? 32 then BytesToHash (node_val t) else Keccak256Hash (node_val t)) = Keccak256Hash (tbytes t).
Proof.
  unfold node_val. destruct (Z.ltb_spec (Zlen (tbytes t)) 32); [by rewrite (proj2 (Z.eqb_neq _ _)) by lia|]. rewrite Zlen_thash. cbn [Z.eqb Pos.eqb]. unfold thash. apply BytesToHash_hashData.
Qed.

Lemma empty_val : Zlen (HashBytes EmptyRootHash) = 32 /\ BytesToHash (HashBytes EmptyRootHash) = EmptyRootHash.
Proof. split; vm_compute; reflexivity. Qed.

Lemma stack_hash_root owner w log st m : stacks owner w log st m -> map_ok m -> exists st' log', Stack_Hash st log = Ret ((map_root m, st'), log').
Proof.
  intros Hst Hm. destruct (root_hashed _ _ _ _ _ Hst Hm) as (st' & log' & Eh & _ & _ & Hv). exists st', log'. unfold Stack_Hash, map_root. mrun. rewrite Eh. mrun.
  destruct (tree_of m) as [t|]; [destruct Hv as [-> _]; by rewrite root_val|]. rewrite Hv. destruct empty_val as [-> ->]. done.
Qed.

(** [C13] The stack trie computes the root hash of a map: entries fed in increasing order of
    their keys, none a prefix of another, all go in without panic, and [Hash] is the root
    hash of the map with these entries, the one that [Trie.Hash] returns. *)
Theorem stack_trie_root owner w kvs : Forall (fun kv => entry_ok (fst kv) (snd kv)) kvs -> in_order kvs ->
  exists st log st' log', Stack_Updates kvs (NewStackTrieWithOwner w owner) [] = Ret (st, log) /\ Stack_Hash st log = Ret ((map_root (kvs_map kvs), st'), log').
Proof.
  intros Hok Hord. destruct (fed owner w kvs Hok Hord) as (st & log & E & Hst & Hm). destruct (stack_hash_root _ _ _ _ _ Hst Hm) as (st' & log' & Eh). by exists st, log, st', log'.
Qed.

(** A store with the nodes that were written. *)
Definition has_writes (log : list node_write) (owner : Z) (new : trieReader) : Prop :=
  forall path hash blob, (owner, path, hash, blob) ∈ log -> reader_node new path hash = inr blob.

Lemma writes_stored owner log new t : twf t -> written owner log [] t -> has_writes log owner new -> (owner, [], BytesToHash (thash t), tbytes t) ∈ log -> stored new true true [] t.
Proof.
  intros Hw Hwr Hnew Hroot r u Hu Hv Hh. unfold answers. cbn [app]. case_decide as Hr.
  - subst r. rewrite (sub_nil_self t u Hw Hu). by rewrite (Hnew _ _ _ Hroot).
  - destruct Hh as [|Hl]; [done|]. pose proof (Hnew _ _ _ (Hwr r u Hu Hv Hl)) as Ha. cbn [app] in Ha. by rewrite Ha.
Qed.

(** A committed stack trie can be opened: [Commit] returns the root hash of the map of
    the entries, and a trie opened with this hash over a store that has the nodes written
    so far, during the updates or by [Commit], stands for that map. *)
Theorem stack_commit_opens owner kvs : Forall (fun kv => entry_ok (fst kv) (snd kv)) kvs -> in_order kvs -> proper_hashes (kvs_map kvs) ->
  exists st log st' log', Stack_Updates kvs (NewStackTrieWithOwner true owner) [] = Ret (st, log) /\ Stack_Commit st log = Ret ((Some (map_root (kvs_map kvs)), st'), log') /\
    forall id db new, id_Root id = map_root (kvs_map kvs) -> newTrieReader (id_StateRoot id) (id_Owner id) db = inr new -> has_writes log' owner new ->
      exists tr, New id db = Ret (inr tr) /\ represents true tr (kvs_map kvs).
Proof.
  intros Hok Hord Hp. destruct (fed owner true kvs Hok Hord) as (st & log & E & Hst & Hm). destruct (root_hashed _ _ _ _ _ Hst Hm) as (st' & log' & Eh & Hfn & Hown & Hv). exists st, log, st'.
  unfold proper_hashes, Stack_Commit, map_root in *. rewrite Hfn. cbn [negb]. mrun. rewrite Eh. mrun. pose proof (tree_of_owf _ Hm) as (Hw & _). destruct (tree_of (kvs_map kvs)) as [t|] eqn:Ht.
  - destruct Hv as [Hv Hwr], Hp as [Hne Hz]. specialize (Hwr eq_refl). pose proof (root_val t) as Hrv. rewrite <- Hv in Hrv.
    assert (Hself : (owner, [], BytesToHash (thash t), tbytes t) ∈ (if Zlen (val st') =? 32 then log' else log' ++ [(st_owner st', [], Keccak256Hash (val st'), val st')])).
    { rewrite Hv. unfold node_val. destruct (Z.ltb_spec (Zlen (tbytes t)) 32) as [Hl|Hl].
      - rewrite (proj2 (Z.eqb_neq _ _)) by lia. apply elem_of_app. right. unfold thash. rewrite BytesToHash_hashData, Hown. by apply list_elem_of_singleton.
      - rewrite Zlen_thash. cbn [Z.eqb Pos.eqb]. apply (Hwr [] t); [constructor| |done]. destruct (tree_of_spec _ Hm) as [Hwf _]. rewrite Ht in Hwf. apply Hwf. }
    exists (if Zlen (val st') =? 32 then log' else log' ++ [(st_owner st', [], Keccak256Hash (val st'), val st')]). split; [done|]. split; [destruct (Zlen (val st') =? 32); mrun; by rewrite Hrv|].
    intros id db new Hroot Hrd Hnew. apply (open_stored id db new _ t); try done; [rewrite Hroot; apply (Hz [] t); constructor|by rewrite Hroot|].
    eapply writes_stored; [done| |done|done]. eapply written_mono; [|done]. destruct (Zlen (val st') =? 32); set_solver.
  - rewrite Hv. destruct empty_val as [-> ->]. cbn [Z.eqb Pos.eqb]. eexists. split; [done|]. split; [done|]. intros id db new Hroot Hrd _. apply tree_of_None in Ht as ->; [|done]. by eapply open_empty.
Qed.

End Theorems.

(** ** Concrete entries *)

#[local] Existing Instance root_crypto.
#[local] Existing Instance root_crypto_ok.

(** Three keys that share nibbles. *)
Definition toy_kvs : list (list Z * list Z) := [([0x11; 0x12], [5]); ([0x11; 0x23], replicate 40 6); ([0x31], [7])].

Lemma toy_kvs_ok : Forall (fun kv => entry_ok (fst kv) (snd kv)) toy_kvs.
Proof. repeat constructor; unfold is_byte; try lia; try done; by apply Forall_replicate. Qed.

Lemma toy_kvs_order : in_order toy_kvs.
Proof.
  assert (H1 : before [0x11; 0x12] [0x11; 0x23]) by (exists [0x11], 0x12, [], 0x23, []; done).
  assert (H2 : forall x, before [0x11; x] [0x31]) by (intros x; exists [], 0x11, [x], 0x31, []; done).
  constructor; [constructor; [constructor; constructor|constructor; [apply H2|constructor]]|constructor; [exact H1|constructor; [apply H2|constructor]]].
Qed.

Lemma stack_trie_root_witness : exists st log st' log',
  Stack_Updates toy_kvs (NewStackTrieWithOwner false 0) [] = Ret (st, log) /\ Stack_Hash st log = Ret ((map_root (kvs_map toy_kvs), st'), log').
Proof. exact (stack_trie_root 0 false toy_kvs toy_kvs_ok toy_kvs_order). Defined.

(** One entry, with a store that has its node. *)
Lemma stack_commit_opens_witness : exists tr, New (TrieID toy_root) toy_db = Ret (inr tr) /\ represents true tr toy_map.
Proof.
  destruct (stack_commit_opens 0 [([1; 2], replicate 40 7)]) as (st & log & st' & log' & Hu & Hc & Hopen); [constructor; [apply (toy_map_ok [1; 2]); reflexivity|constructor]|constructor; constructor|exact toy_map_proper|].
  apply (Hopen (TrieID toy_root) toy_db (mkReader 0 (Some toy_reader) None)); [reflexivity|vm_compute; reflexivity|].
  assert (Hlog : log' = [(0, [], toy_root, tbytes toy_tree)]).
  { assert (Hrun : (match Stack_Updates [([1; 2], replicate 40 7)] (NewStackTrieWithOwner true 0) [] with Ret (st, log) => match Stack_Commit st log with Ret (_, log') => log' | _ => [] end | _ => [] end) = log') by (by rewrite Hu, Hc).
    rewrite <- Hrun. vm_compute. reflexivity. }
  rewrite Hlog. intros path hash blob Hin%list_elem_of_singleton. rewrite (f_equal (fun x => snd (fst (fst x))) Hin : path = []), (f_equal (fun x => snd (fst x)) Hin : hash = toy_root), (f_equal snd Hin : blob = tbytes toy_tree). vm_compute. reflexivity.
Defined.
