(* ===== verification/DeriveSha.v ===== *)
(** * Roots of lists (core/types/hashing.go)

    [DeriveSha] feeds the encodings of the elements of a list to a trie, under the RLP
    encoding of their index, and returns its hash.  The trie is an interface
    ([TrieHasher]) and so is the list ([DerivableList]); both are classes or records here,
    and the two tries of the package trie are instances. *)

From stdpp Require Import gmap.
From stdpp Require Import gmap strings sorting.
From S2P Require Import Prelude VMCommon Rlp RlpCodec StateTypes Demo TrieEncoding TrieTree TrieNode TrieHasher Trie TrieSim TrieMap TrieTheorems StackTrie StackSim StackTheorems.
Import Rlp.

(** The interface [TrieHasher].  [Update] returns whether it failed. *)
Class TrieHasher (S : Type) : Type := {
  th_Reset : M S unit;
  th_Update : list Z -> list Z -> M S bool;
  th_Hash : M S Z
}.

(** The interface [DerivableList]: [EncodeIndex] gives the bytes that are written. *)
Record DerivableList : Type := mkDerivable { Len : Z; EncodeIndex : Z -> outcome (list Z) }.

Section Derive.
Context {S : Type} {T : TrieHasher S}.

Definition encodeForDerive (l : DerivableList) (i : Z) : outcome (list Z) := EncodeIndex l i.

(** The body of the three loops; the error of [Update] is dropped. *)
Definition derive_put (l : DerivableList) (i : Z) : M S unit :=
  let indexBuf := Rlp.AppendUint64 [] i in
  let* value := mlift (encodeForDerive l i) in
  let* _ := th_Update indexBuf value in
  mret tt.

(** [n] rounds of a loop that starts at [i]. *)
Fixpoint derive_loop (l : DerivableList) (n : nat) (i : Z) : M S unit :=
  match n with
  | O => mret tt
  | Datatypes.S n => derive_put l i ;;; derive_loop l n (i + 1)
  end.

(** The first loop runs while [i < Len] and [i <= 0x7f]. *)
Definition DeriveSha (l : DerivableList) : M S Z :=
  th_Reset ;;;
  derive_loop l (Z.to_nat (Z.min (Len l) 0x80 - 1)) 1 ;;;
  (if Len l >? 0 then derive_put l 0 else mret tt) ;;;
  derive_loop l (Z.to_nat (Len l - 0x80)) 0x80 ;;;
  th_Hash.

End Derive.

(** ** The tries *)

Section Hashers.
Context {C : Crypto}.

(** A stack trie and what it wrote. *)
Definition stack_state : Type := StackTrie * list node_write.

Definition on_stack {A} (m : StackTrie -> SM (A * StackTrie)) : M stack_state A := fun s =>
  let! ((a, st), log) := m (fst s) (snd s) in Ret (a, (st, log)).

#[global] Instance stack_hasher : TrieHasher stack_state := {
  th_Reset := on_stack (fun st => mret (tt, Stack_Reset st));
  th_Update k v := on_stack (fun st => let* st := Stack_Update k v st in mret (false, st));
  th_Hash := on_stack Stack_Hash
}.

#[global] Instance trie_hasher : TrieHasher Trie := {
  th_Reset := mmodify Trie_Reset;
  th_Update k v := let* r := Update k v in mret (match r with inl _ => true | inr _ => false end);
  th_Hash := Hash
}.

End Hashers.

(** * The root of a list is the root of the map from indices to elements *)

(** ** The order of the indices *)

Lemma before_right p k q l : before p k -> before (p ++ q) (k ++ l).
Proof. intros (r & x & a & y & b & -> & -> & Hlt). exists r, x, (a ++ q), y, (b ++ l). by rewrite <- !app_assoc. Qed.

Lemma before_left p k q : before k q -> before (p ++ k) (p ++ q).
Proof. intros (r & x & a & y & b & -> & -> & Hlt). exists (p ++ r), x, a, y, b. by rewrite <- !app_assoc. Qed.

Lemma before_head x y k q : x < y -> before (x :: k) (y :: q).
Proof. intros Hlt. by exists [], x, k, y, q. Qed.

(** Integers of one length are ordered like their bytes. *)
Lemma before_bytes n : forall i j, 0 <= i < j -> j < 256 ^ Z.of_nat n -> before (Z_to_bytes n i) (Z_to_bytes n j).
Proof.
  induction n as [|n IH]; intros i j Hij Hj; [cbn in Hj; lia|]. cbn [Z_to_bytes]. rewrite Nat2Z.inj_succ, Z.pow_succ_r in Hj by lia. destruct (decide (i / 256 = j / 256)) as [He|Hne].
  - rewrite He. apply before_left, before_head. Z.div_mod_to_equations. lia.
  - apply before_right, IH; Z.div_mod_to_equations; lia.
Qed.

Lemma key_large i : 128 <= i -> in64 i -> exists n, (1 <= n <= 8)%nat /\ AppendUint64 [] i = (128 + Z.of_nat n) :: Z_to_bytes n i /\ i < 256 ^ Z.of_nat n /\ (n = 1%nat \/ 256 ^ (Z.of_nat n - 1) <= i).
Proof.
  intros Hi H64. destruct (putint_spec i H64) as (n & Hn & Hp & Hlt & Hge). exists n. split_and!; [lia|lia| |done|done]. rewrite AppendUint64_enc by done. cbn [app]. unfold uint_bytes. rewrite (proj2 (Z.eqb_neq i 0)) by lia. rewrite Hp.
  unfold enc_str. assert (Hl : Zlen (Z_to_bytes n i) = Z.of_nat n) by (unfold Zlen; by rewrite length_Z_to_bytes).
  assert (Hh : puthead 0x80 0xB7 (Zlen (Z_to_bytes n i)) = [128 + Z.of_nat n]).
  { unfold puthead. rewrite Hl, (proj2 (Z.ltb_lt _ _)) by lia. unfold byte_of. by rewrite !Z.mod_small by (rewrite ?Z.mod_small; lia). }
  destruct (Z_to_bytes n i) as [|x [|y l]] eqn:Hb; [by rewrite Hh| |by rewrite Hh].
  assert (n = 1%nat) as -> by (unfold Zlen in Hl; cbn in Hl; lia). cbn in Hb. injection Hb as <-. cbn in Hlt. rewrite Z.mod_small by lia. by rewrite (proj2 (Z.leb_gt _ _)) by lia.
Qed.

(** The order in which [DeriveSha] takes the indices. *)
Definition derive_before (i j : Z) : Prop := (1 <= i < 128 /\ (i < j \/ j = 0)) \/ (i = 0 /\ 128 <= j) \/ (128 <= i < j).

Lemma key_zero : AppendUint64 [] 0 = [128].
Proof. done. Qed.

Lemma key_small i : 1 <= i < 128 -> AppendUint64 [] i = [i].
Proof. intros Hi. unfold AppendUint64. rewrite (proj2 (Z.eqb_neq _ _)), (proj2 (Z.ltb_lt _ _)) by lia. unfold byte_of. by rewrite Z.mod_small by lia. Qed.

Lemma index_before i j : in64 i -> in64 j -> derive_before i j -> before (AppendUint64 [] i) (AppendUint64 [] j).
Proof.
  intros Hi Hj [[H1 H2]|[[-> H2]|H2]].
  - rewrite (key_small i) by lia. destruct H2 as [H2| ->]; [|rewrite key_zero; apply before_head; lia]. destruct (decide (j < 128)) as [Hlt|Hge]; [rewrite key_small by lia; by apply before_head|].
    destruct (key_large j ltac:(lia) Hj) as (n & Hn & -> & _). apply before_head. lia.
  - rewrite key_zero. destruct (key_large j ltac:(lia) Hj) as (n & Hn & -> & _). apply before_head. lia.
  - destruct (key_large i ltac:(lia) Hi) as (n & Hn & -> & _ & Hge). destruct (key_large j ltac:(lia) Hj) as (n' & Hn' & -> & Hlt & _).
    destruct (decide (n = n')) as [<- |Hne]; [apply (before_left [_]), before_bytes; lia|]. apply before_head. assert (~ (n' < n)%nat); [|lia]. intros Hnn.
    assert (Hpow : 256 ^ Z.of_nat n' <= 256 ^ (Z.of_nat n - 1)) by (apply Z.pow_le_mono_r; lia). lia.
Qed.

Lemma derive_before_total i j : 0 <= i -> 0 <= j -> i <> j -> derive_before i j \/ derive_before j i.
Proof. unfold derive_before. lia. Qed.

(** Different indices have different keys. *)
Lemma key_inj i j : in64 i -> in64 j -> AppendUint64 [] i = AppendUint64 [] j -> i = j.
Proof.
  intros Hi Hj He. unfold in64 in *. destruct (decide (i = j)) as [|Hne]; [done|]. destruct (derive_before_total i j) as [Hb|Hb]; try lia; apply index_before in Hb; try done; rewrite He in Hb; by apply before_irrefl in Hb.
Qed.

Lemma key_bytes i : in64 i -> Forall is_byte (AppendUint64 [] i) /\ Zlen (AppendUint64 [] i) < 2 ^ 56.
Proof.
  intros Hi. unfold in64 in Hi. destruct (decide (i = 0)) as [-> |Hne]; [rewrite key_zero; split; [repeat constructor; unfold is_byte; lia|done]|]. destruct (decide (i < 128)) as [Hlt|Hge].
  - rewrite key_small by lia. split; [repeat constructor; unfold is_byte; lia|done].
  - destruct (key_large i ltac:(lia) Hi) as (n & Hn & -> & _). split; [constructor; [unfold is_byte; lia|apply Z_to_bytes_byte]|]. rewrite Zlen_cons. unfold Zlen. rewrite length_Z_to_bytes. lia.
Qed.

(** The indices of a list, in the order in which they are taken. *)
Definition derive_order (len : Z) : list Z := seqZ 1 (Z.min len 0x80 - 1) ++ (if len >? 0 then [0] else []) ++ seqZ 0x80 (len - 0x80).

Lemma elem_of_derive_order len i : i ∈ derive_order len <-> 0 <= i < len.
Proof.
  unfold derive_order. rewrite !elem_of_app, !elem_of_seqZ. assert (H0 : i ∈ (if len >? 0 then [0] else []) <-> i = 0 /\ 0 < len).
  { destruct (Z.gtb_spec len 0); [rewrite list_elem_of_singleton; lia|]. split; [by intros ?%not_elem_of_nil|lia]. }
  rewrite H0. lia.
Qed.

Lemma seqZ_sorted (R : Z -> Z -> Prop) n : forall i, (forall x y, i <= x < y -> y < i + Z.of_nat n -> R x y) -> StronglySorted R (seqZ i (Z.of_nat n)).
Proof.
  induction n as [|n IH]; intros i HR; [constructor|]. rewrite seqZ_cons by lia. replace (Z.pred (Z.of_nat (S n))) with (Z.of_nat n) by lia. constructor; [apply IH; intros; apply HR; lia|].
  apply List.Forall_forall. intros y Hy%list_elem_of_In%elem_of_seqZ. apply HR; lia.
Qed.

Lemma sorted_app {A} (R : A -> A -> Prop) l1 l2 : StronglySorted R l1 -> StronglySorted R l2 -> (forall x y, x ∈ l1 -> y ∈ l2 -> R x y) -> StronglySorted R (l1 ++ l2).
Proof.
  induction 1 as [|x l1 H1 IH Hf]; intros H2 Hx; [done|]. cbn. constructor; [apply IH; [done|]; intros; apply Hx; [by apply list_elem_of_further|done]|].
  apply List.Forall_app. split; [done|]. apply List.Forall_forall. intros y Hy%list_elem_of_In. apply Hx; [apply list_elem_of_here|done].
Qed.

Lemma derive_order_sorted len : StronglySorted derive_before (derive_order len).
Proof.
  assert (Hseq : forall i n, 1 <= i -> (i + n <= 128 \/ 128 <= i) -> StronglySorted derive_before (seqZ i n)).
  { intros i n Hi Hn. destruct (decide (n <= 0)); [rewrite seqZ_nil by lia; constructor|]. rewrite <- (Z2Nat.id n) by lia. apply seqZ_sorted. unfold derive_before. lia. }
  unfold derive_order. apply sorted_app; [apply Hseq; lia|apply sorted_app; [destruct (len >? 0); repeat constructor|apply Hseq; lia|]|].
  - intros x y Hx Hy%elem_of_seqZ. destruct (len >? 0); [apply list_elem_of_singleton in Hx as ->|by apply not_elem_of_nil in Hx]. right. left. lia.
  - intros x y Hx%elem_of_seqZ [Hy|Hy%elem_of_seqZ]%elem_of_app; left; (split; [lia|]); [|lia]. destruct (len >? 0); [apply list_elem_of_singleton in Hy as ->; by right|by apply not_elem_of_nil in Hy].
Qed.

(** ** The contract of a hasher *)

Section Contract.
Context {C : Crypto} {CS : CryptoSpec C}.

(** What [DeriveSha] needs of a [TrieHasher]: after [Reset] it is empty, it takes entries in
    the order of their keys, and its hash is the root hash of what it has. *)
Class TrieHasherSpec (S : Type) (T : TrieHasher S) : Type := {
  th_rep : S -> bmap -> Prop;
  th_reset_spec : forall s, exists s', th_Reset s = Ret (tt, s') /\ th_rep s' ∅;
  th_update_spec : forall s m k v, th_rep s m -> entry_ok k v -> (forall k' v', m !! k' = Some v' -> before k' k) ->
    exists s', th_Update k v s = Ret (false, s') /\ th_rep s' (<[k := v]> m);
  th_hash_spec : forall s m, th_rep s m -> exists s', th_Hash s = Ret (map_root m, s')
}.

#[global] Program Instance stack_hasher_spec : TrieHasherSpec stack_state stack_hasher := {
  th_rep s m := map_ok m /\ stacks 0 false (snd s) (fst s) m
}.
Next Obligation. intros [st log]. eexists. split; [reflexivity|]. split; [apply map_Forall_empty|done]. Qed.
Next Obligation.
  intros [st log] m k v [Hm Hs] He Hall. destruct (update_stacks 0 false log st m k v Hs Hm He Hall) as (st' & log' & E & _ & Hs'). exists (st', log').
  cbn. unfold on_stack. mrun. rewrite E. mrun. split; [done|]. split; [by apply map_ok_insert|done].
Qed.
Next Obligation.
  intros [st log] m [Hm Hs]. destruct (stack_hash_root 0 false log st m Hs Hm) as (st' & log' & E). exists (st', log'). cbn. unfold on_stack. cbn [fst snd]. by rewrite E.
Qed.

#[global] Program Instance trie_hasher_spec : TrieHasherSpec Trie trie_hasher := { th_rep := represents true }.
Next Obligation. intros tr. eexists. split; [reflexivity|]. split; [done|apply map_Forall_empty|exists true; constructor|done]. Qed.
Next Obligation.
  intros tr m k v Hr He _. destruct He as (Hk & Hv & Hne & Hl). destruct (op_follows true (OpUpdate k v) tr m Hr) as (r & tr' & E & Hres); [by split|]. destruct r as [e|a]; [by destruct Hres|]. exists tr'.
  unfold run_op in E. cbn [th_Update trie_hasher]. mrun. unfold mthen in E. destruct (Update k v tr) as [[r tr1]| |]; [|done|done]. cbn [obind fst snd] in *. destruct r; [done|]. injection E as _ <-. split; [done|]. destruct Hres as [_ Hres]. by destruct v.
Qed.
Next Obligation. intros tr m Hr. destruct (hash_root true tr m Hr) as (tr' & E & _). by exists tr'. Qed.

(** ** The root of a list *)

(** A list whose elements have these encodings. *)
Record encodes (l : DerivableList) (vs : list (list Z)) : Prop := {
  enc_len : Len l = Zlen vs;
  enc_at : forall i v, vs !! i = Some v -> EncodeIndex l (Z.of_nat i) = Ret v;
  enc_small : Zlen vs < 2 ^ 63
}.

Definition value_ok (v : list Z) : Prop := Forall is_byte v /\ v <> [] /\ Zlen v < 2 ^ 58.

(** The map from the keys of the indices to the elements. *)
Definition index_map (vs : list (list Z)) : bmap := list_to_map (imap (fun i v => (AppendUint64 [] (Z.of_nat i), v)) vs).

Lemma index_entry i v : in64 i -> value_ok v -> entry_ok (AppendUint64 [] i) v.
Proof. intros Hi (Hb & Hne & Hl). destruct (key_bytes i Hi) as [Hk Hkl]. by split_and!. Qed.

(** Looking up an element. *)
Lemma index_map_lookup vs k v : Zlen vs < 2 ^ 63 -> index_map vs !! k = Some v <-> exists i, k = AppendUint64 [] (Z.of_nat i) /\ vs !! i = Some v.
Proof.
  intros Hs. unfold index_map. assert (Hin : forall i w, vs !! i = Some w -> in64 (Z.of_nat i)) by (intros i w Hi%lookup_lt_Some; unfold in64; unfold Zlen in Hs; lia).
  rewrite <- elem_of_list_to_map.
  - rewrite elem_of_lookup_imap. split; [intros (i & w & [= -> ->] & Hi); by exists i|intros (i & -> & Hi); by exists i, v].
  - apply NoDup_alt. intros i j k' Hi Hj. rewrite list_lookup_fmap, list_lookup_imap in Hi, Hj. destruct (vs !! i) as [w|] eqn:Ei, (vs !! j) as [w'|] eqn:Ej; try done. cbn in Hi, Hj. injection Hi as <-. injection Hj as Hj.
    apply key_inj in Hj; [lia|by eapply Hin|by eapply Hin].
Qed.

Section Hasher.
Context {S : Type} {T : TrieHasher S} {TS : TrieHasherSpec S T}.

(** The three loops as one. *)
Fixpoint derive_all (l : DerivableList) (ixs : list Z) : M S unit :=
  match ixs with [] => mret tt | i :: ixs => derive_put l i ;;; derive_all l ixs end.

Lemma derive_all_app l ixs1 ixs2 s : derive_all l (ixs1 ++ ixs2) s = (derive_all l ixs1 ;;; derive_all l ixs2) s.
Proof. revert s. induction ixs1 as [|i ixs1 IH]; intros s; [done|]. cbn [derive_all app]. mrun. destruct (derive_put l i s) as [[[] s1]| |]; [|done|done]. cbn [obind fst snd]. by rewrite IH. Qed.

Lemma derive_loop_all l n : forall i s, derive_loop l (Z.to_nat n) i s = derive_all l (seqZ i n) s.
Proof.
  unfold seqZ. generalize (Z.to_nat n). clear n. induction n as [|n IH]; intros i s; [done|]. cbn [derive_loop seq fmap list_fmap derive_all]. rewrite <- fmap_S_seq, <- list_fmap_compose. replace (Z.of_nat 0 + i) with i by lia.
  mrun. destruct (derive_put l i s) as [[[] s1]| |]; [|done|done]. cbn [obind fst snd]. rewrite IH. apply (f_equal (fun x => derive_all l x s1)). apply list_fmap_ext. intros ? x _. cbn. lia.
Qed.

(** Feeding elements in their order. *)
Lemma derive_all_fed l vs : encodes l vs -> Forall value_ok vs -> forall ixs s m, th_rep s m -> (forall i, i ∈ ixs -> 0 <= i < Zlen vs) -> StronglySorted derive_before ixs ->
  (forall k v i, m !! k = Some v -> i ∈ ixs -> before k (AppendUint64 [] i)) ->
  exists s' m', derive_all l ixs s = Ret (tt, s') /\ th_rep s' m' /\
    forall k v, m' !! k = Some v <-> m !! k = Some v \/ exists i, i ∈ ixs /\ k = AppendUint64 [] i /\ vs !! Z.to_nat i = Some v.
Proof.
  intros He Hok. assert (H64 : forall i, 0 <= i < Zlen vs -> in64 i) by (intros i Hi; pose proof (enc_small _ _ He); unfold in64; lia).
  induction ixs as [|i ixs IH]; intros s m Hr Hin Hs Hall; [exists s, m; split_and!; [done|done|]; intros k v; split; [by left|intros [|(i & Hi%not_elem_of_nil & _)]; done]|].
  pose proof (Hin i (list_elem_of_here _ _)) as Hi. destruct (lookup_lt_is_Some_2 vs (Z.to_nat i)) as [v Hv]; [unfold Zlen in Hi; lia|]. pose proof (enc_at _ _ He _ _ Hv) as Hev. rewrite Z2Nat.id in Hev by lia.
  assert (Hvok : value_ok v) by (by eapply Forall_lookup_1). apply StronglySorted_inv in Hs as [Hs Hfirst].
  assert (Hnext : forall j, j ∈ ixs -> before (AppendUint64 [] i) (AppendUint64 [] j)).
  { intros j Hj. apply index_before; [by apply H64|by apply H64, Hin, list_elem_of_further|]. by apply (proj1 (List.Forall_forall _ _) Hfirst), list_elem_of_In. }
  destruct (th_update_spec s m (AppendUint64 [] i) v Hr (index_entry i v (H64 i Hi) Hvok)) as (s1 & E1 & Hr1); [intros k' v' Hk'; apply (Hall k' v' i Hk'), list_elem_of_here|].
  destruct (IH s1 (<[AppendUint64 [] i := v]> m) Hr1) as (s2 & m2 & E2 & Hr2 & Hm2); [intros j Hj; by apply Hin, list_elem_of_further|done| |].
  { intros k w j [[<- _]|[_ Hk]]%lookup_insert_Some Hj; [by apply Hnext|]. eapply Hall; [done|by apply list_elem_of_further]. }
  exists s2, m2. split_and!; [|done|].
  - cbn [derive_all]. unfold derive_put, encodeForDerive, mlift. mrun. rewrite Hev. mrun. rewrite E1. mrun. exact E2.
  - intros k w. rewrite Hm2, lookup_insert_Some. assert (Hmi : m !! AppendUint64 [] i = None).
    { destruct (m !! _) as [u|] eqn:Hu; [|done]. by pose proof (before_irrefl _ (Hall _ _ i Hu (list_elem_of_here _ _))). }
    split; [intros [[[<- <-]|[Hne Hk]]|(j & Hj & -> & Hw)]|intros [Hk|(j & [-> |Hj]%elem_of_cons & -> & Hw)]].
    + right. exists i. split_and!; [apply list_elem_of_here|done|done].
    + by left.
    + right. exists j. split_and!; [by apply list_elem_of_further|done|done].
    + left. right. split; [intros <-; congruence|done].
    + left. left. split; [done|congruence].
    + right. by exists j.
Qed.

Lemma derive_root l vs s : encodes l vs -> Forall value_ok vs -> exists s', DeriveSha l s = Ret (map_root (index_map vs), s').
Proof.
  intros He Hok. destruct (th_reset_spec s) as (s0 & E0 & Hr0). destruct (derive_all_fed l vs He Hok (derive_order (Zlen vs)) s0 ∅ Hr0) as (s1 & m & E1 & Hr1 & Hm).
  { intros i Hi. by apply elem_of_derive_order. }
  { apply derive_order_sorted. }
  { intros k v i Hk. by rewrite lookup_empty in Hk. }
  assert (m = index_map vs) as ->.
  { apply map_eq. intros k. apply option_eq. intros v. rewrite Hm, index_map_lookup, lookup_empty by (by eapply enc_small). split.
    - intros [|(i & Hi%elem_of_derive_order & -> & Hv)]; [done|]. exists (Z.to_nat i). by rewrite Z2Nat.id by lia.
    - intros (i & -> & Hv). right. exists (Z.of_nat i). rewrite Nat2Z.id. split_and!; [|done|done]. apply elem_of_derive_order. apply lookup_lt_Some in Hv. unfold Zlen. lia. }
  destruct (th_hash_spec s1 _ Hr1) as (s2 & E2). exists s2. unfold DeriveSha. mrun. rewrite E0. mrun. rewrite <- (enc_len _ _ He) in E1. unfold derive_order in E1. rewrite !derive_all_app in E1. unfold mthen in E1. rewrite derive_loop_all.
  destruct (derive_all l (seqZ 1 (Z.min (Len l) 128 - 1)) s0) as [[u1 t1]| |]; [|done|done]. cbn [obind fst snd] in *. rewrite derive_all_app in E1. unfold mthen in E1.
  assert (Hzero : (if Len l >? 0 then derive_put l 0 else fun s => Ret (tt, s)) t1 = derive_all l (if Len l >? 0 then [0] else []) t1).
  { destruct (Len l >? 0); [|done]. cbn [derive_all]. mrun. by destruct (derive_put l 0 t1) as [[[] ?]| |]. }
  rewrite Hzero. destruct (derive_all l (if Len l >? 0 then [0] else []) t1) as [[u2 t2]| |]; [|done|done]. cbn [obind fst snd] in *. rewrite derive_loop_all, E1. cbn [obind fst snd]. exact E2.
Qed.

End Hasher.

(** [C24] The two tries give a list the same root, whatever state they were in: [DeriveSha]
    with a stack trie, which needs the indices in the order of their encodings, and with
    an ordinary trie both end without panic and return the root hash of the map from the
    RLP encodings of the indices to the encodings of the elements. *)
Theorem derive_sha_root l vs (st : stack_state) (tr : Trie) : encodes l vs -> Forall value_ok vs ->
  exists st' tr', DeriveSha l st = Ret (map_root (index_map vs), st') /\ DeriveSha l tr = Ret (map_root (index_map vs), tr').
Proof.
  intros He Hok. destruct (derive_root l vs st He Hok) as (st' & E1). destruct (derive_root l vs tr He Hok) as (tr' & E2). by exists st', tr'.
Qed.

(** ** The root determines the list *)

Lemma index_map_ok vs : Zlen vs < 2 ^ 63 -> Forall value_ok vs -> map_ok (index_map vs).
Proof.
  intros Hs Hok k v (i & -> & Hi)%index_map_lookup; [|done]. apply index_entry; [|by eapply Forall_lookup_1]. apply lookup_lt_Some in Hi. unfold in64. unfold Zlen in Hs. lia.
Qed.

Lemma index_map_inj vs vs' : Zlen vs < 2 ^ 63 -> Zlen vs' < 2 ^ 63 -> index_map vs = index_map vs' -> vs = vs'.
Proof.
  assert (Hhalf : forall vs vs' i v, Zlen vs < 2 ^ 63 -> Zlen vs' < 2 ^ 63 -> index_map vs = index_map vs' -> vs !! i = Some v -> vs' !! i = Some v).
  { clear. intros vs vs' i v Hs Hs' He Hi. assert (Hk : index_map vs' !! AppendUint64 [] (Z.of_nat i) = Some v) by (rewrite <- He; apply index_map_lookup; [done|by exists i]).
    apply index_map_lookup in Hk as (j & Hj & Hv); [|done]. apply lookup_lt_Some in Hi as Hil. apply lookup_lt_Some in Hv as Hjl. unfold Zlen in *. apply key_inj in Hj; [|unfold in64; lia..]. by replace i with j by lia. }
  intros Hs Hs' He. apply list_eq. intros i. apply option_eq. intros v. split; intros Hi; [by apply (Hhalf vs vs')|by apply (Hhalf vs' vs)].
Qed.

(** Lists with one root have the same elements, unless nodes of the tries collide. *)
Lemma derive_binding vs vs' : empty_root_known -> Zlen vs < 2 ^ 63 -> Zlen vs' < 2 ^ 63 -> Forall value_ok vs -> Forall value_ok vs' ->
  map_root (index_map vs) = map_root (index_map vs') -> vs = vs' \/ root_collision (index_map vs) (index_map vs').
Proof.
  intros Hemp Hs Hs' Hok Hok' He. destruct (map_root_inj _ _ Hemp (index_map_ok vs Hs Hok) (index_map_ok vs' Hs' Hok') He) as [Hm|]; [left; by apply index_map_inj|by right].
Qed.

End Contract.

(** ** A concrete list *)

#[local] Existing Instance root_crypto.
#[local] Existing Instance root_crypto_ok.

(** More elements than one byte of index covers. *)
Definition toy_values : list (list Z) := replicate 130 [1; 2; 3].
Definition toy_list : DerivableList := mkDerivable 130 (fun i => if (0 <=? i) && (i <? 130) then Ret [1; 2; 3] else Panic).

Lemma toy_list_encodes : encodes toy_list toy_values.
Proof.
  split; [reflexivity| |vm_compute; reflexivity]. intros i v [-> Hi]%lookup_replicate. cbn. rewrite (proj2 (Z.leb_le _ _)), (proj2 (Z.ltb_lt _ _)) by lia. done.
Qed.

Lemma derive_sha_root_witness : exists st' tr',
  DeriveSha toy_list (NewStackTrie false, []) = Ret (map_root (index_map toy_values), st') /\ DeriveSha toy_list toy_trie = Ret (map_root (index_map toy_values), tr').
Proof. apply (derive_sha_root toy_list toy_values (NewStackTrie false, []) toy_trie toy_list_encodes). apply Forall_replicate. split; [repeat constructor; unfold is_byte; lia|done]. Defined.
