(* ===== verification/Receipts.v ===== *)
(** * Receipts (core/types/receipt.go, log.go, gen_log_rlp.go)

    The consensus encoding of receipts, their encoding in the database, and the three
    lists whose root goes into a header (transaction.go, receipt.go, withdrawal.go); first
    what generated encoders write. *)

From S2P Require Import Prelude VMCommon Rlp RlpStream RlpCodec RlpTyped RlpTypes StateTypes Demo Transactions TxTheorems Bloom Blocks BlockTheorems HashFn Processor DeriveSha.
Import Rlp Decode Encode.

(** ** What generated encoders write

    A writer may fill the buffer in different ways for the same bytes: an empty list is
    one byte of string data for the reflective encoder and a header for the generated one.
    [emits w e] says that a writer adds to any buffer what renders as [e]. *)

Definition emits (w : W) (e : list Z) : Prop := forall buf, exists s hs, w buf = Ret (inr (written buf s hs (Zlen e))) /\
  forall pre post hs', Zlen pre = Zlen (str buf) -> ordered (Zlen pre + Zlen s) hs' (Zlen (pre ++ s ++ post)) ->
    ordered (Zlen pre) (hs ++ hs') (Zlen (pre ++ s ++ post)) /\
    render (hs ++ hs') (pre ++ s ++ post) (Zlen pre) = e ++ render hs' (pre ++ s ++ post) (Zlen pre + Zlen s).

Lemma emits_item w it : Zlen (enc it) < 2 ^ 64 -> (forall buf, w buf = wr it buf) -> emits w (enc it).
Proof.
  intros Hl Hw buf. exists (strs it), (heads (Zlen (str buf)) it). split; [rewrite Hw; unfold wr; by rewrite (write_item_spec it buf Hl)|].
  intros pre post hs' Hp Ho. rewrite <- Hp. split; [by apply heads_ordered_all|by apply renders_all].
Qed.

Lemma written_twice buf s hs n s' hs' n' : written (written buf s hs n) s' hs' n' = written buf (s ++ s') (hs ++ hs') (n + n').
Proof. unfold written. cbn [str lheads lhsize]. rewrite <- !app_assoc, Zlen_app. f_equal. lia. Qed.

Lemma emits_then w e w' e' : emits w e -> emits w' e' -> emits (wthen w w') (e ++ e').
Proof.
  intros H1 H2 buf. destruct (H1 buf) as (s & hs & E1 & R1). destruct (H2 (written buf s hs (Zlen e))) as (s' & hs' & E2 & R2). exists (s ++ s'), (hs ++ hs'). split.
  - unfold wthen. rewrite E1. cbn [obind]. by rewrite E2, written_twice, Zlen_app.
  - intros pre post hs0 Hp Ho. cbn [written str] in R2. specialize (R2 (pre ++ s) post hs0). rewrite <- !app_assoc in *. rewrite (Zlen_app pre s) in R2. rewrite (Zlen_app s s'), Z.add_assoc in Ho |- *.
    destruct R2 as [O2 R2]; [rewrite Zlen_app; lia|done|]. destruct (R1 pre (s' ++ post) (hs' ++ hs0) Hp O2) as [O1 R1']. split; [done|]. by rewrite R1', R2.
Qed.

Lemma emits_nothing : emits (wok id) [].
Proof.
  intros buf. exists [], []. split; [unfold wok, written, id; destruct buf; cbn [str lheads lhsize]; rewrite !app_nil_r; change (Zlen []) with 0; do 3 f_equal; lia|].
  intros pre post hs' _ Ho. cbn [app]. change (Zlen []) with 0 in *. by rewrite Z.add_0_r in *.
Qed.

Lemma emits_all ws es : Forall2 emits ws es -> emits (wall ws) (concat es).
Proof. induction 1 as [|w e ws es Hw _ IH]; [apply emits_nothing|]. cbn [wall concat]. by apply emits_then. Qed.

Lemma emits_list w e : Zlen e < 2 ^ 64 -> emits w e -> emits (wlist w) (puthead 0xC0 0xF7 (Zlen e) ++ e).
Proof.
  intros Hl Hw buf. pose proof (Zlen_nonneg e) as He. set (h0 := mkHead (Zlen (str buf)) (lhsize buf)). destruct (Hw (mkBuf (str buf) (lheads buf ++ [h0]) (lhsize buf))) as (s & hs & E & R).
  exists s, (mkHead (Zlen (str buf)) (Zlen e) :: hs). split.
  - unfold wlist, list_begin. fold h0. rewrite E. cbn [obind]. unfold listEnd, written. cbn [lheads str lhsize]. rewrite <- !app_assoc. cbn [app].
    assert (Hi : go_index (lheads buf ++ h0 :: hs) (Zlen (lheads buf)) = Ret h0) by (unfold go_index, Zlen; rewrite (proj2 (Z.leb_le _ _)), Nat2Z.id by lia; by rewrite list_lookup_middle).
    rewrite Hi. cbn [obind]. unfold buf_size. cbn [str lhsize]. replace (_ - offset h0 - size h0) with (Zlen e) by (unfold h0; cbn [offset size]; rewrite Zlen_app; lia).
    unfold go_set. rewrite (proj2 (Z.leb_le _ _)) by apply Zlen_nonneg. rewrite (proj2 (Z.ltb_lt _ _)) by (rewrite Zlen_app, Zlen_cons; pose proof (Zlen_nonneg hs); lia). cbn [andb obind].
    rewrite Zlen_app, (Zlen_puthead _ _ (Zlen e)) by lia. rewrite u64_small by (unfold in64; lia). do 3 f_equal.
    + unfold Zlen at 1. rewrite Nat2Z.id. rewrite insert_app_r_alt, Nat.sub_diag by lia. done.
    + unfold headsize. destruct (Zlen e <? 56); lia.
  - intros pre post hs' Hp Ho. cbn [str] in R. destruct (R pre post hs' Hp Ho) as [O1 R1]. cbn [app ordered render offset]. rewrite <- Hp. split; [split; [lia|done]|].
    unfold piece at 1. rewrite Z.sub_diag. cbn [Z.to_nat take app]. rewrite R1. unfold listhead_encode. cbn [size]. rewrite u64_small by (unfold in64; lia). by rewrite <- app_assoc.
Qed.

(** The bytes that an encoder returns. *)
Lemma encodeWith_emits w e : emits w e -> encodeWith w = Ret (inr e).
Proof.
  intros Hw. destruct (Hw reset) as (s & hs & E & R). unfold encodeWith. rewrite E. cbn [obind]. destruct (R [] [] [] eq_refl) as [O1 R1]; [cbn; change (Zlen []) with 0; rewrite app_nil_r; lia|].
  cbn [app] in *. rewrite !app_nil_r in *. change (Zlen []) with 0 in *. rewrite Z.add_0_l in R1. assert (Hd : render [] s (Zlen s) = []) by (cbn; unfold Zlen; rewrite Nat2Z.id; apply drop_all). rewrite Hd, app_nil_r in R1.
  unfold makeBytes, copyTo, written, buf_size. cbn [str lheads lhsize reset app]. rewrite <- R1 at 2. rewrite <- (app_nil_l (replicate _ _)). rewrite (copyTo_loop_render hs s []); [done|lia|done|].
  unfold Zlen at 1. rewrite length_replicate, R1. pose proof (Zlen_nonneg e). lia.
Qed.

(** The item of a list whose elements are emitted. *)
Lemma emits_Lst ws its : Zlen (enc (Lst its)) < 2 ^ 64 -> Forall2 (fun w it => emits w (enc it)) ws its -> emits (wlist (wall ws)) (enc (Lst its)).
Proof.
  intros Hl Hws. cbn [enc]. apply emits_list; [cbn [enc] in Hl; rewrite Zlen_app in Hl; pose proof (Zlen_nonneg (puthead 0xC0 0xF7 (Zlen (concat (map enc its))))); lia|]. apply emits_all. by apply Forall2_fmap_r.
Qed.

Lemma emits_slice ws its : Zlen (enc (Lst its)) < 2 ^ 64 -> Forall2 (fun w it => emits w (enc it)) ws its -> emits (wslice ws) (enc (Lst its)).
Proof.
  intros Hl Hws. destruct Hws as [|w it ws its Hw Hws]; [by apply (emits_item _ (Lst []))|]. apply emits_Lst; [done|by constructor].
Qed.

Lemma emits_str b : Zlen b < 2 ^ 63 -> emits (wok (writeBytes b)) (enc (Str b)).
Proof. intros Hl. apply emits_item; [|by intros buf]. cbn [enc]. destruct (Zlen_enc_str b); lia. Qed.

(** ** Receipts and logs *)

Definition receiptStatusFailedRLP : list Z := [].
Definition receiptStatusSuccessfulRLP : list Z := [0x01].

Inductive receipt_error : Type :=
| errShortTypedReceipt
| errReceiptType
| errReceiptStatus
| errReceiptRlp (e : rlp_error).

(** Only the consensus fields of a log are encoded. *)
Definition Log_EncodeRLP (obj : Log) : W :=
  wlist (wall [wok (writeBytes (AddressBytes (lgAddress obj))); wlist (wall (map (fun t => wok (writeBytes (HashBytes t))) (lgTopics obj)));
    wok (writeBytes (lgData obj))]).

Definition statusEncoding (r : Receipt) : list Z :=
  if Zlen (r_PostState r) =? 0 then
    if r_Status r =? ReceiptStatusFailed then receiptStatusFailedRLP else receiptStatusSuccessfulRLP
  else r_PostState r.

(** The reflective writer of [receiptRLP]; logs have their own encoder. *)
Definition receiptRLP_writer (r : Receipt) : W :=
  wlist (wall [writer RBytes (VBytes (statusEncoding r)); writer (RUint 64) (VUint (r_CumulativeGasUsed r));
    writer (RByteArray 256) (VBytes (r_Bloom r)); wslice (map Log_EncodeRLP (r_Logs r))]).

Definition encodeTyped (r : Receipt) : outcome (list Z * option rlp_error) :=
  let! e := encodeWith (receiptRLP_writer r) in
  Ret (match e with inl err => ([r_Type r], Some err) | inr b => (r_Type r :: b, None) end).

Definition MarshalBinary (r : Receipt) : outcome (list Z * option rlp_error) := encodeTyped r.

Definition EncodeRLP (r : Receipt) : outcome (rlp_error + list Z) :=
  let! (b, err) := encodeTyped r in
  match err with Some err => Ret (inl err) | None => EncodeToBytes RBytes (VBytes b) end.

(** ** Reading *)

Definition logType : rtype := RStruct [RByteArray 20; RSlice (RByteArray 32); RBytes].
Definition receiptType : rtype := RStruct [RBytes; RUint 64; RByteArray 256; RSlice (RPtr logType)].
Definition storedType : rtype := RStruct [RBytes; RUint 64; RSlice (RPtr logType)].

(** The fields that are not encoded are zero. *)
Definition val_log (v : rval) : option Log :=
  match v with
  | VPtr (Some (VList [VBytes addr; VList topics; VBytes data])) =>
      topics ← mapM (fun v => match v with VBytes b => Some (bytes_to_Z b) | _ => None end) topics;
      Some (mkLog (bytes_to_Z addr) topics data 0 0 0 0 0)
  | _ => None
  end.

Definition set_Status (x : Z) (r : Receipt) : Receipt :=
  mkReceipt (r_Type r) (r_PostState r) x (r_CumulativeGasUsed r) (r_Bloom r) (r_Logs r) (r_TxHash r) (r_ContractAddress r) (r_GasUsed r)
    (r_EffectiveGasPrice r) (r_BlockHash r) (r_BlockNumber r) (r_TransactionIndex r).
Definition set_PostState (x : list Z) (r : Receipt) : Receipt :=
  mkReceipt (r_Type r) x (r_Status r) (r_CumulativeGasUsed r) (r_Bloom r) (r_Logs r) (r_TxHash r) (r_ContractAddress r) (r_GasUsed r)
    (r_EffectiveGasPrice r) (r_BlockHash r) (r_BlockNumber r) (r_TransactionIndex r).
Definition set_Type (x : Z) (r : Receipt) : Receipt :=
  mkReceipt x (r_PostState r) (r_Status r) (r_CumulativeGasUsed r) (r_Bloom r) (r_Logs r) (r_TxHash r) (r_ContractAddress r) (r_GasUsed r)
    (r_EffectiveGasPrice r) (r_BlockHash r) (r_BlockNumber r) (r_TransactionIndex r).
Definition set_contents (gas : Z) (bloom : list Z) (logs : list Log) (r : Receipt) : Receipt :=
  mkReceipt (r_Type r) (r_PostState r) (r_Status r) gas bloom logs (r_TxHash r) (r_ContractAddress r) (r_GasUsed r)
    (r_EffectiveGasPrice r) (r_BlockHash r) (r_BlockNumber r) (r_TransactionIndex r).

Definition setStatus (postStateOrStatus : list Z) : M Receipt (option receipt_error) := fun r =>
  if bool_decide (postStateOrStatus = receiptStatusSuccessfulRLP) then Ret (None, set_Status ReceiptStatusSuccessful r)
  else if bool_decide (postStateOrStatus = receiptStatusFailedRLP) then Ret (None, set_Status ReceiptStatusFailed r)
  else if Zlen postStateOrStatus =? 32 then Ret (None, set_PostState postStateOrStatus r)
  else Ret (Some errReceiptStatus, r).

Definition setFromRLP (status : list Z) (gas : Z) (bloom : list Z) (logs : list Log) : M Receipt (option receipt_error) :=
  mmodify (set_contents gas bloom logs) ;;; setStatus status.

Definition decodeTyped (b : list Z) : M Receipt (option receipt_error) :=
  if Zlen b <=? 1 then mret (Some errShortTypedReceipt)
  else
    let* ty := mlift (go_index b 0) in
    if ty =? DynamicFeeTxType then
      let* rest := mlift (go_slice b 1 (Zlen b)) in
      let* v := mlift (DecodeBytes receiptType rest) in
      match v with
      | inl err => mret (Some (errReceiptRlp err))
      | inr (VList [VBytes status; VUint gas; VBytes bloom; VList logs]) =>
          let* logs := mlift (deref (mapM val_log logs)) in
          mmodify (set_Type ty) ;;;
          setFromRLP status gas bloom logs
      | inr _ => mlift Panic
      end
    else mret (Some errReceiptType).

Definition UnmarshalBinary (b : list Z) : M Receipt (option receipt_error) := decodeTyped b.

Section Storage.
Context {C : Crypto}.

(** ** The database encoding *)

Definition ReceiptForStorage_EncodeRLP (r : Receipt) : W :=
  wlist (wall [wok (writeBytes (statusEncoding r)); wok (writeUint64 (r_CumulativeGasUsed r)); wlist (wall (map Log_EncodeRLP (r_Logs r)))]).

Definition set_Bloom (b : list Z) (r : Receipt) : Receipt := set_contents (r_CumulativeGasUsed r) b (r_Logs r) r.

(** [DecodeRLP] of a [ReceiptForStorage], after [s.Decode(&stored)] gave a value. *)
Definition setStored (status : list Z) (gas : Z) (logs : list Log) : M Receipt (option receipt_error) :=
  let* err := setStatus status in
  match err with
  | Some err => mret (Some err)
  | None =>
      mmodify (fun r => set_contents gas (r_Bloom r) logs r) ;;;
      let* r := mget in
      let* bloom := mlift (CreateBloom [r_Logs r]) in
      mmodify (set_Bloom bloom) ;;;
      mret None
  end.

(** [rlp.DecodeBytes] into a [ReceiptForStorage]: the input is read by one value, what
    follows it is refused afterwards. *)
Definition ReceiptForStorage_decode (b : list Z) : M Receipt (option receipt_error) := fun r =>
  let! (v, s) := decoder (S (length b)) storedType (Reset b (Zlen b)) in
  match v with
  | inl err => Ret (Some (errReceiptRlp err), r)
  | inr (VList [VBytes status; VUint gas; VList logs]) =>
      let! logs := deref (mapM val_log logs) in
      let! (err, r) := setStored status gas logs r in
      Ret (match err with
           | Some err => (Some err, r)
           | None => if 0 <? Zlen (s_r s) then (Some (errReceiptRlp ErrMoreThanOneValue), r) else (None, r)
           end)
  | inr _ => Panic
  end.

End Storage.

(** ** Lists with a root *)

(** The error of the encoder is dropped with the bytes that were not written. *)
Definition Receipts_EncodeIndex (rs : list Receipt) (i : Z) : outcome (list Z) :=
  let! r := go_index rs i in
  if r_Type r =? DynamicFeeTxType then
    let! e := encodeWith (receiptRLP_writer r) in
    Ret (r_Type r :: match e with inl _ => [] | inr b => b end)
  else Ret [r_Type r].

Definition Receipts (rs : list Receipt) : DerivableList := mkDerivable (Zlen rs) (Receipts_EncodeIndex rs).

Definition Transactions_EncodeIndex (s : list Tx.Transaction) (i : Z) : outcome (list Z) :=
  let! tx := go_index s i in
  let! (b, _) := Tx.encodeTyped tx in
  Ret b.

Definition Transactions (s : list Tx.Transaction) : DerivableList := mkDerivable (Zlen s) (Transactions_EncodeIndex s).

Definition Withdrawals_EncodeIndex (s : list Withdrawal) (i : Z) : outcome (list Z) :=
  let! w := go_index s i in
  let! e := encodeWith (Withdrawal_EncodeRLP w) in
  Ret (match e with inl _ => [] | inr b => b end).

Definition Withdrawals (s : list Withdrawal) : DerivableList := mkDerivable (Zlen s) (Withdrawals_EncodeIndex s).

(** * What receipts and withdrawals promise

    The writers of receipts, logs and withdrawals write the items of their values, and the
    reflective decoder reads them back. *)

(** ** Values *)

Definition withdrawalType : rtype := RStruct [RUint 64; RUint 64; RByteArray 20; RUint 64].
Definition withdrawal_val (w : Withdrawal) : rval := VList [VUint (w_Index w); VUint (w_Validator w); Tx.address_val (w_Address w); VUint (w_Amount w)].

Definition log_val (l : Log) : rval := VPtr (Some (VList [Tx.address_val (lgAddress l); VList (map hash_val (lgTopics l)); VBytes (lgData l)])).
Definition receipt_val (r : Receipt) : rval :=
  VList [VBytes (statusEncoding r); VUint (r_CumulativeGasUsed r); VBytes (r_Bloom r); VList (map log_val (r_Logs r))].
Definition stored_val (r : Receipt) : rval := VList [VBytes (statusEncoding r); VUint (r_CumulativeGasUsed r); VList (map log_val (r_Logs r))].

(** What Go's types guarantee. *)
Record withdrawal_ok (w : Withdrawal) : Prop := {
  wk_index : in64 (w_Index w);
  wk_validator : in64 (w_Validator w);
  wk_address : in160 (w_Address w);
  wk_amount : in64 (w_Amount w)
}.

Record log_ok (l : Log) : Prop := {
  lk_address : in160 (lgAddress l);
  lk_topics : Forall in256 (lgTopics l);
  lk_data : Forall is_byte (lgData l)
}.

(** A receipt of a supported type with a status, or with a post state. *)
Record receipt_ok (r : Receipt) : Prop := {
  rk_type : r_Type r = DynamicFeeTxType;
  rk_status : r_Status r = ReceiptStatusFailed \/ r_Status r = ReceiptStatusSuccessful;
  rk_post : r_PostState r = [] \/ length (r_PostState r) = 32%nat;
  rk_post_bytes : Forall is_byte (r_PostState r);
  rk_gas : in64 (r_CumulativeGasUsed r);
  rk_bloom : length (r_Bloom r) = 256%nat /\ Forall is_byte (r_Bloom r);
  rk_logs : Forall log_ok (r_Logs r)
}.

Ltac fields := split_and!; first [done|lia|apply length_Z_to_bytes|apply Z_to_bytes_byte|idtac].

Lemma withdrawal_typed w : withdrawal_ok w -> typed withdrawalType (withdrawal_val w).
Proof. intros []. unfold withdrawalType, withdrawal_val. cbn [typed zip_typed Tx.address_val]. unfold in64 in *. fields. Qed.

Lemma log_typed l : log_ok l -> typed (RPtr logType) (log_val l).
Proof.
  intros []. unfold log_val, logType. cbn [typed zip_typed Tx.address_val]. fields. apply Forall_map, Forall_true. intros h. apply hash_typed.
Qed.

Lemma logs_typed ls : Forall log_ok ls -> Forall (typed (RPtr logType)) (map log_val ls).
Proof. intros Hl. apply Forall_map. eapply Forall_impl; [apply log_typed|exact Hl]. Qed.

Lemma status_bytes r : receipt_ok r -> Forall is_byte (statusEncoding r).
Proof. intros []. unfold statusEncoding. destruct (Zlen (r_PostState r) =? 0); [|done]. destruct (r_Status r =? ReceiptStatusFailed); repeat constructor; unfold is_byte; lia. Qed.

Lemma receipt_typed r : receipt_ok r -> typed receiptType (receipt_val r).
Proof.
  intros Hr. pose proof (status_bytes r Hr). destruct Hr as [? ? ? ? ? [? ?] ?]. unfold receiptType, receipt_val. cbn [typed zip_typed]. unfold in64 in *. fields. by apply logs_typed.
Qed.
Lemma stored_typed r : receipt_ok r -> typed storedType (stored_val r).
Proof. intros Hr. pose proof (status_bytes r Hr). destruct Hr. unfold storedType, stored_val. cbn [typed zip_typed]. unfold in64 in *. fields. by apply logs_typed. Qed.

(** ** Writing *)

Lemma small_items its it : Zlen (enc (Lst its)) < 2 ^ 63 -> it ∈ its -> Zlen (enc it) < 2 ^ 63.
Proof. intros Hl Hi. pose proof (proj1 (Forall_forall _ _) (enc_Lst_le its) it (proj1 (list_elem_of_In _ _) Hi)) as Hle. cbn beta in Hle. lia. Qed.

Lemma Zlen_Str b : Zlen (enc (Str b)) < 2 ^ 63 -> Zlen b < 2 ^ 63.
Proof.
  cbn [enc]. unfold enc_str. intros Hl. assert (forall h : list Z, Zlen (h ++ b) < 2 ^ 63 -> Zlen b < 2 ^ 63) as Happ by (intros h; rewrite Zlen_app; pose proof (Zlen_nonneg h); lia).
  destruct b as [|x [|y b]]; [done|done|by eapply Happ].
Qed.

Lemma emits_Str its b : Zlen (enc (Lst its)) < 2 ^ 63 -> Str b ∈ its -> emits (wok (writeBytes b)) (enc (Str b)).
Proof. intros Hl Hi. apply emits_str, Zlen_Str. by eapply small_items. Qed.

Lemma emits_uint z : in64 z -> emits (wok (writeUint64 z)) (enc (Str (min_bytes z))).
Proof. intros Hz. apply emits_item; [by apply Zlen_enc_uint|by apply writes_uint]. Qed.

Ltac member := repeat first [apply list_elem_of_here|apply list_elem_of_further].

Lemma log_emits l : log_ok l -> Zlen (enc (to_item (RPtr logType) (log_val l))) < 2 ^ 63 -> emits (Log_EncodeRLP l) (enc (to_item (RPtr logType) (log_val l))).
Proof.
  intros Hl Hs. unfold log_val, logType in *. cbn [to_item zip_items Tx.address_val] in *. apply emits_Lst; [lia|]. constructor; [eapply emits_Str; [exact Hs|member]|]. constructor; [|constructor; [eapply emits_Str; [exact Hs|member]|constructor]].
  assert (Ht : Zlen (enc (Lst (map (to_item (RByteArray 32)) (map hash_val (lgTopics l))))) < 2 ^ 63) by (eapply small_items; [exact Hs|member]). rewrite map_map in *. cbn [to_item hash_val] in Ht |- *. apply emits_Lst; [lia|].
  apply Forall2_fmap_l, Forall2_fmap_r, Forall2_same_length_lookup_2; [done|]. intros i h h' Hh Hh'. assert (h = h') as <- by congruence. cbn [to_item hash_val]. eapply emits_Str; [exact Ht|]. apply list_elem_of_fmap. exists h. split; [done|by eapply list_elem_of_lookup_2].
Qed.

Lemma logs_emit ls : Forall log_ok ls -> Zlen (enc (Lst (map (to_item (RPtr logType)) (map log_val ls)))) < 2 ^ 63 ->
  Forall2 (fun w it => emits w (enc it)) (map Log_EncodeRLP ls) (map (to_item (RPtr logType)) (map log_val ls)).
Proof.
  intros Hok Hl. rewrite map_map in *. apply Forall2_fmap_l, Forall2_fmap_r, Forall2_same_length_lookup_2; [done|]. intros i l l' Hi Hi'. assert (l = l') as <- by congruence.
  apply log_emits; [by eapply Forall_lookup_1|]. eapply small_items; [exact Hl|]. apply list_elem_of_fmap. exists l. split; [done|by eapply list_elem_of_lookup_2].
Qed.

Lemma writer_byte_array b : Forall is_byte b -> Zlen b < 2 ^ 63 -> emits (writer (RByteArray 256) (VBytes b)) (enc (Str b)).
Proof.
  intros Hb Hl. apply emits_item; [cbn [enc]; destruct (Zlen_enc_str b); lia|]. intros buf. cbn [writer]. unfold wok. rewrite writeByteArray_enc by (done || lia). rewrite wr_str; [done|]. destruct (Zlen_enc_str b); lia.
Qed.

Lemma receipt_emits r : receipt_ok r -> Zlen (enc (to_item receiptType (receipt_val r))) < 2 ^ 63 -> emits (receiptRLP_writer r) (enc (to_item receiptType (receipt_val r))).
Proof.
  intros [? ? ? ? Hg [Hbl Hbb] Hlogs] Hs. unfold receipt_val, receiptType in *. cbn [to_item zip_items] in *. apply emits_Lst; [lia|].
  constructor; [eapply emits_Str; [exact Hs|member]|]. constructor; [by apply emits_uint|]. constructor; [apply writer_byte_array; [done|unfold Zlen; rewrite Hbl; lia]|]. constructor; [|constructor].
  assert (Hl : Zlen (enc (Lst (map (to_item (RPtr logType)) (map log_val (r_Logs r))))) < 2 ^ 63) by (eapply small_items; [exact Hs|member]). apply (emits_slice _ (map (to_item (RPtr logType)) (map log_val (r_Logs r)))); [lia|by apply logs_emit].
Qed.

Lemma stored_emits r : receipt_ok r -> Zlen (enc (to_item storedType (stored_val r))) < 2 ^ 63 -> emits (ReceiptForStorage_EncodeRLP r) (enc (to_item storedType (stored_val r))).
Proof.
  intros [? ? ? ? Hg _ Hlogs] Hs. unfold stored_val, storedType in *. cbn [to_item zip_items] in *. apply emits_Lst; [lia|].
  constructor; [eapply emits_Str; [exact Hs|member]|]. constructor; [by apply emits_uint|]. constructor; [|constructor].
  assert (Hl : Zlen (enc (Lst (map (to_item (RPtr logType)) (map log_val (r_Logs r))))) < 2 ^ 63) by (eapply small_items; [exact Hs|member]). apply (emits_Lst _ (map (to_item (RPtr logType)) (map log_val (r_Logs r)))); [lia|by apply logs_emit].
Qed.

Lemma Zlen_enc_Str b : Zlen b < 2 ^ 62 -> Zlen (enc (Str b)) <= 9 + Zlen b.
Proof. intros Hl. cbn [enc]. destruct (Zlen_enc_str b); lia. Qed.

Lemma Zlen_min_bytes z : in64 z -> Zlen (min_bytes z) <= 8.
Proof. intros Hz. rewrite <- uint_bytes_min by done. destruct (uint_bytes_spec z Hz) as (_ & _ & Hl). unfold Zlen. lia. Qed.

(** A withdrawal is short. *)
Lemma withdrawal_small w : withdrawal_ok w -> Zlen (enc (to_item withdrawalType (withdrawal_val w))) <= 100.
Proof.
  intros [H1 H2 H3 H4]. unfold withdrawal_val, withdrawalType. cbn [to_item zip_items Tx.address_val]. rewrite enc_Lst, Zlen_app. set (its := [_; _; _; _]). assert (Hb : Zlen (encs its) <= 80).
  { subst its. rewrite !encs_cons, !Zlen_app. change (Zlen (encs [])) with 0. assert (Hu : forall z, in64 z -> Zlen (enc (Str (min_bytes z))) <= 17).
    { intros z Hz. pose proof (Zlen_min_bytes z Hz). pose proof (Zlen_enc_Str (min_bytes z) ltac:(lia)). lia. }
    assert (Ha : Zlen (AddressBytes (w_Address w)) = 20) by (unfold AddressBytes, Zlen; by rewrite length_Z_to_bytes). pose proof (Zlen_enc_Str (AddressBytes (w_Address w)) ltac:(lia)).
    pose proof (Hu _ H1). pose proof (Hu _ H2). pose proof (Hu _ H4). lia. }
  pose proof (Zlen_hdr List (Zlen (encs its))) as Hh. pose proof (Zlen_nonneg (encs its)). unfold in64 in Hh. lia.
Qed.

Lemma withdrawal_emits w : withdrawal_ok w -> emits (Withdrawal_EncodeRLP w) (enc (to_item withdrawalType (withdrawal_val w))).
Proof.
  intros Hw. pose proof (withdrawal_small w Hw) as Hs. destruct Hw. unfold withdrawal_val, withdrawalType in *. cbn [to_item zip_items Tx.address_val] in *. apply emits_Lst; [lia|].
  do 2 (constructor; [by apply emits_uint|]). constructor; [eapply emits_Str; [eapply Z.le_lt_trans; [exact Hs|lia]|member]|]. constructor; [by apply emits_uint|constructor].
Qed.

(** ** Reading *)

(** The consensus fields of a log. *)
Definition bare_log (l : Log) : Log := mkLog (lgAddress l) (lgTopics l) (lgData l) 0 0 0 0 0.

Lemma topics_val ts : Forall in256 ts -> mapM (fun v => match v with VBytes b => Some (bytes_to_Z b) | _ => None end) (map hash_val ts) = Some ts.
Proof. induction 1 as [|t ts Ht _ IH]; [done|]. cbn [map mapM hash_val]. rewrite hash_roundtrip by done. cbn. by rewrite IH. Qed.

Lemma val_log_val l : log_ok l -> val_log (log_val l) = Some (bare_log l).
Proof. intros [Ha Ht Hd]. unfold val_log, log_val, Tx.address_val. rewrite topics_val by done. cbn. unfold bare_log. by rewrite address_roundtrip. Qed.

Lemma logs_val ls : Forall log_ok ls -> mapM val_log (map log_val ls) = Some (map bare_log ls).
Proof. induction 1 as [|l ls Hl _ IH]; [done|]. cbn [map mapM]. rewrite val_log_val by done. cbn. by rewrite IH. Qed.

Lemma bare_log_ok l : log_ok l -> log_ok (bare_log l).
Proof. by intros []. Qed.

Lemma typed_topics vs : Forall (typed (RByteArray 32)) vs -> exists ts, vs = map hash_val ts /\ Forall in256 ts.
Proof.
  induction 1 as [|v vs Hv _ (ts & -> & IH)]; [by exists []|]. apply typed_hash_inv in Hv as (h & -> & Hh). exists (h :: ts). split; [done|by constructor].
Qed.

Lemma typed_log v : typed (RPtr logType) v -> exists l, v = log_val l /\ log_ok l /\ bare_log l = l.
Proof.
  destruct v as [| | | | |[v|]]; try done. cbn [typed]. intros Hv. destruct v as [| | | |l|]; try done. unfold logType in Hv. change (typed (RStruct ?ts) (VList l)) with (zip_typed typed ts l) in Hv.
  do 3 (destruct l as [|? l]; [by destruct Hv|destruct Hv as [? Hv]]). destruct l; [|by destruct Hv].
  match goal with H : typed (RByteArray 20) _ |- _ => apply typed_address_inv in H as (a & -> & Ha) end. match goal with H : typed RBytes _ |- _ => apply typed_bytes_inv in H as (d & -> & Hd) end.
  match goal with H : typed (RSlice _) ?x |- _ => destruct x as [| | | |vs|]; try done; apply typed_topics in H as (ts & -> & Ht) end.
  by exists (mkLog a ts d 0 0 0 0 0).
Qed.

Lemma typed_logs vs : Forall (typed (RPtr logType)) vs -> exists ls, vs = map log_val ls /\ Forall log_ok ls /\ map bare_log ls = ls.
Proof.
  induction 1 as [|v vs Hv _ (ls & -> & Hok & Hb)]; [by exists []|]. apply typed_log in Hv as (l & -> & Hl & Hbl). exists (l :: ls). split_and!; [done|by constructor|cbn; by rewrite Hbl, Hb].
Qed.

Lemma typed_receipt v : typed receiptType v -> exists status gas bloom ls, v = VList [VBytes status; VUint gas; VBytes bloom; VList (map log_val ls)] /\
  Forall is_byte status /\ in64 gas /\ length bloom = 256%nat /\ Forall is_byte bloom /\ Forall log_ok ls /\ map bare_log ls = ls.
Proof.
  destruct v as [| | | |l|]; try done. unfold receiptType. change (typed (RStruct ?ts) (VList l)) with (zip_typed typed ts l). intros Hv.
  do 4 (destruct l as [|? l]; [by destruct Hv|destruct Hv as [? Hv]]). destruct l; [|by destruct Hv].
  match goal with H : typed RBytes _ |- _ => apply typed_bytes_inv in H as (st & -> & Hst) end. match goal with H : typed (RUint 64) _ |- _ => apply typed_uint_inv in H as (g & -> & Hg) end.
  match goal with H : typed (RByteArray 256) _ |- _ => apply typed_array_inv in H as (b & -> & Hbl & Hbb) end.
  match goal with H : typed (RSlice _) ?x |- _ => destruct x as [| | | |vs|]; try done; apply typed_logs in H as (ls & -> & Hls & Hb') end. by exists st, g, b, ls.
Qed.

(** What a receipt looks like when it is read into [r0]. *)
Definition read_receipt (r r0 : Receipt) : Receipt :=
  mkReceipt DynamicFeeTxType (if Zlen (r_PostState r) =? 0 then r_PostState r0 else r_PostState r) (if Zlen (r_PostState r) =? 0 then r_Status r else r_Status r0)
    (r_CumulativeGasUsed r) (r_Bloom r) (map bare_log (r_Logs r)) (r_TxHash r0) (r_ContractAddress r0) (r_GasUsed r0)
    (r_EffectiveGasPrice r0) (r_BlockHash r0) (r_BlockNumber r0) (r_TransactionIndex r0).

Lemma setStatus_read r r1 : receipt_ok r -> setStatus (statusEncoding r) r1 = Ret (None, if Zlen (r_PostState r) =? 0 then set_Status (r_Status r) r1 else set_PostState (r_PostState r) r1).
Proof.
  intros [_ Hst Hp _ _ _ _]. unfold setStatus, statusEncoding. destruct (Z.eqb_spec (Zlen (r_PostState r)) 0) as [Hz|Hz].
  - destruct Hst as [-> | ->]; [by rewrite bool_decide_eq_false_2|by rewrite bool_decide_eq_true_2].
  - destruct Hp as [Hp|Hp]; [by rewrite Hp in Hz|]. assert (Hne : forall l : list Z, (length l < 32)%nat -> r_PostState r <> l) by (intros l Hl He; rewrite He in Hp; lia).
    rewrite !bool_decide_eq_false_2 by (apply Hne; cbn; lia). unfold Zlen. by rewrite Hp.
Qed.

Definition receipt_bytes (r : Receipt) : list Z := r_Type r :: enc (to_item receiptType (receipt_val r)).

Lemma marshal_receipt r : receipt_ok r -> Zlen (receipt_bytes r) < 2 ^ 63 -> MarshalBinary r = Ret (receipt_bytes r, None).
Proof.
  intros Hok Hl. unfold receipt_bytes in Hl. rewrite Zlen_cons in Hl. unfold MarshalBinary, encodeTyped. rewrite (encodeWith_emits _ (enc (to_item receiptType (receipt_val r)))); [done|]. apply receipt_emits; [done|lia].
Qed.

(** Decoding behind the type byte. *)
Lemma unmarshal_behind b r0 : 0 < Zlen b -> UnmarshalBinary (DynamicFeeTxType :: b) r0 =
  (let* v := mlift (DecodeBytes receiptType b) in
   match v with
   | inl err => mret (Some (errReceiptRlp err))
   | inr (VList [VBytes status; VUint gas; VBytes bloom; VList logs]) =>
       let* logs := mlift (deref (mapM val_log logs)) in
       mmodify (set_Type DynamicFeeTxType) ;;;
       setFromRLP status gas bloom logs
   | inr _ => mlift Panic
   end) r0.
Proof.
  intros Hb. unfold UnmarshalBinary, decodeTyped. rewrite Zlen_cons, (proj2 (Z.leb_gt _ _)) by lia. unfold mlift at 1, mthen at 1. rewrite go_index_0. cbn [obind fst snd]. rewrite Z.eqb_refl.
  assert (Hs : go_slice (DynamicFeeTxType :: b) 1 (1 + Zlen b) = Ret b) by (rewrite go_slice_Ret by (rewrite ?Zlen_cons; lia); cbn [drop Z.to_nat Pos.to_nat Pos.iter_op]; f_equal; apply take_ge; unfold Zlen; cbn; lia).
  unfold mlift at 1, mthen at 1. by rewrite Hs.
Qed.

(** What is accepted, and what becomes of it. *)
Lemma unmarshal_receipt b r0 : Forall is_byte b -> Zlen b < 2 ^ 62 -> 0 < Zlen b ->
  (exists e, UnmarshalBinary (DynamicFeeTxType :: b) r0 = Ret (Some e, r0)) \/
  exists status gas bloom ls, b = enc (to_item receiptType (VList [VBytes status; VUint gas; VBytes bloom; VList (map log_val ls)])) /\
    Forall is_byte status /\ in64 gas /\ length bloom = 256%nat /\ Forall is_byte bloom /\ Forall log_ok ls /\ map bare_log ls = ls /\
    UnmarshalBinary (DynamicFeeTxType :: b) r0 = setStatus status (set_contents gas bloom ls (set_Type DynamicFeeTxType r0)).
Proof.
  intros Hb Hl Hp. destruct (DecodeBytes_spec receiptType b eq_refl Hb ltac:(lia)) as (v & Hv & Hiff). rewrite unmarshal_behind by done. unfold mlift, mthen. rewrite Hv. cbn [obind fst snd].
  destruct v as [e|v]; [left; by eexists|right]. destruct (proj1 (Hiff v) eq_refl) as [Ht Hbe]. destruct (typed_receipt v Ht) as (st & g & bl & ls & -> & Hst & Hg & Hbl & Hbb & Hls & Hbare). exists st, g, bl, ls. do 7 (split; [done|]).
  cbn [obind fst snd]. by rewrite logs_val, Hbare by done.
Qed.

Lemma unmarshal_marshal r r0 : receipt_ok r -> Zlen (receipt_bytes r) < 2 ^ 62 -> UnmarshalBinary (receipt_bytes r) r0 = Ret (None, read_receipt r r0).
Proof.
  intros Hok Hl. unfold receipt_bytes in *. rewrite Zlen_cons in Hl. rewrite (rk_type _ Hok). pose proof (receipt_typed r Hok) as Ht. set (b := enc (to_item receiptType (receipt_val r))) in *.
  assert (Hb : Forall is_byte b) by (apply item_bytes_enc; [by apply typed_bytes|fold b; lia]). destruct (DecodeBytes_spec receiptType b eq_refl Hb ltac:(lia)) as (v & Hv & Hiff). assert (v = inr (receipt_val r)) as -> by (by apply Hiff).
  assert (Hp : 0 < Zlen b).
  { subst b. unfold receipt_val, receiptType. cbn [to_item]. rewrite enc_Lst, Zlen_app. pose proof (hdr_pos (Zlen (encs (zip_items to_item [RBytes; RUint 64; RByteArray 256; RSlice (RPtr logType)] [VBytes (statusEncoding r); VUint (r_CumulativeGasUsed r); VBytes (r_Bloom r); VList (map log_val (r_Logs r))])))).
    match goal with |- context [Zlen (encs ?l)] => pose proof (Zlen_nonneg (encs l)) end. lia. }
  rewrite unmarshal_behind by done. unfold mlift, mthen. rewrite Hv. unfold receipt_val. cbn [obind fst snd]. rewrite logs_val by apply Hok. cbn [deref obind fst snd]. unfold mmodify, setFromRLP, mthen, mmodify. cbn [obind fst snd].
  rewrite setStatus_read by done. unfold read_receipt. by destruct (Zlen (r_PostState r) =? 0).
Qed.

(** A receipt before anything was read into it. *)
Definition blank (r : Receipt) : Prop := r_PostState r = [] /\ r_Status r = ReceiptStatusFailed.

(** A status that was accepted is written again. *)
Lemma setStatus_write status gas bloom ls r0 res r : blank r0 -> Forall is_byte status -> in64 gas -> length bloom = 256%nat -> Forall is_byte bloom -> Forall log_ok ls ->
  setStatus status (set_contents gas bloom ls (set_Type DynamicFeeTxType r0)) = Ret (res, r) -> res = None ->
  receipt_ok r /\ receipt_val r = VList [VBytes status; VUint gas; VBytes bloom; VList (map log_val ls)].
Proof.
  intros [Hp Hs0] Hst Hg Hbl Hbb Hls Hset ->. unfold setStatus in Hset. case_bool_decide as H1; [|case_bool_decide as H2; [|destruct (Z.eqb_spec (Zlen status) 32) as [H3|H3]; [|done]]]; injection Hset as <-;
    unfold receipt_val, statusEncoding; cbn; rewrite ?Hp, ?Hs0.
  - subst status. split; [|done]. split; cbn; try done; [by right|by left|by rewrite Hp].
  - subst status. split; [|done]. split; cbn; try done; [by left|by left|by rewrite Hp].
  - rewrite H3. split; [|done]. split; cbn; try done; [by left|right; unfold Zlen in H3; lia].
Qed.

(** The binary form of receipts is canonical.  Decoding ends on every byte string
    without a panic; what it accepts, into a new receipt, encodes to exactly the input.
    And a receipt with a status or a post state is read back from its encoding, with the
    consensus fields of its logs. *)
Theorem receipt_codec b r0 r : Forall is_byte b -> Zlen b < 2 ^ 62 -> blank r0 ->
  (exists res r', UnmarshalBinary b r0 = Ret (res, r') /\ (res = None -> receipt_ok r' /\ MarshalBinary r' = Ret (b, None))) /\
  (receipt_ok r -> Zlen (receipt_bytes r) < 2 ^ 62 -> exists b', MarshalBinary r = Ret (b', None) /\ UnmarshalBinary b' r0 = Ret (None, read_receipt r r0)).
Proof.
  intros Hb Hl Hr0. split.
  - destruct (decide (Zlen b <= 1)) as [Hs|Hs].
    { exists (Some errShortTypedReceipt), r0. split; [|done]. unfold UnmarshalBinary, decodeTyped. by rewrite (proj2 (Z.leb_le _ _)). }
    destruct b as [|ty b]; [rewrite Zlen_nil in Hs; lia|]. rewrite Zlen_cons in *. destruct (decide (ty = DynamicFeeTxType)) as [-> |Hne].
    2: { exists (Some errReceiptType), r0. split; [|done]. unfold UnmarshalBinary, decodeTyped. rewrite Zlen_cons, (proj2 (Z.leb_gt _ _)) by lia. unfold mlift, mthen. rewrite go_index_0. cbn [obind fst snd]. by rewrite (proj2 (Z.eqb_neq _ _)). }
    apply Forall_cons_1 in Hb as [_ Hb]. destruct (unmarshal_receipt b r0 Hb ltac:(lia) ltac:(lia)) as [(e & He)|(status & gas & bloom & ls & Hbe & Hst & Hg & Hbl & Hbb & Hls & Hbare & Hu)]; [by eexists _, _|].
    assert (Hres : exists res r', setStatus status (set_contents gas bloom ls (set_Type DynamicFeeTxType r0)) = Ret (res, r')) by (unfold setStatus; repeat case_match; by eexists _, _).
    destruct Hres as (res & r' & Hres). exists res, r'. split; [by rewrite Hu|]. intros Hn. destruct (setStatus_write _ _ _ _ _ _ _ Hr0 Hst Hg Hbl Hbb Hls Hres Hn) as [Hok Hv]. split; [done|].
    assert (Hbytes : receipt_bytes r' = DynamicFeeTxType :: b) by (unfold receipt_bytes; by rewrite Hv, (rk_type _ Hok), Hbe). rewrite marshal_receipt; [by rewrite Hbytes|done|rewrite Hbytes, Zlen_cons; lia].
  - intros Hok Hlr. exists (receipt_bytes r). split; [apply marshal_receipt; [done|lia]|by apply unmarshal_marshal].
Qed.

Section Stored.
Context {C : Crypto}.

Lemma ofold_ext {A B} (f g : A -> B -> outcome A) (h : B -> B) l : (forall a x, f a (h x) = g a x) -> forall a, ofold f a (map h l) = ofold g a l.
Proof. intros Hfg. induction l as [|x l IH]; intros a; [done|]. cbn [map ofold]. rewrite Hfg. destruct (g a x); [apply IH|done|done]. Qed.

Lemma CreateBloom_bare ls : CreateBloom [map bare_log ls] = CreateBloom [ls].
Proof. unfold CreateBloom. cbn [ofold]. unfold add_logs. by rewrite (ofold_ext add_log add_log bare_log). Qed.

(** Receipts survive the database: the storage encoding of a receipt leaves out its
    bloom filter, and decoding it into a new receipt computes the filter from the logs;
    so a receipt whose filter is that of its logs comes back with all consensus fields. *)
Theorem receipt_storage_roundtrip r r0 : receipt_ok r -> CreateBloom [r_Logs r] = Ret (r_Bloom r) -> Zlen (enc (to_item storedType (stored_val r))) < 2 ^ 62 ->
  exists b, encodeWith (ReceiptForStorage_EncodeRLP r) = Ret (inr b) /\
    ReceiptForStorage_decode b r0 = Ret (None, set_Type (r_Type r0) (read_receipt r r0)).
Proof.
  intros Hok Hbloom Hl. set (b := enc (to_item storedType (stored_val r))) in *. exists b. split; [apply encodeWith_emits, stored_emits; [done|fold b; lia]|].
  pose proof (stored_typed r Hok) as Ht. assert (Hb : Forall is_byte b) by (apply item_bytes_enc; [by apply typed_bytes|fold b; lia]). destruct (DecodeBytes_spec storedType b eq_refl Hb ltac:(lia)) as (v & Hv & Hiff).
  assert (v = inr (stored_val r)) as -> by (by apply Hiff). unfold DecodeBytes in Hv. unfold ReceiptForStorage_decode. destruct (decoder (S (length b)) storedType (Reset b (Zlen b))) as [[v s]| |]; [|done|done]. cbn [obind] in *.
  destruct v as [e|v]; [done|]. destruct (Z.ltb_spec 0 (Zlen (s_r s))) as [Hs|Hs]; [done|]. assert (v = stored_val r) as -> by congruence. unfold stored_val. rewrite logs_val by apply Hok. cbn [deref obind].
  unfold setStored, mthen. rewrite setStatus_read by done. cbn [obind fst snd]. unfold mmodify, mget, mlift, mret. cbn [obind fst snd]. unfold set_contents at 1. cbn [r_Logs]. rewrite CreateBloom_bare, Hbloom. cbn [obind fst snd].
  unfold read_receipt. destruct (Zlen (r_PostState r) =? 0); (destruct (Z.ltb_spec 0 (Zlen (s_r s))); [lia|done]).
Qed.

End Stored.

(** ** A concrete receipt *)

#[local] Existing Instance demo_crypto.

Definition toy_log : Log := mkLog 9 [1; 2] [3; 4] 7 8 0 9 1.
Definition toy_bloom : list Z := match CreateBloom [[toy_log]] with Ret b => b | _ => [] end.
Definition toy_receipt : Receipt := mkReceipt DynamicFeeTxType [] ReceiptStatusSuccessful 21000 toy_bloom [toy_log] 8 0 21000 None 9 (Some 7) 0.
Definition new_receipt : Receipt := mkReceipt 0 [] 0 0 emptyBloom [] 0 0 0 None 0 None 0.

Lemma toy_receipt_ok : receipt_ok toy_receipt.
Proof.
  split; cbn [toy_receipt r_Type r_Status r_PostState r_CumulativeGasUsed r_Bloom r_Logs]; [done|by right|by left|constructor|unfold in64; lia| |].
  - split; [vm_compute; reflexivity|]. apply Forall_forall. intros x Hx. assert (Hall : forallb (fun x => (0 <=? x) && (x <? 256)) toy_bloom = true) by (vm_compute; reflexivity). apply (proj1 (forallb_forall _ _) Hall) in Hx. unfold is_byte. lia.
  - constructor; [|constructor]. split; cbn; unfold in160; repeat constructor; unfold in256, is_byte; lia.
Qed.

Lemma receipt_codec_witness : exists b', MarshalBinary toy_receipt = Ret (b', None) /\ UnmarshalBinary b' new_receipt = Ret (None, read_receipt toy_receipt new_receipt).
Proof. apply (receipt_codec [] new_receipt toy_receipt); [constructor|vm_compute; reflexivity|split; reflexivity|exact toy_receipt_ok|vm_compute; reflexivity]. Defined.

Lemma receipt_storage_roundtrip_witness : exists b, encodeWith (ReceiptForStorage_EncodeRLP toy_receipt) = Ret (inr b) /\
  ReceiptForStorage_decode b new_receipt = Ret (None, set_Type 0 (read_receipt toy_receipt new_receipt)).
Proof. apply (receipt_storage_roundtrip toy_receipt new_receipt); [exact toy_receipt_ok|vm_compute; reflexivity|vm_compute; reflexivity]. Defined.
