(* ===== verification/Validator.v ===== *)
(** * Block validation (core/block_validator.go) and assembly (core/types/block.go: NewBlock)

    A block is checked against its header before it is processed and the result of
    processing it afterwards.  What the chain knows is a parameter. *)

From stdpp Require Import gmap strings.
From S2P Require Import Prelude VMCommon Rlp RlpStream RlpCodec RlpTyped RlpTypes StateTypes Demo StateObject StateDB Transactions TxTheorems Bloom Blocks BlockTheorems HashFn Processor TrieEncoding TrieTree TrieNode TrieHasher Trie TrieSim TrieMap TrieTheorems StackTrie StackSim StackTheorems DeriveSha Receipts.
Import Rlp Decode Encode.

(** Constants of core/types/hashes.go. *)
Definition EmptyTxsHash : Z := 0x56e81f171bcc55a6ff8345e692c0f86e5b48e01b996cadc001622fb5e363b421.
Definition EmptyReceiptsHash : Z := 0x56e81f171bcc55a6ff8345e692c0f86e5b48e01b996cadc001622fb5e363b421.
Definition EmptyWithdrawalsHash : Z := 0x56e81f171bcc55a6ff8345e692c0f86e5b48e01b996cadc001622fb5e363b421.

Inductive body_error : Type :=
| ErrKnownBlock
| errTxRoot (header calculated : Z)
| errMissingWithdrawals
| errWithdrawalsRoot (header calculated : Z)
| errWithdrawalsPresent
| ErrUnknownAncestor
| ErrPrunedAncestor.

Inductive state_error : Type :=
| errGasUsed (remote local : Z)
| errBloom (remote local : list Z)
| errReceiptRoot (remote local : Z)
| errMerkleRoot (remote local : Z).

(** Accessors of a block. *)
Definition Block_Header (b : Block) : Header := CopyHeader (b_header b).
Definition NumberU64 (b : Block) : outcome Z := let! n := deref (h_Number (b_header b)) in Ret (u64 n).

(** [trie.NewStackTrie(nil)] *)
Definition new_stack : stack_state := (NewStackTrie false, []).

Section Validator.
Context {C : Crypto}.

(** [DeriveSha] with a new stack trie. *)
Definition stack_sha (l : DerivableList) : outcome Z := let! (h, _) := DeriveSha l new_stack in Ret h.

Section Chain.
Context (HasBlockAndState HasBlock : Z -> Z -> bool).

Definition ValidateBody (block : Block) : outcome (option body_error) :=
  let! hash := Header_Hash (b_header block) in
  let! number := NumberU64 block in
  if HasBlockAndState hash number then Ret (Some ErrKnownBlock)
  else
    let header := Block_Header block in
    let! hash := stack_sha (Transactions (b_transactions block)) in
    if negb (hash =? h_TxHash header) then Ret (Some (errTxRoot (h_TxHash header) hash))
    else
      let! err := (match h_WithdrawalsHash header, b_withdrawals block with
                   | Some _, None => Ret (Some errMissingWithdrawals)
                   | Some h, Some ws =>
                       let! hash := stack_sha (Withdrawals ws) in
                       Ret (if negb (hash =? h) then Some (errWithdrawalsRoot h hash) else None)
                   | None, Some _ => Ret (Some errWithdrawalsPresent)
                   | None, None => Ret None
                   end) in
      match err with
      | Some err => Ret (Some err)
      | None =>
          let parent := h_ParentHash (b_header block) in
          if negb (HasBlockAndState parent (u64 (number - 1))) then
            if negb (HasBlock parent (u64 (number - 1))) then Ret (Some ErrUnknownAncestor) else Ret (Some ErrPrunedAncestor)
          else Ret None
      end.

End Chain.

(** [ValidateState]; the state is finalised for its root. *)
Definition ValidateState {D : Database} (block : Block) (receipts : list Receipt) (usedGas : Z) : M StateDB (option state_error) :=
  let header := Block_Header block in
  if negb (h_GasUsed (b_header block) =? usedGas) then mret (Some (errGasUsed (h_GasUsed (b_header block)) usedGas))
  else
    let* rbloom := mlift (CreateBloom (map r_Logs receipts)) in
    if negb (bool_decide (rbloom = h_Bloom header)) then mret (Some (errBloom (h_Bloom header) rbloom))
    else
      let* receiptSha := mlift (stack_sha (Receipts receipts)) in
      if negb (receiptSha =? h_ReceiptHash header) then mret (Some (errReceiptRoot (h_ReceiptHash header) receiptSha))
      else
        let* root := StateDB.IntermediateRoot true in
        mret (if negb (h_Root header =? root) then Some (errMerkleRoot (h_Root header) root) else None).

(** ** New blocks *)

Definition set_TxHash (x : Z) (h : Header) : Header :=
  mkHeader (h_ParentHash h) (h_Coinbase h) (h_Root h) x (h_ReceiptHash h) (h_Bloom h) (h_Number h) (h_GasLimit h) (h_GasUsed h) (h_Time h)
    (h_Extra h) (h_Random h) (h_BaseFee h) (h_WithdrawalsHash h).
Definition set_ReceiptHash (x : Z) (h : Header) : Header :=
  mkHeader (h_ParentHash h) (h_Coinbase h) (h_Root h) (h_TxHash h) x (h_Bloom h) (h_Number h) (h_GasLimit h) (h_GasUsed h) (h_Time h)
    (h_Extra h) (h_Random h) (h_BaseFee h) (h_WithdrawalsHash h).
Definition set_header_Bloom (x : list Z) (h : Header) : Header :=
  mkHeader (h_ParentHash h) (h_Coinbase h) (h_Root h) (h_TxHash h) (h_ReceiptHash h) x (h_Number h) (h_GasLimit h) (h_GasUsed h) (h_Time h)
    (h_Extra h) (h_Random h) (h_BaseFee h) (h_WithdrawalsHash h).
Definition set_WithdrawalsHash (x : option Z) (h : Header) : Header :=
  mkHeader (h_ParentHash h) (h_Coinbase h) (h_Root h) (h_TxHash h) (h_ReceiptHash h) (h_Bloom h) (h_Number h) (h_GasLimit h) (h_GasUsed h)
    (h_Time h) (h_Extra h) (h_Random h) (h_BaseFee h) x.

(** [Body]: transactions and withdrawals. *)
Definition Body : Type := list Tx.Transaction * option (list Withdrawal).

(** The hasher is used three times. *)
Definition NewBlock {S} {T : TrieHasher S} (header : Header) (body : option Body) (receipts : list Receipt) : M S Block :=
  let body := default ([], None) body in
  let txs := fst body in
  let withdrawals := snd body in
  let h := CopyHeader header in
  let* h := (if Zlen txs =? 0 then mret (set_TxHash EmptyTxsHash h)
             else let* hash := DeriveSha (Transactions txs) in mret (set_TxHash hash h)) in
  let* h := (if Zlen receipts =? 0 then mret (set_ReceiptHash EmptyReceiptsHash h)
             else
               let* hash := DeriveSha (Receipts receipts) in
               let* bloom := mlift (CreateBloom (map r_Logs receipts)) in
               mret (set_header_Bloom bloom (set_ReceiptHash hash h))) in
  match withdrawals with
  | None => mret (mkBlock (set_WithdrawalsHash None h) txs None)
  | Some [] => mret (mkBlock (set_WithdrawalsHash (Some EmptyWithdrawalsHash) h) txs (Some []))
  | Some ws =>
      let* hash := DeriveSha (Withdrawals ws) in
      mret (mkBlock (set_WithdrawalsHash (Some hash) h) txs (Some ws))
  end.

End Validator.

(** * A header commits to the body and the receipts of its block *)

(** ** Encodings of the elements *)

Definition tx_bytes (tx : Tx.Transaction) : list Z := DynamicFeeTxType :: enc (to_item Tx.txType (Tx.tx_val (Tx.inner tx))).
Definition withdrawal_bytes (w : Withdrawal) : list Z := enc (to_item withdrawalType (withdrawal_val w)).

(** What Go's types and the size of memory guarantee of the lists. *)
Definition txs_ok (txs : list Tx.Transaction) : Prop := Zlen txs < 2 ^ 63 /\ Forall (fun tx => tx_ok (Tx.inner tx) /\ Zlen (tx_bytes tx) < 2 ^ 58) txs.
Definition withdrawals_ok (ws : list Withdrawal) : Prop := Zlen ws < 2 ^ 63 /\ Forall withdrawal_ok ws.
Definition receipts_ok (rs : list Receipt) : Prop := Zlen rs < 2 ^ 63 /\ Forall (fun r => receipt_ok r /\ Zlen (receipt_bytes r) < 2 ^ 58) rs.

Lemma encodes_list {A} (l : list A) (f : A -> list Z) (E : Z -> outcome (list Z)) : Zlen l < 2 ^ 63 ->
  (forall i x, l !! i = Some x -> go_index l (Z.of_nat i) = Ret x -> E (Z.of_nat i) = Ret (f x)) -> encodes (mkDerivable (Zlen l) E) (map f l).
Proof.
  intros Hl HE. split; cbn [Len EncodeIndex].
  - unfold Zlen. by rewrite length_map.
  - intros i v Hi. apply list_lookup_fmap_Some in Hi as (x & -> & Hx). apply HE; [done|]. unfold go_index. rewrite (proj2 (Z.leb_le _ _)), Nat2Z.id by lia. by rewrite Hx.
  - unfold Zlen in *. by rewrite length_map.
Qed.

Lemma transactions_encodes txs : txs_ok txs -> encodes (Transactions txs) (map tx_bytes txs).
Proof.
  intros [Hl Hok]. apply encodes_list; [done|]. intros i tx Hi Hgo. destruct (Forall_lookup_1 _ _ _ _ Hok Hi) as [Htx Hs]. unfold tx_bytes in Hs. rewrite Zlen_cons in Hs.
  unfold Transactions_EncodeIndex. rewrite Hgo. cbn [obind]. unfold Tx.encodeTyped. by rewrite encode_spec by (done || lia).
Qed.

Lemma withdrawals_encodes ws : withdrawals_ok ws -> encodes (Withdrawals ws) (map withdrawal_bytes ws).
Proof.
  intros [Hl Hok]. apply encodes_list; [done|]. intros i w Hi Hgo. pose proof (Forall_lookup_1 _ _ _ _ Hok Hi) as Hw. unfold Withdrawals_EncodeIndex. rewrite Hgo. cbn [obind].
  rewrite (encodeWith_emits _ _ (withdrawal_emits w Hw)). done.
Qed.

Lemma receipts_encodes rs : receipts_ok rs -> encodes (Receipts rs) (map receipt_bytes rs).
Proof.
  intros [Hl Hok]. apply encodes_list; [done|]. intros i r Hi Hgo. destruct (Forall_lookup_1 _ _ _ _ Hok Hi) as [Hr Hs]. unfold receipt_bytes in Hs. rewrite Zlen_cons in Hs.
  unfold Receipts_EncodeIndex. rewrite Hgo. cbn [obind]. rewrite (rk_type _ Hr), Z.eqb_refl, (encodeWith_emits _ (enc (to_item receiptType (receipt_val r)))) by (apply receipt_emits; [done|lia]). cbn [obind]. unfold receipt_bytes. by rewrite (rk_type _ Hr).
Qed.

Lemma typed_enc_bytes t v : typed t v -> Zlen (enc (to_item t v)) < 2 ^ 63 -> Forall is_byte (enc (to_item t v)).
Proof. intros Ht Hl. apply item_bytes_enc; [by apply typed_bytes|lia]. Qed.

Lemma txs_values txs : txs_ok txs -> Forall value_ok (map tx_bytes txs).
Proof.
  intros [_ Hok]. apply Forall_map. eapply Forall_impl; [|exact Hok]. intros tx [Htx Hs]. split_and!; [|done|done]. unfold tx_bytes in *. rewrite Zlen_cons in Hs. constructor; [unfold is_byte, DynamicFeeTxType; lia|]. apply typed_enc_bytes; [by apply tx_typed|lia].
Qed.

Lemma receipts_values rs : receipts_ok rs -> Forall value_ok (map receipt_bytes rs).
Proof.
  intros [_ Hok]. apply Forall_map. eapply Forall_impl; [|exact Hok]. intros r [Hr Hs]. split_and!; [|done|done]. unfold receipt_bytes in *. rewrite Zlen_cons in Hs. constructor; [rewrite (rk_type _ Hr); unfold is_byte, DynamicFeeTxType; lia|]. apply typed_enc_bytes; [by apply receipt_typed|lia].
Qed.

Lemma enc_Lst_nonempty its : enc (Lst its) <> [].
Proof. intros He. assert (Hz : Zlen (enc (Lst its)) = 0) by (by rewrite He). rewrite enc_Lst, Zlen_app in Hz. pose proof (hdr_pos (Zlen (encs its))). pose proof (Zlen_nonneg (encs its)). lia. Qed.

Lemma withdrawals_values ws : withdrawals_ok ws -> Forall value_ok (map withdrawal_bytes ws).
Proof.
  intros [_ Hok]. apply Forall_map. eapply Forall_impl; [|exact Hok]. intros w Hw. pose proof (withdrawal_small w Hw). split_and!; [|apply enc_Lst_nonempty|unfold withdrawal_bytes; lia]. apply typed_enc_bytes; [by apply withdrawal_typed|lia].
Qed.

(** ** The encodings determine the elements *)

Lemma map_inj_on {A B D} (f : A -> B) (g : A -> D) l : forall l', (forall x y, In x l -> In y l' -> f x = f y -> g x = g y) -> map f l = map f l' -> map g l = map g l'.
Proof.
  induction l as [|x l IH]; intros [|y l'] Hf He; try done. cbn [map] in *. injection He as He1 He2. f_equal; [apply Hf; [by left|by left|done]|]. apply IH; [|done]. intros a b Ha Hb. apply Hf; by right.
Qed.

Lemma tx_bytes_inj a b : tx_ok (Tx.inner a) -> tx_ok (Tx.inner b) -> Zlen (tx_bytes a) < 2 ^ 58 -> tx_bytes a = tx_bytes b -> Tx.inner a = Tx.inner b.
Proof.
  intros Ha Hb Hl He. unfold tx_bytes in *. rewrite Zlen_cons in Hl. apply (f_equal tail) in He. cbn [tail] in He. apply enc_inj in He; [|done|by apply tx_typed|by apply tx_typed|lia].
  pose proof (val_tx_val _ Ha) as H1. rewrite He, (val_tx_val _ Hb) in H1. congruence.
Qed.

Lemma withdrawal_bytes_inj a b : withdrawal_ok a -> withdrawal_ok b -> withdrawal_bytes a = withdrawal_bytes b -> a = b.
Proof.
  intros Ha Hb He. pose proof (withdrawal_small a Ha). apply enc_inj in He; [|done|by apply withdrawal_typed|by apply withdrawal_typed|lia]. unfold withdrawal_val, Tx.address_val in He. destruct a as [i v a m], b as [i' v' a' m']. cbn in He.
  assert (Hadr : AddressBytes a = AddressBytes a') by congruence. apply (f_equal bytes_to_Z) in Hadr. rewrite !address_roundtrip in Hadr by (apply Ha || apply Hb). congruence.
Qed.

(** The fields of a receipt that are part of consensus. *)
Definition consensus (r : Receipt) : list Z * Z * list Z * list Log := (statusEncoding r, r_CumulativeGasUsed r, r_Bloom r, map bare_log (r_Logs r)).

Lemma receipt_bytes_inj a b : receipt_ok a -> receipt_ok b -> Zlen (receipt_bytes a) < 2 ^ 58 -> receipt_bytes a = receipt_bytes b -> consensus a = consensus b.
Proof.
  intros Ha Hb Hl He. unfold receipt_bytes in *. rewrite Zlen_cons in Hl. apply (f_equal tail) in He. cbn [tail] in He. apply enc_inj in He; [|done|by apply receipt_typed|by apply receipt_typed|lia]. unfold receipt_val in He. unfold consensus.
  assert (Hlogs : map log_val (r_Logs a) = map log_val (r_Logs b)) by congruence. pose proof (logs_val _ (rk_logs _ Ha)) as H1. rewrite Hlogs, (logs_val _ (rk_logs _ Hb)) in H1. congruence.
Qed.

Lemma txs_inj l l' : txs_ok l -> txs_ok l' -> map tx_bytes l = map tx_bytes l' -> map Tx.inner l = map Tx.inner l'.
Proof.
  intros [_ H1] [_ H2]. apply map_inj_on. intros x y Hx Hy. rewrite Forall_forall in H1, H2. destruct (H1 x Hx), (H2 y Hy). by apply tx_bytes_inj.
Qed.
Lemma withdrawals_inj l l' : withdrawals_ok l -> withdrawals_ok l' -> map withdrawal_bytes l = map withdrawal_bytes l' -> l = l'.
Proof.
  intros [_ H1] [_ H2] He. rewrite <- (map_id l), <- (map_id l'). revert He. apply map_inj_on. intros x y Hx Hy. rewrite Forall_forall in H1, H2. apply withdrawal_bytes_inj; auto.
Qed.
Lemma receipts_inj l l' : receipts_ok l -> receipts_ok l' -> map receipt_bytes l = map receipt_bytes l' -> map consensus l = map consensus l'.
Proof.
  intros [_ H1] [_ H2]. apply map_inj_on. intros x y Hx Hy. rewrite Forall_forall in H1, H2. destruct (H1 x Hx), (H2 y Hy). by apply receipt_bytes_inj.
Qed.

(** ** Validation *)

Section Validation.
Context {C : Crypto} {CS : CryptoSpec C}.

Definition txs_root (txs : list Tx.Transaction) : Z := map_root (index_map (map tx_bytes txs)).
Definition withdrawals_root (ws : list Withdrawal) : Z := map_root (index_map (map withdrawal_bytes ws)).
Definition receipts_root (rs : list Receipt) : Z := map_root (index_map (map receipt_bytes rs)).

Lemma stack_sha_root l vs : encodes l vs -> Forall value_ok vs -> stack_sha l = Ret (map_root (index_map vs)).
Proof. intros He Hok. unfold stack_sha. destruct (derive_root l vs new_stack He Hok) as (s' & ->). done. Qed.

Lemma txs_sha txs : txs_ok txs -> stack_sha (Transactions txs) = Ret (txs_root txs).
Proof. intros Hok. apply stack_sha_root; [by apply transactions_encodes|by apply txs_values]. Qed.
Lemma withdrawals_sha ws : withdrawals_ok ws -> stack_sha (Withdrawals ws) = Ret (withdrawals_root ws).
Proof. intros Hok. apply stack_sha_root; [by apply withdrawals_encodes|by apply withdrawals_values]. Qed.
Lemma receipts_sha rs : receipts_ok rs -> stack_sha (Receipts rs) = Ret (receipts_root rs).
Proof. intros Hok. apply stack_sha_root; [by apply receipts_encodes|by apply receipts_values]. Qed.

Definition body_ok (b : Block) : Prop := txs_ok (b_transactions b) /\ match b_withdrawals b with Some ws => withdrawals_ok ws | None => True end.

(** The header has the roots of the body. *)
Definition roots_match (b : Block) : Prop :=
  h_TxHash (b_header b) = txs_root (b_transactions b) /\
  match h_WithdrawalsHash (b_header b), b_withdrawals b with
  | Some h, Some ws => h = withdrawals_root ws
  | None, None => True
  | _, _ => False
  end.

Lemma ValidateBody_roots HasBlockAndState HasBlock b : body_ok b -> ValidateBody HasBlockAndState HasBlock b = Ret None -> roots_match b.
Proof.
  intros [Htx Hws] Hv. unfold ValidateBody in Hv. destruct (Header_Hash (b_header b)) as [hash| |]; [|done|done]. cbn [obind] in Hv. destruct (NumberU64 b) as [n| |]; [|done|done]. cbn [obind] in Hv.
  destruct (HasBlockAndState hash n); [done|]. rewrite txs_sha in Hv by done. cbn [obind] in Hv. change (h_TxHash (Block_Header b)) with (h_TxHash (b_header b)) in Hv. change (h_WithdrawalsHash (Block_Header b)) with (h_WithdrawalsHash (b_header b)) in Hv.
  destruct (Z.eqb_spec (txs_root (b_transactions b)) (h_TxHash (b_header b))) as [Ht|]; [|done]. cbn [negb] in Hv. split; [done|]. destruct (h_WithdrawalsHash (b_header b)) as [h|], (b_withdrawals b) as [ws|]; try done.
  rewrite withdrawals_sha in Hv by done. cbn [obind] in Hv. by destruct (Z.eqb_spec (withdrawals_root ws) h).
Qed.

(** Colliding nodes in the tries of the two lists of transactions or withdrawals. *)
Definition body_collision (b b' : Block) : Prop :=
  root_collision (index_map (map tx_bytes (b_transactions b))) (index_map (map tx_bytes (b_transactions b'))) \/
  exists ws ws', b_withdrawals b = Some ws /\ b_withdrawals b' = Some ws' /\ root_collision (index_map (map withdrawal_bytes ws)) (index_map (map withdrawal_bytes ws')).

Lemma Zlen_map {A B} (f : A -> B) l : Zlen (map f l) = Zlen l.
Proof. unfold Zlen. by rewrite length_map. Qed.

(** Lists with the same root. *)
Lemma list_binding {A} (f : A -> list Z) l l' : empty_root_known -> Zlen l < 2 ^ 63 -> Zlen l' < 2 ^ 63 -> Forall value_ok (map f l) -> Forall value_ok (map f l') ->
  map_root (index_map (map f l)) = map_root (index_map (map f l')) -> map f l = map f l' \/ root_collision (index_map (map f l)) (index_map (map f l')).
Proof. intros Hemp Hl Hl' Hv Hv' He. apply derive_binding; [done|by rewrite Zlen_map|by rewrite Zlen_map|done|done|done]. Qed.

Lemma txs_binding l l' : empty_root_known -> txs_ok l -> txs_ok l' -> txs_root l = txs_root l' ->
  map Tx.inner l = map Tx.inner l' \/ root_collision (index_map (map tx_bytes l)) (index_map (map tx_bytes l')).
Proof.
  intros Hemp Hok Hok' He. destruct (list_binding tx_bytes l l' Hemp (proj1 Hok) (proj1 Hok') (txs_values _ Hok) (txs_values _ Hok') He) as [Hm|]; [left; by apply txs_inj|by right].
Qed.
Lemma withdrawals_binding l l' : empty_root_known -> withdrawals_ok l -> withdrawals_ok l' -> withdrawals_root l = withdrawals_root l' ->
  l = l' \/ root_collision (index_map (map withdrawal_bytes l)) (index_map (map withdrawal_bytes l')).
Proof.
  intros Hemp Hok Hok' He. destruct (list_binding withdrawal_bytes l l' Hemp (proj1 Hok) (proj1 Hok') (withdrawals_values _ Hok) (withdrawals_values _ Hok') He) as [Hm|]; [left; by apply withdrawals_inj|by right].
Qed.
Lemma receipts_binding l l' : empty_root_known -> receipts_ok l -> receipts_ok l' -> receipts_root l = receipts_root l' ->
  map consensus l = map consensus l' \/ root_collision (index_map (map receipt_bytes l)) (index_map (map receipt_bytes l')).
Proof.
  intros Hemp Hok Hok' He. destruct (list_binding receipt_bytes l l' Hemp (proj1 Hok) (proj1 Hok') (receipts_values _ Hok) (receipts_values _ Hok') He) as [Hm|]; [left; by apply receipts_inj|by right].
Qed.

(** [C10] A header commits to the body of its block: if [ValidateBody] accepts two blocks
    whose headers have the same transaction root and the same withdrawals root, the blocks
    have the same transactions and the same withdrawals in the same order, unless two
    different trie nodes have the same Keccak hash. *)
Theorem body_binding known has b known' has' b' : empty_root_known -> body_ok b -> body_ok b' -> h_TxHash (b_header b) = h_TxHash (b_header b') -> h_WithdrawalsHash (b_header b) = h_WithdrawalsHash (b_header b') ->
  ValidateBody known has b = Ret None -> ValidateBody known' has' b' = Ret None ->
  (map Tx.inner (b_transactions b) = map Tx.inner (b_transactions b') /\ b_withdrawals b = b_withdrawals b') \/ body_collision b b'.
Proof.
  intros Hemp Hok Hok' Ht Hw Hv Hv'. destruct (ValidateBody_roots _ _ _ Hok Hv) as [Ht1 Hw1], (ValidateBody_roots _ _ _ Hok' Hv') as [Ht2 Hw2]. destruct Hok as [Htx Hws], Hok' as [Htx' Hws']. unfold body_collision.
  destruct (txs_binding _ _ Hemp Htx Htx') as [He|]; [congruence| |by right; left]. rewrite <- Hw in Hw2.
  destruct (h_WithdrawalsHash (b_header b)) as [h|], (b_withdrawals b) as [ws|], (b_withdrawals b') as [ws'|]; try done; [|by left].
  destruct (withdrawals_binding _ _ Hemp Hws Hws') as [-> |]; [congruence|by left|]. right. right. by exists ws, ws'.
Qed.

(** ** The results of a block *)

Lemma ValidateState_accepts {D : Database} b rs gas (s s' : StateDB) : receipts_ok rs -> ValidateState b rs gas s = Ret (None, s') ->
  h_GasUsed (b_header b) = gas /\ CreateBloom (map r_Logs rs) = Ret (h_Bloom (b_header b)) /\ h_ReceiptHash (b_header b) = receipts_root rs /\
  StateDB.IntermediateRoot true s = Ret (h_Root (b_header b), s').
Proof.
  intros Hok. unfold ValidateState. destruct (Z.eqb_spec (h_GasUsed (b_header b)) gas) as [Hg|]; [|done]. cbn [negb]. unfold mlift, mthen, mret. intros Hv. destruct (CreateBloom (map r_Logs rs)) as [bl| |]; [|done|done]. cbn [obind fst snd] in Hv.
  case_bool_decide as Hb; [|done]. cbn [negb] in Hv. rewrite receipts_sha in Hv by done. cbn [obind fst snd] in Hv. destruct (Z.eqb_spec (receipts_root rs) (h_ReceiptHash (Block_Header b))) as [Hr|]; [|done]. cbn [negb] in Hv.
  destruct (StateDB.IntermediateRoot true s) as [[root s1]| |]; [|done|done]. cbn [obind fst snd] in Hv. destruct (Z.eqb_spec (h_Root (Block_Header b)) root) as [Hroot|]; [|done]. split_and!; [done|by rewrite Hb|by rewrite Hr|]. injection Hv as <-. by rewrite <- Hroot.
Qed.

(** [C29] A header commits to the results of its block: if [ValidateState] accepts two
    executions for one header, they used the same gas, their receipts agree in every
    consensus field unless two different trie nodes have the same Keccak hash, the filter
    of the header is that of the logs of both, and both states have the header's root. *)
Theorem state_binding {D : Database} b rs gas s s1 rs' gas' s' s1' : empty_root_known -> receipts_ok rs -> receipts_ok rs' ->
  ValidateState b rs gas s = Ret (None, s1) -> ValidateState b rs' gas' s' = Ret (None, s1') ->
  gas = gas' /\ (map consensus rs = map consensus rs' \/ root_collision (index_map (map receipt_bytes rs)) (index_map (map receipt_bytes rs'))) /\
  CreateBloom (map r_Logs rs) = Ret (h_Bloom (b_header b)) /\ CreateBloom (map r_Logs rs') = Ret (h_Bloom (b_header b)) /\
  StateDB.IntermediateRoot true s = Ret (h_Root (b_header b), s1) /\ StateDB.IntermediateRoot true s' = Ret (h_Root (b_header b), s1').
Proof.
  intros Hemp Hok Hok' Hv Hv'. destruct (ValidateState_accepts _ _ _ _ _ Hok Hv) as (G & B & R & I), (ValidateState_accepts _ _ _ _ _ Hok' Hv') as (G' & B' & R' & I').
  split_and!; [congruence| |done|done|done|done]. apply receipts_binding; [done|done|done|congruence].
Qed.

(** ** New blocks *)

Lemma empty_root_of {A} (f : A -> list Z) : map_root (index_map (map f [])) = EmptyRootHash.
Proof. done. Qed.

Lemma CreateBloom_total logs : exists b, CreateBloom logs = Ret b.
Proof. unfold CreateBloom. rewrite CreateBloom_each. destruct (add_each_spec (concat (map log_items (concat logs))) emptyBloom eq_refl) as (b & Hr & _). by exists b. Qed.

Section NewBlocks.
Context {S : Type} {T : TrieHasher S} {TS : TrieHasherSpec S T}.

Lemma new_txs h txs (s : S) : txs_ok txs ->
  exists s', (if Zlen txs =? 0 then mret (set_TxHash EmptyTxsHash h) else let* hash := DeriveSha (Transactions txs) in mret (set_TxHash hash h)) s = Ret (set_TxHash (txs_root txs) h, s').
Proof.
  intros Hok. destruct txs as [|tx txs]; [by exists s|]. rewrite (proj2 (Z.eqb_neq _ _)) by (rewrite Zlen_cons; pose proof (Zlen_nonneg txs); lia).
  destruct (derive_root _ _ s (transactions_encodes _ Hok) (txs_values _ Hok)) as (s' & E). exists s'. unfold mthen. by rewrite E.
Qed.

(** The filter of the header is only replaced if there are receipts. *)
Definition new_bloom (h : Header) (rs : list Receipt) (bloom : list Z) : Prop := match rs with [] => bloom = h_Bloom h | _ => CreateBloom (map r_Logs rs) = Ret bloom end.

Lemma new_receipts h rs (s : S) : receipts_ok rs ->
  exists bloom s', (if Zlen rs =? 0 then mret (set_ReceiptHash EmptyReceiptsHash h)
    else let* hash := DeriveSha (Receipts rs) in let* bloom := mlift (CreateBloom (map r_Logs rs)) in mret (set_header_Bloom bloom (set_ReceiptHash hash h))) s
    = Ret (set_header_Bloom bloom (set_ReceiptHash (receipts_root rs) h), s') /\ new_bloom h rs bloom.
Proof.
  intros Hok. destruct rs as [|r rs]; [exists (h_Bloom h), s; by destruct h|]. rewrite (proj2 (Z.eqb_neq _ _)) by (rewrite Zlen_cons; pose proof (Zlen_nonneg rs); lia).
  destruct (derive_root _ _ s (receipts_encodes _ Hok) (receipts_values _ Hok)) as (s' & E). destruct (CreateBloom_total (map r_Logs (r :: rs))) as (bl & Hbl). exists bl, s'. unfold mthen, mlift. by rewrite E, Hbl.
Qed.

(** The withdrawals root of a body that may have none. *)
Definition optional_root (ws : option (list Withdrawal)) : option Z := option_map withdrawals_root ws.
Definition given_ok (body : option Body) : Prop :=
  txs_ok (fst (default ([], None) body)) /\ match snd (default ([], None) body) with Some ws => withdrawals_ok ws | None => True end.

Lemma new_block_spec header body rs (s : S) : given_ok body -> receipts_ok rs ->
  exists bloom s', NewBlock header body rs s =
    Ret (mkBlock (set_WithdrawalsHash (optional_root (snd (default ([], None) body))) (set_header_Bloom bloom (set_ReceiptHash (receipts_root rs)
      (set_TxHash (txs_root (fst (default ([], None) body))) (CopyHeader header))))) (fst (default ([], None) body)) (snd (default ([], None) body)), s') /\
    new_bloom header rs bloom.
Proof.
  unfold given_ok, NewBlock. generalize (default ([], None) body). clear body. intros [txs ws] [Htx Hws] Hrs. cbn [fst snd] in *.
  destruct (new_txs (CopyHeader header) txs s Htx) as (s1 & E1). destruct (new_receipts (set_TxHash (txs_root txs) (CopyHeader header)) rs s1 Hrs) as (bloom & s2 & E2 & Hb). exists bloom.
  unfold mthen, mlift, mret in *. match goal with |- context [obind (?m s) _] => replace (m s) with (Ret (set_TxHash (txs_root txs) (CopyHeader header), s1)) by (symmetry; exact E1) end. cbn [obind fst snd].
  match type of E2 with _ = ?r => match goal with |- context [obind (?m s1) _] => replace (m s1) with r by (symmetry; exact E2) end end. cbn [obind fst snd]. destruct ws as [[|w ws]|]; [by exists s2| |by exists s2].
  destruct (derive_root _ _ s2 (withdrawals_encodes _ Hws) (withdrawals_values _ Hws)) as (s3 & E3). exists s3. split; [|done]. cbn [obind id fst snd]. by rewrite E3.
Qed.

(** What [ValidateBody] says of a block whose roots are those of its body: only the chain
    matters. *)
Definition chain_verdict (known has : Z -> Z -> bool) (hash number parent : Z) : option body_error :=
  if known hash number then Some ErrKnownBlock
  else if known parent (u64 (number - 1)) then None
  else if has parent (u64 (number - 1)) then Some ErrPrunedAncestor else Some ErrUnknownAncestor.

Lemma ValidateBody_matched known has b hash number : body_ok b -> roots_match b -> Header_Hash (b_header b) = Ret hash -> NumberU64 b = Ret number ->
  ValidateBody known has b = Ret (chain_verdict known has hash number (h_ParentHash (b_header b))).
Proof.
  intros [Htx Hws] [Ht Hw] Hh Hn. unfold ValidateBody, chain_verdict. rewrite Hh. cbn [obind]. rewrite Hn. cbn [obind]. destruct (known hash number); [done|]. rewrite txs_sha by done. cbn [obind].
  change (h_TxHash (Block_Header b)) with (h_TxHash (b_header b)). change (h_WithdrawalsHash (Block_Header b)) with (h_WithdrawalsHash (b_header b)). rewrite Ht, Z.eqb_refl. cbn [negb].
  destruct (h_WithdrawalsHash (b_header b)) as [h|], (b_withdrawals b) as [ws|]; try done.
  - rewrite withdrawals_sha by done. cbn [obind]. rewrite <- Hw, Z.eqb_refl. cbn [negb obind]. by destruct (known _ _), (has _ _).
  - cbn [obind]. by destruct (known _ _), (has _ _).
Qed.

(** What [ValidateState] says of a block with the root of the receipts and their gas. *)
Lemma ValidateState_matched {D : Database} b rs filter sdb : receipts_ok rs -> CreateBloom (map r_Logs rs) = Ret filter -> h_ReceiptHash (b_header b) = receipts_root rs ->
  ValidateState b rs (h_GasUsed (b_header b)) sdb =
    if negb (bool_decide (filter = h_Bloom (b_header b))) then Ret (Some (errBloom (h_Bloom (b_header b)) filter), sdb)
    else let! (root, sdb') := StateDB.IntermediateRoot true sdb in Ret (if h_Root (b_header b) =? root then None else Some (errMerkleRoot (h_Root (b_header b)) root), sdb').
Proof.
  intros Hrs Hf Hr. unfold ValidateState. change (Block_Header b) with (CopyHeader (b_header b)). cbn [h_Bloom h_ReceiptHash h_Root CopyHeader]. rewrite Z.eqb_refl. cbn [negb]. unfold mthen, mlift, mret. rewrite Hf. cbn [obind fst snd].
  destruct (negb _); [done|]. rewrite receipts_sha by done. cbn [obind fst snd]. rewrite Hr, Z.eqb_refl. cbn [negb]. destruct (StateDB.IntermediateRoot true sdb) as [[root sdb']| |]; [|done|done]. cbn [obind fst snd]. by destruct (_ =? _).
Qed.

(** [C23] Assembled blocks are valid.  For any header, any body (or none) and any receipts,
    [NewBlock] with a hasher that keeps its contract returns a block with that body.
    [ValidateBody] never finds a root of it wrong: it accepts the block on every chain that
    has the parent with its state and not the block, and the only errors are those about
    the chain.  [ValidateState] with the receipts the block was built from and the gas of
    the header compares the state root and nothing else, but for one case: without receipts
    the filter of the given header is kept, and unless it is empty the block is refused. *)
Theorem new_block_valid header body rs (s : S) : given_ok body -> receipts_ok rs ->
  exists b s', NewBlock header body rs s = Ret (b, s') /\ b_transactions b = fst (default ([], None) body) /\ b_withdrawals b = snd (default ([], None) body) /\
    (forall known has hash, Header_Hash (b_header b) = Ret hash ->
      ValidateBody known has b = Ret (chain_verdict known has hash (u64 (default 0 (h_Number header))) (h_ParentHash header))) /\
    (forall (D : Database) sdb, ValidateState b rs (h_GasUsed header) sdb =
      if match rs with [] => negb (bool_decide (h_Bloom header = emptyBloom)) | _ => false end then Ret (Some (errBloom (h_Bloom header) emptyBloom), sdb)
      else let! (root, sdb') := StateDB.IntermediateRoot true sdb in Ret (if h_Root header =? root then None else Some (errMerkleRoot (h_Root header) root), sdb')).
Proof.
  intros Hb Hrs. destruct (new_block_spec header body rs s Hb Hrs) as (bloom & s' & E & Hbl). eexists _, s'. split; [exact E|]. split_and!; [done|done| |].
  - intros known has hash Hh. match goal with |- ValidateBody _ _ ?b = _ => refine (ValidateBody_matched known has b hash _ Hb _ Hh eq_refl) end. split; [done|]. cbn. by destruct (snd (default ([], None) body)).
  - intros D sdb. destruct (CreateBloom_total (map r_Logs rs)) as (filter & Hf). match goal with |- ValidateState ?b _ _ _ = _ => refine (eq_trans (ValidateState_matched b rs filter sdb Hrs Hf eq_refl) _) end. cbn [b_header h_Bloom h_Root set_WithdrawalsHash set_header_Bloom set_ReceiptHash set_TxHash CopyHeader].
    destruct rs as [|r rs]; [|replace bloom with filter by (unfold new_bloom in Hbl; congruence); by rewrite bool_decide_eq_true_2].
    cbn in Hbl. subst bloom. injection Hf as <-. by rewrite (bool_decide_ext (emptyBloom = h_Bloom header) (h_Bloom header = emptyBloom)).
Qed.

End NewBlocks.
End Validation.

(** ** A concrete block *)

#[local] Existing Instance root_crypto.
#[local] Existing Instance root_crypto_ok.
#[local] Existing Instance demo_database.

(** A transaction, and the same one with a cached size. *)
Definition toy_txs : list Tx.Transaction := [demo_new].
Definition toy_txs' : list Tx.Transaction := [Tx.mkTransaction demo_tx None (Some 100) None].
Definition toy_withdrawals : list Withdrawal := [mkWithdrawal 1 2 9 1000].

Lemma toy_txs_ok : txs_ok toy_txs.
Proof. split; [vm_compute; reflexivity|]. constructor; [|constructor]. split; [exact demo_tx_ok|vm_compute; reflexivity]. Qed.
Lemma toy_txs_ok' : txs_ok toy_txs'.
Proof. split; [vm_compute; reflexivity|]. constructor; [|constructor]. split; [exact demo_tx_ok|vm_compute; reflexivity]. Qed.
Lemma toy_withdrawals_ok : withdrawals_ok toy_withdrawals.
Proof. split; [vm_compute; reflexivity|]. constructor; [|constructor]. split; cbn; unfold in64, in160; lia. Qed.
Lemma toy_receipts_ok : receipts_ok [toy_receipt].
Proof. split; [vm_compute; reflexivity|]. constructor; [|constructor]. split; [exact toy_receipt_ok|vm_compute; reflexivity]. Qed.

(** The block with its roots, as [NewBlock] makes it. *)
Definition toy_header : Header := mkHeader 11 7 0 0 0 emptyBloom (Some 5) 30000 21000 1000 [] 55 (Some 7) None.
Definition toy_block : Block := match NewBlock toy_header (Some (toy_txs, Some toy_withdrawals)) [toy_receipt] new_stack with Ret (b, _) => b | _ => mkBlock toy_header [] None end.
Definition toy_known (hash n : Z) : bool := n =? 4.
Definition toy_state : StateDB := StateDB.New 0 (mkDemoTrie ∅ ∅).

Lemma body_binding_witness : (map Tx.inner toy_txs = map Tx.inner toy_txs' /\ Some toy_withdrawals = Some toy_withdrawals) \/ body_collision toy_block (mkBlock (b_header toy_block) toy_txs' (Some toy_withdrawals)).
Proof.
  apply (body_binding toy_known toy_known toy_block toy_known toy_known (mkBlock (b_header toy_block) toy_txs' (Some toy_withdrawals))).
  - exact root_crypto_empty.
  - exact (conj toy_txs_ok toy_withdrawals_ok).
  - exact (conj toy_txs_ok' toy_withdrawals_ok).
  - vm_compute. reflexivity.
  - vm_compute. reflexivity.
  - vm_compute. reflexivity.
  - vm_compute. reflexivity.
Defined.

(** A block with a receipt is accepted; one without, built on a header with a filter, is not. *)
Definition toy_filtered : Header := set_header_Bloom toy_bloom toy_header.

Lemma new_block_valid_witness :
  (exists b s', NewBlock toy_header (Some (toy_txs, Some toy_withdrawals)) [toy_receipt] toy_trie = Ret (b, s') /\ ValidateBody toy_known toy_known b = Ret None) /\
  (exists b s', NewBlock toy_filtered None [] toy_trie = Ret (b, s') /\ ValidateState b [] 21000 toy_state = Ret (Some (errBloom toy_bloom emptyBloom), toy_state)).
Proof.
  split.
  - destruct (new_block_valid toy_header (Some (toy_txs, Some toy_withdrawals)) [toy_receipt] toy_trie) as (b & s' & E & _ & _ & Hv & _); [exact (conj toy_txs_ok toy_withdrawals_ok)|exact toy_receipts_ok|].
    exists b, s'. split; [exact E|]. assert (Hh : exists hash, Header_Hash (b_header b) = Ret hash).
    { assert (Hb : (match NewBlock toy_header (Some (toy_txs, Some toy_withdrawals)) [toy_receipt] toy_trie with Ret (b, _) => b | _ => mkBlock toy_header [] None end) = b) by (by rewrite E). rewrite <- Hb. eexists. vm_compute. reflexivity. }
    destruct Hh as [hash Hh]. exact (Hv toy_known toy_known hash Hh).
  - destruct (new_block_valid toy_filtered None [] toy_trie) as (b & s' & E & _ & _ & _ & Hv); [repeat split; constructor|repeat split; constructor|].
    exists b, s'. split; [exact E|]. exact (Hv demo_database toy_state).
Defined.

(** Two executions with the same receipt, once with other derived fields. *)
Definition toy_receipt' : Receipt := mkReceipt DynamicFeeTxType [] ReceiptStatusSuccessful 21000 toy_bloom [bare_log toy_log] 0 0 0 None 0 None 0.

Lemma toy_receipts_ok' : receipts_ok [toy_receipt'].
Proof.
  destruct toy_receipt_ok as [H1 H2 H3 H4 H5 H6 H7]. split; [vm_compute; reflexivity|]. constructor; [|constructor]. split; [|vm_compute; reflexivity].
  refine (Build_receipt_ok toy_receipt' H1 H2 H3 H4 H5 H6 _). constructor; [|constructor]. apply Forall_cons_1 in H7 as [H7 _]. exact (bare_log_ok _ H7).
Qed.

Definition toy_after (r : Receipt) : StateDB := match ValidateState toy_block [r] 21000 toy_state with Ret (_, s) => s | _ => toy_state end.

Lemma state_binding_witness : ValidateState toy_block [toy_receipt] 21000 toy_state = Ret (None, toy_after toy_receipt) /\
  (map consensus [toy_receipt] = map consensus [toy_receipt'] \/ root_collision (index_map (map receipt_bytes [toy_receipt])) (index_map (map receipt_bytes [toy_receipt']))).
Proof.
  assert (Hv : ValidateState toy_block [toy_receipt] 21000 toy_state = Ret (None, toy_after toy_receipt)) by (vm_cast_no_check (@eq_refl (outcome (option state_error * StateDB)) (Ret (None, toy_after toy_receipt)))).
  assert (Hv' : ValidateState toy_block [toy_receipt'] 21000 toy_state = Ret (None, toy_after toy_receipt')) by (vm_cast_no_check (@eq_refl (outcome (option state_error * StateDB)) (Ret (None, toy_after toy_receipt')))).
  split; [exact Hv|]. apply (state_binding toy_block [toy_receipt] 21000 toy_state (toy_after toy_receipt) [toy_receipt'] 21000 toy_state (toy_after toy_receipt')); [exact root_crypto_empty|exact toy_receipts_ok|exact toy_receipts_ok'|exact Hv|exact Hv'].
Defined.
