(* ===== verification/AccountCodec.v ===== *)
(** * Accounts as bytes (core/types/state_account.go, gen_account_rlp.go)

    The consensus form of an account, which the state trie holds, and the slim form of
    the snapshot, which leaves out the root of an empty storage and the hash of no code. *)

From S2P Require Import Prelude Uint256 VMCommon Rlp RlpStream RlpCodec RlpTyped RlpTypes Receipts StateTypes Transactions TxTheorems Blocks BlockTheorems HashFn Processor DeriveSha TrieCodec.
Import Rlp Decode Encode.

(** ** The consensus form *)

(** [EncodeRLP]; a balance is never nil here. *)
Definition StateAccount_EncodeRLP (obj : StateAccount) : W :=
  wlist (wall [wok (writeUint64 (Nonce obj)); writeBigPtr (Some (Balance obj)); wok (writeBytes (HashBytes (Root obj))); wok (writeBytes (CodeHash obj))]).

Definition accountType : rtype := RStruct [RUint 64; RBig; RByteArray 32; RBytes].

Definition val_account (v : rval) : option StateAccount :=
  match v with
  | VList [VUint nonce; VBig (Some balance); VBytes root; VBytes codeHash] => Some (mkAccount nonce balance (bytes_to_Z root) codeHash)
  | _ => None
  end.

(** [rlp.DecodeBytes] into an account. *)
Definition StateAccount_decode (b : list Z) : outcome (rlp_error + StateAccount) :=
  let! r := DecodeBytes accountType b in
  match r with inl e => Ret (inl e) | inr v => let! a := deref (val_account v) in Ret (inr a) end.

(** ** The slim form *)

Definition slimType : rtype := RStruct [RUint 64; RBig; RBytes; RBytes].

Definition val_slim (v : rval) : option SlimAccount :=
  match v with
  | VList [VUint nonce; VBig (Some balance); VBytes root; VBytes codeHash] => Some (mkSlim nonce balance root codeHash)
  | _ => None
  end.

Section Slim.
Context {C : Crypto}.

Definition FullAccount (data : list Z) : outcome (rlp_error + StateAccount) :=
  let! r := DecodeBytes slimType data in
  match r with
  | inl e => Ret (inl e)
  | inr v =>
      let! slim := deref (val_slim v) in
      Ret (inr (mkAccount (slNonce slim) (slBalance slim)
        (if Zlen (slRoot slim) =? 0 then EmptyRootHash else BytesToHash (slRoot slim))
        (if Zlen (slCodeHash slim) =? 0 then HashBytes EmptyCodeHash else slCodeHash slim)))
  end.

Definition FullAccountRLP (data : list Z) : outcome (rlp_error + list Z) :=
  let! r := FullAccount data in
  match r with
  | inl e => Ret (inl e)
  | inr account => encodeWith (StateAccount_EncodeRLP account)
  end.

End Slim.

(** ** What Go's types guarantee *)

Record account_ok (a : StateAccount) : Prop := {
  ak_nonce : in64 (Nonce a);
  ak_balance : 0 <= Balance a;
  ak_root : in256 (Root a);
  ak_code : Forall is_byte (CodeHash a)
}.

Definition account_val (a : StateAccount) : rval := VList [VUint (Nonce a); VBig (Some (Balance a)); hash_val (Root a); VBytes (CodeHash a)].
Definition account_bytes (a : StateAccount) : list Z := enc (to_item accountType (account_val a)).

Definition slim_val (s : SlimAccount) : rval := VList [VUint (slNonce s); VBig (Some (slBalance s)); VBytes (slRoot s); VBytes (slCodeHash s)].

Lemma account_typed a : account_ok a -> typed accountType (account_val a).
Proof. intros []. unfold accountType, account_val. cbn [typed zip_typed hash_val]. unfold in64 in *. fields. Qed.

Lemma val_account_val a : account_ok a -> val_account (account_val a) = Some a.
Proof. intros []. destruct a. cbn in *. by rewrite hash_roundtrip. Qed.

Lemma typed_account v : typed accountType v -> exists a, account_ok a /\ v = account_val a.
Proof.
  destruct v as [| | | |l|]; try done. unfold accountType. change (typed (RStruct ?ts) (VList l)) with (zip_typed typed ts l). intros Hz.
  do 4 (destruct l as [|? l]; [by destruct Hz|destruct Hz as [? Hz]]). destruct l; [|by destruct Hz].
  repeat match goal with
  | H : typed RBig _ |- _ => apply typed_big_inv in H as ([?|] & -> & ?); [|done]
  | H : typed (RUint 64) _ |- _ => apply typed_uint_inv in H as (? & -> & ?)
  | H : typed RBytes _ |- _ => apply typed_bytes_inv in H as (? & -> & ?)
  | H : typed (RByteArray 32) _ |- _ => apply typed_hash_inv in H as (? & -> & ?)
  end.
  eexists (mkAccount _ _ _ _). split; [|reflexivity]. by split.
Qed.

Lemma StateAccount_decode_spec b : Forall is_byte b -> Zlen b < 2 ^ 63 ->
  exists r, StateAccount_decode b = Ret r /\ forall a, r = inr a <-> account_ok a /\ b = account_bytes a.
Proof. by apply decode_with_spec; auto using account_typed, val_account_val, typed_account. Qed.

(** ** Writing *)

Lemma account_emits a : account_ok a -> Zlen (account_bytes a) < 2 ^ 63 -> emits (StateAccount_EncodeRLP a) (account_bytes a).
Proof.
  intros [] Hs. unfold account_bytes, account_val, accountType in *. cbn [to_item zip_items hash_val] in *. apply emits_Lst; [lia|].
  constructor; [by apply emits_uint|]. constructor.
  - assert (Hb : Zlen (enc (Str (min_bytes (Balance a)))) < 2 ^ 63) by (eapply small_items; [exact Hs|member]). apply emits_item; [lia|]. apply writes_big; [done|cbn [enc] in Hb; lia].
  - constructor; [eapply emits_Str; [exact Hs|member]|]. constructor; [eapply emits_Str; [exact Hs|member]|constructor].
Qed.

Lemma account_encode a : account_ok a -> Zlen (account_bytes a) < 2 ^ 63 -> encodeWith (StateAccount_EncodeRLP a) = Ret (inr (account_bytes a)).
Proof. intros Ha Hs. by apply encodeWith_emits, account_emits. Qed.

Lemma account_bytes_ok a : account_ok a -> Zlen (account_bytes a) < 2 ^ 63 -> Forall is_byte (account_bytes a) /\ account_bytes a <> [].
Proof.
  intros Ha Hs. split; [apply item_bytes_enc; [by eapply typed_bytes, account_typed|unfold account_bytes in Hs; lia]|].
  apply enc_app_nonempty.
Qed.

Lemma account_decode a : account_ok a -> Zlen (account_bytes a) < 2 ^ 63 -> StateAccount_decode (account_bytes a) = Ret (inr a).
Proof. intros Ha Hs. destruct (StateAccount_decode_spec (account_bytes a)) as (r & -> & Hiff); [by apply account_bytes_ok|done|]. f_equal. by apply Hiff. Qed.

Lemma account_bytes_inj a a' : account_ok a -> account_ok a' -> Zlen (account_bytes a) < 2 ^ 63 -> account_bytes a = account_bytes a' -> a = a'.
Proof. intros Ha Ha' Hs He. pose proof (account_decode a Ha Hs) as H1. rewrite He, account_decode in H1; congruence. Qed.

(** ** The slim form is a second encoding *)

Section SlimTheorems.
Context {C : Crypto}.

(** The struct that [SlimAccountRLP] fills. *)
Definition to_slim (a : StateAccount) : SlimAccount :=
  mkSlim (Nonce a) (Balance a) (if Root a =? EmptyRootHash then [] else HashBytes (Root a))
    (if bool_decide (CodeHash a = HashBytes EmptyCodeHash) then [] else CodeHash a).

Definition slim_bytes (a : StateAccount) : list Z := enc (to_item slimType (slim_val (to_slim a))).

Lemma slim_typed a : account_ok a -> typed slimType (slim_val (to_slim a)).
Proof.
  intros []. unfold slimType, slim_val. cbn [typed zip_typed]. unfold in64 in *. cbn [to_slim slNonce slBalance slRoot slCodeHash]. fields.
  - destruct (_ =? _); [constructor|apply Z_to_bytes_byte].
  - case_bool_decide; [constructor|done].
Qed.

Lemma slim_encode a : account_ok a -> Zlen (slim_bytes a) < 2 ^ 63 -> SlimAccountRLP a = Ret (slim_bytes a).
Proof.
  intros Hok Hs. set (s := to_slim a). set (w := wlist (wall [wok (writeUint64 (slNonce s)); wok (writeBigInt (slBalance s)); wok (writeBytes (slRoot s)); wok (writeBytes (slCodeHash s))])).
  assert (He : emits w (slim_bytes a)).
  { unfold slim_bytes, slim_val, slimType in *. fold s in Hs |- *. cbn [to_item zip_items] in *. apply emits_Lst; [lia|]. constructor; [apply emits_uint, Hok|]. constructor.
    - assert (Hb : Zlen (enc (Str (min_bytes (slBalance s)))) < 2 ^ 63) by (eapply small_items; [exact Hs|member]). apply emits_item; [lia|]. intros buf. rewrite wr_str by (cbn [enc] in Hb; lia).
      unfold wok. rewrite writeBigInt_min; [done|apply Hok|cbn [enc] in Hb; lia].
    - constructor; [eapply emits_Str; [exact Hs|member]|]. constructor; [eapply emits_Str; [exact Hs|member]|constructor]. }
  apply encodeWith_emits in He. unfold SlimAccountRLP. rewrite (proj2 (Z.ltb_ge _ _)) by apply Hok. unfold encodeWith, w, wlist, wall, wthen, wok in He. cbn [slNonce slBalance slRoot slCodeHash s to_slim obind] in He.
  destruct (list_begin reset) as [off buf]. cbn [obind] in He. unfold id in He. destruct (listEnd _ _) as [b| |]; cbn [obind] in *; [|done|done]. destruct (makeBytes b); cbn in *; congruence.
Qed.

(** Both forms are read back; an account always has a code hash. *)
Theorem account_forms a : account_ok a -> CodeHash a <> [] -> Zlen (account_bytes a) < 2 ^ 62 -> Zlen (slim_bytes a) < 2 ^ 62 ->
  (exists b, encodeWith (StateAccount_EncodeRLP a) = Ret (inr b) /\ StateAccount_decode b = Ret (inr a)) /\
  (exists b, SlimAccountRLP a = Ret b /\ FullAccount b = Ret (inr a) /\ FullAccountRLP b = encodeWith (StateAccount_EncodeRLP a)).
Proof.
  intros Ha Hc Hs Hs'. split; [exists (account_bytes a); split; [apply account_encode|apply account_decode]; done || lia|].
  exists (slim_bytes a). split; [apply slim_encode; [done|lia]|]. assert (Hf : FullAccount (slim_bytes a) = Ret (inr a)).
  { destruct (DecodeBytes_spec slimType (slim_bytes a) eq_refl) as (r & Hr & Hiff); [apply item_bytes_enc; [by eapply typed_bytes, slim_typed|unfold slim_bytes in Hs'; lia]|lia|].
    unfold FullAccount. rewrite Hr. assert (r = inr (slim_val (to_slim a))) as -> by (apply Hiff; split; [by apply slim_typed|done]). cbn [obind slim_val val_slim deref slNonce slBalance slRoot slCodeHash to_slim].
    destruct a as [n b r c]. cbn [Nonce Balance Root CodeHash] in *. do 2 f_equal. destruct Ha. cbn in *. f_equal.
    - destruct (Z.eqb_spec r EmptyRootHash) as [-> |Hne]; [done|]. rewrite BytesToHash_HashBytes by done. unfold HashBytes, Zlen. by rewrite length_Z_to_bytes.
    - case_bool_decide as Hb; [by rewrite Hb|]. by destruct c. }
  split; [done|]. unfold FullAccountRLP. by rewrite Hf.
Qed.

End SlimTheorems.
