(* ===== verification/SecureTrie.v ===== *)
(** * The state trie (trie/secure_trie.go, trie/preimages.go)

    A trie whose keys are hashed, with accounts or storage slots as values.  It remembers
    the keys it hashed, so that they can be found again. *)

From stdpp Require Import gmap.
From S2P Require Import Prelude VMCommon Rlp RlpStream StateTypes Blocks TrieEncoding TrieNode TrieHasher Trie TrieCommit AccountCodec.
Import Rlp Decode Encode.

Abbreviation store := (gmap (list Z) (list Z)).

(** ** Preimages *)

(** The database under the store of preimages is a map from keys to values; a store
    may be shared, so the operations that use it take it as an argument. *)
Record preimageStore : Type := mkPreimages { ps_disk : store; ps_preimages : gmap Z (list Z); ps_size : Z }.

Definition newPreimageStore (disk : store) : preimageStore := mkPreimages disk ∅ 0.

(** [rawdb]: "secure-key-" and the hash. *)
Definition PreimagePrefix : list Z := [115; 101; 99; 117; 114; 101; 45; 107; 101; 121; 45].
Definition preimageKey (hash : Z) : list Z := PreimagePrefix ++ HashBytes hash.
Definition ReadPreimage (db : store) (hash : Z) : option (list Z) := db !! preimageKey hash.
Definition WritePreimages (preimages : gmap Z (list Z)) (db : store) : store :=
  foldr (fun '(hash, preimage) => <[preimageKey hash := preimage]>) db (map_to_list preimages).

Definition insert_one (hash : Z) (preimage : list Z) (st : preimageStore) : preimageStore :=
  if bool_decide (is_Some (ps_preimages st !! hash)) then st
  else mkPreimages (ps_disk st) (<[hash := preimage]> (ps_preimages st)) (ps_size st + (32 + Zlen preimage)).

Definition insertPreimage (preimages : gmap Z (list Z)) (st : preimageStore) : preimageStore :=
  foldr (fun '(hash, preimage) => insert_one hash preimage) st (map_to_list preimages).

(** A cached preimage is never nil. *)
Definition preimage (hash : Z) (st : preimageStore) : option (list Z) :=
  match ps_preimages st !! hash with Some p => Some p | None => ReadPreimage (ps_disk st) hash end.

(** [commit]; [write_ok] is whether the batch could be written. *)
Definition commit_preimages (write_ok force : bool) (st : preimageStore) : bool * preimageStore :=
  if (ps_size st <=? 4 * 1024 * 1024) && negb force then (true, st)
  else if negb write_ok then (false, st)
  else (true, mkPreimages (WritePreimages (ps_preimages st) (ps_disk st)) ∅ 0).

(** ** The trie *)

(** [st_owns] says that [secKeyCacheOwner] points to the trie itself, [st_preimages] that
    it has a store of preimages. *)
Record StateTrie : Type := mkStateTrie { st_trie : Trie; st_preimages : bool; st_secKeyCache : store; st_owns : bool }.

Definition set_trie (t : Trie) (s : StateTrie) : StateTrie := mkStateTrie t (st_preimages s) (st_secKeyCache s) (st_owns s).
Definition set_cache (c : store) (s : StateTrie) : StateTrie := mkStateTrie (st_trie s) (st_preimages s) c true.

Inductive state_error : Type :=
| errTrie (e : trie_error)
| errRlp (e : rlp_error).

Definition on_trie {A} (m : M Trie A) : M StateTrie A := fun s =>
  let! (a, t) := m (st_trie s) in
  Ret (a, set_trie t s).

Section StateTrie.
Context {C : Crypto}.

(** [NewStateTrie] *)
Definition NewStateTrie (id : ID) (db : trie_database) (preimages : bool) : outcome (trie_error + StateTrie) :=
  let! r := New id db in
  Ret (match r with inl err => inl err | inr t => inr (mkStateTrie t preimages ∅ false) end).

Definition hashKey (key : list Z) : list Z := HashBytes (Keccak256Hash key).

(** A cache of another trie is replaced by an empty one. *)
Definition getSecKeyCache : M StateTrie store :=
  let* s := mget in
  if st_owns s then mret (st_secKeyCache s) else mmodify (set_cache ∅) ;;; mret ∅.

Definition remember (hk key : list Z) : M StateTrie unit := let* c := getSecKeyCache in mmodify (set_cache (<[hk := key]> c)).
Definition forget (hk : list Z) : M StateTrie unit := let* c := getSecKeyCache in mmodify (set_cache (base.delete hk c)).

(** The wrappers of trie.go that only log errors. *)
Definition Trie_MustGet (key : list Z) : M Trie (option (list Z)) :=
  let* r := Get key in
  mret (match r with inl _ => None | inr v => v end).
Definition Trie_MustUpdate (key value : list Z) : M Trie unit := let* _ := Update key value in mret tt.
Definition Trie_MustDelete (key : list Z) : M Trie unit := let* _ := Delete key in mret tt.

Definition MustGet (key : list Z) : M StateTrie (option (list Z)) := on_trie (Trie_MustGet (hashKey key)).
Definition MustUpdate (key value : list Z) : M StateTrie unit :=
  let hk := hashKey key in
  on_trie (Trie_MustUpdate hk value) ;;;
  remember hk key.
Definition MustDelete (key : list Z) : M StateTrie unit :=
  let hk := hashKey key in
  forget hk ;;;
  on_trie (Trie_MustDelete hk).

(** [GetStorage]: nil is the empty list. *)
Definition GetStorage (key : list Z) : M StateTrie (state_error + list Z) :=
  let* enc := on_trie (Get (hashKey key)) in
  match enc with
  | inl err => mret (inl (errTrie err))
  | inr enc =>
      let enc := default [] enc in
      if Zlen enc =? 0 then mret (inr [])
      else
        let* r := mlift (Split enc) in
        mret (match r with inl err => inl (errRlp err) | inr (_, content, _) => inr content end)
  end.

(** [GetAccountByHash]; what is left of an account that does not decode is dropped. *)
Definition GetAccountByHash (addrHash : Z) : M StateTrie (state_error + option StateAccount) :=
  let* res := on_trie (Get (HashBytes addrHash)) in
  match res with
  | inl err => mret (inl (errTrie err))
  | inr None => mret (inr None)
  | inr (Some res) =>
      let* r := mlift (StateAccount_decode res) in
      mret (match r with inl err => inl (errRlp err) | inr ret => inr (Some ret) end)
  end.

Definition GetAccount (address : Z) : M StateTrie (state_error + option StateAccount) :=
  let* res := on_trie (Get (hashKey (AddressBytes address))) in
  match res with
  | inl err => mret (inl (errTrie err))
  | inr None => mret (inr None)
  | inr (Some res) =>
      let* r := mlift (StateAccount_decode res) in
      mret (match r with inl err => inl (errRlp err) | inr ret => inr (Some ret) end)
  end.

(** [UpdateStorage]: the encoding of a byte string has no errors. *)
Definition UpdateStorage (key value : list Z) : M StateTrie (option state_error) :=
  let hk := hashKey key in
  let* v := mlift (encodeWith (wok (writeBytes value))) in
  let* err := on_trie (Update hk (match v with inl _ => [] | inr v => v end)) in
  match err with
  | inl err => mret (Some (errTrie err))
  | inr _ => remember hk key ;;; mret None
  end.

Definition UpdateAccount (address : Z) (acc : StateAccount) : M StateTrie (option state_error) :=
  let hk := hashKey (AddressBytes address) in
  let* data := mlift (encodeWith (StateAccount_EncodeRLP acc)) in
  match data with
  | inl err => mret (Some (errRlp err))
  | inr data =>
      let* err := on_trie (Update hk data) in
      match err with
      | inl err => mret (Some (errTrie err))
      | inr _ => remember hk (AddressBytes address) ;;; mret None
      end
  end.

Definition DeleteStorage (key : list Z) : M StateTrie (option state_error) :=
  let hk := hashKey key in
  forget hk ;;;
  let* err := on_trie (Delete hk) in
  mret (match err with inl err => Some (errTrie err) | inr _ => None end).

Definition DeleteAccount (address : Z) : M StateTrie (option state_error) :=
  let hk := hashKey (AddressBytes address) in
  forget hk ;;;
  let* err := on_trie (Delete hk) in
  mret (match err with inl err => Some (errTrie err) | inr _ => None end).

Definition State_Hash : M StateTrie Z := on_trie Hash.

Definition State_GetNode (path : list Z) : M StateTrie (trie_error + (option (list Z) * Z)) := on_trie (GetNode path).

Definition State_Copy (s : StateTrie) : StateTrie := mkStateTrie (Copy (st_trie s)) (st_preimages s) (st_secKeyCache s) false.

(** [GetKey] *)
Definition GetKey (ps : preimageStore) (shaKey : list Z) : M StateTrie (option (list Z)) :=
  let* c := getSecKeyCache in
  match c !! shaKey with
  | Some key => mret (Some key)
  | None =>
      let* s := mget in
      mret (if st_preimages s then preimage (BytesToHash shaKey) ps else None)
  end.

(** [Commit], with the store of preimages after it. *)
Definition State_Commit (collectLeaf : bool) (ps : preimageStore) : M StateTrie (Z * option NodeSet * preimageStore) :=
  let* c := getSecKeyCache in
  let* s := mget in
  let ps := if bool_decide (c = ∅) || negb (st_preimages s) then ps
            else insertPreimage (list_to_map (map (fun '(hk, key) => (BytesToHash hk, key)) (map_to_list c))) ps in
  (if bool_decide (c = ∅) then mret tt else mmodify (set_cache ∅)) ;;;
  let* (root, nodes) := on_trie (Commit collectLeaf) in
  mret (root, nodes, ps).

End StateTrie.
