(* ===== verification/SecureTheorems.v ===== *)
(** * The state trie is a map from addresses, or slots, to values

    Accounts and storage slots are stored alike, under the hash of their key; the class
    [Secured] has what differs.  As long as the keys in use do not collide, the trie
    answers as a finite map does, and equal roots mean equal maps. *)

From stdpp Require Import gmap.
From S2P Require Import Prelude Uint256 VMCommon Rlp RlpStream RlpCodec RlpTyped RlpTypes Receipts StateTypes Transactions Blocks BlockTheorems TrieEncoding TrieNode TrieHasher TrieTree TrieCodec Trie TrieSim TrieMap TrieTheorems TrieCommit AccountCodec SecureTrie.
Import Rlp Decode Encode.

(** ** Values under hashed keys *)

(** Keys and values as bytes, what a lookup replies, and the operations. *)
Class Secured (K V R : Type) : Type := {
  sec_key : K -> list Z;
  sec_bytes : V -> list Z;
  sec_ok : V -> Prop;
  sec_reply : option V -> R;
  sec_get : K -> M StateTrie (state_error + R);
  sec_put : K -> V -> M StateTrie (option state_error);
  sec_del : K -> M StateTrie (option state_error)
}.

Class SecuredSpec {C : Crypto} {K V R} (S : Secured K V R) : Prop := {
  sec_bytes_ok : forall v, sec_ok v -> Forall is_byte (sec_bytes v) /\ sec_bytes v <> [] /\ Zlen (sec_bytes v) < 2 ^ 58;
  sec_get_run : forall k s r t, Get (hashKey (sec_key k)) (st_trie s) = Ret (r, t) ->
    match r with
    | inl e => sec_get k s = Ret (inl (errTrie e), set_trie t s)
    | inr b => forall v, b = sec_bytes <$> v -> (forall x, v = Some x -> sec_ok x) -> sec_get k s = Ret (inr (sec_reply v), set_trie t s)
    end;
  sec_put_run : forall k v s r t, sec_ok v -> Update (hashKey (sec_key k)) (sec_bytes v) (st_trie s) = Ret (r, t) ->
    exists s', sec_put k v s = Ret (match r with inl e => Some (errTrie e) | inr _ => None end, s') /\ st_trie s' = t;
  sec_del_run : forall k s r t, Delete (hashKey (sec_key k)) (st_trie s) = Ret (r, t) ->
    exists s', sec_del k s = Ret (match r with inl e => Some (errTrie e) | inr _ => None end, s') /\ st_trie s' = t
}.

#[export] Instance account_trie {C : Crypto} : Secured Z StateAccount (option StateAccount) := {|
  sec_key := AddressBytes;
  sec_bytes := account_bytes;
  sec_ok a := account_ok a /\ Zlen (account_bytes a) < 2 ^ 58;
  sec_reply a := a;
  sec_get := GetAccount;
  sec_put := UpdateAccount;
  sec_del := DeleteAccount
|}.

#[export] Instance storage_trie {C : Crypto} : Secured (list Z) (list Z) (list Z) := {|
  sec_key k := k;
  sec_bytes v := enc (Str v);
  sec_ok v := Forall is_byte v /\ Zlen v < 2 ^ 57;
  sec_reply v := default [] v;
  sec_get := GetStorage;
  sec_put := UpdateStorage;
  sec_del := DeleteStorage
|}.

Section Instances.
Context {C : Crypto}.

(** Remembering and forgetting a key leaves the trie alone. *)
Lemma remember_trie hk key s : exists s', remember hk key s = Ret (tt, s') /\ st_trie s' = st_trie s.
Proof. unfold remember, getSecKeyCache. mrun. destruct (st_owns s); mrun; eexists; split; done. Qed.

Lemma forget_trie hk s : exists s', forget hk s = Ret (tt, s') /\ st_trie s' = st_trie s.
Proof. unfold forget, getSecKeyCache. mrun. destruct (st_owns s); mrun; eexists; split; done. Qed.

Lemma forget_delete hk s r t : Delete hk (st_trie s) = Ret (r, t) ->
  exists s', (forget hk ;;; let* err := on_trie (Delete hk) in mret (match err with inl err => Some (errTrie err) | inr _ => None end)) s =
    Ret (match r with inl e => Some (errTrie e) | inr _ => None end, s') /\ st_trie s' = t.
Proof.
  intros Hd. destruct (forget_trie hk s) as (s1 & Hf & Ht). mrun. rewrite Hf. mrun. unfold on_trie. rewrite Ht, Hd. mrun. eexists. split; done.
Qed.

Ltac sec := cbn [sec_key sec_bytes sec_ok sec_reply sec_get sec_put sec_del account_trie storage_trie] in *.

#[export] Instance account_trie_spec : SecuredSpec account_trie.
Proof.
  split.
  - intros v [Hok Hs]. sec. destruct (account_bytes_ok v Hok ltac:(lia)). auto.
  - intros k s r t Hg. sec. destruct r as [e|b].
    + unfold GetAccount. mrun. unfold on_trie. rewrite Hg. by mrun.
    + intros v -> Hv. unfold GetAccount. mrun. unfold on_trie. rewrite Hg. mrun. destruct v as [a|]; cbn [fmap option_fmap option_map]; mrun; [|done]. destruct (Hv a eq_refl) as [Hok Hs].
      rewrite account_decode by (done || lia). by mrun.
  - intros k v s r t [Hok Hs] Hu. sec. unfold UpdateAccount. mrun. unfold mlift. rewrite account_encode by (done || lia). mrun. unfold on_trie. rewrite Hu. mrun. destruct r as [e|u]; mrun.
    + eexists. split; done.
    + destruct (remember_trie (hashKey (AddressBytes k)) (AddressBytes k) (set_trie t s)) as (s' & Hr & Ht). rewrite Hr. mrun. by exists s'.
  - intros k s r t Hd. sec. exact (forget_delete (hashKey (AddressBytes k)) s r t Hd).
Qed.

Lemma Zlen_slot v : Zlen v < 2 ^ 57 -> Zlen (enc (Str v)) < 2 ^ 58.
Proof. intros Hv. pose proof (Zlen_enc_Str v ltac:(lia)). lia. Qed.

Lemma Split_slot v : Forall is_byte v -> Zlen v < 2 ^ 57 -> exists kind, Split (enc (Str v)) = Ret (inr (kind, v, [])).
Proof.
  intros Hb Hs. pose proof (Zlen_slot v Hs) as Hl. cbn [enc] in *. destruct (tagged_enc_str v Hb) as (kind & _ & Hc & He). rewrite He in *. exists kind.
  rewrite <- (app_nil_r (tagged kind v)). apply Split_tagged; [done|done|constructor|]. rewrite app_nil_r. lia.
Qed.

#[export] Instance storage_trie_spec : SecuredSpec storage_trie.
Proof.
  split.
  - intros v [Hok Hs]. sec. pose proof (Zlen_slot v Hs). split; [|split; [apply enc_app_nonempty|exact H]]. apply item_bytes_enc; [exact (typed_bytes RBytes (VBytes v) Hok)|lia].
  - intros k s r t Hg. sec. destruct r as [e|b].
    + unfold GetStorage. mrun. unfold on_trie. rewrite Hg. by mrun.
    + intros v -> Hv. unfold GetStorage. mrun. unfold on_trie. rewrite Hg. mrun. destruct v as [v|]; cbn [fmap option_fmap option_map from_option]; mrun; [|done].
      destruct (Hv v eq_refl) as [Hok Hs]. pose proof (enc_app_nonempty (Str v)) as Hne. rewrite (proj2 (Z.eqb_neq _ _)) by (intros H0; apply Hne, nil_length_inv; unfold Zlen, id in H0; lia).
      mrun. destruct (Split_slot v Hok Hs) as [kind Hsp]. unfold mlift, id. rewrite Hsp. by mrun.
  - intros k v s r t [Hok Hs] Hu. sec. pose proof (Zlen_slot v Hs). unfold UpdateStorage. mrun. unfold mlift. rewrite (encodeWith_emits _ (enc (Str v))) by (apply emits_str; lia). mrun. unfold on_trie. rewrite Hu. mrun. destruct r as [e|u]; mrun.
    + eexists. split; done.
    + destruct (remember_trie (hashKey k) k (set_trie t s)) as (s' & Hr & Ht). rewrite Hr. mrun. by exists s'.
  - intros k s r t Hd. sec. exact (forget_delete (hashKey k) s r t Hd).
Qed.

End Instances.

(** ** The trie and the map *)

Section Secure.
Context {C : Crypto} {CS : CryptoSpec C} `{Countable K} {V R : Type} {S : Secured K V R} {SS : SecuredSpec S}.
Implicit Types (m : gmap K V) (s : StateTrie) (dom : list K).

(** The hashes of the keys in use differ. *)
Definition no_clash dom : Prop := forall k k', k ∈ dom -> k' ∈ dom -> Keccak256Hash (sec_key k) = Keccak256Hash (sec_key k') -> k = k'.

(** The trie stands for a map of bytes in which the keys of [dom] have the values of [m]. *)
Record secures (complete : bool) dom s m (bm : bmap) : Prop := {
  sc_rep : represents complete (st_trie s) bm;
  sc_ok : map_Forall (fun _ v => sec_ok v) m;
  sc_keys : forall k, k ∈ dom -> bm !! hashKey (sec_key k) = sec_bytes <$> m !! k
}.

Inductive sec_op : Type :=
| SecGet (k : K)
| SecPut (k : K) (v : V)
| SecDelete (k : K)
| SecHash.

Inductive sec_answer : Type :=
| SecReply (r : R)
| SecDone
| SecRoot (h : Z).

Definition sec_op_ok dom (op : sec_op) : Prop :=
  match op with SecGet k | SecDelete k => k ∈ dom | SecPut k v => k ∈ dom /\ sec_ok v | SecHash => True end.

(** The operation on the trie, and on the map. *)
Definition sec_run (op : sec_op) : M StateTrie (state_error + sec_answer) :=
  match op with
  | SecGet k => let* r := sec_get k in mret (match r with inl e => inl e | inr r => inr (SecReply r) end)
  | SecPut k v => let* r := sec_put k v in mret (match r with Some e => inl e | None => inr SecDone end)
  | SecDelete k => let* r := sec_del k in mret (match r with Some e => inl e | None => inr SecDone end)
  | SecHash => let* h := State_Hash in mret (inr (SecRoot h))
  end.

Definition sec_spec (op : sec_op) m : gmap K V :=
  match op with SecPut k v => <[k := v]> m | SecDelete k => base.delete k m | _ => m end.

(** What the map answers; the root is that of the map of bytes. *)
Definition answers (op : sec_op) m (bm : bmap) (a : sec_answer) : Prop :=
  match op with SecGet k => a = SecReply (sec_reply (m !! k)) | SecHash => a = SecRoot (map_root bm) | _ => a = SecDone end.

Definition sec_missing (e : state_error) : Prop := match e with errTrie e => missing e | errRlp _ => False end.

Lemma hashKey_inj a b : hashKey a = hashKey b -> Keccak256Hash a = Keccak256Hash b.
Proof. apply hash_inj. Qed.

Lemma hashKey_ok a : Forall is_byte (hashKey a) /\ Zlen (hashKey a) = 32.
Proof. unfold hashKey, HashBytes, Zlen. split; [apply Z_to_bytes_byte|by rewrite length_Z_to_bytes]. Qed.

(** The operations of the trie one by one. *)
Lemma get_run complete tr bm key : represents complete tr bm -> Forall is_byte key -> exists r tr', Get key tr = Ret (r, tr') /\
  match r with inl e => complete = false /\ missing e /\ represents false tr' bm | inr v => v = bm !! key /\ represents complete tr' bm end.
Proof.
  intros Hr Hk. destruct (get_follows complete tr bm key Hr Hk) as (r & tr' & Hrun & Hres). unfold run_op, mthen, mret in Hrun.
  destruct (Get key tr) as [[r0 tr0]| |]; cbn in Hrun; [|done|done]. exists r0, tr0. split; [done|]. injection Hrun as <- <-. destruct r0; [done|]. destruct Hres as [Hv Hres]. injection Hv as ->. done.
Qed.

Lemma update_run complete tr bm key value : represents complete tr bm -> entry_ok key value -> exists r tr', Update key value tr = Ret (r, tr') /\
  match r with inl e => complete = false /\ missing e /\ represents false tr' bm | inr _ => represents complete tr' (<[key := value]> bm) end.
Proof.
  intros Hr Hk. destruct (update_follows complete tr bm key value Hr ltac:(split; [apply Hk|done])) as (r & tr' & Hrun & Hres). unfold run_op, mthen, mret in Hrun.
  destruct (Update key value tr) as [[r0 tr0]| |]; cbn in Hrun; [|done|done]. exists r0, tr0. split; [done|]. injection Hrun as <- <-. destruct r0; [done|]. destruct Hres as [_ Hres].
  destruct Hk as (_ & _ & Hne & _). by destruct value.
Qed.

Lemma delete_run complete tr bm key : represents complete tr bm -> Forall is_byte key -> exists r tr', Delete key tr = Ret (r, tr') /\
  match r with inl e => complete = false /\ missing e /\ represents false tr' bm | inr _ => represents complete tr' (base.delete key bm) end.
Proof.
  intros Hr Hk. destruct (delete_follows complete tr bm key Hr Hk) as (r & tr' & Hrun & Hres). unfold run_op, mthen, mret in Hrun.
  destruct (Delete key tr) as [[r0 tr0]| |]; cbn in Hrun; [|done|done]. exists r0, tr0. split; [done|]. injection Hrun as <- <-. destruct r0; [done|]. by destruct Hres.
Qed.

Definition sec_follows (complete : bool) dom (op : sec_op) s m (bm : bmap) : Prop := exists r s', sec_run op s = Ret (r, s') /\
  match r with
  | inl e => complete = false /\ sec_missing e /\ secures false dom s' m bm
  | inr a => answers op m bm a /\ exists bm', secures complete dom s' (sec_spec op m) bm'
  end.

(** A change of the value of one key. *)
Lemma secures_put complete dom s m bm k v t s' : no_clash dom -> secures complete dom s m bm -> k ∈ dom -> sec_ok v -> st_trie s' = t ->
  represents complete t (<[hashKey (sec_key k) := sec_bytes v]> bm) -> secures complete dom s' (<[k := v]> m) (<[hashKey (sec_key k) := sec_bytes v]> bm).
Proof.
  intros Hn [H1 H2 H3] Hk Hv Ht Hr. split; [by rewrite Ht|by apply map_Forall_insert_2|]. intros k' Hk'. destruct (decide (k' = k)) as [-> |Hne].
  - by rewrite !lookup_insert_eq.
  - rewrite !lookup_insert_ne; [by apply H3|done|]. intros He. apply Hne. symmetry. apply Hn; [done|done|by apply hashKey_inj].
Qed.

Lemma secures_delete complete dom s m bm k t s' : no_clash dom -> secures complete dom s m bm -> k ∈ dom -> st_trie s' = t ->
  represents complete t (base.delete (hashKey (sec_key k)) bm) -> secures complete dom s' (base.delete k m) (base.delete (hashKey (sec_key k)) bm).
Proof.
  intros Hn [H1 H2 H3] Hk Ht Hr. split; [by rewrite Ht|by apply map_Forall_delete|]. intros k' Hk'. destruct (decide (k' = k)) as [-> |Hne].
  - by rewrite !lookup_delete_eq.
  - rewrite !lookup_delete_ne; [by apply H3|done|]. intros He. apply Hne. symmetry. apply Hn; [done|done|by apply hashKey_inj].
Qed.

Lemma op_secured complete dom op s m bm : no_clash dom -> secures complete dom s m bm -> sec_op_ok dom op -> sec_follows complete dom op s m bm.
Proof.
  intros Hn Hs Hop. pose proof Hs as [Hr Hok Hkeys]. unfold sec_follows. destruct op as [k|k v|k|]; cbn [sec_op_ok sec_run] in *.
  - destruct (get_run _ _ _ _ Hr (proj1 (hashKey_ok (sec_key k)))) as (r & t & Hg & Hres). pose proof (sec_get_run k s r t Hg) as Hrun. mrun. destruct r as [e|b].
    + rewrite Hrun. mrun. eexists _, _. split; [done|]. destruct Hres as (-> & He & Hr'). split_and!; [done|done|]. by split.
    + destruct Hres as [-> Hr']. rewrite (Hkeys k Hop) in Hrun. rewrite (Hrun (m !! k) eq_refl) by (intros x Hx; by eapply Hok). mrun.
      eexists _, _. split; [done|]. split; [done|]. exists bm. by split.
  - destruct Hop as [Hk Hv]. destruct (sec_bytes_ok v Hv) as (Hb & Hne & Hl). destruct (hashKey_ok (sec_key k)) as [Hkb Hkl].
    destruct (update_run complete (st_trie s) bm (hashKey (sec_key k)) (sec_bytes v) Hr) as (r & t & Hu & Hres); [unfold entry_ok; rewrite Hkl; repeat split; done|].
    destruct (sec_put_run k v s r t Hv Hu) as (s' & Hrun & Ht). mrun. rewrite Hrun. mrun. destruct r as [e|u]; eexists _, _; (split; [done|]).
    + destruct Hres as (-> & He & Hr'). split_and!; [done|done|]. split; [by rewrite Ht|done|done].
    + split; [done|]. eexists. by eapply secures_put.
  - destruct (delete_run _ _ _ _ Hr (proj1 (hashKey_ok (sec_key k)))) as (r & t & Hd & Hres). destruct (sec_del_run k s r t Hd) as (s' & Hrun & Ht). mrun. rewrite Hrun. mrun.
    destruct r as [e|u]; eexists _, _; (split; [done|]).
    + destruct Hres as (-> & He & Hr'). split_and!; [done|done|]. split; [by rewrite Ht|done|done].
    + split; [done|]. eexists. by eapply secures_delete.
  - destruct (hash_root _ _ _ Hr) as (t & Hh & Hr' & _). unfold State_Hash, on_trie. mrun. rewrite Hh. mrun. eexists _, _. split; [done|]. split; [done|]. exists bm. by split.
Qed.

(** A sequence of operations, each with what the map answers or a missing node. *)
Inductive sec_history (complete : bool) dom : StateTrie -> gmap K V -> bmap -> list sec_op -> Prop :=
| sh_done s m bm : secures complete dom s m bm -> sec_history complete dom s m bm []
| sh_answer s m bm op ops a s' bm' : sec_run op s = Ret (inr a, s') -> answers op m bm a -> secures complete dom s' (sec_spec op m) bm' ->
    sec_history complete dom s' (sec_spec op m) bm' ops -> sec_history complete dom s m bm (op :: ops)
| sh_missing s m bm op ops e s' : complete = false -> sec_run op s = Ret (inl e, s') -> sec_missing e -> secures complete dom s' m bm ->
    sec_history complete dom s' m bm ops -> sec_history complete dom s m bm (op :: ops).

Lemma sec_histories complete dom ops : no_clash dom -> Forall (sec_op_ok dom) ops -> forall s m bm, secures complete dom s m bm -> sec_history complete dom s m bm ops.
Proof.
  intros Hn. induction 1 as [|op ops Hop _ IH]; intros s m bm Hs; [by constructor|]. destruct (op_secured complete dom op s m bm Hn Hs Hop) as (r & s' & Hrun & Hres). destruct r as [e|a].
  - destruct Hres as (-> & He & Hs'). eapply sh_missing; eauto.
  - destruct Hres as (Ha & bm' & Hs'). eapply sh_answer; eauto.
Qed.

End Secure.

Section Theorems.
Context {C : Crypto} {CS : CryptoSpec C}.

(** A slot that is set to the empty value stays in the trie, with the encoding of the empty
    string. *)
Lemma empty_slot_kept complete dom s m bm k s' : no_clash dom -> secures complete dom s m bm -> k ∈ dom -> UpdateStorage k [] s = Ret (None, s') ->
  secures complete dom s' (<[k := []]> m) (<[hashKey k := [128]]> bm).
Proof.
  intros Hn Hs Hk Hu. assert (Hv : sec_ok (K := list Z) (V := list Z) []) by (by split). pose proof Hs as [Hr _ _]. destruct (hashKey_ok k) as [Hkb Hkl].
  destruct (update_run complete (st_trie s) bm (hashKey k) [128] Hr) as (r & t & Ht & Hres); [unfold entry_ok; rewrite Hkl; destruct (sec_bytes_ok (K := list Z) [] Hv) as (Hb & Hne & Hl); repeat split; assumption|].
  destruct (sec_put_run (K := list Z) (V := list Z) k [] s r t Hv Ht) as (s1 & Hrun & Hst). change (sec_put k [] s) with (UpdateStorage k [] s) in Hrun. rewrite Hu in Hrun.
  destruct r as [e|u]; [done|]. injection Hrun as ->. exact (secures_put (K := list Z) (V := list Z) complete dom s m bm k [] t s1 Hn Hs Hk Hv Hst Hres).
Qed.

(** [C15] A state trie refines a map from addresses to accounts, and a storage trie a map from
    slots to values: if the keys in use have different hashes, then in any sequence of lookups,
    updates, deletions and root hashes every operation ends without panic and answers as the
    map does, the root being that of the hashed keys with the encoded values, or, when the
    store lacks a node, reports the missing node and changes nothing.  In the map an update
    with an empty value is an update like any other, and so it is in the trie: contrary to
    the comment on [UpdateStorage], the slot is not deleted but stored with the encoding of
    the empty string, and only [DeleteStorage] takes it out of the root. *)
Theorem state_trie_refines complete :
  (forall dom (ops : list (sec_op (K := Z) (V := StateAccount))) s m bm, no_clash dom -> Forall (sec_op_ok dom) ops -> secures complete dom s m bm -> sec_history complete dom s m bm ops) /\
  (forall dom (ops : list (sec_op (K := list Z) (V := list Z))) s m bm, no_clash dom -> Forall (sec_op_ok dom) ops -> secures complete dom s m bm -> sec_history complete dom s m bm ops) /\
  (forall dom s m bm k s', no_clash dom -> secures complete dom s m bm -> k ∈ dom -> UpdateStorage k [] s = Ret (None, s') ->
    exists bm', secures complete dom s' (<[k := []]> m) bm' /\ bm' !! hashKey k = Some [128]).
Proof.
  split_and!; [intros dom ops s m bm Hn Hops Hs; by apply sec_histories..|].
  intros dom s m bm k s' Hn Hs Hk Hu. exists (<[hashKey k := [128]]> bm). split; [by apply (empty_slot_kept complete dom s)|by rewrite lookup_insert_eq].
Qed.

(** [C17] The root of the state commits to the accounts: state tries with the same [Hash]
    have the same account, or none, at every address, unless two nodes of them collide.
    Addresses with the same hash are no exception. *)
Theorem state_root_binding c c' dom dom' s s' (m m' : gmap Z StateAccount) bm bm' h s1 s1' : empty_root_known -> secures c dom s m bm -> secures c' dom' s' m' bm' ->
  State_Hash s = Ret (h, s1) -> State_Hash s' = Ret (h, s1') ->
  (forall a, a ∈ dom -> a ∈ dom' -> m !! a = m' !! a) \/ root_collision bm bm'.
Proof.
  intros Hemp [Hr Hok Hk] [Hr' Hok' Hk'] Hh Hh'. unfold State_Hash, on_trie in *. destruct (hash_root _ _ _ Hr) as (t & E & _). destruct (hash_root _ _ _ Hr') as (t' & E' & _).
  rewrite E in Hh. rewrite E' in Hh'. cbn in Hh, Hh'. destruct (map_root_inj bm bm' Hemp) as [<- |Hc]; [by eapply rep_map|by eapply rep_map|congruence| |by right]. left. intros a Ha Ha'.
  pose proof (Hk a Ha) as He. rewrite (Hk' a Ha') in He. destruct (m !! a) as [x|] eqn:Hx, (m' !! a) as [y|] eqn:Hy; [|done|done|done].
  f_equal. apply (inj Some) in He. destruct (Hok _ _ Hx), (Hok' _ _ Hy). symmetry. apply account_bytes_inj; [done|done|lia|done].
Qed.

End Theorems.

(** ** A concrete state *)

#[local] Existing Instance root_crypto.
#[local] Existing Instance root_crypto_ok.

Definition toy_state : StateTrie := mkStateTrie toy_trie false ∅ false.
Definition toy_account : StateAccount := mkAccount 3 1000 EmptyRootHash (HashBytes 5).
Definition toy_state_ops : list (sec_op (K := Z) (V := StateAccount)) := [SecGet 7; SecPut 7 toy_account; SecHash; SecGet 7; SecDelete 9].

Lemma toy_account_ok : sec_ok toy_account.
Proof. split; [split|]; cbn [toy_account Nonce Balance Root CodeHash]; [unfold in64; lia|lia|vm_compute; split; congruence|apply Z_to_bytes_byte|vm_compute; reflexivity]. Qed.

Lemma toy_no_clash : no_clash [7; 9].
Proof.
  intros k k' Hk Hk'. apply elem_of_cons in Hk as [-> |Hk%list_elem_of_singleton]; apply elem_of_cons in Hk' as [-> |Hk'%list_elem_of_singleton]; subst; [done| | |done]; intros He; vm_compute in He; discriminate.
Qed.

Lemma toy_secures complete : secures complete [7; 9] toy_state (∅ : gmap Z StateAccount) ∅.
Proof. split; [apply toy_trie_empty|apply map_Forall_empty|]. intros k _. by rewrite !lookup_empty. Qed.

(** A storage trie, before and after a slot is set to the empty value. *)
Definition toy_slot : list Z := HashBytes 1.
Definition toy_blank : StateTrie := match UpdateStorage toy_slot [] toy_state with Ret (_, s) => s | _ => toy_state end.

Lemma toy_slot_no_clash : no_clash [toy_slot].
Proof. intros k k' Hk%list_elem_of_singleton Hk'%list_elem_of_singleton _. by rewrite Hk, Hk'. Qed.

Lemma toy_storage_secures complete : secures complete [toy_slot] toy_state (∅ : gmap (list Z) (list Z)) ∅.
Proof. split; [apply toy_trie_empty|apply map_Forall_empty|]. intros k _. by rewrite !lookup_empty. Qed.

Lemma state_trie_refines_witness : sec_history false [7; 9] toy_state ∅ ∅ toy_state_ops /\
  exists bm', secures true [toy_slot] toy_blank (<[toy_slot := []]> (∅ : gmap (list Z) (list Z))) bm' /\ bm' !! hashKey toy_slot = Some [128].
Proof.
  split.
  - apply (proj1 (state_trie_refines false)); [exact toy_no_clash| |exact (toy_secures false)].
    repeat (constructor; [try (split; [|exact toy_account_ok]); first [exact I|apply list_elem_of_here|apply list_elem_of_further, list_elem_of_here]|]). constructor.
  - apply (proj2 (proj2 (state_trie_refines true)) [toy_slot] toy_state ∅ ∅ toy_slot toy_blank toy_slot_no_clash (toy_storage_secures true) (list_elem_of_here _ _)).
    vm_compute. reflexivity.
Defined.

(** A state with one account. *)
Definition toy_funded : StateTrie := match UpdateAccount 7 toy_account toy_state with Ret (_, s) => s | _ => toy_state end.
Definition toy_balances : gmap Z StateAccount := <[7 := toy_account]> ∅.
Definition toy_leaves : bmap := <[hashKey (AddressBytes 7) := account_bytes toy_account]> ∅.

Lemma toy_funded_secures : secures true [7; 9] toy_funded toy_balances toy_leaves.
Proof.
  destruct (sec_bytes_ok toy_account toy_account_ok) as (Hb & Hne & Hl). destruct (hashKey_ok (AddressBytes 7)) as [Hkb Hkl].
  destruct (update_run true toy_trie ∅ (hashKey (AddressBytes 7)) (account_bytes toy_account) (toy_trie_empty true)) as (r & t & Hu & Hres); [unfold entry_ok; rewrite Hkl; repeat split; done|].
  destruct r as [e|u]; [by destruct Hres|]. destruct (sec_put_run 7 toy_account toy_state (inr u) t toy_account_ok Hu) as (s' & Hrun & Ht).
  assert (Hf : toy_funded = s') by (unfold toy_funded; change (UpdateAccount 7 toy_account toy_state) with (sec_put 7 toy_account toy_state); by rewrite Hrun). rewrite Hf.
  exact (secures_put true [7; 9] toy_state ∅ ∅ 7 toy_account t s' toy_no_clash (toy_secures true) (list_elem_of_here _ _) toy_account_ok Ht Hres).
Qed.

Lemma state_root_binding_witness : exists h s1 s1', State_Hash toy_funded = Ret (h, s1) /\ State_Hash (State_Copy toy_funded) = Ret (h, s1') /\
  ((forall a, a ∈ [7; 9] -> a ∈ [7; 9] -> toy_balances !! a = toy_balances !! a) \/ root_collision toy_leaves toy_leaves).
Proof.
  eexists _, _, _. split; [vm_compute; reflexivity|]. split; [vm_compute; reflexivity|].
  eapply (state_root_binding true true [7; 9] [7; 9] toy_funded toy_funded toy_balances toy_balances toy_leaves toy_leaves);
    [exact root_crypto_empty|exact toy_funded_secures|exact toy_funded_secures|vm_compute; reflexivity|vm_compute; reflexivity].
Defined.
