(* ===== verification/StateRoot.v ===== *)
(** * The state database over the state trie (core/state/database.go)

    The state component is parametric in the tries under it.  Here they are state tries,
    as [cachingDB] opens them.  The class [TrieLaws] says what the computation of a state
    root relies on, the state trie satisfies it, and the root that [IntermediateRoot]
    returns is that of the accounts with all changes, the storage of each included. *)

From stdpp Require Import gmap.
From S2P Require Import Prelude Uint256 VMCommon Rlp RlpStream RlpCodec RlpTyped RlpTypes Receipts StateTypes StateObject StateDB StateRevert Blocks BlockTheorems TrieEncoding TrieNode TrieHasher TrieTree TrieCodec Trie TrieSim TrieMap TrieTheorems TrieCommit AccountCodec SecureTrie SecureTheorems.
Import Rlp Decode Encode.

(** ** The database *)

Section CachingDB.
Context {C : Crypto}.

(** [rawdb]: the prefixed key, then the bare hash. *)
Definition codeKey (hash : Z) : list Z := 99 :: HashBytes hash.
Definition ReadCodeWithPrefix (db : store) (hash : Z) : list Z := default [] (db !! codeKey hash).
Definition ReadCode (db : store) (hash : Z) : list Z :=
  let data := ReadCodeWithPrefix db hash in
  if negb (Zlen data =? 0) then data else default [] (db !! HashBytes hash).

(** The errors of the database; [dbStuck] is a trie operation that does not return. *)
Inductive db_error : Type :=
| dbTrie (e : state_error)
| dbOpen (e : trie_error)
| dbNoCode
| dbStuck.

(** The caches hold what the disk has. *)
Definition read_code (disk : store) (codeHash : Z) : option (list Z) * option db_error :=
  let code := ReadCode disk codeHash in
  if 0 <? Zlen code then (Some code, None) else (None, Some dbNoCode).

Definition open_trie (id : ID) (triedb : trie_database) (preimages : bool) : db_error + StateTrie :=
  match NewStateTrie id triedb preimages with Ret (inr t) => inr t | Ret (inl e) => inl (dbOpen e) | _ => inl dbStuck end.

Definition OpenTrie (triedb : trie_database) (preimages : bool) (root : Z) : db_error + StateTrie := open_trie (StateTrieID root) triedb preimages.

(** The trie of the state is a value here.  A read keeps it: the nodes that it loads are loaded
    again by the next one.  What does not return or panics is the error [dbStuck], which no
    operation on a trie with all its nodes gives (the laws of [TrieLaws] below). *)
Definition reading {A} (m : M StateTrie (state_error + A)) (t : StateTrie) : db_error + A :=
  match m t with Ret (inr a, _) => inr a | Ret (inl e, _) => inl (dbTrie e) | _ => inl dbStuck end.
Definition writing (m : M StateTrie (option state_error)) (t : StateTrie) : StateTrie * option db_error :=
  match m t with Ret (e, t') => (t', dbTrie <$> e) | _ => (t, Some dbStuck) end.

(** [cachingDB], without a snapshot.  [State_Hash] always returns on a trie that stands for
    a map ([root_hash] below): the zero is not reached. *)
Definition cachingDB (disk : store) (triedb : trie_database) (preimages : bool) : Database := {|
  StateTypes.Trie := StateTrie;
  DbError := db_error;
  StateTypes.GetAccount t a := reading (SecureTrie.GetAccount a) t;
  StateTypes.GetStorage t _ k := reading (SecureTrie.GetStorage k) t;
  StateTypes.UpdateAccount t a acct := writing (SecureTrie.UpdateAccount a acct) t;
  StateTypes.DeleteAccount t a := writing (SecureTrie.DeleteAccount a) t;
  StateTypes.UpdateStorage t _ k v := writing (SecureTrie.UpdateStorage k v) t;
  StateTypes.DeleteStorage t _ k := writing (SecureTrie.DeleteStorage k) t;
  TrieHash t := match State_Hash t with Ret (h, _) => h | _ => 0 end;
  OpenStorageTrie stateRoot address root := open_trie (StorageTrieID stateRoot (Keccak256Hash (AddressBytes address)) root) triedb preimages;
  ContractCode _ codeHash := read_code disk codeHash;
  ContractCodeSize _ codeHash := let (code, err) := read_code disk codeHash in (Zlen (default [] code), err);
  snap := None;
  rlpError e := dbTrie (errRlp e)
|}.

End CachingDB.

(** ** What the state root relies on *)

(** The trie stands for a map of bytes, in which accounts and slots are under the hashes of
    their keys. *)
Class TrieLaws {C : Crypto} {CS : CryptoSpec C} (D : Database) : Type := {
  stands : StateTypes.Trie -> bmap -> Prop;
  get_account : forall t bm a (o : option StateAccount), stands t bm -> bm !! hashKey (AddressBytes a) = account_bytes <$> o -> (forall x, o = Some x -> sec_ok (K := Z) x) -> StateTypes.GetAccount t a = inr o;
  get_slot : forall t bm a k (o : option (list Z)), stands t bm -> bm !! hashKey k = (fun v => enc (Str v)) <$> o -> (forall x, o = Some x -> sec_ok (K := list Z) (V := list Z) x) ->
    StateTypes.GetStorage t a k = inr (default [] o);
  put_account : forall t bm a acct, stands t bm -> sec_ok acct -> exists t', StateTypes.UpdateAccount t a acct = (t', None) /\ stands t' (<[hashKey (AddressBytes a) := account_bytes acct]> bm);
  del_account : forall t bm a, stands t bm -> exists t', StateTypes.DeleteAccount t a = (t', None) /\ stands t' (base.delete (hashKey (AddressBytes a)) bm);
  put_slot : forall t bm a k v, stands t bm -> sec_ok v -> exists t', StateTypes.UpdateStorage t a k v = (t', None) /\ stands t' (<[hashKey k := enc (Str v)]> bm);
  del_slot : forall t bm a k, stands t bm -> exists t', StateTypes.DeleteStorage t a k = (t', None) /\ stands t' (base.delete (hashKey k) bm);
  root_hash : forall t bm, stands t bm -> TrieHash t = map_root bm
}.

Section StateTries.
Context {C : Crypto} {CS : CryptoSpec C}.

Lemma reading_get `{Countable K} {V R} {S : Secured K V R} {SS : SecuredSpec S} t bm k (o : option V) : represents true (st_trie t) bm ->
  bm !! hashKey (sec_key k) = sec_bytes <$> o -> (forall x, o = Some x -> sec_ok x) -> reading (sec_get k) t = inr (sec_reply o).
Proof.
  intros Hr Hk Ho. destruct (get_run _ _ _ _ Hr (proj1 (hashKey_ok (sec_key k)))) as (r & t1 & Hg & Hres). pose proof (sec_get_run k t r t1 Hg) as Hrun.
  unfold reading. destruct r as [e|b]; [by destruct Hres|]. destruct Hres as [-> _]. by rewrite (Hrun o Hk Ho).
Qed.

Lemma writing_put `{Countable K} {V R} {S : Secured K V R} {SS : SecuredSpec S} t bm k v : represents true (st_trie t) bm -> sec_ok v ->
  exists t', writing (sec_put k v) t = (t', None) /\ represents true (st_trie t') (<[hashKey (sec_key k) := sec_bytes v]> bm).
Proof.
  intros Hr Hv. destruct (sec_bytes_ok v Hv) as (Hb & Hne & Hl). destruct (hashKey_ok (sec_key k)) as [Hkb Hkl].
  destruct (update_run true (st_trie t) bm (hashKey (sec_key k)) (sec_bytes v) Hr) as (r & t1 & Hu & Hres); [unfold entry_ok; rewrite Hkl; repeat split; done|].
  destruct (sec_put_run k v t r t1 Hv Hu) as (t' & Hrun & Ht). exists t'. unfold writing. rewrite Hrun. destruct r as [e|u]; [by destruct Hres|]. by rewrite Ht.
Qed.

Lemma writing_del `{Countable K} {V R} {S : Secured K V R} {SS : SecuredSpec S} t bm k : represents true (st_trie t) bm ->
  exists t', writing (sec_del k) t = (t', None) /\ represents true (st_trie t') (base.delete (hashKey (sec_key k)) bm).
Proof.
  intros Hr. destruct (delete_run true (st_trie t) bm _ Hr (proj1 (hashKey_ok (sec_key k)))) as (r & t1 & Hd & Hres).
  destruct (sec_del_run k t r t1 Hd) as (t' & Hrun & Ht). exists t'. unfold writing. rewrite Hrun. destruct r as [e|u]; [by destruct Hres|]. by rewrite Ht.
Qed.

(** State tries keep the laws, as long as the node database has their nodes. *)
#[export] Program Instance state_trie_laws disk triedb preimages : TrieLaws (cachingDB disk triedb preimages) := {| stands t bm := represents true (st_trie t) bm |}.
Next Obligation. intros disk triedb pre t bm a o Hr Hk Ho. pose proof (reading_get (K := Z) (V := StateAccount) t bm a o Hr) as Hg. exact (Hg Hk Ho). Qed.
Next Obligation. intros disk triedb pre t bm a k o Hr Hk Ho. pose proof (reading_get (K := list Z) (V := list Z) t bm k o Hr) as Hg. exact (Hg Hk Ho). Qed.
Next Obligation. intros disk triedb pre t bm a acct Hr Hok. exact (writing_put t bm a acct Hr Hok). Qed.
Next Obligation. intros disk triedb pre t bm a Hr. exact (writing_del (V := StateAccount) t bm a Hr). Qed.
Next Obligation. intros disk triedb pre t bm a k v Hr Hok. exact (writing_put (K := list Z) t bm k v Hr Hok). Qed.
Next Obligation. intros disk triedb pre t bm a k Hr. exact (writing_del (K := list Z) (V := list Z) t bm k Hr). Qed.
Next Obligation. intros disk triedb pre t bm Hr. cbn. unfold State_Hash, on_trie. destruct (hash_root _ _ _ Hr) as (t' & -> & _). done. Qed.

End StateTries.

(** ** Accounts and slots that fit *)

Record account_fits (a : StateAccount) : Prop := {
  ft_nonce : in64 (Nonce a);
  ft_balance : in256 (Balance a);
  ft_root : in256 (Root a);
  ft_code : code_hash_ok (CodeHash a)
}.

Lemma fits_ok a : account_fits a -> account_ok a.
Proof. intros [H1 [H2 _] H3 [H4 _]]. by split. Qed.

Lemma Zlen_four a b c d : Zlen a < 2 ^ 30 -> Zlen b < 2 ^ 30 -> Zlen c < 2 ^ 30 -> Zlen d < 2 ^ 30 -> Zlen (enc (Lst [Str a; Str b; Str c; Str d])) < 2 ^ 58.
Proof.
  intros Ha Hb Hc Hd. pose proof (Zlen_enc_Str a ltac:(lia)). pose proof (Zlen_enc_Str b ltac:(lia)). pose proof (Zlen_enc_Str c ltac:(lia)). pose proof (Zlen_enc_Str d ltac:(lia)).
  assert (Hl : Zlen (concat (map enc [Str a; Str b; Str c; Str d])) < 2 ^ 40) by (cbn [map concat]; rewrite !Zlen_app; change (Zlen []) with 0; lia).
  pose proof (Zlen_enc_Lst [Str a; Str b; Str c; Str d] ltac:(lia)). lia.
Qed.

Lemma fits_lengths a : account_fits a -> Zlen (min_bytes (Nonce a)) < 2 ^ 30 /\ Zlen (min_bytes (Balance a)) < 2 ^ 30 /\ Zlen (HashBytes (Root a)) < 2 ^ 30 /\ Zlen (CodeHash a) < 2 ^ 30.
Proof.
  intros [H1 H2 H3 [_ H4]]. unfold in64, in256 in *. pose proof (proj2 (min_bytes_length (Nonce a) 8 ltac:(lia) ltac:(lia))). pose proof (proj2 (min_bytes_length (Balance a) 32 ltac:(lia) ltac:(lia))).
  unfold HashBytes, Zlen in *. rewrite length_Z_to_bytes, H4. repeat split; lia.
Qed.

Section Slim.
Context {C : Crypto} {CS : CryptoSpec C}.

Lemma fits_sec a : account_fits a -> sec_ok a.
Proof. intros Hf. split; [by apply fits_ok|]. destruct (fits_lengths a Hf) as (H1 & H2 & H3 & H4). by apply Zlen_four. Qed.

Lemma fits_slim a : account_fits a -> SlimAccountRLP a = Ret (slim_bytes a).
Proof.
  intros Hf. apply slim_encode; [by apply fits_ok|]. destruct (fits_lengths a Hf) as (H1 & H2 & H3 & H4). enough (Zlen (slim_bytes a) < 2 ^ 58) by lia.
  apply Zlen_four; [done|done| |]; cbn [to_slim slRoot slCodeHash]; [destruct (_ =? _)|case_bool_decide]; done.
Qed.

Lemma map_root_in256 bm : in256 (map_root bm).
Proof. unfold map_root. destruct (tree_of bm); [apply keccak_in256|]. unfold in256, EmptyRootHash. lia. Qed.

Lemma fits_root a bm : account_fits a -> account_fits (with_Root (map_root bm) a).
Proof. intros []. split; cbn; auto using map_root_in256. Qed.

End Slim.

(** ** Writing the slots of an account *)

(** A slot as the trie has it: zero is no entry. *)
Definition slot_bytes (v : Z) : option (list Z) := if v =? 0 then None else Some (enc (Str (StateObject.TrimLeftZeroes (HashBytes v)))).

Lemma trimmed_ok b : Forall is_byte b -> Forall is_byte (StateObject.TrimLeftZeroes b) /\ Zlen (StateObject.TrimLeftZeroes b) <= Zlen b.
Proof.
  induction 1 as [|x b Hx Hb [IH1 IH2]]; [done|]. cbn. rewrite Zlen_cons. destruct (x =? 0); [split; [done|lia]|]. split; [by constructor|]. rewrite Zlen_cons. lia.
Qed.

Lemma trim_hash v : Forall is_byte (StateObject.TrimLeftZeroes (HashBytes v)) /\ Zlen (StateObject.TrimLeftZeroes (HashBytes v)) < 2 ^ 57.
Proof.
  destruct (trimmed_ok (HashBytes v) (Z_to_bytes_byte _ _)) as [H1 H2]. split; [done|]. unfold HashBytes, Zlen in *. rewrite length_Z_to_bytes in H2. lia.
Qed.

Lemma trim_encode v : Rlp.EncodeToBytes (Str (StateObject.TrimLeftZeroes (HashBytes v))) = Ret (enc (Str (StateObject.TrimLeftZeroes (HashBytes v)))).
Proof. destruct (trim_hash v) as [_ Hl]. apply EncodeToBytes_enc. pose proof (Zlen_slot _ Hl). lia. Qed.

(** Changes of a map of bytes, one after the other. *)
Fixpoint patch {K} (key : K -> list Z) (l : list (K * option (list Z))) (bm : bmap) : bmap :=
  match l with
  | [] => bm
  | (k, v) :: l => patch key l (partial_alter (fun _ => v) (key k) bm)
  end.

Lemma patch_other {K} (key : K -> list Z) l : forall bm b, (forall k v, (k, v) ∈ l -> key k <> b) -> patch key l bm !! b = bm !! b.
Proof.
  induction l as [|[k v] l IH]; intros bm b Hb; [done|]. cbn. rewrite IH by (intros k' v' Hk; apply (Hb k' v'); by right). apply lookup_partial_alter_ne. apply (Hb k v). by left.
Qed.

Lemma patch_here {K} (key : K -> list Z) l : forall bm k v, NoDup (map (fun x => key (fst x)) l) -> (k, v) ∈ l -> patch key l bm !! key k = v.
Proof.
  induction l as [|[k' v'] l IH]; intros bm k v Hnd Hin; [by apply not_elem_of_nil in Hin|]. cbn in *. apply list.NoDup_cons in Hnd as [Hn Hnd]. apply elem_of_cons in Hin as [[= -> ->]|Hin]; [|by apply IH].
  rewrite patch_other; [apply lookup_partial_alter_eq|]. intros k v Hk He. apply Hn. rewrite <- He. apply list_elem_of_In, (in_map (fun x => key (fst x)) l (k, v)), list_elem_of_In, Hk.
Qed.

Section Storage.
Context {C : Crypto} {CS : CryptoSpec C} {D : Database} {TL : TrieLaws D}.
Implicit Types (o : stateObject) (s : StateTypes.StateDB).

Definition slot_key (k : Z) : list Z := hashKey (HashBytes k).

(** What a step on the account [a] leaves alone. *)
Record elsewhere (a : Z) s s' : Prop := {
  el_trie : db_trie s' = db_trie s;
  el_root : db_originalRoot s' = db_originalRoot s;
  el_pending : db_stateObjectsPending s' = db_stateObjectsPending s;
  el_objects : forall b, b <> a -> db_stateObjects s' !! b = db_stateObjects s !! b
}.

Lemma elsewhere_refl a s : elsewhere a s s.
Proof. by split. Qed.

Lemma elsewhere_trans a s1 s2 s3 : elsewhere a s1 s2 -> elsewhere a s2 s3 -> elsewhere a s1 s3.
Proof. intros [A1 A2 A3 A4] [B1 B2 B3 B4]. split; [congruence|congruence|congruence|]. intros b Hb. by rewrite B4, A4. Qed.

Lemma elsewhere_put o s : elsewhere (so_address o) s (put o s).
Proof. split; try done. intros b Hb. cbn. by apply lookup_insert_ne. Qed.

(** An object with the same account. *)
Record same_account o o' : Prop := {
  sa_address : so_address o' = so_address o;
  sa_addrHash : so_addrHash o' = so_addrHash o;
  sa_origin : so_origin o' = so_origin o;
  sa_data : so_data o' = so_data o;
  sa_deleted : so_deleted o' = so_deleted o
}.

Lemma same_account_trans o1 o2 o3 : same_account o1 o2 -> same_account o2 o3 -> same_account o1 o3.
Proof. intros [] []. split; congruence. Qed.

(** Write or delete a slot. *)
Lemma slot_written o tr bm k v : stands tr bm -> exists tr', (if v =? 0 then StateTypes.DeleteStorage tr (so_address o) (HashBytes k) else StateTypes.UpdateStorage tr (so_address o) (HashBytes k) (StateObject.TrimLeftZeroes (HashBytes v))) = (tr', None) /\
  stands tr' (partial_alter (fun _ => slot_bytes v) (slot_key k) bm).
Proof. intros Hs. unfold slot_bytes. destruct (v =? 0); [by apply del_slot|]. apply put_slot; [done|apply trim_hash]. Qed.

Lemma updateSlot_ok o tr key value s bm : stands tr bm -> bm !! slot_key key = slot_bytes (default 0 (so_originStorage o !! key)) ->
  exists o' tr' s', StateObject.updateSlot o tr key value s = Ret (inr (o', tr'), s') /\ stands tr' (partial_alter (fun _ => slot_bytes value) (slot_key key) bm) /\
    same_account o o' /\ (forall k, k <> key -> so_originStorage o' !! k = so_originStorage o !! k) /\ elsewhere (so_address o) s s'.
Proof.
  intros Hs Hold. unfold StateObject.updateSlot. destruct (Z.eqb_spec value (default 0 (so_originStorage o !! key))) as [->|Hne].
  { exists o, tr, s. split; [done|]. rewrite <- Hold, partial_alter_self. split_and!; [done|done|done|apply elsewhere_refl]. }
  set (o1 := with_so_originStorage _ o). destruct (slot_written o1 tr bm key value Hs) as (tr' & Hw & Hs'). set (o2 := with_so_trie (Some tr') o1).
  assert (Hsame : same_account o o2) by done. assert (Hor : forall k, k <> key -> so_originStorage o2 !! k = so_originStorage o !! k) by (intros k Hk; cbn; by apply lookup_insert_ne).
  set (encoded := if value =? 0 then _ else _). assert (He : exists e, encoded s = Ret (e, s)).
  { unfold encoded. destruct (value =? 0); [by eexists|]. unfold mthen, mlift. rewrite trim_encode. by eexists. }
  destruct He as [e He]. unfold mthen at 1. rewrite He. cbn [obind]. rewrite Hw. cbn [negb]. fold o2. unfold mthen, setStateObject, mmodify, mget, mlift, mret. cbn [obind].
  set (origin := default ∅ _). destruct (origin !! _) as [x|]; cbn [obind].
  2: destruct (default 0 (so_originStorage o !! key) =? 0); cbn [obind]; [|rewrite trim_encode; cbn [obind]].
  all: exists o2, tr'; eexists; split; [reflexivity|]; split_and!; [done|done|done|]; split; try done; intros b Hb; cbn; by apply lookup_insert_ne.
Qed.

(** The slots in turn; every one is as the object remembers it when its turn comes. *)
Lemma updateSlots_ok l : forall o tr s bm, stands tr bm -> NoDup (map (fun x => slot_key (fst x)) l) -> (forall k v, (k, v) ∈ l -> bm !! slot_key k = slot_bytes (default 0 (so_originStorage o !! k))) ->
  exists o' tr' s', StateObject.updateSlots o tr l s = Ret (inr (o', tr'), s') /\ stands tr' (patch slot_key (map (fun x => (fst x, slot_bytes (snd x))) l) bm) /\ same_account o o' /\ elsewhere (so_address o) s s'.
Proof.
  induction l as [|[key value] l IH]; intros o tr s bm Hs Hnd Hold; [exists o, tr, s; split_and!; try done; apply elsewhere_refl|]. cbn in Hnd. apply list.NoDup_cons in Hnd as [Hn Hnd]. cbn [StateObject.updateSlots].
  destruct (updateSlot_ok o tr key value s bm Hs) as (o1 & tr1 & s1 & H1 & Hs1 & Hsame & Hor & Hel); [apply (Hold key value); by left|]. unfold mthen. rewrite H1. cbn [obind].
  destruct (IH o1 tr1 s1 _ Hs1 Hnd) as (o2 & tr2 & s2 & H2 & Hs2 & Hsame2 & Hel2).
  { intros k v Hk. assert (Hne : slot_key k <> slot_key key). { intros He. apply Hn. rewrite <- He. apply list_elem_of_In, (in_map (fun x : Z * Z => slot_key (fst x)) l (k, v)), list_elem_of_In, Hk. }
    rewrite lookup_partial_alter_ne by done. rewrite Hor by (intros ->; done). apply (Hold k v). by right. }
  exists o2, tr2, s2. split; [exact H2|]. split_and!; [exact Hs2|by eapply same_account_trans|]. rewrite (sa_address _ _ Hsame) in Hel2. by eapply elsewhere_trans.
Qed.

(** The slots of an object that differ from the trie. *)
Definition slots o : gmap Z Z := so_dirtyStorage o ∪ so_pendingStorage o.

(** The storage [sbm] of an account can be written: the trie is loaded or can be, the
    object remembers the slots it changes as they are, and their hashes differ. *)
Record storage_ready (root : Z) o (sbm : bmap) : Prop := {
  sr_trie : match so_trie o with
    | Some tr => stands tr sbm
    | None => Root (so_data o) = map_root sbm /\ (slots o <> ∅ -> exists tr, OpenStorageTrie root (so_address o) (Root (so_data o)) = inr tr /\ stands tr sbm)
    end;
  sr_slots : forall k v, slots o !! k = Some v -> sbm !! slot_key k = slot_bytes (default 0 (so_originStorage o !! k));
  sr_keys : forall k k', k ∈ dom (slots o) -> k' ∈ dom (slots o) -> slot_key k = slot_key k' -> k = k'
}.

(** The storage with the slots of the object. *)
Record slots_stored o (sbm sbm' : bmap) : Prop := {
  sd_new : forall k v, slots o !! k = Some v -> sbm' !! slot_key k = slot_bytes v;
  sd_old : forall b, (forall k, k ∈ dom (slots o) -> slot_key k <> b) -> sbm' !! b = sbm !! b
}.

Lemma NoDup_hashes {K A} (key : K -> list Z) (l : list (K * A)) : NoDup (map fst l) -> (forall k k', k ∈ map fst l -> k' ∈ map fst l -> key k = key k' -> k = k') -> NoDup (map (fun x => key (fst x)) l).
Proof.
  induction l as [|[k v] l IH]; [constructor|]. cbn. intros [Hn Hnd]%list.NoDup_cons Hinj. apply list.NoDup_cons. split; [|apply IH; [done|intros x y Hx Hy; apply Hinj; by right]].
  intros Hk%list_elem_of_In. apply in_map_iff in Hk as ([k' v'] & He & Hin). cbn in He. apply Hn. assert (Hk' : k' ∈ map fst l) by (apply list_elem_of_In, (in_map fst l (k', v')), Hin).
  rewrite (Hinj k k'); [done|by left|by right|done].
Qed.

Lemma elem_fst (m : gmap Z Z) k : k ∈ map fst (map_to_list m) -> k ∈ dom m.
Proof. intros Hk%list_elem_of_In. apply in_map_iff in Hk as ([k' v] & <- & Hin). apply elem_of_dom. exists v. apply elem_of_map_to_list, list_elem_of_In, Hin. Qed.

Lemma stored_patch root o sbm : storage_ready root o sbm -> NoDup (map (fun x => slot_key (fst x)) (map_to_list (slots o))) /\ slots_stored o sbm (patch slot_key (map (fun x => (fst x, slot_bytes (snd x))) (map_to_list (slots o))) sbm).
Proof.
  intros [_ _ Hk]. assert (Hnd : NoDup (map (fun x => slot_key (fst x)) (map_to_list (slots o)))).
  { apply NoDup_hashes; [apply NoDup_fst_map_to_list|]. intros k k' H1%elem_fst H2%elem_fst. by apply Hk. }
  split; [done|]. split.
  - intros k v Hv. apply patch_here; [by rewrite map_map|]. apply list_elem_of_In, (in_map (fun x => (fst x, slot_bytes (snd x))) _ (k, v)), list_elem_of_In, elem_of_map_to_list, Hv.
  - intros b Hb. apply patch_other. intros k v Hin%list_elem_of_In. apply in_map_iff in Hin as ([k' v'] & [= <- <-] & Hin). apply Hb. apply elem_of_dom. exists v'. apply elem_of_map_to_list, list_elem_of_In, Hin.
Qed.

(** An object with the same account but for the root of its storage. *)
Record rooted (sbm : bmap) o o' : Prop := {
  rt_address : so_address o' = so_address o;
  rt_addrHash : so_addrHash o' = so_addrHash o;
  rt_origin : so_origin o' = so_origin o;
  rt_deleted : so_deleted o' = so_deleted o;
  rt_data : exists sbm', slots_stored o sbm sbm' /\ so_data o' = with_Root (map_root sbm') (so_data o)
}.

Lemma getTrie_ok o s sbm : match so_trie o with Some tr => stands tr sbm | None => exists tr, OpenStorageTrie (db_originalRoot s) (so_address o) (Root (so_data o)) = inr tr /\ stands tr sbm end ->
  exists tr o' s', StateObject.getTrie o s = Ret ((inr tr, o'), s') /\ stands tr sbm /\ same_account o o' /\ so_originStorage o' = so_originStorage o /\ so_pendingStorage o' = so_pendingStorage o /\ elsewhere (so_address o) s s'.
Proof.
  unfold StateObject.getTrie. destruct (so_trie o) as [tr|]; [intros Hs; exists tr, o, s; split_and!; try done; apply elsewhere_refl|]. intros (tr & Ho & Hs). unfold mthen, mget, setStateObject, mmodify, mret. cbn [obind fst snd]. rewrite Ho.
  exists tr, (with_so_trie (Some tr) o). eexists. split; [reflexivity|]. split_and!; try done. exact (elsewhere_put (with_so_trie (Some tr) o) s).
Qed.

Lemma updateRoot_ok o s sbm : storage_ready (db_originalRoot s) o sbm -> exists s' o', StateObject.updateRoot o s = Ret (tt, s') /\ db_stateObjects s' !! so_address o = Some o' /\ rooted sbm o o' /\ elsewhere (so_address o) s s'.
Proof.
  intros Hr. pose proof (stored_patch _ _ _ Hr) as [Hnd Hst]. pose proof Hr as [Htr Hsl _]. unfold StateObject.updateRoot, StateObject.updateTrie, StateObject.finalise. set (o1 := with_so_dirtyStorage ∅ _). fold (slots o) in o1.
  unfold mthen, setStateObject, mmodify, mret. cbn [obind fst snd]. change (so_pendingStorage o1) with (slots o). change (so_trie o1) with (so_trie o). fold (put o1 s). pose proof (elsewhere_put o1 s) as Hel. case_bool_decide as Hemp.
  - rewrite Hemp, map_to_list_empty in Hst. cbn in Hst. destruct (so_trie o) as [tr|] eqn:Ht; cbn [obind fst snd].
    + eexists _, _. split; [reflexivity|]. cbn. rewrite lookup_insert_eq. split; [done|]. split; [split; try done; exists sbm; split; [done|]; cbn; by rewrite (root_hash tr sbm)|]. eapply elsewhere_trans; [exact Hel|exact (elsewhere_put (with_so_data (with_Root (TrieHash tr) (so_data o)) o1) (put o1 s))].
    + eexists _, _. split; [reflexivity|]. cbn. rewrite lookup_insert_eq. split; [done|]. split; [|exact Hel]. split; try done. exists sbm. split; [done|]. cbn. destruct Htr as [<- _]. by destruct (so_data o).
  - destruct (getTrie_ok o1 (put o1 s) sbm) as (tr & o2 & s2 & Hg & Hs2 & Hsame & Hor & Hpend & Hel2); [cbn; destruct (so_trie o); [done|]; by apply Htr|]. rewrite Hg. cbn [obind fst snd]. rewrite Hpend. change (so_pendingStorage o1) with (slots o).
    destruct (updateSlots_ok (map_to_list (slots o)) o2 tr s2 sbm Hs2 Hnd) as (o3 & tr3 & s3 & H3 & Hs3 & Hsame3 & Hel3); [intros k v Hk%elem_of_map_to_list; rewrite Hor; by eapply Hsl|]. rewrite H3. cbn [obind fst snd].
    pose proof (same_account_trans _ _ _ Hsame Hsame3) as [A1 A2 A3 A4 A5]. set (o4 := with_so_pendingStorage ∅ o3). set (o5 := with_so_data _ o4). change (so_address o1) with (so_address o) in *. exists (put o5 (put o4 s3)), o5. split; [reflexivity|].
    assert (Ha : so_address o5 = so_address o) by exact A1. split; [cbn; by rewrite A1, lookup_insert_eq|]. split.
    + split; [done|done|done|done|]. eexists. split; [exact Hst|]. cbn. by rewrite A4, (root_hash _ _ Hs3).
    + eapply elsewhere_trans; [exact Hel|]. eapply elsewhere_trans; [exact Hel2|]. rewrite (sa_address _ _ Hsame) in Hel3. eapply elsewhere_trans; [exact Hel3|].
      pose proof (elsewhere_put o4 s3) as E4. pose proof (elsewhere_put o5 (put o4 s3)) as E5. rewrite Ha in E5. change (so_address o4) with (so_address o5) in E4. rewrite Ha in E4. by eapply elsewhere_trans.
Qed.

(** ** The two loops of [IntermediateRoot] *)

Definition root_step (a : Z) : M StateTypes.StateDB unit :=
  let* s := mget in
  match db_stateObjects s !! a with None => mpanic | Some obj => if so_deleted obj then mret tt else StateObject.updateRoot obj end.

Definition account_step (a : Z) : M StateTypes.StateDB unit :=
  let* s := mget in
  match db_stateObjects s !! a with None => mpanic | Some obj => if so_deleted obj then StateDB.deleteStateObject obj else StateDB.updateStateObject obj end.

Lemma root_steps sb l : forall s, NoDup l -> (forall a, a ∈ l -> exists o, db_stateObjects s !! a = Some o /\ so_address o = a /\ (so_deleted o = false -> storage_ready (db_originalRoot s) o (sb a))) ->
  exists s', StateDB.for_each l root_step s = Ret (tt, s') /\ db_trie s' = db_trie s /\ (forall b, b ∉ l -> db_stateObjects s' !! b = db_stateObjects s !! b) /\
    forall a o, a ∈ l -> db_stateObjects s !! a = Some o -> exists o', db_stateObjects s' !! a = Some o' /\ if so_deleted o then o' = o else rooted (sb a) o o'.
Proof.
  induction l as [|a l IH]; intros s Hnd Hok; [exists s; split_and!; try done; intros a o Ha; by apply not_elem_of_nil in Ha|]. apply list.NoDup_cons in Hnd as [Hn Hnd]. cbn [StateDB.for_each].
  destruct (Hok a) as (o & Ho & Hoa & Hready); [by left|]. assert (H1 : exists s1 o1, root_step a s = Ret (tt, s1) /\ db_stateObjects s1 !! a = Some o1 /\ (if so_deleted o then o1 = o else rooted (sb a) o o1) /\ elsewhere a s s1).
  { unfold root_step, mthen, mget. cbn [obind fst snd]. rewrite Ho. destruct (so_deleted o); [exists s, o; split_and!; try done; apply elsewhere_refl|]. destruct (updateRoot_ok o s (sb a)) as (s1 & o1 & H1 & Ho1 & Hrt & Hel); [by apply Hready|]. rewrite Hoa in *. eauto 10. }
  destruct H1 as (s1 & o1 & H1 & Ho1 & Hres & [E1 E2 E3 E4]). destruct (IH s1 Hnd) as (s' & Hs' & Htr & Hout & Hin).
  { intros b Hb. rewrite E2, E4 by (intros ->; done). apply Hok. by right. }
  exists s'. split; [unfold mthen; rewrite H1; exact Hs'|]. split; [congruence|]. split.
  - intros b Hb. apply not_elem_of_cons in Hb as [Hba Hbl]. by rewrite Hout, E4.
  - intros b x Hb Hx. apply elem_of_cons in Hb as [->|Hb]; [|apply Hin; [done|]; rewrite E4 by (intros ->; done); done]. rewrite Ho in Hx. injection Hx as <-. exists o1. by rewrite Hout.
Qed.

Definition account_key (a : Z) : list Z := hashKey (AddressBytes a).

(** What the trie gets for an object. *)
Definition trie_entry o : option (list Z) := if so_deleted o then None else Some (account_bytes (so_data o)).

Definition writable o : Prop := so_deleted o = false -> account_fits (so_data o) /\ forall x, so_origin o = Some x -> account_fits x.

Lemma account_step_ok s bm a o : stands (db_trie s) bm -> db_stateObjects s !! a = Some o -> so_address o = a -> writable o ->
  exists s', account_step a s = Ret (tt, s') /\ stands (db_trie s') (partial_alter (fun _ => trie_entry o) (account_key a) bm) /\ db_stateObjects s' = db_stateObjects s.
Proof.
  intros Hs Ho Ha Hw. unfold account_step, mthen, mget. cbn [obind fst snd]. rewrite Ho. unfold trie_entry. destruct (so_deleted o) eqn:Hd.
  - unfold StateDB.deleteStateObject, mthen, mget, mput. cbn [obind fst snd]. rewrite Ha. destruct (del_account (db_trie s) bm a Hs) as (t & -> & Ht). eexists. split; [reflexivity|]. by split.
  - destruct (Hw Hd) as [Hf Horg]. unfold StateDB.updateStateObject, mthen, mget, mput, mlift. cbn [obind fst snd]. rewrite Ha. destruct (put_account (db_trie s) bm a (so_data o) Hs (fits_sec _ Hf)) as (t & -> & Ht).
    unfold mret, mmodify. cbn [obind fst snd]. rewrite (fits_slim _ Hf). cbn [obind fst snd]. match goal with |- context [db_accountsOrigin ?x !! a] => destruct (db_accountsOrigin x !! a) end; [eexists; split; [reflexivity|]; by split|].
    destruct (so_origin o) as [x|]; cbn [obind fst snd]; [rewrite (fits_slim x) by (by apply Horg)|]; (eexists; split; [reflexivity|]; by split).
Qed.

Lemma account_steps l : forall s bm, stands (db_trie s) bm -> (forall a, a ∈ l -> exists o, db_stateObjects s !! a = Some o /\ so_address o = a /\ writable o) ->
  exists s', StateDB.for_each l account_step s = Ret (tt, s') /\ stands (db_trie s') (patch account_key (map (fun a => (a, db_stateObjects s !! a ≫= trie_entry)) l) bm).
Proof.
  induction l as [|a l IH]; intros s bm Hs Hok; [by exists s|]. cbn [StateDB.for_each map patch]. destruct (Hok a) as (o & Ho & Ha & Hw); [by left|]. destruct (account_step_ok s bm a o Hs Ho Ha Hw) as (s1 & H1 & Hs1 & Eo).
  destruct (IH s1 _ Hs1) as (s' & Hs' & Hst); [intros b Hb; rewrite Eo; apply Hok; by right|]. exists s'. split; [unfold mthen; rewrite H1; exact Hs'|]. rewrite Eo in Hst. by rewrite Ho.
Qed.

(** ** [Finalise] *)

(** The object of a dirty account after [Finalise]. *)
Definition settle_object (d : bool) o : stateObject :=
  with_so_created false (if d && StateObject.empty o then with_so_deleted true o else with_so_dirtyStorage ∅ (with_so_pendingStorage (slots o) o)).

Record objects_settled (d : bool) (l : list Z) s s' : Prop := {
  se_trie : db_trie s' = db_trie s;
  se_root : db_originalRoot s' = db_originalRoot s;
  se_objects : forall a, db_stateObjects s' !! a = if decide (a ∈ l) then settle_object d <$> db_stateObjects s !! a else db_stateObjects s !! a;
  se_pending : forall a, a ∈ db_stateObjectsPending s' <-> a ∈ db_stateObjectsPending s \/ a ∈ l /\ is_Some (db_stateObjects s !! a)
}.

Lemma finalise_one_settled d a s : keyed s -> exists s', StateDB.finalise_one d a s = Ret (tt, s') /\ objects_settled d [a] s s'.
Proof.
  intros Hk. unfold StateDB.finalise_one, mthen, mget. cbn [obind fst snd]. destruct (db_stateObjects s !! a) as [o|] eqn:Ho.
  2: { exists s. split; [done|]. split; try done; intros b; [case_decide as Hb; [|done]; apply list_elem_of_singleton in Hb as ->; by rewrite Ho|]. rewrite list_elem_of_singleton. split; [by left|]. intros [Hp|[-> Hx]]; [done|]. by rewrite Ho in Hx; destruct Hx. }
  pose proof (Hk a o Ho) as Ha. destruct (d && StateObject.empty o) eqn:He.
  - cbn -[db_stateObjectsDestruct]. eexists. split; [reflexivity|]. split; cbn; try (by destruct (db_stateObjectsDestruct s !! so_address o)).
    + intros b. rewrite Ha. destruct (db_stateObjectsDestruct s !! a); cbn; rewrite insert_insert_eq; (case_decide as Hb; [apply list_elem_of_singleton in Hb as ->; rewrite lookup_insert_eq, Ho; cbn; unfold settle_object; by rewrite He|]); rewrite list_elem_of_singleton in Hb; by rewrite lookup_insert_ne.
    + intros b. rewrite Ha, list_elem_of_singleton. destruct (db_stateObjectsDestruct s !! a); cbn; rewrite elem_of_union, elem_of_singleton; (split; [intros [->|Hb]; [right; by rewrite Ho|by left]|intros [Hb|[-> _]]; [by right|by left]]).
  - cbn. eexists. split; [reflexivity|]. split; try done; cbn.
    + intros b. rewrite Ha, insert_insert_eq. case_decide as Hb; [apply list_elem_of_singleton in Hb as ->; rewrite lookup_insert_eq, Ho; cbn; unfold settle_object; by rewrite He|]. rewrite list_elem_of_singleton in Hb. by rewrite lookup_insert_ne.
    + intros b. rewrite list_elem_of_singleton, elem_of_union, elem_of_singleton. split; [intros [->|Hb]; [right; by rewrite Ho|by left]|intros [Hb|[-> _]]; [by right|by left]].
Qed.

Lemma settle_address d o : so_address (settle_object d o) = so_address o.
Proof. unfold settle_object. by destruct (d && _). Qed.

Lemma settled_keyed d l s s' : keyed s -> objects_settled d l s s' -> keyed s'.
Proof. intros Hk [_ _ Ho _] a o. rewrite Ho. case_decide; [|apply Hk]. destruct (db_stateObjects s !! a) as [x|] eqn:Hx; [|done]. intros [= <-]. rewrite settle_address. by apply Hk. Qed.

Lemma finalise_all_settled d l : forall s, NoDup l -> keyed s -> exists s', StateDB.for_each l (StateDB.finalise_one d) s = Ret (tt, s') /\ objects_settled d l s s'.
Proof.
  induction l as [|a l IH]; intros s Hnd Hk.
  { exists s. split; [done|]. split; try done; intros a. split; [by left|]. intros [Ha|[Ha _]]; [done|by apply not_elem_of_nil in Ha]. }
  apply list.NoDup_cons in Hnd as [Hn Hnd]. cbn [StateDB.for_each]. destruct (finalise_one_settled d a s Hk) as (s1 & H1 & S1). destruct (IH s1 Hnd) as (s2 & H2 & S2); [by eapply settled_keyed|].
  exists s2. split; [unfold mthen; rewrite H1; exact H2|]. destruct S1 as [A1 A2 A3 A4], S2 as [B1 B2 B3 B4]. split; [congruence|congruence| |].
  - intros b. rewrite B3, A3. destruct (decide (b = a)) as [->|Hb].
    + rewrite (decide_False (P := a ∈ l)), !decide_True by (done || set_solver). done.
    + destruct (decide (b ∈ l)) as [Hl|Hl]; [rewrite (decide_True (P := b ∈ a :: l)) by set_solver|rewrite (decide_False (P := b ∈ a :: l)) by set_solver]; by rewrite decide_False by set_solver.
  - intros b. rewrite B4, A4, A3. assert (Hsome : is_Some (if decide (b ∈ [a]) then settle_object d <$> db_stateObjects s !! b else db_stateObjects s !! b) <-> is_Some (db_stateObjects s !! b)) by (case_decide; [apply fmap_is_Some|done]). rewrite Hsome. set_solver.
Qed.

Lemma Finalise_settled d s : keyed s -> exists s', StateDB.Finalise d s = Ret (tt, s') /\ objects_settled d (map fst (map_to_list (dirties (db_journal s)))) s s'.
Proof.
  intros Hk. destruct (finalise_all_settled d (map fst (map_to_list (dirties (db_journal s)))) s) as (s1 & H1 & [A1 A2 A3 A4]); [apply NoDup_fst_map_to_list|done|].
  unfold StateDB.Finalise, StateDB.clearJournalAndRefund, mthen, mget, mput, mmodify, mret. cbn [obind fst snd]. rewrite H1. cbn [obind fst snd]. destruct (0 <? _); (eexists; split; [reflexivity|]; by split).
Qed.

(** ** The state root *)

(** The accounts that [IntermediateRoot] visits. *)
Definition touched s (a : Z) : Prop := (a ∈ db_stateObjectsPending s \/ is_Some (dirties (db_journal s) !! a)) /\ is_Some (db_stateObjects s !! a).

(** Deleted before, or now for being empty. *)
Definition vanishes (d : bool) s (a : Z) o : bool := so_deleted o || (bool_decide (is_Some (dirties (db_journal s) !! a)) && (d && StateObject.empty o)).

Record account_ready s o (sbm : bmap) : Prop := {
  ar_fits : account_fits (so_data o);
  ar_origin : forall x, so_origin o = Some x -> account_fits x;
  ar_storage : storage_ready (db_originalRoot s) o sbm
}.

(** The map of the trie before, [bm], and after; [sb] is the storage of the accounts. *)
Record committed (d : bool) s (sb : Z -> bmap) (bm bm' : bmap) : Prop := {
  cm_accounts : forall a o, touched s a -> db_stateObjects s !! a = Some o ->
    if vanishes d s a o then bm' !! account_key a = None
    else exists sbm', slots_stored o (sb a) sbm' /\ bm' !! account_key a = Some (account_bytes (with_Root (map_root sbm') (so_data o)));
  cm_others : forall b, (forall a, touched s a -> account_key a <> b) -> bm' !! b = bm !! b
}.

Record root_ready (d : bool) s (sb : Z -> bmap) (bm : bmap) : Prop := {
  rr_keyed : keyed s;
  rr_trie : stands (db_trie s) bm;
  rr_pending : forall a, a ∈ db_stateObjectsPending s -> is_Some (db_stateObjects s !! a);
  rr_clash : forall a a', touched s a -> touched s a' -> account_key a = account_key a' -> a = a';
  rr_accounts : forall a o, touched s a -> db_stateObjects s !! a = Some o -> vanishes d s a o = false -> account_ready s o (sb a)
}.

(** The object that the loops find. *)
Definition met (d : bool) s (a : Z) o : stateObject := if bool_decide (is_Some (dirties (db_journal s) !! a)) then settle_object d o else o.

Lemma met_ok d s a o : so_address (met d s a o) = so_address o /\ so_data (met d s a o) = so_data o /\ so_origin (met d s a o) = so_origin o /\ so_deleted (met d s a o) = vanishes d s a o /\
  (vanishes d s a o = false -> forall r sbm, (storage_ready r o sbm -> storage_ready r (met d s a o) sbm) /\ forall sbm', slots_stored (met d s a o) sbm sbm' -> slots_stored o sbm sbm').
Proof.
  unfold met, vanishes. case_bool_decide; [|rewrite orb_false_r; split_and!; auto]. unfold settle_object. destruct (d && StateObject.empty o); [rewrite orb_true_r; split_and!; done|]. rewrite orb_false_r. split_and!; try done. intros _ r sbm. set (o' := with_so_created _ _).
  assert (Hsl : slots o' = slots o) by (unfold slots at 1; cbn; by rewrite (left_id_L ∅ (∪))). split; [intros [H1 H2 H3]|intros sbm' [H1 H2]]; split; rewrite ?Hsl in *; auto.
Qed.

Lemma visited d s s1 : objects_settled d (map fst (map_to_list (dirties (db_journal s)))) s s1 -> (forall a, a ∈ db_stateObjectsPending s -> is_Some (db_stateObjects s !! a)) ->
  (forall a, a ∈ elements (db_stateObjectsPending s1) <-> touched s a) /\ forall a, db_stateObjects s1 !! a = met d s a <$> db_stateObjects s !! a.
Proof.
  intros [_ _ Ho Hp] Hlive. assert (Hd : forall a, a ∈ map fst (map_to_list (dirties (db_journal s))) <-> is_Some (dirties (db_journal s) !! a)).
  { intros a. rewrite <- elem_of_dom. split; [apply elem_fst|]. intros [n Hn]%elem_of_dom. apply list_elem_of_In, (in_map fst _ (a, n)), list_elem_of_In, elem_of_map_to_list, Hn. }
  split; intros a.
  - rewrite elem_of_elements, Hp, Hd. unfold touched. specialize (Hlive a). tauto.
  - rewrite Ho. unfold met. case_bool_decide as Hb; [rewrite decide_True by (by apply Hd)|rewrite decide_False by (by rewrite Hd)]; [done|]. by destruct (db_stateObjects s !! a).
Qed.

Lemma IntermediateRoot_loops d s : StateDB.IntermediateRoot d s = (StateDB.Finalise d ;;; let* s := mget in
  StateDB.for_each (elements (db_stateObjectsPending s)) root_step ;;; StateDB.for_each (elements (db_stateObjectsPending s)) account_step ;;; mmodify (with_db_stateObjectsPending ∅) ;;; let* s := mget in mret (TrieHash (db_trie s))) s.
Proof. reflexivity. Qed.

Lemma intermediate_root d s sb bm : root_ready d s sb bm -> exists h s' bm', StateDB.IntermediateRoot d s = Ret (h, s') /\ h = map_root bm' /\ stands (db_trie s') bm' /\ committed d s sb bm bm'.
Proof.
  intros [Hk Hs Hlive Hclash Hready]. destruct (Finalise_settled d s Hk) as (s1 & H1 & S1). destruct (visited d s s1 S1 Hlive) as [Hl Ho1]. set (l := elements (db_stateObjectsPending s1)) in *.
  assert (Hgot : forall a, a ∈ l -> exists o, db_stateObjects s !! a = Some o /\ so_address o = a) by (intros a [_ [o Ho]]%Hl; exists o; split; [done|by apply Hk]).
  destruct (root_steps sb l s1) as (s2 & H2 & Htr & _ & Hobj); [apply NoDup_elements| |].
  { intros a Ha. destruct (Hgot a Ha) as (o & Ho & Hoa). exists (met d s a o). rewrite Ho1, Ho. destruct (met_ok d s a o) as (M1 & M2 & M3 & M4 & M5). split; [done|]. split; [congruence|]. rewrite M4. intros Hg.
    rewrite (se_root _ _ _ _ S1). apply M5; [done|]. by apply (Hready a o (proj1 (Hl a) Ha) Ho Hg). }
  assert (Hfin : forall a o, a ∈ l -> db_stateObjects s !! a = Some o -> exists o', db_stateObjects s2 !! a = Some o' /\ so_address o' = a /\ writable o' /\
    if vanishes d s a o then trie_entry o' = None else exists sbm', slots_stored o (sb a) sbm' /\ trie_entry o' = Some (account_bytes (with_Root (map_root sbm') (so_data o)))).
  { intros a o Ha Ho. destruct (met_ok d s a o) as (M1 & M2 & M3 & M4 & M5). destruct (Hobj a (met d s a o) Ha) as (o' & Ho' & Hres); [by rewrite Ho1, Ho|]. exists o'. split; [done|]. rewrite M4 in Hres. unfold writable, trie_entry. destruct (vanishes d s a o) eqn:Hg.
    - subst o'. rewrite M4, M1. split_and!; [by apply Hk|done|done].
    - destruct Hres as [R1 R2 R3 R4 (sbm' & R5 & R6)]. rewrite R1, R3, R4, R6, M1, M2, M3, M4. destruct (Hready a o (proj1 (Hl a) Ha) Ho Hg) as [F1 F2 _]. split_and!; [by apply Hk|intros _; split; [by apply fits_root|done]|].
      exists sbm'. split; [|done]. by eapply (M5 eq_refl 0). }
  destruct (account_steps l s2 bm) as (s3 & H3 & Hs3); [by rewrite Htr, (se_trie _ _ _ _ S1)|intros a Ha; destruct (Hgot a Ha) as (o & Ho & _); destruct (Hfin a o Ha Ho) as (o' & ? & ? & ? & _); eauto|].
  eexists _, _, _. split; [rewrite IntermediateRoot_loops; unfold mthen, mget, mmodify, mret; rewrite H1; cbn [obind fst snd]; fold l; rewrite H2; cbn [obind fst snd]; rewrite H3; cbn [obind fst snd]; reflexivity|].
  split; [cbn; by apply root_hash|]. split; [exact Hs3|]. split.
  - intros a o Ht Ho. destruct (Hfin a o (proj2 (Hl a) Ht) Ho) as (o' & Ho' & _ & _ & Hres). rewrite (patch_here account_key _ bm a (trie_entry o')); [done| |apply list_elem_of_In, in_map_iff; exists a; rewrite Ho'; split; [done|by apply list_elem_of_In, Hl]].
    apply (NoDup_hashes account_key); rewrite map_map; cbn; rewrite map_id; [apply NoDup_elements|]. intros x y Hx%Hl Hy%Hl. by apply Hclash.
  - intros b Hb. apply patch_other. intros k v Hin%list_elem_of_In. apply in_map_iff in Hin as (a & [= <- _] & Hin). by apply Hb, Hl, list_elem_of_In.
Qed.

End Storage.

(** [C16] The root of the state.  Over state tries whose nodes can be loaded,
    [IntermediateRoot] returns without panic the root hash of the accounts with all changes:
    under the hash of every account that was touched there is its final record, or nothing
    if it was destroyed or is empty; the storage root in that record is the root hash of the
    storage with exactly the changed slots written, or deleted when zero; everything else in
    the trie is as before. *)
Theorem state_root_commits {C : Crypto} {CS : CryptoSpec C} disk triedb preimages d (s : StateTypes.StateDB (D := cachingDB disk triedb preimages)) sb bm : root_ready d s sb bm ->
  exists h s' bm', StateDB.IntermediateRoot d s = Ret (h, s') /\ h = map_root bm' /\ represents true (st_trie (db_trie s')) bm' /\ committed d s sb bm bm'.
Proof. exact (intermediate_root d s sb bm). Qed.

(** ** A concrete state *)

#[local] Existing Instance root_crypto.
#[local] Existing Instance root_crypto_ok.

(** A node database without nodes. *)
Definition no_nodes : Reader := fun _ _ _ => inl Stdlib.Strings.String.EmptyString.
#[local] Instance toy_database : Database := cachingDB ∅ (fun _ => inr no_nodes) false.

(** An account gets a balance and a nonce, and a slot is set. *)
Definition toy_changes : M StateTypes.StateDB unit :=
  StateDB.AddBalance 7 1000 ;;;
  StateDB.SetNonce 7 3 ;;;
  StateDB.SetState 7 5 9.

Definition toy_before : StateTypes.StateDB := StateDB.New EmptyRootHash (toy_state : StateTypes.Trie).
Definition toy_changed : StateTypes.StateDB := match toy_changes toy_before with Ret (_, s) => s | _ => toy_before end.
Definition toy_object : stateObject := match db_stateObjects toy_changed !! 7 with Some o => o | None => newObject 7 None end.

Lemma toy_objects a o : db_stateObjects toy_changed !! a = Some o -> a = 7 /\ o = toy_object.
Proof.
  intros Ho. assert (Hk : map fst (map_to_list (db_stateObjects toy_changed)) = [7]) by (vm_compute; reflexivity).
  assert (Ha : a ∈ map fst (map_to_list (db_stateObjects toy_changed))) by (apply list_elem_of_In, (in_map fst _ (a, o)), list_elem_of_In, elem_of_map_to_list, Ho).
  rewrite Hk in Ha. apply list_elem_of_singleton in Ha as ->. split; [done|]. unfold toy_object. by rewrite Ho.
Qed.

Lemma toy_storage : exists tr, so_trie toy_object = Some tr /\ represents true (st_trie tr) ∅.
Proof.
  destruct (open_empty (StorageTrieID EmptyRootHash (Keccak256Hash (AddressBytes 7)) EmptyRootHash) (fun _ => inr no_nodes) (mkReader (Keccak256Hash (AddressBytes 7)) None None)) as (tr & Ht & Hr); [done|done|].
  exists (mkStateTrie tr false ∅ false). split; [|done]. assert (Ho : so_trie toy_object = match OpenStorageTrie EmptyRootHash 7 EmptyRootHash with inr tr => Some tr | inl _ => None end) by (vm_compute; reflexivity).
  rewrite Ho. change (OpenStorageTrie EmptyRootHash 7 EmptyRootHash) with (open_trie (StorageTrieID EmptyRootHash (Keccak256Hash (AddressBytes 7)) EmptyRootHash) (fun _ => inr no_nodes) false). unfold open_trie, NewStateTrie. by rewrite Ht.
Qed.

Lemma toy_slots : slots toy_object = {[5 := 9]}.
Proof. vm_compute. reflexivity. Qed.

Lemma toy_object_ready : account_ready toy_changed toy_object ∅.
Proof.
  split.
  - split; [vm_compute; split; congruence..|]. split; [|vm_compute; reflexivity]. replace (CodeHash (so_data toy_object)) with (HashBytes EmptyCodeHash) by (vm_compute; reflexivity). apply Z_to_bytes_byte.
  - replace (so_origin toy_object) with (@None StateAccount) by (vm_compute; reflexivity). done.
  - destruct toy_storage as (tr & Ht & Hr). split; [by rewrite Ht| |].
    + rewrite toy_slots. intros k v [<- <-]%lookup_singleton_Some. rewrite lookup_empty. replace (so_originStorage toy_object !! 5) with (Some 0) by (vm_compute; reflexivity). reflexivity.
    + rewrite toy_slots, dom_singleton_L. intros k k' ->%elem_of_singleton ->%elem_of_singleton. done.
Qed.

Lemma toy_ready : root_ready true toy_changed (fun _ => ∅) ∅.
Proof.
  split.
  - intros a o [-> ->]%toy_objects. vm_compute. reflexivity.
  - replace (db_trie toy_changed) with (toy_state : StateTypes.Trie) by (vm_compute; reflexivity). apply toy_trie_empty.
  - intros a. replace (db_stateObjectsPending toy_changed) with (∅ : gset Z) by (vm_compute; reflexivity). by intros ?%elem_of_empty.
  - intros a a' [_ [o Ho]] [_ [o' Ho']] _. destruct (toy_objects a o Ho) as [-> _], (toy_objects a' o' Ho') as [-> _]. done.
  - intros a o _ [-> ->]%toy_objects _. exact toy_object_ready.
Qed.

Lemma state_root_commits_witness : exists h s' bm', StateDB.IntermediateRoot true toy_changed = Ret (h, s') /\ h = map_root bm' /\ committed true toy_changed (fun _ => ∅) ∅ bm'.
Proof.
  destruct (state_root_commits ∅ (fun _ => inr no_nodes) false true toy_changed (fun _ => ∅) ∅ toy_ready) as (h & s' & bm' & H1 & H2 & _ & H4).
  exact (ex_intro _ h (ex_intro _ s' (ex_intro _ bm' (conj H1 (conj H2 H4))))).
Defined.
