(* ===== verification/Heap.v ===== *)
(** * Binary heaps (container/heap)

    The heaps of the transaction pool are slices that the standard library keeps in heap
    order by comparisons and swaps.  The functions are those of the library; an order is a
    boolean [less], as in [heap.Interface]. *)

From stdpp Require Import list.
From S2P Require Import Prelude.

Section Heap.
Context {A : Type} (less : A -> A -> bool).
Implicit Types (l : list A) (i j k n : nat).

(** [Less(i, j)] and [Swap(i, j)], for indices in range. *)
Definition less_at l i j : bool := match l !! i, l !! j with Some x, Some y => less x y | _, _ => false end.
Definition swap i j l : list A := match l !! i, l !! j with Some x, Some y => <[i := y]> (<[j := x]> l) | _, _ => l end.

(** Every round of [up] at least halves the index, every round of [down] doubles it. *)
Fixpoint up (fuel : nat) l j : list A :=
  match fuel with
  | O => l
  | S fuel =>
      let i := ((j - 1) / 2)%nat in
      if (i =? j)%nat || negb (less_at l j i) then l else up fuel (swap i j l) i
  end.

Fixpoint down (fuel : nat) l i n : list A * nat :=
  match fuel with
  | O => (l, i)
  | S fuel =>
      let j1 := (2 * i + 1)%nat in
      if (n <=? j1)%nat then (l, i)
      else
        let j2 := (j1 + 1)%nat in
        let j := if (j2 <? n)%nat && less_at l j2 j1 then j2 else j1 in
        if negb (less_at l j i) then (l, i) else down fuel (swap i j l) j n
  end.

(** [down] reports whether the element moved. *)
Definition heap_up l j : list A := up (S j) l j.
Definition heap_down l i0 n : list A * bool := let '(l, i) := down (S n) l i0 n in (l, (i0 <? i)%nat).

Fixpoint init_loop (k : nat) l : list A :=
  match k with
  | O => l
  | S i => init_loop i (fst (heap_down l i (length l)))
  end.
Definition Init l : list A := init_loop (length l / 2) l.

Definition Push l (x : A) : list A := heap_up (l ++ [x]) (length l).

(** The last element, and the rest. *)
Definition pop_last l : outcome (A * list A) := match list.last l with Some x => Ret (x, take (length l - 1) l) | None => Panic end.

(** On an empty heap, [Swap(0, -1)] panics. *)
Definition Pop l : outcome (A * list A) :=
  match l with
  | [] => Panic
  | _ =>
      let n := (length l - 1)%nat in
      let '(l, _) := heap_down (swap 0 n l) 0 n in
      pop_last l
  end.

(** [Remove(h, i)], for an index in range. *)
Definition Remove l i : outcome (A * list A) :=
  if (length l <=? i)%nat then Panic
  else
    let n := (length l - 1)%nat in
    let l :=
      if (n =? i)%nat then l
      else
        let '(l, moved) := heap_down (swap i n l) i n in
        if moved then l else heap_up l i in
    pop_last l.

End Heap.

#[global] Arguments Init : simpl never.
#[global] Arguments Push : simpl never.
#[global] Arguments Pop : simpl never.
#[global] Arguments Remove : simpl never.

(** ** Heap order *)

(** What [Less] promises: a strict weak order. *)
Class HeapOrder {A} (less : A -> A -> bool) : Prop := {
  less_asym : forall x y, less x y = true -> less y x = false;
  less_neg_trans : forall x y z, less y x = false -> less z y = false -> less z x = false
}.

Section Order.
Context {A : Type} `{!Inhabited A} (less : A -> A -> bool) {HO : HeapOrder less}.
Implicit Types (l : list A) (i j k n : nat).

Definition le (x y : A) : Prop := less y x = false.

Lemma le_refl x : le x x.
Proof. unfold le. destruct (less x x) eqn:E; [|done]. pose proof (less_asym _ _ E). congruence. Qed.

Lemma le_trans x y z : le x y -> le y z -> le x z.
Proof. apply less_neg_trans. Qed.

Lemma less_le x y : less x y = true -> le x y.
Proof. apply less_asym. Qed.

Definition parent k : nat := ((k - 1) / 2)%nat.

(** The first [n] elements are in heap order below those in front of [b]. *)
Definition heap_from b n l : Prop := forall k, (0 < k < n)%nat -> (b <= parent k)%nat -> le (l !!! parent k) (l !!! k).
Definition heap n l : Prop := forall k, (0 < k < n)%nat -> le (l !!! parent k) (l !!! k).

Lemma parent_lt k : (0 < k)%nat -> (parent k < k)%nat.
Proof. intros Hk. unfold parent. apply Nat.Div0.div_lt_upper_bound. lia. Qed.

Lemma parent_iff k i : (0 < k)%nat -> parent k = i <-> k = (2 * i + 1)%nat \/ k = (2 * i + 2)%nat.
Proof. intros Hk. unfold parent. pose proof (Nat.div_mod_eq (k - 1) 2). pose proof (Nat.mod_upper_bound (k - 1) 2). lia. Qed.

Lemma less_at_spec l i j : (i < length l)%nat -> (j < length l)%nat -> less_at less l i j = less (l !!! i) (l !!! j).
Proof. intros Hi Hj. unfold less_at. by rewrite (list_lookup_lookup_total_lt l i), (list_lookup_lookup_total_lt l j). Qed.

Lemma length_swap l i j : length (swap i j l) = length l.
Proof. unfold swap. destruct (l !! i), (l !! j); rewrite ?length_insert; done. Qed.

Lemma swap_spec l i j k : (i < length l)%nat -> (j < length l)%nat ->
  swap i j l !!! k = if decide (k = i) then l !!! j else if decide (k = j) then l !!! i else l !!! k.
Proof.
  intros Hi Hj. unfold swap. rewrite (list_lookup_lookup_total_lt l i), (list_lookup_lookup_total_lt l j) by done.
  destruct (decide (k = i)) as [-> |Hk]; [by rewrite list_lookup_total_insert_eq by (by rewrite length_insert)|].
  rewrite list_lookup_total_insert_ne by done. destruct (decide (k = j)) as [-> |Hk']; [by rewrite list_lookup_total_insert_eq|]. by rewrite list_lookup_total_insert_ne.
Qed.

Lemma swap_perm l i j : (i < length l)%nat -> (j < length l)%nat -> swap i j l ≡ₚ l.
Proof.
  intros Hi Hj. unfold swap. destruct (l !! i) as [x|] eqn:Ex; [|done]. destruct (l !! j) as [y|] eqn:Ey; [|done].
  destruct (decide (i = j)) as [-> |Hne]; [rewrite list_insert_insert_eq, list_insert_id; [done|congruence]|].
  apply Permutation_inj. rewrite !length_insert. split; [done|].
  exists (fun k => if decide (k = i) then j else if decide (k = j) then i else k). split.
  - intros a b. repeat case_decide; congruence.
  - intros k. destruct (decide (k = i)) as [-> |Hk]; [by rewrite list_lookup_insert_eq by (by rewrite length_insert)|]. rewrite list_lookup_insert_ne by done.
    destruct (decide (k = j)) as [-> |Hk']; [by rewrite list_lookup_insert_eq|]. by rewrite list_lookup_insert_ne.
Qed.

(** ** Sifting *)

(** The order with one element out of place: what is above it is below its children. *)
Definition hole b n i l : Prop :=
  (forall k, (0 < k < n)%nat -> (b <= parent k)%nat -> k <> i -> parent k <> i -> le (l !!! parent k) (l !!! k)) /\
  (forall k, (0 < i)%nat -> (b <= parent i)%nat -> (0 < k < n)%nat -> parent k = i -> le (l !!! parent i) (l !!! k)).

(** The rest of the slice is not touched. *)
Definition same_above n l l' : Prop := length l' = length l /\ forall k, (n <= k)%nat -> l' !!! k = l !!! k.

Lemma same_above_swap n l i j : (i < n)%nat -> (j < n)%nat -> (n <= length l)%nat -> same_above n l (swap i j l).
Proof. intros Hi Hj Hn. split; [apply length_swap|]. intros k Hk. rewrite swap_spec by lia. repeat case_decide; lia || done. Qed.

Lemma same_above_trans n l l' l'' : same_above n l l' -> same_above n l' l'' -> same_above n l l''.
Proof. intros [H1 H2] [H3 H4]. split; [congruence|]. intros k Hk. by rewrite H4, H2. Qed.

Ltac swaps := rewrite !swap_spec by lia; repeat case_decide; try lia.

(** The smaller child of [i]. *)
Lemma child_spec n l i : (n <= length l)%nat -> (2 * i + 1 < n)%nat ->
  let j := if (2 * i + 1 + 1 <? n)%nat && less_at less l (2 * i + 1 + 1) (2 * i + 1) then (2 * i + 1 + 1)%nat else (2 * i + 1)%nat in
  (0 < j < n)%nat /\ parent j = i /\ forall k, (0 < k < n)%nat -> parent k = i -> le (l !!! j) (l !!! k).
Proof.
  intros Hn Hi. cbv zeta. destruct (Nat.ltb_spec (2 * i + 1 + 1) n) as [H2|H2]; cbn [andb].
  - rewrite less_at_spec by lia. destruct (less _ _) eqn:El; (split; [lia|]); (split; [apply parent_iff; lia|]); intros k Hk Hp; apply parent_iff in Hp as [-> | ->]; try lia.
    + by apply less_le.
    + replace (2 * i + 2)%nat with (2 * i + 1 + 1)%nat by lia. apply le_refl.
    + apply le_refl.
    + replace (2 * i + 2)%nat with (2 * i + 1 + 1)%nat by lia. exact El.
  - split; [lia|]. split; [apply parent_iff; lia|]. intros k Hk Hp. apply parent_iff in Hp as [-> | ->]; [apply le_refl|lia|lia].
Qed.

(** One step of [down] moves the hole to a child that is in order with its parent. *)
Lemma down_step b n l i j : (n <= length l)%nat -> (b <= i)%nat -> (0 < j < n)%nat -> parent j = i -> (forall k, (0 < k < n)%nat -> parent k = i -> le (l !!! j) (l !!! k)) ->
  less (l !!! j) (l !!! i) = true -> hole b n i l -> hole b n j (swap i j l) /\ le (swap i j l !!! parent j) (swap i j l !!! j).
Proof.
  intros Hn Hb Hj Hp Hmin Hless [H1 H2]. assert (Hij : (i < j)%nat) by (subst i; apply parent_lt; lia). pose proof (less_le _ _ Hless) as Hle.
  assert (Htop : forall k, (0 < k < n)%nat -> parent k = i -> le (swap i j l !!! i) (swap i j l !!! k)).
  { intros k Hk Hpk. assert (i < k)%nat by (rewrite <- Hpk; apply parent_lt; lia). swaps; [done|]. by apply Hmin. }
  split; [split|rewrite Hp; apply Htop; [lia|done]].
  - intros k Hk Hbk Hkj Hpkj. pose proof (parent_lt k ltac:(lia)). destruct (decide (parent k = i)) as [Hpi|Hpi]; [rewrite Hpi; by apply Htop|]. destruct (decide (k = i)) as [-> |Hki].
    + swaps. apply H2; [lia|done|lia|done].
    + swaps. by apply H1.
  - intros k _ _ Hk Hpk. pose proof (parent_lt k ltac:(lia)). rewrite Hp. swaps. rewrite <- Hpk. apply H1; [lia|lia|lia|lia].
Qed.

(** [down] repairs a hole that is in order with its parent. *)
Lemma down_repairs b n fuel : forall l i, (n <= length l)%nat -> (b <= i)%nat -> (n <= i + fuel)%nat -> hole b n i l -> ((0 < i < n)%nat -> (b <= parent i)%nat -> le (l !!! parent i) (l !!! i)) ->
  exists l' i', down less fuel l i n = (l', i') /\ heap_from b n l' /\ l' ≡ₚ l /\ same_above n l l' /\ (i <= i')%nat.
Proof.
  induction fuel as [|fuel IH]; intros l i Hn Hb Hf Hh Hp; cbn [down].
  - exists l, i. split_and!; [done| |done|done|lia]. destruct Hh as [H1 H2]. intros k Hk Hbk. pose proof (parent_lt k ltac:(lia)). destruct (decide (k = i)) as [-> |]; [lia|]. apply H1; lia.
  - destruct (Nat.leb_spec n (2 * i + 1)) as [Hle|Hlt].
    + exists l, i. split_and!; [done| |done|done|lia]. destruct Hh as [H1 H2]. intros k Hk Hbk. destruct (decide (k = i)) as [-> |]; [by apply Hp|]. apply H1; [done|done|done|].
      intros Hpk. apply parent_iff in Hpk; lia.
    + destruct (child_spec n l i Hn Hlt) as (Hj & Hpj & Hmin). set (j := if _ && _ then _ else _) in *. rewrite less_at_spec by (pose proof (parent_lt j ltac:(lia)); lia).
      pose proof (parent_lt j ltac:(lia)). destruct (less (l !!! j) (l !!! i)) eqn:El; cbn [negb].
      * destruct (down_step b n l i j Hn Hb Hj Hpj Hmin El Hh) as (Hh' & Hp'). destruct (IH (swap i j l) j) as (l' & i' & Hd & H1 & H2 & H3 & H4); [by rewrite length_swap|lia|lia|done|done|].
        exists l', i'. split_and!; [done|done|by rewrite H2, swap_perm by lia| |lia]. eapply same_above_trans; [apply (same_above_swap n l i j); lia|done].
      * exists l, i. split_and!; [done| |done|done|lia]. destruct Hh as [H1 H2]. intros k Hk Hbk. destruct (decide (k = i)) as [-> |]; [by apply Hp|].
        destruct (decide (parent k = i)) as [Hpk|]; [|by apply H1]. rewrite Hpk. eapply le_trans; [exact El|by apply Hmin].
Qed.

(** In general it moves the hole down, or leaves it in order with its children. *)
Lemma down_spec n l i : (n <= length l)%nat -> (i < n)%nat -> hole 0 n i l ->
  exists l' moved, heap_down less l i n = (l', moved) /\ l' ≡ₚ l /\ same_above n l l' /\
    if moved : bool then heap n l' else l' = l /\ forall k, (0 < k < n)%nat -> k <> i -> le (l !!! parent k) (l !!! k).
Proof.
  intros Hn Hi Hh. unfold heap_down. cbn [down]. destruct (Nat.leb_spec n (2 * i + 1)) as [Hle|Hlt].
  - exists l, false. rewrite (proj2 (Nat.ltb_ge i i)) by lia. split_and!; [done|done|done|done|]. intros k Hk Hki. apply (proj1 Hh); [done|lia|done|]. intros Hpk. apply parent_iff in Hpk; lia.
  - destruct (child_spec n l i Hn Hlt) as (Hj & Hpj & Hmin). set (j := if _ && _ then _ else _) in *. rewrite less_at_spec by (pose proof (parent_lt j ltac:(lia)); lia).
    pose proof (parent_lt j ltac:(lia)). destruct (less (l !!! j) (l !!! i)) eqn:El; cbn [negb].
    + destruct (down_step 0 n l i j Hn ltac:(lia) Hj Hpj Hmin El Hh) as (Hh' & Hp'). destruct (down_repairs 0 n n (swap i j l) j) as (l' & i' & Hd & H1 & H2 & H3 & H4); [by rewrite length_swap|lia|lia|done|done|].
      rewrite Hd, (proj2 (Nat.ltb_lt i i')) by lia. exists l', true. split_and!; [done|by rewrite H2, swap_perm by lia| |intros k Hk; apply H1; lia]. eapply same_above_trans; [apply (same_above_swap n l i j); lia|done].
    + exists l, false. rewrite (proj2 (Nat.ltb_ge i i)) by lia. split_and!; [done|done|done|done|]. intros k Hk Hki. destruct (decide (parent k = i)) as [Hpk|]; [|by apply (proj1 Hh); [| lia | |]].
      rewrite Hpk. eapply le_trans; [exact El|by apply Hmin].
Qed.

(** [up] repairs an element that is in order with its children. *)
Lemma up_repairs n fuel : forall l j, (n <= length l)%nat -> (j < n)%nat -> (j < fuel)%nat -> (forall k, (0 < k < n)%nat -> k <> j -> le (l !!! parent k) (l !!! k)) ->
  (forall k, (0 < j)%nat -> (0 < k < n)%nat -> parent k = j -> le (l !!! parent j) (l !!! k)) -> heap n (up less fuel l j) /\ up less fuel l j ≡ₚ l /\ same_above n l (up less fuel l j).
Proof.
  induction fuel as [|fuel IH]; intros l j Hn Hj Hf H1 H2; [lia|]. cbn [up]. fold (parent j). destruct (Nat.eqb_spec (parent j) j) as [He|Hne]; cbn [orb].
  - split_and!; [|done|done]. intros k Hk. apply H1; [done|]. intros ->. pose proof (parent_lt j ltac:(lia)). lia.
  - assert (Hj0 : (0 < j)%nat) by (destruct j; [done|lia]). pose proof (parent_lt j Hj0) as Hpj. rewrite less_at_spec by lia. destruct (less _ _) eqn:El; cbn [negb].
    + pose proof (less_le _ _ El) as Hle. destruct (IH (swap (parent j) j l) (parent j)) as (H3 & H4 & H5); [by rewrite length_swap|lia|lia| | |].
      * intros k Hk Hkp. pose proof (parent_lt k ltac:(lia)). destruct (decide (k = j)) as [-> |Hkj]; [swaps; done|]. destruct (decide (parent k = parent j)) as [Hpp|Hpp].
        -- rewrite Hpp. swaps. eapply le_trans; [exact Hle|]. rewrite <- Hpp. by apply H1.
        -- destruct (decide (parent k = j)) as [Hpk|Hpk]; [rewrite Hpk; swaps; apply H2; [lia|lia|done]|]. swaps. by apply H1.
      * intros k Hp0 Hk Hpk. pose proof (parent_lt (parent j) Hp0). pose proof (H1 (parent j) ltac:(lia) ltac:(lia)) as Hg. pose proof (parent_lt k ltac:(lia)). swaps; [done|].
        eapply le_trans; [exact Hg|]. rewrite <- Hpk. by apply H1.
      * split_and!; [done|by rewrite H4, swap_perm by lia|]. eapply same_above_trans; [apply (same_above_swap n l (parent j) j); lia|done].
    + split_and!; [|done|done]. intros k Hk. destruct (decide (k = j)) as [-> |]; [exact El|by apply H1].
Qed.

(** ** The operations *)

Definition is_heap l : Prop := heap (length l) l.

Lemma heap_nil : is_heap [].
Proof. intros k Hk. cbn in Hk. lia. Qed.

Lemma heap_min n l k : heap n l -> (k < n)%nat -> le (l !!! 0%nat) (l !!! k).
Proof.
  intros Hh. induction k as [k IH] using lt_wf_ind. intros Hk. destruct (decide (k = 0%nat)) as [-> |Hne]; [apply le_refl|].
  pose proof (parent_lt k ltac:(lia)). eapply le_trans; [apply (IH (parent k)); lia|]. apply Hh. lia.
Qed.

Lemma head_min x l y : is_heap (x :: l) -> y ∈ l -> le x y.
Proof. intros Hh [k Hk]%list_elem_of_lookup. pose proof (lookup_lt_Some _ _ _ Hk). pose proof (heap_min _ _ (S k) Hh) as Hm. rewrite <- (list_lookup_total_correct (x :: l) (S k) y Hk). apply Hm. cbn. lia. Qed.

Lemma lookup_total_take l n k : (k < n)%nat -> take n l !!! k = l !!! k.
Proof. intros Hk. by rewrite lookup_total_take_lt. Qed.

Lemma take_heap n l : heap n l -> (n <= length l)%nat -> is_heap (take n l).
Proof. intros Hh Hn k. rewrite length_take_le by done. intros Hk. pose proof (parent_lt k ltac:(lia)). rewrite !lookup_total_take by lia. by apply Hh. Qed.

Lemma pop_last_spec n l x : length l = S n -> l !!! n = x -> pop_last l = Ret (x, take n l) /\ l ≡ₚ x :: take n l.
Proof.
  intros Hl Hx. destruct (exists_last (l := l)) as (l' & y & ->); [by intros ->|]. rewrite length_app in Hl. cbn in Hl. assert (n = length l') as -> by lia.
  rewrite list_lookup_total_middle in Hx by done. subst y. unfold pop_last. rewrite last_snoc, length_app. cbn [length]. replace (length l' + 1 - 1)%nat with (length l') by lia.
  rewrite take_app_length. split; [done|]. by rewrite Permutation_app_comm.
Qed.

Lemma push_heap l x : is_heap l -> is_heap (Push less l x) /\ Push less l x ≡ₚ x :: l.
Proof.
  intros Hh. unfold Push, heap_up. destruct (up_repairs (S (length l)) (S (length l)) (l ++ [x]) (length l)) as (H1 & H2 & H3 & _); [rewrite length_app; cbn; lia|lia|lia| | |].
  - intros k Hk Hne. pose proof (parent_lt k ltac:(lia)). rewrite !lookup_total_app_l by lia. apply Hh. lia.
  - intros k _ Hk Hp. pose proof (parent_lt k ltac:(lia)). lia.
  - split; [|rewrite H2; by rewrite Permutation_app_comm]. unfold is_heap. rewrite H3, length_app. cbn. by rewrite Nat.add_1_r.
Qed.

Lemma pop_heap x l : is_heap (x :: l) -> exists l', Pop less (x :: l) = Ret (x, l') /\ l ≡ₚ l' /\ is_heap l' /\ forall y, y ∈ l' -> le x y.
Proof.
  intros Hh. set (l0 := x :: l). unfold Pop. fold l0. change (match l0 with [] => Panic | _ :: _ => ?e end) with e. set (n := (length l0 - 1)%nat). assert (Hn : length l0 = S n) by (subst n; cbn; lia).
  destruct (down_repairs 0 n (S n) (swap 0 n l0) 0) as (l' & i' & Hd & H1 & H2 & [H3 H4] & _); [rewrite length_swap; lia|lia|lia| |lia|].
  { split; [|lia]. intros k Hk _ Hk0 Hp. pose proof (parent_lt k ltac:(lia)). swaps. apply Hh. fold l0. lia. }
  unfold heap_down. rewrite Hd. rewrite length_swap in H3. destruct (pop_last_spec n l' x) as [Hp Hperm]; [lia|rewrite H4 by lia; swaps; [by replace n with 0%nat by lia|done]|].
  assert (Hpl : l ≡ₚ take n l') by (apply (Permutation_cons_inv (a := x)); rewrite <- Hperm, H2; symmetry; apply (swap_perm l0); lia).
  exists (take n l'). split_and!; [done|done|apply take_heap; [intros k Hk; apply H1; lia|lia]|]. intros y Hy. rewrite <- Hpl in Hy. by eapply head_min.
Qed.

Lemma remove_heap l i x : is_heap l -> l !! i = Some x -> exists l', Remove less l i = Ret (x, l') /\ l ≡ₚ x :: l' /\ is_heap l'.
Proof.
  intros Hh Hi. pose proof (lookup_lt_Some _ _ _ Hi) as Hlt. apply list_lookup_total_correct in Hi. unfold Remove. rewrite (proj2 (Nat.leb_gt _ _)) by lia. set (n := (length l - 1)%nat). assert (Hn : length l = S n) by lia.
  destruct (Nat.eqb_spec n i) as [He|Hne].
  - destruct (pop_last_spec n l x Hn ltac:(congruence)) as [Hp Hperm]. exists (take n l). split_and!; [done|done|]. apply take_heap; [|lia]. intros k Hk. apply Hh. lia.
  - assert (Hhole : hole 0 n i (swap i n l)).
    { split.
      - intros k Hk _ Hki Hp. pose proof (parent_lt k ltac:(lia)). swaps. apply Hh. lia.
      - intros k Hi0 _ Hk Hp. pose proof (parent_lt k ltac:(lia)). pose proof (parent_lt i Hi0). swaps. eapply le_trans; [apply Hh; lia|]. rewrite <- Hp. apply Hh. lia. }
    assert (Hlast : forall l', same_above n (swap i n l) l' -> heap n l' -> l' ≡ₚ swap i n l -> exists l'', pop_last l' = Ret (x, l'') /\ l ≡ₚ x :: l'' /\ is_heap l'').
    { intros l' [H3 H4] H1 H2. rewrite length_swap in H3. destruct (pop_last_spec n l' x) as [Hp Hperm]; [lia|rewrite H4 by lia; swaps; subst; done|]. exists (take n l').
      split_and!; [done|rewrite <- Hperm, H2; symmetry; apply swap_perm; lia|apply take_heap; [done|lia]]. }
    destruct (down_spec n (swap i n l) i) as (l' & moved & Hd & H2 & H3 & H4); [rewrite length_swap; lia|lia|done|]. rewrite Hd. destruct moved; [by apply Hlast|]. destruct H4 as [-> H4].
    destruct (up_repairs n (S i) (swap i n l) i) as (H5 & H6 & H7); [rewrite length_swap; lia|lia|lia|done|intros k Hi0 Hk; apply Hhole; lia|]. by apply Hlast.
Qed.

Lemma init_loop_heap n k : forall l, length l = n -> (k <= n)%nat -> heap_from k n l -> heap n (init_loop less k l) /\ init_loop less k l ≡ₚ l.
Proof.
  induction k as [|i IH]; intros l Hl Hi Hh; cbn [init_loop]; [split; [|done]; intros j Hj; apply Hh; lia|].
  destruct (down_repairs i n (S n) l i) as (l' & i' & Hd & H1 & H2 & [H3 _] & _); [lia|lia|lia| | |].
  - split; [|intros k H0 Hb; pose proof (parent_lt i H0); lia]. intros k Hk Hb Hki Hp. apply Hh; lia.
  - intros [H0 _] Hb. pose proof (parent_lt i H0). lia.
  - unfold heap_down. rewrite Hl, Hd. cbn [fst]. destruct (IH l') as [H4 H5]; [lia|lia|done|]. split; [done|by rewrite H5].
Qed.

Lemma init_heap l : is_heap (Init less l) /\ Init less l ≡ₚ l.
Proof.
  destruct (init_loop_heap (length l) (length l / 2) l eq_refl) as [H1 H2]; [apply Nat.Div0.div_le_upper_bound; lia| |].
  - intros k Hk Hp. unfold parent in Hp. pose proof (Nat.div_mod_eq (length l) 2). pose proof (Nat.mod_upper_bound (length l) 2). pose proof (Nat.div_mod_eq (k - 1) 2). lia.
  - split; [|done]. unfold is_heap, Init. by rewrite (Permutation_length H2).
Qed.

End Order.
