(* ===== verification/TxList.v ===== *)
(** * Lists of pooled transactions (core/txpool/legacypool/list.go, noncer.go)

    The transactions of one account, in a map by nonce with a heap of the nonces and a
    cache of the sorted list, and on top of it the list with its caps and total cost.  Then
    the noncer, the index of all transactions by hash and the heaps that order the remote
    ones by price, with [lookup] and [numSlots] from the end of legacypool.go.  Locks are
    left out: every method runs under them. *)

From stdpp Require Import gmap sorting.
From S2P Require Import Prelude VMCommon StateTypes Transactions Heap.

(** ** Transactions as the pool sees them *)

(** What the pool reads from a transaction; [tx_sender] is nothing when the signature is
    not valid. *)
Class TxView (T : Type) : Type := {
  tx_nonce : T -> Z;
  tx_gas : T -> Z;
  tx_cost : T -> Z;
  tx_feecap : T -> Z;
  tx_tipcap : T -> Z;
  tx_hash : T -> Z;
  tx_size : T -> Z;
  tx_sender : T -> option Z
}.

(** The methods of a transaction; they return for one whose fields are set. *)
Definition returned (z : outcome Z) : Z := match z with Ret z => z | _ => 0 end.

Definition transaction_view {P : PQCrypto} {C : Crypto} (signer : Tx.Signer) : TxView Tx.Transaction := {|
  tx_nonce tx := Tx.Nonce (Tx.inner tx);
  tx_gas tx := Tx.Gas (Tx.inner tx);
  tx_cost tx := returned (Tx.Cost tx);
  tx_feecap tx := returned (Tx.GasFeeCap_ tx);
  tx_tipcap tx := returned (Tx.GasTipCap_ tx);
  tx_hash tx := returned (let! (h, _) := Tx.Hash tx in Ret h);
  tx_size tx := returned (let! (n, _) := Tx.Size tx in Ret n);
  tx_sender tx := match Tx.Sender signer tx with Ret (inr addr, _) => Some addr | _ => None end
|}.

(** A loop over a Go map takes the entries in some order. *)
Class MapOrder : Type := { range : forall {A}, gmap Z A -> list (Z * A) }.
Class MapOrderSpec (O : MapOrder) : Prop := { range_perm : forall A (m : gmap Z A), range m ≡ₚ map_to_list m }.

Definition nonce_less (x y : Z) : bool := x <? y.

Section Lists.
Context {T : Type} {V : TxView T} {MO : MapOrder}.

(** ** The map *)

Record sortedMap : Type := mkSorted { items : gmap Z T; index : list Z; sm_cache : option (list T) }.

Definition set_items (x : gmap Z T) (m : sortedMap) : sortedMap := mkSorted x (index m) (sm_cache m).
Definition set_index (x : list Z) (m : sortedMap) : sortedMap := mkSorted (items m) x (sm_cache m).
Definition set_cache (x : option (list T)) (m : sortedMap) : sortedMap := mkSorted (items m) (index m) x.

Definition newSortedMap : sortedMap := mkSorted ∅ [] None.

Definition sm_Get (nonce : Z) (m : sortedMap) : option T := items m !! nonce.

Definition sm_Put (tx : T) : M sortedMap unit :=
  let nonce := tx_nonce tx in
  let* m := mget in
  (match items m !! nonce with None => mmodify (set_index (Push nonce_less (index m) nonce)) | Some _ => mret tt end) ;;;
  mmodify (fun m => mkSorted (<[nonce := tx]> (items m)) (index m) None).

(** The transaction of a nonce of the index; a nonce without one would give nil, which
    every caller dereferences. *)
Definition take_item (nonce : Z) : M sortedMap T :=
  let* m := mget in
  let* tx := mlift (deref (items m !! nonce)) in
  mmodify (set_items (base.delete nonce (items m))) ;;;
  mret tx.

(** [heap.Pop(m.index)] *)
Definition pop_index : M sortedMap Z :=
  let* m := mget in
  let* (nonce, l) := mlift (Pop nonce_less (index m)) in
  mmodify (set_index l) ;;;
  mret nonce.

Fixpoint forward_loop (fuel : nat) (threshold : Z) (removed : list T) : M sortedMap (list T) :=
  match fuel with
  | O => mlift OutOfFuel
  | S fuel =>
      let* m := mget in
      match index m with
      | [] => mret removed
      | lowest :: _ =>
          if negb (lowest <? threshold) then mret removed
          else
            let* nonce := pop_index in
            let* tx := take_item nonce in
            forward_loop fuel threshold (removed ++ [tx])
      end
  end.

(** A round for every nonce is enough. *)
Definition sm_Forward (threshold : Z) : M sortedMap (list T) :=
  let* m := mget in
  let* removed := forward_loop (S (length (index m))) threshold [] in
  let* m := mget in
  match sm_cache m with
  | None => mret removed
  | Some c =>
      let* c := mlift (go_slice c (Zlen removed) (Zlen c)) in
      mmodify (set_cache (Some c)) ;;;
      mret removed
  end.

Definition sm_reheap : M sortedMap unit :=
  mmodify (fun m => mkSorted (items m) (Init nonce_less (map fst (range (items m)))) None).

(** [filter], which leaves the heap as it is. *)
Definition sm_filter (filter : T -> bool) : M sortedMap (list T) :=
  let* m := mget in
  let removed := List.filter filter (map snd (range (items m))) in
  mmodify (fun m => mkSorted (base.filter (fun '(_, tx) => filter tx = false) (items m)) (index m)
    (if Zlen removed >? 0 then None else sm_cache m)) ;;;
  mret removed.

Definition sm_Filter (filter : T -> bool) : M sortedMap (list T) :=
  let* removed := sm_filter filter in
  (if Zlen removed >? 0 then sm_reheap else mret tt) ;;;
  mret removed.

(** The loop of [Cap], from the highest nonce down. *)
Fixpoint cap_loop (fuel : nat) (size threshold : Z) (drops : list T) : M sortedMap (list T) :=
  match fuel with
  | O => mlift OutOfFuel
  | S fuel =>
      if negb (threshold <? size) then mret drops
      else
        let* m := mget in
        let* nonce := mlift (go_index (index m) (size - 1)) in
        let* tx := take_item nonce in
        cap_loop fuel (size - 1) threshold (drops ++ [tx])
  end.

Definition sm_Cap (threshold : Z) : M sortedMap (list T) :=
  let* m := mget in
  let len := Z.of_nat (size (items m)) in
  if len <=? threshold then mret []
  else
    mmodify (fun m => set_index (merge_sort Z.le (index m)) m) ;;;
    let* drops := cap_loop (S (S (size (items m)))) len threshold [] in
    let* m := mget in
    let* ix := mlift (go_slice (index m) 0 threshold) in
    mmodify (set_index ix) ;;;
    match sm_cache m with
    | None => mret drops
    | Some c =>
        let* c := mlift (go_slice c 0 (Zlen c - Zlen drops)) in
        mmodify (set_cache (Some c)) ;;;
        mret drops
    end.

(** The position of a nonce in the heap. *)
Fixpoint find_index (nonce : Z) (l : list Z) : option nat :=
  match l with
  | [] => None
  | x :: l => if x =? nonce then Some 0%nat else option_map S (find_index nonce l)
  end.

Definition sm_Remove (nonce : Z) : M sortedMap bool :=
  let* m := mget in
  match items m !! nonce with
  | None => mret false
  | Some _ =>
      (match find_index nonce (index m) with
       | None => mret tt
       | Some i => let* (_, l) := mlift (Remove nonce_less (index m) i) in mmodify (set_index l)
       end) ;;;
      mmodify (fun m => mkSorted (base.delete nonce (items m)) (index m) None) ;;;
      mret true
  end.

Fixpoint ready_loop (fuel : nat) (next : Z) (ready : list T) : M sortedMap (list T) :=
  match fuel with
  | O => mlift OutOfFuel
  | S fuel =>
      let* m := mget in
      match index m with
      | [] => mret ready
      | lowest :: _ =>
          if negb (lowest =? next) then mret ready
          else
            let* tx := take_item next in
            let* _ := pop_index in
            ready_loop fuel (u64 (next + 1)) (ready ++ [tx])
      end
  end.

Definition sm_Ready (start : Z) : M sortedMap (list T) :=
  let* m := mget in
  match index m with
  | [] => mret []
  | lowest :: _ =>
      if start <? lowest then mret []
      else
        let* ready := ready_loop (S (length (index m))) lowest [] in
        mmodify (set_cache None) ;;;
        mret ready
  end.

Definition sm_Len (m : sortedMap) : Z := Z.of_nat (size (items m)).

Definition by_nonce (x y : T) : Prop := tx_nonce x <= tx_nonce y.
#[export] Instance by_nonce_dec x y : Decision (by_nonce x y) := Z_le_dec (tx_nonce x) (tx_nonce y).

(** [flatten]: [sort.Sort] by nonces. *)
Definition sm_flatten : M sortedMap (list T) :=
  let* m := mget in
  match sm_cache m with
  | Some c => mret c
  | None =>
      let c := merge_sort by_nonce (map snd (range (items m))) in
      mmodify (set_cache (Some c)) ;;;
      mret c
  end.

(** [Flatten] returns a copy. *)
Definition sm_Flatten : M sortedMap (list T) := sm_flatten.

Definition sm_LastElement : M sortedMap T :=
  let* c := sm_flatten in
  mlift (go_index c (Zlen c - 1)).

(** ** The list of an account *)

Record txlist : Type := mkList { strict : bool; txs : sortedMap; costcap : Z; gascap : Z; totalcost : Z }.

Definition set_txs (x : sortedMap) (l : txlist) : txlist := mkList (strict l) x (costcap l) (gascap l) (totalcost l).
Definition set_caps (cost gas : Z) (l : txlist) : txlist := mkList (strict l) (txs l) cost gas (totalcost l).
Definition set_totalcost (x : Z) (l : txlist) : txlist := mkList (strict l) (txs l) (costcap l) (gascap l) x.

Definition newList (strict : bool) : txlist := mkList strict newSortedMap 0 0 0.

Definition on_txs {A} (m : M sortedMap A) : M txlist A := fun l =>
  let! (a, t) := m (txs l) in
  Ret (a, set_txs t l).

Definition Contains (nonce : Z) (l : txlist) : bool := bool_decide (is_Some (sm_Get nonce (txs l))).

Definition subTotalCost (txs : list T) : M txlist unit :=
  mmodify (fun l => set_totalcost (fold_left (fun c tx => c - tx_cost tx) txs (totalcost l)) l).

(** Whether a transaction may replace one with the same nonce. *)
Definition bumps (old tx : T) (priceBump : Z) : bool :=
  if (tx_feecap tx <=? tx_feecap old) || (tx_tipcap tx <=? tx_tipcap old) then false
  else
    let a := int64_of (100 + int64_of priceBump) in
    let thresholdFeeCap := a * tx_feecap old / 100 in
    let thresholdTip := a * tx_tipcap old / 100 in
    negb ((tx_feecap tx <? thresholdFeeCap) || (tx_tipcap tx <? thresholdTip)).

Definition list_Add (tx : T) (priceBump : Z) : M txlist (bool * option T) :=
  let* l := mget in
  let old := sm_Get (tx_nonce tx) (txs l) in
  if match old with Some old => bumps old tx priceBump | None => true end then
    (match old with Some old => subTotalCost [old] | None => mret tt end) ;;;
    mmodify (fun l => set_totalcost (totalcost l + tx_cost tx) l) ;;;
    on_txs (sm_Put tx) ;;;
    mmodify (fun l => set_caps (if costcap l <? tx_cost tx then tx_cost tx else costcap l) (if gascap l <? tx_gas tx then tx_gas tx else gascap l) l) ;;;
    mret (true, old)
  else mret (false, None).

Definition list_Forward (threshold : Z) : M txlist (list T) :=
  let* txs := on_txs (sm_Forward threshold) in
  subTotalCost txs ;;;
  mret txs.

(** The lowest nonce of the removed transactions. *)
Definition lowest_nonce (txs : list T) : Z := fold_left (fun lowest tx => if tx_nonce tx <? lowest then tx_nonce tx else lowest) txs MaxUint64.

Definition list_Filter (costLimit gasLimit : Z) : M txlist (list T * list T) :=
  let* l := mget in
  if (costcap l <=? costLimit) && (gascap l <=? gasLimit) then mret ([], [])
  else
    mmodify (set_caps costLimit gasLimit) ;;;
    let* removed := on_txs (sm_Filter (fun tx => (gasLimit <? tx_gas tx) || (costLimit <? tx_cost tx))) in
    if Zlen removed =? 0 then mret ([], [])
    else
      let* invalids := (if strict l then on_txs (sm_filter (fun tx => lowest_nonce removed <? tx_nonce tx)) else mret []) in
      subTotalCost removed ;;;
      subTotalCost invalids ;;;
      on_txs sm_reheap ;;;
      mret (removed, invalids).

Definition list_Cap (threshold : Z) : M txlist (list T) :=
  let* txs := on_txs (sm_Cap threshold) in
  subTotalCost txs ;;;
  mret txs.

(** [Remove] subtracts the cost of the transaction it is given. *)
Definition list_Remove (tx : T) : M txlist (bool * list T) :=
  let nonce := tx_nonce tx in
  let* removed := on_txs (sm_Remove nonce) in
  if negb removed then mret (false, [])
  else
    subTotalCost [tx] ;;;
    let* l := mget in
    if strict l then
      let* txs := on_txs (sm_Filter (fun tx => nonce <? tx_nonce tx)) in
      subTotalCost txs ;;;
      mret (true, txs)
    else mret (true, []).

Definition list_Ready (start : Z) : M txlist (list T) :=
  let* txs := on_txs (sm_Ready start) in
  subTotalCost txs ;;;
  mret txs.

Definition list_Len (l : txlist) : Z := sm_Len (txs l).
Definition list_Empty (l : txlist) : bool := list_Len l =? 0.
Definition list_Flatten : M txlist (list T) := on_txs sm_Flatten.
Definition list_LastElement : M txlist T := on_txs sm_LastElement.

End Lists.

#[global] Arguments sortedMap T : clear implicits.
#[global] Arguments txlist T : clear implicits.

(** ** Virtual nonces *)

(** [fallback] is what the state knows. *)
Record noncer : Type := mkNoncer { fallback : Z -> Z; nonces : gmap Z Z }.

Definition newNoncer (statedb : Z -> Z) : noncer := mkNoncer statedb ∅.

(** An unknown account is looked up, and remembered unless its nonce is 0. *)
Definition noncer_load (addr : Z) (txn : noncer) : noncer :=
  match nonces txn !! addr with
  | Some _ => txn
  | None => if fallback txn addr =? 0 then txn else mkNoncer (fallback txn) (<[addr := fallback txn addr]> (nonces txn))
  end.

Definition noncer_get (addr : Z) : M noncer Z :=
  mmodify (noncer_load addr) ;;;
  let* txn := mget in
  mret (default 0 (nonces txn !! addr)).

Definition noncer_set (addr nonce : Z) : M noncer unit := mmodify (fun txn => mkNoncer (fallback txn) (<[addr := nonce]> (nonces txn))).

Definition noncer_setIfLower (addr nonce : Z) : M noncer unit :=
  mmodify (noncer_load addr) ;;;
  let* txn := mget in
  if default 0 (nonces txn !! addr) <=? nonce then mret tt
  else noncer_set addr nonce.

Definition noncer_setAll (all : gmap Z Z) : M noncer unit := mmodify (fun txn => mkNoncer (fallback txn) all).

(** * All pooled transactions, and the cheapest of them (core/txpool/legacypool)

    [lookup] of legacypool.go has all transactions by hash, local and remote; the priced
    list of list.go has two heaps of the remote ones, from which the pool takes the
    cheapest when it is full.  Heaps keep transactions that the pool has dropped until they
    come to the front or too many have gathered. *)

Section Priced.
Context {T : Type} {V : TxView T} {MO : MapOrder}.

(** ** The lookup *)

Record lookup : Type := mkLookup { slots : Z; lk_locals : gmap Z T; lk_remotes : gmap Z T }.

Definition newLookup : lookup := mkLookup 0 ∅ ∅.

Definition txSlotSize : Z := 32 * 1024.

(** [numSlots] *)
Definition numSlots (tx : T) : Z := u64 (tx_size tx + txSlotSize - 1) / txSlotSize.

Definition GetLocal (hash : Z) (t : lookup) : option T := lk_locals t !! hash.
Definition GetRemote (hash : Z) (t : lookup) : option T := lk_remotes t !! hash.

(** [lookup.Get] *)
Definition all_Get (hash : Z) (t : lookup) : option T :=
  match lk_locals t !! hash with Some tx => Some tx | None => lk_remotes t !! hash end.

Definition LocalCount (t : lookup) : Z := Z.of_nat (size (lk_locals t)).
Definition RemoteCount (t : lookup) : Z := Z.of_nat (size (lk_remotes t)).
Definition all_Count (t : lookup) : Z := LocalCount t + RemoteCount t.

(** [lookup.Add] *)
Definition all_Add (tx : T) (local : bool) (t : lookup) : lookup :=
  if local then mkLookup (slots t + numSlots tx) (<[tx_hash tx := tx]> (lk_locals t)) (lk_remotes t)
  else mkLookup (slots t + numSlots tx) (lk_locals t) (<[tx_hash tx := tx]> (lk_remotes t)).

(** [lookup.Remove] *)
Definition all_Remove (hash : Z) (t : lookup) : lookup :=
  match all_Get hash t with
  | None => t
  | Some tx => mkLookup (slots t - numSlots tx) (base.delete hash (lk_locals t)) (base.delete hash (lk_remotes t))
  end.

(** [accountSet.containsTx] *)
Definition containsTx (locals : gset Z) (tx : T) : bool := match tx_sender tx with Some addr => bool_decide (addr ∈ locals) | None => false end.

(** [RemoteToLocals]: the remote transactions of local accounts become local; how many. *)
Definition RemoteToLocals (locals : gset Z) (t : lookup) : Z * lookup :=
  let moved := base.filter (fun '(_, tx) => containsTx locals tx = true) (lk_remotes t) in
  (Z.of_nat (size moved), mkLookup (slots t) (moved ∪ lk_locals t) (base.filter (fun '(_, tx) => containsTx locals tx = false) (lk_remotes t))).

Definition RemotesBelowTip (threshold : Z) (t : lookup) : list T := List.filter (fun tx => tx_tipcap tx <? threshold) (map snd (range (lk_remotes t))).

(** ** Price order *)

Definition effectiveTip (tx : T) (baseFee : Z) : Z := Z.min (tx_tipcap tx) (tx_feecap tx - baseFee).

(** [priceHeap.cmp] *)
Definition ph_cmp (baseFee : option Z) (a b : T) : comparison :=
  let rest := match tx_feecap a ?= tx_feecap b with Eq => tx_tipcap a ?= tx_tipcap b | c => c end in
  match baseFee with
  | Some baseFee => match effectiveTip a baseFee ?= effectiveTip b baseFee with Eq => rest | c => c end
  | None => rest
  end.

(** [priceHeap.Less] *)
Definition ph_less (baseFee : option Z) (a b : T) : bool :=
  match ph_cmp baseFee a b with Lt => true | Gt => false | Eq => tx_nonce b <? tx_nonce a end.

(** ** The priced list *)

(** The floating heap has no base fee. *)
Record pricedList : Type := mkPriced { stales : Z; urgent : list T; urgentBase : option Z; floating : list T }.

Definition set_stales (x : Z) (l : pricedList) : pricedList := mkPriced x (urgent l) (urgentBase l) (floating l).
Definition set_urgent (x : list T) (l : pricedList) : pricedList := mkPriced (stales l) x (urgentBase l) (floating l).
Definition set_floating (x : list T) (l : pricedList) : pricedList := mkPriced (stales l) (urgent l) (urgentBase l) x.

Definition newPricedList : pricedList := mkPriced 0 [] None [].

Definition urgentRatio : Z := 4.
Definition floatingRatio : Z := 1.

Definition urgent_less (l : pricedList) : T -> T -> bool := ph_less (urgentBase l).
Definition floating_less : T -> T -> bool := ph_less None.

(** [Put] *)
Definition priced_Put (tx : T) (local : bool) : M pricedList unit :=
  if local then mret tt else mmodify (fun l => set_urgent (Push (urgent_less l) (urgent l) tx) l).

Definition pop_urgent : M pricedList T :=
  let* l := mget in
  let* (tx, h) := mlift (Pop (urgent_less l) (urgent l)) in
  mmodify (set_urgent h) ;;; mret tx.

Definition pop_floating : M pricedList T :=
  let* l := mget in
  let* (tx, h) := mlift (Pop floating_less (floating l)) in
  mmodify (set_floating h) ;;; mret tx.

(** The [n] cheapest of the urgent heap. *)
Fixpoint pop_some (n : nat) : M pricedList (list T) :=
  match n with
  | O => mret []
  | S n => let* tx := pop_urgent in let* txs := pop_some n in mret (tx :: txs)
  end.

Definition Reheap (all : lookup) : M pricedList unit :=
  mmodify (set_stales 0) ;;;
  mmodify (fun l => set_urgent (Init (urgent_less l) (map snd (range (lk_remotes all)))) l) ;;;
  let* l := mget in
  let floatingCount := Zlen (urgent l) * floatingRatio / (urgentRatio + floatingRatio) in
  let* txs := pop_some (Z.to_nat floatingCount) in
  mmodify (set_floating (Init floating_less txs)).

(** [SetBaseFee] *)
Definition SetBaseFee (baseFee : Z) (all : lookup) : M pricedList unit :=
  mmodify (fun l => mkPriced (stales l) (urgent l) (Some baseFee) (floating l)) ;;;
  Reheap all.

(** [Removed] *)
Definition priced_Removed (count : Z) (all : lookup) : M pricedList unit :=
  mmodify (fun l => set_stales (stales l + count) l) ;;;
  let* l := mget in
  if stales l <=? (Zlen (urgent l) + Zlen (floating l)) / 4 then mret tt else Reheap all.

(** A transaction that the pool has dropped, or made local. *)
Definition stale (all : lookup) (tx : T) : bool := match GetRemote (tx_hash tx) all with None => true | Some _ => false end.

(** Drop stale transactions from the front of a heap; how many were there. *)
Fixpoint drop_stale (fuel : nat) (less : T -> T -> bool) (all : lookup) (h : list T) (n : Z) : outcome (list T * Z) :=
  match fuel with
  | O => OutOfFuel
  | S fuel =>
      match h with
      | [] => Ret ([], n)
      | head :: _ => if stale all head then let! (_, h) := Pop less h in drop_stale fuel less all h (n + 1) else Ret (h, n)
      end
  end.

(** [underpricedFor], on the heap with its order; it returns the heap too. *)
Definition underpricedFor (baseFee : option Z) (all : lookup) (h : list T) (tx : T) : outcome (bool * list T * Z) :=
  let! (h, n) := drop_stale (S (length h)) (ph_less baseFee) all h 0 in
  Ret (match h with [] => false | head :: _ => match ph_cmp baseFee head tx with Lt => false | _ => true end end, h, n).

(** [Underpriced]; the second heap is only looked at when the first does not decide. *)
Definition Underpriced (all : lookup) (tx : T) : M pricedList bool :=
  let* l := mget in
  let* (b, h, n) := mlift (underpricedFor (urgentBase l) all (urgent l) tx) in
  mmodify (fun l => set_stales (stales l - n) (set_urgent h l)) ;;;
  let* l := mget in
  if negb (b || (Zlen (urgent l) =? 0)) then mret false
  else
    let* (b, h, n) := mlift (underpricedFor None all (floating l) tx) in
    mmodify (fun l => set_stales (stales l - n) (set_floating h l)) ;;;
    let* l := mget in
    if negb (b || (Zlen (floating l) =? 0)) then mret false
    else mret (negb (Zlen (urgent l) =? 0) || negb (Zlen (floating l) =? 0)).

(** The loop of [Discard]: what is dropped, and the slots still wanted. *)
Fixpoint discard_loop (fuel : nat) (all : lookup) (slots : Z) (drop : list T) : M pricedList (list T * Z) :=
  match fuel with
  | O => mlift OutOfFuel
  | S fuel =>
      if negb (0 <? slots) then mret (drop, slots)
      else
        let* l := mget in
        if Zlen (floating l) * urgentRatio <? Zlen (urgent l) * floatingRatio then
          let* tx := pop_urgent in
          if stale all tx then mmodify (fun l => set_stales (stales l - 1) l) ;;; discard_loop fuel all slots drop
          else mmodify (fun l => set_floating (Push floating_less (floating l) tx) l) ;;; discard_loop fuel all slots drop
        else if Zlen (floating l) =? 0 then mret (drop, slots)
        else
          let* tx := pop_floating in
          if stale all tx then mmodify (fun l => set_stales (stales l - 1) l) ;;; discard_loop fuel all slots drop
          else discard_loop fuel all (slots - numSlots tx) (drop ++ [tx])
  end.

(** A transaction is moved from heap to heap once and dropped once.  The slots are the
    capacity of a new slice, so they must not be negative. *)
Definition Discard (all : lookup) (slots : Z) (force : bool) : M pricedList (list T * bool) :=
  (if slots <? 0 then mlift Panic else mret tt) ;;;
  let* l := mget in
  let* (drop, slots) := discard_loop (S (2 * length (urgent l) + length (floating l))) all slots [] in
  if (0 <? slots) && negb force then
    mmodify (fun l => set_urgent (fold_left (Push (urgent_less l)) drop (urgent l)) l) ;;;
    mret ([], false)
  else mret (drop, true).

End Priced.

#[global] Arguments lookup T : clear implicits.
#[global] Arguments pricedList T : clear implicits.
