(* ===== verification/TxListTheorems.v ===== *)
(** * A list of pooled transactions is a map by nonce

    Heap, cache, caps and total cost all follow from the map of the transactions; every
    operation answers from the map and keeps them so. *)

From stdpp Require Import gmap sorting.
From S2P Require Import Prelude Heap TxList.

(** Run the state monad on the fields of a map. *)
Ltac srun := unfold mthen, mget, mmodify, mret, mlift; cbn [obind fst snd items index sm_cache set_items set_index set_cache deref].

(** ** Nonces in order *)

#[export] Instance nonce_order : HeapOrder nonce_less.
Proof. split; unfold nonce_less; intros; rewrite ?Z.ltb_lt, ?Z.ltb_ge in *; lia. Qed.

Lemma le_nonce x y : le nonce_less x y <-> x <= y.
Proof. unfold le, nonce_less. apply Z.ltb_ge. Qed.

(** The keys of a map in ascending order. *)
Definition keys {A} (it : gmap Z A) : list Z := merge_sort Z.le (map fst (map_to_list it)).
Definition flat {A} (it : gmap Z A) : list A := omap (it !!.) (keys it).

Section Keys.
Context {A : Type}.
Implicit Types it : gmap Z A.

Lemma keys_perm it : keys it ≡ₚ map fst (map_to_list it).
Proof. apply merge_sort_Permutation. Qed.

Lemma keys_sorted it : StronglySorted Z.le (keys it).
Proof. apply Sorted_StronglySorted; [intros x y z; lia|]. apply Sorted_merge_sort. intros x y. lia. Qed.

Lemma elem_keys it k : k ∈ keys it <-> is_Some (it !! k).
Proof.
  rewrite keys_perm. change (map fst) with (fmap (M := list) (@fst Z A)). rewrite list_elem_of_fmap. split.
  - intros ([k' x] & -> & Hx). apply elem_of_map_to_list in Hx. eauto.
  - intros [x Hx]. exists (k, x). split; [done|by apply elem_of_map_to_list].
Qed.

Lemma NoDup_keys it : NoDup (keys it).
Proof. rewrite keys_perm. apply NoDup_fst_map_to_list. Qed.

Lemma keys_unique it l : StronglySorted Z.le l -> l ≡ₚ map fst (map_to_list it) -> l = keys it.
Proof. intros Hs Hp. apply (StronglySorted_unique Z.le); [done|apply keys_sorted|by rewrite Hp, keys_perm]. Qed.

Lemma keys_empty : keys (∅ : gmap Z A) = [].
Proof. apply Permutation_nil_r. rewrite keys_perm, map_to_list_empty. done. Qed.

Lemma length_keys it : length (keys it) = size it.
Proof. rewrite keys_perm, length_map. apply length_map_to_list. Qed.

Lemma map_fst_delete it k x : it !! k = Some x -> map fst (map_to_list it) ≡ₚ k :: map fst (map_to_list (base.delete k it)).
Proof. intros Hx. rewrite <- (insert_delete_id it k x Hx) at 1. rewrite map_to_list_insert by apply lookup_delete_eq. done. Qed.

(** The lowest and the highest key. *)
Lemma keys_min it k x : it !! k = Some x -> (forall j, is_Some (it !! j) -> k <= j) -> keys it = k :: keys (base.delete k it).
Proof.
  intros Hx Hmin. symmetry. apply keys_unique; [|by rewrite keys_perm, <- map_fst_delete]. constructor; [apply keys_sorted|].
  apply Forall_forall. intros j Hj%list_elem_of_In%elem_keys. apply Hmin. destruct Hj as [y Hy]. apply lookup_delete_Some in Hy as [_ Hy]. eauto.
Qed.

Lemma keys_max it k x : it !! k = Some x -> (forall j, is_Some (it !! j) -> j <= k) -> keys it = keys (base.delete k it) ++ [k].
Proof.
  intros Hx Hmax. symmetry. apply keys_unique; [|rewrite Permutation_app_comm; cbn; by rewrite keys_perm, <- map_fst_delete].
  apply StronglySorted_app. split; [|split; [apply keys_sorted|repeat constructor]]. intros a b Ha Hb. apply list_elem_of_singleton in Hb as ->. apply Hmax.
  apply elem_keys in Ha as [y Hy]. apply lookup_delete_Some in Hy as [_ Hy]. eauto.
Qed.

Lemma omap_keys_delete it k (l : list Z) : k ∉ l -> omap (base.delete k it !!.) l = omap (it !!.) l.
Proof. intros Hk. apply list_omap_ext. induction l as [|a l IH]; constructor; [|apply IH; set_solver]. apply lookup_delete_ne. set_solver. Qed.

Lemma not_in_keys_delete it k : k ∉ keys (base.delete k it).
Proof. rewrite elem_keys, lookup_delete_eq. by intros []. Qed.

Lemma flat_min it k x : it !! k = Some x -> (forall j, is_Some (it !! j) -> k <= j) -> flat it = x :: flat (base.delete k it).
Proof.
  intros Hx Hmin. unfold flat. rewrite (keys_min it k x Hx Hmin). cbn. rewrite Hx. f_equal. symmetry. apply omap_keys_delete, not_in_keys_delete.
Qed.

Lemma flat_max it k x : it !! k = Some x -> (forall j, is_Some (it !! j) -> j <= k) -> flat it = flat (base.delete k it) ++ [x].
Proof.
  intros Hx Hmax. unfold flat. rewrite (keys_max it k x Hx Hmax), omap_app. cbn. rewrite Hx. f_equal. symmetry. apply omap_keys_delete, not_in_keys_delete.
Qed.

Lemma flat_empty : flat (∅ : gmap Z A) = [].
Proof. unfold flat. by rewrite keys_empty. Qed.

Lemma omap_fst it (l : list (Z * A)) : (forall k x, (k, x) ∈ l -> it !! k = Some x) -> omap (it !!.) (map fst l) = map snd l.
Proof.
  induction l as [|[k x] l IH]; intros Hl; [done|]. cbn. rewrite (Hl k x) by set_solver. f_equal. apply IH. intros k' x' Hin. apply Hl. set_solver.
Qed.

Lemma flat_perm it : flat it ≡ₚ map snd (map_to_list it).
Proof. unfold flat. rewrite keys_perm, omap_fst; [done|]. intros k x. apply elem_of_map_to_list. Qed.

Lemma elem_flat it x : x ∈ flat it <-> exists k, it !! k = Some x.
Proof.
  rewrite flat_perm. change (map snd) with (fmap (M := list) (@snd Z A)). rewrite list_elem_of_fmap. split.
  - intros ([k y] & -> & Hy). apply elem_of_map_to_list in Hy. eauto.
  - intros [k Hk]. exists (k, x). split; [done|by apply elem_of_map_to_list].
Qed.

Lemma length_flat it : length (flat it) = size it.
Proof. rewrite flat_perm, length_map. apply length_map_to_list. Qed.

End Keys.

(** Parts of a map: by key, and by value. *)
Abbreviation below t it := (base.filter (fun '(k, _) => k < t) it).
Abbreviation at_least t it := (base.filter (fun '(k, _) => t <= k) it).
Abbreviation keep f it := (base.filter (fun '(_, tx) => f tx = false) it).
Abbreviation pick f it := (base.filter (fun '(_, tx) => f tx = true) it).

(** ** The map of transactions *)

Section Sorted.
Context {T : Type} {V : TxView T} {MO : MapOrder} {MS : MapOrderSpec MO}.
Implicit Types (it : gmap Z T) (m : sortedMap T).

(** Transactions are stored under their nonces. *)
Definition nonced it : Prop := map_Forall (fun k tx => tx_nonce tx = k /\ in64 k) it.

(** The heap has the keys of the map. *)
Record indexed m : Prop := {
  ix_heap : is_heap nonce_less (index m);
  ix_keys : index m ≡ₚ map fst (map_to_list (items m));
  ix_nonce : nonced (items m)
}.

Record sm_ok m : Prop := {
  so_index : indexed m;
  so_cache : forall c, sm_cache m = Some c -> c = flat (items m)
}.

Lemma index_keys m : indexed m -> index m ≡ₚ keys (items m).
Proof. intros [_ Hk _]. by rewrite Hk, keys_perm. Qed.

Lemma elem_index m k : indexed m -> k ∈ index m <-> is_Some (items m !! k).
Proof. intros Hm. rewrite (index_keys m Hm). apply elem_keys. Qed.

Lemma nonced_delete it k : nonced it -> nonced (base.delete k it).
Proof. apply map_Forall_delete. Qed.

Lemma new_ok : sm_ok newSortedMap.
Proof. split; [split|done]; [apply heap_nil|done|apply map_Forall_empty]. Qed.

Lemma sorted_lookup (l : list Z) : StronglySorted Z.le l -> forall i j x y, (i < j)%nat -> l !! i = Some x -> l !! j = Some y -> x <= y.
Proof.
  induction 1 as [|a l Hs IH Ha]; intros i j x y Hij Hx Hy; [done|]. destruct j as [|j]; [lia|]. destruct i as [|i]; cbn in *.
  - injection Hx as ->. rewrite Forall_forall in Ha. apply Ha. apply list_elem_of_In. by eapply list_elem_of_lookup_2.
  - apply (IH i j); [lia|done|done].
Qed.

(** A sorted list is a heap. *)
Lemma sorted_heap l : StronglySorted Z.le l -> is_heap nonce_less l.
Proof.
  intros Hs k Hk. apply le_nonce. pose proof (parent_lt k ltac:(lia)) as Hp. 
  apply (sorted_lookup l Hs (parent k) k); [done|apply list_lookup_lookup_total_lt; lia|apply list_lookup_lookup_total_lt; lia].
Qed.

(** What is in the heap first. *)
Lemma index_first m k l : indexed m -> index m = k :: l -> exists tx, items m !! k = Some tx /\ (forall j, is_Some (items m !! j) -> k <= j).
Proof.
  intros Hm Hk. pose proof (elem_index m k Hm) as [H1 _]. destruct H1 as [tx Htx]; [rewrite Hk; set_solver|]. exists tx. split; [done|]. intros j Hj.
  apply elem_index in Hj; [|done]. rewrite Hk in Hj. apply elem_of_cons in Hj as [-> |Hj]; [lia|]. apply le_nonce. apply (head_min nonce_less k l j); [|done]. rewrite <- Hk. apply Hm.
Qed.

(** The first nonce is popped, and its transaction taken. *)
Lemma pop_first m k l tx : indexed m -> index m = k :: l -> items m !! k = Some tx -> exists l',
  pop_index m = Ret (k, set_index l' m) /\ take_item k m = Ret (tx, set_items (base.delete k (items m)) m) /\ length l' = length l /\
  forall c, indexed (mkSorted (base.delete k (items m)) l' c).
Proof.
  intros [Hh Hk Hn] Hi Hx. rewrite Hi in Hh, Hk. destruct (pop_heap nonce_less k l Hh) as (l' & Hp & Hperm & Hh' & _). exists l'. split_and!.
  - unfold pop_index, mthen, mget, mmodify, mret, mlift. cbn. by rewrite Hi, Hp.
  - unfold take_item, mthen, mget, mmodify, mret, mlift. cbn. by rewrite Hx.
  - by rewrite Hperm.
  - intros c. split; [done| |by apply nonced_delete]. cbn. apply (Permutation_cons_inv (a := k)). by rewrite <- map_fst_delete, <- Hk, Hperm by done.
Qed.

(** ** Lookups and removals from the front *)

Lemma put_spec m tx : sm_ok m -> in64 (tx_nonce tx) -> exists m', sm_Put tx m = Ret (tt, m') /\ sm_ok m' /\ items m' = <[tx_nonce tx := tx]> (items m).
Proof.
  intros [[Hh Hk Hn] _] Hi. assert (Hn' : nonced (<[tx_nonce tx := tx]> (items m))) by (by apply map_Forall_insert_2).
  unfold sm_Put. srun. destruct (items m !! tx_nonce tx) as [old|] eqn:Ho; srun; eexists; (split; [reflexivity|]); (split; [|done]); (split; [|done]);
    split; cbn [items index]; try done.
  - rewrite Hk, (map_fst_delete _ _ _ Ho), (map_fst_delete (<[_ := tx]> _) (tx_nonce tx) tx) by apply lookup_insert_eq. by rewrite delete_insert_eq.
  - exact (proj1 (push_heap nonce_less _ _ Hh)).
  - rewrite (proj2 (push_heap nonce_less (index m) (tx_nonce tx) Hh)), Hk. by rewrite (map_fst_delete (<[_ := tx]> _) (tx_nonce tx) tx), delete_insert_id by (done || apply lookup_insert_eq).
Qed.

Lemma filter_all {A} (P : Z -> Prop) `{!forall k, Decision (P k)} (it : gmap Z A) : (forall k, is_Some (it !! k) -> P k) -> base.filter (fun '(k, _) => P k) it = it.
Proof. intros Hp. apply map_filter_id. intros k x Hx. apply Hp. eauto. Qed.

Lemma filter_none {A} (P : Z -> Prop) `{!forall k, Decision (P k)} (it : gmap Z A) : (forall k, is_Some (it !! k) -> ~ P k) -> base.filter (fun '(k, _) => P k) it = ∅.
Proof. intros Hp. apply map_empty. intros k. apply map_lookup_filter_None_2. right. intros x Hx. apply Hp. eauto. Qed.


Lemma forward_loop_spec t fuel : forall m acc, indexed m -> (length (index m) < fuel)%nat -> exists m',
  forward_loop fuel t acc m = Ret (acc ++ flat (below t (items m)), m') /\ indexed m' /\ sm_cache m' = sm_cache m /\ items m' = at_least t (items m).
Proof.
  induction fuel as [|fuel IH]; intros m acc Hm Hf; [lia|]. cbn [forward_loop]. unfold mthen at 1, mget at 1. cbn [obind fst snd]. destruct (index m) as [|k l] eqn:Hi.
  - assert (He : items m = ∅) by (apply map_empty; intros k; apply eq_None_not_Some; rewrite <- (elem_index m k Hm), Hi; set_solver).
    exists m. rewrite He, !map_filter_empty, flat_empty, app_nil_r. done.
  - destruct (index_first m k l Hm Hi) as (tx & Hx & Hmin). destruct (Z.ltb_spec k t) as [Hlt|Hge]; cbn [negb].
    + destruct (pop_first m k l tx Hm Hi Hx) as (l' & Hp & _ & Hl & Hm'). unfold mthen at 1. rewrite Hp. cbn [obind fst snd]. unfold mthen at 1.
      unfold take_item. srun. rewrite Hx. srun.
      specialize (IH (set_items (base.delete k (items m)) (set_index l' m)) (acc ++ [tx]) (Hm' _) ltac:(cbn in *; lia)) as (m' & Hr & Hm1 & Hc & Hit). exists m'. cbn [set_items set_index items sm_cache] in *.
      rewrite <- app_assoc in Hr. split_and!; [|done|done|].
      * etrans; [exact Hr|]. do 2 f_equal. cbn. rewrite (flat_min (below t (items m)) k tx).
        -- by rewrite map_filter_delete.
        -- by apply map_lookup_filter_Some.
        -- intros j [y Hy]. apply map_lookup_filter_Some in Hy as [Hy _]. apply Hmin. eauto.
      * rewrite Hit, map_filter_delete. apply delete_id. apply map_lookup_filter_None_2. right. intros. lia.
    + exists m. rewrite filter_none, flat_empty, app_nil_r by (intros j Hj; specialize (Hmin j Hj); lia). rewrite filter_all by (intros j Hj; specialize (Hmin j Hj); lia). done.
Qed.


Lemma flat_split t it : flat it = flat (below t it) ++ flat (at_least t it).
Proof.
  induction (size it) as [|n IH] eqn:Hn in it |- *; [apply map_size_empty_inv in Hn as ->; by rewrite !map_filter_empty, flat_empty|].
  destruct (keys it) as [|k l] eqn:Hk; [rewrite <- length_keys, Hk in Hn; done|]. assert (Hx : is_Some (it !! k)) by (apply elem_keys; rewrite Hk; set_solver). destruct Hx as [x Hx].
  assert (Hmin : forall j, is_Some (it !! j) -> k <= j).
  { intros j Hj%elem_keys. pose proof (keys_sorted it) as Hs. rewrite Hk in Hs, Hj. apply StronglySorted_inv in Hs as [_ Hs]. rewrite Forall_forall in Hs. apply elem_of_cons in Hj as [-> |Hj]; [lia|]. apply Hs. by apply list_elem_of_In. }
  rewrite (flat_min it k x Hx Hmin), (IH (base.delete k it)) by (rewrite map_size_delete, Hx; lia). destruct (decide (k < t)) as [Hlt|Hge].
  - rewrite (flat_min (below t it) k x); [|by apply map_lookup_filter_Some|intros j [y [Hy _]%map_lookup_filter_Some]; apply Hmin; eauto]. rewrite !map_filter_delete. cbn. do 2 f_equal.
    rewrite delete_id; [done|]. apply map_lookup_filter_None_2. right. intros. lia.
  - rewrite (flat_min (at_least t it) k x); [|apply map_lookup_filter_Some; split; [done|lia]|intros j [y [Hy _]%map_lookup_filter_Some]; apply Hmin; eauto].
    rewrite (filter_none (fun k => k < t) (base.delete k it)), (filter_none (fun k => k < t) it); [by rewrite !flat_empty, map_filter_delete| |].
    + intros j Hj. specialize (Hmin j Hj). lia.
    + intros j [y Hy]. apply lookup_delete_Some in Hy as [_ Hy]. specialize (Hmin j ltac:(eauto)). lia.
Qed.

Lemma Zlen_flat it : Zlen (flat it) = Z.of_nat (size it).
Proof. unfold Zlen. by rewrite length_flat. Qed.

Lemma forward_spec m t : sm_ok m -> exists m', sm_Forward t m = Ret (flat (below t (items m)), m') /\ sm_ok m' /\ items m' = at_least t (items m).
Proof.
  intros [Hm Hc]. destruct (forward_loop_spec t (S (length (index m))) m [] Hm ltac:(lia)) as (m' & Hr & Hm' & Hcache & Hit). unfold sm_Forward. srun. rewrite Hr. cbn [app]. srun. rewrite Hcache.
  destruct (sm_cache m) as [c|] eqn:Ec; srun; [|exists m'; split_and!; [done|split; [done|by rewrite Hcache]|done]]. pose proof (Hc c eq_refl) as Hc'. pose proof (flat_split t (items m)) as Hsp. rewrite <- Hc' in Hsp.
  assert (Hsl : go_slice c (Zlen (flat (below t (items m)))) (Zlen c) = Ret (flat (at_least t (items m)))).
  { rewrite Hsp. unfold go_slice, Zlen. rewrite length_app, !(proj2 (Z.leb_le _ _)) by lia. cbn [andb]. rewrite Nat2Z.id, drop_app_length. f_equal. apply take_ge. lia. }
  rewrite Hsl. srun. eexists. split; [done|]. split; [|done]. split; [by destruct Hm'; split|]. cbn. intros c' [= <-]. by rewrite Hit.
Qed.

(** A list of the transactions that is sorted by nonces. *)
Lemma sorted_flat it l : nonced it -> Sorted by_nonce l -> l ≡ₚ map snd (map_to_list it) -> l = flat it.
Proof.
  intros Hn Hs Hp. assert (Hl : forall x, x ∈ l -> it !! tx_nonce x = Some x).
  { intros x Hx. rewrite Hp, <- flat_perm in Hx. apply elem_flat in Hx as [k Hk]. destruct (Hn k x Hk) as [-> _]. done. }
  assert (Hk : map tx_nonce l = keys it).
  { apply keys_unique.
    - apply Sorted_StronglySorted; [intros x y z; lia|]. clear Hp Hl. induction Hs as [|x l Hs IH Hx]; cbn; constructor; [done|]. destruct Hx; cbn; constructor. done.
    - rewrite Hp. rewrite map_map. erewrite map_ext_in; [done|]. intros [k x] Hx%list_elem_of_In%elem_of_map_to_list. by apply Hn. }
  unfold flat. rewrite <- Hk. clear Hs Hp Hk. induction l as [|x l IH]; cbn; [done|]. rewrite Hl by set_solver. f_equal. apply IH. set_solver.
Qed.

(** ** Filters *)

Lemma range_items it : map snd (range it) ≡ₚ map snd (map_to_list it).
Proof. apply Permutation_map, range_perm. Qed.

Lemma reheap_spec m : nonced (items m) -> exists m', sm_reheap m = Ret (tt, m') /\ sm_ok m' /\ items m' = items m.
Proof.
  intros Hn. unfold sm_reheap. srun. eexists. split; [done|]. split; [|done]. split; [|done]. destruct (init_heap nonce_less (map fst (range (items m)))) as [H1 H2].
  split; cbn [index items]; [done| |done]. rewrite H2. apply Permutation_map, range_perm.
Qed.

(** The transactions that are kept, and those that are not. *)

#[export] Instance filter_proper {A} (f : A -> bool) : Proper (Permutation ==> Permutation) (List.filter f).
Proof. induction 1 as [|x l l' _ IH|x y l|l l' l'' _ IH1 _ IH2]; cbn; [done|destruct (f x); by rewrite IH|destruct (f x), (f y); done || by constructor|by rewrite IH1]. Qed.

Lemma filter_values {A} (f : A -> bool) (it : gmap Z A) : List.filter f (map snd (map_to_list it)) ≡ₚ map snd (map_to_list (pick f it)).
Proof.
  induction it as [|k x it Hk IH] using map_ind; [done|]. rewrite map_to_list_insert by done. cbn [map snd List.filter]. rewrite map_filter_insert. case_decide as Hd; cbn in Hd.
  - rewrite Hd, map_to_list_insert; [cbn; by rewrite IH|]. apply map_lookup_filter_None_2. by left.
  - apply not_true_is_false in Hd. by rewrite Hd, delete_id.
Qed.

Lemma nonced_filter (P : Z * T -> Prop) `{!forall x, Decision (P x)} it : nonced it -> nonced (base.filter P it).
Proof. intros Hn k x [Hx _]%map_lookup_filter_Some. by apply Hn. Qed.

Lemma sm_filter_spec f m : exists removed m', sm_filter f m = Ret (removed, m') /\ removed ≡ₚ flat (pick f (items m)) /\ items m' = keep f (items m) /\ (removed = [] -> m' = m).
Proof.
  unfold sm_filter. srun. eexists _, _. split; [reflexivity|]. cbn [items]. split; [by rewrite range_items, flat_perm, filter_values|]. split; [done|].
  intros Hr. rewrite Hr. cbn. destruct m as [it ix c]. cbn in *. f_equal. apply map_filter_id. intros k x Hx. destruct (f x) eqn:Hf; [|done].
  assert (Hin : x ∈ List.filter f (map snd (range it))); [|rewrite Hr in Hin; set_solver]. apply list_elem_of_In, filter_In. split; [|done]. apply list_elem_of_In. rewrite range_items, <- flat_perm. apply elem_flat. eauto.
Qed.

Lemma Filter_spec f m : sm_ok m -> exists removed m', sm_Filter f m = Ret (removed, m') /\ removed ≡ₚ flat (pick f (items m)) /\ sm_ok m' /\ items m' = keep f (items m).
Proof.
  intros Hm. destruct (sm_filter_spec f m) as (removed & m1 & Hr & Hp & Hit & Hnil). unfold sm_Filter. unfold mthen at 1. rewrite Hr. cbn [obind fst snd]. destruct removed as [|x removed].
  - srun. exists [], m1. split_and!; [done|done|rewrite Hnil; done|done].
  - replace (Zlen (x :: removed) >? 0) with true by (symmetry; apply Z.gtb_lt; unfold Zlen; cbn; lia). destruct (reheap_spec m1) as (m2 & Hh & Hok & Hit2); [rewrite Hit; apply nonced_filter, Hm|].
    unfold mthen. rewrite Hh. srun. exists (x :: removed), m2. split_and!; [done|done|done|congruence].
Qed.

(** ** Removal of one *)

Lemma find_index_spec nonce l : match find_index nonce l with Some i => l !! i = Some nonce | None => nonce ∉ l end.
Proof.
  induction l as [|x l IH]; cbn; [set_solver|]. destruct (Z.eqb_spec x nonce) as [-> |Hne]; [done|]. destruct (find_index nonce l); cbn; [done|set_solver].
Qed.

Lemma remove_spec nonce m : sm_ok m -> exists m', sm_Remove nonce m = Ret (bool_decide (is_Some (items m !! nonce)), m') /\ sm_ok m' /\ items m' = base.delete nonce (items m).
Proof.
  intros [Hm Hc]. unfold sm_Remove. srun. destruct (items m !! nonce) as [tx|] eqn:Hx.
  - rewrite bool_decide_eq_true_2 by eauto. pose proof (find_index_spec nonce (index m)) as Hf. destruct (find_index nonce (index m)) as [i|]; [|destruct Hf; apply elem_index; eauto].
    destruct (remove_heap nonce_less (index m) i nonce (ix_heap m Hm) Hf) as (l' & Hr & Hp & Hh). srun. rewrite Hr. srun. eexists. split; [done|]. split; [|done]. split; [|done]. destruct Hm as [_ Hk Hn].
    split; cbn [index items]; [done| |by apply nonced_delete]. apply (Permutation_cons_inv (a := nonce)). by rewrite <- Hp, Hk, <- (map_fst_delete _ _ _ Hx).
  - rewrite bool_decide_eq_false_2 by (by intros []). exists m. split; [done|]. split; [done|]. symmetry. by apply delete_id.
Qed.

(** ** The sorted list *)

Lemma flatten_spec m : sm_ok m -> exists m', sm_flatten m = Ret (flat (items m), m') /\ sm_ok m' /\ items m' = items m.
Proof.
  intros [Hm Hc]. unfold sm_flatten. srun. destruct (sm_cache m) as [c|] eqn:Ec; srun.
  - exists m. rewrite <- (Hc c eq_refl). split_and!; [done|by split; [|rewrite Ec]|done].
  - assert (Hs : merge_sort by_nonce (map snd (range (items m))) = flat (items m)); [|rewrite Hs; eexists; split; [done|]; split; [|done]; split; [by destruct Hm|by intros c [= <-]]].
    apply sorted_flat; [apply Hm| |rewrite merge_sort_Permutation; apply range_items]. apply Sorted_merge_sort. intros x y. unfold by_nonce. lia.
Qed.

Lemma last_spec m : sm_ok m -> exists r, sm_LastElement m = r /\ match list.last (flat (items m)) with Some x => exists m', r = Ret (x, m') /\ sm_ok m' /\ items m' = items m | None => r = Panic end.
Proof.
  intros Hm. destruct (flatten_spec m Hm) as (m' & Hf & Hok & Hit). eexists. split; [reflexivity|]. unfold sm_LastElement. unfold mthen. rewrite Hf. cbn [obind fst snd]. unfold mlift, go_index, Zlen.
  destruct (list.last (flat (items m))) as [x|] eqn:Hl.
  - apply last_Some in Hl as [l Hl]. rewrite Hl, length_app. cbn [length]. rewrite (proj2 (Z.leb_le _ _)) by lia. replace (Z.to_nat _) with (length l) by lia. rewrite list_lookup_middle by done. cbn. eauto.
  - apply last_None in Hl. by rewrite Hl.
Qed.

(** ** The highest nonces *)

Lemma last_key it ks n : keys it = take (S n) ks -> (S n <= length ks)%nat -> exists k tx, ks !! n = Some k /\ it !! k = Some tx /\ keys (base.delete k it) = take n ks /\ flat it = flat (base.delete k it) ++ [tx].
Proof.
  intros Hk Hn. destruct (lookup_lt_is_Some_2 ks n ltac:(lia)) as [k Hks]. rewrite (take_S_r _ _ _ Hks) in Hk. assert (Hx : is_Some (it !! k)) by (apply elem_keys; rewrite Hk; set_solver). destruct Hx as [tx Hx].
  assert (Hmax : forall j, is_Some (it !! j) -> j <= k).
  { intros j Hj%elem_keys. pose proof (keys_sorted it) as Hs. rewrite Hk in Hs, Hj. apply StronglySorted_app in Hs as (Hs & _ & _). apply elem_of_app in Hj as [Hj|Hj%list_elem_of_singleton]; [apply Hs; [done|set_solver]|lia]. }
  exists k, tx. split_and!; [done|done| |by apply flat_max]. rewrite (keys_max it k tx Hx Hmax) in Hk. by apply app_inj_tail in Hk as [-> _].
Qed.

Lemma cap_loop_spec ks t fuel : 0 <= t -> forall m n acc, index m = ks -> keys (items m) = take n ks -> (n <= length ks)%nat -> t <= Z.of_nat n -> Z.of_nat n < t + Z.of_nat fuel -> exists m',
  cap_loop fuel (Z.of_nat n) t acc m = Ret (acc ++ reverse (drop (Z.to_nat t) (flat (items m))), m') /\ index m' = ks /\ sm_cache m' = sm_cache m /\ items m' ⊆ items m /\
  keys (items m') = take (Z.to_nat t) ks /\ flat (items m') = take (Z.to_nat t) (flat (items m)).
Proof.
  intros Ht. induction fuel as [|fuel IH]; intros m n acc Hi Hk Hn Htn Hf; [lia|]. cbn [cap_loop]. assert (Hlen : length (flat (items m)) = n) by (rewrite length_flat, <- length_keys, Hk, length_take; lia).
  destruct (Z.ltb_spec t (Z.of_nat n)) as [Hlt|Hge]; cbn [negb].
  - destruct n as [|n]; [lia|]. destruct (last_key (items m) ks n Hk Hn) as (k & tx & Hks & Hx & Hk' & Hfl). unfold mthen at 1, mget at 1. cbn [obind fst snd]. unfold mthen at 1, mlift at 1, go_index.
    replace (Z.of_nat (S n) - 1) with (Z.of_nat n) by lia. rewrite (proj2 (Z.leb_le _ _)), Nat2Z.id, Hi, Hks by lia. cbn [obind fst snd]. unfold take_item, mthen at 1. srun. rewrite Hx. srun.
    specialize (IH (set_items (base.delete k (items m)) m) n (acc ++ [tx]) Hi Hk' ltac:(lia) ltac:(lia) ltac:(lia)) as (m' & Hr & H1 & H2 & H3 & H4 & H5). exists m'. cbn [set_items items sm_cache] in *.
    assert (Hl : (Z.to_nat t <= length (flat (base.delete k (items m))))%nat) by (rewrite Hfl, length_app in Hlen; cbn in Hlen; lia). split_and!; [|done|done| |done|].
    + rewrite <- app_assoc in Hr. etrans; [exact Hr|]. do 2 f_equal. rewrite Hfl, drop_app_le, reverse_app by done. done.
    + etrans; [exact H3|]. apply delete_subseteq.
    + rewrite H5, Hfl. by rewrite take_app_le.
  - exists m. replace (Z.to_nat t) with n by lia. split_and!; [rewrite drop_ge by lia; cbn; by rewrite app_nil_r|done|done|done|done|by rewrite take_ge by lia].
Qed.

Lemma submap_nonced it it' : it ⊆ it' -> nonced it' -> nonced it.
Proof. intros Hs Hn k x Hx. apply Hn. by eapply lookup_weaken. Qed.

(** [Cap] keeps the lowest nonces and returns the others from the highest down. *)
Lemma cap_spec m t : sm_ok m -> 0 <= t -> exists m', sm_Cap t m = Ret (reverse (drop (Z.to_nat t) (flat (items m))), m') /\ sm_ok m' /\ items m' ⊆ items m /\
  flat (items m') = take (Z.to_nat t) (flat (items m)).
Proof.
  intros [Hm Hc] Ht. unfold sm_Cap. unfold mthen at 1, mget at 1. cbn [obind fst snd]. pose proof (length_flat (items m)) as Hl. destruct (Z.leb_spec (Z.of_nat (size (items m))) t) as [Hle|Hgt].
  - exists m. rewrite drop_ge, take_ge by lia. split_and!; [done|by split|done|done].
  - set (ks := merge_sort Z.le (index m)). assert (Hks : ks = keys (items m)).
    { apply keys_unique; [apply Sorted_StronglySorted; [intros x y z; lia|]; apply Sorted_merge_sort; intros x y; lia|]. unfold ks. rewrite merge_sort_Permutation. apply Hm. }
    unfold mthen at 1, mmodify at 1. cbn [obind fst snd]. fold ks. assert (Hlk : length ks = size (items m)) by (rewrite Hks; apply length_keys).
    destruct (cap_loop_spec ks t (S (S (size (items m)))) Ht (set_index ks m) (size (items m)) []) as (m' & Hr & H1 & H2 & H3 & H4 & H5); [done|cbn [set_index items]; rewrite take_ge; [done|lia]|lia|lia|lia|].
    cbn [set_index items sm_cache app] in *. unfold mthen at 1. rewrite Hr. cbn [obind fst snd]. unfold mthen at 1, mget at 1. cbn [obind fst snd]. unfold mthen at 1, mlift at 1.
    assert (Hsl : go_slice (index m') 0 t = Ret (take (Z.to_nat t) ks)).
    { unfold go_slice, Zlen. rewrite H1, !(proj2 (Z.leb_le _ _)) by lia. cbn [andb]. by rewrite Z.sub_0_r. }
    rewrite Hsl. cbn [obind fst snd]. assert (Hix : forall c, indexed (mkSorted (items m') (take (Z.to_nat t) ks) c)).
    { intros c. split; cbn [index items]; [|by rewrite <- H4, keys_perm|eapply submap_nonced; [done|apply Hm]]. apply sorted_heap. rewrite <- H4. apply keys_sorted. }
    unfold mthen at 1, mmodify at 1. cbn [obind fst snd]. rewrite H2. destruct (sm_cache m) as [c|] eqn:Ec; [|eexists; split; [done|]; split_and!; [split; [apply Hix|cbn; by rewrite H2]|done|done]].
    pose proof (Hc c eq_refl) as ->. assert (Hsl' : go_slice (flat (items m)) 0 (Zlen (flat (items m)) - Zlen (reverse (drop (Z.to_nat t) (flat (items m))))) = Ret (take (Z.to_nat t) (flat (items m)))).
    { unfold go_slice, Zlen. rewrite length_reverse, length_drop, !(proj2 (Z.leb_le _ _)) by lia. cbn [andb]. rewrite drop_0. do 2 f_equal. lia. }
    unfold mthen at 1, mlift. rewrite Hsl'. srun. eexists. split; [done|]. split_and!; [split; [apply Hix|cbn; intros c' [= <-]; by rewrite H5]|done|done].
Qed.

(** ** Consecutive nonces *)

(** The transactions with the nonces [next], [next + 1] and so on in front of a list. *)
Fixpoint run (next : Z) (l : list T) : list T :=
  match l with
  | tx :: l => if tx_nonce tx =? next then tx :: run (u64 (next + 1)) l else []
  | [] => []
  end.

Definition ready (start : Z) (l : list T) : list T :=
  match l with
  | [] => []
  | tx :: _ => if start <? tx_nonce tx then [] else run (tx_nonce tx) l
  end.

Lemma ready_loop_spec fuel : forall m next acc, indexed m -> (length (index m) < fuel)%nat -> exists m',
  ready_loop fuel next acc m = Ret (acc ++ run next (flat (items m)), m') /\ indexed m' /\ items m' ⊆ items m /\ flat (items m) = run next (flat (items m)) ++ flat (items m').
Proof.
  induction fuel as [|fuel IH]; intros m next acc Hm Hf; [lia|]. cbn [ready_loop]. unfold mthen at 1, mget at 1. cbn [obind fst snd]. destruct (index m) as [|k l] eqn:Hi.
  - assert (He : items m = ∅) by (apply map_empty; intros k; apply eq_None_not_Some; rewrite <- (elem_index m k Hm), Hi; set_solver).
    exists m. rewrite He, flat_empty. cbn. rewrite app_nil_r. done.
  - destruct (index_first m k l Hm Hi) as (tx & Hx & Hmin). destruct (ix_nonce m Hm k tx Hx) as [Hk _]. rewrite (flat_min (items m) k tx Hx Hmin). cbn [run]. rewrite Hk.
    destruct (Z.eqb_spec k next) as [-> |Hne]; cbn [negb]; [|exists m; rewrite app_nil_r; split_and!; [done|done|done|cbn; symmetry; by apply flat_min]].
    destruct (pop_first m next l tx Hm Hi Hx) as (l' & Hp & Ht & Hl & Hm'). unfold mthen at 1. rewrite Ht. cbn [obind fst snd]. unfold mthen at 1, pop_index. srun. rewrite Hi.
    assert (Hpop : Pop nonce_less (next :: l) = Ret (next, l')).
    { unfold pop_index in Hp. revert Hp. srun. rewrite Hi. destruct (Pop nonce_less (next :: l)) as [[a b]| |]; srun; [|done|done]. by intros [= -> ->]. }
    rewrite Hpop. srun. specialize (IH (set_index l' (set_items (base.delete next (items m)) m)) (u64 (next + 1)) (acc ++ [tx]) (Hm' _) ltac:(cbn in *; lia)) as (m' & Hr & H1 & H2 & H3). exists m'.
    cbn [set_index set_items items index] in *. rewrite <- app_assoc in Hr. split_and!; [exact Hr|done| |cbn; by rewrite H3 at 1]. etrans; [exact H2|apply delete_subseteq].
Qed.

Lemma ready_spec m start : sm_ok m -> exists m', sm_Ready start m = Ret (ready start (flat (items m)), m') /\ sm_ok m' /\ items m' ⊆ items m /\ flat (items m) = ready start (flat (items m)) ++ flat (items m').
Proof.
  intros Hok. pose proof Hok as [Hm Hc]. unfold sm_Ready. unfold mthen at 1, mget at 1. cbn [obind fst snd]. destruct (index m) as [|k l] eqn:Hi.
  - assert (He : items m = ∅) by (apply map_empty; intros k; apply eq_None_not_Some; rewrite <- (elem_index m k Hm), Hi; set_solver). exists m. rewrite He, flat_empty. done.
  - destruct (index_first m k l Hm Hi) as (tx & Hx & Hmin). destruct (ix_nonce m Hm k tx Hx) as [Hk _]. assert (Hr : ready start (flat (items m)) = if start <? k then [] else run k (flat (items m))).
    { rewrite (flat_min (items m) k tx Hx Hmin). cbn [ready]. by rewrite Hk. }
    rewrite Hr. destruct (start <? k); [exists m; done|]. destruct (ready_loop_spec (S (length (k :: l))) m k [] Hm ltac:(rewrite Hi; lia)) as (m' & Hl & H1 & H2 & H3). unfold mthen at 1. rewrite Hl. srun.
    eexists. split; [done|]. split_and!; [split; [by destruct H1|done]|done|done].
Qed.

(** ** The list of an account *)

Definition cost_of (l : list T) : Z := foldr (fun tx c => tx_cost tx + c) 0 l.

Lemma cost_of_app l l' : cost_of (l ++ l') = cost_of l + cost_of l'.
Proof. induction l as [|x l IH]; cbn; [done|]. unfold cost_of in *. lia. Qed.

#[export] Instance cost_proper : Proper (Permutation ==> eq) cost_of.
Proof. unfold cost_of. induction 1; cbn; lia. Qed.

Lemma cost_of_reverse l : cost_of (reverse l) = cost_of l.
Proof. by rewrite reverse_Permutation. Qed.

(** The total cost is that of the contents, and no transaction is above the caps. *)
Record list_ok (l : txlist T) : Prop := {
  lo_txs : sm_ok (txs l);
  lo_total : totalcost l = cost_of (flat (items (txs l)));
  lo_caps : map_Forall (fun _ tx => tx_cost tx <= costcap l /\ tx_gas tx <= gascap l) (items (txs l))
}.

Lemma newList_ok s : list_ok (newList s).
Proof. split; [apply new_ok|done|apply map_Forall_empty]. Qed.

Lemma sub_spec (l : txlist T) removed : subTotalCost removed l = Ret (tt, set_totalcost (totalcost l - cost_of removed) l).
Proof.
  unfold subTotalCost, mmodify. do 3 f_equal. revert removed. assert (H : forall removed c, fold_left (fun c tx => c - tx_cost tx) removed c = c - cost_of removed); [|auto].
  induction removed as [|x r IH]; intros c; cbn; [unfold cost_of; cbn; lia|]. rewrite IH. unfold cost_of. cbn. lia.
Qed.

Lemma on_txs_Ret {A} (m : M (sortedMap T) A) (l : txlist T) a t : m (txs l) = Ret (a, t) -> on_txs m l = Ret (a, set_txs t l).
Proof. intros Hm. unfold on_txs. by rewrite Hm. Qed.

(** Some of the transactions are taken out. *)
Lemma taken_ok (l : txlist T) t removed : list_ok l -> sm_ok t -> items t ⊆ items (txs l) -> flat (items (txs l)) ≡ₚ removed ++ flat (items t) ->
  list_ok (set_totalcost (totalcost l - cost_of removed) (set_txs t l)).
Proof.
  intros [H1 H2 H3] Ht Hs Hp. split; cbn; [done| |]; [rewrite H2, Hp, cost_of_app; lia|]. intros k x Hx. apply (H3 k x). by eapply lookup_weaken.
Qed.

Inductive list_op : Type :=
| LAdd (tx : T) (priceBump : Z)
| LForward (threshold : Z)
| LFilter (costLimit gasLimit : Z)
| LCap (threshold : Z)
| LRemove (tx : T)
| LReady (start : Z)
| LFlatten.

Inductive list_answer : Type :=
| AAdd (inserted : bool) (old : option T)
| ATxs (l : list T)
| ATwo (found : bool) (removed invalids : list T).

Definition run_list (op : list_op) : M (txlist T) list_answer :=
  match op with
  | LAdd tx bump => let* (b, old) := list_Add tx bump in mret (AAdd b old)
  | LForward t => let* l := list_Forward t in mret (ATxs l)
  | LFilter c g => let* (r, i) := list_Filter c g in mret (ATwo true r i)
  | LCap t => let* l := list_Cap t in mret (ATxs l)
  | LRemove tx => let* (b, i) := list_Remove tx in mret (ATwo b [] i)
  | LReady s => let* l := list_Ready s in mret (ATxs l)
  | LFlatten => let* l := list_Flatten in mret (ATxs l)
  end.

(** Nonces are 64-bit numbers, a cap is not negative, and only a transaction of the list,
    or one with an unused nonce, is removed. *)
Definition list_op_ok (op : list_op) it : Prop :=
  match op with
  | LAdd tx _ => in64 (tx_nonce tx)
  | LCap t => 0 <= t
  | LRemove tx => forall x, it !! tx_nonce tx = Some x -> x = tx
  | _ => True
  end.

Definition above nonce (tx : T) : bool := nonce <? tx_nonce tx.
Definition too_costly c g (tx : T) : bool := (g <? tx_gas tx) || (c <? tx_cost tx).

(** What an operation answers from the map, and the map after it. *)
Definition list_spec (strict : bool) (op : list_op) it (a : list_answer) it' : Prop :=
  match op with
  | LAdd tx bump =>
      if match it !! tx_nonce tx with Some old => bumps old tx bump | None => true end
      then a = AAdd true (it !! tx_nonce tx) /\ it' = <[tx_nonce tx := tx]> it
      else a = AAdd false None /\ it' = it
  | LForward t => a = ATxs (flat (below t it)) /\ it' = at_least t it
  | LFilter c g => exists removed invalids, a = ATwo true removed invalids /\ removed ≡ₚ flat (pick (too_costly c g) it) /\
      match flat (pick (too_costly c g) it) with
      | first :: _ => if strict then invalids ≡ₚ flat (pick (above (tx_nonce first)) (keep (too_costly c g) it)) /\ it' = keep (above (tx_nonce first)) (keep (too_costly c g) it)
                      else invalids = [] /\ it' = keep (too_costly c g) it
      | [] => invalids = [] /\ it' = it
      end
  | LCap t => a = ATxs (reverse (drop (Z.to_nat t) (flat it))) /\ flat it' = take (Z.to_nat t) (flat it) /\ it' ⊆ it
  | LRemove tx => exists invalids, a = ATwo (bool_decide (is_Some (it !! tx_nonce tx))) [] invalids /\
      if bool_decide (is_Some (it !! tx_nonce tx)) && strict
      then invalids ≡ₚ flat (pick (above (tx_nonce tx)) (base.delete (tx_nonce tx) it)) /\ it' = keep (above (tx_nonce tx)) (base.delete (tx_nonce tx) it)
      else invalids = [] /\ it' = base.delete (tx_nonce tx) it
  | LReady s => a = ATxs (ready s (flat it)) /\ flat it = ready s (flat it) ++ flat it' /\ it' ⊆ it
  | LFlatten => a = ATxs (flat it) /\ it' = it
  end.

Definition list_follows (op : list_op) (l : txlist T) : Prop := exists a l', run_list op l = Ret (a, l') /\ list_ok l' /\ strict l' = strict l /\
  list_spec (strict l) op (items (txs l)) a (items (txs l')).

(** *** The contents after a change *)

Lemma flat_delete it k x : it !! k = Some x -> flat it ≡ₚ x :: flat (base.delete k it).
Proof. intros Hx. rewrite !flat_perm. rewrite <- (insert_delete_id it k x Hx) at 1. by rewrite map_to_list_insert by apply lookup_delete_eq. Qed.

Lemma flat_insert it k x : flat (<[k := x]> it) ≡ₚ x :: flat (base.delete k it).
Proof. rewrite (flat_delete _ k x) by apply lookup_insert_eq. by rewrite delete_insert_eq. Qed.

Lemma filter_parts (f : T -> bool) l : l ≡ₚ List.filter f l ++ List.filter (fun x => negb (f x)) l.
Proof. induction l as [|x l IH]; cbn; [done|]. destruct (f x); cbn; [by rewrite <- IH|]. rewrite <- Permutation_middle. by rewrite <- IH. Qed.

Lemma flat_pick f it : flat it ≡ₚ flat (pick f it) ++ flat (keep f it).
Proof.
  rewrite !flat_perm. rewrite (filter_parts f (map snd (map_to_list it))), filter_values. f_equiv. rewrite filter_values. assert (pick (fun x => negb (f x)) it = keep f it) as ->; [|done]. apply map_filter_ext. intros k x _. cbn. by destruct (f x).
Qed.

Lemma keep_subseteq f it : keep f it ⊆ it.
Proof. apply map_filter_subseteq. Qed.

Lemma pick_nil f it : flat (pick f it) = [] -> keep f it = it.
Proof.
  intros Hp. apply map_filter_id. intros k x Hx. destruct (f x) eqn:Hf; [|done]. assert (Hin : x ∈ flat (pick f it)) by (apply elem_flat; exists k; by apply map_lookup_filter_Some). rewrite Hp in Hin. set_solver.
Qed.

(** The lowest nonce of a list. *)
Lemma lowest_min l : Forall (fun x => in64 (tx_nonce x)) l -> forall c, c <= MaxUint64 -> let r := fold_left (fun lowest tx => if tx_nonce tx <? lowest then tx_nonce tx else lowest) l c in
  r <= c /\ Forall (fun x => r <= tx_nonce x) l /\ (r = c \/ exists x, x ∈ l /\ r = tx_nonce x).
Proof.
  induction 1 as [|x l Hx _ IH]; intros c Hc; cbn [fold_left]; [split_and!; [lia|constructor|by left]|].
  destruct (Z.ltb_spec (tx_nonce x) c) as [Hlt|Hge].
  - destruct (IH (tx_nonce x) (Z.lt_le_incl _ _ (Z.lt_le_trans _ _ _ Hlt Hc))) as (H1 & H2 & H3). cbv zeta in *. split_and!; [lia|by constructor|]. right. destruct H3 as [-> |(y & Hy & ->)]; [exists x; split; [set_solver|done]|exists y; split; [set_solver|done]].
  - destruct (IH c Hc) as (H1 & H2 & H3). cbv zeta in *. split_and!; [lia|constructor; [lia|done]|]. destruct H3 as [-> |(y & Hy & ->)]; [by left|right; exists y; split; [set_solver|done]].
Qed.

Lemma lowest_spec it removed first rest : nonced it -> removed ≡ₚ flat it -> flat it = first :: rest -> lowest_nonce removed = tx_nonce first.
Proof.
  intros Hn Hp Hf. assert (Hall : Forall (fun x => in64 (tx_nonce x)) removed).
  { apply Forall_forall. intros x Hx%list_elem_of_In. rewrite Hp in Hx. apply elem_flat in Hx as [k Hk]. destruct (Hn k x Hk) as [-> Hi]. done. }
  destruct (lowest_min removed Hall MaxUint64 ltac:(done)) as (H1 & H2 & H3). unfold lowest_nonce. set (r := fold_left _ _ _) in *.
  assert (Hin : first ∈ removed) by (rewrite Hp, Hf; set_solver). rewrite Forall_forall in H2, Hall. pose proof (H2 first (proj1 (list_elem_of_In _ _) Hin)) as Hr. cbn in Hr.
  assert (Hle : forall x, x ∈ removed -> tx_nonce first <= tx_nonce x).
  { intros x Hx. rewrite Hp in Hx. apply elem_flat in Hx as [k Hk]. destruct (Hn k x Hk) as [-> _]. assert (Hf' : first ∈ flat it) by (rewrite Hf; set_solver). apply elem_flat in Hf' as [k0 Hk0]. destruct (Hn k0 first Hk0) as [-> _].
    unfold flat in Hf. pose proof (keys_sorted it) as Hs. destruct (keys it) as [|k1 ks] eqn:Hks; [done|]. assert (Hk1 : is_Some (it !! k1)) by (apply elem_keys; rewrite Hks; set_solver). destruct Hk1 as [y Hy]. cbn in Hf. rewrite Hy in Hf.
    injection Hf as -> _. assert (k1 = k0) as -> by (destruct (Hn k1 first Hy) as [<- _], (Hn k0 first Hk0) as [<- _]; done). apply StronglySorted_inv in Hs as [_ Hs]. rewrite Forall_forall in Hs.
    assert (Hkin : k ∈ keys it) by (apply elem_keys; eauto). rewrite Hks in Hkin. apply elem_of_cons in Hkin as [-> |Hkin]; [lia|]. apply Hs. by apply list_elem_of_In. }
  destruct H3 as [H3|(x & Hx & H3)]; [|specialize (Hle x Hx); lia]. pose proof (Hall first (proj1 (list_elem_of_In _ _) Hin)) as Hi. cbn in Hi. unfold in64, MaxUint64 in *. lia.
Qed.

(** *** The operations *)

Lemma add_follows tx bump l : list_ok l -> in64 (tx_nonce tx) -> list_follows (LAdd tx bump) l.
Proof.
  intros Hl Hi. pose proof Hl as [H1 H2 H3]. unfold list_follows, run_list, list_Add, list_spec, sm_Get. destruct (put_spec (txs l) tx H1 Hi) as (t & Hput & Ht & Hit).
  destruct (items (txs l) !! tx_nonce tx) as [old|] eqn:Ho.
  - destruct (bumps old tx bump) eqn:Hb.
    + srun. rewrite Ho, Hb. rewrite sub_spec. srun. rewrite (on_txs_Ret _ _ _ t) by exact Hput. srun. eexists _, _. split; [reflexivity|]. cbn [strict txs set_caps set_txs set_totalcost]. split_and!; [|done|done|done].
      split; cbn [txs totalcost costcap gascap set_caps set_txs set_totalcost].
      * done.
      * rewrite H2, Hit, flat_insert, (flat_delete _ _ _ Ho). unfold cost_of. cbn. lia.
      * rewrite Hit. apply map_Forall_insert_2; [split; [destruct (Z.ltb_spec (costcap l) (tx_cost tx))|destruct (Z.ltb_spec (gascap l) (tx_gas tx))]; lia|].
        intros k x Hx. destruct (H3 k x Hx). split; [destruct (Z.ltb_spec (costcap l) (tx_cost tx))|destruct (Z.ltb_spec (gascap l) (tx_gas tx))]; lia.
    + srun. rewrite Ho, Hb. srun. eexists _, _. split; [reflexivity|]. done.
  - srun. rewrite Ho. srun. rewrite (on_txs_Ret _ _ _ t) by exact Hput. srun. eexists _, _. split; [reflexivity|]. cbn [strict txs set_caps set_txs set_totalcost]. split_and!; [|done|done|done].
    split; cbn [txs totalcost costcap gascap set_caps set_txs set_totalcost].
    + done.
    + rewrite H2, Hit, flat_insert, delete_id by done. unfold cost_of. cbn. lia.
    + rewrite Hit. apply map_Forall_insert_2; [split; [destruct (Z.ltb_spec (costcap l) (tx_cost tx))|destruct (Z.ltb_spec (gascap l) (tx_gas tx))]; lia|].
      intros k x Hx. destruct (H3 k x Hx). split; [destruct (Z.ltb_spec (costcap l) (tx_cost tx))|destruct (Z.ltb_spec (gascap l) (tx_gas tx))]; lia.
Qed.

Lemma forward_follows t l : list_ok l -> list_follows (LForward t) l.
Proof.
  intros Hl. destruct (forward_spec (txs l) t (lo_txs l Hl)) as (m & Hr & Hm & Hit). unfold list_follows, run_list, list_Forward. srun. rewrite (on_txs_Ret _ _ _ _ Hr). srun. rewrite sub_spec. srun.
  eexists _, _. split; [reflexivity|]. cbn [strict txs set_txs set_totalcost list_spec]. split_and!; [|done|done|done]. apply (taken_ok l m); [done|done|rewrite Hit; apply map_filter_subseteq|by rewrite Hit, <- flat_split].
Qed.

Lemma cap_follows t l : list_ok l -> 0 <= t -> list_follows (LCap t) l.
Proof.
  intros Hl Ht. destruct (cap_spec (txs l) t (lo_txs l Hl) Ht) as (m & Hr & Hm & Hs & Hit). unfold list_follows, run_list, list_Cap. srun. rewrite (on_txs_Ret _ _ _ _ Hr). srun. rewrite sub_spec. srun.
  eexists _, _. split; [reflexivity|]. cbn [strict txs set_txs set_totalcost list_spec]. split_and!; [|done|done|done|done]. apply (taken_ok l m); [done|done|done|].
  rewrite Hit, reverse_Permutation, Permutation_app_comm. by rewrite take_drop.
Qed.

Lemma ready_follows s l : list_ok l -> list_follows (LReady s) l.
Proof.
  intros Hl. destruct (ready_spec (txs l) s (lo_txs l Hl)) as (m & Hr & Hm & Hs & Hit). unfold list_follows, run_list, list_Ready. srun. rewrite (on_txs_Ret _ _ _ _ Hr). srun. rewrite sub_spec. srun.
  eexists _, _. split; [reflexivity|]. cbn [strict txs set_txs set_totalcost list_spec]. split_and!; [|done|done|done|done]. apply (taken_ok l m); [done|done|done|]. by rewrite Hit at 1.
Qed.

Lemma flatten_follows l : list_ok l -> list_follows LFlatten l.
Proof.
  intros [H1 H2 H3]. destruct (flatten_spec (txs l) H1) as (m & Hr & Hm & Hit). unfold list_follows, run_list, list_Flatten, sm_Flatten. srun. rewrite (on_txs_Ret _ _ _ _ Hr). srun.
  eexists _, _. split; [reflexivity|]. cbn [strict txs set_txs list_spec]. rewrite Hit. split_and!; [|done|done|done]. split; cbn; rewrite ?Hit; done.
Qed.

Lemma remove_follows tx l : list_ok l -> list_op_ok (LRemove tx) (items (txs l)) -> list_follows (LRemove tx) l.
Proof.
  intros Hl Hop. destruct (remove_spec (tx_nonce tx) (txs l) (lo_txs l Hl)) as (m & Hr & Hm & Hit). unfold list_follows, run_list, list_Remove, list_spec. srun. rewrite (on_txs_Ret _ _ _ _ Hr). srun.
  destruct (items (txs l) !! tx_nonce tx) as [x|] eqn:Hx.
  - rewrite bool_decide_eq_true_2 by eauto. cbn [negb andb]. rewrite sub_spec. srun. assert (Hx' : x = tx) by (by apply Hop). subst x. cbn [strict set_totalcost set_txs].
    assert (Hok : list_ok (set_totalcost (totalcost l - cost_of [tx]) (set_txs m l))) by (apply taken_ok; [done|done|rewrite Hit; apply delete_subseteq|rewrite Hit; cbn; by apply flat_delete]).
    destruct (strict l) eqn:Hs; cbn [negb].
    + destruct (Filter_spec (above (tx_nonce tx)) m Hm) as (invalids & m' & Hf & Hp & Hm' & Hit'). change (sm_Filter (fun x => tx_nonce tx <? tx_nonce x)) with (sm_Filter (above (tx_nonce tx))). rewrite (on_txs_Ret (sm_Filter (above (tx_nonce tx))) _ invalids m') by exact Hf. srun. rewrite sub_spec. srun.
      eexists _, _. split; [reflexivity|]. cbn [strict txs set_txs set_totalcost]. rewrite Hit in Hp, Hit'. split_and!; [|done|exists invalids; split_and!; done].
      apply (taken_ok (set_totalcost (totalcost l - cost_of [tx]) (set_txs m l)) m' invalids Hok Hm'); cbn [txs set_txs set_totalcost]; rewrite Hit, Hit'; [apply keep_subseteq|]. rewrite Hp. apply flat_pick.
    + eexists _, _. split; [reflexivity|]. split; [exact Hok|]. cbn [strict txs set_txs set_totalcost]. split; [done|]. exists []. done.
  - rewrite bool_decide_eq_false_2 by (by intros []). cbn [negb andb]. srun. eexists _, _. split; [reflexivity|]. cbn [strict txs set_txs]. split_and!; [|done|exists []; done].
    rewrite delete_id in Hit by done. destruct Hl as [H1 H2 H3]. split; cbn; rewrite ?Hit; done.
Qed.

(** The filter with its new caps. *)
Lemma filtered_ok (l : txlist T) c g t removed : list_ok l -> sm_ok t -> items t ⊆ keep (too_costly c g) (items (txs l)) -> flat (items (txs l)) ≡ₚ removed ++ flat (items t) ->
  list_ok (mkList (strict l) t c g (totalcost l - cost_of removed)).
Proof.
  intros [H1 H2 H3] Ht Hs Hp. split; cbn; [done|rewrite H2, Hp, cost_of_app; lia|]. intros k x Hx. pose proof (lookup_weaken _ _ _ _ Hx Hs) as Hk. apply map_lookup_filter_Some in Hk as [_ Hk].
  unfold too_costly in Hk. apply orb_false_elim in Hk as [Hg Hc]. apply Z.ltb_ge in Hg, Hc. lia.
Qed.

Lemma filter_follows c g l : list_ok l -> list_follows (LFilter c g) l.
Proof.
  intros Hl. pose proof Hl as [H1 H2 H3]. unfold list_follows, run_list, list_Filter, list_spec. unfold mthen at 1 2, mget at 1. cbn [obind fst snd]. destruct ((costcap l <=? c) && (gascap l <=? g)) eqn:Hcap.
  - apply andb_prop in Hcap as [Hc Hg]. apply Z.leb_le in Hc, Hg. srun. eexists _, _. split; [reflexivity|]. split_and!; [done|done|]. exists [], []. assert (Hnone : flat (pick (too_costly c g) (items (txs l))) = []).
    { assert (pick (too_costly c g) (items (txs l)) = ∅) as ->; [|apply flat_empty]. apply map_empty. intros k. apply map_lookup_filter_None_2. right. intros x Hx Hf. destruct (H3 k x Hx). unfold too_costly in Hf.
      apply orb_prop in Hf as [Hf|Hf]; apply Z.ltb_lt in Hf; lia. }
    rewrite Hnone. done.
  - destruct (Filter_spec (too_costly c g) (txs l) H1) as (removed & m & Hf & Hp & Hm & Hit). srun. change (sm_Filter (fun tx => (g <? tx_gas tx) || (c <? tx_cost tx))) with (sm_Filter (too_costly c g)). rewrite (on_txs_Ret (sm_Filter (too_costly c g)) (set_caps c g l) removed m) by exact Hf. srun.
    destruct (flat (pick (too_costly c g) (items (txs l)))) as [|first rest] eqn:Hpick.
    + apply Permutation_nil_r in Hp as ->. cbn [Zlen length Z.of_nat Z.eqb]. srun. eexists _, _. split; [reflexivity|]. cbn [strict txs set_txs set_caps]. rewrite (pick_nil _ _ Hpick) in Hit.
      split_and!; [|done|exists [], []; split_and!; done]. pose proof (filtered_ok l c g m [] Hl Hm) as Hok. cbn in Hok. rewrite Z.sub_0_r in Hok. apply Hok; rewrite Hit; [by rewrite (pick_nil _ _ Hpick)|done].
    + rewrite (proj2 (Z.eqb_neq (Zlen removed) 0)) by (unfold Zlen; rewrite Hp; cbn; lia). assert (Hlow : lowest_nonce removed = tx_nonce first) by (eapply lowest_spec; [|by rewrite Hpick|exact Hpick]; apply nonced_filter, H1).
      cbn [strict set_caps set_txs]. destruct (strict l) eqn:Hs.
      * rewrite Hlow. destruct (sm_filter_spec (above (tx_nonce first)) m) as (invalids & m' & Hf' & Hp' & Hit' & _). change (sm_filter (fun x => tx_nonce first <? tx_nonce x)) with (sm_filter (above (tx_nonce first))). rewrite (on_txs_Ret (sm_filter (above (tx_nonce first))) _ invalids m') by exact Hf'. srun.
        rewrite sub_spec. srun. rewrite sub_spec. srun. destruct (reheap_spec m') as (m'' & Hh & Hm'' & Hit''); [rewrite Hit'; apply nonced_filter, Hm|]. rewrite (on_txs_Ret _ _ tt m'') by exact Hh. srun.
        eexists _, _. split; [reflexivity|]. cbn [strict txs costcap gascap totalcost set_txs set_caps set_totalcost]. rewrite Hit', Hit in Hit''. rewrite Hit in Hp'. split_and!; [|done|exists removed, invalids; split_and!; done].
        replace (totalcost l - cost_of removed - cost_of invalids) with (totalcost l - cost_of (removed ++ invalids)) by (rewrite cost_of_app; lia).
        apply (filtered_ok l c g m''); [done|done|rewrite Hit''; apply keep_subseteq|]. rewrite Hit'', (flat_pick (too_costly c g) (items (txs l))), Hpick, Hp, <- app_assoc. f_equiv. rewrite Hp'. apply flat_pick.
      * srun. rewrite sub_spec. srun. rewrite sub_spec. srun. destruct (reheap_spec m) as (m'' & Hh & Hm'' & Hit''); [apply Hm|]. rewrite (on_txs_Ret _ _ tt m'') by exact Hh. srun.
        eexists _, _. split; [reflexivity|]. cbn [strict txs costcap gascap totalcost set_txs set_caps set_totalcost]. rewrite Hit in Hit''. split_and!; [|done|exists removed, []; split_and!; done].
        replace (totalcost l - cost_of removed - cost_of []) with (totalcost l - cost_of removed) by (cbn; lia). apply (filtered_ok l c g m''); [done|done|by rewrite Hit''|]. rewrite Hit'', (flat_pick (too_costly c g) (items (txs l))), Hpick, Hp. done.
Qed.


(** [C26] The list of an account with its heap of nonces, its cache, its caps and its running
    total is a map from nonces to transactions: every operation on a consistent list
    returns, leaves a consistent list, and answers from the map as [list_spec] says.  A
    transaction is replaced only by one with the price bump; [Forward] takes what is below
    the threshold, [Ready] a run of consecutive nonces, [Cap] what is above the limit from
    the highest nonce down, and a strict list gives up all later transactions with one that
    is removed. *)
Theorem tx_list_refines (strict : bool) (op : list_op) (l : txlist T) : list_ok l -> list_op_ok op (items (txs l)) -> list_ok (newList (T := T) strict) /\ list_follows op l.
Proof.
  intros Hl Hop. split; [apply newList_ok|]. destruct op; [by apply add_follows|by apply forward_follows|by apply filter_follows|by apply cap_follows|by apply remove_follows|by apply ready_follows|by apply flatten_follows].
Qed.


End Sorted.

(** *** Witness *)

Record demo_tx : Type := mkDemo { d_nonce : Z; d_sender : Z; d_fee : Z; d_tip : Z; d_cost : Z; d_hash : Z }.

#[export] Instance demo_view : TxView demo_tx := {|
  tx_nonce := d_nonce;
  tx_gas _ := 21000;
  tx_cost := d_cost;
  tx_feecap := d_fee;
  tx_tipcap := d_tip;
  tx_hash tx := Z.pos (encode (d_hash tx, d_sender tx));
  tx_size _ := 1000;
  tx_sender tx := Some (d_sender tx)
|}.

#[export] Instance demo_order : MapOrder := {| range A m := map_to_list m |}.
#[export] Instance demo_order_ok : MapOrderSpec demo_order.
Proof. done. Qed.

(** Two transactions of the account 7, and one that may replace the first. *)
Definition demo_first : demo_tx := mkDemo 4 7 100 10 1000 11.
Definition demo_second : demo_tx := mkDemo 5 7 100 10 2000 12.
Definition demo_better : demo_tx := mkDemo 4 7 110 11 3000 13.

Definition demo_list : txlist demo_tx := mkList true (mkSorted (<[4 := demo_first]> (<[5 := demo_second]> ∅)) [4; 5] None) 2000 21000 3000.

Lemma demo_list_ok : list_ok demo_list.
Proof.
  split.
  - split; [split|done].
    + intros k Hk. assert (k = 1%nat) as -> by (cbn in Hk; lia). done.
    + vm_compute. apply perm_swap.
    + apply map_Forall_insert_2; [done|]. apply map_Forall_insert_2; [done|]. apply map_Forall_empty.
  - vm_compute. done.
  - apply map_Forall_insert_2; [done|]. apply map_Forall_insert_2; [done|]. apply map_Forall_empty.
Qed.

Lemma tx_list_refines_witness : list_follows (LAdd demo_better 10) demo_list.
Proof. refine (proj2 (tx_list_refines false (LAdd demo_better 10) demo_list demo_list_ok _)). done. Defined.
