(* ===== verification/TxPool.v ===== *)
(** * The transaction pool (core/txpool/legacypool/legacypool.go, txpool.go, validation.go)

    The pool keeps the transactions that can be executed (pending) and those that cannot
    yet (queue) by account, with an index by hash and one by price.  Its methods run under
    one lock, so they are steps on one record.  Metrics, logs and the journal on disk are
    left out; the time is a field that the environment sets. *)

From stdpp Require Import gmap sorting.
From S2P Require Import Prelude VMCommon Params Rlp StateTypes Transactions StateTransition Heap TxList.

Inductive pool_error : Type :=
| ErrAlreadyKnown
| ErrUnderpriced
| ErrTxPoolOverflow
| ErrFutureReplacePending
| ErrReplaceUnderpriced
| ErrAlreadyReserved
| ErrNotReserved
| ErrNotOwned
| ErrInvalidSender
| ErrNonceTooLow
| ErrInsufficientFunds
| ErrAccountLimitExceeded
| ErrTxTypeNotSupported
| ErrOversizedData
| ErrMaxInitCodeSizeExceeded
| ErrNegativeValue
| ErrGasLimit
| ErrFeeCapVeryHigh
| ErrTipVeryHigh
| ErrTipAboveFeeCap
| ErrIntrinsicGas
| ErrCore (err : Core.error).

(** [Config], without the settings of the journal. *)
Record Config : Type := mkConfig {
  NoLocals : bool;
  PriceLimit : Z;
  PriceBump : Z;
  AccountSlots : Z;
  GlobalSlots : Z;
  AccountQueue : Z;
  GlobalQueue : Z;
  Lifetime : Z
}.

Definition hour : Z := 3600 * 10 ^ 9.

Definition DefaultConfig : Config := mkConfig false 1 10 16 (4096 + 1024) 64 1024 (3 * hour).

(** [sanitize] *)
Definition sanitize (conf : Config) : Config :=
  let fix_ (f : Config -> Z) := if f conf <? 1 then f DefaultConfig else f conf in
  mkConfig (NoLocals conf) (fix_ PriceLimit) (fix_ PriceBump) (fix_ AccountSlots) (fix_ GlobalSlots) (fix_ AccountQueue) (fix_ GlobalQueue) (fix_ Lifetime).

(** What the pool reads of the chain: nonces and balances of the current state, the gas
    limit of the head, and the time, in nanoseconds since the zero [time.Time]. *)
Record chain_view : Type := mkView { v_nonce : Z -> Z; v_balance : Z -> Z; v_gasLimit : Z; v_now : Z }.

(** The fields of a header that the pool reads; [hd_nextFee] is the base fee that
    [CalcBaseFee] gives for the next block. *)
Record Head : Type := mkHead { hd_hash : Z; hd_parent : Z; hd_number : Z; hd_root : Z; hd_gasLimit : Z; hd_nextFee : Z }.

(** The [BlockChain] behind the pool: blocks by hash and number, and the nonces and
    balances of a state. *)
Class PoolChain (T : Type) : Type := {
  GetBlock : Z -> Z -> option (Head * list T);
  StateAt : Z -> option ((Z -> Z) * (Z -> Z));
  CurrentBlock : Head
}.

(** The checks of a transaction that do not need the state: [ValidateTransaction] with the
    gas limit of the head and the least tip. *)
Class TxChecks (T : Type) : Type := {
  tx_type : T -> Z;
  validate_basics : Z -> Z -> T -> outcome (option pool_error)
}.

(** The nearest [float64] of an integer, ties to even: 53 bits are kept. *)
Definition to_float64 (n : Z) : Z :=
  let e := Z.log2 (Z.abs n) - 52 in
  if e <=? 0 then n
  else
    let q := Z.abs n / 2 ^ e in
    let r := Z.abs n mod 2 ^ e in
    let up := (2 ^ (e - 1) <? r) || ((r =? 2 ^ (e - 1)) && Z.odd q) in
    Z.sgn n * ((if up then q + 1 else q) * 2 ^ e).

(** The depth of a change of branch, which [reset] computes in floating point. *)
Definition reorg_depth (oldNum newNum : Z) : Z := Z.abs (to_float64 (to_float64 oldNum - to_float64 newNum)).

Section Pool.
Context {T : Type} {V : TxView T} {MO : MapOrder}.

(** [p_reserved] and [p_foreign] are the accounts that the main pool has reserved for this
    pool and for others; [p_events] are the [queuedEvents] of the scheduler. *)
Record LegacyPool : Type := mkPool {
  p_config : Config;
  p_view : chain_view;
  p_gasTip : Z;
  p_nonces : noncer;
  p_locals : gset Z;
  p_reserved : gset Z;
  p_foreign : gset Z;
  p_pending : gmap Z (txlist T);
  p_queue : gmap Z (txlist T);
  p_beats : gmap Z Z;
  p_all : lookup T;
  p_priced : pricedList T;
  p_changes : Z;
  p_events : gmap Z (sortedMap T)
}.

Definition set_view x p := mkPool (p_config p) x (p_gasTip p) (p_nonces p) (p_locals p) (p_reserved p) (p_foreign p) (p_pending p) (p_queue p) (p_beats p) (p_all p) (p_priced p) (p_changes p) (p_events p).
Definition set_gasTip x p := mkPool (p_config p) (p_view p) x (p_nonces p) (p_locals p) (p_reserved p) (p_foreign p) (p_pending p) (p_queue p) (p_beats p) (p_all p) (p_priced p) (p_changes p) (p_events p).
Definition set_nonces x p := mkPool (p_config p) (p_view p) (p_gasTip p) x (p_locals p) (p_reserved p) (p_foreign p) (p_pending p) (p_queue p) (p_beats p) (p_all p) (p_priced p) (p_changes p) (p_events p).
Definition set_locals x p := mkPool (p_config p) (p_view p) (p_gasTip p) (p_nonces p) x (p_reserved p) (p_foreign p) (p_pending p) (p_queue p) (p_beats p) (p_all p) (p_priced p) (p_changes p) (p_events p).
Definition set_reserved x p := mkPool (p_config p) (p_view p) (p_gasTip p) (p_nonces p) (p_locals p) x (p_foreign p) (p_pending p) (p_queue p) (p_beats p) (p_all p) (p_priced p) (p_changes p) (p_events p).
Definition set_pending x p := mkPool (p_config p) (p_view p) (p_gasTip p) (p_nonces p) (p_locals p) (p_reserved p) (p_foreign p) x (p_queue p) (p_beats p) (p_all p) (p_priced p) (p_changes p) (p_events p).
Definition set_queue x p := mkPool (p_config p) (p_view p) (p_gasTip p) (p_nonces p) (p_locals p) (p_reserved p) (p_foreign p) (p_pending p) x (p_beats p) (p_all p) (p_priced p) (p_changes p) (p_events p).
Definition set_beats x p := mkPool (p_config p) (p_view p) (p_gasTip p) (p_nonces p) (p_locals p) (p_reserved p) (p_foreign p) (p_pending p) (p_queue p) x (p_all p) (p_priced p) (p_changes p) (p_events p).
Definition set_all x p := mkPool (p_config p) (p_view p) (p_gasTip p) (p_nonces p) (p_locals p) (p_reserved p) (p_foreign p) (p_pending p) (p_queue p) (p_beats p) x (p_priced p) (p_changes p) (p_events p).
Definition set_priced x p := mkPool (p_config p) (p_view p) (p_gasTip p) (p_nonces p) (p_locals p) (p_reserved p) (p_foreign p) (p_pending p) (p_queue p) (p_beats p) (p_all p) x (p_changes p) (p_events p).
Definition set_events x p := mkPool (p_config p) (p_view p) (p_gasTip p) (p_nonces p) (p_locals p) (p_reserved p) (p_foreign p) (p_pending p) (p_queue p) (p_beats p) (p_all p) (p_priced p) (p_changes p) x.
Definition set_changes x p := mkPool (p_config p) (p_view p) (p_gasTip p) (p_nonces p) (p_locals p) (p_reserved p) (p_foreign p) (p_pending p) (p_queue p) (p_beats p) (p_all p) (p_priced p) x (p_events p).

(** [New] and the settings of [Init]. *)
Definition New (config : Config) (locals : list Z) (view : chain_view) (gasTip : Z) (foreign : gset Z) : LegacyPool :=
  mkPool (sanitize config) view gasTip (newNoncer (v_nonce view)) (list_to_set locals) ∅ foreign ∅ ∅ ∅ newLookup newPricedList 0 ∅.

(** ** Parts of the pool *)

Definition on_nonces {A} (m : M noncer A) : M LegacyPool A := fun p => let! (a, x) := m (p_nonces p) in Ret (a, set_nonces x p).
Definition on_priced {A} (m : lookup T -> M (pricedList T) A) : M LegacyPool A := fun p => let! (a, x) := m (p_all p) (p_priced p) in Ret (a, set_priced x p).
Definition on_all (f : lookup T -> lookup T) : M LegacyPool unit := mmodify (fun p => set_all (f (p_all p)) p).

(** A method of the list of an account; there must be one. *)
Definition on_pending {A} (addr : Z) (m : M (txlist T) A) : M LegacyPool A := fun p =>
  let! l := deref (p_pending p !! addr) in
  let! (a, l) := m l in
  Ret (a, set_pending (<[addr := l]> (p_pending p)) p).
Definition on_queue {A} (addr : Z) (m : M (txlist T) A) : M LegacyPool A := fun p =>
  let! l := deref (p_queue p !! addr) in
  let! (a, l) := m l in
  Ret (a, set_queue (<[addr := l]> (p_queue p)) p).

Definition beat (addr : Z) : M LegacyPool unit := mmodify (fun p => set_beats (<[addr := v_now (p_view p)]> (p_beats p)) p).

(** The callback of [reserver] in txpool.go. *)
Definition reserve (addr : Z) : M LegacyPool (option pool_error) :=
  let* p := mget in
  if bool_decide (addr ∈ p_reserved p) then mret None
  else if bool_decide (addr ∈ p_foreign p) then mret (Some ErrAlreadyReserved)
  else mmodify (fun p => set_reserved ({[addr]} ∪ p_reserved p) p) ;;; mret None.

Definition unreserve (addr : Z) : M LegacyPool (option pool_error) :=
  let* p := mget in
  if bool_decide (addr ∈ p_reserved p) then mmodify (fun p => set_reserved (p_reserved p ∖ {[addr]}) p) ;;; mret None
  else if bool_decide (addr ∈ p_foreign p) then mret (Some ErrNotOwned)
  else mret (Some ErrNotReserved).

(** A loop over a slice. *)
Fixpoint foreach {S A} (l : list A) (f : A -> M S unit) : M S unit :=
  match l with
  | [] => mret tt
  | x :: l => f x ;;; foreach l f
  end.

Definition has {A} (addr : Z) (m : gmap Z A) : bool := bool_decide (is_Some (m !! addr)).

(** The sender of a validated transaction; the zero address if there is none. *)
Definition sender (tx : T) : Z := default 0 (tx_sender tx).

(** ** Validation *)

(** The slots an account uses, and those it has left: the pool sets no limit here. *)
Definition UsedAndLeftSlots (addr : Z) (p : LegacyPool) : Z * Z :=
  let have := 0 in
  let have := match p_pending p !! addr with Some l => have + list_Len l | None => have end in
  let have := match p_queue p !! addr with Some l => have + list_Len l | None => have end in
  (have, 2 ^ 63 - 1).

(** [validateTx] with [ValidateTransactionWithState]. *)
Definition validateTx (tx : T) (p : LegacyPool) : option pool_error :=
  match tx_sender tx with
  | None => Some ErrInvalidSender
  | Some from =>
      if tx_nonce tx <? v_nonce (p_view p) from then Some ErrNonceTooLow
      else
        let balance := v_balance (p_view p) from in
        let cost := tx_cost tx in
        if balance <? cost then Some ErrInsufficientFunds
        else
          let spent := match p_pending p !! from with Some l => totalcost l | None => 0 end in
          let prev := match p_pending p !! from with Some l => sm_Get (tx_nonce tx) (txs l) | None => None end in
          match prev with
          | Some prev =>
              let bump := cost - tx_cost prev in
              let need := spent + bump in
              if balance <? need then Some ErrInsufficientFunds else None
          | None =>
              let need := spent + cost in
              if balance <? need then Some ErrInsufficientFunds
              else
                let (_, left) := UsedAndLeftSlots from p in
                if left <=? 0 then Some ErrAccountLimitExceeded else None
          end
  end.

(** ** Moving transactions *)

Definition enqueueTx (hash : Z) (tx : T) (local addAll : bool) : M LegacyPool (bool * option pool_error) :=
  let from := sender tx in
  let* p := mget in
  (if has from (p_queue p) then mret tt else mmodify (set_queue (<[from := newList false]> (p_queue p)))) ;;;
  let* (inserted, old) := on_queue from (list_Add tx (PriceBump (p_config p))) in
  if negb inserted then mret (false, Some ErrReplaceUnderpriced)
  else
    (match old with Some old => on_all (all_Remove (tx_hash old)) ;;; on_priced (priced_Removed 1) | None => mret tt end) ;;;
    (if addAll then on_all (all_Add tx local) ;;; on_priced (fun _ => priced_Put tx local) else mret tt) ;;;
    let* p := mget in
    (if has from (p_beats p) then mret tt else beat from) ;;;
    mret (bool_decide (is_Some old), None).

(** An internal shuffle, which does not touch the lookup set. *)
Definition requeue (txs : list T) : M LegacyPool unit := foreach txs (fun tx => let* _ := enqueueTx (tx_hash tx) tx false false in mret tt).

Definition promoteTx (addr hash : Z) (tx : T) : M LegacyPool bool :=
  let* p := mget in
  (if has addr (p_pending p) then mret tt else mmodify (set_pending (<[addr := newList true]> (p_pending p)))) ;;;
  let* (inserted, old) := on_pending addr (list_Add tx (PriceBump (p_config p))) in
  if negb inserted then
    on_all (all_Remove hash) ;;;
    on_priced (priced_Removed 1) ;;;
    mret false
  else
    (match old with Some old => on_all (all_Remove (tx_hash old)) ;;; on_priced (priced_Removed 1) | None => mret tt end) ;;;
    on_nonces (noncer_set addr (u64 (tx_nonce tx + 1))) ;;;
    beat addr ;;;
    mret true.

(** The end of [removeTx], when the address may be released. *)
Definition release (addr : Z) : M LegacyPool unit :=
  let* p := mget in
  if negb (has addr (p_pending p)) && negb (has addr (p_queue p)) then let* _ := unreserve addr in mret tt else mret tt.

Definition remove_queued (addr : Z) (tx : T) : M LegacyPool Z :=
  let* p := mget in
  if has addr (p_queue p) then
    let* _ := on_queue addr (list_Remove tx) in
    let* p := mget in
    (match p_queue p !! addr with
     | Some l => if list_Empty l then mmodify (fun p => set_beats (base.delete addr (p_beats p)) (set_queue (base.delete addr (p_queue p)) p)) else mret tt
     | None => mret tt
     end) ;;;
    mret 0
  else mret 0.

(** From the pending list, or else from the queue. *)
Definition remove_listed (addr : Z) (tx : T) : M LegacyPool Z :=
  let* p := mget in
  if has addr (p_pending p) then
    let* (removed, invalids) := on_pending addr (list_Remove tx) in
    if removed then
      let* p := mget in
      (match p_pending p !! addr with
       | Some l => if list_Empty l then mmodify (fun p => set_pending (base.delete addr (p_pending p)) p) else mret tt
       | None => mret tt
       end) ;;;
      requeue invalids ;;;
      on_nonces (noncer_setIfLower addr (tx_nonce tx)) ;;;
      mret (1 + Zlen invalids)
    else remove_queued addr tx
  else remove_queued addr tx.

Definition removeTx (hash : Z) (outofbound unreserve_ : bool) : M LegacyPool Z :=
  let* p := mget in
  match all_Get hash (p_all p) with
  | None => mret 0
  | Some tx =>
      let addr := sender tx in
      on_all (all_Remove hash) ;;;
      (if outofbound then on_priced (priced_Removed 1) else mret tt) ;;;
      let* n := remove_listed addr tx in
      (if unreserve_ then release addr else mret tt) ;;;
      mret n
  end.

(** ** Adding *)

(** A method of the map of events of an account. *)
Definition on_event {A} (addr : Z) (m : M (sortedMap T) A) : M (gmap Z (sortedMap T)) A := fun events =>
  let! (a, x) := m (default newSortedMap (events !! addr)) in
  Ret (a, <[addr := x]> events).

(** [queueTxEvent] and its case in [scheduleReorgLoop]. *)
Definition queueTxEvent (tx : T) : M LegacyPool unit := fun p =>
  let! (_, events) := on_event (sender tx) (sm_Put tx) (p_events p) in
  Ret (tt, set_events events p).

(** The loop of [isGapped]: a nonce that the queue lacks. *)
Fixpoint gap_loop (fuel : nat) (queue : txlist T) (nonce to : Z) : outcome bool :=
  match fuel with
  | O => OutOfFuel
  | S fuel =>
      if negb (nonce <? to) then Ret false
      else if negb (Contains nonce queue) then Ret true
      else gap_loop fuel queue (u64 (nonce + 1)) to
  end.

Definition isGapped (from : Z) (tx : T) : M LegacyPool bool :=
  let* next := on_nonces (noncer_get from) in
  if tx_nonce tx <=? next then mret false
  else
    let* p := mget in
    match p_queue p !! from with
    | None => mret true
    | Some queue => mlift (gap_loop (S (size (items (txs queue)))) queue next (tx_nonce tx))
    end.

(** Whether one of the transactions is pending. *)
Definition churns (p : LegacyPool) (drop : list T) : bool :=
  existsb (fun tx => match p_pending p !! sender tx with Some l => Contains (tx_nonce tx) l | None => false end) drop.

(** The part of [add] that makes room in a full pool. *)
Definition make_room (tx : T) (isLocal : bool) (from : Z) : M LegacyPool (option pool_error) :=
  let* p := mget in
  let limit := u64 (GlobalSlots (p_config p) + GlobalQueue (p_config p)) in
  if negb (limit <? u64 (slots (p_all p) + numSlots tx)) then mret None
  else
    let* under := (if isLocal then mret false else on_priced (fun all => Underpriced all tx)) in
    if under then mret (Some ErrUnderpriced)
    else
      let* p := mget in
      if GlobalSlots (p_config p) / 4 <? p_changes p then mret (Some ErrTxPoolOverflow)
      else
        let* (drop, success) := on_priced (fun all => Discard all (slots all - int64_of limit + numSlots tx) isLocal) in
        if negb isLocal && negb success then mret (Some ErrTxPoolOverflow)
        else
          let* gapped := (if isLocal then mret false else isGapped from tx) in
          let* p := mget in
          if gapped && churns p drop then
            foreach drop (fun tx => on_priced (fun _ => priced_Put tx false)) ;;;
            mret (Some ErrFutureReplacePending)
          else
            foreach drop (fun tx =>
              let* dropped := removeTx (tx_hash tx) false (negb (sender tx =? from)) in
              mmodify (fun p => set_changes (p_changes p + dropped) p)) ;;;
            mret None.

(** The rest of [add]: replace a pending transaction, or queue the new one. *)
Definition insert_tx (tx : T) (local isLocal : bool) (from : Z) : M LegacyPool (bool * option pool_error) :=
  let* p := mget in
  if match p_pending p !! from with Some l => Contains (tx_nonce tx) l | None => false end then
    let* (inserted, old) := on_pending from (list_Add tx (PriceBump (p_config p))) in
    if negb inserted then mret (false, Some ErrReplaceUnderpriced)
    else
      (match old with Some old => on_all (all_Remove (tx_hash old)) ;;; on_priced (priced_Removed 1) | None => mret tt end) ;;;
      on_all (all_Add tx isLocal) ;;;
      on_priced (fun _ => priced_Put tx isLocal) ;;;
      queueTxEvent tx ;;;
      beat from ;;;
      mret (bool_decide (is_Some old), None)
  else
    let* (replaced, err) := enqueueTx (tx_hash tx) tx isLocal true in
    match err with
    | Some err => mret (false, Some err)
    | None =>
        let* p := mget in
        (if local && negb (bool_decide (from ∈ p_locals p)) then
           mmodify (fun p => set_locals ({[from]} ∪ p_locals p) p) ;;;
           let* p := mget in
           let '(migrated, all) := RemoteToLocals (p_locals p) (p_all p) in
           mmodify (set_all all) ;;;
           on_priced (priced_Removed migrated)
         else mret tt) ;;;
        mret (replaced, None)
    end.

Definition add_valid (tx : T) (local isLocal : bool) (from : Z) : M LegacyPool (bool * option pool_error) :=
  let* err := make_room tx isLocal from in
  match err with
  | Some err => mret (false, Some err)
  | None => insert_tx tx local isLocal from
  end.

Definition add (tx : T) (local : bool) : M LegacyPool (bool * option pool_error) :=
  let* p := mget in
  match all_Get (tx_hash tx) (p_all p) with
  | Some _ => mret (false, Some ErrAlreadyKnown)
  | None =>
      let isLocal := local || containsTx (p_locals p) tx in
      match validateTx tx p with
      | Some err => mret (false, Some err)
      | None =>
          let from := sender tx in
          if negb (has from (p_pending p)) && negb (has from (p_queue p)) then
            let* err := reserve from in
            match err with
            | Some err => mret (false, Some err)
            | None =>
                let* (replaced, err) := add_valid tx local isLocal from in
                (match err with Some _ => let* _ := unreserve from in mret tt | None => mret tt end) ;;;
                mret (replaced, err)
            end
          else add_valid tx local isLocal from
      end
  end.

(** [addTxsLocked]: the errors, and the accounts with something new. *)
Fixpoint addTxsLocked (txs : list T) (local : bool) : M LegacyPool (list (option pool_error) * gset Z) :=
  match txs with
  | [] => mret ([], ∅)
  | tx :: txs =>
      let* (replaced, err) := add tx local in
      let* (errs, dirty) := addTxsLocked txs local in
      let dirty := match err, tx_sender tx with None, Some addr => if replaced then dirty else {[addr]} ∪ dirty | _, _ => dirty end in
      mret (err :: errs, dirty)
  end.

(** ** Promotion and demotion *)

(** Promote transactions; those for which it succeeds. *)
Fixpoint promote_txs (addr : Z) (txs : list T) : M LegacyPool (list T) :=
  match txs with
  | [] => mret []
  | tx :: txs =>
      let* ok := promoteTx addr (tx_hash tx) tx in
      let* rest := promote_txs addr txs in
      mret (if ok then tx :: rest else rest)
  end.

Definition remove_all (txs : list T) : M LegacyPool unit := foreach txs (fun tx => on_all (all_Remove (tx_hash tx))).

(** An account of [promoteExecutables]. *)
Definition promote_account (addr : Z) : M LegacyPool (list T) :=
  let* p := mget in
  if negb (has addr (p_queue p)) then mret []
  else
    let* forwards := on_queue addr (list_Forward (v_nonce (p_view p) addr)) in
    remove_all forwards ;;;
    let* (drops, _) := on_queue addr (list_Filter (v_balance (p_view p) addr) (v_gasLimit (p_view p))) in
    remove_all drops ;;;
    let* next := on_nonces (noncer_get addr) in
    let* readies := on_queue addr (list_Ready next) in
    let* promoted := promote_txs addr readies in
    let* caps := (if bool_decide (addr ∈ p_locals p) then mret [] else
      let* caps := on_queue addr (list_Cap (int64_of (AccountQueue (p_config p)))) in
      remove_all caps ;;;
      mret caps) in
    on_priced (priced_Removed (Zlen forwards + Zlen drops + Zlen caps)) ;;;
    let* p := mget in
    (match p_queue p !! addr with
     | Some l =>
         if list_Empty l then
           mmodify (fun p => set_beats (base.delete addr (p_beats p)) (set_queue (base.delete addr (p_queue p)) p)) ;;;
           (if has addr (p_pending p) then mret tt else let* _ := unreserve addr in mret tt)
         else mret tt
     | None => mret tt
     end) ;;;
    mret promoted.

(** [promoteExecutables]: the transactions that became pending. *)
Fixpoint promoteExecutables (accounts : list Z) : M LegacyPool (list T) :=
  match accounts with
  | [] => mret []
  | addr :: accounts =>
      let* promoted := promote_account addr in
      let* rest := promoteExecutables accounts in
      mret (promoted ++ rest)
  end.

Definition demote_account (addr : Z) : M LegacyPool unit :=
  let* p := mget in
  let nonce := v_nonce (p_view p) addr in
  let* olds := on_pending addr (list_Forward nonce) in
  remove_all olds ;;;
  let* (drops, invalids) := on_pending addr (list_Filter (v_balance (p_view p) addr) (v_gasLimit (p_view p))) in
  remove_all drops ;;;
  requeue invalids ;;;
  let* p := mget in
  let* l := mlift (deref (p_pending p !! addr)) in
  (if (0 <? list_Len l) && negb (Contains nonce l) then
     let* gapped := on_pending addr (list_Cap 0) in
     requeue gapped
   else mret tt) ;;;
  let* p := mget in
  let* l := mlift (deref (p_pending p !! addr)) in
  if list_Empty l then
    mmodify (fun p => set_pending (base.delete addr (p_pending p)) p) ;;;
    (if has addr (p_queue p) then mret tt else let* _ := unreserve addr in mret tt)
  else mret tt.

Definition demoteUnexecutables : M LegacyPool unit :=
  let* p := mget in
  foreach (map fst (range (p_pending p))) demote_account.

(** ** Limits *)

Definition list_counts (m : gmap Z (txlist T)) : Z := fold_left (fun n l => u64 (n + u64 (list_Len l))) (map snd (range m)) 0.

(** Take the last transaction of an account out of the pending ones. *)
Definition cap_one (addr : Z) : M LegacyPool unit :=
  let* p := mget in
  let* l := mlift (deref (p_pending p !! addr)) in
  let* caps := on_pending addr (list_Cap (list_Len l - 1)) in
  foreach caps (fun tx => on_all (all_Remove (tx_hash tx)) ;;; on_nonces (noncer_setIfLower addr (tx_nonce tx))) ;;;
  on_priced (priced_Removed (Zlen caps)).

Definition pending_len (addr : Z) : M LegacyPool Z :=
  let* p := mget in
  let* l := mlift (deref (p_pending p !! addr)) in
  mret (list_Len l).

(** The greatest priority first. *)
Definition more_spam (x y : Z * Z) : bool := snd y <? snd x.

(** Reduce every offender by one until there are few enough or the one tested is not over
    the threshold. *)
Fixpoint equalize (fuel : nat) (offenders : list Z) (tested : Z) (over : Z -> bool) (pending limit : Z) : M LegacyPool Z :=
  match fuel with
  | O => mlift OutOfFuel
  | S fuel =>
      if negb (limit <? pending) then mret pending
      else
        let* len := pending_len tested in
        if negb (over len) then mret pending
        else
          foreach offenders cap_one ;;;
          equalize fuel offenders tested over (u64 (pending - Zlen offenders)) limit
  end.

(** The loop over the spammers; [offenders] is in the order of the Go slice. *)
Fixpoint offend_loop (fuel : nat) (spammers : list (Z * Z)) (offenders : list Z) (pending limit : Z) : M LegacyPool (list Z * Z) :=
  match fuel with
  | O => mlift OutOfFuel
  | S fuel =>
      if negb (limit <? pending) then mret (offenders, pending)
      else
        match spammers with
        | [] => mret (offenders, pending)
        | _ =>
            let* (item, spammers) := mlift (Pop more_spam spammers) in
            let offender := fst item in
            match list.last offenders with
            | None => offend_loop fuel spammers (offenders ++ [offender]) pending limit
            | Some tested =>
                let* threshold := pending_len offender in
                let* pending := equalize (S (Z.to_nat pending)) offenders tested (fun len => threshold <? len) pending limit in
                offend_loop fuel spammers (offenders ++ [offender]) pending limit
            end
        end
  end.

Definition truncatePending : M LegacyPool unit :=
  let* p := mget in
  let pending := list_counts (p_pending p) in
  let limit := GlobalSlots (p_config p) in
  if pending <=? limit then mret tt
  else
    let spammers := fold_left (fun q '(addr, l) =>
      if negb (bool_decide (addr ∈ p_locals p)) && (AccountSlots (p_config p) <? u64 (list_Len l)) then Push more_spam q (addr, list_Len l) else q)
      (range (p_pending p)) [] in
    let* (offenders, pending) := offend_loop (S (length spammers)) spammers [] pending limit in
    match list.last offenders with
    | None => mret tt
    | Some tested => let* _ := equalize (S (Z.to_nat pending)) offenders tested (fun len => AccountSlots (p_config p) <? u64 len) pending limit in mret tt
    end.

(** Remove transactions, and release accounts that have no more. *)
Definition drop_txs (outofbound : bool) (txs : list T) : M LegacyPool unit :=
  foreach txs (fun tx => let* _ := removeTx (tx_hash tx) outofbound true in mret tt).

(** [sort.Reverse]: the latest heartbeat first. *)
Definition later (x y : Z * Z) : Prop := snd y <= snd x.
#[export] Instance later_dec x y : Decision (later x y) := Z_le_dec (snd y) (snd x).

(** The transactions from the last on, while some must be dropped. *)
Fixpoint drop_last (txs : list T) (drop : Z) : M LegacyPool Z :=
  match txs with
  | [] => mret drop
  | tx :: txs =>
      if negb (0 <? drop) then mret drop
      else let* _ := removeTx (tx_hash tx) true true in drop_last txs (drop - 1)
  end.

Fixpoint queue_loop (addresses : list Z) (drop : Z) : M LegacyPool unit :=
  match addresses with
  | [] => mret tt
  | addr :: addresses =>
      if negb (0 <? drop) then mret tt
      else
        let* p := mget in
        let* l := mlift (deref (p_queue p !! addr)) in
        let size := u64 (list_Len l) in
        let* txs := on_queue addr list_Flatten in
        if size <=? drop then
          drop_txs true txs ;;;
          queue_loop addresses (drop - size)
        else
          let* drop := drop_last (reverse txs) drop in
          queue_loop addresses drop
  end.

Definition truncateQueue : M LegacyPool unit :=
  let* p := mget in
  let queued := list_counts (p_queue p) in
  if queued <=? GlobalQueue (p_config p) then mret tt
  else
    let addresses := merge_sort later (List.filter (fun '(addr, _) => negb (bool_decide (addr ∈ p_locals p)))
      (map (fun '(addr, _) => (addr, default 0 (p_beats p !! addr))) (range (p_queue p)))) in
    queue_loop (reverse (map fst addresses)) (queued - GlobalQueue (p_config p)).

(** ** Maintenance *)

(** *** Blocks that change *)

Context {CH : PoolChain T} {TC : TxChecks T}.

Definition Filter (tx : T) : bool := tx_type tx =? DynamicFeeTxType.

(** [TxDifference]: the transactions of [a] that are not in [b]. *)
Definition TxDifference (a b : list T) : list T := List.filter (fun tx => negb (existsb (fun tx' => tx_hash tx' =? tx_hash tx) b)) a.

Definition parent_of (b : Head * list T) : option (Head * list T) := GetBlock (hd_parent (fst b)) (u64 (hd_number (fst b) - 1)).

(** The loops of [reset] that walk down to the height of the other block, and then down
    both branches; nothing is a missing parent. *)
Fixpoint walk_down (fuel : nat) (b : Head * list T) (to : Z) (acc : list T) : outcome (option (Head * list T * list T)) :=
  match fuel with
  | O => OutOfFuel
  | S fuel =>
      if negb (to <? hd_number (fst b)) then Ret (Some (b, acc))
      else match parent_of b with None => Ret None | Some b' => walk_down fuel b' to (acc ++ snd b) end
  end.

Fixpoint walk_both (fuel : nat) (rem add : Head * list T) (discarded included : list T) : outcome (option (list T * list T)) :=
  match fuel with
  | O => OutOfFuel
  | S fuel =>
      if hd_hash (fst rem) =? hd_hash (fst add) then Ret (Some (discarded, included))
      else
        match parent_of rem with
        | None => Ret None
        | Some rem' =>
            match parent_of add with
            | None => Ret None
            | Some add' => walk_both fuel rem' add' (discarded ++ snd rem) (included ++ snd add)
            end
        end
  end.

(** The transactions of the old branch that the new one lacks; nothing if [reset] gives
    up.  Every step goes down by one block. *)
Definition reorg_txs (oldHead newHead : Head) : outcome (option (list T)) :=
  if 64 <? reorg_depth (hd_number oldHead) (hd_number newHead) then Ret (Some [])
  else
    match GetBlock (hd_hash oldHead) (hd_number oldHead) with
    | None => if hd_number oldHead <=? hd_number newHead then Ret None else Ret (Some [])
    | Some rem =>
        match GetBlock (hd_hash newHead) (hd_number newHead) with
        | None => Ret None
        | Some add =>
            let! r := walk_down (S (Z.to_nat (hd_number (fst rem)))) rem (hd_number (fst add)) [] in
            match r with
            | None => Ret None
            | Some (rem, discarded) =>
                let! r := walk_down (S (Z.to_nat (hd_number (fst add)))) add (hd_number (fst rem)) [] in
                match r with
                | None => Ret None
                | Some (add, included) =>
                    let! r := walk_both (S (Z.to_nat (hd_number (fst rem)))) rem add discarded included in
                    match r with
                    | None => Ret None
                    | Some (discarded, included) => Ret (Some (List.filter Filter (TxDifference discarded included)))
                    end
                end
            end
        end
    end.

Definition reset (oldHead newHead : option Head) : M LegacyPool unit :=
  let* reinject := (match oldHead with
    | None => mret (Some [])
    | Some oldHead =>
        let* newHead := mlift (deref newHead) in
        if hd_hash oldHead =? hd_parent newHead then mret (Some []) else mlift (reorg_txs oldHead newHead)
    end) in
  match reinject with
  | None => mret tt
  | Some reinject =>
      let newHead := default CurrentBlock newHead in
      match StateAt (hd_root newHead) with
      | None => mret tt
      | Some (nonce, balance) =>
          mmodify (fun p => set_view (mkView nonce balance (hd_gasLimit newHead) (v_now (p_view p))) p) ;;;
          mmodify (set_nonces (newNoncer nonce)) ;;;
          let* _ := addTxsLocked reinject false in
          mret tt
      end
  end.

(** The nonces after the pending transactions. *)
Fixpoint next_nonces (accounts : list Z) : M LegacyPool (gmap Z Z) :=
  match accounts with
  | [] => mret ∅
  | addr :: accounts =>
      let* tx := on_pending addr list_LastElement in
      let* nonces := next_nonces accounts in
      mret (<[addr := u64 (tx_nonce tx + 1)]> nonces)
  end.

(** Drop the events that became stale. *)
Fixpoint trim_events (accounts : list Z) (events : gmap Z (sortedMap T)) : M LegacyPool (gmap Z (sortedMap T)) :=
  match accounts with
  | [] => mret events
  | addr :: accounts =>
      let* next := on_nonces (noncer_get addr) in
      let* (_, events) := mlift (on_event addr (sm_Forward next) events) in
      let events := match events !! addr with Some x => if sm_Len x =? 0 then base.delete addr events else events | None => events end in
      trim_events accounts events
  end.

Fixpoint flatten_all (l : list (sortedMap T)) : outcome (list T) :=
  match l with
  | [] => Ret []
  | x :: l => let! (txs, _) := sm_Flatten x in let! rest := flatten_all l in Ret (txs ++ rest)
  end.

(** The transactions that the feed sends: those of the events and the promoted ones. *)
Definition event_txs (events : gmap Z (sortedMap T)) (promoted : list T) : outcome (list T) :=
  let! (_, events) := foreach promoted (fun tx => on_event (sender tx) (sm_Put tx)) events in
  flatten_all (map snd (range events)).

(** The part of [runReorg] for a new head, before and after the promotion. *)
Definition reorg_before (oldHead newHead : option Head) (events : gmap Z (sortedMap T)) : M LegacyPool (gmap Z (sortedMap T) * list Z) :=
  reset oldHead newHead ;;;
  let* events := trim_events (map fst (range events)) events in
  let* p := mget in
  mret (events, map fst (range (p_queue p))).

Definition reorg_after (newHead : option Head) : M LegacyPool unit :=
  demoteUnexecutables ;;;
  (match newHead with Some newHead => on_priced (SetBaseFee (hd_nextFee newHead)) | None => mret tt end) ;;;
  let* p := mget in
  let* nonces := next_nonces (map fst (range (p_pending p))) in
  on_nonces (noncer_setAll nonces).

(** [runReorg]; it returns the transactions of the event. *)
Definition runReorg (reset_ : option (option Head * option Head)) (dirtyAccounts : list Z) (events : gmap Z (sortedMap T)) : M LegacyPool (list T) :=
  let* (events, promoteAddrs) := (match reset_ with
    | None => mret (events, dirtyAccounts)
    | Some (oldHead, newHead) => reorg_before oldHead newHead events
    end) in
  let* promoted := promoteExecutables promoteAddrs in
  (match reset_ with Some (_, newHead) => reorg_after newHead | None => mret tt end) ;;;
  truncatePending ;;;
  truncateQueue ;;;
  mmodify (set_changes 0) ;;;
  mlift (event_txs events promoted).

(** [time.Since], which saturates. *)
Definition since (v : chain_view) (t : Z) : Z := Z.min (2 ^ 63 - 1) (v_now v - t).

(** The eviction of accounts that were inactive for too long. *)
Definition evict : M LegacyPool unit :=
  let* p := mget in
  foreach (map fst (range (p_queue p))) (fun addr =>
    let* p := mget in
    if bool_decide (addr ∈ p_locals p) then mret tt
    else if Lifetime (p_config p) <? since (p_view p) (default 0 (p_beats p !! addr)) then
      let* txs := on_queue addr list_Flatten in
      drop_txs true txs
    else mret tt).

Definition SetGasTip (tip : Z) : M LegacyPool unit :=
  let* p := mget in
  mmodify (set_gasTip tip) ;;;
  if p_gasTip p <? tip then
    let drop := RemotesBelowTip tip (p_all p) in
    drop_txs false drop ;;;
    on_priced (priced_Removed (Zlen drop))
  else mret tt.

(** ** Queries *)

Inductive TxStatus : Type := TxStatusUnknown | TxStatusQueued | TxStatusPending.

Definition Status (hash : Z) (p : LegacyPool) : TxStatus :=
  match all_Get hash (p_all p) with
  | None => TxStatusUnknown
  | Some tx =>
      if match p_pending p !! sender tx with Some l => Contains (tx_nonce tx) l | None => false end then TxStatusPending
      else if match p_queue p !! sender tx with Some l => Contains (tx_nonce tx) l | None => false end then TxStatusQueued
      else TxStatusUnknown
  end.

Definition stats (p : LegacyPool) : Z * Z :=
  let count m := fold_left (fun n l => n + list_Len l) (map snd (range m)) 0 in
  (count (p_pending p), count (p_queue p)).

Definition Nonce (addr : Z) : M LegacyPool Z := on_nonces (noncer_get addr).

(** [ContentFrom] *)
Definition ContentFrom (addr : Z) : M LegacyPool (list T * list T) :=
  let* p := mget in
  let* pending := (if has addr (p_pending p) then on_pending addr list_Flatten else mret []) in
  let* queued := (if has addr (p_queue p) then on_queue addr list_Flatten else mret []) in
  mret (pending, queued).

(** The transactions before the first one that gives a smaller tip. *)
Fixpoint before_low_tip (minTip : Z) (baseFee : option Z) (txs : list T) : list T :=
  match txs with
  | [] => []
  | tx :: txs =>
      let tip := match baseFee with None => tx_tipcap tx | Some baseFee => effectiveTip tx baseFee end in
      if tip <? minTip then [] else tx :: before_low_tip minTip baseFee txs
  end.

(** [Pending], by account; accounts without a transaction are left out. *)
Fixpoint pending_of (minTip baseFee : option Z) (accounts : list Z) : M LegacyPool (list (Z * list T)) :=
  match accounts with
  | [] => mret []
  | addr :: accounts =>
      let* p := mget in
      let* txs := on_pending addr list_Flatten in
      let txs := match minTip with
        | Some minTip => if bool_decide (addr ∈ p_locals p) then txs else before_low_tip minTip baseFee txs
        | None => txs
        end in
      let* rest := pending_of minTip baseFee accounts in
      mret (match txs with [] => rest | _ => (addr, txs) :: rest end)
  end.

Definition Pending (minTip baseFee : option Z) : M LegacyPool (list (Z * list T)) :=
  let* p := mget in
  pending_of minTip baseFee (map fst (range (p_pending p))).

(** ** The entry of transactions *)

(** [validateTxBasics] *)
Definition validateTxBasics (tx : T) (local : bool) (p : LegacyPool) : outcome (option pool_error) :=
  validate_basics (v_gasLimit (p_view p)) (if local then 0 else p_gasTip p) tx.

(** The first loop of [Add]: errors of known and of invalid transactions, and the others.  The
    loop runs without the lock of the pool, so that other operations may come in between:
    [seen i] is the pool that the round for transaction [i] reads. *)
Fixpoint first_checks (local : bool) (seen : nat -> LegacyPool) (txs : list T) : outcome (list (option pool_error) * list T) :=
  match txs with
  | [] => Ret ([], [])
  | tx :: txs =>
      let p := seen O in
      let! err := (match all_Get (tx_hash tx) (p_all p) with Some _ => Ret (Some ErrAlreadyKnown) | None => validateTxBasics tx local p end) in
      let! (errs, news) := first_checks local (fun i => seen (S i)) txs in
      Ret (err :: errs, match err with None => tx :: news | Some _ => news end)
  end.

(** The second loop: the new errors fill the free slots in order. *)
Fixpoint merge_errs (errs newErrs : list (option pool_error)) : outcome (list (option pool_error)) :=
  match newErrs with
  | [] => Ret errs
  | err :: newErrs' =>
      match errs with
      | [] => Panic
      | Some e :: errs => let! rest := merge_errs errs newErrs in Ret (Some e :: rest)
      | None :: errs => let! rest := merge_errs errs newErrs' in Ret (err :: rest)
      end
  end.

(** [Add]; it returns the accounts for which promotion is requested.  The state is the pool
    when the lock is taken. *)
Definition Add (seen : nat -> LegacyPool) (txs : list T) (local : bool) : M LegacyPool (list (option pool_error) * option (gset Z)) :=
  let* p := mget in
  let local := local && negb (NoLocals (p_config p)) in
  let* (errs, news) := mlift (first_checks local seen txs) in
  if Zlen news =? 0 then mret (errs, None)
  else
    let* (newErrs, dirtyAddrs) := addTxsLocked news local in
    let* errs := mlift (merge_errs errs newErrs) in
    mret (errs, Some dirtyAddrs).

End Pool.

#[global] Arguments LegacyPool T : clear implicits.

(** ** Transactions *)

Section Validation.
Context {P : PQCrypto} {C : Crypto}.

Definition txMaxSize : Z := 4 * txSlotSize.

(** [ValidateTransaction]; [accept] is the bitmap of types. *)
Definition ValidateTransaction (tx : Tx.Transaction) (gasLimit : Z) (signer : Tx.Signer) (accept maxSize minTip : Z) : outcome (option pool_error) :=
  let data := Tx.inner tx in
  if Z.land accept (Z.shiftl 1 DynamicFeeTxType) =? 0 then Ret (Some ErrTxTypeNotSupported)
  else
    let! (size, tx) := Tx.Size tx in
    if maxSize <? size then Ret (Some ErrOversizedData)
    else if match Tx.To data with None => MaxInitCodeSize <? Zlen (Tx.Data data) | Some _ => false end then Ret (Some ErrMaxInitCodeSizeExceeded)
    else
      let! value := deref (Tx.Value data) in
      if value <? 0 then Ret (Some ErrNegativeValue)
      else if gasLimit <? Tx.Gas data then Ret (Some ErrGasLimit)
      else
        let! feeCap := deref (Tx.GasFeeCap data) in
        if 256 <? Rlp.BitLen feeCap then Ret (Some ErrFeeCapVeryHigh)
        else
          let! tipCap := deref (Tx.GasTipCap data) in
          if 256 <? Rlp.BitLen tipCap then Ret (Some ErrTipVeryHigh)
          else if feeCap <? tipCap then Ret (Some ErrTipAboveFeeCap)
          else
            let! (r, tx) := Tx.Sender signer tx in
            match r with
            | inl _ => Ret (Some ErrInvalidSender)
            | inr _ =>
                match IntrinsicGas (Tx.Data data) (Some (Tx.AccessList data)) (match Tx.To data with None => true | Some _ => false end) with
                | inl err => Ret (Some (ErrCore err))
                | inr intrGas =>
                    if Tx.Gas data <? intrGas then Ret (Some ErrIntrinsicGas)
                    else if tipCap <? minTip then Ret (Some ErrUnderpriced)
                    else Ret None
                end
            end.

#[export] Instance transaction_checks (signer : Tx.Signer) : TxChecks Tx.Transaction := {|
  tx_type := Tx.Type_;
  validate_basics gasLimit minTip tx := ValidateTransaction tx gasLimit signer (Z.shiftl 1 DynamicFeeTxType) txMaxSize minTip
|}.

End Validation.
