(* ===== verification/PoolInvariant.v ===== *)
(** * The books of the transaction pool

    The lists of accounts, the lookup, the priced heaps and the reservations all have the
    same transactions.  Here are the invariant that says so and the moves of which the
    operations of the pool are made. *)

From stdpp Require Import gmap sorting.
From S2P Require Import Prelude Heap TxList TxListTheorems TxPool.

(** ** The order of prices *)

Section Prices.
Context {T : Type} {V : TxView T}.

(** What [priceHeap] compares, as a list of keys. *)
Definition price_key (baseFee : option Z) (tx : T) : Z * Z * Z * Z :=
  (match baseFee with Some fee => effectiveTip tx fee | None => 0 end, tx_feecap tx, tx_tipcap tx, - tx_nonce tx).

Definition key_less (x y : Z * Z * Z * Z) : Prop :=
  let '(a, b, c, d) := x in let '(a', b', c', d') := y in
  a < a' \/ a = a' /\ (b < b' \/ b = b' /\ (c < c' \/ c = c' /\ d < d')).

Lemma ph_less_key fee x y : ph_less fee x y = true <-> key_less (price_key fee x) (price_key fee y).
Proof.
  unfold ph_less, ph_cmp, key_less, price_key. destruct fee as [fee|].
  - destruct (Z.compare_spec (effectiveTip x fee) (effectiveTip y fee)), (Z.compare_spec (tx_feecap x) (tx_feecap y)), (Z.compare_spec (tx_tipcap x) (tx_tipcap y)); rewrite ?Z.ltb_lt; split; intros; try done; lia.
  - destruct (Z.compare_spec (tx_feecap x) (tx_feecap y)), (Z.compare_spec (tx_tipcap x) (tx_tipcap y)); rewrite ?Z.ltb_lt; split; intros; try done; lia.
Qed.

Lemma ph_less_false fee x y : ph_less fee x y = false <-> ~ key_less (price_key fee x) (price_key fee y).
Proof. rewrite <- ph_less_key. by destruct (ph_less fee x y). Qed.

#[export] Instance price_order fee : HeapOrder (ph_less (V := V) fee).
Proof.
  split.
  - intros x y Hxy%ph_less_key. apply ph_less_false. unfold key_less, price_key in *. lia.
  - intros x y z H1%ph_less_false H2%ph_less_false. apply ph_less_false. unfold key_less, price_key in *. lia.
Qed.

End Prices.

(** ** The lookup *)

Section Lookup.
Context {T : Type} {V : TxView T} {MO : MapOrder} {MS : MapOrderSpec MO}.
Implicit Types (t : lookup T) (tx : T).

Definition slots_of (m : gmap Z T) : Z := map_fold (fun _ tx n => numSlots tx + n) 0 m.

(** Transactions under their hashes, and the sum of the slots. *)
Record all_ok t : Prop := {
  lk_key : forall h tx, all_Get h t = Some tx -> tx_hash tx = h;
  lk_apart : lk_locals t ##ₘ lk_remotes t;
  lk_slots : slots t = slots_of (lk_locals t) + slots_of (lk_remotes t)
}.

Lemma numSlots_nonneg tx : 0 <= numSlots tx.
Proof. unfold numSlots, txSlotSize. apply Z.div_pos; [|lia]. apply Z.mod_pos_bound. lia. Qed.

Lemma slots_of_insert m h tx : m !! h = None -> slots_of (<[h := tx]> m) = numSlots tx + slots_of m.
Proof. intros Hh. unfold slots_of. rewrite map_fold_insert_L; [done| |done]. intros; lia. Qed.

Lemma slots_of_delete m h tx : m !! h = Some tx -> slots_of m = numSlots tx + slots_of (base.delete h m).
Proof. intros Hh. rewrite <- (insert_delete_id m h tx Hh) at 1. apply slots_of_insert, lookup_delete_eq. Qed.

Lemma slots_of_nonneg m : 0 <= slots_of m.
Proof. induction m as [|h tx m Hm IH] using map_ind; [done|]. rewrite slots_of_insert by done. pose proof (numSlots_nonneg tx). lia. Qed.

Lemma slots_of_union m m' : m ##ₘ m' -> slots_of (m ∪ m') = slots_of m + slots_of m'.
Proof.
  induction m as [|h tx m Hm IH] using map_ind; intros Hd; [by rewrite (left_id_L ∅ (∪))|]. apply map_disjoint_insert_l in Hd as [Hh Hd].
  rewrite <- insert_union_l, slots_of_insert by (by apply lookup_union_None). rewrite slots_of_insert, IH by done. lia.
Qed.

Lemma Get_union t h : all_Get h t = (lk_locals t ∪ lk_remotes t) !! h.
Proof. unfold all_Get. rewrite lookup_union. by destruct (lk_locals t !! h), (lk_remotes t !! h). Qed.

Lemma slots_nonneg t : all_ok t -> 0 <= slots t.
Proof. intros [_ _ ->]. pose proof (slots_of_nonneg (lk_locals t)). pose proof (slots_of_nonneg (lk_remotes t)). lia. Qed.

Lemma newLookup_ok : all_ok newLookup.
Proof. split; [done|apply map_disjoint_empty_l|done]. Qed.

Lemma Remove_Get t h h' : all_Get h' (all_Remove h t) = if decide (h' = h) then None else all_Get h' t.
Proof.
  unfold all_Remove. destruct (all_Get h t) as [tx|] eqn:Hh.
  - unfold all_Get. cbn. case_decide as Hd; [subst; by rewrite !lookup_delete_eq|]. by rewrite !lookup_delete_ne by done.
  - case_decide; [by subst|done].
Qed.

Lemma Remove_remotes t h : lk_remotes (all_Remove h t) = base.delete h (lk_remotes t) \/ lk_remotes (all_Remove h t) = lk_remotes t /\ all_Get h t = None.
Proof. unfold all_Remove. destruct (all_Get h t); [by left|by right]. Qed.

Lemma Remove_ok t h : all_ok t -> all_ok (all_Remove h t).
Proof.
  intros [H1 H2 H3]. split.
  - intros h' tx. rewrite Remove_Get. case_decide; [done|apply H1].
  - unfold all_Remove. destruct (all_Get h t); [|done]. cbn. apply map_disjoint_delete_l, map_disjoint_delete_r. done.
  - unfold all_Remove. destruct (all_Get h t) as [tx|] eqn:Hh; [|done]. cbn. rewrite H3. unfold all_Get in Hh. destruct (lk_locals t !! h) as [tx'|] eqn:Hl.
    + injection Hh as ->. rewrite (slots_of_delete _ _ _ Hl), (delete_id (lk_remotes t)); [lia|]. by eapply map_disjoint_Some_r in Hl.
    + rewrite (slots_of_delete _ _ _ Hh), (delete_id (lk_locals t)) by done. lia.
Qed.

Lemma Add_Get t tx local h : all_Get (tx_hash tx) t = None -> all_Get h (all_Add tx local t) = if decide (h = tx_hash tx) then Some tx else all_Get h t.
Proof.
  unfold all_Get, all_Add. intros Hn. destruct (lk_locals t !! tx_hash tx) eqn:Hl; [done|]. destruct local; cbn; case_decide as Hd; subst; rewrite ?lookup_insert_eq, ?lookup_insert_ne by done; try done. by rewrite Hl.
Qed.

Lemma Add_ok t tx local : all_ok t -> all_Get (tx_hash tx) t = None -> all_ok (all_Add tx local t).
Proof.
  intros [H1 H2 H3] Hn. split.
  - intros h x. rewrite Add_Get by done. case_decide; [intros [= <-]; done|apply H1].
  - unfold all_Get in Hn. destruct (lk_locals t !! tx_hash tx) eqn:Hl; [done|]. destruct local; cbn; [by apply map_disjoint_insert_l_2|by apply map_disjoint_insert_r_2].
  - unfold all_Get in Hn. destruct (lk_locals t !! tx_hash tx) eqn:Hl; [done|]. destruct local; cbn; rewrite slots_of_insert by done; lia.
Qed.

(** The migration moves remote transactions and changes nothing else. *)
Lemma migrate_ok t locals : all_ok t -> let t' := snd (RemoteToLocals locals t) in
  all_ok t' /\ (forall h, all_Get h t' = all_Get h t) /\ lk_remotes t' ⊆ lk_remotes t.
Proof.
  intros [H1 H2 H3]. cbn [RemoteToLocals snd]. set (moved := base.filter _ _). set (kept := base.filter _ (lk_remotes t)).
  assert (Hd : moved ##ₘ kept).
  { apply map_disjoint_spec. intros h x y Hx Hy. apply map_lookup_filter_Some in Hx as [Hx1 Hx2], Hy as [Hy1 Hy2]. rewrite Hx1 in Hy1. injection Hy1 as ->. congruence. }
  assert (Hu : moved ∪ kept = lk_remotes t).
  { apply map_eq. intros h. rewrite lookup_union. unfold moved, kept. rewrite !map_lookup_filter. destruct (lk_remotes t !! h) as [x|]; [|done]. cbn. destruct (containsTx locals x) eqn:Hc; repeat case_guard; (done || congruence). }
  assert (Hm : moved ##ₘ lk_locals t) by (symmetry; eapply map_disjoint_weaken_r; [exact H2|apply map_filter_subseteq]).
  assert (Hk : lk_locals t ##ₘ kept) by (eapply map_disjoint_weaken_r; [exact H2|apply map_filter_subseteq]).
  assert (Hget : forall h, all_Get h (mkLookup (slots t) (moved ∪ lk_locals t) kept) = all_Get h t).
  { intros h. rewrite !Get_union. cbn. rewrite (map_union_comm moved) by done. by rewrite <- (assoc_L (∪)), Hu. }
  split_and!; [split|exact Hget|apply map_filter_subseteq].
  - intros h x. rewrite Hget. apply H1.
  - cbn. by apply map_disjoint_union_l_2.
  - cbn. rewrite slots_of_union, H3, <- Hu, slots_of_union by done. lia.
Qed.

End Lookup.

(** ** The priced list *)

Section PricedLemmas.
Context {T : Type} {V : TxView T} `{!Inhabited T} {MO : MapOrder} {MS : MapOrderSpec MO}.
Implicit Types (l : pricedList T) (all : lookup T) (tx : T) (D : list T).

#[local] Arguments floating_less : simpl never.

(** Two heaps with every remote transaction but those in hand. *)
Record priced_ok all D l : Prop := {
  po_urgent : is_heap (urgent_less l) (urgent l);
  po_floating : is_heap floating_less (floating l);
  po_remotes : forall h tx, lk_remotes all !! h = Some tx -> tx ∈ urgent l ++ floating l ++ D
}.

Lemma priced_weaken all all' D D' l : priced_ok all D l -> lk_remotes all' ⊆ lk_remotes all -> D ⊆ D' -> priced_ok all' D' l.
Proof. intros [H1 H2 H3] Hs HD. split; [done|done|]. intros h tx Htx. pose proof (H3 h tx (lookup_weaken _ _ _ _ Htx Hs)). set_solver. Qed.

Lemma newPriced_ok : priced_ok newLookup [] newPricedList.
Proof. split; [apply heap_nil|apply heap_nil|]. intros h tx. cbn. by rewrite lookup_empty. Qed.

Lemma pop_some_spec n : forall l, (n <= length (urgent l))%nat -> is_heap (urgent_less l) (urgent l) -> exists txs h,
  pop_some n l = Ret (txs, set_urgent h l) /\ urgent l ≡ₚ txs ++ h /\ is_heap (urgent_less l) h.
Proof.
  induction n as [|n IH]; intros [st u b f] Hn Hh; cbn in *; [by exists [], u|]. unfold urgent_less in *. cbn in *. destruct u as [|x u]; cbn in Hn; [lia|].
  destruct (pop_heap (ph_less b) x u Hh) as (u' & Hp & Hu & Hh' & _). destruct (IH (mkPriced st u' b f)) as (txs & h & Hr & Hperm & Hheap); [cbn; rewrite <- Hu; lia|done|].
  exists (x :: txs), h. unfold pop_urgent, urgent_less. srun. cbn. rewrite Hp. srun. cbn. srun. unfold set_urgent in *. cbn in *. rewrite Hr. cbn in *. split_and!; [done|by rewrite Hu, Hperm|done].
Qed.

Lemma reheap_ok all l : exists l', Reheap all l = Ret (tt, l') /\ priced_ok all [] l' /\ urgentBase l' = urgentBase l.
Proof.
  unfold Reheap. srun. cbn. destruct (init_heap (ph_less (urgentBase l)) (map snd (range (lk_remotes all)))) as [Hh Hp]. unfold urgent_less. cbn. set (u := Init _ _) in *.
  set (n := Z.to_nat _). destruct (pop_some_spec n (mkPriced 0 u (urgentBase l) (floating l))) as (txs & h & Hr & Hperm & Hheap); [|done|].
  { cbn. unfold n, floatingRatio, urgentRatio, Zlen. rewrite Z.mul_1_r. change (4 + 1) with 5. pose proof (Z.div_le_upper_bound (Z.of_nat (length u)) 5 (Z.of_nat (length u))). lia. }
  unfold set_urgent, set_stales in *. cbn in *. rewrite Hr. srun. eexists. split; [reflexivity|]. split; [|done]. destruct (init_heap floating_less txs) as [Hf Hfp]. split; cbn; [done|done|].
  intros k tx Hk. rewrite Hfp, (app_nil_r txs), (Permutation_app_comm h), <- Hperm, Hp. apply list_elem_of_fmap. exists (k, tx). split; [done|]. rewrite range_perm. by apply elem_of_map_to_list.
Qed.

Lemma removed_ok all D l n : priced_ok all D l -> exists l', priced_Removed n all l = Ret (tt, l') /\ priced_ok all D l'.
Proof.
  intros Hl. unfold priced_Removed. srun. case_match.
  - eexists. split; [reflexivity|]. by destruct Hl.
  - destruct (reheap_ok all (set_stales (stales l + n) l)) as (l' & Hr & Hok & _). exists l'. split; [done|]. eapply priced_weaken; [exact Hok|done|set_solver].
Qed.

Lemma base_ok all D l fee : exists l', SetBaseFee fee all l = Ret (tt, l') /\ priced_ok all D l'.
Proof. unfold SetBaseFee. srun. destruct (reheap_ok all (mkPriced (stales l) (urgent l) (Some fee) (floating l))) as (l' & Hr & Hok & _). exists l'. split; [done|]. eapply priced_weaken; [exact Hok|done|set_solver]. Qed.

Lemma put_ok all D l tx : priced_ok all (tx :: D) l -> exists l', priced_Put tx false l = Ret (tt, l') /\ priced_ok all D l'.
Proof.
  intros [H1 H2 H3]. unfold priced_Put. srun. eexists. split; [reflexivity|]. destruct (push_heap (urgent_less l) (urgent l) tx H1) as [Hh Hp]. split; cbn; [done|done|].
  intros h x Hx. rewrite Hp. apply H3 in Hx. set_solver.
Qed.

(** What [enqueueTx] and [add] do with a new transaction. *)
Lemma put_new_ok all D l tx local : priced_ok all D l -> exists l', priced_Put tx local l = Ret (tt, l') /\ priced_ok (all_Add tx local all) D l'.
Proof.
  intros Hl. destruct local; [exists l; split; [done|]; by destruct Hl|]. apply put_ok. destruct Hl as [H1 H2 H3]. split; [done|done|]. cbn. intros h x. rewrite lookup_insert_Some. intros [[_ ->]|[_ Hx]]; [set_solver|].
  apply H3 in Hx. set_solver.
Qed.

Lemma stale_remote all x k tx : all_ok all -> lk_remotes all !! k = Some tx -> stale all x = true -> tx <> x.
Proof.
  intros [Hk Hd _] Hx Hs ->. unfold stale, GetRemote in Hs. assert (Hxk : tx_hash x = k) by (apply Hk; unfold all_Get; by rewrite (map_disjoint_Some_r _ _ _ _ Hd Hx)). by rewrite Hxk, Hx in Hs.
Qed.

(** Stale transactions may go from a heap. *)
Lemma drop_stale_spec fee all rest fuel : all_ok all -> forall h n, (length h < fuel)%nat -> is_heap (ph_less fee) h -> (forall k tx, lk_remotes all !! k = Some tx -> tx ∈ h ++ rest) ->
  exists h' n', drop_stale fuel (ph_less fee) all h n = Ret (h', n') /\ is_heap (ph_less fee) h' /\ (forall k tx, lk_remotes all !! k = Some tx -> tx ∈ h' ++ rest).
Proof.
  intros Hall. induction fuel as [|fuel IH]; intros h n Hf Hh Hin; [lia|]. cbn. destruct h as [|x h]; [by exists [], n|]. destruct (stale all x) eqn:Hs; [|by exists (x :: h), n].
  destruct (pop_heap (ph_less fee) x h Hh) as (h' & Hp & Hperm & Hh' & _). rewrite Hp. cbn. apply (IH h' (n + 1)); [rewrite <- Hperm; cbn in Hf; lia|done|].
  intros k tx Hx. rewrite <- Hperm. pose proof (Hin k tx Hx) as Hi. cbn in Hi. apply elem_of_cons in Hi as [-> |Hi]; [|done]. by destruct (stale_remote all x k x Hall Hx Hs).
Qed.

Lemma underpriced_ok all D l tx : all_ok all -> priced_ok all D l -> exists b l', Underpriced all tx l = Ret (b, l') /\ priced_ok all D l'.
Proof.
  intros Hall [H1 H2 H3]. destruct l as [st u fee f]. unfold Underpriced, underpricedFor, urgent_less, floating_less in *. srun. cbn [urgent floating urgentBase stales] in *.
  destruct (drop_stale_spec fee all (f ++ D) (S (length u)) Hall u 0) as (u' & n & Hr & Hh & Hin); [lia|done|done|]. rewrite Hr. srun. cbn [urgent floating urgentBase stales set_urgent set_stales set_floating].
  match goal with |- context [if negb ?b then _ else _] => destruct b end; cbn [negb]; [|eexists _, _; split; [reflexivity|]; by split].
  destruct (drop_stale_spec None all (u' ++ D) (S (length f)) Hall f 0) as (f' & n' & Hr' & Hh' & Hin'); [lia|done| |]. { intros k x Hx. apply Hin in Hx. set_solver. }
  rewrite Hr'. srun. cbn [urgent floating urgentBase stales set_urgent set_stales set_floating]. assert (Hok : forall st, priced_ok all D (mkPriced st u' fee f')) by (intros st'; split; cbn; [done|done|]; intros k x Hx; apply Hin' in Hx; set_solver).
  match goal with |- context [if negb ?b then _ else _] => destruct b end; cbn; eexists _, _; (split; [reflexivity|]); apply Hok.
Qed.

Definition slots_in (txs : list T) : Z := foldr (fun tx n => numSlots tx + n) 0 txs.

Lemma slots_in_app (d d' : list T) : slots_in (d ++ d') = slots_in d + slots_in d'.
Proof. unfold slots_in. induction d as [|x d IH]; cbn; [done|]. rewrite IH. lia. Qed.

(** The loop stops with the slots it wants or with empty heaps. *)
Lemma discard_loop_spec all fuel : all_ok all -> forall l slots drop, priced_ok all drop l -> Forall (fun tx => stale all tx = false) drop -> (2 * length (urgent l) + length (floating l) < fuel)%nat ->
  exists drop' slots' l', discard_loop fuel all slots drop l = Ret (drop', slots', l') /\ priced_ok all drop' l' /\ Forall (fun tx => stale all tx = false) drop' /\
    slots' + slots_in drop' = slots + slots_in drop /\ (0 < slots' -> urgent l' = [] /\ floating l' = []).
Proof.
  intros Hall. induction fuel as [|fuel IH]; intros [st u fee f] slots drop [H1 H2 H3] Hdrop Hf; [lia|]. unfold urgent_less in *. cbn in *.
  destruct (Z.ltb_spec 0 slots); cbn; [|exists drop, slots; eexists; split; [reflexivity|]; split_and!; [by split|done|done|lia]]. srun. cbn.
  destruct (Z.ltb_spec (Zlen f * urgentRatio) (Zlen u * floatingRatio)) as [Hlt|Hge].
  - destruct u as [|x u]; [unfold Zlen, urgentRatio, floatingRatio in Hlt; cbn in Hlt; lia|]. destruct (pop_heap (ph_less fee) x u H1) as (u' & Hp & Hu & Hh & _). unfold pop_urgent. srun. unfold urgent_less. cbn. rewrite Hp. srun. cbn.
    assert (length u = length u') as Hlen by (by rewrite Hu). destruct (stale all x) eqn:Hs; srun; cbn.
    + apply IH; [split; cbn; [done|done|]|done|cbn in *; lia]. intros k tx Hx. pose proof (H3 k tx Hx) as Hi. cbn in Hi. apply elem_of_cons in Hi as [-> |Hi]; [by destruct (stale_remote all x k x Hall Hx Hs)|]. by rewrite <- Hu.
    + destruct (push_heap floating_less f x H2) as [Hh' Hp']. apply IH; [split; cbn; [done|done|]|done|cbn in *; rewrite Hp'; cbn; lia]. intros k tx Hx. rewrite Hp'. pose proof (H3 k tx Hx) as Hi. cbn in Hi. rewrite <- Hu. set_solver.
  - destruct f as [|x f]; cbn.
    + exists drop, slots. eexists. split; [reflexivity|]. split_and!; [by split|done|done|]. intros _. split; [|done]. destruct u; [done|]. unfold Zlen, urgentRatio, floatingRatio in Hge. cbn in Hge. lia.
    + destruct (pop_heap floating_less x f H2) as (f' & Hp & Hu & Hh & _). rewrite (proj2 (Z.eqb_neq (Zlen (x :: f)) 0)) by (unfold Zlen; cbn; lia). unfold pop_floating. srun. cbn. rewrite Hp. srun. cbn. assert (length f = length f') as Hlen by (by rewrite Hu). destruct (stale all x) eqn:Hs; srun; cbn.
      * apply IH; [split; cbn; [done|done|]|done|cbn in *; lia]. intros k tx Hx. pose proof (H3 k tx Hx) as Hi. rewrite <- Hu. assert (tx <> x) by (by eapply stale_remote). set_solver.
      * destruct (IH (mkPriced st u fee f') (slots - numSlots x) (drop ++ [x])) as (drop' & slots' & l' & Hr & Hok & Hst & Hsum & Hend); [split; cbn; [done|done|]|apply Forall_app; split; [done|by constructor]|cbn in *; lia|].
        { intros k tx Hx. pose proof (H3 k tx Hx) as Hi. rewrite <- Hu. set_solver. }
        exists drop', slots', l'. split_and!; [done|done|done| |done]. rewrite slots_in_app in Hsum. cbn in Hsum. lia.
Qed.

Lemma push_all all drop : forall l, priced_ok all drop l -> priced_ok all [] (set_urgent (fold_left (Push (urgent_less l)) drop (urgent l)) l).
Proof.
  induction drop as [|x drop IH]; intros l Hl; [by destruct l|]. destruct (put_ok all drop l x Hl) as (l' & Hr & Hok). unfold priced_Put in Hr. revert Hr. srun. intros [= <-]. apply (IH _ Hok).
Qed.

(** [Discard] takes remote transactions with enough slots, or leaves them all. *)
Lemma discard_ok all l slots force : all_ok all -> priced_ok all [] l -> 0 <= slots -> exists drop ok l', Discard all slots force l = Ret (drop, ok, l') /\ priced_ok all drop l' /\
  Forall (fun tx => stale all tx = false) drop /\ (ok = false -> drop = [] /\ force = false) /\ (ok = true -> force = false -> slots <= slots_in drop).
Proof.
  intros Hall Hl Hs. unfold Discard. rewrite (proj2 (Z.ltb_ge _ _)) by done. srun. destruct (discard_loop_spec all (S (2 * length (urgent l) + length (floating l))) Hall l slots [] Hl) as (drop & slots' & l' & Hr & Hok & Hst & Hsum & _); [done|lia|].
  rewrite Hr. srun. cbn in Hsum. destruct (Z.ltb_spec 0 slots'), force; cbn; (eexists _, _, _; split; [reflexivity|]); (split_and!; [|done|done|intros; try done; lia]); try done. by apply push_all.
Qed.

End PricedLemmas.

(** ** Lists *)

Section Took.
Context {T : Type} {V : TxView T} {MO : MapOrder} {MS : MapOrderSpec MO}.
Implicit Types (l : txlist T) (it : gmap Z T) (tx : T).

Lemma nonces_flat it : nonced it -> map tx_nonce (flat it) = keys it.
Proof.
  intros Hn. unfold flat. assert (Hk : forall k, k ∈ keys it -> is_Some (it !! k)) by (intros k; apply elem_keys). revert Hk. generalize (keys it) as ks. induction ks as [|k ks IH]; intros Hk; [done|].
  cbn. destruct (Hk k) as [tx Htx]; [set_solver|]. rewrite Htx. cbn. f_equal; [apply (Hn k tx Htx)|]. apply IH. set_solver.
Qed.

Lemma elem_flat_nonce it tx : nonced it -> tx ∈ flat it <-> it !! tx_nonce tx = Some tx.
Proof. intros Hn. rewrite elem_flat. split; [|eauto]. intros [k Hk]. by destruct (Hn k tx Hk) as [-> _]. Qed.

(** The transactions [out] are taken from a list. *)
Record took l (out : list T) l' : Prop := {
  tk_ok : list_ok l';
  tk_strict : strict l' = strict l;
  tk_sub : items (txs l') ⊆ items (txs l);
  tk_perm : flat (items (txs l)) ≡ₚ out ++ flat (items (txs l'))
}.

Lemma ok_nonced l : list_ok l -> nonced (items (txs l)).
Proof. intros [[[_ _ Hn] _] _ _]. done. Qed.

(** Each of them was in the list, under a nonce that is free now. *)
Lemma took_out l out l' tx : list_ok l -> took l out l' -> tx ∈ out -> items (txs l) !! tx_nonce tx = Some tx /\ items (txs l') !! tx_nonce tx = None.
Proof.
  intros Hl [H1 H2 H3 H4] Hin. pose proof (ok_nonced l Hl) as Hn. assert (Hx : items (txs l) !! tx_nonce tx = Some tx) by (apply elem_flat_nonce; [done|]; rewrite H4; set_solver). split; [done|].
  destruct (items (txs l') !! tx_nonce tx) as [y|] eqn:Hy; [|done]. pose proof (lookup_weaken _ _ _ _ Hy H3) as Hy'. rewrite Hx in Hy'. injection Hy' as <-. apply elem_flat_nonce in Hy; [|by apply ok_nonced].
  pose proof (NoDup_keys (items (txs l))) as Hnd. rewrite <- nonces_flat in Hnd by done. apply NoDup_fmap_1 in Hnd. rewrite H4 in Hnd. apply list.NoDup_app in Hnd as (_ & Hnd & _). by destruct (Hnd tx Hin).
Qed.

Lemma took_nonces l out l' : list_ok l -> took l out l' -> NoDup (map tx_nonce out).
Proof.
  intros Hl [H1 H2 H3 H4]. pose proof (NoDup_keys (items (txs l))) as Hnd. rewrite <- nonces_flat in Hnd by (by apply ok_nonced). rewrite H4, map_app in Hnd. by apply list.NoDup_app in Hnd as (? & _ & _).
Qed.

Lemma took_back l out l' n tx : list_ok l -> took l out l' -> items (txs l) !! n = Some tx -> tx ∈ out \/ items (txs l') !! n = Some tx.
Proof.
  intros Hl [H1 H2 H3 H4] Hx. destruct (ok_nonced l Hl n tx Hx) as [Hk _]. assert (Hin : tx ∈ flat (items (txs l))) by (apply elem_flat; eauto). rewrite H4 in Hin. apply elem_of_app in Hin as [|Hin]; [by left|right].
  apply elem_flat_nonce in Hin; [|by apply ok_nonced]. by rewrite <- Hk.
Qed.

(** The answer of a list operation. *)
Lemma follows_inv {A} (op : list_op) (m : M (txlist T) A) (f : A -> list_answer) l : (forall l, run_list op l = (let* x := m in mret (f x)) l) -> list_follows op l ->
  exists x l', m l = Ret (x, l') /\ list_ok l' /\ strict l' = strict l /\ list_spec (strict l) op (items (txs l)) (f x) (items (txs l')).
Proof.
  intros He (a & l' & Hr & H1 & H2 & H3). rewrite He in Hr. apply mthen_Ret in Hr as (x & s & Hm & Hret). unfold mret in Hret. injection Hret as <- <-. eauto 10.
Qed.

Lemma forward_took t l : list_ok l -> exists out l', list_Forward t l = Ret (out, l') /\ took l out l' /\ items (txs l') = at_least t (items (txs l)).
Proof.
  intros Hl. destruct (follows_inv (LForward t) (list_Forward t) ATxs l) as (out & l' & Hr & H1 & H2 & Ha & Hit); [done|by apply forward_follows|]. injection Ha as ->. exists (flat (below t (items (txs l)))), l'. split_and!; [done| |done].
  split; [done|done|rewrite Hit; apply map_filter_subseteq|by rewrite Hit, <- flat_split].
Qed.

Lemma cap_took t l : list_ok l -> 0 <= t -> exists out l', list_Cap t l = Ret (out, l') /\ took l out l' /\ flat (items (txs l')) = take (Z.to_nat t) (flat (items (txs l))).
Proof.
  intros Hl Ht. destruct (follows_inv (LCap t) (list_Cap t) ATxs l) as (out & l' & Hr & H1 & H2 & Ha & Hit & Hs); [done|by apply cap_follows|]. injection Ha as ->. eexists _, l'. split_and!; [done| |done].
  split; [done|done|done|]. rewrite Hit, reverse_Permutation, Permutation_app_comm. by rewrite take_drop.
Qed.

Lemma ready_took s l : list_ok l -> exists out l', list_Ready s l = Ret (out, l') /\ took l out l'.
Proof.
  intros Hl. destruct (follows_inv (LReady s) (list_Ready s) ATxs l) as (out & l' & Hr & H1 & H2 & Ha & Hit & Hs); [done|by apply ready_follows|]. injection Ha as ->. eexists _, l'. split; [done|]. split; [done|done|done|by rewrite Hit at 1].
Qed.

Lemma flatten_took l : list_ok l -> exists l', list_Flatten l = Ret (flat (items (txs l)), l') /\ took l [] l' /\ items (txs l') = items (txs l).
Proof.
  intros Hl. destruct (follows_inv LFlatten list_Flatten ATxs l) as (out & l' & Hr & H1 & H2 & Ha & Hit); [done|by apply flatten_follows|]. injection Ha as ->. exists l'. split_and!; [done| |done]. split; [done|done|by rewrite Hit|by rewrite Hit].
Qed.

(** Dropped and invalidated transactions; those that stay are within the limits. *)
Lemma filter_took c g l : list_ok l -> exists out invalids l', list_Filter c g l = Ret (out, invalids, l') /\ took l (out ++ invalids) l' /\ (strict l = false -> invalids = []) /\
  items (txs l') ⊆ keep (too_costly c g) (items (txs l)).
Proof.
  intros Hl. destruct (follows_inv (LFilter c g) (list_Filter c g) (fun '(r, i) => ATwo true r i) l) as ([r i] & l' & Hr & H1 & H2 & out & invalids & Ha & Hp & Hrest); [|by apply filter_follows|].
  { intros l'. cbn. unfold mthen. by destruct (list_Filter c g l') as [[[? ?] ?]| |]. }
  injection Ha as -> ->. exists out, invalids, l'. split; [done|]. pose proof (flat_pick (too_costly c g) (items (txs l))) as Hsplit. destruct (flat (pick (too_costly c g) (items (txs l)))) as [|first rest] eqn:Hf.
  - destruct Hrest as [-> Hit]. apply Permutation_nil_r in Hp as ->. split; [split; [done|done|by rewrite Hit|by rewrite Hit]|]. split; [done|]. rewrite Hit. by rewrite (pick_nil _ _ Hf).
  - destruct (strict l) eqn:Hs.
    + destruct Hrest as [Hi Hit]. split; [split; [done|congruence|rewrite Hit; etrans; apply keep_subseteq|]|split; [done|rewrite Hit; apply keep_subseteq]]. rewrite Hit, Hsplit, Hp, Hi, <- (assoc_L (++)). f_equiv. apply flat_pick.
    + destruct Hrest as [-> Hit]. rewrite app_nil_r. split; [split; [done|congruence|rewrite Hit; apply keep_subseteq|by rewrite Hit, Hsplit, Hp]|split; [done|by rewrite Hit]].
Qed.

(** A transaction of the list is removed, from a strict list with all later ones. *)
Lemma remove_took tx l : list_ok l -> items (txs l) !! tx_nonce tx = Some tx -> exists invalids l', list_Remove tx l = Ret (true, invalids, l') /\ took l (tx :: invalids) l' /\ (strict l = false -> invalids = []) /\
  forall n x, items (txs l') !! n = Some x -> n <> tx_nonce tx.
Proof.
  intros Hl Hx. destruct (follows_inv (LRemove tx) (list_Remove tx) (fun '(b, i) => ATwo b [] i) l) as ([b i] & l' & Hr & H1 & H2 & invalids & Ha & Hrest); [|apply remove_follows; [done|]; intros y; cbn; congruence|].
  { intros l'. cbn. unfold mthen. by destruct (list_Remove tx l') as [[[? ?] ?]| |]. }
  rewrite bool_decide_eq_true_2 in Ha, Hrest by eauto. cbn [andb] in Hrest. injection Ha as -> ->. exists invalids, l'. split; [done|]. pose proof (flat_delete _ _ _ Hx) as Hsplit. destruct (strict l) eqn:Hs; destruct Hrest as [Hi Hit].
  - split; [split; [done|congruence|rewrite Hit; etrans; [apply keep_subseteq|apply delete_subseteq]|]|split; [done|]].
    + rewrite Hit, Hsplit. cbn. f_equiv. rewrite Hi. apply flat_pick.
    + intros n y Hy ->. rewrite Hit in Hy. apply map_lookup_filter_Some in Hy as [Hy _]. by rewrite lookup_delete_eq in Hy.
  - subst invalids. split; [split; [done|congruence|rewrite Hit; apply delete_subseteq|by rewrite Hit, Hsplit]|split; [done|]]. intros n y Hy ->. rewrite Hit, lookup_delete_eq in Hy. done.
Qed.

Lemma remove_none tx l : list_ok l -> items (txs l) !! tx_nonce tx = None -> exists l', list_Remove tx l = Ret (false, [], l') /\ took l [] l' /\ items (txs l') = items (txs l).
Proof.
  intros Hl Hx. destruct (follows_inv (LRemove tx) (list_Remove tx) (fun '(b, i) => ATwo b [] i) l) as ([b i] & l' & Hr & H1 & H2 & invalids & Ha & Hrest); [|apply remove_follows; [done|]; intros y; cbn; congruence|].
  { intros l'. cbn. unfold mthen. by destruct (list_Remove tx l') as [[[? ?] ?]| |]. }
  rewrite bool_decide_eq_false_2 in Ha, Hrest by (rewrite Hx; by intros []). cbn [andb] in Hrest. destruct Hrest as [-> Hit]. rewrite delete_id in Hit by done. injection Ha as -> ->. exists l'. split_and!; [done| |done]. split; [done|done|by rewrite Hit|by rewrite Hit].
Qed.

(** A transaction with an unused nonce is always accepted; another one if it bumps. *)
Lemma add_put tx bump l : list_ok l -> in64 (tx_nonce tx) -> exists b old l', list_Add tx bump l = Ret (b, old, l') /\ list_ok l' /\ strict l' = strict l /\
  (if b : bool then items (txs l') = <[tx_nonce tx := tx]> (items (txs l)) /\ old = items (txs l) !! tx_nonce tx else items (txs l') = items (txs l) /\ is_Some (items (txs l) !! tx_nonce tx)).
Proof.
  intros Hl Hi. destruct (follows_inv (LAdd tx bump) (list_Add tx bump) (fun '(b, o) => AAdd b o) l) as ([b old] & l' & Hr & H1 & H2 & Ha); [|by apply add_follows|].
  { intros l'. cbn. unfold mthen. by destruct (list_Add tx bump l') as [[[? ?] ?]| |]. }
  exists b, old, l'. split_and!; [done|done|done|]. cbn in Ha. destruct (items (txs l) !! tx_nonce tx) as [o|] eqn:Ho; [destruct (bumps o tx bump)|]; destruct Ha as [[= -> ->] Hit]; eauto.
Qed.

End Took.

(** ** The invariant *)

Section Invariant.
Context {T : Type} {V : TxView T} `{!Inhabited T} {MO : MapOrder} {MS : MapOrderSpec MO}.
Implicit Types (p : LegacyPool T) (m : gmap Z (txlist T)) (l : txlist T) (tx : T) (s : bool) (X D : list T) (E : option (bool * Z)) (R : gset Z).

(** The pending lists and the queues. *)
Definition lists s p : gmap Z (txlist T) := if s then p_pending p else p_queue p.
Definition set_lists s m p : LegacyPool T := if s then set_pending m p else set_queue m p.

Definition item m (a n : Z) : option T := m !! a ≫= fun l => items (txs l) !! n.

(** A transaction is in the list of its sender. *)
Definition located p s tx : Prop := exists a, tx_sender tx = Some a /\ item (lists s p) a (tx_nonce tx) = Some tx.

Record side_ok s E m : Prop := {
  sd_list : forall a l, m !! a = Some l -> list_ok l;
  sd_strict : forall a l, m !! a = Some l -> strict l = s;
  sd_sender : forall a n tx, item m a n = Some tx -> tx_sender tx = Some a;
  sd_some : forall a l, m !! a = Some l -> E <> Some (s, a) -> items (txs l) <> ∅
}.

(** In the middle of an operation, the transactions [X] are known but in no list, the list
    [E] may be empty, the accounts [R] are reserved without need, and the transactions [D]
    are not in the heaps. *)
Record pool_inv X E R D p : Prop := {
  pi_side : forall s, side_ok s E (lists s p);
  pi_apart : forall a n, item (p_pending p) a n = None \/ item (p_queue p) a n = None;
  pi_all : all_ok (p_all p);
  pi_known : forall tx, all_Get (tx_hash tx) (p_all p) = Some tx <-> located p true tx \/ located p false tx \/ tx ∈ X;
  pi_loose : forall tx, tx ∈ X -> in64 (tx_nonce tx) /\ exists a, tx_sender tx = Some a /\ a ∈ p_reserved p /\ forall s, item (lists s p) a (tx_nonce tx) = None;
  pi_distinct : NoDup (map (fun tx => (sender tx, tx_nonce tx)) X);
  pi_reserved : forall a, a ∈ p_reserved p <-> is_Some (p_pending p !! a) \/ is_Some (p_queue p !! a) \/ a ∈ R;
  pi_foreign : p_reserved p ## p_foreign p;
  pi_priced : priced_ok (p_all p) D (p_priced p);
  pi_events : map_Forall (fun _ x => sm_ok x) (p_events p)
}.

Definition pool_ok p : Prop := pool_inv [] None ∅ [] p.

(** What most operations leave alone. *)
Record same_env p p' : Prop := {
  se_config : p_config p' = p_config p;
  se_view : p_view p' = p_view p;
  se_gasTip : p_gasTip p' = p_gasTip p;
  se_locals : p_locals p' = p_locals p;
  se_foreign : p_foreign p' = p_foreign p
}.

#[export] Instance same_env_preorder : PreOrder same_env.
Proof. split; [by split|]. intros p q r [] []. split; congruence. Qed.

(** *** Items *)

Lemma item_insert m a l a' n : item (<[a := l]> m) a' n = if decide (a' = a) then items (txs l) !! n else item m a' n.
Proof. unfold item. case_decide as Hd; [subst; by rewrite lookup_insert_eq|by rewrite lookup_insert_ne by done]. Qed.

Lemma item_delete m a a' n : item (base.delete a m) a' n = if decide (a' = a) then None else item m a' n.
Proof. unfold item. case_decide as Hd; [subst; by rewrite lookup_delete_eq|by rewrite lookup_delete_ne by done]. Qed.

Lemma item_list m a l n : m !! a = Some l -> item m a n = items (txs l) !! n.
Proof. intros Hl. unfold item. by rewrite Hl. Qed.

Lemma lists_set s s' m p : lists s' (set_lists s m p) = if decide (s' = s) then m else lists s' p.
Proof. by destruct s, s'. Qed.

Lemma set_lists_env s m p : same_env p (set_lists s m p).
Proof. by destruct s. Qed.

Lemma located_set s m p s' tx : located (set_lists s m p) s' tx <-> if decide (s' = s) then exists a, tx_sender tx = Some a /\ item m a (tx_nonce tx) = Some tx else located p s' tx.
Proof. unfold located. rewrite lists_set. by case_decide. Qed.

Lemma sender_Some tx a : tx_sender tx = Some a -> sender tx = a.
Proof. unfold sender. by intros ->. Qed.

Section Moves.
Context {X D : list T} {E : option (bool * Z)} {R : gset Z} {p : LegacyPool T} (Hp : pool_inv X E R D p).

Lemma inv_apart s s' a n tx : item (lists s p) a n = Some tx -> s' <> s -> item (lists s' p) a n = None.
Proof. intros Hi Hs. destruct (pi_apart _ _ _ _ p Hp a n), s, s'; cbn in *; congruence. Qed.

Lemma inv_list s a l : lists s p !! a = Some l -> list_ok l.
Proof. apply (sd_list _ _ _ (pi_side _ _ _ _ p Hp s)). Qed.

Lemma inv_item s a n tx : item (lists s p) a n = Some tx -> tx_nonce tx = n /\ in64 n /\ tx_sender tx = Some a.
Proof.
  intros Hi. pose proof (sd_sender _ _ _ (pi_side _ _ _ _ p Hp s) a n tx Hi) as Hs. unfold item in Hi. destruct (lists s p !! a) as [l|] eqn:Hl; [|done]. cbn in Hi. destruct (ok_nonced l (inv_list s a l Hl) n tx Hi). done.
Qed.

Lemma inv_located s a n tx : item (lists s p) a n = Some tx -> located p s tx.
Proof. intros Hi. destruct (inv_item s a n tx Hi) as (Hn & _ & Ha). exists a. by rewrite Hn. Qed.

Lemma inv_reserved s a l : lists s p !! a = Some l -> a ∈ p_reserved p.
Proof. intros Hl. apply (pi_reserved _ _ _ _ p Hp). destruct s; cbn in Hl; rewrite Hl; eauto. Qed.

(** Only the listed fields matter. *)
Lemma inv_known s tx : located p s tx -> all_Get (tx_hash tx) (p_all p) = Some tx.
Proof. intros Hl. apply (pi_known _ _ _ _ p Hp). destruct s; auto. Qed.

Lemma other_lists s s' : s' <> s -> s' = negb s.
Proof. by destruct s, s'. Qed.

(** A change of the lists of one kind, and of what is known. *)
Lemma rebook s p' X' E' R' D' :
  (forall s', s' <> s -> lists s' p' = lists s' p) -> p_reserved p' = p_reserved p -> p_foreign p' = p_foreign p -> p_events p' = p_events p -> all_ok (p_all p') -> priced_ok (p_all p') D' (p_priced p') ->
  side_ok s E' (lists s p') -> (forall b l, lists (negb s) p !! b = Some l -> E' <> Some (negb s, b) -> items (txs l) <> ∅) ->
  (forall b n x, item (lists s p') b n = Some x -> item (lists (negb s) p) b n = None) ->
  (forall tx, all_Get (tx_hash tx) (p_all p') = Some tx <-> located p' s tx \/ located p (negb s) tx \/ tx ∈ X') ->
  (forall tx, tx ∈ X' -> in64 (tx_nonce tx) /\ exists a, tx_sender tx = Some a /\ a ∈ p_reserved p /\ item (lists s p') a (tx_nonce tx) = None /\ item (lists (negb s) p) a (tx_nonce tx) = None) ->
  NoDup (map (fun tx => (sender tx, tx_nonce tx)) X') ->
  (forall b, b ∈ p_reserved p <-> is_Some (lists s p' !! b) \/ is_Some (lists (negb s) p !! b) \/ b ∈ R') ->
  pool_inv X' E' R' D' p'.
Proof.
  intros Hl Hr Hf He Ha Hpr H1 H2 H3 H4 H5 H6 H7. destruct Hp as [P1 P2 P3 P4 P5 P6 P7 P8 P9 P10]. assert (Hn : negb s <> s) by (by destruct s). apply Hl in Hn as Ho.
  split; [| |done| | |done| |by rewrite Hr, Hf|done|by rewrite He].
  - intros s'. destruct (decide (s' = s)) as [-> |Hd]; [done|]. apply other_lists in Hd as ->. rewrite Ho. destruct (P1 (negb s)). by split.
  - intros b n. destruct (item (lists s p') b n) as [x|] eqn:Hx; [apply H3 in Hx; rewrite <- Ho in Hx|]; destruct s; auto.
  - intros tx. rewrite H4. unfold located at 2. rewrite <- Ho. fold (located p' (negb s) tx). destruct s; cbn [negb]; tauto.
  - intros tx Htx. destruct (H5 tx Htx) as (Hi & a & Ha' & Hr' & Hm & Hn'). split; [done|]. exists a. split; [done|]. split; [by rewrite Hr|]. intros s'. destruct (decide (s' = s)) as [-> |Hd]; [done|]. apply other_lists in Hd as ->. by rewrite Ho.
  - intros b. specialize (H7 b). rewrite Hr. rewrite <- Ho in H7. destruct s; cbn [lists negb] in *; tauto.
Qed.

(** The lists change and nothing else. *)
Lemma relist s m' X' E' R' : let p' := set_lists s m' p in
  side_ok s E' m' -> (forall b l, lists (negb s) p !! b = Some l -> E' <> Some (negb s, b) -> items (txs l) <> ∅) ->
  (forall b n x, item m' b n = Some x -> item (lists (negb s) p) b n = None) ->
  (forall tx, located p s tx \/ tx ∈ X <-> located p' s tx \/ tx ∈ X') ->
  (forall tx, tx ∈ X' -> in64 (tx_nonce tx) /\ exists a, tx_sender tx = Some a /\ a ∈ p_reserved p /\ item m' a (tx_nonce tx) = None /\ item (lists (negb s) p) a (tx_nonce tx) = None) ->
  NoDup (map (fun tx => (sender tx, tx_nonce tx)) X') ->
  (forall b, b ∈ p_reserved p <-> is_Some (m' !! b) \/ is_Some (lists (negb s) p !! b) \/ b ∈ R') ->
  pool_inv X' E' R' D p'.
Proof.
  intros p' H1 H2 H3 H4 H5 H6 H7. assert (Hm : lists s p' = m') by (unfold p'; by rewrite lists_set, decide_True). pose proof Hp as [P1 P2 P3 P4 P5 P6 P7 P8 P9 P10].
  apply (rebook s p'); rewrite ?Hm; try done; try (by destruct s).
  - intros s' Hs. unfold p'. by rewrite lists_set, decide_False.
  - intros tx. replace (p_all p') with (p_all p) by (unfold p'; by destruct s). rewrite P4. specialize (H4 tx). destruct s; cbn [negb]; tauto.
Qed.

(** Transactions leave a list. *)
Lemma take_out s a l out l' : E = None \/ E = Some (s, a) -> lists s p !! a = Some l -> took l out l' -> pool_inv (out ++ X) (Some (s, a)) R D (set_lists s (<[a := l']> (lists s p)) p).
Proof.
  intros HE Hl Ht. pose proof (inv_list s a l Hl) as Hok. pose proof Ht as [H1 H2 H3 H4].
  assert (Hout : forall tx, tx ∈ out -> tx_sender tx = Some a /\ item (lists s p) a (tx_nonce tx) = Some tx).
  { intros tx Hin. destruct (took_out l out l' tx Hok Ht Hin) as [Hx _]. rewrite <- (item_list _ _ _ _ Hl) in Hx. split; [by apply (inv_item s a _ tx Hx)|done]. }
  assert (Hsub : forall b n x, item (<[a := l']> (lists s p)) b n = Some x -> item (lists s p) b n = Some x).
  { intros b n x. rewrite item_insert. case_decide as Hd; [subst b|done]. rewrite (item_list _ _ _ _ Hl). intros Hx. by eapply lookup_weaken. }
  apply relist.
  - destruct (pi_side _ _ _ _ p Hp s) as [S1 S2 S3 S4]. split.
    + intros b l0. rewrite lookup_insert_Some. intros [[_ <-]|[_ Hb]]; [done|by eapply S1].
    + intros b l0. rewrite lookup_insert_Some. intros [[_ <-]|[_ Hb]]; [rewrite H2; by eapply S2|by eapply S2].
    + intros b n tx Hx. apply (S3 b n), Hsub, Hx.
    + intros b l0. rewrite lookup_insert_Some. intros [[-> <-]|[Hne Hb]] Hex; [done|]. apply (S4 b l0 Hb). destruct HE as [-> | ->]; [done|congruence].
  - intros b l0 Hb _. apply (sd_some _ _ _ (pi_side _ _ _ _ p Hp (negb s)) b l0 Hb). destruct HE as [-> | ->]; [done|]. intros [= Hs]. by destruct s.
  - intros b n x Hx. apply Hsub in Hx. eapply inv_apart; [exact Hx|]. by destruct s.
  - intros tx. rewrite located_set, decide_True, elem_of_app by done. split.
    + intros [(b & Hb & Hi)|]; [|tauto]. destruct (decide (b = a)) as [-> |Hne]; [|left; exists b; by rewrite item_insert, decide_False]. rewrite (item_list _ _ _ _ Hl) in Hi. destruct (took_back l out l' _ tx Hok Ht Hi); [tauto|]. left. exists a. by rewrite item_insert, decide_True.
    + intros [(b & Hb & Hi)|[Hin|]]; [left; exists b; eauto| |tauto]. left. destruct (Hout tx Hin). exists a. done.
  - intros tx [Hin|Hin]%elem_of_app.
    + destruct (Hout tx Hin) as [Hs Hi]. destruct (inv_item s a _ tx Hi) as (_ & Hn & _). split; [done|]. exists a. split; [done|]. split; [by eapply inv_reserved|]. split; [|eapply inv_apart; [exact Hi|by destruct s]].
      rewrite item_insert, decide_True by done. by apply (took_out l out l' tx Hok Ht Hin).
    + destruct (pi_loose _ _ _ _ p Hp tx Hin) as (Hn & b & Hb & Hr & Hi). split; [done|]. exists b. split; [done|]. split; [done|]. split; [|apply Hi]. destruct (item (<[a := l']> (lists s p)) b (tx_nonce tx)) eqn:Hx; [|done]. apply Hsub in Hx. by rewrite Hi in Hx.
  - rewrite map_app. apply list.NoDup_app. split; [|split; [|apply Hp]].
    + apply (NoDup_fmap_1 snd). rewrite <- list_fmap_compose. exact (took_nonces l out l' Hok Ht).
    + intros [b n] Hb Hb'. apply list_elem_of_fmap in Hb as (x & [= -> ->] & Hx), Hb' as (y & [= Hs Hn] & Hy). destruct (Hout x Hx) as [Hxs Hxi]. destruct (pi_loose _ _ _ _ p Hp y Hy) as (_ & c & Hc & _ & Hi).
      rewrite (sender_Some _ _ Hxs), (sender_Some _ _ Hc) in Hs. subst c. specialize (Hi s). rewrite <- Hn, Hxi in Hi. done.
  - intros b. rewrite (pi_reserved _ _ _ _ p Hp). rewrite lookup_insert_is_Some. assert (is_Some (lists s p !! b) <-> a = b \/ a <> b /\ is_Some (lists s p !! b)) as <- by (destruct (decide (a = b)) as [<- |]; [split; [auto|intros _; eauto]|tauto]). destruct s; cbn [lists negb]; tauto.
Qed.

End Moves.

(** *** Transactions come and go *)

Definition content m (a : Z) : gmap Z T := match m !! a with Some l => items (txs l) | None => ∅ end.

Lemma item_content m a n : item m a n = content m a !! n.
Proof. unfold item, content. destruct (m !! a); [done|]. by rewrite lookup_empty. Qed.

(** A list that has got one more transaction. *)
Record put m (a : Z) tx l' : Prop := {
  pu_sender : tx_sender tx = Some a;
  pu_ok : list_ok l';
  pu_items : items (txs l') = <[tx_nonce tx := tx]> (content m a)
}.

Lemma put_item m a tx l' b n : put m a tx l' -> item (<[a := l']> m) b n = if decide (b = a /\ n = tx_nonce tx) then Some tx else item m b n.
Proof.
  intros [H1 H2 H3]. rewrite item_insert. destruct (decide (b = a)) as [-> |Hb]; [|rewrite decide_False; [done|tauto]]. rewrite H3, (item_content m). destruct (decide (n = tx_nonce tx)) as [-> |Hn]; [by rewrite lookup_insert_eq, decide_True|].
  rewrite lookup_insert_ne by done. rewrite decide_False; [done|tauto].
Qed.

Lemma put_side s E m a tx l' : side_ok s E m -> put m a tx l' -> strict l' = s -> side_ok s E (<[a := l']> m).
Proof.
  intros [S1 S2 S3 S4] Hu Hs. pose proof Hu as [H1 H2 H3]. split.
  - intros b l. rewrite lookup_insert_Some. intros [[_ <-]|[_ Hb]]; [done|by eapply S1].
  - intros b l. rewrite lookup_insert_Some. intros [[_ <-]|[_ Hb]]; [done|by eapply S2].
  - intros b n x. rewrite (put_item m a tx l') by done. case_decide as Hd; [destruct Hd as [-> ->]; by intros [= <-]|apply S3].
  - intros b l. rewrite lookup_insert_Some. intros [[_ <-]|[_ Hb]] HE; [rewrite H3; apply insert_non_empty|by eapply S4].
Qed.

Lemma put_reserved (Y : Prop) m a l' (b : Z) : is_Some (<[a := l']> m !! b) \/ Y <-> a = b \/ is_Some (m !! b) \/ Y.
Proof. rewrite lookup_insert_is_Some. destruct (decide (a = b)); tauto. Qed.

Lemma located_put m p s a tx l' x : put (lists s p) a tx l' -> item (lists s p) a (tx_nonce tx) = None -> m = <[a := l']> (lists s p) ->
  (exists b, tx_sender x = Some b /\ item m b (tx_nonce x) = Some x) <-> located p s x \/ x = tx.
Proof.
  intros Hu Hn ->. setoid_rewrite (put_item _ a tx l' _ _ Hu). split.
  - intros (b & Hb & Hi). case_decide as Hd; [injection Hi as ->; by right|left; by exists b].
  - intros [(b & Hb & Hi)| ->]; [|exists a; split; [apply Hu|by rewrite decide_True]]. exists b. split; [done|]. rewrite decide_False; [done|]. intros [-> Heq]. by rewrite Heq, Hn in Hi.
Qed.

(** A loose transaction enters a list. *)
Lemma put_in X E R D p s a tx l' : pool_inv (tx :: X) E R D p -> put (lists s p) a tx l' -> strict l' = s -> pool_inv X E R D (set_lists s (<[a := l']> (lists s p)) p).
Proof.
  intros Hp Hu Hs. destruct (pi_loose _ _ _ _ p Hp tx) as (Hn & a' & Ha & Hr & Hfree); [set_solver|]. rewrite (pu_sender _ _ _ _ Hu) in Ha. injection Ha as <-. pose proof (pi_distinct _ _ _ _ p Hp) as Hd. cbn in Hd. apply list.NoDup_cons in Hd as [Hnew Hd].
  apply (relist Hp).
  - apply put_side with tx; [apply Hp|done|done].
  - intros b l Hb HE. by apply (sd_some _ _ _ (pi_side _ _ _ _ p Hp (negb s)) b l Hb).
  - intros b n x. rewrite (put_item _ a tx l') by done. case_decide as Hd'; [destruct Hd' as [-> ->]; intros _; apply Hfree|]. intros Hx. eapply inv_apart; [exact Hp|exact Hx|by destruct s].
  - intros x. rewrite located_set, decide_True by done. rewrite (located_put _ p s a tx l' x Hu (Hfree s) eq_refl). set_solver.
  - intros x Hx. destruct (pi_loose _ _ _ _ p Hp x) as (Hn' & b & Hb & Hr' & Hfree'); [set_solver|]. split; [done|]. exists b. split_and!; [done|done| |apply Hfree']. rewrite (put_item _ a tx l') by done. rewrite decide_False; [apply Hfree'|].
    intros [-> Heq]. apply Hnew. apply list_elem_of_fmap. exists x. split; [|done]. by rewrite Heq, (sender_Some _ _ Hb), (sender_Some _ _ (pu_sender _ _ _ _ Hu)).
  - done.
  - intros b. rewrite (pi_reserved _ _ _ _ p Hp). rewrite put_reserved. pose proof (pi_reserved _ _ _ _ p Hp a) as Ha. destruct s; cbn [lists negb]; split; [tauto| |tauto|]; intros [<- |]; tauto.
Qed.

(** A loose transaction is forgotten. *)
Lemma drop_loose X E R D p tx : pool_inv (tx :: X) E R D p -> pool_inv X E R D (set_all (all_Remove (tx_hash tx) (p_all p)) p).
Proof.
  intros Hp. pose proof Hp as [P1 P2 P3 P4 P5 P6 P7 P8 P9 P10]. cbn in P6. apply list.NoDup_cons in P6 as [Hnew Hd]. assert (Htx : all_Get (tx_hash tx) (p_all p) = Some tx) by (apply P4; set_solver).
  split; try done; cbn [p_all set_all].
  - by apply Remove_ok.
  - intros x. rewrite Remove_Get. destruct (P5 tx) as (_ & a & Ha & _ & Hfree); [set_solver|]. case_decide as He.
    + split; [done|]. intros Hx. exfalso. assert (Hk : all_Get (tx_hash x) (p_all p) = Some x) by (apply P4; set_solver). rewrite He, Htx in Hk. injection Hk as <-.
      destruct Hx as [(b & Hb & Hi)|[(b & Hb & Hi)|Hx]]; [| |apply Hnew, list_elem_of_fmap; by exists tx]; rewrite Ha in Hb; injection Hb as <-; [specialize (Hfree true)|specialize (Hfree false)]; cbn in Hfree, Hi; congruence.
    + rewrite P4. assert (x <> tx) by congruence. set_solver.
  - intros x Hx. apply P5. set_solver.
  - eapply priced_weaken; [exact P9| |done]. destruct (Remove_remotes (p_all p) (tx_hash tx)) as [-> |[-> _]]; [apply delete_subseteq|done].
Qed.

(** A new transaction enters a list, and the one with its nonce goes. *)
Lemma insert_new R D p p' s a tx l' local : pool_inv [] None R D p -> put (lists s p) a tx l' -> strict l' = s -> in64 (tx_nonce tx) -> a ∈ p_reserved p ->
  all_Get (tx_hash tx) (p_all p) = None -> item (lists (negb s) p) a (tx_nonce tx) = None ->
  (forall s', lists s' p' = if decide (s' = s) then <[a := l']> (lists s p) else lists s' p) -> p_reserved p' = p_reserved p -> p_foreign p' = p_foreign p -> p_events p' = p_events p ->
  p_all p' = all_Add tx local (match item (lists s p) a (tx_nonce tx) with Some old => all_Remove (tx_hash old) (p_all p) | None => p_all p end) -> priced_ok (p_all p') D (p_priced p') ->
  pool_inv [] None R D p'.
Proof.
  intros Hp Hu Hs Hn Hr Hnew Hfree Hl Hr' Hf' He' Hall Hpr. pose proof Hp as [P1 P2 P3 P4 P5 P6 P7 P8 P9 P10].
  set (all := match item _ _ _ with Some _ => _ | None => _ end) in Hall. assert (Hm : lists s p' = <[a := l']> (lists s p)) by (by rewrite Hl, decide_True).
  assert (Hget : forall x, all_Get (tx_hash x) all = Some x <-> all_Get (tx_hash x) (p_all p) = Some x /\ item (lists s p) a (tx_nonce tx) <> Some x).
  { intros x. unfold all. destruct (item (lists s p) a (tx_nonce tx)) as [old|] eqn:Ho; [|naive_solver]. pose proof (inv_known Hp s old (inv_located Hp s a _ old Ho)) as Hk. rewrite Remove_Get. case_decide as Hd; [|naive_solver]. rewrite Hd, Hk. naive_solver. }
  assert (Hok : all_ok all) by (unfold all; destruct (item (lists s p) a (tx_nonce tx)); [by apply Remove_ok|done]).
  assert (Hnone : all_Get (tx_hash tx) all = None) by (unfold all; destruct (item (lists s p) a (tx_nonce tx)); [rewrite Remove_Get; by case_decide|done]).
  apply (rebook Hp s p'); try done; rewrite ?Hm.
  - intros s' Hd. by rewrite Hl, decide_False.
  - rewrite Hall. by apply Add_ok.
  - apply put_side with tx; [apply P1|done|done].
  - intros b l Hb HE. by apply (sd_some _ _ _ (P1 (negb s)) b l Hb).
  - intros b n x. rewrite (put_item _ a tx l') by done. case_decide as Hd; [by destruct Hd as [-> ->]|]. intros Hx. eapply inv_apart; [exact Hp|exact Hx|by destruct s].
  - intros x. rewrite Hall, Add_Get by done. unfold located at 1. rewrite Hm. setoid_rewrite (put_item _ a tx l' _ _ Hu). case_decide as Hd.
    + split; [intros [= <-]; left; exists a; split; [apply Hu|by rewrite decide_True]|]. assert (Hno : ~ (located p s x \/ located p (negb s) x)).
      { intros Hx. assert (Hk : all_Get (tx_hash x) (p_all p) = Some x) by (apply P4; destruct s; tauto). by rewrite Hd, Hnew in Hk. }
      intros [(b & Hb & Hi)|[Hx|Hx]]; [|by destruct Hno; right|set_solver]. case_decide as Hd'; [done|]. destruct Hno. left. by exists b.
    + rewrite Hget, P4. assert (Hxt : x <> tx) by (intros ->; done). split.
      * intros [Hx Ho]. assert (Hx' : located p s x \/ located p (negb s) x) by (destruct s; set_solver). destruct Hx' as [(b & Hb & Hi)|]; [|tauto]. left. exists b. split; [done|]. rewrite decide_False; [done|]. intros [-> Heq]. by rewrite Heq in Hi.
      * intros [(b & Hb & Hi)|[Hx|Hx]]; [| |set_solver].
        -- case_decide as Hd'; [congruence|]. assert (Hx : located p s x) by (by exists b). split; [destruct s; auto|]. intros Ho. apply Hd'. destruct (inv_item Hp s a _ x Ho) as (? & _ & ?). split; congruence.
        -- split; [destruct s; auto|]. intros Ho. destruct Hx as (b & Hb & Hi). destruct (inv_item Hp s a _ x Ho) as (Hxn & _ & Hxs). rewrite Hxs in Hb. injection Hb as <-. rewrite Hxn, Hfree in Hi. done.
  - set_solver.
  - intros b. rewrite put_reserved. rewrite P7. pose proof (P7 a) as Ha. destruct s; cbn [lists negb]; split; [tauto| |tauto|]; intros [<- |]; tauto.
Qed.

(** A list that is settled: an empty one goes, and leaves its account without need. *)
Lemma settle_some X R D p s a l : pool_inv X (Some (s, a)) R D p -> lists s p !! a = Some l -> items (txs l) <> ∅ -> pool_inv X None R D p.
Proof.
  intros Hp Hl Hne. destruct Hp as [P1 P2 P3 P4 P5 P6 P7 P8 P9 P10]. split; try done. intros s'. destruct (P1 s') as [S1 S2 S3 S4]. split; [done|done|done|]. intros b l' Hb _.
  destruct (decide (s' = s /\ b = a)) as [[-> ->]|Hd]; [rewrite Hl in Hb; by injection Hb as <-|]. apply (S4 b l' Hb). intros [= -> ->]. by apply Hd.
Qed.

Lemma settle_empty X R D p s a l : pool_inv X (Some (s, a)) R D p -> lists s p !! a = Some l -> items (txs l) = ∅ -> pool_inv X None ({[a]} ∪ R) D (set_lists s (base.delete a (lists s p)) p).
Proof.
  intros Hp Hl Hem. assert (Hit : forall b n, item (base.delete a (lists s p)) b n = item (lists s p) b n).
  { intros b n. rewrite item_delete. case_decide as Hd; [|done]. subst b. by rewrite (item_list _ _ _ _ Hl), Hem, lookup_empty. }
  apply (relist Hp).
  - destruct (pi_side _ _ _ _ p Hp s) as [S1 S2 S3 S4]. split.
    + intros b l'. rewrite lookup_delete_Some. intros [_ Hb]. by eapply S1.
    + intros b l'. rewrite lookup_delete_Some. intros [_ Hb]. by eapply S2.
    + intros b n x. rewrite Hit. apply S3.
    + intros b l'. rewrite lookup_delete_Some. intros [Hab Hb] _. apply (S4 b l' Hb). congruence.
  - intros b l' Hb _. apply (sd_some _ _ _ (pi_side _ _ _ _ p Hp (negb s)) b l' Hb). intros [= Hs]. by destruct s.
  - intros b n x. rewrite Hit. intros Hx. eapply inv_apart; [exact Hp|exact Hx|by destruct s].
  - intros x. rewrite located_set, decide_True by done. unfold located. by setoid_rewrite Hit.
  - intros x Hx. destruct (pi_loose _ _ _ _ p Hp x Hx) as (Hn & b & Hb & Hr & Hfree). split; [done|]. exists b. rewrite Hit. auto.
  - apply Hp.
  - intros b. rewrite (pi_reserved _ _ _ _ p Hp). rewrite lookup_delete_is_Some, elem_of_union, elem_of_singleton. destruct (decide (a = b)) as [<- |]; [split; [tauto|intros _; destruct s; cbn in Hl; rewrite Hl; eauto]|destruct s; cbn [lists negb]; split; intuition congruence].
Qed.

(** An account without transactions is released. *)
Lemma release_ok E R D p a : pool_inv [] E ({[a]} ∪ R) D p -> exists p', release a p = Ret (tt, p') /\ pool_inv [] E (R ∖ {[a]}) D p' /\ same_env p p' /\ (forall s, lists s p' = lists s p) /\ p_all p' = p_all p.
Proof.
  intros Hp. pose proof Hp as [P1 P2 P3 P4 P5 P6 P7 P8 P9 P10]. unfold release, has. srun. destruct (bool_decide_reflect (is_Some (p_pending p !! a))) as [Ha|Ha]; [|destruct (bool_decide_reflect (is_Some (p_queue p !! a))) as [Hb|Hb]]; cbn [negb andb].
  - exists p. split_and!; [done| |done|done|done]. split; try done. intros b. rewrite P7. destruct (decide (b = a)) as [-> |]; set_solver.
  - exists p. split_and!; [done| |done|done|done]. split; try done. intros b. rewrite P7. destruct (decide (b = a)) as [-> |]; set_solver.
  - unfold unreserve. srun. rewrite bool_decide_eq_true_2 by (apply P7; set_solver). srun. eexists. split; [reflexivity|]. split_and!; [|done|done|done]. split; try done; cbn.
    + set_solver.
    + intros b. rewrite elem_of_difference, P7. destruct (decide (b = a)) as [-> |]; set_solver.
    + set_solver.
Qed.

End Invariant.
