(* ===== verification/PoolOperations.v ===== *)
(** * The operations of the transaction pool keep its books

    One lemma for each operation of TxPool: it returns, and the invariant holds after it
    with what is in hand accounted for. *)

From stdpp Require Import gmap sorting.
From S2P Require Import Prelude Heap TxList TxListTheorems TxPool PoolInvariant.

(** ** Runs that return *)

Section Runs.
Context {S : Type}.
Implicit Type s : S.

(** The computation returns, and its result and the state after it satisfy [Q]. *)
Definition ends {A} (m : M S A) s (Q : A -> S -> Prop) : Prop := exists a s', m s = Ret (a, s') /\ Q a s'.

Lemma ends_then {A B} (m : M S A) (k : A -> M S B) s Q : ends m s (fun a s' => ends (k a) s' Q) -> ends (mthen m k) s Q.
Proof. intros (a & s' & Hm & b & s'' & Hk & HQ). exists b, s''. split; [|done]. unfold mthen. by rewrite Hm. Qed.

Lemma ends_mono {A} (m : M S A) s (Q Q' : A -> S -> Prop) : ends m s Q -> (forall a s', Q a s' -> Q' a s') -> ends m s Q'.
Proof. intros (a & s' & Hm & HQ) HQQ. exists a, s'. auto. Qed.

Lemma ends_bind {A B} (m : M S A) (k : A -> M S B) s P Q : ends m s P -> (forall a s', P a s' -> ends (k a) s' Q) -> ends (mthen m k) s Q.
Proof. intros Hm Hk. apply ends_then. eapply ends_mono; [exact Hm|done]. Qed.

Lemma ends_then_inv {A B} (m : M S A) (k : A -> M S B) s Q : ends (mthen m k) s Q -> ends m s (fun a s' => ends (k a) s' Q).
Proof. intros (b & s' & Hm & HQ). apply mthen_Ret in Hm as (a & s1 & Hm & Hk). exists a, s1. split; [done|]. by exists b, s'. Qed.

Lemma ends_ret {A} (a : A) s (Q : A -> S -> Prop) : Q a s -> ends (mret a) s Q.
Proof. intros HQ. by exists a, s. Qed.

Lemma ends_get {A} (k : S -> M S A) s Q : ends (k s) s Q -> ends (mthen mget k) s Q.
Proof. intros Hk. apply ends_then. by exists s, s. Qed.

Lemma ends_modify f s (Q : unit -> S -> Prop) : Q tt (f s) -> ends (mmodify f) s Q.
Proof. intros HQ. by exists tt, (f s). Qed.

Lemma ends_lift {A} (o : outcome A) a s (Q : A -> S -> Prop) : o = Ret a -> Q a s -> ends (mlift o) s Q.
Proof. intros -> HQ. by exists a, s. Qed.

Lemma ends_lifted {A B} (o : outcome A) a (k : A -> M S B) s Q : o = Ret a -> ends (k a) s Q -> ends (mthen (mlift o) k) s Q.
Proof. intros Ho Hk. apply ends_then. by eapply ends_lift. Qed.

(** A loop that keeps an invariant of what is left to do. *)
Lemma ends_foreach {A} (f : A -> M S unit) (I : list A -> S -> Prop) l s : I l s -> (forall x l s, I (x :: l) s -> ends (f x) s (fun _ => I l)) -> ends (foreach l f) s (fun _ => I []).
Proof. revert s. induction l as [|x l IH]; intros s HI Hf; cbn; [by apply ends_ret|]. eapply ends_bind; [by apply Hf|]. intros [] s' HI'. by apply IH. Qed.

End Runs.

(** ** Moves of the pool *)

Section Operations.
Context {T : Type} {V : TxView T} `{!Inhabited T} {MO : MapOrder} {MS : MapOrderSpec MO}.
Implicit Types (p : LegacyPool T) (m : gmap Z (txlist T)) (l : txlist T) (tx : T) (s : bool) (X D : list T) (E : option (bool * Z)) (R : gset Z).

Definition known p : gmap Z T := lk_locals (p_all p) ∪ lk_remotes (p_all p).

(** The environment stays, and nothing new is known. *)
Record shrinks p p' : Prop := {
  sh_env : same_env p p';
  sh_known : known p' ⊆ known p
}.

#[export] Instance shrinks_preorder : PreOrder shrinks.
Proof. split; [by split|]. intros p q r [H1 H2] [H3 H4]. split; [by etrans|by etrans]. Qed.

Lemma known_Get p h : all_Get h (p_all p) = known p !! h.
Proof. apply Get_union. Qed.

Lemma known_Remove t h : lk_locals (all_Remove h t) ∪ lk_remotes (all_Remove h t) ⊆ lk_locals t ∪ lk_remotes t.
Proof. unfold all_Remove. destruct (all_Get h t); [|done]. cbn. rewrite <- delete_union. apply delete_subseteq. Qed.

(** A list operation on one side. *)
Definition on_side {A} s (a : Z) (m : M (txlist T) A) : M (LegacyPool T) A := if s then on_pending a m else on_queue a m.

Lemma on_side_Ret {A} s a (m : M (txlist T) A) p l x l' : lists s p !! a = Some l -> m l = Ret (x, l') -> on_side s a m p = Ret (x, set_lists s (<[a := l']> (lists s p)) p).
Proof. intros Hl Hm. destruct s; cbn in *; unfold on_pending, on_queue; rewrite Hl; cbn; by rewrite Hm. Qed.

Lemma set_lists_shrinks s m p : shrinks p (set_lists s m p).
Proof. by destruct s. Qed.

(** Removing a batch that a list has given up. *)
Lemma remove_all_ok X E R D out p : pool_inv (out ++ X) E R D p -> ends (remove_all out) p (fun _ p' => pool_inv X E R D p' /\ shrinks p p' /\ forall s, lists s p' = lists s p).
Proof.
  intros Hp. unfold remove_all. eapply ends_mono; [apply (ends_foreach _ (fun (r : list T) q => pool_inv (r ++ X) E R D q /\ shrinks p q /\ forall s, lists s q = lists s p))|by intros [] q]; [done|].
  intros tx r q (Hq & Hs & Hl). apply ends_modify. split_and!; [apply (drop_loose (r ++ X) E R D q tx Hq)| |done]. etrans; [exact Hs|]. split; [done|]. apply known_Remove.
Qed.

(** A loose transaction enters the list of its sender on one side. *)
Lemma put_loose s bump X E R D p tx a : pool_inv (tx :: X) E R D p -> tx_sender tx = Some a ->
  let q := if has a (lists s p) then p else set_lists s (<[a := newList s]> (lists s p)) p in
  ends (on_side s a (list_Add tx bump)) q (fun r p' => r = (true, None) /\ pool_inv X E R D p' /\ shrinks p p' /\ p_all p' = p_all p /\ (forall s', s' <> s -> lists s' p' = lists s' p) /\
    forall b n, item (lists s p') b n = if decide (b = a /\ n = tx_nonce tx) then Some tx else item (lists s p) b n).
Proof.
  intros Hp Ha q. destruct (pi_loose _ _ _ _ p Hp tx) as (Hn & a' & Ha' & _ & Hfree); [set_solver|]. rewrite Ha in Ha'. injection Ha' as <-. specialize (Hfree s).
  set (l := default (newList s) (lists s p !! a)). assert (Hq : lists s q !! a = Some l).
  { unfold q, l, has. destruct (lists s p !! a) as [l0|] eqn:Hl; [by rewrite bool_decide_eq_true_2 by eauto|]. rewrite bool_decide_eq_false_2 by (by intros []). rewrite lists_set, decide_True by done. apply lookup_insert_eq. }
  assert (Hl : list_ok l /\ strict l = s /\ items (txs l) = content (lists s p) a).
  { unfold l, content. destruct (lists s p !! a) as [l0|] eqn:Hl; cbn; [|split; [apply newList_ok|done]]. split_and!; [by eapply inv_list|by eapply (sd_strict _ _ _ (pi_side _ _ _ _ p Hp s))|done]. }
  destruct Hl as (Hok & Hst & Hit). destruct (add_put tx bump l Hok Hn) as (b & old & l' & Hr & Hok' & Hst' & Hb). rewrite item_content, <- Hit in Hfree. destruct b; [|destruct Hb as [_ [? ?]]; congruence]. destruct Hb as [Hit' ->]. rewrite Hfree in Hr.
  exists (true, None), (set_lists s (<[a := l']> (lists s p)) p). assert (Hu : put (lists s p) a tx l') by (split; [done|done|by rewrite Hit', Hit]). split.
  - rewrite (on_side_Ret s a _ q l _ l' Hq Hr). do 2 f_equal. unfold q. destruct (has a (lists s p)); [done|]. destruct s; cbn; unfold set_pending, set_queue; cbn; f_equal; apply insert_insert_eq.
  - split_and!; [done|apply (put_in X E R D p s a tx l' Hp Hu); congruence|apply set_lists_shrinks|by destruct s| |].
    + intros s' Hs. by rewrite lists_set, decide_False.
    + intros c n. rewrite lists_set, decide_True by done. by apply put_item.
Qed.

(** Heartbeats, virtual nonces and counters do not matter to the books. *)
Record same_books p p' : Prop := {
  sb_lists : forall s, lists s p' = lists s p;
  sb_all : p_all p' = p_all p;
  sb_reserved : p_reserved p' = p_reserved p;
  sb_foreign : p_foreign p' = p_foreign p;
  sb_priced : p_priced p' = p_priced p;
  sb_events : p_events p' = p_events p
}.

Lemma same_inv X E R D p p' : same_books p p' -> pool_inv X E R D p -> pool_inv X E R D p'.
Proof.
  intros [Hl Ha Hr Hf Hpr He] [P1 P2 P3 P4 P5 P6 P7 P8 P9 P10]. pose proof (Hl true) as Ht. pose proof (Hl false) as Hq. cbn in Ht, Hq. split; rewrite ?Ha, ?Hr, ?Hf, ?Hpr, ?He, ?Ht, ?Hq; try done.
  - intros s. by rewrite Hl.
  - intros tx. rewrite P4. unfold located. by rewrite !Hl.
  - intros tx Htx. destruct (P5 tx Htx) as (Hn & a & H1 & H2 & H3). split; [done|]. exists a. split_and!; [done|done|]. intros s. by rewrite Hl.
Qed.

Lemma shrinks_same p p' : same_env p p' -> p_all p' = p_all p -> shrinks p p'.
Proof. intros He Ha. split; [done|]. unfold known. by rewrite Ha. Qed.

(** What a transaction that moves leaves as it is. *)
Definition moved s tx (a : Z) p p' : Prop :=
  shrinks p p' /\ p_all p' = p_all p /\ (forall s', s' <> s -> lists s' p' = lists s' p) /\
  forall b n, item (lists s p') b n = if decide (b = a /\ n = tx_nonce tx) then Some tx else item (lists s p) b n.

Lemma moved_same s tx a p q p' : moved s tx a p q -> same_books q p' -> same_env q p' -> moved s tx a p p'.
Proof.
  intros (H1 & H2 & H3 & H4) Hb He. split_and!; [etrans; [exact H1|apply shrinks_same; [done|apply Hb]]|rewrite (sb_all _ _ Hb); done| |]; intros *; rewrite (sb_lists _ _ Hb); auto.
Qed.

Lemma enqueue_loose hash X E R D p tx a : pool_inv (tx :: X) E R D p -> tx_sender tx = Some a ->
  ends (enqueueTx hash tx false false) p (fun r p' => r = (false, None) /\ pool_inv X E R D p' /\ moved false tx a p p').
Proof.
  intros Hp Ha. unfold enqueueTx. rewrite (sender_Some tx a Ha). apply ends_get. apply ends_then.
  assert (Hq : ends (if has a (p_queue p) then mret tt else mmodify (set_queue (<[a := newList false]> (p_queue p)))) p (fun _ q => q = if has a (lists false p) then p else set_lists false (<[a := newList false]> (lists false p)) p)).
  { cbn [lists]. destruct (has a (p_queue p)); [by apply ends_ret|by apply ends_modify]. }
  eapply ends_mono; [exact Hq|]. intros _ q ->. apply ends_then. eapply ends_mono; [apply (put_loose false (PriceBump (p_config p)) X E R D p tx a Hp Ha)|]. intros r q (-> & Hinv & Hmoved). cbn [negb].
  apply ends_then, ends_ret, ends_then, ends_ret, ends_get, ends_then. assert (Hm : moved false tx a p q) by exact Hmoved.
  destruct (has a (p_beats q)); [apply ends_ret, ends_ret; done|]. apply ends_modify, ends_ret. split_and!; [done|apply (same_inv _ _ _ _ q); [by split|done]|apply (moved_same _ _ _ _ q); [done|by split|by split]].
Qed.

Lemma promote_loose X E R D p tx a hash : pool_inv (tx :: X) E R D p -> tx_sender tx = Some a ->
  ends (promoteTx a hash tx) p (fun r p' => r = true /\ pool_inv X E R D p' /\ moved true tx a p p').
Proof.
  intros Hp Ha. unfold promoteTx. apply ends_get. apply ends_then.
  assert (Hq : ends (if has a (p_pending p) then mret tt else mmodify (set_pending (<[a := newList true]> (p_pending p)))) p (fun _ q => q = if has a (lists true p) then p else set_lists true (<[a := newList true]> (lists true p)) p)).
  { cbn [lists]. destruct (has a (p_pending p)); [by apply ends_ret|by apply ends_modify]. }
  eapply ends_mono; [exact Hq|]. intros _ q ->. apply ends_then. eapply ends_mono; [apply (put_loose true (PriceBump (p_config p)) X E R D p tx a Hp Ha)|]. intros r q (-> & Hinv & Hmoved). cbn [negb].
  apply ends_then, ends_ret, ends_then. assert (Hm : moved true tx a p q) by exact Hmoved. eexists tt, _. split; [reflexivity|]. apply ends_then, ends_modify, ends_ret. split_and!; [done| |].
  - apply (same_inv _ _ _ _ q); [by split|done].
  - apply (moved_same _ _ _ _ q); [done|by split|by split].
Qed.

(** A batch of loose transactions goes back to the queue, or on to the pending ones. *)
Definition moves s p p' : Prop := shrinks p p' /\ p_all p' = p_all p /\ (forall s', s' <> s -> lists s' p' = lists s' p) /\ forall b n x, item (lists s p) b n = Some x -> item (lists s p') b n = Some x.

#[export] Instance moves_preorder s : PreOrder (moves s).
Proof.
  split; [by intros p; split_and!|]. intros p q r (H1 & H2 & H3 & H4) (H5 & H6 & H7 & H8). split_and!; [by etrans|congruence| |by auto]. intros s' Hs. by rewrite H7, H3.
Qed.

Lemma moved_moves s tx X E R D a p p' : pool_inv (tx :: X) E R D p -> tx_sender tx = Some a -> moved s tx a p p' -> moves s p p'.
Proof.
  intros Hp Ha (H1 & H2 & H3 & H4). split_and!; [done|done|done|]. intros b n x Hx. rewrite H4. case_decide as Hd; [|done]. destruct Hd as [-> ->]. destruct (pi_loose _ _ _ _ p Hp tx) as (_ & a' & Ha' & _ & Hfree); [set_solver|].
  rewrite Ha in Ha'. injection Ha' as <-. by rewrite Hfree in Hx.
Qed.

Lemma requeue_ok X E R D out p : pool_inv (out ++ X) E R D p -> ends (requeue out) p (fun _ p' => pool_inv X E R D p' /\ moves false p p').
Proof.
  intros Hp. unfold requeue. eapply ends_mono; [apply (ends_foreach _ (fun (r : list T) q => pool_inv (r ++ X) E R D q /\ moves false p q))|by intros [] q]; [done|].
  intros tx r q [Hq Hm]. destruct (pi_loose _ _ _ _ q Hq tx) as (_ & a & Ha & _); [set_solver|]. eapply ends_bind; [apply (enqueue_loose (tx_hash tx) (r ++ X) E R D q tx a Hq Ha)|]. intros ret q' (_ & Hq' & Hm'). apply ends_ret. split; [done|].
  etrans; [exact Hm|]. by eapply moved_moves.
Qed.

Lemma promote_txs_ok X E R D a out : forall p, pool_inv (out ++ X) E R D p -> Forall (fun tx => tx_sender tx = Some a) out -> ends (promote_txs a out) p (fun r p' => r = out /\ pool_inv X E R D p' /\ moves true p p').
Proof.
  induction out as [|tx out IH]; intros p Hp Hs; [by apply ends_ret|]. apply Forall_cons_1 in Hs as [Ha Hs]. cbn. eapply ends_bind; [apply (promote_loose (out ++ X) E R D p tx a _ Hp Ha)|]. intros ok q (-> & Hq & Hm).
  eapply ends_bind; [by apply IH|]. intros r q' (-> & Hq' & Hm'). apply ends_ret. split_and!; [done|done|]. etrans; [by eapply moved_moves|done].
Qed.

Lemma setIfLower_Ret a n t : exists x, noncer_setIfLower a n t = Ret (tt, x).
Proof. unfold noncer_setIfLower. srun. destruct (_ <=? n); eexists; reflexivity. Qed.

(** *** Removal *)

Lemma inv_reprice X E R D D' p p' : (forall s, lists s p' = lists s p) -> p_all p' = p_all p -> p_reserved p' = p_reserved p -> p_foreign p' = p_foreign p -> p_events p' = p_events p -> priced_ok (p_all p') D' (p_priced p') ->
  pool_inv X E R D p -> pool_inv X E R D' p'.
Proof.
  intros Hl Ha Hr Hf He Hpr [P1 P2 P3 P4 P5 P6 P7 P8 P9 P10]. pose proof (Hl true) as Ht. pose proof (Hl false) as Hq. cbn in Ht, Hq. split; rewrite ?Ha, ?Hr, ?Hf, ?He, ?Ht, ?Hq; try done; try (by rewrite <- Ha).
  - intros s. by rewrite Hl.
  - intros tx. rewrite P4. unfold located. by rewrite !Hl.
  - intros tx Htx. destruct (P5 tx Htx) as (Hn & a & H1 & H2 & H3). split; [done|]. exists a. split_and!; [done|done|]. intros s. by rewrite Hl.
Qed.

Lemma inv_spare X E R D p a : pool_inv X E R D p -> a ∈ p_reserved p -> pool_inv X E ({[a]} ∪ R) D p.
Proof. intros [P1 P2 P3 P4 P5 P6 P7 P8 P9 P10] Ha. split; try done. intros b. rewrite P7. destruct (decide (b = a)) as [-> |]; [apply P7 in Ha|]; set_solver. Qed.

(** A known transaction is taken from its list after the lookup has dropped it. *)
Lemma after_removal R D p q s a tx l out l' : pool_inv [] None R D p -> lists s p !! a = Some l -> took l (tx :: out) l' ->
  (forall s, lists s q = lists s p) -> p_all q = all_Remove (tx_hash tx) (p_all p) -> p_reserved q = p_reserved p -> p_foreign q = p_foreign p -> p_events q = p_events p -> priced_ok (p_all q) D (p_priced q) ->
  pool_inv out (Some (s, a)) R D (set_lists s (<[a := l']> (lists s q)) q).
Proof.
  intros Hp Hl Ht Hls Ha Hr Hf He Hpr. pose proof (take_out Hp s a l (tx :: out) l' (or_introl eq_refl) Hl Ht) as Hq. rewrite app_nil_r in Hq. apply drop_loose in Hq.
  eapply inv_reprice; [..|exact Hq]; [|destruct s; cbn in *; congruence|by destruct s|by destruct s|by destruct s|by destruct s].
  intros s'. rewrite lists_set. pose proof (Hls s') as Hs'. destruct s, s'; cbn in *; try done; by rewrite Hs'.
Qed.

(** The end of a removal: an empty list goes. *)
Lemma settle_ok s X R D p a l : pool_inv X (Some (s, a)) R D p -> lists s p !! a = Some l -> exists p', (if list_Empty l then p' = set_lists s (base.delete a (lists s p)) p else p' = p) /\
  pool_inv X None ({[a]} ∪ R) D p' /\ shrinks p p' /\ p_all p' = p_all p /\ (forall s', s' <> s -> lists s' p' = lists s' p) /\ forall b n, item (lists s p') b n = item (lists s p) b n.
Proof.
  intros Hp Hl. unfold list_Empty, list_Len, sm_Len. destruct (Z.eqb_spec (Z.of_nat (size (items (txs l)))) 0) as [He|He].
  - assert (Hem : items (txs l) = ∅) by (apply map_size_empty_iff; lia). eexists. split; [reflexivity|]. split; [by eapply settle_empty|]. split_and!; [apply set_lists_shrinks|by destruct s|intros s' Hs; by rewrite lists_set, decide_False|].
    intros b n. rewrite lists_set, decide_True by done. rewrite item_delete. case_decide as Hd; [subst b|done]. by rewrite (item_list _ _ _ _ Hl), Hem, lookup_empty.
  - exists p. split; [done|]. split; [|done]. apply inv_spare; [|by eapply inv_reserved]. apply (settle_some X R D p s a l Hp Hl). intros Hem. rewrite Hem, map_size_empty in He. done.
Qed.

(** What is left after a removal: without the transaction, and for a queued one the rest as
    it was. *)
Definition gone s tx (a : Z) p p' : Prop :=
  shrinks p p' /\ p_all p' = all_Remove (tx_hash tx) (p_all p) /\
  (s = false -> forall s' b n, item (lists s' p') b n = if decide (s' = false /\ b = a /\ n = tx_nonce tx) then None else item (lists s' p) b n).

Lemma remove_queued_ok R D p q a tx l : pool_inv [] None R D p -> lists false p !! a = Some l -> items (txs l) !! tx_nonce tx = Some tx ->
  (forall s, lists s q = lists s p) -> p_all q = all_Remove (tx_hash tx) (p_all p) -> p_reserved q = p_reserved p -> p_foreign q = p_foreign p -> p_events q = p_events p -> priced_ok (p_all q) D (p_priced q) -> same_env p q ->
  ends (remove_queued a tx) q (fun _ p' => pool_inv [] None ({[a]} ∪ R) D p' /\ gone false tx a p p').
Proof.
  intros Hp Hl Hx Hls Ha Hr Hf He Hpr Hse. pose proof (inv_list Hp false a l Hl) as Hok. destruct (remove_took tx l Hok Hx) as (out & l' & Hrm & Ht & Hnil & Hfree). rewrite (sd_strict _ _ _ (pi_side _ _ _ _ p Hp false) a l Hl) in Hnil. rewrite Hnil in Ht by done.
  pose proof (after_removal R D p q false a tx l [] l' Hp Hl Ht Hls Ha Hr Hf He Hpr) as Hq. unfold remove_queued. pose proof (Hls false) as Hlq. cbn in Hlq, Hl. assert (Hlq' : p_queue q !! a = Some l) by (by rewrite Hlq).
  apply ends_get. unfold has. rewrite bool_decide_eq_true_2 by (rewrite Hlq'; eauto). apply ends_then. eexists _, _. split; [exact (on_side_Ret false a _ q l _ l' Hlq' Hrm)|]. apply ends_get, ends_then. set (q1 := set_lists false _ q) in *.
  assert (Hl1 : lists false q1 !! a = Some l') by (unfold q1; cbn; apply lookup_insert_eq). destruct (settle_ok false [] R D q1 a l' Hq Hl1) as (p' & Hp' & Hinv & Hsh & Hall & Hoth & Hit).
  assert (Hg : gone false tx a p p').
  { split_and!.
    - etrans; [|exact Hsh]. split; [etrans; [exact Hse|apply set_lists_env]|]. unfold known. cbn. rewrite Ha. apply known_Remove.
    - by rewrite Hall.
    - intros _ s' b n. destruct s'; [rewrite Hoth by done; rewrite decide_False by (by intros []); exact (f_equal (fun m => item m b n) (Hls true))|]. rewrite Hit. unfold q1. cbn [lists set_lists p_queue set_queue]. rewrite item_insert, Hlq. destruct (decide (b = a)) as [-> |Hb].
      + rewrite (item_list _ _ _ _ Hl). destruct (decide (n = tx_nonce tx)) as [-> |Hn]; [rewrite decide_True by done; by apply (took_out l [tx] l' tx Hok Ht); set_solver|]. rewrite decide_False by (by intros (_ & _ & ?)). destruct (items (txs l) !! n) as [y|] eqn:Hy.
        * destruct (took_back l [tx] l' n y Hok Ht Hy) as [Hy'|]; [|done]. apply list_elem_of_singleton in Hy' as ->. destruct (ok_nonced l Hok n tx Hy). congruence.
        * destruct (items (txs l') !! n) eqn:Hy'; [|done]. by rewrite (lookup_weaken _ _ _ _ Hy' (tk_sub _ _ _ Ht)) in Hy.
      + rewrite decide_False; [done|]. by intros (_ & ? & _). }
  cbn [lists] in Hl1. rewrite Hl1. destruct (list_Empty l'); [|subst p'; apply ends_ret, ends_ret; done]. apply ends_modify, ends_ret. subst p'. split; [eapply same_inv; [|exact Hinv]; by split|].
  destruct Hg as (G1 & G2 & G3). split_and!; [|exact G2|exact G3]. etrans; [exact G1|]. by split.
Qed.

Lemma located_list p s tx : located p s tx -> exists a l, tx_sender tx = Some a /\ lists s p !! a = Some l /\ items (txs l) !! tx_nonce tx = Some tx.
Proof. intros (a & Ha & Hi). unfold item in Hi. destruct (lists s p !! a) as [l|] eqn:Hl; [|done]. eauto. Qed.

(** A list whose contents stay. *)
Lemma untouched R D p s a l l' : pool_inv [] None R D p -> lists s p !! a = Some l -> took l [] l' -> items (txs l') = items (txs l) ->
  let p' := set_lists s (<[a := l']> (lists s p)) p in pool_inv [] None R D p' /\ forall s' b n, item (lists s' p') b n = item (lists s' p) b n.
Proof.
  intros Hp Hl Ht Hit p'. split.
  - pose proof (take_out Hp s a l [] l' (or_introl eq_refl) Hl Ht) as Hq. apply (settle_some [] R D p' s a l' Hq); [unfold p'; rewrite lists_set, decide_True by done; apply lookup_insert_eq|]. rewrite Hit. by apply (sd_some _ _ _ (pi_side _ _ _ _ p Hp s) a l Hl).
  - intros s' b n. unfold p'. rewrite lists_set. case_decide as Hs; [subst s'|done]. rewrite item_insert. case_decide as Hb; [subst b|done]. by rewrite Hit, (item_list _ _ _ _ Hl).
Qed.

(** The lookup has dropped a transaction that a list still has. *)
Record half_removed D tx p q : Prop := {
  hr_lists : forall s, lists s q = lists s p;
  hr_all : p_all q = all_Remove (tx_hash tx) (p_all p);
  hr_reserved : p_reserved q = p_reserved p;
  hr_foreign : p_foreign q = p_foreign p;
  hr_events : p_events q = p_events p;
  hr_priced : priced_ok (p_all q) D (p_priced q);
  hr_env : same_env p q
}.

Lemma remove_from_queue R D p q a tx : pool_inv [] None R D p -> located p false tx -> tx_sender tx = Some a -> half_removed D tx p q ->
  ends (remove_listed a tx) q (fun _ p' => pool_inv [] None ({[a]} ∪ R) D p' /\ gone false tx a p p').
Proof.
  intros Hp Hloc Ha [Hls Hall Hr Hf He Hpr Hse]. destruct (located_list p false tx Hloc) as (a' & l & Ha' & Hl & Hx). rewrite Ha in Ha'. injection Ha' as <-. unfold remove_listed. apply ends_get. unfold has. destruct (p_pending q !! a) as [l2|] eqn:Hl2.
  - rewrite bool_decide_eq_true_2 by eauto. pose proof (Hls true) as Hlt. cbn in Hlt. assert (Hl2' : lists true p !! a = Some l2) by (cbn; by rewrite <- Hlt).
    assert (Hn2 : items (txs l2) !! tx_nonce tx = None) by (rewrite <- (item_list _ _ _ _ Hl2'); eapply (inv_apart Hp false true); [rewrite (item_list _ _ _ _ Hl); exact Hx|done]).
    destruct (remove_none tx l2 (inv_list Hp true a l2 Hl2') Hn2) as (l2' & Hrm & Ht2 & Hit2). apply ends_then. eexists _, _. split; [exact (on_side_Ret true a _ q l2 _ l2' Hl2 Hrm)|]. cbn [fst snd].
    destruct (untouched R D p true a l2 l2' Hp Hl2' Ht2 Hit2) as [Hp2 Hitems]. set (p2 := set_lists true _ p) in *. set (q2 := set_lists true _ q).
    eapply ends_mono; [apply (remove_queued_ok R D p2 q2 a tx l Hp2); try done; [|by split; destruct Hse]|].
    + intros s. unfold p2, q2. rewrite !lists_set. case_decide; [by rewrite Hls|apply Hls].
    + intros n p' [Hinv (G1 & G2 & G3)]. split; [done|]. split_and!; [etrans; [|exact G1]; apply set_lists_shrinks|exact G2|]. intros Hs s' b k. rewrite (G3 Hs), Hitems. done.
  - rewrite bool_decide_eq_false_2 by (by intros []). by apply (remove_queued_ok R D p q a tx l).
Qed.

Lemma remove_from_pending R D p q a tx : pool_inv [] None R D p -> located p true tx -> tx_sender tx = Some a -> half_removed D tx p q ->
  ends (remove_listed a tx) q (fun _ p' => pool_inv [] None ({[a]} ∪ R) D p' /\ gone true tx a p p').
Proof.
  intros Hp Hloc Ha [Hls Hall Hr Hf He Hpr Hse]. destruct (located_list p true tx Hloc) as (a' & l & Ha' & Hl & Hx). rewrite Ha in Ha'. injection Ha' as <-. pose proof (Hls true) as Hlt. cbn in Hlt, Hl. assert (Hlq : p_pending q !! a = Some l) by (by rewrite Hlt).
  destruct (remove_took tx l (inv_list Hp true a l Hl) Hx) as (out & l' & Hrm & Ht & _ & _). pose proof (after_removal R D p q true a tx l out l' Hp Hl Ht Hls Hall Hr Hf He Hpr) as Hq.
  unfold remove_listed. apply ends_get. unfold has. rewrite bool_decide_eq_true_2 by (rewrite Hlq; eauto). apply ends_then. eexists _, _. split; [exact (on_side_Ret true a _ q l _ l' Hlq Hrm)|]. apply ends_get, ends_then. set (q1 := set_lists true _ q) in *.
  assert (Hl1 : lists true q1 !! a = Some l') by (unfold q1; cbn; apply lookup_insert_eq). destruct (settle_ok true out R D q1 a l' Hq Hl1) as (p1 & Hp1 & Hinv & Hsh & Hall1 & _).
  assert (Hrun : ends (match p_pending q1 !! a with Some l => if list_Empty l then mmodify (fun p => set_pending (base.delete a (p_pending p)) p) else mret tt | None => mret tt end) q1 (fun _ p' => p' = p1)).
  { cbn [lists] in Hl1. rewrite Hl1. destruct (list_Empty l'); subst p1; [by apply ends_modify|by apply ends_ret]. }
  eapply ends_mono; [exact Hrun|]. intros _ ? ->. apply ends_then. rewrite <- (app_nil_r out) in Hinv. eapply ends_mono; [apply (requeue_ok _ _ _ _ out p1 Hinv)|]. intros _ p2 [Hinv2 (M1 & M2 & _)]. apply ends_then.
  assert (Hg : gone true tx a p p2).
  { split_and!; [|rewrite M2, Hall1; cbn; done|done]. etrans; [|exact M1]. etrans; [|exact Hsh]. split; [etrans; [exact Hse|apply set_lists_env]|]. unfold known. cbn. rewrite Hall. apply known_Remove. }
  destruct (setIfLower_Ret a (tx_nonce tx) (p_nonces p2)) as [x Hn]. exists tt, (set_nonces x p2). unfold on_nonces. rewrite Hn. split; [done|].
  apply ends_ret. split; [eapply same_inv; [|exact Hinv2]; by split|]. destruct Hg as (G1 & G2 & G3). split_and!; [etrans; [exact G1|by split]|done|done].
Qed.

(** [removeTx] takes a known transaction out of all the books; the account is released if
    that is asked for. *)
Lemma removeTx_ok R D p a tx s outofbound un : pool_inv [] None R D p -> located p s tx -> tx_sender tx = Some a ->
  ends (removeTx (tx_hash tx) outofbound un) p (fun _ p' => pool_inv [] None (if un then R ∖ {[a]} else {[a]} ∪ R) D p' /\ gone s tx a p p').
Proof.
  intros Hp Hloc Ha. unfold removeTx. apply ends_get. rewrite (inv_known Hp s tx Hloc), (sender_Some _ _ Ha). apply ends_then, ends_modify, ends_then. set (q := set_all _ p).
  assert (Hq : ends (if outofbound then on_priced (priced_Removed 1) else mret tt) q (fun _ q' => half_removed D tx p q')).
  { assert (Hpr : priced_ok (p_all q) D (p_priced q)) by (eapply priced_weaken; [apply Hp| |done]; cbn; destruct (Remove_remotes (p_all p) (tx_hash tx)) as [-> |[-> _]]; [apply delete_subseteq|done]).
    destruct outofbound; [|by apply ends_ret; split]. destruct (removed_ok (p_all q) D (p_priced q) 1 Hpr) as (pl & Hr & Hok). unfold on_priced. eexists tt, _. rewrite Hr. split; [reflexivity|]. by split. }
  eapply ends_mono; [exact Hq|]. intros [] q' Hh. apply ends_then.
  eapply ends_mono; [destruct s; [by apply (remove_from_pending R D p q' a tx)|by apply (remove_from_queue R D p q' a tx)]|]. intros n p' [Hinv Hg]. apply ends_then. destruct un; [|by apply ends_ret, ends_ret].
  destruct (release_ok None R D p' a Hinv) as (p'' & Hrel & Hinv'' & Hse & Hls & Hall). exists tt, p''. split; [exact Hrel|]. apply ends_ret. split; [done|]. destruct Hg as (G1 & G2 & G3). split_and!; [etrans; [exact G1|by apply shrinks_same]|congruence|]. intros Hs s' b k. rewrite Hls. by apply G3.
Qed.

Lemma removeTx_any R D p h outofbound (un : bool) : pool_inv [] None R D p -> (forall tx, all_Get h (p_all p) = Some tx -> if un then sender tx ∉ R else sender tx ∈ R) ->
  ends (removeTx h outofbound un) p (fun _ p' => pool_inv [] None R D p' /\ shrinks p p' /\ p_all p' = all_Remove h (p_all p)).
Proof.
  intros Hp Hun. destruct (all_Get h (p_all p)) as [tx|] eqn:Hh.
  - specialize (Hun tx eq_refl). pose proof (lk_key _ (pi_all _ _ _ _ p Hp) h tx Hh) as <-. apply (pi_known _ _ _ _ p Hp) in Hh. assert (Hloc : exists s, located p s tx) by (destruct Hh as [|[|]]; [eauto|eauto|set_solver]). destruct Hloc as [s Hloc]. pose proof Hloc as (a & Ha & _).
    rewrite (sender_Some _ _ Ha) in Hun. eapply ends_mono; [by apply (removeTx_ok R D p a tx s)|]. intros n p' [Hinv (G1 & G2 & _)]. split_and!; [|done|done]. destruct un; [by replace R with (R ∖ {[a]}) by set_solver|by replace R with ({[a]} ∪ R) by set_solver].
  - unfold removeTx. apply ends_get. rewrite Hh. apply ends_ret. split_and!; [done|done|]. unfold all_Remove. by rewrite Hh.
Qed.

Lemma drop_txs_ok D p outofbound out : pool_inv [] None ∅ D p -> ends (drop_txs outofbound out) p (fun _ p' => pool_inv [] None ∅ D p' /\ shrinks p p').
Proof.
  intros Hp. unfold drop_txs. eapply ends_mono; [apply (ends_foreach _ (fun (_ : list T) q => pool_inv [] None ∅ D q /\ shrinks p q))|by intros [] q]; [done|]. intros tx r q [Hq Hs]. eapply ends_bind; [apply (removeTx_any ∅ D q); [done|set_solver]|].
  intros n q' (Hq' & Hs' & _). apply ends_ret. split; [done|]. by etrans.
Qed.

(** *** Promotion *)

(** Taking transactions from a list, in the middle of an operation. *)
Lemma take_run {A} s a (m : M (txlist T) A) X E R D p l x out l' : pool_inv X E R D p -> E = None \/ E = Some (s, a) -> lists s p !! a = Some l -> m l = Ret (x, l') -> took l out l' ->
  ends (on_side s a m) p (fun r p' => r = x /\ pool_inv (out ++ X) (Some (s, a)) R D p' /\ shrinks p p' /\ p_all p' = p_all p /\ lists s p' = <[a := l']> (lists s p) /\ forall s', s' <> s -> lists s' p' = lists s' p).
Proof.
  intros Hp HE Hl Hm Ht. exists x. eexists. split; [by eapply on_side_Ret|]. split_and!; [done|by eapply take_out|apply set_lists_shrinks|by destruct s|by rewrite lists_set, decide_True|]. intros s' Hs. by rewrite lists_set, decide_False.
Qed.

Lemma noncer_get_Ret a t : exists n x, noncer_get a t = Ret (n, x).
Proof. unfold noncer_get. srun. eexists _, _. reflexivity. Qed.

Lemma on_nonces_ok {A} (m : M noncer A) X E R D p : (exists n x, m (p_nonces p) = Ret (n, x)) -> pool_inv X E R D p ->
  ends (on_nonces m) p (fun _ p' => pool_inv X E R D p' /\ shrinks p p' /\ (forall s, lists s p' = lists s p) /\ p_all p' = p_all p).
Proof. intros (n & x & Hm) Hp. exists n, (set_nonces x p). unfold on_nonces. rewrite Hm. split; [done|]. split_and!; [eapply same_inv; [|exact Hp]; by split|by split|done|done]. Qed.

Lemma on_priced_ok X E R D D' p (m : lookup T -> M (pricedList T) unit) : pool_inv X E R D p -> (exists pl, m (p_all p) (p_priced p) = Ret (tt, pl) /\ priced_ok (p_all p) D' pl) ->
  ends (on_priced m) p (fun _ p' => pool_inv X E R D' p' /\ shrinks p p' /\ (forall s, lists s p' = lists s p) /\ p_all p' = p_all p).
Proof. intros Hp (pl & Hm & Hok). exists tt, (set_priced pl p). unfold on_priced. rewrite Hm. split; [done|]. split_and!; [eapply inv_reprice; [..|exact Hp]; done|by split|done|done]. Qed.

(** A queue is settled at the end of [promoteExecutables]; the account may be released. *)
Lemma settle_queue D p a l : pool_inv [] (Some (false, a)) ∅ D p -> p_queue p !! a = Some l ->
  ends (if list_Empty l then mmodify (fun p => set_beats (base.delete a (p_beats p)) (set_queue (base.delete a (p_queue p)) p)) ;;; (if has a (p_pending p) then mret tt else let* _ := unreserve a in mret tt) else mret tt) p
    (fun _ p' => pool_inv [] None ∅ D p' /\ shrinks p p' /\ p_pending p' = p_pending p).
Proof.
  intros Hp Hl. destruct (settle_ok false [] ∅ D p a l Hp Hl) as (p1 & Hp1 & Hinv & Hsh & Hall & Hoth & _). destruct (list_Empty l) eqn:He.
  - apply ends_then, ends_modify. set (q := set_beats _ _). assert (Hq : pool_inv [] None ({[a]} ∪ ∅) D q) by (eapply same_inv; [|exact Hinv]; subst p1; by split). destruct (release_ok None ∅ D q a Hq) as (p' & Hr & Hinv' & Hse & Hls & Hall').
    exists tt, p'. split; [|split_and!; [by replace (∅ : gset Z) with ((∅ : gset Z) ∖ {[a]}) by set_solver|apply shrinks_same; [etrans; [|exact Hse]; by split|by rewrite Hall']|exact (Hls true)]].
    revert Hr. unfold release, has. srun. cbn [p_pending p_queue q set_beats set_queue]. rewrite lookup_delete_eq. rewrite (bool_decide_eq_false_2 (is_Some None)) by (by intros []). cbn [negb]. rewrite andb_true_r. by destruct (bool_decide (is_Some (p_pending p !! a))).
  - subst p1. apply ends_ret. split_and!; [|done|done]. apply (settle_some [] ∅ D p false a l Hp Hl). intros Hem. unfold list_Empty, list_Len, sm_Len in He. by rewrite Hem, map_size_empty in He.
Qed.

(** Settings that [sanitize] gives, within the machine's integers. *)
Record config_ok (c : Config) : Prop := {
  co_slots : 1 <= AccountSlots c < 2 ^ 63;
  co_queue : 1 <= AccountQueue c < 2 ^ 63;
  co_global : 1 <= GlobalSlots c;
  co_future : 1 <= GlobalQueue c;
  co_total : GlobalSlots c + GlobalQueue c < 2 ^ 63
}.

Lemma took_sender X E R D p s a l out l' tx : pool_inv X E R D p -> lists s p !! a = Some l -> took l out l' -> tx ∈ out -> in64 (tx_nonce tx) /\ tx_sender tx = Some a.
Proof.
  intros Hp Hl Ht Hin. destruct (took_out l out l' tx (inv_list Hp s a l Hl) Ht Hin) as [Hx _]. rewrite <- (item_list _ _ _ _ Hl) in Hx. by destruct (inv_item Hp s a _ tx Hx) as (_ & ? & ?).
Qed.

Lemma promote_account_ok D p a : pool_inv [] None ∅ D p -> config_ok (p_config p) -> ends (promote_account a) p (fun r p' => pool_inv [] None ∅ D p' /\ shrinks p p' /\ Forall (fun tx => in64 (tx_nonce tx)) r).
Proof.
  intros Hp Hc. unfold promote_account. apply ends_get. unfold has at 1. destruct (p_queue p !! a) as [l|] eqn:Hl; [|rewrite bool_decide_eq_false_2 by (by intros []); by apply ends_ret]. rewrite bool_decide_eq_true_2 by eauto. cbn [negb].
  destruct (forward_took (v_nonce (p_view p) a) l (inv_list Hp false a l Hl)) as (out1 & l1 & Hr1 & Ht1 & _). eapply ends_bind; [apply (take_run false a _ [] None ∅ D p l _ out1 l1 Hp (or_introl eq_refl) Hl Hr1 Ht1)|]. intros ? p1 (-> & H1 & Hs1 & _ & Hl1 & _).
  eapply ends_bind; [apply (remove_all_ok [] _ _ _ out1 p1 H1)|]. intros _ p2 (H2 & Hs2 & Hl2). assert (Hq2 : lists false p2 !! a = Some l1) by (rewrite Hl2, Hl1; apply lookup_insert_eq).
  destruct (filter_took (v_balance (p_view p) a) (v_gasLimit (p_view p)) l1 (inv_list H2 false a l1 Hq2)) as (drops & invalids & l3 & Hr3 & Ht3 & Hinv3 & _). rewrite Hinv3 in Hr3, Ht3 by (by apply (sd_strict _ _ _ (pi_side _ _ _ _ p2 H2 false) a)). rewrite app_nil_r in Ht3.
  eapply ends_bind; [apply (take_run false a _ [] _ ∅ D p2 l1 _ drops l3 H2 (or_intror eq_refl) Hq2 Hr3 Ht3)|]. intros ? p3 (-> & H3 & Hs3 & _ & Hl3 & _). cbn [fst snd].
  eapply ends_bind; [apply (remove_all_ok [] _ _ _ drops p3 H3)|]. intros _ p4 (H4 & Hs4 & Hl4). assert (Hq4 : lists false p4 !! a = Some l3) by (rewrite Hl4, Hl3; apply lookup_insert_eq).
  eapply ends_bind; [apply (on_nonces_ok _ [] _ ∅ D p4 (noncer_get_Ret a _) H4)|]. intros next p5 (H5 & Hs5 & Hl5 & _). assert (Hq5 : lists false p5 !! a = Some l3) by (by rewrite Hl5).
  destruct (ready_took next l3 (inv_list H5 false a l3 Hq5)) as (readies & l6 & Hr6 & Ht6). eapply ends_bind; [apply (take_run false a _ [] _ ∅ D p5 l3 _ readies l6 H5 (or_intror eq_refl) Hq5 Hr6 Ht6)|]. intros ? p6 (-> & H6 & Hs6 & _ & Hl6 & _).
  assert (Hsend : forall tx, tx ∈ readies -> in64 (tx_nonce tx) /\ tx_sender tx = Some a) by (intros tx Hin; exact (took_sender _ _ _ _ p5 false a l3 readies l6 tx H5 Hq5 Ht6 Hin)).
  eapply ends_bind; [apply (promote_txs_ok [] _ ∅ D a readies p6 H6); apply Forall_forall; intros tx Hin%list_elem_of_In; by apply Hsend|]. intros ? p7 (-> & H7 & (Hs7 & _ & Hl7 & _)). assert (Hq7 : lists false p7 !! a = Some l6) by (rewrite Hl7 by done; rewrite Hl6; apply lookup_insert_eq).
  assert (Hcap : ends (if bool_decide (a ∈ p_locals p) then mret [] else let* caps := on_queue a (list_Cap (int64_of (AccountQueue (p_config p)))) in remove_all caps ;;; mret caps) p7 (fun _ p8 => exists l8, pool_inv [] (Some (false, a)) ∅ D p8 /\ shrinks p7 p8 /\ lists false p8 !! a = Some l8)).
  { case_bool_decide; [apply ends_ret; by exists l6|]. destruct (cap_took (int64_of (AccountQueue (p_config p))) l6 (inv_list H7 false a l6 Hq7)) as (caps & l8 & Hr8 & Ht8 & _); [destruct Hc; rewrite int64_of_small; lia|].
    eapply ends_bind; [apply (take_run false a _ [] _ ∅ D p7 l6 _ caps l8 H7 (or_intror eq_refl) Hq7 Hr8 Ht8)|]. intros ? p8 (-> & H8 & Hs8 & _ & Hl8 & _). eapply ends_bind; [apply (remove_all_ok [] _ _ _ caps p8 H8)|]. intros _ p9 (H9 & Hs9 & Hl9).
    apply ends_ret. exists l8. split_and!; [done|by etrans|]. rewrite Hl9, Hl8. apply lookup_insert_eq. }
  eapply ends_bind; [exact Hcap|]. intros caps p8 (l8 & H8 & Hs8 & Hq8). eapply ends_bind; [apply (on_priced_ok _ _ _ D D p8 _ H8); apply removed_ok, H8|]. intros _ p9 (H9 & Hs9 & Hl9 & _). apply ends_get. assert (Hq9 : p_queue p9 !! a = Some l8) by (rewrite <- Hq8; exact (f_equal (.!! a) (Hl9 false))).
  rewrite Hq9. eapply ends_bind; [apply (settle_queue D p9 a l8 H9 Hq9)|]. intros _ p10 (H10 & Hs10 & _). apply ends_ret. split_and!; [done| |apply Forall_forall; intros tx Hin%list_elem_of_In; by apply Hsend].
  do 9 (etrans; [eassumption|]). done.
Qed.

Lemma promote_ok D accounts : forall p, pool_inv [] None ∅ D p -> config_ok (p_config p) -> ends (promoteExecutables accounts) p (fun r p' => pool_inv [] None ∅ D p' /\ shrinks p p' /\ Forall (fun tx => in64 (tx_nonce tx)) r).
Proof.
  induction accounts as [|a accounts IH]; intros p Hp Hc; [by apply ends_ret|]. cbn. eapply ends_bind; [by apply promote_account_ok|]. intros r q (Hq & Hs & Hr). eapply ends_bind; [apply IH; [done|by rewrite (se_config _ _ (sh_env _ _ Hs))]|].
  intros r' q' (Hq' & Hs' & Hr'). apply ends_ret. split_and!; [done|by etrans|by apply Forall_app].
Qed.

(** *** Demotion *)

(** The transactions of an account can be executed from the nonce of the state on. *)
Definition executable_items (v : chain_view) (a : Z) (it : gmap Z T) : Prop :=
  map_Forall (fun n tx => v_nonce v a <= n /\ tx_cost tx <= v_balance v a /\ tx_gas tx <= v_gasLimit v) it /\ is_Some (it !! v_nonce v a).

Definition executable v a p : Prop := forall l, p_pending p !! a = Some l -> executable_items v a (items (txs l)).

(** A pending list is settled at the end of [demoteUnexecutables]. *)
Lemma settle_pending D p a l : pool_inv [] (Some (true, a)) ∅ D p -> p_pending p !! a = Some l ->
  ends (if list_Empty l then mmodify (fun p => set_pending (base.delete a (p_pending p)) p) ;;; (if has a (p_queue p) then mret tt else let* _ := unreserve a in mret tt) else mret tt) p
    (fun _ p' => pool_inv [] None ∅ D p' /\ shrinks p p' /\ p_pending p' = if list_Empty l then base.delete a (p_pending p) else p_pending p).
Proof.
  intros Hp Hl. destruct (settle_ok true [] ∅ D p a l Hp Hl) as (p1 & Hp1 & Hinv & Hsh & Hall & Hoth & _). destruct (list_Empty l) eqn:He.
  - apply ends_then, ends_modify. set (q := set_pending _ p). assert (Hq : pool_inv [] None ({[a]} ∪ ∅) D q) by (by subst p1). destruct (release_ok None ∅ D q a Hq) as (p' & Hr & Hinv' & Hse & Hls & Hall').
    exists tt, p'. split; [|split_and!; [by replace (∅ : gset Z) with ((∅ : gset Z) ∖ {[a]}) by set_solver|apply shrinks_same; [etrans; [|exact Hse]; by split|by rewrite Hall']|exact (Hls true)]].
    revert Hr. unfold release, has. srun. cbn [p_pending p_queue q set_pending]. rewrite lookup_delete_eq. rewrite (bool_decide_eq_false_2 (is_Some None)) by (by intros []). cbn [negb andb]. by destruct (bool_decide (is_Some (p_queue p !! a))).
  - subst p1. apply ends_ret. split_and!; [|done|done]. apply (settle_some [] ∅ D p true a l Hp Hl). intros Hem. unfold list_Empty, list_Len, sm_Len in He. by rewrite Hem, map_size_empty in He.
Qed.

Lemma map_Forall_sub {A} (P : Z -> A -> Prop) (it it' : gmap Z A) : it' ⊆ it -> map_Forall P it -> map_Forall P it'.
Proof. intros Hs HP k x Hx. apply HP. by eapply lookup_weaken. Qed.

(** A pending list without the first nonce goes back to the queue as a whole. *)
Lemma gap_ok D p a l v : pool_inv [] (Some (true, a)) ∅ D p -> lists true p !! a = Some l -> map_Forall (fun n tx => v_nonce v a <= n /\ tx_cost tx <= v_balance v a /\ tx_gas tx <= v_gasLimit v) (items (txs l)) ->
  ends (if (0 <? list_Len l) && negb (Contains (v_nonce v a) l) then let* gapped := on_pending a (list_Cap 0) in requeue gapped else mret tt) p
    (fun _ p' => exists l', pool_inv [] (Some (true, a)) ∅ D p' /\ shrinks p p' /\ lists true p' = <[a := l']> (lists true p) /\ (items (txs l') = ∅ \/ executable_items v a (items (txs l')))).
Proof.
  intros Hp Hl Hx. unfold Contains, sm_Get. destruct (Z.ltb_spec 0 (list_Len l)) as [Hlen|Hlen]; cbn [andb].
  - destruct (bool_decide_reflect (is_Some (items (txs l) !! v_nonce v a))) as [Hc|Hc]; cbn [negb]; [apply ends_ret; exists l; split_and!; [done|done|by rewrite insert_id|by right]|].
    destruct (cap_took 0 l (inv_list Hp true a l Hl)) as (out & l' & Hr & Ht & Hflat); [done|]. eapply ends_bind; [apply (take_run true a _ [] _ ∅ D p l _ out l' Hp (or_intror eq_refl) Hl Hr Ht)|]. intros ? p1 (-> & H1 & Hs1 & _ & Hl1 & _).
    eapply ends_mono; [apply (requeue_ok [] _ ∅ D out p1 H1)|]. intros [] p2 (H2 & Hs2 & _ & Hl2 & _). exists l'. split_and!; [done|by etrans|rewrite Hl2 by done; done|]. left. cbn in Hflat. pose proof (length_flat (items (txs l'))) as Hf. rewrite Hflat in Hf. by apply map_size_empty_iff.
  - apply ends_ret. exists l. split_and!; [done|done|by rewrite insert_id|]. left. unfold list_Len, sm_Len in Hlen. apply map_size_empty_iff. lia.
Qed.

Lemma demote_account_ok D p a : pool_inv [] None ∅ D p -> is_Some (p_pending p !! a) ->
  ends (demote_account a) p (fun _ p' => pool_inv [] None ∅ D p' /\ shrinks p p' /\ (forall b, b <> a -> p_pending p' !! b = p_pending p !! b) /\ executable (p_view p) a p').
Proof.
  intros Hp [l Hl]. unfold demote_account. apply ends_get. set (v := p_view p).
  destruct (forward_took (v_nonce v a) l (inv_list Hp true a l Hl)) as (out1 & l1 & Hr1 & Ht1 & Hit1). eapply ends_bind; [apply (take_run true a _ [] None ∅ D p l _ out1 l1 Hp (or_introl eq_refl) Hl Hr1 Ht1)|]. intros ? p1 (-> & H1 & Hs1 & _ & Hl1 & _).
  eapply ends_bind; [apply (remove_all_ok [] _ _ _ out1 p1 H1)|]. intros _ p2 (H2 & Hs2 & Hl2). rewrite <- (Hl2 true) in Hl1. assert (Hq2 : lists true p2 !! a = Some l1) by (rewrite Hl1; apply lookup_insert_eq).
  destruct (filter_took (v_balance v a) (v_gasLimit v) l1 (inv_list H2 true a l1 Hq2)) as (drops & invalids & l3 & Hr3 & Ht3 & _ & Hkeep).
  eapply ends_bind; [apply (take_run true a _ [] _ ∅ D p2 l1 _ _ l3 H2 (or_intror eq_refl) Hq2 Hr3 Ht3)|]. intros ? p3 (-> & H3 & Hs3 & _ & Hl3 & _). cbn [fst snd]. rewrite <- (assoc_L (++)) in H3.
  eapply ends_bind; [apply (remove_all_ok _ _ _ _ drops p3 H3)|]. intros _ p4 (H4 & Hs4 & Hl4). eapply ends_bind; [apply (requeue_ok [] _ ∅ D invalids p4 H4)|]. intros _ p5 (H5 & Hs5 & _ & Hl5 & _). apply ends_get.
  assert (Hq5 : lists true p5 = <[a := l3]> (lists true p)) by (rewrite Hl5 by done; rewrite Hl4, Hl3, Hl1; apply insert_insert_eq). assert (Hq5' : lists true p5 !! a = Some l3) by (rewrite Hq5; apply lookup_insert_eq).
  assert (Hok3 : map_Forall (fun n tx => v_nonce v a <= n /\ tx_cost tx <= v_balance v a /\ tx_gas tx <= v_gasLimit v) (items (txs l3))).
  { eapply map_Forall_sub; [exact Hkeep|]. intros n tx [Hx Hc]%map_lookup_filter_Some. rewrite Hit1 in Hx. apply map_lookup_filter_Some in Hx as [_ Hn]. unfold too_costly in Hc. apply orb_false_elim in Hc as [Hg Hc]. apply Z.ltb_ge in Hg, Hc. lia. }
  apply (ends_lifted _ l3); [cbn in Hq5'; by rewrite Hq5'|]. eapply ends_bind; [apply (gap_ok D p5 a l3 v H5 Hq5' Hok3)|]. intros _ p6 (l6 & H6 & Hs6 & Hl6 & Hok6). apply ends_get. rewrite Hq5, insert_insert_eq in Hl6. cbn [lists] in Hl6.
  assert (Hq6 : p_pending p6 !! a = Some l6) by (rewrite Hl6; apply lookup_insert_eq). apply (ends_lifted _ l6); [by rewrite Hq6|]. eapply ends_mono; [apply (settle_pending D p6 a l6 H6 Hq6)|]. intros [] p7 (H7 & Hs7 & Hl7). split_and!; [done| | |].
  - do 6 (etrans; [eassumption|]). done.
  - intros b Hb. rewrite Hl7. destruct (list_Empty l6); rewrite ?lookup_delete_ne by done; rewrite Hl6; by apply lookup_insert_ne.
  - intros l7. rewrite Hl7. destruct (list_Empty l6) eqn:He; [by rewrite lookup_delete_eq|]. rewrite Hq6. intros [= <-]. destruct Hok6 as [Hem|]; [|done]. unfold list_Empty, list_Len, sm_Len in He. by rewrite Hem, map_size_empty in He.
Qed.

Lemma demote_ok D p : pool_inv [] None ∅ D p -> ends demoteUnexecutables p (fun _ p' => pool_inv [] None ∅ D p' /\ shrinks p p' /\ forall a, executable (p_view p) a p').
Proof.
  intros Hp. unfold demoteUnexecutables. apply ends_get. set (ks := map fst (range (p_pending p))). assert (Hks : ks ≡ₚ map fst (map_to_list (p_pending p))) by (unfold ks; f_equiv; apply range_perm).
  eapply ends_mono; [apply (ends_foreach _ (fun (r : list Z) q => pool_inv [] None ∅ D q /\ shrinks p q /\ NoDup r /\ (forall b, b ∈ r -> is_Some (p_pending q !! b)) /\ forall b, b ∉ r -> executable (p_view p) b q))|intros [] q (? & ? & _ & _ & Hx); split_and!; [done|done|]; intros a; apply Hx; set_solver].
  - split_and!; [done|done|rewrite Hks; apply NoDup_fst_map_to_list| |].
    + intros b Hb. rewrite Hks in Hb. apply list_elem_of_fmap in Hb as ([b' l] & -> & Hb). apply elem_of_map_to_list in Hb. eauto.
    + intros b Hb l Hl. destruct Hb. rewrite Hks. apply list_elem_of_fmap. exists (b, l). split; [done|by apply elem_of_map_to_list].
  - intros a r q (Hq & Hs & Hnd & Hin & Hx). apply list.NoDup_cons in Hnd as [Ha Hnd]. eapply ends_mono; [apply (demote_account_ok D q a Hq); apply Hin; set_solver|]. intros [] q' (Hq' & Hs' & Hoth & Hxa). rewrite (se_view _ _ (sh_env _ _ Hs)) in Hxa.
    split_and!; [done|by etrans|done| |].
    + intros b Hb. rewrite Hoth by (intros ->; done). apply Hin. set_solver.
    + intros b Hb. destruct (decide (b = a)) as [-> |Hne]; [done|]. intros l. rewrite Hoth by done. apply Hx. set_solver.
Qed.

(** *** Counting *)

Definition count m : Z := foldr (fun l n => list_Len l + n) 0 (map snd (map_to_list m)).

Definition contents m : list T := map_to_list m ≫= fun '(_, l) => flat (items (txs l)).

Lemma list_Len_nonneg l : 0 <= list_Len l.
Proof. unfold list_Len, sm_Len. lia. Qed.

Lemma total_perm (ls ls' : list (txlist T)) : ls ≡ₚ ls' -> foldr (fun l n => list_Len l + n) 0 ls = foldr (fun l n => list_Len l + n) 0 ls'.
Proof. induction 1; cbn; lia. Qed.

Lemma count_insert m a l : m !! a = None -> count (<[a := l]> m) = list_Len l + count m.
Proof. intros Ha. unfold count. rewrite (total_perm _ (map snd ((a, l) :: map_to_list m))); [done|]. f_equiv. by apply map_to_list_insert. Qed.

Lemma count_delete m a l : m !! a = Some l -> count m = list_Len l + count (base.delete a m).
Proof. intros Ha. rewrite <- (insert_delete_id m a l Ha) at 1. apply count_insert, lookup_delete_eq. Qed.

Lemma count_nonneg m : 0 <= count m.
Proof. unfold count. induction (map snd (map_to_list m)) as [|l ls IH]; cbn; [done|]. pose proof (list_Len_nonneg l). lia. Qed.

Lemma count_replace m a l l' : m !! a = Some l -> count (<[a := l']> m) = count m - list_Len l + list_Len l'.
Proof. intros Ha. rewrite (count_delete m a l Ha), <- insert_delete_eq, count_insert by apply lookup_delete_eq. lia. Qed.

Lemma length_contents m : Z.of_nat (length (contents m)) = count m.
Proof. unfold contents, count. induction (map_to_list m) as [|[a l] ls IH]; [done|]. rewrite bind_cons, length_app, Nat2Z.inj_add, IH, length_flat. done. Qed.

Lemma elem_contents m x : x ∈ contents m <-> exists a n, item m a n = Some x.
Proof.
  unfold contents. rewrite list_elem_of_bind. split.
  - intros ([a l] & Hx & Hl). apply elem_of_map_to_list in Hl. apply elem_flat in Hx as [n Hn]. exists a, n. by rewrite (item_list _ _ _ _ Hl).
  - intros (a & n & Hi). unfold item in Hi. destruct (m !! a) as [l|] eqn:Hl; [|done]. exists (a, l). split; [apply elem_flat; by exists n|by apply elem_of_map_to_list].
Qed.

Lemma NoDup_flat (it : gmap Z T) : nonced it -> NoDup (flat it).
Proof. intros Hn. apply (NoDup_fmap_1 tx_nonce). pose proof (NoDup_keys it) as Hk. by rewrite <- nonces_flat in Hk. Qed.

Lemma NoDup_contents s E m : side_ok s E m -> NoDup (contents m).
Proof.
  intros [S1 S2 S3 S4]. apply NoDup_bind; [| |apply NoDup_map_to_list].
  - intros [a l] [b l'] x Ha Hb Hx Hx'. apply elem_of_map_to_list in Ha, Hb. apply elem_flat in Hx as [n Hn], Hx' as [n' Hn']. assert (tx_sender x = Some a) by (apply (S3 a n); by rewrite (item_list _ _ _ _ Ha)).
    assert (tx_sender x = Some b) by (apply (S3 b n'); by rewrite (item_list _ _ _ _ Hb)). congruence.
  - intros [a l] Ha. apply elem_of_map_to_list in Ha. apply NoDup_flat, ok_nonced. by eapply S1.
Qed.

(** No list has more transactions than are known. *)
Lemma count_known X E R D p s : pool_inv X E R D p -> count (lists s p) <= Z.of_nat (size (known p)).
Proof.
  intros Hp. rewrite <- length_contents. apply Nat2Z.inj_le. assert (Hk : forall x, x ∈ contents (lists s p) -> known p !! tx_hash x = Some x).
  { intros x Hx. apply elem_contents in Hx as (a & n & Hi). rewrite <- known_Get. by eapply (inv_known Hp s), inv_located. }
  rewrite <- (length_fmap tx_hash), <- length_map_to_list, <- (length_fmap fst (map_to_list (known p))). apply submseteq_length, NoDup_submseteq.
  - apply NoDup_fmap_2_strong; [|eapply NoDup_contents; apply Hp]. intros x y Hx%Hk Hy%Hk Hxy. congruence.
  - intros h Hh. apply list_elem_of_fmap in Hh as (x & -> & Hx). apply Hk in Hx. apply list_elem_of_fmap. exists (tx_hash x, x). split; [done|by apply elem_of_map_to_list].
Qed.

Lemma list_counts_eq m : count m < 2 ^ 64 -> list_counts m = count m.
Proof.
  intros Hc. unfold list_counts. assert (Hsum : forall ls n, 0 <= n -> n + foldr (fun l n => list_Len l + n) 0 ls < 2 ^ 64 -> fold_left (fun n l => u64 (n + u64 (list_Len l))) ls n = n + foldr (fun l n => list_Len l + n) 0 ls).
  { induction ls as [|l ls IH]; intros n Hn Hb; cbn in *; [lia|]. pose proof (list_Len_nonneg l). assert (0 <= foldr (fun l n => list_Len l + n) 0 ls) by (clear; induction ls as [|l ls IH]; cbn; [done|]; pose proof (list_Len_nonneg l); lia).
    rewrite (u64_small (list_Len l)), u64_small by (unfold in64; lia). rewrite IH by lia. lia. }
  assert (Hperm : map snd (range m) ≡ₚ map snd (map_to_list m)) by (f_equiv; apply range_perm). rewrite Hsum; rewrite ?(total_perm _ _ Hperm); [done|done|exact Hc].
Qed.

(** *** The limit of the pending transactions *)

Definition plen p (a : Z) : Z := match p_pending p !! a with Some l => list_Len l | None => 0 end.

(** Pending lists lose transactions at the end; the queues stay. *)
Definition trimmed p p' : Prop := shrinks p p' /\ p_queue p' = p_queue p /\ forall a l', p_pending p' !! a = Some l' -> exists l k, p_pending p !! a = Some l /\ flat (items (txs l')) = take k (flat (items (txs l))).

#[export] Instance trimmed_preorder : PreOrder trimmed.
Proof.
  split.
  - intros p. split_and!; [done|done|]. intros a l Hl. exists l, (length (flat (items (txs l)))). by rewrite take_ge by lia.
  - intros p q r (H1 & H2 & H3) (H4 & H5 & H6). split_and!; [by etrans|congruence|]. intros a l'' Hl. destruct (H6 a l'' Hl) as (l' & k & Hl' & Hk). destruct (H3 a l' Hl') as (l & k' & Hl0 & Hk'). exists l, (min k k'). by rewrite Hk, Hk', take_take.
Qed.

(** The accounts [A] have given up [n] transactions each. *)
Definition capped (A : list Z) (n : Z) p p' : Prop := trimmed p p' /\ (forall b, b ∈ A -> plen p' b = plen p b - n) /\ (forall b, b ∉ A -> plen p' b = plen p b) /\ count (p_pending p') = count (p_pending p) - n * Zlen A.

Lemma plen_pos p a : 0 < plen p a -> exists l, p_pending p !! a = Some l /\ list_Len l = plen p a.
Proof. unfold plen. destruct (p_pending p !! a); [eauto|lia]. Qed.

Lemma cap_one_ok D p a : pool_inv [] None ∅ D p -> 1 < plen p a -> ends (cap_one a) p (fun _ p' => pool_inv [] None ∅ D p' /\ capped [a] 1 p p').
Proof.
  intros Hp Hlen. destruct (plen_pos p a) as (l & Hl & Hll); [lia|]. rewrite <- Hll in Hlen. unfold cap_one. apply ends_get, (ends_lifted _ l); [by rewrite Hl|].
  destruct (cap_took (list_Len l - 1) l (inv_list Hp true a l Hl)) as (caps & l' & Hr & Ht & Hflat); [lia|]. eapply ends_bind; [apply (take_run true a _ [] None ∅ D p l _ caps l' Hp (or_introl eq_refl) Hl Hr Ht)|]. intros ? p1 (-> & H1 & Hs1 & _ & Hl1 & Ho1).
  eapply ends_bind; [apply (ends_foreach _ (fun (r : list T) q => pool_inv (r ++ []) (Some (true, a)) ∅ D q /\ shrinks p1 q /\ forall s, lists s q = lists s p1)); [done|]|].
  { intros tx r q (Hq & Hsq & Hlq). apply ends_then, ends_modify. set (q1 := set_all _ q). assert (Hq1 : pool_inv (r ++ []) (Some (true, a)) ∅ D q1) by exact (drop_loose (r ++ []) _ ∅ D q tx Hq). destruct (setIfLower_Ret a (tx_nonce tx) (p_nonces q1)) as [x Hx].
    eapply ends_mono; [apply (on_nonces_ok _ (r ++ []) (Some (true, a)) ∅ D q1); [eauto|exact Hq1]|]. intros _ q2 (Hq2 & Hs2 & Hl2 & _). split_and!; [done| |intros s; rewrite Hl2; apply Hlq]. etrans; [exact Hsq|]. etrans; [|exact Hs2]. split; [done|]. apply known_Remove. }
  intros _ p2 (H2 & Hs2 & Hl2). eapply ends_mono; [apply (on_priced_ok _ _ _ D D p2 _ H2); apply removed_ok, H2|]. intros _ p3 (H3 & Hs3 & Hl3 & _).
  assert (Hpend : p_pending p3 = <[a := l']> (p_pending p)) by (change (p_pending p3) with (lists true p3); rewrite Hl3, Hl2, Hl1; done).
  assert (Hlen' : list_Len l' = list_Len l - 1). { unfold list_Len, sm_Len in *. rewrite <- !(length_flat) in *. rewrite Hflat, length_take. lia. }
  assert (Hpl : forall b, plen p3 b = if decide (b = a) then plen p b - 1 else plen p b) by (intros b; unfold plen; rewrite Hpend; case_decide as Hb; [subst b; by rewrite lookup_insert_eq, Hl|by rewrite lookup_insert_ne]).
  split; [apply (settle_some [] ∅ D p3 true a l' H3); [cbn; rewrite Hpend; apply lookup_insert_eq|intros Hem; unfold list_Len, sm_Len in Hlen'; rewrite Hem, map_size_empty in Hlen'; unfold list_Len, sm_Len in Hlen; lia]|].
  split_and!.
  - split_and!; [do 2 (etrans; [eassumption|]); done|change (lists false p3 = lists false p); rewrite Hl3, Hl2, Ho1; done|]. intros b l0. rewrite Hpend, lookup_insert_Some. intros [[<- <-]|[_ Hb]]; [eauto|]. exists l0, (length (flat (items (txs l0)))). by rewrite take_ge by lia.
  - intros b ->%list_elem_of_singleton. by rewrite Hpl, decide_True.
  - intros b Hb. rewrite Hpl, decide_False; [done|set_solver].
  - rewrite Hpend, (count_replace _ a l) by done. unfold Zlen. cbn. lia.
Qed.

Lemma cap_all_ok D A : forall p, NoDup A -> pool_inv [] None ∅ D p -> (forall b, b ∈ A -> 1 < plen p b) -> ends (foreach A cap_one) p (fun _ p' => pool_inv [] None ∅ D p' /\ capped A 1 p p').
Proof.
  induction A as [|a A IH]; intros p Hnd Hp Hlen; cbn.
  - apply ends_ret. split; [done|]. split_and!; [done|set_solver|done|unfold Zlen; cbn; lia].
  - apply list.NoDup_cons in Hnd as [Ha Hnd]. eapply ends_bind; [apply (cap_one_ok D p a Hp); apply Hlen; set_solver|]. intros _ q (Hq & Ht & Hin & Hout & Hc). eapply ends_mono; [apply (IH q Hnd Hq)|].
    + intros b Hb. rewrite Hout by set_solver. apply Hlen. set_solver.
    + intros _ r (Hr & Ht' & Hin' & Hout' & Hc'). split; [done|]. split_and!; [by etrans| | |rewrite Hc', Hc; unfold Zlen; cbn; lia].
      * intros b [-> |Hb]%elem_of_cons; [rewrite Hout' by done; apply Hin; set_solver|]. rewrite Hin' by done. rewrite Hout; [done|set_solver].
      * intros b Hb. rewrite Hout' by set_solver. apply Hout. set_solver.
Qed.

(** Offenders of the same size are reduced together, to the threshold or to the limit. *)
Lemma equalize_ok D A tested over thr limit fuel : NoDup A -> tested ∈ A -> (forall n, 0 <= n < 2 ^ 63 -> over n = (thr <? n)) -> 1 <= thr -> forall p L, pool_inv [] None ∅ D p -> (forall b, b ∈ A -> plen p b = L) -> thr <= L ->
  count (p_pending p) < 2 ^ 63 -> (Z.to_nat (L - thr) < fuel)%nat ->
  ends (equalize fuel A tested over (count (p_pending p)) limit) p (fun r p' => pool_inv [] None ∅ D p' /\ r = count (p_pending p') /\ exists n, 0 <= n <= L - thr /\ capped A n p p' /\ (r <= limit \/ L - n = thr)).
Proof.
  intros Hnd Htest Hover Hthr. induction fuel as [|fuel IH]; intros p L Hp HL HthrL Hcount Hfuel; [lia|]. cbn. assert (Hzero : capped A 0 p p) by (split_and!; [done|intros; lia|done|lia]).
  destruct (Z.ltb_spec limit (count (p_pending p))) as [Hlim|Hlim]; cbn [negb]; [|apply ends_ret; split_and!; [done|done|]; exists 0; split_and!; [lia|lia|done|by left]].
  assert (Hpos : 0 < plen p tested) by (rewrite HL by done; lia). destruct (plen_pos p tested Hpos) as (l & Hl & Hll). eapply ends_bind; [unfold pending_len; apply ends_get, (ends_lifted _ l); [by rewrite Hl|apply (ends_ret _ _ (fun n q => n = L /\ q = p))]; split; [rewrite Hll; by apply HL|done]|]. intros ? ? [-> ->].
  assert (Hbound : L <= count (p_pending p)) by (rewrite <- (HL tested Htest), <- Hll; rewrite (count_delete _ _ _ Hl); pose proof (count_nonneg (base.delete tested (p_pending p))); lia).
  rewrite Hover by lia. destruct (Z.ltb_spec thr L) as [Hgt|Hle]; cbn [negb]; [|apply ends_ret; split_and!; [done|done|]; exists 0; split_and!; [lia|lia|done|right; lia]].
  eapply ends_bind; [apply (cap_all_ok D A p Hnd Hp); intros b Hb; rewrite (HL b Hb); lia|]. intros _ q (Hq & Ht & Hin & Hout & Hc). pose proof (count_nonneg (p_pending q)) as Hcn. rewrite u64_small by (unfold in64; unfold Zlen in *; lia). replace (count (p_pending p) - Zlen A) with (count (p_pending q)) by (rewrite Hc; lia).
  eapply ends_mono; [apply (IH q (L - 1) Hq)|].
  - intros b Hb. by rewrite Hin, HL.
  - lia.
  - unfold Zlen in Hc. lia.
  - lia.
  - intros r q' (Hq' & -> & n & Hn & (Ht' & Hin' & Hout' & Hc') & Hend). split_and!; [done|done|]. exists (n + 1). split_and!; [lia|lia| |destruct Hend; [by left|right; lia]].
    split_and!; [by etrans|intros b Hb; rewrite Hin', Hin by done; lia|intros b Hb; by rewrite Hout', Hout|rewrite Hc', Hc; lia].
Qed.

#[export] Instance spam_order : HeapOrder more_spam.
Proof. split; unfold more_spam; intros; rewrite ?Z.ltb_lt, ?Z.ltb_ge in *; lia. Qed.

(** The accounts that the loop over the spammers has still to take are in the heap; those
    that it has taken have the same size, not below the others. *)
Record offending (AS limit : Z) p (h : list (Z * Z)) (A : list Z) : Prop := {
  of_heap : is_heap more_spam h;
  of_distinct : NoDup (A ++ map fst h);
  of_len : forall b n, (b, n) ∈ h -> plen p b = n /\ AS < n;
  of_same : count (p_pending p) <= limit \/ A = [] \/ exists L, AS < L /\ (forall b, b ∈ A -> plen p b = L) /\ forall b n, (b, n) ∈ h -> n <= L
}.

Lemma offend_loop_ok D AS limit fuel : 1 <= AS -> forall p h A, pool_inv [] None ∅ D p -> count (p_pending p) < 2 ^ 63 -> offending AS limit p h A -> (length h < fuel)%nat ->
  ends (offend_loop fuel h A (count (p_pending p)) limit) p (fun '(A', r) p' => pool_inv [] None ∅ D p' /\ r = count (p_pending p') /\ trimmed p p' /\ r <= count (p_pending p) /\ (forall b, b ∉ A ++ map fst h -> plen p' b = plen p b) /\
    (r <= limit \/ A' ≡ₚ A ++ map fst h /\ offending AS limit p' [] A')).
Proof.
  intros HAS. induction fuel as [|fuel IH]; intros p h A Hp Hcount Hoff Hfuel; [lia|]. cbn [offend_loop]. pose proof Hoff as [Hheap Hnd Hlen Hsame].
  destruct (Z.ltb_spec limit (count (p_pending p))) as [Hlim|Hlim]; cbn [negb]; [|apply ends_ret; split_and!; [done|done|done|lia|done|by left]]. destruct Hsame as [|Hsame]; [lia|].
  destruct h as [|[b n] h]; [apply ends_ret; split_and!; [done|done|done|lia|done|right]; cbn; rewrite app_nil_r; done|].
  destruct (pop_heap more_spam (b, n) h Hheap) as (h' & Hpop & Hperm & Hheap' & Hmin). eapply ends_lifted; [exact Hpop|]. cbn [fst snd]. destruct (Hlen b n) as [Hb Hn]; [set_solver|].
  assert (Hleft : forall q, (forall c k, (c, k) ∈ h -> plen q c = plen p c) -> forall c k, (c, k) ∈ h' -> plen q c = k /\ AS < k /\ k <= n).
  { intros q Hq c k Hc. pose proof (Hmin (c, k) Hc) as Hle. unfold le, more_spam in Hle. cbn in Hle. apply Z.ltb_ge in Hle. rewrite <- Hperm in Hc. rewrite (Hq c k Hc). destruct (Hlen c k); [set_solver|]. lia. }
  assert (Hall : (A ++ [b]) ++ map fst h' ≡ₚ A ++ map fst ((b, n) :: h)) by (cbn; rewrite <- (assoc_L (++)); cbn; by rewrite Hperm).
  assert (Hnd' : NoDup ((A ++ [b]) ++ map fst h')) by (by rewrite Hall). assert (Hlh : (length h' < fuel)%nat) by (rewrite <- Hperm; cbn in Hfuel; lia).
  destruct (list.last A) as [tested|] eqn:Hlast.
  - destruct Hsame as [-> |(L & HL & HA & HhL)]; [done|]. assert (HnL : n <= L) by (apply (HhL b n); set_solver). apply last_Some_elem_of in Hlast.
    destruct (plen_pos p b) as (l & Hl & Hll); [lia|]. eapply ends_bind; [unfold pending_len; apply ends_get, (ends_lifted _ l); [by rewrite Hl|apply (ends_ret _ _ (fun k q => k = n /\ q = p))]; split; [lia|done]|]. intros ? ? [-> ->].
    assert (HLc : L <= count (p_pending p)). { destruct (plen_pos p tested) as (l0 & Hl0 & Hll0); [rewrite HA by done; lia|]. rewrite <- (HA tested Hlast), <- Hll0, (count_delete _ _ _ Hl0). pose proof (count_nonneg (base.delete tested (p_pending p))). lia. }
    apply list.NoDup_app in Hnd as Hnd2. destruct Hnd2 as (HndA & HAh & _).
    eapply ends_bind; [apply (equalize_ok D A tested _ n limit (S (Z.to_nat (count (p_pending p)))) HndA Hlast ltac:(done) ltac:(lia) p L Hp HA HnL Hcount); lia|]. intros r q (Hq & -> & k & Hk & (Ht & Hin & Hout & Hc) & Hend).
    assert (Hkeep : forall c j, (c, j) ∈ (b, n) :: h -> plen q c = plen p c). { intros c j Hc'. apply Hout. intros HcA. apply (HAh c HcA). apply list_elem_of_fmap. by exists (c, j). }
    eapply ends_mono; [apply (IH q h' (A ++ [b]) Hq)|].
    + unfold Zlen in Hc. nia.
    + split; [done|done|intros c j Hc'; destruct (Hleft q ltac:(intros c0 k0 H0; apply (Hkeep c0 k0); set_solver) c j Hc') as (? & ? & ?); done|]. destruct Hend as [|HLn]; [by left|]. right. right. exists n. split_and!; [done| |intros c j Hc'; by destruct (Hleft p ltac:(done) c j Hc') as (_ & _ & ?)].
      intros c [Hc'| ->%list_elem_of_singleton]%elem_of_app; [rewrite Hin, HA by done; lia|]. rewrite (Hkeep b n); [done|set_solver].
    + done.
    + intros [A' r] q' (Hq' & -> & Ht' & Hr & Hout' & Hres). split_and!; [done|done|by etrans|unfold Zlen in Hc; nia| |].
      * intros c Hc'. rewrite <- Hall in Hc'. rewrite Hout' by done. apply Hout. set_solver.
      * destruct Hres as [|[HA' Ho]]; [by left|right]. split; [by rewrite HA', Hall|done].
  - apply last_None in Hlast as ->. cbn [app] in *. eapply ends_mono; [apply (IH p h' [b] Hp Hcount)|].
    + split; [done|done|intros c j Hc'; destruct (Hleft p ltac:(done) c j Hc') as (? & ? & ?); done|]. right. right. exists n. split_and!; [done|intros c ->%list_elem_of_singleton; done|intros c j Hc'; by destruct (Hleft p ltac:(done) c j Hc') as (_ & _ & ?)].
    + done.
    + intros [A' r] q' (Hq' & -> & Ht' & Hr & Hout' & Hres). split_and!; [done|done|done|done|intros c Hc'; apply Hout'; rewrite <- Hall in Hc'; done|]. destruct Hres as [|[HA' Ho]]; [by left|right]. split; [by rewrite HA', Hall|done].
Qed.

Lemma spammers_ok (P : Z * txlist T -> bool) ls : forall q, is_heap more_spam q ->
  let h := fold_left (fun q '(a, l) => if P (a, l) then Push more_spam q (a, list_Len l) else q) ls q in
  is_heap more_spam h /\ h ≡ₚ map (fun '(a, l) => (a, list_Len l)) (List.filter P ls) ++ q.
Proof.
  induction ls as [|[a l] ls IH]; intros q Hq; [done|]. cbn. destruct (P (a, l)); [|by apply IH]. destruct (push_heap more_spam q (a, list_Len l) Hq) as [Hh Hperm]. destruct (IH _ Hh) as [H1 H2]. split; [done|]. rewrite H2, Hperm. cbn. by rewrite Permutation_middle.
Qed.

Lemma NoDup_filter_fst {A} (P : Z * A -> bool) (ls : list (Z * A)) : NoDup (map fst ls) -> NoDup (map fst (List.filter P ls)).
Proof.
  induction ls as [|x ls IH]; cbn; [done|]. intros [Hx Hnd]%list.NoDup_cons. destruct (P x); [|by apply IH]. cbn. apply list.NoDup_cons. split; [|by apply IH]. intros Hin. apply Hx. apply list_elem_of_fmap in Hin as (y & Hy & Hin). apply list_elem_of_In, filter_In in Hin as [Hin _]. apply list_elem_of_fmap. exists y. split; [done|by apply list_elem_of_In].
Qed.

(** [truncatePending] brings the pending transactions below the limit, or no account that is
    not local has more than its slots. *)
Definition pending_limited p : Prop := count (p_pending p) <= GlobalSlots (p_config p) \/ forall a, a ∉ p_locals p -> plen p a <= AccountSlots (p_config p).

Lemma spammers_offend p : let spam := fun x : Z * txlist T => negb (bool_decide (fst x ∈ p_locals p)) && (AccountSlots (p_config p) <? u64 (list_Len (snd x))) in
  let h := fold_left (fun q '(a, l) => if spam (a, l) then Push more_spam q (a, list_Len l) else q) (range (p_pending p)) [] in
  count (p_pending p) < 2 ^ 63 -> offending (AccountSlots (p_config p)) (GlobalSlots (p_config p)) p h [] /\ forall a, a ∉ p_locals p -> a ∉ map fst h -> 0 <= AccountSlots (p_config p) -> plen p a <= AccountSlots (p_config p).
Proof.
  intros spam h Hcount. destruct (spammers_ok spam (range (p_pending p)) [] (heap_nil more_spam)) as [Hheap Hperm]. fold h in Hheap, Hperm. rewrite app_nil_r in Hperm.
  assert (Hsmall : forall a l, p_pending p !! a = Some l -> u64 (list_Len l) = list_Len l). { intros a l Hl. apply u64_small. pose proof (count_delete _ _ _ Hl). pose proof (count_nonneg (base.delete a (p_pending p))). pose proof (list_Len_nonneg l). unfold in64. lia. }
  assert (Hin : forall a n, (a, n) ∈ h <-> exists l, p_pending p !! a = Some l /\ n = list_Len l /\ spam (a, l) = true).
  { intros a n. rewrite Hperm, list_elem_of_fmap. split.
    - intros ([a' l] & [= -> ->] & Hx). apply list_elem_of_In, filter_In in Hx as [Hx Hs]. apply list_elem_of_In in Hx. rewrite range_perm in Hx. apply elem_of_map_to_list in Hx. eauto.
    - intros (l & Hl & -> & Hs). exists (a, l). split; [done|]. apply list_elem_of_In, filter_In. split; [|done]. apply list_elem_of_In. rewrite range_perm. by apply elem_of_map_to_list. }
  split.
  - split; [done| | |by right; left].
    + cbn. rewrite Hperm, map_map. rewrite (map_ext _ fst) by (by intros [a l]). apply NoDup_filter_fst. rewrite range_perm. apply NoDup_fst_map_to_list.
    + intros a n (l & Hl & -> & Hs)%Hin. unfold plen. rewrite Hl. split; [done|]. apply andb_prop in Hs as [_ Hs]. cbn in Hs. rewrite (Hsmall a l Hl) in Hs. by apply Z.ltb_lt.
  - intros a Hloc Hnot HAS. unfold plen. destruct (p_pending p !! a) as [l|] eqn:Hl; [|done]. destruct (Z.leb_spec (list_Len l) (AccountSlots (p_config p))) as [|Hgt]; [done|]. destruct Hnot. apply list_elem_of_fmap. exists (a, list_Len l). split; [done|]. apply Hin. exists l. split_and!; [done|done|].
    unfold spam. cbn. rewrite bool_decide_eq_false_2 by done. rewrite (Hsmall a l Hl). by apply Z.ltb_lt.
Qed.

Lemma equalize_limit fuel A tested over pending limit p : pending <= limit -> ends (equalize (S fuel) A tested over pending limit) p (fun r p' => p' = p).
Proof. intros Hl. cbn. rewrite (proj2 (Z.ltb_ge _ _)) by done. by apply ends_ret. Qed.

Lemma truncatePending_ok D p : pool_inv [] None ∅ D p -> config_ok (p_config p) -> count (p_pending p) < 2 ^ 63 -> ends truncatePending p (fun _ p' => pool_inv [] None ∅ D p' /\ trimmed p p' /\ pending_limited p').
Proof.
  intros Hp Hc Hcount. unfold truncatePending. apply ends_get. rewrite list_counts_eq by lia. destruct (Z.leb_spec (count (p_pending p)) (GlobalSlots (p_config p))) as [Hle|Hgt]; [apply ends_ret; split_and!; [done|done|by left]|].
  destruct (spammers_offend p Hcount) as [Hoff Hrest]. set (h := fold_left _ _ _) in *. eapply ends_bind; [apply (offend_loop_ok D (AccountSlots (p_config p)) (GlobalSlots (p_config p)) (S (length h)) ltac:(destruct Hc; lia) p h [] Hp Hcount Hoff); lia|].
  intros [A r] q (Hq & -> & Ht & Hr & Hout & Hres). cbn [fst snd app] in *. pose proof (se_config _ _ (sh_env _ _ (proj1 Ht))) as Hcq. pose proof (se_locals _ _ (sh_env _ _ (proj1 Ht))) as Hlq.
  destruct (Z.leb_spec (count (p_pending q)) (GlobalSlots (p_config p))) as [Hle|Hgt'].
  - assert (Hlim : pending_limited q) by (left; by rewrite Hcq). destruct (list.last A); [|by apply ends_ret]. eapply ends_bind; [by apply equalize_limit|]. intros ? ? ->. by apply ends_ret.
  - destruct Hres as [|[HA [_ HndA _ Hsame]]]; [lia|]. rewrite app_nil_r in HndA. destruct (list.last A) as [tested|] eqn:Hlast.
    + apply last_Some_elem_of in Hlast. destruct Hsame as [|[-> |(L & HL & HAL & _)]]; [lia|set_solver|]. assert (HLc : L <= count (p_pending q)).
      { destruct (plen_pos q tested) as (l & Hl & Hll); [rewrite HAL by done; destruct Hc; lia|]. rewrite <- (HAL tested Hlast), <- Hll, (count_delete _ _ _ Hl). pose proof (count_nonneg (base.delete tested (p_pending q))). lia. }
      assert (Hover : forall n, 0 <= n < 2 ^ 63 -> (AccountSlots (p_config p) <? u64 n) = (AccountSlots (p_config p) <? n)) by (intros n Hn; rewrite u64_small by (unfold in64; lia); done).
      eapply ends_bind; [apply (equalize_ok D A tested _ (AccountSlots (p_config p)) (GlobalSlots (p_config p)) (S (Z.to_nat (count (p_pending q)))) HndA Hlast Hover ltac:(destruct Hc; lia) q L Hq HAL ltac:(lia) ltac:(lia)); destruct Hc; lia|].
      intros ? q' (Hq' & -> & n & Hn & (Ht' & Hin' & Hout' & Hc') & Hend). apply ends_ret. split_and!; [done|by etrans|]. unfold pending_limited. rewrite (se_config _ _ (sh_env _ _ (proj1 Ht'))), (se_locals _ _ (sh_env _ _ (proj1 Ht'))), Hcq, Hlq.
      destruct Hend as [|Hend]; [by left|right]. intros a Ha. destruct (decide (a ∈ A)) as [HaA|HaA]; [rewrite Hin', HAL by done; lia|]. rewrite Hout' by done. rewrite Hout by (by rewrite <- HA). apply Hrest; [done|by rewrite <- HA|destruct Hc; lia].
    + apply last_None in Hlast as ->. apply ends_ret. split_and!; [done|done|]. right. intros a Ha. rewrite Hcq, Hlq in *. assert (Hnot : a ∉ map fst h) by (rewrite <- HA; set_solver). rewrite Hout by done. apply Hrest; [done|done|destruct Hc; lia].
Qed.

(** *** The limit of the queue *)

(** The transactions [out] have left the queues, and the pending ones stay. *)
Definition dropped (out : list T) p p' : Prop := shrinks p p' /\ (forall b n, item (p_pending p') b n = item (p_pending p) b n) /\
  (forall b n x, item (p_queue p') b n = Some x -> item (p_queue p) b n = Some x /\ x ∉ out) /\ forall b n x, item (p_queue p) b n = Some x -> x ∈ out \/ item (p_queue p') b n = Some x.

Lemma dropped_same p p' : shrinks p p' -> (forall s b n, item (lists s p') b n = item (lists s p) b n) -> dropped [] p p'.
Proof. intros Hs Hi. pose proof (Hi true) as Ht. pose proof (Hi false) as Hf. cbn in Ht, Hf. split_and!; [done|done|intros b n x; rewrite Hf; set_solver|intros b n x; rewrite Hf; auto]. Qed.

Lemma dropped_trans out out' p q r : dropped out p q -> dropped out' q r -> dropped (out ++ out') p r.
Proof.
  intros (H1 & H2 & H3 & H4) (H5 & H6 & H7 & H8). split_and!; [by etrans|intros; by rewrite H6, H2| |].
  - intros b n x Hx. apply H7 in Hx as [Hx Hn]. apply H3 in Hx as [Hx Hn']. split; [done|]. set_solver.
  - intros b n x Hx. destruct (H4 b n x Hx) as [|Hq]; [set_solver|]. destruct (H8 b n x Hq) as [|]; [set_solver|auto].
Qed.

Lemma remove_dropped D p a tx n outofbound : pool_inv [] None ∅ D p -> item (p_queue p) a n = Some tx -> ends (removeTx (tx_hash tx) outofbound true) p (fun _ p' => pool_inv [] None ∅ D p' /\ dropped [tx] p p').
Proof.
  intros Hp Hi. destruct (inv_item Hp false a n tx Hi) as (Hn & _ & Ha). eapply ends_mono; [apply (removeTx_ok ∅ D p a tx false outofbound true Hp); [by eapply inv_located|done]|]. intros _ p' [Hinv (G1 & _ & G3)]. pose proof (G3 eq_refl true) as Gt. pose proof (G3 eq_refl false) as Gf. cbn [lists] in Gt, Gf.
  split; [by replace (∅ : gset Z) with ((∅ : gset Z) ∖ {[a]}) by set_solver|]. split_and!; [done|intros b k; rewrite (Gt b k), decide_False; [done|by intros []]|..]; intros b k x; rewrite (Gf b k), list_elem_of_singleton; destruct (decide (false = false /\ b = a /\ k = tx_nonce tx)) as [(_ & -> & ->)|Hd]; [done| | |by right].
  - intros Hx. split; [done|]. intros ->. destruct (inv_item Hp false b k tx Hx) as (? & _ & ?). destruct Hd. split_and!; congruence.
  - rewrite Hn, Hi. intros [= ->]. by left.
Qed.

Lemma drop_queued D a outofbound out : forall p, NoDup out -> pool_inv [] None ∅ D p -> (forall tx, tx ∈ out -> exists n, item (p_queue p) a n = Some tx) ->
  ends (drop_txs outofbound out) p (fun _ p' => pool_inv [] None ∅ D p' /\ dropped out p p').
Proof.
  unfold drop_txs. induction out as [|tx out IH]; intros p Hnd Hp Hin; cbn; [apply ends_ret; split; [done|by apply dropped_same]|]. apply list.NoDup_cons in Hnd as [Htx Hnd]. destruct (Hin tx) as [n Hn]; [set_solver|].
  apply ends_then. eapply ends_bind; [by apply (remove_dropped D p a tx n)|]. intros ? q [Hq Hd]. apply ends_ret. eapply ends_mono; [apply (IH q Hnd Hq)|].
  - intros x Hx. destruct (Hin x) as [k Hk]; [set_solver|]. exists k. destruct Hd as (_ & _ & _ & Hd). destruct (Hd a k x Hk) as [->%list_elem_of_singleton|]; done.
  - intros [] r [Hr Hd']. split; [done|]. exact (dropped_trans [tx] out p q r Hd Hd').
Qed.

Lemma drop_last_ok D a out : forall p drop, NoDup out -> pool_inv [] None ∅ D p -> (forall tx, tx ∈ out -> exists n, item (p_queue p) a n = Some tx) -> 0 <= drop <= Zlen out ->
  ends (drop_last out drop) p (fun r p' => r = 0 /\ pool_inv [] None ∅ D p' /\ dropped (take (Z.to_nat drop) out) p p').
Proof.
  induction out as [|tx out IH]; intros p drop Hnd Hp Hin Hdrop; cbn [drop_last].
  - assert (drop = 0) as -> by (unfold Zlen in Hdrop; cbn in Hdrop; lia). apply ends_ret. split_and!; [done|done|by apply dropped_same].
  - destruct (Z.ltb_spec 0 drop) as [Hpos|Hneg]; cbn [negb]; [|assert (drop = 0) as -> by lia; apply ends_ret; split_and!; [done|done|by apply dropped_same]].
    apply list.NoDup_cons in Hnd as [Htx Hnd]. destruct (Hin tx) as [n Hn]; [set_solver|]. eapply ends_bind; [by apply (remove_dropped D p a tx n)|]. intros ? q [Hq Hd]. eapply ends_mono; [apply (IH q (drop - 1) Hnd Hq)|].
    + intros x Hx. destruct (Hin x) as [k Hk]; [set_solver|]. exists k. destruct Hd as (_ & _ & _ & Hd). destruct (Hd a k x Hk) as [->%list_elem_of_singleton|]; done.
    + unfold Zlen in *. cbn in Hdrop. lia.
    + intros ? r (-> & Hr & Hd'). split_and!; [done|done|]. replace (Z.to_nat drop) with (S (Z.to_nat (drop - 1))) by lia. exact (dropped_trans [tx] _ p q r Hd Hd').
Qed.

Lemma dropped_count D p p' out : pool_inv [] None ∅ D p -> pool_inv [] None ∅ D p' -> dropped out p p' -> NoDup out -> (forall x, x ∈ out -> x ∈ contents (p_queue p)) -> count (p_queue p) = Zlen out + count (p_queue p').
Proof.
  intros Hp Hp' (_ & _ & Hd & Hd') Hnd Hin. rewrite <- !length_contents. unfold Zlen. rewrite <- Nat2Z.inj_add, <- length_app. f_equal. apply Permutation_length, NoDup_Permutation.
  - eapply NoDup_contents, (pi_side _ _ _ _ p Hp false).
  - apply list.NoDup_app. split_and!; [done| |eapply NoDup_contents, (pi_side _ _ _ _ p' Hp' false)]. intros x Hx Hx'. apply elem_contents in Hx' as (a & n & Hi). by apply Hd in Hi as [_ Hi].
  - intros x. rewrite elem_of_app. split.
    + intros (a & n & Hi)%elem_contents. destruct (Hd' a n x Hi); [by left|right]. apply elem_contents. eauto.
    + intros [Hx|(a & n & Hi)%elem_contents]; [by apply Hin|]. apply Hd in Hi as [Hi _]. apply elem_contents. eauto.
Qed.

(** Only the account of the dropped transactions loses its queue. *)
Lemma dropped_others D p p' out a b : pool_inv [] None ∅ D p -> dropped out p p' -> (forall tx, tx ∈ out -> tx_sender tx = Some a) -> b <> a -> is_Some (p_queue p !! b) -> is_Some (p_queue p' !! b).
Proof.
  intros Hp (_ & _ & _ & Hd) Hs Hb [l Hl]. pose proof (sd_some _ _ _ (pi_side _ _ _ _ p Hp false) b l Hl ltac:(done)) as Hne. apply map_choose in Hne as (n & x & Hx). rewrite <- (item_list _ _ _ _ Hl) in Hx. destruct (Hd b n x Hx) as [Hin|Hi].
  - apply Hs in Hin. destruct (inv_item Hp false b n x Hx) as (_ & _ & ?). congruence.
  - unfold item in Hi. destruct (p_queue p' !! b); [eauto|done].
Qed.

Lemma dropped_gone D p p' out a l : pool_inv [] None ∅ D p' -> dropped out p p' -> p_queue p !! a = Some l -> (forall n x, items (txs l) !! n = Some x -> x ∈ out) -> p_queue p' !! a = None.
Proof.
  intros Hp' (_ & _ & Hd & _) Hl Hall. destruct (p_queue p' !! a) as [l'|] eqn:Hl'; [|done]. pose proof (sd_some _ _ _ (pi_side _ _ _ _ p' Hp' false) a l' Hl' ltac:(done)) as Hne. apply map_choose in Hne as (n & x & Hx). rewrite <- (item_list _ _ _ _ Hl') in Hx.
  apply Hd in Hx as [Hx Hn]. rewrite (item_list _ _ _ _ Hl) in Hx. destruct Hn. by eapply Hall.
Qed.

(** The queue of an account, flattened. *)
Lemma flatten_run D p a l : pool_inv [] None ∅ D p -> p_queue p !! a = Some l ->
  ends (on_queue a list_Flatten) p (fun r q => r = flat (items (txs l)) /\ pool_inv [] None ∅ D q /\ dropped [] p q /\ NoDup r /\ (forall tx, tx ∈ r <-> exists n, item (p_queue q) a n = Some tx) /\ (forall tx, tx ∈ r -> tx_sender tx = Some a) /\
    (forall b, is_Some (p_queue q !! b) <-> is_Some (p_queue p !! b)) /\ exists l', p_queue q !! a = Some l' /\ items (txs l') = items (txs l)).
Proof.
  intros Hp Hl. destruct (flatten_took l (inv_list Hp false a l Hl)) as (l' & Hr & Ht & Hit). destruct (untouched ∅ D p false a l l' Hp Hl Ht Hit) as [Hinv Hitems]. eexists _, _. split; [exact (on_side_Ret false a _ p l _ l' Hl Hr)|]. set (q := set_lists false _ p) in *.
  split_and!; [done|done|apply dropped_same; [apply set_lists_shrinks|done]|apply NoDup_flat, ok_nonced, (inv_list Hp false a l Hl)| | | |].
  - intros tx. rewrite elem_flat. pose proof (fun n => Hitems false a n) as Hi. cbn [lists] in Hi. setoid_rewrite Hi. by setoid_rewrite (item_list _ _ _ _ Hl).
  - intros tx (n & Hn)%elem_flat. rewrite <- (item_list _ _ _ _ Hl) in Hn. by destruct (inv_item Hp false a n tx Hn) as (_ & _ & ?).
  - intros b. cbn. rewrite lookup_insert_is_Some. destruct (decide (a = b)) as [<- |]; [split; [eauto|by left]|tauto].
  - exists l'. split; [cbn; apply lookup_insert_eq|done].
Qed.

(** The queue as a whole is within its limit, or only local accounts have one. *)
Definition queue_limited p : Prop := count (p_queue p) <= GlobalQueue (p_config p) \/ forall a, a ∉ p_locals p -> p_queue p !! a = None.

Lemma queue_loop_ok D G accounts : forall p, pool_inv [] None ∅ D p -> NoDup accounts -> (forall a, a ∈ accounts -> is_Some (p_queue p !! a)) -> 0 <= count (p_queue p) - G -> 0 <= G -> count (p_queue p) < 2 ^ 63 ->
  ends (queue_loop accounts (count (p_queue p) - G)) p (fun _ p' => pool_inv [] None ∅ D p' /\ (exists out, dropped out p p') /\ (count (p_queue p') <= G \/ forall a, a ∈ accounts -> p_queue p' !! a = None)).
Proof.
  induction accounts as [|a accounts IH]; intros p Hp Hnd Hin Hdrop HG Hcount; cbn [queue_loop].
  { apply ends_ret. split_and!; [done|exists []; by apply dropped_same|right; set_solver]. }
  destruct (Z.ltb_spec 0 (count (p_queue p) - G)) as [Hpos|Hneg]; cbn [negb]; [|apply ends_ret; split_and!; [done|exists []; by apply dropped_same|left; lia]].
  apply list.NoDup_cons in Hnd as [Ha Hnd]. destruct (Hin a) as [l Hl]; [set_solver|]. apply ends_get, (ends_lifted _ l); [by rewrite Hl|]. pose proof (count_delete _ _ _ Hl) as Hcd. pose proof (count_nonneg (base.delete a (p_queue p))) as Hcn. pose proof (list_Len_nonneg l) as Hln.
  rewrite u64_small by (unfold in64; lia). eapply ends_bind; [by apply (flatten_run D p a l)|]. intros ? q (-> & Hq & Hd & Hndf & Hel & Hsend & Hsome & l' & Hl' & Hit'). set (out := flat (items (txs l))) in *. assert (Hlen : Zlen out = list_Len l) by (unfold out, Zlen, list_Len, sm_Len; by rewrite length_flat).
  assert (Hcq : count (p_queue q) = count (p_queue p)) by (pose proof (dropped_count D p q [] Hp Hq Hd ltac:(constructor) ltac:(set_solver)) as Hc; unfold Zlen in Hc; cbn in Hc; lia).
  assert (Hcont : forall x, x ∈ out -> x ∈ contents (p_queue q)) by (intros x Hx; apply Hel in Hx as [n Hn]; apply elem_contents; eauto).
  destruct (Z.leb_spec (list_Len l) (count (p_queue p) - G)) as [Hsz|Hsz].
  - eapply ends_bind; [apply (drop_queued D a true out q Hndf Hq); intros tx Htx; by apply Hel|]. intros [] r [Hr Hd']. pose proof (dropped_count D q r out Hq Hr Hd' Hndf Hcont) as Hc. replace (count (p_queue p) - G - list_Len l) with (count (p_queue r) - G) by lia.
    eapply ends_mono; [apply (IH r Hr Hnd)|].
    + intros b Hb. eapply (dropped_others D q r out a b Hq Hd' Hsend); [intros ->; done|]. apply Hsome, Hin. set_solver.
    + lia.
    + done.
    + lia.
    + intros _ r' (Hr' & [out' Hd''] & Hres). split_and!; [done|exists (([] ++ out) ++ out'); eapply dropped_trans; [by eapply dropped_trans|done]|]. destruct Hres as [|Hres]; [by left|right]. intros b [-> |Hb]%elem_of_cons; [|by apply Hres].
      assert (Hgone : p_queue r !! a = None) by (apply (dropped_gone D q r out a l' Hr Hd' Hl'); intros n x Hx; rewrite Hit' in Hx; apply elem_flat; eauto).
      destruct (p_queue r' !! a) as [l2|] eqn:Hl2; [|done]. pose proof (sd_some _ _ _ (pi_side _ _ _ _ r' Hr' false) a l2 Hl2 ltac:(done)) as Hne. apply map_choose in Hne as (n & x & Hx). rewrite <- (item_list _ _ _ _ Hl2) in Hx. destruct Hd'' as (_ & _ & Hd'' & _). apply Hd'' in Hx as [Hx _]. unfold item in Hx. by rewrite Hgone in Hx.
  - eapply ends_bind; [apply (drop_last_ok D a (reverse out) q (count (p_queue p) - G)); [by rewrite reverse_Permutation|done|intros tx Htx; apply Hel; by rewrite elem_of_reverse in Htx|unfold Zlen in *; rewrite length_reverse; lia]|]. intros ? r (-> & Hr & Hd').
    set (k := Z.to_nat (count (p_queue p) - G)) in *. assert (Hnk : NoDup (take k (reverse out))) by (eapply sublist_NoDup; [|apply sublist_take]; by rewrite reverse_Permutation).
    pose proof (dropped_count D q r _ Hq Hr Hd' Hnk) as Hc. rewrite Hcq in Hc. assert (Hck : Zlen (take k (reverse out)) = count (p_queue p) - G) by (unfold Zlen in *; rewrite length_take, length_reverse; unfold k; lia).
    assert (Hg : count (p_queue r) = G) by (rewrite Hck in Hc; enough (count (p_queue p) = count (p_queue p) - G + count (p_queue r)) by lia; apply Hc; intros x Hx; apply Hcont; rewrite <- elem_of_reverse; apply elem_of_take in Hx as (i & Hi & _); by eapply list_elem_of_lookup_2).
    exists tt, r. split; [|split_and!; [done|exists ([] ++ take k (reverse out)); by eapply dropped_trans|left; lia]]. destruct accounts; reflexivity.
Qed.

Lemma truncateQueue_ok D p : pool_inv [] None ∅ D p -> config_ok (p_config p) -> count (p_queue p) < 2 ^ 63 -> ends truncateQueue p (fun _ p' => pool_inv [] None ∅ D p' /\ (exists out, dropped out p p') /\ queue_limited p').
Proof.
  intros Hp Hc Hcount. unfold truncateQueue. apply ends_get. rewrite list_counts_eq by lia. destruct (Z.leb_spec (count (p_queue p)) (GlobalQueue (p_config p))) as [Hle|Hgt]; [apply ends_ret; split_and!; [done|exists []; by apply dropped_same|by left]|].
  set (accounts := reverse (map fst _)). assert (Hel : forall a, a ∈ accounts <-> is_Some (p_queue p !! a) /\ a ∉ p_locals p).
  { intros a. unfold accounts. rewrite elem_of_reverse, list_elem_of_fmap. setoid_rewrite (merge_sort_Permutation later). split.
    - intros ([a' t] & -> & Hx). apply list_elem_of_In, filter_In in Hx as [Hx Hs]. apply list_elem_of_In, list_elem_of_fmap in Hx as ([b l] & [= -> ->] & Hx). rewrite range_perm in Hx. apply elem_of_map_to_list in Hx. split; [eauto|]. cbn in *. by case_bool_decide.
    - intros [[l Hl] Hloc]. exists (a, default 0 (p_beats p !! a)). split; [done|]. apply list_elem_of_In, filter_In. split; [|by rewrite bool_decide_eq_false_2]. apply list_elem_of_In, list_elem_of_fmap. exists (a, l). split; [done|]. rewrite range_perm. by apply elem_of_map_to_list. }
  assert (Hnd : NoDup accounts).
  { unfold accounts. rewrite reverse_Permutation, (merge_sort_Permutation later). apply NoDup_filter_fst. rewrite map_map. rewrite (map_ext _ fst) by (by intros [a l]). rewrite range_perm. apply NoDup_fst_map_to_list. }
  eapply ends_mono; [apply (queue_loop_ok D (GlobalQueue (p_config p)) accounts p Hp Hnd); [intros a Ha; by apply Hel|lia|destruct Hc; lia|done]|]. intros [] p' (Hp' & [out Hd] & Hres). split_and!; [done|by exists out|]. unfold queue_limited. pose proof Hd as (Hs & _ & Hd1 & _).
  rewrite (se_config _ _ (sh_env _ _ Hs)), (se_locals _ _ (sh_env _ _ Hs)). destruct Hres as [|Hres]; [by left|right]. intros a Ha. destruct (p_queue p' !! a) as [l|] eqn:Hl; [|done]. rewrite <- Hl. apply Hres, Hel. split; [|done].
  pose proof (sd_some _ _ _ (pi_side _ _ _ _ p' Hp' false) a l Hl ltac:(done)) as Hne. apply map_choose in Hne as (n & x & Hx). rewrite <- (item_list _ _ _ _ Hl) in Hx. apply Hd1 in Hx as [Hx _]. unfold item in Hx. destruct (p_queue p !! a); [eauto|done].
Qed.

(** *** Adding *)

(** The nonces from [nonce] on that the queue has bound the loop of [isGapped]. *)
Lemma gap_loop_ok l to fuel : list_ok l -> to < 2 ^ 64 -> forall nonce, (size (at_least nonce (items (txs l))) < fuel)%nat -> exists b, gap_loop fuel l nonce to = Ret b.
Proof.
  intros Hl Hto. induction fuel as [|fuel IH]; intros nonce Hf; [lia|]. cbn [gap_loop]. destruct (Z.ltb_spec nonce to) as [Hlt|]; cbn [negb]; [|by eexists]. unfold Contains, sm_Get. destruct (items (txs l) !! nonce) as [x|] eqn:Hx; [|rewrite bool_decide_eq_false_2 by (by intros []); by eexists].
  rewrite bool_decide_eq_true_2 by eauto. cbn [negb]. destruct (ok_nonced l Hl nonce x Hx) as [_ Hn]. unfold in64 in Hn. rewrite u64_small by (unfold in64; lia). apply IH.
  assert (Hsub : at_least (nonce + 1) (items (txs l)) ⊆ base.delete nonce (at_least nonce (items (txs l)))).
  { apply map_subseteq_spec. intros k y [Hy Hk]%map_lookup_filter_Some. apply lookup_delete_Some. split; [lia|]. apply map_lookup_filter_Some. split; [done|lia]. }
  assert (Hin : at_least nonce (items (txs l)) !! nonce = Some x) by (apply map_lookup_filter_Some; split; [done|lia]).
  apply map_subseteq_size in Hsub. rewrite map_size_delete_Some in Hsub by eauto. assert (size (at_least nonce (items (txs l))) <> 0%nat) by (intros H0%map_size_empty_iff; by rewrite H0, lookup_empty in Hin). lia.
Qed.

Lemma isGapped_ok X E R D p from tx : pool_inv X E R D p -> in64 (tx_nonce tx) -> ends (isGapped from tx) p (fun _ p' => pool_inv X E R D p' /\ shrinks p p' /\ forall s, lists s p' = lists s p).
Proof.
  intros Hp Hn. unfold isGapped. eapply ends_bind; [apply (on_nonces_ok _ X E R D p (noncer_get_Ret from _) Hp)|]. intros next q (Hq & Hs & Hl & _). destruct (tx_nonce tx <=? next); [by apply ends_ret|]. apply ends_get. destruct (p_queue q !! from) as [l|] eqn:Hlq; [|by apply ends_ret].
  destruct (gap_loop_ok l (tx_nonce tx) (S (size (items (txs l)))) (inv_list Hq false from l Hlq) (proj2 Hn) next) as [b Hb]; [|by eapply ends_lift].
  apply Nat.lt_succ_r, map_subseteq_size, map_filter_subseteq.
Qed.

(** The hash of a transaction covers its sender. *)
Class HashedSender : Prop := { hash_sender : forall x y, tx_hash x = tx_hash y -> tx_sender x = tx_sender y }.

Context {HS : HashedSender}.

(** The room that [add] makes; when it fails the lists stay. *)
Lemma drop_priced all D pl : all_ok all -> priced_ok all D pl -> (forall tx, tx ∈ D -> all_Get (tx_hash tx) all = None) -> priced_ok all [] pl.
Proof.
  intros [Hk Hd _] [H1 H2 H3] Hnone. split; [done|done|]. intros h tx Hx. pose proof (H3 h tx Hx) as Hi. assert (Hg : all_Get h all = Some tx) by (unfold all_Get; by rewrite (map_disjoint_Some_r _ _ _ _ Hd Hx)). pose proof (Hk h tx Hg) as <-.
  rewrite app_nil_r. apply elem_of_app in Hi as [|Hi]; [set_solver|]. apply elem_of_app in Hi as [|Hi]; [set_solver|]. by rewrite (Hnone tx Hi) in Hg.
Qed.

Lemma kick_ok from out p : pool_inv [] None {[from]} out p ->
  ends (foreach out (fun tx => let* dropped := removeTx (tx_hash tx) false (negb (sender tx =? from)) in mmodify (fun p => set_changes (p_changes p + dropped) p))) p (fun _ p' => pool_inv [] None {[from]} [] p' /\ shrinks p p').
Proof.
  intros Hp. eapply ends_mono; [apply (ends_foreach _ (fun (r : list T) q => pool_inv [] None {[from]} out q /\ shrinks p q /\ forall tx, tx ∈ out -> tx ∈ r \/ all_Get (tx_hash tx) (p_all q) = None)); [split_and!; [done|done|auto]|]|].
  - intros tx r q (Hq & Hs & Hgone). eapply ends_bind; [apply (removeTx_any {[from]} out q)|].
    + exact Hq.
    + intros x Hx. pose proof (lk_key _ (pi_all _ _ _ _ q Hq) _ x Hx) as Hh. apply hash_sender in Hh. assert (sender x = sender tx) as -> by (unfold sender; by rewrite Hh). destruct (Z.eqb_spec (sender tx) from); cbn; set_solver.
    + intros n q' (Hq' & Hs' & Hall). apply ends_modify. split_and!; [eapply same_inv; [|exact Hq']; by split|etrans; [exact Hs|]; etrans; [exact Hs'|]; by split|]. intros x Hx. change (p_all (set_changes _ q')) with (p_all q'). rewrite Hall, Remove_Get. case_decide as Hd; [by right|]. destruct (Hgone x Hx) as [[-> |]%elem_of_cons|]; [done|by left|by right].
  - intros [] q (Hq & Hs & Hgone). split; [|done]. eapply inv_reprice; [..|exact Hq]; try done. apply (drop_priced _ out); [apply Hq|apply Hq|]. intros tx Htx. destruct (Hgone tx Htx); [set_solver|done].
Qed.

Lemma putback_ok R out p : pool_inv [] None R out p -> ends (foreach out (fun tx => on_priced (fun _ => priced_Put tx false))) p (fun _ p' => pool_inv [] None R [] p' /\ shrinks p p' /\ forall s, lists s p' = lists s p).
Proof.
  intros Hp. eapply ends_mono; [apply (ends_foreach _ (fun (r : list T) q => pool_inv [] None R r q /\ shrinks p q /\ forall s, lists s q = lists s p)); [done|]|by intros [] q].
  intros tx r q (Hq & Hs & Hl). eapply ends_mono; [apply (on_priced_ok _ _ R (tx :: r) r q _ Hq); apply put_ok, Hq|]. intros _ q' (Hq' & Hs' & Hl' & _). split_and!; [done|by etrans|intros s; by rewrite Hl'].
Qed.

Lemma make_room_ok p tx isLocal from : pool_inv [] None {[from]} [] p -> config_ok (p_config p) -> in64 (tx_nonce tx) ->
  ends (make_room tx isLocal from) p (fun err p' => pool_inv [] None {[from]} [] p' /\ shrinks p p' /\ (err <> None -> forall s, lists s p' = lists s p)).
Proof.
  intros Hp Hc Hn. unfold make_room. apply ends_get. set (limit := u64 _). assert (Hlimit : limit = GlobalSlots (p_config p) + GlobalQueue (p_config p)) by (unfold limit; destruct Hc; rewrite u64_small; [done|unfold in64; lia]).
  destruct (Z.ltb_spec limit (u64 (slots (p_all p) + numSlots tx))) as [Hlt|]; cbn [negb]; [|by apply ends_ret].
  pose proof (slots_nonneg _ (pi_all _ _ _ _ p Hp)) as Hsl. pose proof (numSlots_nonneg tx) as Hns. assert (Hroom : 0 <= slots (p_all p) - int64_of limit + numSlots tx).
  { rewrite int64_of_small by (destruct Hc; lia). assert (u64 (slots (p_all p) + numSlots tx) <= slots (p_all p) + numSlots tx) by (unfold u64; apply Z.mod_le; lia). lia. }
  assert (Hunder : ends (if isLocal then mret false else on_priced (fun all => Underpriced all tx)) p (fun _ q => pool_inv [] None {[from]} [] q /\ shrinks p q /\ (forall s, lists s q = lists s p) /\ p_all q = p_all p)).
  { destruct isLocal; [by apply ends_ret|]. destruct (underpriced_ok (p_all p) [] (p_priced p) tx (pi_all _ _ _ _ p Hp) (pi_priced _ _ _ _ p Hp)) as (b & pl & Hr & Hok). exists b, (set_priced pl p). unfold on_priced. rewrite Hr. split; [done|]. split_and!; [eapply inv_reprice; [..|exact Hp]; done|by split|done|done]. }
  eapply ends_bind; [exact Hunder|]. intros under q (Hq & Hs & Hl & Hall). destruct under; [by apply ends_ret|]. apply ends_get. destruct (_ <? p_changes q); [by apply ends_ret|].
  rewrite <- Hall in Hroom. destruct (discard_ok (p_all q) (p_priced q) (slots (p_all q) - int64_of limit + numSlots tx) isLocal (pi_all _ _ _ _ q Hq) (pi_priced _ _ _ _ q Hq) Hroom) as (out & ok & pl & Hr & Hok & _ & Hfail & _).
  apply ends_then. exists (out, ok), (set_priced pl q). unfold on_priced. rewrite Hr. split; [done|]. set (q1 := set_priced pl q). assert (Hq1 : pool_inv [] None {[from]} out q1) by (eapply inv_reprice; [..|exact Hq]; done).
  assert (Hs1 : shrinks p q1) by (etrans; [exact Hs|by split]). assert (Hl1 : forall s, lists s q1 = lists s p) by (intros s; rewrite <- Hl; by destruct s).
  destruct (negb isLocal && negb ok) eqn:Hno.
  { apply ends_ret. destruct ok; [rewrite andb_false_r in Hno; done|]. destruct (Hfail eq_refl) as [-> _]. done. }
  assert (Hgap : ends (if isLocal then mret false else isGapped from tx) q1 (fun _ q2 => pool_inv [] None {[from]} out q2 /\ shrinks q1 q2 /\ forall s, lists s q2 = lists s q1)) by (destruct isLocal; [by apply ends_ret|by apply isGapped_ok]).
  eapply ends_bind; [exact Hgap|]. intros gapped q2 (Hq2 & Hs2 & Hl2). apply ends_get. destruct (gapped && churns q2 out).
  - eapply ends_bind; [by apply putback_ok|]. intros _ q3 (Hq3 & Hs3 & Hl3). apply ends_ret. split_and!; [done|etrans; [exact Hs1|]; by etrans|]. intros _ s. by rewrite Hl3, Hl2, Hl1.
  - eapply ends_bind; [by apply kick_ok|]. intros _ q3 (Hq3 & Hs3). apply ends_ret. split_and!; [done|etrans; [exact Hs1|]; by etrans|done].
Qed.

(** An account has a list only for known transactions. *)
Lemma list_known R D p s a l : pool_inv [] None R D p -> lists s p !! a = Some l -> exists tx, tx_sender tx = Some a /\ known p !! tx_hash tx = Some tx.
Proof.
  intros Hp Hl. pose proof (sd_some _ _ _ (pi_side _ _ _ _ p Hp s) a l Hl ltac:(done)) as Hne. apply map_choose in Hne as (n & x & Hx). rewrite <- (item_list _ _ _ _ Hl) in Hx. destruct (inv_item Hp s a n x Hx) as (_ & _ & Ha). exists x. split; [done|].
  rewrite <- known_Get. by eapply (inv_known Hp s), inv_located.
Qed.

Lemma known_list R D p tx a : pool_inv [] None R D p -> known p !! tx_hash tx = Some tx -> tx_sender tx = Some a -> exists s, is_Some (lists s p !! a).
Proof.
  intros Hp Hk Ha. rewrite <- known_Get in Hk. apply (pi_known _ _ _ _ p Hp) in Hk. assert (Hloc : exists s, located p s tx) by (destruct Hk as [|[|]]; [eauto|eauto|set_solver]). destruct Hloc as [s Hloc]. exists s. apply located_list in Hloc as (a' & l & Ha' & Hl & _). rewrite Ha in Ha'. injection Ha' as <-. eauto.
Qed.

(** A reservation that a list justifies. *)
Lemma inv_justified X E R D p a s : pool_inv X E ({[a]} ∪ R) D p -> is_Some (lists s p !! a) -> pool_inv X E R D p.
Proof. intros [P1 P2 P3 P4 P5 P6 P7 P8 P9 P10] Ha. split; try done. intros b. rewrite P7. destruct (decide (b = a)) as [-> |]; [destruct s; cbn in Ha|]; set_solver. Qed.

(** A new transaction takes the place of an old one in the lookup and the heaps. *)
Definition drop_old (old : option T) : M (LegacyPool T) unit := match old with Some old => on_all (all_Remove (tx_hash old)) ;;; on_priced (priced_Removed 1) | None => mret tt end.
Definition book (tx : T) (local : bool) : M (LegacyPool T) unit := on_all (all_Add tx local) ;;; on_priced (fun _ => priced_Put tx local).

Definition same_lists p p' : Prop := (forall s, lists s p' = lists s p) /\ p_reserved p' = p_reserved p /\ p_foreign p' = p_foreign p /\ p_events p' = p_events p /\ same_env p p'.

Lemma drop_old_ok old p : priced_ok (p_all p) [] (p_priced p) -> ends (drop_old old) p (fun _ p' => same_lists p p' /\ p_all p' = (match old with Some old => all_Remove (tx_hash old) (p_all p) | None => p_all p end) /\ priced_ok (p_all p') [] (p_priced p')).
Proof.
  intros Hp. destruct old as [old|]; [|by apply ends_ret]. apply ends_then, ends_modify. assert (Hpr : priced_ok (all_Remove (tx_hash old) (p_all p)) [] (p_priced p)) by (eapply priced_weaken; [exact Hp| |done]; destruct (Remove_remotes (p_all p) (tx_hash old)) as [-> |[-> _]]; [apply delete_subseteq|done]).
  destruct (removed_ok _ [] _ 1 Hpr) as (pl & Hr & Hok). exists tt. eexists. unfold on_priced. cbn [p_all p_priced set_all]. rewrite Hr. by split.
Qed.

Lemma book_ok tx local p : priced_ok (p_all p) [] (p_priced p) -> ends (book tx local) p (fun _ p' => same_lists p p' /\ p_all p' = all_Add tx local (p_all p) /\ priced_ok (p_all p') [] (p_priced p')).
Proof.
  intros Hp. apply ends_then, ends_modify. destruct (put_new_ok (p_all p) [] (p_priced p) tx local Hp) as (pl & Hr & Hok). exists tt. eexists. unfold on_priced. cbn [p_all p_priced set_all]. rewrite Hr. by split.
Qed.

Lemma same_lists_trans p q r : same_lists p q -> same_lists q r -> same_lists p r.
Proof. intros (H1 & H2 & H3 & H4 & H5) (H6 & H7 & H8 & H9 & H10). split_and!; [intros s; by rewrite H6|congruence|congruence|congruence|by etrans]. Qed.

(** What an addition changes. *)
Record grows (local : bool) tx p p' : Prop := {
  gr_config : p_config p' = p_config p;
  gr_view : p_view p' = p_view p;
  gr_gasTip : p_gasTip p' = p_gasTip p;
  gr_foreign : p_foreign p' = p_foreign p;
  gr_locals : if local then p_locals p ⊆ p_locals p' else p_locals p' = p_locals p;
  gr_known : known p' ⊆ <[tx_hash tx := tx]> (known p)
}.

Lemma known_Add t tx local : lk_locals (all_Add tx local t) ∪ lk_remotes (all_Add tx local t) ⊆ <[tx_hash tx := tx]> (lk_locals t ∪ lk_remotes t) \/ is_Some (all_Get (tx_hash tx) t).
Proof.
  destruct (all_Get (tx_hash tx) t) as [x|] eqn:Hx; [right; eauto|left]. unfold all_Get in Hx. destruct (lk_locals t !! tx_hash tx) eqn:Hl; [done|]. destruct local; cbn; [by rewrite insert_union_l|]. by rewrite insert_union_r.
Qed.

(** The new transaction in a list and in the books. *)
Lemma insert_booked R p s a tx l l' old local : pool_inv [] None R [] p -> lists s p !! a = Some l \/ lists s p !! a = None /\ l = newList s -> list_ok l' -> strict l' = s -> items (txs l') = <[tx_nonce tx := tx]> (items (txs l)) -> old = items (txs l) !! tx_nonce tx ->
  tx_sender tx = Some a -> in64 (tx_nonce tx) -> a ∈ p_reserved p -> all_Get (tx_hash tx) (p_all p) = None -> item (lists (negb s) p) a (tx_nonce tx) = None ->
  ends (drop_old old ;;; book tx local) (set_lists s (<[a := l']> (lists s p)) p) (fun _ p' => pool_inv [] None R [] p' /\ grows false tx p p' /\ all_Get (tx_hash tx) (p_all p') = Some tx /\ is_Some (lists s p' !! a)).
Proof.
  intros Hp Hl Hok Hst Hit Hold Ha Hn Hr Hnew Hfree. set (q := set_lists s _ p). assert (Hall : p_all q = p_all p) by (unfold q; by destruct s). assert (Hcon : items (txs l) = content (lists s p) a) by (unfold content; destruct Hl as [-> |[-> ->]]; done).
  assert (Hold' : old = item (lists s p) a (tx_nonce tx)) by (by rewrite item_content, <- Hcon). eapply ends_bind; [apply drop_old_ok; unfold q; destruct s; apply Hp|]. intros [] q1 (Hl1 & Ha1 & Hpr1). eapply ends_mono; [by apply book_ok|]. intros [] q2 (Hl2 & Ha2 & Hpr2).
  pose proof (same_lists_trans q q1 q2 Hl1 Hl2) as (L1 & L2 & L3 & L4 & L5). rewrite Ha1, Hall, Hold' in Ha2.
  assert (Hinv : pool_inv [] None R [] q2).
  { eapply (insert_new R [] p q2 s a tx l' local Hp); try done.
    - split; [done|done|by rewrite Hit, Hcon].
    - intros s'. rewrite L1. unfold q. apply lists_set.
    - rewrite L2. unfold q. by destruct s.
    - rewrite L3. unfold q. by destruct s.
    - rewrite L4. unfold q. by destruct s. }
  assert (Hn1 : all_Get (tx_hash tx) (match item (lists s p) a (tx_nonce tx) with Some o => all_Remove (tx_hash o) (p_all p) | None => p_all p end) = None) by (destruct (item (lists s p) a (tx_nonce tx)); [rewrite Remove_Get; by case_decide|done]).
  split_and!; [done| | |rewrite L1; unfold q; rewrite lists_set, decide_True by done; rewrite lookup_insert_eq; eauto].
  - destruct L5. split; try (etrans; [eassumption|unfold q; by destruct s]). unfold known. rewrite Ha2. destruct (known_Add (match item (lists s p) a (tx_nonce tx) with Some o => all_Remove (tx_hash o) (p_all p) | None => p_all p end) tx local) as [Hk|[? Hk]]; [|congruence].
    etrans; [exact Hk|]. apply insert_mono. destruct (item (lists s p) a (tx_nonce tx)); [apply known_Remove|done].
  - rewrite Ha2, Add_Get by done. by rewrite decide_True.
Qed.

Lemma ends_booked {A} (old : option T) tx local (k : M (LegacyPool T) A) p Q : ends (drop_old old ;;; book tx local) p (fun _ p' => ends k p' Q) -> ends (drop_old old ;;; (on_all (all_Add tx local) ;;; on_priced (fun _ => priced_Put tx local) ;;; k)) p Q.
Proof. intros (u & p' & Hm & a & p'' & Hk & HQ). exists a, p''. split; [|done]. unfold book in Hm. rewrite <- Hk. revert Hm. unfold mthen. destruct (drop_old old p) as [[? p1]| |]; cbn; [|done|done]. destruct (on_priced _ _) as [[? p2]| |]; cbn; [|done|done]. by intros [= _ <-]. Qed.

Lemma event_ok X E R D p tx : pool_inv X E R D p -> in64 (tx_nonce tx) -> ends (queueTxEvent tx) p (fun _ p' => pool_inv X E R D p' /\ (forall s, lists s p' = lists s p) /\ p_all p' = p_all p /\ same_env p p').
Proof.
  intros Hp Hn. unfold queueTxEvent, on_event. assert (Hx : sm_ok (default newSortedMap (p_events p !! sender tx))) by (destruct (p_events p !! sender tx) as [x|] eqn:Hx; [by apply (pi_events _ _ _ _ p Hp (sender tx))|apply new_ok]). destruct (put_spec _ tx Hx Hn) as (x & Hr & Hok & _).
  eexists tt, _. rewrite Hr. split; [reflexivity|]. split_and!; [|done|done|done]. destruct Hp as [P1 P2 P3 P4 P5 P6 P7 P8 P9 P10]. split; try done. by apply map_Forall_insert_2.
Qed.

(** A refused replacement leaves the contents. *)
Lemma refused R p s a l l' : pool_inv [] None R [] p -> lists s p !! a = Some l -> list_ok l' -> strict l' = strict l -> items (txs l') = items (txs l) -> pool_inv [] None R [] (set_lists s (<[a := l']> (lists s p)) p) /\ is_Some (lists s (set_lists s (<[a := l']> (lists s p)) p) !! a).
Proof.
  intros Hp Hl Hok Hst Hit. split; [|rewrite lists_set, decide_True by done; rewrite lookup_insert_eq; eauto]. apply (untouched R [] p s a l l' Hp Hl); [|done]. split; [done|done|by rewrite Hit|by rewrite Hit].
Qed.

Definition add_done (local : bool) tx (from : Z) p (r : bool * option pool_error) p' : Prop :=
  match snd r with
  | None => grows local tx p p' /\ pool_inv [] None ∅ [] p' /\ all_Get (tx_hash tx) (p_all p') = Some tx
  | Some _ => shrinks p p' /\ pool_inv [] None {[from]} [] p' /\ exists s, is_Some (lists s p' !! from)
  end.

Lemma grows_local local tx p p' : grows false tx p p' -> grows local tx p p'.
Proof. intros [G1 G2 G3 G4 G5 G6]. split; try done. destruct local; [by rewrite G5|done]. Qed.

Lemma replace_pending p tx isLocal from l : pool_inv [] None {[from]} [] p -> p_pending p !! from = Some l -> is_Some (items (txs l) !! tx_nonce tx) -> tx_sender tx = Some from -> in64 (tx_nonce tx) -> all_Get (tx_hash tx) (p_all p) = None ->
  ends (let* (inserted, old) := on_pending from (list_Add tx (PriceBump (p_config p))) in
    if negb inserted then mret (false, Some ErrReplaceUnderpriced)
    else drop_old old ;;; on_all (all_Add tx isLocal) ;;; on_priced (fun _ => priced_Put tx isLocal) ;;; queueTxEvent tx ;;; beat from ;;; mret (bool_decide (is_Some old), None)) p (add_done false tx from p).
Proof.
  intros Hp Hl [o Ho] Ha Hn Hnew. pose proof (inv_list Hp true from l Hl) as Hok. destruct (add_put tx (PriceBump (p_config p)) l Hok Hn) as (b & old & l' & Hr & Hok' & Hst' & Hb). apply ends_then. eexists _, _. split; [exact (on_side_Ret true from _ p l _ l' Hl Hr)|]. cbn [fst snd].
  destruct b; cbn [negb].
  - destruct Hb as [Hit Hold]. assert (Hfree : item (lists false p) from (tx_nonce tx) = None) by (eapply (inv_apart Hp true false); [rewrite (item_list _ _ _ _ Hl); exact Ho|done]).
    apply ends_booked. eapply ends_mono; [apply (insert_booked {[from]} p true from tx l l' old isLocal Hp (or_introl Hl) Hok'); try done; [rewrite Hst'; by apply (sd_strict _ _ _ (pi_side _ _ _ _ p Hp true) from)|by eapply (inv_reserved Hp true)]|].
    intros [] q (Hq & Hg & Hget & Hsome). apply ends_then. eapply ends_mono; [by apply event_ok|]. intros [] q1 (Hq1 & Hl1 & Ha1 & Hse). apply ends_then, ends_modify, ends_ret. split.
    + destruct Hg, Hse. split; cbn; try (etrans; [eassumption|done]). unfold known in *. cbn. by rewrite Ha1.
    + cbn [snd]. split; [|cbn; by rewrite Ha1]. apply (inv_justified _ _ ∅ _ _ from true); [|cbn; change (p_pending q1) with (lists true q1); by rewrite Hl1]. rewrite right_id_L by apply _. eapply same_inv; [|exact Hq1]; by split.
  - destruct Hb as [Hit _]. destruct (refused {[from]} p true from l l' Hp Hl Hok' Hst' Hit) as [Hq Hs]. apply ends_ret. split; [apply set_lists_shrinks|]. split; [done|by exists true].
Qed.

Lemma enqueue_new p tx isLocal from hash : pool_inv [] None {[from]} [] p -> tx_sender tx = Some from -> in64 (tx_nonce tx) -> all_Get (tx_hash tx) (p_all p) = None -> item (p_pending p) from (tx_nonce tx) = None ->
  ends (enqueueTx hash tx isLocal true) p (add_done false tx from p).
Proof.
  intros Hp Ha Hn Hnew Hfree. unfold enqueueTx. rewrite (sender_Some tx from Ha). apply ends_get, ends_then. set (l := default (newList false) (p_queue p !! from)).
  set (q := if has from (p_queue p) then p else set_queue (<[from := newList false]> (p_queue p)) p).
  assert (Hq : ends (if has from (p_queue p) then mret tt else mmodify (set_queue (<[from := newList false]> (p_queue p)))) p (fun _ q' => q' = q)) by (unfold q; destruct (has from (p_queue p)); [by apply ends_ret|by apply ends_modify]).
  eapply ends_mono; [exact Hq|]. intros _ ? ->. assert (Hlq : p_queue q !! from = Some l) by (unfold q, l, has; destruct (p_queue p !! from) as [l0|] eqn:Hl; [by rewrite bool_decide_eq_true_2 by eauto|rewrite bool_decide_eq_false_2 by (by intros []); cbn; apply lookup_insert_eq]).
  assert (Hset : forall l', set_lists false (<[from := l']> (lists false q)) q = set_lists false (<[from := l']> (lists false p)) p) by (intros l'; unfold q; destruct (has from (p_queue p)); [done|]; cbn; unfold set_queue; cbn; f_equal; apply insert_insert_eq).
  assert (Hl : list_ok l /\ strict l = false /\ (p_queue p !! from = Some l \/ p_queue p !! from = None /\ l = newList false)).
  { unfold l. destruct (p_queue p !! from) as [l0|] eqn:Hl; cbn; [|split_and!; [apply newList_ok|done|by right]]. split_and!; [by apply (inv_list Hp false from)|by apply (sd_strict _ _ _ (pi_side _ _ _ _ p Hp false) from)|by left]. }
  destruct Hl as (Hok & Hst & Hl). destruct (add_put tx (PriceBump (p_config p)) l Hok Hn) as (b & old & l' & Hr & Hok' & Hst' & Hb). apply ends_then. eexists _, _. split; [exact (on_side_Ret false from _ q l _ l' Hlq Hr)|]. rewrite Hset. destruct b; cbn [negb].
  - destruct Hb as [Hit Hold]. assert (Hbook : ends (drop_old old ;;; book tx isLocal) (set_lists false (<[from := l']> (lists false p)) p) (fun _ p' => pool_inv [] None {[from]} [] p' /\ grows false tx p p' /\ all_Get (tx_hash tx) (p_all p') = Some tx /\ is_Some (lists false p' !! from))).
    { apply (insert_booked {[from]} p false from tx l l' old isLocal Hp Hl Hok'); try done; [congruence|]. apply (pi_reserved _ _ _ _ p Hp). set_solver. }
    eapply ends_bind; [exact (ends_then_inv _ _ _ _ Hbook)|]. intros [] q1 Hq1. eapply ends_bind; [exact Hq1|]. intros [] q2 (Hq2 & Hg & Hget & Hsome). apply ends_get.
    assert (Hdone : forall q3, same_books q2 q3 -> same_env q2 q3 -> add_done false tx from p (bool_decide (is_Some old), None) q3).
    { intros q3 Hsb Hse. pose proof (sb_all _ _ Hsb) as Hall. split.
      - destruct Hg as [G1 G2 G3 G4 G5 G6], Hse as [E1 E2 E3 E4 E5]. split; try (etrans; [eassumption|done]). unfold known in *. by rewrite Hall.
      - cbn [snd]. rewrite Hall. split; [|done]. apply (same_inv _ _ _ _ q2); [done|]. apply (inv_justified _ _ ∅ _ _ from false); [|done]. by rewrite right_id_L by apply _. }
    apply ends_then. destruct (has from (p_beats q2)); [apply ends_ret, ends_ret; by apply Hdone|]. apply ends_modify, ends_ret. apply Hdone; by split.
  - destruct Hb as [Hit [o Ho]]. destruct Hl as [Hl|[_ Hl]]; [|rewrite Hl in Ho; cbn in Ho; by rewrite lookup_empty in Ho]. destruct (refused {[from]} p false from l l' Hp Hl Hok' Hst' Hit) as [Hq' Hs]. apply ends_ret.
    split; [apply set_lists_shrinks|]. split; [done|by exists false].
Qed.

(** Transactions of an account that becomes local are local. *)
Lemma migrate_run tx p from : pool_inv [] None ∅ [] p -> all_Get (tx_hash tx) (p_all p) = Some tx ->
  ends (mmodify (fun p => set_locals ({[from]} ∪ p_locals p) p) ;;;
        let* p := mget in
        let '(migrated, all) := RemoteToLocals (p_locals p) (p_all p) in
        mmodify (set_all all) ;;;
        on_priced (priced_Removed migrated)) p
    (fun _ p' => pool_inv [] None ∅ [] p' /\ all_Get (tx_hash tx) (p_all p') = Some tx /\ known p' = known p /\ p_locals p ⊆ p_locals p' /\ p_config p' = p_config p /\ p_view p' = p_view p /\ p_gasTip p' = p_gasTip p /\ p_foreign p' = p_foreign p).
Proof.
  intros Hp Hget. apply ends_then, ends_modify, ends_get. set (q := set_locals _ p). destruct (RemoteToLocals (p_locals q) (p_all q)) as [migrated all] eqn:Hm. pose proof (migrate_ok (p_all q) (p_locals q) (pi_all _ _ _ _ p Hp)) as (Hok & Hsame & Hsub). rewrite Hm in Hok, Hsame, Hsub. cbn [snd] in *.
  apply ends_then, ends_modify. set (q1 := set_all all q). assert (Hq1 : pool_inv [] None ∅ [] q1).
  { destruct Hp as [P1 P2 P3 P4 P5 P6 P7 P8 P9 P10]. split; try done; cbn [p_all q1 set_all p_priced q set_locals]; [intros x; rewrite Hsame; apply P4|]. by eapply priced_weaken. }
  assert (Hk : known q1 = known p) by (apply map_eq; intros h; rewrite <- !known_Get; cbn; apply Hsame).
  eapply ends_mono; [apply (on_priced_ok _ _ _ [] [] q1 _ Hq1); apply removed_ok, Hq1|]. intros [] p' (Hp' & Hs & Hl & Ha). destruct Hs as [[E1 E2 E3 E4 E5] _]. split_and!; try done.
  - rewrite Ha. cbn. by rewrite Hsame.
  - unfold known in *. by rewrite Ha.
  - rewrite E4. cbn. set_solver.
Qed.

Lemma insert_tx_ok p tx local isLocal from : pool_inv [] None {[from]} [] p -> tx_sender tx = Some from -> in64 (tx_nonce tx) -> all_Get (tx_hash tx) (p_all p) = None -> ends (insert_tx tx local isLocal from) p (add_done local tx from p).
Proof.
  intros Hp Ha Hn Hnew. unfold insert_tx. apply ends_get. destruct (match p_pending p !! from with Some l => Contains (tx_nonce tx) l | None => false end) eqn:Hc.
  - destruct (p_pending p !! from) as [l|] eqn:Hl; [|done]. unfold Contains, sm_Get in Hc. apply bool_decide_eq_true in Hc. eapply ends_mono; [by apply (replace_pending p tx isLocal from l)|]. intros [replaced [err|]] q Hd; [done|]. destruct Hd as (Hg & Hd). split; [by apply grows_local|done].
  - assert (Hfree : item (p_pending p) from (tx_nonce tx) = None). { unfold item. destruct (p_pending p !! from) as [l|]; [|done]. cbn. unfold Contains, sm_Get in Hc. apply bool_decide_eq_false in Hc. by apply eq_None_not_Some. }
    eapply ends_bind; [by apply (enqueue_new p tx isLocal from (tx_hash tx))|]. intros [replaced [err|]] q Hd; cbn [fst snd] in *; [by apply ends_ret|]. destruct Hd as (Hg & Hq & Hget). apply ends_get, ends_then.
    destruct (local && negb (bool_decide (from ∈ p_locals q))) eqn:Hloc; [|apply ends_ret, ends_ret; split; [by apply grows_local|done]]. apply andb_prop in Hloc as [-> _].
    eapply ends_mono; [by apply (migrate_run tx q from)|]. intros [] r (Hr & Hget' & Hk & Hlr & E1 & E2 & E3 & E5). apply ends_ret. split; [|done]. destruct Hg as [G1 G2 G3 G4 G5 G6]. split; [congruence|congruence|congruence|congruence|by rewrite <- G5|by rewrite Hk].
Qed.

(** The pool after an addition of at most [n] transactions. *)
Record grown (local : bool) (n : Z) p p' : Prop := {
  gn_config : p_config p' = p_config p;
  gn_view : p_view p' = p_view p;
  gn_gasTip : p_gasTip p' = p_gasTip p;
  gn_foreign : p_foreign p' = p_foreign p;
  gn_locals : if local then p_locals p ⊆ p_locals p' else p_locals p' = p_locals p;
  gn_size : Z.of_nat (size (known p')) <= Z.of_nat (size (known p)) + n
}.

Lemma shrinks_grown local p p' : shrinks p p' -> grown local 0 p p'.
Proof. intros [[E1 E2 E3 E4 E5] Hk]. split; try done; [destruct local; [by rewrite E4|done]|]. apply map_subseteq_size in Hk. lia. Qed.

Lemma grows_grown local tx p p' : grows local tx p p' -> grown local 1 p p'.
Proof.
  intros [G1 G2 G3 G4 G5 G6]. split; try done. apply map_subseteq_size in G6. assert (size (<[tx_hash tx := tx]> (known p)) <= S (size (known p)))%nat; [|lia]. destruct (known p !! tx_hash tx) eqn:Hx; [rewrite map_size_insert_Some by eauto; lia|by rewrite map_size_insert_None].
Qed.

Lemma grown_trans local n k p q r : grown local n p q -> grown local k q r -> grown local (n + k) p r.
Proof. intros [G1 G2 G3 G4 G5 G6] [H1 H2 H3 H4 H5 H6]. split; try congruence; [destruct local; [by etrans|congruence]|lia]. Qed.

Lemma grown_more local n k p q : n <= k -> grown local n p q -> grown local k p q.
Proof. intros Hn [G1 G2 G3 G4 G5 G6]. split; try done. lia. Qed.

Lemma add_valid_ok p tx local isLocal from : pool_inv [] None {[from]} [] p -> config_ok (p_config p) -> tx_sender tx = Some from -> in64 (tx_nonce tx) -> all_Get (tx_hash tx) (p_all p) = None ->
  ends (add_valid tx local isLocal from) p (fun r p' => grown local 1 p p' /\ match snd r with
    | None => pool_ok p' /\ all_Get (tx_hash tx) (p_all p') = Some tx
    | Some _ => pool_inv [] None {[from]} [] p' /\ ((exists s, is_Some (lists s p !! from)) <-> exists s, is_Some (lists s p' !! from))
    end).
Proof.
  intros Hp Hc Ha Hn Hnew. unfold add_valid. eapply ends_bind; [by apply make_room_ok|]. intros err q (Hq & Hs & Hkeep). destruct err as [err|].
  - apply ends_ret. split; [apply (grown_more local 0 1); [lia|by apply shrinks_grown]|]. cbn [snd]. split; [done|]. setoid_rewrite (Hkeep ltac:(done)). done.
  - assert (Hnq : all_Get (tx_hash tx) (p_all q) = None) by (rewrite known_Get in *; destruct (known q !! tx_hash tx) as [x|] eqn:Hx; [by rewrite (lookup_weaken _ _ _ _ Hx (sh_known _ _ Hs)) in Hnew|done]).
    eapply ends_mono; [by apply (insert_tx_ok q tx local isLocal from)|]. intros [replaced [err|]] r Hd; cbn [snd] in *.
    + destruct Hd as (Hs' & Hr & [s Hsome]). split; [apply (grown_more local 0 1); [lia|]; apply shrinks_grown; by etrans|]. split; [done|]. split; [eauto|]. intros _. destruct Hsome as [l Hl]. destruct (list_known {[from]} [] r s from l Hr Hl) as (x & Hxs & Hxk).
      eapply (known_list {[from]} [] p x from Hp); [|done]. eapply lookup_weaken; [exact Hxk|]. etrans; [apply Hs'|apply Hs].
    + destruct Hd as (Hg & Hr & Hget). split; [|done]. apply (grown_trans local 0 1 p q r); [by apply shrinks_grown|by eapply grows_grown].
Qed.

(** A transaction is refused and the pool keeps its books, or it is in the pool. *)
Lemma add_ok p tx local : pool_ok p -> config_ok (p_config p) -> in64 (tx_nonce tx) -> ends (add tx local) p (fun r p' => pool_ok p' /\ grown local 1 p p' /\ (snd r = None -> all_Get (tx_hash tx) (p_all p') = Some tx)).
Proof.
  intros Hp Hc Hn. unfold add. apply ends_get. assert (Hsame : grown local 1 p p) by (apply (grown_more local 0 1); [lia|by apply shrinks_grown]). destruct (all_Get (tx_hash tx) (p_all p)) as [x|] eqn:Hnew; [by apply ends_ret|]. destruct (validateTx tx p) as [err|] eqn:Hv; [by apply ends_ret|].
  assert (Ha : exists from, tx_sender tx = Some from) by (unfold validateTx in Hv; destruct (tx_sender tx); [eauto|done]). destruct Ha as [from Ha]. rewrite (sender_Some _ _ Ha). set (isLocal := local || containsTx (p_locals p) tx).
  assert (Hlists : negb (has from (p_pending p)) && negb (has from (p_queue p)) = false <-> exists s, is_Some (lists s p !! from)).
  { unfold has. split; [|intros [[] Hs]; cbn in Hs; [by rewrite (bool_decide_eq_true_2 _ Hs)|rewrite (bool_decide_eq_true_2 _ Hs); apply andb_false_r]]. intros Hb. apply andb_false_iff in Hb as [Hb|Hb]; apply negb_false_iff, bool_decide_eq_true in Hb; [by exists true|by exists false]. }
  destruct (negb (has from (p_pending p)) && negb (has from (p_queue p))) eqn:Hno.
  - assert (Hnone : ~ exists s, is_Some (lists s p !! from)) by (intros Hs; by apply Hlists in Hs). assert (Hnr : from ∉ p_reserved p) by (intros Hr; apply (pi_reserved _ _ _ _ p Hp) in Hr as [|[|]]; [by destruct Hnone; exists true|by destruct Hnone; exists false|set_solver]).
    apply ends_then. unfold reserve. apply ends_get. rewrite bool_decide_eq_false_2 by done. case_bool_decide as Hf; [apply ends_ret, ends_ret; by split_and!|]. apply ends_then, ends_modify, ends_ret, ends_then. set (q := set_reserved _ p).
    assert (Hq : pool_inv [] None {[from]} [] q). { destruct Hp as [P1 P2 P3 P4 P5 P6 P7 P8 P9 P10]. split; try done; cbn [p_reserved q set_reserved p_pending p_queue p_foreign]; [set_solver|intros a; rewrite elem_of_union, P7; set_solver|set_solver]. }
    eapply ends_mono; [by apply (add_valid_ok q tx local isLocal from)|]. intros [replaced [err|]] r [Hg Hd]; cbn [fst snd] in *; [|apply ends_then, ends_ret, ends_ret; split_and!; [apply Hd|by destruct Hg; split|intros _; apply Hd]].
    destruct Hd as [Hr Hiff]. apply ends_then. assert (Hnone' : ~ exists s, is_Some (lists s r !! from)) by (intros Hs; by apply Hiff in Hs). destruct (release_ok None ∅ [] r from) as (r' & Hrel & Hr' & Hse & Hls & Hall); [by rewrite right_id_L by apply _|].
    exists tt, r'. split.
    + revert Hrel. unfold release, has. srun. rewrite !bool_decide_eq_false_2; [done|intros Hs; by destruct Hnone'; exists false|intros Hs; by destruct Hnone'; exists true].
    + apply ends_ret. split_and!; [unfold pool_ok; by replace (∅ : gset Z) with ((∅ : gset Z) ∖ {[from]}) by set_solver| |done]. apply (grown_trans local 1 0 p r r'); [by destruct Hg; split|apply shrinks_grown, shrinks_same; done].
  - assert (Hs : exists s, is_Some (lists s p !! from)) by (by apply Hlists). assert (Hq : pool_inv [] None {[from]} [] p). { destruct Hs as [s [l Hl]]. replace ({[from]} : gset Z) with ({[from]} ∪ (∅ : gset Z)) by set_solver. apply inv_spare; [done|]. by eapply (inv_reserved Hp s). }
    eapply ends_mono; [by apply (add_valid_ok p tx local isLocal from)|]. intros [replaced [err|]] r [Hg Hd]; cbn [snd] in *; [|split_and!; [apply Hd|done|intros _; apply Hd]]. destruct Hd as [Hr Hiff]. apply Hiff in Hs as [s Hs]. split_and!; [|done|done]. apply (inv_justified _ _ ∅ _ _ from s); [by rewrite right_id_L by apply _|done].
Qed.

Lemma addTxs_ok local out : forall p, pool_ok p -> config_ok (p_config p) -> Forall (fun tx => in64 (tx_nonce tx)) out -> ends (addTxsLocked out local) p (fun r p' => pool_ok p' /\ grown local (Zlen out) p p' /\ length (fst r) = length out).
Proof.
  induction out as [|tx out IH]; intros p Hp Hc Hn; cbn [addTxsLocked].
  - apply ends_ret. split_and!; [done|by apply shrinks_grown|done].
  - apply Forall_cons_1 in Hn as [Hn Hns]. eapply ends_bind; [by apply add_ok|]. intros [replaced err] q (Hq & Hg & _). eapply ends_bind; [apply (IH q Hq); [by rewrite (gn_config _ _ _ _ Hg)|done]|]. intros [errs dirty] r (Hr & Hg' & Hlen). cbn [fst] in Hlen. apply ends_ret. split_and!; [done| |cbn; by rewrite Hlen].
    replace (Zlen (tx :: out)) with (1 + Zlen out) by (unfold Zlen; cbn; lia). by eapply grown_trans.
Qed.

(** *** Events and nonces *)

Definition events_ok (events : gmap Z (sortedMap T)) : Prop := map_Forall (fun _ x => sm_ok x) events.

Lemma on_event_ok {A} a (m : M (sortedMap T) A) (events : gmap Z (sortedMap T)) : events_ok events -> (forall x, sm_ok x -> exists r x', m x = Ret (r, x') /\ sm_ok x') -> exists r events', on_event a m events = Ret (r, events') /\ events_ok events'.
Proof.
  intros He Hm. assert (Hx : sm_ok (default newSortedMap (events !! a))) by (destruct (events !! a) as [x|] eqn:Hx; [by apply (He a)|apply new_ok]). destruct (Hm _ Hx) as (r & x' & Hr & Hx'). exists r. eexists. unfold on_event. rewrite Hr. split; [reflexivity|]. by apply map_Forall_insert_2.
Qed.

Lemma trim_ok X E R D accounts : forall p events, pool_inv X E R D p -> events_ok events -> ends (trim_events accounts events) p (fun r p' => events_ok r /\ pool_inv X E R D p' /\ shrinks p p').
Proof.
  induction accounts as [|a accounts IH]; intros p events Hp He; cbn [trim_events]; [by apply ends_ret|]. eapply ends_bind; [apply (on_nonces_ok _ X E R D p (noncer_get_Ret a _) Hp)|]. intros next q (Hq & Hs & _).
  destruct (on_event_ok a (sm_Forward next) events He) as (r & events' & Hr & He'); [intros x Hx; destruct (forward_spec x next Hx) as (m & Hm & Hok & _); eauto|]. eapply ends_lifted; [exact Hr|]. cbn [fst snd].
  eapply ends_mono; [apply (IH q _ Hq)|intros ev p' (? & ? & ?); split_and!; [done|done|by etrans]]. destruct (events' !! a); [|done]. destruct (_ =? 0); [by apply map_Forall_delete|done].
Qed.

Lemma flatten_all_ok ls : Forall sm_ok ls -> exists r : list T, flatten_all ls = Ret r.
Proof. induction 1 as [|x ls Hx Hls [r IH]]; cbn [flatten_all]; [by eexists|]. destruct (flatten_spec x Hx) as (m & Hm & _). unfold sm_Flatten. rewrite Hm. cbn. rewrite IH. by eexists. Qed.

Lemma event_txs_ok events out : events_ok events -> Forall (fun tx => in64 (tx_nonce tx)) out -> exists r, event_txs events out = Ret r.
Proof.
  intros He Hn. unfold event_txs. assert (Hput : ends (foreach out (fun tx => on_event (sender tx) (sm_Put tx))) events (fun _ ev => events_ok ev)).
  { eapply ends_mono; [apply (ends_foreach _ (fun (r : list T) ev => events_ok ev /\ Forall (fun tx => in64 (tx_nonce tx)) r)); [done|]|by intros [] ev [? _]]. intros tx r ev [Hev Hr]. apply Forall_cons_1 in Hr as [Htx Hr].
    destruct (on_event_ok (sender tx) (sm_Put tx) ev Hev) as (u & ev' & Hu & Hev'); [intros x Hx; destruct (put_spec x tx Hx Htx) as (m & Hm & Hok & _); eauto|]. exists u, ev'. by split. }
  destruct Hput as (u & ev & Hr & Hev). rewrite Hr. cbn. apply flatten_all_ok. apply Forall_forall. intros x Hx%list_elem_of_In. apply list_elem_of_fmap in Hx as ([a y] & -> & Hx). rewrite range_perm in Hx. apply elem_of_map_to_list in Hx. by apply (Hev a).
Qed.

Lemma last_took l : list_ok l -> items (txs l) <> ∅ -> exists x l', list_LastElement l = Ret (x, l') /\ took l [] l' /\ items (txs l') = items (txs l).
Proof.
  intros [H1 H2 H3] Hne. destruct (last_spec (txs l) H1) as (r & Hr & Hlast). destruct (list.last (flat (items (txs l)))) as [x|] eqn:Hx.
  - destruct Hlast as (m & -> & Hm & Hit). exists x, (set_txs m l). unfold list_LastElement. rewrite (on_txs_Ret _ _ _ _ Hr). split; [done|]. cbn. split; [|done]. split; cbn; [split; cbn; rewrite ?Hit; done|done|by rewrite Hit|by rewrite Hit].
  - apply last_None in Hx. destruct Hne. apply map_size_empty_iff. rewrite <- length_flat, Hx. done.
Qed.

Lemma next_nonces_ok R D accounts : forall p, pool_inv [] None R D p -> (forall a, a ∈ accounts -> is_Some (p_pending p !! a)) -> ends (next_nonces accounts) p (fun _ p' => pool_inv [] None R D p' /\ dropped [] p p').
Proof.
  induction accounts as [|a accounts IH]; intros p Hp Hin; cbn [next_nonces]; [apply ends_ret; split; [done|by apply dropped_same]|]. destruct (Hin a) as [l Hl]; [set_solver|].
  destruct (last_took l (inv_list Hp true a l Hl) (sd_some _ _ _ (pi_side _ _ _ _ p Hp true) a l Hl ltac:(done))) as (x & l' & Hr & Ht & Hit). destruct (untouched R D p true a l l' Hp Hl Ht Hit) as [Hq Hitems].
  apply ends_then. eexists _, _. split; [exact (on_side_Ret true a _ p l _ l' Hl Hr)|]. set (q := set_lists true _ p) in *. eapply ends_bind; [apply (IH q Hq)|].
  - intros b Hb. cbn. rewrite lookup_insert_is_Some. destruct (decide (a = b)); [by left|right]. split; [done|]. apply Hin. set_solver.
  - intros ns r [Hr' Hd]. apply ends_ret. split; [done|]. apply (dropped_trans [] [] p q r); [|done]. apply dropped_same; [apply set_lists_shrinks|done].
Qed.

End Operations.
