(* ===== verification/PoolTheorems.v ===== *)
(** * What the transaction pool promises

    Every operation of the pool returns and keeps its books; after a reorganisation the
    limits hold and, with a new head, the pending transactions of an account start with
    the nonce of the state and are paid for.  A reorganisation brings back the transactions
    of the old branch that the new one lacks. *)

From stdpp Require Import gmap sorting.
From S2P Require Import Prelude Heap TxList TxListTheorems TxPool PoolInvariant PoolOperations.

Section Promises.
Context {T : Type} {V : TxView T} `{!Inhabited T} {MO : MapOrder} {MS : MapOrderSpec MO} {HS : HashedSender} {CH : PoolChain T} {TC : TxChecks T}.
Implicit Types (p : LegacyPool T) (tx : T).

(** What the chain gives: blocks at the height asked for, with valid nonces. *)
Class ChainSpec : Prop := {
  block_hash : forall h n b, GetBlock h n = Some b -> hd_hash (fst b) = h;
  block_number : forall h n b, GetBlock h n = Some b -> hd_number (fst b) = n /\ 0 <= n < 2 ^ 63;
  block_nonces : forall h n b, GetBlock h n = Some b -> Forall (fun tx => in64 (tx_nonce tx)) (snd b)
}.

Context {CS : ChainSpec}.

(** A block of the chain. *)
Definition on_chain (b : Head * list T) : Prop := 0 <= hd_number (fst b) < 2 ^ 63 /\ Forall (fun tx => in64 (tx_nonce tx)) (snd b).

Lemma found_on_chain h n b : GetBlock h n = Some b -> on_chain b /\ hd_number (fst b) = n.
Proof. intros Hb. destruct (block_number h n b Hb) as [Hn Hr]. split; [|done]. split; [by rewrite Hn|by apply (block_nonces h n)]. Qed.

Lemma parent_on_chain b b' : on_chain b -> parent_of b = Some b' -> on_chain b' /\ hd_number (fst b') = hd_number (fst b) - 1.
Proof.
  intros [Hr _] Hp. unfold parent_of in Hp. destruct (found_on_chain _ _ _ Hp) as [Hb Hn]. split; [done|]. rewrite Hn. destruct (decide (hd_number (fst b) = 0)) as [H0|H0].
  - rewrite H0 in *. destruct Hb as [Hb _]. rewrite Hn in Hb. unfold u64 in Hb. change ((0 - 1) mod 2 ^ 64) with (2 ^ 64 - 1) in Hb. lia.
  - apply u64_small. unfold in64. lia.
Qed.

(** A branch: blocks from the head down, each the parent of the one before. *)
Inductive branch : Head * list T -> list (Head * list T) -> Head * list T -> Prop :=
| branch_here b : branch b [] b
| branch_step b b' bs e : parent_of b = Some b' -> branch b' bs e -> branch b (b :: bs) e.

Definition branch_txs (bs : list (Head * list T)) : list T := concat (map snd bs).

Lemma branch_app b bs e bs' e' : branch b bs e -> branch e bs' e' -> branch b (bs ++ bs') e'.
Proof. induction 1; [done|]. intros Hb. cbn. eapply branch_step; [done|auto]. Qed.

Lemma branch_nonces b bs e : on_chain b -> branch b bs e -> on_chain e /\ Forall (fun tx => in64 (tx_nonce tx)) (branch_txs bs).
Proof.
  intros Hb Hbr. induction Hbr as [b|b b' bs e Hp Hbr IH]; [by split|]. destruct (parent_on_chain b b' Hb Hp) as [Hb' _]. destruct (IH Hb') as [He Hbs]. split; [done|]. unfold branch_txs. cbn. apply Forall_app. split; [apply Hb|done].
Qed.

Lemma walk_down_ok fuel : forall b to acc, on_chain b -> (Z.to_nat (hd_number (fst b)) < fuel)%nat -> walk_down fuel b to acc = Ret None \/ exists e bs, walk_down fuel b to acc = Ret (Some (e, acc ++ branch_txs bs)) /\ branch b bs e /\ hd_number (fst e) <= hd_number (fst b).
Proof.
  induction fuel as [|fuel IH]; intros b to acc Hb Hf; [lia|]. cbn [walk_down]. destruct (Z.ltb_spec to (hd_number (fst b))); cbn [negb]; [|right; exists b, []; rewrite app_nil_r; split_and!; [done|constructor|lia]].
  destruct (parent_of b) as [b'|] eqn:Hp; [|by left]. destruct (parent_on_chain b b' Hb Hp) as [Hb' Hn]. destruct (IH b' to (acc ++ snd b) Hb') as [->|(e & bs & -> & Hbr & Hle)]; [destruct Hb' as [[] _]; lia|by left|]. right. exists e, (b :: bs). split_and!; [|by econstructor|lia]. unfold branch_txs. cbn. by rewrite <- (assoc_L (++)).
Qed.

Lemma walk_both_ok fuel : forall r a discarded included, on_chain r -> on_chain a -> (Z.to_nat (hd_number (fst r)) < fuel)%nat ->
  walk_both fuel r a discarded included = Ret None \/ exists e e' bs bs', walk_both fuel r a discarded included = Ret (Some (discarded ++ branch_txs bs, included ++ branch_txs bs')) /\ branch r bs e /\ branch a bs' e' /\ hd_hash (fst e) = hd_hash (fst e').
Proof.
  induction fuel as [|fuel IH]; intros r a discarded included Hr Ha Hf; [lia|]. cbn [walk_both]. destruct (Z.eqb_spec (hd_hash (fst r)) (hd_hash (fst a))) as [He|He]; [right; exists r, a, [], []; rewrite !app_nil_r; split_and!; [done|constructor|constructor|done]|].
  destruct (parent_of r) as [r'|] eqn:Hpr; [|by left]. destruct (parent_of a) as [a'|] eqn:Hpa; [|by left]. destruct (parent_on_chain r r' Hr Hpr) as [Hr' Hn], (parent_on_chain a a' Ha Hpa) as [Ha' _].
  destruct (IH r' a' (discarded ++ snd r) (included ++ snd a) Hr' Ha') as [->|(e & e' & bs & bs' & -> & Hb & Hb' & Heq)]; [destruct Hr' as [[] _]; lia|by left|]. right. exists e, e', (r :: bs), (a :: bs'). split_and!; [|by econstructor|by econstructor|done]. unfold branch_txs. cbn. by rewrite <- !(assoc_L (++)).
Qed.

(** The transactions to reinject have valid nonces. *)
Lemma difference_nonces (l l' : list T) : Forall (fun tx => in64 (tx_nonce tx)) l -> Forall (fun tx => in64 (tx_nonce tx)) (List.filter Filter (TxDifference l l')).
Proof. intros Hl. apply Forall_forall. intros x Hx. apply filter_In in Hx as [Hx _]. apply filter_In in Hx as [Hx _]. rewrite Forall_forall in Hl. by apply Hl. Qed.

Lemma reorg_txs_ok oldHead newHead : exists r, reorg_txs oldHead newHead = Ret r /\ match r with Some out => Forall (fun tx => in64 (tx_nonce tx)) out | None => True end.
Proof.
  unfold reorg_txs. destruct (64 <? _); [(eexists; split; [reflexivity|by constructor])|]. destruct (GetBlock (hd_hash oldHead) (hd_number oldHead)) as [r|] eqn:Hr; [|destruct (_ <=? _); (eexists; split; [reflexivity|by constructor])]. destruct (GetBlock (hd_hash newHead) (hd_number newHead)) as [a|] eqn:Ha; [|(eexists; split; [reflexivity|by constructor])].
  destruct (found_on_chain _ _ _ Hr) as [Hrc _], (found_on_chain _ _ _ Ha) as [Hac _].
  destruct (walk_down_ok (S (Z.to_nat (hd_number (fst r)))) r (hd_number (fst a)) [] Hrc) as [->|(r' & bs & -> & Hbr & Hle)]; [lia|(eexists; split; [reflexivity|by constructor])|]. cbn [obind app]. destruct (branch_nonces r bs r' Hrc Hbr) as [Hrc' Hbs].
  destruct (walk_down_ok (S (Z.to_nat (hd_number (fst a)))) a (hd_number (fst r')) [] Hac) as [->|(a' & bs' & -> & Hbr' & _)]; [lia|(eexists; split; [reflexivity|by constructor])|]. cbn [obind app]. destruct (branch_nonces a bs' a' Hac Hbr') as [Hac' _].
  destruct (walk_both_ok (S (Z.to_nat (hd_number (fst r')))) r' a' (branch_txs bs) (branch_txs bs') Hrc' Hac') as [->|(e & e' & cs & cs' & -> & Hb & _ & _)]; [lia|(eexists; split; [reflexivity|by constructor])|]. cbn [obind]. eexists. split; [reflexivity|]. apply difference_nonces, Forall_app. split; [done|by apply (branch_nonces r' cs e)].
Qed.

(** *** The walk along two branches that meet *)

Lemma branch_number b bs e : on_chain b -> branch b bs e -> hd_number (fst e) = hd_number (fst b) - Zlen bs.
Proof. intros Hb Hbr. induction Hbr as [b|b b' bs e Hp Hbr IH]; [unfold Zlen; cbn; lia|]. destruct (parent_on_chain b b' Hb Hp) as [Hb' Hn]. rewrite (IH Hb'), Hn. unfold Zlen. cbn. lia. Qed.

Lemma walk_down_along fuel : forall b bs c to acc, on_chain b -> branch b bs c -> hd_number (fst c) <= to -> (Z.to_nat (hd_number (fst b)) < fuel)%nat ->
  exists e bs1 bs2, walk_down fuel b to acc = Ret (Some (e, acc ++ branch_txs bs1)) /\ branch b bs1 e /\ branch e bs2 c /\ hd_number (fst e) = Z.min (hd_number (fst b)) to.
Proof.
  induction fuel as [|fuel IH]; intros b bs c to acc Hb Hbr Hto Hf; [lia|]. cbn [walk_down]. destruct (Z.ltb_spec to (hd_number (fst b))) as [Hlt|Hge]; cbn [negb]; [|exists b, [], bs; rewrite app_nil_r; split_and!; [done|constructor|done|lia]].
  destruct Hbr as [b|b b' bs c Hp Hbr]; [lia|]. rewrite Hp. destruct (parent_on_chain b b' Hb Hp) as [Hb' Hn]. destruct (IH b' bs c to (acc ++ snd b) Hb' Hbr Hto) as (e & bs1 & bs2 & -> & H1 & H2 & He); [destruct Hb' as [[] _]; lia|].
  exists e, (b :: bs1), bs2. split_and!; [|by econstructor|done|lia]. unfold branch_txs. cbn. by rewrite <- (assoc_L (++)).
Qed.

Lemma walk_both_along fuel : forall r a bs bs' c discarded included, on_chain r -> on_chain a -> branch r bs c -> branch a bs' c -> length bs = length bs' -> (Z.to_nat (hd_number (fst r)) < fuel)%nat ->
  exists e e' bs1 bs1', walk_both fuel r a discarded included = Ret (Some (discarded ++ branch_txs bs1, included ++ branch_txs bs1')) /\ branch r bs1 e /\ branch a bs1' e' /\ hd_hash (fst e) = hd_hash (fst e').
Proof.
  induction fuel as [|fuel IH]; intros r a bs bs' c discarded included Hr Ha Hbr Hba Hlen Hf; [lia|]. cbn [walk_both]. destruct (Z.eqb_spec (hd_hash (fst r)) (hd_hash (fst a))) as [He|He]; [exists r, a, [], []; rewrite !app_nil_r; split_and!; [done|constructor|constructor|done]|].
  destruct Hbr as [r|r r' bs c Hpr Hbr]; [destruct Hba; [done|done]|]. inversion Hba as [|? a' bs2 ? Hpa Hba']; subst; [done|]. rewrite Hpr, Hpa. destruct (parent_on_chain r r' Hr Hpr) as [Hr' Hn], (parent_on_chain a a' Ha Hpa) as [Ha' _].
  destruct (IH r' a' bs bs2 c (discarded ++ snd r) (included ++ snd a) Hr' Ha' Hbr Hba') as (e & e' & bs1 & bs1' & -> & Hb & Hb' & Heq); [cbn in Hlen; lia|destruct Hr' as [[] _]; lia|].
  exists e, e', (r :: bs1), (a :: bs1'). split_and!; [|by econstructor|by econstructor|done]. unfold branch_txs. cbn. by rewrite <- !(assoc_L (++)).
Qed.

Lemma to_float64_small n : Z.abs n < 2 ^ 53 -> to_float64 n = n.
Proof.
  intros Hn. unfold to_float64. rewrite (proj2 (Z.leb_le _ 0)); [done|]. destruct (decide (n = 0)) as [->|Hnz]; [done|]. enough (Z.log2 (Z.abs n) < 53) by lia. apply Z.log2_lt_pow2; lia.
Qed.

(** Below 2^53 the depth is exact. *)
Lemma reorg_depth_exact n n' : 0 <= n < 2 ^ 53 -> 0 <= n' < 2 ^ 53 -> reorg_depth n n' = Z.abs (n - n').
Proof. intros Hn Hn'. unfold reorg_depth. by rewrite (to_float64_small n), (to_float64_small n'), to_float64_small by lia. Qed.

(** [C27] A change of branch loses no transaction.  When the old and the new head are below
    2^53 and at most 64 blocks apart, and descend from a common block, [reset] walks both
    branches down to a block with the same hash and reinjects exactly the transactions of
    the old branch, of the type that the pool accepts, whose hash is not that of a
    transaction of the new branch. *)
Theorem reorg_reinjects oldHead newHead r a bs bs' c : hd_number oldHead < 2 ^ 53 -> hd_number newHead < 2 ^ 53 -> Z.abs (hd_number oldHead - hd_number newHead) <= 64 -> GetBlock (hd_hash oldHead) (hd_number oldHead) = Some r -> GetBlock (hd_hash newHead) (hd_number newHead) = Some a -> branch r bs c -> branch a bs' c ->
  exists out e e' lost won, reorg_txs oldHead newHead = Ret (Some out) /\ branch r lost e /\ branch a won e' /\ hd_hash (fst e) = hd_hash (fst e') /\
    forall tx, tx ∈ out <-> tx ∈ branch_txs lost /\ tx_type tx = Transactions.DynamicFeeTxType /\ forall tx', tx' ∈ branch_txs won -> tx_hash tx' <> tx_hash tx.
Proof.
  intros Hold Hnew Hnear Hr Ha Hbr Hba. destruct (found_on_chain _ _ _ Hr) as [Hrc Hrn], (found_on_chain _ _ _ Ha) as [Hac Han]. unfold reorg_txs. pose proof (proj1 Hrc) as Hr0. pose proof (proj1 Hac) as Ha0.
  rewrite reorg_depth_exact, (proj2 (Z.ltb_ge _ _)), Hr, Ha by (done || lia).
  pose proof (branch_number r bs c Hrc Hbr) as Hnr. pose proof (branch_number a bs' c Hac Hba) as Hna. pose proof (Zlen_nonneg bs) as Hl1. pose proof (Zlen_nonneg bs') as Hl2.
  destruct (walk_down_along (S (Z.to_nat (hd_number (fst r)))) r bs c (hd_number (fst a)) [] Hrc Hbr) as (r' & lost1 & rest1 & -> & Hl & Hrest & Hmin); [lia|lia|]. cbn [obind app]. destruct (branch_nonces r lost1 r' Hrc Hl) as [Hrc' _].
  destruct (walk_down_along (S (Z.to_nat (hd_number (fst a)))) a bs' c (hd_number (fst r')) [] Hac Hba) as (a' & won1 & rest2 & -> & Hw & Hrest2 & Hmin2); [lia|lia|]. cbn [obind app]. destruct (branch_nonces a won1 a' Hac Hw) as [Hac' _].
  pose proof (branch_number r' rest1 c Hrc' Hrest) as Hn1. pose proof (branch_number a' rest2 c Hac' Hrest2) as Hn2.
  destruct (walk_both_along (S (Z.to_nat (hd_number (fst r')))) r' a' rest1 rest2 c (branch_txs lost1) (branch_txs won1) Hrc' Hac' Hrest Hrest2) as (e & e' & lost2 & won2 & -> & Hb & Hb' & Heq); [unfold Zlen in *; lia|lia|]. cbn [obind].
  eexists _, e, e', (lost1 ++ lost2), (won1 ++ won2). split; [reflexivity|]. split_and!; [by eapply branch_app|by eapply branch_app|done|]. intros tx. assert (Happ : forall x y, branch_txs (x ++ y) = branch_txs x ++ branch_txs y) by (intros x y; unfold branch_txs; by rewrite map_app, concat_app).
  rewrite !Happ. unfold TxDifference. rewrite !list_elem_of_In, !filter_In. unfold Filter. rewrite Z.eqb_eq, negb_true_iff, <- not_true_iff_false, existsb_exists. split.
  - intros [[H1 H2] H3]. split_and!; [done|done|]. intros x Hx Hh. apply H2. exists x. split; [by apply list_elem_of_In|]. by apply Z.eqb_eq.
  - intros (H1 & H2 & H3). split_and!; [done| |done]. intros (x & Hx & Hh%Z.eqb_eq). by apply (H3 x); [apply list_elem_of_In|].
Qed.

(** ** Reorganisations *)

(** An old head comes with a new one, and all transactions can be counted. *)
Definition reset_ok p (oldHead newHead : option Head) : Prop := match oldHead with
  | None => Z.of_nat (size (known p)) < 2 ^ 63
  | Some oldHead => exists newHead', newHead = Some newHead' /\ forall out, hd_hash oldHead = hd_parent newHead' /\ out = [] \/ reorg_txs oldHead newHead' = Ret (Some out) -> Z.of_nat (size (known p)) + Zlen out < 2 ^ 63
  end.

Definition counted p : Prop := Z.of_nat (size (known p)) < 2 ^ 63.

Lemma reset_books p oldHead newHead : pool_ok p -> config_ok (p_config p) -> counted p -> reset_ok p oldHead newHead -> ends (reset oldHead newHead) p (fun _ p' => pool_ok p' /\ p_config p' = p_config p /\ counted p').
Proof.
  intros Hp Hc Hcnt Hok. unfold reset. set (m := match oldHead with None => _ | Some _ => _ end).
  assert (Hm : ends m p (fun r q => q = p /\ match r with Some out => Forall (fun tx => in64 (tx_nonce tx)) out /\ Z.of_nat (size (known p)) + Zlen out < 2 ^ 63 | None => True end)).
  { unfold m. destruct oldHead as [oldHead|]; [|apply ends_ret; split_and!; [done|done|unfold Zlen; cbn; unfold reset_ok in Hok; lia]]. destruct Hok as (newHead' & -> & Hsmall). apply (ends_lifted _ newHead'); [done|]. destruct (Z.eqb_spec (hd_hash oldHead) (hd_parent newHead')); [apply ends_ret; split_and!; [done|done|apply Hsmall; by left]|].
    destruct (reorg_txs_ok oldHead newHead') as (r & Hr & Hn). eapply ends_lift; [exact Hr|]. split; [done|]. destruct r as [out|]; [|done]. split; [done|]. apply Hsmall. by right. }
  eapply ends_bind; [exact Hm|]. intros r q [-> Hr]. destruct r as [out|]; [|by apply ends_ret]. destruct Hr as [Hn Hsmall]. destruct (StateAt _) as [[nonce balance]|]; [|by apply ends_ret]. apply ends_then, ends_modify, ends_then, ends_modify. set (q := set_nonces _ _).
  assert (Hq : pool_ok q) by (eapply same_inv; [|exact Hp]; by split). eapply ends_bind; [by apply (addTxs_ok false out q)|]. intros [errs dirty] q' (Hq' & Hg & _). apply ends_ret. split_and!; [done|by rewrite (gn_config _ _ _ _ Hg)|]. unfold counted. pose proof (gn_size _ _ _ _ Hg) as Hsz. change (known q) with (known p) in Hsz. lia.
Qed.

Lemma counted_shrinks p p' : shrinks p p' -> counted p -> counted p'.
Proof. intros [_ Hk] Hc. unfold counted in *. apply map_subseteq_size in Hk. lia. Qed.

Lemma range_keys {A} (m : gmap Z A) a : a ∈ map fst (range m) -> is_Some (m !! a).
Proof. intros Ha. apply list_elem_of_fmap in Ha as ([a' l] & -> & Hl). rewrite range_perm in Hl. apply elem_of_map_to_list in Hl. eauto. Qed.

(** *** What stays executable *)

Lemma executable_sub v a (it it' : gmap Z T) k : nonced it -> nonced it' -> it' <> ∅ -> flat it' = take k (flat it) -> executable_items v a it -> executable_items v a it'.
Proof.
  intros Hn Hn' Hne Hflat [Hall [x Hx]]. assert (Hsub : forall y, y ∈ flat it' -> y ∈ flat it) by (intros y; rewrite Hflat; intros (i & Hi & _)%elem_of_take; by eapply list_elem_of_lookup_2).
  assert (Hkeys : forall n y, it' !! n = Some y -> it !! n = Some y). { intros n y Hy. destruct (Hn' n y Hy) as [Hk _]. rewrite <- Hk in *. apply elem_flat_nonce in Hy; [|done]. apply elem_flat_nonce; [done|]. by apply Hsub. }
  split; [intros n y Hy; apply Hall; by apply Hkeys|]. rewrite (flat_min it _ x Hx) in Hflat by (intros j [y Hy]; by apply Hall in Hy as []).
  assert (Hx' : x ∈ flat it'). { destruct k as [|k]; cbn in Hflat; [|rewrite Hflat; set_solver]. destruct Hne. apply map_size_empty_iff. by rewrite <- length_flat, Hflat. }
  apply elem_flat_nonce in Hx'; [|done]. destruct (Hn _ x Hx) as [<- _]. eauto.
Qed.

Lemma executable_trimmed R D p p' v a : pool_inv [] None R D p -> pool_inv [] None R D p' -> trimmed p p' -> executable v a p -> executable v a p'.
Proof.
  intros Hp Hp' (_ & _ & Ht) Hx l' Hl'. destruct (Ht a l' Hl') as (l & k & Hl & Hk). eapply executable_sub; [| | |exact Hk|by apply Hx]; [apply ok_nonced, (inv_list Hp true a l Hl)|apply ok_nonced, (inv_list Hp' true a l' Hl')|by apply (sd_some _ _ _ (pi_side _ _ _ _ p' Hp' true) a l' Hl')].
Qed.

Lemma executable_dropped R D p p' v a out : pool_inv [] None R D p' -> dropped out p p' -> executable v a p -> executable v a p'.
Proof.
  intros Hp' (_ & Hi & _) Hx l' Hl'. pose proof (sd_some _ _ _ (pi_side _ _ _ _ p' Hp' true) a l' Hl' ltac:(done)) as Hne. apply map_choose in Hne as (n & x & Hn). pose proof (Hi a n) as Hin. rewrite (item_list _ _ _ _ Hl'), Hn in Hin. unfold item in Hin. destruct (p_pending p !! a) as [l|] eqn:Hl; [|done].
  assert (items (txs l') = items (txs l)) as ->; [|by apply Hx]. apply map_eq. intros k. pose proof (Hi a k) as Hk. by rewrite (item_list _ _ _ _ Hl'), (item_list _ _ _ _ Hl) in Hk.
Qed.

Lemma limited_dropped p p' out D : pool_inv [] None ∅ D p -> pool_inv [] None ∅ D p' -> dropped out p p' -> pending_limited p -> pending_limited p'.
Proof.
  intros Hp Hp' (Hs & Hi & _) Hl. assert (Hpl : forall a, plen p' a = plen p a).
  { intros a. unfold plen, list_Len, sm_Len. destruct (p_pending p' !! a) as [l'|] eqn:Hl', (p_pending p !! a) as [l|] eqn:Hl0; try done.
    - do 2 f_equal. apply map_eq. intros k. pose proof (Hi a k) as Hk. by rewrite (item_list _ _ _ _ Hl'), (item_list _ _ _ _ Hl0) in Hk.
    - pose proof (sd_some _ _ _ (pi_side _ _ _ _ p' Hp' true) a l' Hl' ltac:(done)) as Hne. apply map_choose in Hne as (n & x & Hn). pose proof (Hi a n) as Hin. rewrite (item_list _ _ _ _ Hl'), Hn in Hin. unfold item in Hin. by rewrite Hl0 in Hin.
    - pose proof (sd_some _ _ _ (pi_side _ _ _ _ p Hp true) a l Hl0 ltac:(done)) as Hne. apply map_choose in Hne as (n & x & Hn). pose proof (Hi a n) as Hin. rewrite (item_list _ _ _ _ Hl0), Hn in Hin. unfold item in Hin. by rewrite Hl' in Hin. }
  unfold pending_limited in *. rewrite (se_config _ _ (sh_env _ _ Hs)), (se_locals _ _ (sh_env _ _ Hs)). destruct Hl as [Hl|Hl]; [left|right; intros a Ha; rewrite Hpl; by apply Hl].
  enough (count (p_pending p') = count (p_pending p)) by lia. rewrite <- !length_contents. f_equal. apply Permutation_length, NoDup_Permutation; [eapply NoDup_contents, (pi_side _ _ _ _ p' Hp' true)|eapply NoDup_contents, (pi_side _ _ _ _ p Hp true)|]. intros x. rewrite !elem_contents. by setoid_rewrite Hi.
Qed.

Lemma executable_same v a p p' : p_pending p' = p_pending p -> executable v a p -> executable v a p'.
Proof. intros Hp Hx l. rewrite Hp. apply Hx. Qed.

Lemma reorg_after_ok p newHead : pool_ok p -> ends (reorg_after newHead) p (fun _ p' => pool_ok p' /\ shrinks p p' /\ forall a, executable (p_view p) a p').
Proof.
  intros Hp. unfold reorg_after. eapply ends_bind; [by apply (demote_ok [] p)|]. intros _ q (Hq & Hs & Hx).
  assert (Hfee : ends (match newHead with Some newHead => on_priced (SetBaseFee (hd_nextFee newHead)) | None => mret tt end) q (fun _ r => pool_ok r /\ shrinks q r /\ p_pending r = p_pending q)).
  { destruct newHead as [newHead|]; [|by apply ends_ret]. eapply ends_mono; [apply (on_priced_ok _ _ _ [] [] q _ Hq); apply base_ok|]. intros _ r (Hr & Hs' & Hl & _). split_and!; [done|done|exact (Hl true)]. }
  eapply ends_bind; [exact Hfee|]. intros _ r (Hr & Hs' & Hpend). apply ends_get. eapply ends_bind; [apply (next_nonces_ok ∅ [] _ r Hr); intros a; apply range_keys|]. intros ns r2 [Hr2 Hd]. unfold on_nonces, noncer_setAll, mmodify. eexists tt, _. split; [reflexivity|]. split_and!.
  - eapply same_inv; [|exact Hr2]; by split.
  - etrans; [exact Hs|]. etrans; [exact Hs'|]. etrans; [apply Hd|]. by split.
  - intros a. apply (executable_same _ _ r2); [done|]. apply (executable_dropped ∅ [] r r2 _ _ [] Hr2 Hd). apply (executable_same _ _ q); [done|apply Hx].
Qed.

(** The promises of a reorganisation. *)
Definition reorg_done (reset_ : option (option Head * option Head)) p' : Prop :=
  pending_limited p' /\ queue_limited p' /\ p_changes p' = 0 /\ match reset_ with Some _ => forall a, executable (p_view p') a p' | None => True end.

Lemma truncate_ok p : pool_ok p -> config_ok (p_config p) -> counted p ->
  ends (truncatePending ;;; truncateQueue ;;; mmodify (set_changes 0)) p (fun _ p' => pool_ok p' /\ shrinks p p' /\ pending_limited p' /\ queue_limited p' /\ p_changes p' = 0 /\ forall v a, executable v a p -> executable v a p').
Proof.
  intros Hp Hc Hcnt. assert (Hcp : count (p_pending p) < 2 ^ 63) by (pose proof (count_known _ _ _ _ p true Hp) as Hk; unfold counted in Hcnt; cbn [lists] in Hk; lia). eapply ends_bind; [by apply (truncatePending_ok [] p)|]. intros _ q (Hq & Ht & Hlim).
  assert (Hcq : counted q) by (by eapply counted_shrinks; [apply Ht|]). assert (Hcc : config_ok (p_config q)) by (by rewrite (se_config _ _ (sh_env _ _ (proj1 Ht)))). assert (Hcount : count (p_queue q) < 2 ^ 63) by (pose proof (count_known _ _ _ _ q false Hq) as Hk; unfold counted in Hcq; cbn [lists] in Hk; lia).
  eapply ends_bind; [by apply (truncateQueue_ok [] q)|]. intros _ r (Hr & [out Hd] & Hlim'). apply ends_modify. set (r' := set_changes 0 r). split_and!.
  - eapply same_inv; [|exact Hr]; by split.
  - etrans; [apply Ht|]. etrans; [apply Hd|]. by split.
  - exact (limited_dropped q r out [] Hq Hr Hd Hlim).
  - exact Hlim'.
  - done.
  - intros v a Hx. apply (executable_same _ _ r); [done|]. apply (executable_dropped ∅ [] q r _ _ out Hr Hd). by apply (executable_trimmed ∅ [] p q).
Qed.

Lemma ends_truncate {A} p (k : M (LegacyPool T) A) Q : ends (truncatePending ;;; truncateQueue ;;; mmodify (set_changes 0)) p (fun _ p' => ends k p' Q) -> ends (truncatePending ;;; truncateQueue ;;; mmodify (set_changes 0) ;;; k) p Q.
Proof. intros H. apply ends_then_inv in H. eapply ends_bind; [exact H|]. intros [] q Hq. apply ends_then_inv in Hq. eapply ends_bind; [exact Hq|]. intros [] r Hr. eapply ends_bind; [exact Hr|]. by intros [] r'. Qed.

Lemma runReorg_ok p reset_ dirty events : pool_ok p -> config_ok (p_config p) -> counted p -> events_ok events -> match reset_ with Some (oldHead, newHead) => reset_ok p oldHead newHead | None => True end ->
  ends (runReorg reset_ dirty events) p (fun _ p' => pool_ok p' /\ p_config p' = p_config p /\ reorg_done reset_ p').
Proof.
  intros Hp Hc Hcnt Hev Hreset. unfold runReorg. set (m := match reset_ with None => _ | Some _ => _ end).
  assert (Hm : ends m p (fun r q => events_ok (fst r) /\ pool_ok q /\ p_config q = p_config p /\ counted q)).
  { unfold m. destruct reset_ as [[oldHead newHead]|]; [|by apply ends_ret]. unfold reorg_before. eapply ends_bind; [by apply reset_books|]. intros _ q (Hq & Hcq & Hcntq). eapply ends_bind; [by apply (trim_ok [] None ∅ [] _ q events)|]. intros ev q' (Hev' & Hq' & Hs). apply ends_get, ends_ret. split_and!; [done|done|by rewrite (se_config _ _ (sh_env _ _ Hs))|by eapply counted_shrinks]. }
  eapply ends_bind; [exact Hm|]. intros [ev addrs] q (Hev' & Hq & Hcq & Hcntq). cbn [fst snd] in *. eapply ends_bind; [apply (promote_ok [] addrs q Hq); by rewrite Hcq|]. intros promoted q1 (Hq1 & Hs1 & Hn).
  assert (Hafter : ends (match reset_ with Some (_, newHead) => reorg_after newHead | None => mret tt end) q1 (fun _ q2 => pool_ok q2 /\ shrinks q1 q2 /\ match reset_ with Some _ => forall a, executable (p_view q1) a q2 | None => True end)) by (destruct reset_ as [[oldHead newHead]|]; [by apply reorg_after_ok|by apply ends_ret]).
  eapply ends_bind; [exact Hafter|]. intros _ q2 (Hq2 & Hs2 & Hx). assert (Hcq2 : p_config q2 = p_config p) by (by rewrite (se_config _ _ (sh_env _ _ Hs2)), (se_config _ _ (sh_env _ _ Hs1))).
  apply ends_truncate. eapply ends_mono; [apply (truncate_ok q2 Hq2); [by rewrite Hcq2|by do 2 (eapply counted_shrinks; [eassumption|])]|]. intros [] q3 (Hq3 & Hs3 & L1 & L2 & L3 & Hkeep). destruct (event_txs_ok ev promoted Hev' Hn) as [r Hr]. eapply ends_lift; [exact Hr|].
  split_and!; [done|by rewrite (se_config _ _ (sh_env _ _ Hs3))|]. split_and!; [done|done|done|]. destruct reset_; [|done]. intros a. rewrite (se_view _ _ (sh_env _ _ Hs3)), (se_view _ _ (sh_env _ _ Hs2)). apply Hkeep, Hx.
Qed.

(** ** The other operations *)

Lemma evict_ok p : pool_ok p -> ends evict p (fun _ p' => pool_ok p' /\ shrinks p p').
Proof.
  intros Hp. unfold evict. apply ends_get. set (ks := map fst (range (p_queue p))). assert (Hks : ks ≡ₚ map fst (map_to_list (p_queue p))) by (unfold ks; f_equiv; apply range_perm).
  eapply ends_mono; [apply (ends_foreach _ (fun (r : list Z) q => pool_ok q /\ shrinks p q /\ NoDup r /\ forall b, b ∈ r -> is_Some (p_queue q !! b)))|intros [] q (? & ? & _); done].
  - split_and!; [done|done|rewrite Hks; apply NoDup_fst_map_to_list|intros b; apply range_keys].
  - intros a r q (Hq & Hs & Hnd & Hin). apply list.NoDup_cons in Hnd as [Ha Hnd]. assert (Hrest : forall b, b ∈ r -> is_Some (p_queue q !! b)) by (intros b Hb; apply Hin; set_solver). apply ends_get. case_bool_decide; [by apply ends_ret|]. destruct (Lifetime _ <? _); [|by apply ends_ret].
    destruct (Hin a) as [l Hl]; [set_solver|]. eapply ends_bind; [by apply (flatten_run [] q a l)|]. intros out q1 (-> & Hq1 & Hd1 & Hndo & Hel & Hsend & Hsome & _). eapply ends_mono; [apply (drop_queued [] a true _ q1 Hndo Hq1); intros tx; by apply Hel|].
    intros [] q2 [Hq2 Hd2]. split_and!; [done|etrans; [exact Hs|]; etrans; [apply Hd1|apply Hd2]|done|]. intros b Hb. apply (dropped_others [] q1 q2 _ a b Hq1 Hd2 Hsend); [intros ->; done|]. by apply Hsome, Hrest.
Qed.

Lemma SetGasTip_ok p tip : pool_ok p -> ends (SetGasTip tip) p (fun _ p' => pool_ok p' /\ p_config p' = p_config p).
Proof.
  intros Hp. unfold SetGasTip. apply ends_get, ends_then, ends_modify. set (q := set_gasTip tip p). assert (Hq : pool_ok q) by (eapply same_inv; [|exact Hp]; by split). destruct (p_gasTip p <? tip); [|by apply ends_ret].
  eapply ends_bind; [by apply (drop_txs_ok [] q)|]. intros _ r [Hr Hs]. eapply ends_mono; [apply (on_priced_ok _ _ _ [] [] r _ Hr); apply removed_ok, Hr|]. intros _ r' (Hr' & Hs' & _). split; [done|]. rewrite (se_config _ _ (sh_env _ _ Hs')). exact (se_config _ _ (sh_env _ _ Hs)).
Qed.

(** A transaction that the checks of [Add] can look at. *)
Definition checkable tx : Prop := in64 (tx_nonce tx) /\ forall gasLimit minTip, exists err, validate_basics gasLimit minTip tx = Ret err.

Definition free (errs : list (option pool_error)) : nat := length (List.filter (fun e => match e with None => true | Some _ => false end) errs).

Lemma first_checks_ok local out : Forall checkable out -> forall seen, exists errs news, first_checks local seen out = Ret (errs, news) /\ free errs = length news /\ Forall (fun tx => in64 (tx_nonce tx)) news /\ (length news <= length out)%nat.
Proof.
  induction out as [|tx out IH]; intros Hck seen; cbn [first_checks]; [by exists [], []|]. apply Forall_cons_1 in Hck as [[Hn Hv] Hck]. destruct (IH Hck (fun i => seen (S i))) as (errs & news & Hr & Hf & Hnn & Hlen). rewrite Hr.
  assert (He : exists err, (match all_Get (tx_hash tx) (p_all (seen O)) with Some _ => Ret (Some ErrAlreadyKnown) | None => validateTxBasics tx local (seen O) end) = Ret err) by (destruct (all_Get (tx_hash tx) (p_all (seen O))); [by eexists|apply Hv]). destruct He as [err ->]. cbn [obind].
  destruct err as [err|]; (eexists _, _; split; [reflexivity|]); [split_and!; [done|done|cbn; lia]|]. split_and!; [unfold free in *; cbn; by rewrite Hf|by constructor|cbn; lia].
Qed.

Lemma merge_errs_ok errs : forall news, length news = free errs -> exists r, merge_errs errs news = Ret r /\ length r = length errs.
Proof.
  induction errs as [|e errs IH]; intros news Hl; [destruct news; [by exists []|done]|]. destruct news as [|err news]; [by exists (e :: errs)|]. cbn [merge_errs]. destruct e as [e|]; unfold free in Hl; cbn in Hl.
  - destruct (IH (err :: news) Hl) as (r & Hr & Hlen). rewrite Hr. exists (Some e :: r). cbn. by rewrite Hlen.
  - injection Hl as Hl. destruct (IH news Hl) as (r & Hr & Hlen). rewrite Hr. exists (err :: r). cbn. by rewrite Hlen.
Qed.

Lemma Add_keeps p seen out local : pool_ok p -> config_ok (p_config p) -> Forall checkable out -> ends (Add seen out local) p (fun _ p' => pool_ok p' /\ p_config p' = p_config p).
Proof.
  intros Hp Hc Hck. unfold Add. apply ends_get. set (b := local && _). destruct (first_checks_ok b out Hck seen) as (errs & news & Hr & Hf & Hn & _). eapply ends_lifted; [exact Hr|]. cbn [fst snd]. destruct (Zlen news =? 0); [by apply ends_ret|].
  eapply ends_bind; [by apply (addTxs_ok b news p)|]. intros [newErrs dirty] q (Hq & Hg & Hlen). cbn [fst] in Hlen. destruct (merge_errs_ok errs newErrs) as (r & Hm & _); [by rewrite Hf|]. eapply ends_lifted; [exact Hm|]. apply ends_ret. split; [done|apply Hg].
Qed.

(** ** Histories *)

Inductive pool_op : Type :=
| OAdd (seen : nat -> LegacyPool T) (out : list T) (local : bool)
| OReorg (reset_ : option (option Head * option Head)) (dirty : list Z) (events : gmap Z (sortedMap T))
| OEvict
| OSetGasTip (tip : Z)
| OTick (now : Z)
| OReserved (foreign : gset Z).

(** The steps of a pool: its operations, the passing of time, and reservations of other
    pools.  A step is what an operation does under the lock; the checks that [Add] makes
    before it takes the lock may have seen any pools. *)
Definition run_op (op : pool_op) : M (LegacyPool T) unit :=
  match op with
  | OAdd seen out local => let* _ := Add seen out local in mret tt
  | OReorg reset_ dirty events => let* _ := runReorg reset_ dirty events in mret tt
  | OEvict => evict
  | OSetGasTip tip => SetGasTip tip
  | OTick now => mmodify (fun p => set_view (mkView (v_nonce (p_view p)) (v_balance (p_view p)) (v_gasLimit (p_view p)) now) p)
  | OReserved foreign => mmodify (fun p => mkPool (p_config p) (p_view p) (p_gasTip p) (p_nonces p) (p_locals p) (p_reserved p) foreign (p_pending p) (p_queue p) (p_beats p) (p_all p) (p_priced p) (p_changes p) (p_events p))
  end.

(** What the operations rely on: transactions that the checks return for, events made of
    sorted maps, a new head with an old one, fewer transactions than 2^63, and other pools
    that respect the reservations. *)
Definition op_ok (op : pool_op) p : Prop :=
  match op with
  | OAdd _ out _ => Forall checkable out
  | OReorg reset_ _ events => counted p /\ events_ok events /\ match reset_ with Some (oldHead, newHead) => reset_ok p oldHead newHead | None => True end
  | OReserved foreign => p_reserved p ## foreign
  | _ => True
  end.

Inductive pool_history (config : Config) : LegacyPool T -> Prop :=
| history_new locals view gasTip foreign : pool_history config (New config locals view gasTip foreign)
| history_op op p p' : pool_history config p -> op_ok op p -> run_op op p = Ret (tt, p') -> pool_history config p'.

Lemma New_ok config locals view gasTip foreign : pool_ok (New config locals view gasTip foreign).
Proof.
  assert (Hi : forall a n, item (T := T) (∅ : gmap Z (txlist T)) a n = None) by (intros; unfold item; by rewrite lookup_empty). assert (Hs : forall s, lists s (New (T := T) config locals view gasTip foreign) = ∅) by (by intros []).
  split; cbn [New p_all p_pending p_queue p_reserved p_foreign p_priced p_events].
  - intros s. rewrite Hs. split; [intros a l Hl|intros a l Hl|intros a n tx Hx|intros a l Hl]; [by rewrite lookup_empty in Hl|by rewrite lookup_empty in Hl|by rewrite Hi in Hx|by rewrite lookup_empty in Hl].
  - intros a n. left. apply Hi.
  - apply newLookup_ok.
  - intros tx. unfold located. rewrite !Hs. split; [done|]. intros [(a & _ & Hx)|[(a & _ & Hx)|Hx]]; [by rewrite Hi in Hx|by rewrite Hi in Hx|set_solver].
  - set_solver.
  - constructor.
  - intros a. rewrite !lookup_empty. split; [set_solver|]. intros [[]|[[]|]]; [done|done|set_solver].
  - set_solver.
  - apply newPriced_ok.
  - apply map_Forall_empty.
Qed.

Lemma run_op_ok op p : pool_ok p -> config_ok (p_config p) -> op_ok op p -> ends (run_op op) p (fun _ p' => pool_ok p' /\ p_config p' = p_config p).
Proof.
  intros Hp Hc Hop. destruct op as [seen out local|reset_ dirty events| |tip|now|foreign]; cbn [run_op op_ok] in *.
  - eapply ends_bind; [by apply Add_keeps|]. intros r q Hq. by apply ends_ret.
  - destruct Hop as (H1 & H2 & H3). eapply ends_bind; [by apply runReorg_ok|]. intros r q (Hq & Hcq & _). by apply ends_ret.
  - eapply ends_mono; [by apply evict_ok|]. intros [] q [Hq Hs]. split; [done|apply Hs].
  - by apply SetGasTip_ok.
  - apply ends_modify. split; [eapply same_inv; [|exact Hp]; by split|done].
  - apply ends_modify. split; [|done]. destruct Hp as [P1 P2 P3 P4 P5 P6 P7 P8 P9 P10]. by split.
Qed.

Lemma history_ok config p : config_ok (sanitize config) -> pool_history config p -> pool_ok p /\ p_config p = sanitize config.
Proof.
  intros Hc. induction 1 as [locals view gasTip foreign|op p p' Hh [IH Hcp] Hop Hr]; [by split; [apply New_ok|]|]. destruct (run_op_ok op p IH) as (u & q & Hq & Hok & Hcq); [by rewrite Hcp|done|]. rewrite Hr in Hq. injection Hq as _ <-. split; [done|congruence].
Qed.

(** [C9] The books of the pool agree in every history.  Starting from a new pool, whatever
    transactions are added, heads change, accounts expire and tips are raised, every
    operation returns: no slice or map access fails and no loop ends out.  After each of
    them the transactions that the pool knows by hash are those of the pending lists and the
    queues, no account has two for the same nonce, no list is empty, the accounts with a
    list are those reserved, the slots are counted, and the price heaps have every remote
    transaction. *)
Theorem pool_consistent config p : config_ok (sanitize config) -> pool_history config p -> pool_ok p /\ forall op, op_ok op p -> exists p', run_op op p = Ret (tt, p') /\ pool_ok p'.
Proof.
  intros Hc Hh. destruct (history_ok config p Hc Hh) as [Hp Hcp]. split; [done|]. intros op Hop. destruct (run_op_ok op p Hp) as ([] & q & Hq & Hok & _); [by rewrite Hcp|done|]. eauto.
Qed.

(** [C11] After a reorganisation the pool is within its limits: the pending transactions are
    at most [GlobalSlots], or no account that is not local has more than [AccountSlots]; the
    queued ones are at most [GlobalQueue], or only local accounts have a queue.  With a new
    head the pending transactions of an account begin with the nonce of its state, none is
    older, and each alone is within the balance of the account and the gas limit of the
    block. *)
Theorem reorg_promises config p reset_ dirty events : config_ok (sanitize config) -> pool_history config p -> op_ok (OReorg reset_ dirty events) p ->
  exists sent p', runReorg reset_ dirty events p = Ret (sent, p') /\ pool_ok p' /\ reorg_done reset_ p'.
Proof.
  intros Hc Hh (H1 & H2 & H3). destruct (history_ok config p Hc Hh) as [Hp Hcp]. destruct (runReorg_ok p reset_ dirty events Hp) as (sent & q & Hq & Hok & _ & Hd); [by rewrite Hcp|done|done|done|]. eauto 10.
Qed.

End Promises.

#[global] Arguments pool_op T : clear implicits.

(** ** A pool at work *)

#[export] Instance demo_inhabited : Inhabited demo_tx := populate demo_first.

#[export] Instance demo_hashed : HashedSender (T := demo_tx).
Proof. split. intros x y Hh. cbn in *. injection Hh as Hh. apply (inj encode) in Hh. by injection Hh as _ ->. Qed.

#[export] Instance demo_checks : TxChecks demo_tx := {| tx_type _ := Transactions.DynamicFeeTxType; validate_basics _ _ _ := Ret None |}.

(** Transactions of the account 7, the one with the nonce 7 more expensive than the rest. *)
Definition of_nonce (n : Z) : demo_tx := mkDemo n 7 100 10 (if n =? 7 then 1000 else 10) n.

(** Two branches above a first block.  The left one has three transactions of the account,
    so that its nonce is 8; the right one has none, and the account has little money. *)
Definition first_head : Head := mkHead 1 0 0 10 30000000 100.
Definition left_head : Head := mkHead 2 1 1 20 30000000 100.
Definition right_head : Head := mkHead 3 1 1 30 30000000 100.

#[export] Instance demo_chain : PoolChain demo_tx := {|
  GetBlock h n :=
    if decide (h = 1 /\ n = 0) then Some (first_head, [])
    else if decide (h = 2 /\ n = 1) then Some (left_head, [of_nonce 5; of_nonce 6; of_nonce 7])
    else if decide (h = 3 /\ n = 1) then Some (right_head, [])
    else None;
  StateAt root := if root =? 30 then Some (fun _ => 5, fun _ => 100) else Some (fun _ => 8, fun _ => 5000);
  CurrentBlock := left_head
|}.

#[export] Instance demo_chain_ok : ChainSpec (T := demo_tx).
Proof.
  split; intros h n b; cbn; repeat case_decide; intros [= <-]; destruct_and?; subst; try done; cbn; try lia. by repeat constructor.
Qed.

Definition demo_pool : LegacyPool demo_tx := New DefaultConfig [] (mkView (fun _ => 8) (fun _ => 5000) 30000000 (10 * hour)) 1 ∅.

Lemma demo_config : config_ok (sanitize DefaultConfig).
Proof. by split. Qed.

(** Two transactions arrive and are promoted; then the branch changes. *)
Definition after (op : pool_op demo_tx) (p : LegacyPool demo_tx) : LegacyPool demo_tx := match run_op op p with Ret (_, p') => p' | _ => p end.

Definition arrive : pool_op demo_tx := OAdd (fun _ => demo_pool) [of_nonce 8; of_nonce 9] false.
Definition promote : pool_op demo_tx := OReorg None [7] ∅.
Definition change : pool_op demo_tx := OReorg (Some (Some left_head, Some right_head)) [] ∅.

Definition pool1 : LegacyPool demo_tx := after arrive demo_pool.
Definition pool2 : LegacyPool demo_tx := after promote pool1.
Definition pool3 : LegacyPool demo_tx := after change pool2.

Lemma after_history op p : pool_history DefaultConfig p -> op_ok op p -> pool_history DefaultConfig (after op p).
Proof.
  intros Hh Hop. apply (history_op DefaultConfig op p); [done|done|]. destruct (history_ok DefaultConfig p demo_config Hh) as [Hp Hc]. destruct (run_op_ok op p Hp) as ([] & q & Hq & _); [rewrite Hc; apply demo_config|done|]. unfold after. by rewrite Hq.
Qed.

Lemma history1 : pool_history DefaultConfig pool1.
Proof. apply after_history; [apply history_new|]. repeat constructor; eauto; done. Qed.

Lemma promote_demo_ok : op_ok promote pool1.
Proof. split_and!; [vm_compute; done|apply map_Forall_empty|done]. Qed.

Lemma history2 : pool_history DefaultConfig pool2.
Proof. apply after_history; [apply history1|apply promote_demo_ok]. Qed.

Lemma change_demo_ok : op_ok change pool2.
Proof.
  split_and!; [vm_compute; done|apply map_Forall_empty|]. exists right_head. split; [done|]. assert (Hsz : size (known pool2) = 2%nat) by (vm_compute; done). rewrite Hsz. intros out [[Hh _]|Ho]; [done|].
  assert (Hr : reorg_txs left_head right_head = Ret (Some [of_nonce 5; of_nonce 6; of_nonce 7])) by (vm_compute; done). rewrite Hr in Ho. injection Ho as <-. vm_compute. done.
Qed.

Lemma pool_consistent_witness : exists p', run_op change pool2 = Ret (tt, p') /\ pool_ok p'.
Proof. refine (proj2 (pool_consistent DefaultConfig pool2 demo_config history2) change _). exact change_demo_ok. Defined.

Lemma reorg_promises_witness : exists sent p', runReorg (Some (Some left_head, Some right_head)) [] ∅ pool2 = Ret (sent, p') /\ pool_ok p' /\ reorg_done (Some (Some left_head, Some right_head)) p'.
Proof. refine (reorg_promises DefaultConfig pool2 (Some (Some left_head, Some right_head)) [] ∅ demo_config history2 _). exact change_demo_ok. Defined.

Lemma reorg_reinjects_witness : exists out, reorg_txs left_head right_head = Ret (Some out).
Proof.
  refine (match reorg_reinjects left_head right_head (left_head, [of_nonce 5; of_nonce 6; of_nonce 7]) (right_head, []) [(left_head, [of_nonce 5; of_nonce 6; of_nonce 7])] [(right_head, [])] (first_head, []) _ _ _ _ _ _ _ with ex_intro _ out (ex_intro _ _ (ex_intro _ _ (ex_intro _ _ (ex_intro _ _ (conj H _))))) => ex_intro _ out H end).
  - done.
  - done.
  - done.
  - reflexivity.
  - reflexivity.
  - apply (branch_step _ (first_head, [])); [reflexivity|constructor].
  - apply (branch_step _ (first_head, [])); [reflexivity|constructor].
Defined.

(** [C38] The pending transactions of an account can have a gap.  A change of branch takes the
    nonce of an account from 8 back to 5; the transactions 5 and 6 come back, 7 is refused
    for lack of funds, and 8 and 9 were pending before.  The promotion puts 5 and 6 in front
    of them, and the check of [demoteUnexecutables] for a gap only looks at the front, so
    that the pool offers 5, 6, 8 and 9 for the next block and takes 10 for the next nonce. *)
Theorem pending_gap : pool_history DefaultConfig pool3 /\
  (exists p, Pending None None pool3 = Ret ([(7, [of_nonce 5; of_nonce 6; of_nonce 8; of_nonce 9])], p)) /\
  exists p, Nonce 7 pool3 = Ret (10, p).
Proof.
  split; [apply after_history; [apply history2|apply change_demo_ok]|]. split.
  - eexists. vm_compute. reflexivity.
  - eexists. vm_compute. reflexivity.
Qed.

(** A limit of the queue that does not fit a signed 64-bit integer is not sanitized, and
    the first promotion of an account with a queued transaction panics: [promoteExecutables]
    turns the limit into a negative number, and [Cap] indexes the list of nonces below
    zero. *)
Theorem huge_queue_panics : let config := mkConfig false 1 10 16 5120 (2 ^ 63) 1024 hour in
  sanitize config = config /\
  let p := New config [] (mkView (fun _ => 8) (fun _ => 5000) 30000000 (10 * hour)) 1 ∅ in
  match Add (fun _ => p) [of_nonce 9] false p with
  | Ret (errs, _, p) => errs = [None] /\ runReorg None [7] ∅ p = Panic
  | _ => False
  end.
Proof. split; [done|]. vm_compute. done. Qed.
